(* ===== verification/_CoqProject ===== *)
-Q . S2P
Prelude.v
Leb128.v
Base40.v
Ctfs.v
GoStd.v
Values.v
Json.v
Recording.v
HostState.v
Assembler.v
Render.v
Stream.v
Agreement.v
Xxh3.v
SnapTypes.v
Streams.v
PageCas.v
Nsb1.v
PageStore.v
Container.v
WasmMemory.v
Waiters.v
Snapshot.v
Slice.v
Manifest.v
Provider.v
Replay.v
ReplaySpec.v
Quiescent.v
StreamReplay.v
StreamSpec.v
Opcodes.v
WasmBinary.v
WasmBinarySpec.v
ProviderModule.v
ValidationTables.v
FuncValidation.v
WasmModule.v
FuncTyping.v
FuncSoundness.v
SpecTyping.v
FuncTotal.v
ValidationSpec.v
Operations.v
Signature.v
LowerTables.v
Lower.v
LowerFlow.v
LowerRun.v
LowerSound.v
LowerSize.v
LowerSpec.v
TypeIDs.v
Interp.v
InterpHeights.v
InterpSafe.v
InterpInt.v
InterpBulk.v
Instantiate.v
InstHeap.v
InstModule.v
InstSpec.v
InstExamples.v
