(* ===== verification/Prelude.v ===== *)
(** * CodeTracer WASM recorder: a verification development

    ** The program

    The repository is the wazero WebAssembly runtime with a recorder on top.
    A browser (or another host) runs an instrumented module and writes a
    _boundary recording_: every call that crossed between host and module, with
    its values, as JSON records in a [.ct] container, plus the host state the
    module cannot recompute.  The recorder re-executes the original module
    against that recording, checks at every crossing that the execution is the
    recorded one, and while doing so takes snapshots of the module at quiescent
    points and cuts the recording into slices.  The parts, in the order data
    flows through them:

    - container: [internal/ctfs] reads [.ct] files (file names packed in base
      40, chains of blocks);
    - recording: [internal/boundarylog] parses the records, reconstructs the
      crossings with a state machine ([assembler.go]), from a whole document
      ([recording.go]) or from a stream that is still arriving ([stream.go]);
    - host state: [hoststate.go] validates and folds the host's initial state
      and mutations, [provider.go] synthesises the modules that supply them;
    - replay: [replay.go] drives a whole recording, [stream_replay.go] one that
      is still being produced;
    - snapshots: [internal/wasmsnapshot] captures and restores a module, encodes
      its memory against tiers of content-addressed pages, stores the pages in a
      B-tree namespace, indexes the snapshots and writes slices;
    - runtime: [internal/wasm/binary] decodes a binary, [internal/wasm] validates
      the module ([module.go], [table.go]) and every function body
      ([func_validation.go]), [internal/engine/interpreter] lowers the bodies
      to the operations its loop executes ([compiler.go], [signature.go],
      [operations.go], [lowerIR] of [interpreter.go]) and runs them
      ([interpreter.go]); [store.go] and [module_instance.go] link, instantiate
      and close modules;
    - [internal/leb128], [internal/xxh3] and [internal/wasm/memory.go] are the
      integer codec, the page hash and the linear memory underneath.

    ** Files

    - [Prelude]: results and the error notation, fixed-width integers, byte
      lists, tactics, hint databases and the lemmas the components share.
    - [Leb128], [Base40], [Ctfs], [Xxh3]: the codecs and the container reader.
    - [GoStd], [Json]: what the sources use of [strings], [strconv],
      [unicode] and [encoding/json].
    - [Values], [Recording], [HostState], [Assembler], [Manifest]: the recording
      format, its crossings and the assembler as a machine over records;
      [Render] is the producer's rendering of a call forest, the inverse of the
      assembler.
    - [Stream], [Agreement]: the scanner and the streaming reader, and their
      agreement with the batch loader.
    - [Provider], [Replay], [StreamReplay]: the replay drivers.  [ReplaySpec]
      says what a replay means without a cursor or an error slot ([run],
      [call], [session]); [StreamSpec] relates the two drivers.
    - [SnapTypes], [Streams], [PageCas], [Nsb1], [PageStore], [Container]: the
      snapshot formats and the snapshot set.
    - [WasmMemory], [Waiters]: linear memory and atomic wait and notify.
    - [Snapshot], [Slice], [Quiescent]: capture and restore, slices, and the
      points that tie snapshots to replay.
    - [Opcodes], [WasmBinary]: the opcodes and the decoder of binaries, a parser
      over a byte reader; [WasmBinarySpec] has its theorems and [ProviderModule]
      its agreement with the encoder of [Provider].
    - [ValidationTables], [FuncValidation], [WasmModule]: the cases of the
      validator's switches, the walk over a function body and the validation of
      a module.  [FuncTyping] is the type system of the specification, as
      relations on structured instructions, with a switch [strict] for the side
      conditions the validator does not check; [FuncSoundness] and [FuncTotal]
      relate the walk to it and show that it ends; [SpecTyping] says which
      instructions satisfy those conditions anyway ([conforming]);
      [ValidationSpec] puts the decoder and the validator together.
    - [Operations], [Signature], [LowerTables], [Lower]: the interpreter's
      operations, the signatures of opcodes, the cases of the lowering's switch
      and the lowering itself.  [LowerFlow] is what operations do to the height
      of the stack; [LowerRun] and [LowerSound] follow a typing derivation
      through the lowering, [LowerSize] counts what it emits, and [LowerSpec]
      puts decoder, validator and lowering together.
    - [TypeIDs]: the numbers a store gives to function types.  [Interp]: the
      interpreter's call engine and its loop, one definition per case of the
      switch, over a parameter [Math] for what floating-point and lane
      arithmetic compute and for how a blocked wait ends.  [InterpHeights] and [InterpSafe] carry the heights of [LowerFlow]
      to the loop; [InterpInt] and [InterpBulk] compare the integer and the bulk
      instructions with the operators of the specification.
    - [Instantiate]: linking, the builders of a module instance, segments, the
      registry of modules and closing, over a heap of globals, tables and
      memories that instances share.  [InstHeap] has a calculus of safe steps
      over the heap, [InstModule] what validation gives to instantiation,
      [InstSpec] the invariant of the store and [InstExamples] exit codes and
      concrete modules.

    A file's module has the name of the file.  State is passed explicitly: a Go
    method on a pointer becomes a function from the old record to the new one;
    an error is a constructor of the package's error type, one per place that
    builds one; a run-time panic is an error of its own.  Integers are [Z] with
    the wrap-around of their width written out ([u32], [u64], [i64]) wherever
    the source's arithmetic can leave the width.

    ** What the theorems show

    The doc comment of a theorem states its conditions in full.

    - Replay.  [replay_accepts_iff]: a recording with an exported call is
      accepted exactly when the module re-executes it.  [seek_equivalent]: resuming at a quiescent point
      ends where the whole replay ends.  [streaming_replay_sound]: the
      streaming driver accepts no complete recording that the batch driver
      refuses, and reports the same counts and state.  [quiescent_points]: the points an index lists are
      where a resumed replay puts its cursor.
    - Recording.  [reconstruct_render]: the assembler inverts the producer.
      [assembler_invariant], [completed_group_stable]: the machine never indexes
      out of range and a completed call group is final.
      [streaming_agrees_with_batch], [truncated_stream]: reading a stream,
      however it is cut, gives the batch loader's crossings, and an incomplete
      one its complete groups and the right kind of truncation.
      [streamed_host_state], [spellings_roundtrip], [decodeTuple_render],
      [decodeTuple_sound]: host state, names and values survive the format.
    - Modules.  [validated_module_typed]: every function of an accepted binary
      has a derivation in the type system of the specification, up to the side
      conditions of four kinds of instructions.  [validation_gives_verdict],
      [DecodeModule_terminates]: validation and decoding end, without indexing
      out of range.  [decoded_module_ok]: a decoded module is well formed.
      [validated_module_lowers]: every function of an accepted binary is
      lowered, and its code never takes more words from the stack than there
      are, never leaves the code and returns with the words of its results.
      [signatures_agree]: the signatures in the code are those of the
      specification.  [provider_module_decodes]: a host module written by the
      provider decodes to its specification.  [type_ids_identify]: the store
      gives two function types one number exactly when they are the same.
    - Execution.  [validated_module_runs]: a call into an accepted module never
      leaves the interpreter's stack, code or locals, whatever floats, lanes and
      waits compute, and returns the words of its results.  [integer_instructions]: the i32 and i64 instructions compute
      the specification's operators, traps included.  [bulk_instructions]: the
      fill, copy, init and grow instructions agree with plain definitions on
      lists.  [instantiation_links]: instantiating an accepted module never
      panics, and gives an instance whose slots have the declared types and whose
      memory is within the declared limits, or an error that leaves the other modules linked; [first_exit_code]: a closed
      module reports the code of its first close.
    - Snapshots.  [builder_refines_index], [load_returns_index],
      [seek_lands_on_latest]: the snapshot set implements an abstract index.
      [memory_roundtrip], [page_store_roundtrip], [page_store_deterministic],
      [bulk_load_collect], [nsCollect_ascending], [streams_roundtrip],
      [decodeRegions_bounded]: the encodings underneath.  [restore_captured]: a
      restored module is the captured one, also with another engine, unless a
      table has grown.  [slices_tile], [open_slice_self_describing]: slices
      partition the recording, each lists its points and begins with a base
      snapshot.
    - Underneath.  [ReadFile_layout], [ReadFile_whole_blocks],
      [EncodeName_roundtrip]: containers.  [leb128_roundtrip],
      [LoadUint32_sound]: integers.  [Hash128_in_bounds],
      [Hash128_short_injective]: the page hash.  [memory_well_formed],
      [read_after_write], [notify_wakes]: memories and waiters.
    - Behaviours a reader of the code may not expect are stated as theorems too:
      [export_named_like_import], [trailing_bytes_depend_on_reads],
      [null_documents_differ], [notified_wait_times_out],
      [overlapping_regions_accepted], [region_end_wraps], [sliceOf_wraps],
      [read_at_limit_panics], [start_divergence_dropped],
      [streamed_global_refused], [element_global_index_signed],
      [empty_custom_section_refused], [table_type_unchecked],
      [forward_call_panics], [select_annotation_ignored], [alignment_wraps],
      [atomic_alignment_below], [ref_func_of_global], [long_misc_not_lowered],
      [vector_parameter_shifts_locals], [local_index_panics], [taken_name_is_forgotten],
      [null_elements_are_skipped], [extern_elements_are_dropped],
      [high_offsets_are_refused], [imported_memory_depends_on_order],
      [grown_table_is_refused], [closing_frees_imported_memory],
      [passive_segment_panics].

    ** Bounds and fuel

    Loops that follow the input are structural.  The others take fuel, and a
    lemma shows that the fuel given is enough: ten bytes for a 64-bit LEB128
    integer; the length of the input for the JSON parser and the scanner;
    [length src + 3] iterations of [NextGroup] (each one returns, consumes a
    read or closes the stream); as many groups as the recording has for the
    streaming driver, which [streaming_replay_sound] proves to end; the number
    of entries for the B-tree loader and the source's own depth limit for the
    walk of an image; the length of the binary for the sections of a module and
    of a function body for its validation and its lowering (each step reads at
    least one byte).  [validated_module_lowers] asks that the locals and, for each
    byte of the body, the words of the widest type stay below 2^31, the width of
    the ranges that [drop] operations carry ([small_function]); and that no misc
    opcode is written in more than one byte ([no_long]), which
    [long_misc_not_lowered] shows to be needed.  The interpreter's loop is a step
    function: [validated_module_runs] is about every turn it reaches, and asks
    that the stack stays below 2^31 words, since [drop] computes in [int32].
    [instantiation_links] asks that the index spaces stay below 2^32, the width
    of an index.

    ** Parameters

    [strconv.ParseFloat] is a parameter of everything that decodes values (it is
    reached only by the decimal spelling of floats that older producers wrote).
    What replay needs of instantiating and running modules is the class
    [Runtime]: a call is a tree of the host calls it makes, each continued with
    the results and the host memories and globals the stub leaves.  The
    interpreter takes the Go functions a module imports, what is computed on
    floats and lanes, the new size of the recorder's copy of the locals (a
    floating-point expression) and the end of a wait ([Math]: functions of the
    operation and the words it pops, so that [validated_module_runs] holds for
    all of them), and the relation between references and functions ([address],
    [functionFromUintptr]);
    instantiation takes the order in which Go walks a map ([order]), the
    experimental resolver of imports, the call of an imported function
    ([foreign]), the memory allocator and the run of the start function
    ([callStart]).  The directory of the host-wide page
    cache is a finite map of files; producing a container and writing a manifest
    are the environment [slice_env].

    ** Not modelled

    Of the interpreter's loop: the values of floating-point arithmetic and
    conversions and of the arithmetic on lanes, other threads, listeners,
    snapshots of the call stack and the trace events it emits from DWARF, of
    which only the index into the copy of the locals is there
    ([Interp.variableAddress]).  Of instantiation: mutexes,
    contexts, and the resources of a module other than its memory.  The
    optimising compiler; WASI, the file-system layer and the command line, which
    are adapters over the operating system;
    the C library that writes traces, behind cgo; DWARF; the text of error
    messages; the polling reader that follows a growing file. *)
From stdpp Require Export base list list_numbers numbers strings option gmap sorting.
From Stdlib Require Export ZArith Lia.

#[global] Open Scope Z_scope.

(** ** Results

    Go functions that return [(T, error)] are modelled by [result E T]: the
    error values of one package are the constructors of one type [E], one
    constructor per place in the source that builds an error. *)
Inductive result (E A : Type) : Type :=
| Ok (a : A)
| Err (e : E).
Arguments Ok {E A} a.
Arguments Err {E A} e.

Declare Scope go_scope.
Delimit Scope go_scope with go.
#[global] Open Scope go_scope.

(** [let! x := m in k] is Go's [x, err := m; if err != nil { return err }; k]. *)
Notation "'let!' x ':=' m 'in' k" :=
  (match m with Ok x => k | Err e => Err e end)
  (at level 10, x pattern, m at level 99, k at level 200) : go_scope.

(** [reject b e k] is Go's [if b { return e }; k]. *)
Notation "'reject' b 'as' e ';;' k" :=
  (if b then Err e else k)
  (at level 10, b at level 99, e at level 99, k at level 200) : go_scope.

Definition is_ok {E A} (r : result E A) : bool :=
  match r with Ok _ => true | Err _ => false end.

Definition map_err {E F A} (f : E -> F) (r : result E A) : result F A :=
  match r with Ok a => Ok a | Err e => Err (f e) end.

(** The loop [for _, x := range xs { s, err = f(s, x); if err != nil { return err } }]. *)
Fixpoint foldm {E S A} (f : S -> A -> result E S) (s : S) (xs : list A) : result E S :=
  match xs with
  | [] => Ok s
  | x :: xs => let! s' := f s x in foldm f s' xs
  end.

(** The loop that maps a fallible function over a slice, stopping at the first error. *)
Fixpoint mapm {E A B} (f : A -> result E B) (xs : list A) : result E (list B) :=
  match xs with
  | [] => Ok []
  | x :: xs => let! y := f x in let! ys := mapm f xs in Ok (y :: ys)
  end.

(** A loop that only checks: [for _, x := range xs { if err := f(x); err != nil { return err } }]. *)
Definition each {E A} (f : A -> result E unit) (xs : list A) : result E unit :=
  foldm (fun _ => f) tt xs.

#[export] Instance result_eq_dec {E A} `{!EqDecision E, !EqDecision A} :
  EqDecision (result E A).
Proof. solve_decision. Defined.

(** ** Machine integers

    A [w]-bit Go integer is a [Z]; conversions and the operations that can
    wrap around are written with the functions below. *)
Definition wrapu (w x : Z) : Z := x mod 2 ^ w.
Definition wraps (w x : Z) : Z := (x + 2 ^ (w - 1)) mod 2 ^ w - 2 ^ (w - 1).
Definition u8 : Z -> Z := wrapu 8.
Definition u16 : Z -> Z := wrapu 16.
Definition u32 : Z -> Z := wrapu 32.
Definition u64 : Z -> Z := wrapu 64.
Definition i32 : Z -> Z := wraps 32.
Definition i64 : Z -> Z := wraps 64.

Definition in_u (w x : Z) : Prop := 0 <= x < 2 ^ w.
Definition in_s (w x : Z) : Prop := - 2 ^ (w - 1) <= x < 2 ^ (w - 1).

(** [len] is Go's [len] as an [int]. *)
Definition len {A} (l : list A) : Z := Z.of_nat (length l).

(** ** Bytes

    A Go byte slice is a [list Z] of values in [0, 256). *)
Definition is_byte (b : Z) : Prop := 0 <= b < 256.
Definition bytes_ok (l : list Z) : Prop := Forall is_byte l.

(** [binary.LittleEndian.PutUintN] and [binary.LittleEndian.UintN] on the
    exact number of bytes. *)
Fixpoint le_enc (n : nat) (v : Z) : list Z :=
  match n with
  | O => []
  | S n => v mod 256 :: le_enc n (v / 256)
  end.

Fixpoint le_dec (l : list Z) : Z :=
  match l with
  | [] => 0
  | b :: l => b + 256 * le_dec l
  end.

(** [b[off:off+n]]. *)
Definition sub {A} (l : list A) (off n : nat) : list A := take n (drop off l).

(** [copy(b[off:], bs)] for a [bs] that fits. *)
Definition put {A} (l : list A) (off : nat) (bs : list A) : list A :=
  take off l ++ bs ++ drop (off + length bs) l.

(** A value of an enumeration of [n] constants, numbered from 0. *)
Definition one_of (n t : Z) : bool := (0 <=? t) && (t <? n).
Definition get_u16 (l : list Z) (off : nat) : Z := le_dec (sub l off 2).
Definition get_u32 (l : list Z) (off : nat) : Z := le_dec (sub l off 4).
Definition get_u64 (l : list Z) (off : nat) : Z := le_dec (sub l off 8).

Definition zeros (n : nat) : list Z := replicate n 0.

(** The bytes of a Go string. *)
Definition byte_of_ascii (a : Ascii.ascii) : Z := Z.of_N (Ascii.N_of_ascii a).
Definition bytes_of_string (s : string) : list Z :=
  byte_of_ascii <$> String.list_ascii_of_string s.

(** ** Automation *)
Create HintDb bytes discriminated.
Create HintDb go discriminated.

(** Splits every [if] on a boolean comparison of integers and turns the
    comparison into an inequality that [lia] reads. *)
Ltac zbool :=
  repeat match goal with
  | H : context [Z.ltb ?a ?b] |- _ => destruct (Z.ltb_spec a b)
  | H : context [Z.leb ?a ?b] |- _ => destruct (Z.leb_spec a b)
  | H : context [Z.eqb ?a ?b] |- _ => destruct (Z.eqb_spec a b)
  | |- context [Z.ltb ?a ?b] => destruct (Z.ltb_spec a b)
  | |- context [Z.leb ?a ?b] => destruct (Z.leb_spec a b)
  | |- context [Z.eqb ?a ?b] => destruct (Z.eqb_spec a b)
  end.

(** Case analysis on the scrutinee of a [match] in a hypothesis that says a
    computation succeeded, discarding the branches that fail. *)
Ltac okcase H :=
  repeat (match type of H with
  | (match ?x with _ => _ end) = _ => destruct x eqn:?; try discriminate H
  end); simplify_eq H.

(** Runs [okcase] on every success equation of the context. *)
Ltac okall :=
  repeat match goal with
  | H : (match ?x with _ => _ end) = Ok _ |- _ => destruct x eqn:?; try discriminate H
  | H : Ok _ = Ok _ |- _ => injection H as H; subst
  end.

(** ** Lemmas: machine integers *)
Lemma wrapu_small w x : in_u w x -> wrapu w x = x.
Proof. intros H. by apply Z.mod_small. Qed.

Lemma wrapu_range w x : 0 <= w -> in_u w (wrapu w x).
Proof. intros H. apply Z.mod_pos_bound. by apply Z.pow_pos_nonneg. Qed.

Lemma wrapu_wrapu w x : wrapu w (wrapu w x) = wrapu w x.
Proof. apply Zmod_mod. Qed.

Lemma wraps_small w x : 0 < w -> in_s w x -> wraps w x = x.
Proof.
  intros Hw [H1 H2]. unfold wraps.
  assert (2 ^ w = 2 * 2 ^ (w - 1)) as E.
  { replace w with (1 + (w - 1)) at 1 by lia. rewrite Z.pow_add_r by lia. lia. }
  rewrite Z.mod_small by lia. lia.
Qed.

Lemma wraps_range w x : 0 < w -> in_s w (wraps w x).
Proof.
  intros Hw. unfold wraps, in_s.
  assert (2 ^ w = 2 * 2 ^ (w - 1)) as E.
  { replace w with (1 + (w - 1)) at 1 by lia. rewrite Z.pow_add_r by lia. lia. }
  pose proof (Z.mod_pos_bound (x + 2 ^ (w - 1)) (2 ^ w)).
  pose proof (Z.pow_pos_nonneg 2 (w - 1)). lia.
Qed.

(** Converting a signed value to unsigned and back at the same width is the
    identity: Go's [int32(uint32(x))]. *)
Lemma wraps_wrapu w x : 0 < w -> in_s w x -> wraps w (wrapu w x) = x.
Proof.
  intros Hw Hx. rewrite <-(wraps_small w x) at 2 by done. unfold wraps, wrapu.
  f_equal. by rewrite Zplus_mod_idemp_l.
Qed.

Lemma wrapu_wraps w x : 0 < w -> in_u w x -> wrapu w (wraps w x) = x.
Proof.
  intros Hw Hx. rewrite <-(wrapu_small w x) at 2 by done. unfold wraps, wrapu.
  rewrite Zminus_mod_idemp_l. f_equal. lia.
Qed.

Lemma len_nonneg {A} (l : list A) : 0 <= len l.
Proof. unfold len. lia. Qed.

Lemma len_app {A} (l k : list A) : len (l ++ k) = len l + len k.
Proof. unfold len. rewrite length_app. lia. Qed.

Lemma len_nil {A} : len (@nil A) = 0.
Proof. done. Qed.

Lemma len_cons {A} (x : A) l : len (x :: l) = 1 + len l.
Proof. unfold len. cbn [length]. lia. Qed.

(** ** Lemmas: little-endian encoding *)
Lemma length_le_enc n v : length (le_enc n v) = n.
Proof. revert v. induction n; intros; cbn; auto. Qed.

Lemma le_enc_bytes n v : bytes_ok (le_enc n v).
Proof.
  revert v. induction n; intros v; cbn; constructor; [|apply IHn].
  apply Z.mod_pos_bound. lia.
Qed.

Lemma pow256_S n : 256 ^ Z.of_nat (S n) = 256 * 256 ^ Z.of_nat n.
Proof. rewrite Nat2Z.inj_succ, Z.pow_succ_r by lia. done. Qed.

Lemma le_dec_enc n v : le_dec (le_enc n v) = v mod 256 ^ Z.of_nat n.
Proof.
  revert v. induction n; intros v; cbn [le_enc le_dec].
  - by rewrite Z.mod_1_r.
  - rewrite IHn, pow256_S, Z.rem_mul_r by lia. done.
Qed.

Lemma le_dec_enc_small n v : 0 <= v < 256 ^ Z.of_nat n -> le_dec (le_enc n v) = v.
Proof. intros. by rewrite le_dec_enc, Z.mod_small. Qed.

Lemma le_dec_range l : bytes_ok l -> 0 <= le_dec l < 256 ^ len l.
Proof.
  unfold len. induction 1 as [|b l Hb Hl IH]; cbn [le_dec length].
  - cbn. lia.
  - rewrite pow256_S. unfold is_byte in Hb. lia.
Qed.

Lemma le_enc_dec l : bytes_ok l -> le_enc (length l) (le_dec l) = l.
Proof.
  induction 1 as [|b l Hb Hl IH]; cbn [le_dec length le_enc]; [done|].
  unfold is_byte in Hb.
  rewrite (Z.mul_comm 256), Z.mod_add, Z.mod_small, Z.div_add, Z.div_small by lia.
  by rewrite Z.add_0_l, IH.
Qed.

(** ** Lemmas: slices *)
Lemma length_sub {A} (l : list A) o n :
  (o + n <= length l)%nat -> length (sub l o n) = n.
Proof. intros. unfold sub. rewrite length_take, length_drop. lia. Qed.

Lemma length_put {A} (l : list A) o bs :
  (o + length bs <= length l)%nat -> length (put l o bs) = length l.
Proof. intros. unfold put. rewrite !length_app, length_take, length_drop. lia. Qed.

Lemma sub_app_skip {A} (l k : list A) o n : sub (l ++ k) (length l + o) n = sub k o n.
Proof. unfold sub. rewrite drop_app_add'; done. Qed.

Lemma sub_app_l {A} (l k : list A) o n :
  (o + n <= length l)%nat -> sub (l ++ k) o n = sub l o n.
Proof.
  intros. unfold sub. rewrite drop_app_le by lia. apply take_app_le.
  rewrite length_drop. lia.
Qed.

Lemma sub_exact {A} (l k m : list A) :
  sub (l ++ k ++ m) (length l) (length k) = k.
Proof.
  unfold sub. by rewrite drop_app_length, take_app_length.
Qed.

Lemma sub_exact' {A} (l k m : list A) o n :
  o = length l -> n = length k -> sub (l ++ k ++ m) o n = k.
Proof. intros -> ->. apply sub_exact. Qed.

Lemma sub_all {A} (l : list A) n : n = length l -> sub l 0 n = l.
Proof. intros ->. unfold sub. cbn. by rewrite firstn_all. Qed.

Lemma sub_sub {A} (l : list A) o n o' n' :
  (o' + n' <= n)%nat -> sub (sub l o n) o' n' = sub l (o + o') n'.
Proof.
  intros. unfold sub. rewrite <-drop_drop, skipn_firstn_comm, take_take.
  f_equal. lia.
Qed.

Lemma sub_put_same {A} (l : list A) o bs :
  (o + length bs <= length l)%nat -> sub (put l o bs) o (length bs) = bs.
Proof. intros. unfold put. apply sub_exact'; [|done]. rewrite length_take. lia. Qed.

Lemma sub_put_before {A} (l : list A) o bs o' n :
  (o' + n <= o)%nat -> (o <= length l)%nat -> sub (put l o bs) o' n = sub l o' n.
Proof.
  intros. unfold put. rewrite sub_app_l by (rewrite length_take; lia).
  unfold sub. rewrite skipn_firstn_comm, take_take. f_equal. lia.
Qed.

Lemma sub_put_after {A} (l : list A) o bs o' n :
  (o + length bs <= o')%nat -> (o + length bs <= length l)%nat ->
  sub (put l o bs) o' n = sub l o' n.
Proof.
  intros. unfold put, sub.
  rewrite app_assoc, drop_app_ge, drop_drop
    by (rewrite length_app, length_take; lia).
  do 2 f_equal. rewrite length_app, length_take. lia.
Qed.

Lemma put_exact {A} (a m c bs : list A) o :
  o = length a -> length m = length bs -> put (a ++ m ++ c) o bs = a ++ bs ++ c.
Proof.
  intros -> E. unfold put. rewrite take_app_length, <-E, drop_app_add' by done.
  by rewrite drop_app_length.
Qed.

(** A list cut at two points. *)
Lemma cut_at {A} (l : list A) o n :
  (o + n <= length l)%nat ->
  exists a m c, l = a ++ m ++ c /\ length a = o /\ length m = n.
Proof.
  intros. exists (take o l), (take n (drop o l)), (drop n (drop o l)).
  rewrite !take_drop. split; [done|]. rewrite !length_take, length_drop. lia.
Qed.

(** Two writes side by side are one write of the concatenation. *)
Lemma put_put_adjacent {A} (l : list A) o b1 b2 :
  (o + length b1 + length b2 <= length l)%nat ->
  put (put l o b1) (o + length b1) b2 = put l o (b1 ++ b2).
Proof.
  intros.
  destruct (cut_at l o (length b1)) as (a & m & c & -> & <- & Em); [lia|].
  rewrite !length_app in H.
  destruct (cut_at c 0 (length b2)) as (a' & m' & c' & -> & Ha & Em'); [lia|].
  destruct a'; [|done]. cbn [app].
  rewrite put_exact by done. rewrite (app_assoc a b1).
  rewrite put_exact by (rewrite ?length_app; done).
  rewrite <-(app_assoc a b1), (app_assoc m m').
  rewrite put_exact by (rewrite ?length_app; lia). by rewrite <-!app_assoc.
Qed.

Lemma put_nil {A} (l : list A) o : put l o [] = l.
Proof. unfold put. cbn. by rewrite Nat.add_0_r, take_drop. Qed.

Lemma put_app_skip {A} (l k : list A) o bs :
  put (l ++ k) (length l + o) bs = l ++ put k o bs.
Proof.
  unfold put. rewrite <-Nat.add_assoc, drop_app_add', take_app_add' by done.
  by rewrite <-app_assoc.
Qed.

Lemma put_app_l {A} (l k : list A) o bs :
  (o + length bs <= length l)%nat -> put (l ++ k) o bs = put l o bs ++ k.
Proof.
  intros. unfold put. rewrite take_app_le, drop_app_le by lia.
  by rewrite <-!app_assoc.
Qed.

Lemma put_head {A} (l k bs : list A) :
  length bs = length l -> put (l ++ k) 0 bs = bs ++ k.
Proof. intros E. unfold put. cbn. rewrite E, drop_app_length. done. Qed.

Lemma put_bytes l o bs : bytes_ok l -> bytes_ok bs -> bytes_ok (put l o bs).
Proof.
  intros. unfold put, bytes_ok. rewrite !Forall_app.
  eauto using Forall_take, Forall_drop.
Qed.

Lemma zeros_bytes n : bytes_ok (zeros n).
Proof. apply Forall_replicate. unfold is_byte. lia. Qed.

Lemma length_zeros n : length (zeros n) = n.
Proof. apply length_replicate. Qed.

Lemma zeros_app n m : zeros (n + m) = zeros n ++ zeros m.
Proof. apply replicate_add. Qed.

#[export] Hint Resolve le_enc_bytes zeros_bytes put_bytes : bytes.
#[export] Hint Rewrite @length_le_enc @length_zeros @length_app @length_take @length_drop
  @length_replicate @length_fmap : lens.

(** Closes goals about lengths of byte lists. *)
Ltac lens := autorewrite with lens; cbn [length]; try lia.

(** ** Lemmas: loops *)
Lemma foldm_app {E S A} (f : S -> A -> result E S) s xs ys :
  foldm f s (xs ++ ys) = let! s' := foldm f s xs in foldm f s' ys.
Proof. revert s. induction xs as [|x xs IH]; intros s; cbn; [done|]. by destruct (f s x). Qed.

(** An invariant of the body of a fallible loop is an invariant of the loop. *)
Lemma foldm_inv {E S A} (I : S -> Prop) (f : S -> A -> result E S) s xs s' :
  (forall s x s', I s -> f s x = Ok s' -> I s') -> I s -> foldm f s xs = Ok s' -> I s'.
Proof.
  intros Hf. revert s. induction xs as [|x xs IH]; intros s Hs H; cbn in H.
  - by simplify_eq.
  - destruct (f s x) eqn:E'; [|done]. eauto.
Qed.

Lemma each_Forall {E A} (f : A -> result E unit) xs :
  each f xs = Ok tt <-> Forall (fun x => f x = Ok tt) xs.
Proof.
  unfold each. induction xs as [|x xs IH]; cbn [foldm]; [split; [constructor|done]|].
  rewrite Forall_cons, <-IH. destruct (f x) as [[]|]; [by split; [|intros []]|].
  split; [done|by intros []].
Qed.

Lemma mapm_length {E A B} (f : A -> result E B) xs ys :
  mapm f xs = Ok ys -> length ys = length xs.
Proof.
  revert ys. induction xs as [|x xs IH]; intros ys H; cbn in H; okall; [done|].
  cbn. f_equal. by apply IH.
Qed.

Lemma mapm_Forall2 {E A B} (f : A -> result E B) xs ys :
  mapm f xs = Ok ys <-> Forall2 (fun x y => f x = Ok y) xs ys.
Proof.
  split.
  - revert ys. induction xs as [|x xs IH]; intros ys H; cbn in H; okall; constructor; auto.
  - induction 1 as [|x y xs ys Hx _ IH]; cbn; [done|]. by rewrite Hx, IH.
Qed.

(** ** Total correctness of fallible code

    [okp r P]: the computation [r] succeeds and its result satisfies [P]. *)
Definition okp {E A} (r : result E A) (P : A -> Prop) : Prop :=
  match r with Ok a => P a | Err _ => False end.

Lemma okp_bind {E A B} (m : result E A) (k : A -> result E B) (P : A -> Prop) (Q : B -> Prop) :
  okp m P -> (forall a, P a -> okp (k a) Q) -> okp (let! a := m in k a) Q.
Proof. destruct m; cbn; auto. Qed.

Lemma okp_impl {E A} (r : result E A) (P Q : A -> Prop) :
  okp r P -> (forall a, P a -> Q a) -> okp r Q.
Proof. destruct r; cbn; auto. Qed.

Lemma okp_if {E A} (b : bool) (r s : result E A) (P : A -> Prop) :
  (b = true -> okp r P) -> (b = false -> okp s P) -> okp (if b then r else s) P.
Proof. destruct b; auto. Qed.

(** A fallible loop succeeds when its body does from every state of an
    invariant, for every element of the list. *)
Lemma okp_foldm {E S A} (I : S -> Prop) (f : S -> A -> result E S) xs s :
  I s -> (forall s x, I s -> x ∈ xs -> okp (f s x) I) -> okp (foldm f s xs) I.
Proof.
  revert s. induction xs as [|x xs IH]; intros s Hs Hf; cbn [foldm]; [done|].
  apply (okp_bind _ _ I); [apply Hf; [done|left]|].
  intros s' Hs'. apply IH; [done|]. intros. apply Hf; [done|by right].
Qed.

Lemma okp_ok {E A} (r : result E A) (P : A -> Prop) : okp r P <-> exists a, r = Ok a /\ P a.
Proof. destruct r; cbn; split; [eauto|by intros (? & [= ->] & ?)|done|by intros (? & ? & ?)]. Qed.

(** ** Lemmas: bits *)

(** Or-ing a field above a value that leaves it free is an addition. *)
Lemma lor_shiftl_add a b n :
  0 <= n -> 0 <= a < 2 ^ n -> Z.lor a (Z.shiftl b n) = a + b * 2 ^ n.
Proof.
  intros Hn Ha.
  assert (Z.land a (Z.shiftl b n) = 0) as Hl.
  { apply Z.bits_inj'. intros i Hi. rewrite Z.land_spec, Z.bits_0.
    destruct (decide (i < n)).
    - rewrite Z.shiftl_spec_low by done. apply andb_false_r.
    - rewrite <-(Z.mod_small a (2 ^ n)), Z.mod_pow2_bits_high by lia. done. }
  rewrite <-Z.lxor_lor, <-Z.add_nocarry_lxor, Z.shiftl_mul_pow2 by done. done.
Qed.

Lemma land_ones_mod x n : 0 <= n -> Z.land x (2 ^ n - 1) = x mod 2 ^ n.
Proof. intros. rewrite <-Z.land_ones by done. rewrite Z.ones_equiv. done. Qed.

Lemma land_127 x : Z.land x 127 = x mod 128.
Proof. apply (land_ones_mod x 7). lia. Qed.

Lemma land_255 x : Z.land x 255 = x mod 256.
Proof. apply (land_ones_mod x 8). lia. Qed.

(** The bit [2 ^ k] of [x] as arithmetic. *)
Lemma land_pow2 x k : 0 <= k -> Z.land x (2 ^ k) = 2 ^ k * ((x / 2 ^ k) mod 2).
Proof.
  intros Hk. rewrite <-(Z.shiftr_div_pow2 x k) by done.
  apply Z.bits_inj'. intros i Hi.
  rewrite Z.land_spec, Z.pow2_bits_eqb by done.
  rewrite (Z.mul_comm (2 ^ k)), <-Z.shiftl_mul_pow2 by done.
  rewrite Z.shiftl_spec by done.
  destruct (Z.eqb_spec k i) as [<-|Hne].
  - rewrite Z.sub_diag, andb_true_r, <-Z.bit0_mod.
    rewrite Z.b2z_bit0. rewrite Z.shiftr_spec by lia. f_equal.
  - rewrite andb_false_r. symmetry.
    destruct (decide (i < k)); [by apply Z.testbit_neg_r; lia|].
    replace ((Z.shiftr x k) mod 2) with ((Z.shiftr x k) mod 2 ^ 1) by done.
    apply Z.mod_pow2_bits_high. lia.
Qed.

Lemma lor_128 b : 0 <= b < 128 -> Z.lor b 128 = b + 128.
Proof. intros. change 128 with (Z.shiftl 1 7) at 1. rewrite lor_shiftl_add; lia. Qed.

(** A boolean property checked on every integer of a range. *)
Lemma zrange_forallb (P : Z -> bool) lo n :
  forallb P (seqZ lo n) = true -> forall v, lo <= v < lo + n -> P v = true.
Proof.
  rewrite List.forallb_forall. intros H v Hv. apply H.
  apply list_elem_of_In, elem_of_seqZ. lia.
Qed.

Lemma land_128 x : Z.land x 128 = 128 * ((x / 128) mod 2).
Proof. apply (land_pow2 x 7). lia. Qed.

Lemma land_64 x : Z.land x 64 = 64 * ((x / 64) mod 2).
Proof. apply (land_pow2 x 6). lia. Qed.

(** A number whose bits from [w] on are zero fits in [w] bits. *)
Lemma in_u_bits w x : 0 <= w -> (forall i, w <= i -> Z.testbit x i = false) -> in_u w x.
Proof.
  intros Hw Hb. unfold in_u. replace x with (x mod 2 ^ w); [apply Z.mod_pos_bound; lia|].
  apply Z.bits_inj'. intros i Hi. destruct (decide (i < w)).
  - by rewrite Z.mod_pow2_bits_low.
  - rewrite Z.mod_pow2_bits_high, Hb by lia. done.
Qed.

Lemma in_u_high w x i : in_u w x -> 0 <= w <= i -> Z.testbit x i = false.
Proof. intros Hx ?. rewrite <-(Z.mod_small x (2 ^ w)) by done. apply Z.mod_pow2_bits_high. lia. Qed.

Lemma lxor_in_u w a b : 0 <= w -> in_u w a -> in_u w b -> in_u w (Z.lxor a b).
Proof.
  intros Hw Ha Hb. apply in_u_bits; [done|]. intros i Hi.
  by rewrite Z.lxor_spec, (in_u_high w a), (in_u_high w b) by (done || lia).
Qed.

Lemma lor_in_u w a b : 0 <= w -> in_u w a -> in_u w b -> in_u w (Z.lor a b).
Proof.
  intros Hw Ha Hb. apply in_u_bits; [done|]. intros i Hi.
  by rewrite Z.lor_spec, (in_u_high w a), (in_u_high w b) by (done || lia).
Qed.

Lemma shiftr_in_u w a k : 0 <= w -> 0 <= k -> in_u w a -> in_u w (Z.shiftr a k).
Proof.
  intros Hw Hk Ha. apply in_u_bits; [done|]. intros i Hi.
  rewrite Z.shiftr_spec by lia. by rewrite (in_u_high w a) by (done || lia).
Qed.
