(* ===== verification/Leb128.v ===== *)
(** * LEB128 integers ([src/internal/leb128/leb128.go])

    The variable-length integers of the WebAssembly binary format: the two
    encoders, and the decoders of 32-, 33- and 64-bit integers with their
    overflow checks.  The theorems show that every decoder inverts the encoder
    on every value of its width whatever bytes follow, that a decoder never
    consumes more bytes than its width allows, and that what it returns is the
    mathematical value of the bytes it consumed. *)
From S2P Require Import Prelude.

Module Leb128.

Inductive leb_err : Type := EOF | errOverflow32 | errOverflow33 | errOverflow64.

#[export] Instance leb_err_eq_dec : EqDecision leb_err.
Proof. solve_decision. Defined.

Definition maxVarintLen32 : Z := 5.
Definition maxVarintLen33 : Z := maxVarintLen32.
Definition maxVarintLen64 : Z := 10.

(** ** Encoders

    The loops run until the value is exhausted; [fuel] bounds the number of
    bytes and ten are enough for a 64-bit value ([EncodeUint64_fuel],
    [EncodeInt64_fuel]). *)
Fixpoint EncodeUint64_loop (fuel : nat) (value : Z) : list Z :=
  match fuel with
  | O => []
  | S fuel =>
      let b := Z.land value 0x7f in
      let value := Z.shiftr value 7 in
      let b := if value =? 0 then b else Z.lor b 0x80 in
      if Z.land b 0x80 =? 0 then [b] else b :: EncodeUint64_loop fuel value
  end.

Definition EncodeUint64 (value : Z) : list Z := EncodeUint64_loop 10 value.
Definition EncodeUint32 (value : Z) : list Z := EncodeUint64 value.

Fixpoint EncodeInt64_loop (fuel : nat) (value : Z) : list Z :=
  match fuel with
  | O => []
  | S fuel =>
      let b := Z.land value 0x7f in
      let s := Z.land value 0x40 in
      let value := Z.shiftr value 7 in
      let b := if (negb (value =? -1) || (s =? 0)) && (negb (value =? 0) || negb (s =? 0))
               then Z.lor b 0x80 else b in
      if Z.land b 0x80 =? 0 then [b] else b :: EncodeInt64_loop fuel value
  end.

Definition EncodeInt64 (value : Z) : list Z := EncodeInt64_loop 10 value.
Definition EncodeInt32 (value : Z) : list Z := EncodeInt64 value.

(** ** Decoders

    [nextByte] is Go's [func(i int) (byte, error)]; the [Load] functions read
    a buffer by index. *)
Definition nextByte : Type := nat -> result leb_err Z.

Definition buf_next (buf : list Z) : nextByte := fun i =>
  match buf !! i with
  | None => Err EOF
  | Some b => Ok b
  end.

(** [for i := 0; i < maxVarintLen32; i++]: [n] iterations are left. *)
Fixpoint decodeUint32_loop (next : nextByte) (n i : nat) (s ret : Z) : result leb_err (Z * Z) :=
  match n with
  | O => Err errOverflow32
  | S n =>
      let! b := next i in
      if b <? 0x80 then
        if (Z.of_nat i =? maxVarintLen32 - 1) && (0 <? Z.land b 0xf0) then Err errOverflow32
        else Ok (Z.lor ret (u32 (Z.shiftl b s)), Z.of_nat i + 1)
      else
        decodeUint32_loop next n (S i) (s + 7) (Z.lor ret (u32 (Z.shiftl (Z.land b 0x7f) s)))
  end.

Definition decodeUint32 (next : nextByte) : result leb_err (Z * Z) :=
  decodeUint32_loop next (Z.to_nat maxVarintLen32) 0 0 0.

Definition LoadUint32 (buf : list Z) : result leb_err (Z * Z) := decodeUint32 (buf_next buf).

Fixpoint LoadUint64_loop (buf : list Z) (n i : nat) (s ret : Z) : result leb_err (Z * Z) :=
  match n with
  | O => Err errOverflow64
  | S n =>
      if len buf <=? Z.of_nat i then Err EOF else
      let! b := buf_next buf i in
      if b <? 0x80 then
        if (Z.of_nat i =? maxVarintLen64 - 1) && (1 <? b) then Err errOverflow64
        else Ok (Z.lor ret (u64 (Z.shiftl b s)), Z.of_nat i + 1)
      else
        LoadUint64_loop buf n (S i) (s + 7) (Z.lor ret (u64 (Z.shiftl (Z.land b 0x7f) s)))
  end.

Definition LoadUint64 (buf : list Z) : result leb_err (Z * Z) :=
  if len buf =? 0 then Err EOF else LoadUint64_loop buf (Z.to_nat maxVarintLen64) 0 0 0.

(** The signed loops have no bound of their own: they end at the first byte
    without the continuation bit or when [next] fails.  [fuel] is one more
    than the bytes of the buffer. *)
Definition decodeInt32_end (b ret shift bytesRead : Z) : result leb_err (Z * Z) :=
  let ret := if (shift <? 32) && negb (Z.land b 0x40 =? 0)
             then Z.lor ret (i32 (Z.shiftl (-1) shift)) else ret in
  let unused := Z.land b 0x30 in
  if maxVarintLen32 <? bytesRead then Err errOverflow32
  else if (bytesRead =? maxVarintLen32) && (ret <? 0) && negb (unused =? 0x30)
  then Err errOverflow32
  else if (bytesRead =? maxVarintLen32) && (0 <=? ret) && negb (unused =? 0)
  then Err errOverflow32
  else Ok (ret, bytesRead).

Fixpoint decodeInt32_loop (next : nextByte) (fuel : nat) (ret shift bytesRead : Z)
  : result leb_err (Z * Z) :=
  match fuel with
  | O => Err EOF
  | S fuel =>
      let! b := next (Z.to_nat bytesRead) in
      let ret := Z.lor ret (i32 (Z.shiftl (Z.land b 0x7f) shift)) in
      let shift := shift + 7 in
      let bytesRead := bytesRead + 1 in
      if Z.land b 0x80 =? 0 then decodeInt32_end b ret shift bytesRead
      else decodeInt32_loop next fuel ret shift bytesRead
  end.

Definition LoadInt32 (buf : list Z) : result leb_err (Z * Z) :=
  decodeInt32_loop (buf_next buf) (S (length buf)) 0 0 0.

Definition decodeInt64_end (b ret shift bytesRead : Z) : result leb_err (Z * Z) :=
  let ret := if (shift <? 64) && (Z.land b 0x40 =? 0x40)
             then Z.lor ret (i64 (Z.shiftl (-1) shift)) else ret in
  let unused := Z.land b 0x3e in
  if maxVarintLen64 <? bytesRead then Err errOverflow64
  else if (bytesRead =? maxVarintLen64) && (ret <? 0) && negb (unused =? 0x3e)
  then Err errOverflow64
  else if (bytesRead =? maxVarintLen64) && (0 <=? ret) && negb (unused =? 0)
  then Err errOverflow64
  else Ok (ret, bytesRead).

Fixpoint decodeInt64_loop (next : nextByte) (fuel : nat) (ret shift bytesRead : Z)
  : result leb_err (Z * Z) :=
  match fuel with
  | O => Err EOF
  | S fuel =>
      let! b := next (Z.to_nat bytesRead) in
      let ret := Z.lor ret (i64 (Z.shiftl (Z.land b 0x7f) shift)) in
      let shift := shift + 7 in
      let bytesRead := bytesRead + 1 in
      if Z.land b 0x80 =? 0 then decodeInt64_end b ret shift bytesRead
      else decodeInt64_loop next fuel ret shift bytesRead
  end.

Definition LoadInt64 (buf : list Z) : result leb_err (Z * Z) :=
  decodeInt64_loop (buf_next buf) (S (length buf)) 0 0 0.

(** [DecodeInt33AsInt64] reads at most five bytes ([shift < 35]) and then
    sign-extends from the 33rd bit. *)
Definition int33Mask : Z := 128.
Definition int33Mask2 : Z := Z.lnot int33Mask.
Definition int33Mask3 : Z := 64.
Definition int33Mask4 : Z := 8589934591.
Definition int33Mask5 : Z := 4294967296.
Definition int33Mask6 : Z := int33Mask4 + 1.

Fixpoint DecodeInt33_loop (next : nextByte) (fuel : nat) (b ret shift bytesRead : Z)
  : result leb_err (Z * Z * Z * Z) :=
  match fuel with
  | O => Ok (b, ret, shift, bytesRead)
  | S fuel =>
      if shift <? 35 then
        let! b := next (Z.to_nat bytesRead) in
        let ret := Z.lor ret (i64 (Z.shiftl (Z.land b int33Mask2) shift)) in
        let shift := shift + 7 in
        let bytesRead := bytesRead + 1 in
        if Z.land b int33Mask =? 0 then Ok (b, ret, shift, bytesRead)
        else DecodeInt33_loop next fuel b ret shift bytesRead
      else Ok (b, ret, shift, bytesRead)
  end.

Definition DecodeInt33AsInt64 (next : nextByte) : result leb_err (Z * Z) :=
  let! (b, ret, shift, bytesRead) := DecodeInt33_loop next 6 0 0 0 0 in
  let ret := if (shift <? 33) && (Z.land b int33Mask3 =? int33Mask3)
             then Z.lor ret (i64 (Z.shiftl int33Mask4 shift)) else ret in
  let ret := Z.land ret int33Mask4 in
  let ret := if 0 <? Z.land ret int33Mask5 then ret - int33Mask6 else ret in
  let unused := Z.land b 0x20 in
  if maxVarintLen33 <? bytesRead then Err errOverflow33
  else if (bytesRead =? maxVarintLen33) && (ret <? 0) && negb (unused =? 0x20)
  then Err errOverflow33
  else if (bytesRead =? maxVarintLen33) && (0 <=? ret) && negb (unused =? 0)
  then Err errOverflow33
  else Ok (ret, bytesRead).

(** ** The encoders, arithmetically *)
Lemma div_plus_128 m : 0 <= m < 128 -> (m + 128) / 128 = 1.
Proof. intros. Z.div_mod_to_equations. lia. Qed.

Lemma EncodeUint64_loop_S n v :
  0 <= v ->
  EncodeUint64_loop (S n) v =
  if v <? 128 then [v] else (v mod 128 + 128) :: EncodeUint64_loop n (v / 128).
Proof.
  intros Hv. cbn [EncodeUint64_loop].
  rewrite land_127, Z.shiftr_div_pow2 by lia. change (2 ^ 7) with 128.
  pose proof (Z.mod_pos_bound v 128 ltac:(lia)) as Hm.
  destruct (Z.eqb_spec (v / 128) 0) as [E|E].
  - assert (v < 128) by (Z.div_mod_to_equations; lia).
    rewrite (Z.mod_small v 128), land_128, (Z.div_small v 128) by lia. cbn.
    destruct (Z.ltb_spec v 128); [done|lia].
  - rewrite lor_128, land_128 by done.
    rewrite div_plus_128 by done. cbn.
    destruct (Z.ltb_spec v 128); [|done]. by rewrite Z.div_small in E.
Qed.

Lemma EncodeInt64_loop_S n v :
  EncodeInt64_loop (S n) v =
  if (-64 <=? v) && (v <? 64) then [v mod 128]
  else (v mod 128 + 128) :: EncodeInt64_loop n (v / 128).
Proof.
  cbn [EncodeInt64_loop].
  rewrite land_127, land_64, Z.shiftr_div_pow2 by lia. change (2 ^ 7) with 128.
  pose proof (Z.mod_pos_bound v 128 ltac:(lia)) as Hm.
  assert ((negb (v / 128 =? -1) || (64 * ((v / 64) mod 2) =? 0)) &&
          (negb (v / 128 =? 0) || negb (64 * ((v / 64) mod 2) =? 0))
          = negb ((-64 <=? v) && (v <? 64))) as ->.
  { zbool; cbn; Z.div_mod_to_equations; try lia. all: exfalso; lia. }
  destruct ((-64 <=? v) && (v <? 64)) eqn:Hs; cbn [negb].
  - rewrite land_128. by rewrite (Z.div_small (v mod 128)) by done.
  - rewrite lor_128, land_128 by done.
    by rewrite div_plus_128 by done.
Qed.

Lemma buf_next_drop buf i b rest : drop i buf = b :: rest -> buf_next buf i = Ok b.
Proof.
  intros H. unfold buf_next. rewrite <-(Nat.add_0_r i), <-lookup_drop, H. done.
Qed.

Lemma drop_S_cons {A} (l : list A) i b rest : drop i l = b :: rest -> drop (S i) l = rest.
Proof. intros H. by rewrite <-Nat.add_1_r, <-drop_drop, H. Qed.

Lemma drop_cons_len {A} (l : list A) i b rest : drop i l = b :: rest -> (i < length l)%nat.
Proof.
  intros H. destruct (decide (i < length l)%nat); [done|].
  rewrite drop_ge in H by lia. done.
Qed.

(** ** Round trips

    Each lemma is stated at an arbitrary point of the decoder's loop: [i]
    bytes have been read, [ret] holds the value of their payloads, and the
    rest of the buffer starts with the encoding of the remaining high part [v]
    of the number. *)
Section unsigned.
Variable buf rest : list Z.

Lemma unsigned_step w i b ret :
  (i <= 9)%nat -> 0 <= b -> 0 <= ret < 2 ^ (7 * Z.of_nat i) ->
  b * 2 ^ (7 * Z.of_nat i) < 2 ^ w ->
  Z.lor ret (wrapu w (Z.shiftl b (7 * Z.of_nat i))) = ret + b * 2 ^ (7 * Z.of_nat i).
Proof.
  intros Hi Hb Hret Hw.
  rewrite wrapu_small; [apply lor_shiftl_add; lia|].
  rewrite Z.shiftl_mul_pow2 by lia. split; [|done].
  apply Z.mul_nonneg_nonneg; lia.
Qed.

Lemma pow2_split7 i : 2 ^ (7 * Z.of_nat (S i)) = 128 * 2 ^ (7 * Z.of_nat i).
Proof. rewrite <-(Z.pow_add_r 2 7) by lia. f_equal. lia. Qed.

(** The part of the number still to be read, once its low seven bits are. *)
Lemma shifted_digits v i w :
  0 <= v -> v * 2 ^ (7 * Z.of_nat i) < 2 ^ w ->
  (v / 128) * 2 ^ (7 * Z.of_nat (S i)) < 2 ^ w /\
  (v mod 128) * 2 ^ (7 * Z.of_nat i) < 2 ^ w /\
  (v mod 128) * 2 ^ (7 * Z.of_nat i) + (v / 128) * 2 ^ (7 * Z.of_nat (S i))
  = v * 2 ^ (7 * Z.of_nat i).
Proof.
  intros Hv Hw. rewrite pow2_split7.
  pose proof (Z.pow_pos_nonneg 2 (7 * Z.of_nat i) ltac:(lia) ltac:(lia)).
  pose proof (Z.div_mod v 128 ltac:(lia)).
  pose proof (Z.mod_pos_bound v 128 ltac:(lia)).
  assert (0 <= v / 128) by (apply Z.div_pos; lia).
  repeat split; nia.
Qed.

Lemma EncodeUint64_loop_next fuel i v :
  0 <= v < 2 ^ (7 * Z.of_nat (S fuel)) ->
  drop i buf = EncodeUint64_loop (S fuel) v ++ rest ->
  (i < length buf)%nat /\
  if v <? 128 then buf_next buf i = Ok v /\ length (EncodeUint64_loop (S fuel) v) = 1%nat
  else exists fuel', fuel = S fuel' /\ buf_next buf i = Ok (v mod 128 + 128) /\
       drop (S i) buf = EncodeUint64_loop (S fuel') (v / 128) ++ rest /\
       0 <= v / 128 < 2 ^ (7 * Z.of_nat (S fuel')) /\
       length (EncodeUint64_loop (S fuel) v)
       = S (length (EncodeUint64_loop (S fuel') (v / 128))).
Proof.
  intros Hv Hd. rewrite EncodeUint64_loop_S in * by lia. rewrite pow2_split7 in Hv.
  split; [destruct (v <? 128); eapply drop_cons_len, Hd|].
  destruct (Z.ltb_spec v 128).
  - split; [eapply buf_next_drop, Hd|done].
  - destruct fuel as [|fuel]; [cbn in Hv; lia|]. exists fuel.
    split; [done|]. split; [eapply buf_next_drop, Hd|].
    split; [eapply drop_S_cons, Hd|]. split; [|done].
    Z.div_mod_to_equations; lia.
Qed.

Lemma decodeUint32_loop_enc n i fuel v ret :
  (n + i = 5)%nat -> 0 <= ret < 2 ^ (7 * Z.of_nat i) ->
  0 <= v -> i = 0%nat \/ 0 < v -> v * 2 ^ (7 * Z.of_nat i) < 2 ^ 32 ->
  v < 2 ^ (7 * Z.of_nat (S fuel)) -> drop i buf = EncodeUint64_loop (S fuel) v ++ rest ->
  decodeUint32_loop (buf_next buf) n i (7 * Z.of_nat i) ret
  = Ok (ret + v * 2 ^ (7 * Z.of_nat i),
        Z.of_nat i + len (EncodeUint64_loop (S fuel) v)).
Proof.
  revert i fuel v ret. induction n as [|n IH]; intros i fuel v ret Hn Hret Hv Hnz Hw Hf Hd.
  { replace i with 5%nat in * by lia. cbn in Hw. lia. }
  destruct (EncodeUint64_loop_next fuel i v) as [Hi Hb]; [lia|done|].
  destruct (shifted_digits v i 32) as (Hq & Hm & Hs); [done..|].
  pose proof (Z.mod_pos_bound v 128 ltac:(lia)).
  cbn [decodeUint32_loop]. unfold u32.
  destruct (Z.ltb_spec v 128).
  - destruct Hb as [-> Hl]. destruct (Z.ltb_spec v 128); [|lia].
    rewrite unsigned_step by (lia || done). unfold len. rewrite Hl.
    destruct (Z.eqb_spec (Z.of_nat i) (maxVarintLen32 - 1)) as [Hi'|]; cbn [andb]; [|done].
    rewrite Hi' in *. assert (0 <= v < 0 + 16) as Hr by (unfold maxVarintLen32 in *; lia).
    pose proof (zrange_forallb (fun v => negb (0 <? Z.land v 0xf0)) 0 16 eq_refl v Hr) as E.
    apply negb_true_iff in E. by rewrite E.
  - destruct Hb as (fuel' & -> & -> & Hd' & Hf' & Hl).
    destruct (Z.ltb_spec (v mod 128 + 128) 128); [lia|].
    rewrite land_127, <-(Z.mul_1_l 128), Z.mod_add, Z.mod_mod, Z.mul_1_l by lia.
    rewrite unsigned_step by (lia || done).
    replace (7 * Z.of_nat i + 7) with (7 * Z.of_nat (S i)) by lia.
    rewrite (IH (S i) fuel' (v / 128)); [|lia|rewrite pow2_split7; nia|lia|Z.div_mod_to_equations; lia
                               |done|lia|done].
    unfold len. rewrite Hl. f_equal. f_equal; lia.
Qed.

Lemma LoadUint64_loop_enc n i fuel v ret :
  (n + i = 10)%nat -> 0 <= ret < 2 ^ (7 * Z.of_nat i) ->
  0 <= v -> i = 0%nat \/ 0 < v -> v * 2 ^ (7 * Z.of_nat i) < 2 ^ 64 ->
  v < 2 ^ (7 * Z.of_nat (S fuel)) -> drop i buf = EncodeUint64_loop (S fuel) v ++ rest ->
  LoadUint64_loop buf n i (7 * Z.of_nat i) ret
  = Ok (ret + v * 2 ^ (7 * Z.of_nat i),
        Z.of_nat i + len (EncodeUint64_loop (S fuel) v)).
Proof.
  revert i fuel v ret. induction n as [|n IH]; intros i fuel v ret Hn Hret Hv Hnz Hw Hf Hd.
  { replace i with 10%nat in * by lia. cbn in Hw. lia. }
  destruct (EncodeUint64_loop_next fuel i v) as [Hi Hb]; [lia|done|].
  destruct (shifted_digits v i 64) as (Hq & Hm & Hs); [done..|].
  pose proof (Z.mod_pos_bound v 128 ltac:(lia)).
  cbn [LoadUint64_loop]. unfold u64.
  destruct (Z.leb_spec (len buf) (Z.of_nat i)) as [?|_]; [unfold len in *; lia|].
  destruct (Z.ltb_spec v 128).
  - destruct Hb as [-> Hl]. destruct (Z.ltb_spec v 128); [|lia].
    rewrite unsigned_step by (lia || done). unfold len. rewrite Hl.
    destruct (Z.eqb_spec (Z.of_nat i) (maxVarintLen64 - 1)) as [Hi'|]; cbn [andb]; [|done].
    rewrite Hi' in *. destruct (Z.ltb_spec 1 v); [unfold maxVarintLen64 in *; lia|done].
  - destruct Hb as (fuel' & -> & -> & Hd' & Hf' & Hl).
    destruct (Z.ltb_spec (v mod 128 + 128) 128); [lia|].
    rewrite land_127, <-(Z.mul_1_l 128), Z.mod_add, Z.mod_mod, Z.mul_1_l by lia.
    rewrite unsigned_step by (lia || done).
    replace (7 * Z.of_nat i + 7) with (7 * Z.of_nat (S i)) by lia.
    rewrite (IH (S i) fuel' (v / 128)); [|lia|rewrite pow2_split7; nia|lia|Z.div_mod_to_equations; lia
                               |done|lia|done].
    unfold len. rewrite Hl. f_equal. f_equal; lia.
Qed.

End unsigned.

Section signed.
Variable buf rest : list Z.

Lemma EncodeInt64_loop_next fuel i v :
  - 2 ^ (7 * Z.of_nat (S fuel) - 1) <= v < 2 ^ (7 * Z.of_nat (S fuel) - 1) ->
  drop i buf = EncodeInt64_loop (S fuel) v ++ rest ->
  (i < length buf)%nat /\
  if (-64 <=? v) && (v <? 64)
  then buf_next buf i = Ok (v mod 128) /\ length (EncodeInt64_loop (S fuel) v) = 1%nat
  else exists fuel', fuel = S fuel' /\ buf_next buf i = Ok (v mod 128 + 128) /\
       drop (S i) buf = EncodeInt64_loop (S fuel') (v / 128) ++ rest /\
       - 2 ^ (7 * Z.of_nat (S fuel') - 1) <= v / 128 < 2 ^ (7 * Z.of_nat (S fuel') - 1) /\
       length (EncodeInt64_loop (S fuel) v)
       = S (length (EncodeInt64_loop (S fuel') (v / 128))).
Proof.
  intros Hv Hd. rewrite EncodeInt64_loop_S in *.
  split; [destruct ((-64 <=? v) && (v <? 64)); eapply drop_cons_len, Hd|].
  destruct ((-64 <=? v) && (v <? 64)) eqn:Hs.
  - split; [eapply buf_next_drop, Hd|done].
  - destruct fuel as [|fuel]; [exfalso; zbool; cbn in *; lia|]. exists fuel.
    split; [done|]. split; [eapply buf_next_drop, Hd|].
    split; [eapply drop_S_cons, Hd|]. split; [|done].
    replace (2 ^ (7 * Z.of_nat (S (S fuel)) - 1))
      with (128 * 2 ^ (7 * Z.of_nat (S fuel) - 1)) in Hv
      by (rewrite <-(Z.pow_add_r 2 7) by lia; f_equal; lia).
    Z.div_mod_to_equations; lia.
Qed.

(** A payload that does not reach the sign bit is added as it is. *)
Lemma signed_step w i b ret :
  0 < w -> 0 <= b < 128 -> 0 <= ret < 2 ^ (7 * Z.of_nat i) ->
  7 * Z.of_nat (S i) <= w - 1 ->
  Z.lor ret (wraps w (Z.shiftl b (7 * Z.of_nat i))) = ret + b * 2 ^ (7 * Z.of_nat i) /\
  0 <= ret + b * 2 ^ (7 * Z.of_nat i) < 2 ^ (7 * Z.of_nat (S i)).
Proof.
  intros Hw Hb Hret Hi.
  assert (ret + b * 2 ^ (7 * Z.of_nat i) < 2 ^ (7 * Z.of_nat (S i))).
  { rewrite pow2_split7. nia. }
  assert (0 <= b * 2 ^ (7 * Z.of_nat i)) by (apply Z.mul_nonneg_nonneg; lia).
  pose proof (Z.pow_le_mono_r 2 _ _ ltac:(lia) Hi).
  rewrite wraps_small; [rewrite lor_shiftl_add by lia; lia|done|].
  rewrite Z.shiftl_mul_pow2 by lia. unfold in_s. lia.
Qed.

(** The last payload, when it carries the sign bit: the bits of [v] above the
    width are dropped and the sign comes out right. *)
Lemma signed_top w i v ret :
  0 < w -> 0 <= ret < 2 ^ (7 * Z.of_nat i) -> w <= 7 * Z.of_nat (S i) ->
  in_s w (v * 2 ^ (7 * Z.of_nat i)) ->
  Z.lor ret (wraps w (Z.shiftl (v mod 128) (7 * Z.of_nat i)))
  = ret + v * 2 ^ (7 * Z.of_nat i).
Proof.
  intros Hw Hret Hi Hv. rewrite <-lor_shiftl_add by lia. f_equal.
  rewrite !Z.shiftl_mul_pow2 by lia. rewrite <-(wraps_small w (v * _)) by done.
  unfold wraps. f_equal. pose proof (Z.pow_pos_nonneg 2 w).
  rewrite <-(Z.mod_add (v * _ + _) (- ((v / 128) * 2 ^ (7 * Z.of_nat (S i) - w)))) by lia.
  f_equal. rewrite Z.mul_opp_l, <-Z.mul_assoc, <-(Z.pow_add_r 2) by lia.
  rewrite Z.sub_add, pow2_split7, (Z.mod_eq v 128) by lia. lia.
Qed.

Lemma shifted_signed v P K :
  0 < P -> - (128 * P * K) <= v * P < 128 * P * K ->
  - (128 * P * K) <= v / 128 * (128 * P) < 128 * P * K.
Proof.
  intros HP [H1 H2].
  assert (- (128 * K) <= v) by (apply (Z.mul_le_mono_pos_r _ _ P); lia).
  assert (v < 128 * K) by (apply (Z.mul_lt_mono_pos_r P); lia).
  assert (- K <= v / 128 < K) by (Z.div_mod_to_equations; lia).
  split; [apply Z.le_trans with (- K * (128 * P)); [lia|]|
          apply Z.lt_le_trans with (K * (128 * P)); [|lia]].
  - apply Z.mul_le_mono_nonneg_r; lia.
  - apply Z.mul_lt_mono_pos_r; lia.
Qed.

(** Bit 6 of the last payload is the sign. *)
Lemma bit6_sign v : -64 <= v < 64 ->
  (v mod 128 / 64) mod 2 = (if v <? 0 then 1 else 0) /\
  v mod 128 = (if v <? 0 then v + 128 else v).
Proof.
  intros Hv.
  pose proof (zrange_forallb (fun v => ((v mod 128 / 64) mod 2 =? if v <? 0 then 1 else 0) &&
    (v mod 128 =? if v <? 0 then v + 128 else v)) (-64) 128 eq_refl v ltac:(lia)) as E.
  by apply andb_true_iff in E as [->%Z.eqb_eq ->%Z.eqb_eq].
Qed.

Lemma decodeInt32_end_ok i v ret :
  (i <= 4)%nat -> -64 <= v < 64 -> 0 <= ret < 2 ^ (7 * Z.of_nat i) ->
  in_s 32 (v * 2 ^ (7 * Z.of_nat i)) ->
  decodeInt32_end (v mod 128)
    (Z.lor ret (i32 (Z.shiftl (Z.land (v mod 128) 0x7f) (7 * Z.of_nat i))))
    (7 * Z.of_nat i + 7) (Z.of_nat i + 1)
  = Ok (ret + v * 2 ^ (7 * Z.of_nat i), Z.of_nat i + 1).
Proof.
  intros Hi Hv Hret Hs. rewrite land_127, Z.mod_mod by lia. unfold decodeInt32_end, i32.
  pose proof (Z.mod_pos_bound v 128 ltac:(lia)).
  replace (7 * Z.of_nat i + 7) with (7 * Z.of_nat (S i)) by lia.
  destruct (decide (i = 4%nat)) as [->|].
  - rewrite signed_top by (done || lia).
    assert (-8 <= v < - 8 + 2 * 8) as Hr by (unfold in_s in Hs; lia).
    pose proof (zrange_forallb (fun v => Z.land (v mod 128) 0x30 =? if v <? 0 then 0x30 else 0)
      (-8) (2 * 8) eq_refl v Hr) as E. apply Z.eqb_eq in E. rewrite E.
    replace (7 * Z.of_nat (S 4) <? 32) with false by done. cbn [andb].
    set (r := ret + v * _) in *.
    assert (v < 0 <-> r < 0) as Hsg by (subst r; lia).
    replace (r <? 0) with (v <? 0) by (zbool; lia || done).
    replace (0 <=? r) with (negb (v <? 0)) by (zbool; lia || done).
    by destruct (v <? 0).
  - destruct (signed_step 32 i (v mod 128) ret) as [-> Hr]; [lia..|].
    destruct (Z.ltb_spec (7 * Z.of_nat (S i)) 32); [|lia]. cbn [andb].
    destruct (Z.ltb_spec maxVarintLen32 (Z.of_nat i + 1)); [unfold maxVarintLen32 in *; lia|].
    destruct (Z.eqb_spec (Z.of_nat i + 1) maxVarintLen32); [unfold maxVarintLen32 in *; lia|].
    cbn [andb]. destruct (bit6_sign v Hv) as [Hb Hm]. rewrite land_64, Hb.
    destruct (Z.ltb_spec v 0); rewrite Hm in *; [|done].
    change (64 * 1) with 64. cbn [negb Z.eqb Pos.eqb].
    rewrite wraps_small; [rewrite lor_shiftl_add by lia|lia|].
    + rewrite pow2_split7 in *. do 2 f_equal. lia.
    + rewrite Z.shiftl_mul_pow2 by lia. unfold in_s.
      pose proof (Z.pow_le_mono_r 2 (7 * Z.of_nat (S i)) (32 - 1)). lia.
Qed.

Lemma decodeInt32_loop_enc n fuel i v ret :
  (i <= 4)%nat -> (length (EncodeInt64_loop (S fuel) v) <= n)%nat ->
  0 <= ret < 2 ^ (7 * Z.of_nat i) -> in_s 32 (v * 2 ^ (7 * Z.of_nat i)) ->
  - 2 ^ (7 * Z.of_nat (S fuel) - 1) <= v < 2 ^ (7 * Z.of_nat (S fuel) - 1) ->
  drop i buf = EncodeInt64_loop (S fuel) v ++ rest ->
  decodeInt32_loop (buf_next buf) n ret (7 * Z.of_nat i) (Z.of_nat i)
  = Ok (ret + v * 2 ^ (7 * Z.of_nat i), Z.of_nat i + len (EncodeInt64_loop (S fuel) v)).
Proof.
  revert i fuel v ret. induction n as [|n IH]; intros i fuel v ret Hi Hn Hret Hs Hv Hd.
  { rewrite EncodeInt64_loop_S in Hn. destruct (_ && _); cbn in Hn; lia. }
  destruct (EncodeInt64_loop_next fuel i v) as [Hlen Hb]; [done..|].
  pose proof (Z.mod_pos_bound v 128 ltac:(lia)).
  cbn [decodeInt32_loop]. rewrite Nat2Z.id.
  destruct ((-64 <=? v) && (v <? 64)) eqn:Hsm.
  - destruct Hb as [-> Hl]. unfold len. rewrite land_128, Hl, Z.div_small by done.
    apply decodeInt32_end_ok; [done|zbool; cbn in *; lia|done..].
  - destruct Hb as (fuel' & -> & -> & Hd' & Hv' & Hl).
    rewrite land_128, div_plus_128 by done.
    rewrite land_127, <-(Z.mul_1_l 128), Z.mod_add, Z.mod_mod, Z.mul_1_l by lia.
    assert (i < 4)%nat as Hi'.
    { destruct (decide (i = 4%nat)) as [->|]; [|lia].
      unfold in_s in Hs. zbool; cbn in Hsm; try done; cbn in Hs; lia. }
    destruct (signed_step 32 i (v mod 128) ret) as [E Hr]; [lia..|].
    unfold i32. rewrite E. change (128 * (1 mod 2) =? 0) with false. cbv iota.
    replace (7 * Z.of_nat i + 7) with (7 * Z.of_nat (S i)) by lia.
    replace (Z.of_nat i + 1) with (Z.of_nat (S i)) by lia.
    rewrite (IH (S i) fuel' (v / 128)); [|lia|lia|done| |done|done].
    + unfold len. rewrite Hl, pow2_split7. pose proof (Z.div_mod v 128 ltac:(lia)).
      do 2 f_equal; nia.
    + unfold in_s in *. rewrite pow2_split7. pose proof (Z.div_mod v 128 ltac:(lia)).
      pose proof (Z.pow_pos_nonneg 2 (7 * Z.of_nat i)). 
      replace (2 ^ (32 - 1)) with (128 * 2 ^ (7 * Z.of_nat i) * 2 ^ (32 - 1 - 7 * Z.of_nat (S i))) in *
        by (rewrite <-pow2_split7, <-Z.pow_add_r by lia; f_equal; lia).
      apply shifted_signed; [lia|done].
Qed.

Lemma decodeInt64_end_ok i v ret :
  (i <= 9)%nat -> -64 <= v < 64 -> 0 <= ret < 2 ^ (7 * Z.of_nat i) ->
  in_s 64 (v * 2 ^ (7 * Z.of_nat i)) ->
  decodeInt64_end (v mod 128)
    (Z.lor ret (i64 (Z.shiftl (Z.land (v mod 128) 0x7f) (7 * Z.of_nat i))))
    (7 * Z.of_nat i + 7) (Z.of_nat i + 1)
  = Ok (ret + v * 2 ^ (7 * Z.of_nat i), Z.of_nat i + 1).
Proof.
  intros Hi Hv Hret Hs. rewrite land_127, Z.mod_mod by lia. unfold decodeInt64_end, i64.
  pose proof (Z.mod_pos_bound v 128 ltac:(lia)).
  replace (7 * Z.of_nat i + 7) with (7 * Z.of_nat (S i)) by lia.
  destruct (decide (i = 9%nat)) as [->|].
  - rewrite signed_top by (done || lia).
    assert (-1 <= v < - 1 + 2 * 1) as Hr by (unfold in_s in Hs; lia).
    pose proof (zrange_forallb (fun v => Z.land (v mod 128) 0x3e =? if v <? 0 then 0x3e else 0)
      (-1) (2 * 1) eq_refl v Hr) as E. apply Z.eqb_eq in E. rewrite E.
    replace (7 * Z.of_nat (S 9) <? 64) with false by done. cbn [andb].
    set (r := ret + v * _) in *.
    assert (v < 0 <-> r < 0) as Hsg by (subst r; lia).
    replace (r <? 0) with (v <? 0) by (zbool; lia || done).
    replace (0 <=? r) with (negb (v <? 0)) by (zbool; lia || done).
    by destruct (v <? 0).
  - destruct (signed_step 64 i (v mod 128) ret) as [-> Hr]; [lia..|].
    destruct (Z.ltb_spec (7 * Z.of_nat (S i)) 64); [|lia]. cbn [andb].
    destruct (Z.ltb_spec maxVarintLen64 (Z.of_nat i + 1)); [unfold maxVarintLen64 in *; lia|].
    destruct (Z.eqb_spec (Z.of_nat i + 1) maxVarintLen64); [unfold maxVarintLen64 in *; lia|].
    cbn [andb]. destruct (bit6_sign v Hv) as [Hb Hm]. rewrite land_64, Hb.
    destruct (Z.ltb_spec v 0); rewrite Hm in *; [|done].
    change (64 * 1) with 64. cbn [negb Z.eqb Pos.eqb].
    rewrite wraps_small; [rewrite lor_shiftl_add by lia|lia|].
    + rewrite pow2_split7 in *. do 2 f_equal. lia.
    + rewrite Z.shiftl_mul_pow2 by lia. unfold in_s.
      pose proof (Z.pow_le_mono_r 2 (7 * Z.of_nat (S i)) (64 - 1)). lia.
Qed.

Lemma decodeInt64_loop_enc n fuel i v ret :
  (i <= 9)%nat -> (length (EncodeInt64_loop (S fuel) v) <= n)%nat ->
  0 <= ret < 2 ^ (7 * Z.of_nat i) -> in_s 64 (v * 2 ^ (7 * Z.of_nat i)) ->
  - 2 ^ (7 * Z.of_nat (S fuel) - 1) <= v < 2 ^ (7 * Z.of_nat (S fuel) - 1) ->
  drop i buf = EncodeInt64_loop (S fuel) v ++ rest ->
  decodeInt64_loop (buf_next buf) n ret (7 * Z.of_nat i) (Z.of_nat i)
  = Ok (ret + v * 2 ^ (7 * Z.of_nat i), Z.of_nat i + len (EncodeInt64_loop (S fuel) v)).
Proof.
  revert i fuel v ret. induction n as [|n IH]; intros i fuel v ret Hi Hn Hret Hs Hv Hd.
  { rewrite EncodeInt64_loop_S in Hn. destruct (_ && _); cbn in Hn; lia. }
  destruct (EncodeInt64_loop_next fuel i v) as [Hlen Hb]; [done..|].
  pose proof (Z.mod_pos_bound v 128 ltac:(lia)).
  cbn [decodeInt64_loop]. rewrite Nat2Z.id.
  destruct ((-64 <=? v) && (v <? 64)) eqn:Hsm.
  - destruct Hb as [-> Hl]. unfold len. rewrite land_128, Hl, Z.div_small by done.
    apply decodeInt64_end_ok; [done|zbool; cbn in *; lia|done..].
  - destruct Hb as (fuel' & -> & -> & Hd' & Hv' & Hl).
    rewrite land_128, div_plus_128 by done.
    rewrite land_127, <-(Z.mul_1_l 128), Z.mod_add, Z.mod_mod, Z.mul_1_l by lia.
    assert (i < 9)%nat as Hi'.
    { destruct (decide (i = 9%nat)) as [->|]; [|lia].
      unfold in_s in Hs. zbool; cbn in Hsm; try done; cbn in Hs; lia. }
    destruct (signed_step 64 i (v mod 128) ret) as [E Hr]; [lia..|].
    unfold i64. rewrite E. change (128 * (1 mod 2) =? 0) with false. cbv iota.
    replace (7 * Z.of_nat i + 7) with (7 * Z.of_nat (S i)) by lia.
    replace (Z.of_nat i + 1) with (Z.of_nat (S i)) by lia.
    rewrite (IH (S i) fuel' (v / 128)); [|lia|lia|done| |done|done].
    + unfold len. rewrite Hl, pow2_split7. pose proof (Z.div_mod v 128 ltac:(lia)).
      do 2 f_equal; nia.
    + unfold in_s in *. rewrite pow2_split7. pose proof (Z.div_mod v 128 ltac:(lia)).
      pose proof (Z.pow_pos_nonneg 2 (7 * Z.of_nat i)). 
      replace (2 ^ (64 - 1)) with (128 * 2 ^ (7 * Z.of_nat i) * 2 ^ (64 - 1 - 7 * Z.of_nat (S i))) in *
        by (rewrite <-pow2_split7, <-Z.pow_add_r by lia; f_equal; lia).
      apply shifted_signed; [lia|done].
Qed.

End signed.

Lemma LoadUint32_encode v rest :
  in_u 32 v -> LoadUint32 (EncodeUint32 v ++ rest) = Ok (v, len (EncodeUint32 v)).
Proof.
  unfold in_u. intros Hv. unfold LoadUint32, decodeUint32, EncodeUint32, EncodeUint64.
  change 0 with (7 * Z.of_nat 0) at 1.
  rewrite (decodeUint32_loop_enc _ rest) with (fuel := 9%nat) (v := v); try done; try lia.
  do 2 f_equal; lia.
Qed.
Lemma LoadUint64_encode v rest :
  in_u 64 v -> LoadUint64 (EncodeUint64 v ++ rest) = Ok (v, len (EncodeUint64 v)).
Proof.
  unfold in_u. intros Hv. unfold LoadUint64, EncodeUint64.
  destruct (Z.eqb_spec (len (EncodeUint64_loop 10 v ++ rest)) 0) as [E|_].
  { rewrite EncodeUint64_loop_S in E by lia. unfold len in E.
    destruct (v <? 128); cbn in E; lia. }
  change 0 with (7 * Z.of_nat 0) at 1.
  rewrite (LoadUint64_loop_enc _ rest) with (fuel := 9%nat) (v := v); try done; try lia.
  do 2 f_equal; lia.
Qed.
Lemma LoadInt32_encode v rest :
  in_s 32 v -> LoadInt32 (EncodeInt32 v ++ rest) = Ok (v, len (EncodeInt32 v)).
Proof.
  unfold in_s. intros Hv. unfold LoadInt32, EncodeInt32, EncodeInt64.
  pose proof (decodeInt32_loop_enc (EncodeInt64_loop 10 v ++ rest) rest
    (S (length (EncodeInt64_loop 10 v ++ rest))) 9 0 v 0) as H.
  cbn [Z.of_nat] in H. rewrite Z.mul_0_r, Z.mul_1_r, Z.add_0_l in H.
  apply H; try done; try lia. rewrite length_app. lia.
Qed.
Lemma LoadInt64_encode v rest :
  in_s 64 v -> LoadInt64 (EncodeInt64 v ++ rest) = Ok (v, len (EncodeInt64 v)).
Proof.
  unfold in_s. intros Hv. unfold LoadInt64, EncodeInt64.
  pose proof (decodeInt64_loop_enc (EncodeInt64_loop 10 v ++ rest) rest
    (S (length (EncodeInt64_loop 10 v ++ rest))) 9 0 v 0) as H.
  cbn [Z.of_nat] in H. rewrite Z.mul_0_r, Z.mul_1_r, Z.add_0_l in H.
  apply H; try done; try lia. rewrite length_app. lia.
Qed.

(** C37: every value of a width survives encoding and decoding, with any
    bytes after it, and the decoder reports exactly the encoder's length. *)
Theorem leb128_roundtrip rest :
  (forall v, in_u 32 v -> LoadUint32 (EncodeUint32 v ++ rest) = Ok (v, len (EncodeUint32 v))) /\
  (forall v, in_u 64 v -> LoadUint64 (EncodeUint64 v ++ rest) = Ok (v, len (EncodeUint64 v))) /\
  (forall v, in_s 32 v -> LoadInt32 (EncodeInt32 v ++ rest) = Ok (v, len (EncodeInt32 v))) /\
  (forall v, in_s 64 v -> LoadInt64 (EncodeInt64 v ++ rest) = Ok (v, len (EncodeInt64 v))).
Proof.
  split_and!; intros v;
    [apply LoadUint32_encode|apply LoadUint64_encode|apply LoadInt32_encode|apply LoadInt64_encode].
Qed.

Lemma leb128_roundtrip_witness :
  LoadInt64 ([128; 128; 128; 128; 128; 128; 128; 128; 128; 127] ++ [5]) = Ok (- 2 ^ 63, 10).
Proof.
  apply (proj2 (proj2 (proj2 (leb128_roundtrip [5]))) (- 2 ^ 63)). unfold in_s. lia.
Defined.

(** The number a run of LEB128 bytes denotes: seven bits per byte, least
    significant first. *)
Fixpoint uleb_value (bs : list Z) : Z :=
  match bs with
  | [] => 0
  | b :: bs => b mod 128 + 128 * uleb_value bs
  end.

Lemma buf_next_inv buf i b :
  buf_next buf i = Ok b -> buf !! i = Some b.
Proof. unfold buf_next. destruct (buf !! i); naive_solver. Qed.

Lemma decodeUint32_loop_sound buf n i ret v m :
  bytes_ok buf -> (n + i = 5)%nat -> 0 <= ret < 2 ^ (7 * Z.of_nat i) ->
  decodeUint32_loop (buf_next buf) n i (7 * Z.of_nat i) ret = Ok (v, m) ->
  exists k, (1 <= k)%nat /\ (k + i <= 5)%nat /\ (i + k <= length buf)%nat /\
    m = Z.of_nat (i + k) /\
    v = ret + 2 ^ (7 * Z.of_nat i) * uleb_value (sub buf i k) /\ 0 <= v < 2 ^ 32.
Proof.
  intros Hok. revert i ret. induction n as [|n IH]; intros i ret Hn Hret H; [done|].
  cbn [decodeUint32_loop] in H. destruct (buf_next buf i) as [b|] eqn:Hb; [|done].
  apply buf_next_inv in Hb. pose proof (lookup_lt_Some _ _ _ Hb).
  assert (is_byte b) as Hbyte by (eapply Forall_lookup_1; eauto). unfold is_byte in Hbyte.
  pose proof (Z.mod_pos_bound b 128 ltac:(lia)).
  assert (2 ^ (7 * Z.of_nat i) <= 2 ^ 28) by (apply Z.pow_le_mono_r; lia).
  unfold u32 in H. destruct (Z.ltb_spec b 128).
  - destruct (_ && _) eqn:Ho; [done|].
    assert (b * 2 ^ (7 * Z.of_nat i) < 2 ^ 32 /\ ret + b * 2 ^ (7 * Z.of_nat i) < 2 ^ 32) as [].
    { destruct (decide (i = 4%nat)) as [->|].
      - pose proof (zrange_forallb (fun b => (0 <? Z.land b 0xf0) || (b <? 16)) 0 128 eq_refl b
          ltac:(lia)) as E.
        change (Z.of_nat 4 =? maxVarintLen32 - 1) with true in Ho. cbn [andb] in Ho.
        cbv beta in E. rewrite Ho in E. apply Z.ltb_lt in E.
        change (7 * Z.of_nat 4) with 28 in *. lia.
      - assert (2 ^ (7 * Z.of_nat i) <= 2 ^ 21) by (apply Z.pow_le_mono_r; lia). nia. }
    rewrite unsigned_step in H by (lia || done). simplify_eq.
    exists 1%nat. split_and!; try lia.
    unfold sub. rewrite (drop_S _ _ _ Hb). cbn [firstn uleb_value].
    rewrite take_0. cbn [uleb_value]. rewrite (Z.mod_small b 128) by lia. lia.
  - destruct (decide (i = 4%nat)) as [->|].
    { assert (n = 0%nat) as -> by lia. done. }
    assert (2 ^ (7 * Z.of_nat i) <= 2 ^ 21) by (apply Z.pow_le_mono_r; lia).
    rewrite land_127, unsigned_step in H by (lia || nia || done).
    replace (7 * Z.of_nat i + 7) with (7 * Z.of_nat (S i)) in H by lia.
    apply IH in H as (k & ? & ? & ? & -> & -> & ?); [|lia|rewrite pow2_split7; nia].
    exists (S k). split_and!; try lia; [|done..].
    unfold sub. rewrite (drop_S _ _ _ Hb). cbn [firstn uleb_value].
    rewrite pow2_split7. fold (sub buf (S i) k). lia.
Qed.

(** C39: whatever [LoadUint32] accepts, it consumes between one and
    five bytes of the buffer, and returns the number those bytes denote, which
    fits 32 bits: nothing is truncated. *)
Theorem LoadUint32_sound buf v n :
  bytes_ok buf -> LoadUint32 buf = Ok (v, n) ->
  1 <= n <= maxVarintLen32 /\ n <= len buf /\
  v = uleb_value (sub buf 0 (Z.to_nat n)) /\ in_u 32 v.
Proof.
  intros Hok H. apply (decodeUint32_loop_sound buf 5 0 0 v n Hok eq_refl) in H; [|lia].
  destruct H as (k & ? & ? & ? & -> & -> & ?). unfold maxVarintLen32, len, in_u.
  rewrite Nat2Z.id, Nat.add_0_l. split_and!; lia.
Qed.

Lemma LoadUint32_sound_witness :
  LoadUint32 [229; 142; 38; 7] = Ok (624485, 3) /\ in_u 32 624485.
Proof.
  split; [reflexivity|].
  apply (LoadUint32_sound [229; 142; 38; 7] 624485 3); [|reflexivity].
  repeat constructor; unfold is_byte; lia.
Defined.
(** ** A decoder depends only on the bytes it consumes *)
Definition reads_prefix (load : list Z -> result leb_err (Z * Z)) : Prop :=
  forall buf v n, load buf = Ok (v, n) ->
    1 <= n <= len buf /\ load (take (Z.to_nat n) buf) = Ok (v, n).

Lemma buf_next_take buf i k b :
  buf_next buf i = Ok b -> (i < k)%nat -> buf_next (take k buf) i = Ok b.
Proof. unfold buf_next. intros H Hk. by rewrite lookup_take_lt by lia. Qed.
Lemma buf_next_lt buf i b : buf_next buf i = Ok b -> Z.of_nat i < len buf.
Proof.
  unfold buf_next, len. destruct (buf !! i) eqn:E; [|done]. intros _.
  apply lookup_lt_Some in E. lia.
Qed.

Lemma decodeUint32_loop_take buf n i s ret v m :
  decodeUint32_loop (buf_next buf) n i s ret = Ok (v, m) ->
  Z.of_nat i < m <= len buf /\
  forall k, (Z.to_nat m <= k)%nat -> decodeUint32_loop (buf_next (take k buf)) n i s ret = Ok (v, m).
Proof.
  revert i s ret. induction n as [|n IH]; intros i s ret; cbn [decodeUint32_loop]; [done|].
  destruct (buf_next buf i) as [b|] eqn:Eb; [|done]. pose proof (buf_next_lt _ _ _ Eb).
  destruct (b <? 0x80) eqn:E8.
  - destruct ((Z.of_nat i =? maxVarintLen32 - 1) && (0 <? Z.land b 240)) eqn:Eo; [done|].
    intros [= <- <-]. split; [lia|]. intros k Hk.
    rewrite (buf_next_take _ _ k _ Eb) by lia. by rewrite E8, Eo.
  - intros H'. apply IH in H' as [Hm Hk]. split; [lia|]. intros k ?.
    rewrite (buf_next_take _ _ k _ Eb) by lia. rewrite E8. by apply Hk.
Qed.
Lemma LoadUint32_prefix : reads_prefix LoadUint32.
Proof.
  intros buf v n H. unfold LoadUint32, decodeUint32 in *.
  apply decodeUint32_loop_take in H as [? H]. split; [lia|]. by apply H.
Qed.

Ltac three_checks :=
  do 3 (match goal with |- (if ?c then _ else _) = _ -> _ => destruct c; [done|] end);
  by intros [= _ <-].

(** The signed loops, whatever their fuel. *)
Lemma decodeInt32_loop_take buf fuel ret shift c v m :
  0 <= c -> decodeInt32_loop (buf_next buf) fuel ret shift c = Ok (v, m) ->
  c < m <= len buf /\
  forall k fuel', (Z.to_nat m <= k)%nat -> m - c <= Z.of_nat fuel' ->
    decodeInt32_loop (buf_next (take k buf)) fuel' ret shift c = Ok (v, m).
Proof.
  revert ret shift c. induction fuel as [|fuel IH]; intros ret shift c Hc; [done|].
  cbn [decodeInt32_loop].
  destruct (buf_next buf (Z.to_nat c)) as [b|] eqn:Eb; [|done].
  pose proof (buf_next_lt _ _ _ Eb).
  destruct (Z.land b 0x80 =? 0) eqn:E8.
  - intros H'. assert (m = c + 1) as ->.
    { revert H'. unfold decodeInt32_end. cbv zeta. three_checks. }
    split; [lia|]. intros k [|fuel'] ? ?; [lia|]. cbn [decodeInt32_loop].
    rewrite (buf_next_take _ _ k _ Eb) by lia. by rewrite E8.
  - intros H'. apply IH in H' as [? Hk]; [|lia]. split; [lia|].
    intros k [|fuel'] ? ?; [lia|]. cbn [decodeInt32_loop].
    rewrite (buf_next_take _ _ k _ Eb) by lia. rewrite E8. apply Hk; lia.
Qed.
Lemma LoadInt32_prefix : reads_prefix LoadInt32.
Proof.
  intros buf v n H. unfold LoadInt32 in *.
  apply decodeInt32_loop_take in H as [? H]; [|lia]. split; [lia|]. apply H; [done|].
  rewrite length_take. unfold len in *. lia.
Qed.

Lemma decodeInt64_loop_take buf fuel ret shift c v m :
  0 <= c -> decodeInt64_loop (buf_next buf) fuel ret shift c = Ok (v, m) ->
  c < m <= len buf /\
  forall k fuel', (Z.to_nat m <= k)%nat -> m - c <= Z.of_nat fuel' ->
    decodeInt64_loop (buf_next (take k buf)) fuel' ret shift c = Ok (v, m).
Proof.
  revert ret shift c. induction fuel as [|fuel IH]; intros ret shift c Hc; [done|].
  cbn [decodeInt64_loop].
  destruct (buf_next buf (Z.to_nat c)) as [b|] eqn:Eb; [|done].
  pose proof (buf_next_lt _ _ _ Eb).
  destruct (Z.land b 0x80 =? 0) eqn:E8.
  - intros H'. assert (m = c + 1) as ->.
    { revert H'. unfold decodeInt64_end. cbv zeta. three_checks. }
    split; [lia|]. intros k [|fuel'] ? ?; [lia|]. cbn [decodeInt64_loop].
    rewrite (buf_next_take _ _ k _ Eb) by lia. by rewrite E8.
  - intros H'. apply IH in H' as [? Hk]; [|lia]. split; [lia|].
    intros k [|fuel'] ? ?; [lia|]. cbn [decodeInt64_loop].
    rewrite (buf_next_take _ _ k _ Eb) by lia. rewrite E8. apply Hk; lia.
Qed.
Lemma LoadInt64_prefix : reads_prefix LoadInt64.
Proof.
  intros buf v n H. unfold LoadInt64 in *.
  apply decodeInt64_loop_take in H as [? H]; [|lia]. split; [lia|]. apply H; [done|].
  rewrite length_take. unfold len in *. lia.
Qed.

Lemma DecodeInt33_loop_take buf fuel b0 ret shift c b r' s' m :
  0 <= c -> DecodeInt33_loop (buf_next buf) fuel b0 ret shift c = Ok (b, r', s', m) ->
  c <= m /\ (c < m -> m <= len buf) /\ (shift < 35 -> fuel <> O -> c < m) /\
  forall k, (Z.to_nat m <= k)%nat ->
    DecodeInt33_loop (buf_next (take k buf)) fuel b0 ret shift c = Ok (b, r', s', m).
Proof.
  revert b0 ret shift c. induction fuel as [|fuel IH]; intros b0 ret shift c Hc; cbn [DecodeInt33_loop].
  { intros [= -> -> -> ->]. split_and!; [lia|lia|done|done]. }
  destruct (shift <? 35) eqn:E35.
  2:{ intros [= -> -> -> ->]. split_and!; [lia|lia|lia|done]. }
  destruct (buf_next buf (Z.to_nat c)) as [x|] eqn:Eb; [|done].
  pose proof (buf_next_lt _ _ _ Eb).
  destruct (Z.land x int33Mask =? 0) eqn:E8.
  - intros [= -> <- <- <-]. split_and!; [lia|lia|lia|]. intros k ?.
    rewrite (buf_next_take _ _ k _ Eb) by lia. by rewrite E8.
  - intros H'. apply IH in H' as (? & ? & ? & Hk); [|lia]. split_and!; [lia|lia|lia|].
    intros k ?. rewrite (buf_next_take _ _ k _ Eb) by lia. rewrite E8. apply Hk; lia.
Qed.
Lemma DecodeInt33_prefix : reads_prefix (fun buf => DecodeInt33AsInt64 (buf_next buf)).
Proof.
  intros buf v n. unfold DecodeInt33AsInt64.
  destruct (DecodeInt33_loop (buf_next buf) 6 0 0 0 0) as [[[[b r'] s'] m]|] eqn:E; [|done].
  apply DecodeInt33_loop_take in E as (? & ? & ? & Hk); [|lia].
  intros H'. assert (n = m) as ->.
  { revert H'. cbv zeta. three_checks. }
  split; [lia|]. rewrite Hk by lia. exact H'.
Qed.

Lemma decodeUint32_loop_range next n i s ret v m :
  in_u 32 ret -> decodeUint32_loop next n i s ret = Ok (v, m) -> in_u 32 v.
Proof.
  revert i s ret. induction n as [|n IH]; intros i s ret Hr; cbn [decodeUint32_loop]; [done|].
  destruct (next i) as [b|]; [|done].
  assert (forall x, in_u 32 (Z.lor ret (u32 x))) as Hx.
  { intros x. apply lor_in_u; [lia|done|]. apply wrapu_range. lia. }
  destruct (b <? 0x80); [|by apply IH].
  destruct (_ && _); [done|]. intros [= <- _]. apply Hx.
Qed.
Lemma LoadUint32_range buf v n : LoadUint32 buf = Ok (v, n) -> in_u 32 v.
Proof. apply decodeUint32_loop_range. unfold in_u. lia. Qed.


(** ** Bytes after the ones consumed do not matter *)
Definition extends (load : list Z -> result leb_err (Z * Z)) : Prop :=
  forall buf rest r, load buf = Ok r -> load (buf ++ rest) = Ok r.

Definition agrees (next next' : nextByte) : Prop := forall i b, next i = Ok b -> next' i = Ok b.
Lemma buf_next_agrees buf rest : agrees (buf_next buf) (buf_next (buf ++ rest)).
Proof.
  intros i b. unfold buf_next. destruct (buf !! i) eqn:E; [|done]. by rewrite (lookup_app_l_Some _ _ _ _ E).
Qed.

Section agree.
Context (next next' : nextByte) (Hn : agrees next next').

Lemma decodeUint32_loop_agrees n i s ret r :
  decodeUint32_loop next n i s ret = Ok r -> decodeUint32_loop next' n i s ret = Ok r.
Proof.
  revert i s ret. induction n as [|n IH]; intros i s ret; cbn [decodeUint32_loop]; [done|].
  destruct (next i) as [b|] eqn:Eb; [|done]. rewrite (Hn _ _ Eb). destruct (b <? 0x80); [done|]. apply IH.
Qed.
Lemma decodeInt32_loop_agrees fuel fuel' ret shift c r : (fuel <= fuel')%nat ->
  decodeInt32_loop next fuel ret shift c = Ok r -> decodeInt32_loop next' fuel' ret shift c = Ok r.
Proof.
  revert fuel' ret shift c. induction fuel as [|fuel IH]; intros [|fuel'] ret shift c Hf; cbn [decodeInt32_loop];
    [done..|lia|].
  destruct (next _) as [b|] eqn:Eb; [|done]. rewrite (Hn _ _ Eb). destruct (_ =? 0); [done|]. apply IH. lia.
Qed.
Lemma decodeInt64_loop_agrees fuel fuel' ret shift c r : (fuel <= fuel')%nat ->
  decodeInt64_loop next fuel ret shift c = Ok r -> decodeInt64_loop next' fuel' ret shift c = Ok r.
Proof.
  revert fuel' ret shift c. induction fuel as [|fuel IH]; intros [|fuel'] ret shift c Hf; cbn [decodeInt64_loop];
    [done..|lia|].
  destruct (next _) as [b|] eqn:Eb; [|done]. rewrite (Hn _ _ Eb). destruct (_ =? 0); [done|]. apply IH. lia.
Qed.
Lemma DecodeInt33_loop_agrees fuel b ret shift c r :
  DecodeInt33_loop next fuel b ret shift c = Ok r -> DecodeInt33_loop next' fuel b ret shift c = Ok r.
Proof.
  revert b ret shift c. induction fuel as [|fuel IH]; intros b ret shift c; cbn [DecodeInt33_loop]; [done|].
  destruct (shift <? 35); [|done]. destruct (next _) as [x|] eqn:Eb; [|done]. rewrite (Hn _ _ Eb).
  destruct (_ =? 0); [done|]. apply IH.
Qed.
End agree.

Lemma LoadUint32_extends : extends LoadUint32.
Proof. intros buf rest r. apply decodeUint32_loop_agrees, buf_next_agrees. Qed.
Lemma LoadInt32_extends : extends LoadInt32.
Proof.
  intros buf rest r. apply decodeInt32_loop_agrees; [apply buf_next_agrees|]. rewrite length_app. lia.
Qed.
Lemma LoadInt64_extends : extends LoadInt64.
Proof.
  intros buf rest r. apply decodeInt64_loop_agrees; [apply buf_next_agrees|]. rewrite length_app. lia.
Qed.
Lemma DecodeInt33_extends : extends (fun buf => DecodeInt33AsInt64 (buf_next buf)).
Proof.
  intros buf rest r. unfold DecodeInt33AsInt64.
  destruct (DecodeInt33_loop (buf_next buf) 6 0 0 0 0) as [x|] eqn:E; [|done].
  by rewrite (DecodeInt33_loop_agrees _ _ (buf_next_agrees buf rest) _ _ _ _ _ _ E).
Qed.

End Leb128.
