(* ===== verification/Base40.v ===== *)
(** * CTFS internal file names ([src/internal/ctfs/base40.go])

    A name of one to twelve characters over a 39-character alphabet is packed
    into a 64-bit integer, base 40, least significant character first, zero
    padded.  A Go string is its list of bytes here, because the code indexes
    it byte by byte.  The theorems show that packing never overflows 64 bits,
    that unpacking inverts it, and that the round-trip test of the container
    reader accepts exactly the integers that some name packs into. *)
From S2P Require Import Prelude.

Module Base40.

Inductive name_err : Type := ErrEmptyName | ErrNameTooLong | ErrNotInAlphabet.

#[export] Instance name_err_eq_dec : EqDecision name_err.
Proof. solve_decision. Defined.

Definition base40Alphabet : list Z :=
  0 :: bytes_of_string "0123456789abcdefghijklmnopqrstuvwxyz./-".

Definition MaxNameLen : Z := 12.

(** The inner loop: the first position of [c] in the alphabet, or -1. *)
Fixpoint alphabet_pos (alphabet : list Z) (j c : Z) : Z :=
  match alphabet with
  | [] => -1
  | a :: alphabet => if a =? c then j else alphabet_pos alphabet (j + 1) c
  end.

(** One run of the loop [for i := 0; i < MaxNameLen; i++], [n] iterations left. *)
Fixpoint EncodeName_loop (name : list Z) (n i : nat) (encoded scale : Z) : result name_err Z :=
  match n with
  | O => Ok encoded
  | S n =>
      let! idx :=
        match name !! i with
        | None => Ok 0
        | Some c =>
            let pos := alphabet_pos base40Alphabet 0 c in
            reject pos <=? 0 as ErrNotInAlphabet ;; Ok pos
        end in
      let encoded := u64 (encoded + u64 (idx * scale)) in
      let scale := if Z.of_nat i <? MaxNameLen - 1 then u64 (scale * 40) else scale in
      EncodeName_loop name n (S i) encoded scale
  end.

Definition EncodeName (name : list Z) : result name_err Z :=
  reject len name =? 0 as ErrEmptyName ;;
  reject MaxNameLen <? len name as ErrNameTooLong ;;
  EncodeName_loop name (Z.to_nat MaxNameLen) 0 0 1.

(** [for encoded > 0]: thirteen base-40 digits exhaust 64 bits. *)
Fixpoint DecodeName_loop (fuel : nat) (encoded : Z) (out : list Z) : list Z :=
  match fuel with
  | O => out
  | S fuel =>
      if 0 <? encoded then
        let r := encoded mod 40 in
        let encoded := encoded / 40 in
        if r =? 0 then out
        else DecodeName_loop fuel encoded (out ++ [default 0 (base40Alphabet !! Z.to_nat r)])
      else out
  end.

Definition DecodeName (encoded : Z) : list Z := DecodeName_loop 13 encoded [].

(** ** Digits *)
Definition digit (c : Z) : Z := alphabet_pos base40Alphabet 0 c.
Definition name_char (c : Z) : Prop := 0 < digit c.
Definition char_of (d : Z) : Z := default 0 (base40Alphabet !! Z.to_nat d).

(** The number a name denotes. *)
Fixpoint name_value (name : list Z) : Z :=
  match name with
  | [] => 0
  | c :: name => digit c + 40 * name_value name
  end.

Lemma alphabet_pos_spec alphabet j c :
  0 <= j ->
  (alphabet_pos alphabet j c = -1) \/
  (j <= alphabet_pos alphabet j c < j + len alphabet /\
   alphabet !! Z.to_nat (alphabet_pos alphabet j c - j) = Some c).
Proof.
  revert j. induction alphabet as [|a alphabet IH]; intros j Hj; cbn; [by left|].
  rewrite len_cons. pose proof (len_nonneg alphabet).
  destruct (Z.eqb_spec a c) as [->|].
  - right. rewrite Z.sub_diag. split; [lia|done].
  - destruct (IH (j + 1)) as [?|[? E]]; [lia|by left|right]. split; [lia|].
    replace (Z.to_nat (alphabet_pos alphabet (j + 1) c - j))
      with (S (Z.to_nat (alphabet_pos alphabet (j + 1) c - (j + 1)))) by lia.
    done.
Qed.

Lemma digit_bound c : name_char c -> 1 <= digit c < 40.
Proof.
  unfold name_char, digit. intros H.
  destruct (alphabet_pos_spec base40Alphabet 0 c) as [?|[? _]]; [lia|lia|].
  change (len base40Alphabet) with 40 in *. lia.
Qed.

Lemma char_of_digit c : name_char c -> char_of (digit c) = c.
Proof.
  unfold name_char, digit, char_of. intros H.
  destruct (alphabet_pos_spec base40Alphabet 0 c) as [?|[_ E]]; [lia|lia|].
  rewrite Z.sub_0_r in E. by rewrite E.
Qed.

Lemma name_value_bound name :
  Forall name_char name -> 0 <= name_value name < 40 ^ len name.
Proof.
  induction 1 as [|c name Hc _ IH]; cbn [name_value]; [change (len (@nil Z)) with 0; lia|].
  apply digit_bound in Hc. rewrite len_cons, Z.pow_add_r by (apply len_nonneg || lia). lia.
Qed.

Lemma name_value_fits name :
  Forall name_char name -> len name <= MaxNameLen -> 0 <= name_value name < 2 ^ 64.
Proof.
  intros Hn Hl. pose proof (name_value_bound name Hn).
  assert (40 ^ len name <= 40 ^ 12) by (apply Z.pow_le_mono_r; unfold MaxNameLen in Hl; lia).
  lia.
Qed.

Lemma name_value_snoc name c :
  name_value (name ++ [c]) = name_value name + 40 ^ len name * digit c.
Proof.
  induction name as [|d name IH]; cbn [name_value app]; [change (len (@nil Z)) with 0; lia|].
  rewrite IH, len_cons, Z.pow_add_r by (apply len_nonneg || lia). lia.
Qed.

(** The loop adds the value of the characters it has not read yet; no
    addition or multiplication wraps. *)
Lemma EncodeName_loop_ok name n i :
  (n + i = 12)%nat -> Forall name_char name -> len name <= MaxNameLen ->
  EncodeName_loop name n i (name_value (take i name)) (40 ^ Z.of_nat (Nat.min i 11))
  = Ok (name_value name).
Proof.
  intros Hn Hc Hl. unfold MaxNameLen, len in Hl. revert i Hn.
  induction n as [|n IH]; intros i Hn; cbn [EncodeName_loop].
  { by rewrite take_ge by lia. }
  pose proof (name_value_fits (take (S i) name)) as Hfit.
  rewrite Nat.min_l by lia.
  assert (name_value (take (S i) name) =
          name_value (take i name) + match name !! i with Some c => digit c | None => 0 end
                                     * 40 ^ Z.of_nat i) as E.
  { destruct (name !! i) as [c|] eqn:Hi.
    - rewrite (take_S_r _ _ _ Hi), name_value_snoc.
      apply lookup_lt_Some in Hi. unfold len. rewrite length_take_le by lia. lia.
    - apply lookup_ge_None in Hi. rewrite !take_ge by lia. lia. }
  assert (0 <= name_value (take (S i) name) < 2 ^ 64) as Hr.
  { apply Hfit; [by apply Forall_take|]. unfold len, MaxNameLen. rewrite length_take. lia. }
  pose proof (name_value_bound (take i name) (Forall_take _ _ _ Hc)).
  assert (0 <= match name !! i with Some c => digit c | None => 0 end) as Hd.
  { destruct (name !! i) eqn:Hi; [|lia].
    pose proof (digit_bound _ (Forall_lookup_1 _ _ _ _ Hc Hi)). lia. }
  assert (0 <= match name !! i with Some c => digit c | None => 0 end * 40 ^ Z.of_nat i)
    by (apply Z.mul_nonneg_nonneg; lia).
  transitivity (EncodeName_loop name n (S i) (name_value (take (S i) name))
                  (40 ^ Z.of_nat (Nat.min (S i) 11))); [|apply IH; lia].
  assert (match name !! i with
          | None => Ok 0
          | Some c => reject alphabet_pos base40Alphabet 0 c <=? 0 as ErrNotInAlphabet ;;
                      Ok (alphabet_pos base40Alphabet 0 c)
          end = @Ok name_err _ match name !! i with Some c => digit c | None => 0 end) as ->.
  { destruct (name !! i) eqn:Hi; [|done].
    pose proof (digit_bound _ (Forall_lookup_1 _ _ _ _ Hc Hi)). fold (digit z).
    destruct (Z.leb_spec (digit z) 0); [lia|done]. }
  unfold u64. rewrite (wrapu_small 64 (_ * _)), <-E, wrapu_small by (unfold in_u; lia).
  f_equal. destruct (Z.ltb_spec (Z.of_nat i) (MaxNameLen - 1)); unfold MaxNameLen in *.
  - rewrite Nat.min_l, Nat2Z.inj_succ, Z.pow_succ_r by lia. rewrite wrapu_small; [lia|].
    assert (40 ^ Z.of_nat i <= 40 ^ 10) by (apply Z.pow_le_mono_r; lia).
    pose proof (Z.pow_pos_nonneg 40 (Z.of_nat i)). unfold in_u. lia.
  - f_equal. lia.
Qed.

Lemma EncodeName_value name :
  name <> [] -> Forall name_char name -> len name <= MaxNameLen ->
  EncodeName name = Ok (name_value name).
Proof.
  intros Hne Hc Hl. unfold EncodeName.
  destruct (Z.eqb_spec (len name) 0) as [E|_]; [by destruct name|].
  destruct (Z.ltb_spec MaxNameLen (len name)); [lia|].
  apply (EncodeName_loop_ok name 12 0); done.
Qed.

Lemma EncodeName_loop_chars name n i e s v :
  EncodeName_loop name n i e s = Ok v -> Forall name_char (sub name i n).
Proof.
  revert i e s. induction n as [|n IH]; intros i e s H; [by constructor|].
  cbn [EncodeName_loop] in H. unfold sub. destruct (name !! i) as [c|] eqn:Hi.
  - rewrite (drop_S _ _ _ Hi). cbn [firstn].
    destruct (Z.leb_spec (alphabet_pos base40Alphabet 0 c) 0); [done|].
    constructor; [done|]. by apply IH in H.
  - apply lookup_ge_None in Hi. rewrite drop_ge by done. destruct n; constructor.
Qed.

(** What [EncodeName] accepts. *)
Lemma EncodeName_inv name v :
  EncodeName name = Ok v ->
  name <> [] /\ Forall name_char name /\ len name <= MaxNameLen /\ v = name_value name.
Proof.
  unfold EncodeName. intros H.
  destruct (Z.eqb_spec (len name) 0) as [|Hne]; [done|].
  destruct (Z.ltb_spec MaxNameLen (len name)) as [|Hl]; [done|].
  assert (name <> []) by (intros ->; done).
  pose proof (EncodeName_loop_chars _ _ _ _ _ _ H) as Hc.
  unfold sub in Hc. rewrite drop_0, take_ge in Hc by (unfold len, MaxNameLen in *; lia).
  pose proof (EncodeName_value name ltac:(done) Hc Hl) as E. unfold EncodeName in E.
  destruct (Z.eqb_spec (len name) 0); [done|].
  destruct (Z.ltb_spec MaxNameLen (len name)); [lia|]. rewrite H in E. naive_solver.
Qed.

Lemma DecodeName_loop_value fuel name out :
  Forall name_char name -> (length name < fuel)%nat ->
  DecodeName_loop fuel (name_value name) out = out ++ name.
Proof.
  intros Hc. revert fuel out. induction Hc as [|c name Hc Hcs IH]; intros fuel out Hf;
    (destruct fuel as [|fuel]; [cbn in Hf; lia|]); cbn [name_value DecodeName_loop].
  { by rewrite app_nil_r. }
  pose proof (digit_bound c Hc). pose proof (char_of_digit c Hc) as E. unfold char_of in E.
  pose proof (name_value_bound name Hcs). cbn in Hf.
  destruct (Z.ltb_spec 0 (digit c + 40 * name_value name)); [|lia].
  rewrite (Z.mul_comm 40), Z.mod_add, Z.mod_small, Z.div_add, Z.div_small by lia.
  destruct (Z.eqb_spec (digit c) 0); [lia|].
  rewrite E, Z.add_0_l, IH by lia. by rewrite <-app_assoc.
Qed.

Lemma DecodeName_EncodeName name v : EncodeName name = Ok v -> DecodeName v = name.
Proof.
  intros (Hne & Hc & Hl & ->)%EncodeName_inv.
  apply (DecodeName_loop_value 13 name []); [done|]. unfold len, MaxNameLen in Hl. lia.
Qed.

(** The test [EncodeName(DecodeName(e)) == e] that [validateEntries] applies
    to a stored name accepts exactly the integers that encode some name. *)
Lemma name_test_exact e :
  EncodeName (DecodeName e) = Ok e <-> exists name, EncodeName name = Ok e.
Proof.
  split; [eauto|]. intros [name H]. by rewrite (DecodeName_EncodeName name e H).
Qed.

(** Every name [EncodeName] accepts is recovered by [DecodeName],
    and its packed form is below [40 ^ 12], so it fits the 64-bit field without
    wrapping; and the reader's test on a stored name accepts exactly the
    integers that encode some name. *)
Theorem EncodeName_roundtrip name v :
  EncodeName name = Ok v ->
  DecodeName v = name /\ 0 < v < 40 ^ 12 /\ 40 ^ 12 < 2 ^ 64 /\
  forall e, EncodeName (DecodeName e) = Ok e <-> exists name', EncodeName name' = Ok e.
Proof.
  intros H. split; [by apply DecodeName_EncodeName|].
  apply EncodeName_inv in H as (Hne & Hc & Hl & ->). split_and!.
  - destruct Hc as [|c name Hc Hcs]; [done|]. cbn [name_value].
    apply digit_bound in Hc. pose proof (name_value_bound name Hcs). lia.
  - pose proof (name_value_bound name Hc).
    assert (40 ^ len name <= 40 ^ 12) by (apply Z.pow_le_mono_r; unfold MaxNameLen in Hl; lia).
    lia.
  - done.
  - apply name_test_exact.
Qed.

Lemma EncodeName_roundtrip_witness :
  EncodeName (bytes_of_string "snappages.ns") = Ok 12425031750826642589 /\
  DecodeName 12425031750826642589 = bytes_of_string "snappages.ns".
Proof.
  split; [reflexivity|].
  apply (EncodeName_roundtrip (bytes_of_string "snappages.ns") 12425031750826642589).
  reflexivity.
Defined.

End Base40.
