(* ===== verification/Ctfs.v ===== *)
(** * The CTFS container reader ([src/internal/ctfs/container.go])

    A container is a file of fixed-size blocks.  Block 0 holds the header and
    an array of 24-byte entries; an entry names an internal file, its size and
    the mapping block from which its data blocks are reached through up to
    five levels of mapping blocks.  The file on disk is the list of its bytes;
    [ReadAt] fails when it cannot fill its buffer.  Mapping blocks are read
    through the code's cache, which is threaded as a state. *)
From S2P Require Import Prelude Base40.
Import Base40.

Module Ctfs.

Inductive ctfs_err : Type :=
| ErrTooSmall | ErrMagic | ErrEncrypted | ErrBlockSize | ErrReadBlock0
| ErrNoEntryArray
| ErrEntryNameEmpty (i : Z) | ErrEntryName (i : Z) | ErrEntryMapBlock (i : Z) | ErrNoEntries
| ErrName (e : name_err) | ErrNotFound
| ErrLevels (blockIdx : Z) | ErrNoChain (level : Z) | ErrHole (level slot : Z)
| ErrNullBlock (blockIdx : Z) | ErrTruncated (blockIdx blk : Z)
| ErrBlockRange (blk : Z) | ErrReadBlock (blk : Z) | ErrReadData (i blk : Z).

#[export] Instance ctfs_err_eq_dec : EqDecision ctfs_err.
Proof. solve_decision. Defined.

Definition headerSize : Z := 16.
Definition fileEntrySize : Z := 24.
Definition offsetVersion : nat := 5.
Definition offsetEncrypt : nat := 6.
Definition offsetShards : nat := 7.
Definition offsetBlockSz : nat := 8.
Definition offsetMaxRootE : nat := 12.
Definition magic : list Z := [0xc0; 0xde; 0x72; 0xac; 0xe2].

Record FileEntry := { Size : Z; MapBlock : Z; Name : Z; Slot : Z }.

Record Container := {
  blockSize : Z;
  maxShards : Z;
  version : Z;
  encryption : Z;
  entryBase : Z;
  entryCount : Z;
  block0 : list Z;
  nextFreeBlock : Z;
  fileSize : Z;
  partialTailBytes : Z
}.

(** [f.ReadAt(buf, off)] with [len(buf) = n]. *)
Definition ReadAt (f : list Z) (n off : Z) : option (list Z) :=
  if (off <? 0) || (len f <? off + n) then None
  else Some (sub f (Z.to_nat off) (Z.to_nat n)).

(** ** Opening *)
Definition entryAt (c : Container) (i : Z) : FileEntry :=
  let off := Z.to_nat (entryBase c + i * fileEntrySize) in
  {| Size := get_u64 (block0 c) off;
     MapBlock := get_u64 (block0 c) (off + 8);
     Name := get_u64 (block0 c) (off + 16);
     Slot := i |}.

(** The body of the loop over the entry slots: the state is [nonEmpty]. *)
Definition validateEntry (c : Container) (nonEmpty i : Z) : result ctfs_err Z :=
  let e := entryAt c i in
  if (Size e =? 0) && (MapBlock e =? 0) && (Name e =? 0) then Ok nonEmpty
  else
    let name := DecodeName (Name e) in
    reject (len name =? 0) as ErrEntryNameEmpty i ;;
    match EncodeName name with
    | Err _ => Err (ErrEntryName i)
    | Ok back =>
        reject negb (back =? Name e) as ErrEntryName i ;;
        reject nextFreeBlock c <=? MapBlock e as ErrEntryMapBlock i ;;
        Ok (nonEmpty + 1)
    end.

Definition validateEntries (c : Container) : result ctfs_err unit :=
  let! nonEmpty := foldm (validateEntry c) 0 (seqZ 0 (entryCount c)) in
  reject nonEmpty =? 0 as ErrNoEntries ;; Ok tt.

Definition set_entries (c : Container) (base count : Z) : Container :=
  {| blockSize := blockSize c; maxShards := maxShards c; version := version c;
     encryption := encryption c; entryBase := base; entryCount := count;
     block0 := block0 c; nextFreeBlock := nextFreeBlock c; fileSize := fileSize c;
     partialTailBytes := partialTailBytes c |}.

Definition entry_candidates (maxShards : Z) : list Z :=
  let r := 8 * maxShards * 6 in
  if 0 <? r then
    if maxShards <=? 1 then [headerSize; headerSize + r] else [headerSize + r; headerSize]
  else [headerSize].

(** [for _, base := range candidates]: the first candidate that validates. *)
Fixpoint try_candidates (c : Container) (maxRootEntries : Z) (candidates : list Z)
  : result ctfs_err Container :=
  match candidates with
  | [] => Err ErrNoEntryArray
  | base :: candidates =>
      let count := if maxRootEntries =? 0
                   then Z.quot (blockSize c - base) fileEntrySize else maxRootEntries in
      if blockSize c <? base + count * fileEntrySize
      then try_candidates c maxRootEntries candidates
      else match validateEntries (set_entries c base count) with
           | Err _ => try_candidates c maxRootEntries candidates
           | Ok _ => Ok (set_entries c base count)
           end
  end.

Definition locateEntryArray (c : Container) (maxRootEntries : Z) : result ctfs_err Container :=
  try_candidates c maxRootEntries (entry_candidates (maxShards c)).

Definition Open (f : list Z) : result ctfs_err Container :=
  reject len f <? headerSize as ErrTooSmall ;;
  let hdr := sub f 0 (Z.to_nat headerSize) in
  reject negb (bool_decide (sub hdr 0 5 = magic)) as ErrMagic ;;
  let bs := get_u32 hdr offsetBlockSz in
  let enc := default 0 (hdr !! offsetEncrypt) in
  reject negb (enc =? 0) as ErrEncrypted ;;
  reject (bs =? 0) || negb (bs mod 8 =? 0) || (bs <? headerSize) as ErrBlockSize ;;
  match ReadAt f bs 0 with
  | None => Err ErrReadBlock0
  | Some b0 =>
      locateEntryArray
        {| blockSize := bs;
           maxShards := default 0 (hdr !! offsetShards);
           version := default 0 (hdr !! offsetVersion);
           encryption := enc;
           entryBase := 0; entryCount := 0;
           block0 := b0;
           nextFreeBlock := len f / bs;
           fileSize := len f;
           partialTailBytes := len f mod bs |}
        (get_u32 hdr offsetMaxRootE)
  end.

(** ** Finding an entry *)
Fixpoint find_loop (c : Container) (want : Z) (slots : list Z) : result ctfs_err FileEntry :=
  match slots with
  | [] => Err ErrNotFound
  | i :: slots =>
      if Name (entryAt c i) =? want then Ok (entryAt c i) else find_loop c want slots
  end.

Definition find (c : Container) (name : list Z) : result ctfs_err FileEntry :=
  match EncodeName name with
  | Err e => Err (ErrName e)
  | Ok want => find_loop c want (seqZ 0 (entryCount c))
  end.

Definition Has (c : Container) (name : list Z) : bool := is_ok (find c name).

(** ** Resolving data blocks *)
Definition usable (c : Container) : Z := u64 (blockSize c / 8 - 1).
Definition maxMapLevels : Z := 5.

Fixpoint levelCapacity (usable : Z) (level : nat) : Z :=
  match level with
  | O => 1
  | S level => u64 (levelCapacity usable level * usable)
  end.

Definition readBlock (c : Container) (f : list Z) (blk : Z) : result ctfs_err (list Z) :=
  reject (blk =? 0) || (nextFreeBlock c <=? blk) as ErrBlockRange blk ;;
  match ReadAt f (blockSize c) (i64 (u64 (blk * blockSize c))) with
  | None => Err (ErrReadBlock blk)
  | Some b => Ok b
  end.

(** A read through the cache of [dataBlocks]: the state is the cache. *)
Notation cache := (gmap Z (list Z)).
Definition cached (A : Type) : Type := cache -> result ctfs_err A * cache.

Definition cret {A} (r : result ctfs_err A) : cached A := fun s => (r, s).
Definition cbind {A B} (m : cached A) (k : A -> cached B) : cached B := fun s =>
  match m s with
  | (Ok a, s') => k a s'
  | (Err e, s') => (Err e, s')
  end.

Notation "'let*' x ':=' m 'in' k" := (cbind m (fun x => k))
  (at level 10, x pattern, m at level 99, k at level 200).

Definition block (c : Container) (f : list Z) (blk : Z) : cached (list Z) := fun s =>
  match s !! blk with
  | Some b => (Ok b, s)
  | None =>
      match readBlock c f blk with
      | Err e => (Err e, s)
      | Ok b => (Ok b, <[blk := b]> s)
      end
  end.

(** The chain is climbed until a level covers what is left of the index; the
    level grows by one each time and five is the limit, so six steps decide. *)
Fixpoint ascend (c : Container) (f : list Z) (blockIdx : Z) (fuel : nat)
    (idx : Z) (level : nat) (cur : Z) : cached (Z * nat * Z) :=
  match fuel with
  | O => cret (Err (ErrLevels blockIdx))
  | S fuel =>
      let capacity := levelCapacity (usable c) level in
      if idx <? capacity then cret (Ok (idx, level, cur))
      else
        let idx := idx - capacity in
        let level := S level in
        if maxMapLevels <? Z.of_nat level then cret (Err (ErrLevels blockIdx))
        else
          let* blk := block c f cur in
          let chain := get_u64 blk (Z.to_nat (usable c * 8)) in
          if chain =? 0 then cret (Err (ErrNoChain (Z.of_nat level)))
          else ascend c f blockIdx fuel idx level chain
  end.

(** [for level > 1]: [sub_level] is [level - 1]. *)
Fixpoint descend (c : Container) (f : list Z) (sub_level : nat) (idx cur : Z) : cached (Z * Z) :=
  match sub_level with
  | O => cret (Ok (idx, cur))
  | S l =>
      let subCap := levelCapacity (usable c) sub_level in
      let entryIdx := idx / subCap in
      let subIdx := idx mod subCap in
      let* blk := block c f cur in
      let child := get_u64 blk (Z.to_nat (entryIdx * 8)) in
      if child =? 0 then cret (Err (ErrHole (Z.of_nat (S sub_level)) entryIdx))
      else descend c f l subIdx child
  end.

Definition resolveDataBlock (c : Container) (f : list Z) (e : FileEntry) (blockIdx : Z)
  : cached Z :=
  let* (idx, level, cur) := ascend c f blockIdx 6 blockIdx 1 (MapBlock e) in
  let* (idx, cur) := descend c f (pred level) idx cur in
  let* blk := block c f cur in
  let dataBlk := get_u64 blk (Z.to_nat (idx * 8)) in
  if dataBlk =? 0 then cret (Err (ErrNullBlock blockIdx))
  else if nextFreeBlock c <=? dataBlk then cret (Err (ErrTruncated blockIdx dataBlk))
  else cret (Ok dataBlk).

Fixpoint dataBlocks_loop (c : Container) (f : list Z) (e : FileEntry) (slots : list Z)
  : cached (list Z) :=
  match slots with
  | [] => cret (Ok [])
  | i :: slots =>
      let* blk := resolveDataBlock c f e i in
      let* out := dataBlocks_loop c f e slots in
      cret (Ok (blk :: out))
  end.

Definition dataBlocks (c : Container) (f : list Z) (e : FileEntry) : result ctfs_err (list Z) :=
  let n := u64 (u64 (Size e + blockSize c) - 1) / blockSize c in
  fst (dataBlocks_loop c f e (seqZ 0 n) ∅).

(** ** Reading *)
Definition readEntry_step (c : Container) (f : list Z) (e : FileEntry)
    (out : list Z) (iblk : Z * Z) : result ctfs_err (list Z) :=
  let '(i, blk) := iblk in
  let start := u64 (i * blockSize c) in
  let stop := u64 (start + blockSize c) in
  let stop := if Size e <? stop then Size e else stop in
  match ReadAt f (stop - start) (i64 (u64 (blk * blockSize c))) with
  | None => Err (ErrReadData i blk)
  | Some b => Ok (put out (Z.to_nat start) b)
  end.

Definition readEntry (c : Container) (f : list Z) (e : FileEntry) : result ctfs_err (list Z) :=
  let out := zeros (Z.to_nat (Size e)) in
  if Size e =? 0 then Ok out
  else
    let! blocks := dataBlocks c f e in
    foldm (readEntry_step c f e) out (zip (seqZ 0 (len blocks)) blocks).

Definition ReadFile (c : Container) (f : list Z) (name : list Z) : result ctfs_err (list Z) :=
  let! e := find c name in readEntry c f e.

(** ** The cache is transparent

    A computation that reads through the cache gives, from any cache that
    agrees with the file, what it gives from the empty cache. *)
Section cache.
Variable c : Container.
Variable f : list Z.

Definition cache_ok (s : cache) : Prop :=
  forall blk b, s !! blk = Some b -> readBlock c f blk = Ok b.

Definition transparent {A} (m : cached A) : Prop :=
  forall s, cache_ok s -> fst (m s) = fst (m ∅) /\ cache_ok (snd (m s)).

Lemma cache_ok_empty : cache_ok ∅.
Proof. intros blk b. by rewrite lookup_empty. Qed.

Lemma transparent_ret {A} (r : result ctfs_err A) : transparent (cret r).
Proof. by intros s Hs. Qed.

Lemma transparent_bind {A B} (m : cached A) (k : A -> cached B) :
  transparent m -> (forall a, transparent (k a)) -> transparent (cbind m k).
Proof.
  intros Hm Hk s Hs. unfold cbind.
  destruct (Hm s Hs) as [E1 Hs1]. destruct (Hm ∅ cache_ok_empty) as [_ Hs2].
  destruct (m s) as [r s1], (m ∅) as [r' s2]. cbn in *. subst r'.
  destruct r as [a|e]; [|done].
  destruct (Hk a s1 Hs1) as [-> ?]. destruct (Hk a s2 Hs2) as [-> ?]. done.
Qed.

Lemma transparent_if {A} (b : bool) (m1 m2 : cached A) :
  transparent m1 -> transparent m2 -> transparent (if b then m1 else m2).
Proof. by destruct b. Qed.

Lemma block_empty blk : fst (block c f blk ∅) = readBlock c f blk.
Proof. unfold block. rewrite lookup_empty. by destruct (readBlock c f blk). Qed.

Lemma transparent_block blk : transparent (block c f blk).
Proof.
  intros s Hs. rewrite block_empty. unfold block.
  destruct (s !! blk) as [b|] eqn:E; [by rewrite (Hs _ _ E)|].
  destruct (readBlock c f blk) as [b|] eqn:Er; [|done]. split; [done|].
  intros blk' b' Hl. cbn in Hl. destruct (decide (blk = blk')) as [<-|].
  - rewrite lookup_insert_eq in Hl. by simplify_eq.
  - rewrite lookup_insert_ne in Hl by done. eauto.
Qed.

Hint Resolve transparent_ret transparent_bind transparent_if transparent_block : ctfs.

Lemma transparent_ascend i fuel idx level cur : transparent (ascend c f i fuel idx level cur).
Proof.
  revert idx level cur. induction fuel as [|fuel IH]; intros idx level cur; cbn [ascend];
    eauto 8 with ctfs.
Qed.

Lemma transparent_descend l idx cur : transparent (descend c f l idx cur).
Proof. revert idx cur. induction l as [|l IH]; intros idx cur; cbn [descend]; eauto 8 with ctfs. Qed.

Lemma transparent_resolve e i : transparent (resolveDataBlock c f e i).
Proof.
  unfold resolveDataBlock. apply transparent_bind; [apply transparent_ascend|].
  intros [[idx level] cur]. apply transparent_bind; [apply transparent_descend|].
  intros [idx' cur']. eauto 8 with ctfs.
Qed.

(** The result of one lookup, read straight from the file. *)
Definition resolve (e : FileEntry) (i : Z) : result ctfs_err Z :=
  fst (resolveDataBlock c f e i ∅).

Lemma dataBlocks_loop_resolve e slots s :
  cache_ok s -> fst (dataBlocks_loop c f e slots s) = mapm (resolve e) slots.
Proof.
  revert s. induction slots as [|i slots IH]; intros s Hs; cbn; [done|].
  destruct (transparent_resolve e i s Hs) as [E Hs'].
  change (resolve e i) with (fst (resolveDataBlock c f e i ∅)). rewrite <-E. unfold cbind.
  destruct (resolveDataBlock c f e i s) as [[b|?] s']; cbn in *; [|done].
  rewrite <-IH with (s := s') by done.
  by destruct (dataBlocks_loop c f e slots s') as [[]].
Qed.

Lemma dataBlocks_resolve e :
  dataBlocks c f e =
  mapm (resolve e) (seqZ 0 (u64 (u64 (Size e + blockSize c) - 1) / blockSize c)).
Proof. apply dataBlocks_loop_resolve, cache_ok_empty. Qed.

Lemma get_u64_range l o : bytes_ok l -> 0 <= get_u64 l o < 2 ^ 64.
Proof.
  intros Hl. pose proof (le_dec_range (sub l o 8)) as H.
  assert (bytes_ok (sub l o 8)) as Hs by (apply Forall_take, Forall_drop, Hl).
  specialize (H Hs). unfold len, sub in H. rewrite length_take in H.
  assert (256 ^ Z.of_nat (8 `min` length (drop o l)) <= 256 ^ 8) by
    (apply Z.pow_le_mono_r; lia).
  unfold get_u64, sub. lia.
Qed.

Lemma readBlock_sub blk b :
  readBlock c f blk = Ok b ->
  b = sub f (Z.to_nat (i64 (u64 (blk * blockSize c)))) (Z.to_nat (blockSize c)) /\
  blk <> 0 /\ blk < nextFreeBlock c.
Proof.
  unfold readBlock, ReadAt. destruct (Z.eqb_spec blk 0); [done|].
  destruct (Z.leb_spec (nextFreeBlock c) blk); [done|]. cbn [orb].
  destruct (_ || _); [done|]. intros. by simplify_eq.
Qed.

(** A data block is never block 0 and never outside the whole blocks. *)
Lemma resolve_range e i b :
  bytes_ok f -> resolve e i = Ok b -> 0 < b < nextFreeBlock c.
Proof.
  intros Hf. unfold resolve, resolveDataBlock, cbind.
  pose proof (transparent_ascend i 6 i 1 (MapBlock e) ∅ cache_ok_empty) as [_ H1].
  destruct (ascend c f i 6 i 1 (MapBlock e) ∅) as [[[[idx level] cur]|?] s1]; [|done].
  pose proof (transparent_descend (pred level) idx cur s1 H1) as [_ H2].
  destruct (descend c f (pred level) idx cur s1) as [[[idx' cur']|?] s2]; [|done].
  pose proof (transparent_block cur' s2 H2) as [Eb _]. rewrite block_empty in Eb.
  destruct (block c f cur' s2) as [[blk|?] s3]; [|done].
  symmetry in Eb. apply readBlock_sub in Eb as (Eb & _ & _).
  assert (bytes_ok blk) as Hblk by (subst blk; apply Forall_take, Forall_drop, Hf).
  pose proof (get_u64_range blk (Z.to_nat (idx' * 8)) Hblk).
  destruct (Z.eqb_spec (get_u64 blk (Z.to_nat (idx' * 8))) 0); [done|].
  destruct (Z.leb_spec (nextFreeBlock c) (get_u64 blk (Z.to_nat (idx' * 8)))); [done|].
  cbn. intros. simplify_eq. lia.
Qed.

End cache.

(** ** What [Open] establishes *)
Definition container_of (f : list Z) (c : Container) : Prop :=
  headerSize <= blockSize c < 2 ^ 32 /\ blockSize c mod 8 = 0 /\
  nextFreeBlock c = len f / blockSize c /\ fileSize c = len f /\
  partialTailBytes c = len f mod blockSize c /\
  block0 c = sub f 0 (Z.to_nat (blockSize c)) /\ blockSize c <= len f.

Lemma try_candidates_same c maxRoot cands c' :
  try_candidates c maxRoot cands = Ok c' ->
  exists base count, In base cands /\ c' = set_entries c base count /\
    base + count * fileEntrySize <= blockSize c /\
    validateEntries c' = Ok tt.
Proof.
  induction cands as [|base cands IH]; cbn [try_candidates]; [done|].
  intros H. set (count := if maxRoot =? 0 then _ else _) in *.
  destruct (Z.ltb_spec (blockSize c) (base + count * fileEntrySize)).
  - destruct (IH H) as (b & n & ? & ?). exists b, n. split; [by right|done].
  - destruct (validateEntries (set_entries c base count)) as [[]|] eqn:Ev.
    + simplify_eq. exists base, count. split; [by left|]. done.
    + destruct (IH H) as (b & n & ? & ?). exists b, n. split; [by right|done].
Qed.

Lemma Open_container f c :
  bytes_ok f -> Open f = Ok c -> container_of f c /\ validateEntries c = Ok tt.
Proof.
  intros Hf. unfold Open.
  destruct (Z.ltb_spec (len f) headerSize) as [|Hlen]; [done|].
  set (hdr := sub f 0 (Z.to_nat headerSize)).
  assert (bytes_ok hdr) as Hh by (apply Forall_take, Forall_drop, Hf).
  destruct (negb (bool_decide _)); [done|].
  destruct (negb (default 0 (hdr !! offsetEncrypt) =? 0)); [done|].
  set (bs := get_u32 hdr offsetBlockSz).
  destruct (Z.eqb_spec bs 0); [done|]. destruct (Z.eqb_spec (bs mod 8) 0); [|done].
  destruct (Z.ltb_spec bs headerSize); [done|]. cbn [orb negb].
  unfold ReadAt. destruct (Z.ltb_spec (len f) (0 + bs)); [by rewrite orb_true_r|]. cbn [orb].
  change (0 <? 0) with false. cbn [orb]. intros H'.
  apply try_candidates_same in H' as (base & count & _ & -> & _ & Hv).
  split; [|done]. unfold container_of, set_entries.
  cbn [blockSize nextFreeBlock fileSize partialTailBytes block0].
  assert (0 <= bs < 2 ^ 32).
  { pose proof (le_dec_range (sub hdr offsetBlockSz 4)) as Hr.
    assert (len (sub hdr offsetBlockSz 4) = 4) as E.
    { unfold len, hdr. rewrite !length_sub; unfold len, headerSize, offsetBlockSz in *; try lia.
      rewrite length_sub; lia. }
    rewrite E in Hr. apply Hr. by apply Forall_take, Forall_drop. }
  split_and!; done || lia.
Qed.

(** ** Reading a file's content *)
Section content.
Variable c : Container.
Variable f : list Z.
Hypothesis Hc : container_of f c.
Hypothesis Hlen : len f < 2 ^ 63.

Definition chunk (b : Z) : list Z :=
  sub f (Z.to_nat (b * blockSize c)) (Z.to_nat (blockSize c)).

Lemma whole_block b :
  0 < b < nextFreeBlock c ->
  0 <= b * blockSize c /\ b * blockSize c + blockSize c <= len f - partialTailBytes c /\
  i64 (u64 (b * blockSize c)) = b * blockSize c.
Proof.
  intros Hb. destruct Hc as (Hbs & _ & Hn & _ & Hp & _).
  unfold headerSize in Hbs. rewrite Hn in Hb.
  assert (blockSize c * (len f / blockSize c) = len f - partialTailBytes c) as E.
  { rewrite Hp. pose proof (Z.div_mod (len f) (blockSize c)). lia. }
  assert (0 <= partialTailBytes c) by (rewrite Hp; apply Z.mod_pos_bound; lia).
  assert (0 <= b * blockSize c) by (apply Z.mul_nonneg_nonneg; lia).
  assert (b * blockSize c + blockSize c <= len f - partialTailBytes c) by nia.
  split; [done|]. split; [done|].
  unfold u64, i64. rewrite wrapu_small, wraps_small by (unfold in_u, in_s; lia). done.
Qed.

Lemma length_chunk b : 0 < b < nextFreeBlock c -> length (chunk b) = Z.to_nat (blockSize c).
Proof.
  intros Hb. destruct (whole_block b Hb) as (? & ? & _).
  assert (0 <= partialTailBytes c).
  { destruct Hc as (Hbs & _ & _ & _ & -> & _). unfold headerSize in *.
    apply Z.mod_pos_bound. lia. }
  destruct Hc as (Hbs & _). unfold headerSize in Hbs.
  unfold chunk. apply length_sub. unfold len in *. lia.
Qed.

(** One block of the loop: the block's bytes, cut at the file's size, replace
    the zeros that follow what has been read. *)
Lemma readEntry_step_ok e i b pre :
  0 <= i -> 0 < b < nextFreeBlock c -> 0 <= Size e < 2 ^ 63 ->
  i * blockSize c < Size e -> len pre = i * blockSize c ->
  readEntry_step c f e (pre ++ zeros (Z.to_nat (Size e - i * blockSize c))) (i, b) =
  Ok (take (Z.to_nat (Size e)) (pre ++ chunk b) ++
      zeros (Z.to_nat (Size e - (i + 1) * blockSize c))).
Proof.
  intros Hi Hb Hs Hlt Hpre. destruct (whole_block b Hb) as (Hb1 & Hb2 & Hb3).
  pose proof (length_chunk b Hb) as Hch.
  destruct Hc as (Hbs & _ & _ & _ & Hp & _). unfold headerSize in Hbs.
  assert (0 <= partialTailBytes c) by (rewrite Hp; apply Z.mod_pos_bound; lia).
  cbn [readEntry_step]. rewrite Hb3. unfold u64.
  assert (0 <= i * blockSize c) by (apply Z.mul_nonneg_nonneg; lia).
  rewrite !(wrapu_small 64 (i * _)), !(wrapu_small 64 (_ + _)) by (unfold in_u; lia).
  set (m := Z.min (blockSize c) (Size e - i * blockSize c)).
  replace ((if Size e <? i * blockSize c + blockSize c then Size e
            else i * blockSize c + blockSize c) - i * blockSize c) with m
    by (unfold m; zbool; lia).
  unfold ReadAt. destruct (Z.ltb_spec (b * blockSize c) 0); [lia|].
  destruct (Z.ltb_spec (len f) (b * blockSize c + m)); [unfold m in *; lia|]. cbn [orb].
  f_equal. unfold len in *.
  replace (sub f (Z.to_nat (b * blockSize c)) (Z.to_nat m))
    with (take (Z.to_nat m) (chunk b))
    by (unfold chunk, sub; rewrite take_take; f_equal; unfold m; lia).
  replace (Z.to_nat (Size e - i * blockSize c))
    with (Z.to_nat m + Z.to_nat (Size e - (i + 1) * blockSize c))%nat by (unfold m; lia).
  rewrite zeros_app. rewrite put_exact; [|lia|].
  - rewrite (take_app pre), (take_ge pre), <-app_assoc by lia. do 2 f_equal.
    destruct (Z.le_gt_cases (blockSize c) (Size e - i * blockSize c)).
    + by rewrite !take_ge by lia.
    + f_equal. unfold m. lia.
  - rewrite length_zeros, length_take. unfold m. lia.
Qed.

Lemma readEntry_loop e blocks i pre :
  0 <= i -> Forall (fun b => 0 < b < nextFreeBlock c) blocks -> 0 <= Size e < 2 ^ 63 ->
  len pre = i * blockSize c -> i * blockSize c <= Size e ->
  i + len blocks = (Size e + blockSize c - 1) / blockSize c ->
  foldm (readEntry_step c f e) (pre ++ zeros (Z.to_nat (Size e - i * blockSize c)))
    (zip (seqZ i (len blocks)) blocks)
  = Ok (take (Z.to_nat (Size e)) (pre ++ concat (chunk <$> blocks))).
Proof.
  destruct Hc as (Hbs & _). unfold headerSize in Hbs.
  revert i pre. induction blocks as [|b blocks IH]; intros i pre Hi Hb Hs Hpre Hle Hn.
  - change (zip (seqZ i (len [])) []) with (@nil (Z * Z)). cbn [foldm fmap list_fmap concat].
    rewrite len_nil, Z.add_0_r in Hn.
    assert (Size e <= i * blockSize c).
    { rewrite Hn. pose proof (Z.div_mod (Size e + blockSize c - 1) (blockSize c)).
      pose proof (Z.mod_pos_bound (Size e + blockSize c - 1) (blockSize c)). lia. }
    unfold len in *. replace (Z.to_nat (Size e - i * blockSize c)) with 0%nat by lia.
    cbn [zeros replicate]. rewrite app_nil_r, take_ge by lia. done.
  - inversion_clear Hb as [|? ? Hb1 Hb2]. rewrite len_cons in *.
    pose proof (len_nonneg blocks).
    assert (i * blockSize c < Size e) as Hlt.
    { assert (i + 1 <= (Size e + blockSize c - 1) / blockSize c) as Hq by lia.
      pose proof (Z.mul_div_le (Size e + blockSize c - 1) (blockSize c)). nia. }
    rewrite seqZ_cons by lia. cbn [zip zip_with foldm].
    rewrite readEntry_step_ok by done. pose proof (length_chunk b Hb1) as Hch.
    replace (Z.pred (1 + len blocks)) with (len blocks) by lia.
    change (Z.succ i) with (i + 1). cbn [fmap list_fmap concat].
    destruct (Z.le_gt_cases ((i + 1) * blockSize c) (Size e)) as [Hfull|Hpart].
    + rewrite take_ge by (rewrite length_app; unfold len in *; lia).
      rewrite IH; [by rewrite <-app_assoc|lia|done|done| |done|lia].
      rewrite len_app. unfold len in *. lia.
    + assert (blocks = []) as ->.
      { assert ((Size e + blockSize c - 1) / blockSize c <= i + 1) as Hq.
        { apply Z.lt_succ_r, Z.div_lt_upper_bound; lia. }
        destruct blocks; [done|rewrite len_cons in *; pose proof (len_nonneg blocks); lia]. }
      cbn. replace (Z.to_nat (Size e - (i + 1) * blockSize c)) with 0%nat by lia.
      by rewrite !app_nil_r.
Qed.

(** The data blocks resolved for an entry lie in the whole blocks. *)
Lemma dataBlocks_range e blocks :
  bytes_ok f -> dataBlocks c f e = Ok blocks ->
  Forall (fun b => 0 < b < nextFreeBlock c) blocks.
Proof.
  intros Hf. rewrite dataBlocks_resolve, mapm_Forall2. intros H.
  induction H; constructor; eauto using resolve_range.
Qed.

Lemma dataBlocks_count e blocks :
  0 <= Size e < 2 ^ 63 -> dataBlocks c f e = Ok blocks ->
  len blocks = (Size e + blockSize c - 1) / blockSize c.
Proof.
  destruct Hc as (Hbs & _). unfold headerSize in Hbs. intros Hs.
  rewrite dataBlocks_resolve. intros H%mapm_length. unfold len.
  rewrite H, length_seqZ. unfold u64.
  rewrite (wrapu_small 64 (_ + _)), wrapu_small by (unfold in_u; lia).
  rewrite Z2Nat.id; [done|]. apply Z.div_pos; lia.
Qed.

Lemma readEntry_content e :
  bytes_ok f -> 0 <= Size e < 2 ^ 63 ->
  readEntry c f e =
  let! blocks := (if Size e =? 0 then Ok [] else dataBlocks c f e) in
  Ok (take (Z.to_nat (Size e)) (concat (chunk <$> blocks))).
Proof.
  intros Hf Hs. unfold readEntry. destruct (Z.eqb_spec (Size e) 0) as [->|Hne]; [done|].
  destruct (dataBlocks c f e) as [blocks|] eqn:Hd; [|done].
  pose proof (readEntry_loop e blocks 0 []) as H.
  rewrite Z.mul_0_l, Z.sub_0_r in H. cbn [app] in H.
  apply H; [lia|by eapply dataBlocks_range|done|done|lia|].
  by eapply dataBlocks_count.
Qed.

End content.

(** ** The mapping the container format defines

    [maps_block l blk ds]: the level-[l+1] mapping block [blk] addresses the
    data blocks [ds]: at level 1 slot [i] holds the [i]-th of them, above it
    slot [j] holds a block of the level below that addresses the [j]-th group
    of [usable ^ l].  [maps_chain]: the head block of a level addresses the
    first [usable ^ (l+1)] of the remaining data blocks, and its chain pointer
    leads to the head of the next level for the rest, so the levels are
    cumulative; [n] is the number of levels left of the five. *)
Section layout.
Variable c : Container.
Variable f : list Z.

Definition slot (blk i : Z) : Z :=
  match readBlock c f blk with
  | Ok b => get_u64 b (Z.to_nat (i * 8))
  | Err _ => 0
  end.

Definition capacity (l : nat) : nat := Z.to_nat (usable c ^ Z.of_nat l).

Fixpoint maps_block (l : nat) (blk : Z) (ds : list Z) : Prop :=
  0 < blk < nextFreeBlock c /\
  match l with
  | O => forall i d, ds !! i = Some d -> slot blk (Z.of_nat i) = d
  | S l' => forall j, (j * capacity l < length ds)%nat ->
            maps_block l' (slot blk (Z.of_nat j)) (sub ds (j * capacity l) (capacity l))
  end.

Fixpoint maps_chain (n l : nat) (blk : Z) (ds : list Z) : Prop :=
  match n with
  | O => False
  | S n =>
      maps_block l blk (take (capacity (S l)) ds) /\
      ((capacity (S l) < length ds)%nat ->
       maps_chain n (S l) (slot blk (usable c)) (drop (capacity (S l)) ds))
  end.

Definition Layout (e : FileEntry) (ds : list Z) : Prop :=
  maps_chain 5 0 (MapBlock e) ds /\ Forall (fun d => 0 < d < nextFreeBlock c) ds.

Hypothesis Hc : container_of f c.
Hypothesis Hlen : len f < 2 ^ 63.
Hypothesis Hcap : usable c ^ 5 < 2 ^ 64.

Lemma usable_pos : 1 <= usable c.
Proof.
  destruct Hc as (Hbs & _). unfold headerSize in Hbs. unfold usable, u64.
  assert (2 <= blockSize c / 8) by (apply Z.div_le_lower_bound; lia).
  assert (blockSize c / 8 < 2 ^ 32) by (apply Z.div_lt_upper_bound; lia).
  rewrite wrapu_small; unfold in_u; lia.
Qed.

Lemma levelCapacity_pow l : (l <= 5)%nat -> levelCapacity (usable c) l = usable c ^ Z.of_nat l.
Proof.
  pose proof usable_pos. induction l as [|l IH]; intros Hl; cbn [levelCapacity]; [done|].
  rewrite IH by lia. rewrite Nat2Z.inj_succ, Z.pow_succ_r, Z.mul_comm by lia.
  apply wrapu_small. rewrite <-Z.pow_succ_r, <-Nat2Z.inj_succ by lia.
  assert (usable c ^ Z.of_nat (S l) <= usable c ^ 5) by (apply Z.pow_le_mono_r; lia).
  pose proof (Z.pow_pos_nonneg (usable c) (Z.of_nat (S l))). unfold in_u. lia.
Qed.

Lemma capacity_pow l : Z.of_nat (capacity l) = usable c ^ Z.of_nat l.
Proof.
  pose proof usable_pos. unfold capacity. rewrite Z2Nat.id; [done|].
  apply Z.pow_nonneg. lia.
Qed.

Lemma capacity_pos l : (0 < capacity l)%nat.
Proof.
  pose proof usable_pos. pose proof (capacity_pow l).
  pose proof (Z.pow_pos_nonneg (usable c) (Z.of_nat l)). lia.
Qed.

Lemma readBlock_whole blk : 0 < blk < nextFreeBlock c -> exists b, readBlock c f blk = Ok b.
Proof.
  intros Hb. destruct (whole_block c f Hc Hlen blk Hb) as (? & ? & E).
  destruct Hc as (Hbs & _ & _ & _ & Hp & _). unfold headerSize in Hbs.
  assert (0 <= partialTailBytes c) by (rewrite Hp; apply Z.mod_pos_bound; lia).
  unfold readBlock, ReadAt. rewrite E.
  destruct (Z.eqb_spec blk 0); [lia|]. destruct (Z.leb_spec (nextFreeBlock c) blk); [lia|].
  destruct (Z.ltb_spec (blk * blockSize c) 0); [lia|].
  destruct (Z.ltb_spec (len f) (blk * blockSize c + blockSize c)); [lia|]. cbn. eauto.
Qed.

(** Running a cached computation from the empty cache, step by step. *)
Lemma run_bind {A B} (m : cached A) (k : A -> cached B) :
  transparent c f m -> (forall a, transparent c f (k a)) ->
  fst (cbind m k ∅) = let! a := fst (m ∅) in fst (k a ∅).
Proof.
  intros Hm Hk. unfold cbind. destruct (Hm ∅ (cache_ok_empty c f)) as [_ Hs].
  destruct (m ∅) as [[a|e] s]; [|done]. cbn in *. by destruct (Hk a s Hs) as [-> _].
Qed.

(** Reading one slot of a block inside the container. *)
Lemma run_block {B} blk b (k : list Z -> cached B) :
  readBlock c f blk = Ok b -> (forall b, transparent c f (k b)) ->
  fst (cbind (block c f blk) k ∅) = fst (k b ∅).
Proof.
  intros Eb Hk. rewrite run_bind by (done || apply transparent_block).
  by rewrite block_empty, Eb.
Qed.

Lemma slot_read blk b i :
  readBlock c f blk = Ok b -> get_u64 b (Z.to_nat (i * 8)) = slot blk i.
Proof. intros Eb. unfold slot. by rewrite Eb. Qed.

Lemma descend_layout l blk ds i d :
  (l <= 4)%nat -> maps_block l blk ds -> ds !! i = Some d ->
  exists idx cur, fst (descend c f l (Z.of_nat i) blk ∅) = Ok (idx, cur) /\
    0 < cur < nextFreeBlock c /\ slot cur idx = d.
Proof.
  revert blk ds i. induction l as [|l IH]; intros blk ds i Hl [Hb Hm] Hi.
  { cbn. eauto 6. }
  cbn [descend]. rewrite levelCapacity_pow by lia. rewrite <-capacity_pow.
  pose proof (capacity_pos (S l)) as Hcp. pose proof (lookup_lt_Some _ _ _ Hi) as Hlt.
  set (q := (i / capacity (S l))%nat). set (r := (i mod capacity (S l))%nat).
  assert (i = q * capacity (S l) + r)%nat as Eqr.
  { unfold q, r. rewrite Nat.mul_comm. apply Nat.div_mod. lia. }
  assert (r < capacity (S l))%nat by (apply Nat.mod_upper_bound; lia).
  rewrite <-Nat2Z.inj_div, <-Nat2Z.inj_mod. fold q r.
  destruct (readBlock_whole blk Hb) as [b Eb]. rewrite (run_block _ _ _ Eb).
  2: { intros b'. apply transparent_if; [apply transparent_ret|apply transparent_descend]. }
  rewrite (slot_read _ _ _ Eb). specialize (Hm q ltac:(lia)).
  assert (slot blk (Z.of_nat q) <> 0) by (destruct l; destruct Hm as [? _]; lia).
  destruct (Z.eqb_spec (slot blk (Z.of_nat q)) 0); [done|].
  eapply IH; [lia|exact Hm|].
  unfold sub. rewrite lookup_take_lt, lookup_drop, <-Eqr by lia. done.
Qed.

Lemma ascend_layout bi n l blk ds i d fuel :
  maps_chain n l blk ds -> (n + l = 5)%nat -> (n < fuel)%nat -> ds !! i = Some d ->
  exists idx level cur ds', fst (ascend c f bi fuel (Z.of_nat i) (S l) blk ∅)
    = Ok (Z.of_nat idx, S level, cur) /\
    (level <= 4)%nat /\ maps_block level cur ds' /\ ds' !! idx = Some d.
Proof.
  revert l blk ds i fuel. induction n as [|n IH]; intros l blk ds i fuel Hm Hn Hf Hi; [done|].
  destruct fuel as [|fuel]; [lia|]. destruct Hm as [Hb Hnext].
  cbn [ascend]. rewrite levelCapacity_pow by lia. rewrite <-capacity_pow.
  pose proof (lookup_lt_Some _ _ _ Hi) as Hlt.
  destruct (Z.ltb_spec (Z.of_nat i) (Z.of_nat (capacity (S l)))) as [Hs|Hs].
  { exists i, l, blk, (take (capacity (S l)) ds). split_and!; [done|lia|done|].
    by rewrite lookup_take_lt by lia. }
  specialize (Hnext ltac:(lia)). destruct n as [|n]; [done|].
  destruct (Z.ltb_spec maxMapLevels (Z.of_nat (S (S l)))); [unfold maxMapLevels in *; lia|].
  assert (0 < blk < nextFreeBlock c) as Hblk by (destruct l; by destruct Hb).
  destruct (readBlock_whole blk Hblk) as [b Eb]. rewrite (run_block _ _ _ Eb).
  2: { intros b'. apply transparent_if; [apply transparent_ret|apply transparent_ascend]. }
  rewrite (slot_read _ _ _ Eb).
  assert (slot blk (usable c) <> 0).
  { destruct Hnext as [Hb' _]. cbn in Hb'. lia. }
  destruct (Z.eqb_spec (slot blk (usable c)) 0); [done|].
  replace (Z.of_nat i - Z.of_nat (capacity (S l))) with (Z.of_nat (i - capacity (S l))) by lia.
  eapply IH; [exact Hnext|lia|lia|].
  rewrite lookup_drop. by replace (capacity (S l) + (i - capacity (S l)))%nat with i by lia.
Qed.

Lemma resolve_layout e ds i d :
  Layout e ds -> ds !! i = Some d -> resolve c f e (Z.of_nat i) = Ok d.
Proof.
  intros [Hm Hd] Hi. pose proof (Forall_lookup_1 _ _ _ _ Hd Hi) as Hrange. cbn in Hrange.
  destruct (ascend_layout (Z.of_nat i) 5 0 (MapBlock e) ds i d 6)
    as (idx & level & cur & ds' & Ea & Hl & Hb & Hidx); [done|lia|lia|done|].
  destruct (descend_layout level cur ds' idx d) as (idx' & cur' & Ed & Hcur & Hslot); [done..|].
  unfold resolve, resolveDataBlock. rewrite run_bind, Ea; [|apply transparent_ascend|].
  2: { intros [[? ?] ?]. apply transparent_bind; [apply transparent_descend|].
       intros [? ?]. apply transparent_bind; [apply transparent_block|].
       intros b. repeat apply transparent_if; apply transparent_ret. }
  cbn [pred]. rewrite run_bind, Ed; [|apply transparent_descend|].
  2: { intros [? ?]. apply transparent_bind; [apply transparent_block|].
       intros b. repeat apply transparent_if; apply transparent_ret. }
  destruct (readBlock_whole cur' Hcur) as [b Eb]. rewrite (run_block _ _ _ Eb).
  2: { intros b'. repeat apply transparent_if; apply transparent_ret. }
  rewrite (slot_read _ _ _ Eb), Hslot.
  destruct (Z.eqb_spec d 0); [lia|]. by destruct (Z.leb_spec (nextFreeBlock c) d); [lia|].
Qed.

Lemma dataBlocks_layout e ds :
  Layout e ds -> 0 <= Size e < 2 ^ 63 ->
  len ds = (Size e + blockSize c - 1) / blockSize c ->
  dataBlocks c f e = Ok ds.
Proof.
  intros HL Hs Hn. rewrite dataBlocks_resolve. unfold u64.
  destruct Hc as (Hbs & _). unfold headerSize in Hbs.
  rewrite (wrapu_small 64 (_ + _)), wrapu_small by (unfold in_u; lia). rewrite <-Hn.
  apply mapm_Forall2, Forall2_same_length_lookup_2.
  { rewrite length_seqZ. unfold len. lia. }
  intros i x y Hx Hy. apply lookup_seqZ in Hx as [-> _]. rewrite Z.add_0_l.
  by eapply resolve_layout.
Qed.

End layout.

(** ** Properties of the reader *)

(** C17: for a container that [Open] accepts, if the data blocks of
    an internal file are laid out by the cumulative multi-level mapping of the
    format, then [ReadFile] succeeds and returns exactly the concatenation of
    those data blocks cut at the recorded size, whatever the number of levels
    (up to five) and with the block cache in the way. *)
Theorem ReadFile_layout f c name e ds :
  bytes_ok f -> len f < 2 ^ 63 -> Open f = Ok c -> usable c ^ 5 < 2 ^ 64 ->
  find c name = Ok e -> 0 <= Size e < 2 ^ 63 ->
  Layout c f e ds -> len ds = (Size e + blockSize c - 1) / blockSize c ->
  ReadFile c f name = Ok (take (Z.to_nat (Size e)) (concat (chunk c f <$> ds))).
Proof.
  intros Hf Hl Ho Hcap He Hs HL Hn. destruct (Open_container f c Hf Ho) as [Hc _].
  unfold ReadFile. rewrite He. rewrite readEntry_content by done.
  rewrite (dataBlocks_layout c f Hc Hl Hcap e ds) by done.
  destruct (Z.eqb_spec (Size e) 0) as [->|]; [|done]. done.
Qed.

(** Whatever the bytes of the file are, content that [ReadFile]
    returns has exactly the recorded size and every byte of it comes from a
    block that lies wholly inside the file and is not block 0: the partial
    tail an interrupted append leaves is never served. *)
Theorem ReadFile_whole_blocks f c name out :
  bytes_ok f -> len f < 2 ^ 63 -> Open f = Ok c -> ReadFile c f name = Ok out ->
  exists e, find c name = Ok e /\
    (0 <= Size e < 2 ^ 63 ->
     exists blocks, len out = Size e /\
       out = take (Z.to_nat (Size e)) (concat (chunk c f <$> blocks)) /\
       Forall (fun b => 0 < b /\ (b + 1) * blockSize c <= len f - partialTailBytes c) blocks).
Proof.
  intros Hf Hl Ho. destruct (Open_container f c Hf Ho) as [Hc _]. unfold ReadFile.
  destruct (find c name) as [e|] eqn:He; [|done]. intros Hr. exists e. split; [done|].
  intros Hs. rewrite readEntry_content in Hr by done.
  destruct (Z.eqb_spec (Size e) 0) as [E|Hne].
  { exists []. rewrite E in *. simplify_eq. by repeat constructor. }
  destruct (dataBlocks c f e) as [blocks|] eqn:Hd; [|done]. simplify_eq. exists blocks.
  pose proof (dataBlocks_range c f e blocks Hf Hd) as Hrange.
  pose proof (dataBlocks_count c f Hc e blocks Hs Hd) as Hcount.
  split_and!; [|done|].
  - assert (len (concat (chunk c f <$> blocks)) = len blocks * blockSize c) as E.
    { clear Hcount Hd. destruct Hc as (Hbs & Hc'). unfold headerSize in Hbs.
      induction Hrange as [|b blocks Hb _ IH]; [done|]. cbn [fmap list_fmap concat].
      rewrite len_app, IH, len_cons. unfold len at 1.
      rewrite length_chunk by done. lia. }
    destruct Hc as (Hbs & _). unfold headerSize in Hbs. unfold len in *.
    rewrite length_take, Nat.min_l; [lia|].
    pose proof (Z.div_mod (Size e + blockSize c - 1) (blockSize c)).
    pose proof (Z.mod_pos_bound (Size e + blockSize c - 1) (blockSize c)). nia.
  - eapply Forall_impl; [exact Hrange|]. intros b Hb. cbv beta in *. split; [lia|].
    pose proof (whole_block c f Hc Hl b Hb). lia.
Qed.

(** A container of nine 40-byte blocks, one internal file of 197 bytes in five
    data blocks, the last of which is reached through the second level, and
    three bytes of an interrupted append after the last block. *)
Definition example_container : list Z :=
  magic ++ [3; 0; 1] ++ le_enc 4 40 ++ le_enc 4 1 ++
  le_enc 8 197 ++ le_enc 8 1 ++ le_enc 8 11 ++
  concat (le_enc 8 <$> [4; 5; 6; 7; 2]) ++
  concat (le_enc 8 <$> [3; 0; 0; 0; 0]) ++
  concat (le_enc 8 <$> [8; 0; 0; 0; 0]) ++
  concat (replicate 40 <$> [4; 5; 6; 7; 8]) ++ [9; 9; 9].

Definition example_opened : Container :=
  {| blockSize := 40; maxShards := 1; version := 3; encryption := 0; entryBase := 16;
     entryCount := 1; block0 := sub example_container 0 40; nextFreeBlock := 9;
     fileSize := 363; partialTailBytes := 3 |}.

Lemma example_bytes : bytes_ok example_container.
Proof.
  apply (Forall_impl (fun b => (0 <=? b) && (b <? 256) = true)).
  - apply Forall_forall. intros b Hb. apply list_elem_of_In in Hb. revert b Hb.
    apply List.forallb_forall. reflexivity.
  - intros b H. unfold is_byte. zbool; cbn in H; lia.
Qed.

Lemma ReadFile_layout_witness :
  ReadFile example_opened example_container (bytes_of_string "a") =
  Ok (take 197 (concat (replicate 40 <$> [4; 5; 6; 7; 8]))).
Proof.
  refine (ReadFile_layout example_container example_opened (bytes_of_string "a")
    {| Size := 197; MapBlock := 1; Name := 11; Slot := 0 |} [4; 5; 6; 7; 8]
    example_bytes _ _ _ _ _ _ _); try reflexivity; try (split; reflexivity || discriminate).
  - split.
    + assert (forall l, capacity example_opened l = Nat.pow 4 l) as Hcap.
      { intros l. unfold capacity. change (usable example_opened) with (Z.of_nat 4).
        rewrite <-Nat2Z.inj_pow. apply Nat2Z.id. }
      change (MapBlock _) with 1. cbn [maps_chain maps_block]. rewrite !Hcap.
      change (usable example_opened) with 4. change (nextFreeBlock example_opened) with 9.
      change (slot example_opened example_container 1 4) with 2.
      cbn [Nat.pow Nat.mul Nat.add length take drop].
      split; [split; [done|]|intros _; split; [split; [done|]|intros ?; lia]].
      * intros [|[|[|[|i]]]] d Hd; cbn in Hd; simplify_eq; reflexivity.
      * intros [|j] Hj; [|cbn in Hj; lia]. split; [done|].
        intros [|i] d Hd; cbn in Hd; simplify_eq; reflexivity.
    + repeat constructor.
Defined.

Lemma ReadFile_whole_blocks_witness :
  exists blocks : list Z,
    Forall (fun b => 0 < b /\ (b + 1) * 40 <= 363 - 3) blocks /\
    take 197 (concat (replicate 40 <$> [4; 5; 6; 7; 8])) =
    take 197 (concat (chunk example_opened example_container <$> blocks)).
Proof.
  assert (ReadFile example_opened example_container (bytes_of_string "a") =
    Ok (take 197 (concat (replicate 40 <$> [4; 5; 6; 7; 8])))) as Hread
    by (vm_compute; reflexivity).
  destruct (ReadFile_whole_blocks example_container example_opened (bytes_of_string "a")
    (take 197 (concat (replicate 40 <$> [4; 5; 6; 7; 8]))) example_bytes
    eq_refl eq_refl Hread) as (e & He & H).
  vm_compute in He. injection He as <-.
  destruct H as (blocks & _ & E & Hb); [split; reflexivity || discriminate|].
  exists blocks. split; [exact Hb|exact E].
Defined.

End Ctfs.
