(* ===== verification/GoStd.v ===== *)
(** * The parts of Go's [strings] and [strconv] the recorder uses

    Go strings are byte sequences, so they are lists of bytes here.  The
    functions follow their documentation; [ParseUint] and [ParseInt] return
    [None] for both the syntax and the range error, since every caller only
    tests [err != nil]. *)
From S2P Require Import Prelude.

Module GoStd.

Notation gostring := (list Z).

(** String literals of the source. *)
Notation "'$' s" := (bytes_of_string s) (at level 5, s constr at level 0, only parsing) : go_scope.

(** ** strings *)
Fixpoint HasPrefix (s p : gostring) {struct p} : bool :=
  match p, s with
  | [], _ => true
  | _ :: _, [] => false
  | b :: p, c :: s => (c =? b) && HasPrefix s p
  end.

Definition HasSuffix (s p : gostring) : bool := HasPrefix (rev s) (rev p).

(** [strings.Contains]. *)
Fixpoint Contains (s p : gostring) : bool :=
  HasPrefix s p || match s with [] => false | _ :: s => Contains s p end.

(** [strings.LastIndexByte]: the position of the last [c], or -1. *)
Fixpoint LastIndexByte (s : gostring) (c : Z) : Z :=
  match s with
  | [] => -1
  | b :: s =>
      let i := LastIndexByte s c in
      if 0 <=? i then i + 1 else if b =? c then 0 else -1
  end.

(** The UTF-8 encodings of the code points [unicode.IsSpace] accepts. *)
Definition space_encodings : list gostring :=
  [[9]; [10]; [11]; [12]; [13]; [32]; [0xc2; 0x85]; [0xc2; 0xa0]; [0xe1; 0x9a; 0x80];
   [0xe2; 0x80; 0xa8]; [0xe2; 0x80; 0xa9]; [0xe2; 0x80; 0xaf]; [0xe2; 0x81; 0x9f];
   [0xe3; 0x80; 0x80]] ++ ((fun k => [0xe2; 0x80; 0x80 + Z.of_nat k]) <$> seq 0 11).

Fixpoint trim_with (encs : list gostring) (fuel : nat) (s : gostring) : gostring :=
  match fuel with
  | O => s
  | S fuel =>
      match List.find (HasPrefix s) encs with
      | Some e => trim_with encs fuel (drop (length e) s)
      | None => s
      end
  end.

(** [strings.TrimSpace]. *)
Definition TrimSpace (s : gostring) : gostring :=
  let l := trim_with space_encodings (length s) s in
  rev (trim_with (@rev Z <$> space_encodings) (length l) (rev l)).

(** ** strconv *)
Definition digit_value (c : Z) : option Z :=
  if (48 <=? c) && (c <=? 57) then Some (c - 48)
  else if (97 <=? c) && (c <=? 122) then Some (c - 87)
  else if (65 <=? c) && (c <=? 90) then Some (c - 55)
  else None.

Fixpoint ParseUint_loop (base maxVal : Z) (s : gostring) (n : Z) : option Z :=
  match s with
  | [] => Some n
  | c :: s =>
      match digit_value c with
      | Some d =>
          if base <=? d then None
          else if maxVal <? n * base + d then None
          else ParseUint_loop base maxVal s (n * base + d)
      | None => None
      end
  end.

(** [strconv.ParseUint(s, base, bitSize)] for a base that is given (10 or 16). *)
Definition ParseUint (s : gostring) (base bitSize : Z) : option Z :=
  match s with
  | [] => None
  | _ => ParseUint_loop base (2 ^ bitSize - 1) s 0
  end.

(** [strconv.ParseInt(s, 10, bitSize)]. *)
Definition ParseInt (s : gostring) (bitSize : Z) : option Z :=
  let '(neg, s') :=
    match s with
    | c :: t => if c =? 43 then (false, t) else if c =? 45 then (true, t) else (false, s)
    | [] => (false, [])
    end in
  match ParseUint s' 10 bitSize with
  | None => None
  | Some un =>
      let cutoff := 2 ^ (bitSize - 1) in
      if negb neg && (cutoff <=? un) then None
      else if neg && (cutoff <? un) then None
      else Some (if neg then - un else un)
  end.

(** [strconv.Atoi] is [ParseInt(s, 10, 0)] on a 64-bit [int]. *)
Definition Atoi (s : gostring) : option Z := ParseInt s 64.

(** [strconv.FormatUint(n, 10)]: a 64-bit number has at most twenty digits. *)
Fixpoint FormatUint_loop (fuel : nat) (n : Z) (acc : gostring) : gostring :=
  match fuel with
  | O => acc
  | S fuel =>
      let acc := (48 + n mod 10) :: acc in
      if n <? 10 then acc else FormatUint_loop fuel (n / 10) acc
  end.
Definition FormatUint (n : Z) : gostring := FormatUint_loop 20 n [].

(** ** Lemmas *)
Lemma HasPrefix_spec s p : HasPrefix s p = true <-> exists t, s = p ++ t.
Proof.
  revert s. induction p as [|b p IH]; intros s; cbn; [split; [by exists s|done]|].
  destruct s as [|c s]; [split; [done|by intros [t [=]]]|].
  rewrite andb_true_iff, Z.eqb_eq, IH. split.
  - intros [-> [t ->]]. by exists t.
  - intros [t [= -> ->]]. eauto.
Qed.

Lemma HasPrefix_app p t : HasPrefix (p ++ t) p = true.
Proof. apply HasPrefix_spec. by exists t. Qed.

Lemma digit_value_range c d :
  digit_value c = Some d -> 48 <= c <= 57 \/ 97 <= c <= 122 \/ 65 <= c <= 90.
Proof.
  unfold digit_value. intros H.
  destruct (Z.leb_spec 48 c), (Z.leb_spec c 57); cbn [andb] in H; [lia|..];
    (destruct (Z.leb_spec 97 c), (Z.leb_spec c 122); cbn [andb] in H; [lia|..]);
    (destruct (Z.leb_spec 65 c), (Z.leb_spec c 90); cbn [andb] in H; [lia|discriminate H..]).
Qed.

(** A decimal digit in front of digits that parse. *)
Lemma ParseUint_loop_app base maxVal s t n :
  ParseUint_loop base maxVal (s ++ t) n =
  match ParseUint_loop base maxVal s n with
  | Some m => ParseUint_loop base maxVal t m
  | None => None
  end.
Proof.
  revert n. induction s as [|c s IH]; intros n; cbn; [done|].
  destruct (digit_value c) as [d|]; [|done].
  destruct (base <=? d); [done|]. by destruct (maxVal <? n * base + d).
Qed.

Lemma digit_value_dec d : 0 <= d < 10 -> digit_value (48 + d) = Some d.
Proof.
  intros. unfold digit_value. destruct (Z.leb_spec 48 (48 + d)); [|lia].
  destruct (Z.leb_spec (48 + d) 57); [|lia]. cbn. f_equal. lia.
Qed.

Lemma FormatUint_loop_acc fuel n acc :
  FormatUint_loop fuel n acc = FormatUint_loop fuel n [] ++ acc.
Proof.
  revert n acc. induction fuel as [|fuel IH]; intros n acc; cbn; [done|].
  destruct (n <? 10); [done|]. rewrite IH, (IH _ [_]). by rewrite <-app_assoc.
Qed.

Lemma ParseUint_loop_Format maxVal fuel n :
  0 <= n < 10 ^ Z.of_nat fuel -> n <= maxVal ->
  ParseUint_loop 10 maxVal (FormatUint_loop fuel n []) 0 = Some n.
Proof.
  revert n. induction fuel as [|fuel IH]; intros n Hn Hm; [cbn in *; f_equal; lia|].
  rewrite Nat2Z.inj_succ, Z.pow_succ_r in Hn by lia.
  pose proof (Z.mod_pos_bound n 10 ltac:(lia)). pose proof (Z.div_mod n 10 ltac:(lia)).
  cbn [FormatUint_loop]. destruct (Z.ltb_spec n 10) as [Hs|Hs].
  - cbn [ParseUint_loop]. rewrite digit_value_dec by lia. rewrite Z.mod_small by lia.
    destruct (Z.leb_spec 10 n); [lia|]. destruct (Z.ltb_spec maxVal (0 * 10 + n)); [lia|].
    f_equal; lia.
  - rewrite FormatUint_loop_acc, ParseUint_loop_app, IH.
    + cbn [ParseUint_loop]. rewrite digit_value_dec by lia.
      destruct (Z.leb_spec 10 (n mod 10)); [lia|].
      destruct (Z.ltb_spec maxVal (n / 10 * 10 + n mod 10)); [lia|]. f_equal; lia.
    + split; [lia|]. apply Z.div_lt_upper_bound; lia.
    + lia.
Qed.

Lemma FormatUint_loop_digits fuel n :
  0 <= n -> Forall (fun c => 48 <= c <= 57) (FormatUint_loop fuel n []).
Proof.
  revert n. induction fuel as [|fuel IH]; intros n Hn; cbn [FormatUint_loop]; [constructor|].
  pose proof (Z.mod_pos_bound n 10 ltac:(lia)).
  destruct (n <? 10); [repeat constructor; lia|].
  rewrite FormatUint_loop_acc. apply Forall_app. split.
  - apply IH. apply Z.div_pos; lia.
  - repeat constructor; lia.
Qed.

Lemma FormatUint_loop_nonempty fuel n : FormatUint_loop (S fuel) n [] <> [].
Proof.
  cbn [FormatUint_loop]. destruct (n <? 10); [done|].
  rewrite FormatUint_loop_acc. by destruct (FormatUint_loop _ _ _).
Qed.

Lemma FormatUint_nonempty n : FormatUint n <> [].
Proof. apply FormatUint_loop_nonempty. Qed.

Lemma ParseUint_FormatUint n bitSize :
  0 <= bitSize <= 64 -> in_u bitSize n -> ParseUint (FormatUint n) 10 bitSize = Some n.
Proof.
  intros Hb [H0 H1]. unfold ParseUint.
  assert (2 ^ bitSize <= 2 ^ 64) by (apply Z.pow_le_mono_r; lia).
  destruct (FormatUint n) eqn:E; [by apply FormatUint_nonempty in E|]. rewrite <-E.
  unfold FormatUint. apply ParseUint_loop_Format; [|lia]. cbn. lia.
Qed.

(** A decimal number has no sign, so [ParseInt] reads it as [ParseUint] does. *)
Lemma ParseInt_FormatUint n : 0 <= n < 2 ^ 63 -> ParseInt (FormatUint n) 64 = Some n.
Proof.
  intros Hn. unfold ParseInt.
  destruct (FormatUint n) as [|c t] eqn:E; [by apply FormatUint_nonempty in E|].
  pose proof (FormatUint_loop_digits 20 n ltac:(lia)) as Hd.
  unfold FormatUint in E. rewrite E in Hd. inversion Hd; subst.
  destruct (Z.eqb_spec c 43); [lia|]. destruct (Z.eqb_spec c 45); [lia|].
  rewrite <-E. fold (FormatUint n). rewrite ParseUint_FormatUint; [|lia|unfold in_u; lia].
  cbn [negb andb]. destruct (Z.leb_spec (2 ^ (64 - 1)) n); [lia|done].
Qed.

Lemma LastIndexByte_app s c t :
  c ∉ t -> LastIndexByte (s ++ c :: t) c = len s.
Proof.
  intros Hc. assert (LastIndexByte t c = -1) as Ht.
  { induction t as [|b t IH]; [done|]. cbn. rewrite IH by set_solver.
    cbn. destruct (Z.eqb_spec b c); [set_solver|done]. }
  induction s as [|b s IH]; cbn [app LastIndexByte].
  - rewrite Ht. cbn. by rewrite Z.eqb_refl.
  - rewrite IH, len_cons. pose proof (len_nonneg s). destruct (Z.leb_spec 0 (len s)); lia.
Qed.

End GoStd.
