(* ===== verification/Values.v ===== *)
(** * Boundary values: [internal/boundarylog/values.go]

    The four scalar types, signatures, typed values as wazero stack words, and
    the decoding of a recorded [ValueRecord] (a kind and a text) against the
    type a signature gives its slot.  [strconv.ParseFloat], which only the
    decimal float spelling of older recordings reaches, is the parameter
    [ParseFloat] and returns the IEEE-754 bits of a float64; everything else is
    defined. *)
From Stdlib Require Import Floats.SpecFloat.
From S2P Require Import Prelude GoStd.

Module Values.
Import GoStd.

(** ** Types *)
Inductive ScalarType : Type := TypeI32 | TypeI64 | TypeF32 | TypeF64.
#[export] Instance ScalarType_eq_dec : EqDecision ScalarType.
Proof. solve_decision. Defined.

Inductive val_err : Type :=
| ErrUnsupportedType (s : gostring)
| ErrUnsupportedValueType (v : Z)
| ErrNotInt (kind text : gostring)
| ErrBadInteger (text : gostring)
| ErrNotFloat (kind text : gostring)
| ErrFloatWidth (text : gostring)
| ErrFloatDigits (text : gostring)
| ErrFloatPattern (text : gostring)
| ErrBadFloat (text : gostring)
| ErrArity (got want : Z)
| ErrSlot (i : Z) (e : val_err).
#[export] Instance val_err_eq_dec : EqDecision val_err.
Proof. solve_decision. Defined.

Definition ScalarType_String (t : ScalarType) : gostring :=
  match t with
  | TypeI32 => $"i32" | TypeI64 => $"i64" | TypeF32 => $"f32" | TypeF64 => $"f64"
  end.

Definition ParseScalarType (s : gostring) : result val_err ScalarType :=
  if decide (s = $"i32") then Ok TypeI32
  else if decide (s = $"i64") then Ok TypeI64
  else if decide (s = $"f32") then Ok TypeF32
  else if decide (s = $"f64") then Ok TypeF64
  else Err (ErrUnsupportedType s).

(** The [api.ValueType] bytes of the four numeric types. *)
Definition ScalarTypeOf (v : Z) : result val_err ScalarType :=
  if v =? 0x7f then Ok TypeI32
  else if v =? 0x7e then Ok TypeI64
  else if v =? 0x7d then Ok TypeF32
  else if v =? 0x7c then Ok TypeF64
  else Err (ErrUnsupportedValueType v).

Definition ValueType (t : ScalarType) : Z :=
  match t with TypeI32 => 0x7f | TypeI64 => 0x7e | TypeF32 => 0x7d | TypeF64 => 0x7c end.

Record Signature := { Params : list ScalarType; Results : list ScalarType }.

(** The two loops of [Signature.Equal] compare slot by slot. *)
Fixpoint types_equal (a b : list ScalarType) : bool :=
  match a, b with
  | x :: a, y :: b => bool_decide (x = y) && types_equal a b
  | _, _ => true
  end.
Definition Signature_Equal (s o : Signature) : bool :=
  if negb (len (Params s) =? len (Params o)) || negb (len (Results s) =? len (Results o))
  then false
  else types_equal (Params s) (Params o) && types_equal (Results s) (Results o).

Record Value := { VType : ScalarType; Bits : Z }.
#[export] Instance Value_eq_dec : EqDecision Value.
Proof. solve_decision. Defined.

Definition Value_Equal (v o : Value) : bool :=
  bool_decide (VType v = VType o) && (Bits v =? Bits o).

Definition FromWazero (t : ScalarType) (raw : Z) : Value := {| VType := t; Bits := raw |}.

(** ** Recorded values *)
Record rawValue := { Kind : gostring; Text : gostring }.
#[export] Instance rawValue_eq_dec : EqDecision rawValue.
Proof. solve_decision. Defined.

(** [math.Float32bits(float32(f))] on the bits of a float64: round to nearest
    even, keep a NaN's sign and leading payload bits, quieted. *)
Definition float32_bits (s : bool) (mant exp : Z) : Z :=
  (if s then 2 ^ 31 else 0) + exp * 2 ^ 23 + mant.
Definition bits_of_spec_float (f : spec_float) : Z :=
  match f with
  | S754_zero s => float32_bits s 0 0
  | S754_infinity s => float32_bits s 0 255
  | S754_nan => float32_bits false (2 ^ 22) 255
  | S754_finite s m e =>
      if Zpos m <? 2 ^ 23 then float32_bits s (Zpos m) 0
      else float32_bits s (Zpos m - 2 ^ 23) (e + 150)
  end.
Definition float64_to_32 (bits : Z) : Z :=
  let s := 2 ^ 63 <=? bits in
  let e := (bits / 2 ^ 52) mod 2 ^ 11 in
  let m := bits mod 2 ^ 52 in
  if e =? 2047 then
    (if m =? 0 then float32_bits s 0 255
     else float32_bits s (Z.lor (2 ^ 22) (m / 2 ^ 29)) 255)
  else
    let mm := if e =? 0 then m else m + 2 ^ 52 in
    let ee := (if e =? 0 then 1 else e) - 1075 in
    bits_of_spec_float (binary_normalize 24 128 (if s then - mm else mm) ee s).

(** [floatBitsPrefix]: the prefix and the number of hex digits of a float type. *)
Definition floatBitsPrefix (t : ScalarType) : option (gostring * Z) :=
  match t with
  | TypeF32 => Some ($"f32:0x", 8)
  | TypeF64 => Some ($"f64:0x", 16)
  | _ => None
  end.

(** [parseFloatBits]: [Ok (Some bits)] is Go's [(bits, true, nil)]. *)
Definition parseFloatBits (text : gostring) (t : ScalarType) : result val_err (option Z) :=
  match floatBitsPrefix t with
  | None => Ok None
  | Some (prefix, nibbles) =>
      if negb (HasPrefix text ($"f32:0x")) && negb (HasPrefix text ($"f64:0x")) then Ok None
      else reject negb (HasPrefix text prefix) as ErrFloatWidth text ;;
        let digits := drop (length prefix) text in
        reject negb (len digits =? nibbles) as ErrFloatDigits text ;;
        match ParseUint digits 16 64 with
        | None => Err (ErrFloatPattern text)
        | Some bits => Ok (Some bits)
        end
  end.

Section decode.
Variable ParseFloat : gostring -> option Z.

Definition decode (r : rawValue) (t : ScalarType) : result val_err Value :=
  match t with
  | TypeI32 | TypeI64 =>
      reject negb (bool_decide (Kind r = $"Int")) && negb (bool_decide (Kind r = $"Raw"))
        as ErrNotInt (Kind r) (Text r) ;;
      let text := TrimSpace (Text r) in
      match ParseInt text 64 with
      | Some n =>
          match t with
          | TypeI32 => Ok {| VType := t; Bits := u32 (i32 n) |}
          | _ => Ok {| VType := t; Bits := u64 n |}
          end
      | None =>
          match ParseUint text 10 64 with
          | Some u =>
              match t with
              | TypeI32 => Ok {| VType := t; Bits := u32 u |}
              | _ => Ok {| VType := t; Bits := u |}
              end
          | None => Err (ErrBadInteger (Text r))
          end
      end
  | TypeF32 | TypeF64 =>
      reject negb (bool_decide (Kind r = $"Float")) as ErrNotFloat (Kind r) (Text r) ;;
      let text := TrimSpace (Text r) in
      let! bits := parseFloatBits text t in
      match bits with
      | Some bits => Ok {| VType := t; Bits := bits |}
      | None =>
          match ParseFloat text with
          | None => Err (ErrBadFloat (Text r))
          | Some f =>
              match t with
              | TypeF32 => Ok {| VType := t; Bits := float64_to_32 f |}
              | _ => Ok {| VType := t; Bits := f |}
              end
          end
      end
  end.

Fixpoint decodeTuple_loop (raws : list rawValue) (types : list ScalarType) (i : Z)
    : result val_err (list Value) :=
  match raws, types with
  | r :: raws, t :: types =>
      let! v := map_err (ErrSlot i) (decode r t) in
      let! vs := decodeTuple_loop raws types (i + 1) in
      Ok (v :: vs)
  | _, _ => Ok []
  end.
Definition decodeTuple (raws : list rawValue) (types : list ScalarType)
    : result val_err (list Value) :=
  reject negb (len raws =? len types) as ErrArity (len raws) (len types) ;;
  decodeTuple_loop raws types 0.

End decode.

(** ** The producers' renderings *)

(** A value as [browser_session.js] writes it: integers in decimal (an [i32]
    signed, an [i64] as the expansion of a JS BigInt, signed or unsigned) and
    floats as width-tagged hexadecimal bit patterns. *)
Definition FormatInt (n : Z) : gostring :=
  if n <? 0 then 45 :: FormatUint (- n) else FormatUint n.

Definition hex_digit (d : Z) : Z := if d <? 10 then 48 + d else 87 + d.
Fixpoint FormatHex (nibbles : nat) (n : Z) : gostring :=
  match nibbles with
  | O => []
  | S k => FormatHex k (n / 16) ++ [hex_digit (n mod 16)]
  end.

Definition render (v : Value) : rawValue :=
  match VType v with
  | TypeI32 => {| Kind := $"Int"; Text := FormatInt (i32 (Bits v)) |}
  | TypeI64 => {| Kind := $"Raw"; Text := FormatInt (i64 (Bits v)) |}
  | TypeF32 => {| Kind := $"Float"; Text := $"f32:0x" ++ FormatHex 8 (Bits v) |}
  | TypeF64 => {| Kind := $"Float"; Text := $"f64:0x" ++ FormatHex 16 (Bits v) |}
  end.

(** The width of a type and the values that fit it. *)
Definition width (t : ScalarType) : Z :=
  match t with TypeI32 | TypeF32 => 32 | TypeI64 | TypeF64 => 64 end.
Definition value_ok (v : Value) : Prop := in_u (width (VType v)) (Bits v).

(** ** Lemmas *)

(** Text of printable ASCII has nothing to trim at either end. *)
Definition printable (c : Z) : Prop := 33 <= c < 128.

Lemma trim_with_id encs fuel s :
  Forall (fun e => exists b t, e = b :: t /\ ~ printable b) encs -> Forall printable s ->
  trim_with encs fuel s = s.
Proof.
  intros He Hs. destruct fuel as [|fuel]; [done|]. cbn [trim_with].
  assert (List.find (HasPrefix s) encs = None) as ->; [|done].
  induction He as [|e encs (b & t & -> & Hb) _ IH]; [done|]. cbn [List.find].
  destruct (HasPrefix s (b :: t)) eqn:E; [|done].
  apply HasPrefix_spec in E as [k ->]. by inversion Hs.
Qed.

Lemma TrimSpace_id s : Forall printable s -> TrimSpace s = s.
Proof.
  intros Hs. unfold TrimSpace.
  rewrite (trim_with_id space_encodings _ s), (trim_with_id (@rev Z <$> space_encodings)).
  - apply rev_involutive.
  - repeat (constructor; [do 2 eexists; split; [reflexivity|unfold printable; lia]|]). constructor.
  - by apply Forall_rev.
  - repeat (constructor; [do 2 eexists; split; [reflexivity|unfold printable; lia]|]). constructor.
  - done.
Qed.

Lemma FormatInt_printable n : Forall printable (FormatInt n).
Proof.
  unfold FormatInt, printable.
  destruct (Z.ltb_spec n 0); [constructor; [lia|]|];
    (eapply Forall_impl; [apply FormatUint_loop_digits; lia|]; cbv beta; lia).
Qed.

Lemma ParseInt_FormatInt n : in_s 64 n -> ParseInt (FormatInt n) 64 = Some n.
Proof.
  unfold in_s. intros Hn. unfold FormatInt. destruct (Z.ltb_spec n 0).
  - unfold ParseInt. change (45 =? 43) with false. change (45 =? 45) with true. cbv iota.
    rewrite ParseUint_FormatUint by (unfold in_u; lia). cbn [negb andb].
    destruct (Z.ltb_spec (2 ^ (64 - 1)) (- n)); [lia|]. f_equal. lia.
  - apply ParseInt_FormatUint. lia.
Qed.

Lemma hex_digit_value d : 0 <= d < 16 -> digit_value (hex_digit d) = Some d.
Proof.
  intros Hd. rewrite <-(Z2Nat.id d) by lia.
  assert (Z.to_nat d < 16)%nat as Hn by lia. clear Hd. revert Hn. generalize (Z.to_nat d).
  intros k Hk. do 16 (destruct k as [|k]; [reflexivity|]). lia.
Qed.

Lemma FormatHex_printable k n : 0 <= n -> Forall printable (FormatHex k n).
Proof.
  revert n. induction k as [|k IH]; intros n Hn; cbn [FormatHex]; [constructor|].
  pose proof (Z.mod_pos_bound n 16 ltac:(lia)).
  apply Forall_app. split; [apply IH, Z.div_pos; lia|]. constructor; [|constructor].
  unfold hex_digit, printable. destruct (Z.ltb_spec (n mod 16) 10); lia.
Qed.

Lemma length_FormatHex k n : length (FormatHex k n) = k.
Proof.
  revert n. induction k as [|k IH]; intros n; cbn [FormatHex]; [done|].
  rewrite length_app, IH. cbn. lia.
Qed.

Lemma ParseUint_loop_FormatHex k n maxVal :
  0 <= n < 16 ^ Z.of_nat k -> n <= maxVal ->
  ParseUint_loop 16 maxVal (FormatHex k n) 0 = Some n.
Proof.
  revert n. induction k as [|k IH]; intros n Hn Hm; [cbn in *; f_equal; lia|].
  rewrite Nat2Z.inj_succ, Z.pow_succ_r in Hn by lia.
  pose proof (Z.mod_pos_bound n 16 ltac:(lia)). pose proof (Z.div_mod n 16 ltac:(lia)).
  cbn [FormatHex]. rewrite ParseUint_loop_app, IH.
  - cbn [ParseUint_loop]. rewrite hex_digit_value by lia.
    destruct (Z.leb_spec 16 (n mod 16)); [lia|].
    destruct (Z.ltb_spec maxVal (n / 16 * 16 + n mod 16)); [lia|]. f_equal; lia.
  - split; [apply Z.div_pos; lia|]. apply Z.div_lt_upper_bound; lia.
  - lia.
Qed.

Lemma parseFloatBits_hex t pfx k n :
  floatBitsPrefix t = Some (pfx, Z.of_nat (S k)) ->
  0 <= n < 16 ^ Z.of_nat (S k) -> 16 ^ Z.of_nat (S k) <= 2 ^ 64 ->
  parseFloatBits (pfx ++ FormatHex (S k) n) t = Ok (Some n).
Proof.
  intros Hp Hn Hk. unfold parseFloatBits. rewrite Hp, HasPrefix_app.
  assert (negb (HasPrefix (pfx ++ FormatHex (S k) n) ($"f32:0x")) &&
          negb (HasPrefix (pfx ++ FormatHex (S k) n) ($"f64:0x")) = false) as ->.
  { destruct t; try discriminate Hp; injection Hp as <- _; by rewrite HasPrefix_app, ?andb_false_r. }
  cbn [negb]. rewrite drop_app_length. unfold len at 1. rewrite length_FormatHex, Z.eqb_refl.
  cbn [negb]. unfold ParseUint.
  destruct (FormatHex (S k) n) eqn:E.
  { pose proof (length_FormatHex (S k) n) as H. by rewrite E in H. }
  rewrite <-E, ParseUint_loop_FormatHex by lia. done.
Qed.

Lemma digit_value_nonneg c d : digit_value c = Some d -> 0 <= d.
Proof. unfold digit_value. intros H. repeat case_match; simplify_eq; zbool; lia. Qed.

(** A parsed number is below the range limit and has no more digits than its text. *)
Lemma ParseUint_loop_bound base maxVal s n m :
  1 < base -> 0 <= n <= maxVal -> ParseUint_loop base maxVal s n = Some m ->
  0 <= m <= maxVal /\ m < (n + 1) * base ^ len s.
Proof.
  intros Hb. revert n. induction s as [|c s IH]; intros n Hn; cbn [ParseUint_loop].
  { intros [= <-]. change (len (@nil Z)) with 0. lia. }
  destruct (digit_value c) as [d|] eqn:Ed; [|done]. apply digit_value_nonneg in Ed.
  destruct (Z.leb_spec base d); [done|]. destruct (Z.ltb_spec maxVal (n * base + d)); [done|].
  intros H'. apply IH in H' as [? Hlt]; [|nia]. split; [done|].
  rewrite len_cons, Z.pow_add_r, Z.pow_1_r by (pose proof (len_nonneg s); lia).
  pose proof (Z.pow_pos_nonneg base (len s) ltac:(lia) (len_nonneg s)). nia.
Qed.

Lemma ParseUint_bound s base bitSize m :
  1 < base -> 0 <= bitSize -> ParseUint s base bitSize = Some m ->
  in_u bitSize m /\ m < base ^ len s.
Proof.
  intros Hb Hs. unfold ParseUint. destruct s as [|c s]; [done|]. intros H.
  apply ParseUint_loop_bound in H; [unfold in_u; lia|done|].
  pose proof (Z.pow_pos_nonneg 2 bitSize). lia.
Qed.

Lemma parseFloatBits_bound text t bits :
  parseFloatBits text t = Ok (Some bits) -> in_u (width t) bits.
Proof.
  unfold parseFloatBits. destruct t; cbn [floatBitsPrefix width]; try done;
    (destruct (_ && _); [done|]); (destruct (negb (HasPrefix _ _)); [done|]);
    (match goal with |- context [negb (?a =? ?b)] => destruct (Z.eqb_spec a b) as [E|] end);
    cbn [negb]; try done;
    (destruct (ParseUint _ _ _) as [n|] eqn:Ep; [|done]); intros [= ->];
    apply ParseUint_bound in Ep as [Hr Hlt]; try lia; rewrite E in Hlt; unfold in_u in *; lia.
Qed.

Section decode_lemmas.
Variable ParseFloat : gostring -> option Z.

Lemma decode_render v : value_ok v -> decode ParseFloat (render v) (VType v) = Ok v.
Proof.
  destruct v as [t b]. unfold value_ok, render, decode. cbn [VType Bits]. intros Hv.
  destruct t; cbn [width Kind Text] in *;
    (match goal with |- context [reject ?b as _ ;; _] => change b with false end; cbv iota).
  - rewrite TrimSpace_id by apply FormatInt_printable.
    assert (in_s 32 (i32 b)) as Hs by (apply wraps_range; lia).
    rewrite ParseInt_FormatInt by (unfold in_s in *; lia). do 2 f_equal.
    unfold i32 at 1. rewrite wraps_small by (done || lia). by apply wrapu_wraps.
  - rewrite TrimSpace_id by apply FormatInt_printable.
    rewrite ParseInt_FormatInt by (apply wraps_range; lia). do 2 f_equal. by apply wrapu_wraps.
  - unfold in_u in Hv. rewrite TrimSpace_id.
    + rewrite (parseFloatBits_hex _ _ 7) by (reflexivity || (cbn; lia)). done.
    + apply Forall_app. split; [|apply FormatHex_printable; lia].
      repeat constructor; vm_compute; discriminate.
  - unfold in_u in Hv. rewrite TrimSpace_id.
    + rewrite (parseFloatBits_hex _ _ 15) by (reflexivity || (cbn; lia)). done.
    + apply Forall_app. split; [|apply FormatHex_printable; lia].
      repeat constructor; vm_compute; discriminate.
Qed.

(** The slots whose text fixes the bits without a decimal float conversion. *)
Definition exact_slot (r : rawValue) (t : ScalarType) : Prop :=
  match t with
  | TypeI32 | TypeI64 => True
  | _ => is_ok (parseFloatBits (TrimSpace (Text r)) t) = true /\
         parseFloatBits (TrimSpace (Text r)) t <> Ok None
  end.

Lemma decode_sound r t v :
  decode ParseFloat r t = Ok v -> VType v = t /\ (exact_slot r t -> value_ok v).
Proof.
  unfold decode, exact_slot, value_ok. destruct t.
  1,2: destruct (_ && _); [done|]; destruct (ParseInt _ _) as [n|] eqn:Ei;
    [intros [= <-]; split; [done|]; intros _; cbn [width VType Bits]; apply wrapu_range; lia|];
    destruct (ParseUint _ _ _) as [u|] eqn:Eu; [|done]; intros [= <-]; (split; [done|]); intros _.
  - cbn [width VType Bits]. apply wrapu_range; lia.
  - by apply ParseUint_bound in Eu as [? _].
  - destruct (negb _); [done|]. destruct (parseFloatBits _ _) as [[b|]|] eqn:E; [..|done].
    + intros [= <-]. split; [done|]. intros _. by apply parseFloatBits_bound in E.
    + destruct (ParseFloat _); [|done]. intros [= <-]. split; [done|]. by intros [_ []].
  - destruct (negb _); [done|]. destruct (parseFloatBits _ _) as [[b|]|] eqn:E; [..|done].
    + intros [= <-]. split; [done|]. intros _. by apply parseFloatBits_bound in E.
    + destruct (ParseFloat _); [|done]. intros [= <-]. split; [done|]. by intros [_ []].
Qed.

Lemma decodeTuple_loop_decode raws types i vs :
  length raws = length types ->
  decodeTuple_loop ParseFloat raws types i = Ok vs ->
  Forall2 (fun '(r, t) v => decode ParseFloat r t = Ok v) (zip raws types) vs.
Proof.
  revert types i vs. induction raws as [|r raws IH]; intros [|t types] i vs Hl; cbn; try done.
  { intros [= <-]. constructor. }
  destruct (decode ParseFloat r t) as [v|] eqn:E; [|done]. cbn.
  destruct (decodeTuple_loop _ _ _ _) as [vs'|] eqn:E'; [|done]. intros [= <-].
  constructor; [done|]. eapply IH; [|done]. by injection Hl.
Qed.

Lemma decodeTuple_loop_render vs i :
  Forall value_ok vs -> decodeTuple_loop ParseFloat (render <$> vs) (VType <$> vs) i = Ok vs.
Proof.
  intros H. revert i. induction H as [|v vs Hv _ IH]; intros i; cbn; [done|].
  by rewrite decode_render, IH.
Qed.

End decode_lemmas.

(** ** Properties *)

(** C24: a tuple of boundary values of any of the four types, rendered
    the way the browser producer writes it, decodes to exactly the same bits:
    nothing is lost for an i64 above 2^53, a signed zero or a NaN payload.  An
    i64 is accepted in the unsigned spelling too. *)
Theorem decodeTuple_render ParseFloat vs :
  Forall value_ok vs ->
  decodeTuple ParseFloat (render <$> vs) (VType <$> vs) = Ok vs /\
  forall b, in_u 64 b ->
    decode ParseFloat {| Kind := $"Raw"; Text := FormatUint b |} TypeI64 =
    Ok {| VType := TypeI64; Bits := b |}.
Proof.
  intros H. split.
  - unfold decodeTuple, len. rewrite !length_fmap, Z.eqb_refl. cbn [negb].
    by apply decodeTuple_loop_render.
  - intros b Hb. unfold decode. cbn [Kind Text].
    match goal with |- context [reject ?b as _ ;; _] => change b with false end. cbv iota.
    pose proof (FormatInt_printable b) as Hp. unfold in_u in Hb. unfold FormatInt in Hp.
    destruct (Z.ltb_spec b 0); [lia|]. rewrite TrimSpace_id by done.
    rewrite ParseUint_FormatUint by (unfold in_u; lia).
    destruct (ParseInt (FormatUint b) 64) as [n|] eqn:E; [|done].
    assert (n = b) as ->; [|unfold u64; by rewrite wrapu_small by (unfold in_u; lia)].
    destruct (Z.lt_ge_cases b (2 ^ 63)); [rewrite ParseInt_FormatUint in E by lia; by simplify_eq|].
    revert E. unfold ParseInt.
    destruct (FormatUint b) as [|c t] eqn:Ef; [by apply FormatUint_nonempty in Ef|].
    pose proof (FormatUint_loop_digits 20 b ltac:(lia)) as Hd. fold (FormatUint b) in Hd.
    rewrite Ef in Hd. apply Forall_cons in Hd as [Hc _].
    destruct (Z.eqb_spec c 43); [lia|]. destruct (Z.eqb_spec c 45); [lia|].
    rewrite <-Ef, ParseUint_FormatUint by (unfold in_u; lia). cbn [negb andb].
    by destruct (Z.leb_spec (2 ^ (64 - 1)) b); [|lia].
Qed.

Lemma decodeTuple_render_witness :
  decodeTuple (fun _ => None)
    [{| Kind := $"Raw"; Text := $"-1" |}; {| Kind := $"Float"; Text := $"f32:0x7fc00001" |}]
    [TypeI64; TypeF32] =
  Ok [{| VType := TypeI64; Bits := 2 ^ 64 - 1 |}; {| VType := TypeF32; Bits := 0x7fc00001 |}].
Proof.
  apply (decodeTuple_render (fun _ => None)
    [{| VType := TypeI64; Bits := 2 ^ 64 - 1 |}; {| VType := TypeF32; Bits := 0x7fc00001 |}]).
  repeat constructor; cbn; lia.
Defined.

(** C25: an accepted tuple has the signature's arity and types; every
    slot that is an integer or an exact bit pattern holds a value that fits the
    width of its type, so a wrong-width payload is never truncated into one. *)
Theorem decodeTuple_sound ParseFloat raws types vs :
  decodeTuple ParseFloat raws types = Ok vs ->
  VType <$> vs = types /\
  Forall2 (fun '(r, t) v => decode ParseFloat r t = Ok v /\ (exact_slot r t -> value_ok v))
    (zip raws types) vs.
Proof.
  unfold decodeTuple. destruct (Z.eqb_spec (len raws) (len types)) as [E|]; cbn [negb]; [|done].
  unfold len in E. intros H. assert (length raws = length types) as El by lia.
  apply decodeTuple_loop_decode in H; [|done]. split.
  - clear E. revert types vs El H. induction raws as [|r raws IH]; intros [|t types] vs El H;
      try discriminate El; cbn in H; inversion H as [|? v ? vs' Hv Hvs]; subst; [done|].
    cbn. destruct (decode_sound _ _ _ _ Hv) as [-> _]. f_equal. apply IH; [|done].
    by injection El.
  - eapply Forall2_impl; [exact H|]. intros [r t] v Hd. split; [done|].
    by destruct (decode_sound _ _ _ _ Hd).
Qed.

Lemma decodeTuple_sound_witness :
  value_ok {| VType := TypeF32; Bits := 0x80000000 |} /\
  decode (fun _ => None) {| Kind := $"Float"; Text := $"f64:0x8000000000000000" |} TypeF32 =
  Err (ErrFloatWidth ($"f64:0x8000000000000000")).
Proof.
  split; [|reflexivity].
  destruct (decodeTuple_sound (fun _ => None)
    [{| Kind := $"Float"; Text := $" f32:0x80000000" |}] [TypeF32]
    [{| VType := TypeF32; Bits := 0x80000000 |}] eq_refl) as [_ H].
  apply Forall2_cons in H as [[_ Hv] _]. apply Hv. by split.
Defined.

End Values.
