(* ===== verification/Json.v ===== *)
(** * The parts of [encoding/json] the recorder uses

    A JSON document as a tree, the parser from bytes, and the field-by-field
    decoding [json.Unmarshal] performs into a struct.  Keys match without
    regard to case, a later duplicate overwrites an earlier one, unknown keys
    are ignored, [null] leaves a scalar as it is and clears a pointer or a
    slice.  A type mismatch anywhere makes [Unmarshal] return an error; since
    every caller only tests [err != nil] it is [None].  Documents are valid
    UTF-8, and a list field that occurs twice is decoded afresh. *)
From S2P Require Import Prelude GoStd.

Module Json.
Import GoStd.

Inductive json : Type :=
| JNull
| JBool (b : bool)
| JNum (text : gostring)
| JStr (s : gostring)
| JArr (l : list json)
| JObj (ms : list (gostring * json)).

(** ** Parsing *)
Definition is_ws (c : Z) : bool := (c =? 32) || (c =? 9) || (c =? 10) || (c =? 13).

Fixpoint skip_ws (s : gostring) : gostring :=
  match s with
  | c :: t => if is_ws c then skip_ws t else s
  | [] => []
  end.

(** The UTF-8 encoding of a code point. *)
Definition encode_rune (r : Z) : gostring :=
  if r <? 0x80 then [r]
  else if r <? 0x800 then [0xc0 + r / 64; 0x80 + r mod 64]
  else if r <? 0x10000 then [0xe0 + r / 4096; 0x80 + (r / 64) mod 64; 0x80 + r mod 64]
  else [0xf0 + r / 262144; 0x80 + (r / 4096) mod 64; 0x80 + (r / 64) mod 64; 0x80 + r mod 64].

Definition hex4 (a b c d : Z) : option Z :=
  match ParseUint [a; b; c; d] 16 32 with Some n => Some n | None => None end.

Definition simple_escape (c : Z) : option Z :=
  if (c =? 34) || (c =? 92) || (c =? 47) then Some c
  else if c =? 98 then Some 8 else if c =? 102 then Some 12
  else if c =? 110 then Some 10 else if c =? 114 then Some 13
  else if c =? 116 then Some 9 else None.

Definition surrogate (r : Z) : bool := (0xd800 <=? r) && (r <? 0xe000).
Definition surrogate_pair (r1 r2 : Z) : option Z :=
  if (0xd800 <=? r1) && (r1 <? 0xdc00) && (0xdc00 <=? r2) && (r2 <? 0xe000)
  then Some ((r1 - 0xd800) * 1024 + (r2 - 0xdc00) + 0x10000)
  else None.
Definition rune_of (r : Z) : Z := if surrogate r then 0xfffd else r.

(** The contents of a string literal after its opening quote. *)
Fixpoint parse_string (s : gostring) : option (gostring * gostring) :=
  match s with
  | [] => None
  | c :: t =>
      if c =? 34 then Some ([], t)
      else if c <? 32 then None
      else if c =? 92 then
        match t with
        | e :: t1 =>
            if e =? 117 then
              match t1 with
              | a :: b :: c' :: d :: t2 =>
                  match hex4 a b c' d with
                  | None => None
                  | Some r =>
                      let single :=
                        match parse_string t2 with
                        | Some (out, rest) => Some (encode_rune (rune_of r) ++ out, rest)
                        | None => None
                        end in
                      match t2 with
                      | b1 :: u1 :: a2 :: b2 :: c2 :: d2 :: t3 =>
                          if surrogate r && (b1 =? 92) && (u1 =? 117) then
                            match hex4 a2 b2 c2 d2 with
                            | Some r2 =>
                                match surrogate_pair r r2 with
                                | Some cp =>
                                    match parse_string t3 with
                                    | Some (out, rest) => Some (encode_rune cp ++ out, rest)
                                    | None => None
                                    end
                                | None => single
                                end
                            | None => single
                            end
                          else single
                      | _ => single
                      end
                  end
              | _ => None
              end
            else
              match simple_escape e with
              | Some x =>
                  match parse_string t1 with
                  | Some (out, rest) => Some (x :: out, rest)
                  | None => None
                  end
              | None => None
              end
        | [] => None
        end
      else
        match parse_string t with
        | Some (out, rest) => Some (c :: out, rest)
        | None => None
        end
  end.

Definition is_digit (c : Z) : bool := (48 <=? c) && (c <=? 57).
Fixpoint take_digits (s : gostring) : gostring * gostring :=
  match s with
  | c :: t => if is_digit c then let '(ds, r) := take_digits t in (c :: ds, r) else ([], s)
  | [] => ([], [])
  end.

(** A number literal: sign, integer part without leading zeros, fraction, exponent. *)
Definition parse_sign (s : gostring) : gostring * gostring :=
  match s with c :: t => if c =? 45 then ([c], t) else ([], s) | [] => ([], []) end.
Definition int_part_ok (ip : gostring) : bool :=
  match ip with [] => false | d :: ds => negb (d =? 48) || bool_decide (ds = []) end.
Definition parse_frac (s : gostring) : option (gostring * gostring) :=
  match s with
  | c :: t =>
      if c =? 46 then
        let '(ds, r) := take_digits t in
        if bool_decide (ds = []) then None else Some (c :: ds, r)
      else Some ([], s)
  | [] => Some ([], [])
  end.
Definition parse_exp_sign (s : gostring) : gostring * gostring :=
  match s with x :: u => if (x =? 43) || (x =? 45) then ([x], u) else ([], s) | [] => ([], []) end.
Definition parse_exp (s : gostring) : option (gostring * gostring) :=
  match s with
  | c :: t =>
      if (c =? 101) || (c =? 69) then
        let '(sg, t1) := parse_exp_sign t in
        let '(ds, r) := take_digits t1 in
        if bool_decide (ds = []) then None else Some (c :: sg ++ ds, r)
      else Some ([], s)
  | [] => Some ([], [])
  end.
Definition parse_number (s : gostring) : option (gostring * gostring) :=
  let '(sign, s1) := parse_sign s in
  let '(ip, s2) := take_digits s1 in
  if negb (int_part_ok ip) then None else
  match parse_frac s2 with
  | None => None
  | Some (fp, s3) =>
      match parse_exp s3 with
      | None => None
      | Some (ep, s4) => Some (sign ++ ip ++ fp ++ ep, s4)
      end
  end.

(** The text after one given byte. *)
Definition expect (b : Z) (s : gostring) : option gostring :=
  match s with c :: r => if c =? b then Some r else None | [] => None end.

Fixpoint parse_value (fuel : nat) (s : gostring) : option (json * gostring) :=
  match fuel with
  | O => None
  | S fuel =>
      match skip_ws s with
      | [] => None
      | c :: t =>
          if c =? 34 then
            match parse_string t with Some (str, r) => Some (JStr str, r) | None => None end
          else if c =? 123 then
            match expect 125 (skip_ws t) with
            | Some r => Some (JObj [], r)
            | None => match parse_members fuel (skip_ws t) with
                      | Some (ms, r) => Some (JObj ms, r) | None => None end
            end
          else if c =? 91 then
            match expect 93 (skip_ws t) with
            | Some r => Some (JArr [], r)
            | None => match parse_elements fuel (skip_ws t) with
                      | Some (l, r) => Some (JArr l, r) | None => None end
            end
          else if HasPrefix (c :: t) ($"null") then Some (JNull, drop 4 (c :: t))
          else if HasPrefix (c :: t) ($"true") then Some (JBool true, drop 4 (c :: t))
          else if HasPrefix (c :: t) ($"false") then Some (JBool false, drop 5 (c :: t))
          else match parse_number (c :: t) with
               | Some (n, r) => Some (JNum n, r) | None => None end
      end
  end
with parse_elements (fuel : nat) (s : gostring) : option (list json * gostring) :=
  match fuel with
  | O => None
  | S fuel =>
      match parse_value fuel s with
      | None => None
      | Some (v, r) =>
          match expect 93 (skip_ws r) with
          | Some r => Some ([v], r)
          | None =>
              match expect 44 (skip_ws r) with
              | Some r =>
                  match parse_elements fuel r with
                  | Some (vs, r) => Some (v :: vs, r) | None => None end
              | None => None
              end
          end
      end
  end
with parse_members (fuel : nat) (s : gostring) : option (list (gostring * json) * gostring) :=
  match fuel with
  | O => None
  | S fuel =>
      match expect 34 (skip_ws s) with
      | None => None
      | Some t =>
          match parse_string t with
          | None => None
          | Some (k, r) =>
              match expect 58 (skip_ws r) with
              | None => None
              | Some r =>
                  match parse_value fuel r with
                  | None => None
                  | Some (v, r) =>
                      match expect 125 (skip_ws r) with
                      | Some r => Some ([(k, v)], r)
                      | None =>
                          match expect 44 (skip_ws r) with
                          | Some r =>
                              match parse_members fuel r with
                              | Some (ms, r) => Some ((k, v) :: ms, r) | None => None end
                          | None => None
                          end
                      end
                  end
              end
          end
      end
  end.

(** A whole document.  Each level of the descent consumes a byte and uses at
    most two units of fuel, so twice the length is enough. *)
Definition parse_json (s : gostring) : option json :=
  match parse_value (2 * length s) s with
  | Some (v, r) => match skip_ws r with [] => Some v | _ => None end
  | None => None
  end.

(** ** Unmarshalling *)
Definition fold_byte (c : Z) : Z := if (65 <=? c) && (c <=? 90) then c + 32 else c.
Definition key_is (name key : gostring) : bool :=
  bool_decide (fold_byte <$> key = fold_byte <$> name).

(** Decode every occurrence of one key into a field's current value. *)
Fixpoint field {A} (dec : A -> json -> option A) (name : gostring)
    (ms : list (gostring * json)) (cur : A) : option A :=
  match ms with
  | [] => Some cur
  | (k, v) :: ms =>
      if key_is name k then
        match dec cur v with Some cur => field dec name ms cur | None => None end
      else field dec name ms cur
  end.

Definition dec_string (cur : gostring) (v : json) : option gostring :=
  match v with JStr s => Some s | JNull => Some cur | _ => None end.
Definition dec_int (bits : Z) (cur : Z) (v : json) : option Z :=
  match v with JNum t => ParseInt t bits | JNull => Some cur | _ => None end.
Definition dec_uint (bits : Z) (cur : Z) (v : json) : option Z :=
  match v with JNum t => ParseUint t 10 bits | JNull => Some cur | _ => None end.
Definition dec_bool (cur : bool) (v : json) : option bool :=
  match v with JBool b => Some b | JNull => Some cur | _ => None end.

(** [json.RawMessage]: the value itself. *)
Definition dec_raw (cur : option json) (v : json) : option (option json) := Some (Some v).

(** A pointer field: [null] makes it nil, anything else is decoded into what it points to. *)
Definition dec_ptr {A} (zero : A) (dec : A -> json -> option A) (cur : option A) (v : json)
    : option (option A) :=
  match v with
  | JNull => Some None
  | _ => match dec (default zero cur) v with Some a => Some (Some a) | None => None end
  end.

(** A slice: [None] is Go's nil slice. *)
Definition slice (A : Type) : Type := option (list A).
Definition elems {A} (s : slice A) : list A := default [] s.
Fixpoint dec_list {A} (zero : A) (dec : A -> json -> option A) (l : list json) : option (list A) :=
  match l with
  | [] => Some []
  | v :: l =>
      match dec zero v with
      | None => None
      | Some a => match dec_list zero dec l with Some r => Some (a :: r) | None => None end
      end
  end.
Definition dec_slice {A} (zero : A) (dec : A -> json -> option A) (cur : slice A) (v : json)
    : option (slice A) :=
  match v with
  | JNull => Some None
  | JArr l => match dec_list zero dec l with Some r => Some (Some r) | None => None end
  | _ => None
  end.

(** A struct: [null] is a no-op, anything but an object a type error. *)
Definition dec_struct {A} (fields : A -> list (gostring * json) -> option A)
    (cur : A) (v : json) : option A :=
  match v with JNull => Some cur | JObj ms => fields cur ms | _ => None end.

Notation "'field!' x ':=' m 'in' k" :=
  (match m with Some x => k | None => None end)
  (at level 10, x pattern, m at level 99, k at level 200) : go_scope.

(** ** Marshalling

    [json.Marshal] writes compact text with the HTML-sensitive characters and
    the two Unicode line separators escaped. *)
Definition hex_lower (d : Z) : Z := if d <? 10 then 48 + d else 87 + d.
Definition escape_u00 (c : Z) : gostring := [92; 117; 48; 48; hex_lower (c / 16); hex_lower (c mod 16)].
Definition escape_byte (c : Z) : gostring :=
  if (c =? 34) || (c =? 92) then [92; c]
  else if c =? 8 then [92; 98] else if c =? 12 then [92; 102]
  else if c =? 10 then [92; 110] else if c =? 13 then [92; 114] else if c =? 9 then [92; 116]
  else if (c <? 32) || (c =? 60) || (c =? 62) || (c =? 38) then escape_u00 c
  else [c].
Fixpoint escape (s : gostring) : gostring :=
  match s with
  | [] => []
  | c :: t =>
      match s with
      | 226 :: 128 :: 168 :: t => [92; 117; 50; 48; 50; 56] ++ escape t
      | 226 :: 128 :: 169 :: t => [92; 117; 50; 48; 50; 57] ++ escape t
      | _ => escape_byte c ++ escape t
      end
  end.
Definition print_string (s : gostring) : gostring := 34 :: escape s ++ [34].

Fixpoint print_seq (items : list gostring) : gostring :=
  match items with
  | [] => []
  | [x] => x
  | x :: xs => x ++ 44 :: print_seq xs
  end.

Fixpoint print_json (v : json) : gostring :=
  match v with
  | JNull => $"null"
  | JBool b => if b then $"true" else $"false"
  | JNum t => t
  | JStr s => print_string s
  | JArr l => 91 :: print_seq (print_json <$> l) ++ [93]
  | JObj ms => 123 :: print_seq ((fun '(k, v) => print_string k ++ 58 :: print_json v) <$> ms) ++ [125]
  end.

(** ** Lemmas *)

(** Bytes a string literal carries unescaped. *)
Definition plain (c : Z) : Prop := 32 <= c /\ c <> 34 /\ c <> 92.

Lemma parse_string_plain s rest :
  Forall plain s -> parse_string (s ++ 34 :: rest) = Some (s, rest).
Proof.
  induction 1 as [|c s (H1 & H2 & H3) _ IH]; cbn [app parse_string]; [done|].
  destruct (Z.eqb_spec c 34); [done|]. destruct (Z.ltb_spec c 32); [lia|].
  destruct (Z.eqb_spec c 92); [done|]. by rewrite IH.
Qed.

(** A member whose key and value are plain strings, followed by another or by
    the end of the object. *)
Definition member (k v : gostring) : gostring := 34 :: k ++ 34 :: 58 :: 34 :: v ++ [34].

Lemma parse_members_string fuel k v rest :
  Forall plain k -> Forall plain v ->
  parse_members (S (S fuel)) (member k v ++ 44 :: rest) =
  match parse_members (S fuel) rest with
  | Some (ms, r) => Some ((k, JStr v) :: ms, r)
  | None => None
  end.
Proof.
  intros Hk Hv. unfold member. cbn [app]. rewrite <-!app_assoc. cbn [app].
  rewrite <-!app_assoc. cbn [app]. set (tl := 58 :: _).
  cbn -[parse_string parse_value]. rewrite parse_string_plain by done.
  unfold tl. cbn -[parse_string parse_value parse_members].
  cbn [parse_value skip_ws is_ws Z.eqb Pos.eqb orb].
  rewrite parse_string_plain by done. done.
Qed.

Lemma parse_members_last fuel k v rest :
  Forall plain k -> Forall plain v ->
  parse_members (S (S fuel)) (member k v ++ 125 :: rest) = Some ([(k, JStr v)], rest).
Proof.
  intros Hk Hv. unfold member. cbn [app]. rewrite <-!app_assoc. cbn [app].
  rewrite <-!app_assoc. cbn [app]. set (tl := 58 :: _).
  cbn -[parse_string parse_value]. rewrite parse_string_plain by done.
  unfold tl. cbn -[parse_string parse_value parse_members].
  cbn [parse_value skip_ws is_ws Z.eqb Pos.eqb orb].
  rewrite parse_string_plain by done. done.
Qed.

Lemma parse_object fuel s ms :
  parse_members fuel (34 :: s) = Some (ms, []) ->
  parse_value (S fuel) (123 :: 34 :: s) = Some (JObj ms, []).
Proof. intros H. cbn -[parse_members]. by rewrite H. Qed.

End Json.
