(* ===== verification/Recording.v ===== *)
(** * The recording's vocabulary: [internal/boundarylog/recording.go]

    Crossings, the records of [trace.json] and the parsers of the two
    spellings the boundary structure is recovered from: binding names
    ([<label>:arg<slot>], [import #<n>:ret<slot>]) and realm markers
    ([wasm import #<n>] inside the metadata of an [Event]).  Loading a whole
    recording is in [Assembler], after the state machine it runs. *)
From S2P Require Import Prelude GoStd Json Values.

Module Recording.
Import GoStd Json Values.

(** ** Crossings *)
Inductive CrossingKind : Type := CrossingExport | CrossingImport.
#[export] Instance CrossingKind_eq_dec : EqDecision CrossingKind.
Proof. solve_decision. Defined.

Record Crossing := {
  Seq : Z;
  Depth : Z;
  CKind : CrossingKind;
  CName : gostring;
  Index : Z;
  Args : list rawValue;
  CResults : list rawValue;
  hasResults : bool;
  markerBracketed : bool
}.
#[export] Instance Crossing_eq_dec : EqDecision Crossing.
Proof. solve_decision. Defined.

Definition TopLevelExports (cs : list Crossing) : list Crossing :=
  filter (fun c => CKind c = CrossingExport /\ Depth c = 0) cs.
Definition NestedExports (cs : list Crossing) : list Crossing :=
  filter (fun c => CKind c = CrossingExport /\ 0 < Depth c) cs.

(** ** The records of [trace.json] *)
Record functionRecord := { FName : gostring; PathID : Z; Line : Z }.
Record callRecord := { FunctionID : Z; CallArgs : slice (option json) }.
Record returnRecord := { ReturnValue : option json }.
Record valueRecord := { VariableID : Z; RValue : option json }.

Record traceEvent := {
  EvPath : option gostring;
  EvStep : option (option json);
  EvFunction : option functionRecord;
  EvCall : option callRecord;
  EvReturn : option returnRecord;
  EvValue : option valueRecord;
  EvVariableName : option gostring;
  EvEvent : option (option json)
}.

Definition Unmarshal_functionRecord : functionRecord -> json -> option functionRecord :=
  dec_struct (fun r ms =>
    field! n := field dec_string ($"name") ms (FName r) in
    field! p := field (dec_uint 32) ($"path_id") ms (PathID r) in
    field! l := field (dec_int 64) ($"line") ms (Line r) in
    Some {| FName := n; PathID := p; Line := l |}).
Definition Unmarshal_callRecord : callRecord -> json -> option callRecord :=
  dec_struct (fun r ms =>
    field! f := field (dec_uint 32) ($"function_id") ms (FunctionID r) in
    field! a := field (dec_slice None dec_raw) ($"args") ms (CallArgs r) in
    Some {| FunctionID := f; CallArgs := a |}).
Definition Unmarshal_returnRecord : returnRecord -> json -> option returnRecord :=
  dec_struct (fun r ms =>
    field! v := field dec_raw ($"return_value") ms (ReturnValue r) in
    Some {| ReturnValue := v |}).
Definition Unmarshal_valueRecord : valueRecord -> json -> option valueRecord :=
  dec_struct (fun r ms =>
    field! i := field (dec_uint 32) ($"variable_id") ms (VariableID r) in
    field! v := field dec_raw ($"value") ms (RValue r) in
    Some {| VariableID := i; RValue := v |}).

Definition no_event : traceEvent :=
  {| EvPath := None; EvStep := None; EvFunction := None; EvCall := None;
     EvReturn := None; EvValue := None; EvVariableName := None; EvEvent := None |}.

Definition Unmarshal_traceEvent (v : json) : option traceEvent :=
  dec_struct (fun e ms =>
    field! p := field (dec_ptr [] dec_string) ($"Path") ms (EvPath e) in
    field! s := field (dec_ptr None dec_raw) ($"Step") ms (EvStep e) in
    field! f := field (dec_ptr {| FName := []; PathID := 0; Line := 0 |} Unmarshal_functionRecord)
                  ($"Function") ms (EvFunction e) in
    field! c := field (dec_ptr {| FunctionID := 0; CallArgs := None |} Unmarshal_callRecord)
                  ($"Call") ms (EvCall e) in
    field! r := field (dec_ptr {| ReturnValue := None |} Unmarshal_returnRecord)
                  ($"Return") ms (EvReturn e) in
    field! va := field (dec_ptr {| VariableID := 0; RValue := None |} Unmarshal_valueRecord)
                  ($"Value") ms (EvValue e) in
    field! vn := field (dec_ptr [] dec_string) ($"VariableName") ms (EvVariableName e) in
    field! ev := field (dec_ptr None dec_raw) ($"Event") ms (EvEvent e) in
    Some {| EvPath := p; EvStep := s; EvFunction := f; EvCall := c; EvReturn := r;
            EvValue := va; EvVariableName := vn; EvEvent := ev |}) no_event v.

(** [onDiskValue] and its payload, whose field depends on the variant. *)
Record onDiskValue := {
  DKind : gostring; DI : gostring; DF : gostring; DR : gostring; DText : gostring;
  DB : option bool
}.

Definition Unmarshal_onDiskValue (v : json) : option onDiskValue :=
  dec_struct (fun d ms =>
    field! k := field dec_string ($"kind") ms (DKind d) in
    field! i := field dec_string ($"i") ms (DI d) in
    field! f := field dec_string ($"f") ms (DF d) in
    field! r := field dec_string ($"r") ms (DR d) in
    field! t := field dec_string ($"text") ms (DText d) in
    field! b := field (dec_ptr false dec_bool) ($"b") ms (DB d) in
    Some {| DKind := k; DI := i; DF := f; DR := r; DText := t; DB := b |})
  {| DKind := []; DI := []; DF := []; DR := []; DText := []; DB := None |} v.

Definition raw (v : onDiskValue) : rawValue :=
  if decide (DKind v = $"Int") then {| Kind := DKind v; Text := DI v |}
  else if decide (DKind v = $"Float") then {| Kind := DKind v; Text := DF v |}
  else if decide (DKind v = $"Raw") then {| Kind := DKind v; Text := DR v |}
  else if decide (DKind v = $"String") then {| Kind := DKind v; Text := DText v |}
  else if decide (DKind v = $"Bool") then
    match DB v with
    | Some true => {| Kind := DKind v; Text := $"true" |}
    | _ => {| Kind := DKind v; Text := $"false" |}
    end
  else {| Kind := DKind v; Text := [] |}.

(** ** Binding names and import labels *)

(** The role of a binding: ["arg"] or ["ret"]. *)
Inductive role : Type := RArg | RRet.
#[export] Instance role_eq_dec : EqDecision role.
Proof. solve_decision. Defined.

Definition parseBindingName (name : gostring) : option (gostring * role * Z) :=
  let i := LastIndexByte name 58 in
  if (i <? 0) || (i =? len name - 1) then None else
  let label := take (Z.to_nat i) name in
  let suffix := drop (Z.to_nat i + 1) name in
  let finish (r : role) (suffix : gostring) :=
    if bool_decide (suffix = []) then None else
    match Atoi suffix with
    | None => None
    | Some n =>
        if n <? 0 then None
        else if bool_decide (label = []) then None
        else Some (label, r, n)
    end in
  if HasPrefix suffix ($"arg") then finish RArg (drop 3 suffix)
  else if HasPrefix suffix ($"ret") then finish RRet (drop 3 suffix)
  else None.

Definition importLabelPrefix : gostring := $"import #".
Definition importLabel (index : Z) : gostring := importLabelPrefix ++ FormatUint index.
Definition parseImportLabel (label : gostring) : option Z :=
  if negb (HasPrefix label importLabelPrefix) then None
  else ParseUint (drop (length importLabelPrefix) label) 10 32.

(** ** Realm markers *)
Definition eventKindTraceLogEvent : Z := 12.
Definition jsWasmRealmBoundary : gostring := $"js-wasm-realm".
Definition exportMarkerPrefix : gostring := $"wasm export #".
Definition importMarkerPrefix : gostring := $"wasm import #".
Definition markerEnterDirection : gostring := $"recv".
Definition markerLeaveDirection : gostring := $"send".

Record eventRecord := { EKind : Z; Metadata : gostring; Content : gostring }.
Record markerMetadata := { BoundaryID : gostring; Direction : gostring; ShowValue : gostring }.
Record realmMarker := { mkind : CrossingKind; mindex : Z; enter : bool }.

Definition Unmarshal_eventRecord (v : json) : option eventRecord :=
  dec_struct (fun e ms =>
    field! k := field (dec_int 64) ($"kind") ms (EKind e) in
    field! m := field dec_string ($"metadata") ms (Metadata e) in
    field! c := field dec_string ($"content") ms (Content e) in
    Some {| EKind := k; Metadata := m; Content := c |})
  {| EKind := 0; Metadata := []; Content := [] |} v.

Definition Unmarshal_markerMetadata (text : gostring) : option markerMetadata :=
  match parse_json text with
  | None => None
  | Some v =>
      dec_struct (fun m ms =>
        field! b := field dec_string ($"boundary_id") ms (BoundaryID m) in
        field! d := field dec_string ($"direction") ms (Direction m) in
        field! s := field dec_string ($"show_value") ms (ShowValue m) in
        Some {| BoundaryID := b; Direction := d; ShowValue := s |})
      {| BoundaryID := []; Direction := []; ShowValue := [] |} v
  end.

Definition parse_show_value (s : gostring) : option (CrossingKind * Z) :=
  if HasPrefix s importMarkerPrefix then
    match ParseUint (drop (length importMarkerPrefix) s) 10 32 with
    | Some n => Some (CrossingImport, n)
    | None => None
    end
  else if HasPrefix s exportMarkerPrefix then
    match ParseUint (drop (length exportMarkerPrefix) s) 10 32 with
    | Some n => Some (CrossingExport, n)
    | None => None
    end
  else None.

Definition parseRealmMarker (v : json) : option realmMarker :=
  match Unmarshal_eventRecord v with
  | None => None
  | Some ev =>
      if negb (EKind ev =? eventKindTraceLogEvent) then None else
      match Unmarshal_markerMetadata (Metadata ev) with
      | None => None
      | Some meta =>
          if negb (bool_decide (BoundaryID meta = jsWasmRealmBoundary)) then None else
          match parse_show_value (ShowValue meta) with
          | None => None
          | Some (k, n) =>
              if bool_decide (Direction meta = markerEnterDirection)
              then Some {| mkind := k; mindex := n; enter := true |}
              else if bool_decide (Direction meta = markerLeaveDirection)
              then Some {| mkind := k; mindex := n; enter := false |}
              else None
          end
      end
  end.

(** ** The producer's spellings *)
Definition role_name (r : role) : gostring :=
  match r with RArg => $"arg" | RRet => $"ret" end.
Definition boundaryBindingName (label : gostring) (r : role) (slot : Z) : gostring :=
  label ++ [58] ++ role_name r ++ FormatUint slot.

(** The metadata document of a realm marker, as [JsonFileCtfsWriter] renders it. *)
Definition marker_metadata (k : CrossingKind) (index : Z) (enter : bool) : gostring :=
  [123; 34] ++ $"boundary_id" ++ [34; 58; 34] ++ jsWasmRealmBoundary ++
  [34; 44; 34] ++ $"direction" ++ [34; 58; 34] ++
  (if enter then markerEnterDirection else markerLeaveDirection) ++
  [34; 44; 34] ++ $"show_value" ++ [34; 58; 34] ++
  (match k with CrossingImport => importMarkerPrefix | CrossingExport => exportMarkerPrefix end) ++
  FormatUint index ++ [34; 125].
Definition marker_event (k : CrossingKind) (index : Z) (enter : bool) : json :=
  JObj [($"kind", JNum ($"12")); ($"metadata", JStr (marker_metadata k index enter));
        ($"content", JStr [])].

(** ** Lemmas *)
Lemma parseImportLabel_importLabel n : in_u 32 n -> parseImportLabel (importLabel n) = Some n.
Proof.
  intros Hn. unfold parseImportLabel, importLabel. rewrite HasPrefix_app. cbn [negb].
  rewrite drop_app_length. by apply ParseUint_FormatUint.
Qed.

Lemma importLabel_inj n m :
  in_u 32 n -> in_u 32 m -> importLabel n = importLabel m -> n = m.
Proof.
  intros Hn Hm E. apply (f_equal parseImportLabel) in E.
  rewrite !parseImportLabel_importLabel in E by done. by simplify_eq.
Qed.

Lemma FormatUint_no_colon n : 0 <= n -> 58 ∉ FormatUint n.
Proof.
  intros Hn Hc. pose proof (FormatUint_loop_digits 20 n Hn) as H.
  rewrite Forall_forall in H. apply H in Hc. lia.
Qed.

Lemma parseBindingName_ok label r slot :
  label <> [] -> 0 <= slot < 2 ^ 63 ->
  parseBindingName (boundaryBindingName label r slot) = Some (label, r, slot).
Proof.
  intros Hl Hs. unfold parseBindingName, boundaryBindingName. cbn [app].
  set (suffix := role_name r ++ FormatUint slot).
  assert (58 ∉ suffix) as Hc.
  { unfold suffix. rewrite elem_of_app. intros [H|H].
    - destruct r; vm_compute in H; repeat (apply elem_of_cons in H as [?|H]; [lia|]);
        by apply elem_of_nil in H.
    - by apply FormatUint_no_colon in H; [|lia]. }
  rewrite LastIndexByte_app by done.
  assert (len (label ++ 58 :: suffix) = len label + 1 + len suffix) as Hlen.
  { rewrite len_app, len_cons. lia. }
  assert (3 <= len suffix) as H3.
  { unfold suffix. rewrite len_app. destruct r; change (len (role_name _)) with 3;
      pose proof (len_nonneg (FormatUint slot)); lia. }
  pose proof (len_nonneg label). destruct (Z.ltb_spec (len label) 0); [lia|].
  destruct (Z.eqb_spec (len label) (len (label ++ 58 :: suffix) - 1)); [lia|]. cbn [orb].
  unfold len. rewrite Nat2Z.id, take_app_length.
  replace (drop (length label + 1) (label ++ 58 :: suffix)) with suffix
    by (rewrite <-drop_drop, drop_app_length; done).
  assert (Atoi (FormatUint slot) = Some slot) as Ha by (apply ParseInt_FormatUint; lia).
  assert (bool_decide (FormatUint slot = []) = false) as Hne.
  { apply bool_decide_eq_false. apply FormatUint_nonempty. }
  assert (bool_decide (label = []) = false) as Hlb by by apply bool_decide_eq_false.
  destruct (Z.ltb_spec slot 0) as [|Hpos]; [lia|].
  unfold suffix. destruct r; cbn [role_name].
  - rewrite HasPrefix_app. change 3%nat with (length ($"arg")). rewrite drop_app_length.
    rewrite Hne, Ha, Hlb. destruct (Z.ltb_spec slot 0); [lia|done].
  - rewrite HasPrefix_app.
    assert (HasPrefix ($"ret" ++ FormatUint slot) ($"arg") = false) as -> by reflexivity.
    change 3%nat with (length ($"ret")). rewrite drop_app_length.
    rewrite Hne, Ha, Hlb. destruct (Z.ltb_spec slot 0); [lia|done].
Qed.

Definition show_value (k : CrossingKind) (index : Z) : gostring :=
  match k with CrossingImport => importMarkerPrefix | CrossingExport => exportMarkerPrefix end ++
  FormatUint index.

Lemma marker_metadata_members k n e :
  marker_metadata k n e =
  123 :: member ($"boundary_id") jsWasmRealmBoundary ++ 44 ::
         member ($"direction") (if e then markerEnterDirection else markerLeaveDirection) ++ 44 ::
         member ($"show_value") (show_value k n) ++ [125].
Proof.
  unfold marker_metadata, member, show_value. rewrite <-!app_assoc. cbn [app].
  destruct e, k; cbn; by rewrite <-?app_assoc.
Qed.

Ltac plain_literal := repeat (constructor; [unfold plain; vm_compute; repeat split; discriminate|]); constructor.

Lemma show_value_plain k n : 0 <= n -> Forall plain (show_value k n).
Proof.
  intros Hn. apply Forall_app. split; [destruct k; plain_literal|].
  eapply Forall_impl; [by apply FormatUint_loop_digits|]. unfold plain. cbv beta. lia.
Qed.

Lemma parse_show_value_ok k n : in_u 32 n -> parse_show_value (show_value k n) = Some (k, n).
Proof.
  intros Hn. unfold parse_show_value, show_value. destruct k.
  - change (HasPrefix (exportMarkerPrefix ++ FormatUint n) importMarkerPrefix) with false.
    rewrite HasPrefix_app, drop_app_length, ParseUint_FormatUint; [done|lia|done].
  - rewrite HasPrefix_app, drop_app_length, ParseUint_FormatUint; [done|lia|done].
Qed.

Definition marker_members (k : CrossingKind) (n : Z) (e : bool) : list (gostring * json) :=
  [($"boundary_id", JStr jsWasmRealmBoundary);
   ($"direction", JStr (if e then markerEnterDirection else markerLeaveDirection));
   ($"show_value", JStr (show_value k n))].

Lemma parse_marker_metadata k n e :
  0 <= n -> parse_json (marker_metadata k n e) = Some (JObj (marker_members k n e)).
Proof.
  intros Hn. unfold parse_json.
  assert (exists fuel, (2 * length (marker_metadata k n e) = S (S (S (S (S fuel)))))%nat) as [fuel ->].
  { exists (2 * length (marker_metadata k n e) - 5)%nat.
    assert (3 <= length (marker_metadata k n e))%nat; [|lia].
    unfold marker_metadata. rewrite !length_app. cbn [length]. lia. }
  rewrite marker_metadata_members. unfold member at 1. cbn [app].
  erewrite parse_object; [reflexivity|].
  rewrite <-!app_assoc. cbn [app].
  transitivity (parse_members (S (S (S (S fuel)))) (member ($"boundary_id") jsWasmRealmBoundary ++
    44 :: member ($"direction") (if e then markerEnterDirection else markerLeaveDirection) ++
    44 :: member ($"show_value") (show_value k n) ++ [125])); [reflexivity|].
  rewrite parse_members_string by plain_literal.
  rewrite parse_members_string by (destruct e; plain_literal).
  rewrite parse_members_last by (plain_literal || by apply show_value_plain). reflexivity.
Qed.

Lemma Unmarshal_marker_metadata k n e :
  0 <= n ->
  Unmarshal_markerMetadata (marker_metadata k n e) =
  Some {| BoundaryID := jsWasmRealmBoundary;
          Direction := if e then markerEnterDirection else markerLeaveDirection;
          ShowValue := show_value k n |}.
Proof. intros Hn. unfold Unmarshal_markerMetadata. by rewrite parse_marker_metadata. Qed.

Lemma Unmarshal_marker_event k n e :
  Unmarshal_eventRecord (marker_event k n e) =
  Some {| EKind := 12; Metadata := marker_metadata k n e; Content := [] |}.
Proof.
  unfold marker_event. set (md := marker_metadata k n e). reflexivity.
Qed.

Lemma parseRealmMarker_event k n e :
  in_u 32 n ->
  parseRealmMarker (marker_event k n e) = Some {| mkind := k; mindex := n; enter := e |}.
Proof.
  intros Hn. unfold parseRealmMarker. rewrite Unmarshal_marker_event.
  change (negb (EKind _ =? _)) with false. cbv iota. cbn [Metadata].
  rewrite Unmarshal_marker_metadata by (unfold in_u in Hn; lia). cbn [BoundaryID ShowValue Direction].
  rewrite parse_show_value_ok by done. by destruct e.
Qed.

(** ** Properties *)

(** C22: the two spellings boundary structure is recovered from are
    parsed back exactly: a binding name with any non-empty label, colons
    included, an import label, and a realm marker of either edge and direction
    through its nested JSON document. *)
Theorem spellings_roundtrip :
  (forall label r slot, label <> [] -> 0 <= slot < 2 ^ 63 ->
     parseBindingName (boundaryBindingName label r slot) = Some (label, r, slot)) /\
  (forall n, in_u 32 n -> parseImportLabel (importLabel n) = Some n) /\
  (forall k n e, in_u 32 n ->
     parseRealmMarker (marker_event k n e) = Some {| mkind := k; mindex := n; enter := e |}).
Proof.
  split; [exact parseBindingName_ok|]. split; [exact parseImportLabel_importLabel|].
  exact parseRealmMarker_event.
Qed.

Lemma spellings_roundtrip_witness :
  parseBindingName ($"a:b:ret12") = Some ($"a:b", RRet, 12) /\
  parseImportLabel ($"import #4294967295") = Some 4294967295.
Proof.
  destruct spellings_roundtrip as (H1 & H2 & _). split.
  - apply (H1 ($"a:b") RRet 12); [discriminate|lia].
  - apply (H2 4294967295). unfold in_u. lia.
Defined.

End Recording.
