(* ===== verification/HostState.v ===== *)
(** * Host-supplied state: [internal/boundarylog/hoststate.go]

    The document that carries the host's initial state and its writes during
    imported calls: its decoding, its validation, the in-stream records the
    event stream carries, their fold into one document, and the reconciliation
    of the two carriers of a recording. *)
From S2P Require Import Prelude GoStd Json Values Recording.

Module HostState.
Import GoStd Json Values Recording.

(** ** Documents *)
Definition hostStateVersion : Z := 1.

Record MemoryRegion := { ROffset : Z; RBytesB64 : gostring }.
Record ImportedMemory := {
  MModule : gostring; MName : gostring; MinPages : Z; MaxPages : option Z;
  MData : slice MemoryRegion
}.
Record ImportedGlobal := {
  GModule : gostring; GName : gostring; GType : gostring; GMutable : bool; GValue : gostring
}.
Record InitialState := {
  Memories : slice ImportedMemory;
  Globals : slice ImportedGlobal;
  Tables : slice (option json)
}.
Record MemoryWrite := {
  WModule : gostring; WName : gostring; WOffset : Z; WBytesB64 : gostring
}.
Record GlobalSet := {
  SModule : gostring; SName : gostring; SType : gostring; SValue : gostring
}.
Record HostMutation := {
  AfterCrossing : Z; MemoryWrites : slice MemoryWrite; GlobalSets : slice GlobalSet
}.
Record HostState := {
  Version : Z;
  Initial : InitialState;
  Mutations : slice HostMutation;
  initialSeen : bool
}.

Inductive hs_err : Type :=
| ErrVersion (v : Z)
| ErrTables
| ErrMemoryName
| ErrMaxBelowMin (module name : gostring)
| ErrBase64 (offset : Z)
| ErrGlobalName
| ErrGlobal (module name : gostring) (e : val_err)
| ErrAnchor (seq : Z)
| ErrNotMutable (seq : Z) (module name : gostring)
| ErrMarkerVersion (v : Z)
| ErrMarkerNoInitial
| ErrMarkerNoMutation
| ErrMarkerRecord (r : gostring)
| ErrCarriersDisagree
| ErrDecoding.

(** ** Base64: [base64.StdEncoding.DecodeString], which skips newlines. *)
Definition b64_value (c : Z) : option Z :=
  if (65 <=? c) && (c <=? 90) then Some (c - 65)
  else if (97 <=? c) && (c <=? 122) then Some (c - 71)
  else if (48 <=? c) && (c <=? 57) then Some (c + 4)
  else if c =? 43 then Some 62 else if c =? 47 then Some 63 else None.

Definition b64_triple (a b c d : Z) : list Z :=
  let v := a * 262144 + b * 4096 + c * 64 + d in
  [v / 65536; (v / 256) mod 256; v mod 256].

Fixpoint b64_groups (s : gostring) : option (list Z) :=
  match s with
  | [] => Some []
  | a :: b :: c :: d :: rest =>
      match b64_value a, b64_value b with
      | Some x, Some y =>
          match b64_value c with
          | Some z =>
              match b64_value d with
              | Some w =>
                  match b64_groups rest with
                  | Some out => Some (b64_triple x y z w ++ out)
                  | None => None
                  end
              | None => if (d =? 61) && bool_decide (rest = [])
                        then Some (take 2 (b64_triple x y z 0)) else None
              end
          | None => if (c =? 61) && (d =? 61) && bool_decide (rest = [])
                    then Some (take 1 (b64_triple x y 0 0)) else None
          end
      | _, _ => None
      end
  | _ => None
  end.
Definition b64_decode (s : gostring) : option (list Z) :=
  b64_groups (filter (fun c => c <> 10 /\ c <> 13) s).

Definition MemoryRegion_decode (m : MemoryRegion) : result hs_err (list Z) :=
  match b64_decode (RBytesB64 m) with Some b => Ok b | None => Err (ErrBase64 (ROffset m)) end.
Definition MemoryWrite_decode (w : MemoryWrite) : result hs_err (list Z) :=
  match b64_decode (WBytesB64 w) with Some b => Ok b | None => Err (ErrBase64 (WOffset w)) end.

(** ** Unmarshalling *)
Definition zero_region : MemoryRegion := {| ROffset := 0; RBytesB64 := [] |}.
Definition Unmarshal_MemoryRegion : MemoryRegion -> json -> option MemoryRegion :=
  dec_struct (fun r ms =>
    field! o := field (dec_uint 32) ($"offset") ms (ROffset r) in
    field! b := field dec_string ($"bytesB64") ms (RBytesB64 r) in
    Some {| ROffset := o; RBytesB64 := b |}).
Definition zero_memory : ImportedMemory :=
  {| MModule := []; MName := []; MinPages := 0; MaxPages := None; MData := None |}.
Definition Unmarshal_ImportedMemory : ImportedMemory -> json -> option ImportedMemory :=
  dec_struct (fun r ms =>
    field! m := field dec_string ($"module") ms (MModule r) in
    field! n := field dec_string ($"name") ms (MName r) in
    field! lo := field (dec_uint 32) ($"minPages") ms (MinPages r) in
    field! hi := field (dec_ptr 0 (dec_uint 32)) ($"maxPages") ms (MaxPages r) in
    field! d := field (dec_slice zero_region Unmarshal_MemoryRegion) ($"data") ms (MData r) in
    Some {| MModule := m; MName := n; MinPages := lo; MaxPages := hi; MData := d |}).
Definition zero_global : ImportedGlobal :=
  {| GModule := []; GName := []; GType := []; GMutable := false; GValue := [] |}.
Definition Unmarshal_ImportedGlobal : ImportedGlobal -> json -> option ImportedGlobal :=
  dec_struct (fun r ms =>
    field! m := field dec_string ($"module") ms (GModule r) in
    field! n := field dec_string ($"name") ms (GName r) in
    field! t := field dec_string ($"type") ms (GType r) in
    field! mu := field dec_bool ($"mutable") ms (GMutable r) in
    field! v := field dec_string ($"value") ms (GValue r) in
    Some {| GModule := m; GName := n; GType := t; GMutable := mu; GValue := v |}).
Definition zero_initial : InitialState := {| Memories := None; Globals := None; Tables := None |}.
Definition Unmarshal_InitialState : InitialState -> json -> option InitialState :=
  dec_struct (fun r ms =>
    field! m := field (dec_slice zero_memory Unmarshal_ImportedMemory) ($"memories") ms (Memories r) in
    field! g := field (dec_slice zero_global Unmarshal_ImportedGlobal) ($"globals") ms (Globals r) in
    field! t := field (dec_slice None dec_raw) ($"tables") ms (Tables r) in
    Some {| Memories := m; Globals := g; Tables := t |}).
Definition zero_write : MemoryWrite := {| WModule := []; WName := []; WOffset := 0; WBytesB64 := [] |}.
Definition Unmarshal_MemoryWrite : MemoryWrite -> json -> option MemoryWrite :=
  dec_struct (fun r ms =>
    field! m := field dec_string ($"module") ms (WModule r) in
    field! n := field dec_string ($"name") ms (WName r) in
    field! o := field (dec_uint 32) ($"offset") ms (WOffset r) in
    field! b := field dec_string ($"bytesB64") ms (WBytesB64 r) in
    Some {| WModule := m; WName := n; WOffset := o; WBytesB64 := b |}).
Definition zero_set : GlobalSet := {| SModule := []; SName := []; SType := []; SValue := [] |}.
Definition Unmarshal_GlobalSet : GlobalSet -> json -> option GlobalSet :=
  dec_struct (fun r ms =>
    field! m := field dec_string ($"module") ms (SModule r) in
    field! n := field dec_string ($"name") ms (SName r) in
    field! t := field dec_string ($"type") ms (SType r) in
    field! v := field dec_string ($"value") ms (SValue r) in
    Some {| SModule := m; SName := n; SType := t; SValue := v |}).
Definition zero_mutation : HostMutation :=
  {| AfterCrossing := 0; MemoryWrites := None; GlobalSets := None |}.
Definition Unmarshal_HostMutation : HostMutation -> json -> option HostMutation :=
  dec_struct (fun r ms =>
    field! a := field (dec_int 64) ($"afterCrossing") ms (AfterCrossing r) in
    field! w := field (dec_slice zero_write Unmarshal_MemoryWrite) ($"memoryWrites") ms (MemoryWrites r) in
    field! g := field (dec_slice zero_set Unmarshal_GlobalSet) ($"globalSets") ms (GlobalSets r) in
    Some {| AfterCrossing := a; MemoryWrites := w; GlobalSets := g |}).
Definition zero_state : HostState :=
  {| Version := 0; Initial := zero_initial; Mutations := None; initialSeen := false |}.
Definition Unmarshal_HostState (v : json) : option HostState :=
  dec_struct (fun h ms =>
    field! n := field (dec_int 64) ($"version") ms (Version h) in
    field! i := field Unmarshal_InitialState ($"initial") ms (Initial h) in
    field! m := field (dec_slice zero_mutation Unmarshal_HostMutation) ($"mutations") ms (Mutations h) in
    Some {| Version := n; Initial := i; Mutations := m; initialSeen := initialSeen h |}) zero_state v.

Section host_state.
Variable ParseFloat : gostring -> option Z.

(** The kind a declared type's text is read as. *)
Definition kind_of (t : ScalarType) : gostring :=
  match t with TypeF32 | TypeF64 => $"Float" | _ => $"Int" end.

Definition ImportedGlobal_decode (g : ImportedGlobal) : result hs_err (ScalarType * Value) :=
  let! t := map_err (ErrGlobal (GModule g) (GName g)) (ParseScalarType (GType g)) in
  let! v := map_err (ErrGlobal (GModule g) (GName g))
              (decode ParseFloat {| Kind := kind_of t; Text := GValue g |} t) in
  Ok (t, v).
Definition GlobalSet_decode (s : GlobalSet) : result hs_err Value :=
  let! t := map_err (ErrGlobal (SModule s) (SName s)) (ParseScalarType (SType s)) in
  map_err (ErrGlobal (SModule s) (SName s))
    (decode ParseFloat {| Kind := kind_of t; Text := SValue s |} t).

(** ** Operations *)
Definition MutationsFor (h : option HostState) (seq : Z) : list HostMutation :=
  match h with
  | None => []
  | Some h => filter (fun m => AfterCrossing m = seq) (elems (Mutations h))
  end.

Fixpoint globalIsMutable_loop (gs : list ImportedGlobal) (module name : gostring) : bool :=
  match gs with
  | [] => false
  | g :: gs =>
      if bool_decide (GModule g = module) && bool_decide (GName g = name) then GMutable g
      else globalIsMutable_loop gs module name
  end.
Definition globalIsMutable (h : HostState) (module name : gostring) : bool :=
  globalIsMutable_loop (elems (Globals (Initial h))) module name.

Definition validate_memory (m : ImportedMemory) : result hs_err unit :=
  reject bool_decide (MName m = []) as ErrMemoryName ;;
  reject (match MaxPages m with Some hi => hi <? MinPages m | None => false end)
    as ErrMaxBelowMin (MModule m) (MName m) ;;
  each (fun d => let! _ := MemoryRegion_decode d in Ok tt) (elems (MData m)).
Definition validate_global (g : ImportedGlobal) : result hs_err unit :=
  reject bool_decide (GName g = []) as ErrGlobalName ;;
  let! _ := ImportedGlobal_decode g in Ok tt.
Definition validate_mutation (h : HostState) (mu : HostMutation) : result hs_err unit :=
  reject AfterCrossing mu <? 0 as ErrAnchor (AfterCrossing mu) ;;
  let! _ := each (fun w => let! _ := MemoryWrite_decode w in Ok tt) (elems (MemoryWrites mu)) in
  each (fun s =>
    let! _ := GlobalSet_decode s in
    reject negb (globalIsMutable h (SModule s) (SName s))
      as ErrNotMutable (AfterCrossing mu) (SModule s) (SName s) ;; Ok tt) (elems (GlobalSets mu)).

Definition validate (h : HostState) : result hs_err unit :=
  reject negb (Version h =? hostStateVersion) as ErrVersion (Version h) ;;
  reject 0 <? len (elems (Tables (Initial h))) as ErrTables ;;
  let! _ := each validate_memory (elems (Memories (Initial h))) in
  let! _ := each validate_global (elems (Globals (Initial h))) in
  each (validate_mutation h) (elems (Mutations h)).

(** [normalise]: nil slices become empty ones. *)
Definition non_nil {A} (s : slice A) : slice A := Some (elems s).
Definition normalise_memory (m : ImportedMemory) : ImportedMemory :=
  {| MModule := MModule m; MName := MName m; MinPages := MinPages m; MaxPages := MaxPages m;
     MData := non_nil (MData m) |}.
Definition normalise_mutation (m : HostMutation) : HostMutation :=
  {| AfterCrossing := AfterCrossing m; MemoryWrites := non_nil (MemoryWrites m);
     GlobalSets := non_nil (GlobalSets m) |}.
Definition normalise (h : HostState) : HostState :=
  {| Version := Version h;
     Initial := {| Memories := Some (normalise_memory <$> elems (Memories (Initial h)));
                   Globals := non_nil (Globals (Initial h));
                   Tables := non_nil (Tables (Initial h)) |};
     Mutations := Some (normalise_mutation <$> elems (Mutations h));
     initialSeen := initialSeen h |}.

(** [loadHostState]: the sidecar's bytes, [None] when the file is absent. *)
Definition loadHostState (file : option (list Z)) : result hs_err (option HostState) :=
  match file with
  | None => Ok None
  | Some data =>
      match (match parse_json data with Some v => Unmarshal_HostState v | None => None end) with
      | None => Err ErrDecoding
      | Some h => let! _ := validate h in Ok (Some h)
      end
  end.

(** ** The in-stream channel *)
Definition hostStateBoundary : gostring := $"wasm-host-state".
Definition hostStateRecordInitial : gostring := $"initial".
Definition hostStateRecordMutation : gostring := $"mutation".

Record hostStateMarker := {
  HBoundaryID : gostring; HVersion : Z; HRecord : gostring;
  HInitial : option InitialState; HMutation : option HostMutation
}.

Definition Unmarshal_hostStateMarker (text : gostring) : option hostStateMarker :=
  match parse_json text with
  | None => None
  | Some v =>
      dec_struct (fun m ms =>
        field! b := field dec_string ($"boundary_id") ms (HBoundaryID m) in
        field! n := field (dec_int 64) ($"version") ms (HVersion m) in
        field! r := field dec_string ($"record") ms (HRecord m) in
        field! i := field (dec_ptr zero_initial Unmarshal_InitialState) ($"initial") ms (HInitial m) in
        field! u := field (dec_ptr zero_mutation Unmarshal_HostMutation) ($"mutation") ms (HMutation m) in
        Some {| HBoundaryID := b; HVersion := n; HRecord := r; HInitial := i; HMutation := u |})
      {| HBoundaryID := []; HVersion := 0; HRecord := []; HInitial := None; HMutation := None |} v
  end.

(** [Ok None] is Go's [ok = false]. *)
Definition parseHostStateMarker (v : json) : result hs_err (option hostStateMarker) :=
  match Unmarshal_eventRecord v with
  | None => Ok None
  | Some ev =>
      if negb (EKind ev =? eventKindTraceLogEvent) then Ok None else
      if negb (Contains (Metadata ev) hostStateBoundary) then Ok None else
      match Unmarshal_hostStateMarker (Metadata ev) with
      | None => Ok None
      | Some m =>
          if negb (bool_decide (HBoundaryID m = hostStateBoundary)) then Ok None else
          reject negb (HVersion m =? hostStateVersion) as ErrMarkerVersion (HVersion m) ;;
          if bool_decide (HRecord m = hostStateRecordInitial) then
            match HInitial m with None => Err ErrMarkerNoInitial | Some _ => Ok (Some m) end
          else if bool_decide (HRecord m = hostStateRecordMutation) then
            match HMutation m with None => Err ErrMarkerNoMutation | Some _ => Ok (Some m) end
          else Err (ErrMarkerRecord (HRecord m))
      end
  end.

Definition foldHostStateMarker (state : option HostState) (m : hostStateMarker)
    : result hs_err HostState :=
  let state := default {| Version := hostStateVersion; Initial := zero_initial;
                          Mutations := None; initialSeen := false |} state in
  let checked (s : HostState) := let! _ := validate s in Ok s in
  if bool_decide (HRecord m = hostStateRecordInitial) then
    if initialSeen state then Ok state
    else checked {| Version := Version state; Initial := default zero_initial (HInitial m);
                    Mutations := Mutations state; initialSeen := true |}
  else if bool_decide (HRecord m = hostStateRecordMutation) then
    checked {| Version := Version state; Initial := Initial state;
               Mutations := Some (elems (Mutations state) ++
                                  [default zero_mutation (HMutation m)]);
               initialSeen := initialSeen state |}
  else checked state.

End host_state.

(** ** Reconciling the two carriers *)
Definition json_int (n : Z) : json := JNum (FormatInt n).
Definition json_slice {A} (f : A -> json) (s : slice A) : json :=
  match s with None => JNull | Some l => JArr (f <$> l) end.
Definition json_region (r : MemoryRegion) : json :=
  JObj [($"offset", json_int (ROffset r)); ($"bytesB64", JStr (RBytesB64 r))].
Definition json_memory (m : ImportedMemory) : json :=
  JObj [($"module", JStr (MModule m)); ($"name", JStr (MName m));
        ($"minPages", json_int (MinPages m));
        ($"maxPages", match MaxPages m with None => JNull | Some hi => json_int hi end);
        ($"data", json_slice json_region (MData m))].
Definition json_global (g : ImportedGlobal) : json :=
  JObj [($"module", JStr (GModule g)); ($"name", JStr (GName g)); ($"type", JStr (GType g));
        ($"mutable", JBool (GMutable g)); ($"value", JStr (GValue g))].
Definition json_write (w : MemoryWrite) : json :=
  JObj [($"module", JStr (WModule w)); ($"name", JStr (WName w));
        ($"offset", json_int (WOffset w)); ($"bytesB64", JStr (WBytesB64 w))].
Definition json_set (s : GlobalSet) : json :=
  JObj [($"module", JStr (SModule s)); ($"name", JStr (SName s));
        ($"type", JStr (SType s)); ($"value", JStr (SValue s))].
Definition json_mutation (m : HostMutation) : json :=
  JObj [($"afterCrossing", json_int (AfterCrossing m));
        ($"memoryWrites", json_slice json_write (MemoryWrites m));
        ($"globalSets", json_slice json_set (GlobalSets m))].
Definition json_state (h : HostState) : json :=
  JObj [($"version", json_int (Version h));
        ($"initial", JObj [($"memories", json_slice json_memory (Memories (Initial h)));
                           ($"globals", json_slice json_global (Globals (Initial h)));
                           ($"tables", json_slice (default JNull) (Tables (Initial h)))]);
        ($"mutations", json_slice json_mutation (Mutations h))].
Definition Marshal (h : HostState) : gostring := print_json (json_state h).

(** On success with both carriers the sidecar is returned, normalised in place. *)
Definition reconcileHostState (sidecar streamed : option HostState)
    : result hs_err (option HostState) :=
  match sidecar, streamed with
  | _, None => Ok sidecar
  | None, Some _ => Ok streamed
  | Some a, Some b =>
      reject negb (bool_decide (Marshal (normalise a) = Marshal (normalise b)))
        as ErrCarriersDisagree ;;
      Ok (Some (normalise a))
  end.

(** ** Lemmas *)

(** A realm marker is not a host-state record. *)
Lemma parseHostStateMarker_realm k n e :
  in_u 32 n -> parseHostStateMarker (marker_event k n e) = Ok None.
Proof.
  intros Hn. unfold parseHostStateMarker. rewrite Unmarshal_marker_event.
  change (negb (EKind _ =? _)) with false. cbv iota. cbn [Metadata].
  destruct (negb (Contains _ _)); [done|]. unfold Unmarshal_hostStateMarker.
  rewrite parse_marker_metadata by (unfold in_u in Hn; lia). reflexivity.
Qed.

(** ** The accumulated document *)
Section accumulate.
Variable ParseFloat : gostring -> option Z.

(** The fold of a stream's host-state records, in order. *)
Definition fold_marker (s : option HostState) (m : hostStateMarker)
    : result hs_err (option HostState) :=
  let! s' := foldHostStateMarker ParseFloat s m in Ok (Some s').

(** What [parseHostStateMarker] lets through: a record of one of the two kinds
    with its document. *)
Definition marker_ok (m : hostStateMarker) : Prop :=
  (HRecord m = hostStateRecordInitial /\ is_Some (HInitial m)) \/
  (HRecord m = hostStateRecordMutation /\ is_Some (HMutation m)).

Lemma parseHostStateMarker_ok v m : parseHostStateMarker v = Ok (Some m) -> marker_ok m.
Proof.
  unfold parseHostStateMarker. intros H.
  destruct (Unmarshal_eventRecord v) as [ev|]; [|done].
  destruct (negb (EKind ev =? _)); [done|]. destruct (negb (Contains _ _)); [done|].
  destruct (Unmarshal_hostStateMarker _) as [m'|]; [|done].
  destruct (negb (bool_decide (HBoundaryID m' = _))); [done|].
  destruct (negb (HVersion m' =? _)); [done|].
  case_bool_decide; [destruct (HInitial m') eqn:E; simplify_eq; left; by rewrite E|].
  case_bool_decide; [destruct (HMutation m') eqn:E; simplify_eq; right; by rewrite E|done].
Qed.

Definition is_initial (m : hostStateMarker) : bool := bool_decide (HRecord m = hostStateRecordInitial).

(** The initial state is the first initial record's; the mutations are those of
    the mutation records, in order. *)
Fixpoint first_initial (ms : list hostStateMarker) : option InitialState :=
  match ms with
  | [] => None
  | m :: ms => if is_initial m then HInitial m else first_initial ms
  end.
Fixpoint all_mutations (ms : list hostStateMarker) : list HostMutation :=
  match ms with
  | [] => []
  | m :: ms =>
      if is_initial m then all_mutations ms
      else default zero_mutation (HMutation m) :: all_mutations ms
  end.

Lemma fold_marker_state s0 ms s :
  Forall marker_ok ms -> validate ParseFloat s0 = Ok tt ->
  foldm fold_marker (Some s0) ms = Ok s ->
  exists s', s = Some s' /\ validate ParseFloat s' = Ok tt /\
    Initial s' = (if initialSeen s0 then Initial s0 else default (Initial s0) (first_initial ms)) /\
    elems (Mutations s') = elems (Mutations s0) ++ all_mutations ms.
Proof.
  intros Hok. revert s0. induction Hok as [|m ms Hm _ IH]; intros s0 Hv; cbn [foldm].
  { intros [= <-]. exists s0. rewrite app_nil_r. by destruct (initialSeen s0). }
  unfold fold_marker at 1, foldHostStateMarker. cbn [default first_initial all_mutations].
  unfold is_initial. unfold id.
  destruct Hm as [[Hr [i Hi]]|[Hr [mu Hmu]]]; rewrite Hr.
  - rewrite bool_decide_eq_true_2 by done. destruct (initialSeen s0) eqn:Es.
    + intros H. apply IH in H as (s' & -> & ? & Hin & ?); [|done]. rewrite Es in Hin. eauto.
    + match goal with |- context [validate ParseFloat ?x] =>
      destruct (validate ParseFloat x) as [[]|] eqn:Ev end; [|done]. intros H.
      apply IH in H as (s' & -> & ? & Hin & ?); [|done]. rewrite Hi in *. cbn in *. eauto.
  - rewrite bool_decide_eq_false_2 by done. rewrite bool_decide_eq_true_2 by done.
    match goal with |- context [validate ParseFloat ?x] =>
      destruct (validate ParseFloat x) as [[]|] eqn:Ev end; [|done]. intros H.
    apply IH in H as (s' & -> & ? & Hin & Hmu'); [|done]. cbn in *. exists s'.
    rewrite Hmu', <-app_assoc. by destruct (initialSeen s0).
Qed.

End accumulate.

End HostState.
