(* ===== verification/Assembler.v ===== *)
(** * Crossing reconstruction: [internal/boundarylog/assembler.go]

    The state machine that recovers boundary crossings from the rendered trace
    records, one record at a time, and cuts them into call groups; loading a
    whole recording ([recording.go]) is the loop over it.

    The crossing stack of the source grows at its end; here its head is the top.
    An index the source would panic on yields [Panic]; [Panic] is shown never to
    happen. *)
From stdpp Require Import relations.
From S2P Require Import Prelude GoStd Json Values Recording HostState.

Module Assembler.
Import GoStd Json Values Recording HostState.

(** ** State *)
Record valueRun := { rlabel : gostring; rrole : role; rvalues : list rawValue }.
Record openCrossing := { idx : nat; olabel : gostring }.

Inductive asm_err : Type :=
| ErrArgRun (label : gostring)
| ErrRetRun (label : gostring)
| ErrFunctionID (id seen : Z)
| ErrReturnNoFrame
| ErrReturnImport (seq : Z)
| ErrMarkerNesting (index : Z)
| ErrVariableID (id seen : Z)
| ErrValueRecord (name : gostring)
| ErrSlotOrder (name : gostring) (slot seen : Z)
| ErrUnbalanced (opened : list Z)
| ErrHostState (e : hs_err)
| ErrEvents
| Panic.

Record assembler := {
  functions : list functionRecord;
  varNames : list gostring;
  crossings : list Crossing;
  stack : list openCrossing;
  pending : option valueRun;
  groupStart : nat;
  groupEnds : list nat;
  sawImportMarker : bool;
  hostState : option HostState
}.

Definition newAssembler : assembler :=
  {| functions := []; varNames := []; crossings := []; stack := []; pending := None;
     groupStart := 0; groupEnds := []; sawImportMarker := false; hostState := None |}.

(** Assignments to one field of the state. *)
Definition with_functions a v := {| functions := v; varNames := varNames a; crossings := crossings a; stack := stack a; pending := pending a; groupStart := groupStart a; groupEnds := groupEnds a; sawImportMarker := sawImportMarker a; hostState := hostState a |}.
Definition with_varNames a v := {| functions := functions a; varNames := v; crossings := crossings a; stack := stack a; pending := pending a; groupStart := groupStart a; groupEnds := groupEnds a; sawImportMarker := sawImportMarker a; hostState := hostState a |}.
Definition with_crossings a v := {| functions := functions a; varNames := varNames a; crossings := v; stack := stack a; pending := pending a; groupStart := groupStart a; groupEnds := groupEnds a; sawImportMarker := sawImportMarker a; hostState := hostState a |}.
Definition with_stack a v := {| functions := functions a; varNames := varNames a; crossings := crossings a; stack := v; pending := pending a; groupStart := groupStart a; groupEnds := groupEnds a; sawImportMarker := sawImportMarker a; hostState := hostState a |}.
Definition with_pending a v := {| functions := functions a; varNames := varNames a; crossings := crossings a; stack := stack a; pending := v; groupStart := groupStart a; groupEnds := groupEnds a; sawImportMarker := sawImportMarker a; hostState := hostState a |}.
Definition with_groups a s e := {| functions := functions a; varNames := varNames a; crossings := crossings a; stack := stack a; pending := pending a; groupStart := s; groupEnds := e; sawImportMarker := sawImportMarker a; hostState := hostState a |}.
Definition with_sawImportMarker a v := {| functions := functions a; varNames := varNames a; crossings := crossings a; stack := stack a; pending := pending a; groupStart := groupStart a; groupEnds := groupEnds a; sawImportMarker := v; hostState := hostState a |}.
Definition with_hostState a v := {| functions := functions a; varNames := varNames a; crossings := crossings a; stack := stack a; pending := pending a; groupStart := groupStart a; groupEnds := groupEnds a; sawImportMarker := sawImportMarker a; hostState := v |}.

(** Assignments to one field of a crossing. *)
Definition set_args (vs : list rawValue) (c : Crossing) : Crossing :=
  {| Seq := Seq c; Depth := Depth c; CKind := CKind c; CName := CName c; Index := Index c;
     Args := vs; CResults := CResults c; hasResults := hasResults c;
     markerBracketed := markerBracketed c |}.
Definition set_results (vs : list rawValue) (c : Crossing) : Crossing :=
  {| Seq := Seq c; Depth := Depth c; CKind := CKind c; CName := CName c; Index := Index c;
     Args := Args c; CResults := vs; hasResults := true; markerBracketed := markerBracketed c |}.
Definition set_bracketed (c : Crossing) : Crossing :=
  {| Seq := Seq c; Depth := Depth c; CKind := CKind c; CName := CName c; Index := Index c;
     Args := Args c; CResults := CResults c; hasResults := hasResults c; markerBracketed := true |}.

(** The [&a.crossings[i]] of the source. *)
Definition crossing_at (a : assembler) (i : nat) : result asm_err Crossing :=
  match crossings a !! i with Some c => Ok c | None => Err Panic end.
Definition update_crossing (a : assembler) (i : nat) (f : Crossing -> Crossing) : assembler :=
  with_crossings a (alter f i (crossings a)).

(** [append(a.crossings, Crossing{Seq: len(a.crossings), Depth: len(a.stack), ...})]. *)
Definition append_crossing (a : assembler) (kind : CrossingKind) (name : gostring) (index : Z)
    (args results : list rawValue) (has marked : bool) : assembler :=
  with_crossings a (crossings a ++
    [{| Seq := len (crossings a); Depth := len (stack a); CKind := kind; CName := name;
        Index := index; Args := args; CResults := results; hasResults := has;
        markerBracketed := marked |}]).
(** [append(a.stack, openCrossing{idx: len(a.crossings) - 1, label: label})]. *)
Definition push_frame (a : assembler) (label : gostring) : assembler :=
  with_stack a ({| idx := length (crossings a) - 1; olabel := label |} :: stack a).
Definition pop_frame (a : assembler) : assembler := with_stack a (tail (stack a)).

(** ** Operations *)
Fixpoint closeDangling_loop (cs : list Crossing) (keep : gostring) (force : bool)
    (stk : list openCrossing) : result asm_err (list openCrossing) :=
  match stk with
  | [] => Ok []
  | top :: rest =>
      match cs !! idx top with
      | None => Err Panic
      | Some c =>
          if bool_decide (CKind c <> CrossingImport) then Ok stk
          else if bool_decide (olabel top = keep) then Ok stk
          else if markerBracketed c && negb force then Ok stk
          else closeDangling_loop cs keep force rest
      end
  end.
Definition closeDanglingImports (a : assembler) (keep : gostring) (force : bool)
    : result asm_err assembler :=
  let! stk := closeDangling_loop (crossings a) keep force (stack a) in
  Ok (with_stack a stk).

Definition closeRun_arg (a : assembler) (run : valueRun) (importIdx : option Z)
    : result asm_err assembler :=
  match importIdx with
  | Some index =>
      Ok (push_frame (append_crossing a CrossingImport [] index (rvalues run) [] false false)
            (rlabel run))
  | None =>
      match stack a with
      | [] => Err (ErrArgRun (rlabel run))
      | top :: _ =>
          reject negb (bool_decide (olabel top = rlabel run)) as ErrArgRun (rlabel run) ;;
          let! _ := crossing_at a (idx top) in
          Ok (update_crossing a (idx top) (set_args (rvalues run)))
      end
  end.

Definition closeRun_ret (a : assembler) (run : valueRun) (importIdx : option Z)
    : result asm_err assembler :=
  let orphan :=
    match importIdx with
    | Some index => Ok (append_crossing a CrossingImport [] index [] (rvalues run) true false)
    | None => Err (ErrRetRun (rlabel run))
    end in
  match stack a with
  | top :: _ =>
      if bool_decide (olabel top = rlabel run) then
        let! c := crossing_at a (idx top) in
        let a := update_crossing a (idx top) (set_results (rvalues run)) in
        if (match importIdx with Some _ => true | None => false end) && negb (markerBracketed c)
        then Ok (pop_frame a) else Ok a
      else orphan
  | [] => orphan
  end.

Definition closeRun (a : assembler) : result asm_err assembler :=
  match pending a with
  | None => Ok a
  | Some run =>
      let a := with_pending a None in
      let importIdx := parseImportLabel (rlabel run) in
      let keep := match rrole run with RRet => rlabel run | RArg => [] end in
      let! a := closeDanglingImports a keep false in
      match rrole run with
      | RArg => closeRun_arg a run importIdx
      | RRet => closeRun_ret a run importIdx
      end
  end.

Definition noteGroupBoundary (a : assembler) : assembler :=
  match stack a, pending a with
  | [], None =>
      if (length (crossings a) <=? groupStart a)%nat then a
      else with_groups a (length (crossings a)) (groupEnds a ++ [length (crossings a)])
  | _, _ => a
  end.

Definition openMarkedImport (a : assembler) (index : Z) : result asm_err assembler :=
  let fresh :=
    push_frame (append_crossing a CrossingImport [] index [] [] false true) (importLabel index) in
  match stack a with
  | top :: _ =>
      let! c := crossing_at a (idx top) in
      if bool_decide (CKind c = CrossingImport) && (Index c =? index) && negb (markerBracketed c)
      then Ok (update_crossing a (idx top) set_bracketed)
      else Ok fresh
  | [] => Ok fresh
  end.

Definition closeMarkedImport (a : assembler) (index : Z) : result asm_err assembler :=
  match stack a with
  | top :: _ =>
      let! c := crossing_at a (idx top) in
      if bool_decide (CKind c = CrossingImport) && (Index c =? index) && markerBracketed c
      then Ok (pop_frame a)
      else Err (ErrMarkerNesting index)
  | [] => Err (ErrMarkerNesting index)
  end.

Section push.
Variable ParseFloat : gostring -> option Z.

Definition pushEvent (a : assembler) (ev : option json) : result asm_err assembler :=
  let! a := closeRun a in
  match ev with
  | None => Ok a
  | Some v =>
      let! hs := map_err ErrHostState (parseHostStateMarker v) in
      match hs with
      | Some m =>
          let! folded := map_err ErrHostState (foldHostStateMarker ParseFloat (hostState a) m) in
          Ok (with_hostState a (Some folded))
      | None =>
          match parseRealmMarker v with
          | None => Ok a
          | Some m =>
              if bool_decide (mkind m <> CrossingImport) then Ok a else
              let a := with_sawImportMarker a true in
              if enter m then openMarkedImport a (mindex m) else closeMarkedImport a (mindex m)
          end
      end
  end.

Definition pushValue (a : assembler) (r : valueRecord) : result asm_err assembler :=
  match varNames a !! Z.to_nat (VariableID r) with
  | None => Err (ErrVariableID (VariableID r) (len (varNames a)))
  | Some name =>
      match parseBindingName name with
      | None => closeRun a
      | Some (label, role, slot) =>
          match (match RValue r with Some v => Unmarshal_onDiskValue v | None => None end) with
          | None => Err (ErrValueRecord name)
          | Some odv =>
              let! a :=
                match pending a with
                | Some run =>
                    if negb (bool_decide (rlabel run = label)) || negb (bool_decide (rrole run = role))
                       || ((slot =? 0) && (0 <? len (rvalues run)))
                    then closeRun a else Ok a
                | None => Ok a
                end in
              let run := default {| rlabel := label; rrole := role; rvalues := [] |} (pending a) in
              reject negb (slot =? len (rvalues run))
                as ErrSlotOrder name slot (len (rvalues run)) ;;
              Ok (with_pending a (Some {| rlabel := rlabel run; rrole := rrole run;
                                          rvalues := rvalues run ++ [raw odv] |}))
          end
      end
  end.

Definition pushCall (a : assembler) (c : callRecord) : result asm_err assembler :=
  let! a := closeRun a in
  match functions a !! Z.to_nat (FunctionID c) with
  | None => Err (ErrFunctionID (FunctionID c) (len (functions a)))
  | Some f =>
      Ok (push_frame (append_crossing a CrossingExport (FName f) 0 [] [] false false) (FName f))
  end.

Definition pushReturn (a : assembler) : result asm_err assembler :=
  let! a := closeRun a in
  let! a := closeDanglingImports a [] false in
  match stack a with
  | [] => Err ErrReturnNoFrame
  | top :: _ =>
      let! c := crossing_at a (idx top) in
      reject bool_decide (CKind c <> CrossingExport) as ErrReturnImport (Seq c) ;;
      Ok (pop_frame a)
  end.

Definition push (a : assembler) (ev : traceEvent) : result asm_err assembler :=
  let! a :=
    match EvFunction ev with
    | Some f => let! a := closeRun a in Ok (with_functions a (functions a ++ [f]))
    | None =>
    match EvVariableName ev with
    | Some n => Ok (with_varNames a (varNames a ++ [n]))
    | None =>
    match EvValue ev with
    | Some v => pushValue a v
    | None =>
    match EvCall ev with
    | Some c => pushCall a c
    | None =>
    match EvEvent ev with
    | Some e => pushEvent a e
    | None =>
    match EvReturn ev with
    | Some _ => pushReturn a
    | None =>
        match EvPath ev, EvStep ev with
        | None, None => Ok a
        | _, _ => closeRun a
        end
    end end end end end end in
  Ok (noteGroupBoundary a).

Definition finish (a : assembler) : result asm_err assembler :=
  let! a := closeRun a in
  let! a := closeDanglingImports a [] true in
  match stack a with
  | [] => Ok (noteGroupBoundary a)
  | stk => Err (ErrUnbalanced ((fun f => Z.of_nat (idx f)) <$> rev stk))
  end.

Definition groups (a : assembler) : nat := length (groupEnds a).
Definition group (a : assembler) (i : nat) : list Crossing :=
  let start := match i with O => O | S j => default O (groupEnds a !! j) end in
  sub (crossings a) start (default O (groupEnds a !! i) - start).
Definition openCrossings (a : assembler) : nat := length (stack a).

Definition reconstructCrossings (events : list traceEvent)
    : result asm_err (list Crossing * bool * option HostState) :=
  let! a := foldm push newAssembler events in
  let! a := finish a in
  Ok (crossings a, sawImportMarker a, hostState a).

(** ** Loading a recording *)
Record Recording := {
  RCrossings : list Crossing;
  RHostState : option HostState;
  MarkersIdentifyImports : bool
}.

(** [json.Unmarshal(eventsRaw, &events)]. *)
Definition Unmarshal_events (data : list Z) : option (list traceEvent) :=
  match parse_json data with
  | Some JNull => Some []
  | Some (JArr l) => dec_list no_event (fun _ => Unmarshal_traceEvent) l
  | _ => None
  end.

Definition LoadRecording (trace_json : list Z) (boundary_state : option (list Z))
    : result asm_err Recording :=
  let! sidecar := map_err ErrHostState (loadHostState ParseFloat boundary_state) in
  match Unmarshal_events trace_json with
  | None => Err ErrEvents
  | Some events =>
      let! (cs, marked, streamed) := reconstructCrossings events in
      let! state := map_err ErrHostState (reconcileHostState sidecar streamed) in
      Ok {| RCrossings := cs; RHostState := state; MarkersIdentifyImports := marked |}
  end.

End push.

(** ** The machine as a transition system

    Every operation above is a sequence of the elementary moves below.  The
    invariant and the stability of completed groups are proved once, for the
    moves, and hold of every operation by induction on the sequence. *)
Inductive move : assembler -> assembler -> Prop :=
| MoveQuiet a a' :
    crossings a' = crossings a -> stack a' = stack a -> groupStart a' = groupStart a ->
    groupEnds a' = groupEnds a -> move a a'
| MovePop a stk popped : stack a = popped ++ stk -> move a (with_stack a stk)
| MoveAppend a kind name index args results has marked :
    move a (append_crossing a kind name index args results has marked)
| MoveOpen a kind name index args results has marked label :
    move a (push_frame (append_crossing a kind name index args results has marked) label)
| MoveUpdate a f g :
    f ∈ stack a -> (forall c, Seq (g c) = Seq c /\ Depth (g c) = Depth c) ->
    move a (update_crossing a (idx f) g)
| MoveNote a : move a (noteGroupBoundary a).

(** The frames of the stack point at crossings of the group being assembled,
    inner frames at later ones. *)
Fixpoint stack_ok (lo hi : nat) (stk : list openCrossing) : Prop :=
  match stk with
  | [] => True
  | f :: rest => (lo <= idx f < hi)%nat /\ stack_ok lo (idx f) rest
  end.

(** A frame's crossing has the depth of the frame. *)
Fixpoint depth_ok (cs : list Crossing) (stk : list openCrossing) : Prop :=
  match stk with
  | [] => True
  | f :: rest => (exists c, cs !! idx f = Some c /\ Depth c = len rest) /\ depth_ok cs rest
  end.

(** The boundaries cut off so far: increasing, ending at [groupStart]. *)
Definition ends_ok (a : assembler) : Prop :=
  groupStart a = default O (last (groupEnds a)) /\
  (groupStart a <= length (crossings a))%nat /\
  forall i e, groupEnds a !! i = Some e ->
    (match i with O => O | S j => default O (groupEnds a !! j) end < e)%nat.

Record wf (a : assembler) : Prop := {
  wf_seq : forall i c, crossings a !! i = Some c -> Seq c = Z.of_nat i;
  wf_stack : stack_ok (groupStart a) (length (crossings a)) (stack a);
  wf_depth : depth_ok (crossings a) (stack a);
  wf_ends : ends_ok a
}.

(** What a later state keeps of an earlier one: its completed groups. *)
Definition extends (a a' : assembler) : Prop :=
  (exists more, groupEnds a' = groupEnds a ++ more) /\
  (groupStart a <= groupStart a')%nat /\
  take (groupStart a) (crossings a') = take (groupStart a) (crossings a).

#[export] Instance extends_preorder : PreOrder extends.
Proof.
  split.
  - intros a. split; [by exists []; rewrite app_nil_r|done].
  - intros a b c ([m1 E1] & H1 & T1) ([m2 E2] & H2 & T2). split; [|split; [lia|]].
    + exists (m1 ++ m2). by rewrite E2, E1, app_assoc.
    + rewrite <-T1. rewrite <-(Nat.min_l (groupStart a) (groupStart b)) by lia.
      by rewrite <-!take_take, T2.
Qed.

Lemma stack_ok_app lo hi s1 s2 : stack_ok lo hi (s1 ++ s2) -> stack_ok lo hi s2.
Proof.
  revert hi. induction s1 as [|f s1 IH]; intros hi H; [done|]. cbn in H.
  destruct H as [Hf H]. apply IH in H. destruct s2 as [|g s2]; [done|].
  cbn in *. destruct H. split; [lia|done].
Qed.

Lemma stack_ok_elem lo hi stk f : stack_ok lo hi stk -> f ∈ stk -> (lo <= idx f < hi)%nat.
Proof.
  revert hi. induction stk as [|g stk IH]; intros hi H Hf; [by apply elem_of_nil in Hf|].
  cbn in H. destruct H as [Hg H]. apply elem_of_cons in Hf as [->|Hf]; [done|].
  specialize (IH _ H Hf). lia.
Qed.

Lemma depth_ok_app cs s1 s2 : depth_ok cs (s1 ++ s2) -> depth_ok cs s2.
Proof. induction s1 as [|f s1 IH]; intros H; [done|]. by apply IH, H. Qed.

Lemma depth_ok_mono cs cs' stk :
  (forall f c, f ∈ stk -> cs !! idx f = Some c -> exists c', cs' !! idx f = Some c' /\ Depth c' = Depth c) ->
  depth_ok cs stk -> depth_ok cs' stk.
Proof.
  intros H. induction stk as [|f stk IH]; [done|]. intros [(c & Hc & Hd) Hr]. split.
  - destruct (H f c) as (c' & ? & ?); [left|done|]. exists c'. split; [done|lia].
  - apply IH; [|done]. intros. apply H; [by right|done].
Qed.

Lemma wf_append a kind name index args results has marked :
  wf a -> wf (append_crossing a kind name index args results has marked) /\
  extends a (append_crossing a kind name index args results has marked).
Proof.
  intros [Hseq Hs Hd (He1 & He2 & He3)]. split; [split|]; cbn.
  - intros i c Hi. apply lookup_app_Some in Hi as [Hi|[Hl Hi]]; [by apply Hseq|].
    apply list_lookup_singleton_Some in Hi as [E <-]. cbn. unfold len. lia.
  - rewrite length_app. destruct (stack a); [done|]. cbn in *. destruct Hs. split; [lia|done].
  - eapply depth_ok_mono; [|done]. intros f c _ Hf. exists c. split; [|done].
    by apply lookup_app_l_Some.
  - split; [done|]. cbn. split; [rewrite length_app; lia|done].
  - split; [by exists []; rewrite app_nil_r|]. split; [done|]. cbn. by rewrite take_app_le.
Qed.

Lemma move_wf a a' : move a a' -> wf a -> wf a' /\ extends a a'.
Proof.
  intros Hm Hwf. destruct Hm as [a a' Ec Es Eg Ee|a stk popped Es|a kind name index args results has marked
    |a kind name index args results has marked label|a f g Hf Hg|a].
  - destruct Hwf as [Hseq Hs Hd (He1 & He2 & He3)]. split; [split|].
    + by rewrite Ec.
    + by rewrite Ec, Es, Eg.
    + by rewrite Ec, Es.
    + split; [|split]; rewrite ?Ec, ?Eg, ?Ee; done.
    + split; [exists []; by rewrite Ee, app_nil_r|]. rewrite Ec, Eg. done.
  - destruct Hwf as [Hseq Hs Hd He]. rewrite Es in Hs, Hd. split; [split|]; cbn; [done|..].
    + by eapply stack_ok_app.
    + by eapply depth_ok_app.
    + done.
    + split; [by exists []; rewrite app_nil_r|done].
  - by apply wf_append.
  - destruct (wf_append a kind name index args results has marked Hwf) as [[Hseq Hs Hd He] Hx].
    cbn in *. split; [split|]; cbn; [done|..|done|done].
    + rewrite length_app in *. cbn in *. split; [split; [|lia]|].
      * destruct Hwf as [_ _ _ (_ & H & _)]. lia.
      * pose proof (wf_stack _ Hwf) as H.
        replace (length (crossings a) + 1 - 1)%nat with (length (crossings a)) by lia. exact H.
    + split; [|done]. rewrite length_app. cbn.
      replace (length (crossings a) + 1 - 1)%nat with (length (crossings a)) by lia.
      eexists. split; [by rewrite list_lookup_middle|]. done.
  - destruct Hwf as [Hseq Hs Hd (He1 & He2 & He3)]. pose proof (stack_ok_elem _ _ _ _ Hs Hf) as Hi.
    split; [split|]; cbn.
    + intros i c Hc. rewrite list_lookup_alter in Hc.
      destruct (decide (idx f = i)) as [->|]; [|by apply Hseq].
      destruct (crossings a !! i) as [c'|] eqn:E; [|done]. cbn in Hc. simplify_eq.
      rewrite (proj1 (Hg c')). by apply Hseq.
    + by rewrite length_alter.
    + eapply depth_ok_mono; [|done]. intros f' c _ Hc. cbn. rewrite list_lookup_alter.
      destruct (decide (idx f = idx f')) as [->|]; rewrite Hc; cbn; eexists;
        (split; [done|]); [apply Hg|done].
    + split; [done|]. cbn. by rewrite length_alter.
    + split; [by exists []; rewrite app_nil_r|]. split; [done|]. cbn.
      rewrite take_alter. case_decide; [lia|done].
  - unfold noteGroupBoundary. destruct (stack a) eqn:Es; [|by split].
    destruct (pending a) eqn:Ep; [by split|].
    destruct (Nat.leb_spec (length (crossings a)) (groupStart a)); [by split|].
    destruct Hwf as [Hseq Hs Hd (He1 & He2 & He3)]. split; [split|]; cbn.
    + done.
    + by rewrite Es.
    + by rewrite Es.
    + split; [|split]; cbn; [by rewrite last_snoc|done|]. intros i e Hi.
      apply lookup_app_Some in Hi as [Hi|[Hl Hi]].
      * pose proof (He3 _ _ Hi) as H'. destruct i as [|j]; [done|].
        apply lookup_lt_Some in Hi. by rewrite lookup_app_l by lia.
      * apply list_lookup_singleton_Some in Hi as [E <-].
        assert (i = length (groupEnds a)) as -> by lia.
        destruct (groupEnds a) as [|e0 l] eqn:Eg; [cbn in *; lia|]. cbn [length].
        rewrite lookup_app_l by (cbn; lia). rewrite last_lookup in He1. cbn in He1.
        unfold lookup in *. rewrite <-He1. lia.
    + split; [by eexists|]. split; [cbn; lia|done].
Qed.

Lemma moves_wf a a' : rtc move a a' -> wf a -> wf a' /\ extends a a'.
Proof.
  induction 1 as [a|a b c Hab _ IH]; intros H; [by split|].
  destruct (move_wf _ _ Hab H) as [Hb Hx]. destruct (IH Hb) as [Hc Hy].
  split; [done|]. by transitivity b.
Qed.

Lemma wf_new : wf newAssembler.
Proof. split; cbn; [done|done|done|]. split; [done|]. split; [done|]. done. Qed.

(** *** Operations are sequences of moves *)
Definition by_moves (a : assembler) (r : result asm_err assembler) : Prop :=
  match r with Ok a' => rtc move a a' | Err e => e <> Panic end.

Lemma by_moves_bind a r k :
  wf a -> by_moves a r -> (forall b, wf b -> by_moves b (k b)) ->
  by_moves a (let! b := r in k b).
Proof.
  intros Hwf Hr Hk. destruct r as [b|]; [|done]. cbn in Hr.
  specialize (Hk b (proj1 (moves_wf _ _ Hr Hwf))).
  destruct (k b) as [c|]; [|done]. cbn in *. by etransitivity.
Qed.

Lemma by_moves_refl a : by_moves a (Ok a).
Proof. apply rtc_refl. Qed.
#[local] Hint Resolve by_moves_refl : core.

Lemma by_moves_move a a' : move a a' -> by_moves a (Ok a').
Proof. apply rtc_once. Qed.

Lemma by_moves_then a b r : move a b -> by_moves b r -> by_moves a r.
Proof. intros H. destruct r; [|done]. cbn. by apply rtc_l. Qed.

Lemma frame_crossing a f :
  wf a -> f ∈ stack a -> exists c, crossing_at a (idx f) = Ok c /\ crossings a !! idx f = Some c.
Proof.
  intros Hwf Hf. pose proof (stack_ok_elem _ _ _ _ (wf_stack _ Hwf) Hf) as [_ Hi].
  unfold crossing_at. apply lookup_lt_is_Some_2 in Hi as [c ->]. eauto.
Qed.

Ltac quiet := by apply by_moves_move, MoveQuiet.

Lemma closeDangling_loop_suffix cs keep force stk :
  (forall f, f ∈ stk -> is_Some (cs !! idx f)) ->
  exists popped stk', closeDangling_loop cs keep force stk = Ok stk' /\ stk = popped ++ stk'.
Proof.
  induction stk as [|f stk IH]; intros H; [by exists [], []|]. cbn.
  destruct (H f) as [c ->]; [left|].
  repeat case_match; try (by exists [], (f :: stk)).
  destruct IH as (popped & stk' & -> & ->); [intros; apply H; by right|].
  by exists (f :: popped), stk'.
Qed.

Lemma closeDanglingImports_moves a keep force : wf a -> by_moves a (closeDanglingImports a keep force).
Proof.
  intros Hwf. unfold closeDanglingImports.
  destruct (closeDangling_loop_suffix (crossings a) keep force (stack a)) as (popped & stk' & -> & E).
  - intros f Hf. destruct (frame_crossing a f Hwf Hf) as (c & _ & ->). eauto.
  - by eapply by_moves_move, MovePop.
Qed.

Lemma pop_frame_move a f rest : stack a = f :: rest -> move a (pop_frame a).
Proof. intros E. unfold pop_frame. rewrite E. by apply (MovePop _ _ [f]). Qed.

Lemma closeRun_arg_moves a run i : wf a -> by_moves a (closeRun_arg a run i).
Proof.
  intros Hwf. unfold closeRun_arg. destruct i; [by apply by_moves_move, MoveOpen|].
  destruct (stack a) as [|f rest] eqn:Es; [done|]. case_match; [done|].
  destruct (frame_crossing a f Hwf) as (c & -> & _); [rewrite Es; left|].
  apply by_moves_move, MoveUpdate; [rewrite Es; left|done].
Qed.

Lemma closeRun_ret_moves a run i : wf a -> by_moves a (closeRun_ret a run i).
Proof.
  intros Hwf. unfold closeRun_ret.
  assert (by_moves a (match i with
    | Some index => Ok (append_crossing a CrossingImport [] index [] (rvalues run) true false)
    | None => Err (ErrRetRun (rlabel run)) end)) as Ho.
  { destruct i; [|done]. apply by_moves_move, MoveAppend. }
  destruct (stack a) as [|f rest] eqn:Es; [done|]. case_bool_decide; [|done].
  destruct (frame_crossing a f Hwf) as (c & -> & _); [rewrite Es; left|].
  assert (move a (update_crossing a (idx f) (set_results (rvalues run)))) as Hu
    by (apply MoveUpdate; [rewrite Es; left|done]).
  destruct (_ && _); [|by apply by_moves_move].
  eapply by_moves_then; [done|]. by eapply by_moves_move, pop_frame_move.
Qed.

Lemma closeRun_moves a : wf a -> by_moves a (closeRun a).
Proof.
  intros Hwf. unfold closeRun. destruct (pending a) as [run|]; [|done].
  assert (move a (with_pending a None)) as Hm by by apply MoveQuiet.
  eapply by_moves_then; [done|]. destruct (move_wf _ _ Hm Hwf) as [Hw _].
  apply by_moves_bind; [done|by apply closeDanglingImports_moves|].
  intros b Hb. destruct (rrole run); [by apply closeRun_arg_moves|by apply closeRun_ret_moves].
Qed.

Lemma openMarkedImport_moves a index : wf a -> by_moves a (openMarkedImport a index).
Proof.
  intros Hwf. unfold openMarkedImport.
  destruct (stack a) as [|f rest] eqn:Es; [by apply by_moves_move, MoveOpen|].
  destruct (frame_crossing a f Hwf) as (c & -> & _); [rewrite Es; left|].
  case_match; [|by apply by_moves_move, MoveOpen].
  apply by_moves_move, MoveUpdate; [rewrite Es; left|done].
Qed.

Lemma closeMarkedImport_moves a index : wf a -> by_moves a (closeMarkedImport a index).
Proof.
  intros Hwf. unfold closeMarkedImport. destruct (stack a) as [|f rest] eqn:Es; [done|].
  destruct (frame_crossing a f Hwf) as (c & -> & _); [rewrite Es; left|].
  case_match; [|done]. by eapply by_moves_move, pop_frame_move.
Qed.

Section push_moves.
Variable ParseFloat : gostring -> option Z.

Lemma pushEvent_moves a ev : wf a -> by_moves a (pushEvent ParseFloat a ev).
Proof.
  intros Hwf. unfold pushEvent. apply by_moves_bind; [done|by apply closeRun_moves|].
  intros b Hb. destruct ev as [v|]; [|done].
  destruct (parseHostStateMarker v) as [[m|]|]; cbn [map_err]; [..|done].
  - destruct (foldHostStateMarker _ _ _); cbn [map_err]; [|done]. quiet.
  - destruct (parseRealmMarker v) as [m|]; [|done]. case_bool_decide; [done|].
    assert (move b (with_sawImportMarker b true)) as Hm by by apply MoveQuiet.
    destruct (move_wf _ _ Hm Hb) as [Hw _]. eapply by_moves_then; [done|].
    destruct (enter m); [by apply openMarkedImport_moves|by apply closeMarkedImport_moves].
Qed.

Lemma pushValue_moves a r : wf a -> by_moves a (pushValue a r).
Proof.
  intros Hwf. unfold pushValue. destruct (_ !! _) as [name|]; [|done].
  destruct (parseBindingName name) as [[[label ro] slot]|]; [|by apply closeRun_moves].
  destruct (match RValue r with Some v => _ | None => _ end); [|done].
  apply by_moves_bind; [done|..].
  - destruct (pending a); [|done]. case_match; [by apply closeRun_moves|done].
  - intros b Hb. case_match; [done|]. quiet.
Qed.

Lemma push_moves a ev : wf a -> by_moves a (push ParseFloat a ev).
Proof.
  intros Hwf. unfold push. apply by_moves_bind; [done|..].
  2: { intros b Hb. apply by_moves_move, MoveNote. }
  destruct (EvFunction ev).
  { apply by_moves_bind; [done|by apply closeRun_moves|]. intros; quiet. }
  destruct (EvVariableName ev); [quiet|].
  destruct (EvValue ev); [by apply pushValue_moves|].
  destruct (EvCall ev).
  { apply by_moves_bind; [done|by apply closeRun_moves|]. intros b Hb.
    destruct (_ !! _); [|done]. apply by_moves_move, MoveOpen. }
  destruct (EvEvent ev); [by apply pushEvent_moves|].
  destruct (EvReturn ev).
  { apply by_moves_bind; [done|by apply closeRun_moves|]. intros b Hb.
    apply by_moves_bind; [done|by apply closeDanglingImports_moves|]. intros d Hd.
    destruct (stack d) as [|f rest] eqn:Es; [done|].
    destruct (frame_crossing d f Hd) as (c & -> & _); [rewrite Es; left|].
    case_match; [done|]. by eapply by_moves_move, pop_frame_move. }
  destruct (EvPath ev), (EvStep ev); done || by apply closeRun_moves.
Qed.

Lemma foldm_push_moves evs a : wf a -> by_moves a (foldm (push ParseFloat) a evs).
Proof.
  revert a. induction evs as [|ev evs IH]; intros a Hwf; cbn [foldm]; [done|].
  apply by_moves_bind; [done|by apply push_moves|done].
Qed.

Lemma finish_moves a : wf a -> by_moves a (finish a).
Proof.
  intros Hwf. unfold finish. apply by_moves_bind; [done|by apply closeRun_moves|]. intros b Hb.
  apply by_moves_bind; [done|by apply closeDanglingImports_moves|]. intros d Hd.
  destruct (stack d); [|done]. apply by_moves_move, MoveNote.
Qed.

End push_moves.

(** *** Groups *)
Definition group_bound (a : assembler) (k : nat) : nat :=
  match k with O => O | S j => default O (groupEnds a !! j) end.

Lemma group_bound_mono a k n :
  wf a -> (k <= n <= groups a)%nat -> (group_bound a k <= group_bound a n)%nat.
Proof.
  intros Hwf [Hkn Hn]. destruct (wf_ends _ Hwf) as (_ & _ & H3).
  revert Hn. induction Hkn as [|n Hkn IH]; intros Hn; [done|]. unfold groups in *.
  specialize (IH ltac:(lia)).
  destruct (lookup_lt_is_Some_2 (groupEnds a) n) as [e He]; [lia|].
  specialize (H3 _ _ He). cbn [group_bound]. rewrite He. cbn.
  fold (group_bound a n) in H3. lia.
Qed.

Lemma group_bound_last a : wf a -> group_bound a (groups a) = groupStart a.
Proof.
  intros Hwf. destruct (wf_ends _ Hwf) as (-> & _). unfold groups, group_bound.
  rewrite last_lookup. by destruct (groupEnds a).
Qed.

Lemma group_sub a i :
  (i < groups a)%nat ->
  group a i = sub (crossings a) (group_bound a i) (group_bound a (S i) - group_bound a i).
Proof. done. Qed.

Lemma group_concat a k :
  wf a -> (k <= groups a)%nat ->
  concat (group a <$> seq 0 k) = take (group_bound a k) (crossings a).
Proof.
  intros Hwf. induction k as [|k IH]; intros Hk; [done|].
  rewrite seq_S, fmap_app, concat_app, IH by lia. cbn [fmap list_fmap concat plus].
  rewrite app_nil_r, group_sub by lia. unfold sub.
  pose proof (group_bound_mono a k (S k) Hwf ltac:(lia)) as Hm.
  replace (group_bound a (S k)) with
    (group_bound a k + (group_bound a (S k) - group_bound a k))%nat at 2 by lia.
  by rewrite take_take_drop.
Qed.

Lemma extends_group a a' i :
  wf a -> extends a a' -> (i < groups a)%nat -> group a' i = group a i.
Proof.
  intros Hwf ([more E] & Hs & Ht) Hi.
  assert (forall k, (k <= groups a)%nat -> group_bound a' k = group_bound a k) as Hb.
  { intros [|k] Hk; [done|]. cbn. unfold groups in Hk. by rewrite E, lookup_app_l by lia. }
  unfold groups in Hi. rewrite !group_sub by (unfold groups; rewrite ?E, ?length_app; lia).
  rewrite !Hb by (unfold groups; lia). unfold sub.
  pose proof (group_bound_mono a (S i) (groups a) Hwf ltac:(unfold groups; lia)) as H1.
  pose proof (group_bound_mono a i (S i) Hwf ltac:(unfold groups; lia)) as H0.
  rewrite group_bound_last in H1 by done.
  rewrite !take_drop_commute.
  replace (group_bound a i + (group_bound a (S i) - group_bound a i))%nat
    with (group_bound a (S i)) by lia.
  f_equal. rewrite <-(Nat.min_l (group_bound a (S i)) (groupStart a)) by lia.
  by rewrite <-!take_take, Ht.
Qed.

Lemma closeDanglingImports_pending a keep force b :
  closeDanglingImports a keep force = Ok b -> pending b = pending a.
Proof. unfold closeDanglingImports. intros H. by okall. Qed.

Lemma closeRun_pending a b : closeRun a = Ok b -> pending b = None.
Proof.
  unfold closeRun. destruct (pending a) as [run|] eqn:Ep; [|intros [= <-]; done].
  destruct (closeDanglingImports _ _ _) as [d|] eqn:Ed; [|done].
  apply closeDanglingImports_pending in Ed. cbn in Ed.
  unfold closeRun_arg, closeRun_ret. intros H.
  repeat (case_match; simplify_eq); done.
Qed.

(** An accepted end of input leaves no frame and no crossing outside a group. *)
Lemma assembler_finished a b :
  wf a -> finish a = Ok b -> stack b = [] /\ length (crossings b) = groupStart b.
Proof.
  intros Hwf. unfold finish. destruct (closeRun a) as [c|] eqn:Ec; [|done].
  pose proof (closeRun_moves a Hwf) as Hm. rewrite Ec in Hm. cbn in Hm.
  apply moves_wf in Hm as [Hwc _]; [|done].
  pose proof (closeDanglingImports_moves c [] true Hwc) as Hm2.
  destruct (closeDanglingImports c [] true) as [d|] eqn:Ed; [|done].
  apply moves_wf in Hm2 as [Hwd _]; [|done].
  assert (pending d = None) as Hp.
  { rewrite (closeDanglingImports_pending _ _ _ _ Ed). by eapply closeRun_pending. }
  destruct (stack d) eqn:Es; [|done]. intros [= <-]. unfold noteGroupBoundary. rewrite Es, Hp.
  destruct (Nat.leb_spec (length (crossings d)) (groupStart d)); [|done].
  split; [done|]. destruct (wf_ends _ Hwd) as (_ & ? & _). lia.
Qed.

(** ** Properties *)

(** C5: whatever records arrive, the machine never indexes a crossing
    that does not exist, every crossing's [Seq] is its position and every open
    frame's crossing has the depth of its frame; when the end of input is
    accepted no frame is open and the call groups partition the crossings. *)
Theorem assembler_invariant ParseFloat events :
  match foldm (push ParseFloat) newAssembler events with
  | Err e => e <> Panic
  | Ok a =>
      wf a /\
      match finish a with
      | Err e => e <> Panic
      | Ok b => wf b /\ stack b = [] /\ concat (group b <$> seq 0 (groups b)) = crossings b
      end
  end.
Proof.
  pose proof (foldm_push_moves ParseFloat events newAssembler wf_new) as H.
  destruct (foldm _ _ _) as [a|]; [|done]. cbn in H.
  apply moves_wf in H as [Hwf _]; [|apply wf_new]. split; [done|].
  pose proof (finish_moves a Hwf) as Hf. destruct (finish a) as [b|] eqn:E; [|done]. cbn in Hf.
  apply moves_wf in Hf as [Hwb _]; [|done].
  destruct (assembler_finished a b Hwf E) as [Hs Hg].
  split; [done|]. split; [done|].
  rewrite group_concat, group_bound_last, <-Hg by done. apply take_ge. lia.
Qed.

(** C6: a call group, once complete, is final: the streaming reader
    that hands group [i] out after a prefix of the records sees the same
    crossings as a batch reader that looks after all of them. *)
Theorem completed_group_stable ParseFloat seen later a b c i :
  foldm (push ParseFloat) newAssembler seen = Ok a ->
  foldm (push ParseFloat) newAssembler (seen ++ later) = Ok b ->
  finish b = Ok c -> (i < groups a)%nat ->
  group b i = group a i /\ group c i = group a i.
Proof.
  intros Ha Hb Hc Hi. rewrite foldm_app, Ha in Hb.
  pose proof (foldm_push_moves ParseFloat seen newAssembler wf_new) as Ma. rewrite Ha in Ma.
  apply moves_wf in Ma as [Wa _]; [|apply wf_new].
  pose proof (foldm_push_moves ParseFloat later a Wa) as Mb. rewrite Hb in Mb.
  apply moves_wf in Mb as [Wb Xb]; [|done].
  pose proof (finish_moves b Wb) as Mc. rewrite Hc in Mc.
  apply moves_wf in Mc as [Wc Xc]; [|done].
  split; apply extends_group; try done. by transitivity b.
Qed.

(** Two calls of one export; the first is complete after three records. *)
Definition two_calls : list traceEvent :=
  let ev f c r := {| EvPath := None; EvStep := None; EvFunction := f; EvCall := c; EvReturn := r;
                     EvValue := None; EvVariableName := None; EvEvent := None |} in
  let fn := ev (Some {| FName := $"f"; PathID := 0; Line := 1 |}) None None in
  let call := ev None (Some {| FunctionID := 0; CallArgs := None |}) None in
  let ret := ev None None (Some {| ReturnValue := None |}) in
  [fn; call; ret; call; ret].

Definition state_after (evs : list traceEvent) : assembler :=
  match foldm (push (fun _ => None)) newAssembler evs with Ok a => a | Err _ => newAssembler end.
Definition after_first : assembler := Eval vm_compute in state_after (take 3 two_calls).
Definition after_both : assembler := Eval vm_compute in state_after two_calls.

Lemma completed_group_stable_witness :
  finish after_both = Ok after_both /\ groups after_first = 1%nat /\ groups after_both = 2%nat /\
  group after_both 0 = group after_first 0.
Proof.
  split; [reflexivity|]. split; [reflexivity|]. split; [reflexivity|].
  apply (completed_group_stable (fun _ => None) (take 3 two_calls) (drop 3 two_calls)
    after_first after_both after_both 0).
  - vm_compute. reflexivity.
  - vm_compute. reflexivity.
  - vm_compute. reflexivity.
  - vm_compute. lia.
Defined.

(** *** Host state along the stream *)

(** The host-state record an event of the stream carries, if it is one. *)
Definition event_marker (ev : traceEvent) : option hostStateMarker :=
  match EvFunction ev, EvVariableName ev, EvValue ev, EvCall ev, EvEvent ev with
  | None, None, None, None, Some (Some v) =>
      match parseHostStateMarker v with Ok (Some m) => Some m | _ => None end
  | _, _, _, _, _ => None
  end.

Lemma closeDanglingImports_hostState a keep force b :
  closeDanglingImports a keep force = Ok b -> hostState b = hostState a.
Proof. unfold closeDanglingImports. intros H. by okall. Qed.

Lemma closeRun_hostState a b : closeRun a = Ok b -> hostState b = hostState a.
Proof.
  unfold closeRun. destruct (pending a) as [run|] eqn:Ep; [|by intros [= <-]].
  destruct (closeDanglingImports _ _ _) as [d|] eqn:Ed; [|done].
  apply closeDanglingImports_hostState in Ed. cbn in Ed. rewrite <-Ed.
  unfold closeRun_arg, closeRun_ret. intros H. repeat (case_match; simplify_eq); done.
Qed.

Lemma noteGroupBoundary_hostState a : hostState (noteGroupBoundary a) = hostState a.
Proof. unfold noteGroupBoundary. by repeat case_match. Qed.

Section host_state_stream.
Variable ParseFloat : gostring -> option Z.

Lemma pushEvent_hostState a v b :
  pushEvent ParseFloat a (Some v) = Ok b ->
  match parseHostStateMarker v with
  | Ok (Some m) => fold_marker ParseFloat (hostState a) m = Ok (hostState b)
  | _ => hostState b = hostState a
  end.
Proof.
  unfold pushEvent. destruct (closeRun a) as [c|] eqn:Ec; [|done].
  apply closeRun_hostState in Ec. destruct (parseHostStateMarker v) as [[m|]|]; cbn [map_err]; [..|done].
  - unfold fold_marker. rewrite <-Ec. destruct (foldHostStateMarker _ _ _); [|done].
    cbn. by intros [= <-].
  - rewrite <-Ec. unfold openMarkedImport, closeMarkedImport. intros H.
    repeat (case_match; simplify_eq); done.
Qed.

Lemma push_hostState a ev b :
  push ParseFloat a ev = Ok b ->
  match event_marker ev with
  | Some m => fold_marker ParseFloat (hostState a) m = Ok (hostState b)
  | None => hostState b = hostState a
  end.
Proof.
  unfold push, event_marker. intros H.
  match type of H with (let! a := ?m in _) = _ => destruct m as [c|] eqn:E; [|done] end.
  injection H as <-. rewrite noteGroupBoundary_hostState.
  destruct (EvFunction ev).
  { destruct (closeRun a) eqn:Ec; [|done]. apply closeRun_hostState in Ec. by simplify_eq. }
  destruct (EvVariableName ev); [by simplify_eq|].
  destruct (EvValue ev) as [r|].
  { revert E. unfold pushValue. destruct (_ !! _); [|done].
    destruct (parseBindingName _) as [[[]]|]; [|apply closeRun_hostState].
    destruct (match RValue r with Some v => _ | None => _ end); [|done].
    match goal with |- (let! _ := ?m in _) = _ -> _ => destruct m as [d|] eqn:Ed; [|done] end.
    assert (hostState d = hostState a) as <-.
    { destruct (pending a); [|by simplify_eq].
      case_match; [by apply closeRun_hostState|by simplify_eq]. }
    destruct (negb _); [done|]. by intros [= <-]. }
  destruct (EvCall ev).
  { revert E. unfold pushCall. destruct (closeRun a) eqn:Ec; [|done].
    apply closeRun_hostState in Ec. destruct (_ !! _); [|done]. by intros [= <-]. }
  destruct (EvEvent ev) as [[v|]|].
  { apply pushEvent_hostState in E. by destruct (parseHostStateMarker v) as [[]|]. }
  { revert E. unfold pushEvent. destruct (closeRun a) eqn:Ec; [|done].
    apply closeRun_hostState in Ec. by intros [= <-]. }
  destruct (EvReturn ev).
  { revert E. unfold pushReturn. destruct (closeRun a) eqn:Ec; [|done].
    apply closeRun_hostState in Ec. destruct (closeDanglingImports _ _ _) eqn:Ed; [|done].
    apply closeDanglingImports_hostState in Ed. rewrite <-Ec, <-Ed. intros H.
    repeat (case_match; simplify_eq); done. }
  destruct (EvPath ev), (EvStep ev); try (by simplify_eq); by apply closeRun_hostState in E.
Qed.

Lemma foldm_push_hostState evs a b :
  foldm (push ParseFloat) a evs = Ok b ->
  foldm (fold_marker ParseFloat) (hostState a) (omap event_marker evs) = Ok (hostState b).
Proof.
  revert a. induction evs as [|ev evs IH]; intros a; cbn [foldm omap list_omap]; [by intros [= <-]|].
  destruct (push ParseFloat a ev) as [c|] eqn:E; [|done]. apply push_hostState in E. intros H.
  apply IH in H. destruct (event_marker ev) as [m|]; [|by rewrite <-E].
  cbn [foldm]. by rewrite E.
Qed.

Lemma event_markers_ok evs : Forall marker_ok (omap event_marker evs).
Proof.
  induction evs as [|ev evs IH]; cbn; [constructor|].
  destruct (event_marker ev) as [m|] eqn:E; [|done]. constructor; [|done].
  revert E. unfold event_marker. intros E. repeat (case_match; simplify_eq).
  by eapply parseHostStateMarker_ok.
Qed.

End host_state_stream.

(** C20: the host state a recording's event stream yields depends only
    on its host-state records, wherever they fall among the crossings: it is
    the first initial record's state and all mutations in order, and it is
    valid, so every mutated global is declared mutable and every byte region
    decodes. *)
Theorem streamed_host_state ParseFloat events cs marked hs :
  reconstructCrossings ParseFloat events = Ok (cs, marked, hs) ->
  let ms := omap event_marker events in
  match hs with
  | None => ms = []
  | Some s => validate ParseFloat s = Ok tt /\
      Initial s = default zero_initial (first_initial ms) /\
      elems (Mutations s) = all_mutations ms
  end.
Proof.
  unfold reconstructCrossings. intros H. cbn.
  destruct (foldm _ _ _) as [a|] eqn:Ea; [|done]. destruct (finish a) as [b|] eqn:Eb; [|done].
  injection H as <- <- <-. apply foldm_push_hostState in Ea.
  assert (hostState b = hostState a) as ->.
  { revert Eb. unfold finish. destruct (closeRun a) eqn:Ec; [|done].
    apply closeRun_hostState in Ec. destruct (closeDanglingImports _ _ _) eqn:Ed; [|done].
    apply closeDanglingImports_hostState in Ed. rewrite <-Ec, <-Ed.
    destruct (stack _); [|done]. intros [= <-]. apply noteGroupBoundary_hostState. }
  pose proof (event_markers_ok events) as Hok. cbn [hostState newAssembler] in Ea.
  destruct (omap event_marker events) as [|m ms] eqn:Em.
  { cbn in Ea. injection Ea as Ea. by rewrite <-Ea. }
  set (s0 := {| Version := hostStateVersion; Initial := zero_initial; Mutations := None;
                initialSeen := false |}).
  change (foldm (fold_marker ParseFloat) (Some s0) (m :: ms) = Ok (hostState a)) in Ea.
  apply fold_marker_state in Ea as (s & -> & ? & Hi & Hmu); [|done|done]. done.
Qed.

(** A stream that announces a mutable global and then, inside an import, the
    host's assignment to it. *)
Definition host_event (members : list (gostring * json)) : traceEvent :=
  {| EvPath := None; EvStep := None; EvFunction := None; EvCall := None; EvReturn := None;
     EvValue := None; EvVariableName := None;
     EvEvent := Some (Some (JObj [($"kind", JNum ($"12"));
       ($"metadata", JStr (print_json (JObj (($"boundary_id", JStr hostStateBoundary) ::
                                             ($"version", JNum ($"1")) :: members))))])) |}.
Definition example_stream : list traceEvent :=
  [host_event [($"record", JStr ($"initial"));
     ($"initial", JObj [($"globals", JArr [JObj [($"module", JStr ($"env")); ($"name", JStr ($"g"));
        ($"type", JStr ($"i32")); ($"mutable", JBool true); ($"value", JStr ($"5"))]])])];
   host_event [($"record", JStr ($"mutation"));
     ($"mutation", JObj [($"afterCrossing", JNum ($"3")); ($"globalSets", JArr [JObj
        [($"module", JStr ($"env")); ($"name", JStr ($"g")); ($"type", JStr ($"i32"));
         ($"value", JStr ($"-1"))]])])]].

Lemma streamed_host_state_witness :
  match reconstructCrossings (fun _ => None) example_stream with
  | Ok (_, _, Some s) => AfterCrossing <$> elems (Mutations s) = [3]
  | _ => False
  end.
Proof.
  destruct (reconstructCrossings (fun _ => None) example_stream) as [[[cs m] hs]|] eqn:E;
    [|vm_compute in E; discriminate E].
  pose proof (streamed_host_state _ _ _ _ _ E) as H. cbv zeta in H.
  destruct hs as [s|]; [|vm_compute in H; discriminate H].
  destruct H as (_ & _ & ->). vm_compute. reflexivity.
Defined.

End Assembler.
