(* ===== verification/Render.v ===== *)
(** * The producer's rendering and the assembler as its inverse

    [recording.go] documents how the browser producer renders boundary
    crossings into trace records.  Here those rules are an executable rendering
    of call trees, and the theorem that [reconstructCrossings] inverts it: every
    crossing comes back in call order with its depth, arguments and results, and
    the call groups are the top-level calls. *)
From S2P Require Import Prelude GoStd Json Values Recording HostState Assembler.

Module Render.
Import GoStd Json Values Recording HostState Assembler.

(** ** Call trees *)
Inductive node : Type :=
| Noise (ev : traceEvent)
| NExport (fid : nat) (name : gostring) (args rets : list rawValue) (body : list node)
| NImport (index : Z) (args rets : list rawValue) (body : list node).

Section node_ind.
Variable P : node -> Prop.
Hypothesis Hnoise : forall ev, P (Noise ev).
Hypothesis Hexport : forall fid name args rets body, Forall P body -> P (NExport fid name args rets body).
Hypothesis Himport : forall index args rets body, Forall P body -> P (NImport index args rets body).

Fixpoint node_induction (n : node) : P n :=
  let fix all (ns : list node) : Forall P ns :=
    match ns with
    | [] => Forall_nil_2 P
    | n :: ns => Forall_cons_2 P n ns (node_induction n) (all ns)
    end in
  match n with
  | Noise ev => Hnoise ev
  | NExport fid name args rets body => Hexport fid name args rets body (all body)
  | NImport index args rets body => Himport index args rets body (all body)
  end.
End node_ind.

(** Concatenate what a function produces along a list, threading a counter. *)
Section thread.
Context {A B : Type}.
Variable f : nat -> A -> list B * nat.
Fixpoint thread (s : nat) (xs : list A) : list B * nat :=
  match xs with
  | [] => ([], s)
  | x :: xs =>
      let '(y, s1) := f s x in
      let '(ys, s2) := thread s1 xs in
      (y ++ ys, s2)
  end.
End thread.

(** ** Rendering *)
Definition ev_step : traceEvent :=
  {| EvPath := None; EvStep := Some (Some JNull); EvFunction := None; EvCall := None;
     EvReturn := None; EvValue := None; EvVariableName := None; EvEvent := None |}.
Definition ev_function (f : functionRecord) : traceEvent :=
  {| EvPath := None; EvStep := None; EvFunction := Some f; EvCall := None;
     EvReturn := None; EvValue := None; EvVariableName := None; EvEvent := None |}.
Definition ev_call (fid : nat) : traceEvent :=
  {| EvPath := None; EvStep := None; EvFunction := None;
     EvCall := Some {| FunctionID := Z.of_nat fid; CallArgs := Some [] |};
     EvReturn := None; EvValue := None; EvVariableName := None; EvEvent := None |}.
Definition ev_return : traceEvent :=
  {| EvPath := None; EvStep := None; EvFunction := None; EvCall := None;
     EvReturn := Some {| ReturnValue := None |}; EvValue := None; EvVariableName := None;
     EvEvent := None |}.
Definition ev_event (v : json) : traceEvent :=
  {| EvPath := None; EvStep := None; EvFunction := None; EvCall := None; EvReturn := None;
     EvValue := None; EvVariableName := None; EvEvent := Some (Some v) |}.
Definition ev_name (name : gostring) : traceEvent :=
  {| EvPath := None; EvStep := None; EvFunction := None; EvCall := None; EvReturn := None;
     EvValue := None; EvVariableName := Some name; EvEvent := None |}.
Definition ev_value (id : nat) (v : json) : traceEvent :=
  {| EvPath := None; EvStep := None; EvFunction := None; EvCall := None; EvReturn := None;
     EvValue := Some {| VariableID := Z.of_nat id; RValue := Some v |};
     EvVariableName := None; EvEvent := None |}.

(** [ValueRecordOnDisk]: the payload field depends on the kind. *)
Definition payload_field (kind : gostring) : gostring :=
  if decide (kind = $"Int") then $"i" else if decide (kind = $"Float") then $"f"
  else if decide (kind = $"Raw") then $"r" else $"text".
Definition disk_value (r : rawValue) : json :=
  JObj [($"kind", JStr (Kind r)); (payload_field (Kind r), JStr (Text r))].
Definition recordable (r : rawValue) : Prop :=
  Kind r = $"Int" \/ Kind r = $"Float" \/ Kind r = $"Raw" \/ Kind r = $"String".

(** A run: one [Step], then a [VariableName] and a [Value] per slot; [k]
    variable names have been emitted before it. *)
Fixpoint emit_slots (label : gostring) (r : role) (slot : Z) (k : nat) (vs : list rawValue)
    : list traceEvent :=
  match vs with
  | [] => []
  | v :: vs =>
      ev_name (boundaryBindingName label r slot) :: ev_value k (disk_value v) ::
      emit_slots label r (slot + 1) (S k) vs
  end.
Definition emit_run (label : gostring) (r : role) (k : nat) (vs : list rawValue)
    : list traceEvent :=
  match vs with [] => [] | _ => ev_step :: emit_slots label r 0 k vs end.

Fixpoint emit (k : nat) (n : node) {struct n} : list traceEvent * nat :=
  match n with
  | Noise ev => ([ev], k)
  | NExport fid name args rets body =>
      let '(inner, k2) := thread emit (k + length args) body in
      (ev_call fid :: emit_run name RArg k args ++ inner ++ emit_run name RRet k2 rets ++ [ev_return],
       k2 + length rets)%nat
  | NImport index args rets body =>
      let '(inner, k2) := thread emit (k + length args) body in
      (emit_run (importLabel index) RArg k args ++
       ev_event (marker_event CrossingImport index true) :: inner ++
       emit_run (importLabel index) RRet k2 rets ++
       [ev_event (marker_event CrossingImport index false)], k2 + length rets)%nat
  end.

(** ** What the recording means: the crossings in call order *)
Fixpoint flat (d : Z) (s : nat) (n : node) {struct n} : list Crossing * nat :=
  match n with
  | Noise _ => ([], s)
  | NExport _ name args rets body =>
      let '(inner, s2) := thread (flat (d + 1)) (S s) body in
      ({| Seq := Z.of_nat s; Depth := d; CKind := CrossingExport; CName := name; Index := 0;
          Args := args; CResults := rets; hasResults := bool_decide (rets <> []);
          markerBracketed := false |} :: inner, s2)
  | NImport index args rets body =>
      let '(inner, s2) := thread (flat (d + 1)) (S s) body in
      ({| Seq := Z.of_nat s; Depth := d; CKind := CrossingImport; CName := []; Index := index;
          Args := args; CResults := rets; hasResults := bool_decide (rets <> []);
          markerBracketed := true |} :: inner, s2)
  end.

Fixpoint has_import (n : node) : bool :=
  match n with
  | Noise _ => false
  | NExport _ _ _ _ body => existsb has_import body
  | NImport _ _ _ _ => true
  end.

Definition is_call (n : node) : bool := match n with Noise _ => false | _ => true end.

(** One group per top-level call. *)
Fixpoint call_groups (s : nat) (ns : list node) : list (list Crossing) :=
  match ns with
  | [] => []
  | n :: ns =>
      let '(cs, s') := flat 0 s n in
      if is_call n then cs :: call_groups s' ns else call_groups s' ns
  end.

(** ** Well-formed trees *)

(** A record that carries no boundary structure: a path, a step, or an event
    that is neither a host-state record nor an import's marker. *)
Definition neutral (ev : traceEvent) : Prop :=
  EvFunction ev = None /\ EvVariableName ev = None /\ EvValue ev = None /\ EvCall ev = None /\
  (forall v, EvEvent ev = Some (Some v) ->
     parseHostStateMarker v = Ok None /\
     (forall m, parseRealmMarker v = Some m -> mkind m = CrossingExport)) /\
  (EvEvent ev = None -> EvReturn ev = None) /\
  (is_Some (EvEvent ev) \/ is_Some (EvPath ev) \/ is_Some (EvStep ev)).

Section well_formed.
Variable fns : list functionRecord.

Definition tuple_ok (vs : list rawValue) : Prop := Forall recordable vs /\ len vs < 2 ^ 63.

(** Export names are not empty and do not spell an import's label. *)
Fixpoint node_ok (n : node) : Prop :=
  match n with
  | Noise ev => neutral ev
  | NExport fid name args rets body =>
      (exists f, fns !! fid = Some f /\ FName f = name) /\ name <> [] /\
      parseImportLabel name = None /\ tuple_ok args /\ tuple_ok rets /\
      foldr (fun n p => node_ok n /\ p) True body
  | NImport index args rets body =>
      in_u 32 index /\ tuple_ok args /\ tuple_ok rets /\
      foldr (fun n p => node_ok n /\ p) True body
  end.

Lemma nodes_ok ns : foldr (fun n p => node_ok n /\ p) True ns <-> Forall node_ok ns.
Proof. induction ns; cbn; [by split|]. by rewrite Forall_cons, IHns. Qed.

End well_formed.

Lemma Unmarshal_disk_value r :
  recordable r -> exists d, Unmarshal_onDiskValue (disk_value r) = Some d /\ raw d = r.
Proof.
  destruct r as [k t]. unfold recordable. cbn.
  intros [->|[->|[->| ->]]]; eexists; (split; [reflexivity|]); reflexivity.
Qed.

(** ** The assembler on rendered records *)
Section assemble.
Variable ParseFloat : gostring -> option Z.
Variable fns : list functionRecord.
Variable hs : option HostState.

Notation pushes := (foldm (push ParseFloat)).

Definition st vars cs stk pend gs ge saw : assembler :=
  {| functions := fns; varNames := vars; crossings := cs; stack := stk; pending := pend;
     groupStart := gs; groupEnds := ge; sawImportMarker := saw; hostState := hs |}.

(** Computes the fields of a described state. *)
Ltac fields :=
  cbn [functions varNames crossings stack pending groupStart groupEnds sawImportMarker hostState
       with_functions with_varNames with_crossings with_stack with_pending with_groups
       with_sawImportMarker with_hostState st idx olabel rlabel rrole rvalues FunctionID].

(** No import on top of the stack waits to be closed by the next run. *)
Definition calm (cs : list Crossing) (stk : list openCrossing) : Prop :=
  match stk with
  | [] => True
  | f :: _ => exists c, cs !! idx f = Some c /\ (CKind c = CrossingExport \/ markerBracketed c = true)
  end.

(** At the top level every crossing belongs to a completed group. *)
Definition noted (cs : list Crossing) (stk : list openCrossing) (gs : nat) : Prop :=
  stk = [] -> gs = length cs.

Lemma closeDangling_calm cs stk keep :
  calm cs stk -> closeDangling_loop cs keep false stk = Ok stk.
Proof.
  destruct stk as [|f stk]; [done|]. intros (c & Hc & Hk). cbn. rewrite Hc.
  case_bool_decide; [done|]. case_bool_decide; [done|].
  destruct Hk as [Hk| ->]; [|done]. rewrite Hk in *. done.
Qed.

Lemma note_noted vars cs stk pend gs ge saw :
  noted cs stk gs -> noteGroupBoundary (st vars cs stk pend gs ge saw) = st vars cs stk pend gs ge saw.
Proof.
  intros Hn. unfold noteGroupBoundary. cbn. destruct stk; [|done]. destruct pend; [done|].
  specialize (Hn eq_refl). subst gs.
  by rewrite Nat.leb_refl.
Qed.

Lemma note_pending vars cs stk r gs ge saw :
  noteGroupBoundary (st vars cs stk (Some r) gs ge saw) = st vars cs stk (Some r) gs ge saw.
Proof. unfold noteGroupBoundary. cbn. by destruct stk. Qed.

(** A record that delimits runs acts on the state with the run closed. *)
Lemma push_settle a a0 ev :
  closeRun a = Ok a0 ->
  EvVariableName ev = None -> EvValue ev = None ->
  is_Some (EvCall ev) \/ is_Some (EvEvent ev) \/ is_Some (EvReturn ev) \/
  is_Some (EvPath ev) \/ is_Some (EvStep ev) \/ is_Some (EvFunction ev) ->
  push ParseFloat a ev = push ParseFloat a0 ev.
Proof.
  intros Hc Hn Hv Hd.
  assert (closeRun a0 = Ok a0) as H0.
  { unfold closeRun. by rewrite (closeRun_pending _ _ Hc). }
  unfold push. rewrite Hn, Hv. unfold pushCall, pushEvent, pushReturn. rewrite Hc, H0.
  destruct (EvFunction ev); [done|]. destruct (EvCall ev); [done|]. destruct (EvEvent ev); [done|].
  destruct (EvReturn ev); [done|]. destruct (EvPath ev), (EvStep ev); try done.
  destruct Hd as [[? [=]]|[[? [=]]|[[? [=]]|[[? [=]]|[[? [=]]|[? [=]]]]]]].
Qed.

Lemma closeRun_none vars cs stk gs ge saw :
  closeRun (st vars cs stk None gs ge saw) = Ok (st vars cs stk None gs ge saw).
Proof. done. Qed.

(** The slots of a run accumulate into the pending run. *)
Lemma push_slots label r vars cs stk gs ge saw done vs :
  noted cs stk gs -> label <> [] -> Forall recordable vs -> len done + len vs < 2 ^ 63 ->
  (done = [] -> vs <> []) ->
  pushes (st vars cs stk
           (match done with [] => None
            | _ => Some {| rlabel := label; rrole := r; rvalues := done |} end) gs ge saw)
    (emit_slots label r (len done) (length vars) vs) =
  Ok (st (vars ++ imap (fun i _ => boundaryBindingName label r (len done + Z.of_nat i)) vs) cs stk
        (Some {| rlabel := label; rrole := r; rvalues := done ++ vs |}) gs ge saw).
Proof.
  intros Hn Hl Hv. revert vars done. induction Hv as [|v vs Hv _ IH]; intros vars done Hlen Hne.
  { cbn. rewrite !app_nil_r. by destruct done; [destruct (Hne eq_refl)|]. }
  cbn [emit_slots foldm]. rewrite len_cons in Hlen.
  pose proof (len_nonneg done). pose proof (len_nonneg vs).
  set (pend := match done with [] => None | _ => _ end).
  set (name := boundaryBindingName label r (len done)).
  assert (push ParseFloat (st vars cs stk pend gs ge saw) (ev_name name) =
          Ok (st (vars ++ [name]) cs stk pend gs ge saw)) as ->.
  { unfold push. cbn. unfold with_varNames. cbn. f_equal.
    change (noteGroupBoundary (st (vars ++ [name]) cs stk pend gs ge saw) =
            st (vars ++ [name]) cs stk pend gs ge saw).
    by apply note_noted. }
  assert (push ParseFloat (st (vars ++ [name]) cs stk pend gs ge saw) (ev_value (length vars) (disk_value v)) =
          Ok (st (vars ++ [name]) cs stk
                (Some {| rlabel := label; rrole := r; rvalues := done ++ [v] |}) gs ge saw)) as ->.
  { unfold push. cbn [EvFunction EvVariableName EvValue ev_value]. unfold pushValue.
    cbn [VariableID RValue varNames st]. rewrite Nat2Z.id, list_lookup_middle by done.
    unfold name at 1. rewrite parseBindingName_ok by (done || lia).
    destruct (Unmarshal_disk_value v Hv) as (d & -> & Hraw).
    assert ((match pending (st (vars ++ [name]) cs stk pend gs ge saw) with
       | Some run =>
           if negb (bool_decide (rlabel run = label)) || negb (bool_decide (rrole run = r))
              || ((len done =? 0) && (0 <? len (rvalues run)))
           then closeRun (st (vars ++ [name]) cs stk pend gs ge saw)
           else Ok (st (vars ++ [name]) cs stk pend gs ge saw)
       | None => Ok (st (vars ++ [name]) cs stk pend gs ge saw) end) =
       Ok (st (vars ++ [name]) cs stk pend gs ge saw)) as ->.
    { cbn. unfold pend. destruct done as [|x done]; [done|]. cbn [rlabel rrole rvalues].
      rewrite !bool_decide_eq_true_2 by done. cbn [negb orb].
      rewrite len_cons in *. pose proof (len_nonneg done).
      by destruct (Z.eqb_spec (1 + len done) 0); [lia|]. }
    cbn [pending st]. unfold pend. destruct done as [|x done].
    - cbn. rewrite Hraw. f_equal. apply note_pending.
    - cbn [default rvalues rlabel rrole]. rewrite Z.eqb_refl. cbn [negb].
      unfold with_pending. cbn. rewrite Hraw. f_equal. apply note_pending. }
  specialize (IH (vars ++ [name]) (done ++ [v])).
  rewrite len_app, length_app in IH. cbn [length] in IH.
  rewrite len_cons, (len_nil (A := rawValue)), Z.add_0_r, Nat.add_1_r in IH.
  assert (match done ++ [v] with [] => None
    | _ => Some {| rlabel := label; rrole := r; rvalues := done ++ [v] |} end =
    Some {| rlabel := label; rrole := r; rvalues := done ++ [v] |}) as E by by destruct done.
  rewrite E in IH. rewrite IH by (lia || by destruct done).
  rewrite <-!app_assoc. cbn [app imap]. do 2 f_equal.
  rewrite Z.add_0_r. f_equal. f_equal. apply imap_ext. intros i x _. cbn. f_equal. lia.
Qed.

(** What closing a run of [vs] does to a settled state. *)
Definition settle_run (s : assembler) (label : gostring) (r : role) (vs : list rawValue)
    : result asm_err assembler :=
  match vs with
  | [] => Ok s
  | _ => closeRun (with_pending s (Some {| rlabel := label; rrole := r; rvalues := vs |}))
  end.

Definition slot_names (label : gostring) (r : role) (vs : list rawValue) : list gostring :=
  imap (fun i _ => boundaryBindingName label r (Z.of_nat i)) vs.

Lemma push_run a vars cs stk gs ge saw label r vs :
  closeRun a = Ok (st vars cs stk None gs ge saw) -> noted cs stk gs -> label <> [] -> tuple_ok vs ->
  exists a', pushes a (emit_run label r (length vars) vs) = Ok a' /\
    closeRun a' = settle_run (st (vars ++ slot_names label r vs) cs stk None gs ge saw) label r vs.
Proof.
  intros Ha Hn Hl [Hv Hlen]. destruct vs as [|v vs].
  { exists a. split; [done|]. cbn. by rewrite app_nil_r. }
  cbn [emit_run foldm]. rewrite (push_settle _ _ _ Ha) by (done || by eauto 10).
  assert (push ParseFloat (st vars cs stk None gs ge saw) ev_step =
          Ok (st vars cs stk None gs ge saw)) as ->.
  { unfold push. cbn [ev_step EvFunction EvVariableName EvValue EvCall EvEvent EvReturn EvPath EvStep].
    rewrite closeRun_none. f_equal. by apply note_noted. }
  pose proof (push_slots label r vars cs stk gs ge saw [] (v :: vs)) as H.
  change (len (@nil rawValue)) with 0 in H. rewrite H by done.
  eexists. split; [done|]. reflexivity.
Qed.

Lemma alter_last {A} (f : A -> A) l x : alter f (length l) (l ++ [x]) = l ++ [f x].
Proof. rewrite <-(Nat.add_0_r (length l)). by rewrite alter_app_r. Qed.

Lemma alter_middle {A} (f : A -> A) l x k : alter f (length l) (l ++ x :: k) = l ++ f x :: k.
Proof. rewrite <-(Nat.add_0_r (length l)). by rewrite alter_app_r. Qed.

Definition put_results (vs : list rawValue) (c : Crossing) : Crossing :=
  match vs with [] => c | _ => set_results vs c end.
Definition put_args (vs : list rawValue) (c : Crossing) : Crossing :=
  match vs with [] => c | _ => set_args vs c end.

Lemma settle_rets vars cs stk gs ge saw f c label vs :
  calm cs (f :: stk) -> olabel f = label -> cs !! idx f = Some c ->
  markerBracketed c = true \/ parseImportLabel label = None ->
  settle_run (st vars cs (f :: stk) None gs ge saw) label RRet vs =
  Ok (st vars (alter (put_results vs) (idx f) cs) (f :: stk) None gs ge saw).
Proof.
  intros Hcalm Hl Hc Hb. unfold settle_run, put_results. destruct vs as [|v vs].
  { do 2 f_equal. symmetry. rewrite list_alter_id; [done|]. done. }
  unfold closeRun. fields. unfold closeDanglingImports.
  fields. rewrite closeDangling_calm by done.
  unfold closeRun_ret. fields. 
  rewrite Hl, bool_decide_eq_true_2 by done.
  unfold crossing_at. fields. rewrite Hc.
  destruct Hb as [-> | ->]; [|done]. by rewrite andb_false_r.
Qed.

Lemma settle_export_args vars cs stk gs ge saw f c vs :
  cs !! idx f = Some c -> CKind c = CrossingExport -> parseImportLabel (olabel f) = None ->
  settle_run (st vars cs (f :: stk) None gs ge saw) (olabel f) RArg vs =
  Ok (st vars (alter (put_args vs) (idx f) cs) (f :: stk) None gs ge saw).
Proof.
  intros Hc Hk Hp. unfold settle_run, put_args. destruct vs as [|v vs].
  { do 2 f_equal. symmetry. rewrite list_alter_id; [done|]. done. }
  unfold closeRun. fields. unfold closeDanglingImports.
  fields. rewrite closeDangling_calm by (exists c; eauto).
  unfold closeRun_arg. rewrite Hp. fields.
  rewrite bool_decide_eq_true_2 by done. cbn [negb].
  unfold crossing_at. fields. by rewrite Hc.
Qed.

(** The crossing an import's argument run and its [ENTER] marker open together. *)
Definition import_crossing (s : nat) (d : Z) (index : Z) (args : list rawValue) : Crossing :=
  {| Seq := Z.of_nat s; Depth := d; CKind := CrossingImport; CName := []; Index := index;
     Args := args; CResults := []; hasResults := false; markerBracketed := true |}.

Lemma enter_import a vars cs stk gs ge saw index vs :
  closeRun a = settle_run (st vars cs stk None gs ge saw) (importLabel index) RArg vs ->
  calm cs stk -> in_u 32 index ->
  push ParseFloat a (ev_event (marker_event CrossingImport index true)) =
  Ok (st vars (cs ++ [import_crossing (length cs) (len stk) index vs])
        ({| idx := length cs; olabel := importLabel index |} :: stk) None gs ge true).
Proof.
  intros Ha Hcalm Hi. destruct vs as [|v vs].
  - cbn [settle_run] in Ha. rewrite (push_settle _ _ _ Ha) by (done || by eauto 10).
    unfold push. cbn [ev_event EvFunction EvVariableName EvValue EvCall EvEvent].
    unfold pushEvent. rewrite closeRun_none, parseHostStateMarker_realm, parseRealmMarker_event by done.
    cbn [map_err mkind enter mindex]. rewrite bool_decide_eq_false_2 by (intros H; by apply H).
    unfold openMarkedImport. fields.
    assert (push_frame (append_crossing (with_sawImportMarker (st vars cs stk None gs ge saw) true)
        CrossingImport [] index [] [] false true) (importLabel index) =
      st vars (cs ++ [import_crossing (length cs) (len stk) index []])
        ({| idx := length cs; olabel := importLabel index |} :: stk) None gs ge true) as ->.
    { unfold push_frame, append_crossing, st. cbn. rewrite length_app. cbn.
      by rewrite Nat.add_sub. }
    destruct stk as [|f stk]; [done|]. destruct Hcalm as (c & Hc & Hk).
    unfold crossing_at. fields. rewrite Hc.
    assert (bool_decide (CKind c = CrossingImport) && (Index c =? index) &&
            negb (markerBracketed c) = false) as ->; [|done].
    destruct Hk as [-> | ->]; [done|]. by rewrite andb_false_r.
  - set (run := v :: vs) in *. assert (run <> []) as Hne by done.
    assert (settle_run (st vars cs stk None gs ge saw) (importLabel index) RArg run =
      Ok (st vars (cs ++ [{| Seq := len cs; Depth := len stk; CKind := CrossingImport; CName := [];
            Index := index; Args := run; CResults := []; hasResults := false;
            markerBracketed := false |}])
            ({| idx := length cs; olabel := importLabel index |} :: stk) None gs ge saw)) as E.
    { unfold settle_run, run at 1. unfold closeRun. fields.
      unfold closeDanglingImports. fields. rewrite closeDangling_calm by done.
      unfold closeRun_arg. rewrite parseImportLabel_importLabel by done.
      unfold push_frame, append_crossing, st. cbn. rewrite length_app. cbn. by rewrite Nat.add_sub. }
    rewrite E in Ha. rewrite (push_settle _ _ _ Ha) by (done || by eauto 10).
    unfold push. cbn [ev_event EvFunction EvVariableName EvValue EvCall EvEvent].
    unfold pushEvent. rewrite closeRun_none, parseHostStateMarker_realm, parseRealmMarker_event by done.
    cbn [map_err mkind enter mindex]. rewrite bool_decide_eq_false_2 by (intros H; by apply H).
    unfold openMarkedImport. fields.
    unfold crossing_at. fields.
    rewrite list_lookup_middle by done. cbn [CKind Index markerBracketed].
    rewrite bool_decide_eq_true_2, Z.eqb_refl by done. cbn [andb negb].
    unfold update_crossing. fields. rewrite alter_last. done.
Qed.

Lemma leave_import a vars cs stk gs ge index f c :
  closeRun a = Ok (st vars cs (f :: stk) None gs ge true) -> in_u 32 index ->
  cs !! idx f = Some c -> CKind c = CrossingImport -> Index c = index -> markerBracketed c = true ->
  push ParseFloat a (ev_event (marker_event CrossingImport index false)) =
  Ok (noteGroupBoundary (st vars cs stk None gs ge true)).
Proof.
  intros Ha Hi Hc Hk Hx Hb. rewrite (push_settle _ _ _ Ha) by (done || by eauto 10).
  unfold push. cbn [ev_event EvFunction EvVariableName EvValue EvCall EvEvent].
  unfold pushEvent. rewrite closeRun_none, parseHostStateMarker_realm, parseRealmMarker_event by done.
  cbn [map_err mkind enter mindex]. rewrite bool_decide_eq_false_2 by (intros H; by apply H).
  unfold closeMarkedImport. fields. unfold crossing_at.
  fields. rewrite Hc.
  rewrite bool_decide_eq_true_2 by done. rewrite Hx, Hb, Z.eqb_refl. done.
Qed.

(** The crossing a [Call] record opens. *)
Definition export_crossing (s : nat) (d : Z) (name : gostring) : Crossing :=
  {| Seq := Z.of_nat s; Depth := d; CKind := CrossingExport; CName := name; Index := 0;
     Args := []; CResults := []; hasResults := false; markerBracketed := false |}.

Lemma call_export a vars cs stk gs ge saw fid fn :
  closeRun a = Ok (st vars cs stk None gs ge saw) -> fns !! fid = Some fn ->
  push ParseFloat a (ev_call fid) =
  Ok (st vars (cs ++ [export_crossing (length cs) (len stk) (FName fn)])
        ({| idx := length cs; olabel := FName fn |} :: stk) None gs ge saw).
Proof.
  intros Ha Hf. rewrite (push_settle _ _ _ Ha) by (done || by eauto 10).
  unfold push. cbn [ev_call EvFunction EvVariableName EvValue EvCall EvEvent].
  unfold pushCall. rewrite closeRun_none. fields. rewrite Nat2Z.id, Hf.
  unfold push_frame, append_crossing, st. cbn. rewrite length_app. cbn. by rewrite Nat.add_sub.
Qed.

Lemma return_export a vars cs stk gs ge saw f c :
  closeRun a = Ok (st vars cs (f :: stk) None gs ge saw) ->
  cs !! idx f = Some c -> CKind c = CrossingExport ->
  push ParseFloat a ev_return = Ok (noteGroupBoundary (st vars cs stk None gs ge saw)).
Proof.
  intros Ha Hc Hk. rewrite (push_settle _ _ _ Ha) by (done || by eauto 10).
  unfold push. cbn [ev_return EvFunction EvVariableName EvValue EvCall EvEvent EvReturn].
  unfold pushReturn. rewrite closeRun_none. unfold closeDanglingImports.
  fields. rewrite closeDangling_calm by (exists c; eauto).
  fields. unfold crossing_at. fields. rewrite Hc.
  rewrite bool_decide_eq_false_2 by (intros H; by apply H). done.
Qed.

Lemma calm_app cs cs' stk : calm cs stk -> calm (cs ++ cs') stk.
Proof.
  destruct stk as [|f stk]; [done|]. intros (c & Hc & Hk). exists c. split; [|done].
  by apply lookup_app_l_Some.
Qed.

(** The group bookkeeping along a list of nodes at one level. *)
Fixpoint groups_after (stk : list openCrossing) (cs : list Crossing) (gs : nat) (ge : list nat)
    (ns : list node) : nat * list nat :=
  match ns with
  | [] => (gs, ge)
  | n :: ns =>
      let cs' := cs ++ fst (flat (len stk) (length cs) n) in
      let b := noteGroupBoundary (st [] cs' stk None gs ge false) in
      groups_after stk cs' (groupStart b) (groupEnds b) ns
  end.

Lemma groups_after_inner f stk cs gs ge ns : groups_after (f :: stk) cs gs ge ns = (gs, ge).
Proof. revert cs. induction ns as [|n ns IH]; intros cs; [done|]. cbn. apply IH. Qed.

Definition assembles (n : node) : Prop := forall a vars cs stk gs ge saw,
  closeRun a = Ok (st vars cs stk None gs ge saw) -> calm cs stk -> noted cs stk gs ->
  (gs <= length cs)%nat ->
  exists vars', length vars' = snd (emit (length vars) n) /\
    pushes a (fst (emit (length vars) n)) =
    Ok (noteGroupBoundary (st vars' (cs ++ fst (flat (len stk) (length cs) n)) stk None gs ge
          (saw || has_import n))).

Lemma note_fields vars cs stk gs ge saw :
  exists gs' ge', noteGroupBoundary (st vars cs stk None gs ge saw) = st vars cs stk None gs' ge' saw /\
    noteGroupBoundary (st [] cs stk None gs ge false) = st [] cs stk None gs' ge' false /\
    ((gs <= length cs)%nat -> noted cs stk gs').
Proof.
  unfold noteGroupBoundary. fields. destruct stk as [|f stk].
  - destruct (Nat.leb_spec (length cs) gs); do 2 eexists; (split; [done|]); (split; [done|]);
      unfold noted; intros; cbn; lia.
  - do 2 eexists. split; [done|]. split; [done|]. done.
Qed.

Lemma thread_length {A B} (f : nat -> A -> list B * nat) s xs :
  Forall (fun x => forall s, snd (f s x) = (s + length (fst (f s x)))%nat) xs ->
  snd (thread f s xs) = (s + length (fst (thread f s xs)))%nat.
Proof.
  intros H. revert s. induction H as [|x xs Hx _ IH]; intros s; cbn [thread]; [cbn; lia|].
  specialize (Hx s). destruct (f s x) as [y s1]. specialize (IH s1).
  destruct (thread f s1 xs) as [ys s2]. cbn in *. rewrite length_app. lia.
Qed.

Lemma flat_length d s n : snd (flat d s n) = (s + length (fst (flat d s n)))%nat.
Proof.
  revert d s. induction n as [ev|fid name args rets body IH|index args rets body IH]
    using node_induction; intros d s; cbn [flat]; [cbn; lia|..].
  all: pose proof (thread_length (flat (d + 1)) (S s) body) as H.
  all: destruct (thread (flat (d + 1)) (S s) body) as [inner s2]; cbn in *; rewrite H; [lia|].
  all: eapply Forall_impl; [exact IH|]; done.
Qed.

Lemma assembles_list ns :
  Forall assembles ns -> forall a vars cs stk gs ge saw,
  closeRun a = Ok (st vars cs stk None gs ge saw) -> calm cs stk -> noted cs stk gs ->
  (gs <= length cs)%nat ->
  exists a' vars', length vars' = snd (thread emit (length vars) ns) /\
    pushes a (fst (thread emit (length vars) ns)) = Ok a' /\
    closeRun a' =
      Ok (st vars' (cs ++ fst (thread (flat (len stk)) (length cs) ns)) stk None
            (fst (groups_after stk cs gs ge ns)) (snd (groups_after stk cs gs ge ns))
            (saw || existsb has_import ns)) /\
    noted (cs ++ fst (thread (flat (len stk)) (length cs) ns)) stk (fst (groups_after stk cs gs ge ns)).
Proof.
  induction 1 as [|n ns Hn _ IH]; intros a vars cs stk gs ge saw Ha Hcalm Hnoted Hgs.
  { exists a, vars. cbn. by rewrite app_nil_r, orb_false_r. }
  destruct (Hn a vars cs stk gs ge saw Ha Hcalm Hnoted Hgs) as (vars1 & Hl1 & Hp1).
  set (cs1 := cs ++ fst (flat (len stk) (length cs) n)) in *.
  destruct (note_fields vars1 cs1 stk gs ge (saw || has_import n)) as (gs1 & ge1 & E1 & E2 & Hno).
  rewrite E1 in Hp1.
  assert (gs <= length cs1)%nat as Hg1 by (unfold cs1; rewrite length_app; lia).
  assert (gs1 <= length cs1)%nat as Hg1'.
  { destruct stk; [rewrite (Hno Hg1 eq_refl); lia|].
    apply (f_equal groupStart) in E1. cbn in E1. lia. }
  destruct (IH (st vars1 cs1 stk None gs1 ge1 (saw || has_import n)) vars1 cs1 stk gs1 ge1
    (saw || has_import n)) as (a' & vars' & Hl' & Hp' & Hc' & Hn').
  { apply closeRun_none. }
  { by apply calm_app. }
  { by apply Hno. }
  { done. }
  exists a', vars'. cbn [thread groups_after existsb]. fold cs1. rewrite E2. fields.
  assert (length cs1 = snd (flat (len stk) (length cs) n)) as Hs
    by (unfold cs1; by rewrite length_app, flat_length).
  destruct (emit (length vars) n) as [e1 k1]. destruct (flat (len stk) (length cs) n) as [c1 s1] eqn:Ef.
  cbn [fst snd] in Hl1, Hp1, Hs. rewrite <-Hl1, <-Hs.
  destruct (thread emit (length vars1) ns) as [e2 k2].
  destruct (thread (flat (len stk)) (length cs1) ns) as [c2 s2]. cbn [fst snd] in *.
  split; [done|]. split; [by rewrite foldm_app, Hp1|].
  assert (cs ++ c1 ++ c2 = cs1 ++ c2) as -> by (unfold cs1; by rewrite app_assoc).
  split; [by rewrite orb_assoc|done].
Qed.

Lemma assembles_noise ev : neutral ev -> assembles (Noise ev).
Proof.
  intros (Hf & Hvn & Hv & Hc & He & Hr & Hd) a vars cs stk gs ge saw Ha Hcalm Hnoted _.
  exists vars. split; [done|]. cbn [emit fst foldm flat has_import].
  rewrite app_nil_r, orb_false_r.
  rewrite (push_settle _ _ _ Ha) by (done || (destruct Hd as [?|[?|?]]; tauto)).
  unfold push. rewrite Hf, Hvn, Hv, Hc. destruct (EvEvent ev) as [[v|]|] eqn:Ee.
  - unfold pushEvent. rewrite closeRun_none. destruct (He v eq_refl) as [-> Hm].
    cbn [map_err]. destruct (parseRealmMarker v) as [m|]; [|done].
    rewrite bool_decide_eq_true_2; [done|]. by rewrite (Hm m eq_refl).
  - done.
  - rewrite Hr by done. destruct (EvPath ev), (EvStep ev); try done.
Qed.

Lemma length_slot_names label r vs : length (slot_names label r vs) = length vs.
Proof. apply length_imap. Qed.

(** From an open frame: the nested calls, then the result run. *)
Lemma frame_body a vars cs c f stk gs ge saw body rets :
  idx f = length cs -> olabel f <> [] ->
  closeRun a = Ok (st vars (cs ++ [c]) (f :: stk) None gs ge saw) ->
  (CKind c = CrossingExport /\ parseImportLabel (olabel f) = None) \/ markerBracketed c = true ->
  tuple_ok rets -> Forall assembles body -> (gs <= length cs)%nat ->
  exists a' vars',
    length vars' = (snd (thread emit (length vars) body) + length rets)%nat /\
    pushes a (fst (thread emit (length vars) body) ++
              emit_run (olabel f) RRet (snd (thread emit (length vars) body)) rets) = Ok a' /\
    closeRun a' =
      Ok (st vars' (cs ++ put_results rets c ::
                    fst (thread (flat (len stk + 1)) (S (length cs)) body))
            (f :: stk) None gs ge (saw || existsb has_import body)).
Proof.
  intros Hi Hl Ha Hc Hr Hbody Hgs.
  assert (calm (cs ++ [c]) (f :: stk)) as Hcalm.
  { exists c. rewrite Hi. split; [by apply list_lookup_middle|]. destruct Hc as [[? _]|]; eauto. }
  destruct (assembles_list body Hbody a vars (cs ++ [c]) (f :: stk) gs ge saw Ha Hcalm)
    as (a1 & vars1 & Hl1 & Hp1 & Hc1 & _); [done|rewrite length_app; lia|].
  rewrite groups_after_inner, length_app, <-app_assoc in Hc1. cbn [fst snd app length] in Hc1.
  rewrite Nat.add_1_r in Hc1.
  replace (len (f :: stk)) with (len stk + 1) in Hc1 by (rewrite len_cons; lia).
  set (inner := fst (thread (flat (len stk + 1)) (S (length cs)) body)) in *.
  destruct (push_run _ _ _ _ _ _ _ (olabel f) RRet rets Hc1) as (a2 & Hp2 & Hc2); [done..|].
  exists a2, (vars1 ++ slot_names (olabel f) RRet rets).
  split; [by rewrite length_app, length_slot_names, Hl1|].
  split; [by rewrite foldm_app, Hp1, <-Hl1|].
  rewrite (settle_rets _ _ _ _ _ _ f c) in Hc2; try done.
  - rewrite Hc2, Hi, alter_middle. done.
  - rewrite cons_middle, app_assoc. by apply calm_app.
  - rewrite Hi. by apply list_lookup_middle.
  - destruct Hc as [[_ ?]|]; eauto.
Qed.

Lemma assembles_export fid name args rets body :
  node_ok fns (NExport fid name args rets body) -> Forall assembles body ->
  assembles (NExport fid name args rets body).
Proof.
  intros ((fn & Hfn & <-) & Hne & Hpl & Hargs & Hrets & _) Hbody
    a vars cs stk gs ge saw Ha Hcalm Hnoted Hgs.
  set (c0 := export_crossing (length cs) (len stk) (FName fn)).
  set (f := {| idx := length cs; olabel := FName fn |}).
  destruct (push_run (st vars (cs ++ [c0]) (f :: stk) None gs ge saw) vars (cs ++ [c0]) (f :: stk)
    gs ge saw (FName fn) RArg args) as (a2 & Hp2 & Hc2); [done..|].
  rewrite (settle_export_args _ (cs ++ [c0]) stk gs ge saw f c0) in Hc2
    by (done || by apply list_lookup_middle).
  change (idx f) with (length cs) in Hc2. rewrite alter_last in Hc2. set (c1 := put_args args c0) in *.
  assert (CKind c1 = CrossingExport) as Hk1 by (unfold c1, put_args; by destruct args).
  destruct (frame_body a2 _ cs c1 f stk gs ge saw body rets eq_refl Hne Hc2) as
    (a3 & vars3 & Hl3 & Hp3 & Hc3); [by left|done..|].
  exists vars3. cbn [emit flat has_import].
  rewrite length_app, length_slot_names in Hl3, Hp3.
  destruct (thread emit (length vars + length args) body) as [inner k2] eqn:Et.
  destruct (thread (flat (len stk + 1)) (S (length cs)) body) as [fl s2] eqn:Ef.
  cbn [fst snd] in *. split; [done|].
  cbn [foldm]. rewrite (call_export a vars cs stk gs ge saw fid fn Ha Hfn). fold c0 f.
  change (olabel f) with (FName fn) in Hp3.
  rewrite foldm_app, Hp2, app_assoc, foldm_app, Hp3. cbn [foldm].
  set (c2 := put_results rets c1) in *.
  assert (CKind c2 = CrossingExport) as Hk2 by (unfold c2, put_results; by destruct rets).
  rewrite (return_export a3 vars3 _ stk gs ge _ f c2 Hc3) by (done || by apply list_lookup_middle).
  do 4 f_equal. unfold c2, put_results, c1, put_args, set_results, set_args.
  destruct rets, args; done.
Qed.

Lemma assembles_import index args rets body :
  node_ok fns (NImport index args rets body) -> Forall assembles body ->
  assembles (NImport index args rets body).
Proof.
  intros (Hix & Hargs & Hrets & _) Hbody a vars cs stk gs ge saw Ha Hcalm Hnoted Hgs.
  assert (importLabel index <> []) as Hne by done.
  set (f := {| idx := length cs; olabel := importLabel index |}).
  destruct (push_run a vars cs stk gs ge saw (importLabel index) RArg args Ha Hnoted Hne Hargs)
    as (a2 & Hp2 & Hc2).
  pose proof (enter_import _ _ _ _ _ _ _ _ _ Hc2 Hcalm Hix) as Hen.
  set (c1 := import_crossing (length cs) (len stk) index args) in *. fold f in Hen.
  destruct (frame_body _ (vars ++ slot_names (importLabel index) RArg args) cs c1 f stk gs ge true body rets eq_refl Hne (closeRun_none _ _ _ _ _ _))
    as (a3 & vars3 & Hl3 & Hp3 & Hc3); [by right|done..|].
  exists vars3. cbn [emit flat has_import]. rewrite orb_true_r.
  rewrite length_app, length_slot_names in Hl3, Hp3.
  destruct (thread emit (length vars + length args) body) as [inner k2] eqn:Et.
  destruct (thread (flat (len stk + 1)) (S (length cs)) body) as [fl s2] eqn:Ef.
  cbn [fst snd] in *. split; [done|].
  rewrite foldm_app, Hp2. cbn [foldm]. rewrite Hen, app_assoc, foldm_app.
  change (olabel f) with (importLabel index) in Hp3. rewrite Hp3. cbn [foldm orb] in *.
  set (c2 := put_results rets c1) in *.
  rewrite (leave_import a3 vars3 _ stk gs ge index f c2 Hc3); try done.
  - do 4 f_equal. unfold c2, put_results, c1, set_results, import_crossing. by destruct rets.
  - by apply list_lookup_middle.
  - unfold c2, put_results. by destruct rets.
  - unfold c2, put_results. by destruct rets.
  - unfold c2, put_results. by destruct rets.
Qed.

Lemma assembles_all n : node_ok fns n -> assembles n.
Proof.
  induction n as [ev|fid name args rets body IH|index args rets body IH] using node_induction;
    intros Hok; [by apply assembles_noise|..].
  - apply assembles_export; [done|]. destruct Hok as (_ & _ & _ & _ & _ & Hb).
    rewrite nodes_ok in Hb. eapply Forall_impl; [apply Forall_and; split; [exact IH|exact Hb]|].
    intros n [Hn Ho]. by apply Hn.
  - apply assembles_import; [done|]. destruct Hok as (_ & _ & _ & Hb).
    rewrite nodes_ok in Hb. eapply Forall_impl; [apply Forall_and; split; [exact IH|exact Hb]|].
    intros n [Hn Ho]. by apply Hn.
Qed.

End assemble.

(** ** Groups as cuts of the crossing list *)
Fixpoint cuts (base : nat) (gs : list (list Crossing)) : list nat :=
  match gs with
  | [] => []
  | g :: gs => (base + length g)%nat :: cuts (base + length g) gs
  end.

Lemma length_cuts base gs : length (cuts base gs) = length gs.
Proof. revert base. induction gs as [|g gs IH]; intros base; cbn; [done|]. by rewrite IH. Qed.

Lemma lookup_cuts base gs i :
  (i < length gs)%nat -> cuts base gs !! i = Some (base + length (concat (take (S i) gs)))%nat.
Proof.
  revert base i. induction gs as [|g gs IH]; intros base i Hi; cbn in Hi; [lia|].
  destruct i as [|i]; cbn [cuts].
  - cbn. rewrite take_0. cbn. by rewrite app_nil_r.
  - cbn [lookup list_lookup]. rewrite IH by lia. cbn [take concat]. rewrite length_app. f_equal.
    cbn [take concat]. lia.
Qed.

Lemma groups_cuts a gs :
  crossings a = concat gs -> groupEnds a = cuts 0 gs -> group a <$> seq 0 (groups a) = gs.
Proof.
  intros Hc He. apply list_eq. intros i. rewrite list_lookup_fmap. unfold groups.
  rewrite He, length_cuts. destruct (decide (i < length gs)%nat) as [Hi|Hi].
  2: { rewrite (lookup_ge_None_2 (seq _ _)) by (rewrite length_seq; lia).
       by rewrite (lookup_ge_None_2 gs) by lia. }
  rewrite lookup_seq_lt by done. destruct (lookup_lt_is_Some_2 gs i Hi) as [g Hg].
  rewrite Hg. cbn. f_equal. unfold group. rewrite He, Hc.
  rewrite lookup_cuts by done. cbn [default].
  replace (match i with O => O | S j => default O (cuts 0 gs !! j) end) with (length (concat (take i gs))).
  2: { destruct i as [|j]; [by rewrite take_0|]. by rewrite lookup_cuts by lia. }
  rewrite (take_S_r gs i g Hg), concat_app, length_app. cbn [concat]. rewrite app_nil_r.
  assert (concat gs = concat (take i gs) ++ g ++ concat (drop (S i) gs)) as ->.
  { rewrite <-(take_drop_middle gs i g Hg) at 1. by rewrite concat_app. }
  apply sub_exact'; unfold id; lia.
Qed.

Lemma flat_call d s n : is_call n = true -> fst (flat d s n) <> [].
Proof. destruct n; cbn; [done|..]; by destruct (thread _ _ _). Qed.

Lemma groups_after_top fns hs cs ge ns :
  snd (groups_after fns hs [] cs (length cs) ge ns) = ge ++ cuts (length cs) (call_groups (length cs) ns).
Proof.
  revert cs ge. induction ns as [|n ns IH]; intros cs ge; cbn [groups_after call_groups].
  { cbn. by rewrite app_nil_r. }
  change (len (@nil openCrossing)) with 0.
  pose proof (flat_length 0 (length cs) n) as Hl. pose proof (flat_call 0 (length cs) n) as Hne.
  destruct (flat 0 (length cs) n) as [c s1] eqn:Ef. cbn [fst snd] in *.
  unfold noteGroupBoundary. cbn [stack pending st crossings groupStart].
  rewrite length_app. destruct (is_call n) eqn:Ec.
  - specialize (Hne eq_refl).
    destruct (Nat.leb_spec (length cs + length c) (length cs)) as [H|H].
    { destruct c; [done|]. cbn in H. lia. }
    cbn [with_groups groupStart groupEnds st]. rewrite <-length_app, IH.
    subst s1. rewrite length_app. cbn [cuts]. by rewrite <-app_assoc.
  - assert (c = []) as -> by (destruct n; [cbn in Ef; by simplify_eq|done..]).
    cbn [length] in *. rewrite !Nat.add_0_r in *. rewrite Nat.leb_refl. cbn [groupStart groupEnds st].
    subst s1. rewrite app_nil_r. apply IH.
Qed.

Lemma call_groups_concat s ns : concat (call_groups s ns) = fst (thread (flat 0) s ns).
Proof.
  revert s. induction ns as [|n ns IH]; intros s; cbn [call_groups thread]; [done|].
  destruct (flat 0 s n) as [c s1] eqn:Ef. rewrite (surjective_pairing (thread (flat 0) s1 ns)).
  cbn [fst]. rewrite <-IH. destruct (is_call n) eqn:Ec; [done|].
  assert (c = []) as -> by (destruct n; [cbn in Ef; by simplify_eq|done..]). done.
Qed.

Lemma push_functions ParseFloat pre fns :
  foldm (push ParseFloat) (st pre None [] [] [] None 0 [] false) (ev_function <$> fns) =
  Ok (st (pre ++ fns) None [] [] [] None 0 [] false).
Proof.
  revert pre. induction fns as [|f fns IH]; intros pre; cbn [fmap list_fmap foldm].
  { by rewrite app_nil_r. }
  change (push ParseFloat (st pre None [] [] [] None 0 [] false) (ev_function f)) with
    (Ok (E := asm_err) (st (pre ++ [f]) None [] [] [] None 0 [] false)). cbv iota.
  rewrite IH. by rewrite <-app_assoc.
Qed.

(** The records of a recording: the function table, then the calls. *)
Definition recording_events (fns : list functionRecord) (ns : list node) : list traceEvent :=
  (ev_function <$> fns) ++ fst (thread emit 0 ns).

(** C4: a recording rendered by the producer's documented rules, from
    a forest of calls (exports and imports nested to any depth, with or
    without values, mixed with records of other origin), is reconstructed
    exactly: the crossings in call order with their depth, arguments and
    results, one call group per top-level call, and the producer's vintage.  The
    forest is one that [node_ok] admits: an exported function has a name that is
    not empty and does not spell an import's label ([export_named_like_import]
    shows that such a name is not recovered), an import index has 32 bits, the
    values are of the four kinds that are recorded and fewer than 2^63, and the
    records of other origin are paths, steps and events that are neither host
    state nor an import's marker. *)
Theorem reconstruct_render ParseFloat fns ns :
  Forall (node_ok fns) ns ->
  reconstructCrossings ParseFloat (recording_events fns ns) =
    Ok (fst (thread (flat 0) 0 ns), existsb has_import ns, None) /\
  exists a b, foldm (push ParseFloat) newAssembler (recording_events fns ns) = Ok a /\
    finish a = Ok b /\ group b <$> seq 0 (groups b) = call_groups 0 ns.
Proof.
  intros Hok. unfold reconstructCrossings, recording_events.
  rewrite foldm_app. change newAssembler with (st [] None [] [] [] None 0 [] false).
  rewrite push_functions. cbn [app].
  destruct (assembles_list ParseFloat fns None ns) with
    (a := st fns None [] [] [] None 0%nat [] false) (vars := @nil gostring) (cs := @nil Crossing)
    (stk := @nil openCrossing) (gs := 0%nat) (ge := @nil nat) (saw := false)
    as (a & vars' & _ & Hp & Hc & Hn); try done.
  { eapply Forall_impl; [exact Hok|]. intros n. apply assembles_all. }
  cbn [length] in Hp. rewrite Hp. pose proof (groups_after_top fns None [] [] ns) as Hg.
  cbn [length app] in Hg, Hc, Hn. change (len (@nil openCrossing)) with 0 in *.
  assert (finish a = Ok (st fns None vars' (fst (thread (flat 0) 0 ns)) [] None
      (fst (groups_after fns None [] [] 0 [] ns)) (snd (groups_after fns None [] [] 0 [] ns))
      (false || existsb has_import ns))) as Hf.
  { unfold finish. rewrite Hc. cbn -[st noteGroupBoundary]. f_equal. by apply note_noted. }
  rewrite Hf. split; [done|]. do 2 eexists. split; [done|]. split; [exact Hf|].
  apply groups_cuts; cbn [crossings groupEnds st]; [by rewrite call_groups_concat|exact Hg].
Qed.

(** An export that calls a value-less import and another with arguments and a
    result, while a page event and an export marker pass by. *)
Definition example_forest : list node :=
  [NExport 1 ($"run") [{| Kind := $"Int"; Text := $"7" |}] [{| Kind := $"Raw"; Text := $"-1" |}]
     [NImport 4 [] [] [];
      Noise (ev_event (marker_event CrossingExport 0 false));
      NImport 2 [{| Kind := $"Int"; Text := $"3" |}] [{| Kind := $"Float"; Text := $"f32:0x00000000" |}] []];
   NExport 0 ($"a:b") [] [] []].
Definition example_functions : list functionRecord :=
  [{| FName := $"a:b"; PathID := 0; Line := 1 |}; {| FName := $"run"; PathID := 0; Line := 2 |}].

Ltac tuple :=
  split; [repeat (apply Forall_cons; split;
    [first [by left | by right; left | by right; right; left]|]); by apply Forall_nil|done].

Lemma reconstruct_render_witness :
  exists a b, foldm (push (fun _ => None)) newAssembler (recording_events example_functions example_forest) = Ok a /\
    finish a = Ok b /\ length <$> (group b <$> seq 0 (groups b)) = [3; 1]%nat.
Proof.
  destruct (reconstruct_render (fun _ => None) example_functions example_forest) as [_ (a & b & Ha & Hb & Hg)].
  { repeat (apply Forall_cons; split); [..|by apply Forall_nil].
    - cbn [node_ok foldr]. split_and!; try done; try tuple; [by eexists|..].
      unfold neutral. split_and!; try done; [|by left]. intros v [= <-].
      split; [by apply parseHostStateMarker_realm|].
      intros m. rewrite parseRealmMarker_event by done. by intros [= <-].
    - cbn [node_ok foldr]. split_and!; try done; try tuple. by eexists. }
  exists a, b. split; [exact Ha|]. split; [exact Hb|]. rewrite Hg. reflexivity.
Defined.

(** An exported function whose name spells an import's label is
    not recovered: its arguments become a crossing of that import. *)
Theorem export_named_like_import :
  reconstructCrossings (fun _ => None)
    (recording_events [{| FName := importLabel 3; PathID := 0; Line := 1 |}]
       [NExport 0 (importLabel 3) [{| Kind := $"Int"; Text := $"7" |}] [] []]) =
  Ok ([export_crossing 0 0 (importLabel 3);
       {| Seq := 1; Depth := 1; CKind := CrossingImport; CName := []; Index := 3;
          Args := [{| Kind := $"Int"; Text := $"7" |}]; CResults := []; hasResults := false;
          markerBracketed := false |}], false, None).
Proof. reflexivity. Qed.

End Render.
