(* ===== verification/Stream.v ===== *)
(** * Streaming: [internal/boundarylog/stream.go]

    The scanner that splits a growing JSON array into its elements, and the
    reader that feeds them to the assembler and hands out call groups.  The
    source of bytes is the sequence of results its [Read] calls return. *)
From S2P Require Import Prelude GoStd Json Values Recording HostState Assembler.

Module Stream.
Import GoStd Json Values Recording HostState Assembler.

(** ** Errors *)
Inductive TruncationKind : Type := TruncatedMidRecord | TruncatedMidCrossing | TruncatedUnterminated.

Inductive stream_err : Type :=
| ErrNotArray (c : Z)
| ErrAfterClose (c : Z)
| ErrNotObject (c : Z)
| ErrRecord
| ErrCrossings (e : asm_err)
| Truncation (kind : TruncationKind) (ngroups : nat) (opened pending : Z)
| ErrRead
| EOF.

(** ** The array scanner *)
Record jsonArrayScanner := {
  buf : list Z;
  si : nat;
  started : bool;
  sdone : bool;
  elemStart : option nat;
  sdepth : Z;
  inString : bool;
  escaped : bool
}.

Definition newJSONArrayScanner : jsonArrayScanner :=
  {| buf := []; si := 0; started := false; sdone := false; elemStart := None; sdepth := 0;
     inString := false; escaped := false |}.

Definition feed (s : jsonArrayScanner) (b : list Z) : jsonArrayScanner :=
  {| buf := buf s ++ b; si := si s; started := started s; sdone := sdone s;
     elemStart := elemStart s; sdepth := sdepth s; inString := inString s; escaped := escaped s |}.

Definition pending (s : jsonArrayScanner) : Z :=
  match elemStart s with None => 0 | Some e => len (buf s) - Z.of_nat e end.

Definition isJSONSpace (c : Z) : bool := (c =? 32) || (c =? 9) || (c =? 10) || (c =? 13).

(** Assignments to parts of the scanner. *)
Definition at_cursor (s : jsonArrayScanner) (i : nat) : jsonArrayScanner :=
  {| buf := buf s; si := i; started := started s; sdone := sdone s; elemStart := elemStart s;
     sdepth := sdepth s; inString := inString s; escaped := escaped s |}.
Definition set_started (s : jsonArrayScanner) : jsonArrayScanner :=
  {| buf := buf s; si := si s; started := true; sdone := sdone s; elemStart := elemStart s;
     sdepth := sdepth s; inString := inString s; escaped := escaped s |}.
Definition set_done (s : jsonArrayScanner) : jsonArrayScanner :=
  {| buf := buf s; si := si s; started := started s; sdone := true; elemStart := elemStart s;
     sdepth := sdepth s; inString := inString s; escaped := escaped s |}.
Definition set_elem (s : jsonArrayScanner) (e : option nat) (d : Z) (str esc : bool)
    : jsonArrayScanner :=
  {| buf := buf s; si := si s; started := started s; sdone := sdone s; elemStart := e;
     sdepth := d; inString := str; escaped := esc |}.

Definition compact (s : jsonArrayScanner) : jsonArrayScanner :=
  match elemStart s with
  | Some _ => s
  | None =>
      if (si s =? 0)%nat then s
      else {| buf := drop (si s) (buf s); si := 0; started := started s; sdone := sdone s;
              elemStart := None; sdepth := sdepth s; inString := inString s; escaped := escaped s |}
  end.

(** [for s.i < len(s.buf) && p(s.buf[s.i]) { s.i++ }]: how far the cursor moves. *)
Fixpoint skip_while (p : Z -> bool) (l : list Z) : nat :=
  match l with
  | c :: t => if p c then S (skip_while p t) else O
  | [] => O
  end.

(** The loop over the bytes of an element: the bytes consumed, the scanning
    state after them, and whether the element's closing brace was among them. *)
Fixpoint scan_object (l : list Z) (d : Z) (str esc : bool) (n : nat)
    : nat * Z * bool * bool * bool :=
  match l with
  | [] => (n, d, str, esc, false)
  | c :: t =>
      if str then
        if esc then scan_object t d true false (S n)
        else if c =? 92 then scan_object t d true true (S n)
        else if c =? 34 then scan_object t d false esc (S n)
        else scan_object t d true esc (S n)
      else if c =? 34 then scan_object t d true esc (S n)
      else if c =? 123 then scan_object t (d + 1) false esc (S n)
      else if c =? 125 then
        if d - 1 =? 0 then (S n, d - 1, false, esc, true)
        else scan_object t (d - 1) false esc (S n)
      else scan_object t d false esc (S n)
  end.

Definition next_element (s : jsonArrayScanner) : result stream_err (option (list Z)) * jsonArrayScanner :=
  let '(n, d, str, esc, found) := scan_object (drop (si s) (buf s)) (sdepth s) (inString s) (escaped s) 0 in
  let start := default O (elemStart s) in
  let i := (si s + n)%nat in
  if found then
    (Ok (Some (sub (buf s) start (i - start))), set_elem (at_cursor s i) None d str esc)
  else (Ok None, set_elem (at_cursor s i) (elemStart s) d str esc).

Definition next_started (s : jsonArrayScanner) : result stream_err (option (list Z)) * jsonArrayScanner :=
  match elemStart s with
  | Some _ => next_element s
  | None =>
      let s := at_cursor s (si s + skip_while (fun c => isJSONSpace c || (c =? 44)) (drop (si s) (buf s))) in
      let s := compact s in
      match buf s !! si s with
      | None => (Ok None, s)
      | Some c =>
          if sdone s then (Err (ErrAfterClose c), s)
          else if c =? 93 then (Ok None, at_cursor (set_done s) (si s + 1))
          else if negb (c =? 123) then (Err (ErrNotObject c), s)
          else next_element (set_elem s (Some (si s)) 0 false false)
      end
  end.

Definition next (s : jsonArrayScanner) : result stream_err (option (list Z)) * jsonArrayScanner :=
  if started s then next_started s
  else
    let s := at_cursor s (si s + skip_while isJSONSpace (drop (si s) (buf s))) in
    match buf s !! si s with
    | None => (Ok None, s)
    | Some c =>
        if negb (c =? 91) then (Err (ErrNotArray c), s)
        else next_started (at_cursor (set_started s) (si s + 1))
    end.

(** ** The reader *)

(** What a [Read] returns: some bytes and nil, io.EOF or another error. *)
Inductive read_status : Type := RNil | REOF | RErr.

Record StreamReader := {
  src : list (list Z * read_status);
  sc : jsonArrayScanner;
  asm : assembler;
  snext : nat;
  eof : bool;
  closed : bool;
  failed : option stream_err
}.

Definition NewStreamReader (r : list (list Z * read_status)) : StreamReader :=
  {| src := r; sc := newJSONArrayScanner; asm := newAssembler; snext := 0; eof := false;
     closed := false; failed := None |}.

Definition with_sc_asm (s : StreamReader) (sc' : jsonArrayScanner) (a : assembler) : StreamReader :=
  {| src := src s; sc := sc'; asm := a; snext := snext s; eof := eof s; closed := closed s;
     failed := failed s |}.
Definition set_eof (s : StreamReader) : StreamReader :=
  {| src := src s; sc := sc s; asm := asm s; snext := snext s; eof := true; closed := closed s;
     failed := failed s |}.
Definition with_src (s : StreamReader) (r : list (list Z * read_status)) : StreamReader :=
  {| src := r; sc := sc s; asm := asm s; snext := snext s; eof := eof s; closed := closed s;
     failed := failed s |}.
Definition with_closed (s : StreamReader) (a : assembler) : StreamReader :=
  {| src := src s; sc := sc s; asm := a; snext := snext s; eof := eof s; closed := true;
     failed := failed s |}.
Definition with_next (s : StreamReader) : StreamReader :=
  {| src := src s; sc := sc s; asm := asm s; snext := S (snext s); eof := eof s; closed := closed s;
     failed := failed s |}.
Definition fail (s : StreamReader) (e : stream_err) : StreamReader :=
  {| src := src s; sc := sc s; asm := asm s; snext := snext s; eof := eof s; closed := closed s;
     failed := Some e |}.

Definition GroupsRead (s : StreamReader) : nat := snext s.
Definition HostState_so_far (s : StreamReader) : option HostState := hostState (asm s).

Section reader.
Variable ParseFloat : gostring -> option Z.

(** [json.Unmarshal(raw, &ev)] of one element. *)
Definition Unmarshal_record (raw : list Z) : option traceEvent :=
  match parse_json raw with Some v => Unmarshal_traceEvent v | None => None end.

(** [drain]: an element is at least one byte of the buffer, so the buffer's
    length bounds the number of iterations. *)
Fixpoint drain_loop (fuel : nat) (s : StreamReader) : result stream_err StreamReader :=
  match fuel with
  | O => Ok s
  | S fuel =>
      match next (sc s) with
      | (Err e, _) => Err e
      | (Ok None, sc') => Ok (with_sc_asm s sc' (asm s))
      | (Ok (Some raw), sc') =>
          match Unmarshal_record raw with
          | None => Err ErrRecord
          | Some ev =>
              match push ParseFloat (asm s) ev with
              | Err e => Err (ErrCrossings e)
              | Ok a => drain_loop fuel (with_sc_asm s sc' a)
              end
          end
      end
  end.
Definition drain (s : StreamReader) : result stream_err StreamReader :=
  drain_loop (S (length (buf (sc s)))) s.

Definition pump (s : StreamReader) : result stream_err StreamReader :=
  match src s with
  | [] => Ok (set_eof s)
  | (bytes, status) :: rest =>
      let s := with_src s rest in
      let! s :=
        (if 0 <? len bytes then drain (with_sc_asm s (feed (sc s) bytes) (asm s)) else Ok s) in
      match status with
      | RNil => Ok s
      | REOF => Ok (set_eof s)
      | RErr => Err ErrRead
      end
  end.

Definition finishStream (s : StreamReader) : result stream_err StreamReader :=
  let pend := pending (sc s) in
  let opened := Z.of_nat (openCrossings (asm s)) in
  reject 0 <? pend as Truncation TruncatedMidRecord (snext s) opened pend ;;
  match finish (asm s) with
  | Err e =>
      if 0 <? opened then Err (Truncation TruncatedMidCrossing (snext s) opened 0)
      else Err (ErrCrossings e)
  | Ok a =>
      reject negb (sdone (sc s)) as Truncation TruncatedUnterminated (snext s) 0 0 ;;
      Ok (with_closed s a)
  end.

(** The loop of [NextGroup]: every iteration returns, consumes a read, or
    closes the stream, so [length (src s) + 3] iterations are enough. *)
Fixpoint NextGroup_loop (fuel : nat) (s : StreamReader)
    : option (result stream_err (list Crossing) * StreamReader) :=
  match fuel with
  | O => None
  | S fuel =>
      if (snext s <? groups (asm s))%nat then
        Some (Ok (group (asm s) (snext s)), with_next s)
      else if eof s then
        if closed s then Some (Err EOF, s)
        else
          match finishStream s with
          | Err e => Some (Err e, fail s e)
          | Ok s => NextGroup_loop fuel s
          end
      else
        match pump s with
        | Err e => Some (Err e, fail s e)
        | Ok s => NextGroup_loop fuel s
        end
  end.
Definition NextGroup (s : StreamReader) : option (result stream_err (list Crossing) * StreamReader) :=
  match failed s with
  | Some e => Some (Err e, s)
  | None => NextGroup_loop (length (src s) + 3) s
  end.

(** Read groups until the first error. *)
Fixpoint read_groups (n : nat) (s : StreamReader) : option (list (list Crossing) * stream_err * StreamReader) :=
  match n with
  | O => None
  | S n =>
      match NextGroup s with
      | None => None
      | Some (Err e, s) => Some ([], e, s)
      | Some (Ok g, s) =>
          match read_groups n s with
          | Some (gs, e, s) => Some (g :: gs, e, s)
          | None => None
          end
      end
  end.

End reader.

(** ** The scanner as a byte automaton

    The reference: a machine that reads one byte at a time, so that it cannot
    depend on how the bytes are cut into reads. *)
Inductive astate : Type :=
| ABefore
| ABetween
| AIn (acc : list Z) (d : Z) (str esc : bool)
| AClosed.

#[export] Instance astate_eq_dec : EqDecision astate.
Proof. solve_decision. Defined.

Definition astep (st : astate) (c : Z) : result stream_err (astate * list (list Z)) :=
  match st with
  | ABefore =>
      if isJSONSpace c then Ok (ABefore, [])
      else if c =? 91 then Ok (ABetween, []) else Err (ErrNotArray c)
  | ABetween =>
      if isJSONSpace c || (c =? 44) then Ok (ABetween, [])
      else if c =? 93 then Ok (AClosed, [])
      else if c =? 123 then Ok (AIn [c] 1 false false, []) else Err (ErrNotObject c)
  | AIn acc d str esc =>
      let acc := acc ++ [c] in
      if str then
        if esc then Ok (AIn acc d true false, [])
        else if c =? 92 then Ok (AIn acc d true true, [])
        else if c =? 34 then Ok (AIn acc d false esc, [])
        else Ok (AIn acc d true esc, [])
      else if c =? 34 then Ok (AIn acc d true esc, [])
      else if c =? 123 then Ok (AIn acc (d + 1) false esc, [])
      else if c =? 125 then
        if d - 1 =? 0 then Ok (ABetween, [acc]) else Ok (AIn acc (d - 1) false esc, [])
      else Ok (AIn acc d false esc, [])
  | AClosed =>
      if isJSONSpace c || (c =? 44) then Ok (AClosed, []) else Err (ErrAfterClose c)
  end.

Fixpoint arun (st : astate) (l : list Z) : result stream_err (astate * list (list Z)) :=
  match l with
  | [] => Ok (st, [])
  | c :: l =>
      let! (st1, e1) := astep st c in
      let! (st2, e2) := arun st1 l in
      Ok (st2, e1 ++ e2)
  end.

Lemma arun_app st l k :
  arun st (l ++ k) =
  let! (st1, e1) := arun st l in let! (st2, e2) := arun st1 k in Ok (st2, e1 ++ e2).
Proof.
  revert st. induction l as [|c l IH]; intros st; cbn [app arun].
  { by destruct (arun st k) as [[]|]. }
  destruct (astep st c) as [[st1 e1]|]; [|done]. rewrite IH.
  destruct (arun st1 l) as [[st2 e2]|]; [|done].
  destruct (arun st2 k) as [[st3 e3]|]; [|done]. by rewrite app_assoc.
Qed.

(** Bytes a state ignores are skipped by the cursor loops. *)
Lemma arun_skip st p l :
  (forall c, p c = true -> astep st c = Ok (st, [])) ->
  arun st l = arun st (drop (skip_while p l) l) /\
  match drop (skip_while p l) l with c :: _ => p c = false | [] => True end.
Proof.
  intros Hp. induction l as [|c l IH]; cbn [skip_while]; [done|].
  destruct (p c) eqn:E; cbn [drop skipn]; [|by rewrite ?drop_0].
  rewrite <-(proj1 IH). split; [|apply IH]. cbn [arun]. rewrite (Hp _ E).
  by destruct (arun st l) as [[]|].
Qed.

Lemma skip_while_le p l : (skip_while p l <= length l)%nat.
Proof. induction l as [|c l IH]; cbn; [lia|]. destruct (p c); cbn; lia. Qed.

Lemma scan_object_spec l acc d str esc n :
  let '(k, d', str', esc', found) := scan_object l d str esc n in
  exists l1 l2, l = l1 ++ l2 /\ k = (n + length l1)%nat /\
    if found
    then arun (AIn acc d str esc) l1 = Ok (ABetween, [acc ++ l1])
    else l2 = [] /\ arun (AIn acc d str esc) l1 = Ok (AIn (acc ++ l1) d' str' esc', []).
Proof.
  revert acc d str esc n. induction l as [|c l IH]; intros acc d str esc n; cbn [scan_object].
  { exists [], []. split_and!; [done|cbn; lia|done|]. by rewrite app_nil_r. }
  assert (forall d1 str1 esc1,
    astep (AIn acc d str esc) c = Ok (AIn (acc ++ [c]) d1 str1 esc1, []) ->
    let '(k, d', str', esc', found) := scan_object l d1 str1 esc1 (S n) in
    exists l1 l2, c :: l = l1 ++ l2 /\ k = (n + length l1)%nat /\
      if found
      then arun (AIn acc d str esc) l1 = Ok (ABetween, [acc ++ l1])
      else l2 = [] /\ arun (AIn acc d str esc) l1 = Ok (AIn (acc ++ l1) d' str' esc', [])) as Hstep.
  { intros d1 str1 esc1 Hs. specialize (IH (acc ++ [c]) d1 str1 esc1 (S n)).
    destruct (scan_object l d1 str1 esc1 (S n)) as [[[[k d'] str'] esc'] found].
    destruct IH as (l1 & l2 & -> & -> & H). exists (c :: l1), l2. split; [done|].
    split; [cbn; lia|]. rewrite <-app_assoc in H. cbn [app] in H. cbn [arun]. rewrite Hs.
    destruct found; [by rewrite H|]. destruct H as [-> H]. by rewrite H. }
  cbn [astep] in Hstep.
  destruct str; [destruct esc; [|destruct (c =? 92); [|destruct (c =? 34)]]; by apply Hstep|].
  destruct (c =? 34) eqn:E34; [by apply Hstep|].
  destruct (c =? 123) eqn:E123; [by apply Hstep|].
  destruct (c =? 125) eqn:E125; [|by apply Hstep].
  destruct (d - 1 =? 0) eqn:Ed; [|by apply Hstep].
  exists [c], l. split; [done|]. split; [cbn; lia|]. cbn [arun astep]. by rewrite E34, E123, E125, Ed.
Qed.

(** The scanner stands at a state of the automaton with bytes still to read. *)
Definition scans (s : jsonArrayScanner) (st : astate) (rest : list Z) : Prop :=
  (si s <= length (buf s))%nat /\ drop (si s) (buf s) = rest /\
  match st with
  | ABefore => started s = false /\ sdone s = false /\ elemStart s = None
  | ABetween => started s = true /\ sdone s = false /\ elemStart s = None
  | AIn acc d str esc =>
      started s = true /\ sdone s = false /\ sdepth s = d /\ inString s = str /\ escaped s = esc /\
      exists e, elemStart s = Some e /\ (e <= si s)%nat /\ sub (buf s) e (si s - e) = acc
  | AClosed => started s = true /\ sdone s = true /\ elemStart s = None
  end.

Lemma scans_new : scans newJSONArrayScanner ABefore [].
Proof. done. Qed.

Lemma scans_feed s st rest chunk : scans s st rest -> scans (feed s chunk) st (rest ++ chunk).
Proof.
  intros (Hi & Hr & Hst). unfold scans. cbn. split; [rewrite length_app; lia|].
  split; [by rewrite drop_app_le, Hr|]. destruct st; try done.
  destruct Hst as (? & ? & ? & ? & ? & e & ? & ? & Hs). split_and!; try done.
  exists e. split_and!; try done.
  change (sub (buf s ++ chunk) e (si s - e) = acc). by rewrite sub_app_l by lia.
Qed.

Lemma scans_compact s st rest : scans s st rest -> scans (compact s) st rest.
Proof.
  intros H. unfold compact. destruct (elemStart s) eqn:Ee; [done|].
  destruct (Nat.eqb_spec (si s) 0); [done|]. destruct H as (Hi & Hr & Hst).
  unfold scans. cbn. split; [lia|]. split; [by rewrite drop_0|].
  destruct st; try (by destruct Hst as (? & ? & ?)).
  destruct Hst as (_ & _ & _ & _ & _ & e & ? & _). congruence.
Qed.

Lemma compact_fields s :
  started (compact s) = started s /\ sdone (compact s) = sdone s /\
  (elemStart s = None -> elemStart (compact s) = None).
Proof. unfold compact. destruct (elemStart s) eqn:E; [done|]. by destruct (si s =? 0)%nat. Qed.

(** What one call of [next] does, in terms of the automaton on the unread bytes. *)
Definition next_does (r : result stream_err (option (list Z)) * jsonArrayScanner)
    (rest : list Z) (st' : astate) (elems : list (list Z)) : Prop :=
  match elems with
  | [] => exists s' st2 rest2, r = (Ok None, s') /\ scans s' st2 rest2 /\
            arun st2 rest2 = Ok (st', []) /\ (rest2 = [] \/ st2 = AClosed)
  | e :: es => exists s' rest1, r = (Ok (Some e), s') /\ scans s' ABetween rest1 /\
            arun ABetween rest1 = Ok (st', es) /\ (length rest1 < length rest)%nat
  end.

Lemma next_element_spec s acc d str esc rest st' elems :
  scans s (AIn acc d str esc) rest -> arun (AIn acc d str esc) rest = Ok (st', elems) ->
  next_does (next_element s) rest st' elems.
Proof.
  intros (Hi & Hr & Hs & Hd & Hdep & Hin & Hesc & e & He & Hle & Hsub) Hrun. subst rest.
  unfold next_element. rewrite Hdep, Hin, Hesc, He. cbn [default].
  pose proof (scan_object_spec (drop (si s) (buf s)) acc d str esc 0) as Hsc.
  destruct (scan_object _ _ _ _ _) as [[[[k d'] str'] esc'] found].
  destruct Hsc as (l1 & l2 & El & -> & Hf). cbn [plus] in *. rewrite El in *.
  assert (si s + length l1 <= length (buf s))%nat as Hb.
  { apply (f_equal length) in El. rewrite length_drop, length_app in El. lia. }
  assert (sub (buf s) e (si s + length l1 - e) = acc ++ l1) as Hsub'.
  { unfold sub in *. rewrite <-Hsub.
    replace (si s + length l1 - e)%nat with ((si s - e) + length l1)%nat by lia.
    rewrite <-take_take_drop. f_equal. rewrite drop_drop.
    replace (e + (si s - e))%nat with (si s) by lia. rewrite El. by rewrite take_app_length. }
  rewrite arun_app in Hrun. destruct found.
  - rewrite Hf in Hrun. destruct (arun ABetween l2) as [[st2 es]|] eqn:E2; [|done].
    cbn in Hrun. injection Hrun as <- <-. do 2 eexists. cbn [id]. rewrite Hsub'. split; [done|]. split_and!.
    + split; [cbn; lia|]. split; [|done]. cbn. rewrite <-drop_drop, El. by rewrite drop_app_length.
    + done.
    + rewrite length_app. destruct l1; [done|]. cbn. lia.
  - destruct Hf as [-> Hf]. rewrite Hf in Hrun. cbn in Hrun. injection Hrun as <- <-.
    eexists _, (AIn (acc ++ l1) d' str' esc'), []. split; [done|]. split; [|split; [done|by left]].
    split; [cbn; lia|]. split.
    + cbn. rewrite <-drop_drop, El. by rewrite app_nil_r, drop_all.
    + cbn -[sub]. split_and!; try done. exists e. split_and!; [done|lia|done].
Qed.

Lemma next_started_spec s st rest st' elems :
  st <> ABefore -> scans s st rest -> arun st rest = Ok (st', elems) ->
  next_does (next_started s) rest st' elems.
Proof.
  intros Hst Hs Hrun. unfold next_started. cbv zeta.
  destruct st as [| |acc d str esc|]; [done|..].
  2: { destruct (elemStart s) eqn:E; [by eapply next_element_spec|].
       destruct Hs as (_ & _ & _ & _ & _ & _ & _ & e & ? & _). congruence. }
  all: assert (elemStart s = None) as He by apply Hs.
  all: rewrite He; set (p := fun c => isJSONSpace c || (c =? 44)).
  all: set (s1 := compact (at_cursor s (si s + skip_while p (drop (si s) (buf s))))).
  all: destruct Hs as (Hi & Hr & Hs1 & Hs2 & _); pose proof (skip_while_le p rest) as Hsk.
  all: assert (length rest = length (buf s) - si s)%nat as Hlr by (by rewrite <-Hr, length_drop).
  - destruct (arun_skip ABetween p rest) as [Har Hhd].
    { intros c Hc. cbn. unfold p in Hc. by rewrite Hc. }
    rewrite Har in Hrun. set (rest1 := drop (skip_while p rest) rest) in *.
    assert (scans s1 ABetween rest1) as Hsc.
    { apply scans_compact. unfold scans. cbn. rewrite Hr. split; [lia|].
      split; [by rewrite <-drop_drop, Hr|done]. }
    pose proof Hsc as (Hi1 & Hr1 & Hst1 & Hd1 & He1).
    replace (buf s1 !! si s1) with (head (drop (si s1) (buf s1)))
      by (by rewrite head_lookup, lookup_drop, Nat.add_0_r).
    rewrite Hr1.
    destruct rest1 as [|c rest2] eqn:Erest; cbn [head].
    { cbn in Hrun. injection Hrun as <- <-. exists s1, ABetween, []. by split_and!; [..|left]. }
    rewrite Hd1. unfold p in Hhd. cbn [arun astep] in Hrun. rewrite Hhd in Hrun.
    assert (S (length rest2) <= length rest)%nat as Hl2.
    { change (S (length rest2)) with (length (c :: rest2)). rewrite <-Erest. unfold rest1.
      rewrite length_drop. lia. }
    destruct (c =? 93) eqn:E93.
    { destruct (arun AClosed rest2) as [[st2 e2]|] eqn:E2; [|done]. cbn in Hrun. injection Hrun as -> ->.
      assert (elems = [] /\ st' = AClosed) as [-> ->].
      { clear -E2. revert elems E2. induction rest2 as [|x l IH]; intros elems; cbn [arun].
        - by intros [= <- <-].
        - cbn [astep]. destruct (isJSONSpace x || (x =? 44)); [|done].
          destruct (arun AClosed l) as [[st2 e2]|]; [|done]. cbn. intros [= -> ->]. by apply IH. }
      eexists _, AClosed, rest2. split; [done|]. split; [|split; [done|by right]].
      split; [cbn|].
      - apply (f_equal length) in Hr1. rewrite length_drop in Hr1. cbn in Hr1. lia.
      - split; [|done]. cbn. by rewrite <-drop_drop, Hr1. }
    destruct (c =? 123) eqn:E123; [|done]. cbn [negb].
    assert (arun (AIn [] 0 false false) (c :: rest2) = Ok (st', elems)) as Hin.
    { cbn [arun astep app]. apply Z.eqb_eq in E123 as ->. exact Hrun. }
    assert (scans (set_elem s1 (Some (si s1)) 0 false false) (AIn [] 0 false false) (c :: rest2)) as Hsc2.
    { split; [done|]. split; [done|]. cbn -[sub]. split_and!; try done. exists (si s1).
      split_and!; [done|lia|]. rewrite Nat.sub_diag. by unfold sub; rewrite take_0. }
    pose proof (next_element_spec _ _ _ _ _ _ _ _ Hsc2 Hin) as Hn.
    unfold next_does in *. destruct elems; [done|].
    destruct Hn as (s' & r1 & ? & ? & ? & Hlt). exists s', r1. split_and!; try done. cbn in Hlt. lia.
  - destruct (arun_skip AClosed p rest) as [Har Hhd].
    { intros c Hc. cbn. unfold p in Hc. by rewrite Hc. }
    rewrite Har in Hrun. set (rest1 := drop (skip_while p rest) rest) in *.
    assert (scans s1 AClosed rest1) as Hsc.
    { apply scans_compact. unfold scans. cbn. rewrite Hr. split; [lia|].
      split; [by rewrite <-drop_drop, Hr|done]. }
    pose proof Hsc as (Hi1 & Hr1 & Hst1 & Hd1 & He1).
    replace (buf s1 !! si s1) with (head (drop (si s1) (buf s1)))
      by (by rewrite head_lookup, lookup_drop, Nat.add_0_r).
    rewrite Hr1.
    destruct rest1 as [|c rest2]; cbn [head].
    { cbn in Hrun. injection Hrun as <- <-. exists s1, AClosed, []. by split_and!; [..|left]. }
    unfold p in Hhd. cbn [arun astep] in Hrun. by rewrite Hhd in Hrun.
Qed.

Lemma next_spec s st rest st' elems :
  scans s st rest -> arun st rest = Ok (st', elems) -> next_does (next s) rest st' elems.
Proof.
  intros Hs Hrun. unfold next. cbv zeta. destruct (started s) eqn:Est.
  { eapply next_started_spec; [|done|done]. intros ->. destruct Hs as (_ & _ & ? & _). congruence. }
  assert (st = ABefore) as ->.
  { destruct Hs as (_ & _ & Hst). destruct st; [done|..]; destruct Hst as (? & _); congruence. }
  destruct (arun_skip ABefore isJSONSpace rest) as [Har Hhd].
  { intros c Hc. cbn. by rewrite Hc. }
  rewrite Har in Hrun. destruct Hs as (Hi & Hr & _ & Hd & He).
  pose proof (skip_while_le isJSONSpace rest) as Hsk.
  assert (length rest = length (buf s) - si s)%nat as Hlr by (by rewrite <-Hr, length_drop).
  cbn [buf si at_cursor]. rewrite Hr. set (k := skip_while isJSONSpace rest) in *.
  replace (buf s !! (si s + k)%nat) with (head (drop k rest))
    by (by rewrite <-Hr, head_lookup, !lookup_drop, Nat.add_0_r).
  destruct (drop k rest) as [|c rest2] eqn:Erest; cbn [head].
  { cbn in Hrun. injection Hrun as <- <-. eexists _, ABefore, []. split; [done|]. split; [|split; [done|by left]].
    split; [cbn; lia|]. split; [|done]. cbn. by rewrite <-drop_drop, Hr. }
  cbn [arun astep] in Hrun. rewrite Hhd in Hrun.
  destruct (c =? 91) eqn:E91; [|done]. cbn [negb].
  assert (scans (at_cursor (set_started (at_cursor s (si s + k))) (si s + k + 1)) ABetween rest2) as Hsc.
  { assert (length (drop k rest) = S (length rest2)) as Hl by by rewrite Erest.
    rewrite length_drop in Hl.
    split; [cbn; lia|]. split; [|done]. cbn.
    rewrite <-drop_drop, <-drop_drop. by rewrite Hr, Erest. }
  destruct (arun ABetween rest2) as [[st2 e2]|] eqn:E2; [|done]. cbn in Hrun. injection Hrun as -> ->.
  assert (length rest2 < length rest)%nat as Hlt.
  { assert (length (drop k rest) = S (length rest2)) as Hl by by rewrite Erest.
    rewrite length_drop in Hl. lia. }
  assert (ABetween <> ABefore) as Hne by done.
  pose proof (next_started_spec _ _ _ _ _ Hne Hsc E2) as Hn.
  unfold next_does in *. destruct elems; [done|].
  destruct Hn as (s' & r1 & ? & ? & ? & ?). exists s', r1. split_and!; try done. lia.
Qed.

(** *** Draining *)
Definition drained (s : jsonArrayScanner) (st : astate) : Prop :=
  exists st0 rest0, scans s st0 rest0 /\ arun st0 rest0 = Ok (st, []) /\
    (rest0 = [] \/ st0 = AClosed).

Lemma arun_closed l st elems : arun AClosed l = Ok (st, elems) -> st = AClosed /\ elems = [].
Proof.
  revert elems. induction l as [|x l IH]; intros elems; cbn [arun]; [by intros [= <- <-]|].
  cbn [astep]. destruct (isJSONSpace x || (x =? 44)); [|done].
  destruct (arun AClosed l) as [[st2 e2]|]; [|done]. cbn. intros [= -> ->]. by apply IH.
Qed.

(** A drained scanner's flags are those of its state. *)
Lemma drained_done s st : drained s st -> sdone s = bool_decide (st = AClosed) /\
  (st = AClosed \/ st = ABetween \/ st = ABefore -> pending s = 0).
Proof.
  intros (st0 & rest0 & (Hi & Hr & Hst) & Hrun & Hor).
  assert (st0 = st) as ->.
  { destruct Hor as [-> | ->]; [by injection Hrun|]. by apply arun_closed in Hrun as [-> _]. }
  split.
  - destruct st; destruct Hst as (_ & Hd & _); rewrite Hd; symmetry;
      first [by apply bool_decide_eq_true_2 | by apply bool_decide_eq_false_2].
  - unfold pending. intros [->|[->| ->]]; by destruct Hst as (_ & _ & ->).
Qed.

Section drain.
Variable ParseFloat : gostring -> option Z.

Definition decodes (elems : list (list Z)) (evs : list traceEvent) : Prop :=
  Forall2 (fun e ev => Unmarshal_record e = Some ev) elems evs.

Lemma drain_loop_spec fuel s st rest st' elems evs a :
  scans (sc s) st rest -> arun st rest = Ok (st', elems) -> (length rest < fuel)%nat ->
  decodes elems evs -> foldm (push ParseFloat) (asm s) evs = Ok a ->
  exists sc', drain_loop ParseFloat fuel s = Ok (with_sc_asm s sc' a) /\ drained sc' st'.
Proof.
  intros Hs Hrun Hf Hdec. revert fuel s st rest Hs Hrun Hf.
  induction Hdec as [|e ev elems evs He _ IH]; intros fuel s st rest Hs Hrun Hf Ha;
    (destruct fuel as [|fuel]; [lia|]); cbn [drain_loop];
    pose proof (next_spec _ _ _ _ _ Hs Hrun) as Hn; cbn [next_does] in Hn.
  - destruct Hn as (s' & st2 & rest2 & -> & ? & ? & ?). cbn in Ha. injection Ha as <-.
    exists s'. split; [done|]. by exists st2, rest2.
  - destruct Hn as (s' & rest1 & -> & Hs' & Hrun' & Hlt). rewrite He. cbn [foldm] in Ha.
    destruct (push ParseFloat (asm s) ev) as [a1|] eqn:Ep; [|done].
    destruct (IH fuel (with_sc_asm s s' a1) ABetween rest1) as (sc' & -> & Hd); try done; [lia|].
    by exists sc'.
Qed.

(** What the producer wrote: the bytes up to the end of file. *)
Fixpoint stream_data (reads : list (list Z * read_status)) : option (list Z) :=
  match reads with
  | [] => Some []
  | (bytes, RNil) :: rest =>
      match stream_data rest with Some d => Some (bytes ++ d) | None => None end
  | (bytes, REOF) :: _ => Some bytes
  | (_, RErr) :: _ => None
  end.

(** The reader stands somewhere in a stream that ends in scanner state [se]
    with the assembler in state [ae]. *)
Definition reads_to (se : astate) (ae : assembler) (s : StreamReader) : Prop :=
  failed s = None /\ closed s = false /\ wf (asm s) /\ (snext s <= groups (asm s))%nat /\
  exists st data elems evs, drained (sc s) st /\
    (if eof s then data = [] else stream_data (src s) = Some data) /\
    arun st data = Ok (se, elems) /\ decodes elems evs /\
    foldm (push ParseFloat) (asm s) evs = Ok ae.

Lemma reads_to_extends se ae s : reads_to se ae s -> wf ae /\ extends (asm s) ae.
Proof.
  intros (_ & _ & Hwf & _ & st & data & elems & evs & _ & _ & _ & _ & Ha).
  pose proof (foldm_push_moves ParseFloat evs (asm s) Hwf) as Ma. rewrite Ha in Ma.
  by apply moves_wf in Ma.
Qed.

Lemma extends_groups a b : extends a b -> (groups a <= groups b)%nat.
Proof. intros ([more E] & _). unfold groups. rewrite E, length_app. lia. Qed.

Lemma pump_reads se ae s :
  reads_to se ae s -> eof s = false ->
  exists s', pump ParseFloat s = Ok s' /\ reads_to se ae s' /\ snext s' = snext s /\
    (eof s' = true \/ S (length (src s')) = length (src s)).
Proof.
  intros (Hfail & Hcl & Hwf & Hn & st & data & elems & evs & Hd & Hdata & Hrun & Hdec & Ha) Heof.
  rewrite Heof in Hdata. unfold pump. destruct (src s) as [|[bytes status] rest] eqn:Esrc.
  { cbn in Hdata. injection Hdata as <-. eexists. split; [done|]. split; [|split; [done|by left]].
    split_and!; try done. exists st, [], elems, evs. by split_and!. }
  assert (exists data', data = bytes ++ data' /\
    match status with RNil => stream_data rest = Some data' | REOF => data' = [] | RErr => False end)
    as (data' & -> & Hst).
  { cbn in Hdata. destruct status; [|by simplify_eq; exists []; rewrite app_nil_r|done].
    destruct (stream_data rest) as [d|]; [|done]. injection Hdata as <-. by exists d. }
  rewrite arun_app in Hrun. destruct (arun st bytes) as [[st1 e1]|] eqn:E1; [|done].
  destruct (arun st1 data') as [[st2 e2]|] eqn:E2; [|done]. cbn in Hrun. injection Hrun as -> <-.
  apply Forall2_app_inv_l in Hdec as (ev1 & ev2 & Hd1 & Hd2 & ->).
  rewrite foldm_app in Ha. destruct (foldm _ (asm s) ev1) as [a1|] eqn:Ea1; [|done].
  assert (exists sc', (if 0 <? len bytes
      then drain ParseFloat (with_sc_asm (with_src s rest) (feed (sc s) bytes) (asm s))
      else Ok (with_src s rest)) = Ok (with_sc_asm (with_src s rest) sc' a1) /\ drained sc' st1)
    as (sc' & Edr & Hdr).
  { destruct (Z.ltb_spec 0 (len bytes)) as [Hl|Hl].
    - destruct Hd as (st0 & rest0 & Hs & Hrun0 & _).
      eapply (drain_loop_spec _ (with_sc_asm (with_src s rest) (feed (sc s) bytes) (asm s)) st0 (rest0 ++ bytes)
        st1 e1 ev1 a1); try done.
      + by apply scans_feed.
      + rewrite arun_app, Hrun0, E1. done.
      + cbn. destruct Hs as (? & <- & _). rewrite !length_app, length_drop. lia.
    - destruct bytes; [|rewrite len_cons in Hl; pose proof (len_nonneg bytes); lia].
      cbn in E1. injection E1 as <- <-. inversion Hd1; subst. cbn in Ea1. injection Ea1 as <-.
      exists (sc s). by destruct s. }
  cbn [with_src sc asm] in *. rewrite Edr.
  assert (wf a1 /\ extends (asm s) a1) as [Wa1 Xa1].
  { pose proof (foldm_push_moves ParseFloat ev1 (asm s) Hwf) as Ma. rewrite Ea1 in Ma.
    by apply moves_wf in Ma. }
  apply extends_groups in Xa1.
  assert (reads_to se ae (with_sc_asm (with_src s rest) sc' a1) \/ status <> RNil) as Hnil.
  { destruct status; [left|by right..]. split_and!; try done; [cbn; lia|].
    exists st1, data', e2, ev2. cbn. rewrite Heof. by split_and!. }
  destruct status; [..|done].
  - eexists. split; [done|]. destruct Hnil; [|done]. split; [done|]. by split; [|right].
  - eexists. split; [done|]. split; [|split; [done|by left]].
    split_and!; try done; [cbn; lia|]. exists st1, data', e2, ev2. by split_and!.
Qed.

(** All reads are done and drained. *)
Definition at_end (se : astate) (ae : assembler) (s : StreamReader) : Prop :=
  failed s = None /\ closed s = false /\ eof s = true /\ asm s = ae /\ wf ae /\
  drained (sc s) se /\ snext s = groups ae.

Lemma NextGroup_loop_reads se ae fuel s :
  reads_to se ae s -> (length (src s) + 3 <= fuel)%nat ->
  if decide (snext s < groups ae)%nat
  then exists s', NextGroup_loop ParseFloat fuel s = Some (Ok (group ae (snext s)), s') /\
         reads_to se ae s' /\ snext s' = S (snext s)
  else exists s' fuel', NextGroup_loop ParseFloat fuel s = NextGroup_loop ParseFloat fuel' s' /\
         (2 <= fuel')%nat /\ at_end se ae s'.
Proof.
  intros Hs Hf.
  assert ((if eof s then 2 else length (src s) + 3) <= fuel)%nat as Hf' by (destruct (eof s); lia).
  clear Hf. revert s Hs Hf'. induction fuel as [|fuel IH]; intros s Hs Hf; [destruct (eof s); lia|].
  pose proof (reads_to_extends _ _ _ Hs) as [Wb Xb]. pose proof (extends_groups _ _ Xb) as Hgr.
  cbn [NextGroup_loop]. destruct (Nat.ltb_spec (snext s) (groups (asm s))) as [Hlt|Hge].
  { rewrite decide_True by lia. exists (with_next s).
    rewrite (extends_group (asm s) ae) by (done || apply Hs). split; [done|]. split; [|done].
    destruct Hs as (? & ? & ? & ? & H). by split_and!. }
  destruct (eof s) eqn:Eeof.
  - pose proof Hs as (Hfail & Hcl & Hwf & Hn & st & data & elems & evs & Hd & Hdata & Hrun & Hdec & Ha).
    rewrite Eeof in Hdata. subst data. cbn in Hrun. injection Hrun as -> <-.
    inversion Hdec; subst. cbn in Ha. injection Ha as Ha.
    rewrite decide_False by (rewrite <-Ha; lia). exists s, (S fuel). cbn [NextGroup_loop].
    destruct (Nat.ltb_spec (snext s) (groups (asm s))); [lia|]. rewrite Eeof. split; [done|].
    split; [done|]. split_and!; try done. rewrite <-Ha. lia.
  - destruct (pump_reads se ae s Hs Eeof) as (s' & -> & Hs' & Hsn & Hsrc). rewrite <-Hsn.
    apply IH; [done|]. destruct Hsrc as [-> |Hl]; [lia|]. destruct (eof s'); lia.
Qed.

Lemma NextGroup_reads se ae s :
  reads_to se ae s -> (snext s < groups ae)%nat ->
  exists s', NextGroup ParseFloat s = Some (Ok (group ae (snext s)), s') /\
    reads_to se ae s' /\ snext s' = S (snext s).
Proof.
  intros Hs Hlt. unfold NextGroup. rewrite (proj1 Hs).
  pose proof (NextGroup_loop_reads se ae (length (src s) + 3) s Hs ltac:(lia)) as H.
  by rewrite decide_True in H.
Qed.

Lemma read_groups_S n s :
  read_groups ParseFloat (S n) s =
  match NextGroup ParseFloat s with
  | None => None
  | Some (Err e, s) => Some ([], e, s)
  | Some (Ok g, s) =>
      match read_groups ParseFloat n s with
      | Some (gs, e, s) => Some (g :: gs, e, s)
      | None => None
      end
  end.
Proof. done. Qed.

(** The completed groups are handed out in order; then the end is reached. *)
Lemma read_groups_reads se ae n m s :
  reads_to se ae s -> (snext s + n = groups ae)%nat ->
  exists s', reads_to se ae s' /\ snext s' = groups ae /\
    read_groups ParseFloat (n + m) s =
    match read_groups ParseFloat m s' with
    | Some (gs, e, s) => Some ((group ae <$> seq (snext s' - n) n) ++ gs, e, s)
    | None => None
    end.
Proof.
  revert s. induction n as [|n IH]; intros s Hs Hn.
  { exists s. split; [done|]. split; [lia|]. cbn [plus seq fmap list_fmap app].
    by destruct (read_groups ParseFloat m s) as [[[]]|]. }
  cbn [plus]. rewrite read_groups_S.
  destruct (NextGroup_reads se ae s Hs ltac:(lia)) as (s1 & -> & Hs1 & Hsn).
  destruct (IH s1 Hs1 ltac:(lia)) as (s' & Hs' & Hn' & ->). exists s'. split; [done|]. split; [done|].
  destruct (read_groups ParseFloat m s') as [[[gs e] s2]|]; [|done].
  rewrite Hn'. replace (groups ae - S n)%nat with (snext s) by lia.
  replace (groups ae - n)%nat with (S (snext s)) by lia. done.
Qed.

(** A reader whose stream has been closed cleanly. *)
Lemma closed_reads b s fuel :
  closed s = true -> eof s = true -> asm s = b -> (snext s <= groups b)%nat ->
  NextGroup_loop ParseFloat (S fuel) s =
  if decide (snext s < groups b)%nat then Some (Ok (group b (snext s)), with_next s)
  else Some (Err EOF, s).
Proof.
  intros Hc He Ha Hn. cbn [NextGroup_loop]. rewrite Ha, He, Hc.
  destruct (Nat.ltb_spec (snext s) (groups b)); [by rewrite decide_True|by rewrite decide_False by lia].
Qed.

Lemma read_groups_closed b n s :
  failed s = None -> closed s = true -> eof s = true -> asm s = b ->
  (snext s + n = groups b)%nat ->
  exists s', read_groups ParseFloat (S n) s = Some (group b <$> seq (snext s) n, EOF, s') /\ asm s' = b.
Proof.
  revert s. induction n as [|n IH]; intros s Hf Hc He Ha Hn; rewrite read_groups_S;
    unfold NextGroup; rewrite Hf; replace (length (src s) + 3)%nat with (S (length (src s) + 2)) by lia;
    rewrite (closed_reads b) by (done || lia).
  - rewrite decide_False by lia. by exists s.
  - rewrite decide_True by lia. destruct (IH (with_next s)) as (s' & -> & ?); try done; [cbn; lia|].
    by exists s'.
Qed.

(** The end of a stream: what [finishStream] decides. *)
Lemma read_groups_end se ae m s :
  reads_to se ae s -> snext s = groups ae ->
  exists s', at_end se ae s' /\
  match finishStream s' with
  | Err e => exists s'', read_groups ParseFloat (S m) s = Some ([], e, s'')
  | Ok s'' => forall b, asm s'' = b -> closed s'' = true -> eof s'' = true -> failed s'' = None ->
      snext s'' = groups ae -> (groups ae <= groups b)%nat -> m = (groups b - groups ae)%nat ->
      exists s3, read_groups ParseFloat (S m) s =
        Some (group b <$> seq (groups ae) m, EOF, s3) /\ asm s3 = b
  end.
Proof.
  intros Hs Hn. pose proof (NextGroup_loop_reads se ae (length (src s) + 3) s Hs ltac:(lia)) as H.
  rewrite decide_False in H by lia. destruct H as (s' & fuel & Hloop & Hf & Hend).
  exists s'. split; [done|]. destruct Hend as (Hfail & Hcl & Heof & Hasm & Hwf & Hd & Hsn).
  destruct fuel as [|[|fuel]]; [lia|lia|].
  assert (NextGroup ParseFloat s = match finishStream s' with
    | Err e => Some (Err e, fail s' e) | Ok s => NextGroup_loop ParseFloat (S fuel) s end) as Hng.
  { unfold NextGroup. rewrite (proj1 Hs), Hloop. cbn [NextGroup_loop]. rewrite Hasm, Hsn, Nat.ltb_irrefl.
    by rewrite Heof, Hcl. }
  destruct (finishStream s') as [s''|e].
  - intros b Hb Hc He Hfl Hsn' Hle Hm. rewrite read_groups_S, Hng, (closed_reads b) by (done || lia).
    rewrite Hsn'. destruct m as [|m].
    + rewrite decide_False by lia. exists s''. done.
    + rewrite decide_True by lia.
      destruct (read_groups_closed b m (with_next s'')) as (s3 & -> & Hs3); try done; [cbn; lia|].
      exists s3. cbn [snext with_next]. rewrite Hsn'. done.
  - exists (fail s' e). by rewrite read_groups_S, Hng.
Qed.

End drain.

End Stream.
