(* ===== verification/Agreement.v ===== *)
(** * The batch and the streaming reader agree

    [LoadRecording] decodes the whole of [trace.json] at once; [StreamReader]
    splits it with its own scanner, in reads of any size.  The first part shows
    that the scanner cuts an array exactly where the JSON grammar does; the
    second that both readers then see the same call groups. *)
From S2P Require Import Prelude GoStd Json Values Recording HostState Assembler Stream.

Module Agreement.
Import GoStd Json Values Recording HostState Assembler Stream.

(** ** Text the scanner passes over inside an element *)
Definition passes (p : list Z) : Prop := forall acc d, 1 <= d ->
  arun (AIn acc d false false) p = Ok (AIn (acc ++ p) d false false, []).

Lemma passes_nil : passes [].
Proof. intros acc d _. cbn. by rewrite app_nil_r. Qed.

Lemma passes_app p q : passes p -> passes q -> passes (p ++ q).
Proof.
  intros Hp Hq acc d Hd. rewrite arun_app, Hp by done. cbn. rewrite Hq by done. cbn.
  by rewrite app_assoc.
Qed.

Definition ordinary (c : Z) : Prop := c <> 34 /\ c <> 123 /\ c <> 125.

Lemma passes_one c : ordinary c -> passes [c].
Proof.
  intros (H1 & H2 & H3) acc d _. cbn.
  destruct (Z.eqb_spec c 34); [done|]. destruct (Z.eqb_spec c 123); [done|].
  by destruct (Z.eqb_spec c 125).
Qed.

Lemma passes_ordinary p : Forall ordinary p -> passes p.
Proof.
  induction 1 as [|c p Hc _ IH]; [apply passes_nil|].
  change (c :: p) with ([c] ++ p). apply passes_app; [by apply passes_one|done].
Qed.

Lemma passes_cons c p : ordinary c -> passes p -> passes (c :: p).
Proof. intros Hc Hp. change (c :: p) with ([c] ++ p). apply passes_app; [by apply passes_one|done]. Qed.

Lemma passes_object p : passes p -> passes (123 :: p ++ [125]).
Proof.
  intros Hp acc d Hd. cbn [arun astep]. cbn [Z.eqb Pos.eqb].
  rewrite arun_app, Hp by lia. cbn. replace (d + 1 - 1) with d by lia.
  destruct (Z.eqb_spec d 0); [lia|]. cbn. do 3 f_equal. by rewrite <-!app_assoc.
Qed.

(** A string's contents after its opening quote. *)
Definition passes_string (p : list Z) : Prop := forall acc d,
  arun (AIn acc d true false) p = Ok (AIn (acc ++ p) d false false, []).

Lemma passes_quoted p : passes_string p -> passes (34 :: p).
Proof.
  intros Hp acc d Hd. cbn [arun astep]. cbn [Z.eqb Pos.eqb]. rewrite Hp. cbn.
  by rewrite <-app_assoc.
Qed.

(** An object between elements is an element. *)
Lemma arun_element p :
  passes p -> arun ABetween (123 :: p ++ [125]) = Ok (ABetween, [123 :: p ++ [125]]).
Proof.
  intros Hp. cbn [arun astep isJSONSpace Z.eqb Pos.eqb orb]. rewrite arun_app, Hp by lia. done.
Qed.

(** ** Whitespace *)
Definition blank (ws : list Z) : Prop := Forall (fun c => is_ws c = true) ws.

Lemma is_ws_cases c : is_ws c = true -> c = 32 \/ c = 9 \/ c = 10 \/ c = 13.
Proof. unfold is_ws. intros H. zbool; cbn in *; lia || done. Qed.

Lemma blank_passes ws : blank ws -> passes ws.
Proof.
  intros H. apply passes_ordinary. eapply Forall_impl; [exact H|]. cbv beta. intros c Hc.
  apply is_ws_cases in Hc. unfold ordinary. lia.
Qed.

Lemma arun_blank st ws :
  st = ABefore \/ st = ABetween \/ st = AClosed -> blank ws -> arun st ws = Ok (st, []).
Proof.
  intros Hst. induction 1 as [|c ws Hc _ IH]; [done|]. cbn [arun].
  assert (astep st c = Ok (st, [])) as ->.
  { destruct Hst as [->|[->| ->]]; cbn; change (isJSONSpace c) with (is_ws c); by rewrite Hc. }
  by rewrite IH.
Qed.

Lemma skip_ws_split s :
  exists ws, s = ws ++ skip_ws s /\ blank ws /\
    match skip_ws s with c :: _ => is_ws c = false | [] => True end.
Proof.
  induction s as [|c s (ws & E & Hb & Hh)]; cbn [skip_ws]; [exists []; by repeat constructor|].
  destruct (is_ws c) eqn:Ec; [|exists []; by repeat constructor].
  exists (c :: ws). cbn. split; [by rewrite <-E|]. split; [by constructor|done].
Qed.

Lemma skip_ws_blank ws s : blank ws -> skip_ws (ws ++ s) = skip_ws s.
Proof. induction 1 as [|c ws Hc _ IH]; [done|]. cbn. by rewrite Hc. Qed.

(** ** Strings *)
Lemma hex4_ordinary a b c d r : hex4 a b c d = Some r -> Forall (fun x => x <> 34 /\ x <> 92) [a; b; c; d].
Proof.
  unfold hex4, ParseUint. cbn [ParseUint_loop]. intros H.
  assert (forall x n, digit_value x = Some n -> x <> 34 /\ x <> 92) as Hd.
  { intros x n Hx. apply digit_value_range in Hx. lia. }
  destruct (digit_value a) eqn:Ea; [|done]. destruct (16 <=? _); [done|]. destruct (_ <? _); [done|].
  destruct (digit_value b) eqn:Eb; [|done]. destruct (16 <=? _); [done|]. destruct (_ <? _); [done|].
  destruct (digit_value c) eqn:Ec; [|done]. destruct (16 <=? _); [done|]. destruct (_ <? _); [done|].
  destruct (digit_value d) eqn:Ed; [|done].
  repeat (constructor; [by eapply Hd|]). constructor.
Qed.

Lemma ps_quote : passes_string [34].
Proof. done. Qed.

Lemma ps_plain c p : c <> 34 /\ c <> 92 -> passes_string p -> passes_string (c :: p).
Proof.
  intros [H1 H2] Hp acc d. cbn [arun astep].
  destruct (Z.eqb_spec c 92); [done|]. destruct (Z.eqb_spec c 34); [done|].
  rewrite Hp. cbn. by rewrite <-app_assoc.
Qed.

Lemma ps_escape e p : passes_string p -> passes_string (92 :: e :: p).
Proof. intros Hp acc d. cbn [arun astep Z.eqb Pos.eqb]. rewrite Hp. cbn. by rewrite <-!app_assoc. Qed.

Lemma ps_unicode a b c d p :
  Forall (fun x => x <> 34 /\ x <> 92) [a; b; c; d] -> passes_string p ->
  passes_string (92 :: 117 :: a :: b :: c :: d :: p).
Proof.
  intros H Hp. rewrite !Forall_cons in H. destruct H as (? & ? & ? & ? & _).
  apply ps_escape. by repeat apply ps_plain.
Qed.

(** The second half of a surrogate pair at the head of the text. *)
Definition low_surrogate (r : Z) (t : list Z) : option (Z * list Z) :=
  match t with
  | b1 :: u1 :: a2 :: b2 :: c2 :: d2 :: t3 =>
      if surrogate r && (b1 =? 92) && (u1 =? 117) then
        match hex4 a2 b2 c2 d2 with
        | Some r2 => match surrogate_pair r r2 with Some cp => Some (cp, t3) | None => None end
        | None => None
        end
      else None
  | _ => None
  end.

Lemma parse_string_unicode a b c d t :
  parse_string (92 :: 117 :: a :: b :: c :: d :: t) =
  match hex4 a b c d with
  | None => None
  | Some r =>
      match low_surrogate r t with
      | Some (cp, t3) =>
          match parse_string t3 with Some (out, rest) => Some (encode_rune cp ++ out, rest) | None => None end
      | None =>
          match parse_string t with
          | Some (out, rest) => Some (encode_rune (rune_of r) ++ out, rest)
          | None => None
          end
      end
  end.
Proof.
  cbn [parse_string Z.eqb Pos.eqb Z.ltb Z.compare Pos.compare Pos.compare_cont].
  destruct (hex4 a b c d) as [r|]; [|done].
  destruct t as [|b1 [|u1 [|a2 [|b2 [|c2 [|d2 t3]]]]]]; try done.
  cbn [low_surrogate]. destruct (surrogate r && (b1 =? 92) && (u1 =? 117)); [|done].
  destruct (hex4 a2 b2 c2 d2) as [r2|]; [|done]. by destruct (surrogate_pair r r2).
Qed.

Lemma low_surrogate_some r t cp t3 :
  low_surrogate r t = Some (cp, t3) ->
  exists a b c d, t = 92 :: 117 :: a :: b :: c :: d :: t3 /\
    Forall (fun x => x <> 34 /\ x <> 92) [a; b; c; d] /\
    forall x, low_surrogate r (92 :: 117 :: a :: b :: c :: d :: x) = Some (cp, x).
Proof.
  destruct t as [|b1 [|u1 [|a2 [|b2 [|c2 [|d2 t3']]]]]]; try done. cbn [low_surrogate].
  destruct (surrogate r) eqn:Es; [|done]. destruct (Z.eqb_spec b1 92) as [->|]; [|done].
  destruct (Z.eqb_spec u1 117) as [->|]; [|done]. cbn [andb].
  destruct (hex4 a2 b2 c2 d2) as [r2|] eqn:Eh; [|done].
  destruct (surrogate_pair r r2) as [cp'|] eqn:Ep; [|done]. intros [= <- <-].
  exists a2, b2, c2, d2. split; [done|]. split; [by eapply hex4_ordinary|].
  intros x.
  cbn [low_surrogate]. rewrite ?Es. cbn [Z.eqb Pos.eqb andb]. by rewrite Eh, Ep.
Qed.

(** Whether a pair follows is decided by the string's own bytes. *)
Lemma low_surrogate_none r p rest rest' :
  passes_string p -> low_surrogate r (p ++ rest) = None -> low_surrogate r (p ++ rest') = None.
Proof.
  intros Hp Hn. destruct (low_surrogate r (p ++ rest')) as [[cp t3]|] eqn:E; [|done].
  apply low_surrogate_some in E as (a & b & c & d & E & Ho & Hx).
  rewrite !Forall_cons in Ho. destruct Ho as ([] & [] & [] & [] & _).
  specialize (Hp [] 1).
  destruct p as [|p1 [|p2 [|p3 [|p4 [|p5 [|p6 p]]]]]]; cbn [app] in E;
    try discriminate Hp; injection E; clear E; intros; subst;
    try (exfalso; revert Hp; cbn [arun astep Z.eqb Pos.eqb];
         repeat (match goal with H : ?x <> ?k |- context [?x =? ?k] =>
           rewrite (proj2 (Z.eqb_neq x k) H) end; cbn); done).
  cbn [app] in Hn. by rewrite Hx in Hn.
Qed.

(** The consumed prefix of a string determines the result, whatever follows. *)
Definition string_prefix (s : list Z) (str rest : list Z) : Prop :=
  exists p, s = p ++ rest /\ passes_string p /\
    forall rest', parse_string (p ++ rest') = Some (str, rest').

Lemma parse_string_split s str rest : parse_string s = Some (str, rest) -> string_prefix s str rest.
Proof.
  revert str rest. induction s as [s IH] using (induction_ltof1 _ (@length Z)).
  unfold ltof in IH. intros str rest. destruct s as [|c t]; [done|]. cbn [parse_string].
  destruct (c =? 34) eqn:E34.
  { apply Z.eqb_eq in E34 as ->. intros [= <- <-]. exists [34]. by split_and!. }
  destruct (c <? 32) eqn:E32; [done|]. destruct (c =? 92) eqn:E92.
  2: { destruct (parse_string t) as [[out r]|] eqn:Et; [|done]. intros [= <- <-].
       apply IH in Et as (p & -> & Hp & Hr); [|cbn; lia]. exists (c :: p). split_and!; [done|..].
       - apply ps_plain; [|done]. apply Z.eqb_neq in E34, E92. done.
       - intros rest'. cbn [app parse_string]. by rewrite E34, E32, E92, Hr. }
  apply Z.eqb_eq in E92 as ->. destruct t as [|e t1]; [done|].
  destruct (e =? 117) eqn:E117.
  2: { destruct (simple_escape e) as [x|] eqn:Ee; [|done].
       destruct (parse_string t1) as [[out r]|] eqn:Et; [|done]. intros [= <- <-].
       apply IH in Et as (p & -> & Hp & Hr); [|cbn; lia]. exists (92 :: e :: p). split_and!; [done|..].
       - by apply ps_escape.
       - intros rest'. cbn [app parse_string]. cbn [Z.eqb Pos.eqb Z.ltb Z.compare]. cbn.
         by rewrite E117, Ee, Hr. }
  apply Z.eqb_eq in E117 as ->.
  destruct t1 as [|a [|b [|c' [|d t2]]]]; try done.
  change (parse_string (92 :: 117 :: a :: b :: c' :: d :: t2) = Some (str, rest) ->
          string_prefix (92 :: 117 :: a :: b :: c' :: d :: t2) str rest).
  rewrite parse_string_unicode. destruct (hex4 a b c' d) as [r|] eqn:Eh; [|done].
  pose proof (hex4_ordinary _ _ _ _ _ Eh) as Ho.
  destruct (low_surrogate r t2) as [[cp t3]|] eqn:El.
  - apply low_surrogate_some in El as (a2 & b2 & c2 & d2 & -> & Ho2 & Hx).
    destruct (parse_string t3) as [[out r']|] eqn:Et; [|done]. intros [= <- <-].
    apply IH in Et as (p & -> & Hp & Hr); [|cbn; lia].
    exists (92 :: 117 :: a :: b :: c' :: d :: 92 :: 117 :: a2 :: b2 :: c2 :: d2 :: p).
    split_and!; [done|by do 2 (apply ps_unicode; [done|])|].
    intros rest'. cbn [app]. by rewrite parse_string_unicode, Eh, Hx, Hr.
  - destruct (parse_string t2) as [[out r']|] eqn:Et; [|done]. intros [= <- <-].
    apply IH in Et as (p & -> & Hp & Hr); [|cbn; lia].
    exists (92 :: 117 :: a :: b :: c' :: d :: p). split_and!; [done|by apply ps_unicode|].
    intros rest'. cbn [app]. rewrite parse_string_unicode, Eh.
    by rewrite (low_surrogate_none r p r' rest' Hp El), Hr.
Qed.

(** ** Numbers *)

(** A number ends before this text. *)
Definition stops (rest : list Z) : Prop :=
  match rest with
  | c :: _ => is_digit c = false /\ c <> 46 /\ c <> 101 /\ c <> 69
  | [] => True
  end.
Definition no_digit (rest : list Z) : Prop :=
  match rest with c :: _ => is_digit c = false | [] => True end.

Lemma digit_ordinary c : is_digit c = true -> ordinary c /\ is_ws c = false.
Proof.
  unfold is_digit. intros H. apply andb_true_iff in H as [H1 H2].
  apply Z.leb_le in H1. apply Z.leb_le in H2. split; [unfold ordinary; lia|].
  destruct (is_ws c) eqn:E; [|done]. apply is_ws_cases in E. lia.
Qed.

Lemma take_digits_split s ds r :
  take_digits s = (ds, r) ->
  s = ds ++ r /\ Forall (fun c => is_digit c = true) ds /\
  forall r', no_digit r' -> take_digits (ds ++ r') = (ds, r').
Proof.
  revert ds r. induction s as [|c s IH]; intros ds r; cbn [take_digits].
  { intros [= <- <-]. split_and!; [done|constructor|]. intros [|c r'] H; [done|].
    cbn in *. by rewrite H. }
  destruct (is_digit c) eqn:E.
  - destruct (take_digits s) as [ds1 r1]. intros [= <- <-].
    destruct (IH _ _ eq_refl) as (-> & Hd & Hr). split_and!; [done|by constructor|].
    intros r' H. cbn. by rewrite E, Hr.
  - intros [= <- <-]. split_and!; [done|constructor|]. intros [|c' r'] H; [done|].
    cbn in *. by rewrite H.
Qed.

Lemma digits_ordinary ds : Forall (fun c => is_digit c = true) ds -> Forall ordinary ds.
Proof. intros H. eapply Forall_impl; [exact H|]. intros c Hc. by apply digit_ordinary. Qed.

Lemma parse_frac_split s t r :
  parse_frac s = Some (t, r) ->
  s = t ++ r /\ Forall ordinary t /\ match t with c :: _ => c = 46 | [] => True end /\
  forall r', no_digit r' -> (t = [] -> match r' with c :: _ => c <> 46 | [] => True end) ->
    parse_frac (t ++ r') = Some (t, r').
Proof.
  assert (forall r', match r' with c :: _ => c <> 46 | [] => True end ->
    parse_frac r' = Some ([], r')) as Hempty.
  { intros [|c r'] H; [done|]. cbn. by destruct (Z.eqb_spec c 46). }
  destruct s as [|c s]; cbn [parse_frac].
  { intros [= <- <-]. split_and!; [done|constructor|done|]. intros r' _ H. by apply Hempty, H. }
  destruct (Z.eqb_spec c 46) as [->|Hc].
  - destruct (take_digits s) as [ds r1] eqn:E. case_bool_decide as Hne; [done|]. intros [= <- <-].
    apply take_digits_split in E as (-> & Hd & Hr). split_and!; [done|..|done|].
    + constructor; [unfold ordinary; lia|by apply digits_ordinary].
    + intros r' H _. cbn. rewrite Hr by done. by rewrite bool_decide_eq_false_2.
  - intros [= <- <-]. split_and!; [done|constructor|done|]. intros r' _ H. by apply Hempty, H.
Qed.

Lemma parse_exp_split s t r :
  parse_exp s = Some (t, r) ->
  s = t ++ r /\ Forall ordinary t /\ match t with c :: _ => c = 101 \/ c = 69 | [] => True end /\
  forall r', stops r' -> parse_exp (t ++ r') = Some (t, r').
Proof.
  assert (forall r', stops r' -> parse_exp r' = Some ([], r')) as Hempty.
  { intros [|c r'] H; [done|]. cbn. destruct H as (_ & _ & ? & ?).
    by destruct (Z.eqb_spec c 101), (Z.eqb_spec c 69). }
  destruct s as [|c s]; cbn [parse_exp].
  { intros [= <- <-]. split_and!; [done|constructor|done|]. done. }
  destruct ((c =? 101) || (c =? 69)) eqn:Ec.
  2: { intros [= <- <-]. split_and!; [done|constructor|done|]. done. }
  assert (c = 101 \/ c = 69) as Hc.
  { apply orb_true_iff in Ec as [Ec|Ec]; apply Z.eqb_eq in Ec; lia. }
  destruct (parse_exp_sign s) as [sg t1] eqn:Es. destruct (take_digits t1) as [ds r1] eqn:E.
  case_bool_decide as Hne; [done|]. intros [= <- <-].
  apply take_digits_split in E as (-> & Hd & Hr).
  assert (s = sg ++ ds ++ r1 /\ Forall ordinary sg /\
    forall x, parse_exp_sign (sg ++ ds ++ x) = (sg, ds ++ x)) as (-> & Hsg & Hsx).
  { destruct s as [|x u]; cbn in Es; [by simplify_eq; destruct ds|].
    destruct ((x =? 43) || (x =? 45)) eqn:Ex; simplify_eq.
    - split_and!; [done|..].
      + constructor; [|constructor]. apply orb_true_iff in Ex as [Ex|Ex]; apply Z.eqb_eq in Ex;
          unfold ordinary; lia.
      + intros y. cbn. by rewrite Ex.
    - split_and!; [done|constructor|]. intros y. destruct ds as [|d ds]; [done|].
      cbn in *. simplify_eq. by rewrite Ex. }
  split_and!; [cbn; by rewrite <-app_assoc|..|done|].
  - constructor; [unfold ordinary; lia|]. apply Forall_app. split; [done|by apply digits_ordinary].
  - intros r' H. cbn. rewrite Ec, <-app_assoc, Hsx, Hr, bool_decide_eq_false_2; [done..|].
    destruct r'; [done|]. by destruct H.
Qed.

Lemma parse_number_split s t r :
  parse_number s = Some (t, r) ->
  s = t ++ r /\ Forall ordinary t /\
  match t with c :: _ => is_ws c = false /\ c <> 110 /\ c <> 116 /\ c <> 102 /\ c <> 91 | [] => False end /\
  forall r', stops r' -> parse_number (t ++ r') = Some (t, r').
Proof.
  unfold parse_number. destruct (parse_sign s) as [sign s1] eqn:Esg.
  destruct (take_digits s1) as [ip s2] eqn:Eip. destruct (int_part_ok ip) eqn:Eok; [|done]. cbn [negb].
  destruct (parse_frac s2) as [[fp s3]|] eqn:Ef; [|done].
  destruct (parse_exp s3) as [[ep s4]|] eqn:Ee; [|done]. intros [= <- <-].
  apply take_digits_split in Eip as (-> & Hip & Hipr).
  apply parse_frac_split in Ef as (-> & Hfp & Hfh & Hfr).
  apply parse_exp_split in Ee as (-> & Hep & Heh & Her).
  assert (ip <> []) as Hne by (by intros ->).
  assert (s = sign ++ ip ++ fp ++ ep ++ s4 /\ Forall ordinary sign /\
    (sign = [] \/ sign = [45]) /\
    forall x, parse_sign (sign ++ ip ++ x) = (sign, ip ++ x)) as (-> & Hsg & Hsh & Hsx).
  { destruct s as [|c s]; cbn in Esg.
    { simplify_eq. by destruct ip. }
    destruct (c =? 45) eqn:Ec; simplify_eq.
    - apply Z.eqb_eq in Ec as ->. split_and!; [done|..|by right|done].
      constructor; [unfold ordinary; lia|constructor].
    - split_and!; [done|constructor|by left|]. intros x. destruct ip as [|d ip]; [done|].
      cbn in *. simplify_eq. by rewrite Ec. }
  rewrite <-!app_assoc. split; [done|]. split; [|split].
  - rewrite !Forall_app. split_and!; try done. by apply digits_ordinary.
  - destruct Hsh as [-> | ->]; [|done]. destruct ip as [|d ip]; [done|]. cbn.
    apply Forall_cons in Hip as [Hd _]. split; [by apply digit_ordinary|].
    unfold is_digit in Hd. apply andb_true_iff in Hd as [? ?]. zbool; lia.
  - intros r' Hs. rewrite <-!app_assoc, Hsx, Hipr.
    + rewrite Eok. cbn [negb]. rewrite Hfr; [|..].
      * rewrite Her by done. done.
      * destruct ep as [|c ep]; [by destruct r'; [|destruct Hs]|]. cbn. by destruct Heh as [-> | ->].
      * intros _. destruct ep as [|c ep]; [destruct r'; [done|by destruct Hs as (_ & ? & _)]|].
        cbn. by destruct Heh as [-> | ->].
    + destruct fp as [|c fp]; [|by rewrite Hfh]. cbn [app].
      destruct ep as [|c ep]; [by destruct r'; [|destruct Hs]|]. cbn. by destruct Heh as [-> | ->].
Qed.

(** ** Values, elements and members *)
Lemma expect_skip b r r2 :
  expect b (skip_ws r) = Some r2 -> exists ws, r = ws ++ b :: r2 /\ blank ws.
Proof.
  destruct (skip_ws_split r) as (ws & E & Hb & _). intros H. exists ws. split; [|done].
  rewrite E at 1. f_equal. unfold expect in H. destruct (skip_ws r) as [|c t]; [done|].
  destruct (Z.eqb_spec c b) as [->|]; [|done]. by simplify_eq.
Qed.

Lemma expect_at b b' ws x :
  blank ws -> is_ws b = false ->
  expect b' (skip_ws (ws ++ b :: x)) = if b =? b' then Some x else None.
Proof. intros Hb Hw. rewrite skip_ws_blank by done. cbn [skip_ws]. by rewrite Hw. Qed.

Lemma stops_at ws b x : blank ws -> b = 93 \/ b = 44 \/ b = 125 -> stops (ws ++ b :: x).
Proof.
  intros Hb Hc. destruct Hb as [|c ws H _]; cbn.
  - unfold is_digit. destruct Hc as [->|[->| ->]]; by split_and!.
  - apply is_ws_cases in H. unfold is_digit. destruct H as [->|[->|[->| ->]]]; by split_and!.
Qed.

Definition headok (v : json) (rest : list Z) : Prop :=
  match v with JNum _ => stops rest | _ => True end.
Definition is_obj (v : json) : Prop := match v with JObj _ => True | _ => False end.

(** What a value consumes: leading blanks and its own text, which the scanner
    passes over and which parses to the value in any context. *)
Definition value_prefix (s : list Z) (v : json) (rest : list Z) : Prop :=
  exists ws p, s = ws ++ p ++ rest /\ blank ws /\
    match p with c :: _ => is_ws c = false | [] => False end /\ passes p /\
    (is_obj v -> exists inner, p = 123 :: inner ++ [125] /\ passes inner) /\
    forall fuel ws' rest', (2 * length p <= fuel)%nat -> blank ws' -> headok v rest' ->
      parse_value fuel (ws' ++ p ++ rest') = Some (v, rest').

Definition elements_prefix (s : list Z) (vs : list json) (rest : list Z) : Prop :=
  exists p, s = p ++ rest /\ p <> [] /\ passes p /\
    (Forall is_obj vs -> exists elems, arun ABetween p = Ok (AClosed, elems) /\
       Forall2 (fun e v => parse_json e = Some v) elems vs) /\
    forall fuel rest', (2 * length p <= fuel)%nat -> parse_elements fuel (p ++ rest') = Some (vs, rest').

Definition members_prefix (s : list Z) (ms : list (list Z * json)) (rest : list Z) : Prop :=
  exists inner, s = inner ++ 125 :: rest /\ inner <> [] /\ passes inner /\
    forall fuel rest', (2 * (length inner + 1) <= fuel)%nat ->
      parse_members fuel (inner ++ 125 :: rest') = Some (ms, rest').

Lemma value_prefix_parse s v rest ws p :
  is_obj v -> (forall fuel ws' rest', (2 * length p <= fuel)%nat -> blank ws' -> headok v rest' ->
      parse_value fuel (ws' ++ p ++ rest') = Some (v, rest')) ->
  s = ws ++ p ++ rest -> parse_json p = Some v.
Proof.
  intros Hobj H _. unfold parse_json. specialize (H (2 * length p)%nat [] []).
  cbn [app] in H. rewrite app_nil_r in H. rewrite H; [done|lia|constructor|by destruct v].
Qed.

(** A literal word. *)
Lemma literal_prefix lit v c t :
  (v = JNull /\ lit = $"null") \/ (v = JBool true /\ lit = $"true") \/ (v = JBool false /\ lit = $"false") ->
  HasPrefix (c :: t) lit = true -> value_prefix (c :: t) v (drop (length lit) (c :: t)).
Proof.
  intros Hl Hp. apply HasPrefix_spec in Hp as [k Hk]. rewrite Hk, drop_app_length.
  exists [], lit. split; [done|]. split; [constructor|].
  destruct Hl as [[-> ->]|[[-> ->]|[-> ->]]]; (split; [done|]); (split; [apply passes_ordinary;
    repeat (constructor; [by vm_compute|]); constructor|]); (split; [done|]);
    intros fuel ws' rest' Hf Hb _; (destruct fuel as [|fuel]; [cbn in Hf; lia|]); cbn [parse_value];
    rewrite skip_ws_blank by done; reflexivity.
Qed.

Ltac lassoc := repeat first [rewrite <-app_assoc | progress cbn [app]].

Section steps.
Variable fuel : nat.
Hypothesis IHv : forall s v rest, parse_value fuel s = Some (v, rest) -> value_prefix s v rest.
Hypothesis IHe : forall s vs rest, parse_elements fuel s = Some (vs, rest) -> elements_prefix s vs rest.
Hypothesis IHm : forall s ms rest, parse_members fuel s = Some (ms, rest) -> members_prefix s ms rest.

Lemma object_step t v rest :
  match expect 125 (skip_ws t) with
  | Some r => Some (JObj [], r)
  | None => match parse_members fuel (skip_ws t) with
            | Some (ms, r) => Some (JObj ms, r) | None => None end
  end = Some (v, rest) -> value_prefix (123 :: t) v rest.
Proof.
  destruct (expect 125 (skip_ws t)) as [r|] eqn:Ex.
  - intros [= <- <-]. apply expect_skip in Ex as (ws & -> & Hb).
    exists [], (123 :: ws ++ [125]). split; [cbn; by rewrite <-app_assoc|]. split; [constructor|].
    split; [done|]. split; [by apply passes_object, blank_passes|].
    split; [intros _; exists ws; by split; [|apply blank_passes]|].
    intros f ws' rest' Hf Hb' _. destruct f as [|f]; [cbn in Hf; lia|]. cbn [parse_value].
    rewrite skip_ws_blank by done. cbn [skip_ws app is_ws Z.eqb Pos.eqb orb].
    rewrite <-app_assoc. cbn [app]. by rewrite expect_at.
  - destruct (parse_members fuel (skip_ws t)) as [[ms r]|] eqn:Em; [|done]. intros [= <- <-].
    apply IHm in Em as (inner & Einner & Hne & Hp & Hpar).
    destruct (skip_ws_split t) as (ws & Et & Hb & Hh). rewrite Einner in *.
    exists [], (123 :: (ws ++ inner) ++ [125]). rewrite Et.
    assert (passes (ws ++ inner)) as Hpass by (apply passes_app; [by apply blank_passes|done]).
    split; [cbn; by rewrite <-!app_assoc|]. split; [constructor|].
    split; [done|]. split; [by apply passes_object|].
    split; [intros _; by exists (ws ++ inner)|].
    intros f ws' rest' Hf Hb' _. destruct f as [|f]; [cbn in Hf; lia|]. cbn [parse_value].
    rewrite skip_ws_blank by done. cbn [skip_ws app is_ws Z.eqb Pos.eqb orb].
    rewrite <-!app_assoc. cbn [app]. rewrite skip_ws_blank by done.
    destruct inner as [|x inner]; [done|]. cbn [app] in Hh, Ex |- *. cbn [skip_ws]. rewrite Hh.
    cbn [expect] in Ex |- *. destruct (x =? 125); [done|].
    cbn [app] in Hpar. rewrite Hpar; [done|].
    cbn [length] in Hf. rewrite !length_app in Hf. cbn [length] in *. lia.
Qed.

Lemma array_step t v rest :
  match expect 93 (skip_ws t) with
  | Some r => Some (JArr [], r)
  | None => match parse_elements fuel (skip_ws t) with
            | Some (l, r) => Some (JArr l, r) | None => None end
  end = Some (v, rest) -> value_prefix (91 :: t) v rest.
Proof.
  destruct (expect 93 (skip_ws t)) as [r|] eqn:Ex.
  - intros [= <- <-]. apply expect_skip in Ex as (ws & -> & Hb).
    exists [], (91 :: ws ++ [93]). split; [cbn; by rewrite <-app_assoc|]. split; [constructor|].
    split; [done|]. split.
    { apply passes_cons; [done|]. apply passes_app; [by apply blank_passes|by apply passes_one]. }
    split; [done|]. intros f ws' rest' Hf Hb' _. destruct f as [|f]; [cbn in Hf; lia|].
    cbn [parse_value]. rewrite skip_ws_blank by done. cbn [skip_ws app is_ws Z.eqb Pos.eqb orb].
    rewrite <-app_assoc. cbn [app]. by rewrite expect_at.
  - destruct (parse_elements fuel (skip_ws t)) as [[vs r]|] eqn:Em; [|done]. intros [= <- <-].
    apply IHe in Em as (pe & Epe & Hne & Hp & _ & Hpar).
    destruct (skip_ws_split t) as (ws & Et & Hb & Hh). rewrite Epe in *.
    exists [], (91 :: ws ++ pe). rewrite Et.
    split; [cbn; by rewrite <-!app_assoc|]. split; [constructor|]. split; [done|]. split.
    { apply passes_cons; [done|]. apply passes_app; [by apply blank_passes|done]. }
    split; [done|]. intros f ws' rest' Hf Hb' _. destruct f as [|f]; [cbn in Hf; lia|].
    cbn [parse_value]. rewrite skip_ws_blank by done. cbn [skip_ws app is_ws Z.eqb Pos.eqb orb].
    rewrite <-!app_assoc. rewrite skip_ws_blank by done.
    destruct pe as [|x pe]; [done|]. cbn [app] in Hh, Ex |- *. cbn [skip_ws]. rewrite Hh.
    cbn [expect] in Ex |- *. destruct (x =? 93); [done|].
    cbn [app] in Hpar. rewrite Hpar; [done|].
    cbn [length] in Hf. rewrite !length_app in Hf. cbn [length] in *. lia.
Qed.

Lemma value_step s v rest : parse_value (S fuel) s = Some (v, rest) -> value_prefix s v rest.
Proof.
  destruct (skip_ws_split s) as (ws & Es & Hb & Hh).
  assert (value_prefix (skip_ws s) v rest -> value_prefix s v rest) as Hpre.
  { intros (ws2 & p & E & Hb2 & Hp). exists (ws ++ ws2), p. rewrite Es, E at 1.
    split; [by rewrite <-app_assoc|]. split; [by apply Forall_app|done]. }
  cbn [parse_value]. intros H. apply Hpre. clear Hpre Es.
  destruct (skip_ws s) as [|c t]; [done|]. destruct (c =? 34) eqn:E34.
  { apply Z.eqb_eq in E34 as ->. destruct (parse_string t) as [[str r]|] eqn:Et; [|done].
    injection H as <- <-. apply parse_string_split in Et as (p & -> & Hp & Hr).
    exists [], (34 :: p). split; [done|]. split; [constructor|]. split; [done|].
    split; [by apply passes_quoted|]. split; [done|].
    intros f ws' rest' Hf Hb' _. destruct f as [|f]; [cbn in Hf; lia|].
    cbn [parse_value]. rewrite skip_ws_blank by done. cbn [skip_ws app is_ws Z.eqb Pos.eqb orb].
    by rewrite Hr. }
  destruct (c =? 123) eqn:E123; [apply Z.eqb_eq in E123 as ->; by apply object_step|].
  destruct (c =? 91) eqn:E91; [apply Z.eqb_eq in E91 as ->; by apply array_step|].
  destruct (HasPrefix (c :: t) ($"null")) eqn:En.
  { injection H as <- <-. apply (literal_prefix ($"null")); [by left|done]. }
  destruct (HasPrefix (c :: t) ($"true")) eqn:Et.
  { injection H as <- <-. apply (literal_prefix ($"true")); [by right; left|done]. }
  destruct (HasPrefix (c :: t) ($"false")) eqn:Ef.
  { injection H as <- <-. apply (literal_prefix ($"false")); [by right; right|done]. }
  destruct (parse_number (c :: t)) as [[n r]|] eqn:Enum; [|done]. injection H as <- <-.
  apply parse_number_split in Enum as (E & Ho & Hhd & Hr).
  exists [], n. split; [done|]. split; [constructor|].
  destruct n as [|x n]; [done|]. destruct Hhd as (Hw & H110 & H116 & H102 & H91).
  apply Forall_cons in Ho as Ho'. destruct Ho' as [(Hx1 & Hx2 & Hx3) _].
  split; [done|]. split; [by apply passes_ordinary|]. split; [done|].
  intros f ws' rest' Hf Hb' Hst. destruct f as [|f]; [cbn in Hf; lia|].
  cbn [parse_value]. rewrite skip_ws_blank by done. cbn [skip_ws app]. rewrite Hw.
  apply Z.eqb_neq in Hx1, Hx2, H110, H116, H102, H91. rewrite Hx1, Hx2, H91.
  assert (forall w y, x =? y = false -> HasPrefix (x :: n ++ rest') (y :: w) = false) as Hnp.
  { intros w y Hy. cbn [HasPrefix]. by rewrite Hy. }
  change ($"null") with (110 :: $"ull"). rewrite Hnp by done.
  change ($"true") with (116 :: $"rue"). rewrite Hnp by done.
  change ($"false") with (102 :: $"alse"). rewrite Hnp by done.
  cbn [app] in Hr. by rewrite Hr.
Qed.

Lemma elements_step s vs rest : parse_elements (S fuel) s = Some (vs, rest) -> elements_prefix s vs rest.
Proof.
  cbn [parse_elements]. destruct (parse_value fuel s) as [[v r]|] eqn:Ev; [|done].
  apply IHv in Ev as (ws & p & -> & Hb & Hne & Hp & Hobj & Hpar).
  destruct p as [|x p0]; [done|]. set (p := x :: p0) in *.
  assert (1 <= length p)%nat as Hlp by (unfold p; cbn; lia). clearbody p. clear Hne.
  assert (is_obj v -> arun ABetween p = Ok (ABetween, [p]) /\ parse_json p = Some v) as Helem.
  { intros Hv. split.
    - destruct (Hobj Hv) as (inner & -> & Hi). by apply arun_element.
    - by eapply (value_prefix_parse (ws ++ p ++ r) v r ws p). }
  destruct (expect 93 (skip_ws r)) as [r2|] eqn:E93.
  - apply expect_skip in E93 as (ws2 & -> & Hb2). intros [= <- <-].
    exists (ws ++ p ++ ws2 ++ [93]). split; [by rewrite <-!app_assoc|].
    split; [intros E; apply (f_equal length) in E; rewrite !length_app in E; cbn in E; lia|]. split; [|split].
    + repeat apply passes_app; try (by apply blank_passes); try assumption. by apply passes_one.
    + intros Ho. apply Forall_cons in Ho as [Ho _]. destruct (Helem Ho) as [Hrun Hj].
      exists [p]. split; [|by repeat constructor].
      rewrite arun_app, arun_blank by (done || tauto). cbn. rewrite arun_app, Hrun. cbn.
      rewrite arun_app, arun_blank by (done || tauto). done.
    + intros f rest' Hf. destruct f as [|f]; [rewrite !length_app in Hf; cbn in Hf; lia|].
      cbn [parse_elements]. rewrite <-!app_assoc. cbn [app].
      rewrite !length_app in Hf. cbn [length] in Hf.
      rewrite Hpar; [|lia|done|destruct v; try done; apply stops_at; tauto].
      by rewrite expect_at.
  - destruct (expect 44 (skip_ws r)) as [r2|] eqn:E44; [|done].
    apply expect_skip in E44 as (ws2 & -> & Hb2).
    destruct (parse_elements fuel r2) as [[vs' r3]|] eqn:Ee; [|done]. intros [= <- <-].
    apply IHe in Ee as (pe & -> & Hpe & Hpp & Hel & Hparr).
    exists (ws ++ p ++ ws2 ++ [44] ++ pe). split; [by rewrite <-!app_assoc|].
    split; [intros E; apply (f_equal length) in E; rewrite !length_app in E; cbn in E; lia|]. split; [|split].
    + repeat apply passes_app; try (by apply blank_passes); try assumption. by apply passes_one.
    + intros Ho. apply Forall_cons in Ho as [Ho Hos]. destruct (Helem Ho) as [Hrun Hj].
      destruct (Hel Hos) as (elems & Harun & HF). exists (p :: elems). split; [|by constructor].
      rewrite arun_app, arun_blank by (done || tauto). cbn. rewrite arun_app, Hrun. cbn.
      rewrite arun_app, arun_blank by (done || tauto). cbn. by rewrite Harun.
    + intros f rest' Hf. destruct f as [|f]; [rewrite !length_app in Hf; cbn in Hf; lia|].
      cbn [parse_elements]. rewrite <-!app_assoc. cbn [app].
      rewrite !length_app in Hf. cbn [length] in Hf.
      rewrite Hpar; [|lia|done|destruct v; try done; apply stops_at; tauto].
      rewrite !expect_at by done. cbn [Z.eqb Pos.eqb]. rewrite Hparr by lia. done.
Qed.

Lemma members_step s ms rest : parse_members (S fuel) s = Some (ms, rest) -> members_prefix s ms rest.
Proof.
  cbn [parse_members]. destruct (expect 34 (skip_ws s)) as [t|] eqn:E34; [|done].
  apply expect_skip in E34 as (ws & -> & Hb).
  destruct (parse_string t) as [[k r]|] eqn:Ek; [|done].
  apply parse_string_split in Ek as (pk & -> & Hpk & Hkr).
  destruct (expect 58 (skip_ws r)) as [r1|] eqn:E58; [|done].
  apply expect_skip in E58 as (ws1 & -> & Hb1).
  destruct (parse_value fuel r1) as [[v r2]|] eqn:Ev; [|done].
  apply IHv in Ev as (ws2 & p & -> & Hb2 & Hne & Hp & _ & Hpar).
  destruct p as [|x p0]; [done|]. set (p := x :: p0) in *.
  assert (1 <= length p)%nat as Hlp by (unfold p; cbn; lia). clearbody p. clear Hne.
  set (front := ws ++ (34 :: pk) ++ ws1 ++ [58] ++ ws2 ++ p).
  assert (passes front) as Hfront.
  { unfold front. repeat apply passes_app; try (by apply blank_passes); try assumption.
    - by apply passes_quoted.
    - by apply passes_one. }
  assert (forall f x, (2 * length p <= f)%nat -> headok v x ->
    parse_members (S f) (front ++ x) =
    match expect 125 (skip_ws x) with
    | Some r => Some ([(k, v)], r)
    | None =>
        match expect 44 (skip_ws x) with
        | Some r => match parse_members f r with Some (ms, r) => Some ((k, v) :: ms, r) | None => None end
        | None => None
        end
    end) as Hrun.
  { intros f y Hf Hy. unfold front. cbn [parse_members]. lassoc.
    rewrite expect_at by done. cbn [Z.eqb Pos.eqb]. rewrite Hkr.
    rewrite expect_at by done. cbn [Z.eqb Pos.eqb]. by rewrite Hpar. }
  assert (length front = length ws + length pk + length ws1 + length ws2 + length p + 2)%nat as Hlf.
  { unfold front. repeat (rewrite length_app || cbn [length app]). lia. }
  destruct (expect 125 (skip_ws r2)) as [r3|] eqn:E125.
  - apply expect_skip in E125 as (ws3 & -> & Hb3). intros [= <- <-].
    exists (front ++ ws3). split; [unfold front; by lassoc|].
    split; [by unfold front; destruct ws|]. split; [apply passes_app; [done|by apply blank_passes]|].
    intros f rest' Hf. rewrite length_app in Hf. destruct f as [|f]; [lia|].
    rewrite <-app_assoc, Hrun; [|lia|destruct v; try done; apply stops_at; tauto].
    by rewrite expect_at.
  - destruct (expect 44 (skip_ws r2)) as [r3|] eqn:E44; [|done].
    apply expect_skip in E44 as (ws3 & -> & Hb3).
    destruct (parse_members fuel r3) as [[ms' r4]|] eqn:Em; [|done]. intros [= <- <-].
    apply IHm in Em as (inner & -> & Hin & Hpi & Hparm).
    exists (front ++ ws3 ++ [44] ++ inner).
    split; [unfold front; by lassoc|].
    split; [by unfold front; destruct ws|]. split.
    { apply passes_app; [exact Hfront|]. apply passes_app; [by apply blank_passes|].
      apply passes_app; [by apply passes_one|exact Hpi]. }
    intros f rest' Hf. rewrite !length_app in Hf. cbn [length] in Hf. destruct f as [|f]; [lia|].
    rewrite <-!app_assoc, Hrun; [|lia|destruct v; try done; apply stops_at; tauto].
    cbn [app]. rewrite !expect_at by done. cbn [Z.eqb Pos.eqb]. by rewrite Hparm by lia.
Qed.

End steps.

Lemma parse_prefixes fuel :
  (forall s v rest, parse_value fuel s = Some (v, rest) -> value_prefix s v rest) /\
  (forall s vs rest, parse_elements fuel s = Some (vs, rest) -> elements_prefix s vs rest) /\
  (forall s ms rest, parse_members fuel s = Some (ms, rest) -> members_prefix s ms rest).
Proof.
  induction fuel as [|fuel (IHv & IHe & IHm)]; [done|]. split_and!.
  - by apply value_step.
  - by apply elements_step.
  - by apply members_step.
Qed.

(** ** The array as a whole *)
Lemma scanner_splits_array data l :
  parse_json data = Some (JArr l) -> Forall is_obj l ->
  exists elems, arun ABefore data = Ok (AClosed, elems) /\
    Forall2 (fun e v => parse_json e = Some v) elems l.
Proof.
  unfold parse_json at 1. destruct (parse_value (2 * length data) data) as [[v r]|] eqn:Ev; [|done].
  destruct (skip_ws_split r) as (ws3 & Er & Hb3 & _). destruct (skip_ws r) as [|x y]; [|done].
  rewrite app_nil_r in Er. subst r. intros [= ->] Hobj.
  destruct (2 * length data)%nat as [|fuel]; [done|]. cbn [parse_value] in Ev.
  destruct (skip_ws_split data) as (ws & Ed & Hb & _).
  destruct (skip_ws data) as [|c t]; [done|].
  destruct (c =? 34); [by destruct (parse_string t) as [[]|]|].
  destruct (c =? 123).
  { destruct (expect 125 (skip_ws t)); [done|]. by destruct (parse_members fuel (skip_ws t)) as [[]|]. }
  destruct (Z.eqb_spec c 91) as [->|_].
  2: { destruct (HasPrefix (c :: t) ($"null")); [done|].
       destruct (HasPrefix (c :: t) ($"true")); [done|].
       destruct (HasPrefix (c :: t) ($"false")); [done|].
       by destruct (parse_number (c :: t)) as [[]|]. }
  destruct (expect 93 (skip_ws t)) as [r|] eqn:E93.
  - apply expect_skip in E93 as (ws1 & -> & Hb1). injection Ev as <- ->. inversion Hobj; subst.
    exists []. split; [|constructor]. rewrite arun_app, arun_blank by (done || tauto). cbn.
    rewrite arun_app, arun_blank by (done || tauto). cbn.
    by rewrite arun_blank by (done || tauto).
  - destruct (parse_elements fuel (skip_ws t)) as [[vs r]|] eqn:Ee; [|done].
    injection Ev as -> ->. apply (proj1 (proj2 (parse_prefixes fuel))) in Ee as (pe & Epe & _ & _ & Hel & _).
    destruct (Hel Hobj) as (elems & Hrun & HF). exists elems. split; [|done].
    destruct (skip_ws_split t) as (ws1 & Et & Hb1 & _). rewrite Epe in Et. subst data.
    rewrite arun_app, arun_blank by (done || tauto). cbn. rewrite Et.
    rewrite arun_app, arun_blank by (done || tauto). cbn. rewrite arun_app, Hrun. cbn.
    by rewrite arun_blank, app_nil_r by (done || tauto).
Qed.

Lemma decodes_events elems l events :
  Forall2 (fun e v => parse_json e = Some v) elems l ->
  dec_list no_event (fun _ => Unmarshal_traceEvent) l = Some events -> decodes elems events.
Proof.
  intros H. revert events. induction H as [|e v elems l He _ IH]; intros events; cbn [dec_list].
  { intros [= <-]. constructor. }
  destruct (Unmarshal_traceEvent v) as [ev|] eqn:Ev; [|done].
  destruct (dec_list _ _ l) as [evs|]; [|done]. intros [= <-].
  constructor; [|by apply IH]. unfold Unmarshal_record. by rewrite He.
Qed.

Lemma new_reads_to ParseFloat reads data se elems evs ae :
  stream_data reads = Some data -> arun ABefore data = Ok (se, elems) -> decodes elems evs ->
  foldm (push ParseFloat) newAssembler evs = Ok ae ->
  reads_to ParseFloat se ae (NewStreamReader reads).
Proof.
  intros Hd Hr Hdec Ha. split; [done|]. split; [done|]. split; [apply wf_new|]. split; [cbn; lia|].
  exists ABefore, data, elems, evs. split_and!; try done.
  exists ABefore, []. split; [apply scans_new|]. by split; [|left].
Qed.

(** ** Properties *)

(** Reading a whole stream. *)
Lemma streamed_groups ParseFloat reads data l events cs marked hs :
  stream_data reads = Some data ->
  parse_json data = Some (JArr l) -> Forall is_obj l ->
  Unmarshal_events data = Some events ->
  reconstructCrossings ParseFloat events = Ok (cs, marked, hs) ->
  exists gs s, read_groups ParseFloat (S (length gs)) (NewStreamReader reads) = Some (gs, EOF, s) /\
    concat gs = cs /\ sawImportMarker (asm s) = marked /\ HostState_so_far s = hs.
Proof.
  intros Hdata Hj Hobj Hev Hrec. destruct (scanner_splits_array data l Hj Hobj) as (elems & Hrun & HF).
  unfold Unmarshal_events in Hev. rewrite Hj in Hev.
  pose proof (decodes_events _ _ _ HF Hev) as Hdec.
  unfold reconstructCrossings in Hrec.
  destruct (foldm (push ParseFloat) newAssembler events) as [a|] eqn:Ea; [|done].
  destruct (finish a) as [b|] eqn:Eb; [|done]. injection Hrec as <- <- <-.
  pose proof (new_reads_to ParseFloat reads data AClosed elems events a Hdata Hrun Hdec Ea) as Hs.
  pose proof (reads_to_extends _ _ _ _ Hs) as [Wa _].
  pose proof (finish_moves a Wa) as Mb. rewrite Eb in Mb.
  apply moves_wf in Mb as [Wb Xb]; [|done]. pose proof (extends_groups _ _ Xb) as Hgr.
  set (k := (groups b - groups a)%nat).
  destruct (read_groups_reads ParseFloat AClosed a (groups a) (S k) (NewStreamReader reads) Hs)
    as (s1 & Hs1 & Hn1 & Hread); [done|].
  destruct (read_groups_end ParseFloat AClosed a k s1 Hs1 Hn1) as (s2 & Hend & Hfin).
  destruct Hend as (Hf2 & Hc2 & He2 & Ha2 & _ & Hd2 & Hsn2).
  destruct (drained_done _ _ Hd2) as [Hdone Hpend].
  assert (finishStream s2 = Ok (with_closed s2 b)) as Efin.
  { unfold finishStream. rewrite Hpend by by left. cbn -[finish]. rewrite Ha2, Eb, Hdone.
    by rewrite bool_decide_eq_true_2. }
  rewrite Efin in Hfin. destruct (Hfin b) as (s3 & Hr3 & Ha3); try done. rewrite Hr3 in Hread.
  assert ((group a <$> seq (snext s1 - groups a) (groups a)) ++ (group b <$> seq (groups a) k) =
          group b <$> seq 0 (groups b)) as Eg.
  { rewrite Hn1, Nat.sub_diag. replace (groups b) with (groups a + k)%nat by lia.
    rewrite seq_app, fmap_app. f_equal. apply list_fmap_ext. intros i x Hx.
    apply lookup_seq in Hx as [-> Hi]. symmetry. by apply extends_group. }
  rewrite Eg in Hread. exists (group b <$> seq 0 (groups b)), s3.
  rewrite length_fmap, length_seq. split.
  { rewrite <-Hread. f_equal. lia. }
  unfold HostState_so_far. rewrite Ha3. split; [|done].
  pose proof (assembler_finished a b Wa Eb) as [Hst Hlen].
  rewrite group_concat, group_bound_last, <-Hlen by done. apply take_ge. lia.
Qed.

(** C7: a recording that is a JSON array of objects and that the batch loader
    accepts is read identically by the streaming reader, however its bytes are
    cut into reads: the groups handed out are exactly the crossings, the host
    state and the producer's vintage are the same, and the reader ends with a
    clean end of file.  On [null] and [[null]], which the batch loader also
    accepts, the two differ: [null_documents_differ]. *)
Theorem streaming_agrees_with_batch ParseFloat reads data l events cs marked hs :
  stream_data reads = Some data ->
  parse_json data = Some (JArr l) -> Forall is_obj l ->
  Unmarshal_events data = Some events ->
  reconstructCrossings ParseFloat events = Ok (cs, marked, hs) ->
  exists gs s, read_groups ParseFloat (S (length gs)) (NewStreamReader reads) = Some (gs, EOF, s) /\
    concat gs = cs /\ sawImportMarker (asm s) = marked /\ HostState_so_far s = hs.
Proof. apply streamed_groups. Qed.

(** A recording of one call, cut inside a record and after an empty read. *)
Definition example_records : list json :=
  [JObj [($"Function", JObj [($"name", JStr ($"f")); ($"line", JNum ($"3"))])];
   JObj [($"Call", JObj [($"function_id", JNum ($"0"))])];
   JObj [($"Return", JObj [])]].
Definition example_json : list Z := Eval vm_compute in print_json (JArr example_records).
Definition example_reads : list (list Z * read_status) :=
  [(take 20 example_json, RNil); ([], RNil); (drop 20 example_json, REOF)].

Lemma streaming_agrees_with_batch_witness :
  exists gs s, read_groups (fun _ => None) (S (length gs)) (NewStreamReader example_reads) =
    Some (gs, EOF, s) /\ CName <$> concat gs = [$"f"].
Proof.
  destruct (Unmarshal_events example_json) as [evs|] eqn:Ee; [|vm_compute in Ee; discriminate Ee].
  destruct (reconstructCrossings (fun _ => None) evs) as [[[cs m] h]|] eqn:Er.
  2: { vm_compute in Ee. injection Ee as <-. vm_compute in Er. discriminate Er. }
  destruct (streaming_agrees_with_batch (fun _ => None) example_reads example_json example_records
    evs cs m h) as (gs & s & Hr & Hc & _); [vm_compute; reflexivity|vm_compute; reflexivity| |done|done|].
  { repeat (constructor; [exact I|]). constructor. }
  exists gs, s. split; [exact Hr|]. rewrite Hc. clear Hc Hr. vm_compute in Ee. injection Ee as <-.
  vm_compute in Er. injection Er as Ecs Em Eh. rewrite <-Ecs. reflexivity.
Defined.

(** *** Truncation *)
Lemma arun_acc st l acc d str esc elems :
  arun st l = Ok (AIn acc d str esc, elems) ->
  match st with AIn [] _ _ _ => False | _ => True end -> acc <> [].
Proof.
  revert st elems. induction l as [|c l IH]; intros st elems; cbn [arun].
  { intros [= -> _]. by destruct acc. }
  destruct (astep st c) as [[st1 e1]|] eqn:Es; [|done].
  destruct (arun st1 l) as [[st2 e2]|] eqn:Er; [|done]. intros [= -> _] _.
  apply (IH _ _ Er). revert Es. destruct st; cbn [astep].
  - destruct (isJSONSpace c); [by intros [= <- _]|]. by destruct (c =? 91); [intros [= <- _]|].
  - destruct (_ || _); [by intros [= <- _]|]. destruct (c =? 93); [by intros [= <- _]|].
    by destruct (c =? 123); [intros [= <- _]|].
  - destruct acc0; repeat case_match; intros Hst; injection Hst; intros; subst; done.
  - by destruct (_ || _); [intros [= <- _]|].
Qed.

Lemma drained_pending s acc d str esc :
  drained s (AIn acc d str esc) -> pending s = len acc.
Proof.
  intros (st0 & rest0 & (Hi & Hr & Hst) & Hrun & Hor).
  destruct Hor as [->| ->]; [|by apply arun_closed in Hrun as []].
  cbn in Hrun. injection Hrun as ->. destruct Hst as (_ & _ & _ & _ & _ & e & He & Hle & Hs).
  unfold pending. rewrite He. apply (f_equal length) in Hr. rewrite length_drop in Hr. cbn in Hr.
  rewrite <-Hs. unfold len. rewrite length_sub by lia. lia.
Qed.

(** How a stream that ended at scanner state [se] with crossings [ae] ended badly. *)
Definition truncation (se : astate) (ae : assembler) : option stream_err :=
  let opened := Z.of_nat (openCrossings ae) in
  match se with
  | AIn acc _ _ _ => Some (Truncation TruncatedMidRecord (groups ae) opened (len acc))
  | _ =>
      match finish ae with
      | Err e => Some (if 0 <? opened then Truncation TruncatedMidCrossing (groups ae) opened 0
                       else ErrCrossings e)
      | Ok _ => if bool_decide (se = AClosed) then None
                else Some (Truncation TruncatedUnterminated (groups ae) 0 0)
      end
  end.

(** C8: a stream that stops early still hands out every call group
    its complete records carry, in order, and then reports how it ended: inside
    a record, inside a crossing, or between calls with the array open.  The
    report does not depend on how the bytes were cut into reads. *)
Theorem truncated_stream ParseFloat reads data se elems evs ae e :
  stream_data reads = Some data ->
  arun ABefore data = Ok (se, elems) -> decodes elems evs ->
  foldm (push ParseFloat) newAssembler evs = Ok ae ->
  truncation se ae = Some e ->
  exists s, read_groups ParseFloat (S (groups ae)) (NewStreamReader reads) =
    Some (group ae <$> seq 0 (groups ae), e, s).
Proof.
  intros Hdata Hrun Hdec Ha Ht.
  pose proof (new_reads_to ParseFloat reads data se elems evs ae Hdata Hrun Hdec Ha) as Hs.
  destruct (read_groups_reads ParseFloat se ae (groups ae) 1 (NewStreamReader reads) Hs)
    as (s1 & Hs1 & Hn1 & Hread); [done|].
  destruct (read_groups_end ParseFloat se ae 0 s1 Hs1 Hn1) as (s2 & Hend & Hfin).
  destruct Hend as (_ & _ & _ & Ha2 & _ & Hd2 & Hsn2).
  assert (finishStream s2 = Err e) as Efin.
  { unfold finishStream. rewrite Ha2, Hsn2. destruct (drained_done _ _ Hd2) as [Hdone Hpend].
    destruct se as [| |acc d str esc|]; unfold truncation in Ht;
      try (rewrite Hpend by tauto; cbn [Z.ltb Z.compare]; rewrite Hdone;
           destruct (finish ae) as [b|]; [by injection Ht as <-|];
           by destruct (0 <? _); injection Ht as <-).
    - pose proof (arun_acc _ _ _ _ _ _ _ Hrun I) as Hne.
      rewrite (drained_pending _ _ _ _ _ Hd2). injection Ht as <-.
      destruct acc; [done|]. rewrite len_cons. pose proof (len_nonneg acc).
      by destruct (Z.ltb_spec 0 (1 + len acc)); [|lia].
    - rewrite Hpend by tauto. cbn [Z.ltb Z.compare]. rewrite Hdone.
      destruct (finish ae) as [b|]; [done|]. by destruct (0 <? _); injection Ht as <-. }
  rewrite Efin in Hfin. destruct Hfin as [s3 Hr3]. rewrite Hr3 in Hread.
  exists s3. rewrite <-Nat.add_1_r, Hread, Hn1, Nat.sub_diag, app_nil_r. done.
Qed.

Definition example_event : traceEvent :=
  {| EvPath := None; EvStep := None;
     EvFunction := Some {| FName := $"f"; PathID := 0; Line := 3 |}; EvCall := None;
     EvReturn := None; EvValue := None; EvVariableName := None; EvEvent := None |}.
Definition example_cut : list Z := Eval vm_compute in take 40 example_json.
Definition example_assembler : assembler := Eval vm_compute in state_after [example_event].

Lemma truncated_stream_witness :
  exists s, read_groups (fun _ => None) 1 (NewStreamReader [(example_cut, RNil); ([34], RNil)]) =
    Some ([], Truncation TruncatedMidRecord 0 0 5, s).
Proof.
  apply (truncated_stream (fun _ => None) [(example_cut, RNil); ([34], RNil)]
    (example_cut ++ [34]) (AIn [123; 34; 67; 97; 34] 1 false false)
    [take 34 (drop 1 example_json)] [example_event] example_assembler).
  - vm_compute. reflexivity.
  - vm_compute. reflexivity.
  - constructor; [vm_compute; reflexivity|constructor].
  - vm_compute. reflexivity.
  - vm_compute. reflexivity.
Defined.

(** Bytes after the closed array are refused only when they
    arrive in a later read than the closing bracket: the same bytes in one read
    are accepted as a complete recording. *)
Theorem trailing_bytes_depend_on_reads :
  (exists s, read_groups (fun _ => None) 1 (NewStreamReader [($"[]x", RNil)]) = Some ([], EOF, s)) /\
  (exists s, read_groups (fun _ => None) 1 (NewStreamReader [($"[]", RNil); ($"x", RNil)]) =
     Some ([], ErrAfterClose 120, s)).
Proof. split; eexists; reflexivity. Qed.

(** Documents that are not arrays of objects: [json.Unmarshal] reads [null] as no
    records and a [null] element as an empty record, which the streaming
    reader, which scans for an array of objects, refuses. *)
Theorem null_documents_differ :
  Unmarshal_events ($"null") = Some [] /\ is_Some (Unmarshal_events ($"[null]")) /\
  (exists e s, e <> EOF /\ read_groups (fun _ => None) 1 (NewStreamReader [($"null", REOF)]) = Some ([], e, s)) /\
  (exists e s, e <> EOF /\ read_groups (fun _ => None) 1 (NewStreamReader [($"[null]", REOF)]) = Some ([], e, s)).
Proof.
  split_and!; [vm_compute; reflexivity|vm_compute; by eexists|..];
    eexists _, _; (split; [|vm_compute; reflexivity]); discriminate.
Qed.

End Agreement.
