(* ===== verification/Xxh3.v ===== *)
(** * XXH3-128 ([src/internal/xxh3/xxh3.go])

    The 128-bit content address of a memory page, with the default secret and
    seed 0.  Every slice expression and every little-endian read of the source
    can fall outside its slice, where Go panics: [slice_from] and the readers
    return [Err OutOfRange] there, and [Hash128_in_bounds] shows no input of
    any length reaches it.  [Hash128_short_injective] shows the digest loses
    nothing on inputs of up to 16 bytes, and the reference digests pinned by
    [xxh3_test.go] are evaluated on the model. *)
From S2P Require Import Prelude.

Module Xxh3.

(** ** Digests *)
Record Uint128 : Type := mkUint128 { Lo : Z; Hi : Z }.

#[export] Instance Uint128_eq_dec : EqDecision Uint128.
Proof. solve_decision. Defined.

#[export] Instance Uint128_countable : Countable Uint128.
Proof.
  apply (inj_countable' (fun h => (Lo h, Hi h)) (fun p => mkUint128 p.1 p.2)). by intros [].
Defined.

Definition Uint128_ok (h : Uint128) : Prop := in_u 64 (Lo h) /\ in_u 64 (Hi h).

Definition Bytes (h : Uint128) : list Z := le_enc 8 (Lo h) ++ le_enc 8 (Hi h).

Definition Uint128FromBytes (b : list Z) : Uint128 :=
  mkUint128 (le_dec (sub b 0 8)) (le_dec (sub b 8 8)).

(** ** Constants *)
Definition prime32_1 : Z := 0x9E3779B1.
Definition prime32_2 : Z := 0x85EBCA77.
Definition prime32_3 : Z := 0xC2B2AE3D.
Definition prime64_1 : Z := 0x9E3779B185EBCA87.
Definition prime64_2 : Z := 0xC2B2AE3D27D4EB4F.
Definition prime64_3 : Z := 0x165667B19E3779F9.
Definition prime64_4 : Z := 0x85EBCA77C2B2AE63.
Definition prime64_5 : Z := 0x27D4EB2F165667C5.
Definition primeMX1 : Z := 0x165667919E3779F9.
Definition primeMX2 : Z := 0x9FB21C651E98DF25.

Definition stripeLen : nat := 64.
Definition secretConsumeRate : nat := 8.
Definition accNB : nat := 8.
Definition secretMergeAccsPos : nat := 11.
Definition secretLastAccPos : nat := 7.
Definition midsizeMax : nat := 240.
Definition midsizeStartOffset : nat := 3.
Definition midsizeLastOffset : nat := 17.
Definition secretSizeMin : nat := 136.

Definition kSecret : list Z := [
  0xb8; 0xfe; 0x6c; 0x39; 0x23; 0xa4; 0x4b; 0xbe; 0x7c; 0x01; 0x81; 0x2c; 0xf7; 0x21; 0xad; 0x1c;
  0xde; 0xd4; 0x6d; 0xe9; 0x83; 0x90; 0x97; 0xdb; 0x72; 0x40; 0xa4; 0xa4; 0xb7; 0xb3; 0x67; 0x1f;
  0xcb; 0x79; 0xe6; 0x4e; 0xcc; 0xc0; 0xe5; 0x78; 0x82; 0x5a; 0xd0; 0x7d; 0xcc; 0xff; 0x72; 0x21;
  0xb8; 0x08; 0x46; 0x74; 0xf7; 0x43; 0x24; 0x8e; 0xe0; 0x35; 0x90; 0xe6; 0x81; 0x3a; 0x26; 0x4c;
  0x3c; 0x28; 0x52; 0xbb; 0x91; 0xc3; 0x00; 0xcb; 0x88; 0xd0; 0x65; 0x8b; 0x1b; 0x53; 0x2e; 0xa3;
  0x71; 0x64; 0x48; 0x97; 0xa2; 0x0d; 0xf9; 0x4e; 0x38; 0x19; 0xef; 0x46; 0xa9; 0xde; 0xac; 0xd8;
  0xa8; 0xfa; 0x76; 0x3f; 0xe3; 0x9c; 0x34; 0x3f; 0xf9; 0xdc; 0xbb; 0xc7; 0xc7; 0x0b; 0x4f; 0x1d;
  0x8a; 0x51; 0xe0; 0x4b; 0xcd; 0xb4; 0x59; 0x31; 0xc8; 0x9f; 0x7e; 0xc9; 0xd9; 0x78; 0x73; 0x64;
  0xea; 0xc5; 0xac; 0x83; 0x34; 0xd3; 0xeb; 0xc3; 0xc5; 0x81; 0xa0; 0xff; 0xfa; 0x13; 0x63; 0xeb;
  0x17; 0x0d; 0xdd; 0x51; 0xb7; 0xf0; 0xda; 0x49; 0xd3; 0x16; 0x55; 0x26; 0x29; 0xd4; 0x68; 0x9e;
  0x2b; 0x16; 0xbe; 0x58; 0x7d; 0x47; 0xa1; 0xfc; 0x8f; 0xf8; 0xb8; 0xd1; 0x7a; 0xd0; 0x31; 0xce;
  0x45; 0xcb; 0x3a; 0x8f; 0x95; 0x16; 0x04; 0x28; 0xaf; 0xd7; 0xfb; 0xca; 0xbb; 0x4b; 0x40; 0x7e].

(** ** Slices and machine arithmetic *)
Inductive panic : Type := OutOfRange.

#[export] Instance panic_eq_dec : EqDecision panic.
Proof. solve_decision. Defined.

(** [b[n:]]. *)
Fixpoint slice_from (b : list Z) (n : nat) {struct n} : result panic (list Z) :=
  match n, b with
  | O, _ => Ok b
  | S n, _ :: b => slice_from b n
  | S _, [] => Err OutOfRange
  end.

(** [b[n]]. *)
Definition index (b : list Z) (n : nat) : result panic Z :=
  match b !! n with Some v => Ok v | None => Err OutOfRange end.

Definition read_le (n : nat) (b : list Z) : result panic Z :=
  let w := take n b in
  if (length w =? n)%nat then Ok (le_dec w) else Err OutOfRange.
Definition readLE32 (b : list Z) : result panic Z := read_le 4 b.
Definition readLE64 (b : list Z) : result panic Z := read_le 8 b.

(** [readLE64(b[n:])] and [readLE32(b[n:])]. *)
Definition readLE64_at (b : list Z) (n : nat) : result panic Z :=
  let! s := slice_from b n in readLE64 s.
Definition readLE32_at (b : list Z) (n : nat) : result panic Z :=
  let! s := slice_from b n in readLE32 s.

Definition add64 (a b : Z) : Z := u64 (a + b).
Definition sub64 (a b : Z) : Z := u64 (a - b).
Definition mul64 (a b : Z) : Z := u64 (a * b).
(** [bits.Mul64]: the high and the low half of the 128-bit product. *)
Definition Mul64 (a b : Z) : Z * Z := (a * b / 2 ^ 64, u64 (a * b)).
(** [bits.ReverseBytes32], [bits.ReverseBytes64] and [bits.RotateLeft32]. *)
Definition ReverseBytes32 (v : Z) : Z := le_dec (rev (le_enc 4 v)).
Definition ReverseBytes64 (v : Z) : Z := le_dec (rev (le_enc 8 v)).
Definition RotateLeft32 (v k : Z) : Z := Z.lor (u32 (Z.shiftl v k)) (Z.shiftr v (32 - k)).

(** ** Mixing *)
Definition xorshift64 (v shift : Z) : Z := Z.lxor v (Z.shiftr v shift).

Definition avalanche64 (h : Z) : Z :=
  let h := Z.lxor h (Z.shiftr h 33) in
  let h := mul64 h prime64_2 in
  let h := Z.lxor h (Z.shiftr h 29) in
  let h := mul64 h prime64_3 in
  Z.lxor h (Z.shiftr h 32).

Definition avalanche3 (h : Z) : Z :=
  let h := xorshift64 h 37 in
  let h := mul64 h primeMX1 in
  xorshift64 h 32.

Definition mul128Fold64 (lhs rhs : Z) : Z :=
  let '(hi, lo) := Mul64 lhs rhs in Z.lxor lo hi.

Definition mix16B (input secret : list Z) (seed : Z) : result panic Z :=
  let! i0 := readLE64 input in
  let! s0 := readLE64 secret in
  let! i8 := readLE64_at input 8 in
  let! s8 := readLE64_at secret 8 in
  Ok (mul128Fold64 (Z.lxor i0 (add64 s0 seed)) (Z.lxor i8 (sub64 s8 seed))).

Definition mix32B (acc : Uint128) (input1 input2 secret : list Z) (seed : Z)
    : result panic Uint128 :=
  let! m1 := mix16B input1 secret seed in
  let lo := add64 (Lo acc) m1 in
  let! a2 := readLE64 input2 in
  let! b2 := readLE64_at input2 8 in
  let lo := Z.lxor lo (add64 a2 b2) in
  let! s16 := slice_from secret 16 in
  let! m2 := mix16B input2 s16 seed in
  let hi := add64 (Hi acc) m2 in
  let! a1 := readLE64 input1 in
  let! b1 := readLE64_at input1 8 in
  let hi := Z.lxor hi (add64 a1 b1) in
  Ok (mkUint128 lo hi).

(** [mix32B(acc, data[o1:], data[o2:], secret[o3:], seed)]. *)
Definition mix32B_at (acc : Uint128) (data : list Z) (o1 o2 : nat)
    (secret : list Z) (o3 : nat) (seed : Z) : result panic Uint128 :=
  let! input1 := slice_from data o1 in
  let! input2 := slice_from data o2 in
  let! s := slice_from secret o3 in
  mix32B acc input1 input2 s seed.

(** ** Short inputs *)
Definition len1to3 (data secret : list Z) : result panic Uint128 :=
  let n := length data in
  let! c1 := index data 0 in
  let! c2 := index data (Nat.div2 n) in
  let! c3 := index data (n - 1) in
  let combinedl := Z.lor (Z.lor (Z.lor (u32 (Z.shiftl c1 16)) (u32 (Z.shiftl c2 24)))
                                (u32 (Z.shiftl c3 0))) (u32 (Z.shiftl (Z.of_nat n) 8)) in
  let combinedh := RotateLeft32 (ReverseBytes32 combinedl) 13 in
  let! s0 := readLE32 secret in
  let! s4 := readLE32_at secret 4 in
  let! s8 := readLE32_at secret 8 in
  let! s12 := readLE32_at secret 12 in
  let bitflipl := add64 (Z.lxor s0 s4) 0 in
  let bitfliph := sub64 (Z.lxor s8 s12) 0 in
  Ok (mkUint128 (avalanche64 (Z.lxor combinedl bitflipl)) (avalanche64 (Z.lxor combinedh bitfliph))).

Definition len4to8 (data secret : list Z) : result panic Uint128 :=
  let n := length data in
  let! inputLo := readLE32 data in
  let! inputHi := readLE32_at data (n - 4) in
  let input64 := add64 inputLo (u64 (Z.shiftl inputHi 32)) in
  let! s16 := readLE64_at secret 16 in
  let! s24 := readLE64_at secret 24 in
  let bitflip := add64 (Z.lxor s16 s24) 0 in
  let keyed := Z.lxor input64 bitflip in
  let '(hi, lo) := Mul64 keyed (add64 prime64_1 (u64 (Z.shiftl (Z.of_nat n) 2))) in
  let hi := add64 hi (u64 (Z.shiftl lo 1)) in
  let lo := Z.lxor lo (Z.shiftr hi 3) in
  let lo := xorshift64 lo 35 in
  let lo := mul64 lo primeMX2 in
  let lo := xorshift64 lo 28 in
  Ok (mkUint128 lo (avalanche3 hi)).

Definition len9to16 (data secret : list Z) : result panic Uint128 :=
  let n := length data in
  let! s32 := readLE64_at secret 32 in
  let! s40 := readLE64_at secret 40 in
  let bitflipl := sub64 (Z.lxor s32 s40) 0 in
  let! s48 := readLE64_at secret 48 in
  let! s56 := readLE64_at secret 56 in
  let bitfliph := add64 (Z.lxor s48 s56) 0 in
  let! inputLo := readLE64 data in
  let! inputHi := readLE64_at data (n - 8) in
  let '(mHi, mLo) := Mul64 (Z.lxor (Z.lxor inputLo inputHi) bitflipl) prime64_1 in
  let mLo := add64 mLo (u64 (Z.shiftl (Z.of_nat n - 1) 54)) in
  let inputHi := Z.lxor inputHi bitfliph in
  let mHi := add64 mHi (add64 inputHi (mul64 (u32 inputHi) (prime32_2 - 1))) in
  let mLo := Z.lxor mLo (ReverseBytes64 mHi) in
  let '(hHi, hLo) := Mul64 mLo prime64_2 in
  let hHi := add64 hHi (mul64 mHi prime64_2) in
  Ok (mkUint128 (avalanche3 hLo) (avalanche3 hHi)).

Definition len0to16 (data secret : list Z) : result panic Uint128 :=
  let n := length data in
  if (8 <? n)%nat then len9to16 data secret
  else if (4 <=? n)%nat then len4to8 data secret
  else if (0 <? n)%nat then len1to3 data secret
  else
    let! s64 := readLE64_at secret 64 in
    let! s72 := readLE64_at secret 72 in
    let! s80 := readLE64_at secret 80 in
    let! s88 := readLE64_at secret 88 in
    let bitflipl := Z.lxor s64 s72 in
    let bitfliph := Z.lxor s80 s88 in
    Ok (mkUint128 (avalanche64 (Z.lxor 0 bitflipl)) (avalanche64 (Z.lxor 0 bitfliph))).

(** ** Mid-size inputs *)
Definition foldMidsize (acc : Uint128) (n seed : Z) : Uint128 :=
  let lo := add64 (Lo acc) (Hi acc) in
  let hi := add64 (add64 (mul64 (Lo acc) prime64_1) (mul64 (Hi acc) prime64_4))
                  (mul64 (sub64 n seed) prime64_2) in
  mkUint128 (avalanche3 lo) (sub64 0 (avalanche3 hi)).

Definition len17to128 (data secret : list Z) : result panic Uint128 :=
  let n := length data in
  let acc := mkUint128 (mul64 (Z.of_nat n) prime64_1) 0 in
  let! acc :=
    if (32 <? n)%nat then
      let! acc :=
        if (64 <? n)%nat then
          let! acc :=
            if (96 <? n)%nat then mix32B_at acc data 48 (n - 64) secret 96 0 else Ok acc in
          mix32B_at acc data 32 (n - 48) secret 64 0
        else Ok acc in
      mix32B_at acc data 16 (n - 32) secret 32 0
    else Ok acc in
  let! acc := mix32B_at acc data 0 (n - 16) secret 0 0 in
  Ok (foldMidsize acc (Z.of_nat n) 0).

(** The values [from, from+step, ...] of [for i := from; i < upto; i += step]. *)
Definition steps (from upto step : nat) : list nat :=
  (fun k => from + k * step)%nat <$> seq 0 ((upto - from + (step - 1)) / step).

Definition len129to240 (data secret : list Z) : result panic Uint128 :=
  let n := length data in
  let acc := mkUint128 (mul64 (Z.of_nat n) prime64_1) 0 in
  let! acc := foldm (fun acc i => mix32B_at acc data (i - 32) (i - 16) secret (i - 32) 0)
                    acc (steps 32 160 32) in
  let acc := mkUint128 (avalanche3 (Lo acc)) (avalanche3 (Hi acc)) in
  let! acc := foldm (fun acc i => mix32B_at acc data (i - 32) (i - 16) secret
                                            (midsizeStartOffset + i - 160) 0)
                    acc (steps 160 (n + 1) 32) in
  let! acc := mix32B_at acc data (n - 16) (n - 32) secret
                        (secretSizeMin - midsizeLastOffset - 16) (sub64 0 0) in
  Ok (foldMidsize acc (Z.of_nat n) 0).

(** ** Long inputs

    The accumulator array is a list of [accNB] lanes. *)
Definition initAcc : list Z :=
  [prime32_3; prime64_1; prime64_2; prime64_3; prime64_4; prime32_2; prime64_5; prime32_1].

(** [acc[i] = f(acc[i])]. *)
Definition update (acc : list Z) (i : nat) (f : Z -> Z) : list Z := <[i := f (acc !!! i)]> acc.

Definition accumulate512 (acc input secret : list Z) : result panic (list Z) :=
  foldm (fun acc i =>
    let! dataVal := readLE64_at input (i * 8) in
    let! s := readLE64_at secret (i * 8) in
    let dataKey := Z.lxor dataVal s in
    let acc := update acc (Nat.lxor i 1) (fun a => add64 a dataVal) in
    Ok (update acc i (fun a => add64 a (mul64 (u32 dataKey) (u32 (Z.shiftr dataKey 32))))))
  acc (seq 0 accNB).

Definition accumulate (acc input secret : list Z) (nbStripes : nat) : result panic (list Z) :=
  foldm (fun acc n =>
    let! inp := slice_from input (n * stripeLen) in
    let! s := slice_from secret (n * secretConsumeRate) in
    accumulate512 acc inp s)
  acc (seq 0 nbStripes).

Definition scrambleAcc (acc secret : list Z) : result panic (list Z) :=
  foldm (fun acc i =>
    let! key64 := readLE64_at secret (i * 8) in
    let v := acc !!! i in
    let v := xorshift64 v 47 in
    let v := Z.lxor v key64 in
    let v := mul64 v prime32_1 in
    Ok (<[i := v]> acc))
  acc (seq 0 accNB).

Definition hashLongLoop (acc input secret : list Z) : result panic (list Z) :=
  let n := length input in
  let secretSize := length secret in
  let nbStripesPerBlock := ((secretSize - stripeLen) / secretConsumeRate)%nat in
  let blockLen := (stripeLen * nbStripesPerBlock)%nat in
  let nbBlocks := ((n - 1) / blockLen)%nat in
  let! acc := foldm (fun acc i =>
    let! inp := slice_from input (i * blockLen) in
    let! acc := accumulate acc inp secret nbStripesPerBlock in
    let! s := slice_from secret (secretSize - stripeLen) in
    scrambleAcc acc s) acc (seq 0 nbBlocks) in
  let nbStripes := (((n - 1) - blockLen * nbBlocks) / stripeLen)%nat in
  let! inp := slice_from input (nbBlocks * blockLen) in
  let! acc := accumulate acc inp secret nbStripes in
  let! inp := slice_from input (n - stripeLen) in
  let! s := slice_from secret (secretSize - stripeLen - secretLastAccPos) in
  accumulate512 acc inp s.

(** [mix2Accs(acc[o:], secret)]. *)
Definition mix2Accs (acc : list Z) (o : nat) (secret : list Z) : result panic Z :=
  let! s0 := readLE64 secret in
  let! s8 := readLE64_at secret 8 in
  let! a0 := index acc o in
  let! a1 := index acc (o + 1) in
  Ok (mul128Fold64 (Z.lxor a0 s0) (Z.lxor a1 s8)).

Definition mergeAccs (acc secret : list Z) (start : Z) : result panic Z :=
  let! result := foldm (fun result i =>
    let! s := slice_from secret (16 * i) in
    let! m := mix2Accs acc (2 * i) s in
    Ok (add64 result m)) start (seq 0 4) in
  Ok (avalanche3 result).

Definition hashLong (input secret : list Z) : result panic Uint128 :=
  let! acc := hashLongLoop initAcc input secret in
  let secretSize := length secret in
  let n := Z.of_nat (length input) in
  let! s1 := slice_from secret secretMergeAccsPos in
  let! lo := mergeAccs acc s1 (mul64 n prime64_1) in
  let! s2 := slice_from secret (secretSize - stripeLen - secretMergeAccsPos) in
  let! hi := mergeAccs acc s2 (u64 (Z.lnot (mul64 n prime64_2))) in
  Ok (mkUint128 lo hi).

(** [Hash128], with the panic it could have as a value. *)
Definition Hash128_checked (data : list Z) : result panic Uint128 :=
  let n := length data in
  if (n <=? 16)%nat then len0to16 data kSecret
  else if (n <=? 128)%nat then len17to128 data kSecret
  else if (n <=? midsizeMax)%nat then len129to240 data kSecret
  else hashLong data kSecret.

Definition Hash128 (data : list Z) : Uint128 :=
  match Hash128_checked data with Ok h => h | Err _ => mkUint128 0 0 end.

(** ** Every read is in bounds

    [digest r]: the computation succeeds with a pair of 64-bit halves. *)
Notation word := (in_u 64).
Notation digest r := (okp r Uint128_ok).

Lemma add64_word a b : word (add64 a b).
Proof. by apply wrapu_range. Qed.
Lemma sub64_word a b : word (sub64 a b).
Proof. by apply wrapu_range. Qed.
Lemma mul64_word a b : word (mul64 a b).
Proof. by apply wrapu_range. Qed.
Lemma u64_word a : word (u64 a).
Proof. by apply wrapu_range. Qed.
Lemma lxor_word a b : word a -> word b -> word (Z.lxor a b).
Proof. by apply lxor_in_u. Qed.
Lemma shiftr_word a k : 0 <= k -> word a -> word (Z.shiftr a k).
Proof. intros. by apply shiftr_in_u. Qed.
Lemma Mul64_hi_word a b : word a -> word b -> word (a * b / 2 ^ 64).
Proof.
  intros [Ha1 Ha2] [Hb1 Hb2]. split; [apply Z.div_pos; lia|].
  apply Z.div_lt_upper_bound; nia.
Qed.
Lemma word_0 : word 0.
Proof. by split. Qed.

#[local] Hint Resolve add64_word sub64_word mul64_word u64_word lxor_word shiftr_word
  Mul64_hi_word word_0 : bytes.
#[local] Hint Extern 1 (0 <= _) => lia : bytes.

Lemma xorshift64_word v k : 0 <= k -> word v -> word (xorshift64 v k).
Proof. unfold xorshift64. auto with bytes. Qed.
Lemma avalanche64_word v : word v -> word (avalanche64 v).
Proof. unfold avalanche64. cbv zeta. intros. apply lxor_word; [|apply shiftr_word]; auto with bytes. Qed.
Lemma avalanche3_word v : word v -> word (avalanche3 v).
Proof. unfold avalanche3. cbv zeta. intros. apply xorshift64_word; [lia|]. auto with bytes. Qed.
Lemma mul128Fold64_word a b : word a -> word b -> word (mul128Fold64 a b).
Proof. unfold mul128Fold64, Mul64. auto with bytes. Qed.

#[local] Hint Resolve xorshift64_word avalanche64_word avalanche3_word mul128Fold64_word : bytes.

Lemma slice_from_drop b n : (n <= length b)%nat -> slice_from b n = Ok (drop n b).
Proof.
  revert b. induction n as [|n IH]; intros b Hn; [done|].
  destruct b as [|x b]; cbn in *; [lia|]. apply IH. lia.
Qed.

Lemma read_le_take n b : (n <= length b)%nat -> read_le n b = Ok (le_dec (take n b)).
Proof.
  intros Hn. unfold read_le. cbv zeta. rewrite length_take, Nat.min_l by done.
  by rewrite Nat.eqb_refl.
Qed.

Lemma le_dec_word n b : bytes_ok b -> in_u (8 * Z.of_nat n) (le_dec (take n b)).
Proof.
  intros Hb. unfold in_u. assert (bytes_ok (take n b)) as Hw by by apply Forall_take.
  pose proof (le_dec_range _ Hw) as [H1 H2]. split; [done|].
  eapply Z.lt_le_trans; [exact H2|]. change 256 with (2 ^ 8).
  rewrite <-Z.pow_mul_r by (unfold len; lia). apply Z.pow_le_mono_r; [lia|].
  unfold len. rewrite length_take. lia.
Qed.

Lemma readLE64_at_sub b n : (n + 8 <= length b)%nat -> readLE64_at b n = Ok (le_dec (sub b n 8)).
Proof.
  intros. unfold readLE64_at. rewrite slice_from_drop by lia.
  apply read_le_take. rewrite length_drop. lia.
Qed.

Lemma readLE32_at_sub b n : (n + 4 <= length b)%nat -> readLE32_at b n = Ok (le_dec (sub b n 4)).
Proof.
  intros. unfold readLE32_at. rewrite slice_from_drop by lia.
  apply read_le_take. rewrite length_drop. lia.
Qed.

Lemma readLE64_okp b : bytes_ok b -> (8 <= length b)%nat -> okp (readLE64 b) word.
Proof. intros. unfold readLE64. rewrite read_le_take by done. by apply (le_dec_word 8). Qed.

Lemma readLE64_at_okp b n : bytes_ok b -> (n + 8 <= length b)%nat -> okp (readLE64_at b n) word.
Proof.
  intros. rewrite readLE64_at_sub by done. apply (le_dec_word 8). by apply Forall_drop.
Qed.

Lemma readLE32_at_okp b n : bytes_ok b -> (n + 4 <= length b)%nat -> okp (readLE32_at b n) (in_u 32).
Proof.
  intros. rewrite readLE32_at_sub by done. apply (le_dec_word 4). by apply Forall_drop.
Qed.

(** A suffix of a byte slice of a known length. *)
Lemma slice_from_okp b n :
  bytes_ok b -> (n <= length b)%nat ->
  okp (slice_from b n) (fun s => bytes_ok s /\ length s = (length b - n)%nat).
Proof.
  intros. rewrite slice_from_drop by done. split; [by apply Forall_drop|apply length_drop].
Qed.

Lemma kSecret_bytes : bytes_ok kSecret.
Proof. repeat constructor; unfold is_byte; lia. Qed.

Lemma mix16B_okp input secret seed :
  bytes_ok input -> bytes_ok secret -> (16 <= length input)%nat -> (16 <= length secret)%nat ->
  okp (mix16B input secret seed) word.
Proof.
  intros. unfold mix16B.
  eapply okp_bind; [apply readLE64_okp; auto; lia|intros i0 ?].
  eapply okp_bind; [apply readLE64_okp; auto; lia|intros s0 ?].
  eapply okp_bind; [apply readLE64_at_okp; auto; lia|intros i8 ?].
  eapply okp_bind; [apply readLE64_at_okp; auto; lia|intros s8 ?].
  cbn. auto 10 with bytes.
Qed.

Lemma mix32B_okp acc input1 input2 secret seed :
  bytes_ok input1 -> bytes_ok input2 -> bytes_ok secret ->
  (16 <= length input1)%nat -> (16 <= length input2)%nat -> (32 <= length secret)%nat ->
  digest (mix32B acc input1 input2 secret seed).
Proof.
  intros. unfold mix32B.
  eapply okp_bind; [apply mix16B_okp; auto; lia|intros m1 ?].
  eapply okp_bind; [apply readLE64_okp; auto; lia|intros a2 ?].
  eapply okp_bind; [apply readLE64_at_okp; auto; lia|intros b2 ?].
  eapply okp_bind; [apply slice_from_okp; auto; lia|intros s [? ?]].
  eapply okp_bind; [apply mix16B_okp; auto; lia|intros m2 ?].
  eapply okp_bind; [apply readLE64_okp; auto; lia|intros a1 ?].
  eapply okp_bind; [apply readLE64_at_okp; auto; lia|intros b1 ?].
  split; cbn; auto 10 with bytes.
Qed.

Lemma mix32B_at_okp acc data o1 o2 secret o3 seed :
  bytes_ok data -> bytes_ok secret ->
  (o1 + 16 <= length data)%nat -> (o2 + 16 <= length data)%nat -> (o3 + 32 <= length secret)%nat ->
  digest (mix32B_at acc data o1 o2 secret o3 seed).
Proof.
  intros. unfold mix32B_at.
  eapply okp_bind; [apply slice_from_okp; auto; lia|intros d1 [? ?]].
  eapply okp_bind; [apply slice_from_okp; auto; lia|intros d2 [? ?]].
  eapply okp_bind; [apply slice_from_okp; auto; lia|intros s [? ?]].
  apply mix32B_okp; auto; lia.
Qed.

Lemma index_okp b n : bytes_ok b -> (n < length b)%nat -> okp (index b n) is_byte.
Proof.
  intros Hb Hn. unfold index. destruct (lookup_lt_is_Some_2 _ _ Hn) as [v Hv].
  rewrite Hv. exact (Forall_lookup_1 _ _ _ _ Hb Hv).
Qed.

Lemma le_dec_rev_word n v : in_u (8 * Z.of_nat n) (le_dec (rev (le_enc n v))).
Proof.
  rewrite <-(firstn_all (rev (le_enc n v))), length_rev, length_le_enc.
  apply le_dec_word. unfold bytes_ok. apply Forall_rev, le_enc_bytes.
Qed.

Lemma u32_word x : in_u 32 (u32 x).
Proof. by apply wrapu_range. Qed.
Lemma word_of_u32 x : in_u 32 x -> word x.
Proof. unfold in_u. intros. split; [lia|]. apply (Z.lt_trans _ (2 ^ 32)); lia. Qed.
Lemma combined_u32 a b c d :
  in_u 32 (Z.lor (Z.lor (Z.lor (u32 a) (u32 b)) (u32 c)) (u32 d)).
Proof. repeat apply lor_in_u; auto using u32_word; lia. Qed.
Lemma RotateLeft32_u32 v : in_u 32 v -> in_u 32 (RotateLeft32 v 13).
Proof. intros. apply lor_in_u; [lia|apply u32_word|]. by apply shiftr_in_u. Qed.

#[local] Hint Resolve u32_word word_of_u32 combined_u32 RotateLeft32_u32 : bytes.

Lemma len1to3_okp data :
  bytes_ok data -> (0 < length data <= 3)%nat -> digest (len1to3 data kSecret).
Proof.
  intros Hd Hl. unfold len1to3. cbv zeta.
  eapply okp_bind; [apply index_okp; auto; lia|intros c1 ?].
  eapply okp_bind; [apply index_okp; auto; apply Nat.lt_div2; lia|intros c2 ?].
  eapply okp_bind; [apply index_okp; auto; lia|intros c3 ?].
  cbn -[avalanche64 ReverseBytes32 RotateLeft32 u32 add64 sub64 Z.lxor Z.lor Z.shiftl].
  split; cbn [Lo Hi]; apply avalanche64_word, lxor_word; auto 10 with bytes.
  apply word_of_u32, RotateLeft32_u32, (le_dec_rev_word 4).
Qed.

Lemma len4to8_okp data :
  bytes_ok data -> (4 <= length data <= 8)%nat -> digest (len4to8 data kSecret).
Proof.
  intros Hd Hl. unfold len4to8. cbv zeta.
  eapply okp_bind; [apply (readLE32_at_okp _ 0); auto; lia|intros i0 ?].
  eapply okp_bind; [apply readLE32_at_okp; auto; lia|intros i1 ?].
  eapply okp_bind; [apply readLE64_at_okp; [apply kSecret_bytes|cbn; lia]|intros s0 ?].
  eapply okp_bind; [apply readLE64_at_okp; [apply kSecret_bytes|cbn; lia]|intros s1 ?].
  cbn -[Z.mul Z.pow Z.shiftr Z.shiftl mul64 xorshift64 avalanche3 add64 Z.lxor u64].
  split; cbn [Lo Hi]; auto with bytes.
Qed.

Lemma len9to16_okp data :
  bytes_ok data -> (9 <= length data <= 16)%nat -> digest (len9to16 data kSecret).
Proof.
  intros Hd Hl. unfold len9to16. cbv zeta.
  do 4 (eapply okp_bind; [apply readLE64_at_okp; [apply kSecret_bytes|cbn; lia]|intros ? ?]).
  eapply okp_bind; [apply (readLE64_at_okp _ 0); auto; lia|intros i0 ?].
  eapply okp_bind; [apply readLE64_at_okp; auto; lia|intros i1 ?].
  split; cbn [Lo Hi]; auto with bytes.
Qed.

Lemma len0to16_okp data :
  bytes_ok data -> (length data <= 16)%nat -> digest (len0to16 data kSecret).
Proof.
  intros Hd Hl. unfold len0to16. cbv zeta.
  apply okp_if; intros H1%Nat.ltb_lt || intros H1%Nat.ltb_ge; [apply len9to16_okp; auto; lia|].
  apply okp_if; intros H2%Nat.leb_le || intros H2%Nat.leb_gt; [apply len4to8_okp; auto; lia|].
  apply okp_if; intros H3%Nat.ltb_lt || intros H3%Nat.ltb_ge; [apply len1to3_okp; auto; lia|].
  do 4 (eapply okp_bind; [apply readLE64_at_okp; [apply kSecret_bytes|cbn; lia]|intros ? ?]).
  split; cbn [Lo Hi]; auto with bytes.
Qed.

Lemma foldMidsize_ok acc n seed : Uint128_ok (foldMidsize acc n seed).
Proof. split; cbn; auto with bytes. Qed.

Lemma len17to128_okp data :
  bytes_ok data -> (16 < length data <= 128)%nat -> digest (len17to128 data kSecret).
Proof.
  intros Hd Hl. unfold len17to128. cbv zeta.
  pose proof kSecret_bytes as Hs. assert (length kSecret = 192%nat) as Ls by done.
  eapply (okp_bind _ _ (fun _ => True)).
  - apply okp_if; [intros H1%Nat.ltb_lt|done].
    eapply (okp_bind _ _ (fun _ => True)).
    + apply okp_if; [intros H2%Nat.ltb_lt|done].
      eapply (okp_bind _ _ (fun _ => True)).
      * apply okp_if; [intros H3%Nat.ltb_lt|done].
        eapply okp_impl; [apply mix32B_at_okp; auto; lia|done].
      * intros. eapply okp_impl; [apply mix32B_at_okp; auto; lia|done].
    + intros. eapply okp_impl; [apply mix32B_at_okp; auto; lia|done].
  - intros acc _. eapply okp_bind; [apply mix32B_at_okp; auto; lia|].
    intros. apply foldMidsize_ok.
Qed.

Lemma elem_of_steps i from upto step :
  (0 < step)%nat -> i ∈ steps from upto step ->
  (i < upto /\ exists k, i = from + k * step)%nat.
Proof.
  intros Hs. unfold steps. rewrite list_elem_of_fmap. intros (k & -> & Hk).
  rewrite elem_of_seq in Hk. split; [|eauto].
  assert (k < (upto - from + (step - 1)) / step)%nat as Hk' by lia.
  assert (step * ((upto - from + (step - 1)) / step) <= upto - from + (step - 1))%nat
    by (apply Nat.Div0.mul_div_le). nia.
Qed.

Lemma len129to240_okp data :
  bytes_ok data -> (128 < length data <= 240)%nat -> digest (len129to240 data kSecret).
Proof.
  intros Hd Hl. unfold len129to240. cbv zeta.
  pose proof kSecret_bytes as Hs. assert (length kSecret = 192%nat) as Ls by done.
  eapply (okp_bind _ _ (fun _ => True)).
  { apply okp_foldm; [done|]. intros acc i _ [Hi [k Hk]]%elem_of_steps; [|lia].
    eapply okp_impl; [apply mix32B_at_okp; auto; lia|done]. }
  intros acc _. eapply (okp_bind _ _ (fun _ => True)).
  { apply okp_foldm; [done|]. intros acc' i _ [Hi [k Hk]]%elem_of_steps; [|lia].
    unfold midsizeStartOffset.
    eapply okp_impl; [apply mix32B_at_okp; auto; lia|done]. }
  intros acc' _. eapply okp_bind.
  { unfold secretSizeMin, midsizeLastOffset. apply mix32B_at_okp; auto; lia. }
  intros. apply foldMidsize_ok.
Qed.

(** The accumulators stay eight words. *)
Definition lanes (acc : list Z) : Prop := length acc = accNB /\ Forall word acc.

Lemma lanes_insert acc i v : lanes acc -> word v -> lanes (<[i := v]> acc).
Proof.
  intros [Hl Hw] Hv. split; [by rewrite length_insert|]. by apply Forall_insert.
Qed.

Lemma initAcc_lanes : lanes initAcc.
Proof. split; [done|]. unfold initAcc. by repeat (apply List.Forall_cons; [done|]). Qed.

Lemma accumulate512_okp acc input secret :
  lanes acc -> bytes_ok input -> bytes_ok secret ->
  (64 <= length input)%nat -> (64 <= length secret)%nat ->
  okp (accumulate512 acc input secret) lanes.
Proof.
  intros Ha Hi Hs Li Ls. apply okp_foldm; [done|].
  intros a i La [Hlo Hhi]%elem_of_seq. unfold accNB in Hhi.
  eapply okp_bind; [apply readLE64_at_okp; auto; lia|intros d ?].
  eapply okp_bind; [apply readLE64_at_okp; auto; lia|intros s ?].
  unfold update. cbn. auto using lanes_insert with bytes.
Qed.

Lemma accumulate_okp acc input secret n :
  lanes acc -> bytes_ok input -> bytes_ok secret ->
  (n * 64 <= length input)%nat -> (n * 8 + 56 <= length secret)%nat ->
  okp (accumulate acc input secret n) lanes.
Proof.
  intros Ha Hi Hs Li Ls. apply okp_foldm; [done|].
  intros a i La [Hlo Hhi]%elem_of_seq. unfold stripeLen, secretConsumeRate.
  eapply okp_bind; [apply slice_from_okp; auto; lia|intros d [? ?]].
  eapply okp_bind; [apply slice_from_okp; auto; lia|intros s [? ?]].
  apply accumulate512_okp; auto; lia.
Qed.

Lemma scrambleAcc_okp acc secret :
  lanes acc -> bytes_ok secret -> (64 <= length secret)%nat ->
  okp (scrambleAcc acc secret) lanes.
Proof.
  intros Ha Hs Ls. apply okp_foldm; [done|].
  intros a i La [Hlo Hhi]%elem_of_seq. unfold accNB in Hhi.
  eapply okp_bind; [apply readLE64_at_okp; auto; lia|intros d ?].
  cbn. auto using lanes_insert with bytes.
Qed.

Lemma hashLongLoop_okp acc input :
  lanes acc -> bytes_ok input -> (240 < length input)%nat ->
  okp (hashLongLoop acc input kSecret) lanes.
Proof.
  intros Ha Hi Li. unfold hashLongLoop. cbv zeta.
  pose proof kSecret_bytes as Hs. assert (length kSecret = 192%nat) as Ls by done.
  rewrite Ls. unfold secretConsumeRate, secretLastAccPos, stripeLen.
  replace ((192 - 64) / 8)%nat with 16%nat by done.
  replace (64 * 16)%nat with 1024%nat by done.
  set (n := length input) in *. set (nb := ((n - 1) / 1024)%nat).
  assert (1024 * nb <= n - 1)%nat as Hnb by apply Nat.Div0.mul_div_le.
  eapply okp_bind.
  { apply (okp_foldm lanes); [done|]. intros a i La [_ Hhi]%elem_of_seq.
    eapply okp_bind; [apply slice_from_okp; auto; lia|intros d [? ?]].
    eapply okp_bind; [apply accumulate_okp; auto; lia|intros a' La'].
    eapply okp_bind; [apply slice_from_okp; auto; lia|intros s [? ?]].
    apply scrambleAcc_okp; auto; lia. }
  intros a La.
  set (ns := ((n - 1 - 1024 * nb) / 64)%nat).
  assert (64 * ns <= n - 1 - 1024 * nb)%nat as Hns by apply Nat.Div0.mul_div_le.
  assert (n - 1 - 1024 * nb < 1024)%nat as Hrem.
  { pose proof (Nat.mul_succ_div_gt (n - 1) 1024). fold nb in H. lia. }
  eapply okp_bind; [apply slice_from_okp; auto; lia|intros d [? ?]].
  eapply okp_bind; [apply accumulate_okp; auto; lia|intros a' La'].
  eapply okp_bind; [apply slice_from_okp; auto; lia|intros e [? ?]].
  eapply okp_bind; [apply slice_from_okp; auto; lia|intros s [? ?]].
  apply accumulate512_okp; auto; lia.
Qed.

Lemma lanes_index acc i : lanes acc -> (i < 8)%nat -> okp (index acc i) word.
Proof.
  intros [Hl Hw] Hi. unfold index.
  destruct (lookup_lt_is_Some_2 acc i) as [v Hv]; [by rewrite Hl|].
  rewrite Hv. exact (Forall_lookup_1 _ _ _ _ Hw Hv).
Qed.

Lemma mergeAccs_okp acc secret start :
  lanes acc -> bytes_ok secret -> (64 <= length secret)%nat -> word start ->
  okp (mergeAccs acc secret start) word.
Proof.
  intros Ha Hs Ls Hst. unfold mergeAccs. eapply okp_bind.
  { apply (okp_foldm word); [done|]. intros r i Hr [_ Hhi]%elem_of_seq.
    eapply okp_bind; [apply slice_from_okp; auto; lia|intros s [? ?]].
    eapply (okp_bind _ _ word).
    - unfold mix2Accs.
      eapply okp_bind; [apply readLE64_okp; auto; lia|intros s0 ?].
      eapply okp_bind; [apply readLE64_at_okp; auto; lia|intros s8 ?].
      eapply okp_bind; [apply lanes_index; [done|lia]|intros a0 ?].
      eapply okp_bind; [apply lanes_index; [done|lia]|intros a1 ?].
      cbn. auto with bytes.
    - intros m ?. cbn. auto with bytes. }
  intros r ?. cbn. auto with bytes.
Qed.

Lemma hashLong_okp input :
  bytes_ok input -> (240 < length input)%nat -> digest (hashLong input kSecret).
Proof.
  intros Hi Li. unfold hashLong. cbv zeta.
  pose proof kSecret_bytes as Hs. assert (length kSecret = 192%nat) as Ls by done. rewrite Ls.
  unfold secretMergeAccsPos, stripeLen.
  eapply okp_bind; [apply hashLongLoop_okp; auto using initAcc_lanes|intros acc La].
  eapply okp_bind; [apply slice_from_okp; auto; lia|intros s [? ?]].
  eapply okp_bind; [apply mergeAccs_okp; auto with bytes; lia|intros lo ?].
  eapply okp_bind; [apply slice_from_okp; auto; lia|intros s' [? ?]].
  eapply okp_bind; [apply mergeAccs_okp; auto with bytes; lia|intros hi ?].
  by split.
Qed.

Lemma Hash128_checked_okp data : bytes_ok data -> digest (Hash128_checked data).
Proof.
  intros Hd. unfold Hash128_checked, midsizeMax. cbv zeta.
  apply okp_if; intros H1%Nat.leb_le || intros H1%Nat.leb_gt; [by apply len0to16_okp|].
  apply okp_if; intros H2%Nat.leb_le || intros H2%Nat.leb_gt; [by apply len17to128_okp|].
  apply okp_if; intros H3%Nat.leb_le || intros H3%Nat.leb_gt; [by apply len129to240_okp|].
  by apply hashLong_okp.
Qed.

Lemma Hash128_ok data : bytes_ok data -> Uint128_ok (Hash128 data).
Proof.
  intros Hd. unfold Hash128. pose proof (Hash128_checked_okp _ Hd).
  by destruct (Hash128_checked data).
Qed.

Lemma Hash128_checked_eq data : bytes_ok data -> Hash128_checked data = Ok (Hash128 data).
Proof.
  intros Hd. unfold Hash128. pose proof (Hash128_checked_okp _ Hd).
  by destruct (Hash128_checked data).
Qed.

(** ** The digest of a short input determines it *)
Lemma lxor_cancel a b c : Z.lxor a c = Z.lxor b c -> a = b.
Proof.
  intros H. rewrite <-(Z.lxor_0_r a), <-(Z.lxor_0_r b), <-(Z.lxor_nilpotent c).
  by rewrite <-!Z.lxor_assoc, H.
Qed.

(** [v ^ (v >> s)] determines [v]. *)
Lemma xorshift64_inj v w s :
  0 < s -> 0 <= v -> 0 <= w -> xorshift64 v s = xorshift64 w s -> v = w.
Proof.
  unfold xorshift64. intros Hs Hv Hw H. apply Z.lxor_eq.
  assert (Z.lxor v w = Z.shiftr (Z.lxor v w) s) as E.
  { rewrite Z.shiftr_lxor. apply Z.lxor_eq. rewrite <-Z.lxor_assoc.
    rewrite (Z.lxor_assoc v w), (Z.lxor_comm w), <-Z.lxor_assoc, H.
    rewrite Z.lxor_assoc. apply Z.lxor_nilpotent. }
  assert (0 <= Z.lxor v w) as Hd by (apply Z.lxor_nonneg; split; lia).
  rewrite Z.shiftr_div_pow2 in E by lia.
  destruct (decide (Z.lxor v w = 0)) as [|Hne]; [done|].
  assert (1 < 2 ^ s) by (apply Z.pow_gt_1; lia).
  pose proof (Z.div_lt (Z.lxor v w) (2 ^ s)). lia.
Qed.

(** Multiplying by an odd constant loses nothing. *)
Lemma mul64_inj m a b :
  Z.gcd (2 ^ 64) m = 1 -> word a -> word b -> mul64 a m = mul64 b m -> a = b.
Proof.
  intros Hm [Ha1 Ha2] [Hb1 Hb2] H. unfold mul64, u64, wrapu in H.
  assert ((2 ^ 64 | m * (a - b))) as Hd.
  { apply Z.mod_divide; [lia|].
    replace (m * (a - b)) with (a * m - b * m) by ring.
    rewrite Zminus_mod, H, Z.sub_diag. done. }
  apply Z.gauss in Hd; [|done]. destruct Hd as [k Hk].
  assert (k = 0) by nia. lia.
Qed.

Lemma avalanche64_inj a b : word a -> word b -> avalanche64 a = avalanche64 b -> a = b.
Proof.
  intros Ha Hb H. change (avalanche64 ?x) with
    (xorshift64 (mul64 (xorshift64 (mul64 (xorshift64 x 33) prime64_2) 29) prime64_3) 32) in H.
  apply xorshift64_inj in H; [|lia|apply mul64_word|apply mul64_word].
  apply mul64_inj in H; [|done|auto with bytes|auto with bytes].
  apply xorshift64_inj in H; [|lia|apply mul64_word|apply mul64_word].
  apply mul64_inj in H; [|done|auto with bytes|auto with bytes].
  apply xorshift64_inj in H; [done|lia|apply Ha|apply Hb].
Qed.

Lemma avalanche3_inj a b : word a -> word b -> avalanche3 a = avalanche3 b -> a = b.
Proof.
  intros Ha Hb H. unfold avalanche3 in H. cbv zeta in H.
  apply xorshift64_inj in H; [|lia|apply mul64_word|apply mul64_word].
  apply mul64_inj in H; [|done|auto with bytes|auto with bytes].
  apply xorshift64_inj in H; [done|lia|apply Ha|apply Hb].
Qed.

Lemma add64_cancel a b c : word a -> word b -> add64 a c = add64 b c -> a = b.
Proof.
  unfold add64, u64, wrapu, in_u. intros Ha Hb H.
  assert ((a + c - c) mod 2 ^ 64 = (b + c - c) mod 2 ^ 64) as E
    by (rewrite Zminus_mod, H, <-Zminus_mod; done).
  rewrite !Z.add_simpl_r, !Z.mod_small in E by done. done.
Qed.

Lemma add64_cancel_l a b c : word a -> word b -> add64 c a = add64 c b -> a = b.
Proof. unfold add64. rewrite !(Z.add_comm c). by apply add64_cancel. Qed.

Lemma le_dec_inj a b :
  bytes_ok a -> bytes_ok b -> length a = length b -> le_dec a = le_dec b -> a = b.
Proof. intros Ha Hb Hl H. by rewrite <-(le_enc_dec a), <-(le_enc_dec b), Hl, H. Qed.

(** A slice is determined by its first and its last [k] bytes when they meet. *)
Lemma ends_determine (a b : list Z) k :
  length a = length b -> (k <= length a <= 2 * k)%nat ->
  take k a = take k b -> sub a (length a - k) k = sub b (length a - k) k -> a = b.
Proof.
  intros Hl Hk H1 H2. rewrite <-(take_drop k a), <-(take_drop k b), H1. f_equal.
  unfold sub in H2.
  rewrite !(firstn_all2 (n:=k)) in H2 by (rewrite length_drop; lia).
  apply (f_equal (drop (k - (length a - k)))) in H2. rewrite !drop_drop in H2.
  by replace (length a - k + (k - (length a - k)))%nat with k in H2 by lia.
Qed.

Lemma ends_determine_words (a b : list Z) k :
  bytes_ok a -> bytes_ok b -> length a = length b -> (k <= length a <= 2 * k)%nat ->
  le_dec (take k a) = le_dec (take k b) ->
  le_dec (sub a (length a - k) k) = le_dec (sub b (length a - k) k) -> a = b.
Proof.
  intros Ha Hb Hl Hk H1 H2. apply (ends_determine a b k); [done|done| |].
  - apply le_dec_inj; [by apply Forall_take|by apply Forall_take| |done].
    rewrite !length_take. lia.
  - unfold sub in *.
    apply le_dec_inj; [by apply Forall_take, Forall_drop|by apply Forall_take, Forall_drop| |done].
    rewrite !length_take, !length_drop. lia.
Qed.

Lemma combined_le a b c n :
  is_byte a -> is_byte b -> is_byte c -> is_byte n ->
  Z.lor (Z.lor (Z.lor (u32 (Z.shiftl a 16)) (u32 (Z.shiftl b 24))) (u32 (Z.shiftl c 0)))
        (u32 (Z.shiftl n 8)) = c + n * 2 ^ 8 + a * 2 ^ 16 + b * 2 ^ 24.
Proof.
  unfold is_byte. intros Ha Hb Hc Hn.
  unfold u32. rewrite !wrapu_small
    by (unfold in_u; rewrite ?Z.shiftl_0_r, ?Z.shiftl_mul_pow2 by lia; lia).
  rewrite Z.shiftl_0_r, <-Z.lor_assoc, (Z.lor_comm (Z.lor _ _)), (Z.lor_assoc _ _ (Z.shiftl b 24)).
  by rewrite (lor_shiftl_add c n 8), (lor_shiftl_add _ a 16), lor_shiftl_add by lia.
Qed.

Lemma combined_inj a b c n a' b' c' :
  is_byte a -> is_byte b -> is_byte c -> is_byte a' -> is_byte b' -> is_byte c' ->
  c + n * 2 ^ 8 + a * 2 ^ 16 + b * 2 ^ 24 = c' + n * 2 ^ 8 + a' * 2 ^ 16 + b' * 2 ^ 24 ->
  a = a' /\ b = b' /\ c = c'.
Proof. unfold is_byte. lia. Qed.

Lemma index_lookup b n : (n < length b)%nat -> exists v, index b n = Ok v /\ b !! n = Some v.
Proof. intros Hn. unfold index. destruct (lookup_lt_is_Some_2 _ _ Hn) as [v Hv]. rewrite Hv. eauto. Qed.

Lemma list_eq_upto3 (a b : list Z) :
  length a = length b -> (0 < length a <= 3)%nat -> a !! 0%nat = b !! 0%nat ->
  a !! Nat.div2 (length a) = b !! Nat.div2 (length a) ->
  a !! (length a - 1)%nat = b !! (length a - 1)%nat -> a = b.
Proof.
  intros Hl Hn H0 H1 H2. destruct a as [|x [|y [|z [|]]]]; cbn in *; try lia;
    destruct b as [|x' [|y' [|z' [|]]]]; cbn in *; try lia; congruence.
Qed.

Lemma secret64 n : (n + 8 <= 192)%nat -> exists s, readLE64_at kSecret n = Ok s /\ word s.
Proof. intros. apply okp_ok, readLE64_at_okp; [apply kSecret_bytes|done]. Qed.

Lemma secret32 n : (n + 4 <= 192)%nat -> exists s, readLE32_at kSecret n = Ok s /\ in_u 32 s.
Proof. intros. apply okp_ok, readLE32_at_okp; [apply kSecret_bytes|done]. Qed.

Lemma combined_word a b c n :
  is_byte a -> is_byte b -> is_byte c -> is_byte n ->
  word (c + n * 2 ^ 8 + a * 2 ^ 16 + b * 2 ^ 24).
Proof. unfold is_byte, in_u. lia. Qed.

Lemma len1to3_inj a b :
  bytes_ok a -> bytes_ok b -> length a = length b -> (0 < length a <= 3)%nat ->
  len1to3 a kSecret = len1to3 b kSecret -> a = b.
Proof.
  intros Ha Hb Hl Hn H. unfold len1to3 in H. cbv zeta in H. rewrite <-Hl in H.
  assert (Nat.div2 (length a) < length a)%nat as Hd by (apply Nat.lt_div2; lia).
  destruct (index_lookup a 0) as (a0 & Ea0 & La0); [lia|].
  destruct (index_lookup b 0) as (b0 & Eb0 & Lb0); [lia|].
  destruct (index_lookup a (Nat.div2 (length a))) as (a1 & Ea1 & La1); [lia|].
  destruct (index_lookup b (Nat.div2 (length a))) as (b1 & Eb1 & Lb1); [lia|].
  destruct (index_lookup a (length a - 1)) as (a2 & Ea2 & La2); [lia|].
  destruct (index_lookup b (length a - 1)) as (b2 & Eb2 & Lb2); [lia|].
  rewrite Ea0, Ea1, Ea2, Eb0, Eb1, Eb2 in H.
  assert (forall l i v, bytes_ok l -> l !! i = Some v -> is_byte v) as Hbyte
    by (intros l i v; apply Forall_lookup_1).
  rewrite !combined_le in H by (eauto || (unfold is_byte; lia)).
  destruct (secret32 0) as (s0 & Es0 & W0); [lia|].
  destruct (secret32 4) as (s4 & Es4 & W4); [lia|].
  destruct (secret32 8) as (s8 & Es8 & W8); [lia|].
  destruct (secret32 12) as (s12 & Es12 & W12); [lia|].
  change (readLE32 kSecret) with (readLE32_at kSecret 0) in H.
  rewrite Es0, Es4, Es8, Es12 in H.
  injection H as H _. apply avalanche64_inj in H.
  - apply lxor_cancel, combined_inj in H as (-> & -> & ->); eauto.
    apply list_eq_upto3; congruence.
  - apply lxor_word; [apply combined_word|apply add64_word]; eauto. unfold is_byte; lia.
  - apply lxor_word; [apply combined_word|apply add64_word]; eauto. unfold is_byte; lia.
Qed.

Lemma len4to8_factor n : (4 <= n <= 8)%nat ->
  Z.gcd (2 ^ 64) (add64 prime64_1 (u64 (Z.shiftl (Z.of_nat n) 2))) = 1.
Proof. intros Hn. do 9 (destruct n as [|n]; [first [lia|by vm_compute]|]). lia. Qed.

Lemma halves_word lo hi : in_u 32 lo -> in_u 32 hi ->
  add64 lo (u64 (Z.shiftl hi 32)) = lo + hi * 2 ^ 32.
Proof.
  unfold in_u. intros Hlo Hhi. unfold add64, u64. rewrite Z.shiftl_mul_pow2 by lia.
  rewrite !wrapu_small; [done|unfold in_u; lia..| ]; unfold in_u; rewrite ?wrapu_small; unfold in_u; lia.
Qed.

Lemma len4to8_inj a b :
  bytes_ok a -> bytes_ok b -> length a = length b -> (4 <= length a <= 8)%nat ->
  len4to8 a kSecret = len4to8 b kSecret -> a = b.
Proof.
  intros Ha Hb Hl Hn H. unfold len4to8 in H. cbv zeta in H. rewrite <-Hl in H.
  unfold readLE32 in H. rewrite !read_le_take, !readLE32_at_sub in H by lia.
  destruct (secret64 16) as (s16 & E16 & W16); [lia|].
  destruct (secret64 24) as (s24 & E24 & W24); [lia|].
  rewrite E16, E24 in H. unfold Mul64 in H.
  pose proof (le_dec_word 4 a Ha) as Wa. pose proof (le_dec_word 4 b Hb) as Wb.
  assert (forall l, bytes_ok l -> in_u 32 (le_dec (sub l (length a - 4) 4))) as Ws
    by (intros l Hbl; apply (le_dec_word 4); by apply Forall_drop).
  rewrite !halves_word in H by auto.
  set (m := add64 prime64_1 _) in H. set (f := add64 (Z.lxor s16 s24) 0) in H.
  set (ka := Z.lxor _ f) in H. set (kb := Z.lxor (_ + _) f) in H.
  assert (word f) as Wf by apply add64_word.
  assert (forall x y, in_u 32 x -> in_u 32 y -> word (x + y * 2 ^ 32)) as Wh
    by (unfold in_u; lia).
  assert (word ka) as Wka by (apply lxor_word; auto).
  assert (word kb) as Wkb by (apply lxor_word; auto).
  injection H as Hlo Hhi.
  apply avalanche3_inj in Hhi; [|apply add64_word..].
  apply xorshift64_inj in Hlo; [|lia|apply mul64_word|apply mul64_word].
  rewrite <-Hhi in Hlo.
  apply mul64_inj in Hlo; [|done|auto 10 with bytes..].
  apply xorshift64_inj in Hlo; [|lia|apply lxor_word; auto with bytes..].
  apply lxor_cancel, mul64_inj in Hlo; [|by apply len4to8_factor|done..].
  apply lxor_cancel in Hlo.
  assert (forall x y x' y', in_u 32 x -> in_u 32 x' ->
    x + y * 2 ^ 32 = x' + y' * 2 ^ 32 -> x = x' /\ y = y') as Hinj by (unfold in_u; lia).
  apply Hinj in Hlo as [E1 E2]; [|auto..].
  by apply (ends_determine_words a b 4).
Qed.

(** [h + uint64(uint32(h))*(prime32_2-1)] determines [h]: its low half is the
    low half of [h] times an odd constant. *)
Lemma fold_inputHi_inj h h' :
  word h -> word h' ->
  add64 h (mul64 (u32 h) (prime32_2 - 1)) = add64 h' (mul64 (u32 h') (prime32_2 - 1)) -> h = h'.
Proof.
  intros Hh Hh' H.
  assert (u32 h = u32 h') as E.
  2: { rewrite E in H. by apply add64_cancel in H. }
  assert (forall x, add64 x (mul64 (u32 x) (prime32_2 - 1)) mod 2 ^ 32
                    = (u32 x * prime32_2) mod 2 ^ 32) as Hlow.
  { intros x. unfold add64, mul64, u64, u32, wrapu.
    rewrite Zplus_mod_idemp_r. change (2 ^ 64) with (2 ^ 32 * 2 ^ 32).
    rewrite Z.mod_mod_divide by (exists (2 ^ 32); done).
    rewrite <-Zplus_mod_idemp_l. f_equal. lia. }
  apply (f_equal (fun x => x mod 2 ^ 32)) in H. rewrite !Hlow in H.
  assert ((2 ^ 32 | prime32_2 * (u32 h - u32 h'))) as Hd.
  { apply Z.mod_divide; [lia|].
    replace (prime32_2 * (u32 h - u32 h')) with (u32 h * prime32_2 - u32 h' * prime32_2) by ring.
    rewrite Zminus_mod, H, Z.sub_diag. done. }
  apply Z.gauss in Hd; [|done]. destruct Hd as [k Hk].
  pose proof (u32_word h) as [? ?]. pose proof (u32_word h') as [? ?].
  assert (k = 0) by nia. lia.
Qed.

Lemma len9to16_inj a b :
  bytes_ok a -> bytes_ok b -> length a = length b -> (9 <= length a <= 16)%nat ->
  len9to16 a kSecret = len9to16 b kSecret -> a = b.
Proof.
  intros Ha Hb Hl Hn H. unfold len9to16 in H. cbv zeta in H. rewrite <-Hl in H.
  unfold readLE64 in H. rewrite !read_le_take, !(readLE64_at_sub _ (length a - 8)) in H by lia.
  destruct (secret64 32) as (s32 & E32 & W32); [lia|].
  destruct (secret64 40) as (s40 & E40 & W40); [lia|].
  destruct (secret64 48) as (s48 & E48 & W48); [lia|].
  destruct (secret64 56) as (s56 & E56 & W56); [lia|].
  rewrite E32, E40, E48, E56 in H. unfold Mul64 in H.
  pose proof (le_dec_word 8 a Ha) as Wa. pose proof (le_dec_word 8 b Hb) as Wb.
  assert (forall l, bytes_ok l -> word (le_dec (sub l (length a - 8) 8))) as Ws
    by (intros l Hbl; apply (le_dec_word 8); by apply Forall_drop).
  pose proof (Ws a Ha) as Wa'. pose proof (Ws b Hb) as Wb'.
  set (loa := le_dec (take 8 a)) in *. set (lob := le_dec (take 8 b)) in *.
  set (hia := le_dec (sub a _ 8)) in *. set (hib := le_dec (sub b _ 8)) in *.
  set (fl := sub64 (Z.lxor s32 s40) 0) in H. set (fh := add64 (Z.lxor s48 s56) 0) in H.
  assert (word fl) as Wfl by apply sub64_word. assert (word fh) as Wfh by apply add64_word.
  injection H as Hlo Hhi.
  apply avalanche3_inj in Hlo; [|apply u64_word..].
  apply avalanche3_inj in Hhi; [|apply add64_word..].
  assert (forall x, word (ReverseBytes64 x)) as Wr by (intros; apply (le_dec_rev_word 8)).
  apply mul64_inj in Hlo; [|done|apply lxor_word; auto with bytes..].
  rewrite Hlo in Hhi. apply add64_cancel_l, mul64_inj in Hhi; [|done || apply add64_word || apply mul64_word..].
  rewrite Hhi in Hlo. apply lxor_cancel, add64_cancel, mul64_inj in Hlo; [|done || auto with bytes..].
  rewrite Hlo in Hhi. apply add64_cancel_l in Hhi; [|apply add64_word..].
  apply fold_inputHi_inj in Hhi; [|auto with bytes..].
  apply lxor_cancel in Hhi. apply lxor_cancel in Hlo. rewrite Hhi in Hlo.
  apply lxor_cancel in Hlo. apply (ends_determine_words a b 8); done || lia.
Qed.

(** ** Properties *)

(** [Hash128] never indexes outside the data or the secret, whatever the
    length of the data, and returns two 64-bit halves. *)
Theorem Hash128_in_bounds data :
  bytes_ok data -> exists h, Hash128_checked data = Ok h /\ in_u 64 (Lo h) /\ in_u 64 (Hi h).
Proof. intros H. exact (proj1 (okp_ok _ _) (Hash128_checked_okp _ H)). Qed.

(** The deterministic filler of [xxh3_test.go] and the digests the test pins
    against the reference implementation, one per branch of the algorithm. *)
Fixpoint fill (n : nat) (s : Z) : list Z :=
  match n with
  | O => []
  | S n =>
      let s := Z.lxor s (Z.shiftr s 12) in
      let s := Z.lxor s (u64 (Z.shiftl s 25)) in
      let s := Z.lxor s (Z.shiftr s 27) in
      Z.shiftr (mul64 s 0x2545F4914F6CDD1D) 56 :: fill n s
  end.
Definition filled (n : nat) : list Z := fill n 0x9E3779B97F4A7C15.

Definition reference_vectors : list (Z * Z * Z) := [
  (0, 0x6001c324468d497f, 0x99aa06d3014798d8);
  (1, 0x8a21d78b1538b1c0, 0x79d2c79e874f72cd);
  (3, 0xe40336b30bf2a78b, 0xac7b793459e5a563);
  (4, 0x903a8d0b327eb26b, 0xf30b53443f9a591f);
  (8, 0x1dd06c257aa49405, 0x8168d4efe83859e2);
  (9, 0xfb7b419afbb5f529, 0x9e71572fd20ce2ad);
  (16, 0x0b1e31a2980b0a50, 0x19760481f90ba4b0);
  (17, 0x47ae08bc5713b76f, 0x4c2e3049513c6fee);
  (127, 0x94acbfe0d6cc8c6f, 0x88e0219b59c999b3);
  (128, 0x947bfbdbd4cbc1cf, 0x5e7f91e172195021);
  (129, 0xdb5607ab0dd9a932, 0xedefce7bcdcc0df2);
  (240, 0x3449a58fc523b36a, 0x15eecc2209998c59);
  (241, 0xa964e00aaaf73f82, 0x205f88c0a835a0df);
  (1024, 0xc942e27bbdfd1428, 0xe537d5c886668d24);
  (4096, 0x6f91a494cc74a6bc, 0xb4f0252f33fe7cdc)].

Example Hash128_matches_reference :
  forallb (fun v => bool_decide (Hash128_checked (filled (Z.to_nat v.1.1)) = Ok (mkUint128 v.1.2 v.2)))
          reference_vectors = true.
Proof. vm_compute. reflexivity. Qed.

Lemma Hash128_in_bounds_witness :
  bytes_ok [0x61; 0x62; 0x63] /\
  exists h, Hash128_checked [0x61; 0x62; 0x63] = Ok h /\ in_u 64 (Lo h) /\ in_u 64 (Hi h).
Proof.
  assert (bytes_ok [0x61; 0x62; 0x63]) as H by (repeat constructor; unfold is_byte; lia).
  split; [exact H|]. exact (Hash128_in_bounds [0x61; 0x62; 0x63] H).
Defined.

(** C32: two inputs of the same length of at most 16 bytes with the same digest
    are equal: on short inputs XXH3-128 loses no information. *)
Theorem Hash128_short_injective a b :
  bytes_ok a -> bytes_ok b -> length a = length b -> (length a <= 16)%nat ->
  Hash128 a = Hash128 b -> a = b.
Proof.
  intros Ha Hb Hl Hn H.
  assert (Hash128_checked a = Hash128_checked b) as E
    by (rewrite !Hash128_checked_eq by done; congruence).
  unfold Hash128_checked, len0to16 in E. cbv zeta in E. rewrite <-!Hl in E.
  rewrite (proj2 (Nat.leb_le _ _) Hn) in E.
  destruct (Nat.ltb_spec 8 (length a)); [by apply len9to16_inj in E|].
  destruct (Nat.leb_spec 4 (length a)); [by apply len4to8_inj in E|].
  destruct (Nat.ltb_spec 0 (length a)); [apply len1to3_inj in E; auto; lia|].
  clear E H. destruct a, b; cbn in *; done || lia.
Qed.

Lemma Hash128_short_injective_witness :
  exists a, bytes_ok a /\ length a = 9%nat /\ Hash128 a = Hash128 (filled 9) /\ a = filled 9.
Proof.
  exists (filled 9). assert (bytes_ok (filled 9)) as H.
  { vm_compute. repeat constructor; discriminate. }
  split; [exact H|]. split; [reflexivity|]. split; [reflexivity|].
  apply (Hash128_short_injective (filled 9) (filled 9) H H eq_refl); [cbn; lia|reflexivity].
Defined.

Lemma Bytes_FromBytes h : Uint128_ok h -> Uint128FromBytes (Bytes h) = h.
Proof.
  intros [Hlo Hhi]. destruct h as [lo hi]. unfold Uint128FromBytes, Bytes. cbn [Lo Hi] in *.
  rewrite sub_app_l, sub_all by (rewrite length_le_enc; lia).
  rewrite <-(app_nil_r (le_enc 8 hi)), sub_exact' by (rewrite length_le_enc; lia).
  by rewrite !le_dec_enc_small.
Qed.

Lemma Bytes_length h : length (Bytes h) = 16%nat.
Proof. unfold Bytes. lens. Qed.

Lemma Bytes_bytes h : bytes_ok (Bytes h).
Proof. apply Forall_app. split; apply le_enc_bytes. Qed.

End Xxh3.
