(* ===== verification/SnapTypes.v ===== *)
(** * Data and errors of the snapshot package ([src/internal/wasmsnapshot])

    The records the snapshot streams are made of, and one constructor of
    [snap_err] per place of the package that builds an error.  [Panic] stands
    for the run-time panics the code can reach: a slice expression whose bounds
    are out of order or out of range, and a [make] of a negative length. *)
From S2P Require Import Prelude Xxh3.
Import Xxh3.

Module SnapTypes.

(** [PageSize]: one WebAssembly page. *)
Definition PageSize : Z := 65536.

Definition SnapshotFormatVersion : Z := 1.
Definition CASFormat : list Z := bytes_of_string "page-xxh3-128".

(** Tier identifiers and region kinds. *)
Definition CacheIDPerTrace : Z := 0.
Definition CacheIDSystem : Z := 1.
Definition CacheIDFirstRemote : Z := 2.
Definition KindFull : Z := 0.
Definition KindHashRef : Z := 1.
Definition KindRunHashRef : Z := 2.

Record HashRun : Type := mkHashRun { CacheID : Z; RunHashes : list Uint128 }.

Record Region : Type := mkRegion {
  Base : Z; Size : Z; Protect : Z; RegFlags : Z; Kind : Z;
  FileOffset : Z; Hashes : list Uint128; Runs : list HashRun }.

(** One global and one table of a module at a quiescent point. *)
Record GlobalValue : Type := mkGlobalValue { ValueType : Z; Mutable : bool; GLo : Z; GHi : Z }.
Record TableValue : Type := mkTableValue { RefType : Z; Elements : list Z }.
Definition NullElement : Z := -1.

(** [Memory] is [None] where the Go field is nil. *)
Record Snapshot : Type := mkSnapshot {
  Point : Z; SnapMemoryBytes : Z; Memory : option (list Z);
  Globals : list GlobalValue; Tables : list TableValue }.

Record IndexRecord : Type := mkIndexRecord {
  Ordinal : Z; ExportsBefore : Z; CrossingSeq : Z; Flags : Z; MemoryBytes : Z;
  LayOffset : Z; LayLength : Z; GlobOffset : Z; GlobLength : Z; TabOffset : Z; TabLength : Z }.

Definition flagHasSnapshot : Z := 1.
Definition flagBaseSnapshot : Z := 2.
Definition HasSnapshot (r : IndexRecord) : bool := negb (Z.land (Flags r) flagHasSnapshot =? 0).
Definition IsBase (r : IndexRecord) : bool := negb (Z.land (Flags r) flagBaseSnapshot =? 0).

(** The six streams. *)
Inductive stream : Type :=
| NamespaceIndex | NamespaceLayout | NamespaceInlineMem
| NamespacePages | NamespaceGlobals | NamespaceTables.

Definition NamespaceNames : list stream :=
  [NamespaceIndex; NamespaceLayout; NamespaceInlineMem;
   NamespacePages; NamespaceGlobals; NamespaceTables].

Inductive snap_err : Type :=
(* pagecas.go *)
| NotPageAligned (n : Z)
| NoPerTraceTier
| NoSystemCache
| DiskError
| PageMissing (h : Uint128) (cacheID : Z)
| RegionPastMemory (base size : Z)
| InlineOutOfRange
| UnknownKind (k : Z)
| WrongPageLength (n : Z)
| RunPastEnd
| NotCovered (covered size : Z)
| StoreTooShort
| NoVersionRecord
| StorePageSize (n : Z)
| LeafTypeA
| KeyCountMismatch (want got : Z)
| EntryOutOfRange (key : Z)
| ShortRecord (key : Z)
| RecordPageSize (key n : Z)
| ShortPage (key : Z)
| HashMismatch
| WrongKey (key : Z)
| EmptyChain (key : Z)
(* streams.go *)
| UnsupportedVersionError (s : stream) (v : Z)
| TooShort (s : stream)
| BadMagic (s : stream)
| BadPageSize (n : Z)
| BadCASFormat
| CountMismatch (s : stream) (n : Z)
| Truncated (s : stream)
| TooManyHashes (n : Z)
| TooManyRegions (n : Z)
| TooManyRuns (n : Z)
| NonZeroReserved (i : Z)
| TrailingBytes (s : stream)
(* nsb1.go *)
| BadDescriptor (i : nat)
| NotAscending (i : nat)
| NsTooShort
| NsBadMagic
| NsNotAligned
| NsPageCount
| NsPageZero
| NsPageRange (p : Z)
| NsPageTwice (p : Z)
| NsNodeKind (k : Z)
| NsTooManyKeys (n : Z)
| NsPayload
| NsKeyOrder
| NsLeafOrder
| NsTooDeep
(* container.go *)
| DuplicatePoint (p : Z)
| PointOutOfOrder (p : Z)
| UnknownPoint (p : Z)
| AlreadySnapshotted (p : Z)
| NoSnapshot (p : Z)
| SliceOutOfRange (s : stream)
(* snapshot.go *)
| NotModuleInstance
| MemoryUnaligned (n : Z)
| EngineOwnsGlobals
| ExternrefNotNull (table : nat)
| ForeignReference (table slot : nat)
| NoMemory
| MemoryShrinks (have want : Z)
| CannotGrow (have want : Z)
| UnexpectedMemory
| GlobalCountMismatch (want have : Z)
| GlobalTypeMismatch (i : nat)
| TableCountMismatch (want have : Z)
| TableLengthMismatch (i : nat)
(* quiescent.go *)
| NoRecording
| NestedCalls (n : Z)
(* slice.go *)
| NegativeOption
| NoDirectory
| NoRecorder
| AfterFinish (p : Z)
| PointRewound (p : Z)
| NoOpenSlice
| SealFailed (i : Z)
| HandOffFailed (i : Z)
| AlreadyFinished
| NothingSealed
| NotTiling (i : Z)
| ManifestWrite
| ManifestRead
| ManifestDecode
| ManifestVersion (v : Z)
(* a run-time panic *)
| Panic.

#[export] Instance stream_eq_dec : EqDecision stream.
Proof. solve_decision. Defined.
#[export] Instance HashRun_eq_dec : EqDecision HashRun.
Proof. solve_decision. Defined.
#[export] Instance Region_eq_dec : EqDecision Region.
Proof. solve_decision. Defined.
#[export] Instance GlobalValue_eq_dec : EqDecision GlobalValue.
Proof. solve_decision. Defined.
#[export] Instance TableValue_eq_dec : EqDecision TableValue.
Proof. solve_decision. Defined.
#[export] Instance Snapshot_eq_dec : EqDecision Snapshot.
Proof. solve_decision. Defined.
#[export] Instance IndexRecord_eq_dec : EqDecision IndexRecord.
Proof. solve_decision. Defined.
#[export] Instance snap_err_eq_dec : EqDecision snap_err.
Proof. solve_decision. Defined.

(** ** Well-formed data: every field within the width Go gives it. *)
Definition HashRun_ok (r : HashRun) : Prop :=
  in_u 64 (CacheID r) /\ Forall Uint128_ok (RunHashes r) /\ in_u 32 (len (RunHashes r)).

(** A region as the encoder writes it: the payload fields its kind does not
    use are empty. *)
Definition Region_ok (r : Region) : Prop :=
  in_u 64 (Base r) /\ in_u 64 (Size r) /\ in_u 32 (Protect r) /\ in_u 32 (RegFlags r) /\
  ((Kind r = KindFull /\ in_u 64 (FileOffset r) /\ Hashes r = [] /\ Runs r = []) \/
   (Kind r = KindHashRef /\ FileOffset r = 0 /\ Forall Uint128_ok (Hashes r) /\
    in_u 32 (len (Hashes r)) /\ Runs r = []) \/
   (Kind r = KindRunHashRef /\ FileOffset r = 0 /\ Hashes r = [] /\
    Forall HashRun_ok (Runs r) /\ in_u 32 (len (Runs r)))).

Definition GlobalValue_ok (g : GlobalValue) : Prop :=
  is_byte (ValueType g) /\ in_u 64 (GLo g) /\ in_u 64 (GHi g).

Definition TableValue_ok (t : TableValue) : Prop :=
  is_byte (RefType t) /\ Forall (in_s 32) (Elements t) /\ in_u 32 (len (Elements t)).

Definition IndexRecord_ok (r : IndexRecord) : Prop :=
  in_u 32 (Ordinal r) /\ in_u 32 (ExportsBefore r) /\ in_s 32 (CrossingSeq r) /\
  in_u 32 (Flags r) /\ in_u 64 (MemoryBytes r) /\
  in_u 64 (LayOffset r) /\ in_u 64 (LayLength r) /\
  in_u 64 (GlobOffset r) /\ in_u 64 (GlobLength r) /\
  in_u 64 (TabOffset r) /\ in_u 64 (TabLength r).

End SnapTypes.
