(* ===== verification/Streams.v ===== *)
(** * The snapshot stream encodings ([src/internal/wasmsnapshot/streams.go])

    The writers and readers of [snapshot.idx], [snapshot.lay], [snapglob.dat]
    and [snaptab.dat].  The round trips show that a reader returns exactly what
    the writer was given, and [decodeRegions_bounded] that a layout stream the
    reader accepts can only describe as much as its bytes hold. *)
From S2P Require Import Prelude Xxh3 SnapTypes.
Import Xxh3 SnapTypes.

Module Streams.

(** ** [snapshot.idx] *)
Definition indexMagic : list Z := bytes_of_string "SNPI".
Definition indexHeaderSize : Z := 32.
Definition indexRecordSize : Z := 72.

(** [copy(dst, src)] into a zeroed [dst] of [n] bytes. *)
Definition copy_into (n : nat) (src : list Z) : list Z :=
  let s := take n src in s ++ zeros (n - length s).

Definition encodeRecord (r : IndexRecord) : list Z :=
  le_enc 4 (Ordinal r) ++ le_enc 4 (ExportsBefore r) ++ le_enc 4 (u32 (CrossingSeq r)) ++
  le_enc 4 (Flags r) ++ le_enc 8 (MemoryBytes r) ++ le_enc 8 (LayOffset r) ++
  le_enc 8 (LayLength r) ++ le_enc 8 (GlobOffset r) ++ le_enc 8 (GlobLength r) ++
  le_enc 8 (TabOffset r) ++ le_enc 8 (TabLength r).

Definition encodeIndex (records : list IndexRecord) : list Z :=
  indexMagic ++ le_enc 2 SnapshotFormatVersion ++ le_enc 2 0 ++ le_enc 4 PageSize ++
  le_enc 4 (u32 (len records)) ++ copy_into 16 CASFormat ++
  concat (encodeRecord <$> records).

Fixpoint trimNul (b : list Z) : list Z :=
  match b with
  | [] => []
  | c :: b => if c =? 0 then [] else c :: trimNul b
  end.

Definition decodeRecord (b : list Z) : IndexRecord :=
  mkIndexRecord (get_u32 b 0) (get_u32 b 4) (i32 (get_u32 b 8)) (get_u32 b 12) (get_u64 b 16)
    (get_u64 b 24) (get_u64 b 32) (get_u64 b 40) (get_u64 b 48) (get_u64 b 56) (get_u64 b 64).

Definition decodeIndex (raw : list Z) : result snap_err (list IndexRecord) :=
  reject len raw <? indexHeaderSize as TooShort NamespaceIndex ;;
  reject bool_decide (sub raw 0 4 ≠ indexMagic) as BadMagic NamespaceIndex ;;
  let v := get_u16 raw 4 in
  reject negb (v =? SnapshotFormatVersion) as UnsupportedVersionError NamespaceIndex v ;;
  let ps := get_u32 raw 8 in
  reject negb (ps =? PageSize) as BadPageSize ps ;;
  reject bool_decide (trimNul (sub raw 16 16) ≠ CASFormat) as BadCASFormat ;;
  let n := get_u32 raw 12 in
  reject negb (indexHeaderSize + n * indexRecordSize =? len raw) as CountMismatch NamespaceIndex n ;;
  Ok ((fun i => decodeRecord (drop (32 + i * 72) raw)) <$> seq 0 (Z.to_nat n)).

(** ** [snapshot.lay] *)
Definition putHashes (hs : list Uint128) : list Z := concat (Bytes <$> hs).

Definition encodeRun (run : HashRun) : list Z :=
  le_enc 8 (CacheID run) ++ le_enc 4 (u32 (len (RunHashes run))) ++ putHashes (RunHashes run).

Definition encodeRegion (r : Region) : list Z :=
  le_enc 8 (Base r) ++ le_enc 8 (Size r) ++ le_enc 4 (Protect r) ++ le_enc 4 (RegFlags r) ++
  [Kind r; 0; 0; 0] ++
  (if Kind r =? KindFull then le_enc 8 (FileOffset r)
   else if Kind r =? KindHashRef then le_enc 4 (u32 (len (Hashes r))) ++ putHashes (Hashes r)
   else if Kind r =? KindRunHashRef then
     le_enc 4 (u32 (len (Runs r))) ++ concat (encodeRun <$> Runs r)
   else []).

Definition encodeRegions (regions : list Region) : list Z :=
  le_enc 4 (u32 (len regions)) ++ concat (encodeRegion <$> regions).

(** [regionReader]: a cursor whose first error sticks. *)
Record regionReader : Type := mkReader { rr_b : list Z; rr_at : nat; rr_err : option snap_err }.

Definition need (r : regionReader) (n : nat) : list Z * regionReader :=
  match rr_err r with
  | Some _ => (zeros n, r)
  | None =>
      if (length (rr_b r) <? rr_at r + n)%nat
      then (zeros n, mkReader (rr_b r) (rr_at r) (Some (Truncated NamespaceLayout)))
      else (sub (rr_b r) (rr_at r) n, mkReader (rr_b r) (rr_at r + n) None)
  end.

Definition r_u32 (r : regionReader) : Z * regionReader :=
  let '(s, r) := need r 4 in (le_dec s, r).
Definition r_u64 (r : regionReader) : Z * regionReader :=
  let '(s, r) := need r 8 in (le_dec s, r).

(** [if r.err != nil { return nil, r.err }]. *)
Definition failed {A} (r : regionReader) (k : result snap_err A) : result snap_err A :=
  match rr_err r with Some e => Err e | None => k end.

Fixpoint read_hashes (r : regionReader) (n : nat) : list Uint128 * regionReader :=
  match n with
  | O => ([], r)
  | S n =>
      let '(hb, r) := need r 16 in
      let '(hs, r) := read_hashes r n in
      (Uint128FromBytes hb :: hs, r)
  end.

Definition hashes (r : regionReader) (n : Z) : result snap_err (list Uint128 * regionReader) :=
  reject len (rr_b r) - Z.of_nat (rr_at r) <? n * 16 as TooManyHashes n ;;
  let '(out, r) := read_hashes r (Z.to_nat n) in
  failed r (Ok (out, r)).

Definition read_run (st : list HashRun * regionReader) : result snap_err (list HashRun * regionReader) :=
  let '(runs, r) := st in
  let '(id, r) := r_u64 r in
  let '(c, r) := r_u32 r in
  failed r (
  let! (hs, r) := hashes r c in
  Ok (runs ++ [mkHashRun id hs], r)).

Definition read_region (raw : list Z) (st : list Region * regionReader) (i : Z)
    : result snap_err (list Region * regionReader) :=
  let '(regions, r) := st in
  let '(base, r) := r_u64 r in
  let '(size, r) := r_u64 r in
  let '(protect, r) := r_u32 r in
  let '(flags, r) := r_u32 r in
  let '(kb, r) := need r 4 in
  let kind := kb !!! 0%nat in
  reject negb ((kb !!! 1%nat =? 0) && (kb !!! 2%nat =? 0) && (kb !!! 3%nat =? 0)) as NonZeroReserved i ;;
  failed r (
  let! (reg, r) :=
    if kind =? KindFull then
      let '(off, r) := r_u64 r in
      Ok (mkRegion base size protect flags kind off [] [], r)
    else if kind =? KindHashRef then
      let '(c, r) := r_u32 r in
      failed r (
      let! (hs, r) := hashes r c in
      Ok (mkRegion base size protect flags kind 0 hs [], r))
    else if kind =? KindRunHashRef then
      let '(runs, r) := r_u32 r in
      failed r (
      reject len raw - Z.of_nat (rr_at r) <? runs * 12 as TooManyRuns runs ;;
      let! (rs, r) := foldm (fun st _ => read_run st) ([], r) (seqZ 0 runs) in
      Ok (mkRegion base size protect flags kind 0 [] rs, r))
    else Err (UnknownKind kind) in
  failed r (Ok (regions ++ [reg], r))).

Definition decodeRegions (raw : list Z) : result snap_err (list Region) :=
  if len raw =? 0 then Ok []
  else
    let '(n, r) := r_u32 (mkReader raw 0 None) in
    failed r (
    reject len raw <? n * 32 as TooManyRegions n ;;
    let! (regions, _) := foldm (read_region raw) ([], r) (seqZ 0 n) in
    Ok regions).

(** ** [snapglob.dat] and [snaptab.dat] *)
Definition globalRecordSize : Z := 20.

Definition encodeGlobal (g : GlobalValue) : list Z :=
  [ValueType g; if Mutable g then 1 else 0; 0; 0] ++ le_enc 8 (GLo g) ++ le_enc 8 (GHi g).

Definition encodeGlobals (gs : list GlobalValue) : list Z :=
  le_enc 4 (u32 (len gs)) ++ concat (encodeGlobal <$> gs).

Definition decodeGlobal (b : list Z) : GlobalValue :=
  mkGlobalValue (b !!! 0%nat) (negb (b !!! 1%nat =? 0)) (get_u64 b 4) (get_u64 b 12).

Definition decodeGlobals (raw : list Z) : result snap_err (list GlobalValue) :=
  if len raw =? 0 then Ok []
  else
    reject len raw <? 4 as TooShort NamespaceGlobals ;;
    let n := get_u32 raw 0 in
    reject negb (4 + n * globalRecordSize =? len raw) as CountMismatch NamespaceGlobals n ;;
    Ok ((fun i => decodeGlobal (drop (4 + i * 20) raw)) <$> seq 0 (Z.to_nat n)).

Definition encodeTable (t : TableValue) : list Z :=
  [RefType t; 0; 0; 0] ++ le_enc 4 (u32 (len (Elements t))) ++
  concat ((fun e => le_enc 4 (u32 e)) <$> Elements t).

Definition encodeTables (ts : list TableValue) : list Z :=
  le_enc 4 (u32 (len ts)) ++ concat (encodeTable <$> ts).

(** One iteration of the loop of [decodeTables]: the state is the tables read
    and [at]. *)
Definition decodeTable (raw : list Z) (st : list TableValue * nat)
    : result snap_err (list TableValue * nat) :=
  let '(out, at_) := st in
  reject (length raw <? at_ + 8)%nat as Truncated NamespaceTables ;;
  let ref := raw !!! at_ in
  let count := get_u32 raw (at_ + 4) in
  let at_ := (at_ + 8)%nat in
  reject (count <? 0) || (len raw <? Z.of_nat at_ + count * 4) as CountMismatch NamespaceTables count ;;
  let els := (fun j => i32 (get_u32 raw (at_ + j * 4))) <$> seq 0 (Z.to_nat count) in
  Ok (out ++ [mkTableValue ref els], (at_ + Z.to_nat count * 4)%nat).

Definition decodeTables (raw : list Z) : result snap_err (list TableValue) :=
  if len raw =? 0 then Ok []
  else
    reject len raw <? 4 as TooShort NamespaceTables ;;
    let n := get_u32 raw 0 in
    let! (out, at_) := foldm (fun st _ => decodeTable raw st) ([], 4%nat) (seqZ 0 n) in
    reject negb (at_ =? length raw)%nat as TrailingBytes NamespaceTables ;;
    Ok out.

(** ** Reading back what was written *)
Lemma sub_le_enc_skip k v (rest : list Z) o n :
  (k <= o)%nat -> sub (le_enc k v ++ rest) o n = sub rest (o - k) n.
Proof.
  intros. replace o with (length (le_enc k v) + (o - k))%nat at 1 by lens.
  apply sub_app_skip.
Qed.

Lemma sub_le_enc_head n v (rest : list Z) : sub (le_enc n v ++ rest) 0 n = le_enc n v.
Proof. rewrite sub_app_l by lens. by apply sub_all; lens. Qed.

Lemma le_dec_u32 v : in_u 32 v -> le_dec (le_enc 4 v) = v.
Proof. apply (le_dec_enc_small 4). Qed.
Lemma le_dec_u64 v : in_u 64 v -> le_dec (le_enc 8 v) = v.
Proof. apply (le_dec_enc_small 8). Qed.

(** Reads the field at a constant offset of a sequence of little-endian fields. *)
Ltac field_at :=
  repeat match goal with
  | |- context [sub (le_enc ?k ?v ++ ?r) ?o ?n] =>
      rewrite (sub_le_enc_skip k v r o n) by lia; cbn [Nat.sub Nat.add]
  | |- context [sub (le_enc ?n ?v ++ ?r) 0 ?n] => rewrite (sub_le_enc_head n v r)
  end;
  rewrite ?le_dec_u32 by (done || by apply wrapu_range); rewrite ?le_dec_u64 by done.

(** An array of encoded records is read back by decoding at each multiple of
    the record size. *)
Lemma chunks_decode {A} (P : A -> Prop) (enc : A -> list Z) (dec : list Z -> A) k xs pre :
  (forall x, P x -> length (enc x) = k) ->
  (forall x rest, P x -> dec (enc x ++ rest) = x) ->
  Forall P xs ->
  (fun i => dec (drop (length pre + i * k) (pre ++ concat (enc <$> xs)))) <$> seq 0 (length xs) = xs.
Proof.
  intros Hk Hdec Hxs. revert pre. induction Hxs as [|x xs Hx Hxs IH]; intros pre; [done|].
  cbn [length seq]. rewrite !fmap_cons. cbn [concat]. f_equal.
  - rewrite Nat.mul_0_l, Nat.add_0_r, drop_app_length. by apply Hdec.
  - rewrite <-(IH (pre ++ enc x)) at 2. rewrite <-fmap_S_seq, <-list_fmap_compose.
    apply list_fmap_ext. intros i y _. unfold compose. rewrite <-app_assoc. do 2 f_equal.
    rewrite length_app, (Hk x) by done. lia.
Qed.

Lemma concat_length_const {A} (P : A -> Prop) (enc : A -> list Z) k xs :
  (forall x, P x -> length (enc x) = k) -> Forall P xs ->
  length (concat (enc <$> xs)) = (length xs * k)%nat.
Proof.
  intros Hk. induction 1 as [|x xs Hx _ IH]; [done|].
  rewrite fmap_cons. cbn [concat length]. rewrite length_app, IH, (Hk x) by done. lia.
Qed.

(** *** The index *)
Lemma length_encodeRecord r : length (encodeRecord r) = 72%nat.
Proof. unfold encodeRecord. lens. Qed.

Lemma decodeRecord_encode r rest :
  IndexRecord_ok r -> decodeRecord (encodeRecord r ++ rest) = r.
Proof.
  destruct r as [o e c f m lo ll go gl to tl]. intros (? & ? & ? & ? & ? & ? & ? & ? & ? & ? & ?).
  unfold decodeRecord, encodeRecord, get_u32, get_u64.
  cbn [Ordinal ExportsBefore CrossingSeq Flags MemoryBytes LayOffset LayLength
    GlobOffset GlobLength TabOffset TabLength] in *.
  rewrite <-!app_assoc. field_at.
  unfold i32, u32. by rewrite wraps_wrapu.
Qed.

Lemma decodeIndex_encode records :
  Forall IndexRecord_ok records -> in_u 32 (len records) ->
  decodeIndex (encodeIndex records) = Ok records.
Proof.
  intros Hr Hn. unfold u32.
  assert (len (encodeIndex records) = indexHeaderSize + len records * indexRecordSize) as Hl.
  { unfold encodeIndex, len. rewrite !length_app, !length_le_enc.
    rewrite (concat_length_const IndexRecord_ok _ 72) by (done || intros; apply length_encodeRecord).
    cbn -[Z.mul]. unfold indexRecordSize, indexHeaderSize. lia. }
  unfold decodeIndex. rewrite Hl.
  set (hdr := indexMagic ++ le_enc 2 SnapshotFormatVersion ++ le_enc 2 0 ++ le_enc 4 PageSize ++
    le_enc 4 (u32 (len records)) ++ copy_into 16 CASFormat).
  assert (encodeIndex records = hdr ++ concat (encodeRecord <$> records)) as E
    by (unfold encodeIndex, hdr; by rewrite <-!app_assoc).
  assert (length hdr = 32%nat) as Hh by done.
  assert (get_u32 (encodeIndex records) 12 = len records) as Hc.
  { unfold get_u32. rewrite E, sub_app_l by (rewrite Hh; lia). unfold hdr.
    change (sub (_ ++ _) 12 4) with (sub (le_enc 4 (u32 (len records)) ++ copy_into 16 CASFormat) 0 4).
    rewrite sub_le_enc_head, le_dec_u32 by by apply wrapu_range. by apply wrapu_small. }
  destruct (Z.ltb_spec (indexHeaderSize + len records * indexRecordSize) indexHeaderSize) as [Hlt|_].
  { unfold indexRecordSize, len in Hlt. lia. }
  rewrite Hc.
  unfold get_u16, get_u32. rewrite E, !sub_app_l by (rewrite Hh; lia).
  change (sub hdr 0 4) with indexMagic. change (le_dec (sub hdr 4 2)) with SnapshotFormatVersion.
  change (le_dec (sub hdr 8 4)) with PageSize.
  replace (trimNul (sub hdr 16 16)) with CASFormat by reflexivity.
  rewrite !bool_decide_false by naive_solver. rewrite !Z.eqb_refl. cbn [negb].
  f_equal. unfold len. rewrite Nat2Z.id.
  pose proof (chunks_decode IndexRecord_ok encodeRecord decodeRecord 72 records hdr) as C.
  rewrite Hh in C. apply C; [intros; apply length_encodeRecord| |done].
  intros. by apply decodeRecord_encode.
Qed.

(** *** The layout

    [ready r bs]: the cursor has met no error and [bs] is what it has left. *)
Definition ready (r : regionReader) (bs : list Z) : Prop :=
  rr_err r = None /\ (rr_at r <= length (rr_b r))%nat /\ drop (rr_at r) (rr_b r) = bs.

Lemma ready_left r bs : ready r bs -> len (rr_b r) - Z.of_nat (rr_at r) = len bs.
Proof. intros (_ & Hle & <-). unfold len. rewrite length_drop. lia. Qed.

(** Reading the next field moves the cursor past it. *)
Definition reads {A} (m : A * regionReader) (r : regionReader) (v : A) (rest : list Z) : Prop :=
  exists r', m = (v, r') /\ ready r' rest /\ rr_b r' = rr_b r.

Lemma need_ready r bs rest n :
  ready r (bs ++ rest) -> n = length bs -> reads (need r n) r bs rest.
Proof.
  intros (He & Hle & Hd) ->. unfold need. rewrite He.
  assert (length (drop (rr_at r) (rr_b r)) = length bs + length rest)%nat as Hl
    by (rewrite Hd; apply length_app).
  rewrite length_drop in Hl.
  destruct (Nat.ltb_spec (length (rr_b r)) (rr_at r + length bs)); [lia|].
  unfold sub. rewrite Hd, take_app_length. eexists. split; [reflexivity|].
  split; [|done]. split; [done|]. cbn [rr_at rr_b]. split; [lia|].
  by rewrite <-drop_drop, Hd, drop_app_length.
Qed.

Lemma r_u32_ready r v rest : in_u 32 v -> ready r (le_enc 4 v ++ rest) -> reads (r_u32 r) r v rest.
Proof.
  intros Hv Hr. destruct (need_ready r (le_enc 4 v) rest 4 Hr) as (r' & E & Hr' & Hb); [by lens|].
  exists r'. unfold r_u32. by rewrite E, le_dec_u32.
Qed.

Lemma r_u64_ready r v rest : in_u 64 v -> ready r (le_enc 8 v ++ rest) -> reads (r_u64 r) r v rest.
Proof.
  intros Hv Hr. destruct (need_ready r (le_enc 8 v) rest 8 Hr) as (r' & E & Hr' & Hb); [by lens|].
  exists r'. unfold r_u64. by rewrite E, le_dec_u64.
Qed.

Lemma failed_ready {A} r bs (k : result snap_err A) : ready r bs -> failed r k = k.
Proof. intros (He & _). unfold failed. by rewrite He. Qed.

Lemma read_hashes_ready r hs rest :
  Forall Uint128_ok hs -> ready r (putHashes hs ++ rest) ->
  reads (read_hashes r (length hs)) r hs rest.
Proof.
  intros Hh. revert r. induction Hh as [|h hs Hh _ IH]; intros r Hr; [by exists r|].
  unfold putHashes in Hr. rewrite fmap_cons in Hr. cbn [concat] in Hr. rewrite <-app_assoc in Hr.
  destruct (need_ready r (Bytes h) _ 16 Hr) as (r1 & E1 & H1 & B1); [by rewrite Bytes_length|].
  destruct (IH r1 H1) as (r2 & E2 & H2 & B2).
  exists r2. cbn [length read_hashes]. rewrite E1, E2, Bytes_FromBytes by done.
  split_and!; congruence.
Qed.

Lemma length_putHashes hs : length (putHashes hs) = (length hs * 16)%nat.
Proof.
  apply (concat_length_const (fun _ => True)); [intros; apply Bytes_length|by apply Forall_true].
Qed.

Lemma hashes_ready r hs rest :
  Forall Uint128_ok hs -> ready r (putHashes hs ++ rest) ->
  exists r', hashes r (len hs) = Ok (hs, r') /\ ready r' rest /\ rr_b r' = rr_b r.
Proof.
  intros Hh Hr. unfold hashes. rewrite (ready_left _ _ Hr), len_app.
  destruct (Z.ltb_spec (len (putHashes hs) + len rest) (len hs * 16)) as [Hlt|_].
  { unfold len in Hlt. rewrite length_putHashes in Hlt. lia. }
  unfold len. rewrite Nat2Z.id.
  destruct (read_hashes_ready r hs rest Hh Hr) as (r' & -> & Hr' & Hb).
  exists r'. by rewrite (failed_ready _ rest).
Qed.

Lemma read_run_ready st r run rest :
  HashRun_ok run -> ready r (encodeRun run ++ rest) ->
  exists r', read_run (st, r) = Ok (st ++ [run], r') /\ ready r' rest /\ rr_b r' = rr_b r.
Proof.
  destruct run as [id hs]. intros (Hid & Hh & Hn) Hr.
  unfold encodeRun in Hr. cbn [CacheID RunHashes] in *. rewrite <-!app_assoc in Hr.
  unfold u32 in Hr. rewrite wrapu_small in Hr by done.
  unfold read_run. destruct (r_u64_ready _ _ _ Hid Hr) as (r1 & -> & H1 & B1).
  destruct (r_u32_ready _ _ _ Hn H1) as (r2 & -> & H2 & B2).
  rewrite (failed_ready _ _ _ H2).
  destruct (hashes_ready _ _ _ Hh H2) as (r3 & -> & H3 & B3).
  exists r3. split_and!; congruence.
Qed.

(** A counted loop of a reader over the encodings of a list. *)
Lemma foldm_ready {A B} (P : A -> Prop) (enc : A -> list Z)
    (body : list A * regionReader -> B -> result snap_err (list A * regionReader)) b xs :
  (forall st r i x rest, P x -> rr_b r = b -> ready r (enc x ++ rest) ->
     exists r', body (st, r) i = Ok (st ++ [x], r') /\ ready r' rest /\ rr_b r' = rr_b r) ->
  Forall P xs -> forall js st r rest, length js = length xs -> rr_b r = b ->
  ready r (concat (enc <$> xs) ++ rest) ->
  exists r', foldm body (st, r) js = Ok (st ++ xs, r') /\ ready r' rest /\ rr_b r' = rr_b r.
Proof.
  intros Hbody. induction 1 as [|x xs Hx _ IH]; intros js st r rest Hl Hb Hr.
  - destruct js; [|done]. exists r. by rewrite app_nil_r.
  - destruct js as [|i js]; [done|]. rewrite fmap_cons in Hr. cbn [concat] in Hr.
    rewrite <-app_assoc in Hr. cbn [foldm].
    destruct (Hbody st r i x _ Hx Hb Hr) as (r1 & -> & H1 & B1).
    destruct (IH js (st ++ [x]) r1 rest) as (r2 & -> & H2 & B2); [by injection Hl|congruence|done|].
    exists r2. rewrite <-app_assoc. split_and!; [done|done|congruence].
Qed.

Lemma length_encodeRun run : (12 <= length (encodeRun run))%nat.
Proof. unfold encodeRun. rewrite !length_app, !length_le_enc. lia. Qed.

Lemma concat_length_ge {A} (enc : A -> list Z) k xs :
  (forall x, k <= length (enc x))%nat -> (length xs * k <= length (concat (enc <$> xs)))%nat.
Proof.
  intros Hk. induction xs as [|x xs IH]; [cbn; lia|].
  rewrite fmap_cons. cbn [concat length]. rewrite length_app. specialize (Hk x). lia.
Qed.

(** The payload a region's kind selects. *)
Definition region_payload (r : Region) : list Z :=
  if Kind r =? KindFull then le_enc 8 (FileOffset r)
  else if Kind r =? KindHashRef then le_enc 4 (u32 (len (Hashes r))) ++ putHashes (Hashes r)
  else if Kind r =? KindRunHashRef then
    le_enc 4 (u32 (len (Runs r))) ++ concat (encodeRun <$> Runs r)
  else [].

Lemma read_region_ready raw st r i reg rest :
  Region_ok reg -> rr_b r = raw -> ready r (encodeRegion reg ++ rest) ->
  exists r', read_region raw (st, r) i = Ok (st ++ [reg], r') /\ ready r' rest /\ rr_b r' = rr_b r.
Proof.
  destruct reg as [base size prot fl kind off hs rs].
  intros (Hb & Hs & Hp & Hf & Hk) Hraw Hr.
  change (encodeRegion ?x) with (le_enc 8 (Base x) ++ le_enc 8 (Size x) ++ le_enc 4 (Protect x) ++
    le_enc 4 (RegFlags x) ++ [Kind x; 0; 0; 0] ++ region_payload x) in Hr.
  cbn [Base Size Protect RegFlags Kind FileOffset Hashes Runs] in *. rewrite <-!app_assoc in Hr.
  unfold read_region.
  destruct (r_u64_ready _ _ _ Hb Hr) as (r1 & -> & H1 & B1).
  destruct (r_u64_ready _ _ _ Hs H1) as (r2 & -> & H2 & B2).
  destruct (r_u32_ready _ _ _ Hp H2) as (r3 & -> & H3 & B3).
  destruct (r_u32_ready _ _ _ Hf H3) as (r4 & -> & H4 & B4).
  destruct (need_ready r4 [kind; 0; 0; 0] _ 4 H4) as (r5 & -> & H5 & B5); [done|].
  cbn [lookup_total list_lookup_total Z.eqb andb negb]. rewrite (failed_ready _ _ _ H5).
  assert (rr_b r5 = rr_b r) as B by congruence.
  unfold region_payload in H5. cbn [Kind FileOffset Hashes Runs] in H5. unfold u32 in H5.
  destruct Hk as [(-> & Ho & -> & ->) | [(-> & -> & Hh & Hn & ->) | (-> & -> & -> & Hrs & Hn)]];
    cbn [KindFull KindHashRef KindRunHashRef Z.eqb Pos.eqb] in *.
  - destruct (r_u64_ready _ _ _ Ho H5) as (r6 & -> & H6 & B6).
    rewrite (failed_ready _ _ _ H6). exists r6. split_and!; congruence.
  - rewrite wrapu_small, <-app_assoc in H5 by done.
    destruct (r_u32_ready _ _ _ Hn H5) as (r6 & -> & H6 & B6). rewrite (failed_ready _ _ _ H6).
    destruct (hashes_ready _ _ _ Hh H6) as (r7 & -> & H7 & B7).
    rewrite (failed_ready _ _ _ H7). exists r7. split_and!; congruence.
  - rewrite wrapu_small, <-app_assoc in H5 by done.
    destruct (r_u32_ready _ _ _ Hn H5) as (r6 & -> & H6 & B6). rewrite (failed_ready _ _ _ H6).
    rewrite <-Hraw, <-B, <-B6, (ready_left _ _ H6), len_app.
    destruct (Z.ltb_spec (len (concat (encodeRun <$> rs)) + len rest) (len rs * 12)) as [Hlt|_].
    { pose proof (concat_length_ge encodeRun 12 rs length_encodeRun).
      unfold len in Hlt. lia. }
    destruct (foldm_ready HashRun_ok encodeRun (fun st (_ : Z) => read_run st) (rr_b r6) rs) with
      (js := seqZ 0 (len rs)) (st := @nil HashRun) (r := r6) (rest := rest)
      as (r7 & -> & H7 & B7); [|done|unfold len; rewrite length_seqZ; lia|done|done|].
    + intros st' r' _ x rest' Hx _ Hr'. by apply read_run_ready.
    + rewrite (failed_ready _ _ _ H7). exists r7. split_and!; [done|done|congruence].
Qed.

Lemma length_encodeRegion r : Region_ok r -> (32 <= length (encodeRegion r))%nat.
Proof.
  intros (_ & _ & _ & _ & Hk). unfold encodeRegion.
  destruct Hk as [(-> & _) | [(-> & _) | (-> & _)]];
    cbn [KindFull KindHashRef KindRunHashRef Z.eqb Pos.eqb];
    rewrite !length_app, !length_le_enc; cbn [length]; lia.
Qed.

Lemma concat_length_ge_P {A} (P : A -> Prop) (enc : A -> list Z) k xs :
  (forall x, P x -> k <= length (enc x))%nat -> Forall P xs ->
  (length xs * k <= length (concat (enc <$> xs)))%nat.
Proof.
  intros Hk. induction 1 as [|x xs Hx _ IH]; [cbn; lia|].
  rewrite fmap_cons. cbn [concat length]. rewrite length_app. specialize (Hk x Hx). lia.
Qed.

Lemma decodeRegions_encode regions :
  Forall Region_ok regions -> in_u 32 (len regions) ->
  decodeRegions (encodeRegions regions) = Ok regions.
Proof.
  intros Hr Hn. unfold decodeRegions.
  set (raw := encodeRegions regions).
  assert (len raw = 4 + len (concat (encodeRegion <$> regions))) as Hl.
  { unfold raw, encodeRegions. rewrite len_app. unfold len at 1. by rewrite length_le_enc. }
  pose proof (len_nonneg (concat (encodeRegion <$> regions))).
  destruct (Z.eqb_spec (len raw) 0) as [|_]; [lia|].
  assert (ready (mkReader raw 0 None) (le_enc 4 (len regions) ++ concat (encodeRegion <$> regions))) as H0.
  { split_and!; cbn; [done|lia|]. unfold raw, encodeRegions, u32. by rewrite wrapu_small. }
  destruct (r_u32_ready _ _ _ Hn H0) as (r1 & -> & H1 & B1). rewrite (failed_ready _ _ _ H1).
  destruct (Z.ltb_spec (len raw) (len regions * 32)) as [Hlt|_].
  { pose proof (concat_length_ge_P Region_ok encodeRegion 32 regions length_encodeRegion Hr).
    rewrite Hl in Hlt. unfold len in Hlt. lia. }
  rewrite <-(app_nil_r (concat _)) in H1.
  destruct (foldm_ready Region_ok encodeRegion (read_region raw) raw regions) with
    (js := seqZ 0 (len regions)) (st := @nil Region) (r := r1) (rest := @nil Z)
    as (r2 & -> & _); [|done|unfold len; rewrite length_seqZ; lia|done|done|done].
  intros st' r' i x rest' Hx Hb Hr'. by apply read_region_ready.
Qed.

(** *** Globals and tables *)
Lemma decodeGlobals_encode gs :
  Forall GlobalValue_ok gs -> in_u 32 (len gs) -> decodeGlobals (encodeGlobals gs) = Ok gs.
Proof.
  intros Hg Hn. assert (forall g, length (encodeGlobal g) = 20%nat) as Hk by done.
  assert (encodeGlobals gs = le_enc 4 (len gs) ++ concat (encodeGlobal <$> gs)) as E
    by (unfold encodeGlobals, u32; by rewrite wrapu_small).
  assert (len (encodeGlobals gs) = 4 + len gs * 20) as Hl.
  { rewrite E. unfold len at 1. rewrite length_app, length_le_enc.
    rewrite (concat_length_const GlobalValue_ok _ 20) by done. unfold len. lia. }
  assert (get_u32 (encodeGlobals gs) 0 = len gs) as Hc
    by (rewrite E; unfold get_u32; by rewrite sub_le_enc_head, le_dec_u32).
  unfold decodeGlobals. rewrite Hl, Hc, E. unfold globalRecordSize. pose proof (len_nonneg gs).
  destruct (Z.eqb_spec (4 + len gs * 20) 0); [lia|].
  destruct (Z.ltb_spec (4 + len gs * 20) 4); [lia|]. rewrite Z.eqb_refl.
  cbn [negb]. f_equal. unfold len. rewrite Nat2Z.id.
  pose proof (chunks_decode GlobalValue_ok encodeGlobal decodeGlobal 20 gs (le_enc 4 (len gs))) as C.
  rewrite length_le_enc in C. apply C; [done| |done].
  intros [vt mu lo hi] rest (_ & Hlo & Hhi). unfold decodeGlobal, encodeGlobal, get_u64.
  cbn [ValueType Mutable GLo GHi] in *. rewrite <-!app_assoc.
  change (sub ([vt; _; 0; 0] ++ ?l) 4 8) with (sub l 0 8).
  change (sub ([vt; _; 0; 0] ++ ?l) 12 8) with (sub l 8 8). field_at.
  by destruct mu.
Qed.

Lemma decodeTable_encode raw out pre t rest :
  TableValue_ok t -> raw = pre ++ encodeTable t ++ rest ->
  decodeTable raw (out, length pre) = Ok (out ++ [t], length (pre ++ encodeTable t)).
Proof.
  destruct t as [ref els]. intros (Hr & He & Hn) Hraw. cbn [RefType Elements] in *.
  unfold encodeTable in *. cbn [RefType Elements] in *.
  replace (u32 (len els)) with (len els) in * by (symmetry; by apply wrapu_small).
  set (body := concat _) in *.
  assert (length body = length els * 4)%nat as Hel
    by (apply (concat_length_const (in_s 32)); [intros; apply length_le_enc|done]).
  set (hd := pre ++ [ref; 0; 0; 0] ++ le_enc 4 (len els)).
  assert (length hd = length pre + 8)%nat as Hhd by (unfold hd; lens).
  assert (raw = hd ++ body ++ rest) as Hraw' by (unfold hd; rewrite Hraw, <-!app_assoc; done).
  assert (raw !!! length pre = ref) as Href
    by (rewrite Hraw, lookup_total_app_r, Nat.sub_diag by lia; done).
  assert (get_u32 raw (length pre + 4) = len els) as Hc.
  { unfold get_u32. rewrite Hraw, sub_app_skip, <-!app_assoc.
    change (sub ([ref; 0; 0; 0] ++ ?l) 4 4) with (sub l 0 4). by field_at. }
  assert (length raw = length pre + 8 + length els * 4 + length rest)%nat as Hlen
    by (rewrite Hraw', !length_app; lia).
  unfold decodeTable. rewrite Href, Hc. unfold len.
  destruct (Nat.ltb_spec (length raw) (length pre + 8)); [lia|].
  destruct (Z.ltb_spec (Z.of_nat (length els)) 0); [lia|].
  destruct (Z.ltb_spec (Z.of_nat (length raw))
    (Z.of_nat (length pre + 8) + Z.of_nat (length els) * 4)); [lia|].
  cbn [orb]. rewrite Nat2Z.id. do 2 f_equal.
  2: { rewrite !length_app, length_le_enc. cbn [length]. lia. }
  do 3 f_equal.
  pose proof (chunks_decode (in_s 32) (fun e => le_enc 4 (u32 e)) (fun b => i32 (le_dec (take 4 b)))
    4 els hd) as C. fold body in C. rewrite Hhd in C.
  rewrite <-C at 2; [|intros; apply length_le_enc| |done].
  - apply list_fmap_ext. intros j x [-> Hj]%lookup_seq.
    unfold get_u32, sub. rewrite Hraw', app_assoc.
    rewrite drop_app_le by (rewrite length_app; lia).
    rewrite take_app_le; [done|]. rewrite length_drop, length_app. lia.
  - intros x r Hx. rewrite take_app_length' by by rewrite length_le_enc.
    rewrite le_dec_u32 by by apply wrapu_range. unfold i32, u32. by apply wraps_wrapu.
Qed.

Lemma decodeTables_loop raw ts :
  Forall TableValue_ok ts -> forall (js : list Z) out pre rest,
  length js = length ts -> raw = pre ++ concat (encodeTable <$> ts) ++ rest ->
  foldm (fun st _ => decodeTable raw st) (out, length pre) js
  = Ok (out ++ ts, length (pre ++ concat (encodeTable <$> ts))).
Proof.
  induction 1 as [|t ts Ht _ IH]; intros js out pre rest Hl Hraw.
  - destruct js; [|done]. by rewrite !app_nil_r.
  - destruct js as [|j js]; [done|]. rewrite fmap_cons in *. cbn [concat foldm] in *.
    rewrite <-app_assoc in Hraw. rewrite (decodeTable_encode raw out pre t _ Ht Hraw).
    rewrite (IH js (out ++ [t]) (pre ++ encodeTable t) rest); [|by injection Hl|by rewrite <-app_assoc].
    by rewrite <-!app_assoc.
Qed.

Lemma decodeTables_encode ts :
  Forall TableValue_ok ts -> in_u 32 (len ts) -> decodeTables (encodeTables ts) = Ok ts.
Proof.
  intros Ht Hn.
  assert (encodeTables ts = le_enc 4 (len ts) ++ concat (encodeTable <$> ts) ++ []) as E
    by (unfold encodeTables, u32; by rewrite wrapu_small, app_nil_r).
  assert (get_u32 (encodeTables ts) 0 = len ts) as Hc
    by (rewrite E; unfold get_u32; by rewrite sub_le_enc_head, le_dec_u32).
  assert (4 <= len (encodeTables ts)) as Hl
    by (rewrite E; unfold len; rewrite length_app, length_le_enc; lia).
  unfold decodeTables. rewrite Hc.
  destruct (Z.eqb_spec (len (encodeTables ts)) 0); [lia|].
  destruct (Z.ltb_spec (len (encodeTables ts)) 4); [lia|].
  pose proof (decodeTables_loop (encodeTables ts) ts Ht (seqZ 0 (len ts)) [] (le_enc 4 (len ts)) []) as L.
  rewrite length_le_enc in L. rewrite L; [|unfold len; rewrite length_seqZ; lia|done].
  rewrite app_nil_r in E. by rewrite <-E, Nat.eqb_refl.
Qed.

(** ** What a layout stream can describe

    [advances r r' k]: if [r'] has met no error then neither had [r], and the
    cursor moved [k] bytes without leaving the stream. *)
Definition advances (r r' : regionReader) (k : nat) : Prop :=
  rr_b r' = rr_b r /\
  (rr_err r' = None -> rr_err r = None /\ rr_at r' = (rr_at r + k)%nat /\
     ((rr_at r <= length (rr_b r))%nat -> (rr_at r' <= length (rr_b r'))%nat)).

Lemma advances_trans r1 r2 r3 k1 k2 :
  advances r1 r2 k1 -> advances r2 r3 k2 -> advances r1 r3 (k1 + k2).
Proof.
  intros [B1 A1] [B2 A2]. split; [congruence|]. intros (E2 & L2 & Le2)%A2.
  destruct (A1 E2) as (E1 & L1 & Le1). split_and!; [done|lia|]. intros H%Le1. auto.
Qed.

Lemma need_advances r n s r' : need r n = (s, r') -> advances r r' n.
Proof.
  unfold need. destruct (rr_err r) eqn:E.
  - intros [= _ <-]. split; [done|]. congruence.
  - destruct (Nat.ltb_spec (length (rr_b r)) (rr_at r + n)); intros [= _ <-]; split; cbn; [done..|].
    intros _. split_and!; [done|lia|lia].
Qed.

Lemma r_u32_advances r v r' : r_u32 r = (v, r') -> advances r r' 4.
Proof. unfold r_u32. destruct (need r 4) eqn:E. intros [= _ <-]. by eapply need_advances. Qed.
Lemma r_u64_advances r v r' : r_u64 r = (v, r') -> advances r r' 8.
Proof. unfold r_u64. destruct (need r 8) eqn:E. intros [= _ <-]. by eapply need_advances. Qed.

Lemma read_hashes_advances n r hs r' :
  read_hashes r n = (hs, r') -> length hs = n /\ advances r r' (n * 16).
Proof.
  revert r hs r'. induction n as [|n IH]; intros r hs r' H; cbn [read_hashes] in H.
  - injection H as <- <-. split; [done|]. split; [done|]. intros E. split_and!; [done|lia|done].
  - destruct (need r 16) as [hb r1] eqn:E1. destruct (read_hashes r1 n) as [hs1 r2] eqn:E2.
    injection H as <- <-. destruct (IH _ _ _ E2) as [<- A2]. split; [done|].
    cbn [length Nat.mul]. eapply advances_trans; [by eapply need_advances|done].
Qed.

Lemma failed_ok {A} r (k : result snap_err A) v : failed r k = Ok v -> rr_err r = None /\ k = Ok v.
Proof. unfold failed. by destruct (rr_err r). Qed.

Lemma hashes_advances r n hs r' :
  hashes r n = Ok (hs, r') -> rr_err r' = None /\ advances r r' (length hs * 16).
Proof.
  unfold hashes. destruct (_ <? _); [done|]. destruct (read_hashes r (Z.to_nat n)) as [out r1] eqn:E.
  intros [He [= -> ->]]%failed_ok. apply read_hashes_advances in E as [-> A]. done.
Qed.

(** The bytes a region's description takes at least: 32, and 16 per page hash. *)
Definition hash_count (r : Region) : nat :=
  (length (Hashes r) + sum_list (length ∘ RunHashes <$> Runs r))%nat.

Lemma read_run_advances st r runs r' :
  read_run (st, r) = Ok (runs, r') ->
  rr_err r' = None /\ exists run, runs = st ++ [run] /\ advances r r' (12 + length (RunHashes run) * 16).
Proof.
  unfold read_run. destruct (r_u64 r) as [id r1] eqn:E1. destruct (r_u32 r1) as [c r2] eqn:E2.
  intros [_ H]%failed_ok. destruct (hashes r2 c) as [[hs r3]|] eqn:E3; [|done]. injection H as <- <-.
  apply hashes_advances in E3 as [He A3]. split; [done|]. eexists. split; [done|]. cbn [RunHashes].
  change 12%nat with (8 + 4)%nat. eauto using advances_trans, r_u64_advances, r_u32_advances.
Qed.

Lemma read_runs_advances js : forall st r runs r',
  rr_err r = None -> foldm (fun st (_ : Z) => read_run st) (st, r) js = Ok (runs, r') ->
  rr_err r' = None /\ exists k new, runs = st ++ new /\ advances r r' k /\
    (sum_list (length ∘ RunHashes <$> new) * 16 <= k)%nat.
Proof.
  induction js as [|j js IH]; intros st r runs r' He H; cbn [foldm] in H.
  - injection H as <- <-. split; [done|]. exists 0%nat, []. rewrite app_nil_r.
    split_and!; [done| |cbn; lia]. split; [done|]. intros _. split_and!; [done|lia|done].
  - destruct (read_run (st, r)) as [[runs1 r1]|] eqn:E; [|done].
    apply read_run_advances in E as (He1 & run & -> & A1).
    apply IH in H as (He2 & k & new & -> & A2 & Hk); [|done]. split; [done|].
    exists (12 + length (RunHashes run) * 16 + k)%nat, (run :: new). rewrite <-app_assoc.
    split_and!; [done|by eapply advances_trans|].
    change (sum_list (length ∘ RunHashes <$> run :: new)) with
      (length (RunHashes run) + sum_list (length ∘ RunHashes <$> new))%nat. lia.
Qed.

Lemma read_region_advances raw st r i regs r' :
  read_region raw (st, r) i = Ok (regs, r') ->
  rr_err r' = None /\ exists reg k, regs = st ++ [reg] /\ advances r r' k /\
    (32 + hash_count reg * 16 <= k)%nat.
Proof.
  unfold read_region.
  destruct (r_u64 r) as [base r1] eqn:E1. destruct (r_u64 r1) as [size r2] eqn:E2.
  destruct (r_u32 r2) as [prot r3] eqn:E3. destruct (r_u32 r3) as [fl r4] eqn:E4.
  destruct (need r4 4) as [kb r5] eqn:E5. destruct (negb _); [done|].
  intros [He5 H]%failed_ok.
  assert (advances r r5 (8 + (8 + (4 + (4 + 4))))) as A5
    by eauto 10 using advances_trans, r_u64_advances, r_u32_advances, need_advances.
  match type of H with context [let! _ := ?m in _] => destruct m as [[reg r6]|] eqn:E6 end; [|done].
  apply failed_ok in H as [He6 [= <- <-]]. split; [done|]. exists reg.
  assert (exists k, advances r5 r6 k /\ (4 + hash_count reg * 16 <= k)%nat) as (k & A6 & Hk).
  2: { exists (28 + k)%nat. split_and!; [done|by eapply advances_trans|lia]. }
  destruct (_ =? KindFull).
  { destruct (r_u64 r5) as [off r7] eqn:E7. injection E6 as <- <-. exists 8%nat.
    split; [by eapply r_u64_advances|cbn; lia]. }
  destruct (_ =? KindHashRef).
  { destruct (r_u32 r5) as [c r7] eqn:E7. apply failed_ok in E6 as [_ E6].
    destruct (hashes r7 c) as [[hs r8]|] eqn:E8; [|done]. injection E6 as <- <-.
    apply hashes_advances in E8 as [_ A8]. exists (4 + length hs * 16)%nat.
    split; [eapply advances_trans; [by eapply r_u32_advances|done]|unfold hash_count; cbn; lia]. }
  destruct (_ =? KindRunHashRef); [|done].
  destruct (r_u32 r5) as [n r7] eqn:E7. apply failed_ok in E6 as [He7 E6].
  destruct (_ <? _); [done|].
  destruct (foldm _ ([], r7) _) as [[rs r8]|] eqn:E8; [|done]. injection E6 as <- <-.
  apply read_runs_advances in E8 as (_ & k & new & -> & A8 & Hk); [|done].
  exists (4 + k)%nat. split; [eapply advances_trans; [by eapply r_u32_advances|done]|].
  unfold hash_count. cbn [Hashes Runs length app]. lia.
Qed.

Lemma read_regions_advances raw js : forall st r regs r',
  foldm (read_region raw) (st, r) js = Ok (regs, r') -> rr_err r = None ->
  exists k new, regs = st ++ new /\ advances r r' k /\ rr_err r' = None /\
    (sum_list ((fun g => 32 + hash_count g * 16)%nat <$> new) <= k)%nat.
Proof.
  induction js as [|j js IH]; intros st r regs r' H He; cbn [foldm] in H.
  - injection H as <- <-. exists 0%nat, []. rewrite app_nil_r.
    split_and!; [done| |done|cbn; lia]. split; [done|]. intros _. split_and!; [done|lia|done].
  - destruct (read_region raw (st, r) j) as [[regs1 r1]|] eqn:E; [|done].
    apply read_region_advances in E as (He1 & reg & k1 & -> & A1 & Hk1).
    apply IH in H as (k & new & -> & A2 & He2 & Hk); [|done].
    exists (k1 + k)%nat, (reg :: new). rewrite <-app_assoc.
    split_and!; [done|by eapply advances_trans|done|].
    change (sum_list ((fun g => 32 + hash_count g * 16)%nat <$> reg :: new)) with
      (32 + hash_count reg * 16 + sum_list ((fun g => 32 + hash_count g * 16)%nat <$> new))%nat. lia.
Qed.

(** ** Properties *)

(** Every stream reader inverts its writer: the index records, region
    descriptors, globals and tables read back are exactly the ones written. *)
Theorem streams_roundtrip records regions globals tables :
  Forall IndexRecord_ok records -> in_u 32 (len records) ->
  Forall Region_ok regions -> in_u 32 (len regions) ->
  Forall GlobalValue_ok globals -> in_u 32 (len globals) ->
  Forall TableValue_ok tables -> in_u 32 (len tables) ->
  decodeIndex (encodeIndex records) = Ok records /\
  decodeRegions (encodeRegions regions) = Ok regions /\
  decodeGlobals (encodeGlobals globals) = Ok globals /\
  decodeTables (encodeTables tables) = Ok tables.
Proof.
  auto 10 using decodeIndex_encode, decodeRegions_encode, decodeGlobals_encode, decodeTables_encode.
Qed.

Definition sample_record : IndexRecord := mkIndexRecord 3 3 (-1) 3 65536 0 60 0 24 0 12.
Definition sample_regions : list Region :=
  [mkRegion 0 65536 0 0 KindFull 128 [] [];
   mkRegion 65536 65536 0 0 KindHashRef 0 [mkUint128 1 2] [];
   mkRegion 131072 131072 0 0 KindRunHashRef 0 []
     [mkHashRun 0 [mkUint128 3 4]; mkHashRun 1 [mkUint128 5 6]]].

Lemma streams_roundtrip_witness :
  decodeIndex (encodeIndex [sample_record]) = Ok [sample_record] /\
  decodeRegions (encodeRegions sample_regions) = Ok sample_regions /\
  decodeGlobals (encodeGlobals [mkGlobalValue 127 true 7 0]) = Ok [mkGlobalValue 127 true 7 0] /\
  decodeTables (encodeTables [mkTableValue 112 [-1; 5]]) = Ok [mkTableValue 112 [-1; 5]].
Proof.
  apply streams_roundtrip; try done; repeat apply List.Forall_cons; try apply List.Forall_nil;
    split_and!; try done; cbn.
  - left. by split_and!.
  - right; left. split_and!; try done. by repeat constructor.
  - right; right. split_and!; try done.
    repeat (apply List.Forall_cons; [split_and!; try done; by repeat constructor|]). constructor.
  - by repeat (apply List.Forall_cons; [done|]).
Defined.

(** A layout stream the reader accepts describes no more than its bytes can
    hold: 32 bytes for each region and 16 for each page hash, so a corrupt
    count never makes the reader build more than the stream's own size. *)
Theorem decodeRegions_bounded raw regions :
  decodeRegions raw = Ok regions ->
  Z.of_nat (sum_list ((fun g => 32 + hash_count g * 16)%nat <$> regions)) <= len raw.
Proof.
  unfold decodeRegions. destruct (Z.eqb_spec (len raw) 0) as [E|_].
  { intros [= <-]. cbn. lia. }
  destruct (r_u32 (mkReader raw 0 None)) as [n r1] eqn:E1. intros [He1 H]%failed_ok.
  destruct (_ <? _); [done|].
  destruct (foldm (read_region raw) ([], r1) (seqZ 0 n)) as [[rs r2]|] eqn:E2; [|done].
  injection H as <-. apply read_regions_advances in E2 as (k & new & -> & A2 & He2 & Hk); [|done].
  apply r_u32_advances in E1. pose proof (advances_trans _ _ _ _ _ E1 A2) as [B A].
  destruct (A He2) as (_ & L & Le). cbn [rr_at rr_b] in *. specialize (Le (Nat.le_0_l _)).
  rewrite B in Le. cbn [app]. unfold len. lia.
Qed.

Lemma decodeRegions_bounded_witness :
  Z.of_nat (sum_list ((fun g => 32 + hash_count g * 16)%nat <$> sample_regions))
    <= len (encodeRegions sample_regions).
Proof. apply decodeRegions_bounded. vm_compute. reflexivity. Defined.

End Streams.
