(* ===== verification/PageCas.v ===== *)
(** * The page store ([src/internal/wasmsnapshot/pagecas.go])

    The three-tier content-addressed page cache and the two functions that turn
    a linear memory into region descriptors and back.  [memory_roundtrip] shows
    that the image rebuilt from the descriptors is the memory that was encoded,
    whatever pages the tiers held before, as long as no two different pages
    share a digest; [overlapping_regions_accepted] and [region_end_wraps] show
    two descriptor lists no encoder writes that the reader does not refuse.

    The host-wide tier is a directory of files: its state is the map from paths
    to contents, and [disk_fault] says which file operations fail. *)
From S2P Require Import Prelude GoStd Xxh3 SnapTypes.
Import GoStd Xxh3 SnapTypes.

Module PageCas.

Definition HashPage (page : list Z) : Uint128 := Hash128 page.
#[global] Arguments HashPage : simpl never.
#[global] Opaque HashPage.

(** ** Tier 1: the per-trace cache *)
Record PerTraceCache : Type := mkPerTraceCache { pages : gmap Uint128 (list Z) }.

Definition NewPerTraceCache : PerTraceCache := mkPerTraceCache ∅.

Definition PerTrace_Lookup (c : PerTraceCache) (h : Uint128) : option (list Z) := pages c !! h.

(** A page already present is kept. *)
Definition PerTrace_Insert (c : PerTraceCache) (h : Uint128) (page : list Z) : PerTraceCache :=
  match pages c !! h with
  | Some _ => c
  | None => mkPerTraceCache (<[h := page]> (pages c))
  end.

Definition PerTrace_Len (c : PerTraceCache) : Z := Z.of_nat (size (pages c)).

Definition PerTrace_Bytes (c : PerTraceCache) : Z :=
  map_fold (fun _ p n => n + len p) 0 (pages c).

(** ** Tier 2: the system cache *)
Inductive fault : Type := MkdirFault | OpenFault | WriteFault (written : nat) | SyncFault.

Record SystemCache : Type := mkSystemCache {
  root : gostring; files : gmap (list Z) (list Z); disk_fault : gostring -> option fault }.

Definition hex_digit (d : Z) : Z := if d <? 10 then 48 + d else 87 + d.
Definition hex_EncodeToString (b : list Z) : gostring :=
  concat ((fun x => [hex_digit (x / 16); hex_digit (x mod 16)]) <$> b).

(** [filepath.Join(c.root, s[0:2], s[2:4], s)], for a clean root. *)
Definition pathFor (c : SystemCache) (h : Uint128) : gostring :=
  let s := hex_EncodeToString (Bytes h) in
  root c ++ $"/" ++ sub s 0 2 ++ $"/" ++ sub s 2 2 ++ $"/" ++ s.

(** A file that does not hash to its name is a miss. *)
Definition System_Lookup (c : SystemCache) (h : Uint128) : option (list Z) :=
  match files c !! pathFor c h with
  | None => None
  | Some data => if bool_decide (HashPage data = h) then Some data else None
  end.

Definition with_file (c : SystemCache) (p : gostring) (data : list Z) : SystemCache :=
  mkSystemCache (root c) (<[p := data]> (files c)) (disk_fault c).

(** The file is created exclusively; one that is already there is left alone. *)
Definition System_Insert (c : SystemCache) (h : Uint128) (page : list Z)
    : result snap_err unit * SystemCache :=
  let p := pathFor c h in
  match disk_fault c p with
  | Some MkdirFault => (Err DiskError, c)
  | f =>
      match files c !! p with
      | Some _ => (Ok tt, c)
      | None =>
          match f with
          | Some OpenFault | Some MkdirFault => (Err DiskError, c)
          | Some (WriteFault n) => (Err DiskError, with_file c p (take n page))
          | Some SyncFault => (Err DiskError, with_file c p page)
          | None => (Ok tt, with_file c p page)
          end
      end
  end.

(** ** The three tiers *)

(** [PageCache]: what a remote tier offers a lookup. *)
Record PageCache : Type := mkPageCache {
  pc_CacheID : Z; pc_Lookup : Uint128 -> option (list Z) }.

Record Tiers : Type := mkTiers {
  PerTrace : option PerTraceCache; System : option SystemCache; Remote : list PageCache }.

Definition NewTiers (system : option SystemCache) (useSystem : bool) : Tiers :=
  mkTiers (Some NewPerTraceCache) (if useSystem then system else None) [].

Fixpoint remote_Lookup (rs : list PageCache) (h : Uint128) : option (list Z * Z) :=
  match rs with
  | [] => None
  | r :: rs =>
      match pc_Lookup r h with
      | Some p => Some (p, pc_CacheID r)
      | None => remote_Lookup rs h
      end
  end.

Definition Lookup (t : Tiers) (h : Uint128) : option (list Z * Z) :=
  match PerTrace t ≫= fun c => PerTrace_Lookup c h with
  | Some p => Some (p, CacheIDPerTrace)
  | None =>
      match System t ≫= fun c => System_Lookup c h with
      | Some p => Some (p, CacheIDSystem)
      | None => remote_Lookup (Remote t) h
      end
  end.

(** The recorded tier is only a hint: every tier is consulted. *)
Definition Resolve (t : Tiers) (h : Uint128) (cacheID : Z) : result snap_err (list Z) :=
  match Lookup t h with
  | Some (p, _) => Ok p
  | None => Err (PageMissing h cacheID)
  end.

(** ** From a memory to regions *)
Record EncodeOptions : Type := mkEncodeOptions { InlineMissedPages : bool; PromoteToSystem : bool }.

(** The variables of the loop: [curRun] is the last run of [cur]. *)
Record encoder : Type := mkEncoder {
  e_regions : list Region; e_inline : list Z; e_cur : option Region; e_tiers : Tiers }.

Definition flushed (regions : list Region) (cur : option Region) : list Region :=
  match cur with Some r => regions ++ [r] | None => regions end.

Definition with_runs (r : Region) (runs : list HashRun) (size : Z) : Region :=
  mkRegion (Base r) size (Protect r) (RegFlags r) (Kind r) (FileOffset r) (Hashes r) runs.

(** Appends a hash to the current run, opening a run when the tier changes. *)
Definition add_to_runs (runs : list HashRun) (tier : Z) (h : Uint128) : list HashRun :=
  match last runs with
  | Some run =>
      if CacheID run =? tier
      then removelast runs ++ [mkHashRun (CacheID run) (RunHashes run ++ [h])]
      else runs ++ [mkHashRun tier [h]]
  | None => runs ++ [mkHashRun tier [h]]
  end.

Definition insert_per_trace (t : Tiers) (h : Uint128) (page : list Z) : Tiers :=
  mkTiers ((fun c => PerTrace_Insert c h page) <$> PerTrace t) (System t) (Remote t).

Definition promote (opts : EncodeOptions) (t : Tiers) (h : Uint128) (page : list Z)
    : result (snap_err * Tiers) Tiers :=
  match PromoteToSystem opts, System t with
  | true, Some sc =>
      match System_Lookup sc h with
      | Some _ => Ok t
      | None =>
          let '(r, sc) := System_Insert sc h page in
          let t := mkTiers (PerTrace t) (Some sc) (Remote t) in
          match r with Ok _ => Ok t | Err e => Err (e, t) end
      end
  | _, _ => Ok t
  end.

(** One iteration of the loop of [EncodeMemory]; an error carries the tiers as
    the insertions so far left them. *)
Definition encode_page (opts : EncodeOptions) (memory : list Z) (memBase : Z)
    (st : encoder) (i : nat) : result (snap_err * Tiers) encoder :=
  let page := sub memory (i * Z.to_nat PageSize) (Z.to_nat PageSize) in
  let off := u64 (memBase + u64 (Z.of_nat i * PageSize)) in
  let h := HashPage page in
  let hit := Lookup (e_tiers st) h in
  match hit, InlineMissedPages opts with
  | None, true =>
      let regions := flushed (e_regions st) (e_cur st) in
      Ok (mkEncoder (regions ++ [mkRegion off PageSize 0 0 KindFull (len (e_inline st)) [] []])
                    (e_inline st ++ page) None (e_tiers st))
  | _, _ =>
      let '(tier, t) :=
        match hit with
        | Some (_, tier) => (tier, e_tiers st)
        | None => (CacheIDPerTrace, insert_per_trace (e_tiers st) h page)
        end in
      let! t := promote opts t h page in
      let cur := match e_cur st with
                 | Some r => r
                 | None => mkRegion off 0 0 0 KindRunHashRef 0 [] []
                 end in
      let cur := with_runs cur (add_to_runs (Runs cur) tier h) (u64 (Size cur + PageSize)) in
      Ok (mkEncoder (e_regions st) (e_inline st) (Some cur) t)
  end.

Definition EncodeMemory (memory : list Z) (tiers : option Tiers) (memBase : Z) (opts : EncodeOptions)
    : result (snap_err * option Tiers) (list Region * list Z * Tiers) :=
  if negb (len memory mod PageSize =? 0) then Err (NotPageAligned (len memory), tiers)
  else
    match tiers with
    | None => Err (NoPerTraceTier, tiers)
    | Some t =>
        if bool_decide (PerTrace t = None) then Err (NoPerTraceTier, tiers)
        else
          let nPages := Z.to_nat (len memory / PageSize) in
          match foldm (encode_page opts memory memBase) (mkEncoder [] [] None t) (seq 0 nPages) with
          | Err (e, t) => Err (e, Some t)
          | Ok st => Ok (flushed (e_regions st) (e_cur st), e_inline st, e_tiers st)
          end
    end.

(** ** From regions to a memory *)

(** One iteration of [writePages]: [copy(out[at:at+PageSize], page)]. *)
Definition write_page (tiers : Tiers) (cacheID : Z) (st : list Z * Z) (h : Uint128)
    : result snap_err (list Z * Z) :=
  let '(out, at_) := st in
  let! page := Resolve tiers h cacheID in
  reject negb (len page =? PageSize) as WrongPageLength (len page) ;;
  let fin := u64 (at_ + PageSize) in
  reject len out <? fin as RunPastEnd ;;
  reject fin <? at_ as Panic ;;
  Ok (put out (Z.to_nat at_) page, fin).

Definition writePages (out : list Z) (at_ : Z) (hashes : list Uint128) (cacheID : Z) (tiers : Tiers)
    : result snap_err (list Z) :=
  let! (out, _) := foldm (write_page tiers cacheID) (out, at_) hashes in Ok out.

Definition pages_len (hs : list Uint128) : Z := u64 (len hs * PageSize).

(** One run of a region: the state is the image, [at] and [covered]. *)
Definition write_run (tiers : Tiers) (st : list Z * Z * Z) (run : HashRun)
    : result snap_err (list Z * Z * Z) :=
  let '(out, at_, covered) := st in
  let! out := writePages out at_ (RunHashes run) (CacheID run) tiers in
  Ok (out, u64 (at_ + pages_len (RunHashes run)), u64 (covered + pages_len (RunHashes run))).

Definition write_region (inline : list Z) (tiers : Tiers) (size : Z) (st : list Z * Z) (r : Region)
    : result snap_err (list Z * Z) :=
  let '(out, covered) := st in
  let fin := u64 (Base r + Size r) in
  reject size <? fin as RegionPastMemory (Base r) (Size r) ;;
  if Kind r =? KindFull then
    let stop := u64 (FileOffset r + Size r) in
    reject len inline <? stop as InlineOutOfRange ;;
    reject (fin <? Base r) || (stop <? FileOffset r) as Panic ;;
    Ok (put out (Z.to_nat (Base r)) (sub inline (Z.to_nat (FileOffset r)) (Z.to_nat (Size r))),
        u64 (covered + Size r))
  else if Kind r =? KindHashRef then
    let! out := writePages out (Base r) (Hashes r) CacheIDPerTrace tiers in
    Ok (out, u64 (covered + pages_len (Hashes r)))
  else if Kind r =? KindRunHashRef then
    let! (out, _, covered) := foldm (write_run tiers) (out, Base r, covered) (Runs r) in
    Ok (out, covered)
  else Err (UnknownKind (Kind r)).

(** [make([]byte, size)] panics when [size] is not an [int]. *)
Definition MaterialiseMemory (regions : list Region) (inline : list Z) (tiers : Tiers) (size : Z)
    : result snap_err (list Z) :=
  reject 2 ^ 63 <=? size as Panic ;;
  let! (out, covered) :=
    foldm (write_region inline tiers size) (zeros (Z.to_nat size), 0) regions in
  reject negb (covered =? size) as NotCovered covered size ;;
  Ok out.

(** ** Pages *)
Lemma PageSize_val : PageSize = 65536.
Proof. done. Qed.
#[local] Opaque PageSize.

Notation psize := (Z.to_nat PageSize).

Lemma psize_val : Z.of_nat psize = PageSize.
Proof. rewrite Z2Nat.id; [done|]. rewrite PageSize_val. lia. Qed.

(** The pages of a memory. *)
Fixpoint pages_of (n : nat) (memory : list Z) : list (list Z) :=
  match n with
  | O => []
  | S n => take psize memory :: pages_of n (drop psize memory)
  end.

Definition page_ok (p : list Z) : Prop := bytes_ok p /\ length p = psize.

Lemma concat_pages_of n memory :
  length memory = (n * psize)%nat -> concat (pages_of n memory) = memory.
Proof.
  revert memory. induction n as [|n IH]; intros memory Hl; cbn [pages_of concat].
  - symmetry. by apply nil_length_inv.
  - rewrite IH, take_drop; [done|]. rewrite length_drop. lia.
Qed.

Lemma pages_of_ok n memory :
  bytes_ok memory -> length memory = (n * psize)%nat -> Forall page_ok (pages_of n memory).
Proof.
  revert memory. induction n as [|n IH]; intros memory Hb Hl; cbn [pages_of]; constructor.
  - split; [by apply Forall_take|]. rewrite length_take. lia.
  - apply IH; [by apply Forall_drop|]. rewrite length_drop. lia.
Qed.

Lemma lookup_pages_of n memory i :
  (i < n)%nat -> pages_of n memory !! i = Some (sub memory (i * psize) psize).
Proof.
  revert memory i. induction n as [|n IH]; intros memory i Hi; [lia|].
  cbn [pages_of]. destruct i as [|i].
  - rewrite Nat.mul_0_l. unfold sub. by rewrite drop_0.
  - rewrite Nat.mul_succ_l, Nat.add_comm. unfold sub. rewrite <-drop_drop. by apply IH; lia.
Qed.

Lemma length_pages_of n memory : length (pages_of n memory) = n.
Proof. revert memory. induction n; intros; cbn; auto. Qed.

(** ** What the tiers resolve a digest to *)
Definition resolve (t : Tiers) (h : Uint128) : option (list Z) := fst <$> Lookup t h.

Lemma Resolve_resolve t h id p : resolve t h = Some p -> Resolve t h id = Ok p.
Proof. unfold resolve, Resolve. destruct (Lookup t h) as [[q ?]|]; cbn; congruence. Qed.

(** [t'] resolves everything [t] does, to the same pages. *)
Definition extends (t t' : Tiers) : Prop :=
  forall h p, resolve t h = Some p -> resolve t' h = Some p.

#[export] Instance extends_preorder : PreOrder extends.
Proof. split; [by intros t h p|]. intros t1 t2 t3 H1 H2 h p H. auto. Qed.

(** A digest of [page] resolves to nothing but [page]. *)
Definition honest (t : Tiers) (page : list Z) : Prop :=
  forall q, resolve t (HashPage page) = Some q -> q = page.

(** What a step that files [page] under its own digest may change: lookups of
    other digests are as before, and its own digest now resolves to it. *)
Definition files_page (t t' : Tiers) (page : list Z) : Prop :=
  resolve t' (HashPage page) = Some page /\
  (forall h, h <> HashPage page -> resolve t' h = resolve t h) /\
  (PerTrace t <> None -> PerTrace t' <> None).

Lemma insert_per_trace_files t page :
  PerTrace t <> None -> resolve t (HashPage page) = None ->
  files_page t (insert_per_trace t (HashPage page) page) page.
Proof.
  destruct t as [[c|] sys rem]; [|done]. intros _ Hmiss.
  assert (pages c !! HashPage page = None) as Hc.
  { unfold resolve, Lookup in Hmiss. cbn in Hmiss. unfold PerTrace_Lookup in Hmiss.
    destruct (pages c !! HashPage page); [done|done]. }
  unfold insert_per_trace, PerTrace_Insert. cbn [fmap option_fmap option_map PerTrace System Remote].
  rewrite Hc. split_and!; [| |done]; unfold resolve, Lookup, PerTrace_Lookup; cbn.
  - by rewrite lookup_insert_eq.
  - intros h Hh. by rewrite lookup_insert_ne by done.
Qed.

(** A file created in the system tier changes no lookup but its own page's. *)
Lemma System_Lookup_with_file c page h :
  files c !! pathFor c (HashPage page) = None -> h <> HashPage page ->
  System_Lookup (with_file c (pathFor c (HashPage page)) page) h = System_Lookup c h.
Proof.
  intros Hn Hh. unfold System_Lookup, with_file. cbn [files root].
  change (pathFor (mkSystemCache _ _ _) h) with (pathFor c h).
  destruct (decide (pathFor c h = pathFor c (HashPage page))) as [E|E].
  - rewrite E, lookup_insert_eq, Hn. by rewrite bool_decide_false by congruence.
  - by rewrite lookup_insert_ne by congruence.
Qed.

Lemma System_Insert_ok c h page u c' :
  System_Insert c h page = (Ok u, c') ->
  c' = c \/ (files c !! pathFor c h = None /\ c' = with_file c (pathFor c h) page).
Proof.
  unfold System_Insert. intros H.
  destruct (disk_fault c (pathFor c h)) as [[]|]; destruct (files c !! pathFor c h);
    simplify_eq; auto.
Qed.

Lemma promote_files opts t page t' :
  resolve t (HashPage page) = Some page -> promote opts t (HashPage page) page = Ok t' ->
  files_page t t' page.
Proof.
  intros Hr H. unfold promote in H.
  assert (files_page t t page) as Hsame by done.
  destruct (PromoteToSystem opts); [|by injection H as <-].
  destruct t as [pt [sc|] rem]; cbn [System PerTrace Remote] in *; [|by injection H as <-].
  destruct (System_Lookup sc (HashPage page)) eqn:Es; [by injection H as <-|].
  destruct (System_Insert sc (HashPage page) page) as [[u|] sc'] eqn:Ei; [|done].
  injection H as <-. apply System_Insert_ok in Ei as [->|[Hn ->]]; [done|].
  split_and!; [| |done].
  - unfold resolve, Lookup in *. cbn [System PerTrace Remote] in *.
    destruct (pt ≫= _); [done|]. cbn [mbind option_bind] in *. rewrite Es in Hr.
    assert (System_Lookup (with_file sc (pathFor sc (HashPage page)) page) (HashPage page) = Some page) as ->.
    { unfold System_Lookup, with_file. cbn [files root].
      change (pathFor (mkSystemCache _ _ _) ?h) with (pathFor sc h).
      by rewrite lookup_insert_eq, bool_decide_true. }
    done.
  - intros h Hh. unfold resolve, Lookup. cbn [System PerTrace Remote mbind option_bind].
    by rewrite System_Lookup_with_file.
Qed.

(** ** What regions describe *)
Definition page_at (t : Tiers) (h : Uint128) (p : list Z) : Prop :=
  resolve t h = Some p /\ length p = psize.

Definition all_hashes (runs : list HashRun) : list Uint128 := concat (RunHashes <$> runs).

(** [content t inline r b]: the descriptor [r] stands for the bytes [b]. *)
Definition content (t : Tiers) (inline : list Z) (r : Region) (b : list Z) : Prop :=
  (Kind r = KindFull /\ 0 <= FileOffset r /\ FileOffset r + len b <= len inline /\
     sub inline (Z.to_nat (FileOffset r)) (length b) = b) \/
  (Kind r = KindRunHashRef /\ exists ps, Forall2 (page_at t) (all_hashes (Runs r)) ps /\ b = concat ps).

(** The regions describe [bs] from offset [at_] on, one after the other. *)
Fixpoint tiled (t : Tiers) (inline : list Z) (at_ : Z) (rs : list Region) (bs : list Z) : Prop :=
  match rs with
  | [] => bs = []
  | r :: rs =>
      exists b rest, bs = b ++ rest /\ Base r = at_ /\ Size r = len b /\ content t inline r b /\
        tiled t inline (at_ + len b) rs rest
  end.

Lemma tiled_app t inline at_ rs1 rs2 bs1 bs2 :
  tiled t inline at_ rs1 bs1 -> tiled t inline (at_ + len bs1) rs2 bs2 ->
  tiled t inline at_ (rs1 ++ rs2) (bs1 ++ bs2).
Proof.
  revert at_ bs1. induction rs1 as [|r rs1 IH]; intros at_ bs1; cbn [tiled app].
  - intros ->. by rewrite len_nil, Z.add_0_r.
  - intros (b & rest & -> & Hb & Hs & Hc & Hr) H2. exists b, (rest ++ bs2).
    rewrite <-app_assoc. split_and!; try done. apply IH; [done|].
    by rewrite len_app, Z.add_assoc in H2.
Qed.

Lemma tiled_app_inv t inline at_ rs1 rs2 bs :
  tiled t inline at_ (rs1 ++ rs2) bs ->
  exists bs1 bs2, bs = bs1 ++ bs2 /\ tiled t inline at_ rs1 bs1 /\
    tiled t inline (at_ + len bs1) rs2 bs2.
Proof.
  revert at_ bs. induction rs1 as [|r rs1 IH]; intros at_ bs; cbn [tiled app].
  - intros H. exists [], bs. by rewrite len_nil, Z.add_0_r.
  - intros (b & rest & -> & Hb & Hs & Hc & Hr). apply IH in Hr as (b1 & b2 & -> & H1 & H2).
    exists (b ++ b1), b2. rewrite len_app, Z.add_assoc, <-app_assoc. eauto 10.
Qed.

Lemma content_mono t t' inline more r b :
  extends t t' -> content t inline r b -> content t' (inline ++ more) r b.
Proof.
  intros He [(Hk & Ho & Hl & Hs)|(Hk & ps & Hps & ->)].
  - left. split_and!; [done|done|rewrite len_app; pose proof (len_nonneg more); lia|].
    rewrite sub_app_l; [done|]. unfold len in *. lia.
  - right. split; [done|]. exists ps. split; [|done].
    eapply Forall2_impl; [exact Hps|]. intros h p [? ?]. split; auto.
Qed.

Lemma tiled_mono t t' inline more at_ rs bs :
  extends t t' -> tiled t inline at_ rs bs -> tiled t' (inline ++ more) at_ rs bs.
Proof.
  intros He. revert at_ bs. induction rs as [|r rs IH]; intros at_ bs; cbn [tiled]; [done|].
  intros (b & rest & -> & Hb & Hs & Hc & Hr). exists b, rest. eauto 10 using content_mono.
Qed.

(** The fields of a region as the encoder fills them. *)
Definition run_shape (run : HashRun) : Prop :=
  in_u 64 (CacheID run) /\ RunHashes run <> [] /\ Forall Uint128_ok (RunHashes run).
Definition region_shape (r : Region) : Prop :=
  Protect r = 0 /\ RegFlags r = 0 /\ Hashes r = [] /\
  ((Kind r = KindFull /\ Runs r = []) \/
   (Kind r = KindRunHashRef /\ FileOffset r = 0 /\ Forall run_shape (Runs r))).

Lemma add_to_runs_hashes runs tier h : all_hashes (add_to_runs runs tier h) = all_hashes runs ++ [h].
Proof.
  unfold add_to_runs, all_hashes. destruct (last runs) as [run|] eqn:E.
  - apply last_Some in E as [runs' ->]. rewrite removelast_last.
    destruct (CacheID run =? tier); rewrite !fmap_app, !concat_app; cbn; rewrite ?app_nil_r; [|done].
    by rewrite app_assoc.
  - apply last_None in E as ->. done.
Qed.

Lemma add_to_runs_shape runs tier h :
  Forall run_shape runs -> in_u 64 tier -> Uint128_ok h -> Forall run_shape (add_to_runs runs tier h).
Proof.
  intros Hr Ht Hh.
  assert (run_shape (mkHashRun tier [h])) as Hnew by (split_and!; cbn; [done|done|by apply Forall_singleton]).
  unfold add_to_runs. destruct (last runs) as [run|] eqn:E.
  - apply last_Some in E as [runs' ->]. rewrite removelast_last. apply Forall_app in Hr as [Hr' [Hrun _]%Forall_cons].
    pose proof Hrun as (Hid & _ & Hhs).
    destruct (CacheID run =? tier); rewrite !Forall_app, ?Forall_singleton.
    + split; [done|]. split_and!; cbn; [done|by destruct (RunHashes run)|].
      apply Forall_app. by rewrite Forall_singleton.
    + done.
  - apply Forall_app. by rewrite Forall_singleton.
Qed.

(** ** The loop of [EncodeMemory]

    [encoded base st bs]: the regions emitted so far and the open one describe
    [bs] from [base] on. *)
Record encoded (base : Z) (st : encoder) (bs : list Z) : Prop := {
  enc_tiled : tiled (e_tiers st) (e_inline st) base (flushed (e_regions st) (e_cur st)) bs;
  enc_shape : Forall region_shape (flushed (e_regions st) (e_cur st));
  enc_cur : forall r, e_cur st = Some r -> Kind r = KindRunHashRef;
  enc_inline : len (e_inline st) <= len bs;
  enc_pt : PerTrace (e_tiers st) <> None;
  enc_remote : Forall (fun c => in_u 64 (pc_CacheID c)) (Remote (e_tiers st)) }.

Lemma Lookup_tier t h p id :
  Forall (fun c => in_u 64 (pc_CacheID c)) (Remote t) -> Lookup t h = Some (p, id) -> in_u 64 id.
Proof.
  unfold Lookup. intros Hr H. destruct (PerTrace t ≫= _); [by injection H as _ <-|].
  destruct (System t ≫= _); [by injection H as _ <-|].
  induction Hr as [|c rs Hc _ IH]; cbn [remote_Lookup] in H; [done|].
  destruct (pc_Lookup c h); [by injection H as _ <-|auto].
Qed.

Lemma files_page_extends t t' page :
  honest t page -> files_page t t' page -> extends t t'.
Proof.
  intros Hh (Hp & Ho & _) h q Hq. destruct (decide (h = HashPage page)) as [->|Hne].
  - by rewrite Hp, (Hh q Hq).
  - by rewrite Ho.
Qed.

Lemma promote_Remote opts t h page t' : promote opts t h page = Ok t' -> Remote t' = Remote t.
Proof.
  unfold promote. destruct (PromoteToSystem opts); [|congruence].
  destruct (System t); [|congruence]. destruct (System_Lookup _ _); [congruence|].
  destruct (System_Insert _ _ _) as [[]]; [|done]. by intros [= <-].
Qed.

(** A page that the tiers hold, or that is filed in the per-trace tier, is
    appended to the open region as one hash. *)
Lemma encode_hash_step base st bs page tier t off :
  encoded base st bs -> page_ok page -> files_page (e_tiers st) t page -> honest (e_tiers st) page ->
  Remote t = Remote (e_tiers st) -> in_u 64 tier -> off = base + len bs ->
  0 <= base -> base + len bs + PageSize < 2 ^ 64 ->
  let cur := match e_cur st with Some r => r | None => mkRegion off 0 0 0 KindRunHashRef 0 [] [] end in
  encoded base (mkEncoder (e_regions st) (e_inline st)
    (Some (with_runs cur (add_to_runs (Runs cur) tier (HashPage page)) (u64 (Size cur + PageSize)))) t)
    (bs ++ page).
Proof.
  intros [Ht Hs Hc Hi Hp Hr] [Hpb Hpl] Hf Hh Hrem Htier -> Hbase Hbig cur.
  pose proof (files_page_extends _ _ _ Hh Hf) as Hext.
  assert (len page = PageSize) as Hlp by (unfold len; by rewrite Hpl, psize_val).
  assert (exists bs1 b, bs = bs1 ++ b /\ tiled (e_tiers st) (e_inline st) base (e_regions st) bs1 /\
    Forall region_shape (e_regions st) /\ region_shape cur /\ Kind cur = KindRunHashRef /\
    Base cur = base + len bs1 /\ Size cur = len b /\
    exists ps, Forall2 (page_at (e_tiers st)) (all_hashes (Runs cur)) ps /\ b = concat ps)
    as (bs1 & b & -> & Ht1 & Hs1 & Hsc & Hk & Hb & Hsz & ps & Hps & Hcat).
  { subst cur. destruct (e_cur st) as [r|] eqn:Ecur; cbn [flushed] in Ht, Hs.
    - apply tiled_app_inv in Ht as (bs1 & b & -> & H1 & H2). cbn [tiled] in H2.
      destruct H2 as (b' & rest & -> & Hb & Hsz & Hcon & ->). rewrite app_nil_r.
      apply Forall_app in Hs as [Hs1 [Hs2 _]%Forall_cons].
      pose proof (Hc r eq_refl) as Hk.
      destruct Hcon as [(Hk' & _)|(_ & ps & Hps & Hcat)]; [by rewrite Hk in Hk'|].
      exists bs1, b'. eauto 15.
    - exists bs, []. rewrite app_nil_r. split_and!; try done.
      + split_and!; try done. right. split_and!; done || constructor.
      + exists []. split; [constructor|done]. }
  pose proof (len_nonneg bs1). pose proof (len_nonneg b). rewrite len_app in Hbig.
  pose proof PageSize_val.
  destruct Hf as (Hres & _ & Hpt).
  split; cbn [e_tiers e_inline e_regions e_cur flushed].
  - rewrite <-app_assoc. apply tiled_app.
    { rewrite <-(app_nil_r (e_inline st)). by eapply tiled_mono. }
    cbn [tiled]. exists (b ++ page), []. rewrite app_nil_r. split_and!; try done.
    + cbn [Size with_runs]. rewrite Hsz, len_app, Hlp. apply wrapu_small. unfold in_u. lia.
    + right. split; [done|]. cbn [Runs with_runs]. rewrite add_to_runs_hashes.
      exists (ps ++ [page]). split; [|rewrite Hcat, concat_app; cbn; by rewrite app_nil_r].
      apply Forall2_app; [|by repeat constructor].
      eapply Forall2_impl; [exact Hps|]. intros h q [? ?]. split; auto.
  - apply Forall_app. split; [done|]. apply Forall_singleton.
    destruct Hsc as (Hpr & Hfl & Hha & [(Hk' & _)|(_ & Hoff & Hruns)]); [by rewrite Hk in Hk'|].
    split_and!; try done. right. split_and!; try done.
    apply add_to_runs_shape; [done|done|]. by apply Hash128_ok.
  - intros r [= <-]. done.
  - rewrite !len_app in *. lia.
  - auto.
  - by rewrite Hrem.
Qed.

(** ** Pages without collisions

    [P] is the set of pages in play; no two of them share a digest, and the
    tiers hold pages of [P] only, each under its own digest. *)
Definition collision_free (P : list Z -> Prop) : Prop :=
  forall p q, P p -> P q -> HashPage p = HashPage q -> p = q.

Definition stores (P : list Z -> Prop) (t : Tiers) : Prop :=
  forall h q, resolve t h = Some q -> P q /\ HashPage q = h.

(** Promotion is off, or no file operation fails. *)
Definition quiet (opts : EncodeOptions) (t : Tiers) : Prop :=
  PromoteToSystem opts = true -> forall sc, System t = Some sc -> forall p, disk_fault sc p = None.

Definition remote_ok (t : Tiers) : Prop := Forall (fun c => in_u 64 (pc_CacheID c)) (Remote t).

Lemma stores_honest P t page : collision_free P -> stores P t -> P page -> honest t page.
Proof. intros Hcf Hst Hp q Hq. destruct (Hst _ _ Hq) as [Hq' Hh]. by apply Hcf. Qed.

Lemma files_page_stores P t t' page :
  stores P t -> P page -> files_page t t' page -> stores P t'.
Proof.
  intros Hst Hp (Hown & Hother & _) h q Hq. destruct (decide (h = HashPage page)) as [->|Hne].
  - rewrite Hown in Hq. by injection Hq as <-.
  - rewrite Hother in Hq by done. by apply Hst.
Qed.

Lemma promote_quiet opts t h page :
  quiet opts t -> exists t', promote opts t h page = Ok t' /\ quiet opts t'.
Proof.
  intros Hq. unfold promote. destruct (PromoteToSystem opts) eqn:Ep; [|by exists t].
  destruct t as [pt [sc|] rem]; cbn [System PerTrace Remote]; [|by exists (mkTiers pt None rem)].
  destruct (System_Lookup sc h); [by eexists|].
  unfold System_Insert. rewrite (Hq Ep sc eq_refl).
  destruct (files sc !! pathFor sc h); eexists; (split; [reflexivity|]); [done|].
  intros _ sc' [= <-] p. cbn. by apply Hq.
Qed.

Lemma files_page_trans t1 t2 t3 page :
  files_page t1 t2 page -> files_page t2 t3 page -> files_page t1 t3 page.
Proof.
  intros (_ & O1 & P1) (H2 & O2 & P2). split_and!; [done| |auto]. intros h Hh. by rewrite O2, O1.
Qed.

(** The loop's state at a page boundary. *)
Definition at_page (P : list Z -> Prop) (opts : EncodeOptions) (t0 : Tiers) (base : Z)
    (st : encoder) (bs : list Z) : Prop :=
  encoded base st bs /\ stores P (e_tiers st) /\ quiet opts (e_tiers st) /\ extends t0 (e_tiers st).

Lemma encode_page_step P opts t0 base memory st bs i page :
  collision_free P -> at_page P opts t0 base st bs ->
  page = sub memory (i * psize) psize -> page_ok page -> P page ->
  len bs = Z.of_nat i * PageSize -> 0 <= base -> base + len bs + PageSize < 2 ^ 64 ->
  okp (encode_page opts memory base st i) (fun st' => at_page P opts t0 base st' (bs ++ page)).
Proof.
  intros Hcf (He & Hst & Hq & Hx) -> Hpage HP Hi Hbase Hbig. unfold encode_page.
  set (page := sub memory (i * psize) psize) in *. cbv zeta.
  pose proof (stores_honest _ _ _ Hcf Hst HP) as Hh. pose proof PageSize_val as HPS.
  pose proof (len_nonneg bs) as Hbs.
  assert (u64 (base + u64 (Z.of_nat i * PageSize)) = base + len bs) as Hoff.
  { unfold u64. rewrite !wrapu_small; unfold in_u; rewrite ?wrapu_small; unfold in_u; lia. }
  rewrite Hoff.
  assert (forall tier t, files_page (e_tiers st) t page -> Remote t = Remote (e_tiers st) ->
    quiet opts t -> in_u 64 tier ->
    okp (let! t := promote opts t (HashPage page) page in
         Ok (let cur := match e_cur st with
                        | Some r => r
                        | None => mkRegion (base + len bs) 0 0 0 KindRunHashRef 0 [] [] end in
             mkEncoder (e_regions st) (e_inline st)
               (Some (with_runs cur (add_to_runs (Runs cur) tier (HashPage page))
                        (u64 (Size cur + PageSize)))) t))
        (fun st' => at_page P opts t0 base st' (bs ++ page))) as Hhash.
  { intros tier t Hf Hrem Hqt Htier.
    destruct (promote_quiet opts t (HashPage page) page Hqt) as (t' & Ep & Hq').
    rewrite Ep. cbn [okp].
    pose proof (promote_files _ _ _ _ (proj1 Hf) Ep) as Hf'.
    pose proof (files_page_trans _ _ _ _ Hf Hf') as Hf''.
    split; [|split; [|split]]; cbn [e_tiers].
    - apply encode_hash_step; try done. by rewrite (promote_Remote _ _ _ _ _ Ep).
    - by eapply files_page_stores.
    - done.
    - etrans; [exact Hx|]. by eapply files_page_extends. }
  destruct He as [Ht Hsh Hc Hin Hpt Hrem].
  destruct (Lookup (e_tiers st) (HashPage page)) as [[q tier]|] eqn:El.
  - assert (resolve (e_tiers st) (HashPage page) = Some q) as Hr by (unfold resolve; by rewrite El).
    rewrite (Hh q Hr) in Hr.
    apply (Hhash tier (e_tiers st)); [done|done|done|by eapply Lookup_tier].
  - assert (resolve (e_tiers st) (HashPage page) = None) as Hr by (unfold resolve; by rewrite El).
    destruct (InlineMissedPages opts).
    + cbn [okp]. split; [|done]. split; cbn [e_tiers e_inline e_regions e_cur flushed]; try done.
      * apply tiled_app; [eapply tiled_mono; [reflexivity|done]|]. cbn [tiled]. exists page, [].
        destruct Hpage as [_ Hpl]. rewrite app_nil_r.
        assert (len page = PageSize) as Hlp by (unfold len; by rewrite Hpl, psize_val).
        split_and!; try done. left. cbn [Kind FileOffset].
        split_and!; [done|apply len_nonneg|by rewrite len_app|].
        unfold len. rewrite Nat2Z.id, <-(app_nil_r page) at 1. apply sub_exact.
      * apply Forall_app. split; [done|]. apply Forall_singleton. split_and!; try done. by left.
      * rewrite !len_app. lia.
    + apply (Hhash CacheIDPerTrace).
      * by apply insert_per_trace_files.
      * done.
      * exact Hq.
      * done.
Qed.

Lemma concat_take_len (ps : list (list Z)) i :
  Forall page_ok ps -> (i <= length ps)%nat -> len (concat (take i ps)) = Z.of_nat i * PageSize.
Proof.
  intros Hps. revert i. induction Hps as [|p ps [_ Hp] _ IH]; intros i Hi.
  - replace i with 0%nat by (cbn in Hi; lia). done.
  - destruct i as [|i]; [done|]. cbn [take concat]. rewrite len_app, IH by (cbn in Hi; lia).
    unfold len. rewrite Hp, psize_val. lia.
Qed.

Lemma encode_loop P opts t0 base memory n k : forall j st,
  collision_free P -> bytes_ok memory -> length memory = (n * psize)%nat ->
  Forall P (pages_of n memory) -> 0 <= base -> base + len memory < 2 ^ 64 -> (j + k <= n)%nat ->
  at_page P opts t0 base st (concat (take j (pages_of n memory))) ->
  okp (foldm (encode_page opts memory base) st (seq j k))
      (fun st' => at_page P opts t0 base st' (concat (take (j + k) (pages_of n memory)))).
Proof.
  induction k as [|k IH]; intros j st Hcf Hb Hl HP Hbase Hbig Hjk Hst; cbn [seq foldm].
  - by rewrite Nat.add_0_r.
  - pose proof (pages_of_ok n memory Hb Hl) as Hok.
    assert (pages_of n memory !! j = Some (sub memory (j * psize) psize)) as Hj
      by (apply lookup_pages_of; lia).
    assert (len memory = Z.of_nat n * PageSize) as Hlm by (unfold len; rewrite Hl; rewrite <-psize_val; lia).
    pose proof PageSize_val.
    assert (len (concat (take j (pages_of n memory))) = Z.of_nat j * PageSize) as Hlj
      by (apply concat_take_len; [done|]; rewrite length_pages_of; lia).
    eapply okp_bind.
    { eapply encode_page_step; try done.
      - by eapply Forall_lookup_1.
      - by eapply Forall_lookup_1 in Hj.
      - rewrite Hlj. nia. }
    intros st' Hst'. rewrite <-Nat.add_succ_comm. apply IH; try done; [lia|].
    rewrite (take_S_r _ _ _ Hj), concat_app. cbn [concat]. by rewrite app_nil_r.
Qed.

(** [EncodeMemory] succeeds on a whole number of pages, and its regions
    describe the memory. *)
Lemma EncodeMemory_tiled P opts t base memory :
  collision_free P -> bytes_ok memory -> len memory mod PageSize = 0 ->
  Forall P (pages_of (Z.to_nat (len memory / PageSize)) memory) ->
  PerTrace t <> None -> remote_ok t -> stores P t -> quiet opts t ->
  0 <= base -> base + len memory < 2 ^ 64 ->
  exists regions inline t', EncodeMemory memory (Some t) base opts = Ok (regions, inline, t') /\
    tiled t' inline base regions memory /\ Forall region_shape regions /\ len inline <= len memory /\
    PerTrace t' <> None /\ remote_ok t' /\ stores P t' /\ quiet opts t' /\ extends t t'.
Proof.
  intros Hcf Hb Hal HP Hpt Hrem Hst Hq Hbase Hbig. pose proof PageSize_val.
  set (n := Z.to_nat (len memory / PageSize)) in *.
  assert (len memory = Z.of_nat n * PageSize) as Hlm.
  { pose proof (len_nonneg memory). unfold n. rewrite Z2Nat.id by (apply Z.div_pos; lia).
    pose proof (Z.div_mod (len memory) PageSize). lia. }
  assert (length memory = n * psize)%nat as Hl by (unfold len in Hlm; rewrite <-psize_val in Hlm; lia).
  assert (at_page P opts t base (mkEncoder [] [] None t) (concat (take 0 (pages_of n memory)))) as H0.
  { by split_and!. }
  pose proof (encode_loop P opts t base memory n n 0 _ Hcf Hb Hl HP Hbase Hbig (le_n n) H0) as Hloop.
  apply okp_ok in Hloop as (st & Est & (He & Hs' & Hq' & Hx)).
  unfold EncodeMemory. rewrite Hal. cbn [negb Z.eqb]. rewrite bool_decide_false by done. fold n.
  rewrite Est. destruct He as [Ht Hsh _ Hin' Hpt' Hrem'].
  rewrite firstn_all2, concat_pages_of in Ht, Hin' by (done || rewrite length_pages_of; lia).
  do 3 eexists. split_and!; try reflexivity; done.
Qed.

(** What the loop leaves alone: with no system tier and no remote tier, every
    page goes to the per-trace tier; and it opens at most one region a page. *)
Lemma encode_page_local opts memory base st i st' :
  encode_page opts memory base st i = Ok st' ->
  System (e_tiers st) = None ->
  System (e_tiers st') = None /\ Remote (e_tiers st') = Remote (e_tiers st) /\
  (length (flushed (e_regions st') (e_cur st')) <= S (length (flushed (e_regions st) (e_cur st))))%nat.
Proof.
  intros H Hs. unfold encode_page in H.
  assert (forall t h p t', System t = None -> promote opts t h p = Ok t' -> t' = t) as Hp.
  { intros t h p t' Ht. unfold promote. rewrite Ht. destruct (PromoteToSystem opts); congruence. }
  set (page := sub memory _ _) in H. cbv zeta in H.
  assert (forall tier t, Remote t = Remote (e_tiers st) -> System t = None ->
    (let! t := promote opts t (HashPage page) page in
     Ok (let cur := match e_cur st with
                    | Some r => r
                    | None => mkRegion (u64 (base + u64 (Z.of_nat i * PageSize))) 0 0 0 KindRunHashRef 0 [] [] end in
         mkEncoder (e_regions st) (e_inline st)
           (Some (with_runs cur (add_to_runs (Runs cur) tier (HashPage page)) (u64 (Size cur + PageSize)))) t))
    = Ok st' ->
    System (e_tiers st') = None /\ Remote (e_tiers st') = Remote (e_tiers st) /\
    (length (flushed (e_regions st') (e_cur st')) <= S (length (flushed (e_regions st) (e_cur st))))%nat) as Hhash.
  { intros tier t Hr Ht E. destruct (promote opts t (HashPage page) page) as [t'|] eqn:Ep; [|done].
    apply Hp in Ep; [|done]. subst t'. injection E as <-. cbn [e_tiers e_regions e_cur flushed].
    split_and!; [done|done|]. rewrite length_app. cbn [length].
    destruct (e_cur st); cbn [flushed]; rewrite ?length_app; lia. }
  destruct (Lookup (e_tiers st) (HashPage page)) as [[q tier]|]; [by eapply (Hhash tier (e_tiers st))|].
  destruct (InlineMissedPages opts).
  - injection H as <-. cbn [e_tiers e_regions e_cur flushed]. rewrite length_app. cbn [length].
    split_and!; [done|done|lia].
  - by eapply (Hhash CacheIDPerTrace (insert_per_trace (e_tiers st) (HashPage page) page)).
Qed.

Lemma EncodeMemory_local opts t base memory regions inline t' :
  EncodeMemory memory (Some t) base opts = Ok (regions, inline, t') -> System t = None ->
  System t' = None /\ Remote t' = Remote t /\ (length regions <= Z.to_nat (len memory / PageSize))%nat.
Proof.
  unfold EncodeMemory. intros H Hs. destruct (negb _); [done|]. destruct (bool_decide _); [done|].
  destruct (foldm _ _ _) as [st|[? ?]] eqn:E; [|done]. injection H as <- <- <-.
  assert (forall k j st0 st1, foldm (encode_page opts memory base) st0 (seq j k) = Ok st1 ->
    System (e_tiers st0) = None ->
    System (e_tiers st1) = None /\ Remote (e_tiers st1) = Remote (e_tiers st0) /\
    (length (flushed (e_regions st1) (e_cur st1)) <= k + length (flushed (e_regions st0) (e_cur st0)))%nat) as L.
  { intros k. induction k as [|k IH]; intros j st0 st1 Hf Hn; cbn [seq foldm] in Hf; [by injection Hf as <-|].
    destruct (encode_page opts memory base st0 j) as [st2|] eqn:Ep; [|done].
    destruct (encode_page_local _ _ _ _ _ _ Ep Hn) as (H1 & H2 & H3).
    destruct (IH _ _ _ Hf H1) as (H4 & H5 & H6). rewrite H5, H2. split_and!; [done|done|lia]. }
  destruct (L _ _ _ _ E Hs) as (H1 & H2 & H3). split_and!; [done|done|]. cbn in H3. lia.
Qed.

(** The regions of a memory of at most 4 GiB fit their encoding. *)
Lemma page_count t hs ps : Forall2 (page_at t) hs ps -> len (concat ps) = len hs * PageSize.
Proof.
  induction 1 as [|h p hs ps [_ Hp] _ IH]; [done|]. cbn [concat].
  rewrite len_cons, len_app, IH. unfold len at 1. rewrite Hp, psize_val. lia.
Qed.

Lemma run_lengths runs : Forall run_shape runs ->
  len runs <= len (all_hashes runs) /\ Forall (fun r => len (RunHashes r) <= len (all_hashes runs)) runs.
Proof.
  induction 1 as [|run runs (_ & Hne & _) _ [IH1 IH2]]; [done|].
  change (all_hashes (run :: runs)) with (RunHashes run ++ all_hashes runs).
  rewrite len_cons, len_app. pose proof (len_nonneg (all_hashes runs)).
  assert (0 < len (RunHashes run)) by (destruct (RunHashes run); [done|unfold len; cbn [length]; lia]).
  split; [lia|]. constructor; [lia|]. eapply Forall_impl; [exact IH2|]. cbn. lia.
Qed.

Lemma tiled_Region_ok t inline rs : forall at_ bs,
  Forall region_shape rs -> tiled t inline at_ rs bs -> 0 <= at_ -> at_ + len bs <= 2 ^ 32 ->
  len inline < 2 ^ 63 -> Forall Region_ok rs.
Proof.
  pose proof PageSize_val as HPS.
  induction rs as [|r rs IH]; intros at_ bs Hs Ht Ha Hb Hi; [constructor|].
  apply Forall_cons in Hs as [(Hp & Hf & Hh & Hk) Hs]. cbn [tiled] in Ht.
  destruct Ht as (b & rest & -> & HB & HS & Hc & Ht). rewrite len_app in Hb.
  pose proof (len_nonneg b). pose proof (len_nonneg rest).
  constructor; [|eapply IH; [done|exact Ht|lia|lia|done]].
  split_and!; [unfold in_u; lia|unfold in_u; lia|by rewrite Hp|by rewrite Hf|].
  destruct Hk as [(Hk & Hr)|(Hk & Ho & Hruns)], Hc as [(Hk' & Ho' & Hl & _)|(Hk' & ps & Hps & ->)];
    [| |by rewrite Hk in Hk'|].
  - left. split_and!; [done|unfold in_u; lia|done|done].
  - by rewrite Hk in Hk'.
  - right. right. pose proof (page_count _ _ _ Hps) as Hn. destruct (run_lengths _ Hruns) as [Hl1 Hl2].
    pose proof (len_nonneg (Runs r)). split_and!; [done|done|done| |unfold in_u; lia].
    rewrite Forall_forall in *. intros run Hin. destruct (Hruns run Hin) as (? & ? & ?).
    specialize (Hl2 run Hin). pose proof (len_nonneg (RunHashes run)).
    split_and!; [done|done|unfold in_u; lia].
Qed.

(** ** Rebuilding the memory *)
Lemma write_pages_ok t id hs ps :
  Forall2 (page_at t) hs ps -> forall out pre old post at_,
  out = pre ++ old ++ post -> at_ = len pre -> length old = length (concat ps) ->
  len out < 2 ^ 63 ->
  foldm (write_page t id) (out, at_) hs = Ok (pre ++ concat ps ++ post, at_ + len (concat ps)).
Proof.
  pose proof PageSize_val as HPS.
  induction 1 as [|h p hs ps [Hr Hp] _ IH]; intros out pre old post at_ -> -> Hold Hbig; cbn [foldm].
  - cbn in Hold. apply nil_length_inv in Hold as ->. change (len (@concat Z [])) with 0. by rewrite Z.add_0_r.
  - cbn [concat] in *. rewrite length_app in Hold.
    destruct (cut_at old 0 (length p)) as (a & m & c & -> & Ha & Hm); [lia|].
    apply nil_length_inv in Ha as ->. cbn [app] in *. rewrite length_app in Hold.
    assert (len p = PageSize) as Hlp by (unfold len; by rewrite Hp, psize_val).
    rewrite !len_app in Hbig. pose proof (len_nonneg pre). pose proof (len_nonneg c).
    pose proof (len_nonneg post). assert (len m = PageSize) by (unfold len in *; lia).
    unfold write_page at 1. rewrite (Resolve_resolve _ _ _ _ Hr), Hlp, Z.eqb_refl. cbn [negb].
    assert (u64 (len pre + PageSize) = len pre + PageSize) as -> by (apply wrapu_small; unfold in_u; lia).
    rewrite !len_app.
    destruct (Z.ltb_spec (len pre + (len m + len c + len post)) (len pre + PageSize)); [lia|].
    destruct (Z.ltb_spec (len pre + PageSize) (len pre)); [lia|].
    rewrite <-(app_assoc m), put_exact by (unfold len; lia).
    rewrite (IH _ (pre ++ p) c post (len pre + PageSize)); first last.
    + rewrite !len_app. lia.
    + lia.
    + by rewrite len_app, Hlp.
    + by rewrite <-!app_assoc.
    + rewrite Hlp, <-!app_assoc. f_equal. f_equal. lia.
Qed.

Lemma writePages_ok t id hs ps pre old post at_ :
  Forall2 (page_at t) hs ps -> at_ = len pre -> length old = length (concat ps) ->
  len (pre ++ old ++ post) < 2 ^ 63 ->
  writePages (pre ++ old ++ post) at_ hs id t = Ok (pre ++ concat ps ++ post).
Proof. intros. unfold writePages. by rewrite (write_pages_ok t id hs ps H _ pre old post). Qed.

Lemma pages_len_concat t hs ps :
  Forall2 (page_at t) hs ps -> len (concat ps) < 2 ^ 63 -> pages_len hs = len (concat ps).
Proof.
  intros H Hb. assert (len hs * PageSize = len (concat ps)) as E.
  { clear Hb. induction H as [|h p hs ps [_ Hp] _ IH]; [done|]. cbn [concat].
    rewrite len_cons, len_app, <-IH. unfold len at 2. rewrite Hp, psize_val. lia. }
  unfold pages_len. rewrite E. apply wrapu_small. pose proof (len_nonneg (concat ps)).
  unfold in_u. lia.
Qed.

Lemma write_runs_ok t runs : forall ps out pre old post at_ covered,
  Forall2 (page_at t) (all_hashes runs) ps ->
  out = pre ++ old ++ post -> at_ = len pre -> length old = length (concat ps) ->
  len out < 2 ^ 63 -> 0 <= covered /\ covered + len (concat ps) < 2 ^ 63 ->
  foldm (write_run t) (out, at_, covered) runs
  = Ok (pre ++ concat ps ++ post, at_ + len (concat ps), covered + len (concat ps)).
Proof.
  induction runs as [|run runs IH]; intros ps out pre old post at_ covered Hps -> -> Hold Hbig Hcov.
  - unfold all_hashes in Hps. cbn in Hps. inversion Hps; subst. cbn in *.
    apply nil_length_inv in Hold as ->. change (len (@nil Z)) with 0. by rewrite !Z.add_0_r.
  - unfold all_hashes in Hps. rewrite fmap_cons in Hps. cbn [concat] in Hps.
    apply Forall2_app_inv_l in Hps as (ps1 & ps2 & H1 & H2 & ->).
    rewrite concat_app, length_app in *. rewrite len_app in *. pose proof (len_nonneg (concat ps2)).
    destruct (cut_at old 0 (length (concat ps1))) as (a & m & c & -> & Ha & Hm); [lia|].
    apply nil_length_inv in Ha as ->. cbn [app] in *. rewrite length_app in Hold.
    pose proof (len_nonneg pre). pose proof (len_nonneg c). pose proof (len_nonneg post).
    assert (len m = len (concat ps1)) as Hlm by (unfold len; lia).
    pose proof (len_nonneg (concat ps1)). rewrite !len_app in Hbig.
    cbn [foldm]. unfold write_run at 1. rewrite <-(app_assoc m).
    rewrite (writePages_ok t _ _ ps1 pre m (c ++ post)) by (done || rewrite ?len_app; lia).
    rewrite (pages_len_concat t _ ps1) by (done || lia).
    unfold u64. rewrite !wrapu_small by (unfold in_u; lia).
    rewrite (IH ps2 _ (pre ++ concat ps1) c post); first last.
    + lia.
    + rewrite !len_app. lia.
    + lia.
    + by rewrite len_app.
    + by rewrite <-app_assoc.
    + done.
    + rewrite <-!app_assoc, !Z.add_assoc. done.
Qed.

Lemma write_region_ok t inline size r b pre old post covered :
  content t inline r b -> Base r = len pre -> Size r = len b -> length old = length b ->
  len (pre ++ old ++ post) = size -> size < 2 ^ 63 -> len inline < 2 ^ 63 ->
  0 <= covered -> covered + len b <= size ->
  write_region inline t size (pre ++ old ++ post, covered) r
  = Ok (pre ++ b ++ post, covered + len b).
Proof.
  intros Hc Hb Hs Hold Hsz Hsize Hin Hc0 Hcov. unfold write_region. rewrite Hb, Hs.
  pose proof (len_nonneg pre). pose proof (len_nonneg b). pose proof (len_nonneg post).
  assert (len old = len b) as Hlo by (unfold len; lia).
  rewrite !len_app in Hsz.
  assert (u64 (len pre + len b) = len pre + len b) as -> by (apply wrapu_small; unfold in_u; lia).
  destruct (Z.ltb_spec size (len pre + len b)); [lia|].
  destruct Hc as [(-> & Ho & Hl & Hsub)|(-> & ps & Hps & ->)]; cbn [KindFull KindHashRef KindRunHashRef Z.eqb Pos.eqb].
  - unfold u64. rewrite !wrapu_small by (unfold in_u; lia).
    destruct (Z.ltb_spec (len inline) (FileOffset r + len b)); [lia|].
    destruct (Z.ltb_spec (len pre + len b) (len pre)); [lia|].
    destruct (Z.ltb_spec (FileOffset r + len b) (FileOffset r)); [lia|]. cbn [orb].
    replace (Z.to_nat (len b)) with (length b) by (unfold len; lia).
    rewrite Hsub, put_exact by (unfold len; lia). done.
  - rewrite (write_runs_ok t (Runs r) ps _ pre old post (len pre) covered) by
      (done || rewrite ?len_app; lia). done.
Qed.

Lemma write_regions_ok t inline size rs : forall bs pre old covered,
  tiled t inline (len pre) rs bs -> length old = length bs -> covered = len pre ->
  len (pre ++ old) = size -> size < 2 ^ 63 -> len inline < 2 ^ 63 ->
  foldm (write_region inline t size) (pre ++ old, covered) rs = Ok (pre ++ bs, covered + len bs).
Proof.
  induction rs as [|r rs IH]; intros bs pre old covered Ht Hold -> Hsz Hsize Hin; cbn [foldm].
  - cbn in Ht. subst bs. apply nil_length_inv in Hold as ->. change (len (@nil Z)) with 0. by rewrite Z.add_0_r.
  - cbn [tiled] in Ht. destruct Ht as (b & rest & -> & Hb & Hs & Hc & Ht). rewrite length_app in Hold.
    destruct (cut_at old 0 (length b)) as (a & m & c & -> & Ha & Hm); [lia|].
    apply nil_length_inv in Ha as ->. cbn [app] in *. rewrite length_app in Hold.
    assert (len m = len b) as Hlm by (unfold len; lia). rewrite !len_app in Hsz.
    pose proof (len_nonneg pre). pose proof (len_nonneg c).
    rewrite (write_region_ok t inline size r b pre m c (len pre)) by
      (done || rewrite ?len_app; lia).
    rewrite (app_assoc pre b c), <-len_app.
    rewrite (IH rest (pre ++ b) c) by (rewrite ?len_app in *; done || lia).
    rewrite <-app_assoc, !len_app. do 2 f_equal. lia.
Qed.

Lemma MaterialiseMemory_tiled t inline regions memory :
  tiled t inline 0 regions memory -> len memory < 2 ^ 63 -> len inline < 2 ^ 63 ->
  MaterialiseMemory regions inline t (len memory) = Ok memory.
Proof.
  intros Ht Hm Hi. unfold MaterialiseMemory.
  destruct (Z.leb_spec (2 ^ 63) (len memory)); [lia|].
  pose proof (write_regions_ok t inline (len memory) regions memory [] (zeros (length memory)) 0) as W.
  cbn [app] in W. replace (Z.to_nat (len memory)) with (length memory) by (unfold len; lia).
  rewrite W; [|done|by lens|done| |done|done].
  - by rewrite Z.eqb_refl.
  - unfold len. by rewrite length_zeros.
Qed.

(** ** Properties *)

(** C36: a memory of whole pages, encoded against any tiers that hold no page
    colliding with one of its own, is rebuilt exactly from its region
    descriptors, its inline bytes and the tiers the encoding leaves behind,
    whether missed pages are inlined or filed and whether or not they are
    promoted. *)
Theorem memory_roundtrip P opts t memory :
  collision_free P -> bytes_ok memory -> len memory mod PageSize = 0 -> len memory < 2 ^ 63 ->
  Forall P (pages_of (Z.to_nat (len memory / PageSize)) memory) ->
  PerTrace t <> None -> remote_ok t -> stores P t -> quiet opts t ->
  exists regions inline t', EncodeMemory memory (Some t) 0 opts = Ok (regions, inline, t') /\
    MaterialiseMemory regions inline t' (len memory) = Ok memory.
Proof.
  intros Hcf Hb Hal Hbig HP Hpt Hrem Hst Hq.
  destruct (EncodeMemory_tiled P opts t 0 memory) as (rs & inl & t' & E & Ht & _ & Hin & _); try done; [lia|].
  exists rs, inl, t'. split; [done|]. apply MaterialiseMemory_tiled; [done|done|lia].
Qed.

Definition one_page : list Z := zeros psize.

Lemma memory_roundtrip_witness :
  exists regions inline t',
    EncodeMemory one_page (Some (NewTiers None false)) 0 (mkEncodeOptions false false)
      = Ok (regions, inline, t') /\
    MaterialiseMemory regions inline t' (len one_page) = Ok one_page.
Proof.
  assert (len one_page = PageSize) as Hl by (unfold len, one_page; by rewrite length_zeros, psize_val).
  apply (memory_roundtrip (fun p => p = one_page)).
  - by intros p q -> ->.
  - apply zeros_bytes.
  - rewrite Hl. apply Z_mod_same_full.
  - rewrite Hl, PageSize_val. lia.
  - rewrite Hl, Z_div_same_full by (rewrite PageSize_val; lia).
    change (Z.to_nat 1) with 1%nat. cbn [pages_of]. apply Forall_singleton.
    unfold one_page. rewrite firstn_all2; [done|]. by rewrite length_zeros.
  - done.
  - constructor.
  - intros h q H. unfold resolve, Lookup, PerTrace_Lookup in H. cbn in H.
    rewrite lookup_empty in H. done.
  - done.
Defined.

(** Two descriptors of the same page add up to the size of a two-page
    memory, so the check that the regions cover the memory accepts them and the
    second page is delivered as zeros that no descriptor stands for. *)
Theorem overlapping_regions_accepted t page :
  length page = psize ->
  let r := mkRegion 0 PageSize 0 0 KindFull 0 [] [] in
  MaterialiseMemory [r; r] page t (2 * PageSize) = Ok (page ++ zeros psize).
Proof.
  intros Hp r. pose proof PageSize_val as HPS.
  assert (len page = PageSize) as Hl by (unfold len; by rewrite Hp, psize_val).
  assert (content t page r page) as Hc.
  { left. split_and!; cbn [r Kind FileOffset]; [done|lia|lia|]. by apply sub_all. }
  unfold MaterialiseMemory. destruct (Z.leb_spec (2 ^ 63) (2 * PageSize)); [lia|].
  replace (Z.to_nat (2 * PageSize)) with (psize + psize)%nat by lia.
  rewrite zeros_app. cbn [foldm].
  assert (forall old covered, length old = psize -> covered = 0 \/ covered = PageSize ->
    write_region page t (2 * PageSize) (old ++ zeros psize, covered) r
    = Ok (page ++ zeros psize, covered + PageSize)) as W.
  { intros old covered Ho Hcov. replace (covered + PageSize) with (covered + len page) by lia.
    apply (write_region_ok t page (2 * PageSize) r page [] old (zeros psize)); try done; try lia.
    cbn [app]. rewrite len_app. unfold len. rewrite length_zeros, Ho, psize_val. lia. }
  rewrite W by (rewrite ?length_zeros; auto). rewrite W by (rewrite ?Hp; auto).
  destruct (Z.eqb_spec (0 + PageSize + PageSize) (2 * PageSize)); [done|lia].
Qed.

Lemma overlapping_regions_accepted_witness :
  let r := mkRegion 0 PageSize 0 0 KindFull 0 [] [] in
  MaterialiseMemory [r; r] one_page (NewTiers None false) (2 * PageSize) = Ok (one_page ++ zeros psize).
Proof. apply overlapping_regions_accepted. unfold one_page. by rewrite length_zeros. Defined.

(** A descriptor whose end wraps around 64 bits passes the check against
    the memory's size, and the slice expression behind it panics. *)
Theorem region_end_wraps t inline size :
  PageSize <= len inline -> 0 <= size < 2 ^ 63 ->
  MaterialiseMemory [mkRegion (2 ^ 64 - PageSize) PageSize 0 0 KindFull 0 [] []] inline t size = Err Panic.
Proof.
  intros Hi Hs. pose proof PageSize_val as HPS. unfold MaterialiseMemory.
  destruct (Z.leb_spec (2 ^ 63) size); [lia|]. cbn [foldm]. unfold write_region.
  cbn [Base Size Kind FileOffset].
  replace (u64 (2 ^ 64 - PageSize + PageSize)) with 0 by (rewrite Z.sub_add; done).
  destruct (Z.ltb_spec size 0); [lia|]. cbn [KindFull Z.eqb].
  assert (u64 (0 + PageSize) = PageSize) as -> by (apply wrapu_small; unfold in_u; lia).
  destruct (Z.ltb_spec (len inline) PageSize); [lia|].
  destruct (Z.ltb_spec 0 (2 ^ 64 - PageSize)); [done|lia].
Qed.

Lemma region_end_wraps_witness :
  MaterialiseMemory [mkRegion (2 ^ 64 - PageSize) PageSize 0 0 KindFull 0 [] []]
    one_page (NewTiers None false) PageSize = Err Panic.
Proof.
  apply region_end_wraps.
  - unfold len, one_page. rewrite length_zeros, psize_val. lia.
  - rewrite PageSize_val. lia.
Defined.

End PageCas.
