(* ===== verification/Nsb1.v ===== *)
(** * The namespace B-tree ([src/internal/wasmsnapshot/nsb1.go])

    The bulk loader that packs sorted entries into 4096-byte pages and the
    validating walk that reads them back.  [bulk_load_collect] shows that the
    walk of a loaded image returns exactly the entries, also after bytes of the
    header page that the format does not use are written and whole pages are
    appended, which is how the page store carries its version record and its
    payload; [nsCollect_ascending] shows that any image the walk accepts yields
    keys in strictly ascending order. *)
From S2P Require Import Prelude Xxh3 SnapTypes.
Import SnapTypes.

Module Nsb1.

Definition nsPageSize : Z := 4096.
Definition nsNodeHeaderBytes : Z := 8.
Definition nsHeaderTotal : Z := 61.
Definition nsKindInternal : Z := 0.
Definition nsKindLeaf : Z := 1.
Definition nsDescSizeTypeB : Z := 16.

Definition nsOffRoot0 : nat := 4.
Definition nsOffRoot1 : nat := 12.
Definition nsOffCommit0 : nat := 20.
Definition nsOffCommit1 : nat := 28.
Definition nsOffFlags : nat := 36.
Definition nsOffFreeHead : nat := 37.
Definition nsOffNextFree : nat := 45.
Definition nsOffPageCount : nat := 53.

Definition nsFlagLeafTypeB : Z := 1.
Definition nsFlagSkipSubBlocks : Z := 2.
Definition nsMaxDepth : nat := 16.
Definition nsMagic : list Z := bytes_of_string "NSB1".

Notation npage := (Z.to_nat nsPageSize).
Notation nhdr := (Z.to_nat nsNodeHeaderBytes).

Definition nsOrder (descSize : Z) : Z := (nsPageSize - nsNodeHeaderBytes) / (8 + descSize).

Record nsEntry : Type := mkEntry { key : Z; desc : list Z }.

#[export] Instance nsEntry_eq_dec : EqDecision nsEntry.
Proof. solve_decision. Defined.

(** ** The writer *)
Record nsBuilder : Type := mkBuilder { image : list Z; next : nat; descSize : nat }.

Definition alloc (b : nsBuilder) : nat * nsBuilder :=
  (next b, mkBuilder (image b ++ zeros npage) (next b + 1) (descSize b)).

Definition base (page : nat) : nat := (page * npage)%nat.

Definition with_image (b : nsBuilder) (img : list Z) : nsBuilder := mkBuilder img (next b) (descSize b).

(** [node_kind], [reserved], [count] and [reserved], side by side. *)
Definition writeNodeHeader (img : list Z) (page : nat) (leaf : bool) (count : nat) : list Z :=
  put img (base page)
    ([if leaf then nsKindLeaf else nsKindInternal; 0] ++ le_enc 2 (u16 (Z.of_nat count)) ++ zeros 4).

(** The pairs of [for i, x := range xs]. *)
Definition indexed {A} (xs : list A) : list (nat * A) := zip (seq 0 (length xs)) xs.

Definition writeLeaf (b : nsBuilder) (page : nat) (entries : list nsEntry) : nsBuilder :=
  let img := writeNodeHeader (image b) page true (length entries) in
  let descBase := (base page + nhdr + length entries * 8)%nat in
  with_image b
    (foldl (fun img ie =>
        let '(i, e) := ie in
        let img := put img (base page + nhdr + i * 8) (le_enc 8 (key e)) in
        put img (descBase + i * descSize b) (desc e))
      img (indexed entries)).

Definition writeInternal (b : nsBuilder) (page : nat) (keys children : list Z) : nsBuilder :=
  let img := writeNodeHeader (image b) page false (length keys) in
  let childBase := (base page + nhdr + length keys * 8)%nat in
  let img := foldl (fun img ik => put img (base page + nhdr + ik.1 * 8) (le_enc 8 ik.2))
                   img (indexed keys) in
  with_image b (foldl (fun img ic => put img (childBase + ic.1 * 8) (le_enc 8 ic.2))
                      img (indexed children)).

(** A node of the level being packed and the smallest key below it. *)
Record levelNode : Type := mkLevelNode { page : nat; minKey : Z }.

(** The check of the batch: descriptor widths and ascending keys. *)
Fixpoint check_batch (descSize : Z) (i : nat) (prev : option Z) (entries : list nsEntry)
    : result snap_err unit :=
  match entries with
  | [] => Ok tt
  | e :: es =>
      reject negb (len (desc e) =? descSize) as BadDescriptor i ;;
      reject match prev with Some k => key e <=? k | None => false end as NotAscending i ;;
      check_batch descSize (S i) (Some (key e)) es
  end.

(** The leaves: runs of at most [order] entries; each pass consumes at least
    one, so [length entries] passes are enough. *)
Fixpoint load_leaves (fuel : nat) (order : nat) (b : nsBuilder) (entries : list nsEntry)
    (level : list levelNode) : nsBuilder * list levelNode :=
  match fuel, entries with
  | S fuel, e :: _ =>
      let run := take order entries in
      let '(p, b) := alloc b in
      let b := writeLeaf b p run in
      load_leaves fuel order b (drop order entries) (level ++ [mkLevelNode p (key e)])
  | _, _ => (b, level)
  end.

(** One internal level: groups of at most [order + 1] children. *)
Fixpoint load_parents (fuel : nat) (order : nat) (b : nsBuilder) (level parent : list levelNode)
    : nsBuilder * list levelNode :=
  match fuel, level with
  | S fuel, n :: _ =>
      let group := take (order + 1) level in
      let keys := minKey <$> tail group in
      let children := (fun n => Z.of_nat (page n)) <$> group in
      let '(p, b) := alloc b in
      let b := writeInternal b p keys children in
      load_parents fuel order b (drop (order + 1) level) (parent ++ [mkLevelNode p (minKey n)])
  | _, _ => (b, parent)
  end.

(** The levels, until one node remains. *)
Fixpoint load_levels (fuel : nat) (order : nat) (b : nsBuilder) (level : list levelNode)
    : nsBuilder * list levelNode :=
  match fuel with
  | O => (b, level)
  | S fuel =>
      if (1 <? length level)%nat then
        let '(b, parent) := load_parents (length level) order b level [] in
        load_levels fuel order b parent
      else (b, level)
  end.

Definition write_header (img : list Z) (root commit : Z) (flags : Z) (next : Z) : list Z :=
  let img := put img 0 nsMagic in
  let img := put img nsOffRoot0 (le_enc 8 root) in
  let img := put img nsOffRoot1 (le_enc 8 0) in
  let img := put img nsOffCommit0 (le_enc 8 commit) in
  let img := put img nsOffCommit1 (le_enc 8 0) in
  let img := put img nsOffFlags [flags] in
  let img := put img nsOffFreeHead (le_enc 8 0) in
  let img := put img nsOffNextFree (le_enc 8 next) in
  put img nsOffPageCount (le_enc 8 next).

Definition nsBulkLoad (entries : list nsEntry) (descSize : Z) (flags : Z) : result snap_err (list Z) :=
  let order := Z.to_nat (nsOrder descSize) in
  let! _ := check_batch descSize 0 None entries in
  let b := mkBuilder (zeros npage) 1 (Z.to_nat descSize) in
  let '(b, level) := load_leaves (length entries) order b entries [] in
  let '(b, level) := load_levels (length level) order b level in
  let '(root, commit) :=
    match level with [n] => (Z.of_nat (page n), 1) | _ => (0, 0) end in
  Ok (write_header (image b) root commit flags (Z.of_nat (next b))).

(** ** The reader *)
Record nsHeader : Type := mkHeader { h_root : Z; h_commitID : Z; h_flags : Z; h_pageCount : Z }.

Definition nsReadHeader (image : list Z) : result snap_err nsHeader :=
  reject len image <? nsHeaderTotal as NsTooShort ;;
  reject bool_decide (sub image 0 4 ≠ nsMagic) as NsBadMagic ;;
  reject negb (len image mod nsPageSize =? 0) as NsNotAligned ;;
  let commit0 := get_u64 image nsOffCommit0 in
  let commit1 := get_u64 image nsOffCommit1 in
  let '(root, commitID) :=
    if (commit0 =? 0) && (commit1 =? 0) then (0, 0)
    else if commit0 <? commit1 then (get_u64 image nsOffRoot1, commit1)
    else (get_u64 image nsOffRoot0, commit0) in
  let pageCount := get_u64 image nsOffPageCount in
  reject len image / nsPageSize <? pageCount as NsPageCount ;;
  Ok (mkHeader root commitID (image !!! nsOffFlags) pageCount).

Section Walk.
Context (image : list Z) (descSize : nat) (order : Z) (pageCount : Z).

Record node : Type := mkNode { n_page : Z; n_leaf : bool; n_count : nat; n_base : nat }.

(** The pages met so far and the entries collected. *)
Definition walk_state : Type := gset Z * list nsEntry.

Definition read_node (seen : gset Z) (page : Z) : result snap_err (node * gset Z) :=
  reject page =? 0 as NsPageZero ;;
  reject pageCount <=? page as NsPageRange page ;;
  reject bool_decide (page ∈ seen) as NsPageTwice page ;;
  let seen := {[page]} ∪ seen in
  let nbase := base (Z.to_nat page) in
  let kind := image !!! nbase in
  let! leaf :=
    if kind =? nsKindLeaf then Ok true
    else if kind =? nsKindInternal then Ok false
    else Err (NsNodeKind kind) in
  let count := get_u16 image (nbase + 2) in
  reject order <? count as NsTooManyKeys count ;;
  let '(width, extra) := if leaf then (Z.of_nat descSize, 0) else (8, 8) in
  reject nsPageSize <? nsNodeHeaderBytes + count * 8 + count * width + extra as NsPayload ;;
  Ok (mkNode page leaf (Z.to_nat count) nbase, seen).

Definition node_key (n : node) (i : nat) : Z := get_u64 image (n_base n + nhdr + i * 8).

(** [for i := 1; i < n.count; i++]: the keys of a node ascend. *)
Definition check_keys (n : node) : result snap_err unit :=
  each (fun i => reject node_key n i <=? node_key n (i - 1) as NsKeyOrder ;; Ok tt)
       (seq 1 (n_count n - 1)).

Definition collect_leaf (n : node) (out : list nsEntry) : result snap_err (list nsEntry) :=
  let descBase := (n_base n + nhdr + n_count n * 8)%nat in
  foldm (fun out i =>
      let k := node_key n i in
      reject match last out with Some e => k <=? key e | None => false end as NsLeafOrder ;;
      Ok (out ++ [mkEntry k (sub image (descBase + i * descSize) descSize)]))
    out (seq 0 (n_count n)).

(** [walk(page, depth)]; [fuel] is [nsMaxDepth + 1 - depth], so it runs out
    exactly where the source refuses the depth. *)
Fixpoint walk (fuel : nat) (page : Z) (st : walk_state) : result snap_err walk_state :=
  match fuel with
  | O => Err NsTooDeep
  | S fuel =>
      let '(seen, out) := st in
      let! (n, seen) := read_node seen page in
      let! _ := check_keys n in
      if n_leaf n then
        let! out := collect_leaf n out in Ok (seen, out)
      else
        let childBase := (n_base n + nhdr + n_count n * 8)%nat in
        foldm (fun st i => walk fuel (get_u64 image (childBase + i * 8)) st)
              (seen, out) (seq 0 (n_count n + 1))
  end.
End Walk.

Definition nsCollect (image : list Z) (descSize : Z) : result snap_err (list nsEntry) :=
  let! h := nsReadHeader image in
  if h_root h =? 0 then Ok []
  else
    let! (_, out) := walk image (Z.to_nat descSize) (nsOrder descSize) (h_pageCount h)
                          nsMaxDepth (h_root h) (∅, []) in
    Ok out.

(** ** Pages as written *)
Lemma nsPageSize_val : nsPageSize = 4096.
Proof. done. Qed.
Lemma nhdr_val : nhdr = 8%nat.
Proof. done. Qed.
#[local] Opaque nsPageSize nsNodeHeaderBytes.

Lemma npage_val : Z.of_nat npage = nsPageSize.
Proof. rewrite Z2Nat.id; [done|]. rewrite nsPageSize_val. lia. Qed.

(** Writing an array of [k]-byte fields over bytes of the same extent. *)
Lemma write_array {A} (f : A -> list Z) k off xs :
  Forall (fun x => length (f x) = k) xs -> forall j pre old post,
  length pre = (off + j * k)%nat -> length old = (length xs * k)%nat ->
  foldl (fun img ix => put img (off + ix.1 * k) (f ix.2)) (pre ++ old ++ post)
        (zip (seq j (length xs)) xs)
  = pre ++ concat (f <$> xs) ++ post.
Proof.
  induction 1 as [|x xs Hx _ IH]; intros j pre old post Hpre Hold.
  - cbn in Hold. apply nil_length_inv in Hold as ->. done.
  - cbn [length seq zip zip_with foldl fst snd]. cbn [length] in Hold.
    destruct (cut_at old 0 k) as (a & m & c & -> & Ha & Hm); [lia|].
    apply nil_length_inv in Ha as ->. cbn [app] in *. rewrite length_app in Hold.
    rewrite <-(app_assoc m), put_exact by lia.
    rewrite (app_assoc pre (f x)).
    rewrite (IH (S j) (pre ++ f x) c post); [|rewrite length_app; lia|lia].
    rewrite fmap_cons. cbn [concat]. by rewrite <-!app_assoc.
Qed.

(** The interleaved writes of [writeLeaf]: keys in one array, descriptors in
    the one behind it. *)
Lemma write_two_arrays (D koff doff : nat) es :
  Forall (fun e => length (desc e) = D) es -> forall j pre oldk mid oldd post,
  length pre = (koff + j * 8)%nat -> length oldk = (length es * 8)%nat ->
  length (pre ++ oldk ++ mid) = (doff + j * D)%nat -> length oldd = (length es * D)%nat ->
  foldl (fun img ie =>
      let '(i, e) := ie in
      let img := put img (koff + i * 8) (le_enc 8 (key e)) in
      put img (doff + i * D) (desc e))
    (pre ++ oldk ++ mid ++ oldd ++ post) (zip (seq j (length es)) es)
  = pre ++ concat ((fun e => le_enc 8 (key e)) <$> es) ++ mid ++ concat (desc <$> es) ++ post.
Proof.
  induction 1 as [|e es He _ IH]; intros j pre oldk mid oldd post Hpre Hk Hmid Hd.
  - cbn in Hk, Hd. apply nil_length_inv in Hk as ->. apply nil_length_inv in Hd as ->. done.
  - cbn [length seq zip zip_with foldl]. cbn [length] in Hk, Hd.
    destruct (cut_at oldk 0 8) as (a & m & c & -> & Ha & Hm); [lia|].
    apply nil_length_inv in Ha as ->. cbn [app] in *.
    destruct (cut_at oldd 0 D) as (a' & m' & c' & -> & Ha' & Hm'); [lia|].
    apply nil_length_inv in Ha' as ->. cbn [app] in *. rewrite !length_app in *.
    rewrite <-(app_assoc m), put_exact by (rewrite ?length_le_enc; lia).
    replace (pre ++ le_enc 8 (key e) ++ c ++ mid ++ (m' ++ c') ++ post)
      with ((pre ++ le_enc 8 (key e) ++ c ++ mid) ++ m' ++ c' ++ post) by (by rewrite <-!app_assoc).
    rewrite put_exact by (rewrite ?length_app, ?length_le_enc; lia).
    replace ((pre ++ le_enc 8 (key e) ++ c ++ mid) ++ desc e ++ c' ++ post)
      with ((pre ++ le_enc 8 (key e)) ++ c ++ (mid ++ desc e) ++ c' ++ post) by (by rewrite <-!app_assoc).
    rewrite (IH (S j)); [|rewrite ?length_app, ?length_le_enc; lia..].
    rewrite !fmap_cons. cbn [concat]. by rewrite <-!app_assoc.
Qed.

Definition node_header (leaf : bool) (count : nat) : list Z :=
  [if leaf then nsKindLeaf else nsKindInternal; 0] ++ le_enc 2 (u16 (Z.of_nat count)) ++ zeros 4.

Definition leaf_page (D : nat) (es : list nsEntry) : list Z :=
  node_header true (length es) ++ concat ((fun e => le_enc 8 (key e)) <$> es) ++
  concat (desc <$> es) ++ zeros (npage - 8 - length es * 8 - length es * D).

Definition internal_page (keys children : list Z) : list Z :=
  node_header false (length keys) ++ concat (le_enc 8 <$> keys) ++ concat (le_enc 8 <$> children) ++
  zeros (npage - 8 - length keys * 8 - length children * 8).

Lemma length_node_header l n : length (node_header l n) = 8%nat.
Proof. done. Qed.

Lemma write_header_page img page leaf count :
  length img = base page ->
  writeNodeHeader (img ++ zeros npage) page leaf count
  = img ++ node_header leaf count ++ zeros (npage - 8).
Proof.
  intros Hl. unfold writeNodeHeader. fold (node_header leaf count). rewrite <-Hl.
  assert (8 <= npage)%nat by (rewrite <-Nat2Z.id, npage_val, nsPageSize_val; lia).
  replace npage with (8 + (npage - 8))%nat at 1 by lia. rewrite zeros_app.
  by rewrite put_exact by (rewrite ?length_zeros; done).
Qed.

Lemma length_concat_const {A} (f : A -> list Z) k xs :
  Forall (fun x => length (f x) = k) xs -> length (concat (f <$> xs)) = (length xs * k)%nat.
Proof.
  induction 1 as [|x xs Hx _ IH]; [done|]. rewrite fmap_cons. cbn [concat length].
  rewrite length_app. lia.
Qed.

Lemma writeLeaf_page img n D es :
  length img = base n -> Forall (fun e => length (desc e) = D) es ->
  (8 + length es * 8 + length es * D <= npage)%nat ->
  writeLeaf (mkBuilder (img ++ zeros npage) (n + 1) D) n es
  = mkBuilder (img ++ leaf_page D es) (n + 1) D.
Proof.
  intros Hl Hd Hfit. unfold writeLeaf, with_image. cbn [image next descSize]. f_equal.
  rewrite write_header_page by done. rewrite nhdr_val, <-Hl. unfold indexed, leaf_page.
  set (z := (npage - 8 - length es * 8 - length es * D)%nat).
  replace (npage - 8)%nat with (length es * 8 + (length es * D + z))%nat by lia.
  rewrite !zeros_app.
  pose proof (write_two_arrays D (length img + 8) (length img + 8 + length es * 8) es Hd 0
    (img ++ node_header true (length es)) (zeros (length es * 8)) [] (zeros (length es * D))
    (zeros z)) as W.
  cbn [app] in W. rewrite <-!app_assoc in W. apply W; rewrite ?length_app, ?length_zeros, ?length_node_header; cbn [length]; lia.
Qed.

Lemma writeInternal_page img n D keys children :
  length img = base n -> (8 + length keys * 8 + length children * 8 <= npage)%nat ->
  writeInternal (mkBuilder (img ++ zeros npage) (n + 1) D) n keys children
  = mkBuilder (img ++ internal_page keys children) (n + 1) D.
Proof.
  intros Hl Hfit. unfold writeInternal, with_image. cbn [image next descSize]. f_equal.
  rewrite write_header_page by done. rewrite nhdr_val, <-Hl. unfold indexed, internal_page.
  set (k := length keys) in *. set (c := length children) in *.
  set (z := (npage - 8 - k * 8 - c * 8)%nat).
  replace (npage - 8)%nat with (k * 8 + (c * 8 + z))%nat by lia.
  rewrite !zeros_app.
  assert (forall xs : list Z, Forall (fun x => length (le_enc 8 x) = 8%nat) xs) as He
    by (intros; apply Forall_forall; intros; apply length_le_enc).
  rewrite (app_assoc img).
  rewrite (write_array (le_enc 8) 8 (length img + 8) keys (He keys) 0);
    [|rewrite length_app, length_node_header; lia|by rewrite length_zeros].
  rewrite (app_assoc (img ++ _)).
  rewrite (write_array (le_enc 8) 8 (length img + 8 + k * 8) children (He children) 0);
    [|rewrite !length_app, length_node_header, (length_concat_const _ 8) by done; fold k; lia|by rewrite length_zeros].
  by rewrite <-!app_assoc.
Qed.

(** ** Pages as read *)
Lemma sub_array {A} (f : A -> list Z) k off pre xs post i x :
  Forall (fun x => length (f x) = k) xs -> length pre = off -> xs !! i = Some x ->
  sub (pre ++ concat (f <$> xs) ++ post) (off + i * k) k = f x.
Proof.
  intros Hf Hp Hi. subst off. rewrite sub_app_skip.
  revert i Hi. induction Hf as [|y xs Hy _ IH]; intros i Hi; [done|].
  rewrite fmap_cons. cbn [concat]. rewrite <-app_assoc. destruct i as [|i].
  - injection Hi as ->. rewrite sub_app_l by (rewrite Hy; lia). by apply sub_all.
  - replace (S i * k)%nat with (length (f y) + i * k)%nat by lia. rewrite sub_app_skip. by apply IH.
Qed.

(** Page [p] of the image holds these bytes. *)
Definition page_is (img : list Z) (p : nat) (bytes : list Z) : Prop :=
  sub img (base p) npage = bytes /\ (base p + npage <= length img)%nat.

Lemma page_is_sub img p bytes o k :
  page_is img p bytes -> (o + k <= npage)%nat -> sub img (base p + o) k = sub bytes o k.
Proof. intros [<- _] Ho. by rewrite sub_sub. Qed.

Lemma sub1_total (l : list Z) i : (i < length l)%nat -> sub l i 1 = [l !!! i].
Proof.
  intros Hi. unfold sub. destruct (lookup_lt_is_Some_2 _ _ Hi) as [x Hx].
  rewrite (drop_S _ _ _ Hx). cbn [take]. rewrite take_0. by rewrite (list_lookup_total_correct _ _ _ Hx).
Qed.

(** The header of a node page. *)
Definition starts_with (bytes hdr : list Z) : Prop := exists rest, bytes = hdr ++ rest.

Lemma read_kind img p leaf n bytes :
  page_is img p bytes -> starts_with bytes (node_header leaf n) ->
  img !!! base p = if leaf then nsKindLeaf else nsKindInternal.
Proof.
  intros Hp [rest ->].
  assert (1 <= npage)%nat by (rewrite <-Nat2Z.id, npage_val, nsPageSize_val; lia).
  pose proof (page_is_sub img p _ 0 1 Hp ltac:(lia)) as E. rewrite Nat.add_0_r in E.
  rewrite sub1_total in E by (destruct Hp; lia). by injection E as ->.
Qed.

Lemma read_count img p leaf n bytes :
  page_is img p bytes -> starts_with bytes (node_header leaf n) -> Z.of_nat n < 2 ^ 16 ->
  get_u16 img (base p + 2) = Z.of_nat n.
Proof.
  intros Hp [rest ->] Hn.
  assert (4 <= npage)%nat by (rewrite <-Nat2Z.id, npage_val, nsPageSize_val; lia).
  unfold get_u16. rewrite (page_is_sub img p _ 2 2 Hp) by lia.
  change (sub (node_header leaf n ++ rest) 2 2) with (le_enc 2 (u16 (Z.of_nat n))).
  rewrite le_dec_enc_small; [by apply wrapu_small; unfold in_u; lia|].
  apply (wrapu_range 16). lia.
Qed.

(** ** Trees

    [stored img D order d p es ps]: page [p] is the root of a tree of height
    [d] that holds the entries [es], in order, and occupies the pages [ps]. *)
Definition first_key (es : list nsEntry) : Z :=
  match es with e :: _ => key e | [] => 0 end.

Record kid : Type := mkKid { k_page : nat; k_entries : list nsEntry; k_pages : list nat }.

Definition separators (ks : list kid) : list Z := (fun k => first_key (k_entries k)) <$> tail ks.
Definition pointers (ks : list kid) : list Z := (fun k => Z.of_nat (k_page k)) <$> ks.

Fixpoint stored (img : list Z) (D order d p : nat) (es : list nsEntry) (ps : list nat) : Prop :=
  match d with
  | O => page_is img p (leaf_page D es) /\ (0 < length es <= order)%nat /\
         Forall (fun e => length (desc e) = D) es /\ ps = [p]
  | S d =>
      exists ks, page_is img p (internal_page (separators ks) (pointers ks)) /\
        (0 < length ks <= order + 1)%nat /\
        es = concat (k_entries <$> ks) /\ ps = p :: concat (k_pages <$> ks) /\
        Forall (fun k => stored img D order d (k_page k) (k_entries k) (k_pages k)) ks
  end.

(** What the page layout needs of the fanout and the descriptor width. *)
Definition fits (order D : nat) : Prop :=
  (8 + order * 8 + order * D <= npage)%nat /\ (8 + order * 8 + (order + 1) * 8 <= npage)%nat /\
  Z.of_nat order < 2 ^ 16.

(** Entries with ascending 64-bit keys. *)
Definition ascending (es : list nsEntry) : Prop := StronglySorted Z.lt (key <$> es).
Definition keys_ok (es : list nsEntry) : Prop := Forall (fun e => in_u 64 (key e)) es.

Lemma stored_nonempty img D order d : forall p es ps, stored img D order d p es ps -> es <> [].
Proof.
  induction d as [|d IH]; intros p es ps; cbn [stored].
  - intros (_ & Hl & _) ->. cbn in Hl. lia.
  - intros (ks & _ & Hl & -> & _ & Hf). destruct ks as [|k ks]; [cbn in Hl; lia|].
    apply Forall_cons in Hf as [Hk _]. apply IH in Hk. rewrite fmap_cons. cbn [concat].
    by destruct (k_entries k).
Qed.

Lemma page_is_app img more p bytes : page_is img p bytes -> page_is (img ++ more) p bytes.
Proof.
  intros [<- Hl]. split; [by rewrite sub_app_l|]. rewrite length_app. lia.
Qed.

Lemma stored_app img more D order d : forall p es ps,
  stored img D order d p es ps -> stored (img ++ more) D order d p es ps.
Proof.
  induction d as [|d IH]; intros p es ps; cbn [stored].
  - intros (? & ? & ?). split; [by apply page_is_app|done].
  - intros (ks & Hp & Hl & He & Hps & Hf). exists ks. split; [by apply page_is_app|]. split_and!; try done; try lia.
    eapply Forall_impl; [exact Hf|]. intros k. apply IH.
Qed.

(** ** The walk of a stored tree *)
Lemma ascending_lookup (l : list Z) i j x y :
  StronglySorted Z.lt l -> l !! i = Some x -> l !! j = Some y -> (i < j)%nat -> x < y.
Proof.
  intros Hs. revert i j. induction Hs as [|z l Hs IH Hz]; intros i j Hi Hj Hij; [done|].
  destruct j as [|j]; [lia|]. cbn in Hj. destruct i as [|i].
  - injection Hi as ->. by eapply Forall_lookup_1 in Hz.
  - cbn in Hi. apply (IH i j); [done|done|lia].
Qed.

Lemma elem_of_concat {A} (x : A) ls : x ∈ concat ls <-> exists l, l ∈ ls /\ x ∈ l.
Proof.
  rewrite list_elem_of_In, in_concat. by setoid_rewrite list_elem_of_In.
Qed.

Lemma stored_root img D order d p es ps : stored img D order d p es ps -> p ∈ ps.
Proof. destruct d; [intros (_ & _ & _ & ->)|intros (ks & _ & _ & _ & -> & _)]; left. Qed.

Section WalkTree.
Context (img : list Z) (D order : nat) (pageCount : Z) (Hfits : fits order D).
Context (Hpc : pageCount < 2 ^ 64).

Notation nread := (read_node img D (Z.of_nat order) pageCount).
Notation nwalk := (walk img D (Z.of_nat order) pageCount).

Lemma read_node_ok seen p leaf n bytes :
  page_is img p bytes -> starts_with bytes (node_header leaf n) ->
  0 < Z.of_nat p < pageCount -> Z.of_nat p ∉ seen -> (n <= order)%nat ->
  nread seen (Z.of_nat p) = Ok (mkNode (Z.of_nat p) leaf n (base p), {[Z.of_nat p]} ∪ seen).
Proof.
  intros Hp Hh Hr Hs Hn. destruct Hfits as (F1 & F2 & F3). unfold read_node. rewrite Nat2Z.id.
  destruct (Z.eqb_spec (Z.of_nat p) 0); [lia|].
  destruct (Z.leb_spec pageCount (Z.of_nat p)); [lia|].
  rewrite bool_decide_false by done.
  rewrite (read_kind img p leaf n bytes Hp Hh), (read_count img p leaf n bytes Hp Hh) by lia.
  assert ((order * D <= npage)%nat) by lia.
  assert (Z.of_nat (order * D) <= nsPageSize) by (rewrite <-npage_val; lia).
  assert (Z.of_nat 8 + Z.of_nat order * 8 + Z.of_nat order * Z.of_nat D <= nsPageSize)
    by (rewrite <-npage_val; lia).
  assert (Z.of_nat 8 + Z.of_nat order * 8 + Z.of_nat order * 8 + 8 <= nsPageSize)
    by (rewrite <-npage_val; lia).
  assert (nsNodeHeaderBytes = 8) as -> by done.
  destruct leaf; cbn [Z.eqb nsKindLeaf nsKindInternal Pos.eqb].
  - destruct (Z.ltb_spec (Z.of_nat order) (Z.of_nat n)); [lia|].
    destruct (Z.ltb_spec nsPageSize (8 + Z.of_nat n * 8 + Z.of_nat n * Z.of_nat D + 0)); [nia|].
    by rewrite Nat2Z.id.
  - destruct (Z.ltb_spec (Z.of_nat order) (Z.of_nat n)); [lia|].
    destruct (Z.ltb_spec nsPageSize (8 + Z.of_nat n * 8 + Z.of_nat n * 8 + 8)); [nia|].
    by rewrite Nat2Z.id.
Qed.

(** The keys of either kind of node are read back. *)
Lemma node_key_ok p leaf keys mid n :
  page_is img p (node_header leaf n ++ concat (le_enc 8 <$> keys) ++ mid) ->
  Forall (in_u 64) keys -> (8 + length keys * 8 <= npage)%nat ->
  forall i k pg m, keys !! i = Some k -> node_key img (mkNode pg leaf m (base p)) i = k.
Proof.
  intros Hp Hk Hfit i k pg m Hi. unfold node_key, get_u64. cbn [n_base].
  rewrite nhdr_val, <-Nat.add_assoc. pose proof (lookup_lt_Some _ _ _ Hi).
  rewrite (page_is_sub img p _ _ _ Hp) by lia.
  rewrite (sub_array (le_enc 8) 8 8 _ keys _ i k); [|by apply Forall_true; intros; apply length_le_enc|done|done].
  rewrite le_dec_enc_small; [done|]. exact (Forall_lookup_1 _ _ _ _ Hk Hi).
Qed.

Lemma check_keys_ok keys n :
  (forall i k, keys !! i = Some k -> node_key img n i = k) -> n_count n = length keys ->
  StronglySorted Z.lt keys -> check_keys img n = Ok tt.
Proof.
  intros Hk Hn Hs. unfold check_keys. apply each_Forall, Forall_forall.
  intros i [Hi1 Hi2]%elem_of_seq. rewrite Hn in Hi2.
  destruct (lookup_lt_is_Some_2 keys i) as [x Hx]; [lia|].
  destruct (lookup_lt_is_Some_2 keys (i - 1)) as [y Hy]; [lia|].
  rewrite (Hk _ _ Hx), (Hk _ _ Hy).
  assert (y < x) by (eapply (ascending_lookup keys (i - 1) i); [done..|lia]).
  destruct (Z.leb_spec x y); [lia|done].
Qed.

Lemma ascending_app_inv out es : ascending (out ++ es) -> ascending out /\ ascending es.
Proof.
  unfold ascending. rewrite fmap_app. intros H. split.
  - by eapply StronglySorted_app_1_l.
  - by eapply StronglySorted_app_1_r.
Qed.

Lemma last_lt out e rest x : ascending (out ++ e :: rest) -> last out = Some x -> key x < key e.
Proof.
  unfold ascending. rewrite fmap_app. intros H Hl.
  apply last_Some in Hl as [out' ->].
  eapply StronglySorted_app_1_elem_of; [exact H| |rewrite fmap_cons; left].
  rewrite fmap_app. apply elem_of_app. right. rewrite fmap_cons. left.
Qed.

Lemma collect_leaf_ok p es n out :
  page_is img p (leaf_page D es) -> Forall (fun e => length (desc e) = D) es -> keys_ok es ->
  (length es <= order)%nat -> n_base n = base p -> n_count n = length es ->
  (forall i e, es !! i = Some e -> node_key img n i = key e) -> ascending (out ++ es) ->
  collect_leaf img D n out = Ok (out ++ es).
Proof.
  intros Hp Hd Hko Hlen Hb Hc Hk Hasc. unfold collect_leaf. rewrite Hb, Hc, nhdr_val.
  destruct Hfits as (F1 & _ & _).
  assert (forall k j, (j + k = length es)%nat ->
    foldm (fun out i => reject match last out with Some e => node_key img n i <=? key e | None => false end as NsLeafOrder ;;
      Ok (out ++ [mkEntry (node_key img n i) (sub img (base p + 8 + length es * 8 + i * D) D)]))
      (out ++ take j es) (seq j k) = Ok (out ++ es)) as H.
  2: { rewrite <-(H (length es) 0%nat) by lia. by rewrite take_0, app_nil_r. }
  induction k as [|k IH]; intros j Hj; cbn [seq foldm].
  { by rewrite firstn_all2 by lia. }
  destruct (lookup_lt_is_Some_2 es j) as [e He]; [lia|].
  rewrite (Hk _ _ He).
  assert (sub img (base p + 8 + length es * 8 + j * D) D = desc e) as ->.
  { rewrite <-!Nat.add_assoc. assert (length es * D <= order * D)%nat by nia.
    assert (j * D + D <= length es * D)%nat by nia.
    rewrite (page_is_sub img p _ _ _ Hp) by nia.
    unfold leaf_page. rewrite app_assoc, Nat.add_assoc.
    apply (sub_array desc D); [done| |done].
    rewrite length_app, length_node_header, (length_concat_const _ 8); [done|].
    apply Forall_true. intros. apply length_le_enc. }
  assert (match last (out ++ take j es) with Some x => key e <=? key x | None => false end = false) as ->.
  { destruct (last (out ++ take j es)) as [x|] eqn:El; [|done].
    rewrite <-(take_drop_middle _ _ _ He), app_assoc in Hasc.
    pose proof (last_lt _ _ _ _ Hasc El). destruct (Z.leb_spec (key e) (key x)); [lia|done]. }
  replace (mkEntry (key e) (desc e)) with e by (by destruct e).
  rewrite <-app_assoc, <-(take_S_r _ _ _ He). apply IH. lia.
Qed.
Lemma first_key_elem es : es <> [] -> first_key es ∈ key <$> es.
Proof. destruct es; [done|]. intros _. rewrite fmap_cons. left. Qed.

Lemma first_keys_sorted (ess : list (list nsEntry)) :
  Forall (fun es => es <> []) ess -> ascending (concat ess) -> StronglySorted Z.lt (first_key <$> ess).
Proof.
  induction 1 as [|es ess Hne Hes IH]; intros Ha; [constructor|].
  rewrite fmap_cons. cbn [concat] in Ha. constructor.
  - apply IH. by apply ascending_app_inv in Ha as [_ ?].
  - apply Forall_forall. intros k Hk. apply list_elem_of_fmap in Hk as (es' & -> & Hin).
    unfold ascending in Ha. rewrite fmap_app in Ha.
    eapply StronglySorted_app_1_elem_of; [exact Ha|by apply first_key_elem|].
    rewrite Forall_forall in Hes. pose proof (first_key_elem es' (Hes _ Hin)) as Hk.
    apply list_elem_of_fmap in Hk as (e & Hke & He). rewrite Hke.
    apply list_elem_of_fmap. exists e. split; [done|].
    apply elem_of_concat. eauto.
Qed.

(** The pages met after the walk of a tree that occupies [ps]. *)
Definition marks (seen seen' : gset Z) (ps : list nat) : Prop :=
  forall z, z ∈ seen' <-> z ∈ seen \/ exists q, q ∈ ps /\ z = Z.of_nat q.

Lemma marks_nil seen : marks seen seen [].
Proof. intros z. split; [by left|]. intros [?|(q & Hq & _)]; [done|]. by apply not_elem_of_nil in Hq. Qed.

Lemma marks_app s s1 s2 a b : marks s s1 a -> marks s1 s2 b -> marks s s2 (a ++ b).
Proof.
  intros M1 M2 z. rewrite (M2 z), (M1 z). setoid_rewrite elem_of_app. split.
  - intros [[?|(q & ? & ?)]|(q & ? & ?)]; eauto.
  - intros [?|(q & [?|?] & ?)]; eauto.
Qed.

Lemma marks_cons p seen s ps : marks ({[Z.of_nat p]} ∪ seen) s ps -> marks seen s (p :: ps).
Proof.
  intros M z. rewrite (M z), elem_of_union, elem_of_singleton. setoid_rewrite elem_of_cons. split.
  - intros [[?|?]|(q & ? & ?)]; eauto.
  - intros [?|(q & [->|?] & ?)]; eauto.
Qed.

Definition walks (d : nat) : Prop := forall fuel p es ps seen out,
  (d < fuel)%nat -> stored img D order d p es ps ->
  Forall (fun q => 0 < Z.of_nat q < pageCount) ps -> NoDup ps ->
  (forall q, q ∈ ps -> Z.of_nat q ∉ seen) -> ascending (out ++ es) -> keys_ok es ->
  exists seen', nwalk fuel (Z.of_nat p) (seen, out) = Ok (seen', out ++ es) /\ marks seen seen' ps.

(** The loop over the children of a node. *)
Lemma walk_kids d fuel ks : walks d -> (d < fuel)%nat ->
  Forall (fun k => stored img D order d (k_page k) (k_entries k) (k_pages k)) ks ->
  forall (child : nat -> Z) j seen out,
  (forall i k, ks !! i = Some k -> child (j + i)%nat = Z.of_nat (k_page k)) ->
  Forall (fun q => 0 < Z.of_nat q < pageCount) (concat (k_pages <$> ks)) ->
  NoDup (concat (k_pages <$> ks)) ->
  (forall q, q ∈ concat (k_pages <$> ks) -> Z.of_nat q ∉ seen) ->
  ascending (out ++ concat (k_entries <$> ks)) -> keys_ok (concat (k_entries <$> ks)) ->
  exists seen', foldm (fun st i => nwalk fuel (child i) st) (seen, out) (seq j (length ks))
    = Ok (seen', out ++ concat (k_entries <$> ks)) /\ marks seen seen' (concat (k_pages <$> ks)).
Proof.
  intros Hw Hf. induction 1 as [|k ks Hk _ IH]; intros child j seen out Hc Hr Hnd Hds Ha Hko.
  - exists seen. cbn. rewrite app_nil_r. split; [done|]. apply marks_nil.
  - rewrite !fmap_cons in *. cbn [concat] in *.
    apply Forall_app in Hr as [Hr1 Hr2]. apply NoDup_app in Hnd as (Hn1 & Hn12 & Hn2).
    unfold keys_ok in Hko. apply Forall_app in Hko as [Hk1 Hk2].
    rewrite app_assoc in Ha. pose proof (ascending_app_inv _ _ Ha) as [Ha1 _].
    destruct (Hw fuel (k_page k) (k_entries k) (k_pages k) seen out) as (seen1 & E1 & M1); try done.
    { intros q Hq. apply Hds, elem_of_app. by left. }
    destruct (IH child (S j) seen1 (out ++ k_entries k)) as (seen2 & E2 & M2); try done.
    { intros i k' Hi. rewrite <-(Hc (S i) k' Hi). f_equal. lia. }
    { intros q Hq [Hs|(q' & Hq' & Hqq)]%M1.
      - apply (Hds q); [apply elem_of_app; by right|done].
      - apply Nat2Z.inj in Hqq as ->. by apply (Hn12 q'). }
    exists seen2. cbn [length seq foldm].
    pose proof (Hc 0%nat k eq_refl) as Hc0. rewrite Nat.add_0_r in Hc0. rewrite Hc0, E1, E2.
    rewrite <-app_assoc. split; [done|]. by eapply marks_app.
Qed.

Lemma walk_stored d : walks d.
Proof.
  induction d as [|d IHd]; intros fuel p es ps seen out Hf Hst Hr Hnd Hds Ha Hko;
    (destruct fuel as [|fuel]; [lia|]); cbn [walk stored] in *.
  - destruct Hst as (Hp & [Hl0 Hl] & Hd & ->). apply Forall_cons in Hr as [Hr _].
    rewrite (read_node_ok seen p true (length es) (leaf_page D es)) by
      (done || (by eexists) || (apply Hds; by left)).
    pose proof Hfits as (F1 & _ & _).
    assert (forall i e, es !! i = Some e ->
      node_key img (mkNode (Z.of_nat p) true (length es) (base p)) i = key e) as Hkey.
    { intros i e Hi.
      apply (node_key_ok p true (key <$> es) (concat (desc <$> es) ++ zeros (npage - 8 - length es * 8 - length es * D)) (length es)).
      - rewrite <-list_fmap_compose. exact Hp.
      - by apply Forall_fmap.
      - rewrite length_fmap. nia.
      - by rewrite list_lookup_fmap, Hi. }
    rewrite (check_keys_ok (key <$> es)); [| |by rewrite length_fmap|by apply ascending_app_inv in Ha as [_ ?]].
    2: { intros i k. rewrite list_lookup_fmap. destruct (es !! i) as [e|] eqn:He; [|done].
         intros [= <-]. by apply Hkey. }
    cbn [n_leaf]. rewrite (collect_leaf_ok p es _ out); try done.
    eexists. split; [reflexivity|]. apply marks_cons, marks_nil.
  - destruct Hst as (ks & Hp & [Hl0 Hl] & -> & -> & Hks).
    apply Forall_cons in Hr as [Hrp Hr]. apply NoDup_cons in Hnd as [Hpn Hnd].
    assert (length (separators ks) = length ks - 1)%nat as Hls
      by (unfold separators; rewrite length_fmap; destruct ks; cbn; lia).
    rewrite (read_node_ok seen p false (length (separators ks)) (internal_page (separators ks) (pointers ks)))
      by (done || lia || (by eexists) || (apply Hds; by left)).
    pose proof Hfits as (_ & F2 & _).
    assert (Forall (fun es => es <> []) (k_entries <$> ks)) as Hne.
    { apply Forall_fmap. eapply Forall_impl; [exact Hks|]. intros k Hk. exact (stored_nonempty _ _ _ _ _ _ _ Hk). }
    pose proof (ascending_app_inv _ _ Ha) as [_ Ha2].
    pose proof (first_keys_sorted _ Hne Ha2) as Hsort.
    assert (StronglySorted Z.lt (separators ks)) as Hsep.
    { unfold separators. destruct ks as [|k ks]; [constructor|]. cbn [tail].
      rewrite !fmap_cons, <-list_fmap_compose in Hsort. by apply StronglySorted_inv in Hsort as [? _]. }
    assert (Forall (in_u 64) (separators ks)) as Hsu.
    { unfold separators. apply Forall_fmap, Forall_forall. intros k Hk.
      assert (k ∈ ks) as Hk' by (destruct ks; [by apply not_elem_of_nil in Hk|by right]).
      rewrite Forall_forall in Hks. pose proof (stored_nonempty _ _ _ _ _ _ _ (Hks k Hk')) as Hke.
      pose proof (first_key_elem _ Hke) as Hfk. apply list_elem_of_fmap in Hfk as (e & Hfe & He).
      unfold compose. rewrite Hfe. unfold keys_ok in Hko. rewrite Forall_forall in Hko. apply Hko.
      apply elem_of_concat. exists (k_entries k). split; [by apply list_elem_of_fmap_2|done]. }
    rewrite (check_keys_ok (separators ks)); [| |done|done].
    2: { intros i k. eapply node_key_ok; [exact Hp|done|lia]. }
    cbn [n_leaf n_count n_base]. rewrite nhdr_val, Hls.
    replace (length ks - 1 + 1)%nat with (length ks) by lia.
    destruct (walk_kids d fuel ks IHd ltac:(lia) Hks
      (fun i => get_u64 img (base p + 8 + (length ks - 1) * 8 + i * 8)) 0 ({[Z.of_nat p]} ∪ seen) out)
      as (seen' & E & M); try done.
    { intros i k Hi. pose proof (lookup_lt_Some _ _ _ Hi). cbn [Nat.add]. unfold get_u64.
      rewrite <-!Nat.add_assoc, (page_is_sub img p _ _ _ Hp) by lia.
      unfold internal_page. rewrite app_assoc, Nat.add_assoc.
      rewrite (sub_array (le_enc 8) 8 _ _ (pointers ks) _ i (Z.of_nat (k_page k))).
      - rewrite le_dec_enc_small; [done|].
        assert (k_page k ∈ concat (k_pages <$> ks)) as Hin.
        { apply elem_of_concat. exists (k_pages k). pose proof (list_elem_of_lookup_2 _ _ _ Hi) as Hk.
          split; [by apply list_elem_of_fmap_2|]. rewrite Forall_forall in Hks.
          eapply stored_root. by apply Hks. }
        rewrite Forall_forall in Hr. specialize (Hr _ Hin).
        change (256 ^ Z.of_nat 8) with (2 ^ 64). lia.
      - apply Forall_true. intros. apply length_le_enc.
      - rewrite length_app, length_node_header, (length_concat_const _ 8), Hls; [done|].
        apply Forall_true. intros. apply length_le_enc.
      - unfold pointers. by rewrite list_lookup_fmap, Hi. }
    { intros q Hq. rewrite elem_of_union, elem_of_singleton. intros [->%Nat2Z.inj|Hs]; [done|].
      apply (Hds q); [by right|done]. }
    exists seen'. split; [exact E|]. by apply marks_cons.
Qed.
End WalkTree.

(** ** The loader builds a stored tree *)
Lemma length_leaf_page D es :
  Forall (fun e => length (desc e) = D) es -> (8 + length es * 8 + length es * D <= npage)%nat ->
  length (leaf_page D es) = npage.
Proof.
  intros Hd Hfit. unfold leaf_page.
  rewrite !length_app, length_node_header, length_zeros, (length_concat_const desc D) by done.
  rewrite (length_concat_const _ 8) by (apply Forall_true; intros; apply length_le_enc). lia.
Qed.

Lemma length_internal_page keys children :
  (8 + length keys * 8 + length children * 8 <= npage)%nat ->
  length (internal_page keys children) = npage.
Proof.
  intros Hfit. unfold internal_page.
  rewrite !length_app, length_node_header, length_zeros.
  rewrite !(length_concat_const _ 8) by (apply Forall_true; intros; apply length_le_enc). lia.
Qed.

Definition builder_ok (D : nat) (b : nsBuilder) : Prop :=
  length (image b) = base (next b) /\ (1 <= next b)%nat /\ descSize b = D.

Lemma page_is_new img n bytes :
  length img = base n -> length bytes = npage -> page_is (img ++ bytes) n bytes.
Proof.
  intros Hl Hb. split; [|rewrite length_app; lia].
  rewrite <-Hl, <-(app_nil_r bytes) at 1. rewrite <-Hb at 1. apply sub_exact.
Qed.

Lemma base_S n : base (n + 1) = (base n + npage)%nat.
Proof. unfold base. lia. Qed.

(** A node of a level and the subtree it is the root of. *)
Definition level_node (img : list Z) (D order d : nat) (n : levelNode) (k : kid) : Prop :=
  page n = k_page k /\ minKey n = first_key (k_entries k) /\
  stored img D order d (k_page k) (k_entries k) (k_pages k).

Definition entries_of (ks : list kid) : list nsEntry := concat (k_entries <$> ks).
Definition pages_in (ks : list kid) : list nat := concat (k_pages <$> ks).

Lemma entries_of_app a b : entries_of (a ++ b) = entries_of a ++ entries_of b.
Proof. unfold entries_of. by rewrite fmap_app, concat_app. Qed.
Lemma pages_in_app a b : pages_in (a ++ b) = pages_in a ++ pages_in b.
Proof. unfold pages_in. by rewrite fmap_app, concat_app. Qed.

Lemma level_node_app img more D order d level ks :
  Forall2 (level_node img D order d) level ks -> Forall2 (level_node (img ++ more) D order d) level ks.
Proof.
  intros H. eapply Forall2_impl; [exact H|]. intros n k (? & ? & ?). split_and!; [done..|].
  by apply stored_app.
Qed.

(** The pages in use are distinct and all below the allocation cursor. *)
Definition fresh_below (lim : nat) (ps : list nat) : Prop :=
  NoDup ps /\ Forall (fun q => 1 <= q < lim)%nat ps.

Lemma fresh_below_insert lim a b :
  fresh_below lim (a ++ b) -> (1 <= lim)%nat -> fresh_below (lim + 1) (a ++ lim :: b).
Proof.
  intros [Hn Hf] Hl. split.
  - rewrite <-Permutation_middle. apply NoDup_cons. split; [|done].
    intros Hin. rewrite Forall_forall in Hf. specialize (Hf _ Hin). lia.
  - apply Forall_app in Hf as [Ha Hb]. apply Forall_app.
    split; [|apply Forall_cons; split; [lia|]]; (eapply Forall_impl; [eassumption|]); cbn; lia.
Qed.

Section Loader.
Context (D order : nat) (Hfits : fits order D) (Horder : (1 <= order)%nat).

Lemma load_leaves_ok fuel : forall entries b level ks,
  (length entries <= fuel)%nat -> builder_ok D b ->
  Forall (fun e => length (desc e) = D) entries ->
  Forall2 (level_node (image b) D order 0) level ks -> fresh_below (next b) (pages_in ks) ->
  exists b' level' ks', load_leaves fuel order b entries level = (b', level') /\
    builder_ok D b' /\ (exists more, image b' = image b ++ more) /\
    Forall2 (level_node (image b') D order 0) level' ks' /\ fresh_below (next b') (pages_in ks') /\
    entries_of ks' = entries_of ks ++ entries /\
    (length level' <= length level + length entries)%nat /\
    (entries <> [] -> level' <> []).
Proof.
  induction fuel as [|fuel IH]; intros entries b level ks Hfuel Hb Hd Hlev Hfr.
  { destruct entries; [|cbn in Hfuel; lia]. exists b, level, ks. rewrite app_nil_r. cbn.
    split_and!; try done; [exists []; by rewrite app_nil_r|lia]. }
  destruct entries as [|e es].
  { exists b, level, ks. rewrite app_nil_r. cbn.
    split_and!; try done; [exists []; by rewrite app_nil_r|lia]. }
  cbn [load_leaves]. set (entries := e :: es) in *. unfold alloc.
  destruct b as [img n ds]. destruct Hb as (Hbl & Hb1 & Hbd). cbn [image next descSize] in *. subst ds.
  assert (1 <= length (take order entries) <= order)%nat as Hrun
    by (rewrite length_take; unfold entries; cbn [length]; lia).
  pose proof Hfits as (F1 & _ & _).
  assert (8 + length (take order entries) * 8 + length (take order entries) * D <= npage)%nat as Hfit by nia.
  assert (Forall (fun e => length (desc e) = D) (take order entries)) as Hd' by by apply Forall_take.
  rewrite writeLeaf_page by done.
  set (k := mkKid n (take order entries) [n]).
  destruct (IH (drop order entries) (mkBuilder (img ++ leaf_page D (take order entries)) (n + 1) D)
    (level ++ [mkLevelNode n (key e)]) (ks ++ [k])) as (b' & level' & ks' & E & Hb' & [more Hm] & H2 & Hf' & He & Hlen & Hne).
  - rewrite length_drop. unfold entries in *. cbn [length] in *. lia.
  - split_and!; cbn [image next descSize]; [|lia|done]. by rewrite length_app, length_leaf_page, base_S, Hbl.
  - by apply Forall_drop.
  - cbn [image]. apply Forall2_app; [by apply level_node_app|]. apply Forall2_cons. split; [|done].
    split_and!; [done|by destruct order; [lia|]|].
    cbn [k k_page k_entries k_pages stored]. split_and!; try done; try lia.
    apply page_is_new; [done|]. by apply length_leaf_page.
  - cbn [next]. rewrite pages_in_app. unfold pages_in at 2. cbn.
    apply fresh_below_insert; [by rewrite app_nil_r|done].
  - cbn [image] in *. exists b', level', ks'. split_and!; try done.
    + exists (leaf_page D (take order entries) ++ more). by rewrite Hm, <-app_assoc.
    + rewrite He, entries_of_app. unfold entries_of at 2. cbn. rewrite app_nil_r, <-app_assoc.
      by rewrite take_drop.
    + rewrite length_app, length_drop in Hlen. cbn [length] in *.
      assert (1 <= length entries)%nat by (unfold entries; cbn; lia). lia.
    + intros _. destruct (drop order entries) eqn:Ed; [|by apply Hne].
      destruct fuel; cbn in E; injection E as _ <-; by destruct level.
Qed.
Lemma level_node_pages img d level ks :
  Forall2 (level_node img D order d) level ks ->
  (fun n => Z.of_nat (page n)) <$> level = pointers ks /\
  minKey <$> level = (fun k => first_key (k_entries k)) <$> ks /\ length level = length ks /\
  Forall (fun k => stored img D order d (k_page k) (k_entries k) (k_pages k)) ks.
Proof.
  unfold pointers. induction 1 as [|n k level ks (Hp & Hk & Hs) _ (IH1 & IH2 & IH3 & IH4)]; [done|].
  rewrite !fmap_cons, IH1, IH2, Hp, Hk. cbn [length]. rewrite IH3. split_and!; [done..|].
  by apply Forall_cons.
Qed.

Lemma load_parents_ok d fuel : forall level ks b parent pks,
  (length level <= fuel)%nat -> builder_ok D b ->
  Forall2 (level_node (image b) D order d) level ks ->
  Forall2 (level_node (image b) D order (S d)) parent pks ->
  fresh_below (next b) (pages_in pks ++ pages_in ks) ->
  exists b' parent' pks', load_parents fuel order b level parent = (b', parent') /\
    builder_ok D b' /\ (exists more, image b' = image b ++ more) /\
    Forall2 (level_node (image b') D order (S d)) parent' pks' /\
    fresh_below (next b') (pages_in pks') /\ entries_of pks' = entries_of pks ++ entries_of ks /\
    (length parent <= length parent')%nat /\
    ((length parent' - length parent) * (order + 1) < length level + (order + 1))%nat /\
    (level <> [] -> length parent < length parent')%nat.
Proof.
  induction fuel as [|fuel IH]; intros level ks b parent pks Hfuel Hb Hlev Hpar Hfr.
  { destruct level; [|cbn in Hfuel; lia]. apply Forall2_nil_inv_l in Hlev as ->.
    exists b, parent, pks. change (entries_of []) with (@nil nsEntry). change (pages_in []) with (@nil nat) in Hfr. cbn [load_parents length]. rewrite app_nil_r in *.
    split_and!; try done; [exists []; by rewrite app_nil_r|lia]. }
  destruct level as [|n level0].
  { apply Forall2_nil_inv_l in Hlev as ->.
    exists b, parent, pks. change (entries_of []) with (@nil nsEntry). change (pages_in []) with (@nil nat) in Hfr. cbn [load_parents length]. rewrite app_nil_r in *.
    split_and!; try done; [exists []; by rewrite app_nil_r|lia]. }
  cbn [load_parents]. set (level := n :: level0) in *. unfold alloc.
  destruct b as [img nx ds]. destruct Hb as (Hbl & Hb1 & Hbd). cbn [image next descSize] in *. subst ds.
  set (group := take (order + 1) level). set (kg := take (order + 1) ks).
  assert (Forall2 (level_node img D order d) group kg) as Hg by by apply Forall2_take.
  assert (Forall2 (level_node img D order d) (drop (order + 1) level) (drop (order + 1) ks)) as Hrest
    by by apply Forall2_drop.
  destruct (level_node_pages _ _ _ _ Hg) as (Hptr & Hmin & Hlen & Hst).
  assert (minKey <$> tail group = separators kg) as Hsep.
  { unfold separators. rewrite <-!fmap_tail || idtac.
    destruct group, kg; cbn in *; try done. by injection Hmin. }
  rewrite Hptr, Hsep.
  assert (1 <= length group <= order + 1)%nat as Hgl
    by (unfold group, level; rewrite length_take; cbn [length]; lia).
  assert (length (separators kg) = length kg - 1)%nat as Hsl
    by (unfold separators; rewrite length_fmap; destruct kg; cbn; lia).
  assert (length (pointers kg) = length kg)%nat as Hpl by (unfold pointers; apply length_fmap).
  pose proof Hfits as (_ & F2 & _).
  assert (8 + length (separators kg) * 8 + length (pointers kg) * 8 <= npage)%nat as Hfit by lia.
  rewrite writeInternal_page by done.
  set (k := mkKid nx (entries_of kg) (nx :: pages_in kg)).
  destruct (IH (drop (order + 1) level) (drop (order + 1) ks)
    (mkBuilder (img ++ internal_page (separators kg) (pointers kg)) (nx + 1) D)
    (parent ++ [mkLevelNode nx (minKey n)]) (pks ++ [k]))
    as (b' & parent' & pks' & E & Hb' & [more Hm] & H2 & Hf' & He & Hl1 & Hl2 & Hl3).
  - rewrite length_drop. unfold level in *. cbn [length] in *. lia.
  - split_and!; cbn [image next descSize]; [|lia|done].
    by rewrite length_app, length_internal_page, base_S, Hbl.
  - by apply level_node_app.
  - cbn [image]. apply Forall2_app; [by apply level_node_app|]. apply Forall2_cons. split; [|done].
    split_and!; [done| |].
    + cbn [k k_entries minKey]. unfold entries_of, kg.
      destruct ks as [|k0 ks0]; [by apply Forall2_nil_inv_r in Hlev|].
      apply Forall2_cons in Hlev as [(_ & Hk0 & Hs0) _]. rewrite Hk0.
      replace (order + 1)%nat with (S order) by lia. cbn [take]. rewrite fmap_cons. cbn [concat].
      pose proof (stored_nonempty _ _ _ _ _ _ _ Hs0). by destruct (k_entries k0).
    + cbn [k k_page k_entries k_pages stored]. exists kg. split_and!; try done; try lia.
      * apply page_is_new; [done|]. by apply length_internal_page.
      * eapply Forall_impl; [exact Hst|]. intros ? . apply stored_app.
  - cbn [next]. rewrite pages_in_app. unfold pages_in at 2. cbn [fmap list_fmap concat k k_pages].
    rewrite app_nil_r. rewrite <-app_assoc. cbn [app]. apply fresh_below_insert; [|done].
    rewrite <-pages_in_app. unfold kg. by rewrite take_drop.
  - cbn [image] in *. rewrite !length_app, length_drop in *. cbn [length] in *.
    exists b', parent', pks'. split_and!; try done.
    + exists (internal_page (separators kg) (pointers kg) ++ more). by rewrite Hm, <-app_assoc.
    + rewrite He, entries_of_app. unfold entries_of at 2. cbn [fmap list_fmap concat k k_entries].
      rewrite app_nil_r, <-app_assoc, <-entries_of_app. unfold kg. by rewrite take_drop.
    + lia.
    + unfold group in Hgl. rewrite length_take in Hgl.
      destruct (decide (length level <= order + 1)%nat) as [Hle|Hgt].
      * assert (length parent' = length parent + 1)%nat as ->.
        { rewrite drop_ge in E by lia. destruct fuel; cbn in E; injection E as _ <-;
          rewrite length_app; cbn; lia. }
        unfold level in *. cbn [length] in *. lia.
      * nia.
    + lia.
Qed.

Lemma load_levels_ok k : forall fuel d level ks b,
  (length level <= fuel)%nat -> builder_ok D b ->
  (0 < Z.of_nat (length level) <= (Z.of_nat order + 1) ^ Z.of_nat k) ->
  Forall2 (level_node (image b) D order d) level ks -> fresh_below (next b) (pages_in ks) ->
  exists b' n kd d', load_levels fuel order b level = (b', [n]) /\ builder_ok D b' /\
    (exists more, image b' = image b ++ more) /\ (d' <= d + k)%nat /\
    level_node (image b') D order d' n kd /\ fresh_below (next b') (k_pages kd) /\
    k_entries kd = entries_of ks.
Proof.
  induction k as [|k IH]; intros fuel d level ks b Hfuel Hb Hlen Hlev Hfr.
  - rewrite Z.pow_0_r in Hlen. destruct level as [|n [|]]; cbn in Hlen; try lia.
    destruct fuel as [|fuel]; [cbn in Hfuel; lia|].
    pose proof Hlev as Hlev'. apply Forall2_cons_inv_l in Hlev as (kd & ks' & Hn & Hnil & ->).
    apply Forall2_nil_inv_l in Hnil as ->. exists b, n, kd, d. cbn.
    unfold pages_in, entries_of in *. cbn in *. rewrite app_nil_r in *.
    split_and!; try done; [exists []; by rewrite app_nil_r|lia].
  - destruct fuel as [|fuel]; [lia|]. cbn [load_levels].
    destruct (Nat.ltb_spec 1 (length level)) as [Hgt|Hle].
    + destruct (load_parents_ok d (length level) level ks b [] [] (le_n _) Hb Hlev)
        as (b1 & parent & pks & E1 & Hb1 & [m1 Hm1] & H2 & Hf1 & He1 & _ & Hc1 & Hc2);
        [constructor|done|].
      rewrite E1. cbn [length] in *. rewrite Nat.sub_0_r in Hc1.
      assert (0 < length parent)%nat by (apply Hc2; by destruct level; [cbn in Hgt; lia|]).
      destruct (IH fuel (S d) parent pks b1) as (b2 & n & kd & d' & E2 & Hb2 & [m2 Hm2] & Hd & Hn & Hf2 & He2);
        try done.
      * nia.
      * split; [lia|]. rewrite Nat2Z.inj_succ, Z.pow_succ_r in Hlen by lia.
        assert ((Z.of_nat (length parent) - 1) * (Z.of_nat order + 1) < Z.of_nat (length level)) by nia.
        assert (0 < (Z.of_nat order + 1) ^ Z.of_nat k) by (apply Z.pow_pos_nonneg; lia). nia.
      * exists b2, n, kd, d'. split_and!; try done; [|lia|by rewrite He2, He1].
        exists (m1 ++ m2). by rewrite Hm2, Hm1, <-app_assoc.
    + destruct level as [|n [|]]; cbn in Hlen, Hle; try lia.
      apply Forall2_cons_inv_l in Hlev as (kd & ks' & Hn & Hnil & ->).
      apply Forall2_nil_inv_l in Hnil as ->. exists b, n, kd, d.
      unfold pages_in, entries_of in *. cbn in *. rewrite app_nil_r in *.
      split_and!; try done; [exists []; by rewrite app_nil_r|lia].
Qed.
End Loader.

(** ** The number of pages is a function of the number of keys *)
Fixpoint run_count (fuel m n : nat) : nat :=
  match fuel with
  | O => 0
  | S fuel => if (n =? 0)%nat then 0 else S (run_count fuel m (n - m))
  end.

Fixpoint level_count (fuel order n : nat) : nat :=
  match fuel with
  | O => 0
  | S fuel =>
      if (1 <? n)%nat
      then let c := run_count n (order + 1) n in (c + level_count fuel order c)%nat
      else 0
  end.

Lemma load_leaves_count order fuel : forall b entries level b' level',
  load_leaves fuel order b entries level = (b', level') ->
  length level' = (length level + run_count fuel order (length entries))%nat /\
  next b' = (next b + run_count fuel order (length entries))%nat.
Proof.
  induction fuel as [|fuel IH]; intros b entries level b' level' H; cbn [load_leaves run_count] in *.
  - injection H as <- <-. lia.
  - destruct entries as [|e es]; [injection H as <- <-; cbn; lia|].
    unfold alloc in H. apply IH in H as [-> ->]. rewrite length_app, length_drop. cbn. lia.
Qed.

Lemma load_parents_count order fuel : forall b level parent b' parent',
  load_parents fuel order b level parent = (b', parent') ->
  length parent' = (length parent + run_count fuel (order + 1) (length level))%nat /\
  next b' = (next b + run_count fuel (order + 1) (length level))%nat.
Proof.
  induction fuel as [|fuel IH]; intros b level parent b' parent' H; cbn [load_parents run_count] in *.
  - injection H as <- <-. lia.
  - destruct level as [|n level]; [injection H as <- <-; cbn; lia|].
    unfold alloc in H. apply IH in H as [-> ->]. rewrite length_app, length_drop. cbn. lia.
Qed.

Lemma load_levels_count order fuel : forall b level b' level',
  load_levels fuel order b level = (b', level') ->
  next b' = (next b + level_count fuel order (length level))%nat.
Proof.
  induction fuel as [|fuel IH]; intros b level b' level' H; cbn [load_levels level_count] in *.
  - injection H as <- _. lia.
  - destruct (1 <? length level)%nat; [|injection H as <- _; lia].
    destruct (load_parents (length level) order b level []) as [b1 parent] eqn:E.
    apply load_parents_count in E as [El En]. cbn in El. apply IH in H. rewrite El in H. lia.
Qed.

Lemma run_count_bound m fuel n :
  (1 <= m)%nat -> (run_count fuel m n * m < n + m)%nat /\ (run_count fuel m n <= n)%nat.
Proof.
  intros Hm. revert n. induction fuel as [|fuel IH]; intros n; cbn [run_count]; [lia|].
  destruct (Nat.eqb_spec n 0) as [->|Hn]; [lia|].
  destruct (IH (n - m)%nat) as [H1 H2]. destruct (decide (n <= m)%nat).
  - replace (n - m)%nat with 0%nat in * by lia.
    assert (run_count fuel m 0 = 0)%nat as -> by (destruct fuel; done). lia.
  - nia.
Qed.

Lemma level_count_bound order fuel n : (2 <= order)%nat -> (1 <= n)%nat -> (level_count fuel order n + 1 <= n)%nat.
Proof.
  intros Ho. revert n. induction fuel as [|fuel IH]; intros n Hn; cbn [level_count]; [lia|].
  destruct (Nat.ltb_spec 1 n) as [H1|]; [|lia]. cbv zeta.
  set (c := run_count n (order + 1) n).
  assert (1 <= c)%nat as Hc.
  { subst c. destruct n; [lia|]. cbn [run_count]. destruct (Nat.eqb_spec (S n) 0); lia. }
  pose proof (IH c Hc). destruct (run_count_bound (order + 1) n n) as [Hb _]; [lia|]. fold c in Hb. nia.
Qed.

(** The pages of an image that holds [n] keys, the header page included. *)
Definition image_pages (order n : nat) : nat :=
  let leaves := run_count n order n in (1 + leaves + level_count leaves order leaves)%nat.

Lemma image_pages_bound order n : (2 <= order)%nat -> (image_pages order n <= 2 * n + 1)%nat.
Proof.
  intros Ho. unfold image_pages. destruct (run_count_bound order n n) as [_ Hl]; [lia|].
  set (l := run_count n order n) in *. destruct l as [|l]; [cbn; lia|].
  pose proof (level_count_bound order (S l) (S l) Ho). lia.
Qed.

(** ** The header page *)
Definition header_bytes (root commit flags next : Z) : list Z :=
  nsMagic ++ le_enc 8 root ++ le_enc 8 0 ++ le_enc 8 commit ++ le_enc 8 0 ++ [flags] ++
  le_enc 8 0 ++ le_enc 8 next ++ le_enc 8 next.

Lemma length_header_bytes r c f n : length (header_bytes r c f n) = 61%nat.
Proof. done. Qed.

Lemma write_header_put img root commit flags next :
  (61 <= length img)%nat ->
  write_header img root commit flags next = put img 0 (header_bytes root commit flags next).
Proof.
  intros Hl. unfold write_header, header_bytes.
  assert (forall h bs o, o = length h -> (length h + length bs <= 61)%nat ->
    put (put img 0 h) o bs = put img 0 (h ++ bs)) as Hput
    by (intros h bs o -> Hlen; apply (put_put_adjacent img 0); lia).
  do 8 (rewrite Hput by (done || (cbn; lia))). by rewrite <-!app_assoc.
Qed.

(** An image whose first 61 bytes are this header. *)
Lemma nsReadHeader_ok img root commit flags next rest :
  img = header_bytes root commit flags next ++ rest ->
  in_u 64 root -> in_u 64 commit -> in_u 64 next -> (commit = 0 -> root = 0) ->
  len img mod nsPageSize = 0 -> next <= len img / nsPageSize ->
  nsReadHeader img = Ok (mkHeader root commit flags next).
Proof.
  intros -> Hr Hc Hn Hrc Hal Hcnt. unfold nsReadHeader.
  destruct (Z.ltb_spec (len (header_bytes root commit flags next ++ rest)) nsHeaderTotal) as [Hlt|_].
  { rewrite len_app in Hlt. pose proof (len_nonneg rest).
    change (len (header_bytes root commit flags next)) with 61 in Hlt. unfold nsHeaderTotal in Hlt. lia. }
  change (sub (header_bytes root commit flags next ++ rest) 0 4) with nsMagic.
  rewrite bool_decide_false by naive_solver. rewrite Hal. cbn [Z.eqb negb].
  assert (forall v o, in_u 64 v -> sub (header_bytes root commit flags next ++ rest) o 8 = le_enc 8 v ->
    get_u64 (header_bytes root commit flags next ++ rest) o = v) as Hget.
  { intros v o Hv E. unfold get_u64. rewrite E. by rewrite le_dec_enc_small. }
  rewrite (Hget commit nsOffCommit0), (Hget 0 nsOffCommit1), (Hget root nsOffRoot0), (Hget next nsOffPageCount) by done.
  destruct (Z.ltb_spec (len (header_bytes root commit flags next ++ rest) / nsPageSize) next) as [|_]; [lia|].
  cbn [Z.eqb]. rewrite andb_true_r. unfold in_u in Hc.
  destruct (Z.eqb_spec commit 0) as [->|].
  - by rewrite Hrc.
  - destruct (Z.ltb_spec commit 0); [lia|]. done.
Qed.

(** ** Loading and collecting *)
Lemma check_batch_ok descSize es : forall i prev,
  Forall (fun e => len (desc e) = descSize) es -> ascending es ->
  (forall k, prev = Some k -> Forall (fun e => k < key e) es) ->
  check_batch descSize i prev es = Ok tt.
Proof.
  induction es as [|e es IH]; intros i prev Hd Ha Hp; cbn [check_batch]; [done|].
  apply Forall_cons in Hd as [-> Hd]. rewrite Z.eqb_refl. cbn [negb].
  assert (match prev with Some k => key e <=? k | None => false end = false) as ->.
  { destruct prev as [k|]; [|done]. specialize (Hp k eq_refl). apply Forall_cons in Hp as [Hk _].
    destruct (Z.leb_spec (key e) k); [lia|done]. }
  unfold ascending in Ha. rewrite fmap_cons in Ha. apply StronglySorted_inv in Ha as [Ha Hf].
  apply IH; [done|done|]. intros k Hk. injection Hk as <-. rewrite Forall_fmap in Hf. exact Hf.
Qed.

Lemma fits_order descSize :
  8 <= descSize -> 0 < nsOrder descSize -> fits (Z.to_nat (nsOrder descSize)) (Z.to_nat descSize).
Proof.
  intros Hd Ho. unfold nsOrder in *. rewrite nsPageSize_val in *.
  change (4096 - nsNodeHeaderBytes) with 4088 in *.
  pose proof (Z.mul_div_le 4088 (8 + descSize)) as Hm.
  set (o := 4088 / (8 + descSize)) in *.
  assert (Z.of_nat npage = 4096) as Hp by (rewrite npage_val; apply nsPageSize_val).
  assert (o <= 255) by nia.
  split_and!; [|lia|lia].
  apply Nat2Z.inj_le. rewrite Hp, !Nat2Z.inj_add, !Nat2Z.inj_mul, !Z2Nat.id by lia. lia.
Qed.

Record loaded (order D n : nat) (entries : list nsEntry) (root commit : Z) (nodes : list Z) : Prop := {
  ld_pages : image_pages order n = S (length nodes / npage);
  ld_nodes : length nodes = (length nodes / npage * npage)%nat;
  ld_tree : (entries = [] /\ root = 0 /\ commit = 0) \/
    (commit = 1 /\ exists p d ps, root = Z.of_nat p /\ (d < nsMaxDepth)%nat /\
      stored (zeros npage ++ nodes) D order d p entries ps /\ fresh_below (image_pages order n) ps) }.

Lemma page_is_header h h' rest p bytes :
  length h = npage -> length h' = npage -> (1 <= p)%nat -> page_is (h ++ rest) p bytes ->
  page_is (h' ++ rest) p bytes.
Proof.
  intros Hh Hh' Hp [<- Hl]. rewrite length_app in Hl. unfold page_is. rewrite length_app, Hh'.
  assert (base p = npage + base (p - 1))%nat as Hb by (unfold base; nia).
  rewrite Hb in *. split; [|lia].
  pose proof (sub_app_skip h rest (base (p - 1)) npage) as A. rewrite Hh in A.
  pose proof (sub_app_skip h' rest (base (p - 1)) npage) as B. rewrite Hh' in B. congruence.
Qed.

Lemma stored_header h h' rest D order d : forall p es ps,
  length h = npage -> length h' = npage -> Forall (fun q => 1 <= q)%nat ps ->
  stored (h ++ rest) D order d p es ps -> stored (h' ++ rest) D order d p es ps.
Proof.
  intros p es ps Hh Hh'. revert p es ps. induction d as [|d IH]; intros p es ps Hps; cbn [stored].
  - intros (Hp & Hl & Hd & ->). apply Forall_cons in Hps as [H1 _].
    split_and!; [by apply (page_is_header h h')|lia|lia|done|done].
  - intros (ks & Hp & Hl & He & -> & Hks). apply Forall_cons in Hps as [H1 Hps].
    exists ks. split_and!; [by apply (page_is_header h h')|lia|lia|done|done|].
    apply Forall_forall. intros k Hk. rewrite Forall_forall in Hks. apply IH; [|by apply Hks].
    apply Forall_forall. intros q Hq. rewrite Forall_forall in Hps. apply Hps.
    apply elem_of_concat. exists (k_pages k). split; [by apply list_elem_of_fmap_2|done].
Qed.

Lemma nsBulkLoad_loaded entries descSize flags :
  8 <= descSize -> 16 <= nsOrder descSize -> keys_ok entries -> ascending entries ->
  Forall (fun e => len (desc e) = descSize) entries -> len entries < 2 ^ 60 ->
  let order := Z.to_nat (nsOrder descSize) in
  exists root commit nodes,
    nsBulkLoad entries descSize flags
      = Ok (header_bytes root commit flags (Z.of_nat (image_pages order (length entries))) ++
            zeros (npage - 61) ++ nodes) /\
    loaded order (Z.to_nat descSize) (length entries) entries root commit nodes.
Proof.
  intros Hds Ho Hk Ha Hd Hbig order. set (D := Z.to_nat descSize).
  assert (61 <= npage)%nat as H61 by (rewrite <-Nat2Z.id, npage_val, nsPageSize_val; lia).
  assert (fits order D) as Hfits by (apply fits_order; lia).
  assert (1 <= order)%nat as H1 by lia.
  unfold nsBulkLoad. fold order D. rewrite (check_batch_ok descSize entries 0 None Hd Ha) by done.
  assert (Forall (fun e => length (desc e) = D) entries) as Hd'.
  { eapply Forall_impl; [exact Hd|]. cbn. intros e He. unfold len in He. lia. }
  destruct (load_leaves_ok D order Hfits H1 (length entries) entries (mkBuilder (zeros npage) 1 D) [] [])
    as (b1 & level & ks & E1 & Hb1 & [m1 Hm1] & Hlev & Hf1 & He1 & Hl1 & Hne1).
  { done. }
  { split_and!; cbn; [by rewrite length_zeros; unfold base; lia|lia|done]. }
  { done. }
  { constructor. }
  { split; constructor. }
  rewrite E1. destruct (load_leaves_count _ _ _ _ _ _ _ E1) as [Hc1 Hn1]. cbn [length next Nat.add] in Hc1, Hn1.
  change (entries_of []) with (@nil nsEntry) in He1. cbn [app] in He1. cbn [image] in Hm1.
  destruct (decide (entries = [])) as [->|Hnil].
  - cbn in E1. injection E1 as <- <-. cbn [length load_levels image next].
    rewrite write_header_put by (rewrite length_zeros; lia).
    exists 0, 0, []. split.
    + replace npage with (61 + (npage - 61))%nat at 1 by lia. rewrite zeros_app, put_head by (by rewrite length_zeros).
      by rewrite app_nil_r.
    + split; [done|done|]. by left.
  - assert (level <> []) as Hln by by apply Hne1.
    assert (0 < Z.of_nat (length level)) as Hl0 by (destruct level; [done|cbn; lia]).
    destruct (load_levels_ok D order Hfits H1 15 (length level) 0 level ks b1)
      as (b2 & n & kd & d & E2 & Hb2 & [m2 Hm2] & Hd2 & Hn2 & Hf2 & He2); try done.
    { split; [done|]. cbn [length Nat.add] in Hl1. unfold len in Hbig.
      apply (Z.le_trans _ (17 ^ 15)); [lia|]. apply Z.pow_le_mono_l. lia. }
    rewrite E2. pose proof (load_levels_count _ _ _ _ _ _ E2) as Hn3.
    assert (next b2 = image_pages order (length entries)) as Hnx.
    { rewrite Hn3, Hc1, Hn1. unfold image_pages. lia. }
    destruct Hb2 as (Hbl & _ & _). rewrite Hm1, <-app_assoc in Hm2.
    rewrite Hm2, length_app, length_zeros in Hbl. set (nodes := m1 ++ m2) in *.
    assert (length nodes = (next b2 - 1) * npage)%nat as Hnod by (unfold base in Hbl; nia).
    destruct Hn2 as (Hpg & _ & Hst).
    exists (Z.of_nat (page n)), 1, nodes. split.
    + rewrite write_header_put by (rewrite Hm2, length_app, length_zeros; lia). f_equal.
      rewrite Hm2, Hnx. replace npage with (61 + (npage - 61))%nat at 1 by lia.
      rewrite zeros_app, <-app_assoc. apply put_head. by rewrite length_zeros.
    + assert (length nodes / npage = next b2 - 1)%nat as Hdiv by (rewrite Hnod; apply Nat.div_mul; lia).
      assert (1 <= next b2)%nat by (rewrite Hnx; unfold image_pages; lia).
      split; [lia|rewrite Hdiv; done|]. right. split; [done|].
      exists (page n), d, (k_pages kd). rewrite Hpg. split_and!; [done|unfold nsMaxDepth; lia| |by rewrite <-Hnx].
      rewrite <-He1, <-He2, <-Hm2. done.
Qed.

(** The walk reads the entries back from any image that keeps the 61 bytes of
    the header and the node pages. *)
Lemma nsCollect_loaded entries descSize flags root commit nodes hrest extra :
  8 <= descSize -> 16 <= nsOrder descSize -> keys_ok entries -> ascending entries -> len entries < 2 ^ 60 ->
  let order := Z.to_nat (nsOrder descSize) in
  loaded order (Z.to_nat descSize) (length entries) entries root commit nodes ->
  length hrest = (npage - 61)%nat -> len extra mod nsPageSize = 0 ->
  nsCollect (header_bytes root commit flags (Z.of_nat (image_pages order (length entries))) ++
             hrest ++ nodes ++ extra) descSize = Ok entries.
Proof.
  intros Hds Ho Hk Ha Hbig order [Hpg Hnd Htree] Hhr Hex.
  assert (Z.of_nat npage = nsPageSize) as Hnp by apply npage_val. pose proof nsPageSize_val as Hps.
  set (count := image_pages order (length entries)) in *.
  assert (count <= 2 * length entries + 1)%nat as Hcb by (apply image_pages_bound; lia).
  assert (in_u 64 (Z.of_nat count)) as Hcu by (unfold len in Hbig; unfold in_u; lia).
  set (img := header_bytes _ _ _ _ ++ _).
  assert (len img = Z.of_nat count * nsPageSize + len extra) as Hlen.
  { unfold img. rewrite !len_app. unfold len at 1 2 3. rewrite length_header_bytes, Hhr, Hnd.
    rewrite Nat2Z.inj_mul, Hnp. lia. }
  assert (in_u 64 root /\ in_u 64 commit /\ (commit = 0 -> root = 0)) as (Hru & Hcmu & Hrc).
  { destruct Htree as [(_ & -> & ->)|(-> & p & d & ps & -> & _ & Hst & [_ Hf])]; [done|].
    apply stored_root in Hst. rewrite Forall_forall in Hf. specialize (Hf _ Hst).
    unfold in_u in *. split_and!; lia. }
  unfold nsCollect.
  rewrite (nsReadHeader_ok img root commit flags (Z.of_nat count) (hrest ++ nodes ++ extra)); try done.
  2: { rewrite Hlen, Z.add_comm, Z_mod_plus_full. done. }
  2: { rewrite Hlen, Z.div_add_l by lia. pose proof (len_nonneg extra).
       pose proof (Z.div_pos (len extra) nsPageSize). lia. }
  cbn [h_root h_pageCount].
  destruct Htree as [(-> & -> & _)|(-> & p & d & ps & -> & Hd & Hst & [Hnd' Hf])]; [done|].
  pose proof (stored_root _ _ _ _ _ _ _ Hst) as Hroot.
  assert (1 <= p)%nat by (rewrite Forall_forall in Hf; by specialize (Hf _ Hroot); lia).
  destruct (Z.eqb_spec (Z.of_nat p) 0); [lia|].
  assert (stored img (Z.to_nat descSize) order d p entries ps) as Hst'.
  { unfold img. rewrite !app_assoc. apply stored_app.
    eapply (stored_header (zeros npage)); [by rewrite length_zeros| | |exact Hst].
    - rewrite length_app, length_header_bytes, Hhr. lia.
    - eapply Forall_impl; [exact Hf|]. cbn. lia. }
  assert (nsOrder descSize = Z.of_nat order) as -> by lia.
  destruct (walk_stored img (Z.to_nat descSize) order (Z.of_nat count)
    ltac:(apply fits_order; lia) ltac:(unfold in_u in Hcu; lia) d nsMaxDepth p entries ps ∅ [])
    as (seen' & -> & _); try done.
  - eapply Forall_impl; [exact Hf|]. cbn. lia.
Qed.

(** ** Whatever the walk accepts is in order *)
Lemma ascending_snoc out e :
  ascending out -> match last out with Some x => key x < key e | None => True end ->
  ascending (out ++ [e]).
Proof.
  unfold ascending. intros Ha Hl. rewrite fmap_app. apply StronglySorted_app.
  split_and!; [|done|by repeat constructor].
  intros x y Hx Hy. apply list_elem_of_singleton in Hy as ->.
  destruct (last out) as [z|] eqn:El.
  - apply last_Some in El as [out' ->]. rewrite fmap_app in *. apply elem_of_app in Hx as [Hx|Hx].
    + assert (x < key z); [|lia]. eapply StronglySorted_app_1_elem_of; [exact Ha|done|]. left.
    + apply list_elem_of_singleton in Hx as ->. done.
  - apply last_None in El as ->. by apply not_elem_of_nil in Hx.
Qed.

Lemma collect_leaf_ascending img D n out out' :
  ascending out -> collect_leaf img D n out = Ok out' -> ascending out'.
Proof.
  intros Ha H. eapply (foldm_inv ascending); [|exact Ha|exact H].
  intros s i s' Hs E. cbv beta zeta in E.
  destruct (last s) as [x|] eqn:El.
  - destruct (Z.leb_spec (node_key img n i) (key x)); [done|]. injection E as <-.
    apply ascending_snoc; [done|]. by rewrite El.
  - injection E as <-. apply ascending_snoc; [done|]. by rewrite El.
Qed.

Lemma walk_ascending img D order pc fuel : forall p seen out seen' out',
  ascending out -> walk img D order pc fuel p (seen, out) = Ok (seen', out') -> ascending out'.
Proof.
  induction fuel as [|fuel IH]; intros p seen out seen' out' Ha H; cbn [walk] in H; [done|].
  destruct (read_node img D order pc seen p) as [[n s1]|] eqn:E1; [|done].
  destruct (check_keys img n) as [|] eqn:E2; [|done].
  destruct (n_leaf n).
  - destruct (collect_leaf img D n out) as [o|] eqn:E3; [|done]. injection H as _ <-.
    by eapply collect_leaf_ascending.
  - refine (foldm_inv (fun st => ascending st.2) _ (s1, out) _ (seen', out') _ Ha H).
    intros [s o] i [s' o'] Hs E. exact (IH _ _ _ _ _ Hs E).
Qed.

(** ** Properties *)

(** Packing entries with ascending keys succeeds, and the walk of the image
    returns exactly them; it still does after the rest of the header page is
    overwritten and any number of whole pages is appended. *)
Theorem bulk_load_collect entries descSize flags :
  8 <= descSize -> 16 <= nsOrder descSize -> keys_ok entries -> ascending entries ->
  Forall (fun e => len (desc e) = descSize) entries -> len entries < 2 ^ 60 ->
  exists img, nsBulkLoad entries descSize flags = Ok img /\ nsCollect img descSize = Ok entries /\
    forall hrest extra, length hrest = (npage - 61)%nat -> len extra mod nsPageSize = 0 ->
      nsCollect (take 61 img ++ hrest ++ drop npage img ++ extra) descSize = Ok entries.
Proof.
  intros Hds Ho Hk Ha Hd Hbig.
  destruct (nsBulkLoad_loaded entries descSize flags) as (root & commit & nodes & E & Hl); try done.
  assert (61 <= npage)%nat by (rewrite <-Nat2Z.id, npage_val, nsPageSize_val; lia).
  eexists. split; [exact E|]. set (h := header_bytes _ _ _ _).
  assert (length h = 61%nat) as Hh by done. split.
  - rewrite <-(app_nil_r nodes). by apply nsCollect_loaded; rewrite ?length_zeros.
  - intros hrest extra Hhr Hex. rewrite take_app_length' by done.
    assert (drop npage (h ++ zeros (npage - 61) ++ nodes) = nodes) as ->.
    { rewrite app_assoc. apply drop_app_length'. rewrite length_app, Hh, length_zeros. lia. }
    by apply nsCollect_loaded.
Qed.

Definition sample_entries : list nsEntry :=
  (fun i => mkEntry (3 * i) (le_enc 16 i)) <$> seqZ 0 200.

Lemma bulk_load_collect_witness :
  exists img, nsBulkLoad sample_entries 16 3 = Ok img /\ nsCollect img 16 = Ok sample_entries /\
    forall hrest extra, length hrest = (npage - 61)%nat -> len extra mod nsPageSize = 0 ->
      nsCollect (take 61 img ++ hrest ++ drop npage img ++ extra) 16 = Ok sample_entries.
Proof.
  apply bulk_load_collect.
  - lia.
  - vm_compute. discriminate.
  - unfold keys_ok, in_u. apply (bool_decide_eq_true_1 _). vm_compute. reflexivity.
  - apply (bool_decide_eq_true_1 (StronglySorted Z.lt (key <$> sample_entries))). vm_compute. reflexivity.
  - apply (bool_decide_eq_true_1 _). vm_compute. reflexivity.
  - vm_compute. reflexivity.
Defined.

(** Whatever bytes it is given, the walk that accepts them returns entries
    in strictly ascending key order. *)
Theorem nsCollect_ascending img descSize entries :
  nsCollect img descSize = Ok entries -> StronglySorted Z.lt (key <$> entries).
Proof.
  unfold nsCollect. destruct (nsReadHeader img) as [h|]; [|done].
  destruct (h_root h =? 0); [intros [= <-]; constructor|].
  destruct (walk _ _ _ _ _ _ _) as [[seen out]|] eqn:E; [|done]. intros [= <-].
  eapply walk_ascending; [|exact E]. constructor.
Qed.

Lemma nsCollect_ascending_witness :
  exists img, nsBulkLoad [mkEntry 1 (zeros 16); mkEntry 5 (zeros 16)] 16 3 = Ok img /\
    StronglySorted Z.lt (key <$> [mkEntry 1 (zeros 16); mkEntry 5 (zeros 16)]).
Proof.
  eexists. split; [vm_compute; reflexivity|].
  apply (nsCollect_ascending (match nsBulkLoad [mkEntry 1 (zeros 16); mkEntry 5 (zeros 16)] 16 3 with
                              | Ok img => img | Err _ => [] end) 16).
  vm_compute. reflexivity.
Defined.

End Nsb1.
