(* ===== verification/PageStore.v ===== *)
(** * The per-trace page store ([snappages.ns], [src/internal/wasmsnapshot/pagecas.go])

    The per-trace tier serialised as a namespace B-tree whose descriptors point
    at chains of page records behind the tree.  [page_store_roundtrip] shows
    that decoding returns exactly the cache that was encoded, for any key
    function, so also when truncated keys collide, and
    [page_store_deterministic] that the bytes do not depend on the order a Go
    map is iterated in. *)
From S2P Require Import Prelude Xxh3 SnapTypes PageCas Nsb1.
Import Xxh3 SnapTypes PageCas.

Module PageStore.

Definition pageRecordHeaderSize : Z := 24.
Definition pageStoreDescSize : Z := Nsb1.nsDescSizeTypeB.
Definition pageStoreFlags : Z := Z.lor Nsb1.nsFlagLeafTypeB Nsb1.nsFlagSkipSubBlocks.
Definition pageStoreSidecarMagic : list Z := bytes_of_string "SNPV".
Definition pageStoreSidecarOffset : nat := 64.
Definition pageStoreSidecarSize : nat := 16.

Definition truncatedKey (h : Uint128) : Z := Lo h.

(** ** Encoding *)
Definition appendPageRecord (dst : list Z) (h : Uint128) (page : list Z) : list Z :=
  dst ++ Bytes h ++ le_enc 4 (u32 (len page)) ++ le_enc 4 0 ++ page.

(** The order of a chain: high halves first. *)
Definition hash_le (a b : Uint128) : Prop :=
  if decide (Hi a = Hi b) then Lo a <= Lo b else Hi a < Hi b.

#[export] Instance hash_le_dec : RelDecision hash_le.
Proof. intros a b. unfold hash_le. destruct (decide (Hi a = Hi b)); apply _. Defined.

Definition writePageStoreSidecar (image : list Z) (keyCount : Z) : list Z :=
  put image pageStoreSidecarOffset
    (pageStoreSidecarMagic ++ le_enc 2 SnapshotFormatVersion ++ le_enc 2 0 ++
     le_enc 4 PageSize ++ le_enc 4 (u32 keyCount)).

(** The keys and, under each, its chain of digests; [hs] is the order in which
    the range over the map visits the digests. *)
Definition sorted_keys (keyOf : Uint128 -> Z) (hs : list Uint128) : list Z :=
  merge_sort Z.le (remove_dups (keyOf <$> hs)).
Definition chain_of (keyOf : Uint128 -> Z) (hs : list Uint128) (k : Z) : list Uint128 :=
  merge_sort hash_le (filter (fun h => keyOf h = k) hs).

Definition page_of (c : PerTraceCache) (h : Uint128) : list Z := default [] (pages c !! h).

Definition chain_payload (c : PerTraceCache) (chain : list Uint128) : list Z :=
  foldl (fun p h => appendPageRecord p h (page_of c h)) [] chain.

(** A descriptor: where a chain starts in the stream and how long it is. *)
Definition descriptor (start n : Z) : list Z := le_enc 8 start ++ le_enc 8 n.

(** The final entries and the payload: the descriptors are absolute. *)
Fixpoint place (payloadBase : Z) (chains : list (Z * list Z)) (payload : list Z)
    : list Nsb1.nsEntry * list Z :=
  match chains with
  | [] => ([], payload)
  | (k, bytes) :: chains =>
      let start := u64 (payloadBase + len payload) in
      let payload := payload ++ bytes in
      let desc := descriptor start (u64 (payloadBase + len payload - start)) in
      let '(es, payload) := place payloadBase chains payload in
      (Nsb1.mkEntry k desc :: es, payload)
  end.

(** [byKey] as the sorted list of its keys with their sorted chains. *)
Definition by_key (keyOf : Uint128 -> Z) (hs : list Uint128) : list (Z * list Uint128) :=
  (fun k => (k, chain_of keyOf hs k)) <$> sorted_keys keyOf hs.

Definition encode_chains (c : PerTraceCache) (byKey : list (Z * list Uint128))
    : result snap_err (list Z) :=
  let sizing := (fun kc => Nsb1.mkEntry kc.1 (zeros (Z.to_nat pageStoreDescSize))) <$> byKey in
  match Nsb1.nsBulkLoad sizing pageStoreDescSize pageStoreFlags with
  | Err _ => Err Panic
  | Ok sizingImage =>
      let payloadBytes :=
        sum_list ((fun kc => sum_list ((fun h => 24 + length (page_of c h))%nat <$> kc.2)) <$> byKey) in
      let pad := (Nsb1.nsPageSize - Z.of_nat payloadBytes mod Nsb1.nsPageSize) mod Nsb1.nsPageSize in
      let payloadBase := len sizingImage + pad in
      let '(final, payload) :=
        place payloadBase ((fun kc => (kc.1, chain_payload c kc.2)) <$> byKey) [] in
      match Nsb1.nsBulkLoad final pageStoreDescSize pageStoreFlags with
      | Err _ => Err Panic
      | Ok image =>
          reject negb (len image + pad =? payloadBase) || negb (length payload =? payloadBytes)%nat as Panic ;;
          Ok (writePageStoreSidecar image (len byKey) ++ zeros (Z.to_nat pad) ++ payload)
      end
  end.

Definition encodePageStoreKeyed_in (hs : list Uint128) (c : PerTraceCache) (keyOf : Uint128 -> Z)
    : result snap_err (list Z) :=
  encode_chains c (by_key keyOf hs).

Definition map_order (c : PerTraceCache) : list Uint128 := (map_to_list (pages c)).*1.

Definition encodePageStoreKeyed (c : PerTraceCache) (keyOf : Uint128 -> Z) : result snap_err (list Z) :=
  encodePageStoreKeyed_in (map_order c) c keyOf.

Definition encodePageStore (c : PerTraceCache) : result snap_err (list Z) :=
  encodePageStoreKeyed c truncatedKey.

(** ** Decoding *)

(** The records of one chain; each takes at least 24 bytes, so the length of
    the chain is fuel enough. *)
Fixpoint decode_chain (fuel : nat) (keyOf : Uint128 -> Z) (k : Z) (n : nat) (chain : list Z)
    (c : PerTraceCache) : result snap_err (nat * PerTraceCache) :=
  match fuel with
  | O => Ok (n, c)
  | S fuel =>
      if len chain =? 0 then Ok (n, c)
      else
        reject len chain <? pageRecordHeaderSize as ShortRecord k ;;
        let h := Uint128FromBytes (sub chain 0 16) in
        let size := get_u32 chain 16 in
        reject negb (size =? PageSize) as RecordPageSize k size ;;
        reject len chain - pageRecordHeaderSize <? size as ShortPage k ;;
        let page := sub chain 24 (Z.to_nat size) in
        reject bool_decide (HashPage page ≠ h) as HashMismatch ;;
        reject negb (keyOf h =? k) as WrongKey k ;;
        decode_chain fuel keyOf k (S n) (drop (24 + Z.to_nat size) chain) (PerTrace_Insert c h page)
  end.

Definition decode_entry (raw : list Z) (keyOf : Uint128 -> Z) (c : PerTraceCache) (e : Nsb1.nsEntry)
    : result snap_err PerTraceCache :=
  let start := get_u64 (Nsb1.desc e) 0 in
  let length_ := get_u64 (Nsb1.desc e) 8 in
  let fin := u64 (start + length_) in
  reject (fin <? start) || (len raw <? fin) as EntryOutOfRange (Nsb1.key e) ;;
  let chain := sub raw (Z.to_nat start) (Z.to_nat (fin - start)) in
  let! (n, c) := decode_chain (length chain) keyOf (Nsb1.key e) 0 chain c in
  reject (n =? 0)%nat as EmptyChain (Nsb1.key e) ;;
  Ok c.

Definition decodePageStoreKeyed (raw : list Z) (keyOf : Uint128 -> Z) : result snap_err PerTraceCache :=
  if len raw =? 0 then Ok NewPerTraceCache
  else
    reject len raw <? Nsb1.nsPageSize as StoreTooShort ;;
    reject bool_decide (sub raw 0 4 ≠ Nsb1.nsMagic) as BadMagic NamespacePages ;;
    let s := sub raw pageStoreSidecarOffset pageStoreSidecarSize in
    reject bool_decide (sub s 0 4 ≠ pageStoreSidecarMagic) as NoVersionRecord ;;
    let v := get_u16 s 4 in
    reject negb (v =? SnapshotFormatVersion) as UnsupportedVersionError NamespacePages v ;;
    let ps := get_u32 s 8 in
    reject negb (ps =? PageSize) as StorePageSize ps ;;
    let wantKeys := get_u32 s 12 in
    reject Z.land (raw !!! Nsb1.nsOffFlags) Nsb1.nsFlagLeafTypeB =? 0 as LeafTypeA ;;
    let! entries := Nsb1.nsCollect raw pageStoreDescSize in
    reject negb (len entries =? wantKeys) as KeyCountMismatch wantKeys (len entries) ;;
    foldm (decode_entry raw keyOf) NewPerTraceCache entries.

Definition decodePageStore (raw : list Z) : result snap_err PerTraceCache :=
  decodePageStoreKeyed raw truncatedKey.

(** ** The order of iteration does not matter *)
#[export] Instance hash_le_antisymm : AntiSymm (=) hash_le.
Proof.
  intros [la ha] [lb hb]. unfold hash_le. cbn.
  destruct (decide (ha = hb)), (decide (hb = ha)); intros; f_equal; lia.
Qed.
#[export] Instance hash_le_trans : Transitive hash_le.
Proof.
  intros [la ha] [lb hb] [lc hc]. unfold hash_le. cbn.
  destruct (decide (ha = hb)), (decide (hb = hc)), (decide (ha = hc)); lia.
Qed.
#[export] Instance hash_le_total : Total hash_le.
Proof.
  intros [la ha] [lb hb]. unfold hash_le. cbn.
  destruct (decide (ha = hb)), (decide (hb = ha)); lia.
Qed.

Lemma sorted_keys_permutation keyOf hs hs' :
  hs ≡ₚ hs' -> sorted_keys keyOf hs = sorted_keys keyOf hs'.
Proof.
  intros H. unfold sorted_keys. apply (StronglySorted_unique Z.le); [apply StronglySorted_merge_sort; apply _..|].
  rewrite !merge_sort_Permutation. apply NoDup_Permutation; [apply NoDup_remove_dups..|].
  intros k. rewrite !elem_of_remove_dups. by rewrite H.
Qed.

Lemma chain_of_permutation keyOf hs hs' k :
  hs ≡ₚ hs' -> chain_of keyOf hs k = chain_of keyOf hs' k.
Proof.
  intros H. unfold chain_of. apply (StronglySorted_unique hash_le); [apply StronglySorted_merge_sort; apply _..|].
  rewrite !merge_sort_Permutation. by rewrite H.
Qed.

Lemma by_key_permutation keyOf hs hs' : hs ≡ₚ hs' -> by_key keyOf hs = by_key keyOf hs'.
Proof.
  intros H. unfold by_key. rewrite (sorted_keys_permutation keyOf hs hs' H).
  apply list_fmap_ext. intros i k _. by rewrite (chain_of_permutation keyOf hs hs').
Qed.

(** ** The chains hold every digest once *)
Lemma sorted_keys_lt keyOf hs : StronglySorted Z.lt (sorted_keys keyOf hs).
Proof.
  unfold sorted_keys. set (l := merge_sort Z.le _).
  assert (StronglySorted Z.le l) as Hs by (apply StronglySorted_merge_sort; apply _).
  assert (NoDup l) as Hn by (unfold l; rewrite merge_sort_Permutation; apply NoDup_remove_dups).
  clearbody l. induction Hs as [|k l Hs IH Hk]; [constructor|].
  apply NoDup_cons in Hn as [Hk' Hn]. constructor; [by apply IH|].
  rewrite Forall_forall in *. intros x Hx. specialize (Hk x Hx).
  assert (x <> k) by congruence. lia.
Qed.

Lemma elem_of_sorted_keys keyOf hs k : k ∈ sorted_keys keyOf hs <-> exists h, h ∈ hs /\ keyOf h = k.
Proof.
  unfold sorted_keys. rewrite merge_sort_Permutation, elem_of_remove_dups, list_elem_of_fmap.
  split; intros (h & ? & ?); eauto.
Qed.

Lemma elem_of_chain_of keyOf hs k h : h ∈ chain_of keyOf hs k <-> h ∈ hs /\ keyOf h = k.
Proof. unfold chain_of. rewrite merge_sort_Permutation, list_elem_of_filter. tauto. Qed.

Lemma by_key_all keyOf hs : NoDup hs -> concat (by_key keyOf hs).*2 ≡ₚ hs.
Proof.
  intros Hnd. unfold by_key. rewrite <-list_fmap_compose.
  change (snd ∘ _) with (chain_of keyOf hs).
  apply NoDup_Permutation; [|done|].
  - pose proof (sorted_keys_lt keyOf hs) as Hs. induction Hs as [|k ks _ IH Hk]; [constructor|].
    rewrite fmap_cons. cbn [concat]. apply NoDup_app. split_and!; [|intros h|done].
    + unfold chain_of. rewrite merge_sort_Permutation. by apply NoDup_filter.
    + intros [_ <-]%elem_of_chain_of Hin.
      apply Nsb1.elem_of_concat in Hin as (l & Hl & Hh).
      apply list_elem_of_fmap in Hl as (k' & -> & Hk'). apply elem_of_chain_of in Hh as [_ E].
      rewrite Forall_forall in Hk. specialize (Hk _ Hk'). lia.
  - intros h. rewrite Nsb1.elem_of_concat. setoid_rewrite list_elem_of_fmap. split.
    + intros (l & (k & -> & _) & Hh). by apply elem_of_chain_of in Hh as [? _].
    + intros Hh. exists (chain_of keyOf hs (keyOf h)). split; [|by apply elem_of_chain_of].
      exists (keyOf h). split; [done|]. apply elem_of_sorted_keys. eauto.
Qed.

Lemma by_key_ok keyOf hs kc :
  kc ∈ by_key keyOf hs -> kc.2 <> [] /\ Forall (fun h => keyOf h = kc.1 /\ h ∈ hs) kc.2.
Proof.
  intros Hkc. unfold by_key in Hkc. apply list_elem_of_fmap in Hkc as (k & -> & Hk). cbn [fst snd].
  apply elem_of_sorted_keys in Hk as (h & Hh & <-). split.
  - intros E. assert (h ∈ chain_of keyOf hs (keyOf h)) as Hc by by apply elem_of_chain_of.
    rewrite E in Hc. by apply not_elem_of_nil in Hc.
  - apply Forall_forall. intros x [? ?]%elem_of_chain_of. done.
Qed.

(** ** Records and chains *)
#[local] Opaque PageSize.

Definition record (c : PerTraceCache) (h : Uint128) : list Z :=
  Bytes h ++ le_enc 4 (u32 (len (page_of c h))) ++ le_enc 4 0 ++ page_of c h.

Lemma chain_payload_records c chain : chain_payload c chain = concat (record c <$> chain).
Proof.
  unfold chain_payload.
  assert (forall acc, foldl (fun p h => appendPageRecord p h (page_of c h)) acc chain
                      = acc ++ concat (record c <$> chain)) as H.
  { induction chain as [|h chain IH]; intros acc; cbn [foldl]; [by rewrite app_nil_r|].
    rewrite IH, fmap_cons. cbn [concat]. unfold appendPageRecord, record. by rewrite <-!app_assoc. }
  by rewrite H.
Qed.

(** A page filed under its own digest and key. *)
Definition filed (keyOf : Uint128 -> Z) (c : PerTraceCache) (k : Z) (h : Uint128) : Prop :=
  Uint128_ok h /\ keyOf h = k /\ length (page_of c h) = psize /\ HashPage (page_of c h) = h.

Definition insert_page (c c0 : PerTraceCache) (h : Uint128) : PerTraceCache :=
  PerTrace_Insert c0 h (page_of c h).

Lemma length_record c h : length (page_of c h) = psize -> length (record c h) = (24 + psize)%nat.
Proof. intros Hp. unfold record. rewrite !length_app, Bytes_length, !length_le_enc, Hp. lia. Qed.

Lemma decode_chain_records keyOf c k chain : forall fuel n c0,
  Forall (filed keyOf c k) chain -> (length chain <= fuel)%nat ->
  decode_chain fuel keyOf k n (concat (record c <$> chain)) c0
  = Ok ((n + length chain)%nat, foldl (insert_page c) c0 chain).
Proof.
  pose proof PageSize_val as HPS. pose proof psize_val as Hps.
  induction chain as [|h chain IH]; intros fuel n c0 Hf Hfuel.
  - rewrite Nat.add_0_r. by destruct fuel.
  - destruct fuel as [|fuel]; [cbn in Hfuel; lia|].
    apply Forall_cons in Hf as [(Hu & Hk & Hl & Hh) Hf].
    rewrite fmap_cons. cbn [concat decode_chain foldl].
    set (rest := concat (record c <$> chain)).
    assert (len (record c h ++ rest) = 24 + PageSize + len rest) as Hlen.
    { rewrite len_app. unfold len at 1. rewrite length_record by done. lia. }
    pose proof (len_nonneg rest). rewrite Hlen. unfold pageRecordHeaderSize.
    destruct (Z.eqb_spec (24 + PageSize + len rest) 0); [lia|].
    destruct (Z.ltb_spec (24 + PageSize + len rest) 24); [lia|].
    assert (record c h ++ rest = Bytes h ++ le_enc 4 PageSize ++ le_enc 4 0 ++ page_of c h ++ rest) as E.
    { unfold record. rewrite <-!app_assoc. replace (len (page_of c h)) with PageSize by (unfold len; lia).
      unfold u32. rewrite wrapu_small by (unfold in_u; lia). done. }
    rewrite E.
    assert (Uint128FromBytes (sub (Bytes h ++ le_enc 4 PageSize ++ le_enc 4 0 ++ page_of c h ++ rest) 0 16) = h) as ->.
    { rewrite sub_app_l, sub_all by (rewrite Bytes_length; lia). by apply Bytes_FromBytes. }
    assert (get_u32 (Bytes h ++ le_enc 4 PageSize ++ le_enc 4 0 ++ page_of c h ++ rest) 16 = PageSize) as ->.
    { unfold get_u32. rewrite (sub_exact' (Bytes h) (le_enc 4 PageSize)) by (rewrite ?Bytes_length, ?length_le_enc; done).
      rewrite le_dec_enc_small; [done|]. change (256 ^ Z.of_nat 4) with (2 ^ 32). lia. }
    rewrite Z.eqb_refl. cbn [negb].
    destruct (Z.ltb_spec (24 + PageSize + len rest - 24) PageSize); [lia|].
    assert (sub (Bytes h ++ le_enc 4 PageSize ++ le_enc 4 0 ++ page_of c h ++ rest) 24 psize = page_of c h) as ->.
    { replace (Bytes h ++ le_enc 4 PageSize ++ le_enc 4 0 ++ page_of c h ++ rest)
        with ((Bytes h ++ le_enc 4 PageSize ++ le_enc 4 0) ++ page_of c h ++ rest) by (by rewrite <-!app_assoc).
      apply sub_exact'; [|done]. rewrite !length_app, Bytes_length, !length_le_enc. done. }
    rewrite bool_decide_false by tauto. rewrite Hk, Z.eqb_refl. cbn [negb].
    assert (drop (24 + psize) (Bytes h ++ le_enc 4 PageSize ++ le_enc 4 0 ++ page_of c h ++ rest) = rest) as ->.
    { rewrite <-E. apply drop_app_length'. by rewrite length_record. }
    rewrite (IH fuel (S n)); [|exact Hf|cbn [length] in Hfuel; lia]. cbn [length].
    by rewrite Nat.add_succ_comm.
Qed.

Lemma insert_pages_lookup c hs : forall c0 h,
  pages (foldl (insert_page c) c0 hs) !! h
  = match pages c0 !! h with
    | Some p => Some p
    | None => if decide (h ∈ hs) then Some (page_of c h) else None
    end.
Proof.
  induction hs as [|x hs IH]; intros c0 h; cbn [foldl].
  - destruct (pages c0 !! h); [done|]. rewrite decide_False; [done|apply not_elem_of_nil].
  - rewrite IH. unfold insert_page, PerTrace_Insert.
    destruct (pages c0 !! x) as [px|] eqn:Ex.
    + destruct (pages c0 !! h) as [p|] eqn:Eh; [done|].
      assert (h <> x) by congruence.
      destruct (decide (h ∈ hs)), (decide (h ∈ x :: hs)) as [Hi|Hi]; try done.
      * exfalso. apply Hi. by right.
      * apply elem_of_cons in Hi as [?|?]; done.
    + cbn [pages]. destruct (decide (h = x)) as [->|Hne].
      * rewrite lookup_insert_eq, Ex, decide_True; [done|by left].
      * rewrite lookup_insert_ne by done. destruct (pages c0 !! h); [done|].
        destruct (decide (h ∈ hs)), (decide (h ∈ x :: hs)) as [Hi|Hi]; try done.
        -- exfalso. apply Hi. by right.
        -- apply elem_of_cons in Hi as [?|?]; done.
Qed.

Lemma elem_of_map_order c h : h ∈ map_order c <-> is_Some (pages c !! h).
Proof.
  unfold map_order. rewrite list_elem_of_fmap. split.
  - intros ([h' p] & -> & Hp%elem_of_map_to_list). by eexists.
  - intros [p Hp%elem_of_map_to_list]. by exists (h, p).
Qed.

Lemma insert_all_pages c hs : hs ≡ₚ map_order c -> foldl (insert_page c) NewPerTraceCache hs = c.
Proof.
  intros Hp. destruct c as [m]. set (c := mkPerTraceCache m) in *.
  destruct (foldl (insert_page c) NewPerTraceCache hs) as [m'] eqn:E.
  unfold c. f_equal. apply map_eq. intros h.
  pose proof (insert_pages_lookup c hs NewPerTraceCache h) as L. rewrite E in L. cbn [pages NewPerTraceCache] in L.
  rewrite L, lookup_empty.
  assert (h ∈ hs <-> is_Some (m !! h)) as Hh by (rewrite Hp; apply (elem_of_map_order c)).
  unfold page_of. cbn [pages c]. destruct (m !! h) as [p|] eqn:Em.
  - rewrite decide_True by (apply Hh; eauto). done.
  - rewrite decide_False; [done|]. rewrite Hh. by intros [? ?].
Qed.

(** ** Descriptors *)
Lemma descriptor_fields start n :
  in_u 64 start -> in_u 64 n ->
  get_u64 (descriptor start n) 0 = start /\ get_u64 (descriptor start n) 8 = n.
Proof.
  intros Hs Hn. unfold get_u64, descriptor. split.
  - rewrite sub_app_l, sub_all by (rewrite length_le_enc; lia). by apply le_dec_enc_small.
  - rewrite <-(app_nil_r (le_enc 8 n)), sub_exact' by (rewrite length_le_enc; lia).
    by apply le_dec_enc_small.
Qed.
#[local] Opaque descriptor.

Definition chains_of (c : PerTraceCache) (byKey : list (Z * list Uint128)) : list (Z * list Z) :=
  (fun kc => (kc.1, chain_payload c kc.2)) <$> byKey.

Lemma place_payload pb chains : forall payload es p,
  place pb chains payload = (es, p) -> p = payload ++ concat chains.*2.
Proof.
  induction chains as [|[k bs] chains IH]; intros payload es p H; cbn [place] in H.
  - injection H as _ <-. by rewrite app_nil_r.
  - destruct (place pb chains (payload ++ bs)) as [es' p'] eqn:E. injection H as _ <-.
    rewrite (IH _ _ _ E). cbn. by rewrite <-app_assoc.
Qed.

Lemma place_entries pb chains : forall payload es p,
  place pb chains payload = (es, p) ->
  Nsb1.key <$> es = chains.*1 /\ Forall (fun e => len (Nsb1.desc e) = pageStoreDescSize) es.
Proof.
  induction chains as [|[k bs] chains IH]; intros payload es p H; cbn [place] in H.
  - injection H as <- _. by split.
  - destruct (place pb chains (payload ++ bs)) as [es' p'] eqn:E.
    apply (f_equal fst) in H. cbn [fst] in H. subst es. destruct (IH _ _ _ E) as [Hk Hd]. rewrite !fmap_cons, Hk. split; [done|].
    by apply Forall_cons.
Qed.

Definition chain_ok (keyOf : Uint128 -> Z) (c : PerTraceCache) (kc : Z * list Uint128) : Prop :=
  kc.2 <> [] /\ Forall (filed keyOf c kc.1) kc.2.

Lemma chain_payload_length keyOf c k chain :
  Forall (filed keyOf c k) chain ->
  length (chain_payload c chain) = sum_list ((fun h => 24 + length (page_of c h))%nat <$> chain) /\
  (length chain <= length (chain_payload c chain))%nat.
Proof.
  rewrite chain_payload_records. induction 1 as [|h chain (_ & _ & Hl & _) _ [IH1 IH2]]; [done|].
  rewrite !fmap_cons. cbn [concat]. rewrite length_app, length_record by done.
  change (sum_list (?x :: ?l)) with (x + sum_list l)%nat. rewrite Hl. cbn [length]. lia.
Qed.

Lemma decode_placed keyOf c pb byKey : forall payload es p raw pre c0,
  place pb (chains_of c byKey) payload = (es, p) ->
  raw = pre ++ concat (chains_of c byKey).*2 -> len pre = pb + len payload -> 0 <= pb ->
  len raw < 2 ^ 63 -> Forall (chain_ok keyOf c) byKey ->
  foldm (decode_entry raw keyOf) c0 es = Ok (foldl (insert_page c) c0 (concat byKey.*2)).
Proof.
  induction byKey as [|[k chain] byKey IH]; intros payload es p raw pre c0 H Hraw Hpre Hpb Hbig Hok.
  - injection H as <- _. done.
  - change (chains_of c ((k, chain) :: byKey)) with ((k, chain_payload c chain) :: chains_of c byKey) in *.
    cbn [place] in H. set (bs := chain_payload c chain) in *.
    destruct (place pb (chains_of c byKey) (payload ++ bs)) as [es' p'] eqn:E.
    apply (f_equal fst) in H. cbn [fst] in H. subst es.
    rewrite fmap_cons in Hraw. cbn [concat snd] in Hraw.
    apply Forall_cons in Hok as [[Hne Hf] Hok]. cbn [fst snd] in Hne, Hf.
    destruct (chain_payload_length _ _ _ _ Hf) as [_ Hcl]. fold bs in Hcl.
    pose proof (len_nonneg payload). pose proof (len_nonneg bs). pose proof (len_nonneg (concat (chains_of c byKey).*2)).
    assert (len raw = len pre + len bs + len (concat (chains_of c byKey).*2)) as Hlr
      by (rewrite Hraw, !len_app; lia).
    cbn [foldm]. rewrite len_app.
    unfold u64. rewrite !wrapu_small by (unfold in_u; rewrite ?wrapu_small; unfold in_u; lia).
    unfold decode_entry at 1. cbn [Nsb1.desc Nsb1.key].
    destruct (descriptor_fields (pb + len payload) (pb + (len payload + len bs) - (pb + len payload)))
      as [-> ->]; [unfold in_u; lia..|].
    unfold u64. rewrite wrapu_small by (unfold in_u; lia).
    destruct (Z.ltb_spec (pb + len payload + (pb + (len payload + len bs) - (pb + len payload))) (pb + len payload)); [lia|].
    destruct (Z.ltb_spec (len raw) (pb + len payload + (pb + (len payload + len bs) - (pb + len payload)))); [lia|].
    cbn [orb].
    assert (sub raw (Z.to_nat (pb + len payload))
      (Z.to_nat (pb + len payload + (pb + (len payload + len bs) - (pb + len payload)) - (pb + len payload))) = bs) as ->.
    { rewrite Hraw. apply sub_exact'; unfold len in *; lia. }
    unfold bs at 2. rewrite chain_payload_records, decode_chain_records by done.
    destruct (Nat.eqb_spec (0 + length chain) 0) as [Hz|_]; [by destruct chain|].
    rewrite (IH (payload ++ bs) es' p' raw (pre ++ bs) (foldl (insert_page c) c0 chain)); try done.
    + cbn [fmap list_fmap concat snd]. by rewrite foldl_app.
    + by rewrite Hraw, <-app_assoc.
    + rewrite !len_app. lia.
Qed.

(** ** The whole stream *)
#[local] Opaque Nsb1.nsPageSize.

Lemma nsOrder_store : Nsb1.nsOrder pageStoreDescSize = 170.
Proof. done. Qed.

(** The rest of the header page, with the version record in it. *)
Definition sidecar (n : Z) : list Z :=
  pageStoreSidecarMagic ++ le_enc 2 SnapshotFormatVersion ++ le_enc 2 0 ++ le_enc 4 PageSize ++ le_enc 4 (u32 n).
Definition header_rest (n : Z) : list Z := zeros 3 ++ sidecar n ++ zeros (Z.to_nat Nsb1.nsPageSize - 80).

Lemma npage_ge : (80 <= Z.to_nat Nsb1.nsPageSize)%nat.
Proof. rewrite Nsb1.nsPageSize_val. lia. Qed.

Lemma length_sidecar n : length (sidecar n) = 16%nat.
Proof. unfold sidecar. rewrite !length_app, !length_le_enc. done. Qed.

Lemma length_header_rest n : length (header_rest n) = (Z.to_nat Nsb1.nsPageSize - 61)%nat.
Proof.
  pose proof npage_ge. unfold header_rest. rewrite !length_app, !length_zeros, length_sidecar. lia.
Qed.

Lemma write_sidecar hdr nodes n :
  length hdr = 61%nat ->
  writePageStoreSidecar (hdr ++ zeros (Z.to_nat Nsb1.nsPageSize - 61) ++ nodes) n
  = hdr ++ header_rest n ++ nodes.
Proof.
  intros Hh. pose proof npage_ge. unfold writePageStoreSidecar. fold (sidecar n).
  replace (Z.to_nat Nsb1.nsPageSize - 61)%nat
    with (3 + (16 + (Z.to_nat Nsb1.nsPageSize - 80)))%nat by lia.
  rewrite !zeros_app, <-!app_assoc, app_assoc.
  rewrite put_exact by (rewrite ?length_app, ?Hh, ?length_zeros, ?length_sidecar; done).
  unfold header_rest. by rewrite <-!app_assoc.
Qed.

Lemma read_sidecar hdr n rest :
  length hdr = 61%nat ->
  sub (hdr ++ header_rest n ++ rest) pageStoreSidecarOffset pageStoreSidecarSize = sidecar n.
Proof.
  intros Hh. unfold header_rest.
  replace (hdr ++ (zeros 3 ++ sidecar n ++ zeros (Z.to_nat Nsb1.nsPageSize - 80)) ++ rest)
    with ((hdr ++ zeros 3) ++ sidecar n ++ (zeros (Z.to_nat Nsb1.nsPageSize - 80) ++ rest))
    by (by rewrite <-!app_assoc).
  apply sub_exact'; [|by rewrite length_sidecar]. rewrite length_app, Hh. done.
Qed.

Lemma sidecar_fields n : in_u 32 n ->
  sub (sidecar n) 0 4 = pageStoreSidecarMagic /\ get_u16 (sidecar n) 4 = SnapshotFormatVersion /\
  get_u32 (sidecar n) 8 = PageSize /\ get_u32 (sidecar n) 12 = n.
Proof.
  intros Hn. pose proof PageSize_val as HP. unfold sidecar, get_u16, get_u32. split_and!.
  - rewrite sub_app_l by (cbn; lia). done.
  - rewrite sub_exact' by done. done.
  - rewrite (app_assoc _ (le_enc 2 0)), (app_assoc pageStoreSidecarMagic).
    rewrite sub_exact' by (rewrite ?length_app, ?length_le_enc; done).
    apply le_dec_enc_small. change (256 ^ Z.of_nat 4) with (2 ^ 32). lia.
  - rewrite (app_assoc _ (le_enc 4 PageSize)), (app_assoc _ (le_enc 2 0 ++ le_enc 4 PageSize)),
      (app_assoc pageStoreSidecarMagic).
    rewrite <-(app_nil_r (le_enc 4 (u32 n))).
    rewrite sub_exact' by (rewrite ?length_app, ?length_le_enc; done).
    unfold u32. rewrite wrapu_small by done. by apply le_dec_enc_small.
Qed.
Definition byKey_ok (keyOf : Uint128 -> Z) (c : PerTraceCache) (byKey : list (Z * list Uint128)) : Prop :=
  Forall (chain_ok keyOf c) byKey /\ StronglySorted Z.lt byKey.*1 /\ Forall (in_u 64) byKey.*1 /\
  Z.of_nat (length (concat byKey.*2)) < 2 ^ 32.

Lemma byKey_lengths keyOf c byKey :
  Forall (chain_ok keyOf c) byKey ->
  (length byKey <= length (concat byKey.*2))%nat /\
  length (concat (chains_of c byKey).*2)
    = sum_list ((fun kc => sum_list ((fun h => 24 + length (page_of c h))%nat <$> kc.2)) <$> byKey) /\
  length (concat (chains_of c byKey).*2) = (length (concat byKey.*2) * (24 + psize))%nat.
Proof.
  induction 1 as [|[k chain] byKey [Hne Hf] _ (IH1 & IH2 & IH3)]; [done|].
  cbn [fst snd] in Hne, Hf. destruct (chain_payload_length _ _ _ _ Hf) as [Hl _].
  change (chains_of c ((k, chain) :: byKey)) with ((k, chain_payload c chain) :: chains_of c byKey).
  rewrite !fmap_cons. cbn [concat fst snd length]. rewrite !length_app, IH2.
  assert (length (chain_payload c chain) = length chain * (24 + psize))%nat as Hc.
  { rewrite Hl. clear -Hf. induction Hf as [|h chain (_ & _ & Hp & _) _ IH]; [done|].
    rewrite fmap_cons. change (sum_list (?x :: ?l)) with (x + sum_list l)%nat.
    rewrite IH, Hp. cbn [length]. lia. }
  split_and!.
  - destruct chain; [done|]. cbn [length]. lia.
  - change (sum_list (?x :: ?l)) with (x + sum_list l)%nat. by rewrite Hl.
  - rewrite <-IH2, IH3, Hc. lia.
Qed.

(** The tree over a list of store entries, and its size, which depends on their
    number only: the sizing pass and the final pass build trees of one size. *)
Definition store_order : nat := Z.to_nat (Nsb1.nsOrder pageStoreDescSize).
Definition store_pages (n : nat) : nat := Nsb1.image_pages store_order n.
Definition store_image (root commit : Z) (nodes : list Z) (n : nat) : list Z :=
  Nsb1.header_bytes root commit pageStoreFlags (Z.of_nat (store_pages n)) ++
  zeros (Z.to_nat Nsb1.nsPageSize - 61) ++ nodes.

Record store_entries (ks : list Z) (es : list Nsb1.nsEntry) : Prop := {
  se_keys : Nsb1.key <$> es = ks;
  se_desc : Forall (fun e => len (Nsb1.desc e) = pageStoreDescSize) es }.

Lemma store_desc_ge : 8 <= pageStoreDescSize.
Proof. unfold pageStoreDescSize, Nsb1.nsDescSizeTypeB. lia. Qed.
Lemma store_order_ge : 16 <= Nsb1.nsOrder pageStoreDescSize.
Proof. rewrite nsOrder_store. lia. Qed.
Lemma store_pages_bound n : (1 <= store_pages n <= 2 * n + 1)%nat.
Proof.
  split; [unfold store_pages, Nsb1.image_pages; lia|].
  apply Nsb1.image_pages_bound. unfold store_order. rewrite nsOrder_store. lia.
Qed.

Lemma store_entries_ok ks es :
  StronglySorted Z.lt ks -> Forall (in_u 64) ks -> len ks < 2 ^ 60 -> store_entries ks es ->
  Nsb1.keys_ok es /\ Nsb1.ascending es /\ len es < 2 ^ 60 /\ length es = length ks.
Proof.
  intros Hs Hu Hl [Hk _]. assert (length es = length ks) as E.
  { apply (f_equal length) in Hk. by rewrite length_fmap in Hk. }
  split_and!; [|unfold Nsb1.ascending; by rewrite Hk|unfold len in *; lia|done].
  unfold Nsb1.keys_ok. rewrite <-Hk in Hu. rewrite Forall_fmap in Hu. exact Hu.
Qed.

Lemma store_image_built ks es :
  StronglySorted Z.lt ks -> Forall (in_u 64) ks -> len ks < 2 ^ 60 -> store_entries ks es ->
  exists root commit nodes,
    Nsb1.nsBulkLoad es pageStoreDescSize pageStoreFlags = Ok (store_image root commit nodes (length ks)) /\
    len (store_image root commit nodes (length ks)) = Z.of_nat (store_pages (length ks)) * Nsb1.nsPageSize /\
    Nsb1.loaded store_order (Z.to_nat pageStoreDescSize) (length ks) es root commit nodes.
Proof.
  intros Hs Hu Hl He. destruct (store_entries_ok ks es Hs Hu Hl He) as (Hk & Ha & Hb & Hn).
  destruct (Nsb1.nsBulkLoad_loaded es pageStoreDescSize pageStoreFlags)
    as (root & commit & nodes & E & L);
    [exact store_desc_ge|exact store_order_ge|exact Hk|exact Ha|exact (se_desc _ _ He)|exact Hb|].
  rewrite Hn in E, L. exists root, commit, nodes. split_and!; [exact E| |exact L].
  pose proof npage_ge as H80. pose proof Nsb1.nsPageSize_val as HNS.
  destruct L as [Hp Hnd _]. unfold store_image, store_pages, store_order in *. rewrite !len_app. unfold len.
  rewrite Nsb1.length_header_bytes, length_zeros, Hnd, Hp, Nat2Z.inj_mul. nia.
Qed.

Lemma store_image_collect ks es root commit nodes rest tail :
  StronglySorted Z.lt ks -> Forall (in_u 64) ks -> len ks < 2 ^ 60 -> store_entries ks es ->
  Nsb1.loaded store_order (Z.to_nat pageStoreDescSize) (length ks) es root commit nodes ->
  length rest = (Z.to_nat Nsb1.nsPageSize - 61)%nat -> len tail mod Nsb1.nsPageSize = 0 ->
  Nsb1.nsCollect (Nsb1.header_bytes root commit pageStoreFlags (Z.of_nat (store_pages (length ks))) ++
                  rest ++ nodes ++ tail) pageStoreDescSize = Ok es.
Proof.
  intros Hs Hu Hl He L Hr Ht. destruct (store_entries_ok ks es Hs Hu Hl He) as (Hk & Ha & Hb & Hn).
  unfold store_pages, store_order. rewrite <-Hn in *.
  apply Nsb1.nsCollect_loaded;
    [exact store_desc_ge|exact store_order_ge|exact Hk|exact Ha|exact Hb|exact L|exact Hr|exact Ht].
Qed.

Definition pad_of (n : nat) : Z := (Nsb1.nsPageSize - Z.of_nat n mod Nsb1.nsPageSize) mod Nsb1.nsPageSize.

Lemma pad_of_bounds n : 0 <= pad_of n < Nsb1.nsPageSize.
Proof. pose proof Nsb1.nsPageSize_val. apply Z.mod_pos_bound. lia. Qed.

Lemma pad_of_aligns n (payload : list Z) :
  length payload = n -> len (zeros (Z.to_nat (pad_of n)) ++ payload) mod Nsb1.nsPageSize = 0.
Proof.
  intros <-. pose proof Nsb1.nsPageSize_val as HNS. pose proof (pad_of_bounds (length payload)).
  rewrite len_app. unfold len at 1. rewrite length_zeros, Z2Nat.id by lia.
  fold (len payload). unfold pad_of. fold (len payload). rewrite Zplus_mod_idemp_l.
  rewrite (Z.div_mod (len payload) Nsb1.nsPageSize) at 2 by lia.
  replace (Nsb1.nsPageSize - len payload mod Nsb1.nsPageSize +
    (Nsb1.nsPageSize * (len payload / Nsb1.nsPageSize) + len payload mod Nsb1.nsPageSize))
    with ((1 + len payload / Nsb1.nsPageSize) * Nsb1.nsPageSize) by ring.
  apply Z_mod_mult.
Qed.

(** The bytes of a store: the tree with the version record in its header page,
    padding, and the records where the final entries point. *)
Lemma encode_chains_bytes keyOf c byKey (payload := concat (chains_of c byKey).*2)
    (pad := pad_of (length payload)) :
  byKey_ok keyOf c byKey ->
  exists root commit nodes final,
    let pre := Nsb1.header_bytes root commit pageStoreFlags (Z.of_nat (store_pages (length byKey))) ++
               header_rest (len byKey) ++ nodes ++ zeros (Z.to_nat pad) in
    encode_chains c byKey = Ok (pre ++ payload) /\
    place (Z.of_nat (store_pages (length byKey)) * Nsb1.nsPageSize + pad) (chains_of c byKey) [] = (final, payload) /\
    store_entries byKey.*1 final /\
    Nsb1.loaded store_order (Z.to_nat pageStoreDescSize) (length byKey) final root commit nodes /\
    len pre = Z.of_nat (store_pages (length byKey)) * Nsb1.nsPageSize + pad.
Proof.
  intros (Hok & Hs & Hu & Hbig). destruct (byKey_lengths _ _ _ Hok) as (Hlb & Hpay & _).
  assert (len byKey.*1 < 2 ^ 60 /\ length byKey.*1 = length byKey) as [Hl Hn]
    by (unfold len; rewrite length_fmap; lia).
  unfold encode_chains. fold (chains_of c byKey).
  set (sizing := (fun kc => Nsb1.mkEntry kc.1 (zeros (Z.to_nat pageStoreDescSize))) <$> byKey).
  assert (store_entries byKey.*1 sizing) as He0.
  { split; unfold sizing; [by rewrite <-list_fmap_compose|].
    apply Forall_fmap, Forall_true. intros. unfold compose. cbn [Nsb1.desc].
    unfold len. by rewrite length_zeros. }
  destruct (store_image_built _ _ Hs Hu Hl He0) as (r0 & cm0 & nd0 & E0 & L0 & _).
  rewrite Hn in *. rewrite E0, L0, <-Hpay. fold payload. fold (pad_of (length payload)). fold pad.
  destruct (place _ (chains_of c byKey) []) as [final p] eqn:Ep.
  pose proof (place_payload _ _ _ _ _ Ep) as Hp. cbn [app] in Hp. fold payload in Hp. subst p.
  destruct (place_entries _ _ _ _ _ Ep) as [Hkf Hdf].
  assert ((chains_of c byKey).*1 = byKey.*1) as Hck by (unfold chains_of; by rewrite <-list_fmap_compose).
  rewrite Hck in Hkf. assert (store_entries byKey.*1 final) as He by (by split).
  destruct (store_image_built _ _ Hs Hu Hl He) as (root & commit & nodes & E1 & L1 & LD).
  rewrite Hn in *. rewrite E1, L1, Z.eqb_refl, Nat.eqb_refl. cbn [negb orb].
  exists root, commit, nodes, final. split_and!; [|done|done|done|].
  - unfold store_image. rewrite write_sidecar by done. by rewrite <-!app_assoc.
  - pose proof (pad_of_bounds (length payload)) as Hb. fold pad in Hb.
    rewrite <-L1. unfold store_image. rewrite !len_app. unfold len.
    rewrite length_header_rest, !length_zeros. lia.
Qed.

Lemma encode_decode_chains keyOf c byKey :
  byKey_ok keyOf c byKey ->
  exists raw, encode_chains c byKey = Ok raw /\ raw <> [] /\
    decodePageStoreKeyed raw keyOf = Ok (foldl (insert_page c) NewPerTraceCache (concat byKey.*2)).
Proof.
  intros Hall. pose proof Hall as (Hok & Hs & Hu & Hbig).
  destruct (encode_chains_bytes _ _ _ Hall) as (root & commit & nodes & final & E & Ep & He & L & Hpre).
  destruct (byKey_lengths _ _ _ Hok) as (Hlb & _ & Hpay).
  set (payload := concat (chains_of c byKey).*2) in *. set (pad := pad_of (length payload)) in *.
  pose proof (pad_of_bounds (length payload)) as Hpad. fold pad in Hpad.
  pose proof (store_pages_bound (length byKey)) as Hc.
  pose proof Nsb1.nsPageSize_val as HNS. pose proof PageSize_val as HPS. pose proof psize_val as Hps.
  assert (len byKey.*1 < 2 ^ 60 /\ length byKey.*1 = length byKey) as [Hl Hn]
    by (unfold len; rewrite length_fmap; lia).
  eexists. split; [exact E|]. set (pre := _ ++ header_rest _ ++ _) in *.
  assert (len (pre ++ payload) = Z.of_nat (store_pages (length byKey)) * Nsb1.nsPageSize + pad + Z.of_nat (length payload)) as Hraw
    by (rewrite len_app, Hpre; done).
  set (raw := pre ++ payload) in *.
  split; [intros E0; rewrite E0 in Hraw; change (len (@nil Z)) with 0 in Hraw; nia|].
  unfold decodePageStoreKeyed.
  destruct (Z.eqb_spec (len raw) 0); [nia|]. destruct (Z.ltb_spec (len raw) Nsb1.nsPageSize); [nia|].
  change (sub raw 0 4) with Nsb1.nsMagic. rewrite bool_decide_false by tauto.
  assert (sub raw pageStoreSidecarOffset pageStoreSidecarSize = sidecar (len byKey)) as ->.
  { unfold raw, pre. rewrite <-!app_assoc. by apply read_sidecar. }
  destruct (sidecar_fields (len byKey)) as (-> & -> & -> & ->); [unfold in_u, len; lia|].
  rewrite bool_decide_false by tauto. rewrite !Z.eqb_refl.
  change (raw !!! Nsb1.nsOffFlags) with pageStoreFlags.
  change (Z.land pageStoreFlags Nsb1.nsFlagLeafTypeB =? 0) with false. cbn [negb].
  assert (Nsb1.nsCollect raw pageStoreDescSize = Ok final) as ->.
  { unfold raw, pre. rewrite <-!app_assoc. rewrite <-Hn in *.
    apply (store_image_collect byKey.*1); [done..| |].
    - apply length_header_rest.
    - by apply pad_of_aligns. }
  destruct (store_entries_ok _ _ Hs Hu Hl He) as (_ & _ & _ & Hfl).
  assert (len final = len byKey) as -> by (unfold len; lia). rewrite Z.eqb_refl. cbn [negb].
  eapply (decode_placed keyOf c _ byKey [] final payload raw pre); [exact Ep|done| | | |done].
  - rewrite len_nil. lia.
  - nia.
  - rewrite Hraw. nia.
Qed.
(** ** Round trip *)

(** What the encoder's callers keep true of a per-trace cache: pages of one
    size, each filed under its digest. *)
Definition store_ok (c : PerTraceCache) : Prop :=
  map_Forall (fun h page => Uint128_ok h /\ length page = psize /\ HashPage page = h) (pages c).

Lemma by_key_byKey_ok keyOf c :
  store_ok c -> (forall h, Uint128_ok h -> in_u 64 (keyOf h)) -> PerTrace_Len c < 2 ^ 32 ->
  byKey_ok keyOf c (by_key keyOf (map_order c)) /\
  concat (by_key keyOf (map_order c)).*2 ≡ₚ map_order c.
Proof.
  intros Hc Hk Hn.
  assert (forall h, h ∈ map_order c -> Uint128_ok h /\ length (page_of c h) = psize /\ HashPage (page_of c h) = h)
    as Hp.
  { intros h [p Hp]%elem_of_map_order. unfold page_of. rewrite Hp. apply (Hc h p Hp). }
  assert (NoDup (map_order c)) as Hnd by apply NoDup_fst_map_to_list.
  pose proof (by_key_all keyOf _ Hnd) as Hall. split; [|done]. split_and!.
  - apply Forall_forall. intros kc Hin. destruct (by_key_ok _ _ _ Hin) as [Hne Hf].
    split; [done|]. eapply Forall_impl; [exact Hf|]. intros h [E Hh].
    destruct (Hp h Hh) as (? & ? & ?). by split_and!.
  - unfold by_key. rewrite <-list_fmap_compose. change (fst ∘ _) with (@id Z). rewrite list_fmap_id.
    apply sorted_keys_lt.
  - apply Forall_fmap, Forall_forall. intros kc Hin. unfold compose.
    destruct (by_key_ok _ _ _ Hin) as [Hne Hf]. destruct (kc.2) as [|h l]; [done|].
    apply Forall_cons in Hf as [[<- Hh] _]. apply Hk, (Hp h Hh).
  - rewrite Hall. unfold map_order. rewrite length_fmap, length_map_to_list. exact Hn.
Qed.

Lemma truncatedKey_ok h : Uint128_ok h -> in_u 64 (truncatedKey h).
Proof. by intros [? _]. Qed.

Lemma decodePageStore_encode keyOf c :
  store_ok c -> (forall h, Uint128_ok h -> in_u 64 (keyOf h)) -> PerTrace_Len c < 2 ^ 32 ->
  exists raw, encodePageStoreKeyed c keyOf = Ok raw /\ decodePageStoreKeyed raw keyOf = Ok c.
Proof.
  intros Hc Hk Hn. destruct (by_key_byKey_ok keyOf c Hc Hk Hn) as [Hok Hall].
  destruct (encode_decode_chains keyOf c _ Hok) as (raw & E & _ & D).
  exists raw. split; [exact E|]. by rewrite D, insert_all_pages.
Qed.

(** C38: the page store decodes to exactly the cache it was encoded from,
    whatever key function files the digests, so also when distinct digests
    share a key: encoding never panics and no page is lost or duplicated. *)
Theorem page_store_roundtrip keyOf c :
  store_ok c -> (forall h, Uint128_ok h -> in_u 64 (keyOf h)) -> PerTrace_Len c < 2 ^ 32 ->
  exists raw, encodePageStoreKeyed c keyOf = Ok raw /\ decodePageStoreKeyed raw keyOf = Ok c.
Proof. apply decodePageStore_encode. Qed.

Definition one_page_cache : PerTraceCache :=
  PerTrace_Insert NewPerTraceCache (HashPage one_page) one_page.

Lemma one_page_cache_ok : store_ok one_page_cache /\ PerTrace_Len one_page_cache = 1.
Proof.
  unfold store_ok, PerTrace_Len, one_page_cache, PerTrace_Insert. cbn [pages NewPerTraceCache].
  rewrite lookup_empty. cbn [pages]. split; [|by rewrite insert_empty, map_size_singleton].
  apply map_Forall_insert_2; [|apply map_Forall_empty]. split_and!; [|apply length_zeros|done].
  apply Hash128_ok, zeros_bytes.
Qed.

Lemma page_store_roundtrip_witness :
  exists raw, encodePageStoreKeyed one_page_cache truncatedKey = Ok raw /\
    decodePageStoreKeyed raw truncatedKey = Ok one_page_cache.
Proof.
  apply page_store_roundtrip.
  - apply one_page_cache_ok.
  - apply truncatedKey_ok.
  - destruct one_page_cache_ok as [_ ->]. lia.
Defined.

(** The bytes of the page store do not depend on the order in which the
    map of pages is iterated. *)
Theorem page_store_deterministic hs keyOf c :
  hs ≡ₚ map_order c -> encodePageStoreKeyed_in hs c keyOf = encodePageStoreKeyed c keyOf.
Proof.
  intros H. unfold encodePageStoreKeyed, encodePageStoreKeyed_in. by rewrite (by_key_permutation keyOf _ _ H).
Qed.

Lemma page_store_deterministic_witness :
  encodePageStoreKeyed_in (reverse (map_order one_page_cache)) one_page_cache truncatedKey
  = encodePageStoreKeyed one_page_cache truncatedKey.
Proof. apply page_store_deterministic. apply reverse_Permutation. Defined.

End PageStore.
