(* ===== verification/Container.v ===== *)
(** * Snapshot sets ([src/internal/wasmsnapshot/container.go])

    [Builder] accumulates the quiescent points of a recording and the snapshots
    taken at some of them, and renders six streams; [Set_] is what a reader has
    after [Load].  The promise between the two is stated once, as an abstract
    index: a list of points, each with the snapshot it carries and whether it
    is a base.  [builder_refines_index] shows that every sequence of builder
    operations succeeds or fails exactly as on that index, and
    [load_returns_index] that a reader of the streams observes the index and
    nothing else. *)
From S2P Require Import Prelude GoStd Base40 Ctfs Xxh3 SnapTypes Streams PageCas PageStore.
Import GoStd Xxh3 SnapTypes Streams PageCas PageStore.

Module Container.

(** ** Building *)
Record QuiescentPoint : Type := mkQuiescentPoint {
  qp_Ordinal : Z; qp_ExportsBefore : Z; qp_CrossingSeq : Z; qp_NextExport : gostring }.

#[export] Instance QuiescentPoint_eq_dec : EqDecision QuiescentPoint.
Proof. solve_decision. Defined.

Record Builder : Type := mkBuilder {
  b_points : list QuiescentPoint; b_tiers : Tiers; b_opts : EncodeOptions;
  b_records : list IndexRecord;
  b_lay : list Z; b_mem : list Z; b_glob : list Z; b_tab : list Z;
  b_bySeq : gmap Z nat }.

Definition NewIncrementalBuilder (tiers : option Tiers) (opts : EncodeOptions)
    : result snap_err Builder :=
  match tiers with
  | None => Err NoPerTraceTier
  | Some t =>
      reject bool_decide (PerTrace t = None) as NoPerTraceTier ;;
      Ok (mkBuilder [] t opts [] [] [] [] [] ∅)
  end.

(** The record of a point that carries no snapshot. *)
Definition new_record (p : QuiescentPoint) : IndexRecord :=
  mkIndexRecord (u32 (qp_Ordinal p)) (u32 (qp_ExportsBefore p)) (i32 (qp_CrossingSeq p)) 0 0 0 0 0 0 0 0.

Definition AddPoint (b : Builder) (p : QuiescentPoint) : result snap_err Builder :=
  reject bool_decide (is_Some (b_bySeq b !! qp_Ordinal p)) as DuplicatePoint (qp_Ordinal p) ;;
  reject match last (b_points b) with
         | Some q => qp_Ordinal p <=? qp_Ordinal q
         | None => false
         end as PointOutOfOrder (qp_Ordinal p) ;;
  Ok (mkBuilder (b_points b ++ [p]) (b_tiers b) (b_opts b) (b_records b ++ [new_record p])
        (b_lay b) (b_mem b) (b_glob b) (b_tab b)
        (<[qp_Ordinal p := length (b_points b)]> (b_bySeq b))).

Definition NewBuilder (points : list QuiescentPoint) (tiers : option Tiers) (opts : EncodeOptions)
    : result snap_err Builder :=
  let! b := NewIncrementalBuilder tiers opts in foldm AddPoint b points.

Definition PointCount (b : Builder) : Z := len (b_points b).

(** The builder's tiers have a per-trace tier; without one this is a nil
    dereference. *)
Definition PayloadBytes (b : Builder) : result snap_err Z :=
  match PerTrace (b_tiers b) with
  | None => Err Panic
  | Some c =>
      Ok (i64 (i64 (len (b_lay b) + len (b_mem b) + len (b_glob b) + len (b_tab b)) + PerTrace_Bytes c))
  end.

Definition with_tiers (b : Builder) (t : Tiers) : Builder :=
  mkBuilder (b_points b) t (b_opts b) (b_records b) (b_lay b) (b_mem b) (b_glob b) (b_tab b) (b_bySeq b).
Definition with_records (b : Builder) (rs : list IndexRecord) : Builder :=
  mkBuilder (b_points b) (b_tiers b) (b_opts b) rs (b_lay b) (b_mem b) (b_glob b) (b_tab b) (b_bySeq b).

(** File offsets of inline regions are relative to the whole stream. *)
Definition rebase (base : Z) (r : Region) : Region :=
  if Kind r =? KindFull
  then mkRegion (Base r) (Size r) (Protect r) (RegFlags r) (Kind r) (u64 (FileOffset r + base)) (Hashes r) (Runs r)
  else r.

Definition snapshot_record (b : Builder) (r : IndexRecord) (s : Snapshot) (lay glob tab : list Z) : IndexRecord :=
  mkIndexRecord (Ordinal r) (ExportsBefore r) (CrossingSeq r) (Z.lor (Flags r) flagHasSnapshot) (SnapMemoryBytes s)
    (len (b_lay b)) (len lay) (len (b_glob b)) (len glob) (len (b_tab b)) (len tab).

(** An error leaves the builder as it was, except for the pages filed before
    the memory's encoding failed. *)
Definition Add (b : Builder) (s : Snapshot) : result (snap_err * Builder) Builder :=
  match b_bySeq b !! Point s with
  | None => Err (UnknownPoint (Point s), b)
  | Some i =>
      match b_records b !! i with
      | None => Err (Panic, b)
      | Some r =>
          reject HasSnapshot r as (AlreadySnapshotted (Point s), b) ;;
          match EncodeMemory (default [] (Memory s)) (Some (b_tiers b)) 0 (b_opts b) with
          | Err (e, t) => Err (e, with_tiers b (default (b_tiers b) t))
          | Ok (regions, inline, t) =>
              let regions := rebase (len (b_mem b)) <$> regions in
              let lay := encodeRegions regions in
              let glob := encodeGlobals (Globals s) in
              let tab := encodeTables (Tables s) in
              Ok (mkBuilder (b_points b) t (b_opts b)
                    (<[i := snapshot_record b r s lay glob tab]> (b_records b))
                    (b_lay b ++ lay) (b_mem b ++ inline) (b_glob b ++ glob) (b_tab b ++ tab) (b_bySeq b))
          end
      end
  end.

Definition base_record (r : IndexRecord) : IndexRecord :=
  mkIndexRecord (Ordinal r) (ExportsBefore r) (CrossingSeq r) (Z.lor (Flags r) flagBaseSnapshot) (MemoryBytes r)
    (LayOffset r) (LayLength r) (GlobOffset r) (GlobLength r) (TabOffset r) (TabLength r).

Definition MarkBase (b : Builder) (point : Z) : result snap_err Builder :=
  match b_bySeq b !! point with
  | None => Err (UnknownPoint point)
  | Some i =>
      match b_records b !! i with
      | None => Err Panic
      | Some r =>
          reject negb (HasSnapshot r) as NoSnapshot point ;;
          Ok (with_records b (<[i := base_record r]> (b_records b)))
      end
  end.

Definition count_snapshots (rs : list IndexRecord) : Z := len (filter (fun r => HasSnapshot r = true) rs).

Definition SnapshotCount (b : Builder) : Z := count_snapshots (b_records b).

(** The rendered streams, by name. *)
Definition Streams (b : Builder) : result snap_err (stream -> list Z) :=
  match PerTrace (b_tiers b) with
  | None => Err Panic
  | Some c =>
      let! pages := encodePageStore c in
      Ok (fun s => match s with
                   | NamespaceIndex => encodeIndex (b_records b)
                   | NamespaceLayout => b_lay b
                   | NamespaceInlineMem => b_mem b
                   | NamespacePages => pages
                   | NamespaceGlobals => b_glob b
                   | NamespaceTables => b_tab b
                   end)
  end.

(** ** Reading *)
Record Set_ : Type := mkSet {
  s_records : list IndexRecord;
  s_lay : list Z; s_mem : list Z; s_glob : list Z; s_tab : list Z; s_tiers : Tiers }.

Definition stream_name (s : stream) : gostring :=
  match s with
  | NamespaceIndex => $"snapshot.idx"
  | NamespaceLayout => $"snapshot.lay"
  | NamespaceInlineMem => $"snapshot.mem"
  | NamespacePages => $"snappages.ns"
  | NamespaceGlobals => $"snapglob.dat"
  | NamespaceTables => $"snaptab.dat"
  end.

(** The three-valued return: a set, a diagnostic, or an error. *)
Inductive diagnostic : Type :=
| NoNamespace
| Incomplete (missing : stream)
| UnsupportedVersion (s : stream) (v : Z).
Inductive loaded : Type :=
| LoadSet (s : Set_)
| LoadDiagnostic (d : diagnostic)
| LoadCtfsError (e : Ctfs.ctfs_err)
| LoadError (e : snap_err).

(** [errors.As(err, &uv)]. *)
Definition version_gate (e : snap_err) : loaded :=
  match e with
  | UnsupportedVersionError s v => LoadDiagnostic (UnsupportedVersion s v)
  | _ => LoadError e
  end.

(** The loop over the names: the streams read so far, or what [Load] returns. *)
Fixpoint read_streams (c : Ctfs.Container) (f : list Z) (names : list stream)
    (raw : stream -> list Z) : loaded + (stream -> list Z) :=
  match names with
  | [] => inr raw
  | n :: names =>
      if negb (Ctfs.Has c (stream_name n)) then inl (LoadDiagnostic (Incomplete n))
      else
        match Ctfs.ReadFile c f (stream_name n) with
        | Err e => inl (LoadCtfsError e)
        | Ok b => read_streams c f names (fun s => if decide (s = n) then b else raw s)
        end
  end.

Definition load_streams (raw : stream -> list Z) (system : option SystemCache) (useSystemCache : bool) : loaded :=
  match decodeIndex (raw NamespaceIndex) with
  | Err e => version_gate e
  | Ok records =>
      match decodePageStore (raw NamespacePages) with
      | Err e => version_gate e
      | Ok pages =>
          LoadSet (mkSet records (raw NamespaceLayout) (raw NamespaceInlineMem)
                     (raw NamespaceGlobals) (raw NamespaceTables)
                     (mkTiers (Some pages) (if useSystemCache then system else None) []))
      end
  end.

Definition Load (f : list Z) (system : option SystemCache) (useSystemCache : bool) : loaded :=
  match Ctfs.Open f with
  | Err e => LoadCtfsError e
  | Ok c =>
      if negb (Ctfs.Has c (stream_name NamespaceIndex)) then LoadDiagnostic NoNamespace
      else
        match read_streams c f NamespaceNames (fun _ => []) with
        | inl r => r
        | inr raw => load_streams raw system useSystemCache
        end
  end.

Definition Points (s : Set_) : list IndexRecord := s_records s.
Definition Set_SnapshotCount (s : Set_) : Z := count_snapshots (s_records s).

Definition Range (s : Set_) : Z * Z * bool :=
  match s_records s, last (s_records s) with
  | first :: _, Some l => (Ordinal first, Ordinal l, IsBase first && HasSnapshot first)
  | _, _ => (0, 0, false)
  end.

Fixpoint nearest_loop (rs : list IndexRecord) (point : Z) (best : option IndexRecord) : option IndexRecord :=
  match rs with
  | [] => best
  | r :: rs =>
      if point <? Ordinal r then best
      else nearest_loop rs point (if HasSnapshot r then Some r else best)
  end.
Definition Nearest (s : Set_) (point : Z) : option IndexRecord := nearest_loop (s_records s) point None.

(** [off+length] wraps, and a slice expression whose bounds are then out of
    order panics. *)
Definition sliceOf (b : list Z) (off length_ : Z) (name : stream) : result snap_err (list Z) :=
  let fin := u64 (off + length_) in
  reject len b <? fin as SliceOutOfRange name ;;
  reject fin <? off as Panic ;;
  Ok (sub b (Z.to_nat off) (Z.to_nat length_)).

Definition Set_Snapshot (s : Set_) (r : IndexRecord) : result snap_err Snapshot :=
  reject negb (HasSnapshot r) as NoSnapshot (Ordinal r) ;;
  let! lay := sliceOf (s_lay s) (LayOffset r) (LayLength r) NamespaceLayout in
  let! regions := decodeRegions lay in
  let! memory := MaterialiseMemory regions (s_mem s) (s_tiers s) (MemoryBytes r) in
  let! globRaw := sliceOf (s_glob s) (GlobOffset r) (GlobLength r) NamespaceGlobals in
  let! globals := decodeGlobals globRaw in
  let! tabRaw := sliceOf (s_tab s) (TabOffset r) (TabLength r) NamespaceTables in
  let! tables := decodeTables tabRaw in
  Ok (mkSnapshot (Ordinal r) (MemoryBytes r) (if 0 <? MemoryBytes r then Some memory else None) globals tables).
(** ** The abstract index

    One entry per declared point, in order. *)
Record entry : Type := mkEntry { en_point : QuiescentPoint; en_snap : option Snapshot; en_base : bool }.
Notation index := (list entry).

Definition ordinal (e : entry) : Z := qp_Ordinal (en_point e).

Fixpoint find_entry (a : index) (o : Z) : option nat :=
  match a with
  | [] => None
  | e :: a => if ordinal e =? o then Some 0%nat else S <$> find_entry a o
  end.

Definition index_AddPoint (a : index) (p : QuiescentPoint) : result snap_err index :=
  match find_entry a (qp_Ordinal p), last a with
  | Some _, _ => Err (DuplicatePoint (qp_Ordinal p))
  | None, Some q =>
      reject qp_Ordinal p <? ordinal q as PointOutOfOrder (qp_Ordinal p) ;;
      Ok (a ++ [mkEntry p None false])
  | None, None => Ok [mkEntry p None false]
  end.

Definition index_Add (a : index) (s : Snapshot) : result snap_err index :=
  match find_entry a (Point s) ≫= fun i => pair i <$> a !! i with
  | None => Err (UnknownPoint (Point s))
  | Some (i, e) =>
      match en_snap e with
      | Some _ => Err (AlreadySnapshotted (Point s))
      | None => Ok (<[i := mkEntry (en_point e) (Some s) (en_base e)]> a)
      end
  end.

Definition index_MarkBase (a : index) (o : Z) : result snap_err index :=
  match find_entry a o ≫= fun i => pair i <$> a !! i with
  | None => Err (UnknownPoint o)
  | Some (i, e) =>
      match en_snap e with
      | None => Err (NoSnapshot o)
      | Some _ => Ok (<[i := mkEntry (en_point e) (en_snap e) true]> a)
      end
  end.

Inductive builder_op : Type :=
| OpAddPoint (p : QuiescentPoint)
| OpAdd (s : Snapshot)
| OpMarkBase (o : Z).

Definition index_step (a : index) (op : builder_op) : result snap_err index :=
  match op with
  | OpAddPoint p => index_AddPoint a p
  | OpAdd s => index_Add a s
  | OpMarkBase o => index_MarkBase a o
  end.

Definition builder_step (b : Builder) (op : builder_op) : result snap_err Builder :=
  match op with
  | OpAddPoint p => AddPoint b p
  | OpAdd s => match Add b s with Ok b => Ok b | Err (e, _) => Err e end
  | OpMarkBase o => MarkBase b o
  end.

(** ** What one record of a builder holds *)
Record streams_at : Type := mkStreamsAt {
  at_tiers : Tiers; at_lay : list Z; at_mem : list Z; at_glob : list Z; at_tab : list Z }.

(** [slice_at b off n bs]: the slice [b[off:off+n]] exists and is [bs]. *)
Definition slice_at (b : list Z) (off n : Z) (bs : list Z) : Prop :=
  0 <= off /\ n = len bs /\ off + n <= len b /\ sub b (Z.to_nat off) (length bs) = bs.

Definition snapshot_ok (s : Snapshot) : Prop :=
  match Memory s with
  | None => SnapMemoryBytes s = 0
  | Some m => m <> [] /\ bytes_ok m /\ SnapMemoryBytes s = len m /\ len m mod PageSize = 0 /\ len m <= 2 ^ 32
  end /\
  Forall GlobalValue_ok (Globals s) /\ in_u 32 (len (Globals s)) /\
  Forall TableValue_ok (Tables s) /\ in_u 32 (len (Tables s)).

Definition point_ok (p : QuiescentPoint) : Prop :=
  in_u 32 (qp_Ordinal p) /\ in_u 32 (qp_ExportsBefore p) /\ in_s 32 (qp_CrossingSeq p).

Record snapshot_held (st : streams_at) (r : IndexRecord) (s : Snapshot) : Prop := {
  sh_regions : exists regions,
    slice_at (at_lay st) (LayOffset r) (LayLength r) (encodeRegions regions) /\
    Forall Region_ok regions /\ in_u 32 (len regions) /\
    tiled (at_tiers st) (at_mem st) 0 regions (default [] (Memory s));
  sh_glob : slice_at (at_glob st) (GlobOffset r) (GlobLength r) (encodeGlobals (Globals s));
  sh_tab : slice_at (at_tab st) (TabOffset r) (TabLength r) (encodeTables (Tables s));
  sh_bytes : MemoryBytes r = SnapMemoryBytes s;
  sh_point : Point s = Ordinal r;
  sh_ok : snapshot_ok s }.

Definition entry_flags (e : entry) : Z :=
  (if en_snap e then flagHasSnapshot else 0) + (if en_base e then flagBaseSnapshot else 0).

Record entry_held (st : streams_at) (r : IndexRecord) (e : entry) : Prop := {
  eh_point : Ordinal r = ordinal e /\ ExportsBefore r = qp_ExportsBefore (en_point e) /\
             CrossingSeq r = qp_CrossingSeq (en_point e);
  eh_ok : point_ok (en_point e);
  eh_flags : Flags r = entry_flags e;
  eh_snap : match en_snap e with
            | Some s => snapshot_held st r s
            | None => MemoryBytes r = 0 /\ LayOffset r = 0 /\ LayLength r = 0 /\ GlobOffset r = 0 /\
                      GlobLength r = 0 /\ TabOffset r = 0 /\ TabLength r = 0
            end }.

Definition streams_of (b : Builder) : streams_at :=
  mkStreamsAt (b_tiers b) (b_lay b) (b_mem b) (b_glob b) (b_tab b).

(** [built P b a]: the builder [b] stands for the index [a]; its tiers are the
    per-trace tier alone, and hold pages of [P]. *)
Record built (P : list Z -> Prop) (b : Builder) (a : index) : Prop := {
  bt_points : b_points b = en_point <$> a;
  bt_bySeq : forall o, b_bySeq b !! o = find_entry a o;
  bt_sorted : StronglySorted Z.lt (ordinal <$> a);
  bt_held : Forall2 (entry_held (streams_of b)) (b_records b) a;
  bt_cache : exists c, b_tiers b = mkTiers (Some c) None [];
  bt_stores : stores P (b_tiers b) }.

(** ** Growing streams keep what they hold *)
Definition grows (st st' : streams_at) : Prop :=
  extends (at_tiers st) (at_tiers st') /\ at_lay st `prefix_of` at_lay st' /\
  at_mem st `prefix_of` at_mem st' /\ at_glob st `prefix_of` at_glob st' /\ at_tab st `prefix_of` at_tab st'.

#[export] Instance grows_preorder : PreOrder grows.
Proof.
  split.
  - intros st. split_and!; reflexivity.
  - intros a b c (? & ? & ? & ? & ?) (? & ? & ? & ? & ?). split_and!; etrans; eassumption.
Qed.

Lemma slice_at_grow b b' off n bs : b `prefix_of` b' -> slice_at b off n bs -> slice_at b' off n bs.
Proof.
  intros [k ->] (Ho & Hn & Hl & Hs). split_and!; [done|done| |].
  - rewrite len_app. pose proof (len_nonneg k). lia.
  - rewrite sub_app_l; [done|]. unfold len in *. lia.
Qed.

Lemma slice_at_end b bs : slice_at (b ++ bs) (len b) (len bs) bs.
Proof.
  pose proof (len_nonneg b). split_and!; [done|done|by rewrite len_app|].
  rewrite <-(app_nil_r bs) at 1. apply sub_exact'; [|done]. unfold len. lia.
Qed.

Lemma snapshot_held_grow st st' r s : grows st st' -> snapshot_held st r s -> snapshot_held st' r s.
Proof.
  intros (He & Hl & [k Hm] & Hg & Ht) [(rs & H1 & H2 & H3 & H4) H5 H6 H7 H8 H9].
  split; try done; [|by eapply slice_at_grow..].
  exists rs. split_and!; [by eapply slice_at_grow|done|done|]. rewrite Hm. by eapply tiled_mono.
Qed.

Lemma entry_held_grow st st' r e : grows st st' -> entry_held st r e -> entry_held st' r e.
Proof.
  intros Hg [H1 H2 H3 H4]. split; try done. destruct (en_snap e); [|done]. by eapply snapshot_held_grow.
Qed.
(** ** Simulation *)
Lemma find_entry_Some a o i : find_entry a o = Some i -> exists e, a !! i = Some e /\ ordinal e = o.
Proof.
  revert i. induction a as [|e a IH]; intros i H; cbn in H; [done|].
  destruct (Z.eqb_spec (ordinal e) o); [injection H as <-; by exists e|].
  destruct (find_entry a o) as [j|]; [|done]. injection H as <-. by apply IH.
Qed.

Lemma find_entry_snoc a e o :
  find_entry (a ++ [e]) o =
  match find_entry a o with
  | Some i => Some i
  | None => if ordinal e =? o then Some (length a) else None
  end.
Proof.
  induction a as [|x a IH]; cbn; [by destruct (ordinal e =? o)|].
  destruct (ordinal x =? o); [done|]. rewrite IH. destruct (find_entry a o); [done|].
  by destruct (ordinal e =? o).
Qed.

Lemma find_entry_ext a a' o : ordinal <$> a = ordinal <$> a' -> find_entry a o = find_entry a' o.
Proof.
  revert a'. induction a as [|e a IH]; intros [|e' a']; try done.
  intros [= He Ha]. cbn. rewrite He. destruct (ordinal e' =? o); [done|]. by rewrite (IH a').
Qed.

Lemma ordinals_insert (a : index) (i : nat) e e' :
  a !! i = Some e -> ordinal e' = ordinal e -> ordinal <$> <[i := e']> a = ordinal <$> a.
Proof.
  intros Hi He. rewrite list_fmap_insert, He. apply list_insert_id.
  by rewrite list_lookup_fmap, Hi.
Qed.

Lemma HasSnapshot_flags r e : Flags r = entry_flags e -> HasSnapshot r = bool_decide (is_Some (en_snap e)).
Proof.
  unfold HasSnapshot, entry_flags. intros ->. destruct (en_snap e) as [s|], (en_base e); reflexivity.
Qed.

Lemma IsBase_flags r e : Flags r = entry_flags e -> IsBase r = en_base e.
Proof. unfold IsBase, entry_flags. intros ->. destruct (en_snap e), (en_base e); reflexivity. Qed.

(** Two results agree when they fail alike or succeed in related states. *)
Definition agree (P : list Z -> Prop) (ra : result snap_err index) (rb : result snap_err Builder) : Prop :=
  match ra, rb with
  | Ok a, Ok b => built P b a
  | Err e, Err e' => e = e'
  | _, _ => False
  end.

Lemma StronglySorted_snoc (l : list Z) x :
  StronglySorted Z.lt l -> (forall y, last l = Some y -> y < x) -> StronglySorted Z.lt (l ++ [x]).
Proof.
  intros Hs Hl. induction Hs as [|y l Hs IH Hy]; cbn; [repeat constructor|].
  constructor.
  - apply IH. intros z Hz. apply Hl. destruct l; [done|]. exact Hz.
  - apply Forall_app. split; [done|]. apply Forall_singleton.
    destruct (last l) as [z|] eqn:E.
    + assert (last (y :: l) = Some z) as E' by (destruct l; [done|exact E]).
      specialize (Hl z E'). apply last_Some in E as [l' ->]. apply Forall_app in Hy as [_ [? _]%Forall_cons]. lia.
    + apply last_None in E as ->. by apply Hl.
Qed.

Lemma AddPoint_agree P b a p :
  built P b a -> point_ok p -> agree P (index_AddPoint a p) (AddPoint b p).
Proof.
  intros [Hp Hq Hs Hh Hc Ht] Hok. unfold AddPoint, index_AddPoint. rewrite Hq, Hp.
  destruct (find_entry a (qp_Ordinal p)) as [i|] eqn:Ef; [by rewrite bool_decide_true by eauto|].
  rewrite bool_decide_false by (by intros [? ?]).
  rewrite fmap_last.
  assert (forall ok : match last a with Some q => ordinal q < qp_Ordinal p | None => True end,
    built P (mkBuilder (b_points b ++ [p]) (b_tiers b) (b_opts b) (b_records b ++ [new_record p])
      (b_lay b) (b_mem b) (b_glob b) (b_tab b) (<[qp_Ordinal p := length (b_points b)]> (b_bySeq b)))
      (a ++ [mkEntry p None false])) as Hbuilt.
  { intros ok. split; cbn.
    - by rewrite Hp, fmap_app.
    - intros o. rewrite find_entry_snoc. destruct (Z.eqb_spec (ordinal (mkEntry p None false)) o) as [<-|Hne].
      + change (ordinal _) with (qp_Ordinal p). rewrite Ef, lookup_insert_eq, Hp, length_fmap. done.
      + rewrite lookup_insert_ne, Hq by done. by destruct (find_entry a o).
    - rewrite fmap_app. apply StronglySorted_snoc; [done|]. intros y Hy. rewrite fmap_last in Hy.
      destruct (last a); [|done]. by injection Hy as <-.
    - apply Forall2_app; [exact Hh|]. constructor; [|constructor]. destruct Hok as (? & ? & ?). split; cbn.
      + unfold u32, i32. rewrite !wrapu_small, wraps_small by done. done.
      + done.
      + done.
      + done.
    - exact Hc.
    - exact Ht. }
  rewrite Hp in Hbuilt.
  destruct (last a) as [q|] eqn:El; cbn [fmap option_fmap option_map].
  - fold (ordinal q). assert (ordinal q <> qp_Ordinal p) as Hne.
    { intros E. apply last_Some in El as [a' ->]. rewrite find_entry_snoc, E, Z.eqb_refl in Ef.
      by destruct (find_entry a' (qp_Ordinal p)). }
    destruct (Z.leb_spec (qp_Ordinal p) (ordinal q)), (Z.ltb_spec (qp_Ordinal p) (ordinal q)); try lia; [done|].
    apply Hbuilt. lia.
  - apply last_None in El as ->. by apply Hbuilt.
Qed.

(** An operation that replaces the entry of one point, and grows the streams. *)
Lemma built_insert P b a i r e r' e' lay mem glob tab t :
  built P b a -> b_records b !! i = Some r -> a !! i = Some e ->
  en_point e' = en_point e ->
  let b' := mkBuilder (b_points b) t (b_opts b) (<[i := r']> (b_records b)) lay mem glob tab (b_bySeq b) in
  grows (streams_of b) (streams_of b') -> entry_held (streams_of b') r' e' ->
  (exists c, t = mkTiers (Some c) None []) -> stores P t ->
  built P b' (<[i := e']> a).
Proof.
  intros [Hp Hq Hs Hh Hc Ht] Hr He Hpt b' Hg Hnew Hcache Hst.
  assert (ordinal e' = ordinal e) as Ho by (unfold ordinal; by rewrite Hpt).
  pose proof (ordinals_insert a i e e' He Ho) as Hord.
  split; cbn [b_points b_bySeq b_records b_tiers b'].
  - rewrite Hp, list_fmap_insert, Hpt. symmetry. apply list_insert_id. by rewrite list_lookup_fmap, He.
  - intros o. rewrite Hq. symmetry. by apply find_entry_ext.
  - by rewrite Hord.
  - apply Forall2_insert; [|done]. eapply Forall2_impl; [exact Hh|]. intros. by eapply entry_held_grow.
  - done.
  - done.
Qed.

Lemma built_lookup P b a o :
  built P b a ->
  match find_entry a o ≫= fun i => pair i <$> a !! i with
  | None => b_bySeq b !! o = None
  | Some (i, e) => b_bySeq b !! o = Some i /\ a !! i = Some e /\ ordinal e = o /\
                   exists r, b_records b !! i = Some r /\ entry_held (streams_of b) r e
  end.
Proof.
  intros [Hp Hq Hs Hh Hc Ht]. rewrite Hq. destruct (find_entry a o) as [i|] eqn:Ef; [|done].
  destruct (find_entry_Some _ _ _ Ef) as (e & He & Ho). cbn [mbind option_bind]. rewrite He. cbn.
  destruct (Forall2_lookup_r _ _ _ _ _ Hh He) as (r & Hr & Hre). eauto 10.
Qed.

Lemma MarkBase_agree P b a o : built P b a -> agree P (index_MarkBase a o) (MarkBase b o).
Proof.
  intros Hb. pose proof (built_lookup P b a o Hb) as L. unfold index_MarkBase, MarkBase.
  destruct (find_entry a o ≫= _) as [[i e]|]; [|by rewrite L].
  destruct L as (-> & He & Ho & r & Hr & Hheld). rewrite Hr.
  pose proof Hheld as [H1 H2 H3 H4]. rewrite (HasSnapshot_flags r e H3).
  destruct (en_snap e) as [s|] eqn:Es; [|done].
  rewrite bool_decide_true by eauto. cbn [negb agree].
  apply (built_insert P b a i r e); [exact Hb|exact Hr|exact He|done|reflexivity| |by apply Hb..].
  destruct r as [ro re rc rf rm rlo rll rgo rgl rto rtl]. split; cbn in *; [done|done| |].
  - rewrite H3. unfold entry_flags. rewrite Es. cbn [en_snap en_base]. by destruct (en_base e).
  - destruct H4 as [S1 S2 S3 S4 S5 S6]. by split.
Qed.
(** ** Adding a snapshot *)
#[local] Opaque PageSize.

Lemma rebase_tiled t pre inline rs : forall at_ bs,
  len pre + len inline < 2 ^ 64 -> tiled t inline at_ rs bs ->
  tiled t (pre ++ inline) at_ (rebase (len pre) <$> rs) bs.
Proof.
  induction rs as [|r rs IH]; intros at_ bs Hl; [done|]. rewrite fmap_cons. cbn [tiled].
  intros (b & rest & -> & HB & HS & Hc & Ht). exists b, rest. pose proof (len_nonneg pre). pose proof (len_nonneg b).
  assert (Base (rebase (len pre) r) = Base r /\ Size (rebase (len pre) r) = Size r) as [-> ->]
    by (unfold rebase; by destruct (Kind r =? KindFull)).
  split_and!; [done|done|done| |by apply IH].
  unfold rebase. destruct Hc as [(Hk & Ho & Hn & Hs)|(Hk & ps & Hps & ->)]; rewrite Hk.
  - cbn [KindFull Z.eqb]. left. cbn [Kind FileOffset]. unfold u64. rewrite wrapu_small by (unfold in_u; lia).
    split_and!; [done|lia|rewrite len_app; lia|].
    replace (Z.to_nat (FileOffset r + len pre)) with (length pre + Z.to_nat (FileOffset r))%nat by (unfold len; lia).
    by rewrite sub_app_skip.
  - right. split; [done|]. by exists ps.
Qed.

Lemma rebase_shape base r : region_shape r -> region_shape (rebase base r).
Proof.
  intros (H1 & H2 & H3 & [(Hk & Hr)|(Hk & Ho & Hr)]); unfold rebase; rewrite Hk; cbn [KindFull KindRunHashRef Z.eqb].
  - split_and!; [done..|]. by left.
  - split_and!; [done..|]. right. by split_and!.
Qed.

(** What a snapshot must satisfy to be added: its fields are in range, its
    pages are in [P], and the inline stream stays below 2^63 bytes. *)
Definition pages_in (P : list Z -> Prop) (s : Snapshot) : Prop :=
  let m := default [] (Memory s) in Forall P (pages_of (Z.to_nat (len m / PageSize)) m).

Lemma snapshot_ok_memory s (m := default [] (Memory s)) : snapshot_ok s ->
  bytes_ok m /\ len m mod PageSize = 0 /\ len m <= 2 ^ 32 /\ SnapMemoryBytes s = len m /\
  Memory s = if 0 <? len m then Some m else None.
Proof.
  intros [Hm _]. subst m. destruct (Memory s) as [m|]; cbn [default from_option id].
  - destruct Hm as (Hne & ? & ? & ? & ?). split_and!; [done..|].
    destruct m; [done|]. by rewrite (proj2 (Z.ltb_lt _ _)) by (unfold len; cbn [length]; lia).
  - split_and!; [constructor|done|done|done|done].
Qed.

Lemma encode_snapshot P b s :
  collision_free P -> snapshot_ok s -> pages_in P s ->
  len (b_mem b) + SnapMemoryBytes s < 2 ^ 63 ->
  (exists c, b_tiers b = mkTiers (Some c) None []) -> stores P (b_tiers b) ->
  exists regions inline t,
    EncodeMemory (default [] (Memory s)) (Some (b_tiers b)) 0 (b_opts b) = Ok (regions, inline, t) /\
    Forall Region_ok (rebase (len (b_mem b)) <$> regions) /\ in_u 32 (len (rebase (len (b_mem b)) <$> regions)) /\
    tiled t (b_mem b ++ inline) 0 (rebase (len (b_mem b)) <$> regions) (default [] (Memory s)) /\
    (exists c, t = mkTiers (Some c) None []) /\ stores P t /\ extends (b_tiers b) t /\
    len inline <= SnapMemoryBytes s.
Proof.
  intros Hcf Hok HP Hl [c Hc] Hst. destruct (snapshot_ok_memory s Hok) as (Hb & Hal & H32 & Hsz & _).
  set (m := default [] (Memory s)) in *. pose proof (len_nonneg m). pose proof (len_nonneg (b_mem b)).
  destruct (EncodeMemory_tiled P (b_opts b) (b_tiers b) 0 m) as
    (rs & inl & t & E & Ht & Hsh & Hin & Hpt & Hrem & Hst' & _ & Hx); try done.
  { by rewrite Hc. }
  { by rewrite Hc; constructor. }
  { intros _ sc. by rewrite Hc. }
  { lia. }
  exists rs, inl, t. destruct (EncodeMemory_local _ _ _ _ _ _ _ E) as (HS & HR & Hn); [by rewrite Hc|].
  assert (tiled t (b_mem b ++ inl) 0 (rebase (len (b_mem b)) <$> rs) m) as Ht' by (apply rebase_tiled; [lia|done]).
  split_and!; [done| | |done| |done|done|lia].
  - eapply (tiled_Region_ok t (b_mem b ++ inl)); [|exact Ht'|lia|lia|rewrite len_app; lia].
    apply Forall_fmap. eapply Forall_impl; [exact Hsh|]. intros. by apply rebase_shape.
  - unfold in_u, len. rewrite length_fmap. pose proof PageSize_val.
    pose proof (Z.div_le_upper_bound (len m) PageSize (2 ^ 16)). nia.
  - rewrite Hc in HR. destruct t as [[c'|] sys rem]; [|done]. cbn in HS, HR. subst. by exists c'.
Qed.

Lemma Add_agree P b a s :
  built P b a -> collision_free P -> snapshot_ok s -> pages_in P s ->
  len (b_mem b) + SnapMemoryBytes s < 2 ^ 63 ->
  agree P (index_Add a s) (builder_step b (OpAdd s)).
Proof.
  intros Hb Hcf Hok HP Hl. pose proof (built_lookup P b a (Point s) Hb) as L. unfold index_Add, builder_step, Add.
  destruct (find_entry a (Point s) ≫= _) as [[i e]|]; [|by rewrite L].
  destruct L as (-> & He & Ho & r & Hr & Hheld). rewrite Hr. pose proof Hheld as [H1 H2 H3 H4].
  rewrite (HasSnapshot_flags r e H3). destruct (en_snap e) as [s'|] eqn:Es; [by rewrite bool_decide_true by eauto|].
  rewrite bool_decide_false by (by intros [? ?]).
  destruct (encode_snapshot P b s) as (rs & inl & t & -> & Hro & Hrn & Ht & Hc & Hst & Hx & _); try done.
  { apply Hb. } { apply Hb. }
  cbn [agree]. eapply (built_insert P b a i r e); [done|done|done|done| | |done|done].
  - split_and!; [done|by apply prefix_app_r..].
  - destruct r as [ro re rc rf rm rlo rll rgo rgl rto rtl]. cbn in H1, H3. split; cbn.
    + done.
    + done.
    + rewrite H3. unfold entry_flags. rewrite Es. cbn [en_snap en_base]. by destruct (en_base e).
    + split; cbn; [|apply slice_at_end|apply slice_at_end|done| |done].
      * eexists. split_and!; [apply slice_at_end|done|done|done].
      * destruct H1 as [-> _]. congruence.
Qed.

(** ** Sequences of operations *)
Definition op_bytes (op : builder_op) : Z := match op with OpAdd s => SnapMemoryBytes s | _ => 0 end.

Definition op_ok (P : list Z -> Prop) (op : builder_op) : Prop :=
  match op with
  | OpAddPoint p => point_ok p
  | OpAdd s => snapshot_ok s /\ pages_in P s
  | OpMarkBase _ => True
  end.

Definition bytes_added (ops : list builder_op) : Z := foldr (fun op n => op_bytes op + n) 0 ops.

Lemma step_mem P b a op b' :
  built P b a -> collision_free P -> op_ok P op -> len (b_mem b) + op_bytes op < 2 ^ 63 ->
  builder_step b op = Ok b' -> len (b_mem b') <= len (b_mem b) + op_bytes op.
Proof.
  intros Hb Hcf Hok Hl. destruct op as [p|s|o]; cbn [builder_step op_bytes op_ok] in *.
  - unfold AddPoint. intros H. repeat case_match; simplify_eq; cbn; lia.
  - unfold Add. destruct (b_bySeq b !! Point s) as [i|]; [|done]. destruct (b_records b !! i) as [r|]; [|done].
    destruct (HasSnapshot r); [done|]. destruct Hok as [Hok HP].
    destruct (encode_snapshot P b s) as (rs & inl & t & -> & _ & _ & _ & _ & _ & _ & Hn); try done.
    { apply Hb. } { apply Hb. }
    intros [= <-]. cbn [b_mem]. rewrite len_app. lia.
  - unfold MarkBase. destruct (b_bySeq b !! o) as [i|]; [|done]. destruct (b_records b !! i) as [r|]; [|done].
    destruct (negb _); [done|]. intros [= <-]. cbn. lia.
Qed.

Lemma step_agree P b a op :
  built P b a -> collision_free P -> op_ok P op -> len (b_mem b) + op_bytes op < 2 ^ 63 ->
  agree P (index_step a op) (builder_step b op).
Proof.
  intros Hb Hcf Hok Hl. destruct op as [p|s|o]; cbn [index_step op_ok op_bytes] in *.
  - by apply AddPoint_agree.
  - destruct Hok. by apply Add_agree.
  - by apply MarkBase_agree.
Qed.

Lemma op_bytes_nonneg P op : op_ok P op -> 0 <= op_bytes op.
Proof.
  destruct op as [p|s|o]; cbn; [done| |done]. intros [Hok _].
  destruct (snapshot_ok_memory s Hok) as (_ & _ & _ & -> & _). apply len_nonneg.
Qed.

Lemma bytes_added_nonneg P ops : Forall (op_ok P) ops -> 0 <= bytes_added ops.
Proof.
  induction 1 as [|op ops H _ IH]; cbn; [done|]. apply op_bytes_nonneg in H. unfold bytes_added in IH. lia.
Qed.

Lemma steps_agree P ops : forall b a,
  built P b a -> collision_free P -> Forall (op_ok P) ops -> len (b_mem b) + bytes_added ops < 2 ^ 63 ->
  agree P (foldm index_step a ops) (foldm builder_step b ops).
Proof.
  induction ops as [|op ops IH]; intros b a Hb Hcf Hok Hl; cbn [foldm]; [done|].
  apply Forall_cons in Hok as [Hop Hok]. pose proof (bytes_added_nonneg P ops Hok) as Hn.
  change (bytes_added (op :: ops)) with (op_bytes op + bytes_added ops) in Hl.
  pose proof (step_agree P b a op Hb Hcf Hop) as Hs.
  destruct (builder_step b op) as [b'|e] eqn:Eb, (index_step a op) as [a'|e']; cbn [agree] in Hs.
  - assert (len (b_mem b') <= len (b_mem b) + op_bytes op) by (eapply step_mem; [done..|lia|done]).
    apply IH; [apply Hs; lia|done|done|lia].
  - exfalso. apply Hs. lia.
  - exfalso. apply Hs. lia.
  - apply Hs. lia.
Qed.

Definition fresh_tiers : Tiers := NewTiers None false.
Definition new_builder (opts : EncodeOptions) : Builder := mkBuilder [] fresh_tiers opts [] [] [] [] [] ∅.

Lemma new_builder_built P opts : built P (new_builder opts) [].
Proof.
  split; cbn; [done|done|constructor|constructor|by eexists|].
  intros h q H. unfold resolve, Lookup, PerTrace_Lookup in H. cbn in H. by rewrite lookup_empty in H.
Qed.

(** C33: a builder over a fresh per-trace tier is a faithful index: every
    sequence of [AddPoint], [Add] and [MarkBase] either fails with the error
    the abstract index gives, or succeeds in a builder whose records and
    streams stand for the abstract index. *)
Theorem builder_refines_index P opts ops :
  collision_free P -> Forall (op_ok P) ops -> bytes_added ops < 2 ^ 63 ->
  exists b0, NewIncrementalBuilder (Some (NewTiers None false)) opts = Ok b0 /\
    match foldm index_step [] ops with
    | Ok a => exists b, foldm builder_step b0 ops = Ok b /\ built P b a
    | Err e => foldm builder_step b0 ops = Err e
    end.
Proof.
  intros Hcf Hok Hl. exists (new_builder opts). split; [done|].
  pose proof (steps_agree P ops (new_builder opts) [] (new_builder_built P opts) Hcf Hok) as H.
  specialize (H ltac:(cbn; rewrite len_nil; lia)).
  destruct (foldm index_step [] ops), (foldm builder_step _ ops); cbn in H; [eauto|done|done|by rewrite H].
Qed.

Definition sample_point (o : Z) : QuiescentPoint := mkQuiescentPoint o o (-1) [].
Definition sample_snapshot : Snapshot :=
  mkSnapshot 1 PageSize (Some one_page) [mkGlobalValue 127 true 7 0] [mkTableValue 112 [-1; 5]].
Definition sample_ops : list builder_op :=
  [OpAddPoint (sample_point 0); OpAddPoint (sample_point 1); OpAdd sample_snapshot; OpMarkBase 1].

Lemma len_one_page : len one_page = PageSize.
Proof. unfold len, one_page. by rewrite length_zeros, psize_val. Qed.

Lemma sample_snapshot_ok : snapshot_ok sample_snapshot /\ pages_in (fun p => p = one_page) sample_snapshot.
Proof.
  pose proof PageSize_val. split.
  - split_and!; cbn [Memory sample_snapshot Globals Tables].
    + split_and!; [|apply zeros_bytes|by rewrite len_one_page|by rewrite len_one_page, Z_mod_same_full|rewrite len_one_page; lia].
      intros E. pose proof len_one_page as L. rewrite E, len_nil in L. lia.
    + repeat constructor; cbn; lia.
    + by unfold in_u, len.
    + apply Forall_singleton. split_and!; cbn [RefType Elements]; [done| |done].
      repeat apply Forall_cons_2; [done|done|constructor].
    + by unfold in_u, len.
  - unfold pages_in. cbn [Memory sample_snapshot default from_option id].
    rewrite len_one_page, Z_div_same_full by lia. change (Z.to_nat 1) with 1%nat. cbn [pages_of].
    apply Forall_singleton. unfold one_page. by rewrite firstn_all2 by (by rewrite length_zeros).
Qed.

Lemma sample_ops_ok : Forall (op_ok (fun p => p = one_page)) sample_ops /\ bytes_added sample_ops < 2 ^ 63.
Proof.
  split.
  - repeat apply Forall_cons_2; cbn [op_ok]; [split_and!; done|split_and!; done|apply sample_snapshot_ok|done|constructor].
  - cbn [bytes_added sample_ops foldr op_bytes SnapMemoryBytes sample_snapshot]. pose proof PageSize_val. lia.
Qed.

Definition sample_index : index :=
  [mkEntry (sample_point 0) None false; mkEntry (sample_point 1) (Some sample_snapshot) true].

Lemma builder_refines_index_witness :
  exists b0, NewIncrementalBuilder (Some (NewTiers None false)) (mkEncodeOptions false false) = Ok b0 /\
    exists b, foldm builder_step b0 sample_ops = Ok b /\ built (fun p => p = one_page) b sample_index.
Proof.
  apply (builder_refines_index (fun p => p = one_page) (mkEncodeOptions false false) sample_ops).
  - intros p q -> ->. reflexivity.
  - apply sample_ops_ok.
  - apply sample_ops_ok.
Defined.
(** ** Reading back *)
Lemma sliceOf_ok b off n bs name : slice_at b off n bs -> len b < 2 ^ 63 -> sliceOf b off n name = Ok bs.
Proof.
  intros (Ho & -> & Hl & Hs) Hb. pose proof (len_nonneg bs). unfold sliceOf, u64.
  rewrite wrapu_small by (unfold in_u; lia).
  destruct (Z.ltb_spec (len b) (off + len bs)); [lia|]. destruct (Z.ltb_spec (off + len bs) off); [lia|].
  replace (Z.to_nat (len bs)) with (length bs) by (unfold len; lia). by rewrite Hs.
Qed.

(** The lengths of Go slices. *)
Definition streams_fit (st : streams_at) : Prop :=
  len (at_lay st) < 2 ^ 63 /\ len (at_mem st) < 2 ^ 63 /\ len (at_glob st) < 2 ^ 63 /\ len (at_tab st) < 2 ^ 63.

Lemma snapshot_read st r s records t :
  snapshot_held st r s -> HasSnapshot r = true -> streams_fit st -> extends (at_tiers st) t ->
  Set_Snapshot (mkSet records (at_lay st) (at_mem st) (at_glob st) (at_tab st) t) r = Ok s.
Proof.
  intros [(rs & Hlay & Hro & Hrn & Ht) Hg Htab Hb Hp Hok] Hh (Fl & Fm & Fg & Ft) Hx.
  destruct (snapshot_ok_memory s Hok) as (Hbytes & _ & H32 & Hsz & Hmem). destruct Hok as (_ & Gok & Gn & Tok & Tn).
  unfold Set_Snapshot. rewrite Hh. cbn [negb s_lay s_mem s_glob s_tab s_tiers].
  rewrite (sliceOf_ok _ _ _ _ _ Hlay Fl), (decodeRegions_encode rs Hro Hrn), Hb, Hsz.
  rewrite (MaterialiseMemory_tiled t (at_mem st) rs _) by
    (done || lia || (rewrite <-(app_nil_r (at_mem st)); by eapply tiled_mono)).
  rewrite (sliceOf_ok _ _ _ _ _ Hg Fg), (decodeGlobals_encode _ Gok Gn).
  rewrite (sliceOf_ok _ _ _ _ _ Htab Ft), (decodeTables_encode _ Tok Tn), <-Hmem, <-Hp, <-Hsz.
  by destruct s.
Qed.

Lemma slice_at_widths b off n bs : slice_at b off n bs -> len b < 2 ^ 63 -> in_u 64 off /\ in_u 64 n.
Proof. intros (Ho & -> & Hl & _) Hb. pose proof (len_nonneg bs). unfold in_u. lia. Qed.

Lemma entry_held_record_ok st r e : entry_held st r e -> streams_fit st -> IndexRecord_ok r.
Proof.
  intros [(Ho & He & Hc) (H1 & H2 & H3) Hf Hs] (Fl & Fm & Fg & Ft).
  assert (in_u 32 (Flags r)) as Hfl.
  { rewrite Hf. unfold entry_flags. by destruct (en_snap e), (en_base e). }
  unfold IndexRecord_ok. rewrite Ho, He, Hc. unfold ordinal. destruct (en_snap e) as [s|].
  - destruct Hs as [(rs & Hl & _) Hg Ht Hb _ Hok]. destruct (snapshot_ok_memory s Hok) as (_ & _ & ? & Hsz & _).
    destruct (slice_at_widths _ _ _ _ Hl Fl), (slice_at_widths _ _ _ _ Hg Fg), (slice_at_widths _ _ _ _ Ht Ft).
    rewrite Hb, Hsz. pose proof (len_nonneg (default [] (Memory s))). unfold in_u at 4. split_and!; done || lia.
  - destruct Hs as (-> & -> & -> & -> & -> & -> & ->). by split_and!.
Qed.

Lemma stores_store_ok P c : (forall p, P p -> page_ok p) -> stores P (mkTiers (Some c) None []) -> store_ok c.
Proof.
  intros HP Hst h q Hq. destruct (Hst h q) as [Hpq <-].
  { unfold resolve, Lookup, PerTrace_Lookup. cbn. by rewrite Hq. }
  destruct (HP q Hpq) as [Hb Hl]. split_and!; [by apply Hash128_ok|done|done].
Qed.

Lemma per_trace_extends c system : extends (mkTiers (Some c) None []) (mkTiers (Some c) system []).
Proof.
  intros h p. unfold resolve, Lookup, PerTrace_Lookup. cbn. by destruct (pages c !! h).
Qed.

(** What the container writer promises: each stream is stored under its name. *)
Definition container_holds (f : list Z) (raw : stream -> list Z) : Prop :=
  exists c, Ctfs.Open f = Ok c /\
    forall s, Ctfs.Has c (stream_name s) = true /\ Ctfs.ReadFile c f (stream_name s) = Ok (raw s).

Lemma Load_container f raw system use : container_holds f raw ->
  exists raw', (forall s, raw' s = raw s) /\ Load f system use = load_streams raw' system use.
Proof.
  intros (c & Ho & Hs). unfold Load. rewrite Ho, (proj1 (Hs NamespaceIndex)). cbn [negb].
  assert (forall names raw0, exists raw', read_streams c f names raw0 = inr raw' /\
    forall s, s ∈ names \/ raw0 s = raw s -> raw' s = raw s) as L.
  { induction names as [|n names IH]; intros raw0; cbn [read_streams].
    - exists raw0. split; [done|]. intros s [Hin|]; [by apply not_elem_of_nil in Hin|done].
    - destruct (Hs n) as [-> ->]. cbn [negb].
      destruct (IH (fun s => if decide (s = n) then raw n else raw0 s)) as (raw' & E & H).
      exists raw'. split; [done|]. intros s Hc. apply H. destruct (decide (s = n)) as [->|Hne]; [by right|].
      destruct Hc as [Hin|]; [|by right]. apply elem_of_cons in Hin as [?|?]; [done|by left]. }
  destruct (L NamespaceNames (fun _ => [])) as (raw' & -> & H). exists raw'. split; [|done].
  intros s. apply H. left. unfold NamespaceNames. rewrite !elem_of_cons. destruct s; tauto.
Qed.

(** The conditions under which the streams of a builder have an encoding. *)
Definition builder_fits (b : Builder) : Prop :=
  streams_fit (streams_of b) /\ in_u 32 (len (b_records b)) /\
  (forall c, PerTrace (b_tiers b) = Some c -> PerTrace_Len c < 2 ^ 32).

Lemma load_built P b a f raw system use :
  built P b a -> (forall p, P p -> page_ok p) -> builder_fits b ->
  Streams b = Ok raw -> container_holds f raw ->
  exists t, Load f system use = LoadSet (mkSet (b_records b) (b_lay b) (b_mem b) (b_glob b) (b_tab b) t) /\
    extends (b_tiers b) t.
Proof.
  intros Hb HP (Hfit & Hn & Hc32) Hraw Hf. destruct Hb as [_ _ _ Hh [c Hc] Hst].
  destruct (Load_container f raw system use Hf) as (raw' & Hr & ->).
  unfold Streams in Hraw. rewrite Hc in *. cbn [PerTrace] in Hraw.
  destruct (decodePageStore_encode truncatedKey c) as (pages & E & D).
  { by eapply stores_store_ok. } { apply truncatedKey_ok. } { by apply Hc32. }
  unfold encodePageStore in Hraw. rewrite E in Hraw. injection Hraw as <-.
  unfold load_streams. rewrite !Hr. rewrite decodeIndex_encode; [|  |done].
  - unfold decodePageStore. rewrite D. eexists. split; [reflexivity|]. apply per_trace_extends.
  - apply Forall_forall. intros r Hin. apply list_elem_of_lookup_1 in Hin as [i Hi].
    destruct (Forall2_lookup_l _ _ _ _ _ Hh Hi) as (e & _ & He). by eapply entry_held_record_ok.
Qed.

Lemma streams_exist P b a :
  built P b a -> (forall p, P p -> page_ok p) -> builder_fits b -> exists raw, Streams b = Ok raw.
Proof.
  intros [_ _ _ _ [c Hc] Hst] HP (_ & _ & Hc32). unfold Streams. rewrite Hc in *. cbn [PerTrace].
  destruct (decodePageStore_encode truncatedKey c) as (pages & E & _).
  { by eapply stores_store_ok. } { apply truncatedKey_ok. } { by apply Hc32. }
  unfold encodePageStore. rewrite E. eauto.
Qed.

(** C34: a container that holds a builder's six streams loads, with or without
    a system cache, as a set that shows exactly the builder's index: the same
    points in the same order with the same base marks, and at each point the
    snapshot that was added there or the error that it has none. *)
Theorem load_returns_index P b a f raw system use :
  built P b a -> (forall p, P p -> page_ok p) -> builder_fits b ->
  Streams b = Ok raw -> container_holds f raw ->
  exists s, Load f system use = LoadSet s /\
    Forall2 (fun r e =>
      Ordinal r = ordinal e /\ CrossingSeq r = qp_CrossingSeq (en_point e) /\ IsBase r = en_base e /\
      Set_Snapshot s r = match en_snap e with
                         | Some snap => Ok snap
                         | None => Err (NoSnapshot (ordinal e))
                         end) (Points s) a.
Proof.
  intros Hb HP Hfit Hraw Hf. destruct (load_built P b a f raw system use) as (t & E & Hx); try done.
  eexists. split; [exact E|]. cbn [Points s_records]. destruct Hb as [_ _ _ Hh _ _].
  eapply Forall2_impl; [exact Hh|]. intros r e [(Ho & _ & Hc) _ Hfl Hs]. split_and!; [done|done|by apply IsBase_flags|].
  pose proof (HasSnapshot_flags r e Hfl) as Hhas. destruct (en_snap e) as [snap|].
  - by apply (snapshot_read (streams_of b)); [done| |apply Hfit|done].
  - unfold Set_Snapshot. rewrite Hhas. cbn. by rewrite Ho.
Qed.

(** ** Seeking *)
Definition latest (a : index) (point : Z) : option Snapshot :=
  last (omap en_snap (filter (fun e => ordinal e <= point) a)).

Lemma latest_cons e a point :
  latest (e :: a) point =
  if bool_decide (ordinal e <= point)
  then match latest a point with Some s => Some s | None => en_snap e end
  else latest a point.
Proof.
  unfold latest. rewrite filter_cons. destruct (decide (ordinal e <= point)) as [H|H].
  - rewrite bool_decide_true by done. cbn [omap list_omap]. destruct (en_snap e) as [s|].
    + rewrite last_cons. by destruct (last _).
    + by destruct (last _).
  - by rewrite bool_decide_false.
Qed.

Lemma latest_above a point : Forall (fun e => point < ordinal e) a -> latest a point = None.
Proof.
  induction 1 as [|e a H _ IH]; [done|]. rewrite latest_cons, bool_decide_false by lia. done.
Qed.

Lemma nearest_latest st point rs a : forall best (sbest : option Snapshot),
  Forall2 (entry_held st) rs a -> StronglySorted Z.lt (ordinal <$> a) ->
  option_Forall2 (fun r s => HasSnapshot r = true /\ snapshot_held st r s) best sbest ->
  option_Forall2 (fun r s => HasSnapshot r = true /\ snapshot_held st r s)
    (nearest_loop rs point best) (match latest a point with Some s => Some s | None => sbest end).
Proof.
  intros best sbest H. revert best sbest. induction H as [|r e rs a Hre _ IH]; intros best sbest Hs Hbest; [done|].
  rewrite fmap_cons in Hs. apply StronglySorted_inv in Hs as [Hs He]. rewrite latest_cons. cbn [nearest_loop].
  destruct Hre as [(Ho & _) _ Hfl Hsn]. rewrite Ho. destruct (Z.ltb_spec point (ordinal e)).
  - rewrite bool_decide_false by lia. rewrite latest_above; [done|].
    rewrite Forall_fmap in He. eapply Forall_impl; [exact He|]. cbn. lia.
  - rewrite bool_decide_true by lia. pose proof (HasSnapshot_flags r e Hfl) as Hhas.
    destruct (en_snap e) as [s|].
    + rewrite bool_decide_true in Hhas by eauto. rewrite Hhas. specialize (IH (Some r) (Some s) Hs).
      destruct (latest a point); apply IH; by constructor.
    + rewrite bool_decide_false in Hhas by (by intros [? ?]). rewrite Hhas. specialize (IH best sbest Hs).
      destruct (latest a point); by apply IH.
Qed.

(** C35: seeking to a point of a loaded set lands on the last snapshot taken at
    or before it, and reading that record returns the snapshot; the seek finds
    nothing exactly when no snapshot precedes the point. *)
Theorem seek_lands_on_latest P b a f raw system use point :
  built P b a -> (forall p, P p -> page_ok p) -> builder_fits b ->
  Streams b = Ok raw -> container_holds f raw ->
  exists s, Load f system use = LoadSet s /\
    match latest a point with
    | Some snap => exists r, Nearest s point = Some r /\ Set_Snapshot s r = Ok snap
    | None => Nearest s point = None
    end.
Proof.
  intros Hb HP Hfit Hraw Hf. destruct (load_built P b a f raw system use) as (t & E & Hx); try done.
  eexists. split; [exact E|]. destruct Hb as [_ _ Hs Hh _ _].
  pose proof (nearest_latest (streams_of b) point _ _ None None Hh Hs ltac:(constructor)) as Hn.
  unfold Nearest. cbn [s_records]. destruct (latest a point) as [snap|]; inversion Hn as [r ? [Hr Hheld] Er|]; [|done].
  exists r. split; [done|]. by apply (snapshot_read (streams_of b)); [done|done|apply Hfit|done].
Qed.
(** ** A concrete container

    The set of a module without memory: point 0 carries nothing, point 1 a
    snapshot of one global and one table.  [pack] lays each stream out in one
    map block and one data block. *)
Definition small_snapshot : Snapshot :=
  mkSnapshot 1 0 None [mkGlobalValue 127 true 7 0] [mkTableValue 112 [-1; 5]].
Definition small_ops : list builder_op :=
  [OpAddPoint (sample_point 0); OpAddPoint (sample_point 1); OpAdd small_snapshot; OpMarkBase 1].
Definition small_index : index :=
  [mkEntry (sample_point 0) None false; mkEntry (sample_point 1) (Some small_snapshot) true].
Definition small_builder : Builder :=
  match foldm builder_step (new_builder (mkEncodeOptions false false)) small_ops with
  | Ok b => b
  | Err _ => new_builder (mkEncodeOptions false false)
  end.
Definition small_streams (s : stream) : list Z :=
  match Streams small_builder with Ok raw => raw s | Err _ => [] end.

Definition pad_to (n : nat) (bs : list Z) : list Z := bs ++ zeros (n - length bs).
Definition pack_block : nat := Z.to_nat 8192.
Definition pack (raw : stream -> list Z) : list Z :=
  pad_to pack_block
    (Ctfs.magic ++ [3; 0; 1] ++ le_enc 4 (Z.of_nat pack_block) ++ le_enc 4 6 ++
     concat (imap (fun i s => le_enc 8 (len (raw s)) ++ le_enc 8 (2 * Z.of_nat i + 1) ++
       le_enc 8 (match Base40.EncodeName (stream_name s) with Ok v => v | Err _ => 0 end)) NamespaceNames)) ++
  concat (imap (fun i s => pad_to pack_block (le_enc 8 (2 * Z.of_nat i + 2)) ++ pad_to pack_block (raw s))
    NamespaceNames).

Lemma small_container : container_holds (pack small_streams) small_streams.
Proof.
  destruct (Ctfs.Open (pack small_streams)) as [c|e] eqn:E; [|vm_compute in E; discriminate].
  exists c. split; [exact E|].
  assert (forall s, match Ctfs.Open (pack small_streams) with
                    | Ok c => Ctfs.Has c (stream_name s) = true /\
                              Ctfs.ReadFile c (pack small_streams) (stream_name s) = Ok (small_streams s)
                    | Err _ => False
                    end) as H.
  { intros []; vm_compute; split; reflexivity. }
  rewrite E in H. exact H.
Qed.

Lemma small_built :
  built (fun _ => False) small_builder small_index /\ Streams small_builder = Ok small_streams /\
  builder_fits small_builder.
Proof.
  split_and!.
  - pose proof (steps_agree (fun _ => False) small_ops (new_builder (mkEncodeOptions false false)) []
      (new_builder_built _ _) ltac:(intros ? ? [])) as H.
    assert (foldm builder_step (new_builder (mkEncodeOptions false false)) small_ops = Ok small_builder) as E
      by (vm_compute; reflexivity).
    rewrite E in H. apply H; [|vm_compute; reflexivity].
    repeat apply Forall_cons_2; cbn [op_ok]; [split_and!; done|split_and!; done| |exact I|constructor].
    split; [|constructor]. split_and!; cbn [Memory small_snapshot Globals Tables SnapMemoryBytes].
    + done.
    + apply sample_snapshot_ok.
    + done.
    + apply sample_snapshot_ok.
    + done.
  - unfold small_streams. destruct (Streams small_builder) as [raw|e] eqn:E; [|vm_compute in E; discriminate].
    done.
  - assert (PerTrace (b_tiers small_builder) = Some NewPerTraceCache) as E by (vm_compute; reflexivity).
    split_and!.
    + unfold streams_fit. split_and!; vm_compute; reflexivity.
    + split; vm_compute; [discriminate|reflexivity].
    + intros c Hc. rewrite E in Hc. injection Hc as <-. reflexivity.
Qed.

Lemma load_returns_index_witness :
  exists s, Load (pack small_streams) None false = LoadSet s /\
    Forall2 (fun r e =>
      Ordinal r = ordinal e /\ CrossingSeq r = qp_CrossingSeq (en_point e) /\ IsBase r = en_base e /\
      Set_Snapshot s r = match en_snap e with
                         | Some snap => Ok snap
                         | None => Err (NoSnapshot (ordinal e))
                         end) (Points s) small_index.
Proof.
  destruct small_built as (Hb & Hs & Hf).
  apply (load_returns_index (fun _ => False) small_builder small_index _ small_streams);
    [exact Hb|done|exact Hf|exact Hs|exact small_container].
Defined.

Lemma seek_lands_on_latest_witness :
  exists s, Load (pack small_streams) None false = LoadSet s /\
    exists r, Nearest s 9 = Some r /\ Set_Snapshot s r = Ok small_snapshot.
Proof.
  destruct small_built as (Hb & Hs & Hf).
  apply (seek_lands_on_latest (fun _ => False) small_builder small_index _ small_streams None false 9);
    [exact Hb|done|exact Hf|exact Hs|exact small_container].
Defined.

(** A record whose slice bounds wrap around 64 bits passes the bounds check
    of [sliceOf], and the slice expression behind it panics instead of the
    damaged index being reported. *)
Theorem sliceOf_wraps b off n name :
  in_u 64 off -> in_u 64 n -> 2 ^ 64 <= off + n -> off + n <= 2 ^ 64 + len b -> sliceOf b off n name = Err Panic.
Proof.
  intros [? ?] [? ?] Hw Hl. unfold sliceOf, u64, wrapu.
  replace ((off + n) mod 2 ^ 64) with (off + n - 2 ^ 64)
    by (apply (Z.mod_unique _ _ 1); lia).
  destruct (Z.ltb_spec (len b) (off + n - 2 ^ 64)); [lia|].
  by destruct (Z.ltb_spec (off + n - 2 ^ 64) off); [|lia].
Qed.

Lemma sliceOf_wraps_witness : sliceOf [1; 2; 3] (2 ^ 64 - 1) 2 NamespaceLayout = Err Panic.
Proof. apply sliceOf_wraps; vm_compute; try split; intuition discriminate. Defined.

End Container.
