(* ===== verification/WasmMemory.v ===== *)
(** * Linear memory ([src/internal/wasm/memory.go])

    [MemoryInstance] with every operation of [api.Memory], and the waiters of
    the threads proposal as a step relation.  A Go slice that can be re-sliced
    up to its capacity is the pair of [Buffer] and [spare], the bytes between
    its length and its capacity.  A float is the integer of its bits, which is
    what [math.Float32bits] and [math.Float32frombits] convert between. *)
From S2P Require Import Prelude.

Module WasmMemory.

Definition MemoryPageSize : Z := 65536.
Definition MemoryLimitPages : Z := 65536.
Definition MemoryPageSizeInBits : Z := 16.

Inductive mem_panic : Type := SliceBounds | SharedMoved | SharedGrown.

(** [experimental.LinearMemory]: what [Reallocate] returns for the current
    buffer and a size, or nil. *)
Record reallocation : Type := mkReallocation { r_buffer : list Z; r_cap : Z; r_moved : bool }.
Definition LinearMemory : Type := list Z -> Z -> option reallocation.

Record MemoryInstance : Type := mkMemory {
  Buffer : list Z; spare : list Z; Min : Z; Cap : Z; Max : Z; Shared : bool;
  expBuffer : option LinearMemory }.

Definition with_buffer (m : MemoryInstance) (b s : list Z) (cap : Z) : MemoryInstance :=
  mkMemory b s (Min m) cap (Max m) (Shared m) (expBuffer m).

Definition MemoryPagesToBytesNum (pages : Z) : Z := u64 (Z.shiftl pages MemoryPageSizeInBits).
Definition memoryBytesNumToPages (bytesNum : Z) : Z := u32 (Z.shiftr bytesNum MemoryPageSizeInBits).

(** The declaration in the memory section. *)
Record Memory : Type := mkMemorySec { sec_Min : Z; sec_Cap : Z; sec_Max : Z; IsShared : bool }.

(** [make([]byte, n, c)] panics when [c < n]. *)
Definition make (n c : Z) : result mem_panic (list Z * list Z) :=
  reject c <? n as SliceBounds ;; Ok (zeros (Z.to_nat n), zeros (Z.to_nat (c - n))).

(** [allocate] is the allocator's [Allocate], whose first [Reallocate] starts
    from an empty buffer. *)
Definition NewMemoryInstance (memSec : Memory) (allocate : option (Z -> Z -> LinearMemory))
    : result mem_panic MemoryInstance :=
  let minBytes := MemoryPagesToBytesNum (sec_Min memSec) in
  let capBytes := MemoryPagesToBytesNum (sec_Cap memSec) in
  let maxBytes := MemoryPagesToBytesNum (sec_Max memSec) in
  let! (buffer, rest, exp) :=
    match allocate with
    | Some allocate =>
        let exp := allocate capBytes maxBytes in
        let '(b, c) := match exp [] minBytes with
                       | Some r => (r_buffer r, r_cap r)
                       | None => ([], 0)
                       end in
        reject c <? minBytes as SliceBounds ;;
        Ok (b, zeros (Z.to_nat (c - len b)), Some exp)
    | None =>
        let! (b, s) := make minBytes (if IsShared memSec then maxBytes else capBytes) in Ok (b, s, None)
    end in
  Ok (mkMemory buffer rest (sec_Min memSec) (memoryBytesNumToPages (len buffer + len rest))
        (sec_Max memSec) (IsShared memSec) exp).

Definition Size (m : MemoryInstance) : Z := u32 (len (Buffer m)).
Definition Pages (m : MemoryInstance) : Z := memoryBytesNumToPages (len (Buffer m)).

Definition hasSize (m : MemoryInstance) (offset byteCount : Z) : bool :=
  u64 (offset + byteCount) <=? len (Buffer m).

(** ** Reading

    The end of the slice expression is computed in 32 bits. *)
Definition slice32 (m : MemoryInstance) (offset n : Z) : result mem_panic (list Z) :=
  let fin := u32 (offset + n) in
  reject (fin <? offset) || (len (Buffer m) <? fin) as SliceBounds ;;
  Ok (sub (Buffer m) (Z.to_nat offset) (Z.to_nat (fin - offset))).

Definition ReadByte (m : MemoryInstance) (offset : Z) : result mem_panic (option Z) :=
  if negb (hasSize m offset 1) then Ok None
  else match Buffer m !! Z.to_nat offset with
       | Some b => Ok (Some b)
       | None => Err SliceBounds
       end.

Definition ReadUint16Le (m : MemoryInstance) (offset : Z) : result mem_panic (option Z) :=
  if negb (hasSize m offset 2) then Ok None
  else let! b := slice32 m offset 2 in Ok (Some (le_dec b)).

Definition readUint32Le (m : MemoryInstance) (offset : Z) : result mem_panic (option Z) :=
  if negb (hasSize m offset 4) then Ok None
  else let! b := slice32 m offset 4 in Ok (Some (le_dec b)).

Definition readUint64Le (m : MemoryInstance) (offset : Z) : result mem_panic (option Z) :=
  if negb (hasSize m offset 8) then Ok None
  else let! b := slice32 m offset 8 in Ok (Some (le_dec b)).

Definition ReadUint32Le := readUint32Le.
Definition ReadFloat32Le := readUint32Le.
Definition ReadUint64Le := readUint64Le.
Definition ReadFloat64Le := readUint64Le.

Definition Read (m : MemoryInstance) (offset byteCount : Z) : result mem_panic (option (list Z)) :=
  if negb (hasSize m offset byteCount) then Ok None
  else let! b := slice32 m offset byteCount in Ok (Some b).

(** ** Writing *)
Definition store (m : MemoryInstance) (offset : Z) (bs : list Z) : option MemoryInstance :=
  if negb (hasSize m offset (len bs)) then None
  else Some (with_buffer m (put (Buffer m) (Z.to_nat offset) bs) (spare m) (Cap m)).

Definition WriteByte (m : MemoryInstance) (offset v : Z) := store m offset [v].
Definition WriteUint16Le (m : MemoryInstance) (offset v : Z) := store m offset (le_enc 2 v).
Definition writeUint32Le (m : MemoryInstance) (offset v : Z) := store m offset (le_enc 4 v).
Definition writeUint64Le (m : MemoryInstance) (offset v : Z) := store m offset (le_enc 8 v).
Definition WriteUint32Le := writeUint32Le.
Definition WriteFloat32Le := writeUint32Le.
Definition WriteUint64Le := writeUint64Le.
Definition WriteFloat64Le := writeUint64Le.
Definition Write (m : MemoryInstance) (offset : Z) (val : list Z) := store m offset val.
Definition WriteString := Write.

(** ** Growing

    The result is Go's pair [(result, ok)] as an option. *)
Definition Grow (m : MemoryInstance) (delta : Z) : result mem_panic (option Z * MemoryInstance) :=
  let currentPages := Pages m in
  if delta =? 0 then Ok (Some currentPages, m)
  else
    let newPages := u32 (currentPages + delta) in
    if (Max m <? newPages) || (i32 delta <? 0) then Ok (None, m)
    else
      match expBuffer m with
      | Some reallocate =>
          match reallocate (Buffer m) (MemoryPagesToBytesNum newPages) with
          | None => Ok (None, m)
          | Some r =>
              if Shared m then
                reject r_moved r as SharedMoved ;;
                Ok (Some currentPages,
                    with_buffer m (r_buffer r) (zeros (Z.to_nat (r_cap r - len (r_buffer r))))
                      (memoryBytesNumToPages (r_cap r)))
              else
                Ok (Some currentPages,
                    with_buffer m (r_buffer r) (zeros (Z.to_nat (r_cap r - len (r_buffer r)))) newPages)
          end
      | None =>
          if Cap m <? newPages then
            reject Shared m as SharedGrown ;;
            Ok (Some currentPages,
                with_buffer m (Buffer m ++ zeros (Z.to_nat (MemoryPagesToBytesNum delta))) [] newPages)
          else
            let n := MemoryPagesToBytesNum newPages in
            reject len (Buffer m) + len (spare m) <? n as SliceBounds ;;
            let all := Buffer m ++ spare m in
            Ok (Some currentPages, with_buffer m (take (Z.to_nat n) all) (drop (Z.to_nat n) all) (Cap m))
      end.

(** ** Well-formed memories

    A whole number of pages, at most [Max] and at most 4 GiB, and a capacity of
    untouched zero bytes behind the length. *)
Record mem_ok (m : MemoryInstance) : Prop := {
  mo_bytes : bytes_ok (Buffer m);
  mo_pages : len (Buffer m) mod MemoryPageSize = 0;
  mo_max : len (Buffer m) <= Max m * MemoryPageSize;
  mo_limit : 0 <= Max m <= MemoryLimitPages;
  mo_cap : len (Buffer m) + len (spare m) = Cap m * MemoryPageSize;
  mo_spare : spare m = zeros (length (spare m));
  mo_shared : Shared m = true -> Cap m = Max m;
  mo_exp : expBuffer m = None }.

Lemma MemoryPagesToBytesNum_small p : 0 <= p < 2 ^ 32 -> MemoryPagesToBytesNum p = p * MemoryPageSize.
Proof.
  intros Hp. unfold MemoryPagesToBytesNum, MemoryPageSizeInBits, MemoryPageSize.
  rewrite Z.shiftl_mul_pow2 by lia. apply wrapu_small. unfold in_u. lia.
Qed.

Lemma Pages_ok m : mem_ok m -> 0 <= Pages m <= Max m /\ len (Buffer m) = Pages m * MemoryPageSize.
Proof.
  intros [_ Hp Hm Hl _ _ _ _]. unfold Pages, memoryBytesNumToPages, MemoryPageSizeInBits, MemoryPageSize, MemoryLimitPages in *.
  rewrite Z.shiftr_div_pow2 by lia. change (2 ^ 16) with 65536. pose proof (len_nonneg (Buffer m)).
  pose proof (Z.div_mod (len (Buffer m)) 65536). unfold u32. rewrite wrapu_small by (unfold in_u; lia). lia.
Qed.

Definition grown (m : MemoryInstance) (delta : Z) : Prop :=
  delta < 2 ^ 31 /\ Pages m + delta <= Max m.

Lemma Grow_cases m delta : mem_ok m -> 0 <= delta < 2 ^ 32 ->
  (grown m delta /\ exists s c,
     Grow m delta = Ok (Some (Pages m), with_buffer m (Buffer m ++ zeros (Z.to_nat (delta * MemoryPageSize))) s c) /\
     s = zeros (length s) /\ len (Buffer m) + delta * MemoryPageSize + len s = c * MemoryPageSize /\
     (Shared m = true -> c = Max m)) \/
  (~ grown m delta /\ Grow m delta = Ok (None, m)).
Proof.
  intros Hm Hd. destruct (Pages_ok m Hm) as [Hp Hl]. destruct Hm as [Hb _ Hmax Hlim Hcap Hsp Hsh Hexp].
  unfold MemoryLimitPages in Hlim. unfold Grow, grown. pose proof (len_nonneg (spare m)).
  destruct (Z.eqb_spec delta 0) as [->|Hne].
  { left. split; [lia|]. exists (spare m), (Cap m). rewrite Z.mul_0_l. cbn [Z.to_nat zeros].
    change (zeros 0) with (@nil Z). rewrite app_nil_r. split_and!; [by destruct m|done|lia|done]. }
  assert (u32 (Pages m + delta) = if Pages m + delta <? 2 ^ 32 then Pages m + delta else Pages m + delta - 2 ^ 32) as Hw.
  { unfold u32, wrapu. destruct (Z.ltb_spec (Pages m + delta) (2 ^ 32)).
    - apply Z.mod_small. lia.
    - symmetry. apply (Z.mod_unique _ _ 1); lia. }
  assert (i32 delta < 0 <-> 2 ^ 31 <= delta) as Hi.
  { unfold i32, wraps. change (2 ^ (32 - 1)) with 2147483648. change (2 ^ 31) with 2147483648.
    destruct (Z_lt_le_dec delta 2147483648).
    - rewrite Z.mod_small by lia. lia.
    - replace ((delta + 2147483648) mod 2 ^ 32) with (delta + 2147483648 - 2 ^ 32)
        by (apply (Z.mod_unique _ _ 1); lia). lia. }
  destruct (Z.ltb_spec (Max m) (u32 (Pages m + delta))) as [Hbig|Hfit].
  { right. cbn [orb]. split; [|done]. destruct (Z.ltb_spec (Pages m + delta) (2 ^ 32)); lia. }
  destruct (Z.ltb_spec (i32 delta) 0) as [Hneg|Hpos]; cbn [orb].
  { right. split; [|done]. lia. }
  left. destruct (Z.ltb_spec (Pages m + delta) (2 ^ 32)); [|lia]. rewrite Hw in *. split; [lia|].
  rewrite Hexp, !MemoryPagesToBytesNum_small by lia. unfold MemoryPageSize in *.
  destruct (Z.ltb_spec (Cap m) (Pages m + delta)).
  - destruct (Shared m) eqn:Es; [specialize (Hsh eq_refl); lia|].
    exists [], (Pages m + delta). split_and!; [done|done|rewrite len_nil; lia|done].
  - destruct (Z.ltb_spec (len (Buffer m) + len (spare m)) ((Pages m + delta) * 65536)); [lia|].
    set (n := Z.to_nat (delta * 65536)).
    assert (Z.to_nat ((Pages m + delta) * 65536) = length (Buffer m) + n)%nat as -> by (unfold n, len in *; lia).
    rewrite take_app_add, drop_app_add.
    assert (n <= length (spare m))%nat as Hn by (unfold n, len in *; lia).
    exists (drop n (spare m)), (Cap m).
    assert (take n (spare m) = zeros n /\ drop n (spare m) = zeros (length (spare m) - n)) as [-> ->].
    { rewrite Hsp. unfold zeros. by rewrite take_replicate, drop_replicate, length_replicate, Nat.min_l. }
    rewrite length_zeros. split_and!; [done|done| |done].
    unfold len in *. rewrite length_zeros. unfold n in *. lia.
Qed.
(** ** Sequences of operations *)
Inductive mem_op : Type :=
| OpWrite (offset : Z) (val : list Z)
| OpGrow (delta : Z).

Definition mem_op_ok (op : mem_op) : Prop :=
  match op with
  | OpWrite offset val => in_u 32 offset /\ bytes_ok val /\ in_u 32 (len val)
  | OpGrow delta => in_u 32 delta
  end.

(** A write out of range and a growth past the maximum leave the memory. *)
Definition mem_step (m : MemoryInstance) (op : mem_op) : result mem_panic MemoryInstance :=
  match op with
  | OpWrite offset val => Ok (default m (Write m offset val))
  | OpGrow delta => let! (_, m) := Grow m delta in Ok m
  end.

Lemma hasSize_spec m offset n : in_u 32 offset -> in_u 33 n ->
  hasSize m offset n = true <-> offset + n <= len (Buffer m).
Proof.
  unfold in_u, hasSize, u64. intros. rewrite wrapu_small by (unfold in_u; lia). apply Z.leb_le.
Qed.

Lemma store_Some m offset bs m' : in_u 32 offset -> in_u 32 (len bs) -> store m offset bs = Some m' ->
  offset + len bs <= len (Buffer m) /\
  m' = with_buffer m (put (Buffer m) (Z.to_nat offset) bs) (spare m) (Cap m).
Proof.
  unfold store. intros Ho Hn H. destruct (hasSize m offset (len bs)) eqn:E; [|done].
  apply hasSize_spec in E; [|done|unfold in_u in *; lia]. by injection H as <-.
Qed.

Lemma bytes_ok_put (b : list Z) off bs : bytes_ok b -> bytes_ok bs -> bytes_ok (put b off bs).
Proof.
  intros Hb Hs. unfold put. apply Forall_app. split; [by apply Forall_take|].
  apply Forall_app. split; [done|by apply Forall_drop].
Qed.

Lemma len_put (b : list Z) off bs : (off + length bs <= length b)%nat -> len (put b off bs) = len b.
Proof. intros H. unfold len, put. rewrite !length_app, length_take, length_drop. lia. Qed.

Lemma mem_step_ok m op : mem_ok m -> mem_op_ok op ->
  okp (mem_step m op) (fun m' => mem_ok m' /\ Max m' = Max m /\ len (Buffer m) <= len (Buffer m')).
Proof.
  intros Hm Hop. destruct op as [off val|delta]; cbn [mem_step mem_op_ok] in *.
  - destruct Hop as (Ho & Hv & Hl). cbn [okp].
    destruct (Write m off val) as [m'|] eqn:E; cbn [default from_option id]; [|by split_and!].
    unfold Write in E. apply store_Some in E as [Hfit ->]; [|done|done]. unfold in_u in Ho.
    assert (len (put (Buffer m) (Z.to_nat off) val) = len (Buffer m)) as L by (apply len_put; unfold len in *; lia).
    destruct Hm as [H1 H2 H3 H4 H5 H6 H7 H8]. split_and!; [|done|cbn; lia].
    split; cbn [Buffer spare Cap Max Shared expBuffer with_buffer]; rewrite ?L; try done. by apply bytes_ok_put.
  - destruct (Grow_cases m delta Hm Hop) as [((Hd & Hp) & s & c & -> & Hs & Hc & Hsh)|(_ & ->)]; cbn [okp]; [|by split_and!].
    destruct (Pages_ok m Hm) as [_ Hlp]. destruct Hm as [H1 H2 H3 H4 H5 H6 H7 H8]. unfold in_u in Hop.
    assert (len (Buffer m ++ zeros (Z.to_nat (delta * MemoryPageSize))) = (Pages m + delta) * MemoryPageSize) as L.
    { rewrite len_app. unfold len at 2. rewrite length_zeros, Z2Nat.id by (unfold MemoryPageSize; lia). lia. }
    split_and!; [|done|cbn; unfold MemoryPageSize in *; lia].
    split; cbn [Buffer spare Cap Max Shared expBuffer with_buffer]; rewrite ?L; try done.
    + apply Forall_app. split; [done|apply zeros_bytes].
    + apply Z_mod_mult.
    + unfold MemoryPageSize. lia.
    + lia.
Qed.

Definition Memory_ok (sec : Memory) : Prop :=
  0 <= sec_Min sec <= sec_Cap sec /\ sec_Cap sec <= sec_Max sec <= MemoryLimitPages.

Lemma NewMemoryInstance_ok sec : Memory_ok sec ->
  exists m, NewMemoryInstance sec None = Ok m /\ mem_ok m /\
    Buffer m = zeros (Z.to_nat (sec_Min sec * MemoryPageSize)) /\ Max m = sec_Max sec.
Proof.
  intros [[H0 H1] [H2 H3]]. unfold MemoryLimitPages in H3. unfold NewMemoryInstance, make.
  rewrite !MemoryPagesToBytesNum_small by lia. unfold MemoryPageSize.
  set (c := if IsShared sec then sec_Max sec * 65536 else sec_Cap sec * 65536).
  assert (exists p, c = p * 65536 /\ sec_Min sec <= p <= sec_Max sec /\ (IsShared sec = true -> p = sec_Max sec))
    as (p & Hc & Hp & Hsh).
  { unfold c. destruct (IsShared sec); [exists (sec_Max sec)|exists (sec_Cap sec)]; split_and!; done || lia. }
  rewrite Hc. destruct (Z.ltb_spec (p * 65536) (sec_Min sec * 65536)); [lia|].
  eexists. split; [reflexivity|]. split_and!; [|done|done].
  assert (forall n, 0 <= n -> len (zeros (Z.to_nat n)) = n) as Lz.
  { intros n Hn. unfold len. rewrite length_zeros. lia. }
  split; cbn [Buffer spare Cap Max Shared expBuffer]; rewrite ?length_zeros; unfold MemoryPageSize, MemoryLimitPages;
    rewrite ?Lz by lia.
  - apply zeros_bytes.
  - apply Z_mod_mult.
  - lia.
  - lia.
  - unfold memoryBytesNumToPages, MemoryPageSizeInBits. rewrite Z.shiftr_div_pow2 by lia. change (2 ^ 16) with 65536.
    replace (sec_Min sec * 65536 + (p * 65536 - sec_Min sec * 65536)) with (p * 65536) by lia.
    rewrite Z_div_mult by lia. unfold u32. by rewrite wrapu_small by (unfold in_u; lia).
  - done.
  - intros E. unfold memoryBytesNumToPages, MemoryPageSizeInBits. rewrite Z.shiftr_div_pow2 by lia. change (2 ^ 16) with 65536.
    replace (sec_Min sec * 65536 + (p * 65536 - sec_Min sec * 65536)) with (p * 65536) by lia.
    rewrite Z_div_mult by lia. unfold u32. rewrite wrapu_small by (unfold in_u; lia). auto.
  - done.
Qed.

(** The number of pages after an operation, by the rule for growth alone. *)
Definition pages_after (max p : Z) (op : mem_op) : Z :=
  match op with
  | OpWrite _ _ => p
  | OpGrow delta => if (delta <? 2 ^ 31) && (p + delta <=? max) then p + delta else p
  end.
Lemma mem_step_pages m op m' : mem_ok m -> mem_op_ok op -> mem_step m op = Ok m' ->
  Pages m' = pages_after (Max m) (Pages m) op /\ Pages m <= Pages m'.
Proof.
  intros Hm Hop H. destruct op as [off val|delta]; cbn [mem_step pages_after mem_op_ok] in *.
  - injection H as <-. destruct (Write m off val) as [m1|] eqn:E; [|done]. cbn [default from_option id].
    destruct Hop as (Ho & _ & Hl). unfold Write in E. apply store_Some in E as [Hfit ->]; [|done..]. unfold Pages. cbn [Buffer with_buffer].
    rewrite len_put by (unfold in_u, len in *; lia). done.
  - pose proof (mem_step_ok m (OpGrow delta) Hm Hop) as Hs. cbn [mem_step] in Hs.
    destruct (Grow_cases m delta Hm Hop) as [((H1 & H2) & s & c & E & _)|(Hn & E)]; rewrite E in H, Hs; injection H as <-.
    + destruct Hs as (Hm' & _). destruct (Pages_ok m Hm) as [_ Hl], (Pages_ok _ Hm') as [_ Hl'].
      rewrite (proj2 (Z.ltb_lt _ _) H1), (proj2 (Z.leb_le _ _) H2). cbn [andb]. unfold in_u in Hop.
      cbn [Buffer with_buffer] in Hl'. rewrite len_app in Hl'. unfold len at 2 in Hl'.
      rewrite length_zeros, Z2Nat.id in Hl' by (unfold MemoryPageSize; lia). unfold MemoryPageSize in *. lia.
    + destruct (Z.ltb_spec delta (2 ^ 31)), (Z.leb_spec (Pages m + delta) (Max m)); try done. by destruct Hn.
Qed.
Lemma mem_steps m ops : mem_ok m -> Forall mem_op_ok ops -> exists m', foldm mem_step m ops = Ok m' /\ mem_ok m' /\
  Max m' = Max m /\ Pages m' = fold_left (pages_after (Max m)) ops (Pages m) /\ Pages m <= Pages m'.
Proof.
  revert m. induction ops as [|op ops IH]; intros m Hm Hops; cbn [foldm fold_left]; [by exists m|].
  apply Forall_cons in Hops as [Hop Hops]. pose proof (mem_step_ok m op Hm Hop) as Hs.
  destruct (mem_step m op) as [m1|] eqn:E; [|done]. destruct Hs as (Hm1 & Hmax & _).
  destruct (mem_step_pages m op m1 Hm Hop E) as [Hp Hle]. destruct (IH m1 Hm1 Hops) as (m' & E' & H1 & H2 & H3 & H4).
  exists m'. rewrite Hmax, Hp in H3. split_and!; try done; [congruence|lia].
Qed.

(** C29: a memory made from a declared section, without a custom allocator, is
    well formed and stays so: no sequence of writes and growths panics, moves
    the memory off a page boundary, past its maximum or past its capacity; its
    size is the declared minimum and the growths that were granted, and it
    never gets smaller on the way. *)
Theorem memory_well_formed sec ops ops' :
  Memory_ok sec -> Forall mem_op_ok (ops ++ ops') ->
  exists m0 m m', NewMemoryInstance sec None = Ok m0 /\ foldm mem_step m0 ops = Ok m /\ foldm mem_step m ops' = Ok m' /\
    mem_ok m /\ mem_ok m' /\ Max m' = sec_Max sec /\ Pages m0 = sec_Min sec /\
    Pages m = fold_left (pages_after (sec_Max sec)) ops (sec_Min sec) /\ sec_Min sec <= Pages m <= Pages m'.
Proof.
  intros Hsec [Hops Hops']%Forall_app. destruct (NewMemoryInstance_ok sec Hsec) as (m0 & E & Hm & Hb & Hmax).
  assert (Pages m0 = sec_Min sec) as H0.
  { destruct (Pages_ok m0 Hm) as [_ Hp]. destruct Hsec as [[? ?] _]. rewrite Hb in Hp.
    unfold len in Hp. rewrite length_zeros, Z2Nat.id in Hp by (unfold MemoryPageSize; lia). unfold MemoryPageSize in *. lia. }
  destruct (mem_steps m0 ops Hm Hops) as (m & E1 & Hm1 & Hmax1 & Hp1 & Hle1).
  destruct (mem_steps m ops' Hm1 Hops') as (m' & E2 & Hm2 & Hmax2 & _ & Hle2).
  exists m0, m, m'. rewrite Hmax, H0 in Hp1. split_and!; try done; [congruence|lia].
Qed.

Lemma memory_well_formed_witness :
  exists m0 m m', NewMemoryInstance (mkMemorySec 0 1 2 false) None = Ok m0 /\
    foldm mem_step m0 [OpGrow 1; OpWrite 65534 [7; 8]] = Ok m /\ foldm mem_step m [OpGrow 1; OpGrow 1] = Ok m' /\
    mem_ok m /\ mem_ok m' /\ Max m' = 2 /\ Pages m = 1.
Proof.
  destruct (memory_well_formed (mkMemorySec 0 1 2 false) [OpGrow 1; OpWrite 65534 [7; 8]] [OpGrow 1; OpGrow 1])
    as (m0 & m & m' & H0 & H1 & H2 & H3 & H4 & H5 & _ & H6 & _).
  - split; split; vm_compute; discriminate.
  - repeat apply Forall_cons_2; cbn [mem_op_ok]; unfold in_u; [lia| |lia|lia|constructor].
    split; [lia|]. split; [|vm_compute; split; done]. repeat apply Forall_cons_2; [done|done|constructor].
  - exists m0, m, m'. rewrite H6. split_and!; try assumption; reflexivity.
Defined.

(** A growth is granted exactly when it asks for fewer than 2^31 pages and
    the memory stays within its maximum; it returns the previous size and
    appends zero bytes, and a refused growth changes nothing. *)
Theorem grow_specified m delta : mem_ok m -> in_u 32 delta ->
  if (delta <? 2 ^ 31) && (Pages m + delta <=? Max m)
  then exists m', Grow m delta = Ok (Some (Pages m), m') /\
         Buffer m' = Buffer m ++ zeros (Z.to_nat (delta * MemoryPageSize)) /\
         Pages m' = Pages m + delta
  else Grow m delta = Ok (None, m).
Proof.
  intros Hm Hd. pose proof (mem_step_ok m (OpGrow delta) Hm Hd) as Hs. cbn [mem_step] in Hs.
  destruct (Grow_cases m delta Hm Hd) as [((H1 & H2) & s & c & E & _)|(Hn & ->)].
  - rewrite E in Hs. destruct Hs as (Hm' & _).
    rewrite (proj2 (Z.ltb_lt _ _) H1), (proj2 (Z.leb_le _ _) H2). cbn [andb].
    eexists. split; [exact E|]. split; [done|]. destruct (Pages_ok m Hm) as [_ Hl], (Pages_ok _ Hm') as [_ Hl'].
    cbn [Buffer with_buffer] in Hl'. rewrite len_app in Hl'. unfold len at 2 in Hl'.
    unfold in_u in Hd. rewrite length_zeros, Z2Nat.id in Hl' by (unfold MemoryPageSize; lia).
    unfold MemoryPageSize in *. lia.
  - destruct (Z.ltb_spec delta (2 ^ 31)), (Z.leb_spec (Pages m + delta) (Max m)); try done.
    exfalso. by apply Hn.
Qed.

Definition empty_memory : MemoryInstance := mkMemory [] [] 0 0 1 false None.

Lemma empty_memory_ok : mem_ok empty_memory.
Proof. split; try done; vm_compute; (constructor || split); discriminate. Qed.

Lemma grow_specified_witness :
  exists m', Grow empty_memory 1 = Ok (Some 0, m') /\
    Buffer m' = [] ++ zeros (Z.to_nat (1 * MemoryPageSize)) /\ Pages m' = 0 + 1.
Proof. apply (grow_specified empty_memory 1); [apply empty_memory_ok|done]. Defined.

(** ** Reading what was written *)
Lemma slice32_ok m offset n :
  in_u 32 offset -> 0 <= n -> offset + n < 2 ^ 32 -> offset + n <= len (Buffer m) ->
  slice32 m offset n = Ok (sub (Buffer m) (Z.to_nat offset) (Z.to_nat n)).
Proof.
  intros Ho Hn Hw Hl. unfold in_u in Ho. unfold slice32, u32. rewrite wrapu_small by (unfold in_u; lia).
  destruct (Z.ltb_spec (offset + n) offset); [lia|]. destruct (Z.ltb_spec (len (Buffer m)) (offset + n)); [lia|].
  cbn [orb]. by replace (offset + n - offset) with n by lia.
Qed.

(** [Read] on every range: a range that ends at 4 GiB is the one the 32-bit
    end of the slice expression gets wrong. *)
Lemma Read_cases m o n : len (Buffer m) <= 2 ^ 32 -> in_u 32 o -> in_u 32 n ->
  Read m o n = if len (Buffer m) <? o + n then Ok None
               else if o + n =? 2 ^ 32 then Err SliceBounds
               else Ok (Some (sub (Buffer m) (Z.to_nat o) (Z.to_nat n))).
Proof.
  unfold in_u. intros Hl Ho Hn. unfold Read, hasSize, u64. rewrite wrapu_small by (unfold in_u; lia).
  destruct (Z.leb_spec (o + n) (len (Buffer m))), (Z.ltb_spec (len (Buffer m)) (o + n)); try lia; [|done]. cbn [negb].
  destruct (Z.eqb_spec (o + n) (2 ^ 32)) as [E|].
  - unfold slice32. rewrite E. change (u32 (2 ^ 32)) with 0. by destruct (Z.ltb_spec 0 o); [|lia].
  - rewrite slice32_ok by (unfold in_u; lia). done.
Qed.

(** C30: a write is refused exactly when its range is not inside the memory, and
    otherwise what it wrote is read back and every range it does not touch
    reads as before; a read is refused exactly when its range is not inside the
    memory, and otherwise returns the bytes, except that one that ends at 4 GiB
    panics. *)
Theorem read_after_write m offset val o n :
  len (Buffer m) <= 2 ^ 32 -> in_u 32 offset -> in_u 32 (len val) -> in_u 32 o -> in_u 32 n ->
  match Write m offset val with
  | None => len (Buffer m) < offset + len val
  | Some m' =>
      offset + len val <= len (Buffer m) /\
      Read m' offset (len val) = (if offset + len val =? 2 ^ 32 then Err SliceBounds else Ok (Some val)) /\
      (o + n <= offset \/ offset + len val <= o -> Read m' o n = Read m o n) /\
      Read m' o n = (if len (Buffer m) <? o + n then Ok None
                     else if o + n =? 2 ^ 32 then Err SliceBounds
                     else Ok (Some (sub (Buffer m') (Z.to_nat o) (Z.to_nat n))))
  end.
Proof.
  intros Hm Hoff Hv Ho Hn. unfold Write. destruct (store m offset val) as [m'|] eqn:E.
  - apply store_Some in E as [Hfit ->]; [|done|done]. set (m' := with_buffer _ _ _ _).
    assert (len (Buffer m') = len (Buffer m)) as L by (apply len_put; unfold in_u, len in *; lia).
    rewrite !Read_cases by (rewrite ?L; done). rewrite !L. unfold in_u in *. split_and!; [done| | |done].
    + destruct (Z.ltb_spec (len (Buffer m)) (offset + len val)); [lia|]. destruct (_ =? _); [done|].
      cbn [Buffer m' with_buffer]. unfold len. rewrite Nat2Z.id, sub_put_same; [done|unfold len in *; lia].
    + intros Hdis. destruct (Z.ltb_spec (len (Buffer m)) (o + n)); [done|]. destruct (_ =? _); [done|].
      do 2 f_equal. cbn [Buffer m' with_buffer].
      destruct Hdis; [apply sub_put_before|apply sub_put_after]; unfold len in *; lia.
  - unfold store in E. destruct (hasSize m offset (len val)) eqn:Eh; [done|].
    unfold hasSize, u64 in Eh. rewrite wrapu_small in Eh by (unfold in_u in *; lia). by apply Z.leb_gt in Eh.
Qed.

Definition page_memory : MemoryInstance := mkMemory [1; 2; 3; 4] [] 0 0 1 false None.

Lemma read_after_write_witness :
  exists m', Write page_memory 1 [8; 9] = Some m' /\ Read m' 1 2 = Ok (Some [8; 9]) /\
    Read m' 3 1 = Read page_memory 3 1.
Proof.
  pose proof (read_after_write page_memory 1 [8; 9] 3 1 ltac:(done) ltac:(done) ltac:(done) ltac:(done) ltac:(done)) as H.
  cbn [Write store] in H. destruct (Write page_memory 1 [8; 9]) as [m'|] eqn:E; [|vm_compute in H; discriminate].
  exists m'. destruct H as (_ & H1 & H2 & _). split; [done|]. split; [exact H1|]. apply H2. right. done.
Defined.

(** On a memory of the full 4 GiB, a read that ends at its last byte is in
    range but panics: the end of the slice expression is computed in 32 bits
    and wraps to zero.  The same bytes can be written. *)
Theorem read_at_limit_panics m offset n :
  len (Buffer m) = 2 ^ 32 -> in_u 32 offset -> in_u 32 n -> offset + n = 2 ^ 32 ->
  hasSize m offset n = true /\ Read m offset n = Err SliceBounds /\
  readUint32Le m (2 ^ 32 - 4) = Err SliceBounds /\ readUint64Le m (2 ^ 32 - 8) = Err SliceBounds /\
  ReadUint16Le m (2 ^ 32 - 2) = Err SliceBounds /\ is_Some (writeUint32Le m (2 ^ 32 - 4) 0).
Proof.
  intros Hl Ho Hn E. unfold in_u in Ho.
  assert (forall o k, o + k = 2 ^ 32 -> 0 < o -> 0 < k -> hasSize m o k = true /\ slice32 m o k = Err SliceBounds) as H.
  { intros o k Ek Hok Hk. unfold hasSize, slice32. rewrite Hl, Ek. split; [reflexivity|].
    change (u32 (2 ^ 32)) with 0. by destruct (Z.ltb_spec 0 o); [|lia]. }
  unfold in_u in Hn. destruct (H offset n) as [H1 H2]; [lia..|].
  destruct (H (2 ^ 32 - 4) 4) as [H3 H4]; [done..|]. destruct (H (2 ^ 32 - 8) 8) as [H5 H6]; [done..|].
  destruct (H (2 ^ 32 - 2) 2) as [H7 H8]; [done..|].
  unfold Read, readUint32Le, readUint64Le, ReadUint16Le, writeUint32Le, store.
  change (len (le_enc 4 0)) with 4. rewrite H1, H2, H3, H4, H5, H6, H7, H8. split_and!; done.
Qed.

Definition full_memory : MemoryInstance :=
  mkMemory (zeros (Z.to_nat (2 ^ 32))) [] 0 65536 65536 false None.

Lemma read_at_limit_panics_witness :
  len (Buffer full_memory) = 2 ^ 32 /\ Read full_memory (2 ^ 32 - 3) 3 = Err SliceBounds.
Proof.
  assert (len (Buffer full_memory) = 2 ^ 32) as L.
  { unfold len, full_memory. cbn [Buffer]. rewrite length_zeros, Z2Nat.id by lia. reflexivity. }
  assert (in_u 32 (2 ^ 32 - 3) /\ in_u 32 3 /\ 2 ^ 32 - 3 + 3 = 2 ^ 32) as (H1 & H2 & H3) by (unfold in_u; lia).
  destruct (read_at_limit_panics full_memory (2 ^ 32 - 3) 3 L H1 H2 H3) as (_ & H & _).
  split; [exact L|exact H].
Defined.

End WasmMemory.
