(* ===== verification/Waiters.v ===== *)
(** * Wait and notify ([src/internal/wasm/memory.go])

    The waiters of a shared memory.  Every access to a waiter list happens
    under its mutex, so each critical section is one step: a wait that parks, a
    notification, the removal of a wait that timed out.  The [select] of a
    parked wait is outside the mutex and a step of its own: it may take the
    closed channel or the timer, also when both are ready, and a wait that took
    the timer removes itself later.  The system is the interleaving of such
    steps of any number of threads.  [notify_wakes] shows that a notification
    reaches the longest-parked waits at its offset and that each of them returns
    0, unless its own timer was taken, before the notification or after it. *)
From S2P Require Import Prelude.

Module Waiters.

(** A parked wait: the offset it waits at, its timeout and whether the [select]
    took the timer; its channel is the number it is filed under. *)
Record parked : Type := mkParked { p_offset : Z; p_timeout : Z; p_expired : bool }.

Record waiters : Type := mkWaiters {
  queues : gmap Z (list nat);
  closed : gset nat;
  waiting : gmap nat parked;
  returned : gmap nat Z }.

Definition queue (w : waiters) (offset : Z) : list nat := default [] (queues w !! offset).

Definition no_waiters : waiters := mkWaiters ∅ ∅ ∅ ∅.

(** [Wait32] and [Wait64] up to the point where the caller blocks: [cur] is the
    value the reader returned.  [ch] is the channel made for this wait. *)
Inductive wait_result : Type :=
| NotEqual
| TooManyWaiters
| Parked (w : waiters).

Definition wait (w : waiters) (offset timeout : Z) (ch : nat) : wait_result :=
  let l := queue w offset in
  if u64 (len l + 1) =? 2 ^ 32 then TooManyWaiters
  else Parked (mkWaiters (<[offset := l ++ [ch]]> (queues w)) (closed w)
                 (<[ch := mkParked offset timeout false]> (waiting w)) (returned w)).

Definition Wait (w : waiters) (offset cur exp timeout : Z) (ch : nat) : wait_result :=
  if negb (cur =? exp) then NotEqual else wait w offset timeout ch.

(** The loop of [Notify]: the channels closed, in order, and what is left. *)
Fixpoint notify_loop (l : list nat) (res count : Z) : list nat * list nat * Z :=
  match l with
  | [] => ([], [], res)
  | ch :: l' =>
      if res <? count then
        let '(c, rest, res) := notify_loop l' (u32 (res + 1)) count in (ch :: c, rest, res)
      else ([], l, res)
  end.

Definition Notify (w : waiters) (offset count : Z) : waiters * Z :=
  match queues w !! offset with
  | None => (w, 0)
  | Some l =>
      let '(c, rest, res) := notify_loop l 0 count in
      (mkWaiters (<[offset := rest]> (queues w)) (closed w ∪ list_to_set c) (waiting w) (returned w), res)
  end.

(** The [select] took the timer. *)
Definition expire (w : waiters) (ch : nat) (p : parked) : waiters :=
  mkWaiters (queues w) (closed w) (<[ch := mkParked (p_offset p) (p_timeout p) true]> (waiting w)) (returned w).
Definition finish (w : waiters) (ch : nat) (code : Z) (q : gmap Z (list nat)) : waiters :=
  mkWaiters q (closed w) (delete ch (waiting w)) (<[ch := code]> (returned w)).

(** [w.l.Remove(elem)]: nothing when the element is no longer in the list. *)
Definition remove_waiter (q : gmap Z (list nat)) (offset : Z) (ch : nat) : gmap Z (list nat) :=
  alter (fun l => filter (fun x => x <> ch) l) offset q.

(** One critical section, or one return, of some thread.  A channel is fresh:
    it is neither queued, waiting nor closed, and has not returned. *)
Inductive step (w : waiters) : waiters -> Prop :=
| StepPark offset cur exp timeout ch w' :
    ch ∉ closed w -> waiting w !! ch = None -> returned w !! ch = None ->
    Wait w offset cur exp timeout ch = Parked w' -> step w w'
| StepNotify offset count :
    in_u 32 count ->
    step w (fst (Notify w offset count))
| StepWake ch p :
    waiting w !! ch = Some p -> p_expired p = false -> ch ∈ closed w ->
    step w (finish w ch 0 (queues w))
| StepExpire ch p :
    waiting w !! ch = Some p -> p_expired p = false -> 0 <= p_timeout p ->
    step w (expire w ch p)
| StepTimeout ch p :
    waiting w !! ch = Some p -> p_expired p = true ->
    step w (finish w ch 2 (remove_waiter (queues w) (p_offset p) ch)).

Definition reachable (w : waiters) : Prop := rtc step no_waiters w.

(** ** The invariant: a queued channel is one parked, unnotified wait, and only a
    wait with a timeout expires. *)
Record waiters_ok (w : waiters) : Prop := {
  wo_queued : forall offset ch, ch ∈ queue w offset ->
    (exists p, waiting w !! ch = Some p /\ p_offset p = offset) /\ ch ∉ closed w;
  wo_parked : forall ch p, waiting w !! ch = Some p -> ch ∈ queue w (p_offset p) \/ ch ∈ closed w;
  wo_nodup : forall offset, NoDup (queue w offset);
  wo_expired : forall ch p, waiting w !! ch = Some p -> p_expired p = true -> 0 <= p_timeout p }.

Lemma queue_insert w off l c wt rt o :
  queue (mkWaiters (<[off := l]> (queues w)) c wt rt) o = if decide (o = off) then l else queue w o.
Proof.
  unfold queue. cbn [queues]. destruct (decide (o = off)) as [->|Hne].
  - by rewrite lookup_insert_eq.
  - by rewrite lookup_insert_ne.
Qed.

(** [Notify] closes a prefix of the queue, as long as asked for. *)
Lemma notify_loop_prefix l : forall res count, 0 <= res -> 0 <= count < 2 ^ 32 -> res <= count ->
  let n := Z.to_nat (count - res) in
  notify_loop l res count = (take n l, drop n l, res + len (take n l)).
Proof.
  induction l as [|ch l IH]; intros res count Hr Hc Hle; cbn zeta; cbn [notify_loop].
  - rewrite take_nil, drop_nil, len_nil. by rewrite Z.add_0_r.
  - destruct (Z.ltb_spec res count).
    + unfold u32. rewrite wrapu_small by (unfold in_u; lia).
      rewrite IH by lia. replace (Z.to_nat (count - res)) with (S (Z.to_nat (count - (res + 1)))) by lia.
      cbn [take drop]. rewrite len_cons. f_equal. lia.
    + replace (Z.to_nat (count - res)) with 0%nat by lia. rewrite take_0, drop_0, len_nil. by rewrite Z.add_0_r.
Qed.

Lemma Notify_spec w offset count : in_u 32 count ->
  let l := queue w offset in let n := Z.to_nat count in
  snd (Notify w offset count) = Z.min count (len l) /\
  (forall o, queue (fst (Notify w offset count)) o = if decide (o = offset) then drop n l else queue w o) /\
  closed (fst (Notify w offset count)) = closed w ∪ list_to_set (take n l) /\
  waiting (fst (Notify w offset count)) = waiting w /\ returned (fst (Notify w offset count)) = returned w.
Proof.
  intros Hc l n. unfold in_u in Hc. unfold Notify. destruct (queues w !! offset) as [q|] eqn:E.
  - assert (l = q) as Hl by (unfold l, queue; by rewrite E). clearbody l. subst l.
    rewrite notify_loop_prefix by lia. rewrite Z.sub_0_r. fold n. cbn [fst snd closed waiting returned].
    split_and!; [|intros o; apply queue_insert|done|done|done].
    unfold len. rewrite length_take. unfold n. lia.
  - assert (queue w offset = []) as Hl by (unfold queue; by rewrite E). unfold l. clear l. rewrite Hl.
    cbn [fst snd]. change (len (@nil nat)) with 0. rewrite take_nil, drop_nil. split_and!; [lia| |symmetry; apply union_empty_r_L|done|done].
    intros o. by destruct (decide (o = offset)) as [->|].
Qed.

Lemma park_ok w off cur exp timeout ch w' :
  waiters_ok w -> ch ∉ closed w -> waiting w !! ch = None ->
  Wait w off cur exp timeout ch = Parked w' -> waiters_ok w'.
Proof.
  intros [Hq Hp Hn Hexp] Hc Hw E.
  unfold Wait, wait in E. destruct (negb _); [done|]. destruct (_ =? _); [done|]. injection E as <-.
  assert (forall o, ch ∉ queue w o) as Hfresh.
  { intros o Hin. destruct (Hq o ch Hin) as [(p & Hp' & _) _]. congruence. }
  split; cbn [closed waiting].
  - intros o x. rewrite queue_insert. destruct (decide (o = off)) as [->|Hne]; intros Hin.
    + apply elem_of_app in Hin as [Hin|Hin%list_elem_of_singleton].
      * destruct (Hq off x Hin) as [(p & Hx & Ho) Hcl]. assert (x <> ch) by (intros ->; by apply (Hfresh off)).
         rewrite lookup_insert_ne by done. eauto.
      * subst x. rewrite lookup_insert_eq. eauto.
    + destruct (Hq o x Hin) as [(p & Hx & Ho) Hcl]. assert (x <> ch) by (intros ->; by apply (Hfresh o)).
      rewrite lookup_insert_ne by done. eauto.
  - intros x p Hx. rewrite queue_insert. destruct (decide (x = ch)) as [->|Hne].
    + rewrite lookup_insert_eq in Hx. injection Hx as <-. left. cbn. rewrite decide_True by done.
      apply elem_of_app. right. by apply list_elem_of_singleton.
    + rewrite lookup_insert_ne in Hx by done. destruct (Hp x p Hx) as [Hin|]; [|by right]. left.
      destruct (decide (p_offset p = off)) as [E|]; [|done]. rewrite E in Hin. apply elem_of_app. by left.
  - intros o. rewrite queue_insert. destruct (decide (o = off)) as [->|]; [|done].
    apply NoDup_app. split_and!; [done| |apply NoDup_singleton].
    intros x Hin Hx'%list_elem_of_singleton. subst x. by apply (Hfresh off).
  - intros x p Hxp. destruct (decide (x = ch)) as [->|Hne].
    + rewrite lookup_insert_eq in Hxp. by injection Hxp as <-.
    + rewrite lookup_insert_ne in Hxp by done. by apply (Hexp x).
Qed.

Lemma notify_ok w off count : waiters_ok w -> in_u 32 count -> waiters_ok (fst (Notify w off count)).
Proof.
  intros [Hq Hp Hn Hexp] Hcount.
  destruct (Notify_spec w off count Hcount) as (_ & Hqueue & Hclosed & Hwait & _).
  set (w' := fst (Notify w off count)) in *. set (n := Z.to_nat count) in *.
  pose proof (take_drop n (queue w off)) as Htd. pose proof (Hn off) as Hnd. rewrite <-Htd in Hnd.
  apply NoDup_app in Hnd as (Hnt & Hdis & Hndr). split; rewrite ?Hwait, ?Hclosed.
  - intros o x. rewrite Hqueue. destruct (decide (o = off)) as [->|Hne]; intros Hin.
    + assert (x ∈ queue w off) as Hin' by (rewrite <-Htd; set_solver).
      destruct (Hq off x Hin') as [Hx Hcl]. split; [done|]. specialize (Hdis x). set_solver.
    + destruct (Hq o x Hin) as [(p & Hx & Ho) Hcl]. split; [eauto|].
      assert (x ∉ take n (queue w off)); [|set_solver]. intros Hin'.
      assert (x ∈ queue w off) as Hin2 by (rewrite <-Htd; set_solver).
      destruct (Hq off x Hin2) as [(p' & Hx' & Ho') _]. congruence.
  - intros x p Hx. rewrite Hqueue. destruct (Hp x p Hx) as [Hin|]; [|set_solver].
    destruct (decide (p_offset p = off)) as [E|]; [|by left]. rewrite E, <-Htd in Hin. set_solver.
  - intros o. rewrite Hqueue. by destruct (decide (o = off)) as [->|].
  - done.
Qed.

Lemma wake_ok w ch : waiters_ok w -> ch ∈ closed w -> waiters_ok (finish w ch 0 (queues w)).
Proof.
  intros [Hq Hp Hn Hexp] Hcl.
  split; cbn [finish closed waiting]; unfold queue; cbn [queues]; fold (queue w).
  - intros o x Hin. destruct (Hq o x Hin) as [(p' & Hx & Ho) Hncl]. assert (x <> ch) by (intros ->; done).
    rewrite lookup_delete_ne by done. eauto.
  - intros x p' Hx. apply lookup_delete_Some in Hx as [Hne Hx]. eauto.
  - done.
  - intros x p' Hx. apply lookup_delete_Some in Hx as [Hne Hx]. eauto.
Qed.
Lemma expire_ok w ch p : waiters_ok w -> waiting w !! ch = Some p -> 0 <= p_timeout p -> waiters_ok (expire w ch p).
Proof.
  intros [Hq Hp Hn Hexp] Hch Ht. split; cbn [expire closed waiting]; unfold queue; cbn [queues]; fold (queue w).
  - intros o x Hin. destruct (Hq o x Hin) as [(p' & Hx & Ho) Hncl]. split; [|done].
    destruct (decide (x = ch)) as [->|Hne]; [|rewrite lookup_insert_ne by done; eauto].
    rewrite lookup_insert_eq. eexists. split; [done|]. cbn. congruence.
  - intros x p' Hx. destruct (decide (x = ch)) as [->|Hne]; [|rewrite lookup_insert_ne in Hx by done; eauto].
    rewrite lookup_insert_eq in Hx. injection Hx as <-. exact (Hp ch p Hch).
  - done.
  - intros x p' Hx. destruct (decide (x = ch)) as [->|Hne]; [|rewrite lookup_insert_ne in Hx by done; eauto].
    rewrite lookup_insert_eq in Hx. by injection Hx as <-.
Qed.

Lemma timeout_ok w ch p : waiters_ok w -> waiting w !! ch = Some p ->
  waiters_ok (finish w ch 2 (remove_waiter (queues w) (p_offset p) ch)).
Proof.
  intros [Hq Hp Hn Hexp] Hch.
  assert (forall o, queue (finish w ch 2 (remove_waiter (queues w) (p_offset p) ch)) o =
    if decide (o = p_offset p) then filter (fun x => x <> ch) (queue w o) else queue w o) as Hqueue.
  { intros o. unfold queue, finish, remove_waiter. cbn [queues]. destruct (decide (o = p_offset p)) as [->|Hne].
    - rewrite lookup_alter_eq. by destruct (queues w !! p_offset p).
    - by rewrite lookup_alter_ne. }
  split; cbn [closed waiting].
  - intros o x. rewrite Hqueue. change (waiting _) with (delete ch (waiting w)). change (closed _) with (closed w).
    destruct (decide (o = p_offset p)) as [->|Hne]; intros Hin.
    + apply list_elem_of_filter in Hin as [Hx Hin]. destruct (Hq _ x Hin) as [(p' & Hx' & Ho) Hncl].
      rewrite lookup_delete_ne by done. eauto.
    + destruct (Hq o x Hin) as [(p' & Hx' & Ho) Hncl]. assert (x <> ch) by (intros ->; congruence).
      rewrite lookup_delete_ne by done. eauto.
  - intros x p' Hx. change (waiting _) with (delete ch (waiting w)) in Hx. change (closed _) with (closed w).
    apply lookup_delete_Some in Hx as [Hne Hx]. destruct (Hp x p' Hx) as [Hin|]; [|by right]. left.
    rewrite Hqueue. destruct (decide (p_offset p' = p_offset p)); [|done].
    apply list_elem_of_filter. split; [congruence|done].
  - intros o. rewrite Hqueue. destruct (decide (o = p_offset p)); [|done]. by apply NoDup_filter.
  - intros x p' Hx. change (waiting _) with (delete ch (waiting w)) in Hx. apply lookup_delete_Some in Hx as [Hne Hx]. eauto.
Qed.

Lemma waiters_ok_step w w' : waiters_ok w -> step w w' -> waiters_ok w'.
Proof.
  intros Hw []; eauto using park_ok, notify_ok, wake_ok, expire_ok, timeout_ok.
Qed.

Lemma reachable_ok w : reachable w -> waiters_ok w.
Proof.
  intros H. unfold reachable in H. assert (waiters_ok no_waiters) as H0.
  { split.
    - intros o ch Hin. unfold queue in Hin. cbn in Hin. rewrite lookup_empty in Hin. by apply not_elem_of_nil in Hin.
    - intros ch p Hin. cbn in Hin. by rewrite lookup_empty in Hin.
    - intros o. unfold queue. cbn. rewrite lookup_empty. constructor.
    - intros ch p Hin. cbn in Hin. by rewrite lookup_empty in Hin. }
  revert H0. induction H as [|w0 w1 w2 Hs _ IH]; [done|]. intros H0. apply IH. by eapply waiters_ok_step.
Qed.
(** A notified wait with the timeout [t] stays ready until it returns: 0, or 2
    when it has a timeout. *)
Definition returns (t : Z) (c : Z) : Prop := c = 0 \/ c = 2 /\ 0 <= t.
Definition served (t : Z) (ch : nat) (w : waiters) : Prop :=
  (exists c, returned w !! ch = Some c /\ returns t c /\ waiting w !! ch = None) \/
  (exists p, waiting w !! ch = Some p /\ p_timeout p = t /\ (p_expired p = true -> 0 <= t) /\ ch ∈ closed w).

Lemma served_step t ch w w' : served t ch w -> step w w' -> served t ch w'.
Proof.
  intros Hs Hstep. unfold served in *.
  destruct Hstep as [off cur exp timeout x w' Hc Hw Hr E|off count Hcount|x p Hx He Hcl|x p Hx He Ht|x p Hx He].
  - unfold Wait, wait in E. destruct (negb _); [done|]. destruct (_ =? _); [done|]. injection E as <-.
    cbn [returned waiting closed]. destruct (decide (x = ch)) as [->|Hne].
    + destruct Hs as [(c & Hret & _)|(p & Hwait & _)]; congruence.
    + by rewrite lookup_insert_ne.
  - destruct (Notify_spec w off count Hcount) as (_ & _ & -> & -> & ->).
    destruct Hs as [|(p & Hwait & Hp & Hq & Hcl)]; [by left|right]. exists p. split_and!; try done. apply elem_of_union. by left.
  - cbn [finish returned waiting closed]. destruct (decide (x = ch)) as [->|Hne].
    + left. rewrite lookup_insert_eq, lookup_delete_eq. exists 0. split_and!; try done. by left.
    + rewrite lookup_insert_ne, lookup_delete_ne by done. done.
  - cbn [expire returned waiting closed]. destruct (decide (x = ch)) as [->|Hne]; [|by rewrite lookup_insert_ne].
    destruct Hs as [(c & _ & _ & Hwait)|(p' & Hwait & Hp & Hq & Hcl)]; [congruence|right].
    rewrite Hx in Hwait. injection Hwait as <-. rewrite lookup_insert_eq. eexists. split_and!; [done|done| |done]. intros _. by rewrite <-Hp.
  - cbn [finish returned waiting closed]. destruct (decide (x = ch)) as [->|Hne].
    + left. rewrite lookup_insert_eq, lookup_delete_eq. exists 2. split_and!; try done. right. split; [done|].
      destruct Hs as [(c & _ & _ & Hwait)|(p' & Hwait & Hp & Hq & Hcl)]; [congruence|]. apply Hq. congruence.
    + rewrite lookup_insert_ne, lookup_delete_ne by done. done.
Qed.

(** C31: no wakeup is lost.  In every reachable state, a notification removes the
    longest-parked waits at its offset from the queue, as many as it asks for
    and reports; and each of these, in every later state and whatever the other
    threads do meanwhile, has returned or can return in one step, with 0, or
    with 2 if its [select] took the timer, which only a wait with a timeout
    does. *)
Theorem notify_wakes w ch p count :
  reachable w -> waiting w !! ch = Some p -> in_u 32 count ->
  let l := queue w (p_offset p) in
  let w' := fst (Notify w (p_offset p) count) in
  step w w' /\ snd (Notify w (p_offset p) count) = Z.min count (len l) /\
  queue w' (p_offset p) = drop (Z.to_nat count) l /\
  (ch ∈ take (Z.to_nat count) l -> forall v, rtc step w' v ->
     (exists c, returned v !! ch = Some c /\ returns (p_timeout p) c) \/
     (exists q v', waiting v !! ch = Some q /\ step v v' /\
        returned v' !! ch = Some (if p_expired q then 2 else 0) /\ (p_expired q = true -> 0 <= p_timeout p))).
Proof.
  intros Hr Hw Hc l w'. destruct (Notify_spec w (p_offset p) count Hc) as (Hn & Hq & Hcl & Hwait & _).
  split_and!; [by apply StepNotify|done|by rewrite Hq, decide_True|].
  intros Hin v Hv. assert (served (p_timeout p) ch v) as Hs.
  { assert (served (p_timeout p) ch w') as H0.
    { right. unfold w'. rewrite Hwait, Hw. exists p. split_and!; [done|done|by apply (wo_expired _ (reachable_ok w Hr) ch)|].
      rewrite Hcl, elem_of_union, elem_of_list_to_set. by right. }
    clear -H0 Hv. induction Hv as [|a b c Hs _ IH]; [done|]. apply IH. by eapply served_step. }
  destruct Hs as [(c & Hret & Hc' & _)|(q & Hwv & Hp & Hx & Hcv)]; [left; eauto|right].
  destruct (p_expired q) eqn:E; eexists q, _; rewrite E; (split; [done|]); (split; [first [by eapply StepWake|by eapply StepTimeout]|]);
    (split; [cbn; apply lookup_insert_eq|done]).
Qed.

Definition one_parked (timeout : Z) : waiters := mkWaiters {[8 := [0%nat]]} ∅ {[0%nat := mkParked 8 timeout false]} ∅.

Lemma one_parked_reachable timeout : reachable (one_parked timeout).
Proof. apply rtc_once. by apply (StepPark no_waiters 8 5 5 timeout 0%nat); [set_solver|..]. Qed.

Lemma notify_wakes_witness :
  step (one_parked (-1)) (fst (Notify (one_parked (-1)) 8 1)) /\ snd (Notify (one_parked (-1)) 8 1) = 1 /\
  exists v, step (fst (Notify (one_parked (-1)) 8 1)) v /\ returned v !! 0%nat = Some 0.
Proof.
  destruct (notify_wakes (one_parked (-1)) 0 (mkParked 8 (-1) false) 1 (one_parked_reachable (-1))) as (Hs & Hn & _ & Hl);
    [vm_compute; reflexivity|done|].
  split; [exact Hs|]. split; [exact Hn|].
  destruct (Hl ltac:(by apply list_elem_of_here) _ (rtc_refl _ _)) as [(c & Hr & _)|(q & v & Hq & Hv & Hr & _)].
  - vm_compute in Hr. discriminate.
  - exists v. split; [exact Hv|]. vm_compute in Hq. injection Hq as <-. exact Hr.
Defined.

(** A wait that is notified, and counted, after its timer was taken returns 2. *)
Theorem notified_wait_times_out : exists w v, reachable w /\ snd (Notify w 8 1) = 1 /\
  rtc step (fst (Notify w 8 1)) v /\ returned v !! 0%nat = Some 2.
Proof.
  exists (expire (one_parked 5) 0%nat (mkParked 8 5 false)). eexists. split; [|split; [reflexivity|split]].
  - eapply rtc_r; [apply (one_parked_reachable 5)|]. by apply StepExpire; [vm_compute| |cbn; lia].
  - apply rtc_once. by apply (StepTimeout _ 0%nat (mkParked 8 5 true)); [vm_compute|].
  - vm_compute. reflexivity.
Qed.

End Waiters.
