(* ===== verification/Snapshot.v ===== *)
(** * Capturing and restoring a module ([src/internal/wasmsnapshot/snapshot.go])

    [Capture] reads a module's memory, globals and tables at a quiescent point;
    [Restore] writes them into a fresh instance.  Table elements travel as
    function indices: [captureTable] inverts the engine's map from indices to
    references, and [restore_captured] shows that restoring gives the running
    module's state back, with the fresh engine's references.  The module's instances are
    distinct objects, so they are held by value. *)
From S2P Require Import Prelude WasmMemory SnapTypes.
Import SnapTypes.

Module Snapshot.

Definition RefTypeFuncref : Z := 0x70.
Definition RefTypeExternref : Z := 0x6f.

Record GlobalInstance : Type := mkGlobal { g_ValType : Z; g_Mutable : bool; g_Val : Z; g_ValHi : Z }.
Record TableInstance : Type := mkTable { t_Type : Z; References : list Z }.

(** What a snapshot uses of [wasm.ModuleEngine]. *)
Record ModuleEngine : Type := mkEngine { OwnsGlobals : bool; FunctionInstanceReference : Z -> Z }.

(** The counts of [mi.Source]: imported functions and the function section. *)
Record Source : Type := mkSource { ImportFunctionCount : Z; FunctionSection : Z }.

Record ModuleInstance : Type := mkModule {
  mi_Memory : option WasmMemory.MemoryInstance; mi_Engine : option ModuleEngine;
  mi_Source : option Source; mi_Globals : list GlobalInstance; mi_Tables : list TableInstance }.

(** [mod.( *wasm.ModuleInstance)]: [None] is any other implementation. *)
Definition moduleInstance (mod_ : option ModuleInstance) : result snap_err ModuleInstance :=
  match mod_ with Some mi => Ok mi | None => Err NotModuleInstance end.

(** ** Capture *)
Definition total_functions (mi : ModuleInstance) : Z :=
  match mi_Source mi with Some s => u32 (ImportFunctionCount s + u32 (FunctionSection s)) | None => 0 end.

(** The map [byRef]: a later index replaces an earlier one. *)
Definition by_ref (mi : ModuleInstance) : gmap Z Z :=
  match mi_Source mi, mi_Engine mi with
  | Some _, Some e =>
      foldl (fun m fi => <[FunctionInstanceReference e fi := i32 fi]> m) ∅ (seqZ 0 (total_functions mi))
  | _, _ => ∅
  end.

Fixpoint capture_refs (byRef : gmap Z Z) (idx i : nat) (refs : list Z) : result snap_err (list Z) :=
  match refs with
  | [] => Ok []
  | r :: refs =>
      let! fi := if r =? 0 then Ok NullElement
                 else match byRef !! r with Some fi => Ok fi | None => Err (ForeignReference idx i) end in
      let! rest := capture_refs byRef idx (S i) refs in
      Ok (fi :: rest)
  end.

Definition captureTable (mi : ModuleInstance) (idx : nat) (tbl : TableInstance) : result snap_err TableValue :=
  if t_Type tbl =? RefTypeExternref then
    reject existsb (fun r => negb (r =? 0)) (References tbl) as ExternrefNotNull idx ;;
    Ok (mkTableValue (t_Type tbl) (replicate (length (References tbl)) NullElement))
  else
    let! els := capture_refs (by_ref mi) idx 0 (References tbl) in
    Ok (mkTableValue (t_Type tbl) els).

Fixpoint capture_tables (mi : ModuleInstance) (idx : nat) (ts : list TableInstance) : result snap_err (list TableValue) :=
  match ts with
  | [] => Ok []
  | t :: ts =>
      let! tv := captureTable mi idx t in
      let! rest := capture_tables mi (S idx) ts in
      Ok (tv :: rest)
  end.

Definition captured_global (g : GlobalInstance) : GlobalValue :=
  mkGlobalValue (g_ValType g) (g_Mutable g) (g_Val g) (g_ValHi g).

Definition engine_owns_globals (mi : ModuleInstance) : bool :=
  match mi_Engine mi with Some e => OwnsGlobals e | None => false end.

(** [append([]byte(nil), buf...)] of an empty buffer is nil. *)
Definition Capture (mod_ : option ModuleInstance) (point : Z) : result snap_err Snapshot :=
  let! mi := moduleInstance mod_ in
  let! (bytes, memory) :=
    match mi_Memory mi with
    | None => Ok (0, None)
    | Some mem =>
        let buf := WasmMemory.Buffer mem in
        reject negb (len buf mod PageSize =? 0) as MemoryUnaligned (len buf) ;;
        Ok (len buf, if bool_decide (buf = []) then None else Some buf)
    end in
  reject engine_owns_globals mi as EngineOwnsGlobals ;;
  let! tables := capture_tables mi 0 (mi_Tables mi) in
  Ok (mkSnapshot point bytes memory (captured_global <$> mi_Globals mi) tables).

(** ** Restore

    An error leaves the module as far as it was written. *)
Definition with_memory (mi : ModuleInstance) (m : WasmMemory.MemoryInstance) : ModuleInstance :=
  mkModule (Some m) (mi_Engine mi) (mi_Source mi) (mi_Globals mi) (mi_Tables mi).
Definition with_globals (mi : ModuleInstance) (gs : list GlobalInstance) : ModuleInstance :=
  mkModule (mi_Memory mi) (mi_Engine mi) (mi_Source mi) gs (mi_Tables mi).
Definition with_tables (mi : ModuleInstance) (ts : list TableInstance) : ModuleInstance :=
  mkModule (mi_Memory mi) (mi_Engine mi) (mi_Source mi) (mi_Globals mi) ts.

(** [copy(dst, src)]. *)
Definition copy (dst src : list Z) : list Z := take (length dst) src ++ drop (length src) dst.

Definition set_buffer (m : WasmMemory.MemoryInstance) (b : list Z) : WasmMemory.MemoryInstance :=
  WasmMemory.with_buffer m b (WasmMemory.spare m) (WasmMemory.Cap m).

Definition restore_memory (s : Snapshot) (mi : ModuleInstance) : result (snap_err * ModuleInstance) ModuleInstance :=
  match Memory s, mi_Memory mi with
  | Some image, None => Err (NoMemory, mi)
  | Some image, Some mem =>
      let have := len (WasmMemory.Buffer mem) in
      reject SnapMemoryBytes s <? have as (MemoryShrinks have (SnapMemoryBytes s), mi) ;;
      let! mem :=
        if have <? SnapMemoryBytes s then
          match WasmMemory.Grow mem (u32 ((SnapMemoryBytes s - have) / PageSize)) with
          | Err _ => Err (Panic, mi)
          | Ok (None, mem) => Err (CannotGrow have (SnapMemoryBytes s), with_memory mi mem)
          | Ok (Some _, mem) => Ok mem
          end
        else Ok mem in
      Ok (with_memory mi (set_buffer mem (copy (WasmMemory.Buffer mem) image)))
  | None, Some mem =>
      reject negb (len (WasmMemory.Buffer mem) =? 0) as (UnexpectedMemory, mi) ;; Ok mi
  | None, None => Ok mi
  end.

(** The loop over the globals; [done_] are the instances already written. *)
Fixpoint restore_globals (mi : ModuleInstance) (done_ : list GlobalInstance) (gs : list GlobalValue)
    (insts : list GlobalInstance) : result (snap_err * ModuleInstance) ModuleInstance :=
  match gs, insts with
  | g :: gs, inst :: insts =>
      if negb (g_ValType inst =? ValueType g)
      then Err (GlobalTypeMismatch (length done_), with_globals mi (done_ ++ inst :: insts))
      else restore_globals mi (done_ ++ [mkGlobal (g_ValType inst) (g_Mutable inst) (GLo g) (GHi g)]) gs insts
  | _, _ => Ok (with_globals mi (done_ ++ insts))
  end.

(** A nil engine is dereferenced only for a function reference. *)
Fixpoint restore_refs (e : option ModuleEngine) (els : list Z) : option (list Z) :=
  match els with
  | [] => Some []
  | fi :: els =>
      r ← (if fi =? NullElement then Some 0 else (fun e => FunctionInstanceReference e (u32 fi)) <$> e);
      rest ← restore_refs e els;
      Some (r :: rest)
  end.

Fixpoint restore_tables (mi : ModuleInstance) (done_ : list TableInstance) (tvs : list TableValue)
    (tbls : list TableInstance) : result (snap_err * ModuleInstance) ModuleInstance :=
  match tvs, tbls with
  | tv :: tvs, tbl :: tbls =>
      if negb (len (Elements tv) =? len (References tbl))
      then Err (TableLengthMismatch (length done_), with_tables mi (done_ ++ tbl :: tbls))
      else
        match restore_refs (mi_Engine mi) (Elements tv) with
        | None => Err (Panic, with_tables mi (done_ ++ tbl :: tbls))
        | Some refs => restore_tables mi (done_ ++ [mkTable (t_Type tbl) refs]) tvs tbls
        end
  | _, _ => Ok (with_tables mi (done_ ++ tbls))
  end.

Definition Restore (s : Snapshot) (mod_ : option ModuleInstance) : result (snap_err * option ModuleInstance) ModuleInstance :=
  match moduleInstance mod_ with
  | Err e => Err (e, mod_)
  | Ok mi =>
      let keep (r : result (snap_err * ModuleInstance) ModuleInstance) :=
        match r with Ok mi => Ok mi | Err (e, mi) => Err (e, Some mi) end in
      let! mi := keep (restore_memory s mi) in
      reject engine_owns_globals mi as (EngineOwnsGlobals, Some mi) ;;
      reject negb (len (Globals s) =? len (mi_Globals mi))
        as (GlobalCountMismatch (len (Globals s)) (len (mi_Globals mi)), Some mi) ;;
      let! mi := keep (restore_globals mi [] (Globals s) (mi_Globals mi)) in
      reject negb (len (Tables s) =? len (mi_Tables mi))
        as (TableCountMismatch (len (Tables s)) (len (mi_Tables mi)), Some mi) ;;
      keep (restore_tables mi [] (Tables s) (mi_Tables mi))
  end.
(** ** References *)
Lemma by_ref_sound mi r v : by_ref mi !! r = Some v ->
  exists e fi, mi_Engine mi = Some e /\ 0 <= fi < total_functions mi /\
    FunctionInstanceReference e fi = r /\ v = i32 fi.
Proof.
  unfold by_ref. destruct (mi_Source mi) as [src|] eqn:Es; [|by rewrite lookup_empty].
  destruct (mi_Engine mi) as [e|]; [|by rewrite lookup_empty].
  assert (forall l (m : gmap Z Z), foldl (fun m fi => <[FunctionInstanceReference e fi := i32 fi]> m) m l !! r = Some v ->
    m !! r = Some v \/ exists fi, fi ∈ l /\ FunctionInstanceReference e fi = r /\ v = i32 fi) as L.
  { induction l as [|fi l IH]; intros m H; cbn [foldl] in H; [by left|].
    destruct (IH _ H) as [Hm|(x & Hx & ? & ?)]; [|right; exists x; split; [by right|done]].
    destruct (decide (FunctionInstanceReference e fi = r)) as [E|Hne].
    - rewrite E, lookup_insert_eq in Hm. injection Hm as <-. right. exists fi. split; [by left|done].
    - rewrite lookup_insert_ne in Hm by done. by left. }
  intros H. destruct (L _ _ H) as [Hm|(fi & Hin & ? & ?)]; [by rewrite lookup_empty in Hm|].
  apply elem_of_seqZ in Hin. exists e, fi. split_and!; try done; lia.
Qed.

Lemma total_functions_bound mi : total_functions mi < 2 ^ 32.
Proof. unfold total_functions. destruct (mi_Source mi); [|done]. apply wrapu_range. lia. Qed.

Lemma u32_i32 x : in_u 32 x -> u32 (i32 x) = x.
Proof.
  intros Hx. unfold u32, i32, wrapu, wraps. rewrite Zminus_mod_idemp_l, Z.add_simpl_r. by apply Z.mod_small.
Qed.

Lemma index_not_null mi fi : 0 <= fi < total_functions mi -> i32 fi <> NullElement /\ u32 (i32 fi) = fi.
Proof.
  intros Hf. pose proof (total_functions_bound mi). assert (u32 (i32 fi) = fi) as E by (apply u32_i32; unfold in_u; lia).
  split; [|done]. intros Hn. rewrite Hn in E. change (u32 NullElement) with (2 ^ 32 - 1) in E. lia.
Qed.

(** Two references to one function, each through its own module engine (two
    instances of a module have their functions at different addresses), or two
    nulls. *)
Definition same_reference (m f : ModuleInstance) (r r' : Z) : Prop :=
  (r = 0 /\ r' = 0) \/
  exists e e' fi, mi_Engine m = Some e /\ mi_Engine f = Some e' /\ 0 <= fi < total_functions m /\
    FunctionInstanceReference e fi = r /\ FunctionInstanceReference e' fi = r'.

(** An engine for the fresh instance, owning the globals or not as the first. *)
Definition engine_alike (m f : ModuleInstance) : Prop := OwnsGlobals <$> mi_Engine m = OwnsGlobals <$> mi_Engine f.

Lemma restore_capture_refs mi f idx refs : engine_alike mi f -> forall i els,
  capture_refs (by_ref mi) idx i refs = Ok els ->
  exists refs', restore_refs (mi_Engine f) els = Some refs' /\ length els = length refs /\
    Forall2 (same_reference mi f) refs refs' /\ (mi_Engine f = mi_Engine mi -> refs' = refs).
Proof.
  intros He. induction refs as [|r refs IH]; intros i els H; cbn [capture_refs] in H.
  { injection H as <-. exists []. by split_and!. }
  destruct (if r =? 0 then Ok NullElement else _) as [fi|] eqn:Ef; [|done].
  destruct (capture_refs (by_ref mi) idx (S i) refs) as [rest|] eqn:Er; [|done]. injection H as <-.
  destruct (IH _ _ Er) as (refs' & Hr & Hl & Hs & Heq). cbn [restore_refs length]. rewrite Hr, Hl.
  destruct (Z.eqb_spec r 0) as [->|Hne].
  { injection Ef as <-. exists (0 :: refs'). split_and!; [done|done| |intros E; by rewrite (Heq E)].
    constructor; [by left|done]. }
  destruct (by_ref mi !! r) as [v|] eqn:Ev; [|done]. injection Ef as <-.
  destruct (by_ref_sound _ _ _ Ev) as (e & fi & Hm & Hfi & Href & ->).
  destruct (index_not_null mi fi Hfi) as [Hn Hu]. destruct (Z.eqb_spec (i32 fi) NullElement); [done|].
  unfold engine_alike in He. rewrite Hm in He. destruct (mi_Engine f) as [e'|] eqn:Hf; [|done].
  exists (FunctionInstanceReference e' fi :: refs'). cbn. rewrite Hu. split_and!; [done|done| |].
  - constructor; [|done]. right. by exists e, e', fi.
  - intros E. rewrite (Heq E). rewrite Hm in E. injection E as ->. by rewrite Href.
Qed.

Lemma restore_refs_null e n : restore_refs e (replicate n NullElement) = Some (replicate n 0).
Proof. induction n as [|n IH]; [done|]. cbn [replicate restore_refs Z.eqb NullElement]. by rewrite IH. Qed.

Lemma existsb_all_zero refs : existsb (fun r => negb (r =? 0)) refs = false -> refs = replicate (length refs) 0.
Proof.
  induction refs as [|r refs IH]; [done|]. cbn [existsb length replicate]. intros [Hr Hs]%orb_false_iff.
  apply negb_false_iff, Z.eqb_eq in Hr as ->. f_equal. by apply IH.
Qed.

Lemma restore_captureTable mi f idx tbl tv : engine_alike mi f -> captureTable mi idx tbl = Ok tv ->
  exists refs', restore_refs (mi_Engine f) (Elements tv) = Some refs' /\
    length (Elements tv) = length (References tbl) /\
    Forall2 (same_reference mi f) (References tbl) refs' /\ (mi_Engine f = mi_Engine mi -> refs' = References tbl).
Proof.
  intros He. unfold captureTable. destruct (t_Type tbl =? RefTypeExternref).
  - destruct (existsb _ _) eqn:E; [done|]. intros [= <-]. cbn [Elements].
    rewrite restore_refs_null, length_replicate. eexists. split; [reflexivity|].
    apply existsb_all_zero in E as E0. split_and!; [done| |by rewrite <-E0].
    rewrite E0, length_replicate. apply Forall2_replicate. by left.
  - destruct (capture_refs _ _ _ _) as [els|] eqn:E; [|done]. intros [= <-]. by eapply restore_capture_refs.
Qed.

(** ** Shapes *)
Definition same_global (a b : GlobalInstance) : Prop := g_ValType a = g_ValType b /\ g_Mutable a = g_Mutable b.
Definition same_table (a b : TableInstance) : Prop :=
  t_Type a = t_Type b /\ length (References a) = length (References b).

(** The same table as two instances of the module see it. *)
Definition same_elements (m f : ModuleInstance) (a b : TableInstance) : Prop :=
  t_Type a = t_Type b /\ Forall2 (same_reference m f) (References a) (References b).

Lemma restore_captured_tables mi f tbls fs : engine_alike mi f -> forall idx tvs done_,
  capture_tables mi idx tbls = Ok tvs -> Forall2 same_table tbls fs ->
  exists ts, restore_tables f done_ tvs fs = Ok (with_tables f (done_ ++ ts)) /\ length tvs = length tbls /\
    Forall2 (same_elements mi f) tbls ts /\ (mi_Engine f = mi_Engine mi -> ts = tbls).
Proof.
  intros He idx tvs done_ H Hs. revert idx tvs done_ H. induction Hs as [|t ft tbls fs [Ht Hl] _ IH]; intros idx tvs done_ H.
  - cbn in H. injection H as <-. exists []. by split_and!.
  - cbn [capture_tables] in H. destruct (captureTable mi idx t) as [tv|] eqn:Et; [|done].
    destruct (capture_tables mi (S idx) tbls) as [rest|] eqn:Er; [|done]. injection H as <-.
    destruct (restore_captureTable _ _ _ _ _ He Et) as (refs & Href & Hlen & Hs & Heq). cbn [restore_tables length].
    assert (len (Elements tv) = len (References ft)) as -> by (unfold len; by rewrite Hlen, Hl).
    rewrite Z.eqb_refl, Href. cbn [negb].
    destruct (IH (S idx) rest (done_ ++ [mkTable (t_Type ft) refs]) Er) as (ts & -> & -> & Hts & Htq).
    exists (mkTable (t_Type ft) refs :: ts). rewrite <-app_assoc. split_and!; [done|done|by repeat constructor|].
    intros E. rewrite (Heq E), (Htq E), <-Ht. by destruct t.
Qed.

(** A table whose length is not the captured one is refused. *)
Lemma restore_grown_tables mi f tbls fs : engine_alike mi f -> forall idx tvs done_,
  capture_tables mi idx tbls = Ok tvs -> length tbls = length fs ->
  length ∘ References <$> tbls <> length ∘ References <$> fs ->
  exists i f', restore_tables f done_ tvs fs = Err (TableLengthMismatch i, f').
Proof.
  intros He idx tvs done_ H Hlen Hne. revert fs idx tvs done_ H Hlen Hne.
  induction tbls as [|t tbls IH]; intros [|ft fs] idx tvs done_ H Hlen Hne; try done.
  cbn [capture_tables] in H. destruct (captureTable mi idx t) as [tv|] eqn:Et; [|done].
  destruct (capture_tables mi (S idx) tbls) as [rest|] eqn:Er; [|done]. injection H as <-.
  destruct (restore_captureTable _ _ _ _ _ He Et) as (refs & Href & Hl & _). cbn [restore_tables].
  destruct (Z.eqb_spec (len (Elements tv)) (len (References ft))) as [E|]; [|by do 2 eexists]. cbn [negb]. rewrite Href.
  eapply IH; [exact Er|by injection Hlen|]. intros E'. apply Hne. rewrite !fmap_cons. cbn [compose]. f_equal; [|done].
  unfold len in E. cbn. lia.
Qed.

Lemma restore_captured_globals f gs fs : forall done_,
  Forall2 same_global gs fs ->
  restore_globals f done_ (captured_global <$> gs) fs = Ok (with_globals f (done_ ++ gs)).
Proof.
  intros done_ H. revert done_. induction H as [|g fg gs fs [Ht Hm] _ IH]; intros done_; [done|].
  rewrite fmap_cons. cbn [restore_globals captured_global ValueType GLo GHi]. rewrite <-Ht, Z.eqb_refl. cbn [negb].
  rewrite IH, <-app_assoc, <-Hm. by destruct g.
Qed.

(** ** Memory *)
Definition memory_resumes (m f : option WasmMemory.MemoryInstance) : Prop :=
  match m, f with
  | Some m, Some f => WasmMemory.mem_ok m /\ WasmMemory.mem_ok f /\ WasmMemory.Max f = WasmMemory.Max m /\
                      len (WasmMemory.Buffer f) <= len (WasmMemory.Buffer m)
  | None, None => True
  | _, _ => False
  end.

Lemma copy_all (dst src : list Z) : length src = length dst -> copy dst src = src.
Proof.
  intros H. unfold copy. rewrite <-H, take_ge, drop_ge by lia. apply app_nil_r.
Qed.

Lemma restore_captured_memory m f s :
  memory_resumes (mi_Memory m) (mi_Memory f) ->
  match mi_Memory m with
  | Some mem => SnapMemoryBytes s = len (WasmMemory.Buffer mem) /\
      Memory s = if bool_decide (WasmMemory.Buffer mem = []) then None else Some (WasmMemory.Buffer mem)
  | None => Memory s = None
  end ->
  exists mem', restore_memory s f = Ok (mkModule mem' (mi_Engine f) (mi_Source f) (mi_Globals f) (mi_Tables f)) /\
    WasmMemory.Buffer <$> mem' = WasmMemory.Buffer <$> mi_Memory m.
Proof.
  unfold memory_resumes. intros Hr Hs. unfold restore_memory.
  destruct (mi_Memory m) as [mm|], (mi_Memory f) as [fm|] eqn:Ef; try done; [|rewrite Hs; exists None; rewrite <-Ef; by destruct f].
  destruct Hr as (Hm & Hf & Hmax & Hle), Hs as [-> ->].
  pose proof (len_nonneg (WasmMemory.Buffer fm)) as Hnn.
  case_bool_decide as Hnil.
  { rewrite Hnil in *. change (len (@nil Z)) with 0 in Hle. destruct (Z.eqb_spec (len (WasmMemory.Buffer fm)) 0); [|lia].
    exists (Some fm). split; [rewrite <-Ef; by destruct f|]. cbn. rewrite Hnil. f_equal. apply nil_length_inv. unfold len in *. lia. }
  destruct (Z.ltb_spec (len (WasmMemory.Buffer mm)) (len (WasmMemory.Buffer fm))); [lia|].
  destruct (Z.ltb_spec (len (WasmMemory.Buffer fm)) (len (WasmMemory.Buffer mm))) as [Hlt|Hge].
  - destruct (WasmMemory.Pages_ok mm Hm) as [Hpm Hlm], (WasmMemory.Pages_ok fm Hf) as [Hpf Hlf].
    destruct (WasmMemory.mo_limit _ Hm) as [_ Hlim]. unfold WasmMemory.MemoryPageSize, WasmMemory.MemoryLimitPages in *.
    assert ((len (WasmMemory.Buffer mm) - len (WasmMemory.Buffer fm)) / PageSize = WasmMemory.Pages mm - WasmMemory.Pages fm) as ->.
    { rewrite Hlm, Hlf, <-Z.mul_sub_distr_r. unfold PageSize. apply Z_div_mult. lia. }
    set (d := WasmMemory.Pages mm - WasmMemory.Pages fm). assert (0 <= d < 2 ^ 31) as Hd by (unfold d; lia).
    assert (u32 d = d) as -> by (apply wrapu_small; unfold in_u; lia).
    destruct (WasmMemory.Grow_cases fm d Hf) as [(_ & sp & c & -> & _)|(Hn & _)]; [lia| |].
    + cbn [WasmMemory.Buffer WasmMemory.with_buffer]. eexists. split; [reflexivity|]. cbn. f_equal. apply copy_all.
      rewrite length_app, length_zeros. unfold WasmMemory.MemoryPageSize, d. unfold len in *. lia.
    + exfalso. apply Hn. unfold WasmMemory.grown. unfold d in *. lia.
  - eexists. split; [reflexivity|]. cbn. f_equal. apply copy_all. unfold len in *. lia.
Qed.

Lemma engine_alike_owns m f : engine_alike m f -> engine_owns_globals f = engine_owns_globals m.
Proof. unfold engine_alike, engine_owns_globals. destruct (mi_Engine m), (mi_Engine f); cbn; congruence. Qed.

(** What restoring a capture comes to: memory and globals are written, and the
    tables decide. *)
Lemma restore_parts m f point s :
  Capture (Some m) point = Ok s -> engine_alike m f -> memory_resumes (mi_Memory m) (mi_Memory f) ->
  Forall2 same_global (mi_Globals m) (mi_Globals f) -> length (mi_Tables m) = length (mi_Tables f) ->
  exists mem' tvs f0, WasmMemory.Buffer <$> mem' = WasmMemory.Buffer <$> mi_Memory m /\
    capture_tables m 0 (mi_Tables m) = Ok tvs /\
    f0 = mkModule mem' (mi_Engine f) (mi_Source f) (mi_Globals m) (mi_Tables f) /\
    (length tvs = length (mi_Tables m) -> Restore s (Some f) =
      match restore_tables f0 [] tvs (mi_Tables f) with Ok mi => Ok mi | Err (e, mi) => Err (e, Some mi) end).
Proof.
  intros Hc He Hm Hg Ht. unfold Capture in Hc. cbn [moduleInstance] in Hc.
  destruct (match mi_Memory m with None => _ | Some _ => _ end) as [[bytes memory]|] eqn:Em; [|done].
  destruct (engine_owns_globals m) eqn:Eo; [done|].
  destruct (capture_tables m 0 (mi_Tables m)) as [tables|] eqn:Et; [|done]. injection Hc as <-.
  set (s := mkSnapshot _ _ _ _ _).
  destruct (restore_captured_memory m f s Hm) as (mem' & Er & Hbuf).
  { destruct (mi_Memory m) as [mm|]; [|by injection Em as <- <-].
    destruct (negb _); [done|]. by injection Em as <- <-. }
  exists mem', tables. eexists. split_and!; [done|done|reflexivity|]. intros Hlen.
  unfold Restore. cbn [moduleInstance]. rewrite Er. rewrite <-(engine_alike_owns _ _ He) in Eo.
  unfold engine_owns_globals in *. cbn [mi_Engine mi_Globals mi_Tables]. rewrite Eo. cbn [Globals s Tables].
  assert (len (captured_global <$> mi_Globals m) = len (mi_Globals f)) as ->.
  { unfold len. rewrite length_fmap. by rewrite (Forall2_length _ _ _ Hg). }
  rewrite Z.eqb_refl, (restore_captured_globals _ _ _ _ Hg). cbn [negb app with_globals mi_Tables].
  assert (len tables = len (mi_Tables f)) as -> by (unfold len; by rewrite Hlen, Ht).
  by rewrite Z.eqb_refl.
Qed.

Lemma capture_tables_length mi tbls : forall idx tvs, capture_tables mi idx tbls = Ok tvs -> length tvs = length tbls.
Proof.
  induction tbls as [|t tbls IH]; intros idx tvs H; cbn [capture_tables] in H; [by injection H as <-|].
  destruct (captureTable mi idx t); [|done]. destruct (capture_tables mi (S idx) tbls) eqn:E; [|done].
  injection H as <-. cbn. by rewrite (IH _ _ E).
Qed.

(** C21: restoring a captured snapshot into a fresh instance of the same module.
    The fresh instance has its own module engine, with its own addresses of the
    module's functions; its memory is not larger than the captured one and has
    the same maximum, its globals have the same types, its tables are as many
    and of the same types.  When every table has the length it was captured
    with, [Restore] succeeds and gives back the captured state: the memory byte
    for byte, also when it had grown since instantiation, every global, and in
    every table slot null for null and otherwise the fresh engine's reference to
    a function whose reference the running module held there (the very same
    reference when the engines are one), although the snapshot carries only
    function indices.  When a table has another length, for one that has grown
    since instantiation, [Restore] does not grow it but fails. *)
Theorem restore_captured m f point s :
  Capture (Some m) point = Ok s ->
  engine_alike m f -> memory_resumes (mi_Memory m) (mi_Memory f) ->
  Forall2 same_global (mi_Globals m) (mi_Globals f) -> t_Type <$> mi_Tables m = t_Type <$> mi_Tables f ->
  if decide (length ∘ References <$> mi_Tables m = length ∘ References <$> mi_Tables f) then
    exists f', Restore s (Some f) = Ok f' /\
      WasmMemory.Buffer <$> mi_Memory f' = WasmMemory.Buffer <$> mi_Memory m /\
      mi_Globals f' = mi_Globals m /\ mi_Engine f' = mi_Engine f /\
      Forall2 (same_elements m f) (mi_Tables m) (mi_Tables f') /\
      (mi_Engine f = mi_Engine m -> mi_Tables f' = mi_Tables m)
  else exists i f', Restore s (Some f) = Err (TableLengthMismatch i, f').
Proof.
  intros Hc He Hm Hg Ht. assert (length (mi_Tables m) = length (mi_Tables f)) as Hn
    by (rewrite <-(length_fmap t_Type (mi_Tables m)), Ht; apply length_fmap).
  destruct (restore_parts m f point s Hc He Hm Hg Hn) as (mem' & tvs & f0 & Hbuf & Et & Hf0 & Hr).
  specialize (Hr (capture_tables_length _ _ _ _ Et)). assert (engine_alike m f0) as He0 by (by subst f0).
  case_decide as Hl.
  - assert (Forall2 same_table (mi_Tables m) (mi_Tables f)) as Hs.
    { clear -Ht Hl. revert Ht Hl. generalize (mi_Tables f). induction (mi_Tables m) as [|a l IH]; intros [|b l'] Ht Hl; try done.
      cbn in Ht, Hl. injection Ht as ? ?. injection Hl as ? ?. constructor; [done|by apply IH]. }
    destruct (restore_captured_tables m f0 _ _ He0 0 tvs [] Et Hs) as (ts & E & _ & Hts & Heq).
    rewrite E in Hr. eexists. split; [exact Hr|]. subst f0. by split_and!.
  - destruct (restore_grown_tables m f0 _ _ He0 0 tvs [] Et Hn Hl) as (i & f' & E). rewrite E in Hr. by exists i, (Some f').
Qed.

(** A module with one global and a table of two functions and a null. *)
Definition sample_engine : ModuleEngine := mkEngine false (fun fi => 1000 + fi).
Definition running : ModuleInstance :=
  mkModule None (Some sample_engine) (Some (mkSource 1 2)) [mkGlobal 127 true 41 0] [mkTable RefTypeFuncref [1002; 0; 1000]].
Definition fresh_engine : ModuleEngine := mkEngine false (fun fi => 7000 + 8 * fi).
Definition fresh : ModuleInstance :=
  mkModule None (Some fresh_engine) (Some (mkSource 1 2)) [mkGlobal 127 true 0 0] [mkTable RefTypeFuncref [0; 0; 0]].

Lemma restore_captured_witness :
  exists s f', Capture (Some running) 3 = Ok s /\ Elements <$> Tables s = [[2; -1; 0]] /\
    Restore s (Some fresh) = Ok f' /\ mi_Globals f' = mi_Globals running /\
    Forall2 (same_elements running fresh) (mi_Tables running) (mi_Tables f') /\ References <$> mi_Tables f' = [[7016; 0; 7000]].
Proof.
  destruct (Capture (Some running) 3) as [s|] eqn:E; [|vm_compute in E; discriminate].
  pose proof (restore_captured running fresh 3 s E) as H. rewrite decide_True in H by reflexivity.
  destruct H as (f' & Hr & _ & Hg & _ & Ht & _); [reflexivity|exact I|repeat constructor|reflexivity|].
  exists s, f'. split; [done|]. vm_compute in E. injection E as <-. split; [reflexivity|]. split; [done|]. split; [done|].
  split; [done|]. vm_compute in Hr. injection Hr as <-. reflexivity.
Defined.

End Snapshot.
