(* ===== verification/Slice.v ===== *)
(** * Slices ([src/internal/wasmsnapshot/slice.go])

    [SliceWriter] cuts a recording into containers at quiescent points while the
    replay is still running.  The file system, the trace recorder and the
    caller's hand-off are the environment [slice_env]; the state of the
    host-wide page cache, which outlives a slice, is carried in [w_system].
    [slices_tile] shows what the manifest promises: whatever the policy, the
    sealed slices partition the points the replay passed through. *)
From S2P Require Import Prelude GoStd Json Xxh3 SnapTypes Streams PageCas PageStore Container WasmMemory Snapshot.
Import GoStd SnapTypes PageCas Container.

Module Slice.

Record SlicePolicy : Type := mkPolicy { EveryPoints : Z; TargetBytes : Z }.

Definition sealsAfter (p : SlicePolicy) (span payload : Z) : bool :=
  if (0 <? EveryPoints p) && (EveryPoints p <=? span) then true
  else if (0 <? TargetBytes p) && (TargetBytes p <=? payload) then true
  else false.

Definition validate_policy (p : SlicePolicy) : result snap_err unit :=
  reject EveryPoints p <? 0 as NegativeOption ;;
  reject TargetBytes p <? 0 as NegativeOption ;;
  Ok tt.

Record SliceInfo : Type := mkSliceInfo {
  si_Index : Z; si_File : gostring; si_BasePoint : Z; si_EndPoint : Z;
  si_ExportCalls : Z; si_Snapshots : Z; si_Points : Z; si_Bytes : Z }.

Record SliceManifest : Type := mkManifest {
  sm_Version : Z; sm_Program : gostring; sm_TotalPoints : Z; sm_Slices : list SliceInfo }.

Definition SliceManifestVersion : Z := 1.

Record SliceOptions : Type := mkSliceOptions {
  o_Dir : gostring; o_Program : gostring; o_Policy : SlicePolicy; o_SnapshotEvery : Z;
  o_UseSystemCache : bool; o_Encode : EncodeOptions; o_NewRecorder : bool }.

(** The environment: whether the directory can be made, the size of a slice's
    container once its trace is produced and its streams are attached, the
    hand-off, and whether the manifest can be written. *)
Record slice_env : Type := mkSliceEnv {
  env_mkdir : bool;
  env_container : Z -> (stream -> list Z) -> option Z;
  env_onSealed : option (SliceInfo -> bool);
  env_writeManifest : SliceManifest -> bool }.

Definition validate_options (o : SliceOptions) : result snap_err unit :=
  reject bool_decide (o_Dir o = []) as NoDirectory ;;
  reject negb (o_NewRecorder o) as NoRecorder ;;
  reject o_SnapshotEvery o <? 0 as NegativeOption ;;
  validate_policy (o_Policy o).

Record openSlice : Type := mkOpen {
  os_index : Z; os_basePoint : Z; os_points : Z; os_builder : Builder; os_recorder : bool }.

Record SliceWriter : Type := mkWriter {
  w_opts : SliceOptions; w_open : option openSlice; w_sealed : list SliceInfo; w_lastPoint : Z;
  w_mod : option Snapshot.ModuleInstance; w_finished : bool; w_system : option SystemCache }.

Definition set_open (w : SliceWriter) (o : option openSlice) : SliceWriter :=
  mkWriter (w_opts w) o (w_sealed w) (w_lastPoint w) (w_mod w) (w_finished w) (w_system w).
Definition set_lastPoint (w : SliceWriter) (p : Z) : SliceWriter :=
  mkWriter (w_opts w) (w_open w) (w_sealed w) p (w_mod w) (w_finished w) (w_system w).
Definition set_mod (w : SliceWriter) (m : option Snapshot.ModuleInstance) : SliceWriter :=
  mkWriter (w_opts w) (w_open w) (w_sealed w) (w_lastPoint w) m (w_finished w) (w_system w).
Definition add_sealed (w : SliceWriter) (i : SliceInfo) : SliceWriter :=
  mkWriter (w_opts w) (w_open w) (w_sealed w ++ [i]) (w_lastPoint w) (w_mod w) (w_finished w) (w_system w).
Definition set_finished (w : SliceWriter) : SliceWriter :=
  mkWriter (w_opts w) (w_open w) (w_sealed w) (w_lastPoint w) (w_mod w) true (w_system w).

(** The open slice's builder was changed; the page files it promoted stay. *)
Definition set_builder (w : SliceWriter) (o : openSlice) (b : Builder) (points : Z) : SliceWriter :=
  mkWriter (w_opts w) (Some (mkOpen (os_index o) (os_basePoint o) points b (os_recorder o)))
    (w_sealed w) (w_lastPoint w) (w_mod w) (w_finished w)
    (match System (b_tiers b) with Some sc => Some sc | None => w_system w end).

Definition NewSliceWriter (env : slice_env) (opts : SliceOptions) (system : option SystemCache)
    : result snap_err SliceWriter :=
  let! _ := validate_options opts in
  reject negb (env_mkdir env) as DiskError ;;
  Ok (mkWriter opts None [] 0 None false system).

(** ** Naming *)

(** [filepath.Base] on a Unix path. *)
Fixpoint drop_slashes (s : gostring) : gostring :=
  match s with
  | c :: s' => if c =? 47 then drop_slashes s' else s
  | [] => []
  end.
Definition filepath_Base (path : gostring) : gostring :=
  if bool_decide (path = []) then $"."
  else
    let p := rev (drop_slashes (rev path)) in
    let i := LastIndexByte p 47 in
    let p := if 0 <=? i then drop (Z.to_nat (i + 1)) p else p in
    if bool_decide (p = []) then $"/" else p.

(** [filepath.Ext]: from the last dot of the final element. *)
Definition filepath_Ext (path : gostring) : gostring :=
  let i := LastIndexByte path 46 in
  let j := LastIndexByte path 47 in
  if (0 <=? i) && (j <? i) then drop (Z.to_nat i) path else [].

Definition TrimSuffix (s suffix : gostring) : gostring :=
  if HasSuffix s suffix then take (length s - length suffix) s else s.

(** [%04d] of an index. *)
Definition format04 (n : Z) : gostring :=
  let s := FormatUint n in replicate (4 - length s) 48 ++ s.

Definition SliceProgramName (program : gostring) (index : Z) : gostring :=
  let base := filepath_Base program in
  let ext := filepath_Ext base in
  TrimSuffix base ext ++ $"-" ++ format04 index ++ ext.

Definition sliceContainerName (program : gostring) (index : Z) : gostring :=
  let name := SliceProgramName program index in
  TrimSuffix name (filepath_Ext name) ++ $".ct".

(** ** The operations *)
Definition snapshotDue (w : SliceWriter) (o : openSlice) (point : Z) : bool :=
  let every := o_SnapshotEvery (w_opts w) in
  if every <=? 1 then true else Z.rem (point - os_basePoint o) every =? 0.

(** [attachRecorder]: refuses a module that is not the runtime's own. *)
Definition attachRecorder (mod_ : option Snapshot.ModuleInstance) : result snap_err unit :=
  let! _ := Snapshot.moduleInstance mod_ in Ok tt.

Definition slice_result : Type := result (snap_err * SliceWriter) SliceWriter.

Definition addPoint (w : SliceWriter) (point : Z) (mod_ : option Snapshot.ModuleInstance) (snapshot : bool) : slice_result :=
  match w_open w with
  | None => Err (Panic, w)
  | Some o =>
      match AddPoint (os_builder o) (mkQuiescentPoint point point (-1) []) with
      | Err e => Err (e, w)
      | Ok b =>
          let w := set_builder w o b (os_points o + 1) in
          if negb snapshot then Ok w
          else
            match Snapshot.Capture mod_ point with
            | Err e => Err (e, w)
            | Ok s =>
                match Add b s with
                | Err (e, b) => Err (e, set_builder w o b (os_points o + 1))
                | Ok b => Ok (set_builder w o b (os_points o + 1))
                end
            end
      end
  end.

Definition with_recorder (o : openSlice) : openSlice :=
  mkOpen (os_index o) (os_basePoint o) (os_points o) (os_builder o) true.

Definition openSliceAt (w : SliceWriter) (point : Z) (mod_ : option Snapshot.ModuleInstance) : slice_result :=
  match NewIncrementalBuilder (Some (NewTiers (w_system w) (o_UseSystemCache (w_opts w)))) (o_Encode (w_opts w)) with
  | Err e => Err (e, w)
  | Ok b =>
      let w := set_open w (Some (mkOpen (len (w_sealed w)) point 0 b false)) in
      let! w := addPoint w point mod_ true in
      match w_open w with
      | None => Err (Panic, w)
      | Some o =>
          match MarkBase (os_builder o) point with
          | Err e => Err (e, w)
          | Ok b =>
              let w := set_builder w (with_recorder o) b (os_points o) in
              match attachRecorder mod_ with Err e => Err (e, w) | Ok _ => Ok w end
          end
      end
  end.

Definition seal (env : slice_env) (w : SliceWriter) (endPoint : Z) : slice_result :=
  match w_open w with
  | None => Err (NoOpenSlice, w)
  | Some s =>
      let w := set_open w None in
      match attachRecorder (w_mod w) with
      | Err e => Err (e, w)
      | Ok _ =>
          reject negb (os_recorder s) as (Panic, w) ;;
          match Streams (os_builder s) with
          | Err e => Err (e, w)
          | Ok raw =>
              match env_container env (os_index s) raw with
              | None => Err (SealFailed (os_index s), w)
              | Some bytes =>
                  let info := mkSliceInfo (os_index s) (sliceContainerName (o_Program (w_opts w)) (os_index s))
                                (os_basePoint s) endPoint (endPoint - os_basePoint s)
                                (SnapshotCount (os_builder s)) (PointCount (os_builder s)) bytes in
                  let w := add_sealed w info in
                  match env_onSealed env with
                  | Some f => reject negb (f info) as (HandOffFailed (os_index s), w) ;; Ok w
                  | None => Ok w
                  end
              end
          end
      end
  end.

Definition AtQuiescentPoint (env : slice_env) (w : SliceWriter) (point : Z) (mod_ : option Snapshot.ModuleInstance)
    : slice_result :=
  reject w_finished w as (AfterFinish point, w) ;;
  let w := set_mod w mod_ in
  match w_open w with
  | None =>
      let! w := openSliceAt w point mod_ in Ok (set_lastPoint w point)
  | Some o =>
      reject point <=? w_lastPoint w as (PointRewound point, w) ;;
      let w := set_lastPoint w point in
      let! w := addPoint w point mod_ (snapshotDue w o point) in
      match w_open w with
      | None => Err (Panic, w)
      | Some o =>
          match PayloadBytes (os_builder o) with
          | Err e => Err (e, w)
          | Ok payload =>
              if sealsAfter (o_Policy (w_opts w)) (point - os_basePoint o) payload
              then let! w := seal env w point in openSliceAt w point mod_
              else Ok w
          end
      end
  end.

(** [checkTiling] compares each slice with the one before it. *)
Fixpoint checkTiling_loop (prev : option SliceInfo) (slices : list SliceInfo) : result snap_err unit :=
  match slices with
  | [] => Ok tt
  | s :: slices =>
      reject match prev with Some p => negb (si_BasePoint s =? si_EndPoint p) | None => false end
        as NotTiling (si_Index s) ;;
      checkTiling_loop (Some s) slices
  end.
Definition checkTiling (slices : list SliceInfo) : result snap_err unit := checkTiling_loop None slices.

(** The manifest of the sealed slices, checked and written. *)
Definition write_manifest (env : slice_env) (w : SliceWriter)
    : result (snap_err * SliceWriter) (SliceManifest * SliceWriter) :=
  reject bool_decide (w_sealed w = []) as (NothingSealed, w) ;;
  let m := mkManifest SliceManifestVersion (o_Program (w_opts w)) (w_lastPoint w + 1) (w_sealed w) in
  match checkTiling (sm_Slices m) with
  | Err e => Err (e, w)
  | Ok _ => reject negb (env_writeManifest env m) as (ManifestWrite, w) ;; Ok (m, w)
  end.

(** A slice that covers no call is discarded, any other is sealed. *)
Definition close_last (env : slice_env) (w : SliceWriter) : slice_result :=
  match w_open w with
  | None => Ok w
  | Some o =>
      if os_basePoint o =? w_lastPoint w then
        match attachRecorder (w_mod w) with Err e => Err (e, w) | Ok _ => Ok (set_open w None) end
      else seal env w (w_lastPoint w)
  end.

Definition Finish (env : slice_env) (w : SliceWriter)
    : result (snap_err * SliceWriter) (SliceManifest * SliceWriter) :=
  reject w_finished w as (AlreadyFinished, w) ;;
  let! w := close_last env (set_finished w) in
  write_manifest env w.

Definition Slices (w : SliceWriter) : list SliceInfo := w_sealed w.

(** ** Reading a manifest back *)
Section load_manifest.
Import Json.

Definition zero_info : SliceInfo := mkSliceInfo 0 [] 0 0 0 0 0 0.
Definition Unmarshal_SliceInfo : SliceInfo -> json -> option SliceInfo :=
  dec_struct (fun r ms =>
    field! i := field (dec_int 64) ($"index") ms (si_Index r) in
    field! f := field dec_string ($"file") ms (si_File r) in
    field! b := field (dec_int 64) ($"base_point") ms (si_BasePoint r) in
    field! e := field (dec_int 64) ($"end_point") ms (si_EndPoint r) in
    field! c := field (dec_int 64) ($"export_calls") ms (si_ExportCalls r) in
    field! s := field (dec_int 64) ($"snapshots") ms (si_Snapshots r) in
    field! p := field (dec_int 64) ($"points") ms (si_Points r) in
    field! n := field (dec_int 64) ($"bytes") ms (si_Bytes r) in
    Some (mkSliceInfo i f b e c s p n)).

(** A slice of slices, which [null] leaves nil. *)
Definition Unmarshal_SliceManifest : SliceManifest -> json -> option SliceManifest :=
  dec_struct (fun r ms =>
    field! v := field (dec_int 64) ($"version") ms (sm_Version r) in
    field! g := field dec_string ($"program") ms (sm_Program r) in
    field! t := field (dec_int 64) ($"total_points") ms (sm_TotalPoints r) in
    field! l := field (dec_slice zero_info Unmarshal_SliceInfo) ($"slices") ms (Some (sm_Slices r)) in
    Some (mkManifest v g t (elems l))).

(** [file] is what [os.ReadFile] returns. *)
Definition LoadSliceManifest (file : option (list Z)) : result snap_err SliceManifest :=
  match file with
  | None => Err ManifestRead
  | Some raw =>
      match (match parse_json raw with
             | Some v => Unmarshal_SliceManifest (mkManifest 0 [] 0 []) v
             | None => None
             end) with
      | None => Err ManifestDecode
      | Some m =>
          reject negb (sm_Version m =? SliceManifestVersion) as ManifestVersion (sm_Version m) ;;
          Ok m
      end
  end.
End load_manifest.
(** ** What holds while slices are written *)

(** The slices follow one another from one point to another, none empty. *)
Fixpoint tiles (from : Z) (slices : list SliceInfo) (to : Z) : Prop :=
  match slices with
  | [] => from = to
  | s :: slices => si_BasePoint s = from /\ from < si_EndPoint s /\ tiles (si_EndPoint s) slices to
  end.

Lemma tiles_snoc from slices mid s : tiles from slices mid -> si_BasePoint s = mid -> mid < si_EndPoint s ->
  tiles from (slices ++ [s]) (si_EndPoint s).
Proof.
  revert from. induction slices as [|x slices IH]; intros from; cbn [tiles app].
  - intros -> -> H. done.
  - intros (H1 & H2 & H3) Hb He. split_and!; [done|done|]. by apply IH.
Qed.

Lemma tiles_le from slices to : tiles from slices to -> from <= to /\ (slices <> [] -> from < to).
Proof.
  revert from. induction slices as [|s slices IH]; intros from; cbn [tiles]; [intros ->; split; [lia|done]|].
  intros (_ & H & Ht). destruct (IH _ Ht). split; intros; lia.
Qed.

Lemma tiles_checked from slices to : tiles from slices to -> checkTiling slices = Ok tt.
Proof.
  unfold checkTiling. assert (forall prev from, (forall p, prev = Some p -> si_EndPoint p = from) ->
    tiles from slices to -> checkTiling_loop prev slices = Ok tt) as H.
  { induction slices as [|s slices IH]; intros prev f Hp; cbn [tiles checkTiling_loop]; [done|].
    intros (Hb & Hlt & Ht). destruct prev as [p|].
    - rewrite Hb, (Hp p eq_refl), Z.eqb_refl. cbn [negb]. apply (IH _ (si_EndPoint s)); [|done]. by intros ? [= <-].
    - apply (IH _ (si_EndPoint s)); [|done]. by intros ? [= <-]. }
  by apply H.
Qed.

(** The builder of the open slice: its points, and a base snapshot first. *)
Record base_first (b : Builder) (base last_ : Z) : Prop := {
  bf_tier : PerTrace (b_tiers b) <> None;
  bf_points : exists ps, qp_Ordinal <$> b_points b = base :: ps /\ last (base :: ps) = Some last_;
  bf_records : Ordinal <$> b_records b = u32 ∘ qp_Ordinal <$> b_points b;
  bf_index : forall o i, b_bySeq b !! o = Some i -> (i < length (b_points b))%nat;
  bf_base : exists r rs, b_records b = r :: rs /\ HasSnapshot r = true /\ IsBase r = true }.

Record open_ok (w : SliceWriter) (o : openSlice) : Prop := {
  oo_builder : base_first (os_builder o) (os_basePoint o) (w_lastPoint w);
  oo_recorder : os_recorder o = true;
  oo_index : os_index o = len (w_sealed w);
  oo_points : os_points o = len (b_points (os_builder o));
  oo_le : os_basePoint o <= w_lastPoint w }.

Record writer_ok (p0 : Z) (w : SliceWriter) : Prop := {
  wo_finished : w_finished w = false;
  wo_open : exists o, w_open w = Some o /\ open_ok w o /\ tiles p0 (w_sealed w) (os_basePoint o);
  wo_indices : si_Index <$> w_sealed w = seqZ 0 (len (w_sealed w)) }.

Lemma EncodeMemory_PerTrace memory t base opts regions inline t' :
  EncodeMemory memory (Some t) base opts = Ok (regions, inline, t') -> PerTrace t' <> None.
Proof.
  unfold EncodeMemory. intros H. destruct (negb _); [done|]. case_bool_decide as Hp; [done|].
  destruct (foldm _ _ _) as [st|[? ?]] eqn:E; [|done]. injection H as _ _ <-.
  revert E. apply (foldm_inv (fun st => PerTrace (e_tiers st) <> None)); [|done].
  intros s i s' Hs Es. unfold encode_page in Es. cbv zeta in Es.
  assert (forall t h p t', PerTrace t <> None -> promote opts t h p = Ok t' -> PerTrace t' <> None) as Hpr.
  { intros t0 h p t1 Ht. unfold promote. destruct (PromoteToSystem opts); [|congruence]. destruct (System t0); [|congruence].
    destruct (System_Lookup _ _); [congruence|]. destruct (System_Insert _ _ _) as [[] ?]; [|done]. by intros [= <-]. }
  destruct (Lookup (e_tiers s) _) as [[q tier]|].
  - destruct (promote _ _ _ _) as [t1|] eqn:Ep; [|done]. injection Es as <-. by eapply Hpr.
  - destruct (InlineMissedPages opts); [by injection Es as <-|].
    destruct (promote _ _ _ _) as [t1|] eqn:Ep; [|done]. injection Es as <-. cbn. eapply Hpr; [|exact Ep].
    unfold insert_per_trace. cbn. by destruct (PerTrace (e_tiers s)).
Qed.

Lemma HasSnapshot_lor f : HasSnapshot (mkIndexRecord 0 0 0 (Z.lor f flagHasSnapshot) 0 0 0 0 0 0 0) = true.
Proof.
  unfold HasSnapshot. cbn [Flags]. rewrite Z.land_lor_distr_l. change (Z.land flagHasSnapshot flagHasSnapshot) with 1.
  destruct (Z.eqb_spec (Z.lor (Z.land f flagHasSnapshot) 1) 0) as [E|]; [|done].
  apply Z.lor_eq_0_iff in E as [_ E]. done.
Qed.

Lemma AddPoint_first b base l p b' :
  base_first b base l -> AddPoint b p = Ok b' -> base_first b' base (qp_Ordinal p).
Proof.
  intros [Ht (ps & Hps & Hl) Hr Hi (r & rs & Hrs & H1 & H2)] H. unfold AddPoint in H.
  destruct (bool_decide _); [done|].
  match type of H with (if ?c then _ else _) = _ => destruct c; [done|] end. injection H as <-.
  split; cbn [b_tiers b_points b_records b_bySeq].
  - done.
  - exists (ps ++ [qp_Ordinal p]). rewrite fmap_app, Hps. split; [done|]. by rewrite app_comm_cons, last_snoc.
  - rewrite !fmap_app, Hr. done.
  - intros o i Ho. rewrite length_app. cbn [length]. destruct (decide (o = qp_Ordinal p)) as [->|Hne].
    + rewrite lookup_insert_eq in Ho. injection Ho as <-. lia.
    + rewrite lookup_insert_ne in Ho by done. specialize (Hi o i Ho). lia.
  - rewrite Hrs. by exists r, (rs ++ [new_record p]).
Qed.

Lemma Add_cases b s b' : Add b s = Ok b' ->
  exists i r lay glob tab, b_bySeq b !! Point s = Some i /\ b_records b !! i = Some r /\ HasSnapshot r = false /\
    PerTrace (b_tiers b') <> None /\ b_points b' = b_points b /\ b_bySeq b' = b_bySeq b /\
    b_records b' = <[i := snapshot_record b r s lay glob tab]> (b_records b).
Proof.
  unfold Add. destruct (b_bySeq b !! Point s) as [i|] eqn:Ei; [|done].
  destruct (b_records b !! i) as [r|] eqn:Er; [|done]. destruct (HasSnapshot r) eqn:Eh; [done|].
  destruct (EncodeMemory _ _ _ _) as [[[regions inline] t]|[e t]] eqn:Em; [|done]. intros [= <-].
  exists i, r. do 3 eexists. split_and!; try done. cbn. by eapply EncodeMemory_PerTrace.
Qed.

Lemma ordinals_same (rs : list IndexRecord) i r r' :
  rs !! i = Some r -> Ordinal r' = Ordinal r -> Ordinal <$> <[i := r']> rs = Ordinal <$> rs.
Proof.
  intros Hi Ho. rewrite list_fmap_insert, Ho. apply list_insert_id. by rewrite list_lookup_fmap, Hi.
Qed.

Lemma Add_first b base l s b' : base_first b base l -> Add b s = Ok b' -> base_first b' base l.
Proof.
  intros [Ht Hps Hr Hi (r0 & rs & Hrs & H1 & H2)] H.
  destruct (Add_cases b s b' H) as (i & r & lay & glob & tab & Ei & Er & Eh & Hpt & Hp & Hq & Hrec).
  split; rewrite ?Hp, ?Hq, ?Hrec; try done.
  - rewrite (ordinals_same _ _ _ _ Er) by done. done.
  - rewrite Hrs in *. destruct i as [|i]; [cbn in Er; congruence|]. by do 2 eexists.
Qed.

Lemma opened_first t opts point s b0 b1 b2 b3 :
  NewIncrementalBuilder (Some t) opts = Ok b0 ->
  AddPoint b0 (mkQuiescentPoint point point (-1) []) = Ok b1 ->
  Add b1 s = Ok b2 -> Point s = point -> MarkBase b2 point = Ok b3 ->
  base_first b3 point point /\ length (b_points b3) = 1%nat.
Proof.
  intros H0 H1 H2 Hpt H3. unfold NewIncrementalBuilder in H0. case_bool_decide as Ht; [done|]. injection H0 as <-.
  unfold AddPoint in H1. cbn in H1. rewrite lookup_empty, bool_decide_false in H1 by (by intros [? ?]).
  injection H1 as <-.
  destruct (Add_cases _ _ _ H2) as (i & r & lay & glob & tab & Ei & Er & _ & Hp2 & Hps & Hq & Hrec).
  cbn in Ei, Er, Hps, Hq, Hrec. rewrite Hpt, lookup_insert_eq in Ei. injection Ei as <-. cbn in Er. injection Er as <-.
  unfold MarkBase in H3. rewrite Hq, lookup_insert_eq, Hrec in H3. cbn in H3.
  destruct (negb _); [done|]. injection H3 as <-. split; [|cbn; by rewrite Hps].
  split; cbn [b_tiers with_records b_points b_records b_bySeq].
  - done.
  - exists []. by rewrite Hps.
  - by rewrite Hps.
  - rewrite Hq, Hps. intros o j Hj. apply lookup_insert_Some in Hj as [[_ <-]|[_ Hj]]; [cbn; lia|].
    by rewrite lookup_empty in Hj.
  - do 2 eexists. split; [reflexivity|]. done.
Qed.

Lemma Capture_point mod_ point s : Snapshot.Capture mod_ point = Ok s -> Point s = point.
Proof.
  unfold Snapshot.Capture. intros H. repeat case_match; simplify_eq; done.
Qed.

(** ** Each operation *)

Lemma AddPoint_points b p b' : AddPoint b p = Ok b' -> b_points b' = b_points b ++ [p].
Proof.
  unfold AddPoint. intros H. destruct (bool_decide _); [done|].
  match type of H with (if ?c then _ else _) = _ => destruct c; [done|] end. by injection H as <-.
Qed.

Lemma Add_points b s b' : Add b s = Ok b' -> b_points b' = b_points b.
Proof. intros H. by destruct (Add_cases b s b' H) as (? & ? & ? & ? & ? & _ & _ & _ & _ & ? & _). Qed.

(** ** Each operation

    What an operation that changes only the open slice leaves alone. *)
Definition same_set (w w' : SliceWriter) : Prop :=
  w_opts w' = w_opts w /\ w_sealed w' = w_sealed w /\ w_lastPoint w' = w_lastPoint w /\
  w_mod w' = w_mod w /\ w_finished w' = w_finished w.

(** How [addPoint] changes the open slice. *)
Lemma addPoint_open w o point mod_ snap w' :
  w_open w = Some o -> addPoint w point mod_ snap = Ok w' ->
  exists b1 b, AddPoint (os_builder o) (mkQuiescentPoint point point (-1) []) = Ok b1 /\
    (if snap then exists s, Point s = point /\ Add b1 s = Ok b else b = b1) /\ same_set w w' /\
    w_open w' = Some (mkOpen (os_index o) (os_basePoint o) (os_points o + 1) b (os_recorder o)).
Proof.
  intros Ho H. unfold addPoint in H. rewrite Ho in H. destruct (AddPoint _ _) as [b1|e] eqn:E1; [|done].
  destruct snap; cbn [negb] in H.
  - destruct (Snapshot.Capture mod_ point) as [s|e] eqn:Ec; [|done].
    destruct (Add b1 s) as [b|[e b]] eqn:Ea; [|done]. injection H as <-.
    exists b1, b. split_and!; try done. exists s. split; [by eapply Capture_point|done].
  - injection H as <-. exists b1, b1. by split_and!.
Qed.

Lemma openSliceAt_ok w point mod_ w' :
  openSliceAt w point mod_ = Ok w' -> same_set w w' /\
  exists o, w_open w' = Some o /\ os_index o = len (w_sealed w) /\ os_basePoint o = point /\
    os_points o = len (b_points (os_builder o)) /\ os_recorder o = true /\ base_first (os_builder o) point point /\
    qp_Ordinal <$> b_points (os_builder o) = [point].
Proof.
  unfold openSliceAt. destruct (NewIncrementalBuilder _ _) as [b0|e] eqn:E0; [|done].
  set (w0 := set_open w _). destruct (addPoint w0 point mod_ true) as [w1|] eqn:Ea; [|done].
  destruct (addPoint_open w0 _ point mod_ true w1 eq_refl Ea) as (b1 & b & E1 & (s & Hs & E2) & Hsame & Ho).
  rewrite Ho. cbn [os_builder]. destruct (MarkBase b point) as [b3|e] eqn:E3; [|done].
  destruct (attachRecorder mod_); [|done]. intros [= <-]. cbn [os_builder] in E1.
  destruct (opened_first _ _ _ _ _ _ _ _ E0 E1 E2 Hs E3) as [Hf Hl].
  split; [by destruct Hsame as (? & ? & ? & ? & ?); split_and!|].
  eexists. split; [reflexivity|]. split_and!; try done; cbn [os_points os_builder].
  - unfold len. by rewrite Hl.
  - destruct (bf_points _ _ _ Hf) as (ps & Hps & _). destruct (b_points b3) as [|q [|]]; try done.
    cbn in Hps |- *. by injection Hps as -> _.
Qed.

Lemma seal_ok env w endPoint w' : seal env w endPoint = Ok w' ->
  exists o info, w_open w = Some o /\ w_open w' = None /\ w_sealed w' = w_sealed w ++ [info] /\
    si_Index info = os_index o /\ si_BasePoint info = os_basePoint o /\ si_EndPoint info = endPoint /\
    w_lastPoint w' = w_lastPoint w /\ w_opts w' = w_opts w /\ w_finished w' = w_finished w.
Proof.
  unfold seal. destruct (w_open w) as [o|] eqn:Ho; [|done]. destruct (attachRecorder _); [|done].
  destruct (negb _); [done|]. destruct (Streams _) as [raw|]; [|done]. destruct (env_container _ _ _) as [bytes|]; [|done].
  intros H. set (info := mkSliceInfo _ _ _ _ _ _ _ _) in H. exists o, info.
  destruct (env_onSealed env) as [f|]; [destruct (negb (f info)); [done|]|]; injection H as <-; by split_and!.
Qed.

Lemma seqZ_snoc n : 0 <= n -> seqZ 0 (n + 1) = seqZ 0 n ++ [n].
Proof. intros H. rewrite seqZ_app by lia. by rewrite Z.add_0_l. Qed.

Lemma AtQuiescentPoint_ok env p0 w point mod_ w' :
  writer_ok p0 w -> AtQuiescentPoint env w point mod_ = Ok w' ->
  writer_ok p0 w' /\ w_lastPoint w < point /\ w_lastPoint w' = point.
Proof.
  intros [Hfin (o & Ho & [Hb Hrec Hidx Hpts Hle] & Ht) Hind] H. unfold AtQuiescentPoint in H.
  rewrite Hfin in H. cbn [w_open set_mod] in H. rewrite Ho in H. cbn [w_lastPoint set_mod] in H.
  destruct (Z.leb_spec point (w_lastPoint w)) as [|Hgt]; [done|].
  set (w0 := set_lastPoint _ _) in H. destruct (addPoint w0 _ _ _) as [w1|] eqn:Ea; [|done].
  destruct (addPoint_open w0 o _ _ _ _ Ho Ea) as (b1 & b & E1 & Hadd & (S1 & S2 & S3 & S4 & S5) & Ho1).
  assert (base_first b (os_basePoint o) point /\ b_points b = b_points b1) as [Hb' Hbp].
  { pose proof (AddPoint_first _ _ _ _ _ Hb E1) as Hb1. destruct (snapshotDue _ _ _).
    - destruct Hadd as (s & _ & Ea'). split; [by eapply Add_first|by eapply Add_points].
    - by subst b. }
  assert (os_points o + 1 = len (b_points b)) as Hcount.
  { rewrite Hbp, (AddPoint_points _ _ _ E1), len_app, Hpts. done. }
  assert (w_sealed w1 = w_sealed w /\ w_lastPoint w1 = point /\ w_finished w1 = false) as (Hs1 & Hl1 & Hf1)
    by (split_and!; [exact S2|exact S3|rewrite S5; exact Hfin]).
  rewrite Ho1 in H. cbn [os_builder os_basePoint] in H. destruct (PayloadBytes b) as [payload|]; [|done].
  destruct (sealsAfter _ _ _).
  - destruct (seal env w1 point) as [w2|] eqn:Es; [|done].
    destruct (seal_ok _ _ _ _ Es) as (o2 & info & Ho2 & _ & Hs2 & I1 & I2 & I3 & Hl2 & _ & Hf2).
    rewrite Ho1 in Ho2. injection Ho2 as <-. cbn [os_index os_basePoint] in I1, I2.
    destruct (openSliceAt_ok _ _ _ _ H) as ((_ & Q2 & Q3 & _ & Q5) & o3 & Ho3 & J1 & J2 & J3 & J4 & J5 & _).
    assert (w_lastPoint w' = point) as Hl by congruence.
    assert (w_sealed w' = w_sealed w ++ [info]) as Hs by congruence.
    assert (os_index o3 = len (w_sealed w ++ [info])) as Hi3 by congruence.
    split_and!; [|done|done]. split.
    + congruence.
    + exists o3. split; [done|]. split.
      * split; rewrite ?Hl, ?Hs, ?J2; done || lia.
      * rewrite J2, Hs, <-I3. eapply tiles_snoc; [exact Ht|done|]. rewrite I3. lia.
    + rewrite Hs, fmap_app, Hind, len_app. cbn. rewrite I1, Hidx. symmetry. apply seqZ_snoc, len_nonneg.
  - injection H as <-. split_and!; [|done|done]. split; [done| |by rewrite Hs1].
    eexists. split; [exact Ho1|]. rewrite Hs1. split; [|done].
    split; cbn [os_builder os_basePoint os_recorder os_index os_points]; rewrite ?Hl1, ?Hs1; done || lia.
Qed.

(** The open slice's index after the points [ps]: exactly those from its base
    on, in order. *)
Definition lists (w : SliceWriter) (ps : list Z) : Prop :=
  Forall (fun p => p <= w_lastPoint w) ps /\
  forall o, w_open w = Some o -> qp_Ordinal <$> b_points (os_builder o) = filter (fun p => os_basePoint o <= p) ps.

Lemma filter_snoc_ge base last_ point ps : Forall (fun p => p <= last_) ps -> base <= last_ < point ->
  filter (fun p => base <= p) (ps ++ [point]) = filter (fun p => base <= p) ps ++ [point] /\
  filter (fun p => point <= p) (ps ++ [point]) = [point].
Proof.
  intros Hall [Hb Hpt]. rewrite !filter_app, (filter_cons_True _ point []), (filter_cons_True (fun p => point <= p) point [])
    by (cbv beta; lia). rewrite !filter_nil. split; [done|].
  induction Hall as [|p ps Hp _ IH]; [done|]. cbn [app]. by rewrite filter_cons_False by lia.
Qed.

Lemma AtQuiescentPoint_lists env p0 w point mod_ w' ps :
  writer_ok p0 w -> lists w ps -> AtQuiescentPoint env w point mod_ = Ok w' -> lists w' (ps ++ [point]).
Proof.
  intros Hw [Hall Hps] H. destruct (AtQuiescentPoint_ok _ _ _ _ _ _ Hw H) as (_ & Hlt & Hl).
  split; [rewrite Hl; apply Forall_app; split; [eapply Forall_impl; [exact Hall|cbv beta; lia]|repeat constructor; lia]|].
  destruct Hw as [Hfin (o & Ho & [_ _ _ _ Hle] & _) _]. specialize (Hps o Ho).
  destruct (filter_snoc_ge (os_basePoint o) (w_lastPoint w) point ps Hall ltac:(lia)) as [F1 F2].
  unfold AtQuiescentPoint in H. rewrite Hfin in H. cbn [w_open set_mod] in H. rewrite Ho in H. cbn [w_lastPoint set_mod] in H.
  destruct (Z.leb_spec point (w_lastPoint w)) as [|_]; [done|].
  set (w0 := set_lastPoint _ _) in H. destruct (addPoint w0 _ _ _) as [w1|] eqn:Ea; [|done].
  destruct (addPoint_open w0 o _ _ _ _ Ho Ea) as (b1 & b & E1 & Hadd & _ & Ho1).
  assert (qp_Ordinal <$> b_points b = filter (fun p => os_basePoint o <= p) ps ++ [point]) as Hb.
  { rewrite <-Hps. assert (b_points b = b_points b1) as ->
      by (destruct (snapshotDue _ _ _); [destruct Hadd as (s & _ & ?); by eapply Add_points|by subst b]).
    by rewrite (AddPoint_points _ _ _ E1), fmap_app. }
  rewrite Ho1 in H. cbn [os_builder os_basePoint] in H. destruct (PayloadBytes b) as [payload|]; [|done].
  destruct (sealsAfter _ _ _).
  - destruct (seal env w1 point) as [w2|]; [|done].
    destruct (openSliceAt_ok _ _ _ _ H) as (_ & o3 & Ho3 & _ & J2 & _ & _ & _ & J6).
    intros o' Ho'. rewrite Ho3 in Ho'. injection Ho' as <-. by rewrite J2, J6, F2.
  - injection H as <-. intros o' Ho'. rewrite Ho1 in Ho'. injection Ho' as <-. cbn [os_builder os_basePoint]. by rewrite Hb, F1.
Qed.

(** ** A whole recording *)
Definition at_point (env : slice_env) (w : SliceWriter) (call : Z * option Snapshot.ModuleInstance) : slice_result :=
  AtQuiescentPoint env w call.1 call.2.

Lemma first_point_ok env opts system w0 p mod_ w :
  NewSliceWriter env opts system = Ok w0 -> AtQuiescentPoint env w0 p mod_ = Ok w ->
  writer_ok p w /\ w_lastPoint w = p /\ lists w [p].
Proof.
  unfold NewSliceWriter. destruct (validate_options opts); [|done]. destruct (negb _); [done|].
  intros [= <-] H. unfold AtQuiescentPoint in H. cbn [w_finished w_open set_mod] in H.
  destruct (openSliceAt _ p mod_) as [w1|] eqn:Eo; [|done]. injection H as <-.
  destruct (openSliceAt_ok _ _ _ _ Eo) as ((S1 & S2 & S3 & S4 & S5) & o & Ho & J1 & J2 & J3 & J4 & J5 & J6).
  cbn in S2, S5. split_and!; [|done|].
  2:{ split; [repeat constructor; cbn; lia|]. intros o' Ho'. cbn [w_open set_lastPoint] in Ho'. rewrite Ho in Ho'. injection Ho' as <-.
      rewrite J2, J6, filter_cons_True by lia. done. }
  split; cbn [w_finished set_lastPoint w_open w_sealed].
  - done.
  - exists o. rewrite S2. split_and!; [done| |by rewrite J2].
    split; cbn [w_lastPoint set_lastPoint w_sealed]; rewrite ?J2, ?S2; done || lia.
  - by rewrite S2.
Qed.

Lemma all_points_ok env p0 calls : forall w w' ps,
  writer_ok p0 w -> lists w ps -> foldm (at_point env) w calls = Ok w' ->
  writer_ok p0 w' /\ lists w' (ps ++ calls.*1) /\ StronglySorted Z.lt (w_lastPoint w :: calls.*1) /\
  w_lastPoint w' = default (w_lastPoint w) (last calls.*1).
Proof.
  induction calls as [|[p m] calls IH]; intros w w' ps Hw Hps H; cbn [foldm] in H.
  - injection H as <-. rewrite app_nil_r. split_and!; [done|exact Hps|repeat constructor|done].
  - unfold at_point at 1 in H. cbn [fst snd] in H. destruct (AtQuiescentPoint env w p m) as [w1|] eqn:E; [|done].
    destruct (AtQuiescentPoint_ok _ _ _ _ _ _ Hw E) as (Hw1 & Hlt & Hl).
    pose proof (AtQuiescentPoint_lists _ _ _ _ _ _ _ Hw Hps E) as Hps1.
    destruct (IH _ _ _ Hw1 Hps1 H) as (Hw' & Hps' & Hs & Hlast). rewrite <-app_assoc in Hps'. rewrite Hl in *. rewrite fmap_cons. cbn [fst].
    split; [done|]. split; [exact Hps'|]. split.
    + constructor; [done|]. apply StronglySorted_inv in Hs as [_ Hall]. constructor; [done|].
      eapply Forall_impl; [exact Hall|]. intros x Hx. cbv beta. lia.
    + rewrite Hlast, last_cons. by destruct (last calls.*1).
Qed.

Lemma write_manifest_tiles env p0 w last_ :
  w_lastPoint w = last_ -> tiles p0 (w_sealed w) last_ -> si_Index <$> w_sealed w = seqZ 0 (len (w_sealed w)) ->
  match write_manifest env w with
  | Ok (m, _) => tiles p0 (sm_Slices m) last_ /\ sm_Slices m <> [] /\
      sm_TotalPoints m = last_ + 1 /\ si_Index <$> sm_Slices m = seqZ 0 (len (sm_Slices m))
  | Err (e, _) => forall i, e <> NotTiling i
  end.
Proof.
  intros Hl Ht Hi. unfold write_manifest. case_bool_decide; [done|]. cbn [sm_Slices].
  rewrite (tiles_checked _ _ _ Ht). destruct (negb _); [done|]. cbn [sm_Slices sm_TotalPoints]. rewrite Hl. by split_and!.
Qed.

Lemma Streams_err b e : Streams b = Err e -> e = Panic.
Proof.
  unfold Streams, PageStore.encodePageStore, PageStore.encodePageStoreKeyed, PageStore.encodePageStoreKeyed_in, PageStore.encode_chains.
  intros H. repeat case_match; by simplify_eq.
Qed.

Lemma close_last_tiles env p0 w : writer_ok p0 w ->
  match close_last env (set_finished w) with
  | Ok w' => w_lastPoint w' = w_lastPoint w /\ tiles p0 (w_sealed w') (w_lastPoint w) /\
      si_Index <$> w_sealed w' = seqZ 0 (len (w_sealed w'))
  | Err (e, _) => forall i, e <> NotTiling i
  end.
Proof.
  intros [Hfin (o & Ho & [Hb Hrec Hidx Hpts Hle] & Ht) Hind]. unfold close_last. cbn [w_open set_finished w_lastPoint w_mod].
  rewrite Ho. destruct (Z.eqb_spec (os_basePoint o) (w_lastPoint w)) as [E|Hne].
  - unfold attachRecorder, Snapshot.moduleInstance. destruct (w_mod w); [|done]. cbn. by rewrite <-E.
  - set (w1 := set_finished w). destruct (seal env _ (w_lastPoint w)) as [w2|[e w2]] eqn:Es.
    + destruct (seal_ok _ _ _ _ Es) as (o2 & info & Ho2 & _ & Hs2 & I1 & I2 & I3 & Hl2 & _ & _).
      cbn in Ho2, Hs2, Hl2. rewrite Ho in Ho2. injection Ho2 as <-. split_and!; [done| |].
      * rewrite Hs2, <-I3. eapply tiles_snoc; [exact Ht|done|lia].
      * rewrite Hs2, fmap_app, Hind, len_app. cbn. rewrite I1, Hidx. symmetry. apply seqZ_snoc, len_nonneg.
    + subst w1. unfold seal in Es. cbn [w_open set_finished] in Es. rewrite Ho in Es.
      intros i ->. unfold attachRecorder, Snapshot.moduleInstance in Es.
      repeat case_match; simplify_eq.
      match goal with H : Streams _ = Err _ |- _ => by apply Streams_err in H end.
Qed.

(** C18: the slices of a recording partition it.  For every policy and
    environment, when the replay has passed through the points from [p0] to
    [pn], they were strictly ascending, and the manifest that [Finish] writes
    lists consecutively numbered, non-empty slices that tile [p0, pn] without
    gap or overlap and counts [pn + 1] points; whatever else [Finish] may
    report, its tiling check never fails. *)
Theorem slices_tile env opts system w0 w calls p0 pn :
  NewSliceWriter env opts system = Ok w0 -> foldm (at_point env) w0 calls = Ok w ->
  head calls.*1 = Some p0 -> last calls.*1 = Some pn ->
  StronglySorted Z.lt calls.*1 /\
  match Finish env w with
  | Ok (m, _) => tiles p0 (sm_Slices m) pn /\ sm_Slices m <> [] /\
      sm_TotalPoints m = pn + 1 /\ si_Index <$> sm_Slices m = seqZ 0 (len (sm_Slices m))
  | Err (e, _) => forall i, e <> NotTiling i
  end.
Proof.
  intros H0 H Hh Hlast. destruct calls as [|[p m] calls]; [done|]. cbn in Hh. injection Hh as ->.
  cbn [foldm] in H. unfold at_point at 1 in H. cbn [fst snd] in H.
  destruct (AtQuiescentPoint env w0 p0 m) as [w1|] eqn:E; [|done].
  destruct (first_point_ok _ _ _ _ _ _ _ H0 E) as (Hw1 & Hl1 & Hps1).
  destruct (all_points_ok _ _ _ _ _ _ Hw1 Hps1 H) as (Hw & _ & Hs & Hl). rewrite Hl1 in *.
  split; [exact Hs|]. rewrite fmap_cons, last_cons in Hlast.
  assert (w_lastPoint w = pn) as Hpn by (rewrite Hl; destruct (last calls.*1); by injection Hlast as <-).
  unfold Finish. rewrite (wo_finished _ _ Hw). pose proof (close_last_tiles env p0 w Hw) as Hc. rewrite Hpn in Hc.
  destruct (close_last env (set_finished w)) as [w2|[e ?]]; [|done]. destruct Hc as (C1 & C2 & C3).
  by apply write_manifest_tiles.
Qed.


Lemma base_first_Range b base last_ lay mem glob tab t :
  base_first b base last_ -> in_u 32 base -> in_u 32 last_ ->
  Range (mkSet (b_records b) lay mem glob tab t) = (base, last_, true).
Proof.
  intros [_ (ps & Hps & Hl) Hr _ (r & rs & Hrs & H1 & H2)] Hb Hlast. unfold Range. cbn [s_records].
  rewrite (list_fmap_compose qp_Ordinal u32), Hps in Hr.
  assert (Ordinal r = base) as Hfirst.
  { rewrite Hrs, !fmap_cons in Hr. injection Hr as Hr _. rewrite Hr. by apply wrapu_small. }
  assert (Ordinal <$> last (b_records b) = Some last_) as Hend.
  { rewrite <-fmap_last, Hr, fmap_last, Hl. cbn. f_equal. by apply wrapu_small. }
  rewrite Hrs in *. destruct (last (r :: rs)) as [l|]; [|done]. injection Hend as ->.
  by rewrite Hfirst, H1, H2.
Qed.

(** C19: the slice being written is self-describing at every moment.  After a
    run over points of 32 bits (the width of a record's ordinal), the open
    slice's index lists exactly the points the replay passed from the slice's
    base on, each once and in order; the slice's point counter counts them; the
    index opens with the base point, which carries the base snapshot, and the
    range a reader of that index sees is the slice's own, from its base to the
    last point passed. *)
Theorem open_slice_self_describing env opts system w0 w calls :
  NewSliceWriter env opts system = Ok w0 -> foldm (at_point env) w0 calls = Ok w ->
  calls <> [] -> Forall (in_u 32) calls.*1 ->
  exists o, w_open w = Some o /\ os_points o = PointCount (os_builder o) /\
    Ordinal <$> b_records (os_builder o) = filter (fun p => os_basePoint o <= p) calls.*1 /\
    last calls.*1 = Some (w_lastPoint w) /\
    forall lay mem glob tab t,
      Range (mkSet (b_records (os_builder o)) lay mem glob tab t) = (os_basePoint o, w_lastPoint w, true).
Proof.
  intros H0 H Hne Hu. destruct calls as [|[p m] calls]; [done|].
  cbn [foldm] in H. unfold at_point at 1 in H. cbn [fst snd] in H.
  destruct (AtQuiescentPoint env w0 p m) as [w1|] eqn:E; [|done].
  destruct (first_point_ok _ _ _ _ _ _ _ H0 E) as (Hw1 & Hl1 & Hps1).
  destruct (all_points_ok _ _ _ _ _ _ Hw1 Hps1 H) as ([_ (o & Ho & [Hb _ _ Hpts Hle] & Ht) _] & [_ Hps] & _ & Hl).
  specialize (Hps o Ho). rewrite Hl1 in Hl. rewrite fmap_cons in Hu |- *. cbn [fst app] in Hu, Hps |- *.
  assert (last (p :: calls.*1) = Some (w_lastPoint w)) as Hlast
    by (rewrite last_cons, Hl; by destruct (last calls.*1)).
  assert (in_u 32 (w_lastPoint w)) as Hwlast.
  { rewrite Forall_forall in Hu. apply Hu. apply last_Some in Hlast as [l ->]. apply elem_of_app. right. by constructor. }
  exists o. split_and!; [done|done| |done|].
  - rewrite (bf_records _ _ _ Hb), list_fmap_compose, Hps.
    transitivity (id <$> filter (fun q => os_basePoint o <= q) (p :: calls.*1)); [|apply list_fmap_id].
    apply Forall_fmap_ext_1, Forall_forall. intros x [_ Hx]%list_elem_of_filter.
    rewrite Forall_forall in Hu. by apply wrapu_small, Hu.
  - intros. apply base_first_Range; [done| |done]. destruct (tiles_le _ _ _ Ht) as [Hge _].
    apply Forall_cons in Hu as [Hp _]. unfold in_u in *. lia.
Qed.

(** A run over four points, two calls to a slice, on a module without memory. *)
Definition sample_env : slice_env := mkSliceEnv true (fun _ _ => Some 4096) None (fun _ => true).
Definition sample_options : SliceOptions :=
  mkSliceOptions ($"out") ($"calc.wasm") (mkPolicy 2 0) 1 false (mkEncodeOptions false false) true.
Definition sample_calls : list (Z * option Snapshot.ModuleInstance) :=
  (fun p => (p, Some Snapshot.running)) <$> [0; 1; 2; 3].
Definition sample_writer : SliceWriter := mkWriter sample_options None [] 0 None false None.
Definition sample_end : SliceWriter :=
  match foldm (at_point sample_env) sample_writer sample_calls with Ok w => w | Err (_, w) => w end.

Lemma sample_run : foldm (at_point sample_env) sample_writer sample_calls = Ok sample_end.
Proof. vm_compute. reflexivity. Qed.

Lemma slices_tile_witness :
  match Finish sample_env sample_end with
  | Ok (m, _) => tiles 0 (sm_Slices m) 3 /\ (fun s => (si_BasePoint s, si_EndPoint s)) <$> sm_Slices m = [(0, 2); (2, 3)]
  | Err _ => False
  end.
Proof.
  destruct (slices_tile sample_env sample_options None sample_writer sample_end sample_calls 0 3) as [_ H];
    [reflexivity|exact sample_run|reflexivity|reflexivity|].
  destruct (Finish sample_env sample_end) as [[m w]|[e w]] eqn:E; [|vm_compute in E; discriminate].
  destruct H as [H _]. split; [exact H|]. vm_compute in E. injection E as <- _. reflexivity.
Defined.

Lemma open_slice_self_describing_witness :
  exists o, w_open sample_end = Some o /\ os_points o = PointCount (os_builder o) /\
    Ordinal <$> b_records (os_builder o) = [2; 3] /\
    Range (mkSet (b_records (os_builder o)) [] [] [] [] fresh_tiers) = (2, 3, true).
Proof.
  destruct (open_slice_self_describing sample_env sample_options None sample_writer sample_end sample_calls)
    as (o & Ho & Hp & Hrec & _ & Hr); [reflexivity|exact sample_run|discriminate| |].
  - repeat apply Forall_cons_2; [split; vm_compute; (discriminate || reflexivity)..|constructor].
  - exists o. split; [exact Ho|]. split; [exact Hp|].
    rewrite Hrec, Hr. vm_compute in Ho. injection Ho as <-. split; reflexivity.
Defined.

End Slice.
