(* ===== verification/Manifest.v ===== *)
(** * The instrumentation manifest: [internal/boundarylog/manifest.go]

    The sidecar [ct-instrument] writes next to an instrumented module: its
    decoding, the signatures of its boundary edges and the two lookups replay
    cross-checks a module with. *)
From S2P Require Import Prelude GoStd Json Values.

Module Manifest.
Import GoStd Json Values.

Definition FuncKindImport : Z := 0.
Definition FuncKindExport : Z := 1.
Definition FuncKindStore : Z := 2.

Record ManifestFunction := { MFName : gostring; MFPathIndex : Z; MFLine : Z; MFCol : Z }.
Record ManifestSite := { MSKind : gostring; MSPathIndex : Z; MSLine : Z; MSCol : Z; MSFnID : Z }.
Record ManifestBoundary := {
  FnKind : Z; FnIndex : Z; BName : gostring; BModule : gostring;
  BParams : slice gostring; BResults : slice gostring; UnsupportedType : gostring }.
Record Manifest := {
  Paths : slice gostring; Functions : slice ManifestFunction;
  Sites : slice ManifestSite; Boundaries : slice ManifestBoundary }.

Inductive man_err : Type :=
| ErrUnsupportedEdge (t : gostring)
| ErrEdgeType (slot : nat) (e : val_err)
| ErrManifestDecoding.

Fixpoint parse_types (ts : list gostring) (i : nat) : result man_err (list ScalarType) :=
  match ts with
  | [] => Ok []
  | s :: ts =>
      let! t := map_err (ErrEdgeType i) (ParseScalarType s) in
      let! rest := parse_types ts (S i) in
      Ok (t :: rest)
  end.

Definition Boundary_Signature (b : ManifestBoundary) : result man_err Signature :=
  reject negb (bool_decide (UnsupportedType b = [])) as ErrUnsupportedEdge (UnsupportedType b) ;;
  let! ps := parse_types (elems (BParams b)) 0 in
  let! rs := parse_types (elems (BResults b)) 0 in
  Ok {| Params := ps; Results := rs |}.

Definition Boundary (m : option Manifest) (fnKind fnIndex : Z) : option ManifestBoundary :=
  match m with
  | None => None
  | Some m => List.find (fun b => (FnKind b =? fnKind) && (FnIndex b =? fnIndex)) (elems (Boundaries m))
  end.

Definition ExportBoundaryByName (m : option Manifest) (name : gostring) : option ManifestBoundary :=
  match m with
  | None => None
  | Some m =>
      if bool_decide (name = []) then None
      else List.find (fun b => (FnKind b =? FuncKindExport) && bool_decide (BName b = name)) (elems (Boundaries m))
  end.

(** ** Decoding *)
Definition zero_function : ManifestFunction := {| MFName := []; MFPathIndex := 0; MFLine := 0; MFCol := 0 |}.
Definition Unmarshal_function : ManifestFunction -> json -> option ManifestFunction :=
  dec_struct (fun r ms =>
    field! n := field dec_string ($"name") ms (MFName r) in
    field! p := field (dec_int 64) ($"pathIndex") ms (MFPathIndex r) in
    field! l := field (dec_int 64) ($"line") ms (MFLine r) in
    field! c := field (dec_int 64) ($"col") ms (MFCol r) in
    Some {| MFName := n; MFPathIndex := p; MFLine := l; MFCol := c |}).
Definition zero_site : ManifestSite := {| MSKind := []; MSPathIndex := 0; MSLine := 0; MSCol := 0; MSFnID := 0 |}.
Definition Unmarshal_site : ManifestSite -> json -> option ManifestSite :=
  dec_struct (fun r ms =>
    field! k := field dec_string ($"kind") ms (MSKind r) in
    field! p := field (dec_int 64) ($"pathIndex") ms (MSPathIndex r) in
    field! l := field (dec_int 64) ($"line") ms (MSLine r) in
    field! c := field (dec_int 64) ($"col") ms (MSCol r) in
    field! f := field (dec_int 64) ($"fnId") ms (MSFnID r) in
    Some {| MSKind := k; MSPathIndex := p; MSLine := l; MSCol := c; MSFnID := f |}).
Definition zero_boundary : ManifestBoundary :=
  {| FnKind := 0; FnIndex := 0; BName := []; BModule := []; BParams := None; BResults := None; UnsupportedType := [] |}.
Definition Unmarshal_boundary : ManifestBoundary -> json -> option ManifestBoundary :=
  dec_struct (fun r ms =>
    field! k := field (dec_int 64) ($"fnKind") ms (FnKind r) in
    field! i := field (dec_uint 32) ($"fnIndex") ms (FnIndex r) in
    field! n := field dec_string ($"name") ms (BName r) in
    field! m := field dec_string ($"module") ms (BModule r) in
    field! ps := field (dec_slice [] dec_string) ($"params") ms (BParams r) in
    field! rs := field (dec_slice [] dec_string) ($"results") ms (BResults r) in
    field! u := field dec_string ($"unsupportedType") ms (UnsupportedType r) in
    Some {| FnKind := k; FnIndex := i; BName := n; BModule := m; BParams := ps; BResults := rs; UnsupportedType := u |}).
Definition zero_manifest : Manifest := {| Paths := None; Functions := None; Sites := None; Boundaries := None |}.
Definition Unmarshal_manifest : Manifest -> json -> option Manifest :=
  dec_struct (fun r ms =>
    field! p := field (dec_slice [] dec_string) ($"paths") ms (Paths r) in
    field! f := field (dec_slice zero_function Unmarshal_function) ($"functions") ms (Functions r) in
    field! s := field (dec_slice zero_site Unmarshal_site) ($"sites") ms (Sites r) in
    field! b := field (dec_slice zero_boundary Unmarshal_boundary) ($"boundaries") ms (Boundaries r) in
    Some {| Paths := p; Functions := f; Sites := s; Boundaries := b |}).

Definition LoadManifest (data : list Z) : result man_err Manifest :=
  match parse_json data with
  | None => Err ErrManifestDecoding
  | Some v =>
      match Unmarshal_manifest zero_manifest v with
      | None => Err ErrManifestDecoding
      | Some m => Ok m
      end
  end.

(** ** Discovery

    [is_file] is [os.Stat] finding something that is not a directory. *)
Definition DefaultManifestPath (wasmPath : gostring) : gostring := wasmPath ++ $".manifest.json".

(** [filepath.Ext]. *)
Definition path_ext (path : gostring) : gostring :=
  let i := LastIndexByte path 46 in
  let j := LastIndexByte path 47 in
  if (0 <=? i) && (j <? i) then drop (Z.to_nat i) path else [].

Definition FindManifest (is_file : gostring -> bool) (wasmPath : gostring) : gostring :=
  let candidate := DefaultManifestPath wasmPath in
  if is_file candidate then candidate
  else
    let ext := path_ext wasmPath in
    if negb (bool_decide (ext = [])) then
      let candidate := take (length wasmPath - length ext) wasmPath ++ $".manifest.json" in
      if is_file candidate then candidate else []
    else [].

Example LoadManifest_example :
  let data := bytes_of_string "{'boundaries':[{'fnKind':0,'fnIndex':3,'name':'log','params':['i32'],'results':[]}]}" in
  let data := (fun c => if c =? 39 then 34 else c) <$> data in
  match LoadManifest data with
  | Ok m => match Boundary (Some m) FuncKindImport 3 with
            | Some b => Boundary_Signature b = Ok {| Params := [TypeI32]; Results := [] |}
            | None => False
            end
  | Err _ => False
  end.
Proof. vm_compute. reflexivity. Qed.

End Manifest.
