(* ===== verification/Provider.v ===== *)
(** * Synthesised host modules: [internal/boundarylog/provider.go]

    What a host module name must supply to the guest (imported memories and
    globals, and the stubs it re-exports), the WebAssembly binary that declares
    it, and the grouping of a recording's initial state and imports by module
    name ([hoststate.go], [replay.go]).

    [appendULEB128_spec] and [appendSLEB128_spec] show
    that the package's own integer encoders are those of [internal/leb128]. *)
From S2P Require Import Prelude Leb128 GoStd Json Values Recording HostState Manifest.

Module Provider.
Import GoStd Json Values Recording HostState Manifest.

(** ** Functions of the module and their plans *)
Record FunctionDefinition : Type := mkFunction {
  f_module : gostring; f_name : gostring; f_params : list Z; f_results : list Z }.

Record importPlan : Type := mkImportPlan {
  ip_index : Z; ip_module : gostring; ip_name : gostring; ip_sig : Signature;
  ip_paramTypes : list Z; ip_resultTyps : list Z }.

Record providerSpec : Type := mkSpec {
  ps_module : gostring; ps_memories : list ImportedMemory; ps_globals : list ImportedGlobal;
  ps_funcs : list importPlan; ps_stubModule : gostring }.

Definition new_spec (name : gostring) : providerSpec := mkSpec name [] [] [] [].

Inductive prov_err : Type :=
| ErrEmptyProvider (m : gostring)
| ErrNoStubModule (m : gostring)
| ErrProviderGlobal (e : hs_err)
| ErrDuplicateImport (m n : gostring)
| ErrMemoryMaximum (m n : gostring)
| ErrProviderRegion (e : hs_err)
| ErrStubs (m : gostring)
| ErrProvider (m : gostring).

(** ** Integers *)
Fixpoint appendULEB128_loop (fuel : nat) (dst : list Z) (v : Z) : list Z :=
  match fuel with
  | O => dst
  | S fuel =>
      let b := u8 (Z.land v 0x7f) in
      let v := Z.shiftr v 7 in
      let b := if negb (v =? 0) then Z.lor b 0x80 else b in
      let dst := dst ++ [b] in
      if v =? 0 then dst else appendULEB128_loop fuel dst v
  end.
(** Ten bytes hold 64 bits. *)
Definition appendULEB128 (dst : list Z) (v : Z) : list Z := appendULEB128_loop 10 dst v.

Fixpoint appendSLEB128_loop (fuel : nat) (dst : list Z) (v : Z) : list Z :=
  match fuel with
  | O => dst
  | S fuel =>
      let b := u8 (Z.land v 0x7f) in
      let v := Z.shiftr v 7 in
      let signBitSet := negb (Z.land b 0x40 =? 0) in
      if ((v =? 0) && negb signBitSet) || ((v =? -1) && signBitSet)
      then dst ++ [b]
      else appendSLEB128_loop fuel (dst ++ [Z.lor b 0x80]) v
  end.
Definition appendSLEB128 (dst : list Z) (v : Z) : list Z := appendSLEB128_loop 10 dst v.

Definition pageSize : Z := 65536.
Definition MaxUint32 : Z := 4294967295.
Definition requiredPages (n : Z) : Z :=
  let pages := u64 (n + pageSize - 1) / pageSize in
  if MaxUint32 <? pages then MaxUint32 else u32 pages.

(** ** The binary *)
Definition appendName (dst : list Z) (s : gostring) : list Z := appendULEB128 dst (len s) ++ s.

Definition appendSection (dst : list Z) (id : Z) (body : list Z) : list Z :=
  appendULEB128 (dst ++ [id]) (len body) ++ body.

Definition encodeFuncType (params results : list Z) : list Z :=
  let out := [0x60] in
  let out := appendULEB128 out (len params) in
  let out := out ++ (u8 <$> params) in
  let out := appendULEB128 out (len results) in
  out ++ (u8 <$> results).

Definition constExpr (t : ScalarType) (v : Value) : list Z :=
  match t with
  | TypeI32 => appendSLEB128 [0x41] (i32 (u32 (Bits v))) ++ [0x0b]
  | TypeI64 => appendSLEB128 [0x42] (i64 (Bits v)) ++ [0x0b]
  | TypeF32 =>
      let bits := u32 (Bits v) in
      [0x43; u8 bits; u8 (Z.shiftr bits 8); u8 (Z.shiftr bits 16); u8 (Z.shiftr bits 24)] ++ [0x0b]
  | TypeF64 =>
      0x44 :: ((fun i => u8 (Z.shiftr (Bits v) (8 * i))) <$> [0; 1; 2; 3; 4; 5; 6; 7]) ++ [0x0b]
  end.

Fixpoint index_of (ft : list Z) (types : list (list Z)) : option nat :=
  match types with
  | [] => None
  | t :: types => if bool_decide (t = ft) then Some O else S <$> index_of ft types
  end.

(** The loop over [p.funcs] that collects the distinct types. *)
Fixpoint collect_types (funcs : list importPlan) (types : list (list Z)) : list (list Z) * list Z :=
  match funcs with
  | [] => (types, [])
  | f :: funcs =>
      let ft := encodeFuncType (ip_paramTypes f) (ip_resultTyps f) in
      let '(found, types) :=
        match index_of ft types with
        | Some j => (j, types)
        | None => (length types, types ++ [ft])
        end in
      let '(types, rest) := collect_types funcs types in
      (types, Z.of_nat found :: rest)
  end.

Definition type_section (types : list (list Z)) : list Z :=
  appendULEB128 [] (len types) ++ concat types.

Fixpoint import_entries (stub : gostring) (dst : list Z) (funcs : list importPlan) (idx : list Z) : list Z :=
  match funcs, idx with
  | f :: funcs, i :: idx =>
      let dst := appendName dst stub in
      let dst := appendName dst (ip_name f) in
      import_entries stub (appendULEB128 (dst ++ [0x00]) i) funcs idx
  | _, _ => dst
  end.

Definition memory_entry (dst : list Z) (m : ImportedMemory) : list Z :=
  match MaxPages m with
  | None => appendULEB128 (dst ++ [0x00]) (MinPages m)
  | Some hi => appendULEB128 (appendULEB128 (dst ++ [0x01]) (MinPages m)) hi
  end.

(** [vec(name, kind, index)], one kind of entity. *)
Fixpoint export_entries (kind : Z) (dst : list Z) (i : Z) (names : list gostring) : list Z :=
  match names with
  | [] => dst
  | n :: names => export_entries kind (appendULEB128 (appendName dst n ++ [kind]) i) (i + 1) names
  end.

Section encode.
Variable ParseFloat : gostring -> option Z.

Definition global_entry (dst : list Z) (g : ImportedGlobal) : result prov_err (list Z) :=
  let! (t, v) := map_err ErrProviderGlobal (ImportedGlobal_decode ParseFloat g) in
  let dst := dst ++ [ValueType t] in
  let dst := dst ++ [if GMutable g then 0x01 else 0x00] in
  Ok (dst ++ constExpr t v).

Definition encode (p : providerSpec) : result prov_err (list Z) :=
  reject (len (ps_memories p) =? 0) && (len (ps_globals p) =? 0) && (len (ps_funcs p) =? 0)
    as ErrEmptyProvider (ps_module p) ;;
  let out := [0x00; 0x61; 0x73; 0x6d; 0x01; 0x00; 0x00; 0x00] in
  let! out :=
    (if 0 <? len (ps_funcs p) then
       reject bool_decide (ps_stubModule p = []) as ErrNoStubModule (ps_module p) ;;
       let '(types, typeIndex) := collect_types (ps_funcs p) [] in
       let out := appendSection out 1 (type_section types) in
       Ok (appendSection out 2
             (import_entries (ps_stubModule p) (appendULEB128 [] (len (ps_funcs p))) (ps_funcs p) typeIndex))
     else Ok out) in
  let out :=
    if 0 <? len (ps_memories p)
    then appendSection out 5 (fold_left memory_entry (ps_memories p) (appendULEB128 [] (len (ps_memories p))))
    else out in
  let! out :=
    (if 0 <? len (ps_globals p) then
       let! body := foldm global_entry (appendULEB128 [] (len (ps_globals p))) (ps_globals p) in
       Ok (appendSection out 6 body)
     else Ok out) in
  let body := appendULEB128 [] (len (ps_memories p) + len (ps_globals p) + len (ps_funcs p)) in
  let body := export_entries 0x00 body 0 (ip_name <$> ps_funcs p) in
  let body := export_entries 0x02 body 0 (MName <$> ps_memories p) in
  let body := export_entries 0x03 body 0 (GName <$> ps_globals p) in
  Ok (appendSection out 7 body).

End encode.

(** ** Grouping by module name *)
Notation specs := (gmap (list Z) providerSpec).

Definition get (sp : specs) (name : gostring) : providerSpec := default (new_spec name) (sp !! name).

Definition add_memory (sp : specs) (m : ImportedMemory) : specs :=
  let s := get sp (MModule m) in
  <[MModule m := mkSpec (ps_module s) (ps_memories s ++ [m]) (ps_globals s) (ps_funcs s) (ps_stubModule s)]> sp.
Definition add_global (sp : specs) (g : ImportedGlobal) : specs :=
  let s := get sp (GModule g) in
  <[GModule g := mkSpec (ps_module s) (ps_memories s) (ps_globals s ++ [g]) (ps_funcs s) (ps_stubModule s)]> sp.

Definition providerModules (h : option HostState) : specs :=
  match h with
  | None => ∅
  | Some h => fold_left add_global (elems (Globals (Initial h)))
                (fold_left add_memory (elems (Memories (Initial h))) ∅)
  end.

(** The loop that attaches each imported function to its module's spec. *)
Definition attach_import (sp : specs) (p : importPlan) : result prov_err specs :=
  let s := get sp (ip_module p) in
  reject existsb (fun f => bool_decide (ip_name f = ip_name p)) (ps_funcs s)
    as ErrDuplicateImport (ip_module p) (ip_name p) ;;
  Ok (<[ip_module p := mkSpec (ps_module s) (ps_memories s) (ps_globals s) (ps_funcs s ++ [p]) (ps_stubModule s)]> sp).

(** [sort.Strings]: bytewise order. *)
Fixpoint bytes_leb (a b : list Z) : bool :=
  match a, b with
  | [], _ => true
  | _ :: _, [] => false
  | x :: a, y :: b => (x <? y) || ((x =? y) && bytes_leb a b)
  end.
Fixpoint insert_name (n : gostring) (l : list gostring) : list gostring :=
  match l with
  | [] => [n]
  | m :: l => if bytes_leb n m then n :: m :: l else m :: insert_name n l
  end.
Definition sort_Strings (l : list gostring) : list gostring := foldr insert_name [] l.
Definition spec_names (sp : specs) : list gostring := sort_Strings (fst <$> map_to_list sp).

(** Growing a declared minimum to hold the recorded regions. *)
Definition grow_region (m : ImportedMemory) (d : MemoryRegion) : result prov_err ImportedMemory :=
  let! bytes := map_err ErrProviderRegion (MemoryRegion_decode d) in
  let need := requiredPages (u64 (ROffset d + len bytes)) in
  Ok (if MinPages m <? need
      then {| MModule := MModule m; MName := MName m; MinPages := need; MaxPages := MaxPages m; MData := MData m |}
      else m).
Definition grow_memory (m : ImportedMemory) : result prov_err ImportedMemory :=
  let! m := foldm grow_region m (elems (MData m)) in
  reject (match MaxPages m with Some hi => hi <? MinPages m | None => false end)
    as ErrMemoryMaximum (MModule m) (MName m) ;;
  Ok m.

Definition stubModulePrefix : gostring := 0 :: $"ct-replay-stubs" ++ [0].

(** ** The integer encoders are [internal/leb128]'s *)
Lemma appendULEB128_loop_spec fuel dst v :
  appendULEB128_loop fuel dst v = dst ++ Leb128.EncodeUint64_loop fuel v.
Proof.
  revert dst v. induction fuel as [|fuel IH]; intros dst v;
    cbn [appendULEB128_loop Leb128.EncodeUint64_loop]; [by rewrite app_nil_r|].
  assert (0 <= Z.land v 127 < 128) as Hb by (rewrite land_127; apply Z.mod_pos_bound; lia).
  assert (u8 (Z.land v 127) = Z.land v 127) as -> by (apply wrapu_small; unfold in_u; lia).
  destruct (Z.shiftr v 7 =? 0); cbn [negb].
  - rewrite land_128, Z.div_small by lia. done.
  - rewrite lor_128 by lia. rewrite land_128.
    replace ((Z.land v 127 + 128) / 128) with 1
      by (apply Z.div_unique with (Z.land v 127); lia).
    cbn -[Z.shiftr]. rewrite IH, <-app_assoc. done.
Qed.

Lemma appendULEB128_spec dst v : appendULEB128 dst v = dst ++ Leb128.EncodeUint64 v.
Proof. apply appendULEB128_loop_spec. Qed.

Lemma appendSLEB128_loop_spec fuel dst v :
  appendSLEB128_loop fuel dst v = dst ++ Leb128.EncodeInt64_loop fuel v.
Proof.
  revert dst v. induction fuel as [|fuel IH]; intros dst v;
    cbn [appendSLEB128_loop Leb128.EncodeInt64_loop]; [by rewrite app_nil_r|].
  assert (0 <= Z.land v 127 < 128) as Hb by (rewrite land_127; apply Z.mod_pos_bound; lia).
  assert (u8 (Z.land v 127) = Z.land v 127) as -> by (apply wrapu_small; unfold in_u; lia).
  assert (Z.land (Z.land v 127) 64 = Z.land v 64) as -> by (by rewrite <-Z.land_assoc).
  assert (Z.land (Z.land v 127) 128 = 0) as H0 by (rewrite land_128, Z.div_small by lia; done).
  assert (Z.land (Z.lor (Z.land v 127) 128) 128 = 128) as H1.
  { rewrite lor_128 by lia. rewrite land_128.
    by replace ((Z.land v 127 + 128) / 128) with 1
      by (apply Z.div_unique with (Z.land v 127); lia). }
  destruct (Z.shiftr v 7 =? 0) eqn:E0, (Z.shiftr v 7 =? -1) eqn:E1, (Z.land v 64 =? 0) eqn:E2;
    cbn [negb andb orb]; rewrite ?H0, ?H1; cbn [Z.eqb];
    try (zbool; lia); rewrite ?IH, <-?app_assoc; done.
Qed.

Lemma appendSLEB128_spec dst v : appendSLEB128 dst v = dst ++ Leb128.EncodeInt64 v.
Proof. apply appendSLEB128_loop_spec. Qed.

End Provider.
