(* ===== verification/Replay.v ===== *)
(** * Replaying a recording: [internal/boundarylog/replay.go]

    The driver re-executes a module against a boundary recording.  The runtime
    that instantiates and runs modules is an interface, the class [Runtime]: a
    guest is any state [G] with, for its instantiation and for each exported
    function, an [activation], the tree of what the call does next: return,
    trap, or call an import and continue with what the stub gives back.
    Between two imports a guest may read and write the host-supplied memories
    and globals, so an activation passes them along.

    A panic of the Go code (an index out of range) is the error [RangePanic];
    the counts that [Replay] returns next to an error are left out. *)
From S2P Require Import Prelude GoStd Json Values Recording HostState Assembler Manifest Provider WasmMemory.

Module Replay.
Import GoStd Json Values Recording HostState Manifest Provider.

(** ** The module *)
Record CompiledModule : Type := mkCompiled {
  ImportedFunctions : list FunctionDefinition;
  ExportedFunctions : gmap (list Z) FunctionDefinition;
  ImportedMemories : list (gostring * gostring) }.

(** The host-supplied memories and globals, by module and name. *)
Record provided_global : Type := mkProvidedGlobal { pg_mutable : bool; pg_value : Z }.
Record provider : Type := mkProvider {
  pr_memories : gmap (list Z) WasmMemory.MemoryInstance; pr_globals : gmap (list Z) provided_global }.
Notation providers := (gmap (list Z) provider).

(** The recording, as [LoadRecording] returns it. *)
Notation recording := Assembler.Recording.
Notation mkRecording := Assembler.Build_Recording.
Notation Crossings := Assembler.RCrossings.
Notation RHostState := Assembler.RHostState.
Notation MarkersIdentifyImports := Assembler.MarkersIdentifyImports.

(** ** Errors *)
Inductive divergence : Type :=
| DivImportCall
| DivCrossingKind
| DivImportIndex
| DivImportArgument (i : nat)
| DivImportResult
| DivCrossingOrder
| DivExportArity
| DivExportResults
| DivReturnArity
| DivReturnValue (i : nat)
| DivCrossingCount.

Inductive replay_err : Type :=
| Diverged (d : divergence) (seq : Z)
| ErrNoRecording
| ErrInstrumentedModule
| ErrImportType (i : Z) (e : val_err)
| ErrManifest (e : man_err)
| ErrManifestSignature (i : Z)
| ErrManifestName (i : Z)
| ErrExportUnnamed (seq : Z)
| ErrExportMissing (name : gostring)
| ErrExportType (name : gostring) (e : val_err)
| ErrExportSignature (name : gostring)
| ErrNestedExports (n : Z)
| ErrMemoryUndescribed (m n : gostring)
| ErrHostModules (e : prov_err)
| ErrInstantiate
| ErrHostDecode (e : hs_err)
| ErrNoProvider (m : gostring)
| ErrNoProvidedMemory (m n : gostring)
| ErrNoProvidedGlobal (m n : gostring)
| ErrGlobalImmutable (m n : gostring)
| ErrWriteOutOfRange (m n : gostring)
| ErrNoPoint (from n : Z)
| ErrRange (from to n : Z)
| ErrNoResume (from : Z)
| ErrResume (from : Z)
| ErrQuiescentHook (point : Z)
| ErrTuple (seq : Z) (e : val_err)
| ErrTrapped (seq : Z)
| ErrMixedMarkers (seq : Z)
(* stream_replay.go *)
| ErrStreamed (n : Z)
| ErrStreamRange
| ErrEmptyGroup
| ErrGroupOrder (seq at_ : Z)
| ErrTwoTopLevel
| ErrNoTopLevel (n : Z)
| ErrTopLevelNotFirst (i : Z)
| ErrCarriers (e : hs_err)
| ErrStream
| ErrUnclassified (e : replay_err)
| RangePanic.

(** ** The runtime *)
Inductive activation (G : Type) : Type :=
| Returns (results : list Z) (ps : providers) (g : G)
| Traps
| Calls (import : nat) (args : list Z) (ps : providers) (k : list Z -> providers -> activation G).
#[global] Arguments Returns {G}.
#[global] Arguments Traps {G}.
#[global] Arguments Calls {G}.

(** What the driver asks of the runtime: to register a host module of stubs, to
    instantiate a synthesised provider from its binary, to instantiate the
    guest against the providers (its start function may call imports), and to
    call an exported function. *)
Class Runtime (G : Type) : Type := {
  BuildStubs : gostring -> list importPlan -> bool;
  InstantiateWithConfig : gostring -> list Z -> option provider;
  InstantiateModuleWithRecord : providers -> activation G;
  Call : gostring -> list Z -> providers -> G -> activation G }.

(** ** Signatures *)
Definition scalar_types (vts : list Z) : result val_err (list ScalarType) := mapm ScalarTypeOf vts.

Definition signatureOf (def : FunctionDefinition) : result val_err Signature :=
  let! ps := scalar_types (f_params def) in
  let! rs := scalar_types (f_results def) in
  Ok {| Params := ps; Results := rs |}.

Definition hookModuleName : gostring := $"__codetracer".

(** One iteration of the loop of [planImports]. *)
Definition plan_import (m : option Manifest.Manifest) (i : Z) (def : FunctionDefinition)
    : result replay_err importPlan :=
  reject bool_decide (f_module def = hookModuleName) as ErrInstrumentedModule ;;
  let! sig := map_err (ErrImportType i) (signatureOf def) in
  let plan := mkImportPlan i (f_module def) (f_name def) sig (f_params def) (f_results def) in
  match Boundary m FuncKindImport i with
  | None => Ok plan
  | Some b =>
      let! msig := map_err ErrManifest (Boundary_Signature b) in
      reject negb (Signature_Equal msig sig) as ErrManifestSignature i ;;
      reject negb (bool_decide (BName b = [])) && negb (bool_decide (BName b = f_name def)) as ErrManifestName i ;;
      Ok plan
  end.

Fixpoint plan_imports (m : option Manifest.Manifest) (i : Z) (defs : list FunctionDefinition)
    : result replay_err (list importPlan) :=
  match defs with
  | [] => Ok []
  | d :: defs =>
      let! p := plan_import m i d in
      let! ps := plan_imports m (i + 1) defs in
      Ok (p :: ps)
  end.

(** ** Checks before anything runs *)
Definition checkExportCrossing (compiled : CompiledModule) (m : option Manifest.Manifest) (c : Crossing)
    : result replay_err unit :=
  reject bool_decide (CName c = []) as ErrExportUnnamed (Seq c) ;;
  match ExportedFunctions compiled !! CName c with
  | None => Err (ErrExportMissing (CName c))
  | Some def =>
      let! sig := map_err (ErrExportType (CName c)) (signatureOf def) in
      let! _ :=
        match ExportBoundaryByName m (CName c) with
        | None => Ok tt
        | Some b =>
            let! msig := map_err ErrManifest (Boundary_Signature b) in
            reject negb (Signature_Equal msig sig) as ErrExportSignature (CName c) ;; Ok tt
        end in
      reject negb (len (Args c) =? len (Params sig)) as Diverged DivExportArity (Seq c) ;;
      reject (0 <? len (Results sig)) && negb (hasResults c) as Diverged DivExportResults (Seq c) ;;
      Ok tt
  end.

Definition checkExports (compiled : CompiledModule) (m : option Manifest.Manifest) (cs : list Crossing)
    : result replay_err unit :=
  each (checkExportCrossing compiled m) (TopLevelExports cs).

Definition refuseNestedExports (nested : list Crossing) : result replay_err unit :=
  reject negb (len nested =? 0) as ErrNestedExports (len nested) ;; Ok tt.

(** [undescribedImportedMemory]: the first imported memory without a record. *)
Definition describes (state : option HostState) (mn : gostring * gostring) : bool :=
  match state with
  | None => false
  | Some s => existsb (fun h => bool_decide (MModule h = mn.1) && bool_decide (MName h = mn.2))
                (elems (Memories (Initial s)))
  end.
Definition undescribedImportedMemory (compiled : CompiledModule) (state : option HostState)
    : option (gostring * gostring) :=
  List.find (fun mn => negb (describes state mn)) (ImportedMemories compiled).

Definition checkImportedMemories (compiled : CompiledModule) (state : option HostState) : result replay_err unit :=
  match undescribedImportedMemory compiled state with
  | Some (m, n) => Err (ErrMemoryUndescribed m n)
  | None => Ok tt
  end.

(** ** The replayer *)
Record Result : Type := mkResult {
  ExportCalls : Z; ImportCalls : Z; UncheckedImportCalls : Z; FromPoint : Z; ToPoint : Z }.
Definition no_calls : Result := mkResult 0 0 0 0 0.

Record replayer : Type := mkReplayer {
  r_rec : recording; r_cursor : Z; r_err : option replay_err; r_result : Result;
  r_defer : bool; r_deferred : option replay_err }.

Definition new_replayer (rec : recording) (defer : bool) : replayer :=
  mkReplayer rec 0 None no_calls defer None.

(** Assignments to parts of the replayer. *)
Definition set_err (r : replayer) (e : replay_err) : replayer :=
  mkReplayer (r_rec r) (r_cursor r) (Some e) (r_result r) (r_defer r) (r_deferred r).
Definition set_cursor (r : replayer) (n : Z) : replayer :=
  mkReplayer (r_rec r) n (r_err r) (r_result r) (r_defer r) (r_deferred r).
Definition set_rec (r : replayer) (rec : recording) : replayer :=
  mkReplayer rec (r_cursor r) (r_err r) (r_result r) (r_defer r) (r_deferred r).
Definition set_deferred (r : replayer) (e : replay_err) : replayer :=
  mkReplayer (r_rec r) (r_cursor r) (r_err r) (r_result r) (r_defer r) (Some e).
Definition set_result (r : replayer) (res : Result) : replayer :=
  mkReplayer (r_rec r) (r_cursor r) (r_err r) res (r_defer r) (r_deferred r).

Definition add_export (res : Result) : Result :=
  mkResult (ExportCalls res + 1) (ImportCalls res) (UncheckedImportCalls res) (FromPoint res) (ToPoint res).
Definition add_import (res : Result) : Result :=
  mkResult (ExportCalls res) (ImportCalls res + 1) (UncheckedImportCalls res) (FromPoint res) (ToPoint res).
Definition add_unchecked (res : Result) : Result :=
  mkResult (ExportCalls res) (ImportCalls res) (UncheckedImportCalls res + 1) (FromPoint res) (ToPoint res).
Definition with_range (res : Result) (from to : Z) : Result :=
  mkResult (ExportCalls res) (ImportCalls res) (UncheckedImportCalls res) from to.

Section replay.
Variable ParseFloat : gostring -> option Z.

(** ** Host mutations *)
Definition importedMemory (ps : providers) (m n : gostring) : result replay_err (provider * WasmMemory.MemoryInstance) :=
  match ps !! m with
  | None => Err (ErrNoProvider m)
  | Some p =>
      match pr_memories p !! n with
      | None => Err (ErrNoProvidedMemory m n)
      | Some mem => Ok (p, mem)
      end
  end.

Definition write_memory (ps : providers) (m n : gostring) (offset : Z) (bytes : list Z) : result replay_err providers :=
  let! (p, mem) := importedMemory ps m n in
  match WasmMemory.Write mem offset bytes with
  | None => Err (ErrWriteOutOfRange m n)
  | Some mem => Ok (<[m := mkProvider (<[n := mem]> (pr_memories p)) (pr_globals p)]> ps)
  end.

Definition apply_write (ps : providers) (w : MemoryWrite) : result replay_err providers :=
  let! _ := importedMemory ps (WModule w) (WName w) in
  let! bytes := map_err ErrHostDecode (MemoryWrite_decode w) in
  write_memory ps (WModule w) (WName w) (WOffset w) bytes.

Definition apply_set (ps : providers) (s : GlobalSet) : result replay_err providers :=
  match ps !! SModule s with
  | None => Err (ErrNoProvider (SModule s))
  | Some p =>
      match pr_globals p !! SName s with
      | None => Err (ErrNoProvidedGlobal (SModule s) (SName s))
      | Some g =>
          reject negb (pg_mutable g) as ErrGlobalImmutable (SModule s) (SName s) ;;
          let! v := map_err ErrHostDecode (GlobalSet_decode ParseFloat s) in
          Ok (<[SModule s := mkProvider (pr_memories p) (<[SName s := mkProvidedGlobal true (Bits v)]> (pr_globals p))]> ps)
      end
  end.

(** A mutation's writes, then its global assignments; an error leaves what was
    applied before it. *)
Definition mutation_ops (mu : HostMutation) : list (MemoryWrite + GlobalSet) :=
  (inl <$> elems (MemoryWrites mu)) ++ (inr <$> elems (GlobalSets mu)).
Definition apply_op (ps : providers) (op : MemoryWrite + GlobalSet) : result replay_err providers :=
  match op with inl w => apply_write ps w | inr s => apply_set ps s end.
Fixpoint apply_ops (ps : providers) (ops : list (MemoryWrite + GlobalSet)) : option replay_err * providers :=
  match ops with
  | [] => (None, ps)
  | op :: ops =>
      match apply_op ps op with
      | Err e => (Some e, ps)
      | Ok ps => apply_ops ps ops
      end
  end.

Definition applyMutations (state : option HostState) (seq : Z) (ps : providers) : option replay_err * providers :=
  apply_ops ps (concat (mutation_ops <$> MutationsFor state seq)).

Definition apply_initial (ps : providers) (m : ImportedMemory) : result replay_err providers :=
  let! _ := importedMemory ps (MModule m) (MName m) in
  foldm (fun ps d =>
    let! bytes := map_err ErrHostDecode (MemoryRegion_decode d) in
    write_memory ps (MModule m) (MName m) (ROffset d) bytes) ps (elems (MData m)).

Definition applyInitialMemory (state : option HostState) (ps : providers) : result replay_err providers :=
  match state with
  | None => Ok ps
  | Some s => foldm apply_initial ps (elems (Memories (Initial s)))
  end.

(** ** Servicing an imported call *)

(** The index of the first argument that differs. *)
Fixpoint first_mismatch (want got : list Value) (i : nat) : option nat :=
  match want, got with
  | w :: want, g :: got => if Value_Equal w g then first_mismatch want got (S i) else Some i
  | _, _ => None
  end.

Definition matchImportCrossing (r : replayer) (plan : importPlan) (args : list Z) : result replay_err Crossing :=
  let crossings := Crossings (r_rec r) in
  reject len crossings <=? r_cursor r as Diverged DivImportCall (len crossings) ;;
  reject r_cursor r <? 0 as RangePanic ;;
  match crossings !! Z.to_nat (r_cursor r) with
  | None => Err RangePanic
  | Some c =>
      reject negb (bool_decide (CKind c = CrossingImport)) as Diverged DivCrossingKind (Seq c) ;;
      reject negb (Index c =? ip_index plan) as Diverged DivImportIndex (Seq c) ;;
      let! wantArgs := map_err (ErrTuple (Seq c)) (decodeTuple ParseFloat (Args c) (Params (ip_sig plan))) in
      let gotArgs := zip_with FromWazero (Params (ip_sig plan)) args in
      match first_mismatch wantArgs gotArgs 0 with
      | Some i => Err (Diverged (DivImportArgument i) (Seq c))
      | None => Ok c
      end
  end.

Definition valueless (sig : Signature) : bool := (len (Params sig) =? 0) && (len (Results sig) =? 0).

Definition count_unchecked (r : replayer) : replayer := set_result r (add_unchecked (r_result r)).

Definition serviceUnwitnessedValuelessImport (r : replayer) (plan : importPlan) : replayer :=
  let r :=
    match r_deferred r with
    | None =>
        if r_defer r then
          match matchImportCrossing r plan [] with
          | Err e => set_deferred r e
          | Ok c => set_deferred r (ErrMixedMarkers (Seq c))
          end
        else r
    | Some _ => r
    end in
  count_unchecked r.

(** [zeroStack]: the result slots of a short-circuited stub. *)
Definition zeroStack (results : nat) : list Z := replicate results 0.

(** The stub: the replayer, the results it leaves on the stack and the
    providers after it. *)
Definition serviceImport (r : replayer) (plan : importPlan) (args : list Z) (ps : providers)
    : replayer * list Z * providers :=
  let zero := zeroStack (length (ip_resultTyps plan)) in
  match r_err r with
  | Some _ => (r, zero, ps)
  | None =>
      if valueless (ip_sig plan) && negb (MarkersIdentifyImports (r_rec r))
      then (serviceUnwitnessedValuelessImport r plan, [], ps)
      else
        match matchImportCrossing r plan args with
        | Err e => (set_err r e, zero, ps)
        | Ok c =>
            match applyMutations (RHostState (r_rec r)) (Seq c) ps with
            | (Some e, ps) => (set_err r e, zero, ps)
            | (None, ps) =>
                if (0 <? len (Results (ip_sig plan))) && negb (hasResults c)
                then (set_err r (Diverged DivImportResult (Seq c)), zero, ps)
                else
                  match decodeTuple ParseFloat (CResults c) (Results (ip_sig plan)) with
                  | Err e => (set_err r (ErrTuple (Seq c) e), zero, ps)
                  | Ok results =>
                      (set_result (set_cursor r (r_cursor r + 1)) (add_import (r_result r)), Bits <$> results, ps)
                  end
            end
        end
  end.

(** ** Running the guest *)
Context {G : Type} `{!Runtime G}.

(** Run an activation against the stubs.  [None] is a trap.  A validated module
    calls only the imports it declares, each with as many arguments as its type
    has parameters; anything else is a trap here. *)
Fixpoint perform (plans : list importPlan) (r : replayer) (a : activation G)
    : replayer * option (list Z * providers * G) :=
  match a with
  | Returns results ps g => (r, Some (results, ps, g))
  | Traps => (r, None)
  | Calls i args ps k =>
      match plans !! i with
      | None => (r, None)
      | Some plan =>
          if (length args =? length (Params (ip_sig plan)))%nat then
            let '(r, results, ps) := serviceImport r plan args ps in
            perform plans r (k results ps)
          else (r, None)
      end
  end.

(** ** Satisfying the guest's imports *)
Section prepare.
Variable compiled : CompiledModule.
Variable manifest : option Manifest.

Definition planImports : result replay_err (list importPlan) :=
  plan_imports manifest 0 (ImportedFunctions compiled).

(** One iteration of the loop over the module names. *)
Definition instantiate_module (sp : specs) (ps : providers) (name : gostring) : result prov_err providers :=
  let s := get sp name in
  let needsProvider := (0 <? len (ps_memories s)) || (0 <? len (ps_globals s)) in
  let stubModule := if needsProvider && (0 <? len (ps_funcs s)) then stubModulePrefix ++ name else name in
  let s := if needsProvider && (0 <? len (ps_funcs s))
           then mkSpec (ps_module s) (ps_memories s) (ps_globals s) (ps_funcs s) stubModule else s in
  reject (0 <? len (ps_funcs s)) && negb (BuildStubs stubModule (ps_funcs s)) as ErrStubs name ;;
  if negb needsProvider then Ok ps
  else
    let! memories := mapm grow_memory (ps_memories s) in
    let s := mkSpec (ps_module s) memories (ps_globals s) (ps_funcs s) (ps_stubModule s) in
    let! binary := encode ParseFloat s in
    match InstantiateWithConfig name binary with
    | None => Err (ErrProvider name)
    | Some p => Ok (<[name := p]> ps)
    end.

Definition instantiateHostModules (plans : list importPlan) (hs : option HostState) : result replay_err providers :=
  map_err ErrHostModules (
    let! sp := foldm attach_import (providerModules hs) plans in
    foldm (instantiate_module sp) ∅ (spec_names sp)).

(** [prepare], after [planImports]. *)
Definition prepare (plans : list importPlan) (r : replayer) : result replay_err (replayer * providers * G) :=
  let hs := RHostState (r_rec r) in
  let! _ := checkImportedMemories compiled hs in
  let! ps := instantiateHostModules plans hs in
  match perform plans r (InstantiateModuleWithRecord ps) with
  | (_, None) => Err ErrInstantiate
  | (r, Some (_, ps, g)) =>
      let! ps := applyInitialMemory hs ps in
      Ok (r, ps, g)
  end.

(** ** Driving the exported calls *)
Fixpoint check_returns (want : list Value) (types : list ScalarType) (got : list Z) (i : nat) : option nat :=
  match want, types, got with
  | w :: want, t :: types, g :: got =>
      if Value_Equal w (FromWazero t g) then check_returns want types got (S i) else Some i
  | _, _, _ => None
  end.

Definition callExport (plans : list importPlan) (r : replayer) (ps : providers) (g : G) (c : Crossing)
    : result replay_err (replayer * providers * G) :=
  reject (len (Crossings (r_rec r)) <=? r_cursor r) || negb (r_cursor r =? Seq c)
    as Diverged DivCrossingOrder (Seq c) ;;
  match ExportedFunctions compiled !! CName c with
  | None => Err (ErrExportMissing (CName c))
  | Some def =>
      let! sig := map_err (ErrExportType (CName c)) (signatureOf def) in
      let! args := map_err (ErrTuple (Seq c)) (decodeTuple ParseFloat (Args c) (Params sig)) in
      let r := set_result (set_cursor r (r_cursor r + 1)) (add_export (r_result r)) in
      let '(r, got) := perform plans r (Call (CName c) (Bits <$> args) ps g) in
      match r_err r with
      | Some e => Err e
      | None =>
          match got with
          | None => Err (ErrTrapped (Seq c))
          | Some (got, ps, g) =>
              let! want := map_err (ErrTuple (Seq c)) (decodeTuple ParseFloat (CResults c) (Results sig)) in
              reject negb (len got =? len want) as Diverged DivReturnArity (Seq c) ;;
              match check_returns want (Results sig) got 0 with
              | Some i => Err (Diverged (DivReturnValue i) (Seq c))
              | None => Ok (r, ps, g)
              end
          end
      end
  end.

(** The caller's hook at a quiescent point, with the state it keeps. *)
Context {H : Type}.
Definition hook : Type := Z -> providers -> G -> H -> option H.

Definition atQuiescentPoint (f : option hook) (point : Z) (ps : providers) (g : G) (h : H) : result replay_err H :=
  match f with
  | None => Ok h
  | Some f => match f point ps g h with None => Err (ErrQuiescentHook point) | Some h => Ok h end
  end.

(** The loop over the top-level exports of a range, point [i] on. *)
Fixpoint drive (plans : list importPlan) (f : option hook) (i : Z) (exports : list Crossing)
    (r : replayer) (ps : providers) (g : G) (h : H) : result replay_err (replayer * providers * G * H) :=
  match exports with
  | [] => Ok (r, ps, g, h)
  | c :: exports =>
      let! (r, ps, g) := callExport plans r ps g c in
      let! h := atQuiescentPoint f (i + 1) ps g h in
      drive plans f (i + 1) exports r ps g h
  end.

Record Options : Type := mkOptions {
  o_recording : option recording;
  o_hook : option hook;
  o_from : Z;
  o_to : Z;
  o_resume : option (providers -> G -> option (providers * G)) }.

Definition resolveRange (o : Options) (nExports : Z) : result replay_err (Z * Z) :=
  let from := o_from o in
  let to := if o_to o =? 0 then nExports else o_to o in
  reject (from <? 0) || (nExports <? from) as ErrNoPoint from nExports ;;
  reject (to <? from) || (nExports <? to) as ErrRange from to nExports ;;
  reject (0 <? from) && (match o_resume o with None => true | Some _ => false end) as ErrNoResume from ;;
  Ok (from, to).

(** Seeding the cursor and restoring the state of the point resumed at. *)
Definition seek (o : Options) (rec : recording) (exports : list Crossing) (from : Z)
    (r : replayer) (ps : providers) (g : G) : result replay_err (replayer * providers * G) :=
  if 0 <? from then
    let cursor := match exports !! Z.to_nat from with Some c => Seq c | None => len (Crossings rec) end in
    match o_resume o with
    | None => Err (ErrNoResume from)
    | Some resume =>
        match resume ps g with
        | None => Err (ErrResume from)
        | Some (ps, g) => Ok (set_cursor r cursor, ps, g)
        end
    end
  else Ok (r, ps, g).

Definition Replay (o : Options) (h : H) : result replay_err (Result * providers * G * H) :=
  match o_recording o with
  | None => Err ErrNoRecording
  | Some rec =>
      let! plans := planImports in
      let! _ := checkExports compiled manifest (Crossings rec) in
      let! _ := refuseNestedExports (NestedExports (Crossings rec)) in
      let! (r, ps, g) := prepare plans (new_replayer rec false) in
      let exports := TopLevelExports (Crossings rec) in
      let! (from, to) := resolveRange o (len exports) in
      let! (r, ps, g) := seek o rec exports from r ps g in
      let! h := atQuiescentPoint (o_hook o) from ps g h in
      let range := take (Z.to_nat (to - from)) (drop (Z.to_nat from) exports) in
      let! (r, ps, g, h) := drive plans (o_hook o) from range r ps g h in
      let res := with_range (r_result r) from to in
      if negb (to =? len exports) || negb (from =? 0) then Ok (res, ps, g, h)
      else
        reject negb (r_cursor r =? len (Crossings rec)) as Diverged DivCrossingCount (r_cursor r) ;;
        Ok (res, ps, g, h)
  end.

End prepare.
End replay.
End Replay.
