(* ===== verification/ReplaySpec.v ===== *)
(** * What an accepted replay means

    A recording is a {e session} of a module when the module, started from its
    instantiation and called as recorded, makes exactly the recorded host calls
    in the recorded order, with the recorded arguments, given the recorded
    results and mutations, and returns the recorded values.  [run] and
    [session] say so without a cursor, an error slot or counters.

    [replay_accepts_iff] shows that [Replay] accepts a recording exactly when it
    is a session, and reports its calls; [seek_equivalent] that resuming at a
    quiescent point with the state captured there ends in the state of the full
    replay. *)
From S2P Require Import Prelude GoStd Json Values Recording HostState Assembler Manifest Provider WasmMemory Replay.

Module ReplaySpec.
Import GoStd Json Values Recording HostState Manifest Provider Replay.

Section spec.
Variable ParseFloat : gostring -> option Z.
Context {G : Type} `{!Runtime G}.
Variable compiled : CompiledModule.
Variable manifest : option Manifest.

Notation decodes raws types vs := (decodeTuple ParseFloat raws types = Ok vs).

(** ** Sessions *)

(** The host served the call of [plan] as [c] records it. *)
Record served (plan : importPlan) (args : list Z) (c : Crossing) (results : list Z) : Prop := {
  served_kind : CKind c = CrossingImport;
  served_index : Index c = ip_index plan;
  served_arity : length args = length (Params (ip_sig plan));
  served_args : decodes (Args c) (Params (ip_sig plan)) (zip_with FromWazero (Params (ip_sig plan)) args);
  served_has : Results (ip_sig plan) = [] \/ hasResults c = true;
  served_results : exists vs, decodes (CResults c) (Results (ip_sig plan)) vs /\ results = Bits <$> vs }.

(** The host calls an activation makes, in order; calls of [() -> ()] imports
    leave no crossing when the recording does not identify them. *)
Inductive run (plans : list importPlan) (rec : recording)
    : activation G -> list Crossing -> Z -> list Z -> providers -> G -> Prop :=
| run_returns rs ps g : run plans rec (Returns rs ps g) [] 0 rs ps g
| run_unchecked i plan ps k cs n rs ps' g' :
    plans !! i = Some plan -> valueless (ip_sig plan) = true -> MarkersIdentifyImports rec = false ->
    run plans rec (k [] ps) cs n rs ps' g' ->
    run plans rec (Calls i [] ps k) cs (n + 1) rs ps' g'
| run_served i plan args ps k c results ps1 cs n rs ps' g' :
    plans !! i = Some plan -> valueless (ip_sig plan) && negb (MarkersIdentifyImports rec) = false ->
    served plan args c results ->
    applyMutations ParseFloat (RHostState rec) (Seq c) ps = (None, ps1) ->
    run plans rec (k results ps1) cs n rs ps' g' ->
    run plans rec (Calls i args ps k) (c :: cs) n rs ps' g'.

(** The export call [c] records, with the host calls inside it. *)
Inductive call (plans : list importPlan) (rec : recording) (c : Crossing)
    : providers -> G -> list Crossing -> Z -> providers -> G -> Prop :=
| call_intro def sig args ps g inner n got ps' g' :
    ExportedFunctions compiled !! CName c = Some def -> signatureOf def = Ok sig ->
    decodes (Args c) (Params sig) args ->
    run plans rec (Call (CName c) (Bits <$> args) ps g) inner n got ps' g' ->
    length got = length (Results sig) ->
    decodes (CResults c) (Results sig) (zip_with FromWazero (Results sig) got) ->
    call plans rec c ps g inner n ps' g'.

Inductive session (plans : list importPlan) (rec : recording)
    : providers -> G -> list Crossing -> list Crossing -> Z -> providers -> G -> Prop :=
| session_nil ps g : session plans rec ps g [] [] 0 ps g
| session_call c exports inner cs n m ps g ps1 g1 ps' g' :
    call plans rec c ps g inner n ps1 g1 ->
    session plans rec ps1 g1 exports cs m ps' g' ->
    session plans rec ps g (c :: exports) (c :: inner ++ cs) (n + m) ps' g'.

Definition numbered (cs : list Crossing) : Prop := forall i c, cs !! i = Some c -> Seq c = Z.of_nat i.

(** The replayer after [k] export calls, the crossings [cs] and [n] unchecked calls. *)
Definition advance (r : replayer) (k : Z) (cs : list Crossing) (n : Z) : replayer :=
  mkReplayer (r_rec r) (r_cursor r + len cs) (r_err r)
    (mkResult (ExportCalls (r_result r) + k) (ImportCalls (r_result r) + (len cs - k))
       (UncheckedImportCalls (r_result r) + n) (FromPoint (r_result r)) (ToPoint (r_result r)))
    (r_defer r) (r_deferred r).

(** The crossings from the cursor on. *)
Definition ahead (r : replayer) : list Crossing := drop (Z.to_nat (r_cursor r)) (Crossings (r_rec r)).

Lemma advance_nil r : advance r 0 [] 0 = r.
Proof.
  destruct r as [? ? ? [? ? ? ? ?] ? ?]. unfold advance. cbn. by rewrite !Z.add_0_r.
Qed.

Lemma advance_advance r k cs n k' cs' n' :
  advance (advance r k cs n) k' cs' n' = advance r (k + k') (cs ++ cs') (n + n').
Proof. unfold advance. cbn. rewrite len_app. f_equal; [lia|]. f_equal; lia. Qed.

Lemma ahead_advance r k cs n rest :
  0 <= r_cursor r -> ahead r = cs ++ rest -> ahead (advance r k cs n) = rest.
Proof.
  intros Hc H. unfold ahead, advance in *. cbn. pose proof (len_nonneg cs).
  replace (Z.to_nat (r_cursor r + len cs)) with (Z.to_nat (r_cursor r) + length cs)%nat by (unfold len in *; lia).
  rewrite <-drop_drop, H. by rewrite drop_app_length.
Qed.

(** ** Values *)
Lemma Value_Equal_eq v w : Value_Equal v w = true <-> v = w.
Proof.
  unfold Value_Equal. destruct v, w; cbn. rewrite andb_true_iff, bool_decide_eq_true, Z.eqb_eq.
  split; [intros [-> ->]|intros [= -> ->]]; done.
Qed.

Lemma first_mismatch_eq want got i :
  length want = length got -> first_mismatch want got i = None <-> want = got.
Proof.
  revert got i. induction want as [|w want IH]; intros [|g got] i; try done. cbn [length first_mismatch].
  intros [= Hl]. destruct (Value_Equal w g) eqn:E.
  - apply Value_Equal_eq in E as ->. rewrite (IH got) by done. split; [intros ->|intros [= ->]]; done.
  - split; [done|]. intros [= -> ->]. by rewrite (proj2 (Value_Equal_eq g g)) in E.
Qed.

Lemma check_returns_eq want types got i :
  length want = length types -> length got = length types ->
  check_returns want types got i = None <-> want = zip_with FromWazero types got.
Proof.
  revert types got i. induction want as [|w want IH]; intros [|t types] [|g got] i; try done.
  cbn [length check_returns zip_with]. intros [= Hl] [= Hg]. destruct (Value_Equal w _) eqn:E.
  - apply Value_Equal_eq in E as ->. rewrite (IH types got) by done. split; [intros ->|intros [= ->]]; done.
  - split; [done|]. intros [= -> _]. by rewrite (proj2 (Value_Equal_eq _ _)) in E.
Qed.

Lemma decodeTuple_length raws types vs : decodes raws types vs -> length vs = length types.
Proof.
  unfold decodeTuple. destruct (Z.eqb_spec (len raws) (len types)) as [E|]; cbn [negb]; [|done].
  unfold len in E. intros H. apply decodeTuple_loop_decode in H; [|lia].
  apply Forall2_length in H. rewrite length_zip in H. lia.
Qed.

(** ** One activation *)
Lemma perform_err plans r (a : activation G) e : r_err r = Some e -> r_err (perform ParseFloat plans r a).1 = Some e.
Proof.
  revert r. induction a as [rs ps g| |i args ps k IH]; intros r Hr; cbn [perform]; [done|done|].
  destruct (plans !! i) as [plan|]; [|done]. destruct (_ =? _)%nat; [|done].
  unfold serviceImport. rewrite Hr. cbv zeta. by apply IH.
Qed.

Lemma ahead_lookup r : 0 <= r_cursor r ->
  (len (Crossings (r_rec r)) <=? r_cursor r) = bool_decide (ahead r = []) /\
  Crossings (r_rec r) !! Z.to_nat (r_cursor r) = head (ahead r).
Proof.
  intros Hc. unfold ahead. rewrite head_lookup, lookup_drop, Nat.add_0_r. split; [|done].
  apply eq_iff_eq_true. rewrite bool_decide_eq_true, Z.leb_le.
  rewrite <-length_zero_iff_nil, length_drop. unfold len. lia.
Qed.

(** [matchImportCrossing] looks at the crossing ahead. *)
Lemma matchImportCrossing_ok r plan args c :
  0 <= r_cursor r -> length args = length (Params (ip_sig plan)) ->
  matchImportCrossing ParseFloat r plan args = Ok c <->
  exists rest, ahead r = c :: rest /\ CKind c = CrossingImport /\ Index c = ip_index plan /\
    decodes (Args c) (Params (ip_sig plan)) (zip_with FromWazero (Params (ip_sig plan)) args).
Proof.
  intros Hc Hargs. destruct (ahead_lookup r Hc) as [Hlen Hat]. unfold matchImportCrossing.
  cbv zeta. rewrite Hlen, Hat. destruct (Z.ltb_spec (r_cursor r) 0); [lia|].
  destruct (ahead r) as [|c' rest]; cbn [head].
  { rewrite bool_decide_eq_true_2 by done. split; [done|]. by intros (? & ? & _). }
  rewrite bool_decide_eq_false_2 by done. cbv iota.
  destruct (decide (CKind c' = CrossingImport)) as [Hk|Hk];
    [rewrite bool_decide_eq_true_2 by done|rewrite bool_decide_eq_false_2 by done]; cbn [negb].
  2:{ split; [by intros [=]|]. intros (? & [= -> ->] & ? & _). congruence. }
  destruct (Z.eqb_spec (Index c') (ip_index plan)) as [Hi|Hi]; cbn [negb].
  2:{ split; [done|]. intros (? & [= -> ->] & _ & ? & _). congruence. }
  destruct (decodeTuple _ _ _) as [want|e] eqn:Ed; cbn [map_err].
  2:{ split; [done|]. intros (? & [= -> ->] & _ & _ & ?). congruence. }
  pose proof (decodeTuple_length _ _ _ Ed) as Hw.
  destruct (first_mismatch _ _ _) as [j|] eqn:Em.
  - split; [done|]. intros (? & [= -> ->] & _ & _ & Ed'). rewrite Ed in Ed'. injection Ed' as ->.
    rewrite (proj2 (first_mismatch_eq _ _ 0 eq_refl)) in Em; done.
  - apply first_mismatch_eq in Em; [|rewrite length_zip_with; lia]. subst want.
    split; [intros [= <-]; eauto 6|by intros (? & [= -> ->] & _)].
Qed.

(** A stub that leaves no error has served the crossing ahead. *)
Lemma serviceImport_served r plan args ps r' results ps' :
  0 <= r_cursor r -> r_err r = None -> length args = length (Params (ip_sig plan)) ->
  valueless (ip_sig plan) && negb (MarkersIdentifyImports (r_rec r)) = false ->
  (serviceImport ParseFloat r plan args ps = (r', results, ps') /\ r_err r' = None) <->
  exists c rest, ahead r = c :: rest /\ served plan args c results /\
    applyMutations ParseFloat (RHostState (r_rec r)) (Seq c) ps = (None, ps') /\ r' = advance r 0 [c] 0.
Proof.
  intros Hc He Hargs Hv. unfold serviceImport. cbv zeta. rewrite He, Hv.
  destruct (matchImportCrossing ParseFloat r plan args) as [c|e] eqn:Em.
  2:{ split; [intros [[= <- _ _] ?]; done|]. intros (c & rest & Ha & [] & _).
      assert (Err e = Ok c) as ?; [rewrite <-Em; apply matchImportCrossing_ok; eauto 6|done]. }
  apply matchImportCrossing_ok in Em as (rest & Ha & Hk & Hi & Hd); [|done..].
  destruct (applyMutations _ _ _ _) as [[e|] ps1] eqn:Ea.
  { split; [intros [[= <- _ _] ?]; done|]. intros (? & ? & Ha' & _ & Ha2 & _).
    rewrite Ha in Ha'. injection Ha' as <- <-. congruence. }
  destruct ((0 <? _) && _) eqn:Eh.
  { split; [intros [[= <- _ _] ?]; done|]. intros (? & ? & Ha' & [_ _ _ _ Hh _] & _).
    rewrite Ha in Ha'. injection Ha' as <- <-. apply andb_true_iff in Eh as [H1 H2].
    destruct Hh as [Hh|Hh]; [by rewrite Hh in H1|by rewrite Hh in H2]. }
  destruct (decodeTuple ParseFloat (CResults c) _) as [vs|e] eqn:Er.
  2:{ split; [intros [[= <- _ _] ?]; done|]. intros (? & ? & Ha' & [_ _ _ _ _ (vs & Hvs & _)] & _).
      rewrite Ha in Ha'. injection Ha' as <- <-. congruence. }
  assert (set_result (set_cursor r (r_cursor r + 1)) (add_import (r_result r)) = advance r 0 [c] 0) as ->.
  { unfold advance, set_result, add_import. cbn. rewrite !Z.add_0_r. done. }
  split.
  - intros [[= <- <- <-] _]. exists c, rest. split; [done|]. split; [|by split].
    split; [done..| |by eauto]. destruct (Results _) as [|]; [by left|right]. cbn in Eh.
    by destruct (hasResults c).
  - intros (? & ? & Ha' & [_ _ _ _ _ (vs' & Hvs & ->)] & Ha2 & ->).
    rewrite Ha in Ha'. injection Ha' as <- <-. split; [|done]. congruence.
Qed.

Lemma run_calls_inv plans rec i args ps k cs n rs ps' g' plan :
  plans !! i = Some plan -> run plans rec (Calls i args ps k) cs n rs ps' g' ->
  if valueless (ip_sig plan) && negb (MarkersIdentifyImports rec)
  then args = [] /\ run plans rec (k [] ps) cs (n - 1) rs ps' g'
  else exists c cs' results ps1, cs = c :: cs' /\ served plan args c results /\
    applyMutations ParseFloat (RHostState rec) (Seq c) ps = (None, ps1) /\
    run plans rec (k results ps1) cs' n rs ps' g'.
Proof.
  intros Hp Hr. inversion Hr as [|? plan' ? ? ? n' ? ? ? Hp' Hv Hm Hr'|? plan' ? ? ? c results ps1 cs' ? ? ? ? Hp' Hv Hs Ha Hr'];
    subst; rewrite Hp in Hp'; injection Hp' as <-.
  - rewrite Hv, Hm. cbn. split; [done|]. by replace (n' + 1 - 1) with n' by lia.
  - rewrite Hv. by exists c, cs', results, ps1.
Qed.

(** The two ways a call of an import goes on, given the rest of the activation. *)
Definition performs_run (plans : list importPlan) (a : activation G) : Prop := forall r r' rs ps g,
  0 <= r_cursor r -> r_err r = None -> r_defer r = false ->
  (perform ParseFloat plans r a = (r', Some (rs, ps, g)) /\ r_err r' = None) <->
  exists cs rest n, ahead r = cs ++ rest /\ run plans (r_rec r) a cs n rs ps g /\ r' = advance r 0 cs n.

Lemma import_unchecked_step plans i args ps0 k plan r r' rs ps g :
  performs_run plans (k [] ps0) ->
  plans !! i = Some plan -> length args = length (Params (ip_sig plan)) ->
  valueless (ip_sig plan) && negb (MarkersIdentifyImports (r_rec r)) = true ->
  0 <= r_cursor r -> r_err r = None -> r_defer r = false ->
  ((let '(r, results, ps) := serviceImport ParseFloat r plan args ps0 in
    perform ParseFloat plans r (k results ps)) = (r', Some (rs, ps, g)) /\ r_err r' = None) <->
  exists cs rest n, ahead r = cs ++ rest /\ run plans (r_rec r) (Calls i args ps0 k) cs n rs ps g /\
    r' = advance r 0 cs n.
Proof.
  intros IH Ep Hargs Hv Hc He Hd. unfold serviceImport. rewrite He, Hv. cbv zeta.
  assert (serviceUnwitnessedValuelessImport ParseFloat r plan = advance r 0 [] 1) as ->.
  { unfold serviceUnwitnessedValuelessImport. rewrite Hd.
    replace (match r_deferred r with None => r | Some _ => r end) with r by (by destruct (r_deferred r)).
    unfold advance, count_unchecked, set_result, add_unchecked. cbn. by rewrite !Z.add_0_r. }
  assert (args = []) as ->.
  { unfold valueless, len in Hv. destruct (Params _), args; done. }
  unfold performs_run in IH. rewrite IH by first [done | unfold advance, len; cbn; lia].
  rewrite (ahead_advance r 0 [] 1 (ahead r)) by done. split.
  - intros (cs & rest & n & Ha & Hr & ->). exists cs, rest, (1 + n). split; [done|].
    rewrite advance_advance. split; [|done]. rewrite Z.add_comm.
    apply andb_true_iff in Hv as [Hv Hm]. apply negb_true_iff in Hm. by eapply run_unchecked.
  - intros (cs & rest & n & Ha & Hr & ->). apply (run_calls_inv _ _ _ _ _ _ _ _ _ _ _ plan Ep) in Hr.
    rewrite Hv in Hr. destruct Hr as [_ Hr]. exists cs, rest, (n - 1). split; [done|]. split; [done|].
    rewrite advance_advance. by replace (1 + (n - 1)) with n by lia.
Qed.

Lemma import_served_step plans i args ps0 k plan r r' rs ps g :
  (forall results ps, performs_run plans (k results ps)) ->
  plans !! i = Some plan -> length args = length (Params (ip_sig plan)) ->
  valueless (ip_sig plan) && negb (MarkersIdentifyImports (r_rec r)) = false ->
  0 <= r_cursor r -> r_err r = None -> r_defer r = false ->
  ((let '(r, results, ps) := serviceImport ParseFloat r plan args ps0 in
    perform ParseFloat plans r (k results ps)) = (r', Some (rs, ps, g)) /\ r_err r' = None) <->
  exists cs rest n, ahead r = cs ++ rest /\ run plans (r_rec r) (Calls i args ps0 k) cs n rs ps g /\
    r' = advance r 0 cs n.
Proof.
  intros IH Ep Hargs Hv Hc He Hd.
  pose proof (fun cs n rs ps' g' => run_calls_inv plans (r_rec r) i args ps0 k cs n rs ps' g' plan Ep) as Hinv.
  rewrite Hv in Hinv.
  destruct (serviceImport ParseFloat r plan args ps0) as [[r1 results] ps1] eqn:Es.
  pose proof (serviceImport_served r plan args ps0 r1 results ps1 Hc He Hargs Hv) as Hs1.
  destruct (r_err r1) as [e|] eqn:Er1.
  - split.
    + intros [Hp Hn]. pose proof (perform_err plans r1 (k results ps1) e Er1) as Hx.
      rewrite Hp in Hx. cbn in Hx. congruence.
    + intros (cs & rest & n & Ha & Hr & ->). exfalso.
      apply Hinv in Hr as (c & cs' & results' & ps2 & -> & Hs & Hm & _).
      destruct (proj2 (serviceImport_served r plan args ps0 (advance r 0 [c] 0) results' ps2
        Hc He Hargs Hv)) as [Hx Hy]; [by exists c, (cs' ++ rest)|]. congruence.
  - destruct (proj1 Hs1 (conj Es eq_refl)) as (c & rest & Ha & Hs & Hm & ->).
    unfold performs_run in IH. rewrite IH by first [done | unfold advance, len; cbn; lia].
    rewrite (ahead_advance r 0 [c] 0 rest) by done. split.
    + intros (cs & rest' & n & -> & Hr & ->). exists (c :: cs), rest', n. split; [done|].
      split; [by eapply run_served|]. by rewrite advance_advance.
    + intros (cs & rest' & n & Ha' & Hr & ->).
      apply Hinv in Hr as (c' & cs' & results' & ps2 & -> & Hs' & Hm' & Hr).
      rewrite Ha in Ha'. injection Ha' as <- ->.
      assert (results' = results /\ ps2 = ps1) as [-> ->].
      { destruct Hs as [_ _ _ _ _ (v1 & Hv1 & ->)], Hs' as [_ _ _ _ _ (v2 & Hv2 & ->)].
        split; congruence. }
      exists cs', rest', n. split; [done|]. split; [done|]. by rewrite advance_advance.
Qed.

(** What an activation does when no stub fails is a [run] over the crossings
    ahead. *)
Lemma perform_run plans (a : activation G) : performs_run plans a.
Proof.
  induction a as [rs0 ps0 g0| |i args ps0 k IH]; intros r r' rs ps g Hc He Hd; cbn [perform].
  - split.
    + intros [[= <- <- <- <-] _]. exists [], (ahead r), 0. rewrite advance_nil. eauto using run.
    + intros (cs & rest & n & _ & Hr & ->). inversion Hr; subst. by rewrite advance_nil.
  - split; [by intros [? _]|]. intros (? & ? & ? & _ & Hr & _). inversion Hr.
  - destruct (plans !! i) as [plan|] eqn:Ep.
    2:{ split; [by intros [? _]|]. intros (? & ? & ? & _ & Hr & _). inversion Hr; congruence. }
    destruct (Nat.eqb_spec (length args) (length (Params (ip_sig plan)))) as [Hargs|Hargs].
    2:{ split; [by intros [? _]|]. intros (? & ? & ? & _ & Hr & _). exfalso.
        apply (run_calls_inv _ _ _ _ _ _ _ _ _ _ _ plan Ep) in Hr.
        destruct (_ && _) eqn:Hv in Hr; [|by destruct Hr as (? & ? & ? & ? & _ & [] & _)].
        destruct Hr as [-> _]. unfold valueless, len in Hv. destruct (Params _); done. }
    destruct (valueless (ip_sig plan) && negb (MarkersIdentifyImports (r_rec r))) eqn:Hv.
    + by apply import_unchecked_step.
    + by apply import_served_step.
Qed.

(** ** Export calls *)
Lemma numbered_ahead r c :
  numbered (Crossings (r_rec r)) -> c ∈ Crossings (r_rec r) ->
  (len (Crossings (r_rec r)) <=? r_cursor r) || negb (r_cursor r =? Seq c) = false <->
  0 <= r_cursor r /\ exists rest, ahead r = c :: rest.
Proof.
  intros Hn (i & Hi)%list_elem_of_lookup. pose proof (Hn _ _ Hi) as Hs.
  pose proof (lookup_lt_Some _ _ _ Hi). unfold ahead. split.
  - intros Hb. apply orb_false_iff in Hb as [_ Hb]. apply negb_false_iff, Z.eqb_eq in Hb.
    rewrite Hb, Hs, Nat2Z.id. split; [lia|]. erewrite drop_S; eauto.
  - intros (H0 & rest & Hr).
    assert (Crossings (r_rec r) !! Z.to_nat (r_cursor r) = Some c) as Hc.
    { by rewrite <-(Nat.add_0_r (Z.to_nat _)), <-lookup_drop, Hr. }
    pose proof (Hn _ _ Hc) as Hs'. pose proof (lookup_lt_Some _ _ _ Hc).
    destruct (Z.leb_spec (len (Crossings (r_rec r))) (r_cursor r)) as [Hl|]; [unfold len in Hl; lia|].
    destruct (Z.eqb_spec (r_cursor r) (Seq c)); [done|lia].
Qed.

Lemma set_export_advance r c :
  set_result (set_cursor r (r_cursor r + 1)) (add_export (r_result r)) = advance r 1 [c] 0.
Proof. unfold advance, set_result, add_export. cbn. by rewrite !Z.add_0_r. Qed.

Lemma callExport_call plans r ps g c r' ps' g' :
  0 <= r_cursor r -> r_err r = None -> r_defer r = false ->
  numbered (Crossings (r_rec r)) -> c ∈ Crossings (r_rec r) ->
  callExport ParseFloat compiled plans r ps g c = Ok (r', ps', g') <->
  exists inner rest n, ahead r = c :: inner ++ rest /\ call plans (r_rec r) c ps g inner n ps' g' /\
    r' = advance r 1 (c :: inner) n.
Proof.
  intros Hc He Hd Hn Hin. pose proof (numbered_ahead r c Hn Hin) as Ha. unfold callExport.
  destruct (_ || _) eqn:Eg.
  { split; [done|]. intros (inner & rest & n & Hx & _). by pose proof (proj2 Ha (conj Hc (ex_intro _ _ Hx))). }
  destruct (proj1 Ha eq_refl) as (_ & rest0 & Hr0). clear Ha Eg.
  destruct (ExportedFunctions compiled !! CName c) as [def|] eqn:Ef.
  2:{ split; [done|]. intros (? & ? & ? & _ & Hx & _). inversion Hx; congruence. }
  destruct (signatureOf def) as [sig|] eqn:Es; cbn [map_err].
  2:{ split; [done|]. intros (? & ? & ? & _ & Hx & _). inversion Hx; congruence. }
  destruct (decodeTuple ParseFloat (Args c) (Params sig)) as [args|] eqn:Ed; cbn [map_err].
  2:{ split; [done|]. intros (? & ? & ? & _ & Hx & _). inversion Hx; congruence. }
  rewrite (set_export_advance r c). cbv zeta.
  destruct (perform ParseFloat plans (advance r 1 [c] 0) _) as [r1 got] eqn:Ep.
  pose proof (perform_run plans (Call (CName c) (Bits <$> args) ps g) (advance r 1 [c] 0)) as Hp.
  assert (Ha1 : ahead (advance r 1 [c] 0) = rest0) by (by apply ahead_advance).
  rewrite Ha1 in Hp. split.
  - destruct (r_err r1) eqn:Er1; [done|]. destruct got as [[[got ps1] g1]|]; [|done].
    destruct (proj1 (Hp r1 got ps1 g1 ltac:(unfold advance, len; cbn; lia) He Hd) (conj Ep Er1))
      as (inner & rest & n & -> & Hrun & ->).
    destruct (decodeTuple ParseFloat (CResults c) (Results sig)) as [want|] eqn:Ew; [|done]. cbn [map_err].
    pose proof (decodeTuple_length _ _ _ Ew).
    destruct (Z.eqb_spec (len got) (len want)) as [Hl|]; [|done]. cbn [negb]. unfold len in Hl.
    destruct (check_returns want (Results sig) got 0) as [|] eqn:Ec; [done|]. intros [= <- <- <-].
    apply check_returns_eq in Ec; [|lia..]. subst want. exists inner, rest, n. split; [done|].
    split; [|by rewrite advance_advance]. econstructor; eauto. lia.
  - intros (inner & rest & n & Ha & Hcall & ->). rewrite Hr0 in Ha. injection Ha as ->.
    inversion Hcall as [def' sig' args' ? ? ? ? got' ? ? Ef' Es' Ed' Hrun Hl Hw]; subst.
    rewrite Ef in Ef'. injection Ef' as <-. rewrite Es in Es'. injection Es' as <-.
    rewrite Ed in Ed'. injection Ed' as <-.
    destruct (proj2 (Hp (advance (advance r 1 [c] 0) 0 inner n) got' ps' g'
      ltac:(unfold advance, len; cbn; lia) He Hd)) as [Hx Hy]; [by exists inner, rest, n|].
    rewrite Ep in Hx. injection Hx as -> ->. rewrite Hy, Hw. cbn [map_err].
    unfold len. rewrite length_zip_with, Hl, Nat.min_id, Z.eqb_refl. cbn [negb].
    rewrite (proj2 (check_returns_eq (zip_with FromWazero (Results sig) got') (Results sig) got' 0
      ltac:(rewrite length_zip_with; lia) Hl)) by done.
    by rewrite advance_advance.
Qed.

Lemma advance_ready r k cs n :
  0 <= r_cursor r -> r_err r = None -> r_defer r = false -> numbered (Crossings (r_rec r)) ->
  0 <= r_cursor (advance r k cs n) /\ r_err (advance r k cs n) = None /\
  r_defer (advance r k cs n) = false /\ numbered (Crossings (r_rec (advance r k cs n))).
Proof. intros. pose proof (len_nonneg cs). unfold advance. cbn. split; [lia|done]. Qed.

Lemma drive_session {H} plans i exports r ps g (h : H) r' ps' g' h' :
  0 <= r_cursor r -> r_err r = None -> r_defer r = false ->
  numbered (Crossings (r_rec r)) -> Forall (fun c => c ∈ Crossings (r_rec r)) exports ->
  drive ParseFloat compiled plans None i exports r ps g h = Ok (r', ps', g', h') <->
  h' = h /\ exists cs rest n, ahead r = cs ++ rest /\ session plans (r_rec r) ps g exports cs n ps' g' /\
    r' = advance r (len exports) cs n.
Proof.
  intros Hc He Hd Hn Hf. revert i r ps g Hc He Hd Hn Hf.
  induction exports as [|c exports IH]; intros i r ps g Hc He Hd Hn Hf; cbn [drive].
  - split.
    + intros [= <- <- <- <-]. split; [done|]. exists [], (ahead r), 0. split; [done|].
      split; [constructor|]. by rewrite advance_nil.
    + intros (-> & cs & rest & n & _ & Hs & ->). inversion Hs; subst. by rewrite advance_nil.
  - apply Forall_cons in Hf as [Hin Hf].
    split.
    + destruct (callExport _ _ _ _ _ _ _) as [[[r1 ps1] g1]|] eqn:Ec; [|done]. cbn [atQuiescentPoint].
      apply callExport_call in Ec as (inner & rest & n & Ha & Hcl & ->); [|done..].
      destruct (advance_ready r 1 (c :: inner) n Hc He Hd Hn) as (H1 & H2 & H3 & H4). intros Hdr.
      apply IH in Hdr as (-> & cs & rest' & m & Ha' & Hs & ->); [|done..]. split; [done|].
      rewrite (ahead_advance r 1 (c :: inner) n rest Hc Ha) in Ha'. subst rest.
      exists (c :: inner ++ cs), rest', (n + m). rewrite Ha. split; [cbn; by rewrite <-app_assoc|].
      split; [by econstructor|]. rewrite advance_advance, len_cons. done.
    + intros (-> & cs & rest & n & Ha & Hs & ->).
      inversion Hs as [|? ? inner cs' n' m ? ? ps1 g1 ? ? Hcl Hs']; subst.
      cbn in Ha. rewrite <-app_assoc in Ha.
      rewrite (proj2 (callExport_call plans r ps g c (advance r 1 (c :: inner) n') ps1 g1 Hc He Hd Hn Hin)) by (by exists inner, (cs' ++ rest), n').
      cbn [atQuiescentPoint].
      destruct (advance_ready r 1 (c :: inner) n' Hc He Hd Hn) as (H1 & H2 & H3 & H4).
      apply IH; [done..|]. split; [done|]. exists cs', rest, m.
      rewrite (ahead_advance r 1 (c :: inner) n' (cs' ++ rest) Hc Ha). split; [done|].
      split; [done|]. rewrite advance_advance, len_cons. done.
Qed.

(** ** Whole replays *)

(** The module, prepared as the driver prepares it, re-executes [rec]: its
    instantiation makes the first host calls and the exported calls the rest. *)
Definition re_executed (rec : recording) (n : Z) (ps : providers) (g : G) : Prop :=
  exists plans ps0 rs ps1 g1 ps2 start calls n0 n1,
    planImports compiled manifest = Ok plans /\
    checkExports compiled manifest (Crossings rec) = Ok tt /\
    NestedExports (Crossings rec) = [] /\
    checkImportedMemories compiled (RHostState rec) = Ok tt /\
    instantiateHostModules ParseFloat plans (RHostState rec) = Ok ps0 /\
    run plans rec (InstantiateModuleWithRecord ps0) start n0 rs ps1 g1 /\
    applyInitialMemory (RHostState rec) ps1 = Ok ps2 /\
    Crossings rec = start ++ calls /\
    session plans rec ps2 g1 (TopLevelExports (Crossings rec)) calls n1 ps g /\
    n = n0 + n1.

Lemma callExport_err plans r ps g c e x :
  r_err r = Some e -> callExport ParseFloat compiled plans r ps g c = Ok x -> False.
Proof.
  intros He. unfold callExport. destruct (_ || _); [done|].
  destruct (ExportedFunctions compiled !! CName c) as [def|]; [|done].
  destruct (signatureOf def) as [sig|]; [|done]. cbn [map_err].
  destruct (decodeTuple ParseFloat (Args c) (Params sig)) as [args|]; [|done]. cbn [map_err]. cbv zeta.
  match goal with |- context [perform ParseFloat plans ?r0 ?a] =>
    pose proof (perform_err plans r0 a e He) as H; destruct (perform ParseFloat plans r0 a) as [r1 got] end.
  cbn in H. by rewrite H.
Qed.

Lemma TopLevelExports_in cs : Forall (fun c => c ∈ cs) (TopLevelExports cs).
Proof. apply Forall_forall. intros c Hc. unfold TopLevelExports in Hc. by apply list_elem_of_filter in Hc as [_ ?]. Qed.

Lemma prepare_ok plans rec r ps g :
  (prepare ParseFloat compiled plans (new_replayer rec false) = Ok (r, ps, g) /\ r_err r = None) <->
  exists ps0 rs ps1 start rest n,
    checkImportedMemories compiled (RHostState rec) = Ok tt /\
    instantiateHostModules ParseFloat plans (RHostState rec) = Ok ps0 /\
    Crossings rec = start ++ rest /\ run plans rec (InstantiateModuleWithRecord ps0) start n rs ps1 g /\
    applyInitialMemory (RHostState rec) ps1 = Ok ps /\
    r = advance (new_replayer rec false) 0 start n.
Proof.
  unfold prepare. cbn [r_rec new_replayer].
  pose proof (fun a => perform_run plans a (new_replayer rec false)) as Hp.
  change (ahead (new_replayer rec false)) with (Crossings rec) in Hp. split.
  - intros [H He]. destruct (checkImportedMemories _ _) as [[]|]; [|done].
    destruct (instantiateHostModules _ _ _) as [ps0|]; [|done].
    destruct (perform _ _ _ _) as [r1 [[[rs ps1] g1]|]] eqn:Ep; [|done].
    destruct (applyInitialMemory _ _) as [ps2|] eqn:Ei; [|done]. injection H as -> -> ->.
    destruct (proj1 (Hp _ r rs ps1 g ltac:(done) eq_refl eq_refl) (conj Ep He)) as (cs & rest & n & ? & ? & ->).
    by exists ps0, rs, ps1, cs, rest, n.
  - intros (ps0 & rs & ps1 & start & rest & n & -> & -> & Hc & Hr & Hi & ->).
    destruct (proj2 (Hp (InstantiateModuleWithRecord ps0) (advance (new_replayer rec false) 0 start n) rs ps1 g
      ltac:(done) eq_refl eq_refl)) as [Hx Hy]; [by exists start, rest, n|].
    by rewrite Hx, Hi.
Qed.

Definition whole {H : Type} (rec : recording) : Options := mkOptions (G := G) (H := H) (Some rec) None 0 0 None.

(** Without a range and a hook the driver runs every exported call. *)
Lemma Replay_whole {H} rec (h : H) :
  Replay ParseFloat compiled manifest (whole rec) h =
  let! plans := planImports compiled manifest in
  let! _ := checkExports compiled manifest (Crossings rec) in
  let! _ := refuseNestedExports (NestedExports (Crossings rec)) in
  let! (r, ps, g) := prepare ParseFloat compiled plans (new_replayer rec false) in
  let exports := TopLevelExports (Crossings rec) in
  let! (r, ps, g, h) := drive ParseFloat compiled plans None 0 exports r ps g h in
  reject negb (r_cursor r =? len (Crossings rec)) as Diverged DivCrossingCount (r_cursor r) ;;
  Ok (with_range (r_result r) 0 (len exports), ps, g, h).
Proof.
  unfold Replay, whole, resolveRange, seek. cbn [o_recording o_from o_to o_resume o_hook].
  set (k := len (TopLevelExports (Crossings rec))). assert (0 <= k) by apply len_nonneg.
  cbn [Z.eqb Z.ltb Z.compare orb andb]. destruct (Z.ltb_spec k 0); [lia|].
  cbn [Z.ltb Z.compare orb andb]. destruct (Z.ltb_spec k k); [lia|]. cbn [orb atQuiescentPoint].
  rewrite Z.eqb_refl, Z.sub_0_r. cbn [negb orb]. change (Z.to_nat 0) with O. rewrite drop_0.
  by rewrite take_ge by (unfold k, len; lia).
Qed.

(** ** Ranges *)
Lemma drive_app {H} plans f i xs ys r ps g (h : H) :
  drive ParseFloat compiled plans f i (xs ++ ys) r ps g h =
  let! (r, ps, g, h) := drive ParseFloat compiled plans f i xs r ps g h in
  drive ParseFloat compiled plans f (i + len xs) ys r ps g h.
Proof.
  revert i r ps g h. induction xs as [|c xs IH]; intros i r ps g h; cbn [app drive].
  { by rewrite len_nil, Z.add_0_r. }
  destruct (callExport _ _ _ _ _ _ _) as [[[r1 ps1] g1]|]; [|done].
  destruct (atQuiescentPoint _ _ _ _ _) as [h1|]; [|done]. rewrite IH, len_cons.
  by replace (i + 1 + len xs) with (i + (1 + len xs)) by lia.
Qed.

Lemma drive_err {H} plans f i c exports r ps g (h : H) e x :
  r_err r = Some e -> drive ParseFloat compiled plans f i (c :: exports) r ps g h = Ok x -> False.
Proof.
  intros He. cbn [drive]. destruct (callExport _ _ _ _ _ _ _) as [y|] eqn:Ec; [|done].
  by eapply callExport_err in Ec.
Qed.

Definition until {H : Type} (rec : recording) (k : Z) : Options := mkOptions (G := G) (H := H) (Some rec) None 0 k None.
Definition resumed {H : Type} (rec : recording) (k : Z) (ps : providers) (g : G) : Options :=
  mkOptions (G := G) (H := H) (Some rec) None k 0 (Some (fun _ _ => Some (ps, g))).

(** The steps before the driver resolves its range. *)
Definition prepared (rec : recording) (plans : list importPlan) (r : replayer) (ps : providers) (g : G) : Prop :=
  planImports compiled manifest = Ok plans /\
  checkExports compiled manifest (Crossings rec) = Ok tt /\
  refuseNestedExports (NestedExports (Crossings rec)) = Ok tt /\
  prepare ParseFloat compiled plans (new_replayer rec false) = Ok (r, ps, g).

Lemma Replay_until {H} rec k (h : H) res ps g h' :
  0 < k -> Replay ParseFloat compiled manifest (until rec k) h = Ok (res, ps, g, h') ->
  k <= len (TopLevelExports (Crossings rec)) /\ exists plans r0 ps0 g0 r,
    prepared rec plans r0 ps0 g0 /\
    drive ParseFloat compiled plans None 0 (take (Z.to_nat k) (TopLevelExports (Crossings rec))) r0 ps0 g0 h =
      Ok (r, ps, g, h').
Proof.
  intros Hk. unfold Replay, until, resolveRange, seek. cbn [o_recording o_from o_to o_resume o_hook].
  destruct (planImports _ _) as [plans|] eqn:E1; [|done].
  destruct (checkExports _ _ _) as [[]|] eqn:E2; [|done].
  destruct (refuseNestedExports _) as [[]|] eqn:E3; [|done].
  destruct (prepare _ _ _ _) as [[[r0 ps0] g0]|] eqn:E4; [|done].
  destruct (Z.eqb_spec k 0); [lia|]. cbn [Z.ltb Z.compare orb andb].
  destruct (_ <? 0); [done|]. destruct (k <? 0); [done|]. cbn [orb].
  destruct (Z.ltb_spec (len (TopLevelExports (Crossings rec))) k); [done|].
  cbn [atQuiescentPoint Z.ltb Z.compare].
  rewrite Z.sub_0_r. change (Z.to_nat 0) with O. rewrite drop_0. intros Hd. split; [done|].
  exists plans, r0, ps0, g0.
  destruct (drive _ _ _ _ _ _ _ _ _ _) as [[[[r ps'] g'] h1]|]; [|done]. exists r. split; [done|].
  destruct (_ || _); [by injection Hd as _ -> -> ->|].
  destruct (negb _); [done|]. by injection Hd as _ -> -> ->.
Qed.

Lemma Replay_resumed {H} rec k plans r0 ps0 g0 psk gk (h : H) :
  0 < k <= len (TopLevelExports (Crossings rec)) -> prepared rec plans r0 ps0 g0 ->
  let n := len (TopLevelExports (Crossings rec)) in
  let rest := drop (Z.to_nat k) (TopLevelExports (Crossings rec)) in
  Replay ParseFloat compiled manifest (resumed rec k psk gk) h =
  let! (r, ps, g, h) := drive ParseFloat compiled plans None k rest
    (set_cursor r0 (match head rest with Some c => Seq c | None => len (Crossings rec) end)) psk gk h in
  Ok (with_range (r_result r) k n, ps, g, h).
Proof.
  intros Hk (E1 & E2 & E3 & E4) n rest.
  unfold Replay, resumed, resolveRange, seek. cbn [o_recording o_from o_to o_resume o_hook].
  rewrite E1, E2, E3, E4. fold n. cbn [Z.eqb]. destruct (Z.ltb_spec k 0); [lia|].
  destruct (Z.ltb_spec n k); [unfold n in *; lia|]. cbn [orb]. destruct (Z.ltb_spec n n); [lia|].
  cbn [orb]. rewrite andb_false_r. destruct (Z.ltb_spec 0 k); [|lia].
  rewrite head_lookup. unfold rest at 2. rewrite lookup_drop, Nat.add_0_r. cbn [atQuiescentPoint].
  rewrite (take_ge (drop _ _)) by (rewrite length_drop; unfold n, len; lia).
  destruct (Z.eqb_spec k 0); [lia|]. cbn [negb]. by rewrite orb_true_r.
Qed.

(** The rest of a session depends on the crossings ahead, not on the counters. *)
Lemma drive_reseeded {H} plans i j exports r r2 ps g (h : H) r' ps' g' h' :
  0 <= r_cursor r -> r_err r = None -> r_defer r = false -> numbered (Crossings (r_rec r)) ->
  Forall (fun c => c ∈ Crossings (r_rec r)) exports ->
  0 <= r_cursor r2 -> r_err r2 = None -> r_defer r2 = false -> r_rec r2 = r_rec r ->
  (forall c, head exports = Some c -> r_cursor r2 = Seq c) ->
  drive ParseFloat compiled plans None i exports r ps g h = Ok (r', ps', g', h') ->
  exists cs n, drive ParseFloat compiled plans None j exports r2 ps g h =
    Ok (advance r2 (len exports) cs n, ps', g', h').
Proof.
  intros Hc He Hd Hn Hf Hc2 He2 Hd2 Hr Hs Hdr. pose proof Hdr as Hdr0.
  apply drive_session in Hdr as (-> & cs & rest & n & Ha & Hses & _); [|done..].
  exists cs, n. apply drive_session; rewrite ?Hr; try done. split; [done|].
  destruct exports as [|c exports].
  { inversion Hses; subst. by exists [], (ahead r2), 0. }
  apply Forall_cons in Hf as [Hin Hf]. cbn [drive] in Hdr0.
  destruct (callExport _ _ _ _ _ _ _) as [x|] eqn:Ec; [|done]. unfold callExport in Ec.
  destruct (_ || _) eqn:Eg in Ec; [done|]. apply orb_false_iff in Eg as [_ Eg].
  apply negb_false_iff, Z.eqb_eq in Eg. exists cs, rest, n. split; [|done].
  rewrite <-Ha. unfold ahead. by rewrite Hr, (Hs c eq_refl), Eg.
Qed.

End spec.

(** The driver of a whole recording and the sessions. *)
Lemma Replay_whole_iff ParseFloat {G H} `{!Runtime G} compiled manifest rec (h h' : H) res ps (g : G) :
  numbered (Crossings rec) -> TopLevelExports (Crossings rec) <> [] ->
  let k := len (TopLevelExports (Crossings rec)) in
  Replay ParseFloat compiled manifest (whole rec) h = Ok (res, ps, g, h') <->
  h' = h /\ exists n, re_executed ParseFloat compiled manifest rec n ps g /\
    res = mkResult k (len (Crossings rec) - k) n 0 k.
Proof.
  intros Hn Hne k. rewrite Replay_whole. cbv zeta. split.
  - destruct (planImports compiled manifest) as [plans|] eqn:Epl; [|done].
    destruct (checkExports _ _ _) as [[]|] eqn:Ece; [|done].
    unfold refuseNestedExports. destruct (Z.eqb_spec (len (NestedExports (Crossings rec))) 0) as [Hne0|]; [|done].
    cbn [negb]. destruct (prepare _ _ _ _) as [[[r ps2] g1]|] eqn:Epr; [|done].
    destruct (drive _ _ _ _ _ _ _ _ _ _) as [[[[r' ps'] g'] h1]|] eqn:Ed; [|done].
    assert (r_err r = None) as Her.
    { destruct (r_err r) as [e|] eqn:He; [|done]. exfalso.
      destruct (TopLevelExports (Crossings rec)) as [|c ex]; [done|]. cbn [drive] in Ed.
      destruct (callExport _ _ _ _ _ _ _) as [x|] eqn:Ec; [|done].
      by eapply callExport_err in Ec. }
    destruct (proj1 (prepare_ok ParseFloat compiled plans rec r ps2 g1) (conj Epr Her))
      as (ps0 & rs & ps1 & start & rest & n0 & Hm & Hi & Hc & Hrun & Hin & ->).
    pose proof (len_nonneg start).
    apply drive_session in Ed as (-> & calls & rest' & n1 & Ha & Hs & ->);
      [|cbn; lia|done|done|done|apply TopLevelExports_in].
    cbn [r_cursor advance new_replayer]. rewrite !Z.add_0_l.
    destruct (Z.eqb_spec (len start + len calls) (len (Crossings rec))) as [Hl|]; [|done]. cbn [negb].
    intros [= <- <- <- <-]. split; [done|]. exists (n0 + n1). fold k.
    rewrite (ahead_advance (new_replayer rec false) 0 start n0 rest ltac:(done) Hc) in Ha.
    assert (rest' = []) as ->.
    { subst rest. rewrite Hc in Hl. rewrite !len_app in Hl. apply length_zero_iff_nil. unfold len in Hl. lia. }
    rewrite app_nil_r in Ha. subst rest. split.
    + exists plans, ps0, rs, ps1, g1, ps2, start, calls, n0, n1. repeat split; try done.
      apply length_zero_iff_nil. unfold len in Hne0. lia.
    + unfold with_range. cbn. rewrite Hc, len_app. f_equal; lia.
  - intros (-> & n & (plans & ps0 & rs & ps1 & g1 & ps2 & start & calls & n0 & n1 & -> & -> & Hne0 & Hm & Hi &
      Hrun & Hin & Hc & Hs & ->) & ->).
    unfold refuseNestedExports. rewrite Hne0. cbn [len length Z.of_nat Z.eqb negb].
    destruct (proj2 (prepare_ok ParseFloat compiled plans rec (advance (new_replayer rec false) 0 start n0) ps2 g1))
      as [-> _]; [by exists ps0, rs, ps1, start, calls, n0|].
    pose proof (len_nonneg start).
    rewrite (proj2 (drive_session ParseFloat compiled plans 0 (TopLevelExports (Crossings rec))
      (advance (new_replayer rec false) 0 start n0) ps2 g1 h
      (advance (advance (new_replayer rec false) 0 start n0) k calls n1) ps g h
      ltac:(cbn; lia) eq_refl eq_refl Hn (TopLevelExports_in _))).
    2:{ split; [done|]. exists calls, [], n1. rewrite app_nil_r.
        by rewrite (ahead_advance (new_replayer rec false) 0 start n0 calls ltac:(done) Hc). }
    cbn [r_cursor advance new_replayer]. rewrite !Z.add_0_l.
    assert (len (Crossings rec) = len start + len calls) as -> by (rewrite Hc; apply len_app).
    unfold with_range. cbn. fold k. rewrite (Z.eqb_refl (len start + len calls)). cbn [negb].
    replace (0 + 0 + k) with k by lia. replace (0 + n0 + n1) with (n0 + n1) by lia.
    replace (0 + (len start - 0) + (len calls - k)) with (len start + len calls - k) by lia.
    done.
Qed.

(** C1: [Replay] of a whole recording (no range of calls, no resume hook) whose
    crossings are numbered by their position and which has at least one exported
    call at top level accepts it exactly when the module re-executes it:
    instantiated and called as recorded, it makes the recorded host calls in
    the recorded order with the recorded arguments and returns the recorded
    values, every crossing used once.  The counts it reports are the
    recording's.  Without an exported call the equivalence fails:
    [start_divergence_dropped]. *)
Theorem replay_accepts_iff ParseFloat {G H} `{!Runtime G} compiled manifest rec (h h' : H) res ps (g : G) :
  numbered (Crossings rec) -> TopLevelExports (Crossings rec) <> [] ->
  let k := len (TopLevelExports (Crossings rec)) in
  Replay ParseFloat compiled manifest (whole rec) h = Ok (res, ps, g, h') <->
  h' = h /\ exists n, re_executed ParseFloat compiled manifest rec n ps g /\
    res = mkResult k (len (Crossings rec) - k) n 0 k.
Proof. apply Replay_whole_iff. Qed.

(** C3: seeking is faithful.  If replaying the first [k] exported calls ends in
    a state, then a replay that resumes at quiescent point [k] from that state
    ends exactly where the replay of the whole recording ends, having made the
    remaining exported calls. *)
Theorem seek_equivalent ParseFloat {G H} `{!Runtime G} compiled manifest rec k (h : H)
    resk psk (gk : G) hk res ps g h' :
  numbered (Crossings rec) -> 0 < k ->
  Replay ParseFloat compiled manifest (until rec k) h = Ok (resk, psk, gk, hk) ->
  Replay ParseFloat compiled manifest (whole rec) h = Ok (res, ps, g, h') ->
  exists res', Replay ParseFloat compiled manifest (resumed rec k psk gk) h = Ok (res', ps, g, h) /\
    FromPoint res' = k /\ ToPoint res' = ToPoint res /\ ExportCalls res' = ExportCalls res - k.
Proof.
  intros Hn Hk Huntil Hwhole. apply Replay_until in Huntil as (Hle & plans & r0 & ps0 & g0 & rk & Hprep & Hd1); [|done].
  rewrite Replay_whole in Hwhole. cbv zeta in Hwhole. destruct Hprep as (E1 & E2 & E3 & E4).
  rewrite E1, E2, E3, E4 in Hwhole.
  set (E := TopLevelExports (Crossings rec)) in *.
  rewrite <-(take_drop (Z.to_nat k) E), drive_app, Hd1 in Hwhole.
  assert (len (take (Z.to_nat k) E) = k) as Hlk by (unfold len in *; rewrite length_take; lia).
  assert (r_err r0 = None) as Her.
  { destruct (r_err r0) as [e|] eqn:He; [|done]. exfalso.
    destruct (take (Z.to_nat k) E) as [|c ex] eqn:Et; [rewrite len_nil in Hlk; lia|].
    by eapply drive_err in Hd1. }
  destruct (proj1 (prepare_ok ParseFloat compiled plans rec r0 ps0 g0) (conj E4 Her))
    as (pi & rs & p1 & start & rest & n0 & _ & _ & Hc & _ & _ & ->).
  pose proof (len_nonneg start).
  pose proof (TopLevelExports_in (Crossings rec)) as Hin. fold E in Hin.
  rewrite <-(take_drop (Z.to_nat k) E) in Hin. apply Forall_app in Hin as [Hin1 Hin2].
  apply drive_session in Hd1 as (-> & cs1 & rest1 & n1 & _ & _ & ->); [|cbn; lia|done|done|done|done].
  pose proof (len_nonneg cs1).
  destruct (drive _ _ _ _ _ (drop _ _) _ _ _ _) as [[[[r2 ps2] g2] h2]|] eqn:Hd2; [|done].
  destruct (negb _) in Hwhole; [done|]. injection Hwhole as <- -> -> ->.
  pose proof Hd2 as Hd3.
  apply drive_session in Hd3 as (-> & cs2 & rest2 & n2 & _ & _ & ->); [|cbn; lia|done|done|done|done].
  set (start_r := set_cursor (advance (new_replayer rec false) 0 start n0)
    (match head (drop (Z.to_nat k) E) with Some c => Seq c | None => len (Crossings rec) end)).
  assert (0 <= r_cursor start_r) as Hsr.
  { unfold start_r. cbn. destruct (drop (Z.to_nat k) E) as [|c ex]; [apply len_nonneg|].
    apply Forall_cons in Hin2 as [(i & Hi)%list_elem_of_lookup _]. cbn. rewrite (Hn _ _ Hi). lia. }
  eapply (drive_reseeded ParseFloat compiled plans _ k _ _ start_r) in Hd2 as (cs & n & Hgo);
    [|cbn; lia|done|done|done|done|done|done|done|done|by intros c Hh; unfold start_r; cbn; rewrite Hh].
  rewrite (Replay_resumed ParseFloat compiled manifest rec k plans _ _ _ psk gk h
    ltac:(fold E; lia) (conj E1 (conj E2 (conj E3 E4)))). fold E start_r. cbv zeta.
  rewrite Hgo. eexists. split; [done|]. unfold with_range. cbn.
  rewrite ?take_drop, Hlk. split; [done|]. split; [done|lia].
Qed.

(** ** An example guest

    [tick] asks the host for a number and adds it to the module's state. *)
Definition next_import : FunctionDefinition := mkFunction ($"env") ($"next") [] [0x7f].
Definition tick : FunctionDefinition := mkFunction [] ($"tick") [] [0x7f].
Definition counter_module : CompiledModule := mkCompiled [next_import] {[ $"tick" := tick ]} [].

Definition counter_runtime : Runtime Z := {|
  BuildStubs := fun _ _ => true;
  InstantiateWithConfig := fun _ _ => None;
  InstantiateModuleWithRecord := fun ps => Returns [] ps 0;
  Call := fun _ _ ps g =>
    Calls 0 [] ps (fun rs ps => match rs with [x] => Returns [g + x] ps (g + x) | _ => Traps end) |}.

Definition int_value (s : string) : rawValue := {| Kind := $"Int"; Text := bytes_of_string s |}.
Definition example_crossing (seq depth : Z) (kind : CrossingKind) (name : gostring) (result : string) : Crossing :=
  {| Seq := seq; Depth := depth; CKind := kind; CName := name; Index := 0; Args := [];
     CResults := [int_value result]; hasResults := true; markerBracketed := false |}.
Definition counter_recording : recording := mkRecording
  [example_crossing 0 0 CrossingExport ($"tick") "5"; example_crossing 1 1 CrossingImport [] "5";
   example_crossing 2 0 CrossingExport ($"tick") "12"; example_crossing 3 1 CrossingImport [] "7"] None false.

Lemma counter_numbered : numbered (Crossings counter_recording).
Proof. intros i c Hi. do 4 (destruct i as [|i]; [by injection Hi as <-|]). done. Qed.

Lemma replay_accepts_iff_witness :
  re_executed (Runtime0 := counter_runtime) (fun _ => None) counter_module None counter_recording 0 ∅ 12.
Proof.
  destruct (proj1 (replay_accepts_iff (Runtime0 := counter_runtime) (fun _ => None) counter_module None
    counter_recording tt tt (mkResult 2 2 0 0 2) ∅ 12 counter_numbered ltac:(by vm_compute))
    ltac:(vm_compute; reflexivity)) as (_ & n & Hr & Hn).
  injection Hn as <-. exact Hr.
Defined.

Lemma seek_equivalent_witness :
  exists res', Replay (Runtime0 := counter_runtime) (fun _ => None) counter_module None
    (resumed counter_recording 1 ∅ 5) tt = Ok (res', ∅, 12, tt) /\ ExportCalls res' = 1.
Proof.
  destruct (seek_equivalent (Runtime0 := counter_runtime) (fun _ => None) counter_module None
    counter_recording 1 tt (mkResult 1 1 0 0 1) ∅ 5 tt (mkResult 2 2 0 0 2) ∅ 12 tt counter_numbered eq_refl
    ltac:(vm_compute; reflexivity) ltac:(vm_compute; reflexivity)) as (res' & H & _ & _ & He).
  exact (ex_intro _ res' (conj H He)).
Defined.

(** ** Host calls during instantiation

    A guest whose start function calls an import: the stub's divergence is
    stashed, but only [callExport] reports it. *)
Definition starting_runtime : Runtime Z := {|
  BuildStubs := fun _ _ => true;
  InstantiateWithConfig := fun _ _ => None;
  InstantiateModuleWithRecord := fun ps =>
    Calls 0 [] ps (fun rs ps => Returns [] ps (default 0 (head rs)));
  Call := fun _ _ _ _ => Traps |}.

(** A divergence during instantiation is not reported when the recording
    has no exported call: the start function's host call is not in the (empty)
    recording, the stub stashes the divergence and answers zero, and the replay
    succeeds. *)
Theorem start_divergence_dropped :
  let rec := mkRecording [] None true in
  Replay (Runtime0 := starting_runtime) (fun _ => None) counter_module None (whole rec) tt =
    Ok (no_calls, ∅, 0, tt) /\
  exists r ps g, prepare (Runtime0 := starting_runtime) (fun _ => None) counter_module
    [mkImportPlan 0 ($"env") ($"next") {| Params := []; Results := [TypeI32] |} [] [0x7f]]
    (new_replayer rec false) = Ok (r, ps, g) /\ r_err r = Some (Diverged DivImportCall 0).
Proof.
  split; [vm_compute; reflexivity|].
  eexists _, _, _. split; [vm_compute; reflexivity|reflexivity].
Qed.

End ReplaySpec.
