(* ===== verification/Quiescent.v ===== *)
(** * Quiescent points ([src/internal/wasmsnapshot/quiescent.go])

    The points of a recording at which a snapshot may be taken, and how they
    tie the snapshot container to the replay driver: [quiescent_points] shows
    that they are exactly the points the driver numbers, that a builder accepts
    them, and that the crossing each one names is where a replay resumed there
    puts its cursor. *)
From S2P Require Import Prelude GoStd Values Recording HostState Assembler Manifest Provider Replay ReplaySpec SnapTypes PageCas Container.
Import GoStd Recording SnapTypes PageCas Container.

Module Quiescent.
Import Replay ReplaySpec.

Fixpoint points_of (i : Z) (exports : list Crossing) : list QuiescentPoint :=
  match exports with
  | [] => [mkQuiescentPoint i i (-1) []]
  | c :: exports => mkQuiescentPoint i i (Seq c) (CName c) :: points_of (i + 1) exports
  end.

Definition QuiescentPoints (rec : option recording) : result snap_err (list QuiescentPoint) :=
  match rec with
  | None => Err NoRecording
  | Some rec =>
      let nested := NestedExports (Crossings rec) in
      reject 0 <? len nested as NestedCalls (len nested) ;;
      Ok (points_of 0 (TopLevelExports (Crossings rec)))
  end.

(** ** Lemmas *)
Lemma points_of_lookup i exports k p :
  points_of i exports !! k = Some p ->
  qp_Ordinal p = i + Z.of_nat k /\ qp_ExportsBefore p = i + Z.of_nat k /\ (k <= length exports)%nat /\
  match exports !! k with
  | Some c => qp_CrossingSeq p = Seq c /\ qp_NextExport p = CName c
  | None => qp_CrossingSeq p = -1 /\ qp_NextExport p = []
  end.
Proof.
  revert i k. induction exports as [|c exports IH]; intros i [|k]; cbn [points_of lookup list_lookup length].
  - intros [= <-]. cbn. split_and!; lia || done.
  - done.
  - intros [= <-]. cbn. split_and!; lia || done.
  - intros H. apply IH in H as (-> & -> & Hk & Hc). split_and!; [lia|lia|lia|]. exact Hc.
Qed.

Lemma length_points_of i exports : length (points_of i exports) = S (length exports).
Proof. revert i. induction exports as [|c exports IH]; intros i; cbn; [done|]. by rewrite IH. Qed.

(** Points in ascending order above those of a builder are accepted. *)
Definition below (b : Builder) (i : Z) : Prop :=
  (forall o, i <= o -> b_bySeq b !! o = None) /\
  (forall q, last (b_points b) = Some q -> qp_Ordinal q < i).

Lemma AddPoint_above b p i : below b i -> qp_Ordinal p = i ->
  exists b', AddPoint b p = Ok b' /\ b_points b' = b_points b ++ [p] /\ below b' (i + 1).
Proof.
  intros [Hs Hl] Hp. unfold AddPoint. rewrite (Hs (qp_Ordinal p)) by lia.
  rewrite bool_decide_eq_false_2 by (by intros [? ?]).
  destruct (last (b_points b)) as [q|] eqn:E.
  - specialize (Hl q eq_refl). destruct (Z.leb_spec (qp_Ordinal p) (qp_Ordinal q)); [lia|].
    eexists. split; [done|]. split; [done|]. split; cbn.
    + intros o Ho. rewrite lookup_insert_ne by lia. apply Hs. lia.
    + intros q'. rewrite last_snoc. intros [= <-]. lia.
  - eexists. split; [done|]. split; [done|]. split; cbn.
    + intros o Ho. rewrite lookup_insert_ne by lia. apply Hs. lia.
    + intros q'. rewrite last_snoc. intros [= <-]. lia.
Qed.

Lemma AddPoints_above i exports b : below b i ->
  exists b', foldm AddPoint b (points_of i exports) = Ok b' /\ b_points b' = b_points b ++ points_of i exports.
Proof.
  revert i b. induction exports as [|c exports IH]; intros i b Hb; cbn [points_of foldm];
    match goal with |- context [AddPoint b ?p] =>
      destruct (AddPoint_above b p i Hb eq_refl) as (b1 & -> & Hp1 & Hb1) end.
  - eauto.
  - destruct (IH _ _ Hb1) as (b2 & -> & Hp2). exists b2. split; [done|]. by rewrite Hp2, Hp1, <-app_assoc.
Qed.

(** ** Properties *)

(** C23: the quiescent points of a recording without nested exported calls.
    There is one more point than exported calls, numbered as the driver numbers
    them; a snapshot builder accepts them all; and a replay resumed at a point
    continues at the crossing the point names (the end of the recording at the
    last point), which is the exported call the point precedes. *)
Theorem quiescent_points (rec : recording) :
  numbered (Crossings rec) -> NestedExports (Crossings rec) = [] ->
  exists pts, QuiescentPoints (Some rec) = Ok pts /\
    len pts = len (TopLevelExports (Crossings rec)) + 1 /\
    (forall t opts, PerTrace t <> None -> exists b, NewBuilder pts (Some t) opts = Ok b /\ b_points b = pts) /\
    forall k p, pts !! k = Some p ->
      qp_Ordinal p = Z.of_nat k /\ qp_ExportsBefore p = Z.of_nat k /\
      (forall c, TopLevelExports (Crossings rec) !! k = Some c ->
         qp_NextExport p = CName c /\ Crossings rec !! Z.to_nat (qp_CrossingSeq p) = Some c) /\
      forall G H (o : Options (G := G) (H := H)) resume r ps (g : G),
        (0 < k)%nat -> o_resume o = Some resume ->
        seek o rec (TopLevelExports (Crossings rec)) (Z.of_nat k) r ps g =
        match resume ps g with
        | None => Err (ErrResume (Z.of_nat k))
        | Some (ps, g) =>
            Ok (set_cursor r (if qp_CrossingSeq p =? -1 then len (Crossings rec) else qp_CrossingSeq p), ps, g)
        end.
Proof.
  intros Hn Hne. set (E := TopLevelExports (Crossings rec)).
  assert (forall k c, E !! k = Some c -> 0 <= Seq c /\ Crossings rec !! Z.to_nat (Seq c) = Some c) as HE.
  { intros k c Hk. pose proof (TopLevelExports_in (Crossings rec)) as Hin. rewrite Forall_forall in Hin.
    destruct (proj1 (list_elem_of_lookup _ _) (Hin c (list_elem_of_lookup_2 _ _ _ Hk))) as [i Hi].
    rewrite (Hn _ _ Hi), Nat2Z.id. split; [lia|done]. }
  exists (points_of 0 E). unfold QuiescentPoints. rewrite Hne. split; [done|].
  split; [unfold len; rewrite length_points_of; lia|]. split.
  - intros t opts Ht. unfold NewBuilder, NewIncrementalBuilder. rewrite bool_decide_eq_false_2 by done.
    destruct (AddPoints_above 0 E (mkBuilder [] t opts [] [] [] [] [] ∅)) as (b & Hb & Hp); [|by exists b].
    split; [|done]. intros o _. apply lookup_empty.
  - intros k p Hk. apply points_of_lookup in Hk as (H1 & H2 & Hle & H3). split; [lia|]. split; [lia|].
    destruct (E !! k) as [c|] eqn:Ek.
    + destruct H3 as [H3 H4], (HE _ _ Ek) as [H5 H6]. split.
      * intros c' [= <-]. rewrite H3. done.
      * intros G H o resume r ps g Hk0 Ho. unfold seek. rewrite Nat2Z.id, Ek, Ho, H3.
        destruct (Z.ltb_spec 0 (Z.of_nat k)); [|lia]. destruct (Z.eqb_spec (Seq c) (-1)); [lia|].
        by destruct (resume ps g) as [[]|].
    + destruct H3 as [H3 _]. split; [done|].
      intros G H o resume r ps g Hk0 Ho. unfold seek. rewrite Nat2Z.id, Ek, Ho, H3.
      destruct (Z.ltb_spec 0 (Z.of_nat k)); [|lia]. by destruct (resume ps g) as [[]|].
Qed.

Lemma quiescent_points_witness :
  exists pts, QuiescentPoints (Some counter_recording) = Ok pts /\ len pts = 3.
Proof.
  destruct (quiescent_points counter_recording counter_numbered ltac:(vm_compute; reflexivity))
    as (pts & H & Hl & _).
  exists pts. split; [exact H|]. rewrite Hl. vm_compute. reflexivity.
Defined.

End Quiescent.
