(* ===== verification/StreamReplay.v ===== *)
(** * Replaying a stream: [internal/boundarylog/stream_replay.go]

    The driver that re-executes a module while its recording is still being
    produced, one call group at a time.  It shares the stubs, the checks and
    the export invocation with [Replay]; what differs is what it knows: the
    recording grows group by group, whether the markers identify imports is
    only known at the end, and the host state may arrive in the stream. *)
From S2P Require Import Prelude GoStd Json Values Recording HostState Assembler Stream Manifest Provider WasmMemory Replay ReplaySpec.

Module StreamReplay.
Import GoStd Json Values Recording HostState Manifest Provider Replay ReplaySpec.

Section stream_replay.
Variable ParseFloat : gostring -> option Z.
Context {G H : Type} `{!Runtime G}.
Variable compiled : CompiledModule.
Variable manifest : option Manifest.

(** ** Groups *)

(** The loop of [appendGroup] over a group: the crossings appended so far, the
    format witness, the index of the top-level export and the nested exports. *)
Fixpoint append_loop (base i : Z) (group : list Crossing) (cs : list Crossing) (marked : bool)
    (top : option Z) (nested : list Crossing)
    : result replay_err (list Crossing * bool * option Z * list Crossing) :=
  match group with
  | [] => Ok (cs, marked, top, nested)
  | c :: group =>
      let marked := marked || markerBracketed c in
      reject negb (Seq c =? base + i) as ErrGroupOrder (Seq c) (base + i) ;;
      match CKind c with
      | CrossingExport =>
          if 0 <? Depth c then append_loop base (i + 1) group (cs ++ [c]) marked top (nested ++ [c])
          else
            match top with
            | Some _ => Err ErrTwoTopLevel
            | None => append_loop base (i + 1) group (cs ++ [c]) marked (Some (len cs)) nested
            end
      | CrossingImport => append_loop base (i + 1) group (cs ++ [c]) marked top nested
      end
  end.

Definition appendGroup (rec : recording) (group : list Crossing) : result replay_err (Z * recording) :=
  reject len group =? 0 as ErrEmptyGroup ;;
  let base := len (Crossings rec) in
  let! (cs, marked, top, nested) :=
    append_loop base 0 group (Crossings rec) (MarkersIdentifyImports rec) None [] in
  let! _ := refuseNestedExports nested in
  match top with
  | None => Err (ErrNoTopLevel (len group))
  | Some top =>
      reject negb (top =? base) as ErrTopLevelNotFirst (top - base) ;;
      Ok (top, mkRecording cs (RHostState rec) marked)
  end.

(** ** The driver *)

(** [sd_guest] is set once the module is instantiated.  [sd_shared] says that
    the recording's host state is the document the reader is accumulating, so
    that what the stream adds to it later is seen by the stubs. *)
Record sdriver : Type := mkDriver {
  sd_r : replayer; sd_src : Stream.StreamReader;
  sd_guest : option (list importPlan * providers * G);
  sd_shared : bool; sd_point : Z; sd_hook : H }.

Definition with_host (rec : recording) (hs : option HostState) : recording :=
  mkRecording (Crossings rec) hs (MarkersIdentifyImports rec).

Definition prepareOnce (f : option (hook (G := G) (H := H))) (d : sdriver) : result replay_err sdriver :=
  match sd_guest d with
  | Some _ => Ok d
  | None =>
      let rec := r_rec (sd_r d) in
      let streamed := Stream.HostState_so_far (sd_src d) in
      let! state := map_err ErrCarriers (reconcileHostState (RHostState rec) streamed) in
      let shared := match RHostState rec, streamed with None, Some _ => true | _, _ => false end in
      let! plans := planImports compiled manifest in
      let! (r, ps, g) := prepare ParseFloat compiled plans (set_rec (sd_r d) (with_host rec state)) in
      let! h := atQuiescentPoint f (sd_point d) ps g (sd_hook d) in
      Ok (mkDriver r (sd_src d) (Some (plans, ps, g)) shared (sd_point d) h)
  end.

(** After [NextGroup] the shared document is the reader's current one. *)
Definition with_src (d : sdriver) (s : Stream.StreamReader) : sdriver :=
  let rec := r_rec (sd_r d) in
  let rec := if sd_shared d then with_host rec (Stream.HostState_so_far s) else rec in
  mkDriver (set_rec (sd_r d) rec) s (sd_guest d) (sd_shared d) (sd_point d) (sd_hook d).

(** One group: the body of the loop after [NextGroup]. *)
Definition drive_group (f : option hook) (d : sdriver) (group : list Crossing) : result replay_err sdriver :=
  let! d := prepareOnce f d in
  let! (idx, rec) := appendGroup (r_rec (sd_r d)) group in
  match Crossings rec !! Z.to_nat idx, sd_guest d with
  | Some c, Some (plans, ps, g) =>
      let! _ := checkExportCrossing compiled manifest c in
      let! (r, ps, g) := callExport ParseFloat compiled plans (set_rec (sd_r d) rec) ps g c in
      let point := sd_point d + 1 in
      let! h := atQuiescentPoint f point ps g (sd_hook d) in
      Ok (mkDriver r (sd_src d) (Some (plans, ps, g)) (sd_shared d) point h)
  | _, _ => Err RangePanic
  end.

(** The loop: [None] when [fuel] runs out, otherwise the driver and how the
    stream ended. *)
Fixpoint stream_loop (fuel : nat) (f : option hook) (d : sdriver)
    : option (result replay_err (sdriver * option Stream.stream_err)) :=
  match fuel with
  | O => None
  | S fuel =>
      match Stream.NextGroup ParseFloat (sd_src d) with
      | None => None
      | Some (Err Stream.EOF, s) => Some (Ok (with_src d s, None))
      | Some (Err (Stream.Truncation k n o p), s) => Some (Ok (with_src d s, Some (Stream.Truncation k n o p)))
      | Some (Err _, _) => Some (Err ErrStream)
      | Some (Ok group, s) =>
          match drive_group f (with_src d s) group with
          | Err e => Some (Err e)
          | Ok d => stream_loop fuel f d
          end
      end
  end.

Definition resolveDeferredValuelessImports (r : replayer) (truncated : bool) : result replay_err unit :=
  match r_deferred r with
  | None => Ok tt
  | Some e =>
      reject MarkersIdentifyImports (r_rec r) as e ;;
      reject truncated as ErrUnclassified e ;;
      Ok tt
  end.

Record StreamResult : Type := mkStreamResult { SResult : Result; STruncation : option Stream.stream_err }.

(** What follows the loop. *)
Definition finish_stream (f : option hook) (d : sdriver) (trunc : option Stream.stream_err)
    : result replay_err (StreamResult * providers * G * H) :=
  let! d := prepareOnce f d in
  match sd_guest d with
  | None => Err RangePanic
  | Some (_, ps, g) =>
      let r := sd_r d in
      let truncated := match trunc with None => false | Some _ => true end in
      let! _ := resolveDeferredValuelessImports r truncated in
      reject negb truncated && negb (r_cursor r =? len (Crossings (r_rec r)))
        as Diverged DivCrossingCount (r_cursor r) ;;
      Ok (mkStreamResult (with_range (r_result r) 0 (sd_point d)) trunc, ps, g, sd_hook d)
  end.

(** [fuel] bounds the number of groups; [None] means it ran out. *)
Definition StreamingReplay (fuel : nat) (o : Options) (src : Stream.StreamReader) (h : H)
    : option (result replay_err (StreamResult * providers * G * H)) :=
  match o_recording o with
  | None => Some (Err ErrNoRecording)
  | Some rec =>
      if negb (len (Crossings rec) =? 0) then Some (Err (ErrStreamed (len (Crossings rec))))
      else if negb (o_from o =? 0) || negb (o_to o =? 0) || (match o_resume o with None => false | Some _ => true end)
      then Some (Err ErrStreamRange)
      else
        let d := mkDriver (new_replayer rec true) src None false 0 h in
        let eager := match undescribedImportedMemory compiled (RHostState rec) with
                     | None => prepareOnce (o_hook o) d
                     | Some _ => Ok d
                     end in
        match eager with
        | Err e => Some (Err e)
        | Ok d =>
            match stream_loop fuel (o_hook o) d with
            | None => None
            | Some (Err e) => Some (Err e)
            | Some (Ok (d, trunc)) => Some (finish_stream (o_hook o) d trunc)
            end
        end
  end.

End stream_replay.
End StreamReplay.
