(* ===== verification/StreamSpec.v ===== *)
(** * The streaming driver accepts nothing the batch driver refuses

    The two drivers are related in three steps: the reader's witness for the
    recording's vintage is the assembler's ([witness]); deferring a
    classification does not change what a replay does ([perform_erase]); and
    the groups a streaming replay accepts are a session of the whole recording
    ([drive_groups_session]). *)
From S2P Require Import Prelude GoStd Json Values Recording HostState Assembler Stream Agreement Manifest Provider WasmMemory Replay ReplaySpec StreamReplay.

Module StreamSpec.
Import GoStd Json Values Recording HostState Manifest Provider Replay ReplaySpec StreamReplay.

(** ** The format witness *)
Section witness.
Import Assembler.
Variable ParseFloat : gostring -> option Z.

Definition some_bracketed (cs : list Crossing) : bool := existsb markerBracketed cs.
Definition witness (a : assembler) : Prop := sawImportMarker a = some_bracketed (crossings a).

Lemma existsb_alter {A} (p : A -> bool) (f : A -> A) i l :
  (forall x, p (f x) = p x) -> existsb p (alter f i l) = existsb p l.
Proof.
  intros Hf. revert i. induction l as [|x l IH]; intros [|i]; try done; cbn.
  - by rewrite Hf.
  - f_equal. apply IH.
Qed.

Lemma some_bracketed_snoc cs c : some_bracketed (cs ++ [c]) = some_bracketed cs || markerBracketed c.
Proof. unfold some_bracketed. rewrite existsb_app. cbn. by rewrite orb_false_r. Qed.

Lemma some_bracketed_at cs i c :
  cs !! i = Some c -> markerBracketed c = true -> some_bracketed cs = true.
Proof.
  intros Hi Hc. apply existsb_exists. exists c. split; [|done].
  by apply list_elem_of_In, (list_elem_of_lookup_2 _ i).
Qed.

Lemma closeDangling_witness a keep force b :
  closeDanglingImports a keep force = Ok b -> witness a -> witness b.
Proof. unfold closeDanglingImports. intros H Hw. by okall. Qed.

Lemma closeRun_witness a b : closeRun a = Ok b -> witness a -> witness b.
Proof.
  unfold closeRun. destruct (pending a) as [run|]; [|by intros [= <-]]. intros H Hw.
  destruct (closeDanglingImports _ _ _) as [d|] eqn:Ed; [|done].
  apply closeDangling_witness in Ed; [|exact Hw]. clear Hw. unfold witness in *.
  assert (forall i f, (forall c, markerBracketed (f c) = markerBracketed c) ->
    some_bracketed (alter f i (crossings d)) = some_bracketed (crossings d)) as Hu.
  { intros i f Hf. by apply existsb_alter. }
  unfold closeRun_arg, closeRun_ret in H.
  repeat (case_match; simplify_eq); cbn; rewrite ?some_bracketed_snoc, ?Hu, ?orb_false_r; done.
Qed.

Lemma openMarked_witness a index b :
  openMarkedImport a index = Ok b -> sawImportMarker a = true -> witness b.
Proof.
  unfold openMarkedImport, witness. intros H Hs.
  destruct (stack a) as [|top rest].
  { injection H as <-. cbn. by rewrite some_bracketed_snoc, Hs, orb_true_r. }
  unfold crossing_at in H. destruct (crossings a !! idx top) as [c|] eqn:Ec; [|done].
  destruct (_ && _); injection H as <-; cbn; rewrite Hs.
  - symmetry. eapply (some_bracketed_at _ (idx top) (set_bracketed c)); [|done].
    rewrite list_lookup_alter, decide_True by done. by rewrite Ec.
  - by rewrite some_bracketed_snoc, orb_true_r.
Qed.

Lemma closeMarked_witness a index b :
  closeMarkedImport a index = Ok b -> sawImportMarker a = true -> witness b.
Proof.
  unfold closeMarkedImport, witness. intros H Hs.
  destruct (stack a) as [|top rest]; [done|].
  unfold crossing_at in H. destruct (crossings a !! idx top) as [c|] eqn:Ec; [|done].
  destruct (_ && _) eqn:Eb; [|done]. injection H as <-. cbn. rewrite Hs. symmetry.
  apply andb_true_iff in Eb as [_ Eb]. by eapply some_bracketed_at.
Qed.

Lemma note_witness a : witness a -> witness (noteGroupBoundary a).
Proof. unfold noteGroupBoundary. intros H. by repeat case_match. Qed.

Lemma pushEvent_witness a v b : pushEvent ParseFloat a v = Ok b -> witness a -> witness b.
Proof.
  unfold pushEvent. intros H Hw. destruct (closeRun a) as [d|] eqn:Ed; [|done].
  apply closeRun_witness in Ed; [|done]. destruct v as [v|]; [|by injection H as <-].
  destruct (parseHostStateMarker v) as [[m|]|]; cbn [map_err] in H; [..|done].
  - destruct (foldHostStateMarker _ _ _); [|done]. by injection H as <-.
  - destruct (parseRealmMarker v) as [m|]; [|by injection H as <-].
    case_bool_decide; [by injection H as <-|].
    destruct (enter m); [by eapply openMarked_witness|by eapply closeMarked_witness].
Qed.

Lemma push_witness a ev b : push ParseFloat a ev = Ok b -> witness a -> witness b.
Proof.
  unfold push. intros H Hw.
  match type of H with (let! a := ?m in _) = _ => destruct m as [d|] eqn:Ed; [|done] end.
  injection H as <-. apply note_witness.
  destruct (EvFunction ev).
  { destruct (closeRun a) as [e|] eqn:Ee; [|done]. injection Ed as <-.
    by apply closeRun_witness in Ee. }
  destruct (EvVariableName ev); [by injection Ed as <-|].
  destruct (EvValue ev) as [vr|].
  { unfold pushValue in Ed. destruct (_ !! _) as [name|]; [|done].
    destruct (parseBindingName name) as [[[label ro] slot]|]; [|by eapply closeRun_witness].
    destruct (match RValue vr with Some v => _ | None => _ end); [|done].
    match type of Ed with (let! a := ?m in _) = _ => destruct m as [e|] eqn:Ee; [|done] end.
    assert (witness e) as He.
    { destruct (pending a); [|by injection Ee as <-].
      destruct (_ || _); [by eapply closeRun_witness|by injection Ee as <-]. }
    destruct (negb _); [done|]. by injection Ed as <-. }
  destruct (EvCall ev) as [c|].
  { unfold pushCall in Ed. destruct (closeRun a) as [e|] eqn:Ee; [|done].
    apply closeRun_witness in Ee; [|done]. destruct (_ !! _); [|done]. injection Ed as <-.
    unfold witness. cbn. by rewrite some_bracketed_snoc, orb_false_r. }
  destruct (EvEvent ev); [by eapply pushEvent_witness|].
  destruct (EvReturn ev).
  { unfold pushReturn in Ed. destruct (closeRun a) as [e|] eqn:Ee; [|done].
    apply closeRun_witness in Ee; [|done].
    destruct (closeDanglingImports e _ _) as [e2|] eqn:Ee2; [|done].
    apply closeDangling_witness in Ee2; [|done].
    destruct (stack e2); [done|]. destruct (crossing_at _ _); [|done]. case_bool_decide; [done|].
    by injection Ed as <-. }
  destruct (EvPath ev), (EvStep ev); try (by eapply closeRun_witness); by injection Ed as <-.
Qed.

Lemma reconstruct_witness events cs marked hs :
  reconstructCrossings ParseFloat events = Ok (cs, marked, hs) -> marked = some_bracketed cs.
Proof.
  unfold reconstructCrossings. destruct (foldm _ _ _) as [a|] eqn:Ea; [|done].
  assert (witness a) as Hw.
  { apply (foldm_inv witness (push ParseFloat) newAssembler events a); [|reflexivity|exact Ea]. intros s ev s' Hs Hp. by eapply push_witness. }
  unfold finish. destruct (closeRun a) as [b|] eqn:Eb; [|done]. apply closeRun_witness in Eb; [|done].
  destruct (closeDanglingImports b [] true) as [d|] eqn:Ed; [|done].
  apply closeDangling_witness in Ed; [|done].
  destruct (stack d); [|done]. intros [= <- <- _]. by apply note_witness in Ed.
Qed.

(** Depths are lengths of the stack. *)
Definition depths_ok (cs : list Crossing) : Prop := Forall (fun c => 0 <= Depth c) cs.

Lemma moves_depths a b : rtc move a b -> depths_ok (crossings a) -> depths_ok (crossings b).
Proof.
  unfold depths_ok. induction 1 as [a|a a1 b Hm _ IH]; [done|]. intros Ha. apply IH. clear IH.
  destruct Hm as [a a' Ec Es Eg Ee|a stk popped Es|a kind name index args results has marked
    |a kind name index args results has marked label|a f g Hf Hg|a]; cbn.
  - by rewrite Ec.
  - done.
  - apply Forall_app. split; [done|]. constructor; [apply len_nonneg|constructor].
  - apply Forall_app. split; [done|]. constructor; [apply len_nonneg|constructor].
  - apply Forall_lookup. intros i c. rewrite list_lookup_alter. case_decide as Hd; [subst i|].
    + destruct (crossings a !! idx f) as [c'|] eqn:E; [|done]. cbn. intros [= <-].
      rewrite (proj2 (Hg c')). by apply (Forall_lookup_1 _ _ _ _ Ha E).
    + intros E. by apply (Forall_lookup_1 _ _ _ _ Ha E).
  - unfold noteGroupBoundary. by repeat case_match.
Qed.

Lemma reconstruct_wf events cs marked hs :
  reconstructCrossings ParseFloat events = Ok (cs, marked, hs) -> numbered cs /\ depths_ok cs.
Proof.
  unfold reconstructCrossings. destruct (foldm _ _ _) as [a|] eqn:Ea; [|done].
  pose proof (foldm_push_moves ParseFloat events newAssembler wf_new) as Hm. rewrite Ea in Hm. cbn in Hm.
  destruct (moves_wf _ _ Hm wf_new) as [Wa _]. apply moves_depths in Hm; [|constructor].
  destruct (finish a) as [b|] eqn:Eb; [|done]. pose proof (finish_moves a Wa) as Mb.
  rewrite Eb in Mb. cbn in Mb. destruct (moves_wf _ _ Mb Wa) as [Wb _]. apply moves_depths in Mb; [|done].
  intros [= <- <- <-]. split; [exact (wf_seq _ Wb)|done].
Qed.

End witness.
(** ** Deferring is invisible to the replay *)
Section erase.
Variable ParseFloat : gostring -> option Z.
Context {G : Type} `{!Runtime G}.
Variable compiled : CompiledModule.

Definition erase (r : replayer) : replayer :=
  mkReplayer (r_rec r) (r_cursor r) (r_err r) (r_result r) false None.

(** A replay that deferred nothing made no unchecked call. *)
Definition deferral (r r' : replayer) : Prop :=
  r_defer r' = r_defer r /\
  (r_defer r = true -> r_deferred r' = None ->
   r_deferred r = None /\ UncheckedImportCalls (r_result r') = UncheckedImportCalls (r_result r)).

Lemma deferral_refl r : deferral r r.
Proof. by split. Qed.

Lemma deferral_trans r1 r2 r3 : deferral r1 r2 -> deferral r2 r3 -> deferral r1 r3.
Proof.
  intros [E1 H1] [E2 H2]. split; [congruence|]. intros Hd Hn. rewrite E1 in H2.
  destruct (H2 Hd Hn) as [Hn2 ->]. by apply H1.
Qed.

Lemma serviceImport_erase r plan args ps :
  let '(r', results, ps') := serviceImport ParseFloat r plan args ps in
  serviceImport ParseFloat (erase r) plan args ps = (erase r', results, ps') /\ deferral r r'.
Proof.
  unfold serviceImport. cbn [r_err erase]. destruct (r_err r) eqn:He.
  { split; [|apply deferral_refl]. unfold erase. by rewrite He. }
  cbn [r_rec]. destruct (_ && _).
  - unfold serviceUnwitnessedValuelessImport. cbn [r_deferred r_defer erase]. split.
    + unfold erase, count_unchecked, set_result. do 2 f_equal.
      by destruct (r_deferred r), (r_defer r); [..|destruct (matchImportCrossing _ _ _ _)|].
    + destruct (r_deferred r) eqn:Ed.
      { split; [done|]. cbn. intros _ Hn. by rewrite Ed in Hn. }
      destruct (r_defer r) eqn:Edf.
      * destruct (matchImportCrossing _ _ _ _); split; cbn; done.
      * split; cbn; [done|]. by rewrite Edf.
  - change (matchImportCrossing ParseFloat (erase r) plan args) with (matchImportCrossing ParseFloat r plan args).
    destruct (matchImportCrossing _ _ _ _) as [c|e]; [|by split; [|split]].
    destruct (applyMutations _ _ _ _) as [[e|] ps1]; [by split; [|split]|].
    destruct (_ && _); [by split; [|split]|].
    by destruct (decodeTuple _ _ _); split; try split.
Qed.

Lemma perform_erase plans r (a : activation G) :
  let '(r', out) := perform ParseFloat plans r a in
  perform ParseFloat plans (erase r) a = (erase r', out) /\ deferral r r'.
Proof.
  revert r. induction a as [rs ps g| |i args ps k IH]; intros r; cbn [perform];
    try (by split; [|apply deferral_refl]).
  destruct (plans !! i) as [plan|]; [|by split; [|apply deferral_refl]].
  destruct (_ =? _)%nat; [|by split; [|apply deferral_refl]].
  pose proof (serviceImport_erase r plan args ps) as Hs.
  destruct (serviceImport ParseFloat r plan args ps) as [[r1 results] ps1]. destruct Hs as [-> Hd].
  specialize (IH results ps1 r1). destruct (perform ParseFloat plans r1 _) as [r' out].
  destruct IH as [-> Hd']. split; [done|]. by eapply deferral_trans.
Qed.

Lemma callExport_erase plans r ps g c r' ps' g' :
  callExport ParseFloat compiled plans r ps g c = Ok (r', ps', g') ->
  callExport ParseFloat compiled plans (erase r) ps g c = Ok (erase r', ps', g') /\ deferral r r'.
Proof.
  unfold callExport. cbn [r_rec r_cursor erase]. destruct (_ || _); [done|].
  destruct (ExportedFunctions compiled !! CName c) as [def|]; [|done].
  destruct (signatureOf def) as [sig|]; [|done]. cbn [map_err].
  destruct (decodeTuple ParseFloat (Args c) (Params sig)) as [args|]; [|done]. cbn [map_err]. cbv zeta.
  match goal with |- context [perform ParseFloat plans (set_result (set_cursor r ?n) ?res) ?a] =>
    pose proof (perform_erase plans (set_result (set_cursor r n) res) a) as Hp;
    destruct (perform ParseFloat plans (set_result (set_cursor r n) res) a) as [r1 got] end.
  destruct Hp as [Hp Hd].
  change (set_result (set_cursor (erase r) (r_cursor r + 1)) (add_export (r_result (erase r)))) with
    (erase (set_result (set_cursor r (r_cursor r + 1)) (add_export (r_result r)))).
  rewrite Hp. cbn [r_err erase]. destruct (r_err r1) eqn:He; [done|]. destruct got as [[[got ps1] g1]|]; [|done].
  destruct (decodeTuple ParseFloat (CResults c) (Results sig)) as [want|]; [|done]. cbn [map_err].
  destruct (negb _); [done|]. destruct (check_returns _ _ _ _); [done|].
  intros [= <- <- <-]. split; [|done]. unfold erase. by rewrite He.
Qed.

End erase.

(** ** Groups *)
Section groups.
Variable ParseFloat : gostring -> option Z.
Context {G : Type} `{!Runtime G}.
Variable compiled : CompiledModule.
Variable manifest : option Manifest.

Definition is_top (c : Crossing) : Prop := CKind c = CrossingExport /\ ~ 0 < Depth c.
Definition is_nested (c : Crossing) : Prop := CKind c = CrossingExport /\ 0 < Depth c.

Lemma append_loop_ok base i group cs marked top nested cs' marked' top' nested' :
  append_loop base i group cs marked top nested = Ok (cs', marked', top', nested') ->
  cs' = cs ++ group /\ marked' = marked || some_bracketed group /\
  (forall j c, group !! j = Some c -> Seq c = base + i + Z.of_nat j) /\
  (nested' = [] -> nested = [] /\ Forall (fun c => ~ is_nested c) group) /\
  match top with
  | Some t => top' = Some t /\ Forall (fun c => ~ is_top c) group
  | None => top' = None \/ exists pre c post, group = pre ++ c :: post /\ is_top c /\
              Forall (fun c => ~ is_top c) post /\ top' = Some (len cs + len pre)
  end.
Proof.
  revert i cs marked top nested. induction group as [|c group IH]; intros i cs marked top nested; cbn [append_loop].
  { intros [= <- <- <- <-]. rewrite app_nil_r, orb_false_r. split; [done|]. split; [done|].
    split; [done|]. split; [done|]. destruct top; [done|by left]. }
  destruct (Z.eqb_spec (Seq c) (base + i)) as [Hs|]; [|done]. cbn [negb].
  assert (forall (q : nat -> Crossing -> Prop), q O c -> (forall j d, group !! j = Some d -> q (S j) d) ->
    forall j d, (c :: group) !! j = Some d -> q j d) as Hcons.
  { intros q H0 HS [|j] d; cbn; [by intros [= <-]|apply HS]. }
  intros H.
  assert (exists i' m' t' n', append_loop base (i + 1) group (cs ++ [c]) (marked || markerBracketed c) t' n' =
    Ok (cs', marked', top', nested') /\ i' = i + 1 /\ m' = marked || markerBracketed c /\
    ((is_nested c /\ t' = top /\ n' = nested ++ [c]) \/
     (is_top c /\ top = None /\ t' = Some (len cs) /\ n' = nested) \/
     (CKind c = CrossingImport /\ t' = top /\ n' = nested))) as (i' & m' & t' & n' & H' & -> & -> & Hc).
  { destruct (CKind c) eqn:Ek.
    - destruct (Z.ltb_spec 0 (Depth c)).
      + eexists _, _, _, _. split; [exact H|]. repeat split; auto. by left.
      + destruct top; [done|]. eexists _, _, _, _. split; [exact H|]. do 2 (split; [done|]).
        right. left. split; [split; [done|lia]|done].
    - eexists _, _, _, _. split; [exact H|]. do 2 (split; [done|]). by right; right. }
  apply IH in H' as (-> & -> & Hseq & Hnest & Htop). split; [by rewrite <-app_assoc|].
  split; [cbn; by rewrite orb_assoc|]. split.
  { apply Hcons; [lia|]. intros j d Hj. rewrite (Hseq j d Hj). lia. }
  split.
  { intros Hn. apply Hnest in Hn as [Hn Hf]. destruct Hc as [(_ & _ & ->)|[(Ht & _ & _ & ->)|(Hk & _ & ->)]].
    - by apply app_nil in Hn as [_ ?].
    - split; [done|]. constructor; [|done]. intros [_ ?]. by destruct Ht.
    - split; [done|]. constructor; [|done]. intros [? _]. congruence. }
  destruct Hc as [([Hk Hd] & -> & _)|[(Ht & -> & -> & _)|(Hk & -> & _)]].
  - destruct top as [t|].
    + destruct Htop as [-> Hf]. split; [done|]. constructor; [|done]. by intros [_ ?].
    + destruct Htop as [->|(pre & d & post & -> & Hd' & Hp & ->)]; [by left|].
      right. exists (c :: pre), d, post. split; [done|]. split; [done|]. split; [done|].
      rewrite len_app, !len_cons, len_nil. f_equal. lia.
  - destruct Htop as [-> Hf]. right. exists [], c, group. rewrite len_nil, Z.add_0_r. done.
  - destruct top as [t|].
    + destruct Htop as [-> Hf]. split; [done|]. constructor; [|done]. intros [? _]. congruence.
    + destruct Htop as [->|(pre & d & post & -> & Hd' & Hp & ->)]; [by left|].
      right. exists (c :: pre), d, post. split; [done|]. split; [done|]. split; [done|].
      rewrite len_app, !len_cons, len_nil. f_equal. lia.
Qed.

(** An accepted group: one exported call and the host calls inside it, numbered
    on from the recording. *)
Lemma appendGroup_ok rec group idx rec' :
  appendGroup rec group = Ok (idx, rec') -> exists c inner, group = c :: inner /\
    idx = len (Crossings rec) /\
    rec' = mkRecording (Crossings rec ++ group) (RHostState rec)
             (MarkersIdentifyImports rec || some_bracketed group) /\
    is_top c /\ Forall (fun c => CKind c = CrossingImport) inner /\
    (numbered (Crossings rec) -> numbered (Crossings rec')).
Proof.
  unfold appendGroup. destruct (len group =? 0); [done|].
  destruct (append_loop _ _ _ _ _ _ _) as [[[[cs marked] top] nested]|] eqn:El; [|done].
  apply append_loop_ok in El as (-> & -> & Hseq & Hnest & Htop).
  unfold refuseNestedExports. destruct (Z.eqb_spec (len nested) 0) as [Hn|]; [|done]. cbn [negb].
  destruct top as [t|]; [|done]. destruct (Z.eqb_spec t (len (Crossings rec))) as [->|]; [|done]. cbn [negb].
  intros [= <- <-]. destruct Htop as [?|(pre & c & post & -> & Hc & Hp & Ht)]; [done|].
  injection Ht as Ht. assert (pre = []) as -> by (apply length_zero_iff_nil; unfold len in *; lia).
  exists c, post. do 3 (split; [done|]). split; [done|]. split.
  - assert (nested = []) as -> by (apply length_zero_iff_nil; unfold len in *; lia).
    destruct (Hnest eq_refl) as [_ Hf]. apply Forall_cons in Hf as [_ Hf].
    apply Forall_forall. intros d Hd. rewrite Forall_forall in Hp, Hf.
    destruct (CKind d) eqn:Ek; [|done]. exfalso.
    destruct (Z.lt_ge_cases 0 (Depth d)) as [Hlt|Hge].
    + apply (Hf d Hd). by split.
    + apply (Hp d Hd). split; [done|lia].
  - intros Hnum i d Hi. cbn in Hi. apply lookup_app_Some in Hi as [Hi|[Hl Hi]]; [by apply Hnum|].
    rewrite (Hseq _ _ Hi). unfold len. lia.
Qed.

(** The driver's loop over the groups, without a hook. *)
Fixpoint drive_groups (plans : list importPlan) (gs : list (list Crossing)) (r : replayer) (ps : providers) (g : G)
    : result replay_err (replayer * providers * G) :=
  match gs with
  | [] => Ok (r, ps, g)
  | group :: gs =>
      let! (idx, rec) := appendGroup (r_rec r) group in
      match Crossings rec !! Z.to_nat idx with
      | Some c =>
          let! _ := checkExportCrossing compiled manifest c in
          let! (r, ps, g) := callExport ParseFloat compiled plans (set_rec r rec) ps g c in
          drive_groups plans gs r ps g
      | None => Err RangePanic
      end
  end.

End groups.

(** ** From groups to a session *)
Section sessions.
Variable ParseFloat : gostring -> option Z.
Context {G : Type} `{!Runtime G}.
Variable compiled : CompiledModule.
Variable manifest : option Manifest.

Lemma run_nonneg plans rec (a : activation G) cs n rs ps g :
  run ParseFloat plans rec a cs n rs ps g -> 0 <= n.
Proof. induction 1; lia. Qed.

(** A run that made no unchecked call is one under the strict reading too. *)
Definition same_reading (rec rec' : recording) (n : Z) : Prop :=
  RHostState rec' = RHostState rec /\
  (MarkersIdentifyImports rec' = MarkersIdentifyImports rec \/ n = 0 /\ MarkersIdentifyImports rec' = true).

Lemma run_reading plans rec rec' (a : activation G) cs n rs ps g :
  same_reading rec rec' n -> run ParseFloat plans rec a cs n rs ps g -> run ParseFloat plans rec' a cs n rs ps g.
Proof.
  intros Hs H. revert Hs. induction H as [rs ps g|i plan ps k cs n rs ps' g' Hp Hv Hm Hr IH
    |i plan args ps k c results ps1 cs n rs ps' g' Hp Hv Hs Ha Hr IH]; intros [Hh Hread].
  - constructor.
  - pose proof (run_nonneg _ _ _ _ _ _ _ _ Hr). destruct Hread as [Hm'|[? _]]; [|lia].
    eapply run_unchecked; [done|done|congruence|]. apply IH. split; [done|by left].
  - eapply run_served; [done| |done| |].
    + destruct Hread as [->|[_ ->]]; [done|]. by rewrite andb_false_r.
    + by rewrite Hh.
    + by apply IH.
Qed.

Lemma call_reading plans rec rec' c ps g inner n ps' g' :
  same_reading rec rec' n -> call ParseFloat compiled plans rec c ps g inner n ps' g' ->
  call ParseFloat compiled plans rec' c ps g inner n ps' g'.
Proof. intros Hs H. destruct H. econstructor; try done. by eapply run_reading. Qed.

Record streaming (r : replayer) : Prop := {
  streaming_cursor : 0 <= r_cursor r; streaming_err : r_err r = None;
  streaming_defer : r_defer r = true; streaming_numbered : numbered (Crossings (r_rec r)) }.

Lemma stream_call plans r ps g c r' ps' g' :
  streaming r -> c ∈ Crossings (r_rec r) ->
  callExport ParseFloat compiled plans r ps g c = Ok (r', ps', g') ->
  exists inner rest n, ahead r = c :: inner ++ rest /\
    call ParseFloat compiled plans (r_rec r) c ps g inner n ps' g' /\
    erase r' = advance (erase r) 1 (c :: inner) n /\ deferral r r' /\ streaming r'.
Proof.
  intros [Hc He Hd Hn] Hin H. apply callExport_erase in H as [H Hdef].
  apply callExport_call in H as (inner & rest & n & Ha & Hcall & Hr); [|done..].
  exists inner, rest, n. split; [done|]. split; [done|]. split; [done|]. split; [done|].
  pose proof (len_nonneg inner).
  pose proof (f_equal r_cursor Hr) as E1. pose proof (f_equal r_err Hr) as E2.
  pose proof (f_equal r_rec Hr) as E3. unfold erase, advance in E1, E2, E3. cbn in E1, E2, E3.
  rewrite len_cons in E1. split; [lia|by rewrite E2|by rewrite (proj1 Hdef)|by rewrite E3].
Qed.

Lemma filter_none {A} (P : A -> Prop) `{!forall x, Decision (P x)} l : Forall (fun x => ~ P x) l -> filter P l = [].
Proof. induction 1 as [|x l Hx _ IH]; [done|]. by rewrite filter_cons_False. Qed.

Lemma exports_of_group c inner :
  is_top c -> 0 <= Depth c -> Forall (fun d => CKind d = CrossingImport) inner ->
  TopLevelExports (c :: inner) = [c] /\ NestedExports (c :: inner) = [].
Proof.
  intros [Hk Hd] H0 Hf. unfold TopLevelExports, NestedExports.
  rewrite filter_cons_True by (split; [done|lia]).
  rewrite (filter_cons_False _ c) by (intros [_ ?]; done).
  split; [f_equal|]; apply filter_none; (eapply Forall_impl; [exact Hf|]); intros d Hi [? _]; congruence.
Qed.

(** What an accepted list of groups says of the whole recording. *)
Lemma drive_groups_shape plans gs r ps g r' ps' g' :
  streaming r -> depths_ok (concat gs) -> drive_groups ParseFloat compiled manifest plans gs r ps g = Ok (r', ps', g') ->
  streaming r' /\
  r_rec r' = mkRecording (Crossings (r_rec r) ++ concat gs) (RHostState (r_rec r))
               (MarkersIdentifyImports (r_rec r) || some_bracketed (concat gs)) /\
  len (TopLevelExports (concat gs)) = len gs /\ NestedExports (concat gs) = [] /\
  checkExports compiled manifest (concat gs) = Ok tt /\ deferral r r'.
Proof.
  revert r ps g. induction gs as [|grp gs IH]; intros r ps g Hr Hdep; cbn [drive_groups concat].
  { intros [= <- <- <-]. split; [done|]. rewrite app_nil_r, orb_false_r.
    split; [by destruct (r_rec r)|]. do 3 (split; [done|]). apply deferral_refl. }
  cbn in Hdep. apply Forall_app in Hdep as [Hd1 Hd2].
  destruct (appendGroup _ _) as [[idx rec]|] eqn:Ea; [|done].
  apply appendGroup_ok in Ea as (c & inner & -> & -> & -> & Htop & Himp & Hnum).
  cbn [Crossings]. unfold len at 1. rewrite Nat2Z.id, list_lookup_middle by done.
  destruct (checkExportCrossing _ _ _) as [[]|] eqn:Ec; [|done].
  destruct (callExport _ _ _ _ _ _ _) as [[[r1 ps1] g1]|] eqn:Ecall; [|done]. intros Hg.
  apply stream_call in Ecall as (inner' & rest & n & _ & _ & Hr1 & Hdef & Hs1).
  2:{ destruct Hr. split; try done. by apply Hnum. }
  2:{ cbn. apply elem_of_app. right. left. }
  apply IH in Hg as (Hs & Hrec & Hlen & Hnest & Hchk & Hdef'); [|done|done].
  assert (r_rec r1 = mkRecording (Crossings (r_rec r) ++ c :: inner) (RHostState (r_rec r))
    (MarkersIdentifyImports (r_rec r) || some_bracketed (c :: inner))) as Hrec1.
  { pose proof (f_equal r_rec Hr1) as E. exact E. }
  apply Forall_cons in Hd1 as [Hdc _]. destruct (exports_of_group c inner Htop Hdc Himp) as [He1 He2].
  split; [done|]. split.
  { rewrite Hrec, Hrec1. cbn. rewrite <-app_assoc, <-orb_assoc. f_equal. f_equal.
    unfold some_bracketed. rewrite existsb_app. cbn. by rewrite orb_assoc. }
  unfold TopLevelExports, NestedExports in *. rewrite !filter_app, He1, He2.
  split; [rewrite len_app, !len_cons, len_nil, Hlen; lia|]. split; [done|]. split.
  - unfold checkExports, TopLevelExports, each in *. rewrite filter_app, He1. cbn [app foldm]. by rewrite Ec.
  - eapply deferral_trans; [|exact Hdef']. done.
Qed.

End sessions.

(** ** The session of an accepted stream *)
Section accepted.
Variable ParseFloat : gostring -> option Z.
Context {G : Type} `{!Runtime G}.
Variable compiled : CompiledModule.
Variable manifest : option Manifest.

Lemma result_advance r r1 k cs n k' cs' n' :
  r_result r1 = r_result (advance r k cs n) ->
  r_result (advance r1 k' cs' n') = r_result (advance r (k + k') (cs ++ cs') (n + n')).
Proof. intros H. unfold advance in *. cbn in *. rewrite H, len_app. cbn. f_equal; lia. Qed.

(** The crossings ahead of a replayer that has consumed all but the last group
    are that group. *)
Lemma whole_group r c inner inner' rest :
  numbered (Crossings (r_rec r) ++ c :: inner) -> 0 <= r_cursor r ->
  drop (Z.to_nat (r_cursor r)) (Crossings (r_rec r) ++ c :: inner) = c :: inner' ++ rest ->
  r_cursor r + len (c :: inner') = len (Crossings (r_rec r) ++ c :: inner) ->
  r_cursor r = len (Crossings (r_rec r)) /\ inner' = inner.
Proof.
  intros Hn Hc Hd Hl.
  assert (Seq c = r_cursor r) as Hs.
  { rewrite (Hn (Z.to_nat (r_cursor r)) c); [lia|].
    by rewrite <-(Nat.add_0_r (Z.to_nat _)), <-lookup_drop, Hd. }
  assert (Seq c = len (Crossings (r_rec r))) as Hs' by (apply Hn; by apply list_lookup_middle).
  assert (r_cursor r = len (Crossings (r_rec r))) as Hcur by congruence. split; [done|].
  rewrite Hcur in Hd. unfold len in Hd. rewrite Nat2Z.id, drop_app_length in Hd.
  injection Hd as ->. rewrite len_app, !len_cons, len_app in Hl.
  assert (rest = []) as -> by (apply length_zero_iff_nil; unfold len in *; lia). by rewrite app_nil_r.
Qed.

Lemma drive_groups_session plans gs r ps g r' ps' g' recB :
  streaming r -> depths_ok (concat gs) ->
  drive_groups ParseFloat compiled manifest plans gs r ps g = Ok (r', ps', g') ->
  r_cursor r' = len (Crossings (r_rec r')) ->
  RHostState recB = RHostState (r_rec r) ->
  MarkersIdentifyImports recB = MarkersIdentifyImports (r_rec r') ->
  r_deferred r' = None \/ MarkersIdentifyImports recB = false ->
  r_cursor r = len (Crossings (r_rec r)) /\ exists n,
    session ParseFloat compiled plans recB ps g (TopLevelExports (concat gs)) (concat gs) n ps' g' /\
    r_result r' = r_result (advance r (len gs) (concat gs) n).
Proof.
  revert r ps g. induction gs as [|grp gs IH]; intros r ps g Hr Hdep Hdr Hcur Hh Hm Hdef.
  { injection Hdr as <- <- <-. split; [done|]. exists 0. split; [constructor|]. by rewrite advance_nil. }
  cbn [drive_groups concat] in *. apply Forall_app in Hdep as [Hd1 Hd2].
  destruct (appendGroup _ _) as [[idx rec]|] eqn:Ea; [|done].
  apply appendGroup_ok in Ea as (c & inner & -> & -> & -> & Htop & Himp & Hnum).
  cbn [Crossings] in Hdr. unfold len at 1 in Hdr. rewrite Nat2Z.id, list_lookup_middle in Hdr by done.
  destruct (checkExportCrossing _ _ _) as [[]|] eqn:Ec; [|done].
  destruct (callExport _ _ _ _ _ _ _) as [[[r1 ps1] g1]|] eqn:Ecall; [|done].
  set (rec1 := mkRecording (Crossings (r_rec r) ++ c :: inner) (RHostState (r_rec r))
    (MarkersIdentifyImports (r_rec r) || some_bracketed (c :: inner))) in *.
  apply stream_call in Ecall as (inner' & rest & n & Ha & Hcall & Hr1 & Hdef1 & Hs1).
  2:{ destruct Hr. split; try done. by apply Hnum. }
  2:{ cbn. apply elem_of_app. right. left. }
  assert (r_rec r1 = rec1) as Hrec1 by (pose proof (f_equal r_rec Hr1) as E; exact E).
  destruct (drive_groups_shape _ _ _ _ _ _ _ _ _ _ _ Hs1 Hd2 Hdr) as (_ & Hrec' & _ & _ & _ & Hdef2).
  destruct (IH r1 ps1 g1) as (Hcur1 & m & Hses & Hres); try done.
  { rewrite Hrec1. done. }
  assert (r_cursor r1 = r_cursor r + len (c :: inner')) as Hc1
    by (pose proof (f_equal r_cursor Hr1) as E; exact E).
  destruct (whole_group r c inner inner' rest) as [Hc ->]; try done.
  { apply Hnum, Hr. } { apply Hr. } { rewrite <-Hc1, Hcur1, Hrec1. done. }
  split; [done|]. apply Forall_cons in Hd1 as [Hdc _].
  destruct (exports_of_group c inner Htop Hdc Himp) as [He _].
  assert (TopLevelExports ((c :: inner) ++ concat gs) = c :: TopLevelExports (concat gs)) as ->.
  { unfold TopLevelExports in *. by rewrite filter_app, He. }
  exists (n + m). split.
  - apply session_call with (ps1 := ps1) (g1 := g1); [|done].
    eapply call_reading; [|exact Hcall]. split; [done|]. cbn [r_rec set_rec].
    destruct Hdef as [Hn|Hf].
    + destruct (proj2 Hdef2) as [Hn1 _]; [apply Hs1|done|].
      destruct (proj2 Hdef1) as [_ Hu]; [apply Hr|done|].
      pose proof (f_equal (fun x => UncheckedImportCalls (r_result x)) Hr1) as E. cbn in E, Hu.
      assert (n = 0) as -> by lia.
      destruct (MarkersIdentifyImports recB) eqn:EB; [by right|left].
      rewrite Hrec', Hrec1 in Hm. cbn in Hm. symmetry in Hm. by apply orb_false_iff in Hm as [? _].
    + left. rewrite Hf. rewrite Hf, Hrec', Hrec1 in Hm. cbn in Hm. symmetry in Hm.
      by apply orb_false_iff in Hm as [? _].
  - rewrite Hres, len_cons. apply (result_advance r r1 1 (c :: inner) n).
    pose proof (f_equal r_result Hr1) as E. exact E.
Qed.

End accepted.

(** ** The whole driver *)
Section driver.
Variable ParseFloat : gostring -> option Z.
Context {G H : Type} `{!Runtime G}.
Variable compiled : CompiledModule.
Variable manifest : option Manifest.

Lemma set_rec_same r : set_rec r (r_rec r) = r.
Proof. by destruct r. Qed.

Lemma stream_loop_groups n d plans ps g gs s' :
  sd_guest d = Some (plans, ps, g) -> sd_shared d = false ->
  Stream.read_groups ParseFloat n (sd_src d) = Some (gs, Stream.EOF, s') ->
  stream_loop (H := H) ParseFloat compiled manifest n None d =
  Some (let! (r, ps, g) := drive_groups ParseFloat compiled manifest plans gs (sd_r d) ps g in
        Ok (mkDriver r s' (Some (plans, ps, g)) false (sd_point d + len gs) (sd_hook d), None)).
Proof.
  revert d ps g gs. induction n as [|n IH]; intros d ps g gs Hg Hs Hread; [done|].
  cbn [Stream.read_groups stream_loop] in *.
  destruct (Stream.NextGroup ParseFloat (sd_src d)) as [[[grp|e] s1]|]; [..|done].
  2:{ injection Hread as <- -> <-. cbn [drive_groups]. unfold with_src. rewrite Hs, set_rec_same, Hg.
      by rewrite len_nil, Z.add_0_r. }
  destruct (Stream.read_groups ParseFloat n s1) as [[[gs1 e1] s2]|] eqn:Er; [|done].
  injection Hread as <- -> <-. cbn [drive_groups]. unfold drive_group, prepareOnce, with_src.
  cbn [sd_guest sd_r sd_point sd_src sd_shared sd_hook]. rewrite Hs, Hg, set_rec_same. cbv iota beta.
  cbn [sd_guest sd_r sd_point sd_src sd_shared sd_hook].
  destruct (appendGroup _ _) as [[idx rec]|]; [|done].
  destruct (Crossings rec !! _) as [c|]; [|done].
  destruct (checkExportCrossing _ _ _) as [[]|]; [|done].
  destruct (callExport _ _ _ _ _ _ _) as [[[r1 ps1] g1]|]; [|done]. cbn [atQuiescentPoint].
  rewrite (IH _ ps1 g1 gs1) by done. cbn [sd_r sd_point sd_hook]. rewrite len_cons.
  by replace (sd_point d + 1 + len gs1) with (sd_point d + (1 + len gs1)) by lia.
Qed.

Lemma prepare_erase plans rec r ps g :
  prepare ParseFloat compiled plans (new_replayer rec true) = Ok (r, ps, g) ->
  prepare ParseFloat compiled plans (new_replayer rec false) = Ok (erase r, ps, g) /\
  deferral (new_replayer rec true) r.
Proof.
  unfold prepare. cbn [r_rec new_replayer]. destruct (checkImportedMemories _ _) as [[]|]; [|done].
  destruct (instantiateHostModules _ _ _) as [ps0|]; [|done].
  pose proof (perform_erase ParseFloat plans (new_replayer rec true) (InstantiateModuleWithRecord ps0)) as Hp.
  destruct (perform _ _ (new_replayer rec true) _) as [r1 [[[rs ps1] g1]|]]; [|done]. destruct Hp as [Hp Hd].
  change (new_replayer rec false) with (erase (new_replayer rec true)). rewrite Hp.
  destruct (applyInitialMemory _ _) as [ps2|]; [|done]. by intros [= <- <- <-].
Qed.

(** A module's instantiation while no crossing has arrived. *)
Lemma prepare_streaming plans hs r ps g :
  prepare ParseFloat compiled plans (new_replayer (mkRecording [] hs false) true) = Ok (r, ps, g) ->
  r_err r = None ->
  streaming r /\ r_rec r = mkRecording [] hs false /\
  exists n ps0 rs ps1, checkImportedMemories compiled hs = Ok tt /\
    instantiateHostModules ParseFloat plans hs = Ok ps0 /\
    run ParseFloat plans (mkRecording [] hs false) (InstantiateModuleWithRecord ps0) [] n rs ps1 g /\
    applyInitialMemory hs ps1 = Ok ps /\ r_result r = mkResult 0 0 n 0 0 /\
    (r_deferred r = None -> n = 0).
Proof.
  intros Hp He. apply prepare_erase in Hp as [Hp Hd].
  destruct (proj1 (prepare_ok ParseFloat compiled plans _ _ _ _) (conj Hp He))
    as (ps0 & rs & ps1 & start & rest & n & H1 & H2 & H3 & H4 & H5 & H6).
  symmetry in H3. apply app_nil in H3 as [-> ->].
  pose proof (f_equal r_cursor H6) as E1. pose proof (f_equal r_rec H6) as E2.
  pose proof (f_equal r_result H6) as E3. cbn in E1, E2, E3.
  split; [split|].
  - rewrite E1. done.
  - done.
  - by rewrite (proj1 Hd).
  - rewrite E2. by intros i c Hi.
  - split; [done|]. exists n, ps0, rs, ps1. do 5 (split; [done|]). intros Hn.
    destruct (proj2 Hd eq_refl Hn) as [_ Hu]. rewrite E3 in Hu. exact Hu.
Qed.

End driver.

(** ** Properties *)

(** What an accepted stream says of the whole recording, and the batch driver's
    verdict on it. *)
Lemma accepted_stream ParseFloat {G H} `{!Runtime G} compiled manifest hs gs plans r0 ps0 (g0 : G) r ps g (h : H) :
  planImports compiled manifest = Ok plans ->
  prepare ParseFloat compiled plans (new_replayer (mkRecording [] hs false) true) = Ok (r0, ps0, g0) ->
  drive_groups ParseFloat compiled manifest plans gs r0 ps0 g0 = Ok (r, ps, g) ->
  concat gs <> [] -> numbered (concat gs) -> depths_ok (concat gs) ->
  r_deferred r = None \/ MarkersIdentifyImports (r_rec r) = false ->
  r_cursor r = len (Crossings (r_rec r)) ->
  Replay ParseFloat compiled manifest (whole (mkRecording (concat gs) hs (some_bracketed (concat gs)))) h =
    Ok (with_range (r_result r) 0 (len gs), ps, g, h).
Proof.
  intros Hpl Hprep Hdr Hne Hnum Hdep Hdef Hcur. destruct gs as [|grp gs]; [done|].
  assert (r_err r0 = None) as He0.
  { destruct (r_err r0) as [e|] eqn:He; [|done]. exfalso. cbn [drive_groups] in Hdr.
    destruct (appendGroup _ _) as [[idx rec]|]; [|done]. destruct (_ !! _); [|done].
    destruct (checkExportCrossing _ _ _) as [[]|]; [|done].
    destruct (callExport _ _ _ _ _ _ _) as [x|] eqn:Ec; [|done].
    by eapply callExport_err in Ec. }
  destruct (prepare_streaming ParseFloat compiled plans hs r0 ps0 g0 Hprep He0)
    as (Hs0 & Hrec0 & n0 & pi & rs & p1 & Hmem & Hhost & Hrun & Hinit & Hres0 & Hn0).
  destruct (drive_groups_shape ParseFloat compiled manifest plans _ _ _ _ _ _ _ Hs0 Hdep Hdr)
    as (_ & Hrec & Hlen & Hnest & Hchk & Hdefl).
  rewrite Hrec0 in Hrec. cbn [Crossings RHostState MarkersIdentifyImports app orb] in Hrec.
  set (recB := mkRecording (concat (grp :: gs)) hs (some_bracketed (concat (grp :: gs)))) in *.
  destruct (drive_groups_session ParseFloat compiled manifest plans _ _ _ _ _ _ _ recB Hs0 Hdep Hdr Hcur)
    as (_ & n & Hses & Hres).
  { by rewrite Hrec0. } { by rewrite Hrec. } { by rewrite Hrec in Hdef. }
  assert (run ParseFloat plans recB (InstantiateModuleWithRecord pi) [] n0 rs p1 g0) as HrunB.
  { eapply run_reading; [|exact Hrun]. split; [done|]. cbn [MarkersIdentifyImports].
    destruct (MarkersIdentifyImports recB) eqn:EB; [right|by left]. split; [|done].
    destruct Hdef as [Hd|Hd]; [|rewrite Hrec in Hd; congruence].
    apply Hn0. by apply (proj2 Hdefl); [apply Hs0|]. }
  apply Replay_whole_iff; [done| |].
  { intros E. change (Crossings recB) with (concat (grp :: gs)) in E. rewrite E, len_nil, len_cons in Hlen.
    pose proof (len_nonneg gs). lia. }
  split; [done|]. exists (n0 + n). split.
  - exists plans, pi, rs, p1, g0, ps0, [], (concat (grp :: gs)), n0, n. by repeat (split; [done|]).
  - change (Crossings recB) with (concat (grp :: gs)). rewrite Hlen, Hres. unfold advance, with_range.
    cbn [r_result ExportCalls ImportCalls UncheckedImportCalls]. rewrite Hres0. cbn. f_equal; lia.
Qed.

(** C2: a streaming replay never accepts what the batch driver refuses, for a
    complete recording: the bytes that arrive, however they are cut into reads,
    are a JSON array of objects that the batch loader reconstructs to at least
    one crossing and to no host state of its own (the host state, if any, is in
    the sidecar, and no imported memory is left undescribed).  Then the streaming driver
    ends with a verdict, and if it accepts, the whole recording was replayed and
    [Replay] accepts it with the same counts and the same final state, even
    though the streaming driver learns only at the end whether the recording
    identifies its imports.  Truncated streams are the subject of
    [Agreement.truncated_stream]. *)
Theorem streaming_replay_sound ParseFloat {G H} `{!Runtime G} compiled manifest reads data l events cs marked hs (h : H) :
  Stream.stream_data reads = Some data -> parse_json data = Some (JArr l) -> Forall Agreement.is_obj l ->
  Assembler.Unmarshal_events data = Some events ->
  Assembler.reconstructCrossings ParseFloat events = Ok (cs, marked, None) ->
  cs <> [] -> undescribedImportedMemory compiled hs = None ->
  exists fuel res,
    StreamingReplay ParseFloat compiled manifest fuel (whole (mkRecording [] hs false))
      (Stream.NewStreamReader reads) h = Some res /\
    forall out ps (g : G) h', res = Ok (out, ps, g, h') ->
      STruncation out = None /\
      Replay ParseFloat compiled manifest (whole (mkRecording cs hs marked)) h = Ok (SResult out, ps, g, h').
Proof.
  intros Hdata Hj Hobj Hev Hrec Hne Hund.
  destruct (Agreement.streamed_groups ParseFloat reads data l events cs marked None Hdata Hj Hobj Hev Hrec)
    as (gs & s & Hread & Hcs & _ & _).
  pose proof (reconstruct_witness ParseFloat events cs marked None Hrec) as ->.
  destruct (reconstruct_wf ParseFloat events cs _ None Hrec) as [Hnum Hdep]. subst cs.
  exists (S (length gs)). unfold StreamingReplay, whole. cbn [o_recording o_from o_to o_resume o_hook].
  change (negb (len (Crossings (mkRecording [] hs false)) =? 0)) with false. cbn [Z.eqb negb orb].
  cbn [RHostState]. rewrite Hund. unfold prepareOnce at 1. cbn [sd_guest sd_r sd_src sd_point sd_hook].
  assert (reconcileHostState (RHostState (r_rec (new_replayer (mkRecording [] hs false) true)))
    (Stream.HostState_so_far (Stream.NewStreamReader reads)) = Ok hs) as -> by (by destruct hs).
  cbn [map_err].
  destruct (planImports compiled manifest) as [plans|] eqn:Epl; [|by eexists; split; [done|]].
  change (set_rec _ _) with (new_replayer (mkRecording [] hs false) true).
  destruct (prepare _ _ _ _) as [[[r0 ps0] g0]|] eqn:Epr; [|by eexists; split; [done|]].
  cbn [atQuiescentPoint]. cbv zeta.
  rewrite (stream_loop_groups ParseFloat compiled manifest _ _ plans ps0 g0 gs s);
    [|done|by destruct hs|exact Hread]. cbn [sd_r sd_point sd_hook].
  destruct (drive_groups _ _ _ _ _ _ _ _) as [[[r ps] g]|] eqn:Edr; [|by eexists; split; [done|]].
  eexists. split; [done|]. intros out ps' g' h'. unfold finish_stream, prepareOnce.
  cbn [sd_guest sd_r sd_point sd_hook]. unfold resolveDeferredValuelessImports. intros Hfin.
  assert (r_deferred r = None \/ MarkersIdentifyImports (r_rec r) = false) as Hdef.
  { destruct (r_deferred r); [|by left]. right. by destruct (MarkersIdentifyImports (r_rec r)). }
  assert (match r_deferred r with
    | None => Ok tt
    | Some e => reject MarkersIdentifyImports (r_rec r) as e ;; reject false as ErrUnclassified e ;; Ok tt
    end = Ok tt) as Hres by (destruct (r_deferred r); [destruct Hdef as [?| ->]; done|done]).
  rewrite Hres in Hfin. cbn [negb andb] in Hfin.
  destruct (Z.eqb_spec (r_cursor r) (len (Crossings (r_rec r)))) as [Hcur|]; [|done]. cbn [negb] in Hfin.
  injection Hfin as <- <- <- <-. split; [done|]. cbn [SResult]. rewrite Z.add_0_l.
  by eapply accepted_stream.
Qed.

(** The counter of [ReplaySpec], recorded: two calls of [tick], each asking the
    host once; the stream is cut in the middle of a record. *)
Definition value_record (variable : string) (text : string) : json :=
  JObj [($"Value", JObj [($"variable_id", JNum (bytes_of_string variable));
                         ($"value", JObj [($"kind", JStr ($"Int")); ($"i", JStr (bytes_of_string text))])])].
Definition tick_records (host total : string) : list json :=
  [JObj [($"Call", JObj [($"function_id", JNum ($"0"))])];
   value_record "0" host; value_record "1" total; JObj [($"Return", JObj [])]].
Definition counter_records : list json :=
  JObj [($"Function", JObj [($"name", JStr ($"tick")); ($"line", JNum ($"1"))])] ::
  JObj [($"VariableName", JStr ($"import #0:ret0"))] :: JObj [($"VariableName", JStr ($"tick:ret0"))] ::
  tick_records "5" "5" ++ tick_records "7" "12".
Definition counter_json : list Z := Eval vm_compute in print_json (JArr counter_records).
Definition counter_reads : list (list Z * Stream.read_status) :=
  [(take 100 counter_json, Stream.RNil); (drop 100 counter_json, Stream.REOF)].

(** The streaming driver accepts it. *)
Example counter_stream_accepted :
  StreamingReplay (Runtime0 := counter_runtime) (fun _ => None) counter_module None 3
    (whole (mkRecording [] None false)) (Stream.NewStreamReader counter_reads) tt =
  Some (Ok (mkStreamResult (mkResult 2 2 0 0 2) None, ∅, 12, tt)).
Proof. vm_compute. reflexivity. Qed.

Lemma streaming_replay_sound_witness :
  exists fuel res,
    StreamingReplay (Runtime0 := counter_runtime) (fun _ => None) counter_module None fuel
      (whole (mkRecording [] None false)) (Stream.NewStreamReader counter_reads) tt = Some res /\
    forall out ps g h', res = Ok (out, ps, g, h') -> STruncation out = None /\
      Replay (Runtime0 := counter_runtime) (fun _ => None) counter_module None (whole counter_recording) tt =
        Ok (SResult out, ps, g, h').
Proof.
  destruct (Assembler.Unmarshal_events counter_json) as [evs|] eqn:Ee; [|vm_compute in Ee; discriminate Ee].
  apply (streaming_replay_sound (Runtime0 := counter_runtime) (fun _ => None) counter_module None counter_reads
    counter_json counter_records evs (Crossings counter_recording) false None tt).
  - vm_compute. reflexivity.
  - vm_compute. reflexivity.
  - repeat (constructor; [exact I|]). constructor.
  - exact Ee.
  - vm_compute in Ee. injection Ee as <-. vm_compute. reflexivity.
  - discriminate.
  - vm_compute. reflexivity.
Defined.

(** ** Host state that arrives too late

    A guest that imports a global of [env] and no memory: it cannot be
    instantiated unless a provider supplies the module. *)
Definition global_module : CompiledModule := mkCompiled [] {[ $"f" := mkFunction [] ($"f") [] [] ]} [].
Definition global_runtime : Runtime unit := {|
  BuildStubs := fun _ _ => true;
  InstantiateWithConfig := fun _ _ => Some (mkProvider ∅ {[ $"g" := mkProvidedGlobal false 5 ]});
  InstantiateModuleWithRecord := fun ps => match ps !! $"env" with Some _ => Returns [] ps tt | None => Traps end;
  Call := fun _ _ ps g => Returns [] ps g |}.
Definition global_records : list json :=
  [JObj [($"Event", JObj [($"kind", JNum ($"12"));
     ($"metadata", JStr (print_json (JObj [($"boundary_id", JStr hostStateBoundary); ($"version", JNum ($"1"));
        ($"record", JStr ($"initial"));
        ($"initial", JObj [($"globals", JArr [JObj [($"module", JStr ($"env")); ($"name", JStr ($"g"));
          ($"type", JStr ($"i32")); ($"mutable", JBool false); ($"value", JStr ($"5"))]])])])))])];
   JObj [($"Function", JObj [($"name", JStr ($"f")); ($"line", JNum ($"1"))])];
   JObj [($"Call", JObj [($"function_id", JNum ($"0"))])]; JObj [($"Return", JObj [])]].
Definition global_json : list Z := Eval vm_compute in print_json (JArr global_records).

(** A recording whose host state is in the stream, of a module that imports
    a global but no memory, is accepted by the batch driver and refused by the
    streaming one: the streaming driver instantiates the module before it has
    read anything, since it waits only for imported memories, so the global's
    provider does not exist. *)
Theorem streamed_global_refused :
  (exists rec ps, Assembler.LoadRecording (fun _ => None) global_json None = Ok rec /\
     Replay (Runtime0 := global_runtime) (fun _ => None) global_module None (whole rec) tt =
       Ok (mkResult 1 0 0 0 1, ps, tt, tt)) /\
  forall fuel,
    StreamingReplay (Runtime0 := global_runtime) (fun _ => None) global_module None fuel
      (whole (mkRecording [] None false)) (Stream.NewStreamReader [(global_json, Stream.REOF)]) tt =
    Some (Err ErrInstantiate).
Proof.
  split; [|intros fuel; vm_compute; reflexivity].
  eexists _, _. split; [vm_compute; reflexivity|]. vm_compute. reflexivity.
Qed.


End StreamSpec.
