(* ===== verification/WasmBinary.v ===== *)
(** * The WebAssembly binary decoder: [internal/wasm/binary]

    [DecodeModule] and every decoder it calls, over a [bytes.Reader], with the
    enabled features and the memory limits as the caller passes them.  A
    decoder is a state-and-error computation on the reader ([parser]); an
    error keeps the chain of messages that wraps it.

    The decoded module has the fields the decoder sets; the DWARF sections are
    returned as the arguments handed to [dwarf.New].  [WasmBinarySpec] has the
    theorems. *)
From S2P Require Import Prelude Leb128 GoStd Opcodes.

Module WasmBinary.
Import GoStd.
Export Opcodes.

(** ** Errors *)
Inductive dec_err : Type :=
| Eof
| UnexpectedEof
| Overflow (e : Leb128.leb_err)
| ErrInvalidByte
| ErrInvalidMagicNumber
| ErrInvalidVersion
| ErrInvalidSectionID
| Disabled (feature : Z)
| Msg (what : string) (args : list Z)
| Wrap (what : string) (e : dec_err)
| WrapAt (what : string) (i : Z) (e : dec_err)
| InSection (id : Z) (e : dec_err)
| Direct (e : dec_err)
| OutOfFuel.

(** ** [bytes.Reader] *)
Record Reader : Type := mkReader { r_s : list Z; r_i : nat }.

Definition NewReader (s : list Z) : Reader := mkReader s 0.
Definition unread (r : Reader) : list Z := drop (r_i r) (r_s r).
Definition Len (r : Reader) : Z := len (unread r).
Definition Size (r : Reader) : Z := len (r_s r).
Definition advance (r : Reader) (n : nat) : Reader := mkReader (r_s r) (r_i r + n).

Definition parser (A : Type) : Type := Reader -> result dec_err (A * Reader).

Definition pret {A} (a : A) : parser A := fun r => Ok (a, r).
Definition perr {A} (e : dec_err) : parser A := fun _ => Err e.
Definition pbind {A B} (p : parser A) (k : A -> parser B) : parser B := fun r =>
  match p r with Ok (a, r') => k a r' | Err e => Err e end.
(** [fmt.Errorf("what: %w", err)] around one call. *)
Definition wrap {A} (what : string) (p : parser A) : parser A := fun r => map_err (Wrap what) (p r).
Definition wrapAt {A} (what : string) (i : Z) (p : parser A) : parser A := fun r =>
  map_err (WrapAt what i) (p r).
Definition lift {A} (m : result dec_err A) : parser A := fun r => let! a := m in Ok (a, r).
Definition getr : parser Reader := fun r => Ok (r, r).

(** [read! x := p in k] is Go's [x, err := p(r); if err != nil { return err }; k]. *)
Notation "'read!' x ':=' p 'in' k" :=
  (pbind p (fun y => match y with x => k end))
  (at level 10, x pattern, p at level 99, k at level 200) : go_scope.
Notation "'refuse' b 'as' e ';;' k" :=
  (if b then perr e else k)
  (at level 10, b at level 99, e at level 99, k at level 200) : go_scope.

Definition ReadByte : parser Z := fun r =>
  match unread r with [] => Err Eof | b :: _ => Ok (b, advance r 1) end.

(** [io.ReadFull] into a buffer of [n] bytes. *)
Definition ReadFull (n : Z) : parser (list Z) := fun r =>
  if n <=? Len r then Ok (take (Z.to_nat n) (unread r), advance r (Z.to_nat n))
  else match unread r with [] => Err Eof | _ => Err UnexpectedEof end.

(** [bytes.Reader.Read]: a short count is not an error, and a reader at its
    end reports [io.EOF] whatever the size of the buffer. *)
Definition Read (n : Z) : parser (list Z) := fun r =>
  match unread r with
  | [] => Err Eof
  | _ => let got := take (Z.to_nat n) (unread r) in Ok (got, advance r (length got))
  end.

(** [io.CopyN(io.Discard, r, n)]. *)
Definition Discard (n : Z) : parser unit := fun r =>
  if n <=? Len r then Ok (tt, advance r (Z.to_nat n)) else Err Eof.

(** [r.Seek(-n, io.SeekCurrent)]. *)
Definition SeekBack (n : Z) : parser unit := fun r =>
  if Z.of_nat (r_i r) <? n then Err (Msg "bytes.Reader.Seek: negative position" [])
  else Ok (tt, mkReader (r_s r) (r_i r - Z.to_nat n)).

(** [r.ReadAt] into a buffer of [n] bytes; the position does not move. *)
Definition ReadAt (off n : Z) : parser (list Z) := fun r =>
  if Size r <=? off then Err Eof
  else let got := sub (r_s r) (Z.to_nat off) (Z.to_nat n) in
       if len got <? n then Err Eof else Ok (got, r).

(** ** LEB128 on the reader: [DecodeUint32], [DecodeInt32], [DecodeInt64] *)
Definition leb (e : Leb128.leb_err) : dec_err :=
  match e with Leb128.EOF => Eof | e => Overflow e end.
Definition decode_leb (load : list Z -> result Leb128.leb_err (Z * Z)) : parser (Z * Z) := fun r =>
  match load (unread r) with
  | Ok (v, n) => Ok ((v, n), advance r (Z.to_nat n))
  | Err e => Err (leb e)
  end.
Definition DecodeUint32 : parser (Z * Z) := decode_leb Leb128.LoadUint32.
Definition DecodeInt32 : parser (Z * Z) := decode_leb Leb128.LoadInt32.
Definition DecodeInt64 : parser (Z * Z) := decode_leb Leb128.LoadInt64.

(** The loop [for i := 0; i < n; i++] that decodes a vector, from index [i]. *)
Fixpoint repeatp {A} (n : nat) (i : Z) (p : Z -> parser A) : parser (list A) :=
  match n with
  | O => pret []
  | S n => read! x := p i in read! xs := repeatp n (i + 1) p in pret (x :: xs)
  end.

(** ** Features: [api/features.go], [experimental/features.go] *)
Definition CoreFeatureBulkMemoryOperations : Z := Z.shiftl 1 0.
Definition CoreFeatureMultiValue : Z := Z.shiftl 1 1.
Definition CoreFeatureMutableGlobal : Z := Z.shiftl 1 2.
Definition CoreFeatureNonTrappingFloatToIntConversion : Z := Z.shiftl 1 3.
Definition CoreFeatureReferenceTypes : Z := Z.shiftl 1 4.
Definition CoreFeatureSignExtensionOps : Z := Z.shiftl 1 5.
Definition CoreFeatureSIMD : Z := Z.shiftl 1 6.
Definition CoreFeaturesThreads : Z := Z.shiftl CoreFeatureSIMD 1.

Definition IsEnabled (f feature : Z) : bool := negb (Z.land f feature =? 0).
Definition RequireEnabled (f feature : Z) : parser unit :=
  if Z.land f feature =? 0 then perr (Disabled feature) else pret tt.

(** ** Value types *)
Definition ValueTypeI32 : Z := 0x7f.
Definition ValueTypeI64 : Z := 0x7e.
Definition ValueTypeF32 : Z := 0x7d.
Definition ValueTypeF64 : Z := 0x7c.
Definition ValueTypeV128 : Z := 0x7b.
Definition ValueTypeFuncref : Z := 0x70.
Definition ValueTypeExternref : Z := 0x6f.
Definition RefTypeFuncref : Z := ValueTypeFuncref.
Definition RefTypeExternref : Z := ValueTypeExternref.

Definition isValueType (v : Z) : bool :=
  (v =? ValueTypeI32) || (v =? ValueTypeF32) || (v =? ValueTypeI64) || (v =? ValueTypeF64) ||
  (v =? ValueTypeExternref) || (v =? ValueTypeFuncref) || (v =? ValueTypeV128).

Definition decodeValueTypes (num : Z) : parser (list Z) :=
  if num =? 0 then pret [] else
  read! ret := ReadFull num in
  match filter (fun v => negb (isValueType v)) ret with
  | v :: _ => perr (Msg "invalid value type" [v])
  | [] => pret ret
  end.

(** ** [unicode/utf8.Valid] *)
Definition in_range (lo hi b : Z) : bool := (lo <=? b) && (b <=? hi).
(** The length of the encoding a first byte starts and the range of its
    second byte. *)
Definition utf8_first (b : Z) : option (nat * Z * Z) :=
  if in_range 0xc2 0xdf b then Some (2%nat, 0x80, 0xbf)
  else if b =? 0xe0 then Some (3%nat, 0xa0, 0xbf)
  else if in_range 0xe1 0xec b || in_range 0xee 0xef b then Some (3%nat, 0x80, 0xbf)
  else if b =? 0xed then Some (3%nat, 0x80, 0x9f)
  else if b =? 0xf0 then Some (4%nat, 0x90, 0xbf)
  else if in_range 0xf1 0xf3 b then Some (4%nat, 0x80, 0xbf)
  else if b =? 0xf4 then Some (4%nat, 0x80, 0x8f)
  else None.
Definition cont (b : Z) : bool := in_range 0x80 0xbf b.

Fixpoint Valid (s : gostring) : bool :=
  match s with
  | [] => true
  | b :: s1 =>
      if b <? 0x80 then Valid s1 else
      match utf8_first b, s1 with
      | Some (2%nat, lo, hi), b1 :: s2 => in_range lo hi b1 && Valid s2
      | Some (3%nat, lo, hi), b1 :: b2 :: s3 => in_range lo hi b1 && cont b2 && Valid s3
      | Some (4%nat, lo, hi), b1 :: b2 :: b3 :: s4 =>
          in_range lo hi b1 && cont b2 && cont b3 && Valid s4
      | _, _ => false
      end
  end.

(** [decodeUTF8] returns the string and the count of bytes read, at 32 bits. *)
Definition decodeUTF8 (context : string) : parser (gostring * Z) :=
  read! (size, sizeOfSize) := wrap context DecodeUint32 in
  if size =? 0 then pret ([], u32 sizeOfSize) else
  read! buf := wrap context (ReadFull size) in
  refuse negb (Valid buf) as Wrap context (Msg "is not valid UTF-8" []) ;;
  pret (buf, u32 (size + u32 sizeOfSize)).

(** ** The parts of a module: [internal/wasm/module.go], [table.go] *)
Record FunctionType : Type := mkFunctionType {
  ft_Params : list Z; ft_Results : list Z; ft_string : gostring }.
Record ConstantExpression : Type := mkConst { ce_Opcode : Z; ce_Data : list Z }.
Record Table : Type := mkTable { tb_Min : Z; tb_Max : option Z; tb_Type : Z }.
Record Memory : Type := mkMemory {
  me_Min : Z; me_Cap : Z; me_Max : Z; me_IsMaxEncoded : bool; me_IsShared : bool }.
Record GlobalType : Type := mkGlobalType { gt_ValType : Z; gt_Mutable : bool }.
Record Global : Type := mkGlobal { gl_Type : GlobalType; gl_Init : ConstantExpression }.
Record Import : Type := mkImport {
  im_Type : Z; im_Module : gostring; im_Name : gostring; im_DescFunc : Z; im_DescTable : Table;
  im_DescMem : option Memory; im_DescGlobal : GlobalType; im_IndexPerType : Z }.
Record Export : Type := mkExport { ex_Type : Z; ex_Name : gostring; ex_Index : Z }.
Record Code : Type := mkCode { co_LocalTypes : list Z; co_Body : list Z; co_BodyOffset : Z }.
Record DataSegment : Type := mkData {
  da_OffsetExpression : ConstantExpression; da_Init : list Z; da_Passive : bool }.
Inductive ElementMode : Type := ElementModeActive | ElementModePassive | ElementModeDeclarative.
Record ElementSegment : Type := mkElement {
  el_OffsetExpr : ConstantExpression; el_TableIndex : Z; el_Init : list Z; el_Type : Z;
  el_Mode : ElementMode }.
Record NameAssoc : Type := mkNameAssoc { na_Index : Z; na_Name : gostring }.
Record NameMapAssoc : Type := mkNameMapAssoc { nm_Index : Z; nm_NameMap : list NameAssoc }.
Record NameSection : Type := mkNameSection {
  ns_ModuleName : gostring; ns_FunctionNames : list NameAssoc; ns_LocalNames : list NameMapAssoc }.
Record CustomSection : Type := mkCustom { cs_Name : gostring; cs_Data : list Z }.

(** Go's zero values. *)
Definition zeroConst : ConstantExpression := mkConst 0 [].
Definition zeroTable : Table := mkTable 0 None 0.
Definition zeroGlobalType : GlobalType := mkGlobalType 0 false.

Definition ExternTypeFunc : Z := 0x00.
Definition ExternTypeTable : Z := 0x01.
Definition ExternTypeMemory : Z := 0x02.
Definition ExternTypeGlobal : Z := 0x03.

Definition MaximumFunctionIndex : Z := Z.shiftl 1 27.
Definition ElementInitNullReference : Z := Z.shiftl 1 31.
Definition elementInitImportedGlobalReferenceType : Z := Z.shiftl 1 30.
Definition MemoryLimitPages : Z := 65536.

(** ** [FunctionType.key]: the text that identifies a type in the store *)
Definition ValueTypeName (t : Z) : gostring :=
  if t =? ValueTypeFuncref then $"funcref"
  else if t =? ValueTypeV128 then $"v128"
  else if t =? ValueTypeI32 then $"i32"
  else if t =? ValueTypeI64 then $"i64"
  else if t =? ValueTypeF32 then $"f32"
  else if t =? ValueTypeF64 then $"f64"
  else if t =? ValueTypeExternref then $"externref"
  else $"unknown".

Definition key (params results : list Z) : gostring :=
  let ret := concat (ValueTypeName <$> params) in
  let ret := ret ++ (if len params =? 0 then $"v_" else $"_") in
  let ret := ret ++ concat (ValueTypeName <$> results) in
  if len results =? 0 then ret ++ $"v" else ret.

(** [perModule] keeps, per module name, the positions of its imports; the
    counters are [uint32]. *)
Record importState : Type := mkImports {
  is_result : list Import; is_perModule : gmap (list Z) (list nat);
  is_func : Z; is_global : Z; is_memory : Z; is_table : Z }.

(** ** The module: [wasm.Module], the fields the decoder sets *)
Record Module' : Type := mkModule {
  TypeSection : list FunctionType;
  ImportSection : list Import;
  ImportFunctionCount : Z;
  ImportGlobalCount : Z;
  ImportMemoryCount : Z;
  ImportTableCount : Z;
  ImportPerModule : gmap (list Z) (list nat);
  FunctionSection : list Z;
  TableSection : list Table;
  MemorySection : option Memory;
  GlobalSection : list Global;
  ExportSection : list Export;
  Exports : gmap (list Z) nat;
  StartSection : option Z;
  ElementSection : list ElementSegment;
  CodeSection : list Code;
  DataSection : list DataSegment;
  NameSec : option NameSection;
  CustomSections : list CustomSection;
  DataCountSection : option Z }.
Definition emptyModule : Module' :=
  mkModule [] [] 0 0 0 0 ∅ [] [] None [] [] ∅ None [] [] [] None [] None.

Definition set_TypeSection (m : Module') (v : list FunctionType) : Module' :=
  mkModule v (ImportSection m) (ImportFunctionCount m) (ImportGlobalCount m) (ImportMemoryCount m)
    (ImportTableCount m) (ImportPerModule m) (FunctionSection m) (TableSection m)
    (MemorySection m) (GlobalSection m) (ExportSection m) (Exports m) (StartSection m)
    (ElementSection m) (CodeSection m) (DataSection m) (NameSec m) (CustomSections m)
    (DataCountSection m).
Definition set_FunctionSection (m : Module') (v : list Z) : Module' :=
  mkModule (TypeSection m) (ImportSection m) (ImportFunctionCount m) (ImportGlobalCount m)
    (ImportMemoryCount m) (ImportTableCount m) (ImportPerModule m) v (TableSection m)
    (MemorySection m) (GlobalSection m) (ExportSection m) (Exports m) (StartSection m)
    (ElementSection m) (CodeSection m) (DataSection m) (NameSec m) (CustomSections m)
    (DataCountSection m).
Definition set_TableSection (m : Module') (v : list Table) : Module' :=
  mkModule (TypeSection m) (ImportSection m) (ImportFunctionCount m) (ImportGlobalCount m)
    (ImportMemoryCount m) (ImportTableCount m) (ImportPerModule m) (FunctionSection m) v
    (MemorySection m) (GlobalSection m) (ExportSection m) (Exports m) (StartSection m)
    (ElementSection m) (CodeSection m) (DataSection m) (NameSec m) (CustomSections m)
    (DataCountSection m).
Definition set_MemorySection (m : Module') (v : option Memory) : Module' :=
  mkModule (TypeSection m) (ImportSection m) (ImportFunctionCount m) (ImportGlobalCount m)
    (ImportMemoryCount m) (ImportTableCount m) (ImportPerModule m) (FunctionSection m)
    (TableSection m) v (GlobalSection m) (ExportSection m) (Exports m) (StartSection m)
    (ElementSection m) (CodeSection m) (DataSection m) (NameSec m) (CustomSections m)
    (DataCountSection m).
Definition set_GlobalSection (m : Module') (v : list Global) : Module' :=
  mkModule (TypeSection m) (ImportSection m) (ImportFunctionCount m) (ImportGlobalCount m)
    (ImportMemoryCount m) (ImportTableCount m) (ImportPerModule m) (FunctionSection m)
    (TableSection m) (MemorySection m) v (ExportSection m) (Exports m) (StartSection m)
    (ElementSection m) (CodeSection m) (DataSection m) (NameSec m) (CustomSections m)
    (DataCountSection m).
Definition set_StartSection (m : Module') (v : option Z) : Module' :=
  mkModule (TypeSection m) (ImportSection m) (ImportFunctionCount m) (ImportGlobalCount m)
    (ImportMemoryCount m) (ImportTableCount m) (ImportPerModule m) (FunctionSection m)
    (TableSection m) (MemorySection m) (GlobalSection m) (ExportSection m) (Exports m) v
    (ElementSection m) (CodeSection m) (DataSection m) (NameSec m) (CustomSections m)
    (DataCountSection m).
Definition set_ElementSection (m : Module') (v : list ElementSegment) : Module' :=
  mkModule (TypeSection m) (ImportSection m) (ImportFunctionCount m) (ImportGlobalCount m)
    (ImportMemoryCount m) (ImportTableCount m) (ImportPerModule m) (FunctionSection m)
    (TableSection m) (MemorySection m) (GlobalSection m) (ExportSection m) (Exports m)
    (StartSection m) v (CodeSection m) (DataSection m) (NameSec m) (CustomSections m)
    (DataCountSection m).
Definition set_CodeSection (m : Module') (v : list Code) : Module' :=
  mkModule (TypeSection m) (ImportSection m) (ImportFunctionCount m) (ImportGlobalCount m)
    (ImportMemoryCount m) (ImportTableCount m) (ImportPerModule m) (FunctionSection m)
    (TableSection m) (MemorySection m) (GlobalSection m) (ExportSection m) (Exports m)
    (StartSection m) (ElementSection m) v (DataSection m) (NameSec m) (CustomSections m)
    (DataCountSection m).
Definition set_DataSection (m : Module') (v : list DataSegment) : Module' :=
  mkModule (TypeSection m) (ImportSection m) (ImportFunctionCount m) (ImportGlobalCount m)
    (ImportMemoryCount m) (ImportTableCount m) (ImportPerModule m) (FunctionSection m)
    (TableSection m) (MemorySection m) (GlobalSection m) (ExportSection m) (Exports m)
    (StartSection m) (ElementSection m) (CodeSection m) v (NameSec m) (CustomSections m)
    (DataCountSection m).
Definition set_NameSec (m : Module') (v : option NameSection) : Module' :=
  mkModule (TypeSection m) (ImportSection m) (ImportFunctionCount m) (ImportGlobalCount m)
    (ImportMemoryCount m) (ImportTableCount m) (ImportPerModule m) (FunctionSection m)
    (TableSection m) (MemorySection m) (GlobalSection m) (ExportSection m) (Exports m)
    (StartSection m) (ElementSection m) (CodeSection m) (DataSection m) v (CustomSections m)
    (DataCountSection m).
Definition set_CustomSections (m : Module') (v : list CustomSection) : Module' :=
  mkModule (TypeSection m) (ImportSection m) (ImportFunctionCount m) (ImportGlobalCount m)
    (ImportMemoryCount m) (ImportTableCount m) (ImportPerModule m) (FunctionSection m)
    (TableSection m) (MemorySection m) (GlobalSection m) (ExportSection m) (Exports m)
    (StartSection m) (ElementSection m) (CodeSection m) (DataSection m) (NameSec m) v
    (DataCountSection m).
Definition set_DataCountSection (m : Module') (v : option Z) : Module' :=
  mkModule (TypeSection m) (ImportSection m) (ImportFunctionCount m) (ImportGlobalCount m)
    (ImportMemoryCount m) (ImportTableCount m) (ImportPerModule m) (FunctionSection m)
    (TableSection m) (MemorySection m) (GlobalSection m) (ExportSection m) (Exports m)
    (StartSection m) (ElementSection m) (CodeSection m) (DataSection m) (NameSec m)
    (CustomSections m) v.
Definition set_ExportSection (m : Module') (v : list Export) (x : gmap (list Z) nat) : Module' :=
  mkModule (TypeSection m) (ImportSection m) (ImportFunctionCount m) (ImportGlobalCount m)
    (ImportMemoryCount m) (ImportTableCount m) (ImportPerModule m) (FunctionSection m)
    (TableSection m) (MemorySection m) (GlobalSection m) v x (StartSection m) (ElementSection m)
    (CodeSection m) (DataSection m) (NameSec m) (CustomSections m) (DataCountSection m).
Definition set_ImportSection (m : Module') (s : importState) : Module' :=
  mkModule (TypeSection m) (is_result s) (is_func s) (is_global s) (is_memory s) (is_table s)
    (is_perModule s) (FunctionSection m) (TableSection m) (MemorySection m) (GlobalSection m)
    (ExportSection m) (Exports m) (StartSection m) (ElementSection m) (CodeSection m)
    (DataSection m) (NameSec m) (CustomSections m) (DataCountSection m).

Section decoders.
(** The arguments of [DecodeModule]. *)
Variable enabledFeatures memoryLimitPages : Z.
Variable memoryCapacityFromMax dwarfEnabled storeCustomSections : bool.

(** ** [function.go] *)
Definition decodeFunctionType : parser FunctionType :=
  read! b := wrap "read leading byte" ReadByte in
  refuse negb (b =? 0x60) as ErrInvalidByte ;;
  read! (paramCount, _) := wrap "could not read parameter count" DecodeUint32 in
  read! paramTypes := wrap "could not read parameter types" (decodeValueTypes paramCount) in
  read! (resultCount, _) := wrap "could not read result count" DecodeUint32 in
  read! _ := (if 1 <? resultCount
              then wrap "multiple result types invalid as" (RequireEnabled enabledFeatures CoreFeatureMultiValue)
              else pret tt) in
  read! resultTypes := wrap "could not read result types" (decodeValueTypes resultCount) in
  pret (mkFunctionType paramTypes resultTypes (key paramTypes resultTypes)).

(** ** [limits.go] *)
Definition decodeLimitsType : parser (Z * option Z * bool) :=
  read! flag := wrap "read leading byte" ReadByte in
  let shared := (flag =? 0x02) || (flag =? 0x03) in
  if (flag =? 0x00) || (flag =? 0x02) then
    read! (min, _) := wrap "read min of limit" DecodeUint32 in
    pret (min, None, shared)
  else if (flag =? 0x01) || (flag =? 0x03) then
    read! (min, _) := wrap "read min of limit" DecodeUint32 in
    read! (m, _) := wrap "read max of limit" DecodeUint32 in
    pret (min, Some m, shared)
  else perr (Wrap "for limits" ErrInvalidByte).

(** ** [memory.go], [newMemorySizer] and [Memory.Validate] *)
Definition newMemorySizer (minPages : Z) (maxPages : option Z) : Z * Z * Z :=
  match maxPages with
  | Some maxPages =>
      if memoryCapacityFromMax then (minPages, maxPages, maxPages)
      else if MemoryLimitPages <? maxPages then (minPages, minPages, maxPages)
      else if memoryLimitPages <? maxPages then (minPages, minPages, memoryLimitPages)
      else (minPages, minPages, maxPages)
  | None =>
      if memoryCapacityFromMax then (minPages, memoryLimitPages, memoryLimitPages)
      else (minPages, minPages, memoryLimitPages)
  end.

Definition Memory_Validate (m : Memory) : result dec_err unit :=
  let '(min, capacity, max) := (me_Min m, me_Cap m, me_Max m) in
  if memoryLimitPages <? max then Err (Msg "max over limit" [max; memoryLimitPages])
  else if memoryLimitPages <? min then Err (Msg "min over limit" [min; memoryLimitPages])
  else if max <? min then Err (Msg "min > max" [min; max])
  else if capacity <? min then Err (Msg "capacity less than minimum" [capacity; min])
  else if memoryLimitPages <? capacity then Err (Msg "capacity over limit" [capacity; memoryLimitPages])
  else Ok tt.

Definition decodeMemory : parser Memory :=
  read! (min, maxP, shared) := decodeLimitsType in
  refuse shared && negb (IsEnabled enabledFeatures CoreFeaturesThreads)
    as Msg "shared memory requested but threads feature not enabled" [] ;;
  refuse shared && bool_decide (maxP = None)
    as Msg "shared memory requires a maximum size to be specified" [] ;;
  let '(min, capacity, max) := newMemorySizer min maxP in
  let mem := mkMemory min capacity max (bool_decide (is_Some maxP)) shared in
  read! _ := lift (Memory_Validate mem) in
  pret mem.

(** ** [table.go] *)
Definition decodeTable : parser Table :=
  read! type := wrap "read leading byte" ReadByte in
  read! _ := (if negb (type =? RefTypeFuncref)
              then wrap "table type funcref is invalid" (RequireEnabled enabledFeatures CoreFeatureReferenceTypes)
              else pret tt) in
  read! (min, max, shared) := wrap "read limits" decodeLimitsType in
  refuse MaximumFunctionIndex <? min as Msg "table min must be at most" [MaximumFunctionIndex] ;;
  refuse (match max with Some m => m <? min | None => false end)
    as Msg "table size minimum must not be greater than maximum" [] ;;
  refuse shared as Msg "tables cannot be marked as shared" [] ;;
  pret (mkTable min max type).

(** ** [const_expr.go] *)

(** The [switch] of [decodeConstantExpression]: the opcode, and the number of
    bytes unread where its data starts. *)
Definition const_immediate (opcode remainingBeforeData : Z) : parser (Z * Z) :=
  let data (p : parser (Z * Z)) : parser (Z * Z) :=
    read! _ := wrap "read value" p in pret (opcode, remainingBeforeData) in
  if opcode =? OpcodeI32Const then data DecodeInt32
  else if opcode =? OpcodeI64Const then data DecodeInt64
  else if opcode =? OpcodeF32Const then
    read! _ := wrap "read f32 constant" (ReadFull 4) in pret (opcode, remainingBeforeData)
  else if opcode =? OpcodeF64Const then
    read! _ := wrap "read f64 constant" (ReadFull 8) in pret (opcode, remainingBeforeData)
  else if opcode =? OpcodeGlobalGet then data DecodeUint32
  else if opcode =? OpcodeRefNull then
    read! _ := wrap "ref.null is not supported as" (RequireEnabled enabledFeatures CoreFeatureBulkMemoryOperations) in
    read! reftype := wrap "read reference type for ref.null" ReadByte in
    refuse negb (reftype =? RefTypeFuncref) && negb (reftype =? RefTypeExternref)
      as Msg "invalid type for ref.null" [reftype] ;;
    pret (opcode, remainingBeforeData)
  else if opcode =? OpcodeRefFunc then
    read! _ := wrap "ref.func is not supported as" (RequireEnabled enabledFeatures CoreFeatureBulkMemoryOperations) in
    data DecodeUint32
  else if opcode =? OpcodeVecPrefix then
    read! _ := wrap "vector instructions are not supported as" (RequireEnabled enabledFeatures CoreFeatureSIMD) in
    read! opcode := wrap "read vector instruction opcode suffix" ReadByte in
    refuse negb (opcode =? OpcodeVecV128Const) as Msg "invalid vector opcode for const expression" [opcode] ;;
    read! r := getr in
    read! got := wrap "read vector const instruction immediates" (Read 16) in
    refuse negb (len got =? 16) as Msg "needs 16 bytes" [len got] ;;
    pret (opcode, Len r)
  else perr (Wrap "for const expression opt code" ErrInvalidByte).

Definition decodeConstantExpression : parser ConstantExpression :=
  read! b := wrap "read opcode" ReadByte in
  read! r := getr in
  read! (opcode, remainingBeforeData) := const_immediate b (Len r) in
  let offsetAtData := Size r - remainingBeforeData in
  read! b := wrap "look for end opcode" ReadByte in
  refuse negb (b =? OpcodeEnd) as Msg "constant expression has been not terminated" [] ;;
  read! r := getr in
  read! data := wrap "error re-buffering ConstantExpression.Data"
                  (ReadAt offsetAtData (remainingBeforeData - Len r - 1)) in
  pret (mkConst opcode data).

(** ** [global.go] *)
Definition decodeGlobalType : parser GlobalType :=
  read! vt := wrap "read value type" (decodeValueTypes 1) in
  read! b := wrap "read mutablity" ReadByte in
  let vt0 := default 0 (head vt) in
  if b =? 0x00 then pret (mkGlobalType vt0 false)
  else if b =? 0x01 then pret (mkGlobalType vt0 true)
  else perr (Wrap "for mutability" ErrInvalidByte).

Definition decodeGlobal : parser Global :=
  read! t := decodeGlobalType in
  read! init := decodeConstantExpression in
  pret (mkGlobal t init).

(** ** [import.go]; [IndexPerType] is set by the section *)
Definition decodeImport (idx : Z) : parser Import :=
  read! (module, _) := wrapAt "import error decoding module" idx (decodeUTF8 "import module") in
  read! (name, _) := wrapAt "import error decoding name" idx (decodeUTF8 "import name") in
  read! b := wrapAt "import error decoding type" idx ReadByte in
  wrapAt "import" idx
    (if b =? ExternTypeFunc then
       read! (i, _) := DecodeUint32 in
       pret (mkImport b module name i zeroTable None zeroGlobalType 0)
     else if b =? ExternTypeTable then
       read! t := decodeTable in
       pret (mkImport b module name 0 t None zeroGlobalType 0)
     else if b =? ExternTypeMemory then
       read! m := decodeMemory in
       pret (mkImport b module name 0 zeroTable (Some m) zeroGlobalType 0)
     else if b =? ExternTypeGlobal then
       read! g := decodeGlobalType in
       pret (mkImport b module name 0 zeroTable None g 0)
     else perr (Wrap "invalid byte for importdesc" ErrInvalidByte)).

(** ** [export.go] *)
Definition decodeExport : parser Export :=
  read! (name, _) := decodeUTF8 "export name" in
  read! b := wrap "error decoding export kind" ReadByte in
  if (b =? ExternTypeFunc) || (b =? ExternTypeTable) || (b =? ExternTypeMemory) || (b =? ExternTypeGlobal) then
    read! (i, _) := wrap "error decoding export index" DecodeUint32 in
    pret (mkExport b name i)
  else perr (Wrap "invalid byte for exportdesc" ErrInvalidByte).

(** ** [code.go] *)
(** The loop that validates the locals: the bytes it read and the sum of the
    counts. *)
Fixpoint check_locals (n : nat) (remaining bytesRead sum : Z) : parser (Z * Z) :=
  match n with
  | O => pret (bytesRead, sum)
  | S n =>
      read! (num, k) := wrap "read n of locals" DecodeUint32 in
      refuse remaining <? 0 as Eof ;;
      let sum := u64 (sum + num) in
      read! b := wrap "read type of local" ReadByte in
      let bytesRead := bytesRead + (k + 1) in
      refuse negb (isValueType b) as Msg "invalid local type" [b] ;;
      check_locals n remaining bytesRead sum
  end.

(** The loop that reads them again and fills [localTypes]. *)
Fixpoint read_locals (n : nat) (remaining : Z) (localTypes : list Z) : parser (Z * list Z) :=
  match n with
  | O => pret (remaining, localTypes)
  | S n =>
      read! (num, bytesRead) := wrap "read n of locals" DecodeUint32 in
      let remaining := remaining - (bytesRead + 1) in
      refuse remaining <? 0 as Eof ;;
      read! b := wrap "read type of local" ReadByte in
      read_locals n remaining (localTypes ++ replicate (Z.to_nat num) b)
  end.

Definition MaxUint32 : Z := 4294967295.

Definition decodeCode (codeSectionStart : Z) : parser Code :=
  read! (ss, _) := wrap "get the size of code" DecodeUint32 in
  let remaining := ss in
  read! (ls, bytesRead) := wrap "get the size locals" DecodeUint32 in
  let remaining := remaining - bytesRead in
  refuse remaining <? 0 as Eof ;;
  read! (bytesRead, sum) := check_locals (Z.to_nat ls) remaining 0 0 in
  refuse MaxUint32 <? sum as Msg "too many locals" [sum] ;;
  read! _ := SeekBack bytesRead in
  read! (remaining, localTypes) := read_locals (Z.to_nat ls) remaining [] in
  read! r := getr in
  let bodyOffsetInCodeSection := u64 (codeSectionStart - Len r) in
  read! body := wrap "read body" (ReadFull remaining) in
  match last body with
  | Some b =>
      refuse negb (b =? OpcodeEnd) as Msg "expr not end with OpcodeEnd" [] ;;
      pret (mkCode localTypes body bodyOffsetInCodeSection)
  | None => perr (Msg "expr not end with OpcodeEnd" [])
  end.

(** ** [data.go] *)
Definition dataSegmentPrefixActive : Z := 0x0.
Definition dataSegmentPrefixPassive : Z := 0x1.
Definition dataSegmentPrefixActiveWithMemoryIndex : Z := 0x2.

Definition data_mode (prefix : Z) : parser (ConstantExpression * bool) :=
  if (prefix =? dataSegmentPrefixActive) || (prefix =? dataSegmentPrefixActiveWithMemoryIndex) then
    read! _ := (if prefix =? 0x2 then
                  read! (d, _) := wrap "read memory index" DecodeUint32 in
                  refuse negb (d =? 0) as Msg "memory index must be zero but was" [d] ;;
                  pret tt
                else pret tt) in
    read! e := wrap "read offset expression" decodeConstantExpression in
    pret (e, false)
  else if prefix =? dataSegmentPrefixPassive then pret (zeroConst, true)
  else perr (Msg "invalid data segment prefix" [prefix]).

Definition decodeDataSegment : parser DataSegment :=
  read! (prefix, _) := wrap "read data segment prefix" DecodeUint32 in
  read! _ := (if negb (prefix =? dataSegmentPrefixActive)
              then wrap "non-zero prefix for data segment is invalid as"
                     (RequireEnabled enabledFeatures CoreFeatureBulkMemoryOperations)
              else pret tt) in
  read! (e, passive) := data_mode prefix in
  read! (vs, _) := wrap "get the size of vector" DecodeUint32 in
  read! init := wrap "read bytes for init" (ReadFull vs) in
  pret (mkData e init passive).

(** ** [element.go] *)
Definition ensureElementKindFuncRef : parser unit :=
  read! elemKind := wrap "read element prefix" ReadByte in
  refuse negb (elemKind =? 0x0) as Msg "element kind must be zero but was" [elemKind] ;;
  pret tt.

Definition decodeElementInitValueVector : parser (list Z) :=
  read! (vs, _) := wrap "get size of vector" DecodeUint32 in
  repeatp (Z.to_nat vs) 0 (fun _ =>
    read! (v, _) := wrap "read function index" DecodeUint32 in
    refuse MaximumFunctionIndex <=? v as Msg "too large function index in Element init" [v] ;;
    pret v).

Definition WrapGlobalIndexAsElementInit (init : Z) : Z :=
  Z.lor init elementInitImportedGlobalReferenceType.
Definition unwrapElementInitGlobalReference (init : Z) : Z * bool :=
  if Z.land init elementInitImportedGlobalReferenceType =? elementInitImportedGlobalReferenceType
  then (Z.ldiff init elementInitImportedGlobalReferenceType, true)
  else (init, false).

(** [v, _, _ := leb128.Load...]: zero when the load fails. *)
Definition loaded (r : result Leb128.leb_err (Z * Z)) : Z :=
  match r with Ok (v, _) => v | Err _ => 0 end.

Definition element_init (elemType : Z) (expr : ConstantExpression) : result dec_err Z :=
  if ce_Opcode expr =? OpcodeRefFunc then
    reject negb (elemType =? RefTypeFuncref) as Msg "element type mismatch" [elemType] ;;
    let v := loaded (Leb128.LoadUint32 (ce_Data expr)) in
    reject MaximumFunctionIndex <=? v as Msg "too large function index in Element init" [v] ;;
    Ok v
  else if ce_Opcode expr =? OpcodeRefNull then
    let t := default 0 (head (ce_Data expr)) in
    reject negb (elemType =? t) as Msg "element type mismatch" [elemType; t] ;;
    Ok ElementInitNullReference
  else if ce_Opcode expr =? OpcodeGlobalGet then
    let i := loaded (Leb128.LoadInt32 (ce_Data expr)) in
    Ok (WrapGlobalIndexAsElementInit (u32 i))
  else Err (Msg "const expr must be either ref.null or ref.func but was" [ce_Opcode expr]).

Definition decodeElementConstExprVector (elemType : Z) : parser (list Z) :=
  read! (vs, _) := wrap "failed to get the size of constexpr vector" DecodeUint32 in
  repeatp (Z.to_nat vs) 0 (fun _ =>
    read! expr := decodeConstantExpression in
    lift (element_init elemType expr)).

Definition decodeElementRefType : parser Z :=
  read! ret := wrap "read element ref type" ReadByte in
  refuse negb (ret =? RefTypeFuncref) && negb (ret =? RefTypeExternref)
    as Msg "ref type must be funcref or externref for element as of WebAssembly 2.0" [] ;;
  pret ret.

Definition elementSegmentPrefixLegacy : Z := 0.
Definition elementSegmentPrefixPassiveFuncrefValueVector : Z := 1.
Definition elementSegmentPrefixActiveFuncrefValueVectorWithTableIndex : Z := 2.
Definition elementSegmentPrefixDeclarativeFuncrefValueVector : Z := 3.
Definition elementSegmentPrefixActiveFuncrefConstExprVector : Z := 4.
Definition elementSegmentPrefixPassiveConstExprVector : Z := 5.
Definition elementSegmentPrefixActiveConstExprVector : Z := 6.
Definition elementSegmentPrefixDeclarativeConstExprVector : Z := 7.

Definition element_table : parser Z :=
  read! (t, _) := wrap "get size of vector" DecodeUint32 in
  read! _ := (if negb (t =? 0)
              then wrapAt "table index must be zero but was" t
                     (RequireEnabled enabledFeatures CoreFeatureReferenceTypes)
              else pret tt) in
  pret t.
Definition element_offset : parser ConstantExpression :=
  wrap "read expr for offset" decodeConstantExpression.

Definition decodeElementSegment : parser ElementSegment :=
  read! (prefix, _) := wrap "read element prefix" DecodeUint32 in
  read! _ := (if negb (prefix =? elementSegmentPrefixLegacy)
              then wrap "non-zero prefix for element segment is invalid as"
                     (RequireEnabled enabledFeatures CoreFeatureBulkMemoryOperations)
              else pret tt) in
  if prefix =? elementSegmentPrefixLegacy then
    read! off := element_offset in
    read! init := decodeElementInitValueVector in
    pret (mkElement off 0 init RefTypeFuncref ElementModeActive)
  else if prefix =? elementSegmentPrefixPassiveFuncrefValueVector then
    read! _ := ensureElementKindFuncRef in
    read! init := decodeElementInitValueVector in
    pret (mkElement zeroConst 0 init RefTypeFuncref ElementModePassive)
  else if prefix =? elementSegmentPrefixActiveFuncrefValueVectorWithTableIndex then
    read! t := element_table in
    read! off := element_offset in
    read! _ := ensureElementKindFuncRef in
    read! init := decodeElementInitValueVector in
    pret (mkElement off t init RefTypeFuncref ElementModeActive)
  else if prefix =? elementSegmentPrefixDeclarativeFuncrefValueVector then
    read! _ := ensureElementKindFuncRef in
    read! init := decodeElementInitValueVector in
    pret (mkElement zeroConst 0 init RefTypeFuncref ElementModeDeclarative)
  else if prefix =? elementSegmentPrefixActiveFuncrefConstExprVector then
    read! off := element_offset in
    read! init := decodeElementConstExprVector RefTypeFuncref in
    pret (mkElement off 0 init RefTypeFuncref ElementModeActive)
  else if prefix =? elementSegmentPrefixPassiveConstExprVector then
    read! type := decodeElementRefType in
    read! init := decodeElementConstExprVector type in
    pret (mkElement zeroConst 0 init type ElementModePassive)
  else if prefix =? elementSegmentPrefixActiveConstExprVector then
    read! t := element_table in
    read! off := element_offset in
    read! type := decodeElementRefType in
    read! init := decodeElementConstExprVector type in
    pret (mkElement off t init type ElementModeActive)
  else if prefix =? elementSegmentPrefixDeclarativeConstExprVector then
    read! type := decodeElementRefType in
    read! init := decodeElementConstExprVector type in
    pret (mkElement zeroConst 0 init type ElementModeDeclarative)
  else perr (Msg "invalid element segment prefix" [prefix]).

(** ** [names.go] *)
Definition subsectionIDModuleName : Z := 0.
Definition subsectionIDFunctionNames : Z := 1.
Definition subsectionIDLocalNames : Z := 2.

Definition decodeFunctionIndex (subsectionID : Z) : parser Z :=
  read! (i, _) := wrapAt "failed to read a function index in subsection" subsectionID DecodeUint32 in pret i.
Definition decodeFunctionCount (subsectionID : Z) : parser Z :=
  read! (n, _) := wrapAt "failed to read the function count of subsection" subsectionID DecodeUint32 in pret n.

Definition decodeFunctionNames : parser (list NameAssoc) :=
  read! functionCount := decodeFunctionCount subsectionIDFunctionNames in
  repeatp (Z.to_nat functionCount) 0 (fun _ =>
    read! functionIndex := decodeFunctionIndex subsectionIDFunctionNames in
    read! (name, _) := decodeUTF8 "function name" in
    pret (mkNameAssoc functionIndex name)).

Definition decodeLocalNames : parser (list NameMapAssoc) :=
  read! functionCount := decodeFunctionCount subsectionIDLocalNames in
  repeatp (Z.to_nat functionCount) 0 (fun _ =>
    read! functionIndex := decodeFunctionIndex subsectionIDLocalNames in
    read! (localCount, _) := wrapAt "failed to read the local count for function" functionIndex DecodeUint32 in
    read! locals := repeatp (Z.to_nat localCount) 0 (fun _ =>
      read! (localIndex, _) := wrapAt "failed to read a local index of function" functionIndex DecodeUint32 in
      read! (name, _) := decodeUTF8 "function local name" in
      pret (mkNameAssoc localIndex name)) in
    pret (mkNameMapAssoc functionIndex locals)).

(** One known subsection, or the bytes of an unknown one skipped. *)
Definition decodeSubsection (id size : Z) (result : NameSection) : parser NameSection :=
  if id =? subsectionIDModuleName then
    read! (n, _) := decodeUTF8 "module name" in
    pret (mkNameSection n (ns_FunctionNames result) (ns_LocalNames result))
  else if id =? subsectionIDFunctionNames then
    read! ns := decodeFunctionNames in
    pret (mkNameSection (ns_ModuleName result) ns (ns_LocalNames result))
  else if id =? subsectionIDLocalNames then
    read! ns := decodeLocalNames in
    pret (mkNameSection (ns_ModuleName result) (ns_FunctionNames result) ns)
  else
    read! _ := wrapAt "failed to skip subsection" id (Discard size) in
    pret result.

(** [limit] is a [uint64] and wraps when the declared sizes exceed it; the
    loop then runs to the end of the binary. *)
Fixpoint decodeNameSection_loop (fuel : nat) (limit : Z) (result : NameSection) : parser NameSection :=
  match fuel with
  | O => perr OutOfFuel
  | S fuel =>
      if limit =? 0 then pret result else
      read! r := getr in
      if Len r =? 0 then pret result else
      read! subsectionID := ReadByte in
      let limit := u64 (limit - 1) in
      read! (subsectionSize, bytesRead) :=
        wrapAt "failed to read the size of subsection" subsectionID DecodeUint32 in
      let limit := u64 (limit - bytesRead) in
      read! result := decodeSubsection subsectionID subsectionSize result in
      decodeNameSection_loop fuel (u64 (limit - subsectionSize)) result
  end.
(** Every turn reads a byte or stops. *)
Definition decodeNameSection (limit : Z) : parser NameSection := fun r =>
  decodeNameSection_loop (S (S (length (unread r)))) limit (mkNameSection [] [] []) r.

(** ** [custom.go] *)
(** [Read] fills the front of a zeroed buffer of [limit] bytes. *)
Definition decodeCustomSection (name : gostring) (limit : Z) : parser CustomSection :=
  read! got := Read limit in
  pret (mkCustom name (got ++ zeros (Z.to_nat limit - length got))).

(** ** [section.go] *)
Definition vector {A} (p : Z -> parser A) : parser (list A) :=
  read! (vs, _) := wrap "get size of vector" DecodeUint32 in repeatp (Z.to_nat vs) 0 p.

Definition decodeTypeSection : parser (list FunctionType) :=
  vector (fun i => wrapAt "read type" i decodeFunctionType).

Definition indexed (imp : Import) (i : Z) : Import :=
  mkImport (im_Type imp) (im_Module imp) (im_Name imp) (im_DescFunc imp) (im_DescTable imp)
    (im_DescMem imp) (im_DescGlobal imp) i.

Definition add_import (s : importState) (imp : Import) : importState :=
  let put imp f g m t :=
    mkImports (is_result s ++ [imp])
      (<[im_Module imp := default [] (is_perModule s !! im_Module imp) ++ [length (is_result s)]]> (is_perModule s))
      f g m t in
  let '(f, g, m, t) := (is_func s, is_global s, is_memory s, is_table s) in
  if im_Type imp =? ExternTypeFunc then put (indexed imp f) (u32 (f + 1)) g m t
  else if im_Type imp =? ExternTypeGlobal then put (indexed imp g) f (u32 (g + 1)) m t
  else if im_Type imp =? ExternTypeMemory then put (indexed imp m) f g (u32 (m + 1)) t
  else if im_Type imp =? ExternTypeTable then put (indexed imp t) f g m (u32 (t + 1))
  else put imp f g m t.

Fixpoint import_loop (n : nat) (i : Z) (s : importState) : parser importState :=
  match n with
  | O => pret s
  | S n => read! imp := decodeImport i in import_loop n (i + 1) (add_import s imp)
  end.

Definition decodeImportSection : parser importState :=
  read! (vs, _) := wrap "get size of vector" DecodeUint32 in
  import_loop (Z.to_nat vs) 0 (mkImports [] ∅ 0 0 0 0).

Definition decodeFunctionSection : parser (list Z) :=
  vector (fun _ => read! (i, _) := wrap "get type index" DecodeUint32 in pret i).

Definition decodeTableSection : parser (list Table) :=
  read! (vs, _) := wrap "error reading size" DecodeUint32 in
  read! _ := (if 1 <? vs
              then wrap "at most one table allowed in module as"
                     (RequireEnabled enabledFeatures CoreFeatureReferenceTypes)
              else pret tt) in
  repeatp (Z.to_nat vs) 0 (fun _ => decodeTable).

Definition decodeMemorySection : parser (option Memory) :=
  read! (vs, _) := wrap "error reading size" DecodeUint32 in
  if 1 <? vs then perr (Msg "at most one memory allowed in module" [vs])
  else if vs =? 0 then pret None
  else read! m := decodeMemory in pret (Some m).

Definition decodeGlobalSection : parser (list Global) :=
  vector (fun i => wrapAt "global" i decodeGlobal).

Fixpoint export_loop (n : nat) (exportSection : list Export) (exportMap : gmap (list Z) nat)
  : parser (list Export * gmap (list Z) nat) :=
  match n with
  | O => pret (exportSection, exportMap)
  | S n =>
      read! e := wrap "read export" decodeExport in
      refuse bool_decide (is_Some (exportMap !! ex_Name e))
        as Msg "export duplicates name" [len exportSection] ;;
      export_loop n (exportSection ++ [e]) (<[ex_Name e := length exportSection]> exportMap)
  end.
Definition decodeExportSection : parser (list Export * gmap (list Z) nat) :=
  read! (vs, _) := wrap "get size of vector" DecodeUint32 in
  export_loop (Z.to_nat vs) [] ∅.

Definition decodeStartSection : parser Z :=
  read! (vs, _) := wrap "get function index" DecodeUint32 in pret vs.

Definition decodeElementSection : parser (list ElementSegment) :=
  vector (fun _ => wrap "read element" decodeElementSegment).

Definition decodeCodeSection : parser (list Code) :=
  read! r := getr in
  vector (fun i => wrapAt "read code segment" i (decodeCode (Len r))).

Definition decodeDataSection : parser (list DataSegment) :=
  vector (fun _ => wrap "read data segment" decodeDataSegment).

(** [io.EOF] is no error here: the count is then zero and the reader at its end. *)
Definition decodeDataCountSection : parser Z := fun r =>
  match DecodeUint32 r with
  | Ok ((v, _), r') => Ok (v, r')
  | Err Eof => Ok (0, advance r (length (unread r)))
  | Err e => Err e
  end.

(** ** [decoder.go] *)
Definition Magic : list Z := [0x00; 0x61; 0x73; 0x6D].
Definition version : list Z := [0x01; 0x00; 0x00; 0x00].

(** The byte slices handed to [dwarf.New]. *)
Record dwarfSections : Type := mkDwarf {
  dw_info : list Z; dw_line : list Z; dw_str : list Z; dw_abbrev : list Z; dw_ranges : list Z }.
Definition noDwarf : dwarfSections := mkDwarf [] [] [] [] [].

Definition note_dwarf (name : gostring) (data : list Z) (d : dwarfSections) : dwarfSections :=
  if bool_decide (name = $".debug_info") then mkDwarf data (dw_line d) (dw_str d) (dw_abbrev d) (dw_ranges d)
  else if bool_decide (name = $".debug_line") then mkDwarf (dw_info d) data (dw_str d) (dw_abbrev d) (dw_ranges d)
  else if bool_decide (name = $".debug_str") then mkDwarf (dw_info d) (dw_line d) data (dw_abbrev d) (dw_ranges d)
  else if bool_decide (name = $".debug_abbrev") then mkDwarf (dw_info d) (dw_line d) (dw_str d) data (dw_ranges d)
  else if bool_decide (name = $".debug_ranges") then mkDwarf (dw_info d) (dw_line d) (dw_str d) (dw_abbrev d) data
  else d.

Definition state : Type := Module' * dwarfSections.

(** A [return nil, err] inside the [switch]: the error is not wrapped again. *)
Definition direct {A} (p : parser A) : parser A := fun r => map_err Direct (p r).

Definition custom_section (sectionSize : Z) (s : state) : parser state :=
  let '(m, d) := s in
  read! (name, nameSize) := decodeUTF8 "custom section name" in
  refuse sectionSize <? nameSize as Msg "malformed custom section" name ;;
  refuse bool_decide (name = $"name") && bool_decide (is_Some (NameSec m))
    as Msg "redundant custom section" name ;;
  let limit := u32 (sectionSize - nameSize) in
  if negb (bool_decide (name = $"name")) then
    if storeCustomSections || dwarfEnabled then
      read! c := direct (wrap "failed to read custom section" (decodeCustomSection name limit)) in
      let m := set_CustomSections m (CustomSections m ++ [c]) in
      pret (m, if dwarfEnabled then note_dwarf name (cs_Data c) d else d)
    else
      read! _ := direct (wrap "failed to skip" (Discard limit)) in
      pret (m, d)
  else
    read! ns := decodeNameSection limit in
    pret (set_NameSec m (Some ns), d).

(** The [switch] over the section's identifier. *)
Definition decodeSection (sectionID sectionSize : Z) (s : state) : parser state :=
  let '(m, d) := s in
  match sectionID with
  | 0 => custom_section sectionSize (m, d)
  | 1 => read! v := decodeTypeSection in pret (set_TypeSection m v, d)
  | 2 => read! v := direct decodeImportSection in pret (set_ImportSection m v, d)
  | 3 => read! v := decodeFunctionSection in pret (set_FunctionSection m v, d)
  | 4 => read! v := decodeTableSection in pret (set_TableSection m v, d)
  | 5 => read! v := decodeMemorySection in pret (set_MemorySection m v, d)
  | 6 => read! v := direct decodeGlobalSection in pret (set_GlobalSection m v, d)
  | 7 => read! (v, x) := decodeExportSection in pret (set_ExportSection m v x, d)
  | 8 =>
      refuse bool_decide (is_Some (StartSection m)) as Direct (Msg "multiple start sections are invalid" []) ;;
      read! v := decodeStartSection in pret (set_StartSection m (Some v), d)
  | 9 => read! v := decodeElementSection in pret (set_ElementSection m v, d)
  | 10 => read! v := decodeCodeSection in pret (set_CodeSection m v, d)
  | 11 => read! v := decodeDataSection in pret (set_DataSection m v, d)
  | 12 =>
      read! _ := direct (wrap "data count section not supported as"
                   (RequireEnabled enabledFeatures CoreFeatureBulkMemoryOperations)) in
      read! v := decodeDataCountSection in pret (set_DataCountSection m (Some v), d)
  | _ => perr ErrInvalidSectionID
  end.

Definition in_section (id : Z) (e : dec_err) : dec_err :=
  match e with Direct e => e | e => InSection id e end.

(** One turn of the loop, after the section's identifier was read. *)
Definition section (sectionID : Z) (s : state) : parser state :=
  read! (sectionSize, _) := wrapAt "get size of section" sectionID DecodeUint32 in
  fun r =>
    map_err (in_section sectionID)
      (let! (s, r') := decodeSection sectionID sectionSize s r in
       let readBytes := Len r - Len r' in
       reject negb (sectionSize =? readBytes) as Msg "invalid section length" [sectionSize; readBytes] ;;
       Ok (s, r')).

Fixpoint sections (fuel : nat) (s : state) : parser state :=
  match fuel with
  | O => perr OutOfFuel
  | S fuel =>
      read! r := getr in
      if Len r =? 0 then pret s else
      read! sectionID := ReadByte in
      read! s := section sectionID s in
      sections fuel s
  end.

(** [io.ReadFull(r, buf)] then [bytes.Equal(buf, want)]. *)
Definition expect (want : list Z) (e : dec_err) : parser unit := fun r =>
  match ReadFull 4 r with
  | Ok (buf, r') => if bool_decide (buf = want) then Ok (tt, r') else Err e
  | Err _ => Err e
  end.

(** Every section reads at least its identifier. *)
Definition DecodeModule (binary : list Z) : result dec_err (Module' * option dwarfSections) :=
  let! ((m, d), _) :=
    (read! _ := expect Magic ErrInvalidMagicNumber in
     read! _ := expect version ErrInvalidVersion in
     sections (S (length binary)) (emptyModule, noDwarf)) (NewReader binary) in
  let functionCount := u32 (len (FunctionSection m)) in
  let codeCount := u32 (len (CodeSection m)) in
  reject negb (functionCount =? codeCount)
    as Msg "function and code section have inconsistent lengths" [functionCount; codeCount] ;;
  Ok (m, if dwarfEnabled then Some d else None).

End decoders.

End WasmBinary.
