(* ===== verification/WasmBinarySpec.v ===== *)
(** * Properties of the binary decoder

    [total] is what every decoder satisfies: it only moves the reader forward,
    over the same bytes, and it is never stopped by the bound of one of its
    loops.  From it, [DecodeModule] always ends on its own.  [returns] carries
    a postcondition through the same combinators; the invariant of a decoded
    module is stated with it. *)
From S2P Require Import Prelude Leb128 GoStd WasmBinary.

Module WasmBinarySpec.
Import GoStd WasmBinary.

(** ** Termination *)
(** No loop bound was reached anywhere in the chain of an error. *)
Fixpoint fuel_free (e : dec_err) : bool :=
  match e with
  | OutOfFuel => false
  | Wrap _ e | WrapAt _ _ e | InSection _ e | Direct e => fuel_free e
  | _ => true
  end.

Definition moved (r r' : Reader) : Prop := r_s r' = r_s r /\ (r_i r <= r_i r')%nat.

Definition total {A} (p : parser A) : Prop := forall r,
  match p r with Ok (_, r') => moved r r' | Err e => fuel_free e = true end.

Create HintDb total discriminated.

#[export] Instance moved_preorder : PreOrder moved.
Proof. split; [intros r; by split|intros a b c [] []; split; [congruence|lia]]. Qed.

Lemma moved_advance r n : moved r (advance r n).
Proof. split; cbn; [done|lia]. Qed.

Lemma total_pret {A} (a : A) : total (pret a).
Proof. intros r. by split. Qed.
Lemma total_perr {A} e : fuel_free e = true -> total (@perr A e).
Proof. by intros H r. Qed.
Lemma total_bind {A B} (p : parser A) (k : A -> parser B) :
  total p -> (forall a, total (k a)) -> total (pbind p k).
Proof.
  intros Hp Hk r. specialize (Hp r). unfold pbind. destruct (p r) as [[a r']|e]; [|done].
  specialize (Hk a r'). destruct (k a r') as [[b r'']|e]; [by transitivity r'|done].
Qed.
Lemma total_if {A} (b : bool) (p q : parser A) : total p -> total q -> total (if b then p else q).
Proof. by destruct b. Qed.
Lemma total_map_err {A} f (p : parser A) :
  (forall e, fuel_free e = true -> fuel_free (f e) = true) -> total p ->
  total (fun r => map_err f (p r)).
Proof. intros Hf Hp r. specialize (Hp r). destruct (p r) as [[]|]; cbn; auto. Qed.
Lemma total_wrap {A} w (p : parser A) : total p -> total (wrap w p).
Proof. by apply total_map_err. Qed.
Lemma total_wrapAt {A} w i (p : parser A) : total p -> total (wrapAt w i p).
Proof. by apply total_map_err. Qed.
Lemma total_direct {A} (p : parser A) : total p -> total (direct p).
Proof. by apply total_map_err. Qed.
Lemma total_getr : total getr.
Proof. intros r. by split. Qed.
Lemma total_lift {A} (m : result dec_err A) :
  (forall e, m = Err e -> fuel_free e = true) -> total (lift m).
Proof. intros H r. unfold lift. destruct m; [by split|by apply H]. Qed.
Lemma total_ReadByte : total ReadByte.
Proof. intros r. unfold ReadByte. destruct (unread r); [done|apply moved_advance]. Qed.
Lemma total_ReadFull n : total (ReadFull n).
Proof.
  intros r. unfold ReadFull. destruct (n <=? Len r); [apply moved_advance|].
  by destruct (unread r).
Qed.
Lemma total_Read n : total (Read n).
Proof. intros r. unfold Read. destruct (unread r); [done|apply moved_advance]. Qed.
Lemma total_Discard n : total (Discard n).
Proof. intros r. unfold Discard. destruct (n <=? Len r); [apply moved_advance|done]. Qed.
Lemma total_ReadAt o n : total (ReadAt o n).
Proof.
  intros r. unfold ReadAt. destruct (Size r <=? o); [done|]. cbv zeta.
  destruct (_ <? n); [done|by split].
Qed.
Lemma total_leb load : total (decode_leb load).
Proof.
  intros r. unfold decode_leb. destruct (load (unread r)) as [[v n]|e]; [apply moved_advance|].
  by destruct e.
Qed.
Lemma total_RequireEnabled f g : total (RequireEnabled f g).
Proof. unfold RequireEnabled. destruct (Z.land f g =? 0); [by apply total_perr|apply total_pret]. Qed.
Lemma total_repeat {A} n i (p : Z -> parser A) : (forall i, total (p i)) -> total (repeatp n i p).
Proof.
  intros Hp. revert i. induction n as [|n IH]; intros i; cbn [repeatp]; [apply total_pret|].
  apply total_bind; [done|]. intros x. apply total_bind; [done|]. intros xs. apply total_pret.
Qed.
#[export] Hint Resolve total_pret total_getr total_ReadByte total_ReadFull total_Read total_Discard
  total_ReadAt total_leb total_RequireEnabled : total.

(** Decoders are built from these combinators. *)
Ltac total_step :=
  lazymatch goal with
  | |- total (match ?x with _ => _ end) => destruct x
  | |- total (pbind _ _) => apply total_bind; [|intros ?]
  | |- total (wrap _ _) => apply total_wrap
  | |- total (wrapAt _ _ _) => apply total_wrapAt
  | |- total (direct _) => apply total_direct
  | |- total (repeatp _ _ _) => apply total_repeat; intros ?
  | |- total (perr _) => apply total_perr; reflexivity
  | |- total DecodeUint32 => apply total_leb
  | |- total DecodeInt32 => apply total_leb
  | |- total DecodeInt64 => apply total_leb
  | |- total _ => solve [eauto with total nocore]
  end.
Ltac totally := intros; repeat total_step.

Lemma total_ValueTypes n : total (decodeValueTypes n).
Proof. unfold decodeValueTypes. totally. Qed.
Lemma total_UTF8 c : total (decodeUTF8 c).
Proof. unfold decodeUTF8. totally. Qed.
#[export] Hint Resolve total_ValueTypes total_UTF8 : total.

Section total.
Variable enabledFeatures memoryLimitPages : Z.
Variable memoryCapacityFromMax dwarfEnabled storeCustomSections : bool.

Lemma total_FunctionType : total (decodeFunctionType enabledFeatures).
Proof. unfold decodeFunctionType. totally. Qed.
Lemma total_LimitsType : total decodeLimitsType.
Proof. unfold decodeLimitsType. totally. Qed.
Hint Resolve total_FunctionType total_LimitsType : total.

Lemma Validate_fuel m e : Memory_Validate memoryLimitPages m = Err e -> fuel_free e = true.
Proof. unfold Memory_Validate. intros H. repeat case_match; naive_solver. Qed.

Lemma total_Memory : total (decodeMemory enabledFeatures memoryLimitPages memoryCapacityFromMax).
Proof.
  unfold decodeMemory. apply total_bind; [auto with total|]. intros [[mi ma] sh].
  repeat (apply total_if; [by apply total_perr|]).
  destruct (newMemorySizer _ _ mi ma) as [[a b] c]. apply total_bind; [|totally].
  apply total_lift, Validate_fuel.
Qed.
Lemma total_Table : total (decodeTable enabledFeatures).
Proof. unfold decodeTable. totally. Qed.
Hint Resolve total_Memory total_Table : total.

Lemma total_immediate op n : total (const_immediate enabledFeatures op n).
Proof. unfold const_immediate. totally. Qed.
Hint Resolve total_immediate : total.
Lemma total_Const : total (decodeConstantExpression enabledFeatures).
Proof. unfold decodeConstantExpression. totally. Qed.
Lemma total_GlobalType : total decodeGlobalType.
Proof. unfold decodeGlobalType. totally. Qed.
Hint Resolve total_Const total_GlobalType : total.
Lemma total_Global : total (decodeGlobal enabledFeatures).
Proof. unfold decodeGlobal. totally. Qed.
Lemma total_Import i :
  total (decodeImport enabledFeatures memoryLimitPages memoryCapacityFromMax i).
Proof. unfold decodeImport. totally. Qed.
Lemma total_Export : total decodeExport.
Proof. unfold decodeExport. totally. Qed.
Hint Resolve total_Global total_Import total_Export : total.
Lemma decodeUint32_loop_reads buf n i s ret v m :
  Leb128.decodeUint32_loop (Leb128.buf_next buf) n i s ret = Ok (v, m) ->
  Z.of_nat i + 1 <= m <= len buf.
Proof.
  revert i s ret. induction n as [|n IH]; intros i s ret H; [done|].
  cbn [Leb128.decodeUint32_loop] in H. destruct (Leb128.buf_next buf i) as [b|] eqn:Hb; [|done].
  apply Leb128.buf_next_inv, lookup_lt_Some in Hb. unfold len.
  destruct (b <? 128); [|apply IH in H; unfold len in H; lia].
  destruct (_ && _); [done|]. simplify_eq. lia.
Qed.
Lemma DecodeUint32_reads r v n r' :
  DecodeUint32 r = Ok ((v, n), r') -> 1 <= n <= Len r /\ r' = advance r (Z.to_nat n).
Proof.
  unfold DecodeUint32, decode_leb, Len. destruct (Leb128.LoadUint32 (unread r)) as [[]|] eqn:E; [|done].
  intros [= <- <- <-]. apply decodeUint32_loop_reads in E. done.
Qed.
Lemma wrap_ok {A} w (p : parser A) r x : wrap w p r = Ok x -> p r = Ok x.
Proof. unfold wrap. by destruct (p r). Qed.
Lemma wrapAt_ok {A} w i (p : parser A) r x : wrapAt w i p r = Ok x -> p r = Ok x.
Proof. unfold wrapAt. by destruct (p r). Qed.
Lemma direct_ok {A} (p : parser A) r x : direct p r = Ok x -> p r = Ok x.
Proof. unfold direct. by destruct (p r). Qed.
Lemma bind_ok {A B} (p : parser A) (k : A -> parser B) r x :
  pbind p k r = Ok x -> exists a r', p r = Ok (a, r') /\ k a r' = Ok x.
Proof. unfold pbind. destruct (p r) as [[a r']|]; [eauto|done]. Qed.
Lemma ReadByte_ok r b r' : ReadByte r = Ok (b, r') -> unread r = b :: unread r' /\ r' = advance r 1.
Proof.
  unfold ReadByte. destruct (unread r) as [|b' l] eqn:E; [done|]. intros [= <- <-].
  split; [|done]. unfold unread, advance in *. cbn. rewrite <-drop_drop, E. done.
Qed.

Lemma total_check_locals n k b s : total (check_locals n k b s).
Proof. revert b s. induction n as [|n IH]; intros b s; cbn [check_locals]; totally; apply IH. Qed.
Lemma total_read_locals n k l : total (read_locals n k l).
Proof. revert k l. induction n as [|n IH]; intros k l; cbn [read_locals]; totally; apply IH. Qed.

(** The validation of the locals counts exactly the bytes it reads. *)
Lemma check_locals_reads n k b0 s0 r b s r' :
  check_locals n k b0 s0 r = Ok ((b, s), r') ->
  r_s r' = r_s r /\ b0 <= b /\ Z.of_nat (r_i r') = Z.of_nat (r_i r) + (b - b0).
Proof.
  revert b0 s0 r. induction n as [|n IH]; intros b0 s0 r H; cbn [check_locals] in H.
  { injection H as <- <- <-. split_and!; [done|lia..]. }
  apply bind_ok in H as ([num m] & r1 & [Hm ->]%wrap_ok%DecodeUint32_reads & H).
  destruct (k <? 0); [done|].
  apply bind_ok in H as (t & r2 & [_ ->]%wrap_ok%ReadByte_ok & H).
  destruct (negb (isValueType t)); [done|]. apply IH in H as (-> & ? & H).
  cbn in *. split_and!; [done|lia..].
Qed.

Lemma total_rewind {A} n k (p : parser A) : total p ->
  total (read! (bytesRead, sum) := check_locals n k 0 0 in
         refuse MaxUint32 <? sum as Msg "too many locals" [sum] ;;
         read! _ := SeekBack bytesRead in p).
Proof.
  intros Hp r. pose proof (total_check_locals n k 0 0 r) as Hc. unfold pbind.
  destruct (check_locals n k 0 0 r) as [[[b s] r1]|e] eqn:E; [|done].
  destruct (MaxUint32 <? s); [done|]. apply check_locals_reads in E as (Es & Hb & Ei).
  unfold SeekBack. destruct (_ <? b) eqn:Hlt; [done|].
  assert (mkReader (r_s r1) (r_i r1 - Z.to_nat b) = r) as ->; [|apply Hp].
  rewrite Es. destruct r as [l i]. cbn in *. f_equal. lia.
Qed.

Lemma total_Code c : total (decodeCode c).
Proof.
  unfold decodeCode. apply total_bind; [totally|]. intros [ss k0].
  apply total_bind; [totally|]. intros [ls bytesRead]. cbv zeta.
  destruct (_ <? 0); [by apply total_perr|]. apply total_rewind.
  apply total_bind; [apply total_read_locals|]. totally.
Qed.
Lemma total_data_mode prefix : total (data_mode enabledFeatures prefix).
Proof. unfold data_mode. totally. Qed.
Hint Resolve total_data_mode : total.
Lemma total_Data : total (decodeDataSegment enabledFeatures).
Proof. unfold decodeDataSegment. totally. Qed.

Lemma element_init_fuel t x e : element_init t x = Err e -> fuel_free e = true.
Proof. unfold element_init. intros H. repeat case_match; naive_solver. Qed.
Lemma total_InitValues : total decodeElementInitValueVector.
Proof. unfold decodeElementInitValueVector. totally. Qed.
Lemma total_element_init t x : total (lift (element_init t x)).
Proof. apply total_lift, element_init_fuel. Qed.
Hint Resolve total_InitValues total_element_init : total.
Lemma total_InitExprs t : total (decodeElementConstExprVector enabledFeatures t).
Proof. unfold decodeElementConstExprVector. totally. Qed.
Lemma total_Kind : total ensureElementKindFuncRef.
Proof. unfold ensureElementKindFuncRef. totally. Qed.
Lemma total_RefType : total decodeElementRefType.
Proof. unfold decodeElementRefType. totally. Qed.
Lemma total_element_table : total (element_table enabledFeatures).
Proof. unfold element_table. totally. Qed.
Lemma total_element_offset : total (element_offset enabledFeatures).
Proof. unfold element_offset. totally. Qed.
Hint Resolve total_InitExprs total_Kind total_RefType total_element_table total_element_offset : total.
Lemma total_Element : total (decodeElementSegment enabledFeatures).
Proof. unfold decodeElementSegment. totally. Qed.
Hint Resolve total_Code total_Data total_Element : total.

(** ** Loops that run until the reader is empty *)
Definition total_at {A} (p : parser A) (r : Reader) : Prop :=
  match p r with Ok (_, r') => moved r r' | Err e => fuel_free e = true end.

Lemma total_at_bind {A B} (p : parser A) (k : A -> parser B) r :
  total p -> (forall a r', p r = Ok (a, r') -> total_at (k a) r') -> total_at (pbind p k) r.
Proof.
  intros Hp Hk. specialize (Hp r). unfold total_at, pbind.
  destruct (p r) as [[a r']|e]; [|done]. specialize (Hk a r' eq_refl). unfold total_at in Hk.
  destruct (k a r') as [[b r'']|]; [by transitivity r'|done].
Qed.
Lemma total_ok {A} (p : parser A) r a r' : total p -> p r = Ok (a, r') -> moved r r'.
Proof. intros Hp E. specialize (Hp r). by rewrite E in Hp. Qed.
Lemma moved_unread r r' : moved r r' -> (length (unread r') <= length (unread r))%nat.
Proof. intros [E H]. unfold unread. rewrite !length_drop, E. lia. Qed.

Lemma total_FunctionNames : total decodeFunctionNames.
Proof. unfold decodeFunctionNames, decodeFunctionCount, decodeFunctionIndex. totally. Qed.
Lemma total_LocalNames : total decodeLocalNames.
Proof. unfold decodeLocalNames, decodeFunctionCount, decodeFunctionIndex. totally. Qed.
Hint Resolve total_FunctionNames total_LocalNames : total.
Lemma total_Subsection id size ns : total (decodeSubsection id size ns).
Proof. unfold decodeSubsection. totally. Qed.
Hint Resolve total_Subsection : total.

Lemma total_names_loop fuel limit ns r :
  (length (unread r) < fuel)%nat -> total_at (decodeNameSection_loop fuel limit ns) r.
Proof.
  revert limit ns r. induction fuel as [|fuel IH]; intros limit ns r Hf; [lia|].
  cbn [decodeNameSection_loop]. destruct (limit =? 0); [by split|].
  apply total_at_bind; [auto with total|]. intros ? ? [= <- <-]. destruct (Len r =? 0); [by split|].
  apply total_at_bind; [auto with total|]. intros id r1 Hid. apply ReadByte_ok in Hid as [E1 _].
  apply total_at_bind; [totally|]. intros [size n] r2 H2.
  apply total_ok, moved_unread in H2; [|totally].
  apply total_at_bind; [auto with total|]. intros ns' r3 H3.
  apply total_ok, moved_unread in H3; [|auto with total].
  apply IH. rewrite E1 in Hf. cbn in Hf. lia.
Qed.
Lemma total_NameSection limit : total (decodeNameSection limit).
Proof. intros r. apply total_names_loop. lia. Qed.
Lemma total_CustomSection n limit : total (decodeCustomSection n limit).
Proof. unfold decodeCustomSection. totally. Qed.
Hint Resolve total_NameSection total_CustomSection : total.

(** ** Sections *)
Lemma total_vector {A} (p : Z -> parser A) : (forall i, total (p i)) -> total (vector p).
Proof. intros Hp. unfold vector. totally. Qed.
Lemma total_import_loop n i s :
  total (import_loop enabledFeatures memoryLimitPages memoryCapacityFromMax n i s).
Proof.
  revert i s. induction n as [|n IH]; intros i s; cbn [import_loop]; [totally|].
  apply total_bind; [auto with total|]. intros imp. apply IH.
Qed.
Lemma total_export_loop n es em : total (export_loop n es em).
Proof.
  revert es em. induction n as [|n IH]; intros es em; cbn [export_loop]; [totally|].
  apply total_bind; [totally|]. intros e. apply total_if; [by apply total_perr|apply IH].
Qed.
Lemma total_DataCount : total decodeDataCountSection.
Proof.
  intros r. pose proof (total_leb Leb128.LoadUint32 r) as H. unfold decodeDataCountSection, DecodeUint32.
  destruct (decode_leb _ r) as [[[v n] r']|e]; [done|]. destruct e; try done. apply moved_advance.
Qed.
Hint Resolve total_import_loop total_export_loop total_DataCount : total.

Ltac sectionly := repeat first [apply total_vector; intros ?|progress totally].
Lemma total_custom size s : total (custom_section dwarfEnabled storeCustomSections size s).
Proof. unfold custom_section. totally. Qed.
Hint Resolve total_custom : total.
Lemma total_Section id size s :
  total (decodeSection enabledFeatures memoryLimitPages memoryCapacityFromMax dwarfEnabled
           storeCustomSections id size s).
Proof.
  unfold decodeSection, decodeTypeSection, decodeImportSection, decodeFunctionSection,
    decodeTableSection, decodeMemorySection, decodeGlobalSection, decodeExportSection,
    decodeStartSection, decodeElementSection, decodeCodeSection, decodeDataSection.
  sectionly.
Qed.
Hint Resolve total_Section : total.

Lemma total_section id s :
  total (section enabledFeatures memoryLimitPages memoryCapacityFromMax dwarfEnabled
           storeCustomSections id s).
Proof.
  unfold section. apply total_bind; [totally|]. intros [size n] r.
  pose proof (total_Section id size s r) as H. destruct (decodeSection _ _ _ _ _ _ _ _ r) as [[s' r']|e];
    cbn [map_err]; [by destruct (negb _)|]. destruct e; cbn in *; done.
Qed.

Lemma total_sections fuel s r :
  (length (unread r) < fuel)%nat ->
  total_at (sections enabledFeatures memoryLimitPages memoryCapacityFromMax dwarfEnabled
              storeCustomSections fuel s) r.
Proof.
  revert s r. induction fuel as [|fuel IH]; intros s r Hf; [lia|].
  cbn [sections]. apply total_at_bind; [auto with total|]. intros ? ? [= <- <-].
  destruct (Len r =? 0); [by split|].
  apply total_at_bind; [auto with total|]. intros id r1 Hid. apply ReadByte_ok in Hid as [E1 _].
  apply total_at_bind; [apply total_section|]. intros s' r2 H2.
  apply total_ok, moved_unread in H2; [|apply total_section].
  apply IH. rewrite E1 in Hf. cbn in Hf. lia.
Qed.

Lemma total_expect want e : fuel_free e = true -> total (expect want e).
Proof.
  intros He r. pose proof (total_ReadFull 4 r) as H. unfold expect.
  destruct (ReadFull 4 r) as [[buf r']|]; [|done]. by case_bool_decide.
Qed.

(** ** Framing *)
Lemma moved_split r r' : moved r r' ->
  exists c, unread r = c ++ unread r' /\ len c = Len r - Len r'.
Proof.
  intros [E H]. exists (take (r_i r' - r_i r) (unread r)).
  assert (unread r' = drop (r_i r' - r_i r) (unread r)) as Hd.
  { unfold unread. rewrite drop_drop, E. f_equal. lia. }
  unfold Len. rewrite Hd, take_drop. split; [done|]. unfold len.
  rewrite length_take, length_drop. lia.
Qed.

Lemma decodeUint32_loop_prefix c l n i s ret v m :
  Leb128.decodeUint32_loop (Leb128.buf_next (c ++ l)) n i s ret = Ok (v, m) -> m <= len c ->
  Leb128.decodeUint32_loop (Leb128.buf_next c) n i s ret = Ok (v, m).
Proof.
  intros H Hm. revert i s ret H. induction n as [|n IH]; intros i s ret H; [done|].
  pose proof (decodeUint32_loop_reads _ _ _ _ _ _ _ H).
  cbn [Leb128.decodeUint32_loop] in *. unfold Leb128.buf_next in *.
  rewrite lookup_app_l in H by (unfold len in *; lia). destruct (c !! i); [|done].
  destruct (_ <? 128); [done|by apply IH].
Qed.

(** The encoding of one section: its identifier, its size and its contents. *)
Definition frame (x : Z * list Z * list Z) : list Z :=
  let '(id, size, contents) := x in id :: size ++ contents.
Definition framed (x : Z * list Z * list Z) : Prop :=
  let '(id, size, contents) := x in
  0 <= id <= 12 /\ Leb128.LoadUint32 size = Ok (len contents, len size).

Lemma decodeSection_id id size s r x :
  decodeSection enabledFeatures memoryLimitPages memoryCapacityFromMax dwarfEnabled
    storeCustomSections id size s r = Ok x -> 0 <= id <= 12.
Proof.
  destruct s as [m d]. cbn [decodeSection]. intros H.
  repeat match type of H with
  | match ?x with _ => _ end _ = _ => is_var x; destruct x; try done; try lia
  end.
Qed.

Lemma section_framed id s r s' r' :
  section enabledFeatures memoryLimitPages memoryCapacityFromMax dwarfEnabled
    storeCustomSections id s r = Ok (s', r') ->
  exists size contents, framed (id, size, contents) /\ unread r = size ++ contents ++ unread r'.
Proof.
  unfold section. intros H. apply bind_ok in H as ([size n] & r1 & H1%wrapAt_ok & H2).
  destruct (decodeSection _ _ _ _ _ _ _ _ r1) as [[s2 r2]|] eqn:E; cbn in H2; [|done].
  destruct (negb _) eqn:Hn; [done|]. injection H2 as -> ->.
  pose proof (decodeSection_id _ _ _ _ _ E) as Hid.
  apply total_ok in E; [|auto with total]. apply moved_split in E as (contents & Ec & Hc).
  apply negb_false_iff, Z.eqb_eq in Hn. rewrite <-Hc in Hn.
  pose proof (DecodeUint32_reads _ _ _ _ H1) as [Hr Er].
  assert (moved r r1) as (sz & Es & Hs)%moved_split by (rewrite Er; apply moved_advance).
  assert (len sz = n) as Hsz.
  { rewrite Hs, Er. unfold Len, unread, advance in *. cbn. unfold len in *.
    rewrite !length_drop in *. lia. }
  exists sz, contents. split; [split; [done|]|by rewrite Es, Ec].
  revert H1. unfold DecodeUint32, decode_leb. destruct (Leb128.LoadUint32 (unread r)) as [[]|] eqn:E1; [|done].
  intros [= -> -> _]. rewrite Es in E1. apply decodeUint32_loop_prefix in E1; [|lia].
  unfold Leb128.LoadUint32, Leb128.decodeUint32. rewrite E1. by rewrite Hn, Hsz.
Qed.

Lemma sections_framed fuel s r s' r' :
  sections enabledFeatures memoryLimitPages memoryCapacityFromMax dwarfEnabled
    storeCustomSections fuel s r = Ok (s', r') ->
  exists xs, Forall framed xs /\ unread r = concat (frame <$> xs).
Proof.
  revert s r. induction fuel as [|fuel IH]; intros s r H; [done|]. cbn [sections] in H.
  apply bind_ok in H as (? & ? & [= <- <-] & H). destruct (Z.eqb_spec (Len r) 0) as [E|_].
  { exists []. split; [done|]. unfold Len, len in E. cbn. destruct (unread r); cbn in *; [done|lia]. }
  apply bind_ok in H as (id & r1 & [E1 _]%ReadByte_ok & H).
  apply bind_ok in H as (s2 & r2 & (sz & c & Hf & E2)%section_framed & H).
  apply IH in H as (xs & Hxs & E3). exists ((id, sz, c) :: xs).
  split; [by constructor|]. cbn. by rewrite E1, E2, E3, <-app_assoc.
Qed.

Lemma expect_ok want e r r' x :
  expect want e r = Ok (x, r') -> unread r = want ++ unread r'.
Proof.
  unfold expect. destruct (ReadFull 4 r) as [[buf r1]|] eqn:E; [|done].
  case_bool_decide as Hb; [|done]. intros H. simplify_eq. revert E. unfold ReadFull.
  destruct (_ <=? _); [|by destruct (unread r)]. intros E. simplify_eq.
  unfold advance, unread. cbn. by rewrite <-drop_drop, take_drop.
Qed.

End total.

(** C26: decoding always ends on its own: no loop is cut short by its bound,
    whatever the bytes; and a binary that is accepted is exactly the header
    followed by sections whose declared sizes are those of their contents,
    with nothing after them. *)
Theorem DecodeModule_terminates features limit fromMax dwarf store binary :
  match DecodeModule features limit fromMax dwarf store binary with
  | Ok _ => exists xs, Forall framed xs /\ binary = Magic ++ version ++ concat (frame <$> xs)
  | Err e => fuel_free e = true
  end.
Proof.
  unfold DecodeModule. set (p := read! _ := expect Magic _ in _).
  assert (total_at p (NewReader binary)) as Ht.
  { apply total_at_bind; [by apply total_expect|]. intros u1 r1 H1.
    apply total_ok, moved_unread in H1; [|by apply total_expect].
    apply total_at_bind; [by apply total_expect|]. intros u2 r2 H2.
    apply total_ok, moved_unread in H2; [|by apply total_expect].
    apply total_sections. change (unread (NewReader binary)) with binary in H1. lia. }
  unfold total_at in Ht. destruct (p (NewReader binary)) as [[[m d] r]|e] eqn:E; [|done].
  destruct (negb _); [done|]. unfold p in E.
  apply bind_ok in E as ([] & r1 & H1%expect_ok & E).
  apply bind_ok in E as ([] & r2 & H2%expect_ok & E).
  apply sections_framed in E as (xs & Hxs & E). exists xs. split; [done|].
  change (unread (NewReader binary)) with binary in H1. by rewrite H1, H2, E.
Qed.

(** ** Two bytes that decide *)
Definition CoreFeaturesV2 : Z := 127.

(** A reader at its end reports [io.EOF] for an empty buffer too, so a binary
    that ends with an empty custom section is refused when custom sections or
    DWARF are wanted, and accepted when they are not. *)
Theorem empty_custom_section_refused features limit fromMax store :
  let binary := Magic ++ version ++ [0; 2; 1; 97] in
  DecodeModule features limit fromMax true store binary
    = Err (Wrap "failed to read custom section" Eof) /\
  DecodeModule features limit fromMax store true binary
    = Err (Wrap "failed to read custom section" Eof) /\
  DecodeModule features limit fromMax false false binary = Ok (emptyModule, None).
Proof. split_and!; by destruct store. Qed.

(** [global.get i] in an element segment: the index is decoded as an unsigned
    number and loaded again as a signed one, so an index from 64 to 127, one
    byte with bit 6 set, becomes a number above 2^31. *)
Theorem element_global_index_signed i :
  0 <= i < 128 ->
  exists seg r, decodeElementSegment CoreFeaturesV2 (NewReader [5; 0x70; 1; 0x23; i; 0x0b]) = Ok (seg, r) /\
    unwrapElementInitGlobalReference <$> el_Init seg
    = [(if i <? 64 then i else i - 128 + 2 ^ 32 - 2 ^ 30, true)].
Proof.
  intros Hi.
  pose proof (zrange_forallb (fun i =>
    match decodeElementSegment CoreFeaturesV2 (NewReader [5; 0x70; 1; 0x23; i; 0x0b]) with
    | Ok (seg, _) =>
        bool_decide (unwrapElementInitGlobalReference <$> el_Init seg
          = [(if i <? 64 then i else i - 128 + 2 ^ 32 - 2 ^ 30, true)])
    | Err _ => false
    end) 0 128 ltac:(vm_cast_no_check (@eq_refl bool true)) i ltac:(lia)) as H. cbv beta in H.
  destruct (decodeElementSegment _ _) as [[seg r]|]; [|done].
  apply bool_decide_eq_true in H. eauto.
Qed.

(** ** The invariant of a decoded module *)
Lemma lift_ok {A} (m : result dec_err A) r a r' : lift m r = Ok (a, r') -> m = Ok a /\ r' = r.
Proof. unfold lift. destruct m; [by intros [= -> ->]|done]. Qed.
Lemma pret_ok {A} (a b : A) r r' : pret a r = Ok (b, r') -> b = a /\ r' = r.
Proof. by intros [= -> ->]. Qed.
Lemma getr_ok r a r' : getr r = Ok (a, r') -> a = r /\ r' = r.
Proof. by intros [= -> ->]. Qed.
Lemma perr_ok {A} e r (x : A * Reader) : perr e r = Ok x -> False.
Proof. done. Qed.

(** Reads a successful run of a decoder backwards, call by call. *)
Ltac unparse_step :=
  match goal with
  | H : pbind _ _ _ = Ok _ |- _ =>
      let a := fresh "a" in let r := fresh "r" in let E := fresh "E" in
      apply bind_ok in H as (a & r & E & H)
  | H : wrap _ _ _ = Ok _ |- _ => apply wrap_ok in H
  | H : wrapAt _ _ _ _ = Ok _ |- _ => apply wrapAt_ok in H
  | H : direct _ _ = Ok _ |- _ => apply direct_ok in H
  | H : lift _ _ = Ok _ |- _ => apply lift_ok in H as [H ->]
  | H : getr _ = Ok _ |- _ => apply getr_ok in H as [-> ->]
  | H : pret _ _ = Ok _ |- _ =>
      apply pret_ok in H as [H ->]; first [injection H as -> ->|subst]
  | H : perr _ _ = Ok _ |- _ => destruct (perr_ok _ _ _ H)
  | H : (match ?x with _ => _ end) _ = Ok _ |- _ => destruct x eqn:?
  end.
Ltac unparse := repeat (unparse_step; cbv zeta beta in *).

Definition returns {A} (p : parser A) (P : A -> Prop) : Prop :=
  forall r a r', p r = Ok (a, r') -> P a.

Lemma returns_repeat {A} (p : Z -> parser A) P n i :
  (forall i, returns (p i) P) -> returns (repeatp n i p) (Forall P).
Proof.
  intros Hp. revert i. induction n as [|n IH]; intros i r a r' H; cbn [repeatp] in H; unparse;
    [done|]. constructor; [by eapply Hp|by eapply IH].
Qed.
Lemma returns_vector {A} (p : Z -> parser A) P :
  (forall i, returns (p i) P) -> returns (vector p) (Forall P).
Proof. intros Hp r a r' H. unfold vector in H. unparse. by eapply returns_repeat. Qed.
Lemma returns_u32 : returns DecodeUint32 (fun x => in_u 32 x.1).
Proof.
  intros r [v n] r' H. unfold DecodeUint32, decode_leb in H.
  destruct (Leb128.LoadUint32 (unread r)) as [[v' n']|] eqn:E; [|done]. injection H as -> -> _.
  by apply Leb128.LoadUint32_range in E.
Qed.
Lemma returns_wrap {A} w (p : parser A) P : returns p P -> returns (wrap w p) P.
Proof. intros Hp r a r' H. unparse. by eapply Hp. Qed.
Lemma returns_wrapAt {A} w i (p : parser A) P : returns p P -> returns (wrapAt w i p) P.
Proof. intros Hp r a r' H. unparse. by eapply Hp. Qed.

Definition value_types (l : list Z) : Prop := Forall (fun v => isValueType v = true) l.

Lemma returns_ValueTypes n : returns (decodeValueTypes n) value_types.
Proof.
  intros r l r' H. unfold decodeValueTypes in H. unparse; [constructor|].
  apply Forall_forall. intros v Hv. destruct (isValueType v) eqn:Ev; [done|].
  match goal with Hf : filter _ _ = [] |- _ => rename Hf into Hnil end.
  exfalso. eapply (not_elem_of_nil v). rewrite <-Hnil. apply list_elem_of_filter. by rewrite Ev.
Qed.
Lemma returns_UTF8 c : returns (decodeUTF8 c) (fun x => Valid x.1 = true).
Proof. intros r x r' H. unfold decodeUTF8 in H. unparse; [done|]. by apply negb_false_iff. Qed.

Section invariant.
Variable features limit : Z.
Variable fromMax dwarf store : bool.

Definition type_ok (t : FunctionType) : Prop :=
  value_types (ft_Params t) /\ value_types (ft_Results t) /\
  ft_string t = key (ft_Params t) (ft_Results t).
Definition memory_ok (m : Memory) : Prop :=
  0 <= me_Min m <= me_Cap m /\ me_Cap m <= me_Max m <= limit /\
  (me_IsShared m = true -> me_IsMaxEncoded m = true /\ IsEnabled features CoreFeaturesThreads = true).
Definition table_ok (t : Table) : Prop :=
  tb_Min t <= MaximumFunctionIndex /\ (forall m, tb_Max t = Some m -> tb_Min t <= m) /\
  (tb_Type t <> RefTypeFuncref -> IsEnabled features CoreFeatureReferenceTypes = true).
Definition import_ok (i : Import) : Prop :=
  Valid (im_Module i) = true /\ Valid (im_Name i) = true /\
  ((im_Type i = ExternTypeFunc /\ in_u 32 (im_DescFunc i)) \/
   (im_Type i = ExternTypeTable /\ table_ok (im_DescTable i)) \/
   (im_Type i = ExternTypeMemory /\ exists m, im_DescMem i = Some m /\ memory_ok m) \/
   (im_Type i = ExternTypeGlobal /\ isValueType (gt_ValType (im_DescGlobal i)) = true)).
Definition code_ok (c : Code) : Prop :=
  value_types (co_LocalTypes c) /\ last (co_Body c) = Some OpcodeEnd.
(** What an entry of an element segment stands for: a function, the null
    reference or an imported global. *)
Definition init_ok (v : Z) : Prop := 0 <= v /\
  (v < MaximumFunctionIndex \/ v = ElementInitNullReference \/
   (unwrapElementInitGlobalReference v).2 = true).
Definition element_ok (e : ElementSegment) : Prop :=
  in_u 32 (el_TableIndex e) /\ Forall init_ok (el_Init e).
Definition export_ok (e : Export) : Prop :=
  Valid (ex_Name e) = true /\ 0 <= ex_Type e <= 3 /\ in_u 32 (ex_Index e).

Lemma returns_FunctionType : returns (decodeFunctionType features) type_ok.
Proof.
  intros r t r' H. unfold decodeFunctionType in H. unparse;
    split_and!; cbn; try done; by eapply returns_ValueTypes.
Qed.

Lemma Validate_ok m : Memory_Validate limit m = Ok tt ->
  me_Min m <= me_Max m <= limit /\ me_Min m <= me_Cap m <= limit.
Proof. unfold Memory_Validate. intros H. repeat case_match; try done. zbool; lia. Qed.

Lemma returns_Limits : returns decodeLimitsType (fun x => 0 <= x.1.1).
Proof.
  intros r x r' H. unfold decodeLimitsType in H. unparse; cbn [fst];
    match goal with E : DecodeUint32 _ = Ok ((?z, _), _) |- 0 <= ?z => apply (returns_u32 _ _ _ E) end.
Qed.
Lemma sizer_cap min maxP min' cap max : newMemorySizer limit fromMax min maxP = (min', cap, max) -> min' = min /\ (cap = min \/ cap = max).
Proof. unfold newMemorySizer. intros H. repeat case_match; injection H as <- <- <-; auto. Qed.
Lemma returns_Memory : returns (decodeMemory features limit fromMax) memory_ok.
Proof.
  intros r m r' H. unfold decodeMemory in H. unparse.
  match goal with Hl : decodeLimitsType _ = Ok _ |- _ => apply returns_Limits in Hl; cbn in Hl end.
  match goal with Hs : newMemorySizer _ _ _ _ = _ |- _ => apply sizer_cap in Hs as [-> Hcap] end.
  match goal with Hv : Memory_Validate _ _ = Ok ?u |- _ => destruct u; apply Validate_ok in Hv as [? ?] end.
  cbn [me_Min me_Cap me_Max] in *.
  split_and!; cbn [me_Min me_Cap me_Max]; try lia. cbn. intros ->. cbn [andb] in *.
  repeat match goal with Hb : negb _ = false |- _ => apply negb_false_iff in Hb end.
  split; [|done]. match goal with Hb : bool_decide (?o = None) = false |- _ =>
    apply bool_decide_eq_false in Hb; destruct o end; [by eapply bool_decide_eq_true_2|done].
Qed.
Lemma enabled_ok f r u r' : RequireEnabled features f r = Ok (u, r') -> IsEnabled features f = true.
Proof. unfold RequireEnabled, IsEnabled. by destruct (Z.land features f =? 0). Qed.

Lemma returns_Table : returns (decodeTable features) table_ok.
Proof.
  intros r t r' H. unfold decodeTable in H. unparse.
  all: repeat match goal with
    | Hb : negb _ = false |- _ => apply negb_false_iff, Z.eqb_eq in Hb
    | Hb : (_ <? _) = false |- _ => apply Z.ltb_ge in Hb
    end.
  all: split_and!; cbn; [done|intros ? [= ->]; by apply Z.ltb_ge|intros Ht].
  all: first [done|by eapply enabled_ok].
Qed.
Lemma returns_GlobalType : returns decodeGlobalType (fun g => isValueType (gt_ValType g) = true).
Proof.
  intros r g r' H. unfold decodeGlobalType in H. unparse.
  all: match goal with Hv : decodeValueTypes 1 _ = Ok (?l, _) |- _ =>
    pose proof (returns_ValueTypes 1 _ _ _ Hv) as Hl; revert Hv; unfold decodeValueTypes end.
  all: change (1 =? 0) with false; cbv iota; intros Hv; unparse.
  all: match goal with Hr : ReadFull 1 ?r = Ok _ |- _ => revert Hr; unfold ReadFull, Len end.
  all: destruct (unread _) as [|x l]; [done|]; destruct (_ <=? _); [|done].
  all: intros [= <- _]; by inversion Hl.
Qed.
Lemma returns_Import i : returns (decodeImport features limit fromMax i) import_ok.
Proof.
  intros r im r' H. unfold decodeImport in H. unparse.
  all: repeat match goal with
    | Hb : (_ =? _) = true |- _ => apply Z.eqb_eq in Hb
    | Hu : decodeUTF8 _ _ = Ok _ |- _ => apply returns_UTF8 in Hu end.
  all: split_and!; cbn in *; [done..|].
  - left. split; [done|]. match goal with E : DecodeUint32 _ = Ok _ |- _ => exact (returns_u32 _ _ _ E) end.
  - right; left. split; [done|]. by eapply returns_Table.
  - right; right; left. split; [done|]. eexists; split; [done|]. by eapply returns_Memory.
  - right; right; right. split; [done|]. by eapply returns_GlobalType.
Qed.
Lemma returns_Export : returns decodeExport export_ok.
Proof.
  intros r e r' H. unfold decodeExport in H. unparse.
  match goal with Hu : decodeUTF8 _ _ = Ok _ |- _ => apply returns_UTF8 in Hu end.
  split_and!; [done| | |].
  3: match goal with E : DecodeUint32 _ = Ok _ |- _ => exact (returns_u32 _ _ _ E) end.
  all: cbn; unfold ExternTypeFunc, ExternTypeTable, ExternTypeMemory, ExternTypeGlobal in *.
  all: zbool; cbn in *; try done; lia.
Qed.

(** The two passes over the locals read the same bytes. *)
Lemma locals_agree n k b s b' s' l k' r r1 l' k'' r2 :
  check_locals n k b s r = Ok ((b', s'), r1) ->
  read_locals n k' l r = Ok ((k'', l'), r2) ->
  value_types l -> value_types l'.
Proof.
  revert b s l k' r. induction n as [|n IH]; intros b s l k' r Hc Hr Hl;
    cbn [check_locals read_locals] in Hc, Hr.
  { by injection Hr as <- <- <-. }
  apply bind_ok in Hc as ([num m] & r3 & Hn%wrap_ok & Hc). destruct (k <? 0); [done|].
  apply bind_ok in Hc as (t & r4 & Ht%wrap_ok & Hc). destruct (negb (isValueType t)) eqn:Hv; [done|].
  apply bind_ok in Hr as ([num' m'] & r3' & Hn'%wrap_ok & Hr). rewrite Hn in Hn'.
  injection Hn' as <- <- <-. cbv zeta in Hr. destruct (_ <? 0) in Hr; [done|].
  apply bind_ok in Hr as (t' & r4' & Ht'%wrap_ok & Hr). rewrite Ht in Ht'. injection Ht' as <- <-.
  eapply IH; [exact Hc|exact Hr|]. apply Forall_app. split; [done|].
  apply Forall_replicate. by apply negb_false_iff.
Qed.

Lemma returns_Code c : returns (decodeCode c) code_ok.
Proof.
  intros r co r' H. unfold decodeCode in H. unparse.
  match goal with Hs : SeekBack _ _ = Ok _, Hc : check_locals _ _ _ _ _ = Ok _ |- _ =>
    pose proof (check_locals_reads _ _ _ _ _ _ _ _ Hc) as (Es & Hb & Ei); revert Hs; unfold SeekBack;
    destruct (_ <? _) in |- *; [done|intros [= _ <-]] end.
  match goal with Hb : negb _ = false |- _ => apply negb_false_iff, Z.eqb_eq in Hb; subst end.
  split; [|done]. cbn.
  match goal with Hc : check_locals _ _ _ _ ?r = Ok _, Hr : read_locals _ _ _ ?r2 = Ok _ |- _ =>
    assert (r2 = r) as Hrr; [destruct r; cbn in *; f_equal; [done|lia]|];
    rewrite Hrr in Hr; by eapply locals_agree; [exact Hc|exact Hr|constructor] end.
Qed.
Lemma wrap_unwrap i : (unwrapElementInitGlobalReference (WrapGlobalIndexAsElementInit i)).2 = true.
Proof.
  unfold unwrapElementInitGlobalReference, WrapGlobalIndexAsElementInit.
  set (g := elementInitImportedGlobalReferenceType).
  assert (Z.land (Z.lor i g) g = g) as ->; [|by rewrite Z.eqb_refl].
  apply Z.bits_inj'. intros k _. rewrite Z.land_spec, Z.lor_spec.
  by destruct (Z.testbit i k), (Z.testbit g k).
Qed.
Lemma element_init_ok t x v : element_init t x = Ok v -> init_ok v.
Proof.
  unfold element_init, init_ok. intros H. repeat case_match; simplify_eq.
  - split; [|left; by apply Z.leb_gt]. unfold loaded. destruct (Leb128.LoadUint32 _) as [[v k]|] eqn:E; [|done].
    by apply Leb128.LoadUint32_range in E as [? _].
  - split; [done|]. right. by left.
  - split; [|right; right; apply wrap_unwrap]. apply Z.lor_nonneg. split; [apply wrapu_range; lia|done].
Qed.
Lemma returns_InitValues : returns decodeElementInitValueVector (Forall init_ok).
Proof.
  intros r l r' H. unfold decodeElementInitValueVector in H. unparse.
  eapply returns_repeat; [|done]. intros i r1 v r2 H1. cbv beta in H1. unparse.
  split; [|left; by apply Z.leb_gt]. match goal with E : DecodeUint32 _ = Ok _ |- _ => apply (returns_u32 _ _ _ E) end.
Qed.
Lemma returns_InitExprs t : returns (decodeElementConstExprVector features t) (Forall init_ok).
Proof.
  intros r l r' H. unfold decodeElementConstExprVector in H. unparse.
  eapply returns_repeat; [|done]. intros i r1 v r2 H1. cbv beta in H1. unparse.
  by eapply element_init_ok.
Qed.
Lemma returns_element_table : returns (element_table features) (in_u 32).
Proof.
  intros r t r' H. unfold element_table in H. unparse.
  all: match goal with E : DecodeUint32 _ = Ok _ |- _ => exact (returns_u32 _ _ _ E) end.
Qed.
Lemma returns_Element : returns (decodeElementSegment features) element_ok.
Proof.
  intros r e r' H. unfold decodeElementSegment in H.
  apply bind_ok in H as ([prefix k] & r1 & _ & H). apply bind_ok in H as (u & r2 & _ & H).
  unparse; split; cbn [el_TableIndex el_Init];
    first [by eapply returns_InitValues|by eapply returns_InitExprs|by eapply returns_element_table|done].
Qed.

(** ** Imports and exports *)
Definition count (t : Z) (l : list Import) : Z := len (filter (fun i => im_Type i = t) l).
(** The positions, from [k], of the imports of one module. *)
Fixpoint positions (k : nat) (name : gostring) (l : list Import) : list nat :=
  match l with
  | [] => []
  | i :: l => (if bool_decide (im_Module i = name) then [k] else []) ++ positions (S k) name l
  end.

Record imports_ok (l : list Import) (pm : gmap (list Z) (list nat)) (f g m t : Z) : Prop := {
  io_each : Forall import_ok l;
  io_func : f = u32 (count ExternTypeFunc l);
  io_global : g = u32 (count ExternTypeGlobal l);
  io_memory : m = u32 (count ExternTypeMemory l);
  io_table : t = u32 (count ExternTypeTable l);
  io_index : forall i x, l !! i = Some x -> im_IndexPerType x = u32 (count (im_Type x) (take i l));
  io_module : forall name, default [] (pm !! name) = positions 0 name l }.

Lemma positions_app k name l l' :
  positions k name (l ++ l') = positions k name l ++ positions (k + length l) name l'.
Proof.
  revert k. induction l as [|x l IH]; intros k; cbn [positions app length].
  - by rewrite Nat.add_0_r.
  - rewrite IH, app_assoc. do 2 f_equal. lia.
Qed.
Lemma count_snoc t l x : count t (l ++ [x]) = count t l + (if im_Type x =? t then 1 else 0).
Proof.
  unfold count. rewrite filter_app, len_app. f_equal. rewrite filter_cons, filter_nil.
  destruct (Z.eqb_spec (im_Type x) t); by case_decide.
Qed.
Lemma u32_succ x : u32 (u32 x + 1) = u32 (x + 1).
Proof. unfold u32, wrapu. apply Z.add_mod_idemp_l. lia. Qed.

(** The import that is stored, and the counters after it. *)
Lemma imports_snoc l pm f g m t x c :
  imports_ok l pm f g m t -> import_ok x -> c = count (im_Type x) l ->
  let next ty n := if im_Type x =? ty then u32 (n + 1) else n in
  imports_ok (l ++ [indexed x (u32 c)])
    (<[im_Module x := default [] (pm !! im_Module x) ++ [length l]]> pm)
    (next ExternTypeFunc f) (next ExternTypeGlobal g) (next ExternTypeMemory m)
    (next ExternTypeTable t).
Proof.
  intros [He -> -> -> -> Hi Hm] Hx -> next. split.
  2-5: by rewrite count_snoc; unfold next; cbn [im_Type indexed];
    destruct (_ =? _); [rewrite u32_succ|rewrite Z.add_0_r].
  - apply Forall_app. split; [done|]. by constructor.
  - intros i y [Hy|[Hlen Hy]]%lookup_app_Some.
    + rewrite take_app_le by (apply lookup_lt_Some in Hy; lia). by apply Hi.
    + apply list_lookup_singleton_Some in Hy as [Hz <-]. cbn [im_IndexPerType im_Type indexed].
      rewrite take_app_le, take_ge by lia. done.
  - intros name. rewrite positions_app. cbn [positions im_Module indexed].
    rewrite app_nil_r, Nat.add_0_l. case_bool_decide as E.
    + subst name. rewrite lookup_insert. destruct (decide _); [|done]. cbn. by rewrite Hm.
    + rewrite lookup_insert_ne by done. by rewrite Hm, app_nil_r.
Qed.

Definition import_state_ok (s : importState) : Prop :=
  imports_ok (is_result s) (is_perModule s) (is_func s) (is_global s) (is_memory s) (is_table s).


Lemma add_import_ok s x : import_state_ok s -> import_ok x -> import_state_ok (add_import s x).
Proof.
  intros Hs Hx. pose proof (imports_snoc _ _ _ _ _ _ _ _ Hs Hx eq_refl) as H. cbv zeta in H.
  pose proof Hs as [_ Hf Hg Hm Ht _ _]. destruct s as [l pm f g m t].
  unfold add_import, import_state_ok, ExternTypeFunc, ExternTypeGlobal, ExternTypeMemory, ExternTypeTable in *.
  cbn [is_result is_perModule is_func is_global is_memory is_table] in *.
  destruct Hx as (_ & _ & [[E _]|[[E _]|[[E _]|[E _]]]]); rewrite E in H |- *;
    unfold ExternTypeFunc, ExternTypeGlobal, ExternTypeMemory, ExternTypeTable in H |- *;
    cbn [Z.eqb Pos.eqb] in H |- *.
  - by rewrite <-Hf in H.
  - by rewrite <-Ht in H.
  - by rewrite <-Hm in H.
  - by rewrite <-Hg in H.
Qed.
Lemma returns_import_loop n i s : import_state_ok s ->
  returns (import_loop features limit fromMax n i s) import_state_ok.
Proof.
  revert i s. induction n as [|n IH]; intros i s Hs r a r' H; cbn [import_loop] in H; unparse; [done|].
  eapply IH; [|exact H]. apply add_import_ok; [done|by eapply returns_Import].
Qed.
Lemma no_imports : imports_ok [] ∅ 0 0 0 0.
Proof. split; try done. Qed.

Record exports_ok (l : list Export) (em : gmap (list Z) nat) : Prop := {
  eo_each : Forall export_ok l;
  eo_names : NoDup (ex_Name <$> l);
  eo_map : forall name i, em !! name = Some i <-> exists e, l !! i = Some e /\ ex_Name e = name }.

Lemma exports_snoc l em e :
  exports_ok l em -> export_ok e -> em !! ex_Name e = None ->
  exports_ok (l ++ [e]) (<[ex_Name e := length l]> em).
Proof.
  intros [He Hn Hm] Hx Hnew. split.
  - apply Forall_app_2; [done|]. by apply Forall_singleton.
  - rewrite fmap_app. apply NoDup_app. split_and!; [done| |apply NoDup_singleton].
    intros n Hin ->%list_elem_of_singleton. apply list_elem_of_fmap in Hin as (e' & E & [i Hi]%list_elem_of_lookup).
    assert (em !! ex_Name e = Some i) by (apply Hm; eauto). congruence.
  - intros name i. rewrite lookup_insert. destruct (decide (ex_Name e = name)) as [E|E].
    + split.
      * intros [= <-]. exists e. by rewrite lookup_app_r, Nat.sub_diag by lia.
      * intros (e' & [Hi|[Hlen Hi]]%lookup_app_Some & E').
        -- assert (em !! name = Some i) by (apply Hm; eauto). congruence.
        -- apply list_lookup_singleton_Some in Hi as [Hz _]. f_equal. lia.
    + rewrite Hm. split; intros (e' & Hi & E').
      * exists e'. split; [|done]. by apply lookup_app_l_Some.
      * exists e'. split; [|done]. apply lookup_app_Some in Hi as [Hi|[_ Hi]]; [done|].
        apply list_lookup_singleton_Some in Hi as [_ <-]. done.
Qed.
Lemma returns_export_loop n l em : exports_ok l em ->
  returns (export_loop n l em) (fun x => exports_ok x.1 x.2).
Proof.
  revert l em. induction n as [|n IH]; intros l em Hl r a r' H; cbn [export_loop] in H; unparse; [done|].
  eapply IH; [|exact H]. apply exports_snoc; [done|by eapply returns_Export|].
  match goal with Hb : bool_decide _ = false |- _ => apply bool_decide_eq_false in Hb end.
  by apply eq_None_not_Some.
Qed.
Lemma no_exports : exports_ok [] ∅.
Proof. split; [done|constructor|]. intros name i. split; [done|]. by intros (e & ? & _). Qed.

Record module_ok (m : Module') : Prop := {
  mo_types : Forall type_ok (TypeSection m);
  mo_imports : imports_ok (ImportSection m) (ImportPerModule m) (ImportFunctionCount m)
                 (ImportGlobalCount m) (ImportMemoryCount m) (ImportTableCount m);
  mo_functions : Forall (in_u 32) (FunctionSection m);
  mo_tables : Forall table_ok (TableSection m);
  mo_memory : forall x, MemorySection m = Some x -> memory_ok x;
  mo_globals : Forall (fun g => isValueType (gt_ValType (gl_Type g)) = true) (GlobalSection m);
  mo_exports : exports_ok (ExportSection m) (Exports m);
  mo_elements : Forall element_ok (ElementSection m);
  mo_code : Forall code_ok (CodeSection m) }.

Lemma empty_ok : module_ok emptyModule.
Proof. split; first [apply no_imports|apply no_exports|done]. Qed.

Lemma returns_TypeSection : returns (decodeTypeSection features) (Forall type_ok).
Proof. apply returns_vector. intros i. apply returns_wrapAt, returns_FunctionType. Qed.
Lemma returns_FunctionSection : returns decodeFunctionSection (Forall (in_u 32)).
Proof.
  apply returns_vector. intros i r v r' H. unparse.
  match goal with E : DecodeUint32 _ = Ok _ |- _ => exact (returns_u32 _ _ _ E) end.
Qed.
Lemma returns_ImportSection : returns (decodeImportSection features limit fromMax) import_state_ok.
Proof.
  intros r a r' H. unfold decodeImportSection in H. unparse.
  eapply returns_import_loop; [|exact H]. apply no_imports.
Qed.
Lemma returns_TableSection : returns (decodeTableSection features) (Forall table_ok).
Proof.
  intros r a r' H. unfold decodeTableSection in H. unparse;
    (eapply returns_repeat; [|done]); intros i; apply returns_Table.
Qed.
Lemma returns_MemorySection :
  returns (decodeMemorySection features limit fromMax) (fun m => forall x, m = Some x -> memory_ok x).
Proof.
  intros r a r' H. unfold decodeMemorySection in H. unparse; [done|].
  intros x [= ->]. by eapply returns_Memory.
Qed.
Lemma returns_GlobalSection : returns (decodeGlobalSection features)
  (Forall (fun g => isValueType (gt_ValType (gl_Type g)) = true)).
Proof.
  apply returns_vector. intros i. apply returns_wrapAt. intros r g r' H. unfold decodeGlobal in H.
  unparse. by eapply returns_GlobalType.
Qed.
Lemma returns_ExportSection : returns decodeExportSection (fun x => exports_ok x.1 x.2).
Proof.
  intros r a r' H. unfold decodeExportSection in H. unparse.
  eapply returns_export_loop; [|exact H]. apply no_exports.
Qed.
Lemma returns_ElementSection : returns (decodeElementSection features) (Forall element_ok).
Proof. apply returns_vector. intros i. apply returns_wrap, returns_Element. Qed.
Lemma returns_CodeSection : returns decodeCodeSection (Forall code_ok).
Proof.
  intros r a r' H. unfold decodeCodeSection in H. unparse.
  eapply returns_vector; [|exact H]. intros i. apply returns_wrapAt, returns_Code.
Qed.

Lemma custom_ok size m d r m' d' r' :
  custom_section dwarf store size (m, d) r = Ok ((m', d'), r') -> module_ok m -> module_ok m'.
Proof.
  unfold custom_section. intros H Hm. unparse; simplify_eq; try done; destruct Hm; split; assumption.
Qed.

Lemma decodeSection_ok id size m d r m' d' r' :
  decodeSection features limit fromMax dwarf store id size (m, d) r = Ok ((m', d'), r') ->
  module_ok m -> module_ok m'.
Proof.
  cbn [decodeSection]. intros H Hm.
  repeat match type of H with
  | match ?x with _ => _ end _ = _ => is_var x; destruct x; try done
  end.
  all: try by eapply custom_ok.
  all: unparse; simplify_eq; destruct Hm; split; cbn; try done.
  all: first [by eapply returns_TypeSection|by eapply returns_ImportSection|by eapply returns_FunctionSection|by eapply returns_TableSection
    |by eapply returns_MemorySection|by eapply returns_GlobalSection|by eapply returns_ElementSection
    |by eapply returns_CodeSection|idtac].
  match goal with H : decodeExportSection _ = _ |- _ => exact (returns_ExportSection _ _ _ H) end.
Qed.

Lemma sections_ok fuel m d r m' d' r' :
  sections features limit fromMax dwarf store fuel (m, d) r = Ok ((m', d'), r') ->
  module_ok m -> module_ok m'.
Proof.
  revert m d r. induction fuel as [|fuel IH]; intros m d r H Hm; [done|]. cbn [sections] in H.
  apply bind_ok in H as (? & ? & [= <- <-] & H). destruct (Len r =? 0); [by injection H as <- <- <-|].
  apply bind_ok in H as (id & r1 & _ & H). apply bind_ok in H as ([m2 d2] & r2 & Hs & H).
  unfold section in Hs. apply bind_ok in Hs as ([size n] & r3 & _ & Hs).
  destruct (decodeSection _ _ _ _ _ _ _ _ r3) as [[[m3 d3] r4]|] eqn:E; [|done].
  cbn in Hs. destruct (negb _); [done|]. injection Hs as <- <- <-.
  eapply IH; [exact H|]. by eapply decodeSection_ok.
Qed.
End invariant.

Lemma DecodeModule_ok features limit fromMax dwarf store binary m d :
  DecodeModule features limit fromMax dwarf store binary = Ok (m, d) -> module_ok features limit m.
Proof.
  unfold DecodeModule. intros H.
  match type of H with match ?x with _ => _ end = _ => destruct x as [[[m1 d1] r]|] eqn:E; [|done] end.
  destruct (negb _); [done|]. injection H as <- <-.
  apply bind_ok in E as (? & ? & _ & E). apply bind_ok in E as (? & ? & _ & E).
  eapply sections_ok; [exact E|apply empty_ok].
Qed.
Lemma DecodeModule_code features limit fromMax dwarf store binary m d :
  DecodeModule features limit fromMax dwarf store binary = Ok (m, d) ->
  u32 (len (FunctionSection m)) = u32 (len (CodeSection m)).
Proof.
  unfold DecodeModule. intros H.
  match type of H with match ?x with _ => _ end = _ => destruct x as [[[m1 d1] r]|]; [|done] end.
  destruct (negb _) eqn:Hn; [done|]. injection H as <- <-. by apply negb_false_iff, Z.eqb_eq in Hn.
Qed.

(** C27: whatever is accepted is a well-formed module: value types are value
    types; every memory, declared or imported, has minimum, capacity and
    maximum in order and within the limit of the runtime, and is shared only
    with a maximum and the threads feature; the import counters, the index of
    each import in its kind and the per-module lists agree with the import
    section; exported names are distinct and the map of exports is the export
    section by name; every entry of an element segment is a function index
    below the limit, the null reference or a global; a function body ends with
    [end] and there is one for each declared function. *)
Theorem decoded_module_ok features limit fromMax dwarf store binary m d :
  DecodeModule features limit fromMax dwarf store binary = Ok (m, d) ->
  module_ok features limit m /\
  u32 (len (FunctionSection m)) = u32 (len (CodeSection m)).
Proof. intros H. split; [by eapply DecodeModule_ok|by eapply DecodeModule_code]. Qed.

(** Two exports of an imported function and of a memory. *)
Definition sample_binary : list Z :=
  Magic ++ version ++
  [1; 4; 1; 0x60; 0; 0] ++ [2; 7; 1; 1; 97; 1; 98; 0; 0] ++ [5; 3; 1; 0; 2] ++
  [7; 9; 2; 1; 102; 0; 0; 1; 109; 2; 0].

Lemma decoded_module_ok_witness : exists m,
  DecodeModule CoreFeaturesV2 65536 false false false sample_binary = Ok (m, None) /\
  module_ok CoreFeaturesV2 65536 m /\ len (ExportSection m) = 2.
Proof.
  eexists. split; [vm_compute; reflexivity|].
  split; [|reflexivity].
  apply (decoded_module_ok CoreFeaturesV2 65536 false false false sample_binary _ None).
  vm_compute. reflexivity.
Defined.

(** ** Function types are identified by their text *)
Lemma isValueType_cases v : isValueType v = true ->
  v ∈ [ValueTypeI32; ValueTypeF32; ValueTypeI64; ValueTypeF64; ValueTypeExternref; ValueTypeFuncref; ValueTypeV128].
Proof.
  unfold isValueType. rewrite !orb_true_iff, !Z.eqb_eq, !elem_of_cons, elem_of_nil. tauto.
Qed.

(** The names of the value types are a prefix code whose words have neither
    an underscore nor a [v] that is not followed by a digit. *)
Lemma ValueTypeName_prefix v w s t : isValueType v = true -> isValueType w = true ->
  ValueTypeName v ++ s = ValueTypeName w ++ t -> v = w /\ s = t.
Proof.
  intros Hv%isValueType_cases Hw%isValueType_cases. rewrite !elem_of_cons, elem_of_nil in Hv, Hw.
  destruct Hv as [->|[->|[->|[->|[->|[->|[->|[]]]]]]]], Hw as [->|[->|[->|[->|[->|[->|[->|[]]]]]]]];
    cbn; intros [=]; by split.
Qed.
Lemma ValueTypeName_no_stop v s t : isValueType v = true ->
  ValueTypeName v ++ s <> $"_" ++ t /\ ValueTypeName v ++ s <> $"v" /\
  ValueTypeName v ++ s <> $"v_" ++ t /\ ValueTypeName v ++ s <> [].
Proof.
  intros Hv%isValueType_cases. rewrite !elem_of_cons, elem_of_nil in Hv.
  destruct Hv as [->|[->|[->|[->|[->|[->|[->|[]]]]]]]]; by split_and!.
Qed.

Notation names l := (concat (ValueTypeName <$> l)).

Lemma names_inj l k : value_types l -> value_types k -> names l = names k -> l = k.
Proof.
  intros Hl. revert k. induction Hl as [|v l Hv _ IH]; intros k Hk H;
    destruct Hk as [|w k Hw Hk]; cbn [fmap list_fmap concat] in H; [done|symmetry in H| |].
  - by apply (ValueTypeName_no_stop w _ []) in H.
  - by apply (ValueTypeName_no_stop v _ []) in H.
  - apply ValueTypeName_prefix in H as [-> H]; [|done..]. f_equal. by apply IH.
Qed.
Lemma names_stop_inj l k s t : value_types l -> value_types k ->
  names l ++ $"_" ++ s = names k ++ $"_" ++ t -> l = k /\ s = t.
Proof.
  intros Hl. revert k. induction Hl as [|v l Hv _ IH]; intros k Hk H;
    destruct Hk as [|w k Hw Hk]; cbn [fmap list_fmap concat] in H; rewrite <-?app_assoc in H.
  - cbn in H. by injection H.
  - rewrite app_nil_l in H. symmetry in H. by apply (ValueTypeName_no_stop w _ s) in H.
  - rewrite app_nil_l in H. by apply (ValueTypeName_no_stop v _ t) in H.
  - apply ValueTypeName_prefix in H as [-> H]; [|done..]. apply IH in H as [-> ->]; done.
Qed.

(** What [key] writes for the parameters, up to the results. *)
Definition key_results (l : list Z) : gostring := names l ++ (if len l =? 0 then $"v" else []).
Lemma key_split params results :
  key params results = (names params ++ if len params =? 0 then $"v_" else $"_") ++ key_results results.
Proof.
  unfold key, key_results. destruct (len results =? 0); rewrite ?app_nil_r, <-?app_assoc; done.
Qed.
Lemma key_results_inj l k : value_types l -> value_types k -> key_results l = key_results k -> l = k.
Proof.
  intros Hl Hk. unfold key_results. destruct Hl as [|v l Hv Hl], Hk as [|w k Hw Hk]; [done|..];
    rewrite ?len_nil, ?len_cons; cbn [Z.eqb fmap list_fmap concat]; rewrite ?app_nil_l, <-?app_assoc.
  - intros H. symmetry in H. by apply (ValueTypeName_no_stop w _ []) in H.
  - intros H. by apply (ValueTypeName_no_stop v _ []) in H.
  - pose proof (len_nonneg l). pose proof (len_nonneg k).
    destruct (Z.eqb_spec (1 + len l) 0); [lia|]. destruct (Z.eqb_spec (1 + len k) 0); [lia|].
    rewrite !app_nil_r. intros E. apply names_inj; [by constructor..|exact E].
Qed.

(** The text a function type is identified by in the store determines the
    type: two types of value types with the same [key] have the same
    parameters and results. *)
Lemma key_injective p r p' r' :
  value_types p -> value_types r -> value_types p' -> value_types r' ->
  key p r = key p' r' -> p = p' /\ r = r'.
Proof.
  intros Hp Hr Hp' Hr'. rewrite !key_split.
  assert (forall l s, value_types l -> l <> [] ->
    (names l ++ (if len l =? 0 then $"v_" else $"_")) ++ s = names l ++ $"_" ++ s) as Hne.
  { intros [|v l] s _ Hl; [done|]. rewrite len_cons. pose proof (len_nonneg l).
    destruct (Z.eqb_spec (1 + len l) 0); [lia|]. by rewrite <-app_assoc. }
  destruct (decide (p = [])) as [->|Np], (decide (p' = [])) as [->|Np'].
  - cbn. intros [= H]. split; [done|]. by apply key_results_inj.
  - rewrite (Hne p') by done. destruct Hp' as [|w k Hw Hk]; [done|]. cbn [fmap list_fmap concat].
    change (len (@nil Z) =? 0) with true. rewrite app_nil_l, <-app_assoc.
    intros E. symmetry in E. by apply (ValueTypeName_no_stop w) in E.
  - rewrite (Hne p) by done. destruct Hp as [|w k Hw Hk]; [done|]. cbn [fmap list_fmap concat].
    change (len (@nil Z) =? 0) with true. rewrite app_nil_l, <-app_assoc.
    intros E. by apply (ValueTypeName_no_stop w) in E.
  - rewrite (Hne p), (Hne p') by done. intros H. apply names_stop_inj in H as [-> H]; [|done..].
    split; [done|]. by apply key_results_inj.
Qed.

End WasmBinarySpec.
