(* ===== verification/ProviderModule.v ===== *)
(** * A synthesised host module is a module

    [provider.go] writes a WebAssembly binary by hand; the runtime decodes it
    with [internal/wasm/binary].  [reads] states that a decoder consumes
    exactly the given bytes and returns the given value, and composes along
    the decoders; the theorem is that decoding what the provider wrote gives
    the imports, memory, globals and exports of its specification. *)
From S2P Require Import Prelude Leb128 GoStd Json Values Recording HostState Manifest Provider WasmBinary WasmBinarySpec.

Module ProviderModule.
Import GoStd Values HostState Provider WasmBinary WasmBinarySpec.

(** ** Decoders that read given bytes *)
Definition reads {A} (p : parser A) (bs : list Z) (a : A) : Prop :=
  forall r rest, unread r = bs ++ rest -> p r = Ok (a, advance r (length bs)).

Lemma unread_advance r bs rest : unread r = bs ++ rest -> unread (advance r (length bs)) = rest.
Proof.
  unfold unread, advance. cbn. intros E. rewrite <-drop_drop, E. apply drop_app_length.
Qed.
Lemma advance_add r n m : advance (advance r n) m = advance r (n + m).
Proof. unfold advance. cbn. f_equal. lia. Qed.
Lemma advance_0 r : advance r 0 = r.
Proof. destruct r. unfold advance. cbn. f_equal. lia. Qed.

Lemma reads_pret {A} (a : A) : reads (pret a) [] a.
Proof. intros r rest _. cbn. by rewrite advance_0. Qed.
Lemma reads_bind {A B} (p : parser A) (k : A -> parser B) b1 b2 a c :
  reads p b1 a -> reads (k a) b2 c -> reads (pbind p k) (b1 ++ b2) c.
Proof.
  intros Hp Hk r rest E. rewrite <-app_assoc in E. unfold pbind. rewrite (Hp _ _ E).
  rewrite (Hk _ _ (unread_advance _ _ _ E)), advance_add, length_app. done.
Qed.
Lemma reads_nil {A B} (p : parser A) (k : A -> parser B) bs a c :
  reads p [] a -> reads (k a) bs c -> reads (pbind p k) bs c.
Proof. apply (reads_bind p k [] bs). Qed.
Lemma reads_end {A B} (p : parser A) (f : A -> B) bs a :
  reads p bs a -> reads (pbind p (fun x => pret (f x))) bs (f a).
Proof. intros Hp. rewrite <-(app_nil_r bs). eapply reads_bind; [exact Hp|apply reads_pret]. Qed.
Lemma reads_wrap {A} w (p : parser A) bs a : reads p bs a -> reads (wrap w p) bs a.
Proof. intros Hp r rest E. unfold wrap. by rewrite (Hp _ _ E). Qed.
Lemma reads_wrapAt {A} w i (p : parser A) bs a : reads p bs a -> reads (wrapAt w i p) bs a.
Proof. intros Hp r rest E. unfold wrapAt. by rewrite (Hp _ _ E). Qed.
Lemma reads_direct {A} (p : parser A) bs a : reads p bs a -> reads (direct p) bs a.
Proof. intros Hp r rest E. unfold direct. by rewrite (Hp _ _ E). Qed.
Lemma reads_byte b : reads ReadByte [b] b.
Proof. intros r rest E. unfold ReadByte. by rewrite E. Qed.
Lemma reads_full bs : reads (ReadFull (len bs)) bs bs.
Proof.
  intros r rest E. unfold ReadFull, Len. rewrite E, len_app.
  pose proof (len_nonneg rest). destruct (Z.leb_spec (len bs) (len bs + len rest)); [|lia].
  unfold len. rewrite Nat2Z.id. by rewrite take_app_length.
Qed.
Lemma reads_leb load bs v :
  (forall rest, load (bs ++ rest) = Ok (v, len bs)) -> reads (decode_leb load) bs (v, len bs).
Proof.
  intros H r rest E. unfold decode_leb. rewrite E, H. unfold len. by rewrite Nat2Z.id.
Qed.
Lemma reads_uleb v : in_u 32 v ->
  reads DecodeUint32 (appendULEB128 [] v) (v, len (appendULEB128 [] v)).
Proof.
  intros Hv. rewrite appendULEB128_spec. apply reads_leb. intros rest.
  by apply Leb128.LoadUint32_encode.
Qed.
Lemma appendULEB128_app dst v : appendULEB128 dst v = dst ++ appendULEB128 [] v.
Proof. by rewrite !appendULEB128_spec. Qed.
Lemma appendName_app dst s : appendName dst s = dst ++ appendName [] s.
Proof. unfold appendName. by rewrite appendULEB128_app, app_assoc. Qed.

(** Loops over a list of entries. *)
Lemma reads_repeat {A B} (p : Z -> parser A) (enc : B -> list Z) (val : B -> A) xs i :
  (forall i x, x ∈ xs -> reads (p i) (enc x) (val x)) ->
  reads (repeatp (length xs) i p) (concat (enc <$> xs)) (val <$> xs).
Proof.
  revert i. induction xs as [|x xs IH]; intros i H; cbn; [apply reads_pret|].
  eapply reads_bind; [apply H; left|]. apply reads_end. apply IH. intros. apply H. by right.
Qed.
Lemma reads_vector {A B} (p : Z -> parser A) (enc : B -> list Z) (val : B -> A) xs :
  in_u 32 (len xs) -> (forall i x, x ∈ xs -> reads (p i) (enc x) (val x)) ->
  reads (vector p) (appendULEB128 [] (len xs) ++ concat (enc <$> xs)) (val <$> xs).
Proof.
  intros Hl H. unfold vector. eapply reads_bind; [by apply reads_wrap, reads_uleb|].
  unfold len at 1. cbv beta iota. rewrite Nat2Z.id. by apply reads_repeat.
Qed.

Lemma len_zero {A} (l : list A) : len l = 0 -> l = [].
Proof. destruct l; [done|]. unfold len. cbn. lia. Qed.

(** ** Names and types *)
Definition name_ok (s : gostring) : Prop := Valid s = true /\ in_u 32 (len s).
Definition name_size (s : gostring) : Z := u32 (len s + u32 (len (appendULEB128 [] (len s)))).

Lemma reads_UTF8 c s : name_ok s -> reads (decodeUTF8 c) (appendName [] s) (s, name_size s).
Proof.
  intros [Hv Hl]. unfold decodeUTF8, appendName.
  eapply reads_bind; [by apply reads_wrap, reads_uleb|]. cbv beta iota.
  destruct (Z.eqb_spec (len s) 0) as [E|_].
  - apply len_zero in E as ->. unfold name_size.
    rewrite len_nil, Z.add_0_l. unfold u32 at 2. rewrite wrapu_wrapu. apply reads_pret.
  - rewrite <-(app_nil_r s) at 2. eapply reads_bind; [apply reads_wrap, reads_full|].
    rewrite Hv. apply reads_pret.
Qed.

Lemma reads_ValueTypes l : value_types l -> reads (decodeValueTypes (len l)) l l.
Proof.
  intros Hl. unfold decodeValueTypes. destruct (Z.eqb_spec (len l) 0) as [E|_].
  { apply len_zero in E as ->. apply reads_pret. }
  rewrite <-(app_nil_r l) at 2. eapply reads_bind; [apply reads_full|].
  assert (filter (fun v => negb (isValueType v)) l = []) as ->; [|apply reads_pret].
  induction Hl as [|v l Hv _ IH]; [done|]. rewrite filter_cons, Hv. exact IH.
Qed.
Lemma value_types_u8 l : value_types l -> u8 <$> l = l.
Proof.
  intros Hl. rewrite <-(list_fmap_id l) at 2. apply Forall_fmap_ext_1.
  eapply Forall_impl; [exact Hl|]. intros v Hv. unfold id. apply wrapu_small. unfold in_u.
  unfold isValueType, ValueTypeI32, ValueTypeF32, ValueTypeI64, ValueTypeF64, ValueTypeExternref,
    ValueTypeFuncref, ValueTypeV128 in Hv. zbool; cbn in *; try done; lia.
Qed.

Section decoded.
Variable features limit : Z.
Variable fromMax dwarf store : bool.

Definition types_ok (params results : list Z) : Prop :=
  value_types params /\ value_types results /\ in_u 32 (len params) /\ in_u 32 (len results) /\
  (1 < len results -> IsEnabled features CoreFeatureMultiValue = true).
Definition func_type (params results : list Z) : FunctionType :=
  mkFunctionType params results (key params results).

Lemma reads_enabled f : IsEnabled features f = true -> reads (RequireEnabled features f) [] tt.
Proof.
  unfold IsEnabled, RequireEnabled. destruct (_ =? 0); [done|]. intros _. apply reads_pret.
Qed.
Lemma reads_FunctionType params results : types_ok params results ->
  reads (decodeFunctionType features) (encodeFuncType params results) (func_type params results).
Proof.
  intros (Hp & Hr & Lp & Lr & Hm). unfold encodeFuncType, decodeFunctionType. cbv zeta.
  rewrite !value_types_u8 by done.
  rewrite (appendULEB128_app [96]), (appendULEB128_app (_ ++ _)), <-!app_assoc.
  eapply reads_bind; [apply reads_wrap, reads_byte|]. change (negb (96 =? 96)) with false. cbv iota.
  eapply reads_bind; [by apply reads_wrap, reads_uleb|]. cbv beta iota.
  eapply reads_bind; [by apply reads_wrap, reads_ValueTypes|].
  eapply reads_bind; [by apply reads_wrap, reads_uleb|]. cbv beta iota.
  eapply (reads_nil _ _ _ tt).
  { destruct (Z.ltb_spec 1 (len results)); [|apply reads_pret]. by apply reads_wrap, reads_enabled, Hm. }
  rewrite <-(app_nil_r results) at 2.
  eapply reads_bind; [by apply reads_wrap, reads_ValueTypes|]. apply reads_pret.
Qed.

(** ** Memories *)
Definition memory_of (m : ImportedMemory) : Memory :=
  let '(min, cap, max) := newMemorySizer limit fromMax (MinPages m) (MaxPages m) in
  mkMemory min cap max (bool_decide (is_Some (MaxPages m))) false.
Definition memory_fits (m : ImportedMemory) : Prop :=
  in_u 32 (MinPages m) /\ (forall hi, MaxPages m = Some hi -> in_u 32 hi) /\
  Memory_Validate limit (memory_of m) = Ok tt.

Lemma reads_limits m : memory_fits m ->
  reads decodeLimitsType (memory_entry [] m) (MinPages m, MaxPages m, false).
Proof.
  intros (Hlo & Hhi & _). unfold decodeLimitsType, memory_entry.
  destruct (MaxPages m) as [hi|] eqn:E.
  - rewrite (appendULEB128_app (appendULEB128 _ _)), (appendULEB128_app (_ ++ _)), app_nil_l, <-app_assoc.
    eapply reads_bind; [apply reads_wrap, reads_byte|]. cbv beta zeta. cbn [Z.eqb Pos.eqb orb].
    eapply reads_bind; [by apply reads_wrap, reads_uleb|]. cbv beta iota.
    rewrite <-(app_nil_r (appendULEB128 [] hi)).
    eapply reads_bind; [apply reads_wrap, reads_uleb; by apply Hhi|]. apply reads_pret.
  - rewrite (appendULEB128_app (_ ++ _)), app_nil_l.
    eapply reads_bind; [apply reads_wrap, reads_byte|]. cbv beta zeta. cbn [Z.eqb Pos.eqb orb].
    rewrite <-(app_nil_r (appendULEB128 [] _)).
    eapply reads_bind; [by apply reads_wrap, reads_uleb|]. apply reads_pret.
Qed.
Lemma reads_Memory m : memory_fits m ->
  reads (decodeMemory features limit fromMax) (memory_entry [] m) (memory_of m).
Proof.
  intros Hm. unfold decodeMemory. rewrite <-(app_nil_r (memory_entry [] m)).
  eapply reads_bind; [by apply reads_limits|]. cbn [andb].
  destruct Hm as (_ & _ & Hv). unfold memory_of in *.
  destruct (newMemorySizer limit fromMax (MinPages m) (MaxPages m)) as [[mn cap] mx].
  eapply (reads_nil _ _ _ tt); [|apply reads_pret].
  intros r rest _. unfold lift. rewrite Hv. by rewrite advance_0.
Qed.

(** ** Globals *)
Definition const_of (t : ScalarType) (v : Value) : ConstantExpression :=
  match t with
  | TypeI32 => mkConst OpcodeI32Const (appendSLEB128 [] (i32 (u32 (Bits v))))
  | TypeI64 => mkConst OpcodeI64Const (appendSLEB128 [] (i64 (Bits v)))
  | TypeF32 => mkConst OpcodeF32Const
      ((fun i => u8 (Z.shiftr (u32 (Bits v)) i)) <$> [0; 8; 16; 24])
  | TypeF64 => mkConst OpcodeF64Const ((fun i => u8 (Z.shiftr (Bits v) (8 * i))) <$> [0; 1; 2; 3; 4; 5; 6; 7])
  end.
Lemma constExpr_shape t v : constExpr t v = ce_Opcode (const_of t v) :: ce_Data (const_of t v) ++ [OpcodeEnd].
Proof.
  destruct t; cbn [constExpr const_of ce_Opcode ce_Data]; try done.
  - by rewrite (appendSLEB128_spec [65]), (appendSLEB128_spec []).
  - by rewrite (appendSLEB128_spec [66]), (appendSLEB128_spec []).
Qed.

Lemma reads_Const op im :
  (forall n, reads (const_immediate features op n) im (op, n)) ->
  reads (decodeConstantExpression features) (op :: im ++ [OpcodeEnd]) (mkConst op im).
Proof.
  intros Hi r rest E. unfold decodeConstantExpression, pbind, wrap, getr.
  assert (unread r = [op] ++ (im ++ [OpcodeEnd] ++ rest)) as E0.
  { rewrite E. cbn. by rewrite <-app_assoc. }
  rewrite (reads_byte op _ _ E0). cbn [map_err length]. apply unread_advance in E0. cbn [length] in E0.
  rewrite (Hi (Len (advance r 1)) _ _ E0). pose proof (unread_advance _ _ _ E0) as E1.
  rewrite (reads_byte OpcodeEnd _ _ E1). cbn [map_err].
  rewrite Z.eqb_refl. cbn [negb]. pose proof (unread_advance _ _ _ E1) as E2. cbn [length] in E2 |- *.
  rewrite !advance_add in *. unfold Len. rewrite E0, E2.
  replace (len (im ++ [OpcodeEnd] ++ rest) - len rest - 1) with (len im)
    by (rewrite !len_app, len_cons, len_nil; lia).
  assert (Size (advance r 1) - len (im ++ [OpcodeEnd] ++ rest) = Z.of_nat (r_i r + 1)) as Ho.
  { rewrite <-E0. unfold Size, unread, advance in *. cbn [r_s r_i] in *. unfold len. rewrite length_drop.
    apply (f_equal length) in E0. rewrite length_drop, !length_app in E0. cbn in E0. lia. }
  rewrite Ho. unfold ReadAt, Size, advance, unread in *. cbn [r_s r_i] in *.
  destruct (Z.leb_spec (len (r_s r)) (Z.of_nat (r_i r + 1))) as [Hle|_].
  { apply (f_equal length) in E0. rewrite length_drop, !length_app in E0. cbn in E0. unfold len in Hle. lia. }
  unfold sub. rewrite Nat2Z.id, E0. unfold len. rewrite Nat2Z.id, take_app_length, Z.ltb_irrefl.
  cbn [map_err]. unfold pret. rewrite length_app. cbn [length].
  by replace (S (length im + 1)) with (1 + (length im + 1))%nat by lia.
Qed.
Lemma reads_const_of t v :
  reads (decodeConstantExpression features) (constExpr t v) (const_of t v).
Proof.
  rewrite constExpr_shape. destruct t; cbn [const_of ce_Opcode ce_Data]; apply reads_Const; intros n;
    unfold const_immediate; cbn [Z.eqb Pos.eqb OpcodeI32Const OpcodeI64Const OpcodeF32Const OpcodeF64Const].
  - rewrite <-(app_nil_r (appendSLEB128 _ _)). eapply reads_bind; [|apply reads_pret].
    apply reads_wrap. rewrite appendSLEB128_spec. apply reads_leb. intros rest.
    apply Leb128.LoadInt32_encode, wraps_range. lia.
  - rewrite <-(app_nil_r (appendSLEB128 _ _)). eapply reads_bind; [|apply reads_pret].
    apply reads_wrap. rewrite appendSLEB128_spec. apply reads_leb. intros rest.
    apply Leb128.LoadInt64_encode, wraps_range. lia.
  - rewrite <-(app_nil_r (_ <$> _)). eapply reads_bind; [|apply reads_pret].
    apply reads_wrap. match goal with |- reads _ ?bs _ => exact (reads_full bs) end.
  - rewrite <-(app_nil_r (_ <$> _)). eapply reads_bind; [|apply reads_pret].
    apply reads_wrap. match goal with |- reads _ ?bs _ => exact (reads_full bs) end.
Qed.

Definition global_of (t : ScalarType) (v : Value) (mut : bool) : Global :=
  mkGlobal (mkGlobalType (ValueType t) mut) (const_of t v).
Lemma reads_GlobalType t (mut : bool) :
  reads decodeGlobalType [ValueType t; if mut then 0x01 else 0x00] (mkGlobalType (ValueType t) mut).
Proof.
  unfold decodeGlobalType. apply (reads_bind _ _ [ValueType t] _ [ValueType t]).
  { apply reads_wrap, (reads_ValueTypes [ValueType t]). constructor; [by destruct t|done]. }
  rewrite <-(app_nil_r [if mut then 0x01 else 0x00]). eapply reads_bind; [apply reads_wrap, reads_byte|].
  destruct mut; cbn; apply reads_pret.
Qed.
Lemma reads_Global t v (mut : bool) :
  reads (decodeGlobal features)
    ([ValueType t; if mut then 0x01 else 0x00] ++ constExpr t v) (global_of t v mut).
Proof.
  unfold decodeGlobal. eapply reads_bind; [apply reads_GlobalType|].
  rewrite <-(app_nil_r (constExpr t v)). eapply reads_bind; [apply reads_const_of|]. apply reads_pret.
Qed.

(** ** Imports and exports *)
Definition import_entry (stub name : gostring) (i : Z) : list Z :=
  appendName [] stub ++ appendName [] name ++ [0x00] ++ appendULEB128 [] i.
Definition import_of (stub name : gostring) (i : Z) : Import :=
  mkImport ExternTypeFunc stub name i zeroTable None zeroGlobalType 0.
Lemma reads_Import k stub name i : name_ok stub -> name_ok name -> in_u 32 i ->
  reads (decodeImport features limit fromMax k) (import_entry stub name i) (import_of stub name i).
Proof.
  intros Hs Hn Hi. unfold decodeImport, import_entry.
  eapply reads_bind; [by apply reads_wrapAt, reads_UTF8|]. cbv beta iota.
  eapply reads_bind; [by apply reads_wrapAt, reads_UTF8|]. cbv beta iota.
  eapply reads_bind; [apply reads_wrapAt, reads_byte|]. apply reads_wrapAt. cbn [Z.eqb ExternTypeFunc].
  rewrite <-(app_nil_r (appendULEB128 [] i)). eapply reads_bind; [by apply reads_uleb|]. apply reads_pret.
Qed.

Definition export_entry (kind i : Z) (name : gostring) : list Z :=
  appendName [] name ++ [kind] ++ appendULEB128 [] i.
Lemma reads_Export kind i name : name_ok name -> 0 <= kind <= 3 -> in_u 32 i ->
  reads decodeExport (export_entry kind i name) (mkExport kind name i).
Proof.
  intros Hn Hk Hi. unfold decodeExport, export_entry.
  eapply reads_bind; [by apply reads_UTF8|]. cbv beta iota.
  eapply reads_bind; [apply reads_wrap, reads_byte|].
  assert ((kind =? ExternTypeFunc) || (kind =? ExternTypeTable) || (kind =? ExternTypeMemory) ||
          (kind =? ExternTypeGlobal) = true) as ->.
  { assert (kind = 0 \/ kind = 1 \/ kind = 2 \/ kind = 3) as [->|[->|[->| ->]]] by lia; done. }
  rewrite <-(app_nil_r (appendULEB128 [] i)). eapply reads_bind; [by apply reads_wrap, reads_uleb|].
  apply reads_pret.
Qed.

(** ** The distinct function types *)
Definition enc_type (t : list Z * list Z) : list Z := encodeFuncType t.1 t.2.
Definition plan_type (f : importPlan) : list Z * list Z := (ip_paramTypes f, ip_resultTyps f).
Definition type_fits (t : list Z * list Z) : Prop := types_ok t.1 t.2.

Lemma enc_type_inj t t' : type_fits t -> type_fits t' -> enc_type t = enc_type t' -> t = t'.
Proof.
  intros Ht Ht' E. pose proof (reads_FunctionType _ _ Ht (NewReader (enc_type t)) []) as H.
  pose proof (reads_FunctionType _ _ Ht' (NewReader (enc_type t)) []) as H'.
  rewrite app_nil_r in H, H'. rewrite (H eq_refl) in H'. destruct t, t'. specialize (H' E). by simplify_eq.
Qed.
Lemma index_of_Some ft tys j :
  index_of ft (enc_type <$> tys) = Some j -> exists t, tys !! j = Some t /\ enc_type t = ft.
Proof.
  revert j. induction tys as [|t tys IH]; intros j H; [done|].
  cbn [index_of fmap list_fmap] in H. case_bool_decide as E.
  - injection H as <-. by exists t.
  - destruct (index_of ft _) as [k|] eqn:Ek; [|done]. injection H as <-. by apply IH.
Qed.

(** Function [f] has type index [i]. *)
Definition typed (tys : list (list Z * list Z)) (f : importPlan) (i : Z) : Prop :=
  exists n, i = Z.of_nat n /\ tys !! n = Some (plan_type f).

Lemma collect_types_spec funcs tys0 :
  Forall (fun f => type_fits (plan_type f)) funcs -> Forall type_fits tys0 ->
  exists tys idx, collect_types funcs (enc_type <$> tys0) = (enc_type <$> (tys0 ++ tys), idx) /\
    Forall type_fits tys /\ (length tys <= length funcs)%nat /\
    Forall2 (typed (tys0 ++ tys)) funcs idx.
Proof.
  intros Hf. revert tys0. induction Hf as [|f funcs Hf _ IH]; intros tys0 H0.
  { exists [], []. cbn. rewrite app_nil_r. split_and!; [done..|lia|constructor]. }
  cbn [collect_types]. change (encodeFuncType (ip_paramTypes f) (ip_resultTyps f))
    with (enc_type (plan_type f)).
  destruct (index_of (enc_type (plan_type f)) (enc_type <$> tys0)) as [j|] eqn:Ej.
  - apply index_of_Some in Ej as (t & Ht & E).
    apply enc_type_inj in E; [|by eapply Forall_lookup_1|done]. subst t.
    destruct (IH tys0 H0) as (tys & idx & -> & Htys & Hl & H2).
    exists tys, (Z.of_nat j :: idx). cbn. split_and!; [done..|lia|]. constructor; [|done].
    exists j. split; [done|]. by apply lookup_app_l_Some.
  - change ([enc_type (plan_type f)]) with (enc_type <$> [plan_type f]).
    rewrite <-fmap_app. destruct (IH (tys0 ++ [plan_type f])) as (tys & idx & -> & Htys & Hl & H2).
    { apply Forall_app_2; [done|]. by apply Forall_singleton. }
    exists (plan_type f :: tys), (Z.of_nat (length tys0) :: idx). rewrite <-app_assoc in *.
    rewrite length_fmap. cbn. split_and!; [done|by constructor|lia|]. constructor; [|done].
    exists (length tys0). split; [done|]. by rewrite lookup_app_r, Nat.sub_diag by lia.
Qed.

Lemma import_entries_spec stub dst funcs idx :
  import_entries stub dst funcs idx
  = dst ++ concat ((fun x : importPlan * Z => import_entry stub (ip_name x.1) x.2) <$> zip funcs idx).
Proof.
  revert dst idx. induction funcs as [|f funcs IH]; intros dst [|i idx];
    cbn [import_entries zip zip_with fmap list_fmap concat]; rewrite ?app_nil_r; try done.
  rewrite IH. unfold import_entry. cbn [fst snd].
  rewrite (appendULEB128_app (_ ++ _)), (appendName_app (appendName dst stub)), (appendName_app dst).
  by rewrite <-!app_assoc.
Qed.

(** ** The import loop *)
Definition same_import (a b : Import) : Prop :=
  im_Type a = im_Type b /\ im_Module a = im_Module b /\ im_Name a = im_Name b /\
  im_DescFunc a = im_DescFunc b.

Lemma reads_import_loop {B} (enc : B -> list Z) (val : B -> Import) xs k s :
  (forall i x, x ∈ xs -> reads (decodeImport features limit fromMax i) (enc x) (val x)) ->
  reads (import_loop features limit fromMax (length xs) k s) (concat (enc <$> xs))
    (fold_left add_import (val <$> xs) s).
Proof.
  revert k s. induction xs as [|x xs IH]; intros k s H; cbn; [apply reads_pret|].
  eapply reads_bind; [apply H; left|]. apply IH. intros. apply H. by right.
Qed.
Lemma add_import_result s x :
  exists y, is_result (add_import s x) = is_result s ++ [y] /\ same_import y x.
Proof. unfold add_import. repeat case_match; eexists; split; try done. Qed.
Lemma fold_import_result xs s :
  exists ys, is_result (fold_left add_import xs s) = is_result s ++ ys /\ Forall2 same_import ys xs.
Proof.
  revert s. induction xs as [|x xs IH]; intros s; cbn [fold_left]; [by exists []; rewrite app_nil_r|].
  destruct (IH (add_import s x)) as (ys & -> & H). destruct (add_import_result s x) as (y & -> & Hy).
  exists (y :: ys). rewrite <-app_assoc. split; [done|by constructor].
Qed.

(** ** Exports *)
Definition export_list (kind : Z) (names : list gostring) : list Export :=
  imap (fun i n => mkExport kind n (Z.of_nat i)) names.
Definition enc_export (e : Export) : list Z := export_entry (ex_Type e) (ex_Index e) (ex_Name e).

Lemma export_entries_from kind dst k names :
  export_entries kind dst (Z.of_nat k) names
  = dst ++ concat (enc_export <$> imap (fun i n => mkExport kind n (Z.of_nat (k + i))) names).
Proof.
  revert dst k. induction names as [|n names IH]; intros dst k; cbn [export_entries]; [by rewrite app_nil_r|].
  replace (Z.of_nat k + 1) with (Z.of_nat (S k)) by lia. rewrite IH. cbn [imap fmap list_fmap concat].
  rewrite Nat.add_0_r. unfold enc_export at 2, export_entry. cbn [ex_Type ex_Index ex_Name].
  rewrite (appendULEB128_app (_ ++ _)), (appendName_app dst), <-!app_assoc. do 5 f_equal.
  f_equal. apply imap_ext. intros i x _. cbn. f_equal. f_equal. lia.
Qed.
Lemma export_entries_spec kind dst names :
  export_entries kind dst 0 names = dst ++ concat (enc_export <$> export_list kind names).
Proof. apply (export_entries_from kind dst 0). Qed.

Lemma reads_export_loop es l em :
  exports_ok l em -> NoDup (ex_Name <$> (l ++ es)) ->
  Forall (fun e => name_ok (ex_Name e) /\ 0 <= ex_Type e <= 3 /\ in_u 32 (ex_Index e)) es ->
  exists em', reads (export_loop (length es) l em) (concat (enc_export <$> es)) (l ++ es, em').
Proof.
  intros Hl Hn Hes. revert l em Hl Hn. induction Hes as [|e es (Hm & Ht & Hi) _ IH]; intros l em Hl Hn.
  { exists em. rewrite app_nil_r. apply reads_pret. }
  assert (em !! ex_Name e = None) as Hnew.
  { destruct (em !! ex_Name e) as [i|] eqn:E; [|done]. apply (eo_map _ _ Hl) in E as (e' & Hi' & E).
    rewrite fmap_app, NoDup_app in Hn. destruct Hn as (_ & Hn & _).
    destruct (Hn (ex_Name e)); [|cbn; left]. rewrite <-E. apply list_elem_of_fmap_2.
    by eapply list_elem_of_lookup_2. }
  destruct (IH (l ++ [e]) (<[ex_Name e := length l]> em)) as (em' & H).
  { apply exports_snoc; [done|split; [apply Hm|done]|done]. }
  { by rewrite <-app_assoc. }
  exists em'. rewrite <-app_assoc in H. cbn [length export_loop fmap list_fmap concat].
  eapply reads_bind; [apply reads_wrap; destruct e; by apply reads_Export|].
  rewrite bool_decide_eq_false_2; [exact H|]. rewrite Hnew. by apply is_Some_None.
Qed.

(** ** Sections *)
Notation sections' := (sections features limit fromMax dwarf store).
Notation section' := (section features limit fromMax dwarf store).
Notation decodeSection' := (decodeSection features limit fromMax dwarf store).

(** The loop goes from [s] to [s'] over the sections [bs], in a number of turns
    that their bytes bound. *)
Definition decodes (s : state) (bs : list Z) (s' : state) : Prop :=
  exists k, (k <= length bs)%nat /\ forall fuel r rest, unread r = bs ++ rest ->
    sections' (k + fuel) s r = sections' fuel s' (advance r (length bs)).

Lemma decodes_nil s : decodes s [] s.
Proof. exists 0%nat. split; [done|]. intros fuel r rest _. cbn. by rewrite advance_0. Qed.
Lemma decodes_app s1 s2 s3 b1 b2 : decodes s1 b1 s2 -> decodes s2 b2 s3 -> decodes s1 (b1 ++ b2) s3.
Proof.
  intros (k1 & L1 & H1) (k2 & L2 & H2). exists (k1 + k2)%nat. rewrite length_app. split; [lia|].
  intros fuel r rest E. rewrite <-app_assoc in E. rewrite <-Nat.add_assoc, (H1 _ _ _ E).
  rewrite (H2 _ _ _ (unread_advance _ _ _ E)), advance_add. done.
Qed.

Lemma appendSection_app dst id body : appendSection dst id body = dst ++ appendSection [] id body.
Proof. unfold appendSection. by rewrite appendULEB128_app, (appendULEB128_app ([] ++ [id])), <-!app_assoc. Qed.

Lemma reads_section id body s s' : in_u 32 (len body) ->
  reads (decodeSection' id (len body) s) body s' ->
  reads (section' id s) (appendULEB128 [] (len body) ++ body) s'.
Proof.
  intros Hl Hd. unfold section. eapply reads_bind; [by apply reads_wrapAt, reads_uleb|]. cbv beta iota.
  intros r rest E. cbv beta. rewrite (Hd _ _ E). unfold Len. rewrite (unread_advance _ _ _ E), E, len_app.
  replace (len body + len rest - len rest) with (len body) by lia. by rewrite Z.eqb_refl.
Qed.
Lemma decodes_section id body s s' : in_u 32 (len body) ->
  reads (decodeSection' id (len body) s) body s' -> decodes s (appendSection [] id body) s'.
Proof.
  intros Hl Hd. exists 1%nat. unfold appendSection. rewrite appendULEB128_app, app_nil_l, <-app_assoc.
  split; [rewrite length_app; cbn; lia|]. intros fuel r rest E. rewrite <-app_assoc in E.
  change (1 + fuel)%nat with (S fuel). cbn [sections]. unfold pbind at 1, getr at 1.
  assert (Len r =? 0 = false) as ->.
  { apply Z.eqb_neq. unfold Len. rewrite E, len_app, len_cons, len_nil.
    pose proof (len_nonneg ((appendULEB128 [] (len body) ++ body) ++ rest)). lia. }
  unfold pbind at 1. rewrite (reads_byte id _ _ E). unfold pbind at 1.
  rewrite (reads_section id body s s' Hl Hd _ _ (unread_advance _ _ _ E)), advance_add, !length_app. done.
Qed.

Lemma decodes_binary bs m d :
  decodes (emptyModule, noDwarf) bs (m, d) ->
  FunctionSection m = [] -> CodeSection m = [] ->
  DecodeModule features limit fromMax dwarf store ((Magic ++ version) ++ bs)
  = Ok (m, if dwarf then Some d else None).
Proof.
  intros (k & Hk & Hd) Hf Hc. unfold DecodeModule.
  set (binary := (Magic ++ version) ++ bs).
  assert (unread (NewReader binary) = Magic ++ (version ++ bs)) as E0 by done.
  assert (forall want e r rest, length want = 4%nat -> unread r = want ++ rest ->
    expect want e r = Ok (tt, advance r 4)) as Hx.
  { intros want e r rest Hw E. unfold expect.
    replace 4 with (len want) by (unfold len; by rewrite Hw). rewrite (reads_full want _ _ E), Hw.
    by rewrite bool_decide_eq_true_2. }
  unfold pbind. rewrite (Hx Magic _ _ _ eq_refl E0). apply (unread_advance _ Magic) in E0.
  change (length Magic) with 4%nat in E0. rewrite (Hx version _ _ _ eq_refl E0).
  apply (unread_advance _ version) in E0. change (length version) with 4%nat in E0.
  rewrite <-(app_nil_r bs) in E0.
  replace (S (length binary)) with (k + S (length binary - k))%nat
    by (unfold binary; rewrite length_app; cbn; lia).
  rewrite (Hd _ _ _ E0). apply unread_advance in E0. cbn [sections]. unfold pbind at 1, getr at 1.
  unfold Len. rewrite E0. change (len (@nil Z) =? 0) with true.
  unfold pret. cbv beta iota. by rewrite Hf, Hc.
Qed.

(** ** The provider *)
Variable ParseFloat : gostring -> option Z.

Definition export_names (p : providerSpec) : list gostring :=
  (ip_name <$> ps_funcs p) ++ (MName <$> ps_memories p) ++ (GName <$> ps_globals p).

(** What the format and the decoder ask of a specification: one memory at
    most, distinct names that are UTF-8, types and limits that are valid. *)
Record provider_ok (p : providerSpec) : Prop := {
  po_one_memory : len (ps_memories p) <= 1;
  po_stub : name_ok (ps_stubModule p);
  po_names : Forall name_ok (export_names p);
  po_distinct : NoDup (export_names p);
  po_types : Forall (fun f => type_fits (plan_type f)) (ps_funcs p);
  po_memories : Forall memory_fits (ps_memories p);
  po_count : in_u 32 (len (export_names p)) }.

(** The import that stands for a function of the specification. *)
Definition import_for (p : providerSpec) (ty : list FunctionType) (f : importPlan) (imp : Import) : Prop :=
  im_Type imp = ExternTypeFunc /\ im_Module imp = ps_stubModule p /\ im_Name imp = ip_name f /\
  ty !! Z.to_nat (im_DescFunc imp) = Some (func_type (ip_paramTypes f) (ip_resultTyps f)).

(** The decoded module is the one specified. *)
Record provides (p : providerSpec) (m : Module') : Prop := {
  pv_funcs : Forall2 (import_for p (TypeSection m)) (ps_funcs p) (ImportSection m);
  pv_memory : MemorySection m = memory_of <$> head (ps_memories p);
  pv_globals : Forall2 (fun g x => exists t v,
      ImportedGlobal_decode ParseFloat g = Ok (t, v) /\ x = global_of t v (GMutable g))
      (ps_globals p) (GlobalSection m);
  pv_exports : ExportSection m = export_list ExternTypeFunc (ip_name <$> ps_funcs p) ++
      export_list ExternTypeMemory (MName <$> ps_memories p) ++
      export_list ExternTypeGlobal (GName <$> ps_globals p);
  pv_no_code : FunctionSection m = [] /\ CodeSection m = [] /\ StartSection m = None /\
      DataSection m = [] /\ ElementSection m = [] /\ TableSection m = [] }.

Lemma global_entries_spec dst gs body :
  foldm (global_entry ParseFloat) dst gs = Ok body ->
  exists xs, body = dst ++ concat ((fun x : ScalarType * Value * bool =>
      [ValueType x.1.1; if x.2 then 0x01 else 0x00] ++ constExpr x.1.1 x.1.2) <$> xs) /\
    Forall2 (fun g (x : ScalarType * Value * bool) =>
      ImportedGlobal_decode ParseFloat g = Ok x.1 /\ x.2 = GMutable g) gs xs.
Proof.
  revert dst. induction gs as [|g gs IH]; intros dst H; cbn [foldm] in H.
  { injection H as <-. exists []. cbn. rewrite app_nil_r. by split. }
  unfold global_entry at 1 in H.
  destruct (ImportedGlobal_decode ParseFloat g) as [[t v]|] eqn:E; cbn [map_err] in H; [|done].
  apply IH in H as (xs & -> & H). exists ((t, v, GMutable g) :: xs).
  split; [|by constructor]. cbn [fmap list_fmap concat fst snd]. by rewrite <-!app_assoc.
Qed.

Definition import_val (p : providerSpec) (x : importPlan * Z) : Import :=
  import_of (ps_stubModule p) (ip_name x.1) x.2.

Lemma imports_for p tys funcs idx ys :
  Forall2 (typed tys) funcs idx -> Forall2 same_import ys (import_val p <$> zip funcs idx) ->
  Forall2 (import_for p ((fun t => func_type t.1 t.2) <$> tys)) funcs ys.
Proof.
  intros H. revert ys. induction H as [|f i funcs idx (n & -> & Hn) _ IH]; intros ys Hy;
    cbn [zip zip_with fmap list_fmap] in Hy; inversion Hy as [|y ? ys' ? (Ht & Hm & Hnm & Hd) Hys]; subst;
    constructor; [|by apply IH].
  unfold import_for. rewrite Ht, Hm, Hnm, Hd. cbn [import_val import_of im_Type im_Module im_Name im_DescFunc fst snd].
  rewrite Nat2Z.id, list_lookup_fmap, Hn. done.
Qed.

Lemma reads_TypeSection tys : Forall type_fits tys -> in_u 32 (len tys) ->
  reads (decodeTypeSection features) (type_section (enc_type <$> tys)) ((fun t => func_type t.1 t.2) <$> tys).
Proof.
  intros Ht Hl. unfold type_section. unfold len at 1. rewrite length_fmap. fold (len tys).
  apply reads_vector; [done|]. intros i t Hin. apply reads_wrapAt. rewrite Forall_forall in Ht.
  exact (reads_FunctionType t.1 t.2 (Ht t Hin)).
Qed.
Lemma reads_ImportSection p tys idx :
  provider_ok p -> Forall2 (typed tys) (ps_funcs p) idx -> in_u 32 (len (ps_funcs p)) -> in_u 32 (len tys) ->
  reads (decodeImportSection features limit fromMax)
    (import_entries (ps_stubModule p) (appendULEB128 [] (len (ps_funcs p))) (ps_funcs p) idx)
    (fold_left add_import (import_val p <$> zip (ps_funcs p) idx) (mkImports [] ∅ 0 0 0 0)).
Proof.
  intros Hp H2 Lf Lt. rewrite import_entries_spec. unfold decodeImportSection.
  eapply reads_bind; [by apply reads_wrap, reads_uleb|]. cbv beta iota. unfold len. rewrite Nat2Z.id.
  replace (length (ps_funcs p)) with (length (zip (ps_funcs p) idx))
    by (rewrite length_zip_with, (Forall2_length _ _ _ H2); lia).
  apply reads_import_loop. intros i [f j] Hin. apply reads_Import; [apply (po_stub _ Hp)| |].
  - apply elem_of_zip_l in Hin. pose proof (po_names _ Hp) as H. unfold export_names in H.
    apply Forall_app in H as [H _]. rewrite Forall_fmap, Forall_forall in H. by apply H.
  - apply list_elem_of_lookup in Hin as [k Hk]. apply lookup_zip_with_Some in Hk as (f' & j' & [= <- <-] & Hf & Hj).
    destruct (Forall2_lookup_lr _ _ _ _ _ _ H2 Hf Hj) as (n & -> & Hn).
    apply lookup_lt_Some in Hn. unfold in_u, len in *. cbn. lia.
Qed.

Lemma func_sections_ok p d : provider_ok p ->
  let '(types, typeIndex) := collect_types (ps_funcs p) [] in
  let b1 := type_section types in
  let b2 := import_entries (ps_stubModule p) (appendULEB128 [] (len (ps_funcs p))) (ps_funcs p) typeIndex in
  in_u 32 (len b1) -> in_u 32 (len b2) ->
  exists ty im, decodes (emptyModule, d) (appendSection [] 1 b1 ++ appendSection [] 2 b2)
      (set_ImportSection (set_TypeSection emptyModule ty) im, d) /\
    Forall2 (import_for p ty) (ps_funcs p) (is_result im).
Proof.
  intros Hp. destruct (collect_types_spec (ps_funcs p) [] (po_types _ Hp)) as (tys & idx & E & Ht & Hl & H2);
    [constructor|]. change (enc_type <$> []) with (@nil (list Z)) in E. rewrite E. cbv zeta.
  rewrite app_nil_l in *. intros L1 L2.
  assert (in_u 32 (len (ps_funcs p))) as Lf.
  { pose proof (po_count _ Hp) as H. unfold export_names, len, in_u in *.
    rewrite !length_app, length_fmap in H. lia. }
  assert (in_u 32 (len tys)) as Lt by (unfold in_u, len in *; lia).
  set (xs := import_val p <$> zip (ps_funcs p) idx).
  destruct (fold_import_result xs (mkImports [] ∅ 0 0 0 0)) as (ys & Ey & Hy).
  exists ((fun t => func_type t.1 t.2) <$> tys), (fold_left add_import xs (mkImports [] ∅ 0 0 0 0)). split.
  - eapply decodes_app; apply decodes_section; [done| |done|]; cbn [decodeSection].
    + apply (reads_end _ (fun v => (set_TypeSection emptyModule v, d))). by apply reads_TypeSection.
    + apply (reads_end _ (fun v => (set_ImportSection _ v, d))), reads_direct.
      by eapply reads_ImportSection.
  - rewrite Ey. by eapply imports_for.
Qed.

(** ** The binary, part by part *)
Definition exports_of (p : providerSpec) : list Export :=
  export_list ExternTypeFunc (ip_name <$> ps_funcs p) ++
  export_list ExternTypeMemory (MName <$> ps_memories p) ++
  export_list ExternTypeGlobal (GName <$> ps_globals p).

Definition func_part (p : providerSpec) : list Z :=
  if 0 <? len (ps_funcs p) then
    let '(types, typeIndex) := collect_types (ps_funcs p) [] in
    appendSection [] 1 (type_section types) ++
    appendSection [] 2
      (import_entries (ps_stubModule p) (appendULEB128 [] (len (ps_funcs p))) (ps_funcs p) typeIndex)
  else [].
Definition memory_part (p : providerSpec) : list Z :=
  if 0 <? len (ps_memories p)
  then appendSection [] 5 (fold_left memory_entry (ps_memories p) (appendULEB128 [] (len (ps_memories p))))
  else [].
Definition enc_global (x : ScalarType * Value * bool) : list Z :=
  [ValueType x.1.1; if x.2 then 0x01 else 0x00] ++ constExpr x.1.1 x.1.2.
Definition global_part (gs : list (ScalarType * Value * bool)) : list Z :=
  if 0 <? len gs then appendSection [] 6 (appendULEB128 [] (len gs) ++ concat (enc_global <$> gs)) else [].
Definition export_part (p : providerSpec) : list Z :=
  appendSection [] 7 (appendULEB128 [] (len (exports_of p)) ++ concat (enc_export <$> exports_of p)).
Definition decoded_global (g : ImportedGlobal) (x : ScalarType * Value * bool) : Prop :=
  ImportedGlobal_decode ParseFloat g = Ok x.1 /\ x.2 = GMutable g.

Lemma len_exports p :
  len (exports_of p) = len (ps_memories p) + len (ps_globals p) + len (ps_funcs p).
Proof. unfold exports_of, export_list, len. rewrite !length_app, !length_imap, !length_fmap. lia. Qed.

Lemma encode_shape p bin : encode ParseFloat p = Ok bin ->
  exists gs, Forall2 decoded_global (ps_globals p) gs /\
    bin = (Magic ++ version) ++ func_part p ++ memory_part p ++ global_part gs ++ export_part p.
Proof.
  unfold encode. destruct (_ && _); [done|]. cbv zeta.
  change [0; 97; 115; 109; 1; 0; 0; 0] with (Magic ++ version).
  generalize (Magic ++ version) as hdr. intros hdr H.
  match type of H with match ?x with _ => _ end = _ => destruct x as [out1|] eqn:E1; [|done] end.
  assert (out1 = hdr ++ func_part p) as ->.
  { unfold func_part. destruct (0 <? len (ps_funcs p)); [|injection E1 as <-; by rewrite app_nil_r].
    destruct (bool_decide _); [done|]. destruct (collect_types _ _) as [types ti]. injection E1 as <-.
    by rewrite (appendSection_app (appendSection _ _ _)), (appendSection_app hdr), <-app_assoc. }
  clear E1. match type of H with match ?x with _ => _ end = _ => destruct x as [out2|] eqn:E2; [|done] end.
  injection H as <-.
  match type of E2 with context [appendSection ?o 6 _] =>
    assert (o = (hdr ++ func_part p) ++ memory_part p) as Ho end.
  { unfold memory_part. destruct (0 <? len (ps_memories p)); [apply appendSection_app|by rewrite app_nil_r]. }
  rewrite Ho in E2. clear Ho.
  assert (exists gs, Forall2 decoded_global (ps_globals p) gs /\
    out2 = (hdr ++ func_part p) ++ memory_part p ++ global_part gs) as (gs & Hgs & ->).
  { destruct (0 <? len (ps_globals p)) eqn:Hg.
    - destruct (foldm _ _ _) as [body|] eqn:Eb; [|done]. injection E2 as <-.
      apply global_entries_spec in Eb as (gs & -> & Hgs). exists gs. split; [done|].
      apply Forall2_length in Hgs as Hl. unfold global_part, len in *. rewrite <-Hl, Hg.
      by rewrite (appendSection_app (_ ++ _)), <-app_assoc.
    - injection E2 as <-. exists []. assert (ps_globals p = []) as ->.
      { apply len_zero. apply Z.ltb_ge in Hg. pose proof (len_nonneg (ps_globals p)). lia. }
      split; [constructor|]. cbn. by rewrite app_nil_r. }
  exists gs. split; [done|]. rewrite !export_entries_spec.
  rewrite (appendSection_app (_ ++ _)), <-!app_assoc. do 5 f_equal. unfold export_part.
  rewrite len_exports. unfold exports_of. by rewrite !fmap_app, !concat_app.
Qed.

(** ** Decoding the parts *)
Lemma len_appendSection id body : len body <= len (appendSection [] id body).
Proof. unfold appendSection. rewrite len_app. pose proof (len_nonneg (appendULEB128 ([] ++ [id]) (len body))). lia. Qed.

Lemma decodes_memories m d p : provider_ok p -> in_u 32 (len (memory_part p)) ->
  (ps_memories p = [] -> MemorySection m = None) ->
  set_MemorySection m (MemorySection m) = m ->
  decodes (m, d) (memory_part p) (set_MemorySection m (memory_of <$> head (ps_memories p)), d).
Proof.
  intros Hp Hl Hnone Heta. pose proof (po_one_memory _ Hp) as H1. pose proof (po_memories _ Hp) as Hf.
  unfold memory_part in *. destruct (ps_memories p) as [|x [|]].
  - cbn [head fmap option_fmap option_map]. rewrite <-(Hnone eq_refl), Heta. apply decodes_nil.
  - cbn [fmap option_fmap option_map head]. change (0 <? len [x]) with true in *. cbv iota in *.
    change (len [x]) with 1 in *. cbn [fold_left] in *.
    pose proof (len_appendSection 5 (memory_entry (appendULEB128 [] 1) x)).
    apply decodes_section; [unfold in_u in *; pose proof (len_nonneg (memory_entry (appendULEB128 [] 1) x)); lia|].
    cbn [decodeSection]. apply (reads_end _ (fun v => (set_MemorySection m v, d))). unfold decodeMemorySection.
    assert (memory_entry (appendULEB128 [] 1) x = appendULEB128 [] 1 ++ memory_entry [] x) as ->.
    { unfold memory_entry. destruct (MaxPages x) as [hi|].
      - rewrite (appendULEB128_app (appendULEB128 (_ ++ _) _)), (appendULEB128_app (appendULEB128 [] 1 ++ _)).
        rewrite (appendULEB128_app (appendULEB128 ([] ++ _) _)), (appendULEB128_app ([] ++ _)).
        by rewrite <-!app_assoc.
      - rewrite (appendULEB128_app (appendULEB128 [] 1 ++ _)), (appendULEB128_app ([] ++ _)).
        by rewrite <-!app_assoc. }
    eapply reads_bind; [apply reads_wrap, reads_uleb; unfold in_u; lia|]. cbv beta iota.
    change (1 <? 1) with false. change (1 =? 0) with false. cbv iota.
    apply (reads_end _ Some), reads_Memory. by inversion Hf.
  - unfold len in H1. cbn in H1. lia.
Qed.

Definition global_val (x : ScalarType * Value * bool) : Global := global_of x.1.1 x.1.2 x.2.

Lemma decodes_globals m d gs : in_u 32 (len (global_part gs)) -> in_u 32 (len gs) ->
  GlobalSection m = [] -> set_GlobalSection m (GlobalSection m) = m ->
  decodes (m, d) (global_part gs) (set_GlobalSection m (global_val <$> gs), d).
Proof.
  intros Hl Hn Hnone Heta. unfold global_part in *. destruct (0 <? len gs) eqn:Hg.
  - set (body := appendULEB128 [] (len gs) ++ concat (enc_global <$> gs)) in *.
    pose proof (len_appendSection 6 body). pose proof (len_nonneg body).
    apply decodes_section; [unfold in_u in *; lia|]. cbn [decodeSection].
    apply (reads_end _ (fun v => (set_GlobalSection m v, d))), reads_direct. apply reads_vector; [done|].
    intros i x _. apply reads_wrapAt. exact (reads_Global x.1.1 x.1.2 x.2).
  - assert (gs = []) as ->.
    { apply len_zero. apply Z.ltb_ge in Hg. pose proof (len_nonneg gs). lia. }
    cbn [fmap list_fmap]. rewrite <-Hnone, Heta. apply decodes_nil.
Qed.

Lemma export_list_names kind names : ex_Name <$> export_list kind names = names.
Proof.
  unfold export_list. rewrite fmap_imap. etransitivity; [|apply list_fmap_id].
  rewrite <-imap_const. done.
Qed.
Lemma exports_of_names p : ex_Name <$> exports_of p = export_names p.
Proof. unfold exports_of, export_names. by rewrite !fmap_app, !export_list_names. Qed.

Lemma export_list_fits kind names : 0 <= kind <= 3 -> in_u 32 (len names) ->
  Forall (fun e => 0 <= ex_Type e <= 3 /\ in_u 32 (ex_Index e)) (export_list kind names).
Proof.
  intros Hk Hl. apply Forall_lookup. intros i e He. unfold export_list in He.
  rewrite list_lookup_imap in He. destruct (names !! i) as [n|] eqn:E; [|done]. injection He as <-.
  apply lookup_lt_Some in E. unfold in_u, len in *. cbn. split; [done|lia].
Qed.

Lemma decodes_exports m d p : provider_ok p -> in_u 32 (len (export_part p)) ->
  exists em, decodes (m, d) (export_part p) (set_ExportSection m (exports_of p) em, d).
Proof.
  intros Hp Hl. unfold export_part in *.
  set (body := appendULEB128 [] (len (exports_of p)) ++ concat (enc_export <$> exports_of p)) in *.
  pose proof (len_appendSection 7 body). pose proof (len_nonneg body).
  assert (len (exports_of p) = len (export_names p)) as En
    by (rewrite <-exports_of_names; unfold len; by rewrite length_fmap).
  pose proof (po_count _ Hp) as Hc. unfold export_names, len, in_u in Hc.
  rewrite !length_app, !length_fmap in Hc.
  destruct (reads_export_loop (exports_of p) [] ∅) as (em & Hr).
  { apply no_exports. }
  { rewrite app_nil_l, exports_of_names. apply (po_distinct _ Hp). }
  { apply Forall_and. split.
    - pose proof (po_names _ Hp) as Hn. rewrite <-exports_of_names, Forall_fmap in Hn. exact Hn.
    - unfold exports_of. repeat apply Forall_app_2; apply export_list_fits; try done;
        unfold in_u, len; rewrite length_fmap; lia. }
  exists em. apply decodes_section; [unfold in_u in *; lia|]. cbn [decodeSection].
  rewrite <-(app_nil_r body). eapply (reads_bind _ _ _ _ (exports_of p, em)); [|apply reads_pret].
  unfold decodeExportSection, body. eapply reads_bind; [apply reads_wrap, reads_uleb|].
  { rewrite En. apply (po_count _ Hp). }
  cbv beta iota. unfold len. rewrite Nat2Z.id. exact Hr.
Qed.

(** ** The whole binary *)
Lemma decodes_funcs p d : provider_ok p -> in_u 32 (len (func_part p)) ->
  exists ty im, decodes (emptyModule, d) (func_part p)
      (set_ImportSection (set_TypeSection emptyModule ty) im, d) /\
    Forall2 (import_for p ty) (ps_funcs p) (is_result im).
Proof.
  intros Hp Hl. unfold func_part in *. destruct (0 <? len (ps_funcs p)) eqn:Hf.
  - pose proof (func_sections_ok p d Hp) as H. destruct (collect_types (ps_funcs p) []) as [types ti].
    cbv zeta in H. rewrite len_app in Hl.
    match type of H with in_u 32 (len ?a) -> in_u 32 (len ?b) -> _ =>
      pose proof (len_appendSection 1 a); pose proof (len_appendSection 2 b);
      pose proof (len_nonneg a); pose proof (len_nonneg b); apply H; unfold in_u in *; lia end.
  - assert (ps_funcs p = []) as ->.
    { apply len_zero. apply Z.ltb_ge in Hf. pose proof (len_nonneg (ps_funcs p)). lia. }
    exists [], (mkImports [] ∅ 0 0 0 0). split; [apply decodes_nil|constructor].
Qed.

Lemma provider_decodes p bin :
  encode ParseFloat p = Ok bin -> provider_ok p -> in_u 32 (len bin) ->
  exists m, DecodeModule features limit fromMax dwarf store bin
    = Ok (m, if dwarf then Some noDwarf else None) /\ provides p m.
Proof.
  intros He Hp Hl. apply encode_shape in He as (gs & Hgs & ->).
  rewrite !len_app in Hl.
  pose proof (len_nonneg (func_part p)). pose proof (len_nonneg (memory_part p)).
  pose proof (len_nonneg (global_part gs)). pose proof (len_nonneg (export_part p)).
  pose proof (len_nonneg Magic). pose proof (len_nonneg version).
  assert (in_u 32 (len gs)) as Lg.
  { pose proof (po_count _ Hp) as H'. unfold export_names, len, in_u in *.
    rewrite !length_app, !length_fmap in H'. rewrite <-(Forall2_length _ _ _ Hgs). lia. }
  destruct (decodes_funcs p noDwarf Hp) as (ty & im & D1 & Him); [unfold in_u in *; lia|].
  set (m1 := set_ImportSection (set_TypeSection emptyModule ty) im) in *.
  assert (decodes (m1, noDwarf) (memory_part p)
    (set_MemorySection m1 (memory_of <$> head (ps_memories p)), noDwarf)) as D2
    by (apply decodes_memories; [done|unfold in_u in *; lia|done|done]).
  set (m2 := set_MemorySection m1 _) in *.
  assert (decodes (m2, noDwarf) (global_part gs) (set_GlobalSection m2 (global_val <$> gs), noDwarf)) as D3
    by (apply decodes_globals; [unfold in_u in *; lia|done|done|done]).
  set (m3 := set_GlobalSection m2 _) in *.
  destruct (decodes_exports m3 noDwarf p Hp) as (em & D4); [unfold in_u in *; lia|].
  exists (set_ExportSection m3 (exports_of p) em). split.
  - apply decodes_binary; [|done|done]. repeat (eapply decodes_app; [eassumption|]). done.
  - split; [exact Him|done| |done|done]. cbn [GlobalSection set_ExportSection m3].
    apply Forall2_fmap_r. eapply Forall2_impl; [exact Hgs|]. intros g [[t v] mut] [Hd Hm].
    cbn [fst snd] in Hd, Hm. subst mut. by exists t, v.
Qed.

End decoded.

(** C16: a host module written by [providerSpec.encode] is accepted by
    [DecodeModule] whenever the specification has at most one memory, distinct
    UTF-8 names and valid types and limits; the module decoded imports each
    function from the stub module with its declared type, has the declared
    memory and the globals with their values and mutability, and exports
    everything under its name, each at the index where it was declared. *)
Theorem provider_module_decodes features limit fromMax dwarf store ParseFloat p bin :
  encode ParseFloat p = Ok bin -> provider_ok features limit fromMax p -> in_u 32 (len bin) ->
  exists m, DecodeModule features limit fromMax dwarf store bin
    = Ok (m, if dwarf then Some noDwarf else None) /\
    provides limit fromMax ParseFloat p m /\ module_ok features limit m.
Proof.
  intros He Hp Hl. destruct (provider_decodes features limit fromMax dwarf store ParseFloat p bin He Hp Hl)
    as (m & Hm & Hv). exists m. split_and!; [done|done|]. eapply DecodeModule_ok, Hm.
Qed.

(** A specification with a function, a memory and a global. *)
Definition sample_spec : providerSpec :=
  mkSpec ($"env")
    [{| MModule := $"env"; MName := $"mem"; MinPages := 1; MaxPages := Some 2; MData := None |}]
    [{| GModule := $"env"; GName := $"g"; GType := $"i32"; GMutable := true; GValue := $"-7" |}]
    [mkImportPlan 0 ($"env") ($"f") {| Params := [TypeI32]; Results := [] |} [0x7f] []]
    ($"stub").

Lemma provider_module_decodes_witness : exists bin m,
  encode (fun _ => None) sample_spec = Ok bin /\
  DecodeModule CoreFeaturesV2 65536 false true false bin = Ok (m, Some noDwarf) /\
  provides 65536 false (fun _ => None) sample_spec m.
Proof.
  destruct (encode (fun _ => None) sample_spec) as [bin|] eqn:E; [|vm_compute in E; discriminate].
  destruct (provider_module_decodes CoreFeaturesV2 65536 false true false (fun _ => None) sample_spec bin E)
    as (m & Hm & Hv & _).
  - split.
    + vm_compute. discriminate.
    + split; [reflexivity|unfold in_u; vm_compute; split; [discriminate|reflexivity]].
    + repeat (constructor; [split; [reflexivity|unfold in_u; vm_compute; split; [discriminate|reflexivity]]|]).
      constructor.
    + apply (bool_decide_eq_true_1 _). vm_compute. reflexivity.
    + constructor; [|constructor]. unfold type_fits, types_ok, in_u. cbn. unfold len. cbn.
      split_and!; try lia; repeat constructor.
    + constructor; [|constructor]. unfold memory_fits, in_u. cbn.
      split_and!; try lia; [intros hi [= <-]; lia|reflexivity].
    + unfold in_u. vm_compute. split; [discriminate|reflexivity].
  - vm_compute in E. injection E as <-. unfold in_u. vm_compute. split; [discriminate|reflexivity].
  - exists bin, m. split_and!; [reflexivity|exact Hm|exact Hv].
Defined.

End ProviderModule.
