(* ===== verification/ValidationTables.v ===== *)
(** * The validator's switches: [internal/wasm/func_validation.go]

    The cases of the [switch] statements that only check an alignment, pop
    operands and push results, one line per [case]: the alignment, the types in
    the order they are popped (the last operand first) and the types pushed. *)
From S2P Require Import Prelude Opcodes WasmBinary.

Module ValidationTables.
Import WasmBinary.

Definition oneof (op : Z) (cases : list Z) : bool := existsb (Z.eqb op) cases.
Definition orelse {A} (a b : option A) : option A := match a with Some x => Some x | None => b end.

(** [1<<align > n] or [1<<align != n] is refused. *)
Inductive alignment : Type := AtMost (n : Z) | Exactly (n : Z).

(** Loads and stores: the largest alignment, operands, results. *)
Definition memory_case (op : Z) : option (Z * list Z * list Z) :=
  if oneof op [OpcodeI32Load] then Some (32 / 8, [ValueTypeI32], [ValueTypeI32])
  else if oneof op [OpcodeF32Load] then Some (32 / 8, [ValueTypeI32], [ValueTypeF32])
  else if oneof op [OpcodeI32Store] then Some (32 / 8, [ValueTypeI32; ValueTypeI32], [])
  else if oneof op [OpcodeF32Store] then Some (32 / 8, [ValueTypeF32; ValueTypeI32], [])
  else if oneof op [OpcodeI64Load] then Some (64 / 8, [ValueTypeI32], [ValueTypeI64])
  else if oneof op [OpcodeF64Load] then Some (64 / 8, [ValueTypeI32], [ValueTypeF64])
  else if oneof op [OpcodeI64Store] then Some (64 / 8, [ValueTypeI64; ValueTypeI32], [])
  else if oneof op [OpcodeF64Store] then Some (64 / 8, [ValueTypeF64; ValueTypeI32], [])
  else if oneof op [OpcodeI32Load8S] then Some (1, [ValueTypeI32], [ValueTypeI32])
  else if oneof op [OpcodeI32Load8U] then Some (1, [ValueTypeI32], [ValueTypeI32])
  else if oneof op [OpcodeI64Load8S; OpcodeI64Load8U]
    then Some (1, [ValueTypeI32], [ValueTypeI64])
  else if oneof op [OpcodeI32Store8] then Some (1, [ValueTypeI32; ValueTypeI32], [])
  else if oneof op [OpcodeI64Store8] then Some (1, [ValueTypeI64; ValueTypeI32], [])
  else if oneof op [OpcodeI32Load16S; OpcodeI32Load16U]
    then Some (16 / 8, [ValueTypeI32], [ValueTypeI32])
  else if oneof op [OpcodeI64Load16S; OpcodeI64Load16U]
    then Some (16 / 8, [ValueTypeI32], [ValueTypeI64])
  else if oneof op [OpcodeI32Store16] then Some (16 / 8, [ValueTypeI32; ValueTypeI32], [])
  else if oneof op [OpcodeI64Store16] then Some (16 / 8, [ValueTypeI64; ValueTypeI32], [])
  else if oneof op [OpcodeI64Load32S; OpcodeI64Load32U]
    then Some (32 / 8, [ValueTypeI32], [ValueTypeI64])
  else if oneof op [OpcodeI64Store32] then Some (32 / 8, [ValueTypeI64; ValueTypeI32], [])
  else None.

(** Numeric instructions: the feature they need, operands, results. *)
Definition compare_case (op : Z) : option (option Z * list Z * list Z) :=
  if oneof op [OpcodeI32Eqz] then Some (None, [ValueTypeI32], [ValueTypeI32])
  else if oneof op [OpcodeI32Eq; OpcodeI32Ne; OpcodeI32LtS; OpcodeI32LtU; OpcodeI32GtS;
       OpcodeI32GtU; OpcodeI32LeS; OpcodeI32LeU; OpcodeI32GeS; OpcodeI32GeU]
    then Some (None, [ValueTypeI32; ValueTypeI32], [ValueTypeI32])
  else if oneof op [OpcodeI64Eqz] then Some (None, [ValueTypeI64], [ValueTypeI32])
  else if oneof op [OpcodeI64Eq; OpcodeI64Ne; OpcodeI64LtS; OpcodeI64LtU; OpcodeI64GtS;
       OpcodeI64GtU; OpcodeI64LeS; OpcodeI64LeU; OpcodeI64GeS; OpcodeI64GeU]
    then Some (None, [ValueTypeI64; ValueTypeI64], [ValueTypeI32])
  else if oneof op [OpcodeF32Eq; OpcodeF32Ne; OpcodeF32Lt; OpcodeF32Gt; OpcodeF32Le;
       OpcodeF32Ge]
    then Some (None, [ValueTypeF32; ValueTypeF32], [ValueTypeI32])
  else if oneof op [OpcodeF64Eq; OpcodeF64Ne; OpcodeF64Lt; OpcodeF64Gt; OpcodeF64Le;
       OpcodeF64Ge]
    then Some (None, [ValueTypeF64; ValueTypeF64], [ValueTypeI32])
  else None.

Definition arithmetic_case (op : Z) : option (option Z * list Z * list Z) :=
  if oneof op [OpcodeI32Clz; OpcodeI32Ctz; OpcodeI32Popcnt]
    then Some (None, [ValueTypeI32], [ValueTypeI32])
  else if oneof op [OpcodeI32Add; OpcodeI32Sub; OpcodeI32Mul; OpcodeI32DivS; OpcodeI32DivU;
       OpcodeI32RemS; OpcodeI32RemU; OpcodeI32And; OpcodeI32Or; OpcodeI32Xor; OpcodeI32Shl;
       OpcodeI32ShrS; OpcodeI32ShrU; OpcodeI32Rotl; OpcodeI32Rotr]
    then Some (None, [ValueTypeI32; ValueTypeI32], [ValueTypeI32])
  else if oneof op [OpcodeI64Clz; OpcodeI64Ctz; OpcodeI64Popcnt]
    then Some (None, [ValueTypeI64], [ValueTypeI64])
  else if oneof op [OpcodeI64Add; OpcodeI64Sub; OpcodeI64Mul; OpcodeI64DivS; OpcodeI64DivU;
       OpcodeI64RemS; OpcodeI64RemU; OpcodeI64And; OpcodeI64Or; OpcodeI64Xor; OpcodeI64Shl;
       OpcodeI64ShrS; OpcodeI64ShrU; OpcodeI64Rotl; OpcodeI64Rotr]
    then Some (None, [ValueTypeI64; ValueTypeI64], [ValueTypeI64])
  else if oneof op [OpcodeF32Abs; OpcodeF32Neg; OpcodeF32Ceil; OpcodeF32Floor; OpcodeF32Trunc;
       OpcodeF32Nearest; OpcodeF32Sqrt]
    then Some (None, [ValueTypeF32], [ValueTypeF32])
  else if oneof op [OpcodeF32Add; OpcodeF32Sub; OpcodeF32Mul; OpcodeF32Div; OpcodeF32Min;
       OpcodeF32Max; OpcodeF32Copysign]
    then Some (None, [ValueTypeF32; ValueTypeF32], [ValueTypeF32])
  else if oneof op [OpcodeF64Abs; OpcodeF64Neg; OpcodeF64Ceil; OpcodeF64Floor; OpcodeF64Trunc;
       OpcodeF64Nearest; OpcodeF64Sqrt]
    then Some (None, [ValueTypeF64], [ValueTypeF64])
  else if oneof op [OpcodeF64Add; OpcodeF64Sub; OpcodeF64Mul; OpcodeF64Div; OpcodeF64Min;
       OpcodeF64Max; OpcodeF64Copysign]
    then Some (None, [ValueTypeF64; ValueTypeF64], [ValueTypeF64])
  else None.

Definition convert_case (op : Z) : option (option Z * list Z * list Z) :=
  if oneof op [OpcodeI32WrapI64] then Some (None, [ValueTypeI64], [ValueTypeI32])
  else if oneof op [OpcodeI32TruncF32S; OpcodeI32TruncF32U]
    then Some (None, [ValueTypeF32], [ValueTypeI32])
  else if oneof op [OpcodeI32TruncF64S; OpcodeI32TruncF64U]
    then Some (None, [ValueTypeF64], [ValueTypeI32])
  else if oneof op [OpcodeI64ExtendI32S; OpcodeI64ExtendI32U]
    then Some (None, [ValueTypeI32], [ValueTypeI64])
  else if oneof op [OpcodeI64TruncF32S; OpcodeI64TruncF32U]
    then Some (None, [ValueTypeF32], [ValueTypeI64])
  else if oneof op [OpcodeI64TruncF64S; OpcodeI64TruncF64U]
    then Some (None, [ValueTypeF64], [ValueTypeI64])
  else if oneof op [OpcodeF32ConvertI32S; OpcodeF32ConvertI32U]
    then Some (None, [ValueTypeI32], [ValueTypeF32])
  else if oneof op [OpcodeF32ConvertI64S; OpcodeF32ConvertI64U]
    then Some (None, [ValueTypeI64], [ValueTypeF32])
  else if oneof op [OpcodeF32DemoteF64] then Some (None, [ValueTypeF64], [ValueTypeF32])
  else if oneof op [OpcodeF64ConvertI32S; OpcodeF64ConvertI32U]
    then Some (None, [ValueTypeI32], [ValueTypeF64])
  else if oneof op [OpcodeF64ConvertI64S; OpcodeF64ConvertI64U]
    then Some (None, [ValueTypeI64], [ValueTypeF64])
  else if oneof op [OpcodeF64PromoteF32] then Some (None, [ValueTypeF32], [ValueTypeF64])
  else if oneof op [OpcodeI32ReinterpretF32] then Some (None, [ValueTypeF32], [ValueTypeI32])
  else if oneof op [OpcodeI64ReinterpretF64] then Some (None, [ValueTypeF64], [ValueTypeI64])
  else if oneof op [OpcodeF32ReinterpretI32] then Some (None, [ValueTypeI32], [ValueTypeF32])
  else if oneof op [OpcodeF64ReinterpretI64] then Some (None, [ValueTypeI64], [ValueTypeF64])
  else None.

Definition extend_case (op : Z) : option (option Z * list Z * list Z) :=
  if oneof op [OpcodeI32Extend8S; OpcodeI32Extend16S]
    then Some (Some CoreFeatureSignExtensionOps, [ValueTypeI32], [ValueTypeI32])
  else if oneof op [OpcodeI64Extend8S; OpcodeI64Extend16S; OpcodeI64Extend32S]
    then Some (Some CoreFeatureSignExtensionOps, [ValueTypeI64], [ValueTypeI64])
  else None.

Definition numeric_case (op : Z) : option (option Z * list Z * list Z) :=
  orelse (compare_case op) (orelse (arithmetic_case op) (orelse (convert_case op) (extend_case op))).

(** Vector instructions without an immediate. *)
Definition vec_case (op : Z) : option (list Z * list Z) :=
  if oneof op [OpcodeVecV128AnyTrue; OpcodeVecI8x16AllTrue; OpcodeVecI16x8AllTrue;
       OpcodeVecI32x4AllTrue; OpcodeVecI64x2AllTrue; OpcodeVecI8x16BitMask;
       OpcodeVecI16x8BitMask; OpcodeVecI32x4BitMask; OpcodeVecI64x2BitMask]
    then Some ([ValueTypeV128], [ValueTypeI32])
  else if oneof op [OpcodeVecI8x16Swizzle; OpcodeVecV128And; OpcodeVecV128Or;
       OpcodeVecV128Xor; OpcodeVecV128AndNot]
    then Some ([ValueTypeV128; ValueTypeV128], [ValueTypeV128])
  else if oneof op [OpcodeVecV128Bitselect]
    then Some ([ValueTypeV128; ValueTypeV128; ValueTypeV128], [ValueTypeV128])
  else if oneof op [OpcodeVecV128Not] then Some ([ValueTypeV128], [ValueTypeV128])
  else if oneof op [OpcodeVecI8x16Shl; OpcodeVecI8x16ShrS; OpcodeVecI8x16ShrU;
       OpcodeVecI16x8Shl; OpcodeVecI16x8ShrS; OpcodeVecI16x8ShrU; OpcodeVecI32x4Shl;
       OpcodeVecI32x4ShrS; OpcodeVecI32x4ShrU; OpcodeVecI64x2Shl; OpcodeVecI64x2ShrS;
       OpcodeVecI64x2ShrU]
    then Some ([ValueTypeI32; ValueTypeV128], [ValueTypeV128])
  else if oneof op [OpcodeVecI8x16Eq; OpcodeVecI8x16Ne; OpcodeVecI8x16LtS; OpcodeVecI8x16LtU;
       OpcodeVecI8x16GtS; OpcodeVecI8x16GtU; OpcodeVecI8x16LeS; OpcodeVecI8x16LeU;
       OpcodeVecI8x16GeS; OpcodeVecI8x16GeU; OpcodeVecI16x8Eq; OpcodeVecI16x8Ne;
       OpcodeVecI16x8LtS; OpcodeVecI16x8LtU; OpcodeVecI16x8GtS; OpcodeVecI16x8GtU;
       OpcodeVecI16x8LeS; OpcodeVecI16x8LeU; OpcodeVecI16x8GeS; OpcodeVecI16x8GeU;
       OpcodeVecI32x4Eq; OpcodeVecI32x4Ne; OpcodeVecI32x4LtS; OpcodeVecI32x4LtU;
       OpcodeVecI32x4GtS; OpcodeVecI32x4GtU; OpcodeVecI32x4LeS; OpcodeVecI32x4LeU;
       OpcodeVecI32x4GeS; OpcodeVecI32x4GeU; OpcodeVecI64x2Eq; OpcodeVecI64x2Ne;
       OpcodeVecI64x2LtS; OpcodeVecI64x2GtS; OpcodeVecI64x2LeS; OpcodeVecI64x2GeS;
       OpcodeVecF32x4Eq; OpcodeVecF32x4Ne; OpcodeVecF32x4Lt; OpcodeVecF32x4Gt;
       OpcodeVecF32x4Le; OpcodeVecF32x4Ge; OpcodeVecF64x2Eq; OpcodeVecF64x2Ne;
       OpcodeVecF64x2Lt; OpcodeVecF64x2Gt; OpcodeVecF64x2Le; OpcodeVecF64x2Ge;
       OpcodeVecI32x4DotI16x8S; OpcodeVecI8x16NarrowI16x8S; OpcodeVecI8x16NarrowI16x8U;
       OpcodeVecI16x8NarrowI32x4S; OpcodeVecI16x8NarrowI32x4U]
    then Some ([ValueTypeV128; ValueTypeV128], [ValueTypeV128])
  else if oneof op [OpcodeVecI8x16Neg; OpcodeVecI16x8Neg; OpcodeVecI32x4Neg;
       OpcodeVecI64x2Neg; OpcodeVecF32x4Neg; OpcodeVecF64x2Neg; OpcodeVecF32x4Sqrt;
       OpcodeVecF64x2Sqrt; OpcodeVecI8x16Abs; OpcodeVecI8x16Popcnt; OpcodeVecI16x8Abs;
       OpcodeVecI32x4Abs; OpcodeVecI64x2Abs; OpcodeVecF32x4Abs; OpcodeVecF64x2Abs;
       OpcodeVecF32x4Ceil; OpcodeVecF32x4Floor; OpcodeVecF32x4Trunc; OpcodeVecF32x4Nearest;
       OpcodeVecF64x2Ceil; OpcodeVecF64x2Floor; OpcodeVecF64x2Trunc; OpcodeVecF64x2Nearest;
       OpcodeVecI16x8ExtendLowI8x16S; OpcodeVecI16x8ExtendHighI8x16S;
       OpcodeVecI16x8ExtendLowI8x16U; OpcodeVecI16x8ExtendHighI8x16U;
       OpcodeVecI32x4ExtendLowI16x8S; OpcodeVecI32x4ExtendHighI16x8S;
       OpcodeVecI32x4ExtendLowI16x8U; OpcodeVecI32x4ExtendHighI16x8U;
       OpcodeVecI64x2ExtendLowI32x4S; OpcodeVecI64x2ExtendHighI32x4S;
       OpcodeVecI64x2ExtendLowI32x4U; OpcodeVecI64x2ExtendHighI32x4U;
       OpcodeVecI16x8ExtaddPairwiseI8x16S; OpcodeVecI16x8ExtaddPairwiseI8x16U;
       OpcodeVecI32x4ExtaddPairwiseI16x8S; OpcodeVecI32x4ExtaddPairwiseI16x8U;
       OpcodeVecF64x2PromoteLowF32x4Zero; OpcodeVecF32x4DemoteF64x2Zero;
       OpcodeVecF32x4ConvertI32x4S; OpcodeVecF32x4ConvertI32x4U;
       OpcodeVecF64x2ConvertLowI32x4S; OpcodeVecF64x2ConvertLowI32x4U;
       OpcodeVecI32x4TruncSatF32x4S; OpcodeVecI32x4TruncSatF32x4U;
       OpcodeVecI32x4TruncSatF64x2SZero; OpcodeVecI32x4TruncSatF64x2UZero]
    then Some ([ValueTypeV128], [ValueTypeV128])
  else if oneof op [OpcodeVecI8x16Add; OpcodeVecI8x16AddSatS; OpcodeVecI8x16AddSatU;
       OpcodeVecI8x16Sub; OpcodeVecI8x16SubSatS; OpcodeVecI8x16SubSatU; OpcodeVecI16x8Add;
       OpcodeVecI16x8AddSatS; OpcodeVecI16x8AddSatU; OpcodeVecI16x8Sub; OpcodeVecI16x8SubSatS;
       OpcodeVecI16x8SubSatU; OpcodeVecI16x8Mul; OpcodeVecI32x4Add; OpcodeVecI32x4Sub;
       OpcodeVecI32x4Mul; OpcodeVecI64x2Add; OpcodeVecI64x2Sub; OpcodeVecI64x2Mul;
       OpcodeVecF32x4Add; OpcodeVecF32x4Sub; OpcodeVecF32x4Mul; OpcodeVecF32x4Div;
       OpcodeVecF64x2Add; OpcodeVecF64x2Sub; OpcodeVecF64x2Mul; OpcodeVecF64x2Div;
       OpcodeVecI8x16MinS; OpcodeVecI8x16MinU; OpcodeVecI8x16MaxS; OpcodeVecI8x16MaxU;
       OpcodeVecI8x16AvgrU; OpcodeVecI16x8MinS; OpcodeVecI16x8MinU; OpcodeVecI16x8MaxS;
       OpcodeVecI16x8MaxU; OpcodeVecI16x8AvgrU; OpcodeVecI32x4MinS; OpcodeVecI32x4MinU;
       OpcodeVecI32x4MaxS; OpcodeVecI32x4MaxU; OpcodeVecF32x4Min; OpcodeVecF32x4Max;
       OpcodeVecF64x2Min; OpcodeVecF64x2Max; OpcodeVecF32x4Pmin; OpcodeVecF32x4Pmax;
       OpcodeVecF64x2Pmin; OpcodeVecF64x2Pmax; OpcodeVecI16x8Q15mulrSatS;
       OpcodeVecI16x8ExtMulLowI8x16S; OpcodeVecI16x8ExtMulHighI8x16S;
       OpcodeVecI16x8ExtMulLowI8x16U; OpcodeVecI16x8ExtMulHighI8x16U;
       OpcodeVecI32x4ExtMulLowI16x8S; OpcodeVecI32x4ExtMulHighI16x8S;
       OpcodeVecI32x4ExtMulLowI16x8U; OpcodeVecI32x4ExtMulHighI16x8U;
       OpcodeVecI64x2ExtMulLowI32x4S; OpcodeVecI64x2ExtMulHighI32x4S;
       OpcodeVecI64x2ExtMulLowI32x4U; OpcodeVecI64x2ExtMulHighI32x4U]
    then Some ([ValueTypeV128; ValueTypeV128], [ValueTypeV128])
  else None.

(** Atomic instructions. *)
Definition atomic_access_case (op : Z) : option (alignment * list Z * list Z) :=
  if oneof op [OpcodeAtomicMemoryNotify]
    then Some (AtMost (32 / 8), [ValueTypeI32; ValueTypeI32], [ValueTypeI32])
  else if oneof op [OpcodeAtomicMemoryWait32]
    then Some (AtMost (32 / 8), [ValueTypeI64; ValueTypeI32; ValueTypeI32], [ValueTypeI32])
  else if oneof op [OpcodeAtomicMemoryWait64]
    then Some (AtMost (64 / 8), [ValueTypeI64; ValueTypeI64; ValueTypeI32], [ValueTypeI32])
  else if oneof op [OpcodeAtomicI32Load]
    then Some (AtMost (32 / 8), [ValueTypeI32], [ValueTypeI32])
  else if oneof op [OpcodeAtomicI64Load]
    then Some (AtMost (64 / 8), [ValueTypeI32], [ValueTypeI64])
  else if oneof op [OpcodeAtomicI32Load8U] then Some (Exactly 1, [ValueTypeI32], [ValueTypeI32])
  else if oneof op [OpcodeAtomicI32Load16U]
    then Some (Exactly (16 / 8), [ValueTypeI32], [ValueTypeI32])
  else if oneof op [OpcodeAtomicI64Load8U] then Some (Exactly 1, [ValueTypeI32], [ValueTypeI64])
  else if oneof op [OpcodeAtomicI64Load16U]
    then Some (AtMost (16 / 8), [ValueTypeI32], [ValueTypeI64])
  else if oneof op [OpcodeAtomicI64Load32U]
    then Some (AtMost (32 / 8), [ValueTypeI32], [ValueTypeI64])
  else if oneof op [OpcodeAtomicI32Store]
    then Some (AtMost (32 / 8), [ValueTypeI32; ValueTypeI32], [])
  else if oneof op [OpcodeAtomicI64Store]
    then Some (AtMost (64 / 8), [ValueTypeI64; ValueTypeI32], [])
  else if oneof op [OpcodeAtomicI32Store8] then Some (AtMost 1, [ValueTypeI32; ValueTypeI32], [])
  else if oneof op [OpcodeAtomicI32Store16]
    then Some (AtMost (16 / 8), [ValueTypeI32; ValueTypeI32], [])
  else if oneof op [OpcodeAtomicI64Store8] then Some (AtMost 1, [ValueTypeI64; ValueTypeI32], [])
  else if oneof op [OpcodeAtomicI64Store16]
    then Some (AtMost (16 / 8), [ValueTypeI64; ValueTypeI32], [])
  else if oneof op [OpcodeAtomicI64Store32]
    then Some (AtMost (32 / 8), [ValueTypeI64; ValueTypeI32], [])
  else None.

Definition atomic_rmw_case (op : Z) : option (alignment * list Z * list Z) :=
  if oneof op [OpcodeAtomicI32RmwAdd; OpcodeAtomicI32RmwSub; OpcodeAtomicI32RmwAnd;
       OpcodeAtomicI32RmwOr; OpcodeAtomicI32RmwXor; OpcodeAtomicI32RmwXchg]
    then Some (AtMost (32 / 8), [ValueTypeI32; ValueTypeI32], [ValueTypeI32])
  else if oneof op [OpcodeAtomicI32Rmw8AddU; OpcodeAtomicI32Rmw8SubU; OpcodeAtomicI32Rmw8AndU;
       OpcodeAtomicI32Rmw8OrU; OpcodeAtomicI32Rmw8XorU; OpcodeAtomicI32Rmw8XchgU]
    then Some (AtMost 1, [ValueTypeI32; ValueTypeI32], [ValueTypeI32])
  else if oneof op [OpcodeAtomicI32Rmw16AddU; OpcodeAtomicI32Rmw16SubU;
       OpcodeAtomicI32Rmw16AndU; OpcodeAtomicI32Rmw16OrU; OpcodeAtomicI32Rmw16XorU;
       OpcodeAtomicI32Rmw16XchgU]
    then Some (AtMost (16 / 8), [ValueTypeI32; ValueTypeI32], [ValueTypeI32])
  else if oneof op [OpcodeAtomicI64RmwAdd; OpcodeAtomicI64RmwSub; OpcodeAtomicI64RmwAnd;
       OpcodeAtomicI64RmwOr; OpcodeAtomicI64RmwXor; OpcodeAtomicI64RmwXchg]
    then Some (AtMost (64 / 8), [ValueTypeI64; ValueTypeI32], [ValueTypeI64])
  else if oneof op [OpcodeAtomicI64Rmw8AddU; OpcodeAtomicI64Rmw8SubU; OpcodeAtomicI64Rmw8AndU;
       OpcodeAtomicI64Rmw8OrU; OpcodeAtomicI64Rmw8XorU; OpcodeAtomicI64Rmw8XchgU]
    then Some (AtMost 1, [ValueTypeI64; ValueTypeI32], [ValueTypeI64])
  else if oneof op [OpcodeAtomicI64Rmw16AddU; OpcodeAtomicI64Rmw16SubU;
       OpcodeAtomicI64Rmw16AndU; OpcodeAtomicI64Rmw16OrU; OpcodeAtomicI64Rmw16XorU;
       OpcodeAtomicI64Rmw16XchgU]
    then Some (AtMost (16 / 8), [ValueTypeI64; ValueTypeI32], [ValueTypeI64])
  else if oneof op [OpcodeAtomicI64Rmw32AddU; OpcodeAtomicI64Rmw32SubU;
       OpcodeAtomicI64Rmw32AndU; OpcodeAtomicI64Rmw32OrU; OpcodeAtomicI64Rmw32XorU;
       OpcodeAtomicI64Rmw32XchgU]
    then Some (AtMost (32 / 8), [ValueTypeI64; ValueTypeI32], [ValueTypeI64])
  else None.

Definition atomic_cmpxchg_case (op : Z) : option (alignment * list Z * list Z) :=
  if oneof op [OpcodeAtomicI32RmwCmpxchg]
    then Some (AtMost (32 / 8), [ValueTypeI32; ValueTypeI32; ValueTypeI32], [ValueTypeI32])
  else if oneof op [OpcodeAtomicI32Rmw8CmpxchgU]
    then Some (AtMost 1, [ValueTypeI32; ValueTypeI32; ValueTypeI32], [ValueTypeI32])
  else if oneof op [OpcodeAtomicI32Rmw16CmpxchgU]
    then Some (AtMost (16 / 8), [ValueTypeI32; ValueTypeI32; ValueTypeI32], [ValueTypeI32])
  else if oneof op [OpcodeAtomicI64RmwCmpxchg]
    then Some (AtMost (64 / 8), [ValueTypeI64; ValueTypeI64; ValueTypeI32], [ValueTypeI64])
  else if oneof op [OpcodeAtomicI64Rmw8CmpxchgU]
    then Some (AtMost 1, [ValueTypeI64; ValueTypeI64; ValueTypeI32], [ValueTypeI64])
  else if oneof op [OpcodeAtomicI64Rmw16CmpxchgU]
    then Some (AtMost (16 / 8), [ValueTypeI64; ValueTypeI64; ValueTypeI32], [ValueTypeI64])
  else if oneof op [OpcodeAtomicI64Rmw32CmpxchgU]
    then Some (AtMost (32 / 8), [ValueTypeI64; ValueTypeI64; ValueTypeI32], [ValueTypeI64])
  else None.

Definition atomic_case (op : Z) : option (alignment * list Z * list Z) :=
  orelse (atomic_access_case op) (orelse (atomic_rmw_case op) (atomic_cmpxchg_case op)).

(** The operand of the vector loads and their largest alignment. *)
Definition vecLoads : list Z :=
  [OpcodeVecV128Load; OpcodeVecV128Load8x8s; OpcodeVecV128Load8x8u; OpcodeVecV128Load16x4s;
   OpcodeVecV128Load16x4u; OpcodeVecV128Load32x2s; OpcodeVecV128Load32x2u; OpcodeVecV128Load8Splat;
   OpcodeVecV128Load16Splat; OpcodeVecV128Load32Splat; OpcodeVecV128Load64Splat;
   OpcodeVecV128Load32zero; OpcodeVecV128Load64zero].
Definition maxAlign (op : Z) : Z :=
  if oneof op [OpcodeVecV128Load] then 128 / 8
  else if oneof op [OpcodeVecV128Load8x8s; OpcodeVecV128Load8x8u; OpcodeVecV128Load16x4s;
       OpcodeVecV128Load16x4u; OpcodeVecV128Load32x2s; OpcodeVecV128Load32x2u] then 64 / 8
  else if oneof op [OpcodeVecV128Load8Splat] then 1
  else if oneof op [OpcodeVecV128Load16Splat] then 16 / 8
  else if oneof op [OpcodeVecV128Load32Splat] then 32 / 8
  else if oneof op [OpcodeVecV128Load64Splat] then 64 / 8
  else if oneof op [OpcodeVecV128Load32zero] then 32 / 8
  else if oneof op [OpcodeVecV128Load64zero] then 64 / 8
  else 0.

(** Instructions with a lane: the bound of the lane and the scalar's type, or
    the largest alignment and the bound of the lane. *)
Definition vecExtractLanes (op : Z) : option (Z * Z) :=
  if oneof op [OpcodeVecI8x16ExtractLaneS] then Some (16, ValueTypeI32)
  else if oneof op [OpcodeVecI8x16ExtractLaneU] then Some (16, ValueTypeI32)
  else if oneof op [OpcodeVecI16x8ExtractLaneS] then Some (8, ValueTypeI32)
  else if oneof op [OpcodeVecI16x8ExtractLaneU] then Some (8, ValueTypeI32)
  else if oneof op [OpcodeVecI32x4ExtractLane] then Some (4, ValueTypeI32)
  else if oneof op [OpcodeVecI64x2ExtractLane] then Some (2, ValueTypeI64)
  else if oneof op [OpcodeVecF32x4ExtractLane] then Some (4, ValueTypeF32)
  else if oneof op [OpcodeVecF64x2ExtractLane] then Some (2, ValueTypeF64)
  else None.
Definition vecReplaceLanes (op : Z) : option (Z * Z) :=
  if oneof op [OpcodeVecI8x16ReplaceLane] then Some (16, ValueTypeI32)
  else if oneof op [OpcodeVecI16x8ReplaceLane] then Some (8, ValueTypeI32)
  else if oneof op [OpcodeVecI32x4ReplaceLane] then Some (4, ValueTypeI32)
  else if oneof op [OpcodeVecI64x2ReplaceLane] then Some (2, ValueTypeI64)
  else if oneof op [OpcodeVecF32x4ReplaceLane] then Some (4, ValueTypeF32)
  else if oneof op [OpcodeVecF64x2ReplaceLane] then Some (2, ValueTypeF64)
  else None.
Definition vecStoreLanes (op : Z) : option (Z * Z) :=
  if oneof op [OpcodeVecV128Store64Lane] then Some (64 / 8, 128 / 64)
  else if oneof op [OpcodeVecV128Store32Lane] then Some (32 / 8, 128 / 32)
  else if oneof op [OpcodeVecV128Store16Lane] then Some (16 / 8, 128 / 16)
  else if oneof op [OpcodeVecV128Store8Lane] then Some (1, 128 / 8)
  else None.
Definition vecLoadLanes (op : Z) : option (Z * Z) :=
  if oneof op [OpcodeVecV128Load64Lane] then Some (64 / 8, 128 / 64)
  else if oneof op [OpcodeVecV128Load32Lane] then Some (32 / 8, 128 / 32)
  else if oneof op [OpcodeVecV128Load16Lane] then Some (16 / 8, 128 / 16)
  else if oneof op [OpcodeVecV128Load8Lane] then Some (1, 128 / 8)
  else None.
Definition vecSplatValueTypes (op : Z) : option Z :=
  if oneof op [OpcodeVecI8x16Splat] then Some ValueTypeI32
  else if oneof op [OpcodeVecI16x8Splat] then Some ValueTypeI32
  else if oneof op [OpcodeVecI32x4Splat] then Some ValueTypeI32
  else if oneof op [OpcodeVecI64x2Splat] then Some ValueTypeI64
  else if oneof op [OpcodeVecF32x4Splat] then Some ValueTypeF32
  else if oneof op [OpcodeVecF64x2Splat] then Some ValueTypeF64
  else None.

(** The saturating conversions. *)
Definition truncSat_case (op : Z) : option (Z * Z) :=
  if oneof op [OpcodeMiscI32TruncSatF32S; OpcodeMiscI32TruncSatF32U] then Some (ValueTypeF32, ValueTypeI32)
  else if oneof op [OpcodeMiscI32TruncSatF64S; OpcodeMiscI32TruncSatF64U] then Some (ValueTypeF64, ValueTypeI32)
  else if oneof op [OpcodeMiscI64TruncSatF32S; OpcodeMiscI64TruncSatF32U] then Some (ValueTypeF32, ValueTypeI64)
  else if oneof op [OpcodeMiscI64TruncSatF64S; OpcodeMiscI64TruncSatF64U] then Some (ValueTypeF64, ValueTypeI64)
  else None.

End ValidationTables.
