(* ===== verification/FuncValidation.v ===== *)
(** * Function validation: [internal/wasm/func_validation.go]

    [validateFunctionWithMaxStackValues] walks the bytes of a function body
    with a stack of value types and a stack of control blocks.  Both stacks are
    lists with the top first, so Go's [stack[len(stack)-1-i]] is [stack !! i].
    The scratch slices [sts.ls] and [requireStackValuesTmp], emptied before each
    use, are local values here.  Texts of errors are reduced to what tells them
    apart; an index or slice expression out of range is [Panic].

    [pc] is a [uint64] in the source; it exceeds the length of the body by at
    most eight, so it is written without its wrap-around. *)
From S2P Require Import Prelude Leb128 GoStd Opcodes WasmBinary ValidationTables.

Module FuncValidation.
Import WasmBinary.
Export ValidationTables.

Inductive val_err : Type :=
| Invalid (what : string)
| TypeCount (isParam : bool) (have want : list Z)
| TypeMismatch (isParam : bool) (have want i : Z)
| Missing (expected : Z)
| Mismatch (expected have : Z)
| NotEnabled (feature : Z)
| Immediate (what : string) (e : Leb128.leb_err)
| InFunction (idx : Z) (e : val_err)
| Panic (what : string)
| NoFuel.

Definition maximumValuesOnStack : Z := Z.shiftl 1 27.
Definition valueTypeUnknown : Z := 0xff.

Definition requireEnabled (features feature : Z) : result val_err unit :=
  if Z.land features feature =? 0 then Err (NotEnabled feature) else Ok tt.

(** ** Indexing: [a[i]], [body[pc]] and [body[pc:]] *)
Definition at_ {A} (l : list A) (i : Z) : result val_err A :=
  match l !! Z.to_nat i with Some x => Ok x | None => Err (Panic "index out of range") end.
Definition from (body : list Z) (pc : Z) : result val_err (list Z) :=
  if len body <? pc then Err (Panic "slice bounds out of range") else Ok (drop (Z.to_nat pc) body).

(** ** The stack of value types *)
Record valueTypeStack : Type := mkVS {
  stack : list Z; stackLimits : list Z; maximumStackPointer : Z }.

Definition stackLimit (s : valueTypeStack) : Z :=
  match stackLimits s with limit :: _ => limit | [] => 0 end.

(** A lone unknown value above the limit stands for any number of values. *)
Definition tryPop (s : valueTypeStack) : option (Z * valueTypeStack) :=
  let limit := stackLimit s in
  let stackLen := len (stack s) in
  if stackLen <=? limit then None else
  match stack s with
  | [] => None
  | vt :: rest =>
      if (stackLen =? limit + 1) && (vt =? valueTypeUnknown) then Some (valueTypeUnknown, s)
      else Some (vt, mkVS rest (stackLimits s) (maximumStackPointer s))
  end.

Definition pop (s : valueTypeStack) : result val_err (Z * valueTypeStack) :=
  match tryPop s with
  | Some r => Ok r
  | None => Err (Invalid "trying to pop below the limit")
  end.

Definition popAndVerifyType (s : valueTypeStack) (expected : Z) : result val_err valueTypeStack :=
  match tryPop s with
  | None => Err (Missing expected)
  | Some (have, s) =>
      if negb (have =? expected) && negb (have =? valueTypeUnknown) &&
         negb (expected =? valueTypeUnknown)
      then Err (Mismatch expected have) else Ok s
  end.

Definition push (s : valueTypeStack) (v : Z) : valueTypeStack :=
  let stack := v :: stack s in
  let sp := len stack in
  mkVS stack (stackLimits s)
    (if maximumStackPointer s <? sp then sp else maximumStackPointer s).
Definition pushAll (s : valueTypeStack) (vs : list Z) : valueTypeStack := fold_left push vs s.

(** [s.stack[:limit]]. *)
Definition resetAtStackLimit (s : valueTypeStack) : result val_err valueTypeStack :=
  let limit := stackLimit s in
  if len (stack s) <? limit then Err (Panic "slice bounds out of range")
  else Ok (mkVS (drop (length (stack s) - Z.to_nat limit) (stack s)) (stackLimits s)
             (maximumStackPointer s)).

(** The unknown value does not count for [maximumStackPointer]. *)
Definition unreachable (s : valueTypeStack) : result val_err valueTypeStack :=
  let! s := resetAtStackLimit s in
  Ok (mkVS (valueTypeUnknown :: stack s) (stackLimits s) (maximumStackPointer s)).

Definition popStackLimit (s : valueTypeStack) : valueTypeStack :=
  mkVS (stack s) (match stackLimits s with _ :: ls => ls | [] => [] end) (maximumStackPointer s).

Definition pushStackLimit (s : valueTypeStack) (params : Z) : valueTypeStack :=
  mkVS (stack s) ((len (stack s) - params) :: stackLimits s) (maximumStackPointer s).

(** The values popped for [n] wanted ones, in the order they are popped. *)
Fixpoint popWanted (isParam : bool) (want : list Z) (n : nat) (s : valueTypeStack) (popped : list Z)
  : result val_err (list Z * valueTypeStack) :=
  match n with
  | O => Ok (popped, s)
  | S n =>
      match tryPop s with
      | None => Err (TypeCount isParam popped want)
      | Some (v, s) => popWanted isParam want n s (popped ++ [v])
      end
  end.

(** The first pair of a popped value and the type wanted that differ. *)
Fixpoint verifyWanted (isParam : bool) (i : Z) (popped wanted : list Z) : result val_err unit :=
  match popped, wanted with
  | v :: popped, nextWant :: wanted =>
      if negb (v =? nextWant) && negb (v =? valueTypeUnknown) && negb (nextWant =? valueTypeUnknown)
      then Err (TypeMismatch isParam v nextWant i)
      else verifyWanted isParam (i + 1) popped wanted
  | _, _ => Ok tt
  end.

Definition requireStackValues (s : valueTypeStack) (isParam : bool) (want : list Z)
  (checkAboveLimit : bool) : result val_err valueTypeStack :=
  let limit := stackLimit s in
  let! (popped, s) := popWanted isParam want (length want) s [] in
  reject checkAboveLimit &&
      negb ((limit =? len (stack s)) ||
            ((limit + 1 =? len (stack s)) &&
             match stack s with top :: _ => top =? valueTypeUnknown | [] => false end))
    as TypeCount isParam (rev (stack s) ++ want) want ;;
  let! _ := verifyWanted isParam 0 popped (rev want) in
  Ok s.
Definition popParams (s : valueTypeStack) := requireStackValues s true.
Definition popResults (s : valueTypeStack) := requireStackValues s false.

(** A run of [popAndVerifyType] and a run of [push]. *)
Definition popTypes (s : valueTypeStack) (ts : list Z) : result val_err valueTypeStack :=
  foldm popAndVerifyType s ts.
Definition operate (s : valueTypeStack) (pops pushes : list Z) : result val_err valueTypeStack :=
  let! s := popTypes s pops in Ok (pushAll s pushes).

(** ** The stack of control blocks *)
Record controlBlock : Type := mkBlock {
  startAt : Z; elseAt : Z; endAt : Z; blockType : FunctionType; blockTypeBytes : Z; cb_op : Z }.

Definition labelType (target : controlBlock) : list Z :=
  if cb_op target =? OpcodeLoop then ft_Params (blockType target) else ft_Results (blockType target).

(** [sts.reset]. *)
Definition reset (functionType : FunctionType) : valueTypeStack * list controlBlock :=
  (mkVS [] [] 0, [mkBlock 0 0 0 functionType 0 0]).

(** ** Immediates *)

(** [1 << n] at the width of an [int] and of a [uint32]. *)
Definition shl1_int (n : Z) : Z := if n <? 64 then i64 (Z.shiftl 1 n) else 0.
Definition shl1_u32 (n : Z) : Z := if n <? 32 then u32 (Z.shiftl 1 n) else 0.

Definition loadU32 (what : string) (body : list Z) (pc : Z) : result val_err (Z * Z) :=
  let! b := from body pc in map_err (Immediate what) (Leb128.LoadUint32 b).

Definition readMemArg (pc : Z) (body : list Z) : result val_err (Z * Z * Z) :=
  let! (align, num) := loadU32 "read memory align" body pc in
  let! (offset, num') := loadU32 "read memory offset" body (pc + num) in
  Ok (align, offset, num + num').

Definition blockType_v_v : FunctionType := mkFunctionType [] [] [].
Definition blockType_v (t : Z) : FunctionType := mkFunctionType [] [t] [].

Definition DecodeBlockType (types : list FunctionType) (r : list Z) (enabledFeatures : Z)
  : result val_err (FunctionType * Z) :=
  let! (raw, num) :=
    map_err (Immediate "decode int33") (Leb128.DecodeInt33AsInt64 (Leb128.buf_next r)) in
  if raw =? -64 then Ok (blockType_v_v, num)
  else if raw =? -1 then Ok (blockType_v ValueTypeI32, num)
  else if raw =? -2 then Ok (blockType_v ValueTypeI64, num)
  else if raw =? -3 then Ok (blockType_v ValueTypeF32, num)
  else if raw =? -4 then Ok (blockType_v ValueTypeF64, num)
  else if raw =? -5 then Ok (blockType_v ValueTypeV128, num)
  else if raw =? -16 then Ok (blockType_v ValueTypeFuncref, num)
  else if raw =? -17 then Ok (blockType_v ValueTypeExternref, num)
  else
    let! _ := requireEnabled enabledFeatures CoreFeatureMultiValue in
    reject (raw <? 0) || (len types <=? raw) as Invalid "type index out of range" ;;
    let! ret := at_ types raw in
    Ok (ret, num).

(** The labels of [br_table]: [n] of them, and the bytes they take. *)
Fixpoint readLabels (n : nat) (r : list Z) (num : Z) : result val_err (list Z * Z * list Z) :=
  match n with
  | O => Ok ([], num, r)
  | S n =>
      let! (l, k) := map_err (Immediate "read immediate") (Leb128.LoadUint32 r) in
      let! (ls, num, r) := readLabels n (drop (Z.to_nat k) r) (num + k) in
      Ok (l :: ls, num, r)
  end.

(** The default label's types popped one by one, the last first: an unknown
    operand makes the expected type unknown. *)
Fixpoint popDefault (s : valueTypeStack) (i : Z) (wanted : list Z)
  : result val_err (list Z * valueTypeStack) :=
  match wanted with
  | [] => Ok ([], s)
  | exp :: wanted =>
      let! (actual, s) := pop s in
      reject negb (actual =? valueTypeUnknown) && negb (actual =? exp)
        as TypeMismatch true actual exp i ;;
      let! (ts, s) := popDefault s (i + 1) wanted in
      Ok ((if actual =? valueTypeUnknown then valueTypeUnknown else exp) :: ts, s)
  end.

Definition isReferenceValueType (vt : Z) : bool :=
  (vt =? ValueTypeExternref) || (vt =? ValueTypeFuncref).
(** ** The walk over the body

    What a function is validated against: the module [m], the features, the
    index spaces with imports first, and the function's own type and locals. *)
Section body.
Context (m : Module') (enabledFeatures : Z) (functions : list Z) (globals : list GlobalType)
  (memory : option Memory) (tables : list Table) (declaredFunctionIndexes : gset Z)
  (functionType : FunctionType) (localTypes body : list Z).

(** [pc] after the instruction (on its last byte), and the stacks. *)
Definition step_result : Type := Z * valueTypeStack * list controlBlock.

Definition needMemory : result val_err unit :=
  match memory with None => Err (Invalid "memory must exist") | Some _ => Ok tt end.
Definition needFeature (feature : Z) : result val_err unit := requireEnabled enabledFeatures feature.
Definition tableAt (tableIndex : Z) : result val_err Table :=
  if u32 (len tables) <=? tableIndex then Err (Invalid "unknown table") else at_ tables tableIndex.
(** A table index other than zero needs reference types. *)
Definition needTableIndex (tableIndex : Z) : result val_err unit :=
  if negb (tableIndex =? 0) then needFeature CoreFeatureReferenceTypes else Ok tt.

Definition memoryAccess (op pc : Z) (s : valueTypeStack) : result val_err (Z * valueTypeStack) :=
  let! _ := needMemory in
  let pc := pc + 1 in
  let! (align, _, read) := readMemArg pc body in
  let pc := pc + (read - 1) in
  match memory_case op with
  | Some (max, pops, pushes) =>
      reject max <? shl1_int align as Invalid "invalid memory alignment" ;;
      let! s := operate s pops pushes in
      Ok (pc, s)
  | None => Ok (pc, s)
  end.

Definition memorySizeGrow (op pc : Z) (s : valueTypeStack) : result val_err (Z * valueTypeStack) :=
  let! _ := needMemory in
  let pc := pc + 1 in
  let! (val, num) := loadU32 "read immediate" body pc in
  reject negb (val =? 0) || negb (num =? 1) as Invalid "memory instruction reserved bytes not zero" ;;
  let! s := (if op =? OpcodeMemoryGrow then operate s [ValueTypeI32] [ValueTypeI32]
             else Ok (push s ValueTypeI32)) in
  Ok (pc + (num - 1), s).

(** The four and eight bytes of a float are skipped without a look at the end
    of the body. *)
Definition constant (op pc : Z) (s : valueTypeStack) : result val_err (Z * valueTypeStack) :=
  let pc := pc + 1 in
  if op =? OpcodeI32Const then
    let! b := from body pc in
    let! (_, num) := map_err (Immediate "read i32 immediate") (Leb128.LoadInt32 b) in
    Ok (pc + (num - 1), push s ValueTypeI32)
  else if op =? OpcodeI64Const then
    let! b := from body pc in
    let! (_, num) := map_err (Immediate "read i64 immediate") (Leb128.LoadInt64 b) in
    Ok (pc + (num - 1), push s ValueTypeI64)
  else if op =? OpcodeF32Const then Ok (pc + 3, push s ValueTypeF32)
  else Ok (pc + 7, push s ValueTypeF64).

(** The type of a local: parameters first. *)
Definition localType (index : Z) : result val_err Z :=
  let inputLen := u32 (len (ft_Params functionType)) in
  reject u32 (u32 (len localTypes) + inputLen) <=? index as Invalid "invalid local index" ;;
  if index <? inputLen then at_ (ft_Params functionType) index
  else at_ localTypes (index - inputLen).

Definition globalAt (index : Z) : result val_err GlobalType :=
  if u32 (len globals) <=? index then Err (Invalid "invalid global index") else at_ globals index.

Definition variable (op pc : Z) (s : valueTypeStack) : result val_err (Z * valueTypeStack) :=
  let pc := pc + 1 in
  let! (index, num) := loadU32 "read immediate" body pc in
  let pc := pc + (num - 1) in
  if op =? OpcodeLocalGet then
    let! t := localType index in Ok (pc, push s t)
  else if op =? OpcodeLocalSet then
    let! t := localType index in
    let! s := popAndVerifyType s t in Ok (pc, s)
  else if op =? OpcodeLocalTee then
    let! t := localType index in
    let! s := popAndVerifyType s t in Ok (pc, push s t)
  else if op =? OpcodeGlobalGet then
    let! g := globalAt index in Ok (pc, push s (gt_ValType g))
  else
    let! g := globalAt index in
    reject negb (gt_Mutable g) as Invalid "global.set when not mutable" ;;
    let! s := popAndVerifyType s (gt_ValType g) in Ok (pc, s).

(** *** Branches *)
Definition br (pc : Z) (s : valueTypeStack) (cs : list controlBlock)
  : result val_err (Z * valueTypeStack) :=
  let pc := pc + 1 in
  let! (index, num) := loadU32 "read immediate" body pc in
  reject len cs <=? index as Invalid "invalid br operation: index out of range" ;;
  let pc := pc + (num - 1) in
  let! target := at_ cs index in
  let! s := popResults s (labelType target) false in
  let! s := unreachable s in
  Ok (pc, s).

Definition br_if (pc : Z) (s : valueTypeStack) (cs : list controlBlock)
  : result val_err (Z * valueTypeStack) :=
  let pc := pc + 1 in
  let! (index, num) := loadU32 "read immediate" body pc in
  reject len cs <=? index as Invalid "invalid ln param given for br_if" ;;
  let pc := pc + (num - 1) in
  let! s := popAndVerifyType s ValueTypeI32 in
  let! target := at_ cs index in
  let! s := popResults s (labelType target) false in
  Ok (pc, pushAll s (labelType target)).

(** One label of the table against the default label's types. *)
Definition checkLabel (cs : list controlBlock) (defaultLabelType : list Z) (l : Z)
  : result val_err unit :=
  reject len cs <=? l as Invalid "invalid l param given for br_table" ;;
  let! label := at_ cs l in
  let tableLabelType := labelType label in
  reject negb (len defaultLabelType =? len tableLabelType)
    as Invalid "inconsistent block type length for br_table" ;;
  reject existsb (fun '(d, t) => negb (d =? valueTypeUnknown) && negb (d =? t))
           (zip defaultLabelType tableLabelType)
    as Invalid "incosistent block type for br_table" ;;
  Ok tt.

Definition br_table (pc : Z) (s : valueTypeStack) (cs : list controlBlock)
  : result val_err (Z * valueTypeStack) :=
  let pc := pc + 1 in
  let! r := from body pc in
  let! (nl, num) := map_err (Immediate "read immediate") (Leb128.LoadUint32 r) in
  let! (ls, num, r) := readLabels (Z.to_nat nl) (drop (Z.to_nat num) r) num in
  let! (ln, n) := map_err (Immediate "read immediate") (Leb128.LoadUint32 r) in
  reject len cs <=? ln as Invalid "invalid ln param given for br_table" ;;
  let pc := pc + (n + num - 1) in
  let! s := popAndVerifyType s ValueTypeI32 in
  let! lnLabel := at_ cs ln in
  let defaultLabelType := labelType lnLabel in
  let! (defaultLabelType, s) :=
    (if IsEnabled enabledFeatures CoreFeatureReferenceTypes then
       let! (ts, s) := popDefault s 0 (rev defaultLabelType) in Ok (rev ts, s)
     else
       let! s := popResults s defaultLabelType false in Ok (defaultLabelType, s)) in
  let! _ := each (checkLabel cs defaultLabelType) ls in
  let! s := unreachable s in
  Ok (pc, s).

(** *** Calls *)
Definition call (pc : Z) (s : valueTypeStack) : result val_err (Z * valueTypeStack) :=
  let pc := pc + 1 in
  let! (index, num) := loadU32 "read immediate" body pc in
  let pc := pc + (num - 1) in
  reject len functions <=? index as Invalid "invalid function index" ;;
  let! typeIndex := at_ functions index in
  let! funcType := at_ (TypeSection m) typeIndex in
  let! s := operate s (rev (ft_Params funcType)) (ft_Results funcType) in
  Ok (pc, s).

Definition call_indirect (pc : Z) (s : valueTypeStack) : result val_err (Z * valueTypeStack) :=
  let pc := pc + 1 in
  let! (typeIndex, num) := loadU32 "read immediate" body pc in
  let pc := pc + num in
  reject len (TypeSection m) <=? typeIndex as Invalid "invalid type index at call_indirect" ;;
  let! (tableIndex, num) := loadU32 "read table index" body pc in
  let pc := pc + (num - 1) in
  let! _ := needTableIndex tableIndex in
  let! table := tableAt tableIndex in
  reject negb (tb_Type table =? RefTypeFuncref) as Invalid "table is not funcref type" ;;
  let! s := popAndVerifyType s ValueTypeI32 in
  let! funcType := at_ (TypeSection m) typeIndex in
  let! s := operate s (rev (ft_Params funcType)) (ft_Results funcType) in
  Ok (pc, s).

Definition numeric (op pc : Z) (s : valueTypeStack) : result val_err (Z * valueTypeStack) :=
  match numeric_case op with
  | Some (feature, pops, pushes) =>
      let! _ := match feature with Some f => needFeature f | None => Ok tt end in
      let! s := operate s pops pushes in Ok (pc, s)
  | None => Err (Invalid "invalid numeric instruction")
  end.

(** *** References and tables *)
Definition reference (op pc : Z) (s : valueTypeStack) : result val_err (Z * valueTypeStack) :=
  let! _ := needFeature CoreFeatureReferenceTypes in
  if op =? OpcodeRefNull then
    let pc := pc + 1 in
    let! reftype := at_ body pc in
    if reftype =? ValueTypeExternref then Ok (pc, push s ValueTypeExternref)
    else if reftype =? ValueTypeFuncref then Ok (pc, push s ValueTypeFuncref)
    else Err (Invalid "unknown type for ref.null")
  else if op =? OpcodeRefIsNull then
    let! (tp, s) := pop s in
    reject negb (isReferenceValueType tp) && negb (tp =? valueTypeUnknown)
      as Invalid "type mismatch: expected reference type" ;;
    Ok (pc, push s ValueTypeI32)
  else
    let pc := pc + 1 in
    let! (index, num) := loadU32 "failed to read function index for ref.func" body pc in
    reject negb (bool_decide (index ∈ declaredFunctionIndexes))
      as Invalid "undeclared function index for ref.func" ;;
    Ok (pc + (num - 1), push s ValueTypeFuncref).

Definition tableGetSet (op pc : Z) (s : valueTypeStack) : result val_err (Z * valueTypeStack) :=
  let! _ := needFeature CoreFeatureReferenceTypes in
  let pc := pc + 1 in
  let! (tableIndex, num) := loadU32 "read immediate" body pc in
  let! table := tableAt tableIndex in
  let refType := tb_Type table in
  let! s := (if op =? OpcodeTableGet then operate s [ValueTypeI32] [refType]
             else operate s [refType; ValueTypeI32] []) in
  Ok (pc + (num - 1), s).

(** *** After [OpcodeMiscPrefix] *)
Definition dataIndex (pc : Z) : result val_err Z :=
  match DataCountSection m with
  | None => Err (Invalid "requires data count section")
  | Some _ =>
      let! (index, num) := loadU32 "failed to read data segment index" body pc in
      reject len (DataSection m) <=? index as Invalid "index out of range of data section" ;;
      Ok (pc + (num - 1))
  end.
(** A reserved memory index: zero, in one byte. *)
Definition reservedZero (pc : Z) : result val_err unit :=
  let! (val, num) := loadU32 "failed to read memory index" body pc in
  reject negb (val =? 0) || negb (num =? 1) as Invalid "reserved byte must be zero encoded with 1 byte" ;;
  Ok tt.
Definition elementAt (elementIndex : Z) : result val_err ElementSegment :=
  if len (ElementSection m) <=? elementIndex then Err (Invalid "index out of range of element section")
  else at_ (ElementSection m) elementIndex.

(** Immediates of the bulk instructions: [pc] and the operands to pop. *)
Definition bulkImmediates (miscOpcode pc : Z) : result val_err (Z * list Z) :=
  let three := [ValueTypeI32; ValueTypeI32; ValueTypeI32] in
  if miscOpcode =? OpcodeMiscDataDrop then
    let! pc := dataIndex (pc + 1) in Ok (pc, [])
  else if oneof miscOpcode [OpcodeMiscMemoryInit; OpcodeMiscMemoryCopy; OpcodeMiscMemoryFill] then
    let! _ := needMemory in
    let! pc := (if miscOpcode =? OpcodeMiscMemoryInit then dataIndex (pc + 1) else Ok pc) in
    let pc := pc + 1 in
    let! _ := reservedZero pc in
    if miscOpcode =? OpcodeMiscMemoryCopy then
      let pc := pc + 1 in
      let! _ := reservedZero pc in Ok (pc, three)
    else Ok (pc, three)
  else if miscOpcode =? OpcodeMiscTableInit then
    let pc := pc + 1 in
    let! (elementIndex, num) := loadU32 "failed to read element segment index" body pc in
    let! elem := elementAt elementIndex in
    let pc := pc + num in
    let! (tableIndex, num) := loadU32 "failed to read source table index" body pc in
    let! _ := needTableIndex tableIndex in
    let! table := tableAt tableIndex in
    reject negb (el_Type elem =? tb_Type table) as Invalid "type mismatch for table.init" ;;
    Ok (pc + (num - 1), three)
  else if miscOpcode =? OpcodeMiscElemDrop then
    let pc := pc + 1 in
    let! (elementIndex, num) := loadU32 "failed to read element segment index" body pc in
    let! _ := elementAt elementIndex in
    Ok (pc + (num - 1), [])
  else if miscOpcode =? OpcodeMiscTableCopy then
    let pc := pc + 1 in
    let! (dstTableIndex, num) := loadU32 "failed to read destination table index" body pc in
    let! _ := needTableIndex dstTableIndex in
    let! dst := tableAt dstTableIndex in
    let pc := pc + num in
    let! (srcTableIndex, num) := loadU32 "failed to read source table index" body pc in
    let! _ := needTableIndex srcTableIndex in
    let! src := tableAt srcTableIndex in
    reject negb (tb_Type src =? tb_Type dst) as Invalid "table type mismatch for table.copy" ;;
    Ok (pc + (num - 1), three)
  else Ok (pc, []).

Definition misc (pc : Z) (s : valueTypeStack) : result val_err (Z * valueTypeStack) :=
  let pc := pc + 1 in
  let! (miscOp32, num) := loadU32 "failed to read misc opcode" body pc in
  let pc := pc + (num - 1) in
  let miscOpcode := u8 miscOp32 in
  reject negb (miscOpcode =? miscOp32) as Invalid "invalid misc opcode" ;;
  if (OpcodeMiscI32TruncSatF32S <=? miscOpcode) && (miscOpcode <=? OpcodeMiscI64TruncSatF64U) then
    let! _ := needFeature CoreFeatureNonTrappingFloatToIntConversion in
    let '(inType, outType) := default (0, 0) (truncSat_case miscOpcode) in
    let! s := operate s [inType] [outType] in
    Ok (pc, s)
  else if (OpcodeMiscMemoryInit <=? miscOpcode) && (miscOpcode <=? OpcodeMiscTableCopy) then
    let! _ := needFeature CoreFeatureBulkMemoryOperations in
    let! (pc, params) := bulkImmediates miscOpcode pc in
    let! s := popTypes s params in
    Ok (pc, s)
  else if (OpcodeMiscTableGrow <=? miscOpcode) && (miscOpcode <=? OpcodeMiscTableFill) then
    let! _ := needFeature CoreFeatureReferenceTypes in
    let pc := pc + 1 in
    let! (tableIndex, num) := loadU32 "failed to read table index" body pc in
    let! table := tableAt tableIndex in
    let pc := pc + (num - 1) in
    let reftype := tb_Type table in
    let! s :=
      (if miscOpcode =? OpcodeMiscTableGrow then operate s [ValueTypeI32; reftype] [ValueTypeI32]
       else if miscOpcode =? OpcodeMiscTableSize then operate s [] [ValueTypeI32]
       else if miscOpcode =? OpcodeMiscTableFill then
         operate s [ValueTypeI32; reftype; ValueTypeI32] []
       else Ok s) in
    Ok (pc, s)
  else Err (Invalid "unknown misc opcode").

(** *** After [OpcodeVecPrefix] *)
Definition laneBelow (pc laneCeil : Z) : result val_err unit :=
  reject len body <=? pc as Invalid "lane not found" ;;
  let! lane := at_ body pc in
  reject laneCeil <=? lane as Invalid "invalid lane index" ;;
  Ok tt.
(** A memory argument and a lane: [pc] on the lane. *)
Definition memLane (pc alignMax laneCeil : Z) : result val_err Z :=
  let! _ := needMemory in
  let pc := pc + 1 in
  let! (align, _, read) := readMemArg pc body in
  reject alignMax <? shl1_u32 align as Invalid "invalid memory alignment" ;;
  let pc := pc + read in
  let! _ := laneBelow pc laneCeil in
  Ok pc.

Definition vector (pc : Z) (s : valueTypeStack) : result val_err (Z * valueTypeStack) :=
  let pc := pc + 1 in
  let! vecOpcode := at_ body pc in
  let! _ := needFeature CoreFeatureSIMD in
  if vecOpcode =? OpcodeVecV128Const then
    reject len body <=? pc + 16 as Invalid "cannot read constant vector value" ;;
    Ok (pc + 16, push s ValueTypeV128)
  else match vec_case vecOpcode with Some (pops, pushes) =>
    let! s := operate s pops pushes in Ok (pc, s)
  | None =>
  if oneof vecOpcode vecLoads then
    let! _ := needMemory in
    let pc := pc + 1 in
    let! (align, _, read) := readMemArg pc body in
    let pc := pc + (read - 1) in
    reject maxAlign vecOpcode <? shl1_u32 align as Invalid "invalid memory alignment" ;;
    let! s := operate s [ValueTypeI32] [ValueTypeV128] in
    Ok (pc, s)
  else if vecOpcode =? OpcodeVecV128Store then
    let! _ := needMemory in
    let pc := pc + 1 in
    let! (align, _, read) := readMemArg pc body in
    let pc := pc + (read - 1) in
    reject 128 / 8 <? shl1_int align as Invalid "invalid memory alignment" ;;
    let! s := operate s [ValueTypeV128; ValueTypeI32] [] in
    Ok (pc, s)
  else match vecLoadLanes vecOpcode with Some (alignMax, laneCeil) =>
    let! pc := memLane pc alignMax laneCeil in
    let! s := operate s [ValueTypeV128; ValueTypeI32] [ValueTypeV128] in Ok (pc, s)
  | None =>
  match vecStoreLanes vecOpcode with Some (alignMax, laneCeil) =>
    let! pc := memLane pc alignMax laneCeil in
    let! s := operate s [ValueTypeV128; ValueTypeI32] [] in Ok (pc, s)
  | None =>
  match vecExtractLanes vecOpcode with Some (laneCeil, resultType) =>
    let pc := pc + 1 in
    let! _ := laneBelow pc laneCeil in
    let! s := operate s [ValueTypeV128] [resultType] in Ok (pc, s)
  | None =>
  match vecReplaceLanes vecOpcode with Some (laneCeil, paramType) =>
    let pc := pc + 1 in
    let! _ := laneBelow pc laneCeil in
    let! s := operate s [paramType; ValueTypeV128] [ValueTypeV128] in Ok (pc, s)
  | None =>
  match vecSplatValueTypes vecOpcode with Some tp =>
    let! s := operate s [tp] [ValueTypeV128] in Ok (pc, s)
  | None =>
  if vecOpcode =? OpcodeVecV128i8x16Shuffle then
    let pc := pc + 1 in
    reject len body <=? pc + 15 as Invalid "16 lane indexes not found" ;;
    reject existsb (Z.leb 32) (sub body (Z.to_nat pc) 16) as Invalid "invalid lane index" ;;
    let! s := operate s [ValueTypeV128; ValueTypeV128] [ValueTypeV128] in
    Ok (pc + 15, s)
  else Err (Invalid "unknown SIMD instruction")
  end end end end end end.

(** *** After [OpcodeAtomicPrefix] *)
Definition misaligned (a : alignment) (align : Z) : bool :=
  match a with
  | AtMost n => n <? shl1_int align
  | Exactly n => negb (shl1_int align =? n)
  end.

Definition atomic (pc : Z) (s : valueTypeStack) : result val_err (Z * valueTypeStack) :=
  let pc := pc + 1 in
  let! atomicOpcode := at_ body pc in
  let! _ := needFeature CoreFeaturesThreads in
  let pc := pc + 1 in
  if atomicOpcode =? OpcodeAtomicFence then
    let! imm := at_ body pc in
    reject negb (imm =? 0) as Invalid "invalid immediate value for atomic.fence" ;;
    Ok (pc, s)
  else
    let! _ := needMemory in
    let! (align, _, read) := readMemArg pc body in
    let pc := pc + (read - 1) in
    match atomic_case atomicOpcode with
    | Some (a, pops, pushes) =>
        reject misaligned a align as Invalid "invalid memory alignment" ;;
        let! s := operate s pops pushes in
        Ok (pc, s)
    | None => Err (Invalid "invalid atomic opcode")
    end.

(** *** Blocks *)

(** [block], [loop] and [if]; the outermost block and [block] have [op] zero. *)
Definition enter (op pc : Z) (s : valueTypeStack) (cs : list controlBlock) : result val_err step_result :=
  let! r := from body (pc + 1) in
  let! (bt, num) := DecodeBlockType (TypeSection m) r enabledFeatures in
  let cs := mkBlock pc 0 0 bt num (if op =? OpcodeBlock then 0 else op) :: cs in
  let! s := (if op =? OpcodeIf then popAndVerifyType s ValueTypeI32 else Ok s) in
  let! s := popParams s (ft_Params bt) false in
  let s := pushAll s (ft_Params bt) in
  let s := pushStackLimit s (len (ft_Params bt)) in
  Ok (pc + num, s, cs).

Definition else_ (pc : Z) (s : valueTypeStack) (cs : list controlBlock) : result val_err step_result :=
  match cs with
  | [] => Err (Panic "index out of range")
  | bl :: cs =>
      reject negb (cb_op bl =? OpcodeIf) as Invalid "else instruction must be used in if block" ;;
      let bl := mkBlock (startAt bl) pc (endAt bl) (blockType bl) (blockTypeBytes bl) OpcodeElse in
      let! s := popResults s (ft_Results (blockType bl)) true in
      let! s := resetAtStackLimit s in
      Ok (pc, pushAll s (ft_Params (blockType bl)), bl :: cs)
  end.

Definition end_ (pc : Z) (s : valueTypeStack) (cs : list controlBlock) : result val_err step_result :=
  match cs with
  | [] => Err (Panic "index out of range")
  | bl :: cs =>
      let bt := blockType bl in
      let ifMissingElse := (cb_op bl =? OpcodeIf) && (elseAt bl <=? startAt bl) in
      reject ifMissingElse && negb (bool_decide (ft_Results bt = ft_Params bt))
        as TypeCount false (ft_Params bt) (ft_Results bt) ;;
      let! s := requireStackValues s false (ft_Results bt) true in
      let! s := resetAtStackLimit s in
      let s := pushAll s (ft_Results bt) in
      Ok (pc, popStackLimit s, cs)
  end.

Definition return_ (s : valueTypeStack) : result val_err valueTypeStack :=
  let! s := requireStackValues s false (ft_Results functionType) false in unreachable s.

(** The immediate of a typed [select] is checked to be a value type. *)
Definition select (op pc : Z) (s : valueTypeStack) : result val_err (Z * valueTypeStack) :=
  let! s := popAndVerifyType s ValueTypeI32 in
  let! (v1, s) := pop s in
  let! (v2, s) := pop s in
  let! pc :=
    (if op =? OpcodeTypedSelect then
       let! _ := needFeature CoreFeatureReferenceTypes in
       let pc := pc + 1 in
       let! numTypeImmeidates := at_ body pc in
       reject negb (numTypeImmeidates =? 1) as Invalid "too many type immediates" ;;
       let pc := pc + 1 in
       let! tp := at_ body pc in
       reject negb (isValueType tp) as Invalid "invalid type for typed select" ;;
       Ok pc
     else
       reject isReferenceValueType v1 || isReferenceValueType v2
         as Invalid "reference types cannot be used for non typed select instruction" ;;
       Ok pc) in
  reject negb (v1 =? v2) && negb (v1 =? valueTypeUnknown) && negb (v2 =? valueTypeUnknown)
    as Invalid "type mismatch on 1st and 2nd select operands" ;;
  Ok (pc, push s (if v1 =? valueTypeUnknown then v2 else v1)).

(** *** One instruction *)
Definition keep (cs : list controlBlock) (r : result val_err (Z * valueTypeStack))
  : result val_err step_result := let! (pc, s) := r in Ok (pc, s, cs).

Definition instruction (op pc : Z) (s : valueTypeStack) (cs : list controlBlock)
  : result val_err step_result :=
  if (OpcodeI32Load <=? op) && (op <=? OpcodeI64Store32) then keep cs (memoryAccess op pc s)
  else if (OpcodeMemorySize <=? op) && (op <=? OpcodeMemoryGrow) then keep cs (memorySizeGrow op pc s)
  else if (OpcodeI32Const <=? op) && (op <=? OpcodeF64Const) then keep cs (constant op pc s)
  else if (OpcodeLocalGet <=? op) && (op <=? OpcodeGlobalSet) then keep cs (variable op pc s)
  else if op =? OpcodeBr then keep cs (br pc s cs)
  else if op =? OpcodeBrIf then keep cs (br_if pc s cs)
  else if op =? OpcodeBrTable then keep cs (br_table pc s cs)
  else if op =? OpcodeCall then keep cs (call pc s)
  else if op =? OpcodeCallIndirect then keep cs (call_indirect pc s)
  else if (OpcodeI32Eqz <=? op) && (op <=? OpcodeI64Extend32S) then keep cs (numeric op pc s)
  else if (OpcodeRefNull <=? op) && (op <=? OpcodeRefFunc) then keep cs (reference op pc s)
  else if (op =? OpcodeTableGet) || (op =? OpcodeTableSet) then keep cs (tableGetSet op pc s)
  else if op =? OpcodeMiscPrefix then keep cs (misc pc s)
  else if op =? OpcodeVecPrefix then keep cs (vector pc s)
  else if op =? OpcodeBlock then enter op pc s cs
  else if op =? OpcodeAtomicPrefix then keep cs (atomic pc s)
  else if op =? OpcodeLoop then enter op pc s cs
  else if op =? OpcodeIf then enter op pc s cs
  else if op =? OpcodeElse then else_ pc s cs
  else if op =? OpcodeEnd then end_ pc s cs
  else if op =? OpcodeReturn then keep cs (let! s := return_ s in Ok (pc, s))
  else if op =? OpcodeDrop then keep cs (let! (_, s) := pop s in Ok (pc, s))
  else if (op =? OpcodeSelect) || (op =? OpcodeTypedSelect) then keep cs (select op pc s)
  else if op =? OpcodeUnreachable then keep cs (let! s := unreachable s in Ok (pc, s))
  else if op =? OpcodeNop then Ok (pc, s, cs)
  else Err (Invalid "invalid instruction").

Fixpoint walk (fuel : nat) (pc : Z) (s : valueTypeStack) (cs : list controlBlock)
  : result val_err (valueTypeStack * list controlBlock) :=
  match fuel with
  | O => Err NoFuel
  | S fuel =>
      if pc <? len body then
        let! op := at_ body pc in
        reject len cs =? 0 as Invalid "unexpected end of function" ;;
        let! (pc, s, cs) := instruction op pc s cs in
        walk fuel (pc + 1) s cs
      else Ok (s, cs)
  end.

End body.

(** ** [validateFunctionWithMaxStackValues] *)
Section module.
Context (m : Module') (enabledFeatures : Z) (functions : list Z) (globals : list GlobalType)
  (memory : option Memory) (tables : list Table) (declaredFunctionIndexes : gset Z).

(** Every instruction moves [pc] forward. *)
Definition validateFunctionWithMaxStackValues (idx maxStackValues : Z) : result val_err unit :=
  let! typeIndex := at_ (FunctionSection m) idx in
  let! functionType := at_ (TypeSection m) typeIndex in
  let! code := at_ (CodeSection m) idx in
  let body := co_Body code in
  let '(s, cs) := reset functionType in
  let! (s, cs) :=
    walk m enabledFeatures functions globals memory tables declaredFunctionIndexes
      functionType (co_LocalTypes code) body (S (length body)) 0 s cs in
  reject 0 <? len cs as Invalid "ill-nested block exists" ;;
  reject maxStackValues <? maximumStackPointer s as Invalid "function may exceed the stack limit" ;;
  Ok tt.

Definition validateFunction (idx : Z) : result val_err unit :=
  validateFunctionWithMaxStackValues idx maximumValuesOnStack.

End module.


End FuncValidation.
