(* ===== verification/WasmModule.v ===== *)
(** * Module validation: [internal/wasm/module.go], [counts.go] and the
    validation of [table.go]

    [Validate] and what it calls, on the module the decoder returns.  A decoded
    code entry has no [GoFunc], so every function body is validated; a missing
    code section and an empty one are the same list.  Function bodies are
    [FuncValidation]. *)
From S2P Require Import Prelude Leb128 GoStd Opcodes WasmBinary ValidationTables FuncValidation.

Module WasmModule.
Import WasmBinary.
Export FuncValidation.

Definition MaximumGlobals : Z := Z.shiftl 1 27.
Definition MaximumTableIndex : Z := Z.shiftl 1 27.

(** ** Counting *)

(** The number of 64-bit words values of these types take: two for a vector. *)
Definition numInUint64 (ts : list Z) : Z :=
  fold_left (fun n tp => if tp =? ValueTypeV128 then n + 1 + 1 else n + 1) ts 0.
Definition CacheNumInUint64 (f : FunctionType) : Z * Z :=
  (numInUint64 (ft_Params f), numInUint64 (ft_Results f)).

Definition EqualsSignature (f : FunctionType) (params results : list Z) : bool :=
  bool_decide (ft_Params f = params) && bool_decide (ft_Results f = results).

Definition SplitCallStack (ft : FunctionType) (stack : list Z) : result val_err (list Z * list Z) :=
  let (p, r) := CacheNumInUint64 ft in
  reject len stack <? p as Invalid "need more params than the stack size" ;;
  let params := take (Z.to_nat p) stack in
  reject len stack <? r as Invalid "need more results than the stack size" ;;
  Ok (params, take (Z.to_nat r) stack).

Definition SectionElementCount (m : Module') (sectionID : Z) : result val_err Z :=
  match sectionID with
  | 0 => Ok (u32 (u32 (len (CustomSections m)) +
                  match NameSec m with Some _ => 1 | None => 0 end))
  | 1 => Ok (u32 (len (TypeSection m)))
  | 2 => Ok (u32 (len (ImportSection m)))
  | 3 => Ok (u32 (len (FunctionSection m)))
  | 4 => Ok (u32 (len (TableSection m)))
  | 5 => Ok (match MemorySection m with Some _ => 1 | None => 0 end)
  | 6 => Ok (u32 (len (GlobalSection m)))
  | 7 => Ok (u32 (len (ExportSection m)))
  | 8 => Ok (match StartSection m with Some _ => 1 | None => 0 end)
  | 9 => Ok (u32 (len (ElementSection m)))
  | 10 => Ok (u32 (len (CodeSection m)))
  | 11 => Ok (u32 (len (DataSection m)))
  | _ => Err (Panic "BUG: unknown section")
  end.

(** ** Index spaces *)
Record declarations : Type := mkDecls {
  d_functions : list Z; d_globals : list GlobalType; d_memory : option Memory;
  d_tables : list Table }.

Definition declare_import (d : declarations) (imp : Import) : declarations :=
  if im_Type imp =? ExternTypeFunc then
    mkDecls (d_functions d ++ [im_DescFunc imp]) (d_globals d) (d_memory d) (d_tables d)
  else if im_Type imp =? ExternTypeGlobal then
    mkDecls (d_functions d) (d_globals d ++ [im_DescGlobal imp]) (d_memory d) (d_tables d)
  else if im_Type imp =? ExternTypeMemory then
    mkDecls (d_functions d) (d_globals d) (im_DescMem imp) (d_tables d)
  else if im_Type imp =? ExternTypeTable then
    mkDecls (d_functions d) (d_globals d) (d_memory d) (d_tables d ++ [im_DescTable imp])
  else d.

Definition AllDeclarations (m : Module') : result val_err declarations :=
  let d := fold_left declare_import (ImportSection m) (mkDecls [] [] None []) in
  let functions := d_functions d ++ FunctionSection m in
  let globals := d_globals d ++ (gl_Type <$> GlobalSection m) in
  let! memory :=
    match MemorySection m, d_memory d with
    | Some _, Some _ => Err (Invalid "at most one table allowed in module")
    | Some mem, None => Ok (Some mem)
    | None, mem => Ok mem
    end in
  Ok (mkDecls functions globals memory (d_tables d ++ TableSection m)).

(** The function-import loop of [typeOfFunction], with [cur] imports passed. *)
Fixpoint importedType (types : list FunctionType) (funcIdx cur : Z) (imports : list Import)
  : option (option FunctionType) :=
  match imports with
  | [] => None
  | imp :: imports =>
      if negb (im_Type imp =? ExternTypeFunc) then importedType types funcIdx cur imports
      else if funcIdx =? cur then
        Some (if u32 (len types) <=? im_DescFunc imp then None
              else types !! Z.to_nat (im_DescFunc imp))
      else importedType types funcIdx (u32 (cur + 1)) imports
  end.

(** [None] is Go's [nil]. *)
Definition typeOfFunction (m : Module') (funcIdx : Z) : option FunctionType :=
  let defined :=
    let funcSectionIdx := u32 (funcIdx - ImportFunctionCount m) in
    if u32 (len (FunctionSection m)) <=? funcSectionIdx then None else
    match FunctionSection m !! Z.to_nat funcSectionIdx with
    | None => None
    | Some typeIdx =>
        if u32 (len (TypeSection m)) <=? typeIdx then None
        else TypeSection m !! Z.to_nat typeIdx
    end in
  if funcIdx <? ImportFunctionCount m then
    match importedType (TypeSection m) funcIdx 0 (ImportSection m) with
    | Some found => found
    | None => defined
    end
  else defined.

(** ** Constant expressions *)
Definition validateConstExpression (globals : list GlobalType) (numFuncs : Z)
  (expr : ConstantExpression) (expectedType : Z) : result val_err unit :=
  let op := ce_Opcode expr in
  let! actualType :=
    (if op =? OpcodeI32Const then
       let! _ := map_err (Immediate "read i32") (Leb128.LoadInt32 (ce_Data expr)) in Ok ValueTypeI32
     else if op =? OpcodeI64Const then
       let! _ := map_err (Immediate "read i64") (Leb128.LoadInt64 (ce_Data expr)) in Ok ValueTypeI64
     else if op =? OpcodeF32Const then
       reject len (ce_Data expr) <? 4 as Invalid "read f32" ;; Ok ValueTypeF32
     else if op =? OpcodeF64Const then
       reject len (ce_Data expr) <? 8 as Invalid "read f64" ;; Ok ValueTypeF64
     else if op =? OpcodeGlobalGet then
       let! (id, _) := map_err (Immediate "read index of global") (Leb128.LoadUint32 (ce_Data expr)) in
       reject u32 (len globals) <=? id as Invalid "global index out of range" ;;
       let! g := at_ globals id in Ok (gt_ValType g)
     else if op =? OpcodeRefNull then
       reject len (ce_Data expr) =? 0 as Invalid "read reference type for ref.null" ;;
       let! reftype := at_ (ce_Data expr) 0 in
       reject negb (reftype =? RefTypeFuncref) && negb (reftype =? RefTypeExternref)
         as Invalid "invalid type for ref.null" ;;
       Ok reftype
     else if op =? OpcodeRefFunc then
       let! (index, _) := map_err (Immediate "read i32") (Leb128.LoadUint32 (ce_Data expr)) in
       reject numFuncs <=? index as Invalid "ref.func index out of range" ;;
       Ok ValueTypeFuncref
     else if op =? OpcodeVecV128Const then
       reject negb (len (ce_Data expr) =? 16) as Invalid "v128.const needs 16 bytes" ;;
       Ok ValueTypeV128
     else Err (Invalid "invalid opcode for const expression")) in
  reject negb (actualType =? expectedType) as Mismatch expectedType actualType ;;
  Ok tt.

(** ** The checks of [Validate] *)
Section validate.
Context (m : Module') (enabledFeatures : Z).

Definition validateStartSection : result val_err unit :=
  match StartSection m with
  | None => Ok tt
  | Some startIndex =>
      match typeOfFunction m startIndex with
      | None => Err (Invalid "invalid start function: invalid type")
      | Some ft =>
          reject (0 <? len (ft_Params ft)) || (0 <? len (ft_Results ft))
            as Invalid "invalid start function: must have an empty signature" ;;
          Ok tt
      end
  end.

(** [globals[:m.ImportGlobalCount]]. *)
Definition importedGlobals (globals : list GlobalType) : result val_err (list GlobalType) :=
  if len globals <? ImportGlobalCount m then Err (Panic "slice bounds out of range")
  else Ok (take (Z.to_nat (ImportGlobalCount m)) globals).

Definition validateGlobals (globals : list GlobalType) (numFuncts maxGlobals : Z)
  : result val_err unit :=
  reject maxGlobals <? u32 (len globals) as Invalid "too many globals in a module" ;;
  let! imported := importedGlobals globals in
  each (fun g => validateConstExpression imported numFuncts (gl_Init g) (gt_ValType (gl_Type g)))
    (GlobalSection m).

Definition declaredFunctionIndexes : result val_err (gset Z) :=
  let ret : gset Z :=
    list_to_set (ex_Index <$> filter (fun exp => ex_Type exp = ExternTypeFunc) (ExportSection m)) in
  let! ret :=
    foldm (fun (ret : gset Z) g =>
      if ce_Opcode (gl_Init g) =? OpcodeRefFunc then
        let! (index, _) := map_err (Immediate "global failed to initialize")
                             (Leb128.LoadUint32 (ce_Data (gl_Init g))) in
        Ok ({[ index ]} ∪ ret)
      else Ok ret) ret (GlobalSection m) in
  Ok (ret ∪ list_to_set (filter (fun index => index ≠ ElementInitNullReference)
                            (concat (el_Init <$> ElementSection m)))).

(** One turn of the loop over the function section. *)
Definition validateOne (declared : gset Z) (d : declarations) (typeCount : Z) (f : nat * Z)
  : result val_err unit :=
  let '(idx, typeIndex) := f in
  reject typeCount <=? typeIndex as InFunction (Z.of_nat idx) (Invalid "type section index out of range") ;;
  match validateFunction m enabledFeatures (d_functions d) (d_globals d) (d_memory d) (d_tables d)
          declared (Z.of_nat idx) with
  | Err (Panic what) => Err (Panic what)
  | Err e => Err (InFunction (Z.of_nat idx) e)
  | Ok _ => Ok tt
  end.

Definition validateFunctions (d : declarations) (maximumFunctionIndex : Z) : result val_err unit :=
  reject maximumFunctionIndex <? u32 (len (d_functions d)) as Invalid "too many functions in a module" ;;
  let! functionCount := SectionElementCount m 3 in
  let! codeCount := SectionElementCount m 10 in
  if (functionCount =? 0) && (codeCount =? 0) then Ok tt else
  let! typeCount := SectionElementCount m 1 in
  reject negb (codeCount =? functionCount) as Invalid "code count != function count" ;;
  let! declared := declaredFunctionIndexes in
  each (validateOne declared d typeCount) (imap pair (FunctionSection m)).

Definition validateMemory (memory : option Memory) (globals : list GlobalType) : result val_err unit :=
  let active := filter (fun d => da_Passive d = false) (DataSection m) in
  reject (0 <? len active) && negb (bool_decide (is_Some memory)) as Invalid "unknown memory" ;;
  let! imported := importedGlobals globals in
  each (fun d => validateConstExpression imported 0 (da_OffsetExpression d) ValueTypeI32) active.

Definition validateImports : result val_err unit :=
  each (fun imp =>
    reject bool_decide (im_Module imp = []) as Invalid "import has an empty module name" ;;
    if im_Type imp =? ExternTypeFunc then
      reject len (TypeSection m) <=? im_DescFunc imp as Invalid "invalid import function: type index out of range" ;;
      Ok tt
    else if im_Type imp =? ExternTypeGlobal then
      if negb (gt_Mutable (im_DescGlobal imp)) then Ok tt
      else requireEnabled enabledFeatures CoreFeatureMutableGlobal
    else Ok tt) (ImportSection m).

Definition validateExports (d : declarations) : result val_err unit :=
  each (fun exp =>
    let index := ex_Index exp in
    if ex_Type exp =? ExternTypeFunc then
      reject u32 (len (d_functions d)) <=? index as Invalid "unknown function for export" ;; Ok tt
    else if ex_Type exp =? ExternTypeGlobal then
      reject u32 (len (d_globals d)) <=? index as Invalid "unknown global for export" ;;
      let! g := at_ (d_globals d) index in
      if negb (gt_Mutable g) then Ok tt
      else requireEnabled enabledFeatures CoreFeatureMutableGlobal
    else if ex_Type exp =? ExternTypeMemory then
      reject (0 <? index) || negb (bool_decide (is_Some (d_memory d)))
        as Invalid "memory for export out of range" ;; Ok tt
    else if ex_Type exp =? ExternTypeTable then
      reject u32 (len (d_tables d)) <=? index as Invalid "table for export out of range" ;; Ok tt
    else Ok tt) (ExportSection m).

Definition validateDataCountSection : result val_err unit :=
  match DataCountSection m with
  | Some n => reject negb (n =? len (DataSection m))
                as Invalid "data count section doesn't match the length of data section" ;; Ok tt
  | None => Ok tt
  end.

(** ** [validateTable] *)
Definition checkSegmentBounds (min requireMin : Z) : result val_err unit :=
  reject min <? requireMin as Invalid "init exceeds min table size" ;; Ok tt.

(** [ig] is the index of the last imported global passed, [MaxUint32] at first. *)
Fixpoint verifyImportGlobalI32 (ig idx : Z) (imports : list Import) : result val_err unit :=
  match imports with
  | [] => Err (Invalid "out of range of imported globals")
  | imp :: imports =>
      if im_Type imp =? ExternTypeGlobal then
        let ig := u32 (ig + 1) in
        if ig =? idx then
          reject negb (gt_ValType (im_DescGlobal imp) =? ValueTypeI32) as Invalid "global.ValType != i32" ;;
          Ok tt
        else verifyImportGlobalI32 ig idx imports
      else verifyImportGlobalI32 ig idx imports
  end.

Definition validateInit (elemType funcCount globalsCount init : Z) : result val_err unit :=
  if init =? ElementInitNullReference then Ok tt else
  match unwrapElementInitGlobalReference init with
  | (index, true) => reject globalsCount <=? index as Invalid "global index out of range" ;; Ok tt
  | (index, false) =>
      reject elemType =? RefTypeExternref as Invalid "must be ref.null" ;;
      reject funcCount <=? index as Invalid "func index out of range" ;; Ok tt
  end.

Definition validateElement (tables : list Table) (funcCount globalsCount : Z) (elem : ElementSegment)
  : result val_err unit :=
  let initCount := u32 (len (el_Init elem)) in
  let! _ := each (validateInit (el_Type elem) funcCount globalsCount) (el_Init elem) in
  match el_Mode elem with
  | ElementModeActive =>
      reject len tables <=? el_TableIndex elem as Invalid "unknown table as active element target" ;;
      let! t := at_ tables (el_TableIndex elem) in
      reject negb (tb_Type t =? el_Type elem) as Invalid "element type mismatch" ;;
      let oc := ce_Opcode (el_OffsetExpr elem) in
      if oc =? OpcodeGlobalGet then
        let! (globalIdx, _) := map_err (Immediate "couldn't read global.get parameter")
                                 (Leb128.LoadUint32 (ce_Data (el_OffsetExpr elem))) in
        verifyImportGlobalI32 (2 ^ 32 - 1) globalIdx (ImportSection m)
      else if oc =? OpcodeI32Const then
        if negb (IsEnabled enabledFeatures CoreFeatureReferenceTypes) &&
           (ImportTableCount m <=? el_TableIndex elem) then
          let! (o, _) := map_err (Immediate "couldn't read i32.const parameter")
                           (Leb128.LoadInt32 (ce_Data (el_OffsetExpr elem))) in
          checkSegmentBounds (tb_Min t) (initCount + u32 o)
        else Ok tt
      else Err (Invalid "invalid const expression")
  | _ => Ok tt
  end.

Definition validateTable (tables : list Table) (maximumTableIndex : Z) : result val_err unit :=
  reject maximumTableIndex <? len tables as Invalid "too many tables in a module" ;;
  let! functionCount := SectionElementCount m 3 in
  let! globalCount := SectionElementCount m 6 in
  let funcCount := u32 (ImportFunctionCount m + functionCount) in
  let globalsCount := u32 (ImportGlobalCount m + globalCount) in
  each (validateElement tables funcCount globalsCount) (ElementSection m).

(** A code section that is present but empty is taken as absent: on a decoded
    module, which has as many functions as bodies, [validateFunctions] could
    then only refuse more than [MaximumFunctionIndex] imported functions. *)
Definition Validate : result val_err unit :=
  let! _ := validateStartSection in
  let! d := AllDeclarations m in
  let! _ := validateImports in
  let! _ := validateGlobals (d_globals d) (u32 (len (d_functions d))) MaximumGlobals in
  let! _ := validateMemory (d_memory d) (d_globals d) in
  let! _ := validateExports d in
  let! _ := match CodeSection m with
            | [] => Ok tt
            | _ => validateFunctions d MaximumFunctionIndex
            end in
  let! _ := validateTable (d_tables d) MaximumTableIndex in
  validateDataCountSection.

End validate.

End WasmModule.
