(* ===== verification/FuncTyping.v ===== *)
(** * The type system of function bodies

    The rules of the WebAssembly specification that [FuncValidation]
    implements, stated without its stacks: signatures by opcode number, the
    instructions without control flow ([plain]), structured instructions
    ([instr]) with the bytes they are written as, and typing as relations
    ([instr_ok], [seq_ok]).  Operand stacks are lists of types with the top
    first; [valueTypeUnknown] is the bottom type of unreachable code.

    Features are not part of the system (they only refuse more), nor are
    alignments, which have no effect on execution. *)
From S2P Require Import Prelude Leb128 GoStd Opcodes WasmBinary ValidationTables FuncValidation.

Module FuncTyping.
Import WasmBinary FuncValidation.

Notation i32t := ValueTypeI32 (only parsing).
Notation i64t := ValueTypeI64 (only parsing).
Notation f32t := ValueTypeF32 (only parsing).
Notation f64t := ValueTypeF64 (only parsing).
Notation v128t := ValueTypeV128 (only parsing).

(** ** Signatures by number

    The operands are listed top first. *)
Definition nth_from {A} (base op : Z) (l : list A) : option A :=
  if op <? base then None else l !! Z.to_nat (op - base).

(** Loads and stores: type and bytes accessed. *)
Definition loads : list (Z * Z) :=
  [(i32t, 4); (i64t, 8); (f32t, 4); (f64t, 8); (i32t, 1); (i32t, 1); (i32t, 2); (i32t, 2);
   (i64t, 1); (i64t, 1); (i64t, 2); (i64t, 2); (i64t, 4); (i64t, 4)].
Definition stores : list (Z * Z) :=
  [(i32t, 4); (i64t, 8); (f32t, 4); (f64t, 8); (i32t, 1); (i32t, 2); (i64t, 1); (i64t, 2); (i64t, 4)].
Definition memory_spec (op : Z) : option (Z * list Z * list Z) :=
  match nth_from 0x28 op loads, nth_from 0x36 op stores with
  | Some (t, w), _ => Some (w, [i32t], [t])
  | None, Some (t, w) => Some (w, [t; i32t], [])
  | None, None => None
  end.

Definition conversions : list (Z * Z) :=
  [(i64t, i32t); (f32t, i32t); (f32t, i32t); (f64t, i32t); (f64t, i32t); (i32t, i64t); (i32t, i64t);
   (f32t, i64t); (f32t, i64t); (f64t, i64t); (f64t, i64t); (i32t, f32t); (i32t, f32t); (i64t, f32t);
   (i64t, f32t); (f64t, f32t); (i32t, f64t); (i32t, f64t); (i64t, f64t); (i64t, f64t); (f32t, f64t);
   (f32t, i32t); (f64t, i64t); (i32t, f32t); (i64t, f64t)].
Definition numeric_spec (op : Z) : option (list Z * list Z) :=
  let unary t r := Some ([t], [r]) in
  let binary t r := Some ([t; t], [r]) in
  if op =? 0x45 then unary i32t i32t
  else if in_range 0x46 0x4f op then binary i32t i32t
  else if op =? 0x50 then unary i64t i32t
  else if in_range 0x51 0x5a op then binary i64t i32t
  else if in_range 0x5b 0x60 op then binary f32t i32t
  else if in_range 0x61 0x66 op then binary f64t i32t
  else if in_range 0x67 0x69 op then unary i32t i32t
  else if in_range 0x6a 0x78 op then binary i32t i32t
  else if in_range 0x79 0x7b op then unary i64t i64t
  else if in_range 0x7c 0x8a op then binary i64t i64t
  else if in_range 0x8b 0x91 op then unary f32t f32t
  else if in_range 0x92 0x98 op then binary f32t f32t
  else if in_range 0x99 0x9f op then unary f64t f64t
  else if in_range 0xa0 0xa6 op then binary f64t f64t
  else if in_range 0xc0 0xc1 op then unary i32t i32t
  else if in_range 0xc2 0xc4 op then unary i64t i64t
  else match nth_from 0xa7 op conversions with
       | Some (t, r) => unary t r
       | None => None
       end.

(** Vector instructions without an immediate: the gaps are unassigned. *)
Definition vec_spec (op : Z) : option (list Z * list Z) :=
  let any := existsb (fun '(lo, hi) => in_range lo hi op) in
  if any [(0x53, 0x53); (0x63, 0x64); (0x83, 0x84); (0xa3, 0xa4); (0xc3, 0xc4)]
  then Some ([v128t], [i32t])
  else if any [(0x6b, 0x6d); (0x8b, 0x8d); (0xab, 0xad); (0xcb, 0xcd)]
  then Some ([i32t; v128t], [v128t])
  else if op =? 0x52 then Some ([v128t; v128t; v128t], [v128t])
  else if any [(0x4d, 0x4d); (0x5e, 0x62); (0x67, 0x6a); (0x74, 0x75); (0x7a, 0x7a); (0x7c, 0x81);
               (0x87, 0x8a); (0x94, 0x94); (0xa0, 0xa1); (0xa7, 0xaa); (0xc0, 0xc1); (0xc7, 0xca);
               (0xe0, 0xe1); (0xe3, 0xe3); (0xec, 0xed); (0xef, 0xef); (0xf8, 0xff)]
  then Some ([v128t], [v128t])
  else if any [(0x0e, 0x0e); (0x23, 0x4c); (0x4e, 0x51); (0x65, 0x66); (0x6e, 0x73); (0x76, 0x79);
               (0x7b, 0x7b); (0x82, 0x82); (0x85, 0x86); (0x8e, 0x93); (0x95, 0x99); (0x9b, 0x9f);
               (0xae, 0xae); (0xb1, 0xb1); (0xb5, 0xba); (0xbc, 0xbf); (0xce, 0xce); (0xd1, 0xd1);
               (0xd5, 0xdf); (0xe4, 0xeb); (0xf0, 0xf7)]
  then Some ([v128t; v128t], [v128t])
  else None.

(** Atomic instructions: bytes accessed, operands, results. *)
Definition atomic_widths : list (Z * Z) :=
  [(i32t, 4); (i64t, 8); (i32t, 1); (i32t, 2); (i64t, 1); (i64t, 2); (i64t, 4)].
Definition atomic_spec (op : Z) : option (Z * list Z * list Z) :=
  if op =? 0x00 then Some (4, [i32t; i32t], [i32t])
  else if op =? 0x01 then Some (4, [i64t; i32t; i32t], [i32t])
  else if op =? 0x02 then Some (8, [i64t; i64t; i32t], [i32t])
  else if (op <? 0x10) || (0x4e <? op) then None
  else match atomic_widths !! Z.to_nat ((op - 0x10) mod 7) with
       | None => None
       | Some (t, w) =>
           if op <? 0x17 then Some (w, [i32t], [t])
           else if op <? 0x1e then Some (w, [t; i32t], [])
           else if op <? 0x48 then Some (w, [t; i32t], [t])
           else Some (w, [t; t; i32t], [t])
       end.

(** Lanes: the number of lanes and the scalar type. *)
Definition extract_spec (op : Z) : option (Z * Z) :=
  match nth_from 0x15 op
    [Some (16, i32t); Some (16, i32t); None; Some (8, i32t); Some (8, i32t); None;
     Some (4, i32t); None; Some (2, i64t); None; Some (4, f32t); None; Some (2, f64t)] with
  | Some r => r | None => None end.
Definition replace_spec (op : Z) : option (Z * Z) :=
  match nth_from 0x17 op
    [Some (16, i32t); None; None; Some (8, i32t); None; Some (4, i32t); None; Some (2, i64t); None;
     Some (4, f32t); None; Some (2, f64t)] with
  | Some r => r | None => None end.
Definition splat_spec (op : Z) : option Z := nth_from 0x0f op [i32t; i32t; i32t; i64t; f32t; f64t].
Definition load_lane_spec (op : Z) : option Z := nth_from 0x54 op [16; 8; 4; 2].
Definition store_lane_spec (op : Z) : option Z := nth_from 0x58 op [16; 8; 4; 2].
Definition vec_load_spec (op : Z) : bool := in_range 0x00 0x0a op || in_range 0x5c 0x5d op.
(** The bytes a vector load accesses. *)
Definition vec_load_width (op : Z) : Z :=
  default 0 (nth_from 0x00 op [16; 8; 8; 8; 8; 8; 8; 1; 2; 4; 8] ∪ nth_from 0x5c op [4; 8]).
Definition trunc_spec (op : Z) : option (Z * Z) :=
  nth_from 0x00 op [(f32t, i32t); (f32t, i32t); (f64t, i32t); (f64t, i32t);
                    (f32t, i64t); (f32t, i64t); (f64t, i64t); (f64t, i64t)].

(** ** The source's tables are these *)
Definition drop_feature (c : option (option Z * list Z * list Z)) : option (list Z * list Z) :=
  match c with Some (_, ps, rs) => Some (ps, rs) | None => None end.
Definition drop_alignment (c : option (alignment * list Z * list Z)) : option (Z * list Z * list Z) :=
  match c with Some (AtMost w, ps, rs) | Some (Exactly w, ps, rs) => Some (w, ps, rs) | None => None end.

Definition tables_agree_at (op : Z) : bool :=
  bool_decide (memory_case op = memory_spec op) &&
  bool_decide (drop_feature (numeric_case op) = numeric_spec op) &&
  bool_decide (vec_case op = vec_spec op) &&
  bool_decide (drop_alignment (atomic_case op) = atomic_spec op) &&
  bool_decide (vecExtractLanes op = extract_spec op) &&
  bool_decide (vecReplaceLanes op = replace_spec op) &&
  bool_decide (vecSplatValueTypes op = splat_spec op) &&
  bool_decide (snd <$> vecLoadLanes op = load_lane_spec op) &&
  bool_decide (snd <$> vecStoreLanes op = store_lane_spec op) &&
  bool_decide (oneof op vecLoads = vec_load_spec op) &&
  bool_decide (truncSat_case op = trunc_spec op).

Lemma tables_agree_all op : is_byte op -> tables_agree_at op = true.
Proof.
  intros H. apply (zrange_forallb tables_agree_at 0 256); [|done].
  vm_cast_no_check (@eq_refl bool true).
Qed.
(** C28: The operands and results that the several hundred cases of the
    validator's switches write out, by name of opcode, are those of the
    specification's tables by number, on every byte: a byte has a case exactly
    when it is assigned. *)
Theorem signatures_agree op : is_byte op ->
  memory_case op = memory_spec op /\ drop_feature (numeric_case op) = numeric_spec op /\
  vec_case op = vec_spec op /\ drop_alignment (atomic_case op) = atomic_spec op /\
  vecExtractLanes op = extract_spec op /\ vecReplaceLanes op = replace_spec op /\
  vecSplatValueTypes op = splat_spec op /\ (snd <$> vecLoadLanes op) = load_lane_spec op /\
  (snd <$> vecStoreLanes op) = store_lane_spec op /\ oneof op vecLoads = vec_load_spec op /\
  truncSat_case op = trunc_spec op.
Proof.
  intros H%tables_agree_all. unfold tables_agree_at in H. rewrite !andb_true_iff, !bool_decide_eq_true in H.
  by destruct_and!.
Qed.
Lemma signatures_agree_witness : drop_feature (numeric_case OpcodeI32Add) = Some ([i32t; i32t], [i32t]).
Proof.
  destruct (signatures_agree OpcodeI32Add) as (_ & H & _); [unfold is_byte, OpcodeI32Add; lia|].
  rewrite H. reflexivity.
Defined.
(** ** Instructions without control flow

    [plain bs ps rs]: the bytes [bs] are one instruction that pops [ps], the
    top first, and pushes [rs], the deepest first.

    With [strict], the rules are those of the specification.  Without it they
    are what the validator of the source checks, which is less in three places:
    an alignment from 31 on, where the source's shift can wrap, is not compared
    with the width of the access, and an atomic access may be aligned to less
    than its width; the index of [ref.func] may be one that is not a function's;
    and the annotation of a typed [select] is not compared with its operands. *)
Section typing.
Context (strict : bool) (m : Module') (functions : list Z) (globals : list GlobalType) (memory : option Memory)
  (tables : list Table) (declared : gset Z) (functionType : FunctionType) (localTypes : list Z).

Definition leb_u32 (bs : list Z) (v : Z) : Prop := Leb128.LoadUint32 bs = Ok (v, len bs).
Definition locals : list Z := ft_Params functionType ++ localTypes.
(** A memory argument: alignment and offset. *)
Definition memarg (fits : Z -> Prop) (bs : list Z) : Prop :=
  exists a o align offset, bs = a ++ o /\ leb_u32 a align /\ leb_u32 o offset /\ fits align.
(** The alignment is at most the [w] bytes of the access, or exactly these. *)
Definition at_most (w align : Z) : Prop := (strict = true \/ align < 31) -> 2 ^ align <= w.
Definition natural (w align : Z) : Prop := at_most w align /\ (strict = true -> 2 ^ align = w).
Definition has_memory : Prop := is_Some memory.
Definition zero_byte (bs : list Z) : Prop := leb_u32 bs 0 /\ len bs = 1.

(** Bulk memory and table instructions, by their number. *)
Inductive bulk : Z -> list Z -> list Z -> list Z -> Prop :=
| bulk_memory_init x i z :
    has_memory -> is_Some (DataCountSection m) -> leb_u32 x i -> i < len (DataSection m) ->
    zero_byte z -> bulk 0x08 (x ++ z) [i32t; i32t; i32t] []
| bulk_data_drop x i :
    is_Some (DataCountSection m) -> leb_u32 x i -> i < len (DataSection m) -> bulk 0x09 x [] []
| bulk_memory_copy z z' :
    has_memory -> zero_byte z -> zero_byte z' -> bulk 0x0a (z ++ z') [i32t; i32t; i32t] []
| bulk_memory_fill z : has_memory -> zero_byte z -> bulk 0x0b z [i32t; i32t; i32t] []
| bulk_table_init x e y t elem tab :
    leb_u32 x e -> leb_u32 y t -> ElementSection m !! Z.to_nat e = Some elem ->
    tables !! Z.to_nat t = Some tab -> el_Type elem = tb_Type tab ->
    bulk 0x0c (x ++ y) [i32t; i32t; i32t] []
| bulk_elem_drop x e elem :
    leb_u32 x e -> ElementSection m !! Z.to_nat e = Some elem -> bulk 0x0d x [] []
| bulk_table_copy x d y s dst src :
    leb_u32 x d -> leb_u32 y s -> tables !! Z.to_nat d = Some dst -> tables !! Z.to_nat s = Some src ->
    tb_Type src = tb_Type dst -> bulk 0x0e (x ++ y) [i32t; i32t; i32t] []
| bulk_table_grow x t tab :
    leb_u32 x t -> tables !! Z.to_nat t = Some tab -> bulk 0x0f x [i32t; tb_Type tab] [i32t]
| bulk_table_size x t tab :
    leb_u32 x t -> tables !! Z.to_nat t = Some tab -> bulk 0x10 x [] [i32t]
| bulk_table_fill x t tab :
    leb_u32 x t -> tables !! Z.to_nat t = Some tab -> bulk 0x11 x [i32t; tb_Type tab; i32t] [].

(** Vector instructions: the byte after the prefix and its immediates. *)
Inductive vec : Z -> list Z -> list Z -> list Z -> Prop :=
| vec_const bs : len bs = 16 -> vec 0x0c bs [] [v128t]
| vec_numeric op ps rs : vec_spec op = Some (ps, rs) -> vec op [] ps rs
| vec_load op bs : has_memory -> memarg (at_most (vec_load_width op)) bs -> vec_load_spec op = true -> vec op bs [i32t] [v128t]
| vec_store bs : has_memory -> memarg (at_most 16) bs -> vec 0x0b bs [v128t; i32t] []
| vec_load_lane op bs lane n :
    has_memory -> memarg (at_most (16 / n)) bs -> load_lane_spec op = Some n -> lane < n ->
    vec op (bs ++ [lane]) [v128t; i32t] [v128t]
| vec_store_lane op bs lane n :
    has_memory -> memarg (at_most (16 / n)) bs -> store_lane_spec op = Some n -> lane < n ->
    vec op (bs ++ [lane]) [v128t; i32t] []
| vec_extract op lane n t :
    extract_spec op = Some (n, t) -> lane < n -> vec op [lane] [v128t] [t]
| vec_replace op lane n t :
    replace_spec op = Some (n, t) -> lane < n -> vec op [lane] [t; v128t] [v128t]
| vec_splat op t : splat_spec op = Some t -> vec op [] [t] [v128t]
| vec_shuffle lanes :
    len lanes = 16 -> Forall (fun l => l < 32) lanes -> vec 0x0d lanes [v128t; v128t] [v128t].

Inductive plain : list Z -> list Z -> list Z -> Prop :=
| plain_nop : plain [0x01] [] []
| plain_memory op bs w ps rs :
    has_memory -> memarg (at_most w) bs -> memory_spec op = Some (w, ps, rs) -> plain (op :: bs) ps rs
| plain_memory_size z : has_memory -> zero_byte z -> plain (0x3f :: z) [] [i32t]
| plain_memory_grow z : has_memory -> zero_byte z -> plain (0x40 :: z) [i32t] [i32t]
| plain_i32_const bs v : Leb128.LoadInt32 bs = Ok (v, len bs) -> plain (0x41 :: bs) [] [i32t]
| plain_i64_const bs v : Leb128.LoadInt64 bs = Ok (v, len bs) -> plain (0x42 :: bs) [] [i64t]
| plain_f32_const bs : len bs = 4 -> plain (0x43 :: bs) [] [f32t]
| plain_f64_const bs : len bs = 8 -> plain (0x44 :: bs) [] [f64t]
| plain_local_get bs i t : leb_u32 bs i -> locals !! Z.to_nat i = Some t -> plain (0x20 :: bs) [] [t]
| plain_local_set bs i t : leb_u32 bs i -> locals !! Z.to_nat i = Some t -> plain (0x21 :: bs) [t] []
| plain_local_tee bs i t : leb_u32 bs i -> locals !! Z.to_nat i = Some t -> plain (0x22 :: bs) [t] [t]
| plain_global_get bs i g :
    leb_u32 bs i -> globals !! Z.to_nat i = Some g -> plain (0x23 :: bs) [] [gt_ValType g]
| plain_global_set bs i g :
    leb_u32 bs i -> globals !! Z.to_nat i = Some g -> gt_Mutable g = true ->
    plain (0x24 :: bs) [gt_ValType g] []
| plain_call bs i ti ft :
    leb_u32 bs i -> functions !! Z.to_nat i = Some ti -> TypeSection m !! Z.to_nat ti = Some ft ->
    plain (0x10 :: bs) (rev (ft_Params ft)) (ft_Results ft)
| plain_call_indirect x ti y t ft tab :
    leb_u32 x ti -> leb_u32 y t -> TypeSection m !! Z.to_nat ti = Some ft ->
    tables !! Z.to_nat t = Some tab -> tb_Type tab = RefTypeFuncref ->
    plain (0x11 :: x ++ y) (i32t :: rev (ft_Params ft)) (ft_Results ft)
| plain_numeric op ps rs : numeric_spec op = Some (ps, rs) -> plain [op] ps rs
| plain_ref_null t : isReferenceValueType t = true -> plain [0xd0; t] [] [t]
| plain_ref_func bs i :
    leb_u32 bs i -> i ∈ declared -> (strict = true -> i < len functions) -> plain (0xd2 :: bs) [] [ValueTypeFuncref]
| plain_table_get bs t tab :
    leb_u32 bs t -> tables !! Z.to_nat t = Some tab -> plain (0x25 :: bs) [i32t] [tb_Type tab]
| plain_table_set bs t tab :
    leb_u32 bs t -> tables !! Z.to_nat t = Some tab -> plain (0x26 :: bs) [tb_Type tab; i32t] []
| plain_trunc_sat o op t r :
    leb_u32 o op -> trunc_spec op = Some (t, r) -> plain (0xfc :: o) [t] [r]
| plain_bulk o op bs ps rs : leb_u32 o op -> bulk op bs ps rs -> plain (0xfc :: o ++ bs) ps rs
| plain_vec op bs ps rs : vec op bs ps rs -> plain (0xfd :: op :: bs) ps rs
| plain_fence : plain [0xfe; 0x03; 0x00] [] []
| plain_atomic op bs w ps rs :
    has_memory -> memarg (natural w) bs -> atomic_spec op = Some (w, ps, rs) -> plain (0xfe :: op :: bs) ps rs.

(** ** Structured instructions

    [bs] are immediates as they are written. *)
Inductive instr : Type :=
| Plain (bs : list Z)
| Unreachable
| Return
| Drop
| Select
| TypedSelect (t : Z)
| RefIsNull
| Br (bs : list Z) (l : Z)
| BrIf (bs : list Z) (l : Z)
| BrTable (bs : list Z) (ls : list Z) (l : Z)
| Block (bs : list Z) (bt : FunctionType) (es : list instr)
| Loop (bs : list Z) (bt : FunctionType) (es : list instr)
| If (bs : list Z) (bt : FunctionType) (es : list instr)
| IfElse (bs : list Z) (bt : FunctionType) (es es' : list instr).

Fixpoint bytes (i : instr) : list Z :=
  match i with
  | Plain bs => bs
  | Unreachable => [0x00]
  | Return => [0x0f]
  | Drop => [0x1a]
  | Select => [0x1b]
  | TypedSelect t => [0x1c; 0x01; t]
  | RefIsNull => [0xd1]
  | Br bs _ => 0x0c :: bs
  | BrIf bs _ => 0x0d :: bs
  | BrTable bs _ _ => 0x0e :: bs
  | Block bs _ es => 0x02 :: bs ++ flat_map bytes es ++ [0x0b]
  | Loop bs _ es => 0x03 :: bs ++ flat_map bytes es ++ [0x0b]
  | If bs _ es => 0x04 :: bs ++ flat_map bytes es ++ [0x0b]
  | IfElse bs _ es es' => 0x04 :: bs ++ flat_map bytes es ++ 0x05 :: flat_map bytes es' ++ [0x0b]
  end.

(** The vector of labels of [br_table]: a count, the labels, the default. *)
Inductive leb_list : list Z -> list Z -> Prop :=
| leb_nil : leb_list [] []
| leb_cons b bs v vs : leb_u32 b v -> leb_list bs vs -> leb_list (b ++ bs) (v :: vs).
Definition br_table_bytes (bs ls : list Z) (l : Z) : Prop :=
  exists n k rest last, bs = n ++ rest ++ last /\ leb_u32 n k /\ Z.to_nat k = length ls /\
    leb_list rest ls /\ leb_u32 last l.

(** A block type: a negative number for at most one result, or a type index. *)
Definition block_type (bs : list Z) (bt : FunctionType) : Prop :=
  exists raw, Leb128.DecodeInt33AsInt64 (Leb128.buf_next bs) = Ok (raw, len bs) /\
    ((raw = -64 /\ bt = blockType_v_v) \/
     (exists t, In (raw, t) [(-1, i32t); (-2, i64t); (-3, f32t); (-4, f64t); (-5, v128t);
                             (-16, ValueTypeFuncref); (-17, ValueTypeExternref)] /\
        bt = blockType_v t) \/
     (0 <= raw /\ TypeSection m !! Z.to_nat raw = Some bt)).

(** ** Typing

    [subs ts us]: where [us] are expected, [ts] will do.  [labels] are the
    types a branch to each enclosing block passes, the innermost first, each
    list with the deepest first as block types are written. *)
Definition sub1 (t u : Z) : Prop := t = u \/ t = valueTypeUnknown.
Definition subs : list Z -> list Z -> Prop := Forall2 sub1.

Inductive instr_ok : list (list Z) -> instr -> list Z -> list Z -> Prop :=
| ok_plain L bs ps rs : plain bs ps rs -> instr_ok L (Plain bs) ps (rev rs)
| ok_unreachable L ts us : instr_ok L Unreachable ts us
| ok_return L ts us : instr_ok L Return (rev (ft_Results functionType) ++ ts) us
| ok_drop L t : instr_ok L Drop [t] []
| ok_select L t : isReferenceValueType t = false -> instr_ok L Select [i32t; t; t] [t]
| ok_typed_select L t ann : isValueType ann = true -> (strict = true -> t = ann) ->
    instr_ok L (TypedSelect ann) [i32t; t; t] [t]
| ok_ref_is_null L t :
    isReferenceValueType t = true \/ t = valueTypeUnknown -> instr_ok L RefIsNull [t] [i32t]
| ok_br L bs l label ts us :
    leb_u32 bs l -> L !! Z.to_nat l = Some label -> instr_ok L (Br bs l) (rev label ++ ts) us
| ok_br_if L bs l label :
    leb_u32 bs l -> L !! Z.to_nat l = Some label ->
    instr_ok L (BrIf bs l) (i32t :: rev label) (rev label)
| ok_br_table L bs ls l args ts us :
    br_table_bytes bs ls l ->
    Forall (fun l => exists label, L !! Z.to_nat l = Some label /\ subs args label) (l :: ls) ->
    instr_ok L (BrTable bs ls l) (i32t :: rev args ++ ts) us
| ok_block L bs bt es :
    block_type bs bt ->
    seq_ok (ft_Results bt :: L) es (rev (ft_Params bt)) (rev (ft_Results bt)) ->
    instr_ok L (Block bs bt es) (rev (ft_Params bt)) (rev (ft_Results bt))
| ok_loop L bs bt es :
    block_type bs bt ->
    seq_ok (ft_Params bt :: L) es (rev (ft_Params bt)) (rev (ft_Results bt)) ->
    instr_ok L (Loop bs bt es) (rev (ft_Params bt)) (rev (ft_Results bt))
| ok_if L bs bt es :
    block_type bs bt -> ft_Results bt = ft_Params bt ->
    seq_ok (ft_Results bt :: L) es (rev (ft_Params bt)) (rev (ft_Results bt)) ->
    instr_ok L (If bs bt es) (i32t :: rev (ft_Params bt)) (rev (ft_Results bt))
| ok_if_else L bs bt es es' :
    block_type bs bt ->
    seq_ok (ft_Results bt :: L) es (rev (ft_Params bt)) (rev (ft_Results bt)) ->
    seq_ok (ft_Results bt :: L) es' (rev (ft_Params bt)) (rev (ft_Results bt)) ->
    instr_ok L (IfElse bs bt es es') (i32t :: rev (ft_Params bt)) (rev (ft_Results bt))
(** A sequence: every instruction acts on the top of the stack ([ts] is the
    rest) and its results may be weakened. *)
with seq_ok : list (list Z) -> list instr -> list Z -> list Z -> Prop :=
| seq_nil L ts us : subs ts us -> seq_ok L [] ts us
| seq_snoc L es i ts0 ps rs ts us :
    seq_ok L es ts0 (ps ++ ts) -> instr_ok L i ps rs -> subs (rs ++ ts) us ->
    seq_ok L (es ++ [i]) ts0 us.

End typing.


End FuncTyping.
