(* ===== verification/FuncSoundness.v ===== *)
(** * Validation is sound

    The stacks of [FuncValidation] describe a partial derivation in the type
    system of [FuncTyping]: each control block holds a sequence of instructions
    that is typed up to the values above its limit ([zipper]).  Every
    instruction the validator accepts extends the derivation, and when the last
    block closes the whole body is typed. *)
From S2P Require Import Prelude Leb128 GoStd Opcodes WasmBinary ValidationTables FuncValidation FuncTyping.

Module FuncSoundness.
Import WasmBinary FuncValidation FuncTyping.

(** ** Subtyping *)
Lemma sub1_trans t u v : sub1 t u -> sub1 u v -> sub1 t v.
Proof. unfold sub1. intros [-> | ->] ?; auto. Qed.
Lemma subs_refl ts : subs ts ts.
Proof. apply Forall2_same_length_lookup_2; [done|]. intros i x y H1 H2. left. congruence. Qed.
Lemma subs_trans ts us vs : subs ts us -> subs us vs -> subs ts vs.
Proof.
  unfold subs. intros H. revert vs. induction H; intros vs H'; inversion H'; subst; constructor;
    eauto using sub1_trans.
Qed.
Lemma subs_app ts us ts' us' : subs ts us -> subs ts' us' -> subs (ts ++ ts') (us ++ us').
Proof. apply Forall2_app. Qed.
#[local] Hint Resolve subs_refl subs_app : core.

(** ** What a segment of the value stack stands for

    A segment whose deepest value is unknown stands for every stack with the
    same values above any values. *)
Definition den (seg ts : list Z) : Prop :=
  ts = seg \/ exists xs pre, seg = xs ++ [valueTypeUnknown] /\ ts = xs ++ pre.
Definition tidy (seg : list Z) : Prop :=
  valueTypeUnknown ∈ seg -> exists xs, seg = xs ++ [valueTypeUnknown].
Definition known (ts : list Z) : Prop := valueTypeUnknown ∉ ts.

Lemma den_refl seg : den seg seg.
Proof. by left. Qed.
Lemma den_unknown ts : den [valueTypeUnknown] ts.
Proof. right. by exists [], ts. Qed.

Lemma den_push v seg ts :
  (v = valueTypeUnknown -> seg <> []) -> den (v :: seg) ts -> exists ts', ts = v :: ts' /\ den seg ts'.
Proof.
  intros Hv [->|(xs & pre & E & ->)]; [exists seg; auto using den_refl|].
  destruct xs as [|x xs]; injection E as -> ->; [by destruct Hv|].
  exists (xs ++ pre). split; [done|]. right. eauto.
Qed.
Lemma den_pop v seg ts : den seg ts -> den (v :: seg) (v :: ts).
Proof.
  intros [->|(xs & pre & -> & ->)]; [by left|]. right. by exists (v :: xs), pre.
Qed.
Lemma tidy_tail v seg : tidy (v :: seg) -> seg <> [] -> tidy seg.
Proof.
  intros H Hne Hin. destruct (H (list_elem_of_further _ _ _ Hin)) as [[|x xs] E]; [|by simplify_eq/=; eauto].
  injection E as -> ->. done.
Qed.
Lemma tidy_push v seg : tidy seg -> (v = valueTypeUnknown -> valueTypeUnknown ∈ seg) -> tidy (v :: seg).
Proof.
  intros H Hv Hin. assert (valueTypeUnknown ∈ seg) as Hs.
  { apply elem_of_cons in Hin as [<-|?]; auto. }
  destruct (H Hs) as [xs ->]. by exists (v :: xs).
Qed.

Section soundness.
Context (m : Module') (enabledFeatures : Z) (functions : list Z) (globals : list GlobalType)
  (memory : option Memory) (tables : list Table) (declared : gset Z)
  (functionType : FunctionType) (localTypes body : list Z).

Notation instr_ok := (instr_ok false m functions globals memory tables declared functionType localTypes).
Notation seq_ok := (seq_ok false m functions globals memory tables declared functionType localTypes).
Notation plain := (plain false m functions globals memory tables declared functionType localTypes).

Lemma seq_weaken L es ts us vs : seq_ok L es ts us -> subs us vs -> seq_ok L es ts vs.
Proof.
  destruct 1; intros Hs; [constructor; by eapply subs_trans|].
  econstructor; [done..|]. by eapply subs_trans.
Qed.

(** ** The zipper *)
Definition labels (cs : list controlBlock) : list (list Z) := labelType <$> cs.

(** What a block takes from the sequence around it. *)
Definition hole (bl : controlBlock) : list Z :=
  (if oneof (cb_op bl) [OpcodeIf; OpcodeElse] then [ValueTypeI32] else []) ++
  rev (ft_Params (blockType bl)).

(** The bytes from the start of a block to its current sequence, [ts] being the
    sequence before [else]. *)
Definition opening (bl : controlBlock) (bs : list Z) (es : list instr) : list Z :=
  if cb_op bl =? OpcodeElse then 0x04 :: bs ++ flat_map bytes es ++ [0x05]
  else (if cb_op bl =? 0 then 0x02 else cb_op bl) :: bs.

Definition block_ok (L : list (list Z)) (bl : controlBlock) (bs : list Z) (es : list instr) : Prop :=
  let bt := blockType bl in
  block_type m bs bt /\ known (ft_Params bt) /\ known (ft_Results bt) /\
  cb_op bl ∈ [0; OpcodeLoop; OpcodeIf; OpcodeElse] /\
  (cb_op bl = OpcodeIf -> elseAt bl <= startAt bl) /\
  (cb_op bl = OpcodeElse -> seq_ok (ft_Results bt :: L) es (rev (ft_Params bt)) (rev (ft_Results bt))).

(** [zipper cs limits stack pend bs]: the blocks [cs] are open, [bs] has been
    read, and [pend] are values the innermost sequence has left that are no
    longer (or not yet) on [stack]. *)
Inductive zipper : list controlBlock -> list Z -> list Z -> list Z -> list Z -> Prop :=
| zip_outer bl es seg pend :
    cb_op bl = 0 -> blockType bl = functionType -> tidy seg ->
    (forall ts, den seg ts -> seq_ok (labels [bl]) es [] (pend ++ ts)) ->
    zipper [bl] [] seg pend (flat_map bytes es)
| zip_inner bl cs l ls outer bs imm es0 es seg pend :
    zipper cs ls outer (hole bl) bs -> l = len outer -> block_ok (labels cs) bl imm es0 -> tidy seg ->
    (forall ts, den seg ts -> seq_ok (labels (bl :: cs)) es (rev (ft_Params (blockType bl))) (pend ++ ts)) ->
    zipper (bl :: cs) (l :: ls) (seg ++ outer) pend (bs ++ opening bl imm es0 ++ flat_map bytes es).

(** The innermost block of a zipper, whatever is outside. *)
Lemma zipper_view cs ls stack pend bs :
  zipper cs ls stack pend bs ->
  exists seg outer es ts0 bs0, stack = seg ++ outer /\ match ls with l :: _ => l | [] => 0 end = len outer /\
    tidy seg /\ bs = bs0 ++ flat_map bytes es /\
    (forall ts, den seg ts -> seq_ok (labels cs) es ts0 (pend ++ ts)) /\
    forall seg' pend' es', tidy seg' ->
      (forall ts, den seg' ts -> seq_ok (labels cs) es' ts0 (pend' ++ ts)) ->
      zipper cs ls (seg' ++ outer) pend' (bs0 ++ flat_map bytes es').
Proof.
  destruct 1 as [bl es seg pend Hop Hbt Htidy Hok|bl cs l ls outer bs imm es0 es seg pend Hz Hl Hb Htidy Hok].
  - exists seg, [], es, [], []. rewrite app_nil_r. split_and!; try done.
    intros seg' pend' es' ? ?. rewrite app_nil_r. by constructor.
  - exists seg, outer, es, (rev (ft_Params (blockType bl))), (bs ++ opening bl imm es0).
    rewrite <-!(assoc_L (++)). split_and!; try done.
    intros seg' pend' es' ? ?. rewrite <-(assoc_L (++)). by constructor.
Qed.

Definition inv (s : valueTypeStack) (cs : list controlBlock) (pend bs : list Z) : Prop :=
  zipper cs (stackLimits s) (stack s) pend bs.

(** ** Operations on the value stack *)
Lemma inv_weaken s cs pend pend' bs : inv s cs pend bs -> subs pend pend' -> inv s cs pend' bs.
Proof.
  intros Hi Hs. apply zipper_view in Hi as (seg & outer & es & ts0 & bs0 & E & _ & Ht & -> & Hok & Hz).
  unfold inv. rewrite E. apply Hz; [done|]. intros ts Hts. eapply seq_weaken; eauto.
Qed.

(** The values above the limit. *)
Definition segment (s : valueTypeStack) : list Z :=
  take (length (stack s) - Z.to_nat (stackLimit s)) (stack s).

Lemma segment_app s seg outer :
  stack s = seg ++ outer -> stackLimit s = len outer -> segment s = seg.
Proof.
  intros E El. unfold segment. rewrite E, El, length_app. unfold len.
  replace (length seg + length outer - Z.to_nat (Z.of_nat (length outer)))%nat with (length seg) by lia.
  apply take_app_length.
Qed.
Lemma inv_tidy s cs pend bs : inv s cs pend bs -> tidy (segment s).
Proof.
  intros Hi. apply zipper_view in Hi as (seg & outer & es & ts0 & bs0 & E & El & Ht & _).
  by rewrite (segment_app s seg outer).
Qed.

(** [tryPop] in terms of the segment. *)
Lemma tryPop_segment s seg outer v s' :
  stack s = seg ++ outer -> stackLimit s = len outer -> tryPop s = Some (v, s') ->
  stackLimits s' = stackLimits s /\ maximumStackPointer s' = maximumStackPointer s /\
  ((seg = [valueTypeUnknown] /\ v = valueTypeUnknown /\ s' = s) \/
   exists seg', seg = v :: seg' /\ stack s' = seg' ++ outer /\ (v = valueTypeUnknown -> seg' <> [])).
Proof.
  intros E El. unfold tryPop. rewrite El, E, len_app.
  destruct (Z.leb_spec (len seg + len outer) (len outer)); [done|].
  destruct seg as [|x seg]; [unfold len in *; cbn in *; lia|]. cbn [app].
  destruct ((len (x :: seg) + len outer =? len outer + 1) && (x =? valueTypeUnknown)) eqn:Eu.
  - intros [= <- <-]. split_and!; [done..|]. left.
    apply andb_true_iff in Eu as [E1 E2]. apply Z.eqb_eq in E1, E2.
    destruct seg; [by subst|]. unfold len in *; cbn in *; lia.
  - intros [= <- <-]. split_and!; [done..|]. right. exists seg. split_and!; try done.
    intros -> ->. revert Eu. rewrite Z.eqb_refl, andb_true_r. intros Eu%Z.eqb_neq.
    unfold len in *; cbn in *; lia.
Qed.

Lemma tryPop_inv s cs pend bs v s' :
  inv s cs pend bs -> tryPop s = Some (v, s') -> inv s' cs (pend ++ [v]) bs.
Proof.
  intros Hi Hp. pose proof Hi as Hi'.
  apply zipper_view in Hi as (seg & outer & es & ts0 & bs0 & E & El & Ht & -> & Hok & Hz).
  destruct (tryPop_segment _ _ _ _ _ E El Hp) as (Els & _ & [(-> & -> & ->)|(seg' & -> & E' & Hv)]).
  - unfold inv. rewrite E. apply Hz; [done|]. intros ts _. rewrite <-(assoc_L (++)).
    apply Hok, den_unknown.
  - unfold inv. rewrite Els, E'. apply Hz.
    + destruct seg' as [|x seg']; [by intros ?%elem_of_nil|]. by eapply tidy_tail.
    + intros ts Hts. rewrite <-(assoc_L (++)). apply Hok. by apply den_pop.
Qed.

(** An unknown value popped leaves another below it. *)
Lemma tryPop_unknown s cs pend bs s' :
  inv s cs pend bs -> tryPop s = Some (valueTypeUnknown, s') -> valueTypeUnknown ∈ segment s'.
Proof.
  intros Hi Hp. apply zipper_view in Hi as (seg & outer & es & ts0 & bs0 & E & El & Ht & -> & Hok & Hz).
  destruct (tryPop_segment _ _ _ _ _ E El Hp) as (Els & _ & [(-> & _ & ->)|(seg' & -> & E' & Hv)]).
  - rewrite (segment_app _ _ _ E El). by apply list_elem_of_singleton.
  - rewrite (segment_app s' seg' outer E') by (by unfold stackLimit; rewrite Els).
    destruct (Ht ltac:(apply list_elem_of_here)) as [[|x xs] Ex]; injection Ex; intros; subst.
    + by destruct Hv.
    + apply elem_of_app. right. by apply list_elem_of_singleton.
Qed.

Lemma push_inv s cs pend bs v :
  inv s cs (pend ++ [v]) bs -> (v = valueTypeUnknown -> valueTypeUnknown ∈ segment s) ->
  inv (push s v) cs pend bs.
Proof.
  intros Hi Hv. apply zipper_view in Hi as (seg & outer & es & ts0 & bs0 & E & El & Ht & -> & Hok & Hz).
  rewrite (segment_app _ _ _ E El) in Hv.
  unfold inv, push. cbn [stack stackLimits]. rewrite E. apply (Hz (v :: seg)).
  - by apply tidy_push.
  - intros ts Hts. apply den_push in Hts as (ts' & -> & Hts').
    + specialize (Hok _ Hts'). by rewrite <-(assoc_L (++)) in Hok.
    + intros -> ->. specialize (Hv eq_refl). by apply elem_of_nil in Hv.
Qed.
Lemma pushAll_inv s cs pend bs vs :
  inv s cs (pend ++ rev vs) bs -> known vs -> inv (pushAll s vs) cs pend bs.
Proof.
  revert s pend. induction vs as [|v vs IH]; intros s pend; cbn [rev]; intros Hi Hk.
  - by rewrite app_nil_r in Hi.
  - cbn [pushAll fold_left]. apply IH; [|intros ?; apply Hk; by right].
    apply push_inv; [by rewrite <-(assoc_L (++))|].
    intros ->. destruct Hk. by left.
Qed.

Lemma popAndVerifyType_inv s cs pend bs t s' :
  inv s cs pend bs -> popAndVerifyType s t = Ok s' -> t <> valueTypeUnknown -> inv s' cs (pend ++ [t]) bs.
Proof.
  unfold popAndVerifyType. intros Hi Hp Ht. destruct (tryPop s) as [[v s1]|] eqn:E; [|done].
  destruct (negb (v =? t) && _ && _) eqn:Ec; [done|]. injection Hp as <-.
  eapply inv_weaken; [by eapply tryPop_inv|]. apply subs_app; [done|]. constructor; [|constructor].
  unfold sub1. destruct (Z.eqb_spec v t); [by left|]. destruct (Z.eqb_spec v valueTypeUnknown); [by right|].
  by destruct (Z.eqb_spec t valueTypeUnknown).
Qed.
Lemma popTypes_inv s cs pend bs ts s' :
  inv s cs pend bs -> popTypes s ts = Ok s' -> known ts -> inv s' cs (pend ++ ts) bs.
Proof.
  unfold popTypes. revert s pend. induction ts as [|t ts IH]; intros s pend Hi; cbn [foldm].
  { intros [= <-] _. by rewrite app_nil_r. }
  destruct (popAndVerifyType s t) as [s1|] eqn:E; [|done]. intros Hp Hk.
  rewrite cons_middle, (assoc_L (++)). apply (IH s1); [|done|intros ?; apply Hk; by right].
  eapply popAndVerifyType_inv; [done..|]. intros ->. apply Hk. by left.
Qed.

(** An instruction whose operands are pending leaves its results pending. *)
Lemma emit s cs ps rs bs i :
  inv s cs ps bs -> instr_ok (labels cs) i ps rs -> inv s cs rs (bs ++ bytes i).
Proof.
  intros Hi Hk. apply zipper_view in Hi as (seg & outer & es & ts0 & bs0 & E & El & Ht & -> & Hok & Hz).
  unfold inv. rewrite E, <-(assoc_L (++)).
  replace (flat_map bytes es ++ bytes i) with (flat_map bytes (es ++ [i])).
  2:{ rewrite flat_map_app. cbn [flat_map]. by rewrite app_nil_r. }
  apply Hz; [done|]. intros ts Hts. eapply seq_snoc; eauto.
Qed.

Lemma operate_inv s cs bs bs' ps rs s' :
  inv s cs [] bs -> operate s ps rs = Ok s' -> plain bs' ps rs -> known ps -> known rs ->
  inv s' cs [] (bs ++ bs').
Proof.
  unfold operate. intros Hi Ho Hp Hkp Hkr. destruct (popTypes s ps) as [s1|] eqn:E; [|done].
  injection Ho as <-. apply pushAll_inv; [|done].
  eapply (emit _ _ _ _ _ (Plain bs')); [|by constructor]. by apply (popTypes_inv s _ [] _ ps).
Qed.

Lemma known_rev ts : known ts -> known (rev ts).
Proof. unfold known. by rewrite !list_elem_of_In, <-in_rev. Qed.

Lemma popWanted_inv isParam want n s cs pend bs popped vs s' :
  inv s cs (pend ++ popped) bs -> popWanted isParam want n s popped = Ok (vs, s') ->
  inv s' cs (pend ++ vs) bs /\ length vs = (length popped + n)%nat /\ stackLimits s' = stackLimits s.
Proof.
  revert s popped. induction n as [|n IH]; intros s popped Hi; cbn [popWanted].
  { intros [= -> ->]. split_and!; [done|lia|done]. }
  destruct (tryPop s) as [[v s1]|] eqn:E; [|done]. intros Hp.
  pose proof (tryPop_inv _ _ _ _ _ _ Hi E) as Hi1. rewrite <-(assoc_L (++)) in Hi1.
  destruct (IH _ _ Hi1 Hp) as (? & Hl & Els). split_and!; [done| |].
  - rewrite Hl, length_app. cbn. lia.
  - rewrite Els. apply zipper_view in Hi as (seg & outer & ? & ? & ? & E1 & El & _).
    by destruct (tryPop_segment _ _ _ _ _ E1 El E).
Qed.
Lemma verifyWanted_subs isParam i popped wanted :
  length popped = length wanted -> known wanted -> verifyWanted isParam i popped wanted = Ok tt ->
  subs popped wanted.
Proof.
  revert i wanted. induction popped as [|v popped IH]; intros i [|w wanted] Hl Hk; try done.
  cbn [verifyWanted]. injection Hl as Hl.
  destruct (negb (v =? w) && _ && _) eqn:E; [done|]. intros Hv.
  constructor; [|by eapply IH; [done|intros ?; apply Hk; by right|]].
  unfold sub1. destruct (Z.eqb_spec v w); [by left|]. destruct (Z.eqb_spec v valueTypeUnknown); [by right|].
  destruct (Z.eqb_spec w valueTypeUnknown) as [->|]; [destruct Hk; by left|done].
Qed.

(** With [checkAboveLimit] nothing but an unknown value is left above the limit. *)
Lemma requireStackValues_inv s cs pend bs isParam want check s' :
  inv s cs pend bs -> requireStackValues s isParam want check = Ok s' -> known want ->
  inv s' cs (pend ++ rev want) bs /\ stackLimits s' = stackLimits s /\
  (check = true -> segment s' = [] \/ segment s' = [valueTypeUnknown]).
Proof.
  unfold requireStackValues. intros Hi Hr Hk.
  destruct (popWanted isParam want (length want) s []) as [[popped s1]|] eqn:E; [|done].
  destruct (popWanted_inv _ _ _ _ _ pend _ [] _ _ ltac:(by rewrite app_nil_r) E) as (Hi1 & Hl & Els).
  destruct (check && _) eqn:Ec; [done|].
  destruct (verifyWanted isParam 0 popped (rev want)) as [[]|] eqn:Ev; [|done]. injection Hr as <-.
  split_and!; [|done|].
  - eapply inv_weaken; [done|]. apply subs_app; [done|]. eapply verifyWanted_subs; [| |done].
    + rewrite length_rev. by rewrite Hl.
    + by apply known_rev.
  - intros ->. cbn [andb] in Ec. apply negb_false_iff in Ec.
    apply zipper_view in Hi1 as (seg & outer & es1 & ts1 & bs1 & E1 & El & _).
    assert (stackLimit s1 = stackLimit s) as Elim by (unfold stackLimit; by rewrite Els).
    rewrite (segment_app _ _ _ E1 El). change (match stackLimits s1 with l :: _ => l | [] => 0 end)
      with (stackLimit s1) in El. rewrite <-Elim, E1, El, len_app in Ec.
    destruct seg as [|x [|y seg]]; [by left| |].
    + right. apply orb_true_iff in Ec as [Ec|Ec]; [apply Z.eqb_eq in Ec; unfold len in Ec; cbn in Ec; lia|].
      apply andb_true_iff in Ec as [_ Ec]. cbn in Ec. apply Z.eqb_eq in Ec. by subst.
    + apply orb_true_iff in Ec as [Ec|Ec]; [|apply andb_true_iff in Ec as [Ec _]];
        apply Z.eqb_eq in Ec; unfold len in Ec; cbn in Ec; lia.
Qed.

Lemma reset_outer s seg outer s' :
  stack s = seg ++ outer -> stackLimit s = len outer -> resetAtStackLimit s = Ok s' ->
  s' = mkVS outer (stackLimits s) (maximumStackPointer s).
Proof.
  intros E El. unfold resetAtStackLimit. rewrite E, El.
  destruct (len (seg ++ outer) <? len outer); [done|]. intros [= <-]. f_equal.
  rewrite length_app. unfold len.
  replace (length seg + length outer - Z.to_nat (Z.of_nat (length outer)))%nat with (length seg) by lia.
  apply drop_app_length.
Qed.

Lemma unreachable_inv s cs ps bs i s' :
  inv s cs ps bs -> unreachable s = Ok s' ->
  (forall ts us, instr_ok (labels cs) i (ps ++ ts) us) -> inv s' cs [] (bs ++ bytes i).
Proof.
  intros Hi Hu Hk. apply zipper_view in Hi as (seg & outer & es & ts0 & bs0 & E & El & Ht & -> & Hok & Hz).
  unfold unreachable in Hu. destruct (resetAtStackLimit s) as [s1|] eqn:Er; [|done]. injection Hu as <-.
  rewrite (reset_outer _ _ _ _ E El Er). unfold inv. cbn [stack stackLimits].
  rewrite <-(assoc_L (++)).
  replace (flat_map bytes es ++ bytes i) with (flat_map bytes (es ++ [i])).
  2:{ rewrite flat_map_app. cbn [flat_map]. by rewrite app_nil_r. }
  apply (Hz [valueTypeUnknown]).
  - intros _. by exists [].
  - intros ts _. eapply (seq_snoc _ _ _ _ _ _ _ _ _ _ _ _ _ (ps ++ seg) ts []);
      [rewrite app_nil_r; apply Hok, den_refl|apply Hk|]. by rewrite app_nil_r.
Qed.

(** ** Immediates *)
Definition starts (pc : Z) (bs : list Z) : Prop :=
  0 <= pc /\ exists rest, drop (Z.to_nat pc) body = bs ++ rest.

Lemma starts_app pc pc' bs bs' :
  starts pc bs -> starts pc' bs' -> pc' = pc + len bs -> starts pc (bs ++ bs').
Proof.
  intros [H0 [r E]] [_ [r' E']] ->. split; [done|]. exists r'. rewrite E, <-(assoc_L (++)). f_equal.
  rewrite <-E'. replace (Z.to_nat (pc + len bs)) with (Z.to_nat pc + length bs)%nat by (unfold len; lia).
  rewrite <-drop_drop, E. by rewrite drop_app_length.
Qed.
Lemma at_starts pc op : 0 <= pc -> at_ body pc = Ok op -> starts pc [op].
Proof.
  intros H0 H. unfold at_ in H. destruct (body !! Z.to_nat pc) eqn:E; [|done]. injection H as ->.
  split; [done|]. eexists. by apply drop_S.
Qed.
Lemma starts_cons pc op bs : 0 <= pc -> at_ body pc = Ok op -> starts (pc + 1) bs -> starts pc (op :: bs).
Proof. intros H0 H Hs. apply (starts_app pc (pc + 1) [op] bs); [by apply at_starts|done|done]. Qed.
Lemma starts_take pc bs : starts pc bs ->
  take (Z.to_nat (pc + len bs)) body = take (Z.to_nat pc) body ++ bs.
Proof.
  intros [H0 [r E]].
  replace (Z.to_nat (pc + len bs)) with (Z.to_nat pc + length bs)%nat by (unfold len; lia).
  rewrite <-take_take_drop, E. by rewrite take_app_length.
Qed.
Lemma starts_len pc bs : starts pc bs -> bs <> [] -> pc + len bs <= len body.
Proof.
  intros [H0 [r E]] Hne. apply (f_equal length) in E. rewrite length_drop, length_app in E.
  destruct bs; [done|]. cbn [length] in *. unfold len. cbn [length]. lia.
Qed.

(** What a prefix decoder read is what is written there. *)
Lemma prefix_starts load pc b v n :
  Leb128.reads_prefix load -> 0 <= pc -> from body pc = Ok b -> load b = Ok (v, n) ->
  exists bs, load bs = Ok (v, len bs) /\ len bs = n /\ starts pc bs /\ 1 <= n.
Proof.
  intros Hp H0 Hf Hl. unfold from in Hf. destruct (len body <? pc); [done|]. injection Hf as <-.
  apply Hp in Hl as [Hn Hl]. eexists. assert (len (take (Z.to_nat n) (drop (Z.to_nat pc) body)) = n) as En.
  { unfold len in *. rewrite length_take. lia. }
  rewrite En. split_and!; [done|done| |lia]. split; [done|]. eexists. by rewrite take_drop.
Qed.
Lemma loadU32_starts w pc v n : 0 <= pc -> loadU32 w body pc = Ok (v, n) ->
  exists bs, leb_u32 bs v /\ len bs = n /\ starts pc bs /\ 1 <= n.
Proof.
  unfold loadU32. intros H0 H. destruct (from body pc) as [b|] eqn:Ef; [|done].
  destruct (Leb128.LoadUint32 b) as [[v' n']|] eqn:El; [|done]. injection H as -> ->.
  by apply (prefix_starts _ _ _ _ _ Leb128.LoadUint32_prefix H0 Ef El).
Qed.
Lemma readMemArg_starts pc a o n : 0 <= pc -> readMemArg pc body = Ok (a, o, n) ->
  exists bs, (forall fits : Z -> Prop, (0 <= a -> fits a) -> memarg fits bs) /\ len bs = n /\ starts pc bs /\ 1 <= n.
Proof.
  unfold readMemArg. intros H0 H.
  destruct (loadU32 _ body pc) as [[al k]|] eqn:E1; [|done].
  destruct (loadU32 _ body (pc + k)) as [[off k']|] eqn:E2; [|done]. injection H as -> -> <-.
  apply loadU32_starts in E1 as (b1 & ? & Hl & ? & ?); [|done].
  apply loadU32_starts in E2 as (b2 & ? & Hl' & ? & ?); [|lia].
  exists (b1 ++ b2). rewrite len_app. split_and!; [|lia| |lia].
  { intros fits Hf. exists b1, b2, a, o. split_and!; try done. apply Hf.
    match goal with H : leb_u32 b1 a |- _ => by apply Leb128.LoadUint32_range in H as [? _] end. }
  eapply starts_app; [done..|]. lia.
Qed.

(** An instruction without control flow: its bytes, its type and its effect. *)
Definition plain_step (pc : Z) (s : valueTypeStack) (pc' : Z) (s' : valueTypeStack) : Prop :=
  exists bs ps rs, starts pc bs /\ pc' + 1 = pc + len bs /\ plain bs ps rs /\
    known ps /\ known rs /\ operate s ps rs = Ok s'.

(** Types the context mentions are not [valueTypeUnknown]. *)
Record context_ok : Prop := {
  types_known : Forall (fun ft => known (ft_Params ft) /\ known (ft_Results ft)) (TypeSection m);
  function_known : known (ft_Params functionType) /\ known (ft_Results functionType);
  locals_known : known localTypes;
  globals_known : Forall (fun g => gt_ValType g <> valueTypeUnknown) globals;
  tables_known : Forall (fun t => tb_Type t <> valueTypeUnknown) tables;
  body_bytes : bytes_ok body;
  params_small : len (ft_Params functionType) < 2 ^ 32;
}.

(** The tables, entry by entry. *)
Definition knownb (ts : list Z) : bool := forallb (fun t => negb (t =? valueTypeUnknown)) ts.
Lemma knownb_ok ts : knownb ts = true -> known ts.
Proof.
  unfold knownb, known. rewrite List.forallb_forall. intros H Hin. apply list_elem_of_In, H in Hin.
  by rewrite Z.eqb_refl in Hin.
Qed.
Definition sig_known {W} (c : option (W * list Z * list Z)) : bool :=
  match c with Some (_, ps, rs) => knownb ps && knownb rs | None => true end.
Definition specs_known (op : Z) : bool :=
  sig_known (memory_spec op) && sig_known (atomic_spec op) &&
  sig_known ((fun '(ps, rs) => (tt, ps, rs)) <$> numeric_spec op) &&
  sig_known ((fun '(ps, rs) => (tt, ps, rs)) <$> vec_spec op) &&
  sig_known ((fun '(n, t) => (n, [t], [t])) <$> extract_spec op) &&
  sig_known ((fun '(n, t) => (n, [t], [t])) <$> replace_spec op) &&
  sig_known ((fun '(t, r) => (tt, [t], [r])) <$> trunc_spec op) &&
  sig_known ((fun t => (tt, [t], [t])) <$> splat_spec op).
Lemma specs_known_all op : is_byte op -> tables_agree_at op && specs_known op = true.
Proof.
  intros H. rewrite (tables_agree_all op H). apply (zrange_forallb specs_known 0 256); [|done].
  vm_cast_no_check (@eq_refl bool true).
Qed.

Ltac table_fact Hop :=
  let H := fresh in
  pose proof (specs_known_all _ Hop) as H; unfold tables_agree_at, specs_known in H;
  rewrite !andb_true_iff, !bool_decide_eq_true in H;
  destruct H as ((((((((((( Tmem & Tnum) & Tvec) & Tat) & Tex) & Tre) & Tsp) & Tll) & Tsl) & Tvl) & Ttr)
    & (((((((Kmem & Kat) & Knum) & Kvec) & Kex) & Kre) & Ktr) & Ksp)).
Ltac table_done K := cbn [fmap option_fmap option_map sig_known] in K; apply andb_true_iff in K as [?%knownb_ok ?%knownb_ok].

Lemma memory_case_spec op w ps rs : is_byte op -> memory_case op = Some (w, ps, rs) ->
  memory_spec op = Some (w, ps, rs) /\ known ps /\ known rs.
Proof.
  intros Hop E. table_fact Hop. rewrite Tmem in E. rewrite E in Kmem. table_done Kmem. done.
Qed.
Lemma numeric_case_spec op f ps rs : is_byte op -> numeric_case op = Some (f, ps, rs) ->
  numeric_spec op = Some (ps, rs) /\ known ps /\ known rs.
Proof.
  intros Hop E. table_fact Hop. rewrite E in Tnum. cbn [drop_feature] in Tnum. rewrite <-Tnum in Knum.
  table_done Knum. done.
Qed.
Lemma vec_case_spec op ps rs : is_byte op -> vec_case op = Some (ps, rs) ->
  vec_spec op = Some (ps, rs) /\ known ps /\ known rs.
Proof.
  intros Hop E. table_fact Hop. rewrite Tvec in E. rewrite E in Kvec. table_done Kvec. done.
Qed.
Lemma atomic_case_spec op a ps rs : is_byte op -> atomic_case op = Some (a, ps, rs) ->
  (exists w, atomic_spec op = Some (w, ps, rs) /\ (a = AtMost w \/ a = Exactly w)) /\ known ps /\ known rs.
Proof.
  intros Hop E. table_fact Hop. rewrite E in Tat.
  assert (exists w, atomic_spec op = Some (w, ps, rs) /\ (a = AtMost w \/ a = Exactly w)) as (w & Ew & Ha).
  { rewrite <-Tat. destruct a; cbn; eauto. }
  rewrite Ew in Kat. table_done Kat. eauto.
Qed.
Lemma extract_lanes_spec op n t : is_byte op -> vecExtractLanes op = Some (n, t) ->
  extract_spec op = Some (n, t) /\ known [t].
Proof. intros Hop E. table_fact Hop. rewrite Tex in E. rewrite E in Kex. table_done Kex. done. Qed.
Lemma replace_lanes_spec op n t : is_byte op -> vecReplaceLanes op = Some (n, t) ->
  replace_spec op = Some (n, t) /\ known [t].
Proof. intros Hop E. table_fact Hop. rewrite Tre in E. rewrite E in Kre. table_done Kre. done. Qed.
Lemma splat_types_spec op t : is_byte op -> vecSplatValueTypes op = Some t ->
  splat_spec op = Some t /\ known [t].
Proof. intros Hop E. table_fact Hop. rewrite Tsp in E. rewrite E in Ksp. table_done Ksp. done. Qed.
Lemma truncSat_spec op t r : is_byte op -> truncSat_case op = Some (t, r) ->
  trunc_spec op = Some (t, r) /\ known [t] /\ known [r].
Proof. intros Hop E. table_fact Hop. rewrite Ttr in E. rewrite E in Ktr. table_done Ktr. done. Qed.
Definition widths_agree_at (op : Z) : bool :=
  match vecLoadLanes op with Some (a, n) => a =? 16 / n | None => true end &&
  match vecStoreLanes op with Some (a, n) => a =? 16 / n | None => true end &&
  implb (oneof op vecLoads) (maxAlign op =? vec_load_width op).
Lemma widths_agree op : is_byte op -> widths_agree_at op = true.
Proof. intros H. apply (zrange_forallb widths_agree_at 0 256); [|done]. vm_cast_no_check (@eq_refl bool true). Qed.
Lemma lanes_spec op : is_byte op ->
  (forall a n, vecLoadLanes op = Some (a, n) -> load_lane_spec op = Some n /\ a = 16 / n) /\
  (forall a n, vecStoreLanes op = Some (a, n) -> store_lane_spec op = Some n /\ a = 16 / n) /\
  oneof op vecLoads = vec_load_spec op /\ (oneof op vecLoads = true -> maxAlign op = vec_load_width op).
Proof.
  intros Hop. pose proof (widths_agree op Hop) as Hw. unfold widths_agree_at in Hw. rewrite !andb_true_iff in Hw.
  destruct Hw as [[Wl Ws] Wv]. table_fact Hop.
  split; [intros a n E; rewrite E in Tll, Wl; by apply Z.eqb_eq in Wl|].
  split; [intros a n E; rewrite E in Tsl, Ws; by apply Z.eqb_eq in Ws|].
  split; [done|]. intros E. rewrite E in Wv. by apply Z.eqb_eq in Wv.
Qed.
(** The source's comparison, as far as the shift does not wrap. *)
Lemma at_most_int w a : 0 <= a -> (w <? shl1_int a) = false -> at_most false w a.
Proof.
  intros Ha H [?|Hlt]; [done|]. unfold shl1_int in H. apply Z.ltb_ge in H. destruct (Z.ltb_spec a 64); [|lia].
  rewrite Z.shiftl_1_l in H. unfold i64 in H. pose proof (Z.pow_lt_mono_r 2 a 31 ltac:(lia) ltac:(lia) Hlt).
  pose proof (Z.pow_pos_nonneg 2 a ltac:(lia) Ha). rewrite wraps_small in H by (unfold in_s; lia). done.
Qed.
Lemma at_most_u32 w a : 0 <= a -> (w <? shl1_u32 a) = false -> at_most false w a.
Proof.
  intros Ha H [?|Hlt]; [done|]. unfold shl1_u32 in H. apply Z.ltb_ge in H. destruct (Z.ltb_spec a 32); [|lia].
  rewrite Z.shiftl_1_l in H. unfold u32 in H. pose proof (Z.pow_lt_mono_r 2 a 31 ltac:(lia) ltac:(lia) Hlt).
  pose proof (Z.pow_pos_nonneg 2 a ltac:(lia) Ha). rewrite wrapu_small in H by (unfold in_u; lia). done.
Qed.
Lemma aligned_natural w a k : 0 <= a -> k = AtMost w \/ k = Exactly w -> misaligned k a = false -> natural false w a.
Proof.
  intros Ha Hk H. split; [|done]. apply at_most_int; [done|]. destruct Hk as [-> | ->]; [done|].
  cbn [misaligned] in H. apply negb_false_iff, Z.eqb_eq in H. rewrite H. apply Z.ltb_irrefl.
Qed.

(** ** Every family is sound *)
Hypothesis Hctx : context_ok.

Lemma at_byte pc op : at_ body pc = Ok op -> is_byte op.
Proof.
  unfold at_. destruct (body !! Z.to_nat pc) eqn:E; [|done]. intros [= <-].
  by apply (Forall_lookup_1 _ _ _ _ (body_bytes Hctx) E).
Qed.
Lemma at_lookup {A} (l : list A) i x : at_ l i = Ok x -> l !! Z.to_nat i = Some x.
Proof. unfold at_. by destruct (l !! Z.to_nat i); intros [= ->]. Qed.
Lemma needMemory_ok u : needMemory memory = Ok u -> has_memory memory.
Proof. unfold needMemory. destruct memory; [by eexists|done]. Qed.
Lemma known_nil : known [].
Proof. by intros ?%elem_of_nil. Qed.
Lemma known_one t : t <> valueTypeUnknown -> known [t].
Proof. intros H ?%list_elem_of_singleton. by subst. Qed.
Lemma known_cons t ts : t <> valueTypeUnknown -> known ts -> known (t :: ts).
Proof. intros H H' [?|?]%elem_of_cons; subst; done. Qed.
Lemma known_two t u : t <> valueTypeUnknown -> u <> valueTypeUnknown -> known [t; u].
Proof. intros. by apply known_cons, known_one. Qed.
#[local] Hint Resolve known_nil known_one known_cons known_rev : core.

Lemma loadU32_ok w pc v n : 0 <= pc -> loadU32 w body pc = Ok (v, n) ->
  exists bs, leb_u32 bs v /\ len bs = n /\ starts pc bs /\ 1 <= n /\ 0 <= v.
Proof.
  intros H0 H. destruct (loadU32_starts w pc v n H0 H) as (bs & ? & ? & ? & ?).
  exists bs. split_and!; try done. unfold loadU32, from in H.
  destruct (len body <? pc); [done|].
  destruct (Leb128.LoadUint32 (drop _ _)) as [[v' n']|] eqn:E; [|done]. injection H as -> ->.
  by apply Leb128.LoadUint32_range in E as [? _].
Qed.

(** The immediates of the hypotheses, as bytes. *)
Ltac immediates :=
  repeat match goal with
  | H : loadU32 _ body ?pc = Ok (?v, ?n) |- _ =>
      let bs := fresh "bs" in let Hl := fresh "Hleb" in let Hn := fresh "Hlen" in
      let Hs := fresh "Hst" in let Hp := fresh "Hpos" in let Hv := fresh "Hval" in
      apply loadU32_ok in H as (bs & Hl & Hn & Hs & Hp & Hv); [|lia]
  | H : readMemArg ?pc body = Ok (?a, ?o, ?n) |- _ =>
      let bs := fresh "bs" in let Hl := fresh "Harg" in let Hn := fresh "Hlen" in
      let Hs := fresh "Hst" in let Hp := fresh "Hpos" in
      apply readMemArg_starts in H as (bs & Hl & Hn & Hs & Hp); [|lia]
  | H : needMemory memory = Ok _ |- _ => apply needMemory_ok in H
  end.

Lemma operate_push s t : operate s [] [t] = Ok (push s t).
Proof. done. Qed.
Lemma operate_pop_push s t t' s' :
  popAndVerifyType s t = Ok s' -> operate s [t] [t'] = Ok (push s' t').
Proof. intros H. unfold operate, popTypes. cbn [foldm]. by rewrite H. Qed.
Lemma operate_pop s t s' : popAndVerifyType s t = Ok s' -> operate s [t] [] = Ok s'.
Proof. intros H. unfold operate, popTypes. cbn [foldm]. by rewrite H. Qed.
Lemma operate_pops s ts s' : popTypes s ts = Ok s' -> operate s ts [] = Ok s'.
Proof. intros H. unfold operate. by rewrite H. Qed.
Lemma operate_cons s t ts rs s1 s' :
  popAndVerifyType s t = Ok s1 -> operate s1 ts rs = Ok s' -> operate s (t :: ts) rs = Ok s'.
Proof. intros H. unfold operate, popTypes. cbn [foldm]. by rewrite H. Qed.
Lemma operate_nil s : operate s [] [] = Ok s.
Proof. done. Qed.
#[local] Hint Resolve operate_push operate_pop_push operate_pop operate_pops operate_nil : core.

Ltac unpack H := okcase H; intros; subst; try clear H.

(** Closes [starts] and the position of the last byte. *)
Ltac bytes_here :=
  repeat first
    [ done
    | match goal with |- starts ?pc (_ :: _) => apply starts_cons; [lia|done|] end
    | match goal with |- starts ?pc (_ ++ _) => eapply starts_app; [| |]; [done| |] end
    | lia ].

Definition isSome {A} (o : option A) : bool := match o with Some _ => true | None => false end.
Lemma memory_total op : OpcodeI32Load <= op <= OpcodeI64Store32 -> memory_case op <> None.
Proof.
  unfold OpcodeI32Load, OpcodeI64Store32. intros H.
  pose proof (zrange_forallb (fun op => isSome (memory_case op)) 0x28 23
    ltac:(vm_compute; reflexivity) op ltac:(lia)) as H'. cbv beta in H'. by destruct (memory_case op).
Qed.

Lemma memoryAccess_plain op pc s pc' s' :
  0 <= pc -> at_ body pc = Ok op -> OpcodeI32Load <= op <= OpcodeI64Store32 ->
  memoryAccess memory body op pc s = Ok (pc', s') -> plain_step pc s pc' s'.
Proof.
  unfold memoryAccess. intros H0 Hat Hop H. unpack H; [|by destruct (memory_total op)].
  immediates.
  match goal with E : memory_case op = Some (_, ?ps, ?rs) |- _ =>
    destruct (memory_case_spec _ _ _ _ (at_byte _ _ Hat) E) as (Hsp & ? & ?); exists (op :: bs), ps, rs end.
  split_and!; try done; [by apply starts_cons|rewrite len_cons; lia|]. eapply plain_memory; [done| |done].
  apply Harg. intros. by apply at_most_int.
Qed.

Lemma memorySizeGrow_plain op pc s pc' s' :
  0 <= pc -> at_ body pc = Ok op -> op = OpcodeMemorySize \/ op = OpcodeMemoryGrow ->
  memorySizeGrow memory body op pc s = Ok (pc', s') -> plain_step pc s pc' s'.
Proof.
  unfold memorySizeGrow. intros H0 Hat Hop H. unpack H; immediates; zbool; cbn [negb orb] in *; try done.
  - exists (op :: bs), [ValueTypeI32], [ValueTypeI32]. subst.
    split_and!; auto; [by apply starts_cons|rewrite len_cons; lia|by constructor].
  - exists (op :: bs), [], [ValueTypeI32]. destruct Hop; [subst|done].
    split_and!; auto; [by apply starts_cons|rewrite len_cons; lia|by constructor].
Qed.

(** Closes a [plain_step] whose bytes, operands and results are given. *)
Ltac all_known := first [done | by apply knownb_ok | by auto 6].
Ltac plain_with bs ps rs rule :=
  exists bs, ps, rs; split_and!;
  [ bytes_here | rewrite ?len_cons, ?len_app, ?len_cons, ?len_nil; lia | eapply rule; eauto
  | all_known | all_known | eauto ].

Lemma skip_bytes pc op n :
  0 <= pc -> at_ body pc = Ok op -> 0 < n -> pc + 1 + n <= len body ->
  exists bs, len bs = n /\ starts pc (op :: bs).
Proof.
  intros H0 Hat Hn Hl. exists (take (Z.to_nat n) (drop (Z.to_nat (pc + 1)) body)). split.
  - unfold len in *. rewrite length_take, length_drop. lia.
  - apply starts_cons; [done..|]. split; [lia|]. eexists. by rewrite take_drop.
Qed.

Lemma constant_plain op pc s pc' s' :
  0 <= pc -> at_ body pc = Ok op -> OpcodeI32Const <= op <= OpcodeF64Const ->
  constant body op pc s = Ok (pc', s') -> plain_step pc s pc' s' \/ len body < pc' + 1.
Proof.
  unfold constant, OpcodeI32Const, OpcodeF64Const. intros H0 Hat Hop H.
  unfold OpcodeI64Const, OpcodeF32Const in H.
  destruct (Z.eqb_spec op 0x41) as [->|]; [|destruct (Z.eqb_spec op 0x42) as [->|];
    [|destruct (Z.eqb_spec op 0x43) as [->|]]].
  - left. destruct (from body (pc + 1)) as [b|] eqn:Ef; [|done].
    destruct (Leb128.LoadInt32 b) as [[v k]|] eqn:El; [|done]. injection H as <- <-.
    destruct (prefix_starts _ (pc + 1) _ _ _ Leb128.LoadInt32_prefix ltac:(lia) Ef El) as (bs & Hl & ? & ? & ?).
    plain_with (0x41 :: bs) (@nil Z) [ValueTypeI32] plain_i32_const.
  - left. destruct (from body (pc + 1)) as [b|] eqn:Ef; [|done].
    destruct (Leb128.LoadInt64 b) as [[v k]|] eqn:El; [|done]. injection H as <- <-.
    destruct (prefix_starts _ (pc + 1) _ _ _ Leb128.LoadInt64_prefix ltac:(lia) Ef El) as (bs & Hl & ? & ? & ?).
    plain_with (0x42 :: bs) (@nil Z) [ValueTypeI64] plain_i64_const.
  - injection H as <- <-. destruct (decide (len body < pc + 1 + 3 + 1)); [by right|left].
    destruct (skip_bytes pc 0x43 4) as (bs & ? & ?); [done..|lia|].
    plain_with (0x43 :: bs) (@nil Z) [ValueTypeF32] plain_f32_const.
  - assert (op = 0x44) as -> by lia. injection H as <- <-.
    destruct (decide (len body < pc + 1 + 7 + 1)); [by right|left].
    destruct (skip_bytes pc 0x44 8) as (bs & ? & ?); [done..|lia|].
    plain_with (0x44 :: bs) (@nil Z) [ValueTypeF64] plain_f64_const.
Qed.

Lemma localType_ok index t :
  0 <= index -> localType functionType localTypes index = Ok t ->
  locals functionType localTypes !! Z.to_nat index = Some t /\ t <> valueTypeUnknown.
Proof.
  unfold localType. intros H0 H. pose proof (params_small Hctx) as Hs.
  pose proof (len_nonneg (ft_Params functionType)).
  destruct (function_known Hctx) as [Hk _]. pose proof (locals_known Hctx) as Hk'.
  assert (u32 (len (ft_Params functionType)) = len (ft_Params functionType)) as E1
    by (apply wrapu_small; unfold in_u; lia).
  rewrite E1 in H.
  destruct (_ <=? index); [done|]. unfold locals.
  destruct (Z.ltb_spec index (len (ft_Params functionType))); apply at_lookup in H.
  - rewrite lookup_app_l by (unfold len in *; lia). split; [done|]. intros ->.
    apply Hk. by eapply list_elem_of_lookup_2.
  - rewrite lookup_app_r by (unfold len in *; lia). split.
    + rewrite <-H. f_equal. unfold len. lia.
    + intros ->. apply Hk'. by eapply list_elem_of_lookup_2.
Qed.
Lemma globalAt_ok index g :
  globalAt globals index = Ok g -> globals !! Z.to_nat index = Some g /\ gt_ValType g <> valueTypeUnknown.
Proof.
  unfold globalAt. destruct (_ <=? _); [done|]. intros E%at_lookup. split; [done|].
  apply (Forall_lookup_1 _ _ _ _ (globals_known Hctx) E).
Qed.
Lemma tableAt_ok index t :
  tableAt tables index = Ok t -> tables !! Z.to_nat index = Some t /\ tb_Type t <> valueTypeUnknown.
Proof.
  unfold tableAt. destruct (_ <=? _); [done|]. intros E%at_lookup. split; [done|].
  apply (Forall_lookup_1 _ _ _ _ (tables_known Hctx) E).
Qed.
Lemma typeAt_ok index ft :
  at_ (TypeSection m) index = Ok ft ->
  TypeSection m !! Z.to_nat index = Some ft /\ known (ft_Params ft) /\ known (ft_Results ft).
Proof.
  intros E%at_lookup. split; [done|]. apply (Forall_lookup_1 _ _ _ _ (types_known Hctx) E).
Qed.

Lemma variable_plain op pc s pc' s' :
  0 <= pc -> at_ body pc = Ok op -> OpcodeLocalGet <= op <= OpcodeGlobalSet ->
  variable globals functionType localTypes body op pc s = Ok (pc', s') -> plain_step pc s pc' s'.
Proof.
  unfold variable, OpcodeLocalGet, OpcodeGlobalSet. intros H0 Hat Hop H.
  destruct (loadU32 _ body (pc + 1)) as [[index num]|] eqn:El; [|done].
  immediates. unfold OpcodeLocalSet, OpcodeLocalTee, OpcodeGlobalGet in H.
  destruct (Z.eqb_spec op 0x20) as [->|]; [|destruct (Z.eqb_spec op 0x21) as [->|];
    [|destruct (Z.eqb_spec op 0x22) as [->|]; [|destruct (Z.eqb_spec op 0x23) as [->|]]]].
  1-3: destruct (localType _ _ index) as [t|] eqn:Et; [|done]; apply localType_ok in Et as [? ?]; [|done].
  - injection H as <- <-. plain_with (0x20 :: bs) (@nil Z) [t] plain_local_get.
  - unpack H. plain_with (0x21 :: bs) [t] (@nil Z) plain_local_set.
  - unpack H. plain_with (0x22 :: bs) [t] [t] plain_local_tee.
  - unpack H. match goal with E : globalAt _ _ = Ok ?g |- _ => apply globalAt_ok in E as [? ?];
      plain_with (0x23 :: bs) (@nil Z) [gt_ValType g] plain_global_get end.
  - assert (op = 0x24) as -> by lia. unpack H.
    match goal with E : globalAt _ _ = Ok ?g, E' : negb (gt_Mutable ?g) = false |- _ =>
      apply globalAt_ok in E as [? ?]; apply negb_false_iff in E';
      plain_with (0x24 :: bs) [gt_ValType g] (@nil Z) plain_global_set end.
Qed.

Lemma call_plain pc s pc' s' :
  0 <= pc -> at_ body pc = Ok OpcodeCall ->
  call m functions body pc s = Ok (pc', s') -> plain_step pc s pc' s'.
Proof.
  unfold call. intros H0 Hat H. unpack H. immediates.
  match goal with E : at_ functions _ = Ok _, E' : at_ (TypeSection m) _ = Ok ?ft |- _ =>
    apply at_lookup in E; apply typeAt_ok in E' as (? & ? & ?);
    plain_with (OpcodeCall :: bs) (rev (ft_Params ft)) (ft_Results ft) plain_call end.
Qed.

Lemma call_indirect_plain pc s pc' s' :
  0 <= pc -> at_ body pc = Ok OpcodeCallIndirect ->
  call_indirect m enabledFeatures tables body pc s = Ok (pc', s') -> plain_step pc s pc' s'.
Proof.
  unfold call_indirect. intros H0 Hat H. unpack H. immediates.
  match goal with E : tableAt tables _ = Ok ?t, Et : negb (tb_Type ?t =? _) = false,
    E' : at_ (TypeSection m) _ = Ok ?ft, Ep : popAndVerifyType s _ = Ok ?s1 |- _ =>
    apply tableAt_ok in E as [? ?]; apply negb_false_iff, Z.eqb_eq in Et; apply typeAt_ok in E' as (? & ? & ?);
    assert (operate s (ValueTypeI32 :: rev (ft_Params ft)) (ft_Results ft) = Ok s') by (by eapply operate_cons);
    plain_with (OpcodeCallIndirect :: bs ++ bs0) (ValueTypeI32 :: rev (ft_Params ft)) (ft_Results ft)
      plain_call_indirect end.
Qed.

Lemma numeric_plain op pc s pc' s' :
  0 <= pc -> at_ body pc = Ok op -> numeric enabledFeatures op pc s = Ok (pc', s') -> plain_step pc s pc' s'.
Proof.
  unfold numeric. intros H0 Hat H. destruct (numeric_case op) as [[[f ps] rs]|] eqn:E; [|done].
  destruct (numeric_case_spec _ _ _ _ (at_byte _ _ Hat) E) as (? & ? & ?).
  destruct (match f with Some _ => _ | None => _ end); [|done]. unpack H.
  exists [op], ps, rs. split_and!; try done; [by apply at_starts|by constructor].
Qed.

Lemma reference_plain op pc s pc' s' :
  0 <= pc -> at_ body pc = Ok op -> op = OpcodeRefNull \/ op = OpcodeRefFunc ->
  reference enabledFeatures declared body op pc s = Ok (pc', s') -> plain_step pc s pc' s'.
Proof.
  unfold reference. intros H0 Hat Hop H. destruct (needFeature _ _); [|done].
  destruct Hop as [-> | ->]; cbn [Z.eqb Pos.eqb OpcodeRefNull OpcodeRefFunc OpcodeRefIsNull] in H.
  - destruct (at_ body (pc + 1)) as [t|] eqn:Et; [|done].
    assert (isReferenceValueType t = true /\ pc' = pc + 1 /\ s' = push s t /\ t <> valueTypeUnknown)
      as (? & -> & -> & ?).
    { unfold isReferenceValueType. destruct (Z.eqb_spec t ValueTypeExternref) as [->|];
        [by injection H as <- <-|]. destruct (Z.eqb_spec t ValueTypeFuncref) as [->|];
        [by injection H as <- <-|done]. }
    pose proof (at_starts (pc + 1) t ltac:(lia) Et).
    plain_with [OpcodeRefNull; t] (@nil Z) [t] plain_ref_null.
  - unpack H. immediates.
    match goal with E : negb (bool_decide _) = false |- _ => apply negb_false_iff, bool_decide_eq_true in E end.
    plain_with (OpcodeRefFunc :: bs) (@nil Z) [ValueTypeFuncref] plain_ref_func.
    done.
Qed.

Lemma tableGetSet_plain op pc s pc' s' :
  0 <= pc -> at_ body pc = Ok op -> op = OpcodeTableGet \/ op = OpcodeTableSet ->
  tableGetSet enabledFeatures tables body op pc s = Ok (pc', s') -> plain_step pc s pc' s'.
Proof.
  unfold tableGetSet. intros H0 Hat Hop H.
  destruct Hop as [-> | ->]; cbn [Z.eqb Pos.eqb OpcodeTableGet OpcodeTableSet] in H; unpack H; immediates;
    match goal with E : tableAt tables _ = Ok ?t |- _ => apply tableAt_ok in E as [? ?]; rename t into tab end.
  - plain_with (OpcodeTableGet :: bs) [ValueTypeI32] [tb_Type tab] plain_table_get.
  - plain_with (OpcodeTableSet :: bs) [tb_Type tab; ValueTypeI32] (@nil Z) plain_table_set.
Qed.

Lemma atomic_plain pc s pc' s' :
  0 <= pc -> at_ body pc = Ok OpcodeAtomicPrefix ->
  atomic enabledFeatures memory body pc s = Ok (pc', s') -> plain_step pc s pc' s'.
Proof.
  unfold atomic. intros H0 Hat H. destruct (at_ body (pc + 1)) as [op|] eqn:Eop; [|done].
  destruct (needFeature _ _); [|done]. destruct (Z.eqb_spec op OpcodeAtomicFence) as [->|].
  - destruct (at_ body (pc + 1 + 1)) as [imm|] eqn:Ei; [|done].
    destruct (Z.eqb_spec imm 0) as [->|]; [|done]. injection H as <- <-.
    pose proof (at_starts (pc + 1 + 1) 0 ltac:(lia) Ei).
    plain_with [OpcodeAtomicPrefix; OpcodeAtomicFence; 0] (@nil Z) (@nil Z) plain_fence.
  - unpack H. immediates.
    match goal with E : atomic_case op = Some (_, ?ps, ?rs) |- _ =>
      destruct (atomic_case_spec _ _ _ _ (at_byte _ _ Eop) E) as ((w & ? & ?) & ? & ?);
      assert (memarg (natural false w) bs) by (apply Harg; intros; by eapply aligned_natural);
      plain_with (OpcodeAtomicPrefix :: op :: bs) ps rs plain_atomic end.
Qed.

Lemma known_app ts us : known ts -> known us -> known (ts ++ us).
Proof. unfold known. rewrite elem_of_app. tauto. Qed.
Lemma slice_starts pc n : 0 <= pc -> 0 <= n -> pc + n <= len body ->
  starts pc (sub body (Z.to_nat pc) (Z.to_nat n)) /\ len (sub body (Z.to_nat pc) (Z.to_nat n)) = n.
Proof.
  intros. split.
  - split; [done|]. eexists. unfold sub. by rewrite take_drop.
  - unfold len, sub in *. rewrite length_take, length_drop. lia.
Qed.
Lemma laneBelow_ok pc n u : laneBelow body pc n = Ok u ->
  exists lane, at_ body pc = Ok lane /\ lane < n.
Proof.
  unfold laneBelow. intros H. destruct (len body <=? pc); [done|].
  destruct (at_ body pc) as [lane|]; [|done]. destruct (Z.leb_spec n lane); [done|]. eauto.
Qed.
Lemma memLane_ok pc a n pc' : 0 <= pc -> memLane memory body pc a n = Ok pc' ->
  has_memory memory /\ exists bs lane, memarg (at_most false a) bs /\ lane < n /\ starts (pc + 1) (bs ++ [lane]) /\
    pc' = pc + 1 + len bs.
Proof.
  unfold memLane. intros H0 H. unpack H. immediates.
  match goal with E : laneBelow _ _ _ = Ok _ |- _ => apply laneBelow_ok in E as (lane & Ea & ?) end.
  split; [done|]. exists bs, lane. split_and!; [apply Harg; intros; by apply at_most_u32|done| |lia].
  eapply starts_app; [done|apply at_starts; [|done]; lia|lia].
Qed.

Lemma vector_plain pc s pc' s' :
  0 <= pc -> at_ body pc = Ok OpcodeVecPrefix ->
  vector enabledFeatures memory body pc s = Ok (pc', s') -> plain_step pc s pc' s'.
Proof.
  unfold vector. intros H0 Hat H. destruct (at_ body (pc + 1)) as [op|] eqn:Eop; [|done].
  pose proof (at_byte _ _ Eop) as Hb. destruct (lanes_spec op Hb) as (Hll & Hsl & Hvl & Hmax).
  destruct (needFeature _ _); [|done].
  assert (forall bs ps rs, vec false memory op bs ps rs -> known ps -> known rs -> starts (pc + 1 + 1) bs ->
    pc' = pc + 1 + len bs -> operate s ps rs = Ok s' -> plain_step pc s pc' s') as Hstep.
  { intros bs ps rs Hv ? ? Hst -> ?. exists (OpcodeVecPrefix :: op :: bs), ps, rs.
    split_and!; try done; [do 2 (apply starts_cons; [lia|done|]); done|rewrite !len_cons; lia|].
    by apply plain_vec. }
  assert (starts (pc + 1 + 1) []) as Hnil.
  { split; [lia|]. by eexists. }
  destruct (Z.eqb_spec op OpcodeVecV128Const) as [->|].
  { destruct (Z.leb_spec (len body) (pc + 1 + 16)); [done|]. injection H as <- <-.
    destruct (slice_starts (pc + 1 + 1) 16) as [? Hl]; [lia..|].
    eapply (Hstep _ [] [ValueTypeV128]); [apply vec_const, Hl|all_known|all_known|done|lia|done]. }
  destruct (vec_case op) as [[ps rs]|] eqn:Evc.
  { destruct (vec_case_spec _ _ _ Hb Evc) as (? & ? & ?). unpack H.
    apply (Hstep [] ps rs); try done; [by apply vec_numeric|rewrite len_nil; lia]. }
  destruct (oneof op vecLoads) eqn:Evl.
  { unpack H. immediates. apply (Hstep bs [ValueTypeI32] [ValueTypeV128]); try all_known; [|lia].
    apply vec_load; [done| |congruence]. apply Harg. intros. rewrite <-(Hmax eq_refl). by apply at_most_u32. }
  destruct (Z.eqb_spec op OpcodeVecV128Store) as [->|].
  { unpack H. immediates. apply (Hstep bs [ValueTypeV128; ValueTypeI32] []); try all_known; [|lia].
    apply vec_store; [done|]. apply Harg. intros. by apply at_most_int. }
  destruct (vecLoadLanes op) as [[a2 n2]|] eqn:Ell.
  { destruct (memLane memory body (pc + 1) a2 n2) as [pc1|] eqn:Em; [|done]. unpack H.
    apply memLane_ok in Em as (? & bs & lane & ? & ? & ? & ->); [|lia].
    apply (Hstep (bs ++ [lane]) [ValueTypeV128; ValueTypeI32] [ValueTypeV128]); try all_known;
      [|rewrite len_app, len_cons, len_nil; lia].
    destruct (Hll _ _ eq_refl) as [? ->]. by eapply vec_load_lane. }
  destruct (vecStoreLanes op) as [[a2 n2]|] eqn:Esl.
  { destruct (memLane memory body (pc + 1) a2 n2) as [pc1|] eqn:Em; [|done]. unpack H.
    apply memLane_ok in Em as (? & bs & lane & ? & ? & ? & ->); [|lia].
    apply (Hstep (bs ++ [lane]) [ValueTypeV128; ValueTypeI32] []); try all_known;
      [|rewrite len_app, len_cons, len_nil; lia].
    destruct (Hsl _ _ eq_refl) as [? ->]. by eapply vec_store_lane. }
  destruct (vecExtractLanes op) as [[n2 t]|] eqn:Eex.
  { destruct (extract_lanes_spec _ _ _ Hb Eex) as [? ?].
    destruct (laneBelow _ _ _) eqn:El; [|done]. apply laneBelow_ok in El as (lane & ? & ?). unpack H.
    apply (Hstep [lane] [ValueTypeV128] [t]); try all_known;
      [by eapply vec_extract|apply at_starts; [lia|done]]. }
  destruct (vecReplaceLanes op) as [[n2 t]|] eqn:Ere.
  { destruct (replace_lanes_spec _ _ _ Hb Ere) as [? ?].
    destruct (laneBelow _ _ _) eqn:El; [|done]. apply laneBelow_ok in El as (lane & ? & ?). unpack H.
    apply (Hstep [lane] [t; ValueTypeV128] [ValueTypeV128]); try all_known;
      [by eapply vec_replace|apply (known_app [t]); all_known|apply at_starts; [lia|done]]. }
  destruct (vecSplatValueTypes op) as [t|] eqn:Esp.
  { destruct (splat_types_spec _ _ Hb Esp) as [? ?]. unpack H.
    apply (Hstep [] [t] [ValueTypeV128]); try all_known; [by apply vec_splat|rewrite len_nil; lia]. }
  destruct (Z.eqb_spec op OpcodeVecV128i8x16Shuffle) as [->|]; [|done].
  destruct (Z.leb_spec (len body) (pc + 1 + 1 + 15)); [done|].
  destruct (existsb (Z.leb 32) _) eqn:Ex; [done|]. unpack H.
  destruct (slice_starts (pc + 1 + 1) 16) as [? Hl]; [lia..|].
  assert (Forall (fun l => l < 32) (sub body (Z.to_nat (pc + 1 + 1)) 16)) as Hlanes.
  { apply List.Forall_forall. intros x Hx. destruct (Z.ltb_spec x 32) as [|Hge]; [done|].
    assert (existsb (Z.leb 32) (sub body (Z.to_nat (pc + 1 + 1)) 16) = true) as Ht; [|congruence].
    apply List.existsb_exists. exists x. split; [done|]. by apply Z.leb_le. }
  apply (Hstep (sub body (Z.to_nat (pc + 1 + 1)) 16) [ValueTypeV128; ValueTypeV128] [ValueTypeV128]);
    try all_known.
  - by apply vec_shuffle.
  - change (Z.to_nat 16) with 16%nat in Hl. lia.
Qed.

Lemma dataIndex_ok pc pc' : 0 <= pc -> dataIndex m body pc = Ok pc' ->
  is_Some (DataCountSection m) /\
  exists x i, leb_u32 x i /\ i < len (DataSection m) /\ starts pc x /\ pc' + 1 = pc + len x /\ pc <= pc'.
Proof.
  unfold dataIndex. intros H0 H. unpack H. immediates. split; [by eexists|].
  match goal with E : (_ <=? ?i) = false |- _ => apply Z.leb_gt in E; exists bs, i end.
  split_and!; [done|lia|done|lia|lia].
Qed.
Lemma reservedZero_ok pc u : 0 <= pc -> reservedZero body pc = Ok u ->
  exists z, zero_byte z /\ len z = 1 /\ starts pc z.
Proof.
  unfold reservedZero. intros H0 H. unpack H. immediates. zbool; subst; cbn [negb orb] in *; try done.
  exists bs. split_and!; done || lia.
Qed.
Lemma elementAt_ok i e : elementAt m i = Ok e -> ElementSection m !! Z.to_nat i = Some e.
Proof. unfold elementAt. destruct (_ <=? _); [done|]. apply at_lookup. Qed.

Lemma bulkImmediates_ok op pc pc' ps :
  0 <= pc -> OpcodeMiscMemoryInit <= op <= OpcodeMiscTableCopy ->
  bulkImmediates m enabledFeatures memory tables body op pc = Ok (pc', ps) ->
  known ps /\ exists bs, bulk m memory tables op bs ps [] /\ starts (pc + 1) bs /\ pc' = pc + len bs.
Proof.
  unfold OpcodeMiscMemoryInit, OpcodeMiscTableCopy. intros H0 Hop H.
  assert (op = 8 \/ op = 9 \/ op = 10 \/ op = 11 \/ op = 12 \/ op = 13 \/ op = 14) as Hcases by lia.
  unfold bulkImmediates in H.
  destruct Hcases as [-> |[-> |[-> |[-> |[-> |[-> | ->]]]]]];
    cbn [Z.eqb Pos.eqb oneof existsb orb OpcodeMiscDataDrop OpcodeMiscMemoryInit OpcodeMiscMemoryCopy
         OpcodeMiscMemoryFill OpcodeMiscTableInit OpcodeMiscElemDrop OpcodeMiscTableCopy] in H;
    unpack H; immediates; (split; [all_known|]).
  - match goal with E : dataIndex _ _ _ = Ok _ |- _ =>
      apply dataIndex_ok in E as (? & x & i & ? & ? & ? & ? & ?); [|lia] end.
    match goal with E : reservedZero _ _ = Ok _ |- _ => apply reservedZero_ok in E as (z & ? & ? & ?); [|lia] end.
    exists (x ++ z). split_and!; [by eapply bulk_memory_init|eapply starts_app; [done..|lia]|rewrite len_app; lia].
  - match goal with E : dataIndex _ _ _ = Ok _ |- _ =>
      apply dataIndex_ok in E as (? & x & i & ? & ? & ? & ? & ?); [|lia] end.
    exists x. split_and!; [by eapply bulk_data_drop|done|lia].
  - match goal with E : reservedZero _ (pc + 1) = Ok _, E' : reservedZero _ (pc + 1 + 1) = Ok _ |- _ =>
      apply reservedZero_ok in E as (z & ? & ? & ?); [|lia];
      apply reservedZero_ok in E' as (z' & ? & ? & ?); [|lia] end.
    exists (z ++ z'). split_and!; [by eapply bulk_memory_copy|eapply starts_app; [done..|lia]|rewrite len_app; lia].
  - match goal with E : reservedZero _ _ = Ok _ |- _ => apply reservedZero_ok in E as (z & ? & ? & ?); [|lia] end.
    exists z. split_and!; [by eapply bulk_memory_fill|done|lia].
  - match goal with E : elementAt _ _ = Ok _, E' : tableAt _ _ = Ok _, E'' : negb _ = false |- _ =>
      apply elementAt_ok in E; apply tableAt_ok in E' as [? ?]; apply negb_false_iff, Z.eqb_eq in E'' end.
    eexists. split_and!; [eapply bulk_table_init; last done; [| |eassumption|eassumption]; eassumption|eapply starts_app; [done..|lia]|rewrite len_app; lia].
  - match goal with E : elementAt _ _ = Ok _ |- _ => apply elementAt_ok in E end.
    exists bs. split_and!; [by eapply bulk_elem_drop|done|lia].
  - do 2 match goal with E : tableAt _ _ = Ok _ |- _ => apply tableAt_ok in E as [? ?] end.
    match goal with E'' : negb _ = false |- _ => apply negb_false_iff, Z.eqb_eq in E'' end.
    eexists. split_and!; [eapply bulk_table_copy; last done; [| |eassumption|eassumption]; eassumption|eapply starts_app; [done..|lia]|rewrite len_app; lia].
Qed.

Lemma misc_plain pc s pc' s' :
  0 <= pc -> at_ body pc = Ok OpcodeMiscPrefix ->
  misc m enabledFeatures memory tables body pc s = Ok (pc', s') -> plain_step pc s pc' s'.
Proof.
  unfold misc. intros H0 Hat H.
  destruct (loadU32 _ body (pc + 1)) as [[op num]|] eqn:El; [|done]. immediates.
  destruct (Z.eqb_spec (u8 op) op) as [Eop|]; [|done]. cbn [negb] in H. rewrite Eop in H.
  assert (is_byte op) as Hb by (rewrite <-Eop; apply wrapu_range; lia).
  destruct ((OpcodeMiscI32TruncSatF32S <=? op) && (op <=? OpcodeMiscI64TruncSatF64U)) eqn:E1.
  { destruct (needFeature _ _); [|done]. apply andb_true_iff in E1 as [E1 E1'].
    apply Z.leb_le in E1, E1'.
    destruct (truncSat_case op) as [[t r]|] eqn:Et.
    - destruct (truncSat_spec _ _ _ Hb Et) as (? & ? & ?). change (default (0, 0) (Some (t, r))) with (t, r) in H. cbv iota in H. unpack H.
      exists (OpcodeMiscPrefix :: bs), [t], [r].
      split_and!; try done; [by apply starts_cons|rewrite len_cons; lia|by eapply plain_trunc_sat].
    - exfalso. pose proof (zrange_forallb (fun op => isSome (truncSat_case op)) 0 8
        ltac:(vm_compute; reflexivity) op) as Hz. cbv beta in Hz. rewrite Et in Hz.
      unfold OpcodeMiscI32TruncSatF32S, OpcodeMiscI64TruncSatF64U in *. discriminate Hz. lia. }
  destruct ((OpcodeMiscMemoryInit <=? op) && (op <=? OpcodeMiscTableCopy)) eqn:E2.
  { apply andb_true_iff in E2 as [E2 E2']. apply Z.leb_le in E2, E2'.
    destruct (needFeature _ _); [|done].
    destruct (bulkImmediates _ _ _ _ _ _ _) as [[pc1 ps]|] eqn:Eb; [|done].
    apply bulkImmediates_ok in Eb as (? & bs' & ? & ? & ->); [|lia|done]. unpack H.
    exists (OpcodeMiscPrefix :: bs ++ bs'), ps, []. split_and!; try done.
    - apply starts_cons; [done..|]. eapply starts_app; [done..|lia].
    - rewrite len_cons, len_app. lia.
    - by eapply plain_bulk.
    - by apply operate_pops. }
  destruct ((OpcodeMiscTableGrow <=? op) && (op <=? OpcodeMiscTableFill)) eqn:E3; [|done].
  apply andb_true_iff in E3 as [E3 E3']. apply Z.leb_le in E3, E3'.
  destruct (needFeature _ _); [|done].
  destruct (loadU32 _ body _) as [[t num']|] eqn:El; [|done]. immediates.
  destruct (tableAt tables t) as [tab|] eqn:Et; [|done]. apply tableAt_ok in Et as [? ?].
  unfold OpcodeMiscTableGrow, OpcodeMiscTableSize, OpcodeMiscTableFill in *.
  assert (exists ps rs, bulk m memory tables op bs0 ps rs /\ known ps /\ known rs /\
    operate s ps rs = Ok s' /\ pc' = pc + 1 + (num - 1) + 1 + (num' - 1)) as (ps & rs & ? & ? & ? & ? & ->).
  { assert (op = 15 \/ op = 16 \/ op = 17) as [-> |[-> | ->]] by lia; cbn [Z.eqb Pos.eqb] in H; unpack H.
    - do 2 eexists. split_and!; [by eapply bulk_table_grow|all_known..|done|done].
    - do 2 eexists. split_and!; [by eapply bulk_table_size|all_known..|done|done].
    - do 2 eexists. split_and!; [by eapply bulk_table_fill|all_known..|done|done]. }
  exists (OpcodeMiscPrefix :: bs ++ bs0), ps, rs. split_and!; try done.
  - apply starts_cons; [done..|]. eapply starts_app; [done..|lia].
  - rewrite len_cons, len_app. lia.
  - by eapply plain_bulk.
Qed.

(** ** Control flow *)
Definition step_ok (pc : Z) (cs : list controlBlock) (bs0 : list Z) (pc' : Z) (s' : valueTypeStack) : Prop :=
  exists bs, starts pc bs /\ pc' + 1 = pc + len bs /\ inv s' cs [] (bs0 ++ bs).

Lemma plain_step_ok pc s cs bs0 pc' s' :
  inv s cs [] bs0 -> plain_step pc s pc' s' -> step_ok pc cs bs0 pc' s'.
Proof.
  intros Hi (bs & ps & rs & Hst & Hpc & Hp & Hkp & Hkr & Ho). exists bs. split_and!; [done..|].
  by eapply operate_inv.
Qed.

Lemma zipper_known cs ls st pend bs :
  zipper cs ls st pend bs -> Forall (fun cb => known (labelType cb)) cs.
Proof.
  induction 1 as [bl es seg pend Hop Hbt _ _|bl cs l ls outer bs imm es0 es seg pend Hz IH _ Hb _ _].
  - constructor; [|constructor]. unfold labelType. rewrite Hbt.
    destruct (function_known Hctx). by destruct (_ =? _).
  - constructor; [|done]. destruct Hb as (_ & ? & ? & _). unfold labelType. by destruct (_ =? _).
Qed.
Lemma label_ok s cs pend bs i target :
  inv s cs pend bs -> at_ cs i = Ok target ->
  labels cs !! Z.to_nat i = Some (labelType target) /\ known (labelType target).
Proof.
  intros Hi%zipper_known E%at_lookup. split.
  - unfold labels. by rewrite list_lookup_fmap, E.
  - apply (Forall_lookup_1 _ _ _ _ Hi E).
Qed.

Lemma br_ok pc s cs bs0 pc' s' :
  0 <= pc -> at_ body pc = Ok OpcodeBr -> inv s cs [] bs0 ->
  br body pc s cs = Ok (pc', s') -> step_ok pc cs bs0 pc' s'.
Proof.
  unfold br. intros H0 Hat Hi H. unpack H. immediates.
  match goal with E : at_ cs _ = Ok ?t |- _ => destruct (label_ok _ _ _ _ _ _ Hi E) as [Hl Hk] end.
  match goal with E : popResults _ _ _ = Ok _ |- _ =>
    apply (requireStackValues_inv _ _ _ _ _ _ _ _ Hi) in E as (Hi' & _ & _); [|done] end.
  exists (OpcodeBr :: bs). split_and!; [by apply starts_cons|rewrite len_cons; lia|].
  eapply (unreachable_inv _ _ _ _ (Br bs _)); [done..|]. intros ts us. by eapply ok_br.
Qed.

Lemma br_if_ok pc s cs bs0 pc' s' :
  0 <= pc -> at_ body pc = Ok OpcodeBrIf -> inv s cs [] bs0 ->
  br_if body pc s cs = Ok (pc', s') -> step_ok pc cs bs0 pc' s'.
Proof.
  unfold br_if. intros H0 Hat Hi H. unpack H. immediates.
  match goal with E : at_ cs _ = Ok ?t |- _ => destruct (label_ok _ _ _ _ _ _ Hi E) as [Hl Hk] end.
  match goal with E : popAndVerifyType _ _ = Ok _ |- _ =>
    apply (popAndVerifyType_inv _ _ _ _ _ _ Hi) in E as Hi1; [|done] end.
  match goal with E : popResults _ _ _ = Ok _ |- _ =>
    apply (requireStackValues_inv _ _ _ _ _ _ _ _ Hi1) in E as (Hi2 & _ & _); [|done] end.
  exists (OpcodeBrIf :: bs). split_and!; [by apply starts_cons|rewrite len_cons; lia|].
  apply pushAll_inv; [|done]. eapply (emit _ _ _ _ _ (BrIf bs _)); [done|]. by eapply ok_br_if.
Qed.

Lemma readLabels_ok n r num ls num' r' :
  readLabels n r num = Ok (ls, num', r') ->
  exists b, r = b ++ r' /\ leb_list b ls /\ num' = num + len b /\ length ls = n.
Proof.
  revert r num ls num' r'. induction n as [|n IH]; intros r num ls num' r' H; cbn [readLabels] in H.
  { injection H as <- <- <-. exists []. split_and!; [done|constructor|rewrite len_nil; lia|done]. }
  destruct (Leb128.LoadUint32 r) as [[l k]|] eqn:El; [|done]. cbn [map_err] in H.
  apply Leb128.LoadUint32_prefix in El as [Hk El].
  destruct (readLabels n _ _) as [[[ls1 num1] r1]|] eqn:Er; [|done]. injection H as <- <- <-.
  apply IH in Er as (b & Eb & ? & -> & <-).
  assert (len (take (Z.to_nat k) r) = k) as Elen by (unfold len in *; rewrite length_take; lia).
  exists (take (Z.to_nat k) r ++ b). split_and!; [| |rewrite len_app; lia|done].
  - rewrite <-(assoc_L (++)), <-Eb. by rewrite take_drop.
  - constructor; [|done]. unfold leb_u32. by rewrite Elen.
Qed.

Lemma popDefault_inv s cs pend bs i wanted ts s' :
  inv s cs pend bs -> popDefault s i wanted = Ok (ts, s') ->
  inv s' cs (pend ++ ts) bs /\ subs ts wanted.
Proof.
  revert s pend i ts. induction wanted as [|w wanted IH]; intros s pend i ts Hi H; cbn [popDefault] in H.
  { injection H as <- <-. by rewrite app_nil_r. }
  unfold pop in H. destruct (tryPop s) as [[v s1]|] eqn:E; [|done].
  pose proof (tryPop_inv _ _ _ _ _ _ Hi E) as Hi1.
  destruct (negb (v =? valueTypeUnknown) && negb (v =? w)) eqn:Ec; [done|].
  destruct (popDefault s1 (i + 1) wanted) as [[ts1 s2]|] eqn:Ed; [|done]. injection H as <- <-.
  destruct (IH _ _ _ _ Hi1 Ed) as [Hi2 Hs]. rewrite <-(assoc_L (++)) in Hi2.
  destruct (Z.eqb_spec v valueTypeUnknown) as [->|]; [split; [done|constructor; [by right|done]]|].
  destruct (Z.eqb_spec v w) as [->|]; [|done]. split; [done|constructor; [by left|done]].
Qed.

Lemma checkLabel_ok cs d l : checkLabel cs d l = Ok tt ->
  exists label, labels cs !! Z.to_nat l = Some label /\ subs d label.
Proof.
  unfold checkLabel. destruct (_ <=? _); [done|]. destruct (at_ cs l) as [t|] eqn:Et; [|done].
  destruct (Z.eqb_spec (len d) (len (labelType t))) as [El|]; [|done]. cbn [negb].
  destruct (existsb _ _) eqn:Ex; [done|]. intros _. apply at_lookup in Et.
  exists (labelType t). split; [unfold labels; by rewrite list_lookup_fmap, Et|].
  revert Ex. assert (length d = length (labelType t)) as El' by (unfold len in El; lia). clear El Et.
  revert El'. generalize (labelType t). induction d as [|x d IH]; intros [|y lt] El Ex; try done.
  cbn [zip zip_with existsb] in Ex. apply orb_false_iff in Ex as [Ex1 Ex2].
  constructor; [|apply IH; [by injection El|done]]. unfold sub1.
  destruct (Z.eqb_spec x valueTypeUnknown); [by right|]. destruct (Z.eqb_spec x y); [by left|done].
Qed.

Lemma subs_rev ts us : subs ts us -> subs (rev ts) (rev us).
Proof. unfold subs. induction 1; cbn [rev]; [constructor|]. apply Forall2_app; auto. Qed.

(** The operands of [br_table], whichever way they are popped. *)
Lemma br_table_operands s cs pend bs label d s' :
  inv s cs pend bs -> known label ->
  (if IsEnabled enabledFeatures CoreFeatureReferenceTypes then
     let! (ts, s) := popDefault s 0 (rev label) in Ok (rev ts, s)
   else let! s := popResults s label false in Ok (label, s)) = Ok (d, s') ->
  inv s' cs (pend ++ rev d) bs /\ subs d label.
Proof.
  intros Hi Hk H. destruct (IsEnabled _ _).
  - destruct (popDefault s 0 (rev label)) as [[ts s1]|] eqn:Ed; [|done]. injection H as <- <-.
    destruct (popDefault_inv _ _ _ _ _ _ _ _ Hi Ed) as [? Hs]. rewrite rev_involutive. split; [done|].
    apply subs_rev in Hs. by rewrite rev_involutive in Hs.
  - destruct (popResults s label false) as [s1|] eqn:Er; [|done]. injection H as <- <-.
    by destruct (requireStackValues_inv _ _ _ _ _ _ _ _ Hi Er Hk) as (? & _).
Qed.

Lemma br_table_ok pc s cs bs0 pc' s' :
  0 <= pc -> at_ body pc = Ok OpcodeBrTable -> inv s cs [] bs0 ->
  br_table enabledFeatures body pc s cs = Ok (pc', s') -> step_ok pc cs bs0 pc' s'.
Proof.
  unfold br_table. intros H0 Hat Hi H.
  destruct (from body (pc + 1)) as [r|] eqn:Ef; [|done].
  destruct (Leb128.LoadUint32 r) as [[nl num]|] eqn:En; [|done]. cbn [map_err] in H.
  destruct (readLabels _ _ _) as [[[ls num1] r1]|] eqn:Er; [|done].
  destruct (Leb128.LoadUint32 r1) as [[ln n]|] eqn:El; [|done]. cbn [map_err] in H.
  destruct (len cs <=? ln); [done|].
  destruct (popAndVerifyType s ValueTypeI32) as [s1|] eqn:Ep; [|done].
  destruct (at_ cs ln) as [lnLabel|] eqn:Et; [|done].
  destruct (label_ok _ _ _ _ _ _ Hi Et) as [Hl Hk].
  destruct (if IsEnabled _ _ then _ else _) as [[d s2]|] eqn:Eo; [|done].
  destruct (each _ ls) as [[]|] eqn:Ec; [|done].
  destruct (unreachable s2) as [s3|] eqn:Eu; [|done]. injection H as <- <-.
  apply (popAndVerifyType_inv _ _ _ _ _ _ Hi) in Ep as Hi1; [|done].
  destruct (br_table_operands _ _ _ _ _ _ _ Hi1 Hk Eo) as [Hi2 Hs].
  apply Leb128.LoadUint32_prefix in En as [Hn En], El as [Hn' El].
  apply readLabels_ok in Er as (b & Eb & Hls & -> & Hlen).
  set (b0 := take (Z.to_nat num) r). set (b2 := take (Z.to_nat n) r1).
  assert (len b0 = num /\ len b2 = n) as [Eb0 Eb2] by (unfold len, b0, b2 in *; rewrite !length_take; lia).
  exists (OpcodeBrTable :: b0 ++ b ++ b2). split_and!.
  - apply starts_cons; [done..|]. unfold from in Ef. destruct (len body <? pc + 1); [done|].
    injection Ef as Ef. split; [lia|]. exists (drop (Z.to_nat n) r1).
    unfold b0, b2. by rewrite Ef, <-!(assoc_L (++)), take_drop, <-Eb, take_drop.
  - rewrite len_cons, !len_app. lia.
  - eapply (unreachable_inv _ _ _ _ (BrTable (b0 ++ b ++ b2) ls ln)); [done..|]. intros ts us.
    apply ok_br_table.
    + exists b0, nl, b, b2. unfold leb_u32. rewrite Eb0, Eb2. done.
    + constructor; [eauto|]. apply each_Forall in Ec. eapply Forall_impl; [done|]. intros l Hcl.
      by apply checkLabel_ok.
Qed.

Lemma return_ok pc s cs bs0 s' :
  0 <= pc -> at_ body pc = Ok OpcodeReturn -> inv s cs [] bs0 ->
  return_ functionType s = Ok s' -> step_ok pc cs bs0 pc s'.
Proof.
  unfold return_. intros H0 Hat Hi H. destruct (requireStackValues _ _ _ _) as [s1|] eqn:Er; [|done].
  destruct (requireStackValues_inv _ _ _ _ _ _ _ _ Hi Er) as (Hi1 & _); [apply (function_known Hctx)|].
  exists [OpcodeReturn]. split_and!; [by apply at_starts|done|].
  eapply (unreachable_inv _ _ _ _ Return); [done..|]. intros ts us. apply ok_return.
Qed.

Lemma drop_ok pc s cs bs0 v s' :
  0 <= pc -> at_ body pc = Ok OpcodeDrop -> inv s cs [] bs0 ->
  pop s = Ok (v, s') -> step_ok pc cs bs0 pc s'.
Proof.
  unfold pop. intros H0 Hat Hi H. destruct (tryPop s) as [[v1 s1]|] eqn:E; [|done]. injection H as -> ->.
  exists [OpcodeDrop]. split_and!; [by apply at_starts|done|].
  eapply (emit _ _ _ _ _ Drop); [by eapply tryPop_inv|]. constructor.
Qed.

Lemma ref_is_null_ok pc s cs bs0 pc' s' :
  0 <= pc -> at_ body pc = Ok OpcodeRefIsNull -> inv s cs [] bs0 ->
  reference enabledFeatures declared body OpcodeRefIsNull pc s = Ok (pc', s') -> step_ok pc cs bs0 pc' s'.
Proof.
  unfold reference, pop. intros H0 Hat Hi H. cbn [Z.eqb Pos.eqb OpcodeRefIsNull OpcodeRefNull] in H.
  destruct (needFeature _ _); [|done]. destruct (tryPop s) as [[v s1]|] eqn:E; [|done].
  destruct (negb (isReferenceValueType v) && negb (v =? valueTypeUnknown)) eqn:Er; [done|].
  injection H as <- <-. exists [OpcodeRefIsNull]. split_and!; [by apply at_starts|done|].
  apply push_inv; [|done]. eapply (emit _ _ _ _ _ RefIsNull); [by eapply tryPop_inv|].
  constructor. destruct (isReferenceValueType v); [by left|]. right. by destruct (Z.eqb_spec v valueTypeUnknown).
Qed.

Lemma select_ok op pc s cs bs0 pc' s' :
  0 <= pc -> at_ body pc = Ok op -> op = OpcodeSelect \/ op = OpcodeTypedSelect -> inv s cs [] bs0 ->
  select enabledFeatures body op pc s = Ok (pc', s') -> step_ok pc cs bs0 pc' s'.
Proof.
  unfold select, pop. intros H0 Hat Hop Hi H.
  destruct (popAndVerifyType s ValueTypeI32) as [s1|] eqn:Ep; [|done].
  apply (popAndVerifyType_inv _ _ _ _ _ _ Hi) in Ep as Hi1; [|done].
  destruct (tryPop s1) as [[v1 s2]|] eqn:E1; [|done]. pose proof (tryPop_inv _ _ _ _ _ _ Hi1 E1) as Hi2.
  destruct (tryPop s2) as [[v2 s3]|] eqn:E2; [|done]. pose proof (tryPop_inv _ _ _ _ _ _ Hi2 E2) as Hi3.
  set (t := if v1 =? valueTypeUnknown then v2 else v1) in *.
  destruct (if op =? OpcodeTypedSelect then _ else _) as [pc1|] eqn:Eo; [|done].
  destruct (negb (v1 =? v2) && _ && _) eqn:Ec; [done|]. injection H as <- <-.
  assert (subs [ValueTypeI32; v1; v2] [ValueTypeI32; t; t] /\ (t = valueTypeUnknown -> v2 = valueTypeUnknown))
    as [Hs Ht].
  { unfold t. destruct (Z.eqb_spec v1 valueTypeUnknown) as [->|Hv1].
    { split; [|done]. constructor; [by left|]. constructor; [by right|]. constructor; [by left|constructor]. }
    split; [|done]. constructor; [by left|]. constructor; [by left|]. constructor; [|constructor].
    unfold sub1. destruct (Z.eqb_spec v1 v2) as [->|]; [by left|].
    destruct (Z.eqb_spec v2 valueTypeUnknown); [by right|done]. }
  apply (inv_weaken _ _ _ _ _ Hi3) in Hs as Hi4.
  assert (forall i bs, bytes i = bs -> instr_ok (labels cs) i [ValueTypeI32; t; t] [t] ->
    inv (push s3 t) cs [] (bs0 ++ bs)) as Hpush.
  { intros i bs <- Hik. apply push_inv; [by eapply emit|]. intros Hu. rewrite (Ht Hu) in E2.
    exact (tryPop_unknown _ _ _ _ _ Hi2 E2). }
  destruct Hop as [-> | ->]; cbn [Z.eqb Pos.eqb OpcodeSelect OpcodeTypedSelect] in Eo.
  - destruct (isReferenceValueType v1 || isReferenceValueType v2) eqn:Er; [done|]. injection Eo as <-.
    apply orb_false_iff in Er as [? ?]. exists [OpcodeSelect].
    split_and!; [by apply at_starts|done|]. apply (Hpush Select); [done|]. constructor.
    unfold t. by destruct (_ =? _).
  - destruct (needFeature _ _); [|done]. destruct (at_ body (pc + 1)) as [n|] eqn:En; [|done].
    destruct (Z.eqb_spec n 1) as [->|]; [|done]. cbn [negb] in Eo.
    destruct (at_ body (pc + 1 + 1)) as [ann|] eqn:Ea; [|done].
    destruct (isValueType ann) eqn:Ev; [|done]. injection Eo as <-.
    exists [OpcodeTypedSelect; 1; ann]. split_and!.
    + do 2 (apply starts_cons; [lia|done|]). apply at_starts; [lia|done].
    + rewrite !len_cons, len_nil. lia.
    + apply (Hpush (TypedSelect ann)); [done|]. by constructor.
Qed.

Lemma pushAll_stack s vs :
  stack (pushAll s vs) = rev vs ++ stack s /\ stackLimits (pushAll s vs) = stackLimits s.
Proof.
  revert s. induction vs as [|v vs IH]; intros s; [done|]. cbn [pushAll fold_left rev].
  destruct (IH (push s v)) as [E1 E2]. unfold pushAll in *. rewrite E1, E2. cbn [push stack stackLimits].
  by rewrite <-(assoc_L (++)).
Qed.

Lemma DecodeBlockType_ok pc r bt num :
  0 <= pc -> from body pc = Ok r -> DecodeBlockType (TypeSection m) r enabledFeatures = Ok (bt, num) ->
  known (ft_Params bt) /\ known (ft_Results bt) /\
  exists bs, block_type m bs bt /\ len bs = num /\ starts pc bs /\ 1 <= num.
Proof.
  intros H0 Hf H. unfold DecodeBlockType in H.
  destruct (Leb128.DecodeInt33AsInt64 (Leb128.buf_next r)) as [[raw k]|] eqn:El; [|done].
  destruct (prefix_starts _ _ _ _ _ Leb128.DecodeInt33_prefix H0 Hf El) as (bs & Hl & Hlen & Hst & Hk).
  cbn [map_err] in H.
  assert (forall t, t <> valueTypeUnknown ->
    In (raw, t) [(-1, ValueTypeI32); (-2, ValueTypeI64); (-3, ValueTypeF32); (-4, ValueTypeF64);
      (-5, ValueTypeV128); (-16, ValueTypeFuncref); (-17, ValueTypeExternref)] ->
    Ok (blockType_v t, k) = @Ok val_err _ (bt, num) ->
    known (ft_Params bt) /\ known (ft_Results bt) /\
    exists bs, block_type m bs bt /\ len bs = num /\ starts pc bs /\ 1 <= num) as Hone.
  { intros t Ht Hin [= <- <-]. cbn [blockType_v ft_Params ft_Results]. split_and!; [all_known..|]. exists bs. split_and!; try done.
    exists raw. split; [done|]. right. left. eauto. }
  repeat match type of H with (if raw =? ?c then _ else _) = _ =>
    destruct (Z.eqb_spec raw c) as [->|];
      [first [by eapply Hone; [| |exact H]; [done|cbn [In]; tauto] | injection H as <- <-;
        split_and!; [all_known..|]; exists bs; split_and!; try done; exists (-64); eauto]|] end.
  destruct (requireEnabled _ _); [|done].
  destruct ((raw <? 0) || (len (TypeSection m) <=? raw)) eqn:Er; [done|].
  apply orb_false_iff in Er as [Er%Z.ltb_ge _].
  destruct (at_ (TypeSection m) raw) as [ft|] eqn:Et; [|done]. injection H as <- <-.
  apply typeAt_ok in Et as (? & ? & ?). split_and!; [done..|]. exists bs. split_and!; try done.
  exists raw. split; [done|]. right. right. done.
Qed.

Definition stack_ok (pc : Z) (s : valueTypeStack) (cs : list controlBlock) : Prop :=
  inv s cs [] (take (Z.to_nat pc) body).

Lemma step_stack_ok pc s cs pc' :
  step_ok pc cs (take (Z.to_nat pc) body) pc' s -> 0 <= pc' + 1 /\ stack_ok (pc' + 1) s cs.
Proof.
  intros (bs & Hst & -> & Hi). unfold stack_ok. rewrite (starts_take _ _ Hst). split; [|done].
  destruct Hst as [? _]. pose proof (len_nonneg bs). lia.
Qed.

Lemma known_den seg ts : known seg -> den seg ts -> ts = seg.
Proof.
  intros Hk [->|(xs & pre & -> & _)]; [done|]. destruct Hk. apply elem_of_app. right. by left.
Qed.
Lemma known_tidy seg : known seg -> tidy seg.
Proof. by intros Hk ?%Hk. Qed.

(** The start of the inner sequence of a block. *)
Lemma zipper_enter s s' cs bl imm es0 bs0 :
  inv s cs (hole bl) bs0 -> block_ok (labels cs) bl imm es0 ->
  stack s' = rev (ft_Params (blockType bl)) ++ stack s ->
  stackLimits s' = len (stack s) :: stackLimits s ->
  inv s' (bl :: cs) [] (bs0 ++ opening bl imm es0).
Proof.
  intros Hi Hb E1 E2. unfold inv. rewrite E1, E2, <-(app_nil_r (opening bl imm es0)).
  assert (known (ft_Params (blockType bl))) as Hk by (by destruct Hb as (_ & ? & _)).
  eapply (zip_inner _ _ _ _ _ _ _ _ []); [done..|by apply known_tidy, known_rev|].
  intros ts Hts. apply known_den in Hts as ->; [|by apply known_rev]. by constructor.
Qed.

Lemma enter_ok op pc s cs pc' s' cs' :
  0 <= pc -> at_ body pc = Ok op -> op = OpcodeBlock \/ op = OpcodeLoop \/ op = OpcodeIf ->
  stack_ok pc s cs -> enter m enabledFeatures body op pc s cs = Ok (pc', s', cs') ->
  0 <= pc' + 1 /\ stack_ok (pc' + 1) s' cs'.
Proof.
  unfold enter, stack_ok. intros H0 Hat Hop Hi H.
  destruct (from body (pc + 1)) as [r|] eqn:Ef; [|done].
  destruct (DecodeBlockType _ _ _) as [[bt num]|] eqn:Ed; [|done].
  apply (DecodeBlockType_ok (pc + 1)) in Ed as (Hkp & Hkr & imm & Hbt & Hlen & Hst & Hn); [|lia|done].
  set (bl := mkBlock pc 0 0 bt num (if op =? OpcodeBlock then 0 else op)) in *.
  destruct (if op =? OpcodeIf then _ else _) as [s1|] eqn:E1; [|done].
  destruct (popParams s1 (ft_Params bt) false) as [s2|] eqn:E2; [|done]. injection H as <- <- <-.
  assert (inv s1 cs (if op =? OpcodeIf then [ValueTypeI32] else []) (take (Z.to_nat pc) body)) as Hi1.
  { destruct (op =? OpcodeIf); [|by injection E1 as ->].
    by apply (popAndVerifyType_inv _ _ [] _ _ _ Hi) in E1. }
  destruct (requireStackValues_inv _ _ _ _ _ _ _ _ Hi1 E2 Hkp) as (Hi2 & Els & _).
  destruct (pushAll_stack s2 (ft_Params bt)) as [Es Els2].
  split; [lia|]. pose proof (starts_cons _ _ _ H0 Hat Hst) as Hst'.
  replace (pc + num + 1) with (pc + len (op :: imm)) by (rewrite len_cons; lia).
  rewrite (starts_take _ _ Hst').
  replace (op :: imm) with (opening bl imm []) by (destruct Hop as [-> |[-> | ->]]; done).
  apply (zipper_enter s2).
  - by destruct Hop as [-> |[-> | ->]].
  - split_and!; [done..| | |].
    + destruct Hop as [-> |[-> | ->]]; repeat first [apply list_elem_of_here|apply list_elem_of_further].
    + intros _. cbn. lia.
    + by destruct Hop as [-> |[-> | ->]].
  - cbn [pushStackLimit stack]. done.
  - cbn [pushStackLimit stackLimits]. rewrite Es, Els2, len_app. unfold len. rewrite length_rev. f_equal. lia.
Qed.

(** The sequence of a block whose results have been taken off the stack. *)
Lemma nothing_left s : segment s = [] \/ segment s = [valueTypeUnknown] -> den (segment s) [].
Proof. intros [-> | ->]; [by left|]. apply den_unknown. Qed.

Lemma zipper_inner_inv s bl cs pend bs :
  inv s (bl :: cs) pend bs -> cb_op bl <> 0 \/ cs <> [] ->
  exists outer ls bs1 imm es0 es seg, stack s = seg ++ outer /\ stackLimits s = len outer :: ls /\
    zipper cs ls outer (hole bl) bs1 /\ block_ok (labels cs) bl imm es0 /\
    bs = bs1 ++ opening bl imm es0 ++ flat_map bytes es /\ segment s = seg /\
    forall ts, den seg ts -> seq_ok (labels (bl :: cs)) es (rev (ft_Params (blockType bl))) (pend ++ ts).
Proof.
  unfold inv. intros Hi Hne. inversion Hi as [? ? ? ? Hop|? ? l ls outer bs1 imm es0 es seg ? Hz Hl Hb Ht Hok E1 E2 E3 E4 E5];
    subst; [by destruct Hne|].
  exists outer, ls, bs1, imm, es0, es, seg. split_and!; try done.
  apply segment_app with outer; [done|]. unfold stackLimit. by rewrite <-E2.
Qed.

Lemma zipper_outer_inv s bl pend bs :
  inv s [bl] pend bs -> cb_op bl = 0 ->
  exists es, bs = flat_map bytes es /\ blockType bl = functionType /\
    forall ts, den (segment s) ts -> seq_ok (labels [bl]) es [] (pend ++ ts).
Proof.
  unfold inv. intros Hi Hop. remember [bl] as cs eqn:Ecs. remember (stackLimits s) as ls eqn:El.
  remember (stack s) as st eqn:Es.
  destruct Hi as [bl' es seg pend _ Hbt _ Hok|? ? ? ? ? ? ? ? ? ? ? Hz]; injection Ecs; intros; subst.
  - exists es. split_and!; try done.
    rewrite (segment_app s (stack s) []); [done|by rewrite app_nil_r|unfold stackLimit; by rewrite <-El].
  - inversion Hz.
Qed.

Lemma else_ok pc s cs pc' s' cs' :
  0 <= pc -> at_ body pc = Ok OpcodeElse -> stack_ok pc s cs ->
  else_ pc s cs = Ok (pc', s', cs') -> 0 <= pc' + 1 /\ stack_ok (pc' + 1) s' cs'.
Proof.
  unfold else_, stack_ok. intros H0 Hat Hi H. destruct cs as [|bl cs]; [done|].
  destruct (Z.eqb_spec (cb_op bl) OpcodeIf) as [Hop|]; [|done]. cbn [negb] in H.
  set (bl' := mkBlock (startAt bl) pc (endAt bl) (blockType bl) (blockTypeBytes bl) OpcodeElse) in *.
  destruct (popResults s _ true) as [s1|] eqn:E1; [|done].
  destruct (resetAtStackLimit s1) as [s2|] eqn:E2; [|done]. injection H as <- <- <-. split; [lia|].
  destruct (zipper_inner_inv _ _ _ _ _ Hi) as (? & ? & ? & ? & ? & ? & ? & _ & _ & _ & Hb & _);
    [left; by rewrite Hop|].
  destruct Hb as (_ & _ & Hkr & _).
  destruct (requireStackValues_inv _ _ _ _ _ _ _ _ Hi E1 Hkr) as (Hi1 & _ & Hnone).
  destruct (zipper_inner_inv _ _ _ _ _ Hi1) as (outer & ls & bs1 & imm & es0 & es & seg & Es & Els & Hz & Hb & Ebs & Eseg & Hok);
    [left; by rewrite Hop|].
  pose proof (nothing_left _ (Hnone eq_refl)) as Hden. rewrite Eseg in Hden. apply Hok in Hden.
  rewrite app_nil_r in Hden.
  apply (reset_outer _ _ _ _ Es) in E2 as ->; [|unfold stackLimit; by rewrite Els].
  destruct (pushAll_stack (mkVS outer (stackLimits s1) (maximumStackPointer s1)) (ft_Params (blockType bl)))
    as [Ep1 Ep2]. cbn [stack stackLimits] in Ep1, Ep2.
  change (pc + 1) with (pc + len [OpcodeElse]). rewrite (starts_take _ _ (at_starts _ _ H0 Hat)), Ebs.
  replace ((bs1 ++ opening bl imm es0 ++ flat_map bytes es) ++ [OpcodeElse])
    with (bs1 ++ opening bl' imm es).
  2:{ unfold opening. rewrite Hop. cbn [Z.eqb Pos.eqb OpcodeIf OpcodeElse bl' cb_op]. by rewrite <-!(assoc_L (++)). }
  apply (zipper_enter (mkVS outer ls 0)).
  - unfold inv. cbn [stack stackLimits].
    replace (hole bl') with (hole bl); [done|]. unfold hole. by rewrite Hop.
  - destruct Hb as (? & ? & ? & _). split_and!; [done..| |done|].
    + repeat first [apply list_elem_of_here|apply list_elem_of_further].
    + intros _. cbn [bl' blockType]. replace (ft_Results (blockType bl)) with (labelType bl) at 1; [done|].
      unfold labelType. by rewrite Hop.
  - exact Ep1.
  - rewrite Ep2. exact Els.
Qed.

(** The body is read and typed. *)
Definition finished (pc : Z) : Prop :=
  exists es, take (Z.to_nat pc) body = flat_map bytes es ++ [OpcodeEnd] /\
    seq_ok [ft_Results functionType] es [] (rev (ft_Results functionType)).

(** The instruction a block was, once it is closed. *)
Lemma close_block L bl imm es0 es :
  block_ok L bl imm es0 ->
  (cb_op bl = OpcodeIf -> ft_Results (blockType bl) = ft_Params (blockType bl)) ->
  seq_ok (labelType bl :: L) es (rev (ft_Params (blockType bl))) (rev (ft_Results (blockType bl))) ->
  exists i, instr_ok L i (hole bl) (rev (ft_Results (blockType bl))) /\
    bytes i = opening bl imm es0 ++ flat_map bytes es ++ [OpcodeEnd].
Proof.
  intros (Hbt & _ & _ & Hop & _ & Helse) Hif Hes.
  rewrite !elem_of_cons, elem_of_nil in Hop. unfold labelType, hole, opening in *.
  destruct Hop as [E|[E|[E|[E|[]]]]]; rewrite E in *; cbn [Z.eqb Pos.eqb oneof existsb orb app OpcodeIf OpcodeElse OpcodeLoop] in *.
  - exists (Block imm (blockType bl) es). split; [by constructor|]. cbn [bytes app]. by rewrite <-?(assoc_L (++)).
  - exists (Loop imm (blockType bl) es). split; [by constructor|]. done.
  - exists (If imm (blockType bl) es). split; [constructor; auto|]. done.
  - exists (IfElse imm (blockType bl) es0 es). split; [constructor; auto|].
    cbn [bytes app]. f_equal. by rewrite <-!(assoc_L (++)).
Qed.

Lemma end_ok pc s cs pc' s' cs' :
  0 <= pc -> at_ body pc = Ok OpcodeEnd -> stack_ok pc s cs ->
  end_ pc s cs = Ok (pc', s', cs') ->
  0 <= pc' + 1 /\ (stack_ok (pc' + 1) s' cs' \/ (cs' = [] /\ finished (pc' + 1))).
Proof.
  unfold end_, stack_ok. intros H0 Hat Hi H. destruct cs as [|bl cs]; [done|].
  destruct (_ && negb (bool_decide _)) eqn:Eif; [done|].
  destruct (requireStackValues s false _ true) as [s1|] eqn:E1; [|done].
  destruct (resetAtStackLimit s1) as [s2|] eqn:E2; [|done]. injection H as <- <- <-. split; [lia|].
  change (pc + 1) with (pc + len [OpcodeEnd]). rewrite (starts_take _ _ (at_starts _ _ H0 Hat)).
  assert (known (ft_Results (blockType bl))) as Hkr.
  { inversion Hi as [? ? ? ? _ Hbt|]; subst.
    - rewrite Hbt. apply (function_known Hctx).
    - match goal with Hb : block_ok _ bl _ _ |- _ => by destruct Hb as (_ & _ & ? & _) end. }
  destruct (requireStackValues_inv _ _ _ _ _ _ _ _ Hi E1 Hkr) as (Hi1 & _ & Hnone).
  pose proof (nothing_left _ (Hnone eq_refl)) as Hden.
  destruct (decide (cb_op bl = 0 /\ cs = [])) as [[Hop ->]|Hne].
  - right. split; [done|]. destruct (zipper_outer_inv _ _ _ _ Hi1 Hop) as (es & Ebs & Hbt & Hok).
    exists es. rewrite (starts_take pc [OpcodeEnd]) by (by apply at_starts). split; [by rewrite Ebs|].
    specialize (Hok _ Hden). rewrite app_nil_r, Hbt in Hok.
    replace (labels [bl]) with [ft_Results functionType] in Hok; [done|].
    unfold labels, fmap, labelType. cbn [list_fmap]. by rewrite Hop, Hbt.
  - left. destruct (zipper_inner_inv _ _ _ _ _ Hi1) as (outer & ls & bs1 & imm & es0 & es & seg & Es & Els & Hz & Hb & Ebs & Eseg & Hok).
    { destruct (decide (cb_op bl = 0)); [right; naive_solver|by left]. }
    rewrite Eseg in Hden. apply Hok in Hden. rewrite app_nil_r in Hden.
    destruct (close_block (labels cs) bl imm es0 es) as (i & Hik & Ei); [done| |exact Hden|].
    { intros Hop. destruct Hb as (_ & _ & _ & _ & Hat' & _). specialize (Hat' Hop).
      rewrite Hop in Eif. cbn [Z.eqb Pos.eqb OpcodeIf] in Eif.
      rewrite (proj2 (Z.leb_le _ _) Hat') in Eif. cbn [andb] in Eif.
      by apply negb_false_iff, bool_decide_eq_true in Eif. }
    apply (reset_outer _ _ _ _ Es) in E2 as ->; [|unfold stackLimit; by rewrite Els].
    rewrite Ebs. replace ((bs1 ++ opening bl imm es0 ++ flat_map bytes es) ++ [OpcodeEnd]) with (bs1 ++ bytes i)
      by (rewrite Ei; by rewrite <-!(assoc_L (++))).
    assert (inv (pushAll (mkVS outer ls (maximumStackPointer s1)) (ft_Results (blockType bl))) cs [] (bs1 ++ bytes i)) as Hf.
    { apply pushAll_inv; [|done]. by eapply emit. }
    unfold inv in *. destruct (pushAll_stack (mkVS outer ls (maximumStackPointer s1)) (ft_Results (blockType bl))) as [Ea1 Ea2].
    destruct (pushAll_stack (mkVS outer (stackLimits s1) (maximumStackPointer s1)) (ft_Results (blockType bl))) as [Eb1 Eb2].
    cbn [popStackLimit stack stackLimits] in *. rewrite Ea1, Ea2 in Hf. rewrite Eb1, Eb2, Els. done.
Qed.

(** ** The walk *)
Definition next_ok (pc : Z) (s : valueTypeStack) (cs : list controlBlock) : Prop :=
  0 <= pc /\ (stack_ok pc s cs \/ (cs = [] /\ finished pc) \/ (len body < pc /\ cs <> [])).

Lemma keep_ok cs r pc' s' cs' : keep cs r = Ok (pc', s', cs') -> r = Ok (pc', s') /\ cs' = cs.
Proof. unfold keep. destruct r as [[? ?]|]; [|done]. by intros [= -> -> ->]. Qed.
Lemma next_step pc s cs pc' : step_ok pc cs (take (Z.to_nat pc) body) pc' s -> next_ok (pc' + 1) s cs.
Proof. intros H%step_stack_ok. unfold next_ok. tauto. Qed.
Lemma next_plain pc s cs pc' s' :
  stack_ok pc s cs -> plain_step pc s pc' s' -> next_ok (pc' + 1) s' cs.
Proof. intros Hi Hp. eapply next_step, plain_step_ok; done. Qed.
Lemma stack_ok_nonempty pc s cs : stack_ok pc s cs -> cs <> [].
Proof. unfold stack_ok, inv. by inversion 1. Qed.

(** The test of one branch of [instruction], in a hypothesis. *)
Ltac branch H :=
  match type of H with
  | (if (?a <=? ?op) && (?op <=? ?b) then _ else _) = _ =>
      let E := fresh "E" in destruct ((a <=? op) && (op <=? b)) eqn:E;
      [apply andb_true_iff in E as [?%Z.leb_le ?%Z.leb_le]; apply keep_ok in H as [H ->]|clear E]
  | (if ?op =? ?a then _ else _) = _ => destruct (Z.eqb_spec op a) as [->|]
  end.

Lemma instruction_ok op pc s cs pc' s' cs' :
  0 <= pc -> at_ body pc = Ok op -> stack_ok pc s cs ->
  instruction m enabledFeatures functions globals memory tables declared functionType localTypes body
    op pc s cs = Ok (pc', s', cs') ->
  next_ok (pc' + 1) s' cs'.
Proof.
  intros H0 Hat Hi H. unfold instruction in H.
  branch H. { eapply next_plain; [done|]. by eapply memoryAccess_plain. }
  branch H. { eapply next_plain; [done|]. eapply memorySizeGrow_plain; try done.
    unfold OpcodeMemorySize, OpcodeMemoryGrow in *. lia. }
  branch H. { destruct (constant_plain _ _ _ _ _ H0 Hat ltac:(done) H); [by eapply next_plain|].
    pose proof (len_nonneg body). split; [lia|]. right. right. split; [done|]. by eapply stack_ok_nonempty. }
  branch H. { eapply next_plain; [done|]. by eapply variable_plain. }
  branch H. { apply keep_ok in H as [H ->]. eapply next_step. by eapply br_ok. }
  branch H. { apply keep_ok in H as [H ->]. eapply next_step. by eapply br_if_ok. }
  branch H. { apply keep_ok in H as [H ->]. eapply next_step. by eapply br_table_ok. }
  branch H. { apply keep_ok in H as [H ->]. eapply next_plain; [done|]. by eapply call_plain. }
  branch H. { apply keep_ok in H as [H ->]. eapply next_plain; [done|]. by eapply call_indirect_plain. }
  branch H. { eapply next_plain; [done|]. by eapply numeric_plain. }
  branch H. { destruct (decide (op = OpcodeRefIsNull)) as [->|].
    - eapply next_step. by eapply ref_is_null_ok.
    - eapply next_plain; [done|]. eapply reference_plain; try done.
      unfold OpcodeRefNull, OpcodeRefFunc, OpcodeRefIsNull in *. lia. }
  destruct ((op =? OpcodeTableGet) || (op =? OpcodeTableSet)) eqn:Et.
  { apply keep_ok in H as [H ->]. apply orb_true_iff in Et. rewrite !Z.eqb_eq in Et.
    eapply next_plain; [done|]. by eapply tableGetSet_plain. }
  branch H. { apply keep_ok in H as [H ->]. eapply next_plain; [done|]. by eapply misc_plain. }
  branch H. { apply keep_ok in H as [H ->]. eapply next_plain; [done|]. by eapply vector_plain. }
  branch H. { unfold next_ok. edestruct enter_ok as [? ?]; eauto. }
  branch H. { apply keep_ok in H as [H ->]. eapply next_plain; [done|]. by eapply atomic_plain. }
  branch H. { unfold next_ok. edestruct enter_ok as [? ?]; eauto. }
  branch H. { unfold next_ok. edestruct enter_ok as [? ?]; eauto. }
  branch H. { unfold next_ok. edestruct else_ok as [? ?]; eauto. }
  branch H. { unfold next_ok. edestruct end_ok as [? ?]; eauto. tauto. }
  branch H. { apply keep_ok in H as [H ->]. destruct (return_ _ _) as [s1|] eqn:Er; [|done]. injection H as <- <-.
    eapply next_step. by eapply return_ok. }
  branch H. { apply keep_ok in H as [H ->]. destruct (pop s) as [[v s1]|] eqn:Er; [|done]. injection H as <- <-.
    eapply next_step. by eapply drop_ok. }
  destruct ((op =? OpcodeSelect) || (op =? OpcodeTypedSelect)) eqn:Es.
  { apply keep_ok in H as [H ->]. apply orb_true_iff in Es. rewrite !Z.eqb_eq in Es.
    eapply next_step. by eapply select_ok. }
  branch H. { apply keep_ok in H as [H ->]. destruct (unreachable s) as [s1|] eqn:Er; [|done].
    injection H as <- <-. eapply next_step. exists [OpcodeUnreachable].
    split_and!; [by apply at_starts|done|]. eapply (unreachable_inv _ _ _ _ Unreachable); [done..|].
    intros ts us. apply ok_unreachable. }
  branch H; [|done]. injection H as <- <- <-. eapply next_plain; [done|].
  exists [OpcodeNop], [], []. split_and!; try done; [by apply at_starts|constructor].
Qed.

Lemma walk_ok fuel pc s cs s' :
  next_ok pc s cs ->
  walk m enabledFeatures functions globals memory tables declared functionType localTypes body
    fuel pc s cs = Ok (s', []) ->
  exists es, body = flat_map bytes es ++ [OpcodeEnd] /\
    seq_ok [ft_Results functionType] es [] (rev (ft_Results functionType)).
Proof.
  revert pc s cs. induction fuel as [|fuel IH]; intros pc s cs [H0 Hn] H; cbn [walk] in H; [done|].
  destruct (Z.ltb_spec pc (len body)) as [Hlt|Hge].
  - destruct (at_ body pc) as [op|] eqn:Hat; [|done].
    destruct (Z.eqb_spec (len cs) 0) as [|Hne]; [done|].
    destruct (instruction _ _ _ _ _ _ _ _ _ _ op pc s cs) as [[[pc1 s1] cs1]|] eqn:Ei; [|done].
    apply (IH _ _ _ ltac:(eapply instruction_ok; [done..|destruct Hn as [?|[[-> _]|[? _]]]; [done|done|lia]|done]) H).
  - injection H as -> ->. destruct Hn as [Hs|[[_ (es & E & ?)]|[_ ?]]]; [by destruct (stack_ok_nonempty _ _ _ Hs)| |done].
    exists es. split; [|done]. rewrite <-E, take_ge; [done|]. unfold len in Hge. lia.
Qed.

(** The start of the walk. *)
Lemma walk_typed fuel s' :
  walk m enabledFeatures functions globals memory tables declared functionType localTypes body
    fuel 0 (mkVS [] [] 0) [mkBlock 0 0 0 functionType 0 0] = Ok (s', []) ->
  exists es, body = flat_map bytes es ++ [OpcodeEnd] /\
    seq_ok [ft_Results functionType] es [] (rev (ft_Results functionType)).
Proof.
  intros H. eapply walk_ok; [|done]. split; [done|]. left. unfold stack_ok, inv. cbn [stack stackLimits].
  change (take (Z.to_nat 0) body) with (flat_map bytes []).
  apply zip_outer; try done; [by apply known_tidy|].
  intros ts Hts. apply known_den in Hts as ->; [|done]. by constructor.
Qed.

End soundness.

End FuncSoundness.
