(* ===== verification/SpecTyping.v ===== *)
(** * From what the validator checks to the specification's type system

    [instr_ok true] is the type system of the specification, [instr_ok false]
    what the validator checks.  [conforming] says of an instruction, by its
    bytes alone, that it does not use what the validator fails to check; a
    derivation for conforming instructions is one of the specification's. *)
From S2P Require Import Prelude Leb128 Opcodes WasmBinary ValidationTables FuncValidation FuncTyping.

Module SpecTyping.
Import WasmBinary ValidationTables FuncValidation FuncTyping.

(** The first LEB128 integer: an alignment, or an index. *)
Definition first_u32 (bs : list Z) : Z := match Leb128.LoadUint32 bs with Ok (v, _) => v | Err _ => 0 end.
Definition vec_accesses (op : Z) : bool :=
  vec_load_spec op || (op =? 0x0b) || in_range 0x54 0x5b op.
Section conforming.
Context (functions : list Z).
Definition plain_conforms (bs : list Z) : bool :=
  match bs with
  | [] => true
  | op :: rest =>
      if in_range 0x28 0x3e op then first_u32 rest <? 31
      else if op =? 0xd2 then first_u32 rest <? len functions
      else if op =? 0xfd then
        match rest with v :: rest => if vec_accesses v then first_u32 rest <? 31 else true | [] => true end
      else if op =? 0xfe then
        match rest with
        | a :: rest => match atomic_spec a with Some (w, _, _) => 2 ^ first_u32 rest =? w | None => true end
        | [] => true
        end
      else true
  end.
(** No typed [select], no alignment from 31 on, natural alignment of atomic
    accesses, and [ref.func] of a function. *)
Fixpoint conforming (i : instr) : bool :=
  match i with
  | Plain bs => plain_conforms bs
  | TypedSelect _ => false
  | Block _ _ es | Loop _ _ es | If _ _ es => forallb conforming es
  | IfElse _ _ es es' => forallb conforming es && forallb conforming es'
  | _ => true
  end.
End conforming.

Lemma first_u32_app a o v : leb_u32 a v -> first_u32 (a ++ o) = v.
Proof. intros H. unfold first_u32. by rewrite (Leb128.LoadUint32_extends _ o _ H). Qed.
Lemma memarg_strict w bs : memarg (at_most false w) bs -> first_u32 bs < 31 -> memarg (at_most true w) bs.
Proof.
  intros (a & o & align & offset & -> & Ha & Ho & Hf) Hlt. rewrite (first_u32_app _ _ _ Ha) in Hlt.
  exists a, o, align, offset. split_and!; try done. intros _. apply Hf. by right.
Qed.
Lemma natural_strict w bs : memarg (natural false w) bs -> 2 ^ first_u32 bs = w -> memarg (natural true w) bs.
Proof.
  intros (a & o & align & offset & -> & Ha & Ho & Hf) Hw. rewrite (first_u32_app _ _ _ Ha) in Hw.
  exists a, o, align, offset. split_and!; try done. split; [|done]. intros _. lia.
Qed.
Lemma memory_spec_range op w ps rs : memory_spec op = Some (w, ps, rs) -> in_range 0x28 0x3e op = true.
Proof.
  unfold memory_spec, nth_from, in_range. intros H. apply andb_true_iff. rewrite !Z.leb_le.
  destruct (Z.ltb_spec op 0x28); [destruct (Z.ltb_spec op 0x36); [done|lia]|]. split; [lia|].
  destruct (loads !! _) as [[t w']|] eqn:E1; [apply lookup_lt_Some in E1; cbn in E1; lia|].
  destruct (Z.ltb_spec op 0x36); [done|]. destruct (stores !! _) as [[t w']|] eqn:E2; [|done].
  apply lookup_lt_Some in E2. cbn in E2. lia.
Qed.
Lemma lane_spec_range base op n : nth_from base op [16; 8; 4; 2] = Some n -> base <= op <= base + 3.
Proof.
  unfold nth_from. destruct (Z.ltb_spec op base); [done|]. intros E%lookup_lt_Some. cbn in E. lia.
Qed.

Section strict.
Context (m : Module') (functions : list Z) (globals : list GlobalType) (memory : option Memory)
  (tables : list Table) (declared : gset Z) (functionType : FunctionType) (localTypes : list Z).
Notation plain_in s := (plain s m functions globals memory tables declared functionType localTypes).
Notation instr_in s := (instr_ok s m functions globals memory tables declared functionType localTypes).
Notation seq_in s := (seq_ok s m functions globals memory tables declared functionType localTypes).

Lemma vec_strict op bs ps rs : vec false memory op bs ps rs -> (vec_accesses op = true -> first_u32 bs < 31) ->
  vec true memory op bs ps rs.
Proof.
  unfold vec_accesses, in_range. intros H Hc. destruct H; try by econstructor.
  - apply vec_load; [done| |done]. apply memarg_strict; [done|]. apply Hc. by rewrite H1.
  - apply vec_store; [done|]. apply memarg_strict; [done|]. by apply Hc.
  - eapply vec_load_lane; try done. apply memarg_strict; [done|]. destruct H0 as (a & o & al & off & -> & Ha & _ & _).
    apply lane_spec_range in H1. rewrite <-app_assoc in Hc. rewrite (first_u32_app _ _ _ Ha) in Hc. rewrite (first_u32_app _ _ _ Ha). apply Hc.
    rewrite !orb_true_iff, andb_true_iff, !Z.leb_le. lia.
  - eapply vec_store_lane; try done. apply memarg_strict; [done|]. destruct H0 as (a & o & al & off & -> & Ha & _ & _).
    apply lane_spec_range in H1. rewrite <-app_assoc in Hc. rewrite (first_u32_app _ _ _ Ha) in Hc. rewrite (first_u32_app _ _ _ Ha). apply Hc.
    rewrite !orb_true_iff, andb_true_iff, !Z.leb_le. lia.
Qed.
Lemma plain_strict bs ps rs : plain_in false bs ps rs -> plain_conforms functions bs = true -> plain_in true bs ps rs.
Proof.
  intros H Hc. destruct H; try by econstructor.
  - eapply plain_memory; [done| |done]. apply memarg_strict; [done|]. cbn [plain_conforms] in Hc.
    rewrite (memory_spec_range _ _ _ _ H1) in Hc. by apply Z.ltb_lt.
  - eapply plain_ref_func; [done..|]. intros _. cbn [plain_conforms] in Hc. cbn in Hc. unfold first_u32 in Hc.
    unfold leb_u32 in H. rewrite H in Hc. by apply Z.ltb_lt.
  - apply plain_vec, vec_strict; [done|]. intros Hv. cbn in Hc. rewrite Hv in Hc. by apply Z.ltb_lt.
  - eapply plain_atomic; [done| |done]. apply natural_strict; [done|]. cbn [plain_conforms] in Hc.
    change (in_range 0x28 0x3e 0xfe) with false in Hc. cbn [Z.eqb Pos.eqb] in Hc. rewrite H1 in Hc. by apply Z.eqb_eq.
Qed.

Scheme instr_lax_min := Minimality for FuncTyping.instr_ok Sort Prop
  with seq_lax_min := Minimality for FuncTyping.seq_ok Sort Prop.
Combined Scheme lax_ind from instr_lax_min, seq_lax_min.
Lemma conforming_strict :
  (forall L i ps rs, instr_in false L i ps rs -> conforming functions i = true -> instr_in true L i ps rs) /\
  (forall L es ts us, seq_in false L es ts us -> forallb (conforming functions) es = true -> seq_in true L es ts us).
Proof.
  apply lax_ind; cbn [conforming]; try (intros; by econstructor); try (intros; econstructor; by eauto).
  - intros L bs ps rs H Hc. constructor. by apply plain_strict.
  - intros L bs bt es es' Hbt _ IH _ IH' [H H']%andb_true_iff. constructor; auto.
  - intros L es i ts0 ps rs ts us _ IH _ IHi Hs Hc. rewrite List.forallb_app in Hc.
    apply andb_true_iff in Hc as [He Hi]. eapply seq_snoc; [by apply IH| |done]. apply IHi. cbn in Hi. by rewrite andb_true_r in Hi.
Qed.
End strict.
End SpecTyping.
