(* ===== verification/FuncTotal.v ===== *)
(** * Validation always gives a verdict

    On a body that ends in [end], the walk of [FuncValidation] reaches the end
    of the body and never indexes out of range, provided the functions that can
    be called have types in the type section.  [good r P] reads: [r] is a value
    that satisfies [P] or a validation error, which is no panic and no lack of
    fuel. *)
From S2P Require Import Prelude Leb128 GoStd Opcodes WasmBinary ValidationTables FuncValidation.

Module FuncTotal.
Import WasmBinary FuncValidation.

Definition verdict (e : val_err) : Prop :=
  match e with Panic _ | NoFuel | InFunction _ (Panic _) | InFunction _ NoFuel => False | _ => True end.
Definition good {A} (r : result val_err A) (P : A -> Prop) : Prop :=
  match r with Ok a => P a | Err e => verdict e end.

Lemma good_bind {A B} (r : result val_err A) (k : A -> result val_err B) P Q :
  good r P -> (forall a, P a -> good (k a) Q) -> good (let! a := r in k a) Q.
Proof. intros Hr Hk. destruct r as [a|e]; [by apply Hk|exact Hr]. Qed.
Lemma good_weaken {A} (r : result val_err A) (P Q : A -> Prop) :
  good r P -> (forall a, P a -> Q a) -> good r Q.
Proof. intros Hr Hk. destruct r as [a|e]; [by apply Hk|exact Hr]. Qed.
Lemma good_if {A} (b : bool) (r r' : result val_err A) P :
  (b = true -> good r P) -> (b = false -> good r' P) -> good (if b then r else r') P.
Proof. destruct b; auto. Qed.

(** ** The value stack *)
Definition wf (s : valueTypeStack) : Prop :=
  StronglySorted Z.ge (stackLimits s) /\ Forall (fun l => 0 <= l <= len (stack s)) (stackLimits s).

Lemma wf_limit s : wf s -> 0 <= stackLimit s <= len (stack s).
Proof.
  intros [_ H]. unfold stackLimit. destruct (stackLimits s) as [|l ls]; [pose proof (len_nonneg (stack s)); lia|].
  by apply Forall_cons in H as [? _].
Qed.
(** The limits stay below a stack that is not below the innermost one. *)
Lemma wf_stack s st n : wf s -> stackLimit s <= len st -> wf (mkVS st (stackLimits s) n).
Proof.
  intros [Hs Hf] Hl. split; [done|]. cbn [stack stackLimits]. unfold stackLimit in Hl.
  destruct (stackLimits s) as [|l ls]; [constructor|].
  apply StronglySorted_inv in Hs as [_ Hs]. apply Forall_cons in Hf as [? Hf].
  constructor; [lia|]. apply Forall_forall. intros x Hx.
  rewrite Forall_forall in Hf. specialize (Hf x Hx). rewrite List.Forall_forall in Hs.
  apply list_elem_of_In in Hx. specialize (Hs x Hx). lia.
Qed.

Lemma tryPop_wf s v s' : wf s -> tryPop s = Some (v, s') -> wf s'.
Proof.
  intros Hw. unfold tryPop. destruct (Z.leb_spec (len (stack s)) (stackLimit s)); [done|].
  destruct (stack s) as [|x st] eqn:E; [done|].
  destruct (_ && _); [by intros [= _ <-]|]. intros [= _ <-]. apply wf_stack; [done|].
  rewrite len_cons in *. lia.
Qed.
Lemma pop_good s : wf s -> good (pop s) (fun x => wf x.2).
Proof. intros Hw. unfold pop. destruct (tryPop s) as [[v s']|] eqn:E; [|done]. by eapply tryPop_wf. Qed.
Lemma popAndVerifyType_good s t : wf s -> good (popAndVerifyType s t) wf.
Proof.
  intros Hw. unfold popAndVerifyType. destruct (tryPop s) as [[v s']|] eqn:E; [|done].
  apply good_if; [done|]. intros _. by eapply tryPop_wf.
Qed.
Lemma push_wf s v : wf s -> wf (push s v).
Proof. intros Hw. unfold push. apply wf_stack; [done|]. pose proof (wf_limit _ Hw). rewrite len_cons. lia. Qed.
Lemma pushAll_wf s vs : wf s -> wf (pushAll s vs).
Proof. revert s. induction vs as [|v vs IH]; intros s Hw; [done|]. apply (IH (push s v)), push_wf, Hw. Qed.
Lemma popTypes_good s ts : wf s -> good (popTypes s ts) wf.
Proof.
  unfold popTypes. revert s. induction ts as [|t ts IH]; intros s Hw; cbn [foldm]; [done|].
  eapply good_bind; [by apply popAndVerifyType_good|]. auto.
Qed.
Lemma operate_good s ps rs : wf s -> good (operate s ps rs) wf.
Proof.
  intros Hw. unfold operate. eapply good_bind; [by apply popTypes_good|]. intros s' Hw'. by apply pushAll_wf.
Qed.
Lemma popWanted_good b want n s l : wf s -> good (popWanted b want n s l) (fun x => wf x.2).
Proof.
  revert s l. induction n as [|n IH]; intros s l Hw; cbn [popWanted]; [done|].
  destruct (tryPop s) as [[v s']|] eqn:E; [|done]. apply IH. by eapply tryPop_wf.
Qed.
Lemma verifyWanted_good b i l l' : good (verifyWanted b i l l') (fun _ => True).
Proof.
  revert i l'. induction l as [|v l IH]; intros i [|w l']; cbn [verifyWanted]; try done.
  by apply good_if.
Qed.
Lemma requireStackValues_good s b want c : wf s -> good (requireStackValues s b want c) wf.
Proof.
  intros Hw. unfold requireStackValues. eapply good_bind; [by apply popWanted_good|].
  intros [l s'] Hw'. apply good_if; [done|]. intros _. eapply good_bind; [apply verifyWanted_good|]. done.
Qed.
Lemma resetAtStackLimit_good s :
  wf s -> good (resetAtStackLimit s) (fun s' => wf s' /\ stackLimits s' = stackLimits s).
Proof.
  intros Hw. pose proof (wf_limit _ Hw) as Hl. unfold resetAtStackLimit.
  destruct (Z.ltb_spec (len (stack s)) (stackLimit s)); [lia|]. split; [|done].
  apply wf_stack; [done|]. unfold len in *. rewrite length_drop. lia.
Qed.
Lemma unreachable_good s : wf s -> good (unreachable s) wf.
Proof.
  intros Hw. unfold unreachable. eapply good_bind; [by apply resetAtStackLimit_good|].
  intros s' [Hw' _]. apply wf_stack; [done|]. pose proof (wf_limit _ Hw'). rewrite len_cons. lia.
Qed.
Lemma popDefault_good s i l : wf s -> good (popDefault s i l) (fun x => wf x.2).
Proof.
  revert s i. induction l as [|t l IH]; intros s i Hw; cbn [popDefault]; [done|].
  eapply good_bind; [by apply pop_good|]. intros [v s'] Hw'. apply good_if; [done|]. intros _.
  eapply good_bind; [by apply IH|]. by intros [ts s2] ?.
Qed.
Lemma popStackLimit_wf s : wf s -> wf (popStackLimit s).
Proof.
  intros [Hs Hf]. split; cbn [popStackLimit stackLimits stack]; destruct (stackLimits s); try constructor.
  - by apply StronglySorted_inv in Hs as [? _].
  - by apply Forall_cons in Hf as [_ ?].
Qed.
Lemma pushAll_len s vs : len (stack (pushAll s vs)) = len (stack s) + len vs.
Proof.
  revert s. induction vs as [|v vs IH]; intros s; [cbn; rewrite len_nil; lia|].
  change (pushAll s (v :: vs)) with (pushAll (push s v) vs). rewrite IH. cbn [push stack]. rewrite !len_cons. lia.
Qed.
Lemma pushAll_limits s vs : stackLimits (pushAll s vs) = stackLimits s.
Proof.
  revert s. induction vs as [|v vs IH]; intros s; [done|].
  change (pushAll s (v :: vs)) with (pushAll (push s v) vs). by rewrite IH.
Qed.
(** The limit of a new block: its parameters are the values just pushed. *)
Lemma pushStackLimit_wf s vs : wf s -> wf (pushStackLimit (pushAll s vs) (len vs)).
Proof.
  intros Hw. pose proof (wf_limit _ Hw) as Hl. destruct Hw as [Hs Hf].
  unfold pushStackLimit. rewrite pushAll_len, pushAll_limits. split; cbn [stackLimits stack].
  - constructor; [done|]. apply List.Forall_forall. intros x Hx. apply list_elem_of_In in Hx.
    rewrite Forall_forall in Hf. specialize (Hf x Hx). lia.
  - rewrite pushAll_len. pose proof (len_nonneg vs). constructor; [lia|].
    eapply Forall_impl; [exact Hf|]. cbn. intros; lia.
Qed.
(** ** Reading the body *)
Lemma at_good {A} (l : list A) i : 0 <= i < len l -> good (at_ l i) (fun x => l !! Z.to_nat i = Some x).
Proof.
  intros Hi. unfold at_. destruct (l !! Z.to_nat i) eqn:E; [done|].
  apply lookup_ge_None in E. unfold len in Hi. lia.
Qed.
Lemma at_good_true {A} (l : list A) i : 0 <= i < len l -> good (at_ l i) (fun _ => True).
Proof. intros Hi. eapply good_weaken; [by apply at_good|]. done. Qed.
Lemma u32_le x : 0 <= x -> u32 x <= x.
Proof. intros. unfold u32, wrapu. apply Z.mod_le; lia. Qed.
Lemma u32_nonneg x : 0 <= u32 x.
Proof. apply (wrapu_range 32 x). lia. Qed.
(** [l[i]] after [if uint32(len(l)) <= i { return err }]. *)
Lemma at_u32_good {A} (l : list A) i e :
  0 <= i -> good (Err e : result val_err A) (fun _ => True) ->
  good (if u32 (len l) <=? i then Err e else at_ l i) (fun _ => True).
Proof.
  intros Hi He. apply good_if; [done|]. intros E%Z.leb_gt. apply at_good_true.
  pose proof (u32_le (len l) (len_nonneg l)). lia.
Qed.

Section totality.
Context (m : Module') (enabledFeatures : Z) (functions : list Z) (globals : list GlobalType)
  (memory : option Memory) (tables : list Table) (declared : gset Z)
  (functionType : FunctionType) (localTypes body : list Z).

Hypothesis Hend : last body = Some OpcodeEnd.
Hypothesis Hfun : Forall (fun ti => 0 <= ti < len (TypeSection m)) functions.

(** A byte other than [end] is not the last one. *)
Lemma next_byte pc op :
  0 <= pc -> body !! Z.to_nat pc = Some op -> op <> OpcodeEnd -> pc + 1 < len body.
Proof.
  intros H0 Hop Hne. pose proof (lookup_lt_Some _ _ _ Hop) as Hlt.
  destruct (decide (pc + 1 < len body)) as [|Hge]; [done|]. exfalso. apply Hne.
  rewrite last_lookup in Hend. replace (Z.to_nat pc) with (pred (length body)) in Hop by (unfold len in *; lia).
  congruence.
Qed.

Lemma from_good pc : pc <= len body -> good (from body pc) (fun b => b = drop (Z.to_nat pc) body).
Proof. intros H. unfold from. destruct (Z.ltb_spec (len body) pc); [lia|done]. Qed.
Lemma load_good (load : list Z -> result Leb128.leb_err (Z * Z)) w pc :
  Leb128.reads_prefix load -> 0 <= pc <= len body ->
  good (let! b := from body pc in map_err (Immediate w) (load b))
    (fun x => 1 <= x.2 /\ pc + x.2 <= len body).
Proof.
  intros Hp Hpc. eapply good_bind; [apply from_good; lia|]. intros b ->.
  destruct (load (drop (Z.to_nat pc) body)) as [[v n]|] eqn:E; [|done]. cbn [map_err good].
  apply Hp in E as [E _]. unfold len in *. rewrite length_drop in E. cbn. lia.
Qed.
Lemma loadU32_good w pc : 0 <= pc <= len body ->
  good (loadU32 w body pc) (fun x => 0 <= x.1 /\ 1 <= x.2 /\ pc + x.2 <= len body).
Proof.
  intros Hpc. pose proof (load_good Leb128.LoadUint32 w pc Leb128.LoadUint32_prefix Hpc) as H.
  unfold loadU32 in *. destruct (from body pc) as [b|e]; [|exact H].
  destruct (Leb128.LoadUint32 b) as [[v n]|] eqn:E; [|done]. cbn in *. split; [|done].
  by apply Leb128.LoadUint32_range in E as [? _].
Qed.
Lemma readMemArg_good pc : 0 <= pc <= len body ->
  good (readMemArg pc body) (fun x => 2 <= x.2 /\ pc + x.2 <= len body).
Proof.
  intros Hpc. unfold readMemArg. eapply good_bind; [by apply loadU32_good|]. intros [al k] (? & ? & ?).
  eapply good_bind; [apply loadU32_good; cbn in *; lia|]. intros [off k'] (? & ? & ?). cbn in *. lia.
Qed.
Lemma needMemory_good : good (needMemory memory) (fun _ => True).
Proof. unfold needMemory. by destruct memory. Qed.
Lemma needFeature_good f : good (needFeature enabledFeatures f) (fun _ => True).
Proof. unfold needFeature, requireEnabled. by apply good_if. Qed.
Lemma needTableIndex_good i : good (needTableIndex enabledFeatures i) (fun _ => True).
Proof. unfold needTableIndex. apply good_if; [|done]. intros _. apply needFeature_good. Qed.
Lemma tableAt_good i : 0 <= i -> good (tableAt tables i) (fun _ => True).
Proof. intros. by apply at_u32_good. Qed.
Lemma globalAt_good i : 0 <= i -> good (globalAt globals i) (fun _ => True).
Proof. intros. by apply at_u32_good. Qed.
Lemma elementAt_good i : 0 <= i -> good (elementAt m i) (fun _ => True).
Proof. intros. unfold elementAt. apply good_if; [done|]. intros E%Z.leb_gt. apply at_good_true. lia. Qed.
Lemma localType_good i : 0 <= i -> good (localType functionType localTypes i) (fun _ => True).
Proof.
  intros H0. unfold localType. apply good_if; [done|]. intros E%Z.leb_gt.
  pose proof (u32_le (len localTypes) (len_nonneg _)). pose proof (u32_le (len (ft_Params functionType)) (len_nonneg _)).
  pose proof (u32_nonneg (len localTypes)). pose proof (u32_nonneg (len (ft_Params functionType))).
  pose proof (u32_le (u32 (len localTypes) + u32 (len (ft_Params functionType))) ltac:(lia)).
  apply good_if; intros E'; [apply Z.ltb_lt in E'|apply Z.ltb_ge in E']; apply at_good_true; lia.
Qed.

(** The result of an instruction: [pc] has not gone back and the stack is
    well formed. *)
Definition stepped (pc : Z) (x : Z * valueTypeStack) : Prop := pc <= x.1 /\ wf x.2.

(** One call after another. *)
Ltac good_step :=
  cbv zeta;
  lazymatch goal with
  | |- good (match needMemory _ with _ => _ end) _ => eapply good_bind; [apply needMemory_good|intros [] _]
  | |- good (match needFeature _ _ with _ => _ end) _ => eapply good_bind; [apply needFeature_good|intros [] _]
  | |- good (match needTableIndex _ _ with _ => _ end) _ => eapply good_bind; [apply needTableIndex_good|intros [] _]
  | |- good (match tableAt _ _ with _ => _ end) _ => eapply good_bind; [apply tableAt_good; lia|intros ? _]
  | |- good (match globalAt _ _ with _ => _ end) _ => eapply good_bind; [apply globalAt_good; lia|intros ? _]
  | |- good (match elementAt _ _ with _ => _ end) _ => eapply good_bind; [apply elementAt_good; lia|intros ? _]
  | |- good (match localType _ _ _ with _ => _ end) _ => eapply good_bind; [apply localType_good; lia|intros ? _]
  | |- good (match loadU32 _ _ _ with _ => _ end) _ =>
      eapply good_bind; [apply loadU32_good; lia|intros [? ?] (? & ? & ?); cbn [fst snd] in *]
  | |- good (match readMemArg _ _ with _ => _ end) _ =>
      eapply good_bind; [apply readMemArg_good; lia|intros [[? ?] ?] (? & ?); cbn [fst snd] in *]
  | |- good (match operate _ _ _ with _ => _ end) _ => eapply good_bind; [by apply operate_good|intros ? ?]
  | |- good (match popTypes _ _ with _ => _ end) _ => eapply good_bind; [by apply popTypes_good|intros ? ?]
  | |- good (match popAndVerifyType _ _ with _ => _ end) _ =>
      eapply good_bind; [by apply popAndVerifyType_good|intros ? ?]
  | |- good (match pop _ with _ => _ end) _ => eapply good_bind; [by apply pop_good|intros [? ?] ?; cbn [fst snd] in *]
  | |- good (match popResults _ _ _ with _ => _ end) _ =>
      eapply good_bind; [by apply requireStackValues_good|intros ? ?]
  | |- good (match unreachable _ with _ => _ end) _ => eapply good_bind; [by apply unreachable_good|intros ? ?]
  | |- good (if ?b then _ else _) _ => let E := fresh "E" in apply good_if; intros E; [first [done|idtac]|]
  | |- good (Ok _) (stepped _) => split; cbn [fst snd]; [lia|auto using push_wf, pushAll_wf]
  | |- good (Err _) _ => done
  end.
Ltac goods := repeat good_step.

Lemma memoryAccess_good op pc s :
  0 <= pc < len body -> wf s -> good (memoryAccess memory body op pc s) (stepped pc).
Proof.
  intros Hpc Hw. unfold memoryAccess. goods. destruct (memory_case op) as [[[w ps] rs]|]; goods.
Qed.
Lemma memorySizeGrow_good op pc s :
  0 <= pc < len body -> wf s -> good (memorySizeGrow memory body op pc s) (stepped pc).
Proof.
  intros Hpc Hw. unfold memorySizeGrow. goods.
  eapply good_bind; [apply good_if; intros _; [by apply operate_good|by apply push_wf]|]. intros s' Hw'. goods.
Qed.
Lemma constant_good op pc s :
  0 <= pc < len body -> wf s -> good (constant body op pc s) (stepped pc).
Proof.
  intros Hpc Hw. unfold constant. goods.
  - pose proof (load_good Leb128.LoadInt32 "read i32 immediate" (pc + 1) Leb128.LoadInt32_prefix ltac:(lia)) as H.
    destruct (from body (pc + 1)) as [b|e']; [|exact H].
    destruct (map_err _ _) as [[v n]|e']; [|exact H]. cbn in H. goods.
  - pose proof (load_good Leb128.LoadInt64 "read i64 immediate" (pc + 1) Leb128.LoadInt64_prefix ltac:(lia)) as H.
    destruct (from body (pc + 1)) as [b|e']; [|exact H].
    destruct (map_err _ _) as [[v n]|e']; [|exact H]. cbn in H. goods.
Qed.
Lemma variable_good op pc s :
  0 <= pc < len body -> wf s -> good (variable globals functionType localTypes body op pc s) (stepped pc).
Proof. intros Hpc Hw. unfold variable. goods. Qed.
Lemma call_good pc s :
  0 <= pc < len body -> wf s -> good (call m functions body pc s) (stepped pc).
Proof.
  intros Hpc Hw. unfold call. goods. apply Z.leb_gt in E.
  eapply good_bind; [apply at_good; lia|]. intros ti Hti.
  eapply good_bind; [apply at_good_true; by apply (Forall_lookup_1 _ _ _ _ Hfun Hti)|]. intros ft _. goods.
Qed.
Lemma call_indirect_good pc s :
  0 <= pc < len body -> wf s -> good (call_indirect m enabledFeatures tables body pc s) (stepped pc).
Proof.
  intros Hpc Hw. unfold call_indirect. goods. apply Z.leb_gt in E.
  eapply good_bind; [apply at_good_true; lia|]. intros ft _. goods.
Qed.
Lemma numeric_good op pc s : wf s -> good (numeric enabledFeatures op pc s) (stepped pc).
Proof.
  intros Hw. unfold numeric. destruct (numeric_case op) as [[[f ps] rs]|]; [|done].
  eapply good_bind; [destruct f; [apply needFeature_good|exact I]|]. intros [] _. goods.
Qed.
Lemma tableGetSet_good op pc s :
  0 <= pc < len body -> wf s -> good (tableGetSet enabledFeatures tables body op pc s) (stepped pc).
Proof.
  intros Hpc Hw. unfold tableGetSet. goods.
  eapply good_bind; [apply good_if; intros _; by apply operate_good|]. intros s' Hw'. goods.
Qed.

(** *** Branches *)
Lemma at_cs_good {A} (cs : list A) i : 0 <= i -> (len cs <=? i) = false -> good (at_ cs i) (fun _ => True).
Proof. intros ? E%Z.leb_gt. apply at_good_true. lia. Qed.
Lemma br_good pc s cs : 0 <= pc < len body -> wf s -> good (br body pc s cs) (stepped pc).
Proof.
  intros Hpc Hw. unfold br. goods. eapply good_bind; [by apply at_cs_good|]. intros target _. goods.
Qed.
Lemma br_if_good pc s cs : 0 <= pc < len body -> wf s -> good (br_if body pc s cs) (stepped pc).
Proof.
  intros Hpc Hw. unfold br_if. goods. eapply good_bind; [by apply at_cs_good|]. intros target _. goods.
Qed.
Lemma loadU32_of_good w (r : list Z) :
  good (map_err (Immediate w) (Leb128.LoadUint32 r)) (fun x => 0 <= x.1 /\ 1 <= x.2 <= len r).
Proof.
  destruct (Leb128.LoadUint32 r) as [[v n]|] eqn:E; [|done]. cbn.
  pose proof (Leb128.LoadUint32_prefix _ _ _ E) as [? _]. by apply Leb128.LoadUint32_range in E as [? _].
Qed.
Lemma readLabels_good n r num :
  good (readLabels n r num) (fun x => Forall (Z.le 0) x.1.1 /\ num <= x.1.2).
Proof.
  revert r num. induction n as [|n IH]; intros r num; cbn [readLabels]; [split; [constructor|cbn; lia]|].
  eapply good_bind; [apply loadU32_of_good|]. intros [l k] [? ?].
  eapply good_bind; [apply IH|]. intros [[ls num'] r'] [? ?]. cbn in *. split; [by constructor|lia].
Qed.
Lemma checkLabel_good cs d l : 0 <= l -> good (checkLabel cs d l) (fun _ => True).
Proof.
  intros Hl. unfold checkLabel. goods. eapply good_bind; [by apply at_cs_good|]. intros label _. goods. done.
Qed.
Lemma each_good {A} (f : A -> result val_err unit) (P : A -> Prop) l :
  (forall x, P x -> good (f x) (fun _ => True)) -> Forall P l -> good (each f l) (fun _ => True).
Proof.
  intros Hf. induction 1 as [|x l Hx _ IH]; [done|]. cbn [each].
  eapply good_bind; [by apply Hf|]. intros [] _. exact IH.
Qed.
Lemma br_table_good pc s cs :
  0 <= pc < len body -> wf s -> good (br_table enabledFeatures body pc s cs) (stepped pc).
Proof.
  intros Hpc Hw. unfold br_table. cbv zeta.
  eapply good_bind; [apply from_good; lia|]. intros r _.
  eapply good_bind; [apply loadU32_of_good|]. intros [nl num] [? ?].
  eapply good_bind; [apply readLabels_good|]. intros [[ls num'] r'] [Hls ?].
  eapply good_bind; [apply loadU32_of_good|]. intros [ln n] [? ?]. cbn [fst snd] in *. goods.
  eapply good_bind; [by apply at_cs_good|]. intros target _.
  eapply (good_bind _ _ (fun x => wf x.2)).
  - apply good_if; intros _.
    + eapply good_bind; [by apply popDefault_good|]. by intros [ts s'] ?.
    + eapply good_bind; [by apply requireStackValues_good|]. by intros s' ?.
  - intros [d s'] Hw'. eapply good_bind; [eapply each_good; [intros; by apply checkLabel_good|done]|].
    intros [] _. goods.
Qed.

(** *** References, bulk operations, vectors and atomics *)
Lemma next_byte_good pc op : 0 <= pc -> body !! Z.to_nat pc = Some op -> op <> OpcodeEnd ->
  good (at_ body (pc + 1)) (fun x => body !! Z.to_nat (pc + 1) = Some x).
Proof. intros H0 Hop Hne. apply at_good. pose proof (next_byte pc op H0 Hop Hne). lia. Qed.
Lemma reference_good op pc s :
  0 <= pc < len body -> body !! Z.to_nat pc = Some op -> op <> OpcodeEnd -> wf s ->
  good (reference enabledFeatures declared body op pc s) (stepped pc).
Proof.
  intros Hpc Hop Hne Hw. unfold reference. goods.
  eapply good_bind; [eapply next_byte_good; eauto; lia|]. intros rt _. goods.
Qed.
Lemma dataIndex_good pc : 0 <= pc <= len body -> good (dataIndex m body pc) (fun x => pc <= x /\ x < len body).
Proof. intros. unfold dataIndex. destruct (DataCountSection m); [|done]. goods. cbn. lia. Qed.
Lemma reservedZero_good pc : 0 <= pc <= len body -> good (reservedZero body pc) (fun _ => pc < len body).
Proof. intros. unfold reservedZero. goods. cbn. lia. Qed.
Lemma bulkImmediates_good op pc : 0 <= pc < len body ->
  good (bulkImmediates m enabledFeatures memory tables body op pc) (fun x => pc <= x.1).
Proof.
  intros Hpc. unfold bulkImmediates. goods.
  - eapply good_bind; [apply dataIndex_good; lia|]. intros pc' ?. cbv beta in *. cbn. lia.
  - eapply (good_bind _ _ (fun x => pc <= x < len body)).
    { apply good_if; intros _; [|cbn; lia]. eapply good_weaken; [apply dataIndex_good; lia|]. cbn. intros; lia. }
    intros pc' ?. cbv beta in *. eapply good_bind; [apply reservedZero_good; lia|]. intros [] ?. cbv beta in *. apply good_if; [|cbn; lia].
    intros _. eapply good_bind; [apply reservedZero_good; lia|]. cbn. intros; lia.
  - cbn. lia.
  - cbn. lia.
  - cbn. lia.
  - cbn. lia.
Qed.
Lemma misc_good pc s : 0 <= pc < len body -> wf s ->
  good (misc m enabledFeatures memory tables body pc s) (stepped pc).
Proof.
  intros Hpc Hw. unfold misc. goods.
  - destruct (default _ _). goods.
  - eapply good_bind; [apply bulkImmediates_good; lia|]. intros [pc' ps] ?. cbv beta in *. cbn [fst] in *. goods.
  - eapply (good_bind _ _ wf); [repeat (apply good_if; intros _; [by apply operate_good|]); done|].
    intros s' Hw'. goods.
Qed.
Lemma laneBelow_good pc ceil : 0 <= pc -> good (laneBelow body pc ceil) (fun _ => True).
Proof.
  intros Hpc. unfold laneBelow. goods. apply Z.leb_gt in E.
  eapply good_bind; [apply at_good_true; lia|]. intros lane _. by goods.
Qed.
Lemma memLane_good pc al ceil : 0 <= pc < len body -> good (memLane memory body pc al ceil) (fun x => pc <= x).
Proof.
  intros Hpc. unfold memLane. goods. eapply good_bind; [apply laneBelow_good; lia|]. intros _ _. cbn. lia.
Qed.
Lemma vector_good pc s :
  0 <= pc < len body -> body !! Z.to_nat pc = Some OpcodeVecPrefix -> wf s ->
  good (vector enabledFeatures memory body pc s) (stepped pc).
Proof.
  intros Hpc Hop Hw. pose proof (next_byte pc _ ltac:(lia) Hop ltac:(done)) as Hn.
  unfold vector. cbv zeta. eapply good_bind; [by eapply next_byte_good; [lia|eauto|]|]. intros vop _. goods.
  destruct (vec_case vop) as [[ps rs]|]; [goods|]. goods.
  destruct (vecLoadLanes vop) as [[al c]|].
  { eapply good_bind; [apply memLane_good; lia|]. intros pc' ?. cbv beta in *. goods. }
  destruct (vecStoreLanes vop) as [[al c]|].
  { eapply good_bind; [apply memLane_good; lia|]. intros pc' ?. cbv beta in *. goods. }
  destruct (vecExtractLanes vop) as [[c rt]|].
  { eapply good_bind; [apply laneBelow_good; lia|]. intros _ _. goods. }
  destruct (vecReplaceLanes vop) as [[c rt]|].
  { eapply good_bind; [apply laneBelow_good; lia|]. intros _ _. goods. }
  destruct (vecSplatValueTypes vop); goods.
Qed.
Lemma atomic_good pc s :
  0 <= pc < len body -> body !! Z.to_nat pc = Some OpcodeAtomicPrefix -> wf s ->
  good (atomic enabledFeatures memory body pc s) (stepped pc).
Proof.
  intros Hpc Hop Hw. pose proof (next_byte pc _ ltac:(lia) Hop ltac:(done)) as Hn.
  unfold atomic. cbv zeta. eapply good_bind; [by eapply next_byte_good; [lia|eauto|]|]. intros aop Ha. goods.
  - apply Z.eqb_eq in E as ->. eapply good_bind; [eapply next_byte_good; [lia|exact Ha|done]|]. intros imm _. goods.
  - destruct (atomic_case aop) as [[[al ps] rs]|]; goods.
Qed.

(** *** Blocks *)
Definition stepped_blocks (pc : Z) (x : step_result) : Prop := pc <= x.1.1 /\ wf x.1.2.

Lemma keep_good pc cs r : good r (stepped pc) -> good (keep cs r) (stepped_blocks pc).
Proof. intros H. unfold keep. eapply good_bind; [exact H|]. by intros [pc' s] ?. Qed.
Lemma DecodeBlockType_good r :
  good (DecodeBlockType (TypeSection m) r enabledFeatures) (fun x => 1 <= x.2).
Proof.
  unfold DecodeBlockType.
  eapply (good_bind _ _ (fun x => 1 <= x.2)).
  { destruct (Leb128.DecodeInt33AsInt64 (Leb128.buf_next r)) as [[v n]|] eqn:E; [|done].
    by apply Leb128.DecodeInt33_prefix in E as [[? _] _]. }
  intros [raw n] Hn. repeat (apply good_if; intros _; [exact Hn|]).
  eapply good_bind; [apply needFeature_good|]. intros [] _. apply good_if; [done|]. intros E.
  apply orb_false_iff in E as [E1%Z.ltb_ge E2%Z.leb_gt].
  eapply good_bind; [apply at_good_true; lia|]. by intros ft _.
Qed.
Lemma enter_good op pc s cs : 0 <= pc < len body -> wf s ->
  good (enter m enabledFeatures body op pc s cs) (stepped_blocks pc).
Proof.
  intros Hpc Hw. unfold enter. eapply good_bind; [apply from_good; lia|]. intros r _.
  eapply good_bind; [apply DecodeBlockType_good|]. intros [bt num] Hn. cbv zeta.
  eapply (good_bind _ _ wf); [apply good_if; intros _; [by apply popAndVerifyType_good|done]|]. intros s1 Hw1.
  eapply good_bind; [by apply requireStackValues_good|]. intros s2 Hw2.
  split; cbn [fst snd] in *; [lia|by apply pushStackLimit_wf].
Qed.
Lemma else_good pc s bl cs : wf s -> good (else_ pc s (bl :: cs)) (stepped_blocks pc).
Proof.
  intros Hw. unfold else_. apply good_if; [done|]. intros _. cbv zeta.
  eapply good_bind; [by apply requireStackValues_good|]. intros s1 Hw1.
  eapply good_bind; [by apply resetAtStackLimit_good|]. intros s2 [Hw2 _].
  split; cbn [fst snd]; [lia|by apply pushAll_wf].
Qed.
Lemma end_good pc s bl cs : wf s -> good (end_ pc s (bl :: cs)) (stepped_blocks pc).
Proof.
  intros Hw. unfold end_. cbv zeta. apply good_if; [done|]. intros _.
  eapply good_bind; [by apply requireStackValues_good|]. intros s1 Hw1.
  eapply good_bind; [by apply resetAtStackLimit_good|]. intros s2 [Hw2 _].
  split; cbn [fst snd]; [lia|by apply popStackLimit_wf, pushAll_wf].
Qed.
Lemma return_good s : wf s -> good (return_ functionType s) wf.
Proof.
  intros Hw. unfold return_. eapply good_bind; [by apply requireStackValues_good|]. intros s1 Hw1.
  by apply unreachable_good.
Qed.
Lemma select_good op pc s :
  0 <= pc < len body -> body !! Z.to_nat pc = Some op -> op <> OpcodeEnd -> wf s ->
  good (select enabledFeatures body op pc s) (stepped pc).
Proof.
  intros Hpc Hop Hne Hw. unfold select. goods.
  eapply (good_bind _ _ (fun x => pc <= x)).
  - apply good_if; intros _; [|apply good_if; [done|intros _; cbn; lia]].
    goods. eapply good_bind; [eapply next_byte_good; eauto; lia|]. intros k Hk. goods.
    apply negb_false_iff, Z.eqb_eq in E as ->.
    eapply good_bind; [eapply next_byte_good; [lia|exact Hk|done]|]. intros tp _. goods. cbn. lia.
  - intros pc' ?. cbv beta in *. goods.
Qed.

(** One instruction, on a byte of the body inside a block. *)
Lemma instruction_good op pc s bl cs :
  0 <= pc < len body -> body !! Z.to_nat pc = Some op -> wf s ->
  good (instruction m enabledFeatures functions globals memory tables declared functionType localTypes body
          op pc s (bl :: cs)) (stepped_blocks pc).
Proof.
  intros Hpc Hop Hw. destruct (Z.eqb_spec op OpcodeEnd) as [->|Hne]; [by apply end_good|].
  unfold instruction.
  repeat first
    [ by apply enter_good | by apply else_good | by apply end_good
    | apply keep_good
    | by apply memoryAccess_good | by apply memorySizeGrow_good | by apply constant_good | by apply variable_good
    | by apply br_good | by apply br_if_good | by apply br_table_good | by apply call_good
    | by apply call_indirect_good | by apply numeric_good | by apply reference_good | by apply tableGetSet_good
    | by apply misc_good | by apply select_good
    | by apply vector_good; [..|match goal with E : (op =? _) = true |- _ => apply Z.eqb_eq in E; congruence end|]
    | by apply atomic_good; [..|match goal with E : (op =? _) = true |- _ => apply Z.eqb_eq in E; congruence end|]
    | apply good_if; let E := fresh "E" in intros E ].
  - eapply good_bind; [by apply return_good|]. intros s' ?. by split; cbn; [lia|].
  - eapply good_bind; [by apply pop_good|]. intros [v s'] ?. by split; cbn; [lia|].
  - eapply good_bind; [by apply unreachable_good|]. intros s' ?. by split; cbn; [lia|].
  - by split; cbn; [lia|].
  - done.
Qed.

Lemma walk_good fuel pc s cs :
  0 <= pc -> len body - pc < Z.of_nat fuel -> 0 < Z.of_nat fuel -> wf s ->
  good (walk m enabledFeatures functions globals memory tables declared functionType localTypes body
          fuel pc s cs) (fun x => wf x.1).
Proof.
  revert pc s cs. induction fuel as [|fuel IH]; intros pc s cs H0 Hf Hp Hw; [lia|]. cbn [walk].
  destruct (Z.ltb_spec pc (len body)) as [Hlt|]; [|done].
  eapply good_bind; [apply at_good; lia|]. intros op Hop.
  destruct cs as [|bl cs]; [done|]. apply good_if; [done|]. intros _.
  eapply good_bind; [by apply instruction_good|]. intros [[pc' s'] cs'] [? ?]. cbn [fst snd] in *.
  apply IH; [lia..|done].
Qed.
End totality.

(** One function of a module. *)
Lemma validateFunction_good m features functions globals memory tables declared idx ti code :
  Forall (fun ti => 0 <= ti < len (TypeSection m)) functions ->
  FunctionSection m !! idx = Some ti -> 0 <= ti < len (TypeSection m) ->
  CodeSection m !! idx = Some code -> last (co_Body code) = Some OpcodeEnd ->
  good (validateFunction m features functions globals memory tables declared (Z.of_nat idx)) (fun _ => True).
Proof.
  intros Hfun Hti Hr Hcode Hend. unfold validateFunction, validateFunctionWithMaxStackValues.
  unfold at_ at 1. rewrite Nat2Z.id, Hti.
  eapply good_bind; [by apply at_good_true|]. intros ft _.
  unfold at_. rewrite Nat2Z.id, Hcode. cbn [reset].
  eapply (good_bind _ _ (fun x => wf x.1)).
  - apply walk_good; [done|done|lia| | |]; [unfold len; lia|lia|].
    split; constructor.
  - intros [s cs] _. by repeat (apply good_if; [done|intros _]).
Qed.


End FuncTotal.
