(* ===== verification/ValidationSpec.v ===== *)
(** * A decoded and validated module is well typed

    The decoder, the validation of a module and the validation of its functions
    together: every function of an accepted binary has a derivation in the type
    system of [FuncTyping].  The last part states what acceptance does not
    guarantee. *)
From S2P Require Import Prelude Leb128 GoStd Opcodes WasmBinary WasmBinarySpec ValidationTables FuncValidation WasmModule FuncTyping FuncSoundness SpecTyping FuncTotal.

Module ValidationSpec.
Import WasmBinary WasmBinarySpec FuncValidation WasmModule FuncTyping FuncSoundness FuncTotal.

(** ** Sizes and bytes of a decoded module *)
Lemma repeat_length {A} n i (p : Z -> parser A) r l r' : repeatp n i p r = Ok (l, r') -> length l = n.
Proof.
  revert i r l r'. induction n as [|n IH]; intros i r l r' H; cbn [repeatp] in H; unparse; [done|].
  cbn [length]. f_equal. by eapply IH.
Qed.
Lemma returns_vector_small {A} (p : Z -> parser A) : returns (WasmBinary.vector p) (fun l => len l < 2 ^ 32).
Proof.
  intros r l r' H. unfold WasmBinary.vector in H. unparse.
  match goal with E : DecodeUint32 _ = Ok _, E' : repeatp _ _ _ _ = Ok _ |- _ =>
    apply returns_u32 in E; apply repeat_length in E'; unfold in_u in E; cbn in E; unfold len; rewrite E' end.
  lia.
Qed.
Lemma returns_ValueTypes_small n : in_u 32 n -> returns (decodeValueTypes n) (fun l => len l < 2 ^ 32).
Proof.
  intros Hn r l r' H. unfold decodeValueTypes in H. unparse; [done|].
  match goal with E : ReadFull _ _ = Ok _ |- _ => unfold ReadFull in E;
    destruct (n <=? Len _) in E; [injection E as <- _|by destruct (unread _)] end.
  unfold in_u, len in *. rewrite length_take. lia.
Qed.
Lemma returns_FunctionType_small features :
  returns (decodeFunctionType features) (fun ft => len (ft_Params ft) < 2 ^ 32).
Proof.
  intros r ft r' H. unfold decodeFunctionType in H. unparse; cbn [ft_Params].
  all: match goal with E : DecodeUint32 _ = Ok ((?n, _), _), E' : decodeValueTypes ?n _ = Ok (?l, _) |- len ?l < _ =>
    apply returns_u32 in E; by apply (returns_ValueTypes_small _ E) in E' end.
Qed.

Lemma total_moved {A} (p : parser A) r a r' : total p -> p r = Ok (a, r') -> r_s r' = r_s r.
Proof. intros Hp H. specialize (Hp r). rewrite H in Hp. apply Hp. Qed.

Lemma decodeCode_bytes c r co r' :
  bytes_ok (r_s r) -> decodeCode c r = Ok (co, r') -> bytes_ok (co_Body co).
Proof.
  intros Hb H. unfold decodeCode in H. unparse.
  repeat match goal with
  | E : DecodeUint32 ?x = Ok (_, ?y) |- _ => apply (total_moved _ _ _ _ (total_leb _)) in E
  | E : check_locals _ _ _ _ ?x = Ok (_, ?y) |- _ => apply (total_moved _ _ _ _ (total_check_locals _ _ _ _)) in E
  | E : read_locals _ _ _ ?x = Ok (_, ?y) |- _ => apply (total_moved _ _ _ _ (total_read_locals _ _ _)) in E
  | E : SeekBack _ ?x = Ok (_, ?y) |- _ =>
      assert (r_s y = r_s x) by (revert E; unfold SeekBack; destruct (_ <? _) in |- *; [done|by intros [= _ <-]]);
      clear E
  | E : ReadFull _ ?x = Ok (?b, _) |- _ =>
      assert (exists n, b = take n (unread x)) as [? ->]
        by (revert E; unfold ReadFull; destruct (_ <=? _) in |- *; [intros [= <- _]; eauto|by destruct (unread _)]);
      clear E
  end.
  cbn [co_Body]. apply Forall_take, Forall_drop.
  match goal with |- Forall _ ?x => replace x with (r_s r) by congruence; done end.
Qed.
Lemma repeat_bytes {A} (p : Z -> parser A) (P : A -> Prop) n i r l r' :
  (forall i, total (p i)) -> (forall i r a r', bytes_ok (r_s r) -> p i r = Ok (a, r') -> P a) ->
  bytes_ok (r_s r) -> repeatp n i p r = Ok (l, r') -> Forall P l.
Proof.
  intros Ht Hp. revert i r l r'. induction n as [|n IH]; intros i r l r' Hb H; cbn [repeatp] in H.
  { unparse. done. }
  apply bind_ok in H as (x & r1 & Ex & H). apply bind_ok in H as (xs & r2 & Exs & H). unparse.
  constructor; [by eapply Hp|]. eapply IH; [|done]. by rewrite (total_moved _ _ _ _ (Ht i) Ex).
Qed.

(** What the soundness of validation needs to know of a decoded module. *)
Record module_small (m : Module') : Prop := {
  ms_functions : len (FunctionSection m) < 2 ^ 32;
  ms_code : len (CodeSection m) < 2 ^ 32;
  ms_params : Forall (fun ft => len (ft_Params ft) < 2 ^ 32) (TypeSection m);
  ms_bodies : Forall (fun c => bytes_ok (co_Body c)) (CodeSection m) }.

Lemma decodeSection_small features limit fromMax dwarf store id size m d r m' d' r' :
  decodeSection features limit fromMax dwarf store id size (m, d) r = Ok ((m', d'), r') ->
  bytes_ok (r_s r) -> module_small m -> module_small m'.
Proof.
  cbn [decodeSection]. intros H Hb Hm.
  repeat match type of H with
  | match ?x with _ => _ end _ = _ => is_var x; destruct x; try done
  end.
  1: unfold custom_section in H.
  all: unparse; simplify_eq; destruct Hm; split; cbn; try done.
  - by eapply returns_vector_small.
  - unfold decodeCodeSection in E. unparse. by eapply returns_vector_small.
  - unfold decodeCodeSection, WasmBinary.vector in E. unparse.
    eapply repeat_bytes; [| | |done].
    + intros i. apply total_wrapAt, total_Code.
    + intros i q co q' Hq Eq. apply wrapAt_ok in Eq. exact (decodeCode_bytes _ _ _ _ Hq Eq).
    + match goal with E : DecodeUint32 _ = Ok _ |- _ => by rewrite (total_moved _ _ _ _ (total_leb _) E) end.
  - eapply returns_vector; [|exact E]. intros i. apply returns_wrapAt, returns_FunctionType_small.
Qed.

Lemma sections_small features limit fromMax dwarf store fuel m d r m' d' r' :
  sections features limit fromMax dwarf store fuel (m, d) r = Ok ((m', d'), r') ->
  bytes_ok (r_s r) -> module_small m -> module_small m'.
Proof.
  revert m d r. induction fuel as [|fuel IH]; intros m d r H Hb Hm; [done|]. cbn [sections] in H.
  apply bind_ok in H as (? & ? & [= <- <-] & H). destruct (Len r =? 0); [by injection H as <- <- <-|].
  apply bind_ok in H as (id & r1 & H1 & H). apply bind_ok in H as ([m2 d2] & r2 & Hs & H).
  pose proof (total_moved _ _ _ _ total_ReadByte H1) as E1.
  pose proof (total_moved _ _ _ _ (total_section _ _ _ _ _ _ _) Hs) as E2.
  unfold section in Hs. apply bind_ok in Hs as ([size n] & r3 & H3 & Hs). apply wrapAt_ok in H3.
  pose proof (total_moved _ _ _ _ (total_leb _) H3) as E3.
  destruct (decodeSection _ _ _ _ _ _ _ _ r3) as [[[m3 d3] r4]|] eqn:E; [|done].
  cbn in Hs. destruct (negb _); [done|]. injection Hs as <- <- <-.
  eapply IH; [exact H|by rewrite E2, E1|]. eapply decodeSection_small; [exact E|by rewrite E3, E1|done].
Qed.
Lemma DecodeModule_small features limit fromMax dwarf store binary m d :
  DecodeModule features limit fromMax dwarf store binary = Ok (m, d) -> bytes_ok binary -> module_small m.
Proof.
  unfold DecodeModule. intros H Hb.
  match type of H with match ?x with _ => _ end = _ => destruct x as [[[m1 d1] r]|] eqn:E; [|done] end.
  destruct (negb _); [done|]. injection H as <- <-.
  apply bind_ok in E as (? & r1 & E1 & E). apply bind_ok in E as (? & r2 & E2 & E).
  pose proof (total_moved _ _ _ _ (total_expect Magic ErrInvalidMagicNumber eq_refl) E1) as F1.
  pose proof (total_moved _ _ _ _ (total_expect version ErrInvalidVersion eq_refl) E2) as F2.
  eapply sections_small; [exact E|by rewrite F2, F1|]. split; cbn; done || constructor.
Qed.
(** ** From validation to typing *)
Lemma value_types_known l : value_types l -> known l.
Proof.
  intros H Hin. unfold value_types in H. rewrite Forall_forall in H. by specialize (H _ Hin).
Qed.

Lemma declare_import_globals (P : GlobalType -> Prop) l d :
  Forall (fun i => im_Type i = ExternTypeGlobal -> P (im_DescGlobal i)) l ->
  Forall P (d_globals d) -> Forall P (d_globals (fold_left declare_import l d)).
Proof.
  revert d. induction l as [|i l IH]; intros d Hl Hd; [done|]. apply Forall_cons in Hl as [Hi Hl].
  cbn [fold_left]. apply IH; [done|]. unfold declare_import.
  destruct (_ =? ExternTypeFunc); [done|].
  destruct (Z.eqb_spec (im_Type i) ExternTypeGlobal); [|by repeat destruct (_ =? _)].
  cbn [d_globals]. apply Forall_app. split; [done|]. constructor; auto.
Qed.

(** What one function of a validated module satisfies: its body has the
    function's type in the system of the validator, and in the one of the
    specification when its instructions conform. *)
Definition function_typed (m : Module') (d : declarations) (declared : gset Z) (idx : nat) : Prop :=
  exists ti ft code es, FunctionSection m !! idx = Some ti /\ TypeSection m !! Z.to_nat ti = Some ft /\
    CodeSection m !! idx = Some code /\ co_Body code = flat_map bytes es ++ [OpcodeEnd] /\
    (forall strict, (strict = true -> forallb (SpecTyping.conforming (d_functions d)) es = true) ->
      seq_ok strict m (d_functions d) (d_globals d) (d_memory d) (d_tables d) declared ft (co_LocalTypes code)
        [ft_Results ft] es [] (rev (ft_Results ft))).

Lemma validateFunction_typed m features d declared idx :
  Forall type_ok (TypeSection m) -> Forall code_ok (CodeSection m) -> module_small m ->
  Forall (fun g => gt_ValType g <> valueTypeUnknown) (d_globals d) ->
  Forall (fun t => isReferenceValueType (tb_Type t) = true) (d_tables d) ->
  validateFunction m features (d_functions d) (d_globals d) (d_memory d) (d_tables d) declared
    (Z.of_nat idx) = Ok tt ->
  function_typed m d declared idx.
Proof.
  intros Htypes Hcode Hsmall Hglobals Htables H.
  unfold validateFunction, validateFunctionWithMaxStackValues in H.
  destruct (at_ (FunctionSection m) _) as [ti|] eqn:Eti; [|done].
  destruct (at_ (TypeSection m) ti) as [ft|] eqn:Eft; [|done].
  destruct (at_ (CodeSection m) _) as [code|] eqn:Eco; [|done]. cbn [reset] in H.
  destruct (walk _ _ _ _ _ _ _ _ _ _ _ _ _ _) as [[s cs]|] eqn:Ew; [|done].
  destruct (Z.ltb_spec 0 (len cs)) as [|Hcs]; [done|]. apply at_lookup in Eti, Eft, Eco.
  rewrite Nat2Z.id in Eti, Eco.
  assert (cs = []) as -> by (destruct cs; [done|]; rewrite len_cons in Hcs; pose proof (len_nonneg cs); lia).
  destruct (Forall_lookup_1 _ _ _ _ Hcode Eco) as [Hloc _].
  apply walk_typed in Ew as (es & Eb & Hes).
  - exists ti, ft, code, es. split_and!; try done. intros [] Hc; [|done]. apply SpecTyping.conforming_strict; auto.
  - split.
    + eapply Forall_impl; [exact Htypes|]. intros t (Hp & Hr & _). split; by apply value_types_known.
    + destruct (Forall_lookup_1 _ _ _ _ Htypes Eft) as (Hp & Hr & _). split; by apply value_types_known.
    + by apply value_types_known.
    + done.
    + eapply Forall_impl; [exact Htables|]. intros t Ht Hu. cbv beta in *. by rewrite Hu in Ht.
    + apply (Forall_lookup_1 _ _ _ _ (ms_bodies _ Hsmall) Eco).
    + apply (Forall_lookup_1 _ _ _ _ (ms_params _ Hsmall) Eft).
Qed.

Lemma AllDeclarations_globals features limit m d :
  module_ok features limit m -> AllDeclarations m = Ok d ->
  Forall (fun g => isValueType (gt_ValType g) = true) (d_globals d).
Proof.
  intros Hok H. unfold AllDeclarations in H.
  cbv zeta in H. match type of H with match ?x with _ => _ end = _ => destruct x; [|done] end.
  injection H as <-. cbn [d_globals].
  apply Forall_app. split.
  - apply declare_import_globals; [|constructor].
    eapply Forall_impl; [apply (io_each _ _ _ _ _ _ _ _ (mo_imports _ _ _ Hok))|].
    intros i (_ & _ & [[E _]|[[E _]|[[E _]|[E Hv]]]]) E'; rewrite E in E'; done.
  - apply Forall_fmap. eapply Forall_impl; [apply (mo_globals _ _ _ Hok)|]. done.
Qed.

Lemma each_lookup {E A} (f : A -> result E unit) xs i x :
  each f xs = Ok tt -> xs !! i = Some x -> f x = Ok tt.
Proof. intros H Hx. apply (Forall_lookup_1 _ _ _ _ (proj1 (each_Forall _ _) H) Hx). Qed.

(** [Validate] checks every function, unless there are none. *)
Lemma Validate_functions m features d :
  Validate m features = Ok tt -> AllDeclarations m = Ok d ->
  CodeSection m = [] \/ u32 (len (FunctionSection m)) = 0 \/
  exists declared, declaredFunctionIndexes m = Ok declared /\
    forall idx, (idx < length (FunctionSection m))%nat ->
      validateFunction m features (d_functions d) (d_globals d) (d_memory d) (d_tables d) declared
        (Z.of_nat idx) = Ok tt.
Proof.
  intros H Hd. unfold Validate in H. rewrite Hd in H.
  destruct (validateStartSection m); [|done]. destruct (validateImports m features); [|done].
  destruct (validateGlobals m _ _ _); [|done]. destruct (validateMemory m _ _); [|done].
  destruct (validateExports m features d); [|done].
  destruct (CodeSection m) as [|c cs] eqn:Ec; [by left|right].
  destruct (validateFunctions m features d MaximumFunctionIndex) as [[]|] eqn:Hf; [|done]. clear H.
  unfold validateFunctions in Hf. cbn [SectionElementCount] in Hf.
  destruct (_ <? _); [done|].
  destruct ((u32 (len (FunctionSection m)) =? 0) && _) eqn:E0.
  { left. by apply andb_true_iff in E0 as [E0%Z.eqb_eq _]. }
  right. destruct (negb _); [done|]. destruct (declaredFunctionIndexes m) as [declared|]; [|done].
  exists declared. split; [done|]. intros idx Hidx. apply lookup_lt_is_Some in Hidx as [ti Eti].
  eapply (each_lookup _ _ idx (idx, ti)) in Hf; [|by rewrite list_lookup_imap, Eti].
  unfold validateOne in Hf. destruct (_ <=? ti); [done|].
  destruct (validateFunction _ _ _ _ _ _ _ _) as [[]|[]]; done.
Qed.

(** A decoded module has as many bodies as functions. *)
Lemma decoded_counts m : module_small m -> u32 (len (FunctionSection m)) = u32 (len (CodeSection m)) ->
  length (FunctionSection m) = length (CodeSection m).
Proof.
  intros [Hf Hc _ _] H. unfold u32 in H. rewrite !wrapu_small in H by (unfold in_u, len in *; lia).
  unfold len in H. lia.
Qed.
Lemma Validate_typed features limit m d :
  module_ok features limit m -> module_small m -> length (FunctionSection m) = length (CodeSection m) ->
  Validate m features = Ok tt -> AllDeclarations m = Ok d ->
  Forall (fun t => isReferenceValueType (tb_Type t) = true) (d_tables d) ->
  forall idx, (idx < length (FunctionSection m))%nat ->
    exists declared, declaredFunctionIndexes m = Ok declared /\ function_typed m d declared idx.
Proof.
  intros Hok Hsmall Hcount Hval Hd Htab idx Hidx.
  destruct (Validate_functions _ _ _ Hval Hd) as [Hnone|[Hzero|(declared & Edecl & Hf)]].
  - rewrite Hnone in Hcount. cbn in Hcount. lia.
  - pose proof (ms_functions _ Hsmall). unfold u32 in Hzero.
    rewrite wrapu_small in Hzero; unfold in_u, len in *; lia.
  - exists declared. split; [done|].
    apply validateFunction_typed with features; try done; [apply Hok|apply Hok| |by apply Hf].
    eapply Forall_impl; [by eapply AllDeclarations_globals|]. intros g Hg Hu. cbv beta in *. by rewrite Hu in Hg.
Qed.

(** C9: Every function of a binary that the decoder and the validator accept
    is well typed: if its tables hold references, each body is the writing of a
    sequence of structured instructions followed by [end], and the sequence has
    the function's type in the module's context, in the type system of the
    specification ([strict]) whenever its instructions are [conforming]: no
    typed [select], alignments below 31 and natural for atomic accesses, and
    [ref.func] of function indices.  Any other accepted body is typed with the
    specification's rules less these four side conditions, which the validator
    does not check. *)
Theorem validated_module_typed features limit fromMax dwarf store binary m dw d :
  bytes_ok binary -> DecodeModule features limit fromMax dwarf store binary = Ok (m, dw) ->
  Validate m features = Ok tt -> AllDeclarations m = Ok d ->
  Forall (fun t => isReferenceValueType (tb_Type t) = true) (d_tables d) ->
  forall idx, (idx < length (FunctionSection m))%nat ->
    exists declared, declaredFunctionIndexes m = Ok declared /\ function_typed m d declared idx.
Proof.
  intros Hb Hdec. pose proof (DecodeModule_small _ _ _ _ _ _ _ _ Hdec Hb) as Hsmall.
  eapply Validate_typed; [by eapply DecodeModule_ok|done|].
  apply decoded_counts; [done|]. by eapply DecodeModule_code.
Qed.
(** [(func (result i32) i32.const 1 if (result i32) i32.const 5 else unreachable end)]. *)
Definition sample_binary : list Z :=
  Magic ++ version ++ [0x01; 5; 1; 0x60; 0; 1; 0x7f] ++ [0x03; 2; 1; 0] ++
  [0x0a; 13; 1; 11; 0; 0x41; 1; 0x04; 0x7f; 0x41; 5; 0x05; 0x00; 0x0b; 0x0b].

Lemma validated_module_typed_witness : exists m d declared,
  DecodeModule CoreFeaturesV2 65536 false false false sample_binary = Ok (m, None) /\
  Validate m CoreFeaturesV2 = Ok tt /\ function_typed m d declared 0.
Proof.
  assert (exists m, DecodeModule CoreFeaturesV2 65536 false false false sample_binary = Ok (m, None)) as [m Hm]
    by (eexists; vm_compute; reflexivity).
  assert (exists d, AllDeclarations m = Ok d) as [d Hd].
  { vm_compute in Hm. injection Hm as <-. eexists. vm_compute. reflexivity. }
  assert (Validate m CoreFeaturesV2 = Ok tt) as Hv.
  { vm_compute in Hm. injection Hm as <-. vm_compute. reflexivity. }
  assert (d_tables d = []) as Ht.
  { vm_compute in Hm. injection Hm as <-. vm_compute in Hd. by injection Hd as <-. }
  assert (length (FunctionSection m) = 1%nat) as Hf.
  { vm_compute in Hm. injection Hm as <-. reflexivity. }
  destruct (validated_module_typed CoreFeaturesV2 65536 false false false sample_binary m None d) with (idx := 0%nat)
    as (declared & _ & H); [|exact Hm|exact Hv|exact Hd|rewrite Ht; constructor|rewrite Hf; lia|].
  - repeat constructor; unfold is_byte; lia.
  - exists m, d, declared. done.
Defined.

(** ** Validation gives a verdict *)
Lemma declare_import_functions (P : Z -> Prop) l d :
  Forall (fun i => im_Type i = ExternTypeFunc -> P (im_DescFunc i)) l ->
  Forall P (d_functions d) -> Forall P (d_functions (fold_left declare_import l d)).
Proof.
  revert d. induction l as [|i l IH]; intros d Hl Hd; [done|]. apply Forall_cons in Hl as [Hi Hl].
  cbn [fold_left]. apply IH; [done|]. unfold declare_import.
  destruct (Z.eqb_spec (im_Type i) ExternTypeFunc); [|by repeat destruct (_ =? _)].
  cbn [d_functions]. apply Forall_app. split; [done|]. constructor; auto.
Qed.
Lemma declare_import_count l d :
  len (d_globals (fold_left declare_import l d)) = len (d_globals d) + count ExternTypeGlobal l.
Proof.
  revert d. induction l as [|i l IH] using rev_ind; intros d; [change (count ExternTypeGlobal []) with 0; cbn [fold_left]; lia|].
  rewrite fold_left_app, count_snoc. cbn [fold_left]. specialize (IH d).
  set (d' := fold_left _ _ _) in *. unfold declare_import.
  destruct (Z.eqb_spec (im_Type i) ExternTypeFunc) as [E|]; [rewrite E; cbn; lia|].
  destruct (Z.eqb_spec (im_Type i) ExternTypeGlobal) as [E|].
  - cbn [d_globals]. rewrite len_app, len_cons, len_nil. lia.
  - repeat destruct (_ =? _); cbn; lia.
Qed.
Lemma AllDeclarations_count m d : AllDeclarations m = Ok d ->
  count ExternTypeGlobal (ImportSection m) <= len (d_globals d).
Proof.
  intros H. unfold AllDeclarations in H. cbv zeta in H.
  match type of H with match ?x with _ => _ end = _ => destruct x; [|done] end. injection H as <-.
  cbn [d_globals]. rewrite len_app, declare_import_count. cbn [d_globals]. rewrite len_nil.
  pose proof (len_nonneg (gl_Type <$> GlobalSection m)). lia.
Qed.
Lemma AllDeclarations_functions m d (P : Z -> Prop) : AllDeclarations m = Ok d ->
  Forall (fun i => im_Type i = ExternTypeFunc -> P (im_DescFunc i)) (ImportSection m) ->
  Forall P (FunctionSection m) -> Forall P (d_functions d).
Proof.
  intros H Hi Hf. unfold AllDeclarations in H. cbv zeta in H.
  match type of H with match ?x with _ => _ end = _ => destruct x; [|done] end. injection H as <-.
  cbn [d_functions]. apply Forall_app. split; [|done]. by apply declare_import_functions.
Qed.

Lemma map_err_good {A} (f : Leb128.leb_err -> val_err) (r : result Leb128.leb_err A) :
  (forall e, verdict (f e)) -> good (map_err f r) (fun _ => True).
Proof. intros Hf. destruct r as [a|e]; cbn; [done|apply Hf]. Qed.
Lemma load_any_good {A} w (r : result Leb128.leb_err A) : good (map_err (Immediate w) r) (fun _ => True).
Proof. by apply map_err_good. Qed.
Lemma validateConstExpression_good globals n e t : good (validateConstExpression globals n e t) (fun _ => True).
Proof.
  unfold validateConstExpression. cbv zeta.
  eapply (good_bind _ _ (fun _ => True)); [|by intros a _; apply good_if].
  repeat (apply good_if; intros ?); try done.
  all: try (eapply good_bind; [apply loadU32_of_good|intros [v k] [? _]; cbn [fst] in *]).
  all: try (by eapply good_bind; [apply load_any_good|intros [? ?] _]).
  - apply good_if; [done|]. intros E%Z.leb_gt.
    eapply good_bind; [apply at_good_true|by intros]. pose proof (u32_le (len globals) (len_nonneg _)). lia.
  - eapply good_bind; [apply at_good_true|].
    + destruct (ce_Data e); [done|]. rewrite len_cons. pose proof (len_nonneg l). lia.
    + intros rt _. by apply good_if.
  - by apply good_if.
Qed.
Section verdict.
Context (features limit : Z) (m : Module').
Hypothesis Hok : module_ok features limit m.
Hypothesis Hcode : length (CodeSection m) = length (FunctionSection m).
Hypothesis Htypes : Forall (fun ti => ti < len (TypeSection m)) (FunctionSection m).

Lemma importedGlobals_good d : AllDeclarations m = Ok d -> good (importedGlobals m (d_globals d)) (fun _ => True).
Proof.
  intros Hd. pose proof (AllDeclarations_count _ _ Hd). unfold importedGlobals.
  rewrite (io_global _ _ _ _ _ _ _ _ (mo_imports _ _ _ Hok)).
  pose proof (u32_le (count ExternTypeGlobal (ImportSection m)) (len_nonneg _)).
  destruct (Z.ltb_spec (len (d_globals d)) (u32 (count ExternTypeGlobal (ImportSection m)))); [lia|done].
Qed.
Lemma consts_good {A} (f : A -> ConstantExpression) (t : A -> Z) globals n l :
  good (each (fun x => validateConstExpression globals n (f x) (t x)) l) (fun _ => True).
Proof.
  apply (each_good _ (fun _ => True)); [intros; apply validateConstExpression_good|by apply Forall_true].
Qed.
Lemma validateImports_functions :
  validateImports m features = Ok tt ->
  Forall (fun i => im_Type i = ExternTypeFunc -> 0 <= im_DescFunc i < len (TypeSection m)) (ImportSection m).
Proof.
  intros H. apply each_Forall in H. pose proof (io_each _ _ _ _ _ _ _ _ (mo_imports _ _ _ Hok)) as Hi.
  apply Forall_forall. intros i Hin E. rewrite Forall_forall in H, Hi.
  specialize (H i Hin). specialize (Hi i Hin) as (_ & _ & Hi). cbv beta in H.
  destruct Hi as [[_ [? _]]|[[E' _]|[[E' _]|[E' _]]]]; [|rewrite E in E'; done..].
  rewrite E in H. destruct (bool_decide _); [done|]. cbn in H.
  destruct (Z.leb_spec (len (TypeSection m)) (im_DescFunc i)); [done|lia].
Qed.
Lemma declaredFunctionIndexes_good : good (declaredFunctionIndexes m) (fun _ => True).
Proof.
  unfold declaredFunctionIndexes. cbv zeta. eapply (good_bind _ _ (fun _ => True)); [|done].
  match goal with |- good (foldm _ ?x _) _ => generalize x end.
  induction (GlobalSection m) as [|g l IH]; intros ret; cbn [foldm]; [done|].
  eapply (good_bind _ _ (fun _ => True)); [|intros; apply IH].
  apply good_if; [|done]. intros _. by eapply good_bind; [apply load_any_good|intros [? ?] _].
Qed.
Lemma validateFunctions_good d n :
  Forall (fun ti => 0 <= ti < len (TypeSection m)) (d_functions d) ->
  good (validateFunctions m features d n) (fun _ => True).
Proof.
  intros Hd. unfold validateFunctions. cbn [SectionElementCount].
  apply good_if; [done|]. intros _. apply good_if; [done|]. intros _. apply good_if; [done|]. intros _.
  eapply good_bind; [apply declaredFunctionIndexes_good|]. intros declared _.
  apply (each_good _ (fun x => FunctionSection m !! x.1 = Some x.2)).
  - intros [idx ti] Hti. cbn [fst snd] in Hti. unfold validateOne. apply good_if; [done|]. intros _.
    destruct (lookup_lt_is_Some_2 (CodeSection m) idx) as [code Hc].
    { rewrite Hcode. by eapply lookup_lt_Some. }
    pose proof (Forall_lookup_1 _ _ _ _ (mo_code _ _ _ Hok) Hc) as [_ Hend].
    pose proof (Forall_lookup_1 _ _ _ _ (mo_functions _ _ _ Hok) Hti) as [? _].
    pose proof (Forall_lookup_1 _ _ _ _ Htypes Hti) as Hlt. cbv beta in Hlt.
    pose proof (validateFunction_good m features (d_functions d) (d_globals d) (d_memory d) (d_tables d) declared
      idx ti code Hd Hti ltac:(lia) Hc Hend) as Hg.
    destruct (validateFunction _ _ _ _ _ _ _ _) as [|e]; [done|]. by destruct e.
  - apply Forall_forall. intros [idx ti] Hin. apply list_elem_of_lookup in Hin as [k Hk].
    rewrite list_lookup_imap in Hk. apply fmap_Some in Hk as (t & Ht & [= -> ->]). done.
Qed.
Lemma validateExports_good d : good (validateExports m features d) (fun _ => True).
Proof.
  apply (each_good _ export_ok); [|apply (eo_each _ _ (mo_exports _ _ _ Hok))].
  intros e (_ & _ & [H0 _]). cbv zeta. repeat (apply good_if; intros ?; try done).
  eapply good_bind; [apply at_good_true|].
  - match goal with H : (_ <=? ex_Index e) = false |- _ => apply Z.leb_gt in H end.
    pose proof (u32_le (len (d_globals d)) (len_nonneg _)). lia.
  - intros g _. apply good_if; [done|]. intros _. unfold requireEnabled. by apply good_if.
Qed.
Lemma verifyImportGlobalI32_good ig idx l : good (verifyImportGlobalI32 ig idx l) (fun _ => True).
Proof.
  revert ig. induction l as [|i l IH]; intros ig; cbn [verifyImportGlobalI32]; [done|].
  repeat (apply good_if; intros _); try done.
Qed.
Lemma validateTable_good tables n : good (validateTable m features tables n) (fun _ => True).
Proof.
  unfold validateTable. cbn [SectionElementCount]. apply good_if; [done|]. intros _. cbv zeta.
  apply (each_good _ element_ok _ ) ; [|apply (mo_elements _ _ _ Hok)].
  intros e [[H0 _] _]. unfold validateElement. cbv zeta.
  eapply (good_bind _ _ (fun _ => True)).
  { apply (each_good _ (fun _ => True)); [|by apply Forall_true]. intros i _. unfold validateInit.
    apply good_if; [done|]. intros _. destruct (unwrapElementInitGlobalReference i) as [j []];
    repeat (apply good_if; [done|intros _]); done. }
  intros _ _. destruct (el_Mode e); [|done..].
  apply good_if; [done|]. intros E%Z.leb_gt. eapply good_bind; [apply at_good_true; lia|]. intros t _.
  apply good_if; [done|]. intros _. repeat (apply good_if; intros ?); try done.
  - eapply good_bind; [apply load_any_good|]. intros [g ?] _. apply verifyImportGlobalI32_good.
  - eapply good_bind; [apply load_any_good|]. intros [o ?] _. unfold checkSegmentBounds. by apply good_if.
Qed.

Lemma Validate_good : good (Validate m features) (fun _ => True).
Proof.
  unfold Validate. eapply (good_bind _ _ (fun _ => True)).
  { unfold validateStartSection. destruct (StartSection m); [|done]. destruct (typeOfFunction m _); [|done].
    by apply good_if. }
  intros _ _. destruct (AllDeclarations m) as [d|e] eqn:Hd.
  2:{ unfold AllDeclarations in Hd. cbv zeta in Hd. destruct (MemorySection m), (d_memory _); try discriminate Hd; by injection Hd as <-. }
  destruct (validateImports m features) as [[]|e] eqn:Hi.
  2:{ assert (good (validateImports m features) (fun _ => True)) as H; [|by rewrite Hi in H].
      apply (each_good _ (fun _ => True)); [|by apply Forall_true]. intros i _. unfold requireEnabled.
      repeat (apply good_if; intros _); done. }
  eapply (good_bind _ _ (fun _ => True)).
  { unfold validateGlobals. apply good_if; [done|]. intros _.
    eapply good_bind; [by apply importedGlobals_good|]. intros gs _. apply consts_good. }
  intros _ _. eapply (good_bind _ _ (fun _ => True)).
  { unfold validateMemory. cbv zeta. apply good_if; [done|]. intros _.
    eapply good_bind; [by apply importedGlobals_good|]. intros gs _. apply (consts_good da_OffsetExpression). }
  intros _ _. eapply good_bind; [apply validateExports_good|]. intros _ _.
  eapply (good_bind _ _ (fun _ => True)).
  { enough (good (validateFunctions m features d MaximumFunctionIndex) (fun _ => True)) as H
      by (destruct (CodeSection m) in |- *; [done|exact H]).
    apply validateFunctions_good.
    eapply AllDeclarations_functions; [done|by apply validateImports_functions|].
    apply Forall_forall. intros ti Hin. pose proof (mo_functions _ _ _ Hok) as Hf.
    pose proof Htypes as Ht. rewrite Forall_forall in Ht, Hf. specialize (Ht ti Hin). destruct (Hf ti Hin). done. }
  intros _ _. eapply good_bind; [apply validateTable_good|]. intros _ _.
  unfold validateDataCountSection. destruct (DataCountSection m); [|done]. by apply good_if.
Qed.

End verdict.

(** C10: Validation always gives a verdict on a decoded module whose functions
    have types in the type section: [Validate] accepts or returns an error, and
    never indexes out of range or leaves a body unfinished. *)
Theorem validation_gives_verdict features limit fromMax dwarf store binary m dw :
  bytes_ok binary -> DecodeModule features limit fromMax dwarf store binary = Ok (m, dw) ->
  Forall (fun ti => ti < len (TypeSection m)) (FunctionSection m) ->
  match Validate m features with
  | Ok _ => True
  | Err (Panic _) | Err NoFuel | Err (InFunction _ (Panic _)) | Err (InFunction _ NoFuel) => False
  | Err _ => True
  end.
Proof.
  intros Hb Hdec Htypes. pose proof (DecodeModule_ok _ _ _ _ _ _ _ _ Hdec) as Hok.
  pose proof (DecodeModule_code _ _ _ _ _ _ _ _ Hdec) as Hcount.
  pose proof (DecodeModule_small _ _ _ _ _ _ _ _ Hdec Hb) as Hsmall.
  pose proof (decoded_counts _ Hsmall Hcount) as Hlen. symmetry in Hlen.
  pose proof (Validate_good features limit m Hok Hlen Htypes) as H. exact H.
Qed.
Lemma validation_gives_verdict_witness :
  match DecodeModule CoreFeaturesV2 65536 false false false sample_binary with
  | Ok (m, _) => Validate m CoreFeaturesV2 <> Err NoFuel
  | Err _ => False
  end.
Proof.
  destruct (DecodeModule CoreFeaturesV2 65536 false false false sample_binary) as [[m dw]|e] eqn:Hm.
  - pose proof (validation_gives_verdict CoreFeaturesV2 65536 false false false sample_binary m dw) as H.
    intros E. rewrite E in H. apply H; [|exact Hm|].
    + repeat constructor; unfold is_byte; lia.
    + vm_compute in Hm. injection Hm as <- _. repeat constructor.
  - vm_compute in Hm. discriminate Hm.
Defined.

(** ** What acceptance does not guarantee *)

(** The hypothesis on tables is needed: the decoder accepts any byte as the
    type of a table once reference types are enabled, and [0xff] is the
    validator's unknown type.  This binary has one function that returns what
    [table.get] reads as an [i64] and one that stores an [i64] with
    [table.set]. *)
Definition confusion_binary : list Z :=
  Magic ++ version ++ [0x01; 9; 2; 0x60; 0; 1; 0x7e; 0x60; 1; 0x7e; 0] ++ [0x03; 3; 2; 0; 1] ++
  [0x04; 4; 1; 0xff; 0; 1] ++
  [0x0a; 17; 2; 6; 0; 0x41; 0; 0x25; 0; 0x0b; 8; 0; 0x41; 0; 0x20; 0; 0x26; 0; 0x0b].
Theorem table_type_unchecked : exists m,
  DecodeModule CoreFeaturesV2 65536 false false false confusion_binary = Ok (m, None) /\
  Validate m CoreFeaturesV2 = Ok tt /\
  (tb_Type <$> TableSection m) = [valueTypeUnknown] /\
  (ft_Params <$> TypeSection m) = [[]; [ValueTypeI64]] /\
  (ft_Results <$> TypeSection m) = [[ValueTypeI64]; []] /\
  (co_Body <$> CodeSection m) = [[0x41; 0; 0x25; 0; 0x0b]; [0x41; 0; 0x20; 0; 0x26; 0; 0x0b]].
Proof. eexists. split; [vm_compute; reflexivity|]. vm_compute. done. Qed.

(** A call to a function whose own type index has not been checked yet indexes
    the type section out of range: [validateFunctions] checks the type of each
    function just before its body. *)
Definition forward_call_binary : list Z :=
  Magic ++ version ++ [0x01; 4; 1; 0x60; 0; 0] ++ [0x03; 3; 2; 0; 5] ++
  [0x0a; 9; 2; 4; 0; 0x10; 1; 0x0b; 2; 0; 0x0b].
Theorem forward_call_panics : exists m,
  DecodeModule CoreFeaturesV2 65536 false false false forward_call_binary = Ok (m, None) /\
  Validate m CoreFeaturesV2 = Err (Panic "index out of range").
Proof. eexists. split; [vm_compute; reflexivity|vm_compute; reflexivity]. Qed.

(** The type a typed [select] is annotated with is not compared with its
    operands: [select (result i64)] of two [i32] is accepted. *)
Definition select_binary : list Z :=
  Magic ++ version ++ [0x01; 5; 1; 0x60; 0; 1; 0x7f] ++ [0x03; 2; 1; 0] ++
  [0x0a; 13; 1; 11; 0; 0x41; 0; 0x41; 0; 0x41; 1; 0x1c; 1; 0x7e; 0x0b].
Theorem select_annotation_ignored : exists m,
  DecodeModule CoreFeaturesV2 65536 false false false select_binary = Ok (m, None) /\
  Validate m CoreFeaturesV2 = Ok tt.
Proof. eexists. split; [vm_compute; reflexivity|vm_compute; reflexivity]. Qed.

(** An alignment whose shift leaves the [int] passes the check: [3] is refused
    for [i32.load] and [64] is not. *)
Theorem alignment_wraps ty :
  memoryAccess (Some ty) [OpcodeI32Load; 64; 0; OpcodeEnd] OpcodeI32Load 0 (mkVS [ValueTypeI32] [] 1) =
    Ok (2, mkVS [ValueTypeI32] [] 1) /\
  memoryAccess (Some ty) [OpcodeI32Load; 3; 0; OpcodeEnd] OpcodeI32Load 0 (mkVS [ValueTypeI32] [] 1) =
    Err (Invalid "invalid memory alignment").
Proof. split; vm_compute; reflexivity. Qed.

(** An atomic access may be aligned to less than its width: [i32.atomic.load]
    with alignment 0 is accepted, while [i32.atomic.load8_u] is compared for
    equality. *)
Theorem atomic_alignment_below ty :
  atomic CoreFeaturesThreads (Some ty) [OpcodeAtomicPrefix; OpcodeAtomicI32Load; 0; 0; OpcodeEnd] 0 (mkVS [ValueTypeI32] [] 1) =
    Ok (3, mkVS [ValueTypeI32] [] 1) /\
  misaligned (AtMost 4) 0 = false /\ 2 ^ 0 <> 4.
Proof. split_and!; vm_compute; done. Qed.

(** The functions an element segment declares for [ref.func] include the tagged
    indices of globals: [ref.func 0x40000000] is accepted in a module with one
    function whose passive segment holds [global.get 0]. *)
Definition declared_global_binary : list Z :=
  Magic ++ version ++ [0x01; 5; 1; 0x60; 0; 1; 0x70] ++ [0x02; 8; 1; 1; 97; 1; 98; 0x03; 0x70; 0] ++
  [0x03; 2; 1; 0] ++ [0x09; 7; 1; 5; 0x70; 1; 0x23; 0; 0x0b] ++
  [0x0a; 10; 1; 8; 0; 0xd2; 0x80; 0x80; 0x80; 0x80; 0x04; 0x0b].
Theorem ref_func_of_global :
  match DecodeModule CoreFeaturesV2 65536 false false false declared_global_binary with
  | Ok (m, _) => Validate m CoreFeaturesV2 = Ok tt /\ len (FunctionSection m) = 1 /\ ImportFunctionCount m = 0
  | Err _ => False
  end.
Proof. vm_compute. done. Qed.


End ValidationSpec.
