(* ===== verification/Operations.v ===== *)
(** * The interpreter's intermediate representation:
    [internal/engine/interpreter/operations.go]

    The operations the lowering of a function body emits, with the source's
    enumerations as numbers, and their constructors.  The texts of operations
    ([String]) and the unused field [offsetInCodeSection] are left out. *)
From S2P Require Import Prelude.

Module Operations.

(** [unsignedInt] *)
Definition unsignedInt32 : Z := 0.
Definition unsignedInt64 : Z := 1.

(** [signedInt] *)
Definition signedInt32 : Z := 0.
Definition signedInt64 : Z := 1.
Definition signedUint32 : Z := 2.
Definition signedUint64 : Z := 3.

(** [float] *)
Definition f32 : Z := 0.
Definition f64 : Z := 1.

(** [unsignedType] *)
Definition unsignedTypeI32 : Z := 0.
Definition unsignedTypeI64 : Z := 1.
Definition unsignedTypeF32 : Z := 2.
Definition unsignedTypeF64 : Z := 3.
Definition unsignedTypeV128 : Z := 4.
Definition unsignedTypeUnknown : Z := 5.

(** [signedType] *)
Definition signedTypeInt32 : Z := 0.
Definition signedTypeUint32 : Z := 1.
Definition signedTypeInt64 : Z := 2.
Definition signedTypeUint64 : Z := 3.
Definition signedTypeFloat32 : Z := 4.
Definition signedTypeFloat64 : Z := 5.

Inductive operationKind : Type :=
| operationKindUnreachable
| operationKindLabel
| operationKindBr
| operationKindBrIf
| operationKindBrTable
| operationKindCall
| operationKindCallIndirect
| operationKindDrop
| operationKindSelect
| operationKindPick
| operationKindSet
| operationKindGlobalGet
| operationKindGlobalSet
| operationKindLoad
| operationKindLoad8
| operationKindLoad16
| operationKindLoad32
| operationKindStore
| operationKindStore8
| operationKindStore16
| operationKindStore32
| operationKindMemorySize
| operationKindMemoryGrow
| operationKindConstI32
| operationKindConstI64
| operationKindConstF32
| operationKindConstF64
| operationKindEq
| operationKindNe
| operationKindEqz
| operationKindLt
| operationKindGt
| operationKindLe
| operationKindGe
| operationKindAdd
| operationKindSub
| operationKindMul
| operationKindClz
| operationKindCtz
| operationKindPopcnt
| operationKindDiv
| operationKindRem
| operationKindAnd
| operationKindOr
| operationKindXor
| operationKindShl
| operationKindShr
| operationKindRotl
| operationKindRotr
| operationKindAbs
| operationKindNeg
| operationKindCeil
| operationKindFloor
| operationKindTrunc
| operationKindNearest
| operationKindSqrt
| operationKindMin
| operationKindMax
| operationKindCopysign
| operationKindI32WrapFromI64
| operationKindITruncFromF
| operationKindFConvertFromI
| operationKindF32DemoteFromF64
| operationKindF64PromoteFromF32
| operationKindI32ReinterpretFromF32
| operationKindI64ReinterpretFromF64
| operationKindF32ReinterpretFromI32
| operationKindF64ReinterpretFromI64
| operationKindExtend
| operationKindSignExtend32From8
| operationKindSignExtend32From16
| operationKindSignExtend64From8
| operationKindSignExtend64From16
| operationKindSignExtend64From32
| operationKindMemoryInit
| operationKindDataDrop
| operationKindMemoryCopy
| operationKindMemoryFill
| operationKindTableInit
| operationKindElemDrop
| operationKindTableCopy
| operationKindRefFunc
| operationKindTableGet
| operationKindTableSet
| operationKindTableSize
| operationKindTableGrow
| operationKindTableFill
| operationKindV128Const
| operationKindV128Add
| operationKindV128Sub
| operationKindV128Load
| operationKindV128LoadLane
| operationKindV128Store
| operationKindV128StoreLane
| operationKindV128ExtractLane
| operationKindV128ReplaceLane
| operationKindV128Splat
| operationKindV128Shuffle
| operationKindV128Swizzle
| operationKindV128AnyTrue
| operationKindV128AllTrue
| operationKindV128BitMask
| operationKindV128And
| operationKindV128Not
| operationKindV128Or
| operationKindV128Xor
| operationKindV128Bitselect
| operationKindV128AndNot
| operationKindV128Shl
| operationKindV128Shr
| operationKindV128Cmp
| operationKindV128AddSat
| operationKindV128SubSat
| operationKindV128Mul
| operationKindV128Div
| operationKindV128Neg
| operationKindV128Sqrt
| operationKindV128Abs
| operationKindV128Popcnt
| operationKindV128Min
| operationKindV128Max
| operationKindV128AvgrU
| operationKindV128Pmin
| operationKindV128Pmax
| operationKindV128Ceil
| operationKindV128Floor
| operationKindV128Trunc
| operationKindV128Nearest
| operationKindV128Extend
| operationKindV128ExtMul
| operationKindV128Q15mulrSatS
| operationKindV128ExtAddPairwise
| operationKindV128FloatPromote
| operationKindV128FloatDemote
| operationKindV128FConvertFromI
| operationKindV128Dot
| operationKindV128Narrow
| operationKindV128ITruncSatFromF
| operationKindBuiltinFunctionCheckExitCode
| operationKindAtomicMemoryWait
| operationKindAtomicMemoryNotify
| operationKindAtomicFence
| operationKindAtomicLoad
| operationKindAtomicLoad8
| operationKindAtomicLoad16
| operationKindAtomicStore
| operationKindAtomicStore8
| operationKindAtomicStore16
| operationKindAtomicRMW
| operationKindAtomicRMW8
| operationKindAtomicRMW16
| operationKindAtomicRMWCmpxchg
| operationKindAtomicRMW8Cmpxchg
| operationKindAtomicRMW16Cmpxchg
| operationKindEnd.

(** ** Labels *)
(** [labelKind] *)
Definition labelKindHeader : Z := 0.
Definition labelKindElse : Z := 1.
Definition labelKindContinuation : Z := 2.
Definition labelKindReturn : Z := 3.
Definition labelKindNum : Z := 4.

Definition newLabel (kind frameID : Z) : Z := Z.lor kind (Z.shiftl frameID 32).
Definition label_Kind (l : Z) : Z := u8 (u32 l).
Definition label_FrameID (l : Z) : Z := u32 (Z.shiftr l 32).
Definition IsReturnTarget (l : Z) : bool := label_Kind l =? labelKindReturn.

(** ** Ranges of the stack, from the top *)
Record inclusiveRange : Type := mkRange { Start : Z; End : Z }.
Definition AsU64 (i : inclusiveRange) : Z := Z.lor (Z.shiftl (u32 (Start i)) 32) (u32 (End i)).
Definition inclusiveRangeFromU64 (v : Z) : inclusiveRange :=
  mkRange (i32 (u32 (Z.shiftr v 32))) (i32 (u32 v)).
Definition nopinclusiveRange : inclusiveRange := mkRange (-1) (-1).

(** ** Operations *)
Record memoryArg : Type := mkMemArg { Alignment : Z; Offset : Z }.

Record unionOperation : Type := mkOp {
  Kind : operationKind; B1 : Z; B2 : Z; B3 : bool; U1 : Z; U2 : Z; U3 : Z; Us : list Z }.

(** [shape] *)
Definition shapeI8x16 : Z := 0.
Definition shapeI16x8 : Z := 1.
Definition shapeI32x4 : Z := 2.
Definition shapeI64x2 : Z := 3.
Definition shapeF32x4 : Z := 4.
Definition shapeF64x2 : Z := 5.

(** [v128LoadType] *)
Definition v128LoadType128 : Z := 0.
Definition v128LoadType8x8s : Z := 1.
Definition v128LoadType8x8u : Z := 2.
Definition v128LoadType16x4s : Z := 3.
Definition v128LoadType16x4u : Z := 4.
Definition v128LoadType32x2s : Z := 5.
Definition v128LoadType32x2u : Z := 6.
Definition v128LoadType8Splat : Z := 7.
Definition v128LoadType16Splat : Z := 8.
Definition v128LoadType32Splat : Z := 9.
Definition v128LoadType64Splat : Z := 10.
Definition v128LoadType32zero : Z := 11.
Definition v128LoadType64zero : Z := 12.

(** [v128CmpType] *)
Definition v128CmpTypeI8x16Eq : Z := 0.
Definition v128CmpTypeI8x16Ne : Z := 1.
Definition v128CmpTypeI8x16LtS : Z := 2.
Definition v128CmpTypeI8x16LtU : Z := 3.
Definition v128CmpTypeI8x16GtS : Z := 4.
Definition v128CmpTypeI8x16GtU : Z := 5.
Definition v128CmpTypeI8x16LeS : Z := 6.
Definition v128CmpTypeI8x16LeU : Z := 7.
Definition v128CmpTypeI8x16GeS : Z := 8.
Definition v128CmpTypeI8x16GeU : Z := 9.
Definition v128CmpTypeI16x8Eq : Z := 10.
Definition v128CmpTypeI16x8Ne : Z := 11.
Definition v128CmpTypeI16x8LtS : Z := 12.
Definition v128CmpTypeI16x8LtU : Z := 13.
Definition v128CmpTypeI16x8GtS : Z := 14.
Definition v128CmpTypeI16x8GtU : Z := 15.
Definition v128CmpTypeI16x8LeS : Z := 16.
Definition v128CmpTypeI16x8LeU : Z := 17.
Definition v128CmpTypeI16x8GeS : Z := 18.
Definition v128CmpTypeI16x8GeU : Z := 19.
Definition v128CmpTypeI32x4Eq : Z := 20.
Definition v128CmpTypeI32x4Ne : Z := 21.
Definition v128CmpTypeI32x4LtS : Z := 22.
Definition v128CmpTypeI32x4LtU : Z := 23.
Definition v128CmpTypeI32x4GtS : Z := 24.
Definition v128CmpTypeI32x4GtU : Z := 25.
Definition v128CmpTypeI32x4LeS : Z := 26.
Definition v128CmpTypeI32x4LeU : Z := 27.
Definition v128CmpTypeI32x4GeS : Z := 28.
Definition v128CmpTypeI32x4GeU : Z := 29.
Definition v128CmpTypeI64x2Eq : Z := 30.
Definition v128CmpTypeI64x2Ne : Z := 31.
Definition v128CmpTypeI64x2LtS : Z := 32.
Definition v128CmpTypeI64x2GtS : Z := 33.
Definition v128CmpTypeI64x2LeS : Z := 34.
Definition v128CmpTypeI64x2GeS : Z := 35.
Definition v128CmpTypeF32x4Eq : Z := 36.
Definition v128CmpTypeF32x4Ne : Z := 37.
Definition v128CmpTypeF32x4Lt : Z := 38.
Definition v128CmpTypeF32x4Gt : Z := 39.
Definition v128CmpTypeF32x4Le : Z := 40.
Definition v128CmpTypeF32x4Ge : Z := 41.
Definition v128CmpTypeF64x2Eq : Z := 42.
Definition v128CmpTypeF64x2Ne : Z := 43.
Definition v128CmpTypeF64x2Lt : Z := 44.
Definition v128CmpTypeF64x2Gt : Z := 45.
Definition v128CmpTypeF64x2Le : Z := 46.
Definition v128CmpTypeF64x2Ge : Z := 47.

(** [atomicArithmeticOp] *)
Definition atomicArithmeticOpAdd : Z := 0.
Definition atomicArithmeticOpSub : Z := 1.
Definition atomicArithmeticOpAnd : Z := 2.
Definition atomicArithmeticOpOr : Z := 3.
Definition atomicArithmeticOpXor : Z := 4.
Definition atomicArithmeticOpNop : Z := 5.

(** ** Constructors

    A float is given by its bits. *)
Definition newOperationBuiltinFunctionCheckExitCode : unionOperation :=
  mkOp operationKindBuiltinFunctionCheckExitCode 0 0 false 0 0 0 [].
Definition newOperationUnreachable : unionOperation :=
  mkOp operationKindUnreachable 0 0 false 0 0 0 [].
Definition newOperationLabel (label : Z) : unionOperation :=
  mkOp operationKindLabel 0 0 false label 0 0 [].
Definition newOperationBr (target : Z) : unionOperation :=
  mkOp operationKindBr 0 0 false target 0 0 [].
Definition newOperationBrIf (thenTarget elseTarget : Z) (thenDrop : inclusiveRange) : unionOperation :=
  mkOp operationKindBrIf 0 0 false thenTarget elseTarget (AsU64 thenDrop) [].
Definition newOperationBrTable (targetLabelsAndRanges : list Z) : unionOperation :=
  mkOp operationKindBrTable 0 0 false 0 0 0 targetLabelsAndRanges.
Definition newOperationCall (functionIndex : Z) : unionOperation :=
  mkOp operationKindCall 0 0 false functionIndex 0 0 [].
Definition newOperationCallIndirect (typeIndex tableIndex : Z) : unionOperation :=
  mkOp operationKindCallIndirect 0 0 false typeIndex tableIndex 0 [].
Definition newOperationDrop (depth : inclusiveRange) : unionOperation :=
  mkOp operationKindDrop 0 0 false (AsU64 depth) 0 0 [].
Definition newOperationSelect (isTargetVector : bool) : unionOperation :=
  mkOp operationKindSelect 0 0 isTargetVector 0 0 0 [].
Definition newOperationPick (depth : Z) (isTargetVector : bool) : unionOperation :=
  mkOp operationKindPick 0 0 isTargetVector (u64 depth) 0 0 [].
Definition newOperationSet (depth localIndex : Z) (isTargetVector : bool) : unionOperation :=
  mkOp operationKindSet 0 0 isTargetVector (u64 depth) localIndex 0 [].
Definition newOperationGlobalGet (index : Z) : unionOperation :=
  mkOp operationKindGlobalGet 0 0 false index 0 0 [].
Definition newOperationGlobalSet (index : Z) : unionOperation :=
  mkOp operationKindGlobalSet 0 0 false index 0 0 [].
Definition newOperationLoad (unsignedType : Z) (arg : memoryArg) : unionOperation :=
  mkOp operationKindLoad unsignedType 0 false (Alignment arg) (Offset arg) 0 [].
Definition newOperationLoad8 (signedInt : Z) (arg : memoryArg) : unionOperation :=
  mkOp operationKindLoad8 signedInt 0 false (Alignment arg) (Offset arg) 0 [].
Definition newOperationLoad16 (signedInt : Z) (arg : memoryArg) : unionOperation :=
  mkOp operationKindLoad16 signedInt 0 false (Alignment arg) (Offset arg) 0 [].
Definition newOperationLoad32 (signed : bool) (arg : memoryArg) : unionOperation :=
  mkOp operationKindLoad32 (if signed then 1 else 0) 0 false (Alignment arg) (Offset arg) 0 [].
Definition newOperationStore (unsignedType : Z) (arg : memoryArg) : unionOperation :=
  mkOp operationKindStore unsignedType 0 false (Alignment arg) (Offset arg) 0 [].
Definition newOperationStore8 (arg : memoryArg) : unionOperation :=
  mkOp operationKindStore8 0 0 false (Alignment arg) (Offset arg) 0 [].
Definition newOperationStore16 (arg : memoryArg) : unionOperation :=
  mkOp operationKindStore16 0 0 false (Alignment arg) (Offset arg) 0 [].
Definition newOperationStore32 (arg : memoryArg) : unionOperation :=
  mkOp operationKindStore32 0 0 false (Alignment arg) (Offset arg) 0 [].
Definition newOperationMemorySize : unionOperation :=
  mkOp operationKindMemorySize 0 0 false 0 0 0 [].
Definition newOperationMemoryGrow : unionOperation :=
  mkOp operationKindMemoryGrow 0 0 false 0 0 0 [].
Definition newOperationConstI32 (value : Z) : unionOperation :=
  mkOp operationKindConstI32 0 0 false value 0 0 [].
Definition newOperationConstI64 (value : Z) : unionOperation :=
  mkOp operationKindConstI64 0 0 false value 0 0 [].
Definition newOperationConstF32 (value : Z) : unionOperation :=
  mkOp operationKindConstF32 0 0 false value 0 0 [].
Definition newOperationConstF64 (value : Z) : unionOperation :=
  mkOp operationKindConstF64 0 0 false value 0 0 [].
Definition newOperationEq (b : Z) : unionOperation :=
  mkOp operationKindEq b 0 false 0 0 0 [].
Definition newOperationNe (b : Z) : unionOperation :=
  mkOp operationKindNe b 0 false 0 0 0 [].
Definition newOperationEqz (b : Z) : unionOperation :=
  mkOp operationKindEqz b 0 false 0 0 0 [].
Definition newOperationLt (b : Z) : unionOperation :=
  mkOp operationKindLt b 0 false 0 0 0 [].
Definition newOperationGt (b : Z) : unionOperation :=
  mkOp operationKindGt b 0 false 0 0 0 [].
Definition newOperationLe (b : Z) : unionOperation :=
  mkOp operationKindLe b 0 false 0 0 0 [].
Definition newOperationGe (b : Z) : unionOperation :=
  mkOp operationKindGe b 0 false 0 0 0 [].
Definition newOperationAdd (b : Z) : unionOperation :=
  mkOp operationKindAdd b 0 false 0 0 0 [].
Definition newOperationSub (b : Z) : unionOperation :=
  mkOp operationKindSub b 0 false 0 0 0 [].
Definition newOperationMul (b : Z) : unionOperation :=
  mkOp operationKindMul b 0 false 0 0 0 [].
Definition newOperationClz (b : Z) : unionOperation :=
  mkOp operationKindClz b 0 false 0 0 0 [].
Definition newOperationCtz (b : Z) : unionOperation :=
  mkOp operationKindCtz b 0 false 0 0 0 [].
Definition newOperationPopcnt (b : Z) : unionOperation :=
  mkOp operationKindPopcnt b 0 false 0 0 0 [].
Definition newOperationDiv (b : Z) : unionOperation :=
  mkOp operationKindDiv b 0 false 0 0 0 [].
Definition newOperationRem (b : Z) : unionOperation :=
  mkOp operationKindRem b 0 false 0 0 0 [].
Definition newOperationAnd (b : Z) : unionOperation :=
  mkOp operationKindAnd b 0 false 0 0 0 [].
Definition newOperationOr (b : Z) : unionOperation :=
  mkOp operationKindOr b 0 false 0 0 0 [].
Definition newOperationXor (b : Z) : unionOperation :=
  mkOp operationKindXor b 0 false 0 0 0 [].
Definition newOperationShl (b : Z) : unionOperation :=
  mkOp operationKindShl b 0 false 0 0 0 [].
Definition newOperationShr (b : Z) : unionOperation :=
  mkOp operationKindShr b 0 false 0 0 0 [].
Definition newOperationRotl (b : Z) : unionOperation :=
  mkOp operationKindRotl b 0 false 0 0 0 [].
Definition newOperationRotr (b : Z) : unionOperation :=
  mkOp operationKindRotr b 0 false 0 0 0 [].
Definition newOperationAbs (b : Z) : unionOperation :=
  mkOp operationKindAbs b 0 false 0 0 0 [].
Definition newOperationNeg (b : Z) : unionOperation :=
  mkOp operationKindNeg b 0 false 0 0 0 [].
Definition newOperationCeil (b : Z) : unionOperation :=
  mkOp operationKindCeil b 0 false 0 0 0 [].
Definition newOperationFloor (b : Z) : unionOperation :=
  mkOp operationKindFloor b 0 false 0 0 0 [].
Definition newOperationTrunc (b : Z) : unionOperation :=
  mkOp operationKindTrunc b 0 false 0 0 0 [].
Definition newOperationNearest (b : Z) : unionOperation :=
  mkOp operationKindNearest b 0 false 0 0 0 [].
Definition newOperationSqrt (b : Z) : unionOperation :=
  mkOp operationKindSqrt b 0 false 0 0 0 [].
Definition newOperationMin (b : Z) : unionOperation :=
  mkOp operationKindMin b 0 false 0 0 0 [].
Definition newOperationMax (b : Z) : unionOperation :=
  mkOp operationKindMax b 0 false 0 0 0 [].
Definition newOperationCopysign (b : Z) : unionOperation :=
  mkOp operationKindCopysign b 0 false 0 0 0 [].
Definition newOperationI32WrapFromI64 : unionOperation :=
  mkOp operationKindI32WrapFromI64 0 0 false 0 0 0 [].
Definition newOperationITruncFromF (inputType outputType : Z) (nonTrapping : bool) : unionOperation :=
  mkOp operationKindITruncFromF inputType outputType nonTrapping 0 0 0 [].
Definition newOperationFConvertFromI (inputType outputType : Z) : unionOperation :=
  mkOp operationKindFConvertFromI inputType outputType false 0 0 0 [].
Definition newOperationF32DemoteFromF64 : unionOperation :=
  mkOp operationKindF32DemoteFromF64 0 0 false 0 0 0 [].
Definition newOperationF64PromoteFromF32 : unionOperation :=
  mkOp operationKindF64PromoteFromF32 0 0 false 0 0 0 [].
Definition newOperationI32ReinterpretFromF32 : unionOperation :=
  mkOp operationKindI32ReinterpretFromF32 0 0 false 0 0 0 [].
Definition newOperationI64ReinterpretFromF64 : unionOperation :=
  mkOp operationKindI64ReinterpretFromF64 0 0 false 0 0 0 [].
Definition newOperationF32ReinterpretFromI32 : unionOperation :=
  mkOp operationKindF32ReinterpretFromI32 0 0 false 0 0 0 [].
Definition newOperationF64ReinterpretFromI64 : unionOperation :=
  mkOp operationKindF64ReinterpretFromI64 0 0 false 0 0 0 [].
Definition newOperationExtend (signed : bool) : unionOperation :=
  mkOp operationKindExtend (if signed then 1 else 0) 0 false 0 0 0 [].
Definition newOperationSignExtend32From8 : unionOperation :=
  mkOp operationKindSignExtend32From8 0 0 false 0 0 0 [].
Definition newOperationSignExtend32From16 : unionOperation :=
  mkOp operationKindSignExtend32From16 0 0 false 0 0 0 [].
Definition newOperationSignExtend64From8 : unionOperation :=
  mkOp operationKindSignExtend64From8 0 0 false 0 0 0 [].
Definition newOperationSignExtend64From16 : unionOperation :=
  mkOp operationKindSignExtend64From16 0 0 false 0 0 0 [].
Definition newOperationSignExtend64From32 : unionOperation :=
  mkOp operationKindSignExtend64From32 0 0 false 0 0 0 [].
Definition newOperationMemoryInit (dataIndex : Z) : unionOperation :=
  mkOp operationKindMemoryInit 0 0 false dataIndex 0 0 [].
Definition newOperationDataDrop (dataIndex : Z) : unionOperation :=
  mkOp operationKindDataDrop 0 0 false dataIndex 0 0 [].
Definition newOperationMemoryCopy : unionOperation :=
  mkOp operationKindMemoryCopy 0 0 false 0 0 0 [].
Definition newOperationMemoryFill : unionOperation :=
  mkOp operationKindMemoryFill 0 0 false 0 0 0 [].
Definition newOperationTableInit (elemIndex tableIndex : Z) : unionOperation :=
  mkOp operationKindTableInit 0 0 false elemIndex tableIndex 0 [].
Definition newOperationElemDrop (elemIndex : Z) : unionOperation :=
  mkOp operationKindElemDrop 0 0 false elemIndex 0 0 [].
Definition newOperationTableCopy (srcTableIndex dstTableIndex : Z) : unionOperation :=
  mkOp operationKindTableCopy 0 0 false srcTableIndex dstTableIndex 0 [].
Definition newOperationRefFunc (functionIndex : Z) : unionOperation :=
  mkOp operationKindRefFunc 0 0 false functionIndex 0 0 [].
Definition newOperationTableGet (tableIndex : Z) : unionOperation :=
  mkOp operationKindTableGet 0 0 false tableIndex 0 0 [].
Definition newOperationTableSet (tableIndex : Z) : unionOperation :=
  mkOp operationKindTableSet 0 0 false tableIndex 0 0 [].
Definition newOperationTableSize (tableIndex : Z) : unionOperation :=
  mkOp operationKindTableSize 0 0 false tableIndex 0 0 [].
Definition newOperationTableGrow (tableIndex : Z) : unionOperation :=
  mkOp operationKindTableGrow 0 0 false tableIndex 0 0 [].
Definition newOperationTableFill (tableIndex : Z) : unionOperation :=
  mkOp operationKindTableFill 0 0 false tableIndex 0 0 [].
Definition newOperationV128Const (lo hi : Z) : unionOperation :=
  mkOp operationKindV128Const 0 0 false lo hi 0 [].
Definition newOperationV128Add (shape : Z) : unionOperation :=
  mkOp operationKindV128Add shape 0 false 0 0 0 [].
Definition newOperationV128Sub (shape : Z) : unionOperation :=
  mkOp operationKindV128Sub shape 0 false 0 0 0 [].
Definition newOperationV128Load (loadType : Z) (arg : memoryArg) : unionOperation :=
  mkOp operationKindV128Load loadType 0 false (Alignment arg) (Offset arg) 0 [].
Definition newOperationV128LoadLane (laneIndex laneSize : Z) (arg : memoryArg) : unionOperation :=
  mkOp operationKindV128LoadLane laneSize laneIndex false (Alignment arg) (Offset arg) 0 [].
Definition newOperationV128Store (arg : memoryArg) : unionOperation :=
  mkOp operationKindV128Store 0 0 false (Alignment arg) (Offset arg) 0 [].
Definition newOperationV128StoreLane (laneIndex laneSize : Z) (arg : memoryArg) : unionOperation :=
  mkOp operationKindV128StoreLane laneSize laneIndex false (Alignment arg) (Offset arg) 0 [].
Definition newOperationV128ExtractLane (laneIndex : Z) (signed : bool) (shape : Z) : unionOperation :=
  mkOp operationKindV128ExtractLane shape laneIndex signed 0 0 0 [].
Definition newOperationV128ReplaceLane (laneIndex shape : Z) : unionOperation :=
  mkOp operationKindV128ReplaceLane shape laneIndex false 0 0 0 [].
Definition newOperationV128Splat (shape : Z) : unionOperation :=
  mkOp operationKindV128Splat shape 0 false 0 0 0 [].
Definition newOperationV128Shuffle (lanes : list Z) : unionOperation :=
  mkOp operationKindV128Shuffle 0 0 false 0 0 0 lanes.
Definition newOperationV128Swizzle : unionOperation :=
  mkOp operationKindV128Swizzle 0 0 false 0 0 0 [].
Definition newOperationV128AnyTrue : unionOperation :=
  mkOp operationKindV128AnyTrue 0 0 false 0 0 0 [].
Definition newOperationV128AllTrue (shape : Z) : unionOperation :=
  mkOp operationKindV128AllTrue shape 0 false 0 0 0 [].
Definition newOperationV128BitMask (shape : Z) : unionOperation :=
  mkOp operationKindV128BitMask shape 0 false 0 0 0 [].
Definition newOperationV128And : unionOperation :=
  mkOp operationKindV128And 0 0 false 0 0 0 [].
Definition newOperationV128Not : unionOperation :=
  mkOp operationKindV128Not 0 0 false 0 0 0 [].
Definition newOperationV128Or : unionOperation :=
  mkOp operationKindV128Or 0 0 false 0 0 0 [].
Definition newOperationV128Xor : unionOperation :=
  mkOp operationKindV128Xor 0 0 false 0 0 0 [].
Definition newOperationV128Bitselect : unionOperation :=
  mkOp operationKindV128Bitselect 0 0 false 0 0 0 [].
Definition newOperationV128AndNot : unionOperation :=
  mkOp operationKindV128AndNot 0 0 false 0 0 0 [].
Definition newOperationV128Shl (shape : Z) : unionOperation :=
  mkOp operationKindV128Shl shape 0 false 0 0 0 [].
Definition newOperationV128Shr (shape : Z) (signed : bool) : unionOperation :=
  mkOp operationKindV128Shr shape 0 signed 0 0 0 [].
Definition newOperationV128Cmp (cmpType : Z) : unionOperation :=
  mkOp operationKindV128Cmp cmpType 0 false 0 0 0 [].
Definition newOperationV128AddSat (shape : Z) (signed : bool) : unionOperation :=
  mkOp operationKindV128AddSat shape 0 signed 0 0 0 [].
Definition newOperationV128SubSat (shape : Z) (signed : bool) : unionOperation :=
  mkOp operationKindV128SubSat shape 0 signed 0 0 0 [].
Definition newOperationV128Mul (shape : Z) : unionOperation :=
  mkOp operationKindV128Mul shape 0 false 0 0 0 [].
Definition newOperationV128Div (shape : Z) : unionOperation :=
  mkOp operationKindV128Div shape 0 false 0 0 0 [].
Definition newOperationV128Neg (shape : Z) : unionOperation :=
  mkOp operationKindV128Neg shape 0 false 0 0 0 [].
Definition newOperationV128Sqrt (shape : Z) : unionOperation :=
  mkOp operationKindV128Sqrt shape 0 false 0 0 0 [].
Definition newOperationV128Abs (shape : Z) : unionOperation :=
  mkOp operationKindV128Abs shape 0 false 0 0 0 [].
Definition newOperationV128Popcnt (shape : Z) : unionOperation :=
  mkOp operationKindV128Popcnt shape 0 false 0 0 0 [].
Definition newOperationV128Min (shape : Z) (signed : bool) : unionOperation :=
  mkOp operationKindV128Min shape 0 signed 0 0 0 [].
Definition newOperationV128Max (shape : Z) (signed : bool) : unionOperation :=
  mkOp operationKindV128Max shape 0 signed 0 0 0 [].
Definition newOperationV128AvgrU (shape : Z) : unionOperation :=
  mkOp operationKindV128AvgrU shape 0 false 0 0 0 [].
Definition newOperationV128Pmin (shape : Z) : unionOperation :=
  mkOp operationKindV128Pmin shape 0 false 0 0 0 [].
Definition newOperationV128Pmax (shape : Z) : unionOperation :=
  mkOp operationKindV128Pmax shape 0 false 0 0 0 [].
Definition newOperationV128Ceil (shape : Z) : unionOperation :=
  mkOp operationKindV128Ceil shape 0 false 0 0 0 [].
Definition newOperationV128Floor (shape : Z) : unionOperation :=
  mkOp operationKindV128Floor shape 0 false 0 0 0 [].
Definition newOperationV128Trunc (shape : Z) : unionOperation :=
  mkOp operationKindV128Trunc shape 0 false 0 0 0 [].
Definition newOperationV128Nearest (shape : Z) : unionOperation :=
  mkOp operationKindV128Nearest shape 0 false 0 0 0 [].
Definition newOperationV128Extend (originshape : Z) (signed useLow : bool) : unionOperation :=
  mkOp operationKindV128Extend originshape (if signed then 1 else 0) useLow 0 0 0 [].
Definition newOperationV128ExtMul (originshape : Z) (signed useLow : bool) : unionOperation :=
  mkOp operationKindV128ExtMul originshape (if signed then 1 else 0) useLow 0 0 0 [].
Definition newOperationV128Q15mulrSatS : unionOperation :=
  mkOp operationKindV128Q15mulrSatS 0 0 false 0 0 0 [].
Definition newOperationV128ExtAddPairwise (originshape : Z) (signed : bool) : unionOperation :=
  mkOp operationKindV128ExtAddPairwise originshape 0 signed 0 0 0 [].
Definition newOperationV128FloatPromote : unionOperation :=
  mkOp operationKindV128FloatPromote 0 0 false 0 0 0 [].
Definition newOperationV128FloatDemote : unionOperation :=
  mkOp operationKindV128FloatDemote 0 0 false 0 0 0 [].
Definition newOperationV128FConvertFromI (destinationshape : Z) (signed : bool) : unionOperation :=
  mkOp operationKindV128FConvertFromI destinationshape 0 signed 0 0 0 [].
Definition newOperationV128Dot : unionOperation :=
  mkOp operationKindV128Dot 0 0 false 0 0 0 [].
Definition newOperationV128Narrow (originshape : Z) (signed : bool) : unionOperation :=
  mkOp operationKindV128Narrow originshape 0 signed 0 0 0 [].
Definition newOperationV128ITruncSatFromF (originshape : Z) (signed : bool) : unionOperation :=
  mkOp operationKindV128ITruncSatFromF originshape 0 signed 0 0 0 [].
Definition newOperationAtomicMemoryWait (unsignedType : Z) (arg : memoryArg) : unionOperation :=
  mkOp operationKindAtomicMemoryWait unsignedType 0 false (Alignment arg) (Offset arg) 0 [].
Definition newOperationAtomicMemoryNotify (arg : memoryArg) : unionOperation :=
  mkOp operationKindAtomicMemoryNotify 0 0 false (Alignment arg) (Offset arg) 0 [].
Definition newOperationAtomicFence : unionOperation :=
  mkOp operationKindAtomicFence 0 0 false 0 0 0 [].
Definition newOperationAtomicLoad (unsignedType : Z) (arg : memoryArg) : unionOperation :=
  mkOp operationKindAtomicLoad unsignedType 0 false (Alignment arg) (Offset arg) 0 [].
Definition newOperationAtomicLoad8 (unsignedType : Z) (arg : memoryArg) : unionOperation :=
  mkOp operationKindAtomicLoad8 unsignedType 0 false (Alignment arg) (Offset arg) 0 [].
Definition newOperationAtomicLoad16 (unsignedType : Z) (arg : memoryArg) : unionOperation :=
  mkOp operationKindAtomicLoad16 unsignedType 0 false (Alignment arg) (Offset arg) 0 [].
Definition newOperationAtomicStore (unsignedType : Z) (arg : memoryArg) : unionOperation :=
  mkOp operationKindAtomicStore unsignedType 0 false (Alignment arg) (Offset arg) 0 [].
Definition newOperationAtomicStore8 (unsignedType : Z) (arg : memoryArg) : unionOperation :=
  mkOp operationKindAtomicStore8 unsignedType 0 false (Alignment arg) (Offset arg) 0 [].
Definition newOperationAtomicStore16 (unsignedType : Z) (arg : memoryArg) : unionOperation :=
  mkOp operationKindAtomicStore16 unsignedType 0 false (Alignment arg) (Offset arg) 0 [].
Definition newOperationAtomicRMW (unsignedType : Z) (arg : memoryArg) (op : Z) : unionOperation :=
  mkOp operationKindAtomicRMW unsignedType op false (Alignment arg) (Offset arg) 0 [].
Definition newOperationAtomicRMW8 (unsignedType : Z) (arg : memoryArg) (op : Z) : unionOperation :=
  mkOp operationKindAtomicRMW8 unsignedType op false (Alignment arg) (Offset arg) 0 [].
Definition newOperationAtomicRMW16 (unsignedType : Z) (arg : memoryArg) (op : Z) : unionOperation :=
  mkOp operationKindAtomicRMW16 unsignedType op false (Alignment arg) (Offset arg) 0 [].
Definition newOperationAtomicRMWCmpxchg (unsignedType : Z) (arg : memoryArg) : unionOperation :=
  mkOp operationKindAtomicRMWCmpxchg unsignedType 0 false (Alignment arg) (Offset arg) 0 [].
Definition newOperationAtomicRMW8Cmpxchg (unsignedType : Z) (arg : memoryArg) : unionOperation :=
  mkOp operationKindAtomicRMW8Cmpxchg unsignedType 0 false (Alignment arg) (Offset arg) 0 [].
Definition newOperationAtomicRMW16Cmpxchg (unsignedType : Z) (arg : memoryArg) : unionOperation :=
  mkOp operationKindAtomicRMW16Cmpxchg unsignedType 0 false (Alignment arg) (Offset arg) 0 [].

End Operations.
