(* ===== verification/Signature.v ===== *)
(** * Signatures of instructions: [internal/engine/interpreter/signature.go]

    What an instruction takes from the stack and leaves on it, in the types of
    the intermediate representation; the deepest operand is first.  The
    signatures that depend on the function being lowered are in [Lower]. *)
From S2P Require Import Prelude Opcodes Operations.

Module Signature.
Import Opcodes Operations.

Record signature : Type := mkSig { sig_in : list Z; sig_out : list Z }.

(** The case of a switch with several opcodes in each. *)
Fixpoint cases {A} (op : Z) (table : list (list Z * A)) : option A :=
  match table with
  | [] => None
  | (os, a) :: table => if existsb (Z.eqb op) os then Some a else cases op table
  end.

Definition signature_None_None : signature := mkSig [] [].
Definition signature_Unknown_None : signature := mkSig [unsignedTypeUnknown] [].
Definition signature_None_I32 : signature := mkSig [] [unsignedTypeI32].
Definition signature_None_I64 : signature := mkSig [] [unsignedTypeI64].
Definition signature_None_V128 : signature := mkSig [] [unsignedTypeV128].
Definition signature_None_F32 : signature := mkSig [] [unsignedTypeF32].
Definition signature_None_F64 : signature := mkSig [] [unsignedTypeF64].
Definition signature_I32_None : signature := mkSig [unsignedTypeI32] [].
Definition signature_I64_None : signature := mkSig [unsignedTypeI64] [].
Definition signature_F32_None : signature := mkSig [unsignedTypeF32] [].
Definition signature_F64_None : signature := mkSig [unsignedTypeF64] [].
Definition signature_V128_None : signature := mkSig [unsignedTypeV128] [].
Definition signature_I32_I32 : signature := mkSig [unsignedTypeI32] [unsignedTypeI32].
Definition signature_I32_I64 : signature := mkSig [unsignedTypeI32] [unsignedTypeI64].
Definition signature_I64_I64 : signature := mkSig [unsignedTypeI64] [unsignedTypeI64].
Definition signature_I32_F32 : signature := mkSig [unsignedTypeI32] [unsignedTypeF32].
Definition signature_I32_F64 : signature := mkSig [unsignedTypeI32] [unsignedTypeF64].
Definition signature_I64_I32 : signature := mkSig [unsignedTypeI64] [unsignedTypeI32].
Definition signature_I64_F32 : signature := mkSig [unsignedTypeI64] [unsignedTypeF32].
Definition signature_I64_F64 : signature := mkSig [unsignedTypeI64] [unsignedTypeF64].
Definition signature_F32_I32 : signature := mkSig [unsignedTypeF32] [unsignedTypeI32].
Definition signature_F32_I64 : signature := mkSig [unsignedTypeF32] [unsignedTypeI64].
Definition signature_F32_F64 : signature := mkSig [unsignedTypeF32] [unsignedTypeF64].
Definition signature_F32_F32 : signature := mkSig [unsignedTypeF32] [unsignedTypeF32].
Definition signature_F64_I32 : signature := mkSig [unsignedTypeF64] [unsignedTypeI32].
Definition signature_F64_F32 : signature := mkSig [unsignedTypeF64] [unsignedTypeF32].
Definition signature_F64_I64 : signature := mkSig [unsignedTypeF64] [unsignedTypeI64].
Definition signature_F64_F64 : signature := mkSig [unsignedTypeF64] [unsignedTypeF64].
Definition signature_I32I32_None : signature := mkSig [unsignedTypeI32; unsignedTypeI32] [].
Definition signature_I32I32_I32 : signature := mkSig [unsignedTypeI32; unsignedTypeI32] [unsignedTypeI32].
Definition signature_I32I64_None : signature := mkSig [unsignedTypeI32; unsignedTypeI64] [].
Definition signature_I32F32_None : signature := mkSig [unsignedTypeI32; unsignedTypeF32] [].
Definition signature_I32F64_None : signature := mkSig [unsignedTypeI32; unsignedTypeF64] [].
Definition signature_I64I32_I32 : signature := mkSig [unsignedTypeI64; unsignedTypeI32] [unsignedTypeI32].
Definition signature_I64I64_I32 : signature := mkSig [unsignedTypeI64; unsignedTypeI64] [unsignedTypeI32].
Definition signature_I64I64_I64 : signature := mkSig [unsignedTypeI64; unsignedTypeI64] [unsignedTypeI64].
Definition signature_F32F32_I32 : signature := mkSig [unsignedTypeF32; unsignedTypeF32] [unsignedTypeI32].
Definition signature_F32F32_F32 : signature := mkSig [unsignedTypeF32; unsignedTypeF32] [unsignedTypeF32].
Definition signature_F64F64_I32 : signature := mkSig [unsignedTypeF64; unsignedTypeF64] [unsignedTypeI32].
Definition signature_F64F64_F64 : signature := mkSig [unsignedTypeF64; unsignedTypeF64] [unsignedTypeF64].
Definition signature_I32I32I32_None : signature := mkSig [unsignedTypeI32; unsignedTypeI32; unsignedTypeI32] [].
Definition signature_I32I64I32_None : signature := mkSig [unsignedTypeI32; unsignedTypeI64; unsignedTypeI32] [].
Definition signature_UnknownUnknownI32_Unknown : signature := mkSig [unsignedTypeUnknown; unsignedTypeUnknown; unsignedTypeI32] [unsignedTypeUnknown].
Definition signature_V128V128_V128 : signature := mkSig [unsignedTypeV128; unsignedTypeV128] [unsignedTypeV128].
Definition signature_V128V128V128_V32 : signature := mkSig [unsignedTypeV128; unsignedTypeV128; unsignedTypeV128] [unsignedTypeV128].
Definition signature_I32_V128 : signature := mkSig [unsignedTypeI32] [unsignedTypeV128].
Definition signature_I32V128_None : signature := mkSig [unsignedTypeI32; unsignedTypeV128] [].
Definition signature_I32V128_V128 : signature := mkSig [unsignedTypeI32; unsignedTypeV128] [unsignedTypeV128].
Definition signature_V128I32_V128 : signature := mkSig [unsignedTypeV128; unsignedTypeI32] [unsignedTypeV128].
Definition signature_V128I64_V128 : signature := mkSig [unsignedTypeV128; unsignedTypeI64] [unsignedTypeV128].
Definition signature_V128F32_V128 : signature := mkSig [unsignedTypeV128; unsignedTypeF32] [unsignedTypeV128].
Definition signature_V128F64_V128 : signature := mkSig [unsignedTypeV128; unsignedTypeF64] [unsignedTypeV128].
Definition signature_V128_I32 : signature := mkSig [unsignedTypeV128] [unsignedTypeI32].
Definition signature_V128_I64 : signature := mkSig [unsignedTypeV128] [unsignedTypeI64].
Definition signature_V128_F32 : signature := mkSig [unsignedTypeV128] [unsignedTypeF32].
Definition signature_V128_F64 : signature := mkSig [unsignedTypeV128] [unsignedTypeF64].
Definition signature_V128_V128 : signature := mkSig [unsignedTypeV128] [unsignedTypeV128].
Definition signature_I64_V128 : signature := mkSig [unsignedTypeI64] [unsignedTypeV128].
Definition signature_F32_V128 : signature := mkSig [unsignedTypeF32] [unsignedTypeV128].
Definition signature_F64_V128 : signature := mkSig [unsignedTypeF64] [unsignedTypeV128].
Definition signature_I32I64_I64 : signature := mkSig [unsignedTypeI32; unsignedTypeI64] [unsignedTypeI64].
Definition signature_I32I32I64_I32 : signature := mkSig [unsignedTypeI32; unsignedTypeI32; unsignedTypeI64] [unsignedTypeI32].
Definition signature_I32I64I64_I32 : signature := mkSig [unsignedTypeI32; unsignedTypeI64; unsignedTypeI64] [unsignedTypeI32].
Definition signature_I32I32I32_I32 : signature := mkSig [unsignedTypeI32; unsignedTypeI32; unsignedTypeI32] [unsignedTypeI32].
Definition signature_I32I64I64_I64 : signature := mkSig [unsignedTypeI32; unsignedTypeI64; unsignedTypeI64] [unsignedTypeI64].

(** ** One-byte opcodes *)
Definition main_signature : list (list Z * signature) :=
  [([OpcodeUnreachable; OpcodeNop; OpcodeBlock; OpcodeLoop], signature_None_None);
   ([OpcodeIf], signature_I32_None);
   ([OpcodeElse; OpcodeEnd; OpcodeBr], signature_None_None);
   ([OpcodeBrIf; OpcodeBrTable], signature_I32_None);
   ([OpcodeReturn], signature_None_None);
   ([OpcodeDrop], signature_Unknown_None);
   ([OpcodeSelect; OpcodeTypedSelect], signature_UnknownUnknownI32_Unknown);
   ([OpcodeI32Load], signature_I32_I32);
   ([OpcodeI64Load], signature_I32_I64);
   ([OpcodeF32Load], signature_I32_F32);
   ([OpcodeF64Load], signature_I32_F64);
   ([OpcodeI32Load8S; OpcodeI32Load8U; OpcodeI32Load16S; OpcodeI32Load16U], signature_I32_I32);
   ([OpcodeI64Load8S; OpcodeI64Load8U; OpcodeI64Load16S; OpcodeI64Load16U; OpcodeI64Load32S;
     OpcodeI64Load32U], signature_I32_I64);
   ([OpcodeI32Store], signature_I32I32_None);
   ([OpcodeI64Store], signature_I32I64_None);
   ([OpcodeF32Store], signature_I32F32_None);
   ([OpcodeF64Store], signature_I32F64_None);
   ([OpcodeI32Store8], signature_I32I32_None);
   ([OpcodeI32Store16], signature_I32I32_None);
   ([OpcodeI64Store8], signature_I32I64_None);
   ([OpcodeI64Store16], signature_I32I64_None);
   ([OpcodeI64Store32], signature_I32I64_None);
   ([OpcodeMemorySize], signature_None_I32);
   ([OpcodeMemoryGrow], signature_I32_I32);
   ([OpcodeI32Const], signature_None_I32);
   ([OpcodeI64Const], signature_None_I64);
   ([OpcodeF32Const], signature_None_F32);
   ([OpcodeF64Const], signature_None_F64);
   ([OpcodeI32Eqz], signature_I32_I32);
   ([OpcodeI32Eq; OpcodeI32Ne; OpcodeI32LtS; OpcodeI32LtU; OpcodeI32GtS; OpcodeI32GtU;
     OpcodeI32LeS; OpcodeI32LeU; OpcodeI32GeS; OpcodeI32GeU], signature_I32I32_I32);
   ([OpcodeI64Eqz], signature_I64_I32);
   ([OpcodeI64Eq; OpcodeI64Ne; OpcodeI64LtS; OpcodeI64LtU; OpcodeI64GtS; OpcodeI64GtU;
     OpcodeI64LeS; OpcodeI64LeU; OpcodeI64GeS; OpcodeI64GeU], signature_I64I64_I32);
   ([OpcodeF32Eq; OpcodeF32Ne; OpcodeF32Lt; OpcodeF32Gt; OpcodeF32Le; OpcodeF32Ge], signature_F32F32_I32);
   ([OpcodeF64Eq; OpcodeF64Ne; OpcodeF64Lt; OpcodeF64Gt; OpcodeF64Le; OpcodeF64Ge], signature_F64F64_I32);
   ([OpcodeI32Clz; OpcodeI32Ctz; OpcodeI32Popcnt], signature_I32_I32);
   ([OpcodeI32Add; OpcodeI32Sub; OpcodeI32Mul; OpcodeI32DivS; OpcodeI32DivU; OpcodeI32RemS;
     OpcodeI32RemU; OpcodeI32And; OpcodeI32Or; OpcodeI32Xor; OpcodeI32Shl; OpcodeI32ShrS;
     OpcodeI32ShrU; OpcodeI32Rotl; OpcodeI32Rotr], signature_I32I32_I32);
   ([OpcodeI64Clz; OpcodeI64Ctz; OpcodeI64Popcnt], signature_I64_I64);
   ([OpcodeI64Add; OpcodeI64Sub; OpcodeI64Mul; OpcodeI64DivS; OpcodeI64DivU; OpcodeI64RemS;
     OpcodeI64RemU; OpcodeI64And; OpcodeI64Or; OpcodeI64Xor; OpcodeI64Shl; OpcodeI64ShrS;
     OpcodeI64ShrU; OpcodeI64Rotl; OpcodeI64Rotr], signature_I64I64_I64);
   ([OpcodeF32Abs; OpcodeF32Neg; OpcodeF32Ceil; OpcodeF32Floor; OpcodeF32Trunc; OpcodeF32Nearest;
     OpcodeF32Sqrt], signature_F32_F32);
   ([OpcodeF32Add; OpcodeF32Sub; OpcodeF32Mul; OpcodeF32Div; OpcodeF32Min; OpcodeF32Max;
     OpcodeF32Copysign], signature_F32F32_F32);
   ([OpcodeF64Abs; OpcodeF64Neg; OpcodeF64Ceil; OpcodeF64Floor; OpcodeF64Trunc; OpcodeF64Nearest;
     OpcodeF64Sqrt], signature_F64_F64);
   ([OpcodeF64Add; OpcodeF64Sub; OpcodeF64Mul; OpcodeF64Div; OpcodeF64Min; OpcodeF64Max;
     OpcodeF64Copysign], signature_F64F64_F64);
   ([OpcodeI32WrapI64], signature_I64_I32);
   ([OpcodeI32TruncF32S; OpcodeI32TruncF32U], signature_F32_I32);
   ([OpcodeI32TruncF64S; OpcodeI32TruncF64U], signature_F64_I32);
   ([OpcodeI64ExtendI32S; OpcodeI64ExtendI32U], signature_I32_I64);
   ([OpcodeI64TruncF32S; OpcodeI64TruncF32U], signature_F32_I64);
   ([OpcodeI64TruncF64S; OpcodeI64TruncF64U], signature_F64_I64);
   ([OpcodeF32ConvertI32S; OpcodeF32ConvertI32U], signature_I32_F32);
   ([OpcodeF32ConvertI64S; OpcodeF32ConvertI64U], signature_I64_F32);
   ([OpcodeF32DemoteF64], signature_F64_F32);
   ([OpcodeF64ConvertI32S; OpcodeF64ConvertI32U], signature_I32_F64);
   ([OpcodeF64ConvertI64S; OpcodeF64ConvertI64U], signature_I64_F64);
   ([OpcodeF64PromoteF32], signature_F32_F64);
   ([OpcodeI32ReinterpretF32], signature_F32_I32);
   ([OpcodeI64ReinterpretF64], signature_F64_I64);
   ([OpcodeF32ReinterpretI32], signature_I32_F32);
   ([OpcodeF64ReinterpretI64], signature_I64_F64);
   ([OpcodeI32Extend8S; OpcodeI32Extend16S], signature_I32_I32);
   ([OpcodeI64Extend8S; OpcodeI64Extend16S; OpcodeI64Extend32S], signature_I64_I64);
   ([OpcodeTableGet], signature_I32_I64);
   ([OpcodeTableSet], signature_I32I64_None);
   ([OpcodeRefFunc], signature_None_I64);
   ([OpcodeRefIsNull], signature_I64_I32);
   ([OpcodeRefNull], signature_None_I64)].

(** ** After [OpcodeMiscPrefix] *)
Definition misc_signature : list (list Z * signature) :=
  [([OpcodeMiscI32TruncSatF32S; OpcodeMiscI32TruncSatF32U], signature_F32_I32);
   ([OpcodeMiscI32TruncSatF64S; OpcodeMiscI32TruncSatF64U], signature_F64_I32);
   ([OpcodeMiscI64TruncSatF32S; OpcodeMiscI64TruncSatF32U], signature_F32_I64);
   ([OpcodeMiscI64TruncSatF64S; OpcodeMiscI64TruncSatF64U], signature_F64_I64);
   ([OpcodeMiscMemoryInit; OpcodeMiscMemoryCopy; OpcodeMiscMemoryFill; OpcodeMiscTableInit;
     OpcodeMiscTableCopy], signature_I32I32I32_None);
   ([OpcodeMiscDataDrop; OpcodeMiscElemDrop], signature_None_None);
   ([OpcodeMiscTableGrow], signature_I64I32_I32);
   ([OpcodeMiscTableSize], signature_None_I32);
   ([OpcodeMiscTableFill], signature_I32I64I32_None)].

(** ** After [OpcodeVecPrefix] *)
Definition vec_signature : list (list Z * signature) :=
  [([OpcodeVecV128Const], signature_None_V128);
   ([OpcodeVecV128Load; OpcodeVecV128Load8x8s; OpcodeVecV128Load8x8u; OpcodeVecV128Load16x4s;
     OpcodeVecV128Load16x4u; OpcodeVecV128Load32x2s; OpcodeVecV128Load32x2u;
     OpcodeVecV128Load8Splat; OpcodeVecV128Load16Splat; OpcodeVecV128Load32Splat;
     OpcodeVecV128Load64Splat; OpcodeVecV128Load32zero; OpcodeVecV128Load64zero], signature_I32_V128);
   ([OpcodeVecV128Load8Lane; OpcodeVecV128Load16Lane; OpcodeVecV128Load32Lane;
     OpcodeVecV128Load64Lane], signature_I32V128_V128);
   ([OpcodeVecV128Store; OpcodeVecV128Store8Lane; OpcodeVecV128Store16Lane;
     OpcodeVecV128Store32Lane; OpcodeVecV128Store64Lane], signature_I32V128_None);
   ([OpcodeVecI8x16ExtractLaneS; OpcodeVecI8x16ExtractLaneU; OpcodeVecI16x8ExtractLaneS;
     OpcodeVecI16x8ExtractLaneU; OpcodeVecI32x4ExtractLane], signature_V128_I32);
   ([OpcodeVecI64x2ExtractLane], signature_V128_I64);
   ([OpcodeVecF32x4ExtractLane], signature_V128_F32);
   ([OpcodeVecF64x2ExtractLane], signature_V128_F64);
   ([OpcodeVecI8x16ReplaceLane; OpcodeVecI16x8ReplaceLane; OpcodeVecI32x4ReplaceLane;
     OpcodeVecI8x16Shl; OpcodeVecI8x16ShrS; OpcodeVecI8x16ShrU; OpcodeVecI16x8Shl;
     OpcodeVecI16x8ShrS; OpcodeVecI16x8ShrU; OpcodeVecI32x4Shl; OpcodeVecI32x4ShrS;
     OpcodeVecI32x4ShrU; OpcodeVecI64x2Shl; OpcodeVecI64x2ShrS; OpcodeVecI64x2ShrU], signature_V128I32_V128);
   ([OpcodeVecI64x2ReplaceLane], signature_V128I64_V128);
   ([OpcodeVecF32x4ReplaceLane], signature_V128F32_V128);
   ([OpcodeVecF64x2ReplaceLane], signature_V128F64_V128);
   ([OpcodeVecI8x16Splat; OpcodeVecI16x8Splat; OpcodeVecI32x4Splat], signature_I32_V128);
   ([OpcodeVecI64x2Splat], signature_I64_V128);
   ([OpcodeVecF32x4Splat], signature_F32_V128);
   ([OpcodeVecF64x2Splat], signature_F64_V128);
   ([OpcodeVecV128i8x16Shuffle; OpcodeVecI8x16Swizzle; OpcodeVecV128And; OpcodeVecV128Or;
     OpcodeVecV128Xor; OpcodeVecV128AndNot], signature_V128V128_V128);
   ([OpcodeVecI8x16AllTrue; OpcodeVecI16x8AllTrue; OpcodeVecI32x4AllTrue; OpcodeVecI64x2AllTrue;
     OpcodeVecV128AnyTrue; OpcodeVecI8x16BitMask; OpcodeVecI16x8BitMask;
     OpcodeVecI32x4BitMask; OpcodeVecI64x2BitMask], signature_V128_I32);
   ([OpcodeVecV128Not; OpcodeVecI8x16Neg; OpcodeVecI16x8Neg; OpcodeVecI32x4Neg;
     OpcodeVecI64x2Neg; OpcodeVecF32x4Neg; OpcodeVecF64x2Neg; OpcodeVecF32x4Sqrt;
     OpcodeVecF64x2Sqrt; OpcodeVecI8x16Abs; OpcodeVecI8x16Popcnt; OpcodeVecI16x8Abs;
     OpcodeVecI32x4Abs; OpcodeVecI64x2Abs; OpcodeVecF32x4Abs; OpcodeVecF64x2Abs;
     OpcodeVecF32x4Ceil; OpcodeVecF32x4Floor; OpcodeVecF32x4Trunc; OpcodeVecF32x4Nearest;
     OpcodeVecF64x2Ceil; OpcodeVecF64x2Floor; OpcodeVecF64x2Trunc; OpcodeVecF64x2Nearest;
     OpcodeVecI16x8ExtendLowI8x16S; OpcodeVecI16x8ExtendHighI8x16S;
     OpcodeVecI16x8ExtendLowI8x16U; OpcodeVecI16x8ExtendHighI8x16U;
     OpcodeVecI32x4ExtendLowI16x8S; OpcodeVecI32x4ExtendHighI16x8S;
     OpcodeVecI32x4ExtendLowI16x8U; OpcodeVecI32x4ExtendHighI16x8U;
     OpcodeVecI64x2ExtendLowI32x4S; OpcodeVecI64x2ExtendHighI32x4S;
     OpcodeVecI64x2ExtendLowI32x4U; OpcodeVecI64x2ExtendHighI32x4U;
     OpcodeVecI16x8ExtaddPairwiseI8x16S; OpcodeVecI16x8ExtaddPairwiseI8x16U;
     OpcodeVecI32x4ExtaddPairwiseI16x8S; OpcodeVecI32x4ExtaddPairwiseI16x8U;
     OpcodeVecF64x2PromoteLowF32x4Zero; OpcodeVecF32x4DemoteF64x2Zero;
     OpcodeVecF32x4ConvertI32x4S; OpcodeVecF32x4ConvertI32x4U;
     OpcodeVecF64x2ConvertLowI32x4S; OpcodeVecF64x2ConvertLowI32x4U;
     OpcodeVecI32x4TruncSatF32x4S; OpcodeVecI32x4TruncSatF32x4U;
     OpcodeVecI32x4TruncSatF64x2SZero; OpcodeVecI32x4TruncSatF64x2UZero], signature_V128_V128);
   ([OpcodeVecV128Bitselect], signature_V128V128V128_V32);
   ([OpcodeVecI8x16Eq; OpcodeVecI8x16Ne; OpcodeVecI8x16LtS; OpcodeVecI8x16LtU; OpcodeVecI8x16GtS;
     OpcodeVecI8x16GtU; OpcodeVecI8x16LeS; OpcodeVecI8x16LeU; OpcodeVecI8x16GeS;
     OpcodeVecI8x16GeU; OpcodeVecI16x8Eq; OpcodeVecI16x8Ne; OpcodeVecI16x8LtS;
     OpcodeVecI16x8LtU; OpcodeVecI16x8GtS; OpcodeVecI16x8GtU; OpcodeVecI16x8LeS;
     OpcodeVecI16x8LeU; OpcodeVecI16x8GeS; OpcodeVecI16x8GeU; OpcodeVecI32x4Eq;
     OpcodeVecI32x4Ne; OpcodeVecI32x4LtS; OpcodeVecI32x4LtU; OpcodeVecI32x4GtS;
     OpcodeVecI32x4GtU; OpcodeVecI32x4LeS; OpcodeVecI32x4LeU; OpcodeVecI32x4GeS;
     OpcodeVecI32x4GeU; OpcodeVecI64x2Eq; OpcodeVecI64x2Ne; OpcodeVecI64x2LtS;
     OpcodeVecI64x2GtS; OpcodeVecI64x2LeS; OpcodeVecI64x2GeS; OpcodeVecF32x4Eq;
     OpcodeVecF32x4Ne; OpcodeVecF32x4Lt; OpcodeVecF32x4Gt; OpcodeVecF32x4Le;
     OpcodeVecF32x4Ge; OpcodeVecF64x2Eq; OpcodeVecF64x2Ne; OpcodeVecF64x2Lt;
     OpcodeVecF64x2Gt; OpcodeVecF64x2Le; OpcodeVecF64x2Ge; OpcodeVecI8x16Add;
     OpcodeVecI8x16AddSatS; OpcodeVecI8x16AddSatU; OpcodeVecI8x16Sub; OpcodeVecI8x16SubSatS;
     OpcodeVecI8x16SubSatU; OpcodeVecI16x8Add; OpcodeVecI16x8AddSatS; OpcodeVecI16x8AddSatU;
     OpcodeVecI16x8Sub; OpcodeVecI16x8SubSatS; OpcodeVecI16x8SubSatU; OpcodeVecI16x8Mul;
     OpcodeVecI32x4Add; OpcodeVecI32x4Sub; OpcodeVecI32x4Mul; OpcodeVecI64x2Add;
     OpcodeVecI64x2Sub; OpcodeVecI64x2Mul; OpcodeVecF32x4Add; OpcodeVecF32x4Sub;
     OpcodeVecF32x4Mul; OpcodeVecF32x4Div; OpcodeVecF64x2Add; OpcodeVecF64x2Sub;
     OpcodeVecF64x2Mul; OpcodeVecF64x2Div; OpcodeVecI8x16MinS; OpcodeVecI8x16MinU;
     OpcodeVecI8x16MaxS; OpcodeVecI8x16MaxU; OpcodeVecI8x16AvgrU; OpcodeVecI16x8MinS;
     OpcodeVecI16x8MinU; OpcodeVecI16x8MaxS; OpcodeVecI16x8MaxU; OpcodeVecI16x8AvgrU;
     OpcodeVecI32x4MinS; OpcodeVecI32x4MinU; OpcodeVecI32x4MaxS; OpcodeVecI32x4MaxU;
     OpcodeVecF32x4Min; OpcodeVecF32x4Max; OpcodeVecF64x2Min; OpcodeVecF64x2Max;
     OpcodeVecF32x4Pmin; OpcodeVecF32x4Pmax; OpcodeVecF64x2Pmin; OpcodeVecF64x2Pmax;
     OpcodeVecI16x8Q15mulrSatS; OpcodeVecI16x8ExtMulLowI8x16S;
     OpcodeVecI16x8ExtMulHighI8x16S; OpcodeVecI16x8ExtMulLowI8x16U;
     OpcodeVecI16x8ExtMulHighI8x16U; OpcodeVecI32x4ExtMulLowI16x8S;
     OpcodeVecI32x4ExtMulHighI16x8S; OpcodeVecI32x4ExtMulLowI16x8U;
     OpcodeVecI32x4ExtMulHighI16x8U; OpcodeVecI64x2ExtMulLowI32x4S;
     OpcodeVecI64x2ExtMulHighI32x4S; OpcodeVecI64x2ExtMulLowI32x4U;
     OpcodeVecI64x2ExtMulHighI32x4U; OpcodeVecI32x4DotI16x8S; OpcodeVecI8x16NarrowI16x8S;
     OpcodeVecI8x16NarrowI16x8U; OpcodeVecI16x8NarrowI32x4S; OpcodeVecI16x8NarrowI32x4U], signature_V128V128_V128)].

(** ** After [OpcodeAtomicPrefix] *)
Definition atomic_signature : list (list Z * signature) :=
  [([OpcodeAtomicMemoryNotify], signature_I32I32_I32);
   ([OpcodeAtomicMemoryWait32], signature_I32I32I64_I32);
   ([OpcodeAtomicMemoryWait64], signature_I32I64I64_I32);
   ([OpcodeAtomicFence], signature_None_None);
   ([OpcodeAtomicI32Load; OpcodeAtomicI32Load8U; OpcodeAtomicI32Load16U], signature_I32_I32);
   ([OpcodeAtomicI64Load; OpcodeAtomicI64Load8U; OpcodeAtomicI64Load16U; OpcodeAtomicI64Load32U], signature_I32_I64);
   ([OpcodeAtomicI32Store; OpcodeAtomicI32Store8; OpcodeAtomicI32Store16], signature_I32I32_None);
   ([OpcodeAtomicI64Store; OpcodeAtomicI64Store8; OpcodeAtomicI64Store16; OpcodeAtomicI64Store32], signature_I32I64_None);
   ([OpcodeAtomicI32RmwAdd; OpcodeAtomicI32RmwSub; OpcodeAtomicI32RmwAnd; OpcodeAtomicI32RmwOr;
     OpcodeAtomicI32RmwXor; OpcodeAtomicI32RmwXchg; OpcodeAtomicI32Rmw8AddU;
     OpcodeAtomicI32Rmw8SubU; OpcodeAtomicI32Rmw8AndU; OpcodeAtomicI32Rmw8OrU;
     OpcodeAtomicI32Rmw8XorU; OpcodeAtomicI32Rmw8XchgU; OpcodeAtomicI32Rmw16AddU;
     OpcodeAtomicI32Rmw16SubU; OpcodeAtomicI32Rmw16AndU; OpcodeAtomicI32Rmw16OrU;
     OpcodeAtomicI32Rmw16XorU; OpcodeAtomicI32Rmw16XchgU], signature_I32I32_I32);
   ([OpcodeAtomicI64RmwAdd; OpcodeAtomicI64RmwSub; OpcodeAtomicI64RmwAnd; OpcodeAtomicI64RmwOr;
     OpcodeAtomicI64RmwXor; OpcodeAtomicI64RmwXchg; OpcodeAtomicI64Rmw8AddU;
     OpcodeAtomicI64Rmw8SubU; OpcodeAtomicI64Rmw8AndU; OpcodeAtomicI64Rmw8OrU;
     OpcodeAtomicI64Rmw8XorU; OpcodeAtomicI64Rmw8XchgU; OpcodeAtomicI64Rmw16AddU;
     OpcodeAtomicI64Rmw16SubU; OpcodeAtomicI64Rmw16AndU; OpcodeAtomicI64Rmw16OrU;
     OpcodeAtomicI64Rmw16XorU; OpcodeAtomicI64Rmw16XchgU; OpcodeAtomicI64Rmw32AddU;
     OpcodeAtomicI64Rmw32SubU; OpcodeAtomicI64Rmw32AndU; OpcodeAtomicI64Rmw32OrU;
     OpcodeAtomicI64Rmw32XorU; OpcodeAtomicI64Rmw32XchgU], signature_I32I64_I64);
   ([OpcodeAtomicI32RmwCmpxchg; OpcodeAtomicI32Rmw8CmpxchgU; OpcodeAtomicI32Rmw16CmpxchgU], signature_I32I32I32_I32);
   ([OpcodeAtomicI64RmwCmpxchg; OpcodeAtomicI64Rmw8CmpxchgU; OpcodeAtomicI64Rmw16CmpxchgU;
     OpcodeAtomicI64Rmw32CmpxchgU], signature_I32I64I64_I64)].

End Signature.
