(* ===== verification/LowerTables.v ===== *)
(** * What each instruction is lowered to:
    [handleInstruction] of [internal/engine/interpreter/compiler.go]

    The cases of the lowering's switches that emit one operation, by opcode:
    without an immediate ([plain]), with a memory argument ([memory]), with a
    lane ([lane]) and with both ([memoryLane]).  The other cases are in
    [Lower]. *)
From S2P Require Import Prelude Opcodes Operations.

Module LowerTables.
Import Opcodes Operations.

(** The case of a switch. *)
Fixpoint case {A} (op : Z) (table : list (Z * A)) : option A :=
  match table with
  | [] => None
  | (o, a) :: table => if op =? o then Some a else case op table
  end.

(** ** One-byte opcodes *)
Definition main_plain_1 : list (Z * unionOperation) :=
  [(OpcodeI32Eqz, newOperationEqz unsignedInt32);
   (OpcodeI32Eq, newOperationEq unsignedTypeI32);
   (OpcodeI32Ne, newOperationNe unsignedTypeI32);
   (OpcodeI32LtS, newOperationLt signedTypeInt32);
   (OpcodeI32LtU, newOperationLt signedTypeUint32);
   (OpcodeI32GtS, newOperationGt signedTypeInt32);
   (OpcodeI32GtU, newOperationGt signedTypeUint32);
   (OpcodeI32LeS, newOperationLe signedTypeInt32);
   (OpcodeI32LeU, newOperationLe signedTypeUint32);
   (OpcodeI32GeS, newOperationGe signedTypeInt32);
   (OpcodeI32GeU, newOperationGe signedTypeUint32);
   (OpcodeI64Eqz, newOperationEqz unsignedInt64);
   (OpcodeI64Eq, newOperationEq unsignedTypeI64);
   (OpcodeI64Ne, newOperationNe unsignedTypeI64);
   (OpcodeI64LtS, newOperationLt signedTypeInt64);
   (OpcodeI64LtU, newOperationLt signedTypeUint64);
   (OpcodeI64GtS, newOperationGt signedTypeInt64);
   (OpcodeI64GtU, newOperationGt signedTypeUint64);
   (OpcodeI64LeS, newOperationLe signedTypeInt64);
   (OpcodeI64LeU, newOperationLe signedTypeUint64);
   (OpcodeI64GeS, newOperationGe signedTypeInt64);
   (OpcodeI64GeU, newOperationGe signedTypeUint64);
   (OpcodeF32Eq, newOperationEq unsignedTypeF32);
   (OpcodeF32Ne, newOperationNe unsignedTypeF32);
   (OpcodeF32Lt, newOperationLt signedTypeFloat32);
   (OpcodeF32Gt, newOperationGt signedTypeFloat32);
   (OpcodeF32Le, newOperationLe signedTypeFloat32);
   (OpcodeF32Ge, newOperationGe signedTypeFloat32);
   (OpcodeF64Eq, newOperationEq unsignedTypeF64);
   (OpcodeF64Ne, newOperationNe unsignedTypeF64);
   (OpcodeF64Lt, newOperationLt signedTypeFloat64);
   (OpcodeF64Gt, newOperationGt signedTypeFloat64);
   (OpcodeF64Le, newOperationLe signedTypeFloat64);
   (OpcodeF64Ge, newOperationGe signedTypeFloat64);
   (OpcodeI32Clz, newOperationClz unsignedInt32);
   (OpcodeI32Ctz, newOperationCtz unsignedInt32);
   (OpcodeI32Popcnt, newOperationPopcnt unsignedInt32)].
Definition main_plain_2 : list (Z * unionOperation) :=
  [(OpcodeI32Add, newOperationAdd unsignedTypeI32);
   (OpcodeI32Sub, newOperationSub unsignedTypeI32);
   (OpcodeI32Mul, newOperationMul unsignedTypeI32);
   (OpcodeI32DivS, newOperationDiv signedTypeInt32);
   (OpcodeI32DivU, newOperationDiv signedTypeUint32);
   (OpcodeI32RemS, newOperationRem signedInt32);
   (OpcodeI32RemU, newOperationRem signedUint32);
   (OpcodeI32And, newOperationAnd unsignedInt32);
   (OpcodeI32Or, newOperationOr unsignedInt32);
   (OpcodeI32Xor, newOperationXor unsignedInt64);
   (OpcodeI32Shl, newOperationShl unsignedInt32);
   (OpcodeI32ShrS, newOperationShr signedInt32);
   (OpcodeI32ShrU, newOperationShr signedUint32);
   (OpcodeI32Rotl, newOperationRotl unsignedInt32);
   (OpcodeI32Rotr, newOperationRotr unsignedInt32);
   (OpcodeI64Clz, newOperationClz unsignedInt64);
   (OpcodeI64Ctz, newOperationCtz unsignedInt64);
   (OpcodeI64Popcnt, newOperationPopcnt unsignedInt64);
   (OpcodeI64Add, newOperationAdd unsignedTypeI64);
   (OpcodeI64Sub, newOperationSub unsignedTypeI64);
   (OpcodeI64Mul, newOperationMul unsignedTypeI64);
   (OpcodeI64DivS, newOperationDiv signedTypeInt64);
   (OpcodeI64DivU, newOperationDiv signedTypeUint64);
   (OpcodeI64RemS, newOperationRem signedInt64);
   (OpcodeI64RemU, newOperationRem signedUint64);
   (OpcodeI64And, newOperationAnd unsignedInt64);
   (OpcodeI64Or, newOperationOr unsignedInt64);
   (OpcodeI64Xor, newOperationXor unsignedInt64);
   (OpcodeI64Shl, newOperationShl unsignedInt64);
   (OpcodeI64ShrS, newOperationShr signedInt64);
   (OpcodeI64ShrU, newOperationShr signedUint64);
   (OpcodeI64Rotl, newOperationRotl unsignedInt64);
   (OpcodeI64Rotr, newOperationRotr unsignedInt64);
   (OpcodeF32Abs, newOperationAbs f32);
   (OpcodeF32Neg, newOperationNeg f32);
   (OpcodeF32Ceil, newOperationCeil f32);
   (OpcodeF32Floor, newOperationFloor f32)].
Definition main_plain_3 : list (Z * unionOperation) :=
  [(OpcodeF32Trunc, newOperationTrunc f32);
   (OpcodeF32Nearest, newOperationNearest f32);
   (OpcodeF32Sqrt, newOperationSqrt f32);
   (OpcodeF32Add, newOperationAdd unsignedTypeF32);
   (OpcodeF32Sub, newOperationSub unsignedTypeF32);
   (OpcodeF32Mul, newOperationMul unsignedTypeF32);
   (OpcodeF32Div, newOperationDiv signedTypeFloat32);
   (OpcodeF32Min, newOperationMin f32);
   (OpcodeF32Max, newOperationMax f32);
   (OpcodeF32Copysign, newOperationCopysign f32);
   (OpcodeF64Abs, newOperationAbs f64);
   (OpcodeF64Neg, newOperationNeg f64);
   (OpcodeF64Ceil, newOperationCeil f64);
   (OpcodeF64Floor, newOperationFloor f64);
   (OpcodeF64Trunc, newOperationTrunc f64);
   (OpcodeF64Nearest, newOperationNearest f64);
   (OpcodeF64Sqrt, newOperationSqrt f64);
   (OpcodeF64Add, newOperationAdd unsignedTypeF64);
   (OpcodeF64Sub, newOperationSub unsignedTypeF64);
   (OpcodeF64Mul, newOperationMul unsignedTypeF64);
   (OpcodeF64Div, newOperationDiv signedTypeFloat64);
   (OpcodeF64Min, newOperationMin f64);
   (OpcodeF64Max, newOperationMax f64);
   (OpcodeF64Copysign, newOperationCopysign f64);
   (OpcodeI32WrapI64, newOperationI32WrapFromI64);
   (OpcodeI32TruncF32S, newOperationITruncFromF f32 signedInt32 false);
   (OpcodeI32TruncF32U, newOperationITruncFromF f32 signedUint32 false);
   (OpcodeI32TruncF64S, newOperationITruncFromF f64 signedInt32 false);
   (OpcodeI32TruncF64U, newOperationITruncFromF f64 signedUint32 false);
   (OpcodeI64ExtendI32S, newOperationExtend true);
   (OpcodeI64ExtendI32U, newOperationExtend false);
   (OpcodeI64TruncF32S, newOperationITruncFromF f32 signedInt64 false);
   (OpcodeI64TruncF32U, newOperationITruncFromF f32 signedUint64 false);
   (OpcodeI64TruncF64S, newOperationITruncFromF f64 signedInt64 false);
   (OpcodeI64TruncF64U, newOperationITruncFromF f64 signedUint64 false);
   (OpcodeF32ConvertI32S, newOperationFConvertFromI signedInt32 f32);
   (OpcodeF32ConvertI32U, newOperationFConvertFromI signedUint32 f32)].
Definition main_plain_4 : list (Z * unionOperation) :=
  [(OpcodeF32ConvertI64S, newOperationFConvertFromI signedInt64 f32);
   (OpcodeF32ConvertI64U, newOperationFConvertFromI signedUint64 f32);
   (OpcodeF32DemoteF64, newOperationF32DemoteFromF64);
   (OpcodeF64ConvertI32S, newOperationFConvertFromI signedInt32 f64);
   (OpcodeF64ConvertI32U, newOperationFConvertFromI signedUint32 f64);
   (OpcodeF64ConvertI64S, newOperationFConvertFromI signedInt64 f64);
   (OpcodeF64ConvertI64U, newOperationFConvertFromI signedUint64 f64);
   (OpcodeF64PromoteF32, newOperationF64PromoteFromF32);
   (OpcodeI32ReinterpretF32, newOperationI32ReinterpretFromF32);
   (OpcodeI64ReinterpretF64, newOperationI64ReinterpretFromF64);
   (OpcodeF32ReinterpretI32, newOperationF32ReinterpretFromI32);
   (OpcodeF64ReinterpretI64, newOperationF64ReinterpretFromI64);
   (OpcodeI32Extend8S, newOperationSignExtend32From8);
   (OpcodeI32Extend16S, newOperationSignExtend32From16);
   (OpcodeI64Extend8S, newOperationSignExtend64From8);
   (OpcodeI64Extend16S, newOperationSignExtend64From16);
   (OpcodeI64Extend32S, newOperationSignExtend64From32);
   (OpcodeRefIsNull, newOperationEqz unsignedInt64)].
Definition main_plain : list (Z * (unionOperation)) :=
  main_plain_1 ++ main_plain_2 ++ main_plain_3 ++ main_plain_4.
Definition main_memory_1 : list (Z * (memoryArg -> unionOperation)) :=
  [(OpcodeI32Load, newOperationLoad unsignedTypeI32);
   (OpcodeI64Load, newOperationLoad unsignedTypeI64);
   (OpcodeF32Load, newOperationLoad unsignedTypeF32);
   (OpcodeF64Load, newOperationLoad unsignedTypeF64);
   (OpcodeI32Load8S, newOperationLoad8 signedInt32);
   (OpcodeI32Load8U, newOperationLoad8 signedUint32);
   (OpcodeI32Load16S, newOperationLoad16 signedInt32);
   (OpcodeI32Load16U, newOperationLoad16 signedUint32);
   (OpcodeI64Load8S, newOperationLoad8 signedInt64);
   (OpcodeI64Load8U, newOperationLoad8 signedUint64);
   (OpcodeI64Load16S, newOperationLoad16 signedInt64);
   (OpcodeI64Load16U, newOperationLoad16 signedUint64);
   (OpcodeI64Load32S, newOperationLoad32 true);
   (OpcodeI64Load32U, newOperationLoad32 false);
   (OpcodeI32Store, newOperationStore unsignedTypeI32);
   (OpcodeI64Store, newOperationStore unsignedTypeI64);
   (OpcodeF32Store, newOperationStore unsignedTypeF32);
   (OpcodeF64Store, newOperationStore unsignedTypeF64);
   (OpcodeI32Store8, newOperationStore8);
   (OpcodeI32Store16, newOperationStore16);
   (OpcodeI64Store8, newOperationStore8);
   (OpcodeI64Store16, newOperationStore16)].
Definition main_memory_2 : list (Z * (memoryArg -> unionOperation)) :=
  [(OpcodeI64Store32, newOperationStore32)].
Definition main_memory : list (Z * (memoryArg -> unionOperation)) :=
  main_memory_1 ++ main_memory_2.

(** ** After [OpcodeMiscPrefix] *)
Definition misc_plain : list (Z * unionOperation) :=
  [(OpcodeMiscI32TruncSatF32S, newOperationITruncFromF f32 signedInt32 true);
   (OpcodeMiscI32TruncSatF32U, newOperationITruncFromF f32 signedUint32 true);
   (OpcodeMiscI32TruncSatF64S, newOperationITruncFromF f64 signedInt32 true);
   (OpcodeMiscI32TruncSatF64U, newOperationITruncFromF f64 signedUint32 true);
   (OpcodeMiscI64TruncSatF32S, newOperationITruncFromF f32 signedInt64 true);
   (OpcodeMiscI64TruncSatF32U, newOperationITruncFromF f32 signedUint64 true);
   (OpcodeMiscI64TruncSatF64S, newOperationITruncFromF f64 signedInt64 true);
   (OpcodeMiscI64TruncSatF64U, newOperationITruncFromF f64 signedUint64 true)].

(** ** After [OpcodeVecPrefix] *)
Definition vec_memory_1 : list (Z * (memoryArg -> unionOperation)) :=
  [(OpcodeVecV128Load, newOperationV128Load v128LoadType128);
   (OpcodeVecV128Load8x8s, newOperationV128Load v128LoadType8x8s);
   (OpcodeVecV128Load8x8u, newOperationV128Load v128LoadType8x8u);
   (OpcodeVecV128Load16x4s, newOperationV128Load v128LoadType16x4s);
   (OpcodeVecV128Load16x4u, newOperationV128Load v128LoadType16x4u);
   (OpcodeVecV128Load32x2s, newOperationV128Load v128LoadType32x2s);
   (OpcodeVecV128Load32x2u, newOperationV128Load v128LoadType32x2u);
   (OpcodeVecV128Load8Splat, newOperationV128Load v128LoadType8Splat);
   (OpcodeVecV128Load16Splat, newOperationV128Load v128LoadType16Splat);
   (OpcodeVecV128Load32Splat, newOperationV128Load v128LoadType32Splat);
   (OpcodeVecV128Load64Splat, newOperationV128Load v128LoadType64Splat);
   (OpcodeVecV128Load32zero, newOperationV128Load v128LoadType32zero);
   (OpcodeVecV128Load64zero, newOperationV128Load v128LoadType64zero)].
Definition vec_memory_2 : list (Z * (memoryArg -> unionOperation)) :=
  [(OpcodeVecV128Store, newOperationV128Store)].
Definition vec_memory : list (Z * (memoryArg -> unionOperation)) :=
  vec_memory_1 ++ vec_memory_2.
Definition vec_memoryLane : list (Z * (Z -> memoryArg -> unionOperation)) :=
  [(OpcodeVecV128Load8Lane, (fun laneIndex arg => newOperationV128LoadLane laneIndex 8 arg));
   (OpcodeVecV128Load16Lane, (fun laneIndex arg => newOperationV128LoadLane laneIndex 16 arg));
   (OpcodeVecV128Load32Lane, (fun laneIndex arg => newOperationV128LoadLane laneIndex 32 arg));
   (OpcodeVecV128Load64Lane, (fun laneIndex arg => newOperationV128LoadLane laneIndex 64 arg));
   (OpcodeVecV128Store8Lane, (fun laneIndex arg => newOperationV128StoreLane laneIndex 8 arg));
   (OpcodeVecV128Store16Lane, (fun laneIndex arg => newOperationV128StoreLane laneIndex 16 arg));
   (OpcodeVecV128Store32Lane, (fun laneIndex arg => newOperationV128StoreLane laneIndex 32 arg));
   (OpcodeVecV128Store64Lane, (fun laneIndex arg => newOperationV128StoreLane laneIndex 64 arg))].
Definition vec_lane : list (Z * (Z -> unionOperation)) :=
  [(OpcodeVecI8x16ExtractLaneS, (fun laneIndex => newOperationV128ExtractLane laneIndex true shapeI8x16));
   (OpcodeVecI8x16ExtractLaneU, (fun laneIndex => newOperationV128ExtractLane laneIndex false shapeI8x16));
   (OpcodeVecI16x8ExtractLaneS, (fun laneIndex => newOperationV128ExtractLane laneIndex true shapeI16x8));
   (OpcodeVecI16x8ExtractLaneU, (fun laneIndex => newOperationV128ExtractLane laneIndex false shapeI16x8));
   (OpcodeVecI32x4ExtractLane, (fun laneIndex => newOperationV128ExtractLane laneIndex false shapeI32x4));
   (OpcodeVecI64x2ExtractLane, (fun laneIndex => newOperationV128ExtractLane laneIndex false shapeI64x2));
   (OpcodeVecF32x4ExtractLane, (fun laneIndex => newOperationV128ExtractLane laneIndex false shapeF32x4));
   (OpcodeVecF64x2ExtractLane, (fun laneIndex => newOperationV128ExtractLane laneIndex false shapeF64x2));
   (OpcodeVecI8x16ReplaceLane, (fun laneIndex => newOperationV128ReplaceLane laneIndex shapeI8x16));
   (OpcodeVecI16x8ReplaceLane, (fun laneIndex => newOperationV128ReplaceLane laneIndex shapeI16x8));
   (OpcodeVecI32x4ReplaceLane, (fun laneIndex => newOperationV128ReplaceLane laneIndex shapeI32x4));
   (OpcodeVecI64x2ReplaceLane, (fun laneIndex => newOperationV128ReplaceLane laneIndex shapeI64x2));
   (OpcodeVecF32x4ReplaceLane, (fun laneIndex => newOperationV128ReplaceLane laneIndex shapeF32x4));
   (OpcodeVecF64x2ReplaceLane, (fun laneIndex => newOperationV128ReplaceLane laneIndex shapeF64x2))].
Definition vec_plain_1 : list (Z * unionOperation) :=
  [(OpcodeVecI8x16Splat, newOperationV128Splat shapeI8x16);
   (OpcodeVecI16x8Splat, newOperationV128Splat shapeI16x8);
   (OpcodeVecI32x4Splat, newOperationV128Splat shapeI32x4);
   (OpcodeVecI64x2Splat, newOperationV128Splat shapeI64x2);
   (OpcodeVecF32x4Splat, newOperationV128Splat shapeF32x4);
   (OpcodeVecF64x2Splat, newOperationV128Splat shapeF64x2);
   (OpcodeVecI8x16Swizzle, newOperationV128Swizzle)].
Definition vec_plain_2 : list (Z * unionOperation) :=
  [(OpcodeVecV128AnyTrue, newOperationV128AnyTrue);
   (OpcodeVecI8x16AllTrue, newOperationV128AllTrue shapeI8x16);
   (OpcodeVecI16x8AllTrue, newOperationV128AllTrue shapeI16x8);
   (OpcodeVecI32x4AllTrue, newOperationV128AllTrue shapeI32x4);
   (OpcodeVecI64x2AllTrue, newOperationV128AllTrue shapeI64x2);
   (OpcodeVecI8x16BitMask, newOperationV128BitMask shapeI8x16);
   (OpcodeVecI16x8BitMask, newOperationV128BitMask shapeI16x8);
   (OpcodeVecI32x4BitMask, newOperationV128BitMask shapeI32x4);
   (OpcodeVecI64x2BitMask, newOperationV128BitMask shapeI64x2);
   (OpcodeVecV128And, newOperationV128And);
   (OpcodeVecV128Not, newOperationV128Not);
   (OpcodeVecV128Or, newOperationV128Or);
   (OpcodeVecV128Xor, newOperationV128Xor);
   (OpcodeVecV128Bitselect, newOperationV128Bitselect);
   (OpcodeVecV128AndNot, newOperationV128AndNot);
   (OpcodeVecI8x16Shl, newOperationV128Shl shapeI8x16);
   (OpcodeVecI8x16ShrS, newOperationV128Shr shapeI8x16 true);
   (OpcodeVecI8x16ShrU, newOperationV128Shr shapeI8x16 false);
   (OpcodeVecI16x8Shl, newOperationV128Shl shapeI16x8);
   (OpcodeVecI16x8ShrS, newOperationV128Shr shapeI16x8 true);
   (OpcodeVecI16x8ShrU, newOperationV128Shr shapeI16x8 false);
   (OpcodeVecI32x4Shl, newOperationV128Shl shapeI32x4);
   (OpcodeVecI32x4ShrS, newOperationV128Shr shapeI32x4 true);
   (OpcodeVecI32x4ShrU, newOperationV128Shr shapeI32x4 false);
   (OpcodeVecI64x2Shl, newOperationV128Shl shapeI64x2);
   (OpcodeVecI64x2ShrS, newOperationV128Shr shapeI64x2 true);
   (OpcodeVecI64x2ShrU, newOperationV128Shr shapeI64x2 false);
   (OpcodeVecI8x16Eq, newOperationV128Cmp v128CmpTypeI8x16Eq);
   (OpcodeVecI8x16Ne, newOperationV128Cmp v128CmpTypeI8x16Ne);
   (OpcodeVecI8x16LtS, newOperationV128Cmp v128CmpTypeI8x16LtS);
   (OpcodeVecI8x16LtU, newOperationV128Cmp v128CmpTypeI8x16LtU);
   (OpcodeVecI8x16GtS, newOperationV128Cmp v128CmpTypeI8x16GtS);
   (OpcodeVecI8x16GtU, newOperationV128Cmp v128CmpTypeI8x16GtU);
   (OpcodeVecI8x16LeS, newOperationV128Cmp v128CmpTypeI8x16LeS);
   (OpcodeVecI8x16LeU, newOperationV128Cmp v128CmpTypeI8x16LeU);
   (OpcodeVecI8x16GeS, newOperationV128Cmp v128CmpTypeI8x16GeS);
   (OpcodeVecI8x16GeU, newOperationV128Cmp v128CmpTypeI8x16GeU)].
Definition vec_plain_3 : list (Z * unionOperation) :=
  [(OpcodeVecI16x8Eq, newOperationV128Cmp v128CmpTypeI16x8Eq);
   (OpcodeVecI16x8Ne, newOperationV128Cmp v128CmpTypeI16x8Ne);
   (OpcodeVecI16x8LtS, newOperationV128Cmp v128CmpTypeI16x8LtS);
   (OpcodeVecI16x8LtU, newOperationV128Cmp v128CmpTypeI16x8LtU);
   (OpcodeVecI16x8GtS, newOperationV128Cmp v128CmpTypeI16x8GtS);
   (OpcodeVecI16x8GtU, newOperationV128Cmp v128CmpTypeI16x8GtU);
   (OpcodeVecI16x8LeS, newOperationV128Cmp v128CmpTypeI16x8LeS);
   (OpcodeVecI16x8LeU, newOperationV128Cmp v128CmpTypeI16x8LeU);
   (OpcodeVecI16x8GeS, newOperationV128Cmp v128CmpTypeI16x8GeS);
   (OpcodeVecI16x8GeU, newOperationV128Cmp v128CmpTypeI16x8GeU);
   (OpcodeVecI32x4Eq, newOperationV128Cmp v128CmpTypeI32x4Eq);
   (OpcodeVecI32x4Ne, newOperationV128Cmp v128CmpTypeI32x4Ne);
   (OpcodeVecI32x4LtS, newOperationV128Cmp v128CmpTypeI32x4LtS);
   (OpcodeVecI32x4LtU, newOperationV128Cmp v128CmpTypeI32x4LtU);
   (OpcodeVecI32x4GtS, newOperationV128Cmp v128CmpTypeI32x4GtS);
   (OpcodeVecI32x4GtU, newOperationV128Cmp v128CmpTypeI32x4GtU);
   (OpcodeVecI32x4LeS, newOperationV128Cmp v128CmpTypeI32x4LeS);
   (OpcodeVecI32x4LeU, newOperationV128Cmp v128CmpTypeI32x4LeU);
   (OpcodeVecI32x4GeS, newOperationV128Cmp v128CmpTypeI32x4GeS);
   (OpcodeVecI32x4GeU, newOperationV128Cmp v128CmpTypeI32x4GeU);
   (OpcodeVecI64x2Eq, newOperationV128Cmp v128CmpTypeI64x2Eq);
   (OpcodeVecI64x2Ne, newOperationV128Cmp v128CmpTypeI64x2Ne);
   (OpcodeVecI64x2LtS, newOperationV128Cmp v128CmpTypeI64x2LtS);
   (OpcodeVecI64x2GtS, newOperationV128Cmp v128CmpTypeI64x2GtS);
   (OpcodeVecI64x2LeS, newOperationV128Cmp v128CmpTypeI64x2LeS);
   (OpcodeVecI64x2GeS, newOperationV128Cmp v128CmpTypeI64x2GeS);
   (OpcodeVecF32x4Eq, newOperationV128Cmp v128CmpTypeF32x4Eq);
   (OpcodeVecF32x4Ne, newOperationV128Cmp v128CmpTypeF32x4Ne);
   (OpcodeVecF32x4Lt, newOperationV128Cmp v128CmpTypeF32x4Lt);
   (OpcodeVecF32x4Gt, newOperationV128Cmp v128CmpTypeF32x4Gt);
   (OpcodeVecF32x4Le, newOperationV128Cmp v128CmpTypeF32x4Le);
   (OpcodeVecF32x4Ge, newOperationV128Cmp v128CmpTypeF32x4Ge);
   (OpcodeVecF64x2Eq, newOperationV128Cmp v128CmpTypeF64x2Eq);
   (OpcodeVecF64x2Ne, newOperationV128Cmp v128CmpTypeF64x2Ne);
   (OpcodeVecF64x2Lt, newOperationV128Cmp v128CmpTypeF64x2Lt);
   (OpcodeVecF64x2Gt, newOperationV128Cmp v128CmpTypeF64x2Gt);
   (OpcodeVecF64x2Le, newOperationV128Cmp v128CmpTypeF64x2Le)].
Definition vec_plain_4 : list (Z * unionOperation) :=
  [(OpcodeVecF64x2Ge, newOperationV128Cmp v128CmpTypeF64x2Ge);
   (OpcodeVecI8x16Neg, newOperationV128Neg shapeI8x16);
   (OpcodeVecI16x8Neg, newOperationV128Neg shapeI16x8);
   (OpcodeVecI32x4Neg, newOperationV128Neg shapeI32x4);
   (OpcodeVecI64x2Neg, newOperationV128Neg shapeI64x2);
   (OpcodeVecF32x4Neg, newOperationV128Neg shapeF32x4);
   (OpcodeVecF64x2Neg, newOperationV128Neg shapeF64x2);
   (OpcodeVecI8x16Add, newOperationV128Add shapeI8x16);
   (OpcodeVecI16x8Add, newOperationV128Add shapeI16x8);
   (OpcodeVecI32x4Add, newOperationV128Add shapeI32x4);
   (OpcodeVecI64x2Add, newOperationV128Add shapeI64x2);
   (OpcodeVecF32x4Add, newOperationV128Add shapeF32x4);
   (OpcodeVecF64x2Add, newOperationV128Add shapeF64x2);
   (OpcodeVecI8x16Sub, newOperationV128Sub shapeI8x16);
   (OpcodeVecI16x8Sub, newOperationV128Sub shapeI16x8);
   (OpcodeVecI32x4Sub, newOperationV128Sub shapeI32x4);
   (OpcodeVecI64x2Sub, newOperationV128Sub shapeI64x2);
   (OpcodeVecF32x4Sub, newOperationV128Sub shapeF32x4);
   (OpcodeVecF64x2Sub, newOperationV128Sub shapeF64x2);
   (OpcodeVecI8x16AddSatS, newOperationV128AddSat shapeI8x16 true);
   (OpcodeVecI8x16AddSatU, newOperationV128AddSat shapeI8x16 false);
   (OpcodeVecI16x8AddSatS, newOperationV128AddSat shapeI16x8 true);
   (OpcodeVecI16x8AddSatU, newOperationV128AddSat shapeI16x8 false);
   (OpcodeVecI8x16SubSatS, newOperationV128SubSat shapeI8x16 true);
   (OpcodeVecI8x16SubSatU, newOperationV128SubSat shapeI8x16 false);
   (OpcodeVecI16x8SubSatS, newOperationV128SubSat shapeI16x8 true);
   (OpcodeVecI16x8SubSatU, newOperationV128SubSat shapeI16x8 false);
   (OpcodeVecI16x8Mul, newOperationV128Mul shapeI16x8);
   (OpcodeVecI32x4Mul, newOperationV128Mul shapeI32x4);
   (OpcodeVecI64x2Mul, newOperationV128Mul shapeI64x2);
   (OpcodeVecF32x4Mul, newOperationV128Mul shapeF32x4);
   (OpcodeVecF64x2Mul, newOperationV128Mul shapeF64x2);
   (OpcodeVecF32x4Sqrt, newOperationV128Sqrt shapeF32x4);
   (OpcodeVecF64x2Sqrt, newOperationV128Sqrt shapeF64x2);
   (OpcodeVecF32x4Div, newOperationV128Div shapeF32x4);
   (OpcodeVecF64x2Div, newOperationV128Div shapeF64x2);
   (OpcodeVecI8x16Abs, newOperationV128Abs shapeI8x16)].
Definition vec_plain_5 : list (Z * unionOperation) :=
  [(OpcodeVecI8x16Popcnt, newOperationV128Popcnt shapeI8x16);
   (OpcodeVecI16x8Abs, newOperationV128Abs shapeI16x8);
   (OpcodeVecI32x4Abs, newOperationV128Abs shapeI32x4);
   (OpcodeVecI64x2Abs, newOperationV128Abs shapeI64x2);
   (OpcodeVecF32x4Abs, newOperationV128Abs shapeF32x4);
   (OpcodeVecF64x2Abs, newOperationV128Abs shapeF64x2);
   (OpcodeVecI8x16MinS, newOperationV128Min shapeI8x16 true);
   (OpcodeVecI8x16MinU, newOperationV128Min shapeI8x16 false);
   (OpcodeVecI8x16MaxS, newOperationV128Max shapeI8x16 true);
   (OpcodeVecI8x16MaxU, newOperationV128Max shapeI8x16 false);
   (OpcodeVecI8x16AvgrU, newOperationV128AvgrU shapeI8x16);
   (OpcodeVecI16x8MinS, newOperationV128Min shapeI16x8 true);
   (OpcodeVecI16x8MinU, newOperationV128Min shapeI16x8 false);
   (OpcodeVecI16x8MaxS, newOperationV128Max shapeI16x8 true);
   (OpcodeVecI16x8MaxU, newOperationV128Max shapeI16x8 false);
   (OpcodeVecI16x8AvgrU, newOperationV128AvgrU shapeI16x8);
   (OpcodeVecI32x4MinS, newOperationV128Min shapeI32x4 true);
   (OpcodeVecI32x4MinU, newOperationV128Min shapeI32x4 false);
   (OpcodeVecI32x4MaxS, newOperationV128Max shapeI32x4 true);
   (OpcodeVecI32x4MaxU, newOperationV128Max shapeI32x4 false);
   (OpcodeVecF32x4Min, newOperationV128Min shapeF32x4 false);
   (OpcodeVecF32x4Max, newOperationV128Max shapeF32x4 false);
   (OpcodeVecF64x2Min, newOperationV128Min shapeF64x2 false);
   (OpcodeVecF64x2Max, newOperationV128Max shapeF64x2 false);
   (OpcodeVecF32x4Pmin, newOperationV128Pmin shapeF32x4);
   (OpcodeVecF32x4Pmax, newOperationV128Pmax shapeF32x4);
   (OpcodeVecF64x2Pmin, newOperationV128Pmin shapeF64x2);
   (OpcodeVecF64x2Pmax, newOperationV128Pmax shapeF64x2);
   (OpcodeVecF32x4Ceil, newOperationV128Ceil shapeF32x4);
   (OpcodeVecF32x4Floor, newOperationV128Floor shapeF32x4);
   (OpcodeVecF32x4Trunc, newOperationV128Trunc shapeF32x4);
   (OpcodeVecF32x4Nearest, newOperationV128Nearest shapeF32x4);
   (OpcodeVecF64x2Ceil, newOperationV128Ceil shapeF64x2);
   (OpcodeVecF64x2Floor, newOperationV128Floor shapeF64x2);
   (OpcodeVecF64x2Trunc, newOperationV128Trunc shapeF64x2);
   (OpcodeVecF64x2Nearest, newOperationV128Nearest shapeF64x2);
   (OpcodeVecI16x8ExtendLowI8x16S, newOperationV128Extend shapeI8x16 true true)].
Definition vec_plain_6 : list (Z * unionOperation) :=
  [(OpcodeVecI16x8ExtendHighI8x16S, newOperationV128Extend shapeI8x16 true false);
   (OpcodeVecI16x8ExtendLowI8x16U, newOperationV128Extend shapeI8x16 false true);
   (OpcodeVecI16x8ExtendHighI8x16U, newOperationV128Extend shapeI8x16 false false);
   (OpcodeVecI32x4ExtendLowI16x8S, newOperationV128Extend shapeI16x8 true true);
   (OpcodeVecI32x4ExtendHighI16x8S, newOperationV128Extend shapeI16x8 true false);
   (OpcodeVecI32x4ExtendLowI16x8U, newOperationV128Extend shapeI16x8 false true);
   (OpcodeVecI32x4ExtendHighI16x8U, newOperationV128Extend shapeI16x8 false false);
   (OpcodeVecI64x2ExtendLowI32x4S, newOperationV128Extend shapeI32x4 true true);
   (OpcodeVecI64x2ExtendHighI32x4S, newOperationV128Extend shapeI32x4 true false);
   (OpcodeVecI64x2ExtendLowI32x4U, newOperationV128Extend shapeI32x4 false true);
   (OpcodeVecI64x2ExtendHighI32x4U, newOperationV128Extend shapeI32x4 false false);
   (OpcodeVecI16x8Q15mulrSatS, newOperationV128Q15mulrSatS);
   (OpcodeVecI16x8ExtMulLowI8x16S, newOperationV128ExtMul shapeI8x16 true true);
   (OpcodeVecI16x8ExtMulHighI8x16S, newOperationV128ExtMul shapeI8x16 true false);
   (OpcodeVecI16x8ExtMulLowI8x16U, newOperationV128ExtMul shapeI8x16 false true);
   (OpcodeVecI16x8ExtMulHighI8x16U, newOperationV128ExtMul shapeI8x16 false false);
   (OpcodeVecI32x4ExtMulLowI16x8S, newOperationV128ExtMul shapeI16x8 true true);
   (OpcodeVecI32x4ExtMulHighI16x8S, newOperationV128ExtMul shapeI16x8 true false);
   (OpcodeVecI32x4ExtMulLowI16x8U, newOperationV128ExtMul shapeI16x8 false true);
   (OpcodeVecI32x4ExtMulHighI16x8U, newOperationV128ExtMul shapeI16x8 false false);
   (OpcodeVecI64x2ExtMulLowI32x4S, newOperationV128ExtMul shapeI32x4 true true);
   (OpcodeVecI64x2ExtMulHighI32x4S, newOperationV128ExtMul shapeI32x4 true false);
   (OpcodeVecI64x2ExtMulLowI32x4U, newOperationV128ExtMul shapeI32x4 false true);
   (OpcodeVecI64x2ExtMulHighI32x4U, newOperationV128ExtMul shapeI32x4 false false);
   (OpcodeVecI16x8ExtaddPairwiseI8x16S, newOperationV128ExtAddPairwise shapeI8x16 true);
   (OpcodeVecI16x8ExtaddPairwiseI8x16U, newOperationV128ExtAddPairwise shapeI8x16 false);
   (OpcodeVecI32x4ExtaddPairwiseI16x8S, newOperationV128ExtAddPairwise shapeI16x8 true);
   (OpcodeVecI32x4ExtaddPairwiseI16x8U, newOperationV128ExtAddPairwise shapeI16x8 false);
   (OpcodeVecF64x2PromoteLowF32x4Zero, newOperationV128FloatPromote);
   (OpcodeVecF32x4DemoteF64x2Zero, newOperationV128FloatDemote);
   (OpcodeVecF32x4ConvertI32x4S, newOperationV128FConvertFromI shapeF32x4 true);
   (OpcodeVecF32x4ConvertI32x4U, newOperationV128FConvertFromI shapeF32x4 false);
   (OpcodeVecF64x2ConvertLowI32x4S, newOperationV128FConvertFromI shapeF64x2 true);
   (OpcodeVecF64x2ConvertLowI32x4U, newOperationV128FConvertFromI shapeF64x2 false);
   (OpcodeVecI32x4DotI16x8S, newOperationV128Dot);
   (OpcodeVecI8x16NarrowI16x8S, newOperationV128Narrow shapeI16x8 true);
   (OpcodeVecI8x16NarrowI16x8U, newOperationV128Narrow shapeI16x8 false)].
Definition vec_plain_7 : list (Z * unionOperation) :=
  [(OpcodeVecI16x8NarrowI32x4S, newOperationV128Narrow shapeI32x4 true);
   (OpcodeVecI16x8NarrowI32x4U, newOperationV128Narrow shapeI32x4 false);
   (OpcodeVecI32x4TruncSatF32x4S, newOperationV128ITruncSatFromF shapeF32x4 true);
   (OpcodeVecI32x4TruncSatF32x4U, newOperationV128ITruncSatFromF shapeF32x4 false);
   (OpcodeVecI32x4TruncSatF64x2SZero, newOperationV128ITruncSatFromF shapeF64x2 true);
   (OpcodeVecI32x4TruncSatF64x2UZero, newOperationV128ITruncSatFromF shapeF64x2 false)].
Definition vec_plain : list (Z * (unionOperation)) :=
  vec_plain_1 ++ vec_plain_2 ++ vec_plain_3 ++ vec_plain_4 ++ vec_plain_5 ++ vec_plain_6 ++ vec_plain_7.

(** ** After [OpcodeAtomicPrefix] *)
Definition atomic_memory_1 : list (Z * (memoryArg -> unionOperation)) :=
  [(OpcodeAtomicMemoryWait32, newOperationAtomicMemoryWait unsignedTypeI32);
   (OpcodeAtomicMemoryWait64, newOperationAtomicMemoryWait unsignedTypeI64);
   (OpcodeAtomicMemoryNotify, newOperationAtomicMemoryNotify)].
Definition atomic_memory_2 : list (Z * (memoryArg -> unionOperation)) :=
  [(OpcodeAtomicI32Load, newOperationAtomicLoad unsignedTypeI32);
   (OpcodeAtomicI64Load, newOperationAtomicLoad unsignedTypeI64);
   (OpcodeAtomicI32Load8U, newOperationAtomicLoad8 unsignedTypeI32);
   (OpcodeAtomicI32Load16U, newOperationAtomicLoad16 unsignedTypeI32);
   (OpcodeAtomicI64Load8U, newOperationAtomicLoad8 unsignedTypeI64);
   (OpcodeAtomicI64Load16U, newOperationAtomicLoad16 unsignedTypeI64);
   (OpcodeAtomicI64Load32U, newOperationAtomicLoad unsignedTypeI32);
   (OpcodeAtomicI32Store, newOperationAtomicStore unsignedTypeI32);
   (OpcodeAtomicI32Store8, newOperationAtomicStore8 unsignedTypeI32);
   (OpcodeAtomicI32Store16, newOperationAtomicStore16 unsignedTypeI32);
   (OpcodeAtomicI64Store, newOperationAtomicStore unsignedTypeI64);
   (OpcodeAtomicI64Store8, newOperationAtomicStore8 unsignedTypeI64);
   (OpcodeAtomicI64Store16, newOperationAtomicStore16 unsignedTypeI64);
   (OpcodeAtomicI64Store32, newOperationAtomicStore unsignedTypeI32);
   (OpcodeAtomicI32RmwAdd, (fun arg => newOperationAtomicRMW unsignedTypeI32 arg atomicArithmeticOpAdd));
   (OpcodeAtomicI64RmwAdd, (fun arg => newOperationAtomicRMW unsignedTypeI64 arg atomicArithmeticOpAdd));
   (OpcodeAtomicI32Rmw8AddU, (fun arg => newOperationAtomicRMW8 unsignedTypeI32 arg atomicArithmeticOpAdd));
   (OpcodeAtomicI64Rmw8AddU, (fun arg => newOperationAtomicRMW8 unsignedTypeI64 arg atomicArithmeticOpAdd))].
Definition atomic_memory_3 : list (Z * (memoryArg -> unionOperation)) :=
  [(OpcodeAtomicI32Rmw16AddU, (fun arg => newOperationAtomicRMW16 unsignedTypeI32 arg atomicArithmeticOpAdd));
   (OpcodeAtomicI64Rmw16AddU, (fun arg => newOperationAtomicRMW16 unsignedTypeI64 arg atomicArithmeticOpAdd));
   (OpcodeAtomicI64Rmw32AddU, (fun arg => newOperationAtomicRMW unsignedTypeI32 arg atomicArithmeticOpAdd));
   (OpcodeAtomicI32RmwSub, (fun arg => newOperationAtomicRMW unsignedTypeI32 arg atomicArithmeticOpSub));
   (OpcodeAtomicI64RmwSub, (fun arg => newOperationAtomicRMW unsignedTypeI64 arg atomicArithmeticOpSub));
   (OpcodeAtomicI32Rmw8SubU, (fun arg => newOperationAtomicRMW8 unsignedTypeI32 arg atomicArithmeticOpSub));
   (OpcodeAtomicI64Rmw8SubU, (fun arg => newOperationAtomicRMW8 unsignedTypeI64 arg atomicArithmeticOpSub));
   (OpcodeAtomicI32Rmw16SubU, (fun arg => newOperationAtomicRMW16 unsignedTypeI32 arg atomicArithmeticOpSub));
   (OpcodeAtomicI64Rmw16SubU, (fun arg => newOperationAtomicRMW16 unsignedTypeI64 arg atomicArithmeticOpSub));
   (OpcodeAtomicI64Rmw32SubU, (fun arg => newOperationAtomicRMW unsignedTypeI32 arg atomicArithmeticOpSub));
   (OpcodeAtomicI32RmwAnd, (fun arg => newOperationAtomicRMW unsignedTypeI32 arg atomicArithmeticOpAnd));
   (OpcodeAtomicI64RmwAnd, (fun arg => newOperationAtomicRMW unsignedTypeI64 arg atomicArithmeticOpAnd));
   (OpcodeAtomicI32Rmw8AndU, (fun arg => newOperationAtomicRMW8 unsignedTypeI32 arg atomicArithmeticOpAnd));
   (OpcodeAtomicI64Rmw8AndU, (fun arg => newOperationAtomicRMW8 unsignedTypeI64 arg atomicArithmeticOpAnd));
   (OpcodeAtomicI32Rmw16AndU, (fun arg => newOperationAtomicRMW16 unsignedTypeI32 arg atomicArithmeticOpAnd));
   (OpcodeAtomicI64Rmw16AndU, (fun arg => newOperationAtomicRMW16 unsignedTypeI64 arg atomicArithmeticOpAnd));
   (OpcodeAtomicI64Rmw32AndU, (fun arg => newOperationAtomicRMW unsignedTypeI32 arg atomicArithmeticOpAnd));
   (OpcodeAtomicI32RmwOr, (fun arg => newOperationAtomicRMW unsignedTypeI32 arg atomicArithmeticOpOr))].
Definition atomic_memory_4 : list (Z * (memoryArg -> unionOperation)) :=
  [(OpcodeAtomicI64RmwOr, (fun arg => newOperationAtomicRMW unsignedTypeI64 arg atomicArithmeticOpOr));
   (OpcodeAtomicI32Rmw8OrU, (fun arg => newOperationAtomicRMW8 unsignedTypeI32 arg atomicArithmeticOpOr));
   (OpcodeAtomicI64Rmw8OrU, (fun arg => newOperationAtomicRMW8 unsignedTypeI64 arg atomicArithmeticOpOr));
   (OpcodeAtomicI32Rmw16OrU, (fun arg => newOperationAtomicRMW16 unsignedTypeI32 arg atomicArithmeticOpOr));
   (OpcodeAtomicI64Rmw16OrU, (fun arg => newOperationAtomicRMW16 unsignedTypeI64 arg atomicArithmeticOpOr));
   (OpcodeAtomicI64Rmw32OrU, (fun arg => newOperationAtomicRMW unsignedTypeI32 arg atomicArithmeticOpOr));
   (OpcodeAtomicI32RmwXor, (fun arg => newOperationAtomicRMW unsignedTypeI32 arg atomicArithmeticOpXor));
   (OpcodeAtomicI64RmwXor, (fun arg => newOperationAtomicRMW unsignedTypeI64 arg atomicArithmeticOpXor));
   (OpcodeAtomicI32Rmw8XorU, (fun arg => newOperationAtomicRMW8 unsignedTypeI32 arg atomicArithmeticOpXor));
   (OpcodeAtomicI64Rmw8XorU, (fun arg => newOperationAtomicRMW8 unsignedTypeI64 arg atomicArithmeticOpXor));
   (OpcodeAtomicI32Rmw16XorU, (fun arg => newOperationAtomicRMW16 unsignedTypeI32 arg atomicArithmeticOpXor));
   (OpcodeAtomicI64Rmw16XorU, (fun arg => newOperationAtomicRMW16 unsignedTypeI64 arg atomicArithmeticOpXor));
   (OpcodeAtomicI64Rmw32XorU, (fun arg => newOperationAtomicRMW unsignedTypeI32 arg atomicArithmeticOpXor));
   (OpcodeAtomicI32RmwXchg, (fun arg => newOperationAtomicRMW unsignedTypeI32 arg atomicArithmeticOpNop));
   (OpcodeAtomicI64RmwXchg, (fun arg => newOperationAtomicRMW unsignedTypeI64 arg atomicArithmeticOpNop));
   (OpcodeAtomicI32Rmw8XchgU, (fun arg => newOperationAtomicRMW8 unsignedTypeI32 arg atomicArithmeticOpNop));
   (OpcodeAtomicI64Rmw8XchgU, (fun arg => newOperationAtomicRMW8 unsignedTypeI64 arg atomicArithmeticOpNop));
   (OpcodeAtomicI32Rmw16XchgU, (fun arg => newOperationAtomicRMW16 unsignedTypeI32 arg atomicArithmeticOpNop))].
Definition atomic_memory_5 : list (Z * (memoryArg -> unionOperation)) :=
  [(OpcodeAtomicI64Rmw16XchgU, (fun arg => newOperationAtomicRMW16 unsignedTypeI64 arg atomicArithmeticOpNop));
   (OpcodeAtomicI64Rmw32XchgU, (fun arg => newOperationAtomicRMW unsignedTypeI32 arg atomicArithmeticOpNop));
   (OpcodeAtomicI32RmwCmpxchg, newOperationAtomicRMWCmpxchg unsignedTypeI32);
   (OpcodeAtomicI64RmwCmpxchg, newOperationAtomicRMWCmpxchg unsignedTypeI64);
   (OpcodeAtomicI32Rmw8CmpxchgU, newOperationAtomicRMW8Cmpxchg unsignedTypeI32);
   (OpcodeAtomicI64Rmw8CmpxchgU, newOperationAtomicRMW8Cmpxchg unsignedTypeI64);
   (OpcodeAtomicI32Rmw16CmpxchgU, newOperationAtomicRMW16Cmpxchg unsignedTypeI32);
   (OpcodeAtomicI64Rmw16CmpxchgU, newOperationAtomicRMW16Cmpxchg unsignedTypeI64);
   (OpcodeAtomicI64Rmw32CmpxchgU, newOperationAtomicRMWCmpxchg unsignedTypeI32)].
Definition atomic_memory : list (Z * (memoryArg -> unionOperation)) :=
  atomic_memory_1 ++ atomic_memory_2 ++ atomic_memory_3 ++ atomic_memory_4 ++ atomic_memory_5.

End LowerTables.
