(* ===== verification/Lower.v ===== *)
(** * Lowering of function bodies: [internal/engine/interpreter/compiler.go]

    [compile] walks a function body and emits the operations the interpreter
    runs.  It keeps the types of the values on the stack, a stack of control
    frames and whether the code it is at can be reached; code that cannot is
    skipped.  Both stacks are lists with the top first, so Go's
    [frames[len(frames)-n-1]] is [frames !! n].  What the source reads without a
    check (a stack that is never empty, a frame that exists) is [Panic] here.

    The cache of call signatures is the function it caches; the per-module
    fields of the result that nothing in the lowering reads are left out, as are
    the listeners and the functions of host modules ([GoFunc]), which decoded
    modules do not have. *)
From S2P Require Import Prelude Leb128 Opcodes WasmBinary FuncValidation WasmModule Operations Signature LowerTables.

Module Lower.
Import WasmBinary.
Export Operations Signature LowerTables.

Inductive low_err : Type :=
| Unsupported (what : string) (op : Z)
| SignatureMismatch (want actual : Z)
| UnknownResult
| InvalidIndex (what : string) (index : Z)
| Immediate (what : string) (e : Leb128.leb_err)
| BlockType (what : string) (e : FuncValidation.val_err)
| Panic (what : string)
| NoFuel.

(** ** Control frames *)
Inductive controlFrameKind : Type :=
| controlFrameKindBlockWithContinuationLabel
| controlFrameKindBlockWithoutContinuationLabel
| controlFrameKindFunction
| controlFrameKindLoop
| controlFrameKindIfWithElse
| controlFrameKindIfWithoutElse.

Record controlFrame : Type := mkFrame {
  frameID : Z; originalStackLenWithoutParam : Z; originalStackLenWithoutParamUint64 : Z;
  blockType : FunctionType; kind : controlFrameKind }.

Definition set_kind (f : controlFrame) (k : controlFrameKind) : controlFrame :=
  mkFrame (frameID f) (originalStackLenWithoutParam f) (originalStackLenWithoutParamUint64 f)
    (blockType f) k.

Definition ensureContinuation (f : controlFrame) : controlFrame :=
  match kind f with
  | controlFrameKindBlockWithoutContinuationLabel =>
      set_kind f controlFrameKindBlockWithContinuationLabel
  | _ => f
  end.

Definition asLabel (f : controlFrame) : Z :=
  match kind f with
  | controlFrameKindBlockWithContinuationLabel | controlFrameKindBlockWithoutContinuationLabel =>
      newLabel labelKindContinuation (frameID f)
  | controlFrameKindLoop => newLabel labelKindHeader (frameID f)
  | controlFrameKindFunction => newLabel labelKindReturn 0
  | controlFrameKindIfWithElse | controlFrameKindIfWithoutElse =>
      newLabel labelKindContinuation (frameID f)
  end.

(** ** The state of a lowering *)
Record compiler : Type := mkC {
  stack : list Z; stackLenInUint64 : Z; currentFrameID : Z; controlFrames : list controlFrame;
  unreachable_on : bool; unreachable_depth : Z; pc : Z; currentOpPC : Z;
  ops : list unionOperation; sourceOffsets : list Z; LabelCallers : gmap Z Z; UsesMemory : bool }.

Definition set_stack (c : compiler) (st : list Z) (n : Z) : compiler :=
  mkC st n (currentFrameID c) (controlFrames c) (unreachable_on c) (unreachable_depth c) (pc c)
    (currentOpPC c) (ops c) (sourceOffsets c) (LabelCallers c) (UsesMemory c).
Definition set_frameID (c : compiler) (id : Z) : compiler :=
  mkC (stack c) (stackLenInUint64 c) id (controlFrames c) (unreachable_on c) (unreachable_depth c)
    (pc c) (currentOpPC c) (ops c) (sourceOffsets c) (LabelCallers c) (UsesMemory c).
Definition set_frames (c : compiler) (fs : list controlFrame) : compiler :=
  mkC (stack c) (stackLenInUint64 c) (currentFrameID c) fs (unreachable_on c) (unreachable_depth c)
    (pc c) (currentOpPC c) (ops c) (sourceOffsets c) (LabelCallers c) (UsesMemory c).
Definition set_unreachable (c : compiler) (on : bool) (depth : Z) : compiler :=
  mkC (stack c) (stackLenInUint64 c) (currentFrameID c) (controlFrames c) on depth
    (pc c) (currentOpPC c) (ops c) (sourceOffsets c) (LabelCallers c) (UsesMemory c).
Definition set_pc (c : compiler) (p : Z) : compiler :=
  mkC (stack c) (stackLenInUint64 c) (currentFrameID c) (controlFrames c) (unreachable_on c)
    (unreachable_depth c) p (currentOpPC c) (ops c) (sourceOffsets c) (LabelCallers c) (UsesMemory c).
Definition set_currentOpPC (c : compiler) (p : Z) : compiler :=
  mkC (stack c) (stackLenInUint64 c) (currentFrameID c) (controlFrames c) (unreachable_on c)
    (unreachable_depth c) (pc c) p (ops c) (sourceOffsets c) (LabelCallers c) (UsesMemory c).
Definition set_ops (c : compiler) (os : list unionOperation) (offs : list Z) : compiler :=
  mkC (stack c) (stackLenInUint64 c) (currentFrameID c) (controlFrames c) (unreachable_on c)
    (unreachable_depth c) (pc c) (currentOpPC c) os offs (LabelCallers c) (UsesMemory c).
Definition set_callers (c : compiler) (m : gmap Z Z) : compiler :=
  mkC (stack c) (stackLenInUint64 c) (currentFrameID c) (controlFrames c) (unreachable_on c)
    (unreachable_depth c) (pc c) (currentOpPC c) (ops c) (sourceOffsets c) m (UsesMemory c).
Definition usesMemory (c : compiler) : compiler :=
  mkC (stack c) (stackLenInUint64 c) (currentFrameID c) (controlFrames c) (unreachable_on c)
    (unreachable_depth c) (pc c) (currentOpPC c) (ops c) (sourceOffsets c) (LabelCallers c) true.

(** [c.pc += n]. *)
Definition skip (c : compiler) (n : Z) : compiler := set_pc c (pc c + n).
Definition markUnreachable (c : compiler) : compiler := set_unreachable c true (unreachable_depth c).
Definition resetUnreachable (c : compiler) : compiler := set_unreachable c false (unreachable_depth c).
Definition push_frame (c : compiler) (f : controlFrame) : compiler := set_frames c (f :: controlFrames c).
(** [c.result.LabelCallers[l] += n]. *)
Definition calls_label (c : compiler) (l n : Z) : compiler :=
  set_callers c (<[l := u32 (default 0 (LabelCallers c !! l) + n)]> (LabelCallers c)).
Definition nextFrameID (c : compiler) : Z * compiler :=
  let id := u32 (currentFrameID c + 1) in (id, set_frameID c id).

(** ** The stack of types *)
Definition ParamNumInUint64 (ft : FunctionType) : Z := WasmModule.numInUint64 (ft_Params ft).
Definition ResultNumInUint64 (ft : FunctionType) : Z := WasmModule.numInUint64 (ft_Results ft).

(** [1 + int(unsignedTypeV128&t>>2)]: a vector takes two words. *)
Definition words (t : Z) : Z := 1 + Z.shiftr (Z.land unsignedTypeV128 t) 2.

Definition stackPush (c : compiler) (t : Z) : compiler :=
  set_stack c (t :: stack c) (stackLenInUint64 c + words t).
Definition stackPop (c : compiler) : result low_err (Z * compiler) :=
  match stack c with
  | [] => Err (Panic "index out of range")
  | t :: st => Ok (t, set_stack c st (stackLenInUint64 c - words t))
  end.
Definition stackPeek (c : compiler) : result low_err Z :=
  match stack c with [] => Err (Panic "index out of range") | t :: _ => Ok t end.
(** [c.stack[:n]]; a slice past the length, which Go allows up to the capacity,
    is [Panic]. *)
Definition stackSwitchAt (c : compiler) (f : controlFrame) : result low_err compiler :=
  let n := originalStackLenWithoutParam f in
  if (n <? 0) || (len (stack c) <? n) then Err (Panic "slice bounds out of range")
  else Ok (set_stack c (drop (length (stack c) - Z.to_nat n) (stack c))
             (originalStackLenWithoutParamUint64 f)).

Definition wasmValueTypeTounsignedType (vt : Z) : result low_err Z :=
  if vt =? ValueTypeI32 then Ok unsignedTypeI32
  else if (vt =? ValueTypeI64) || (vt =? ValueTypeExternref) || (vt =? ValueTypeFuncref)
  then Ok unsignedTypeI64
  else if vt =? ValueTypeF32 then Ok unsignedTypeF32
  else if vt =? ValueTypeF64 then Ok unsignedTypeF64
  else if vt =? ValueTypeV128 then Ok unsignedTypeV128
  else Err (Panic "unreachable").
Definition wasmValueTypeToUnsignedOutSignature (vt : Z) : result low_err signature :=
  let! t := wasmValueTypeTounsignedType vt in Ok (mkSig [] [t]).
Definition wasmValueTypeToUnsignedInSignature (vt : Z) : result low_err signature :=
  let! t := wasmValueTypeTounsignedType vt in Ok (mkSig [t] []).
Definition wasmValueTypeToUnsignedInOutSignature (vt : Z) : result low_err signature :=
  let! t := wasmValueTypeTounsignedType vt in Ok (mkSig [t] [t]).

Definition unsignedTypes (vts : list Z) : result low_err (list Z) :=
  foldm (fun ts vt => let! t := wasmValueTypeTounsignedType vt in Ok (ts ++ [t])) [] vts.
(** [for _, t := range ts { c.stackPush(wasmValueTypeTounsignedType(t)) }]. *)
Definition stackPushAll (c : compiler) (vts : list Z) : result low_err compiler :=
  foldm (fun c vt => let! t := wasmValueTypeTounsignedType vt in Ok (stackPush c t)) c vts.

(** [a[i]], [a[i:]] and the immediates read there. *)
Definition at_ {A} (l : list A) (i : Z) : result low_err A :=
  match l !! Z.to_nat i with Some x => Ok x | None => Err (Panic "index out of range") end.
Definition from (body : list Z) (i : Z) : result low_err (list Z) :=
  if len body <? i then Err (Panic "slice bounds out of range") else Ok (drop (Z.to_nat i) body).

(** ** Lowering a body

    The fields of the compiler that are fixed while a function is lowered. *)
Section function.
Context (types : list FunctionType) (funcs : list Z) (globals : list GlobalType)
  (enabledFeatures : Z) (ensureTermination needSourceOffset : bool)
  (callFrameStackSizeInUint64 bodyOffsetInCodeSection : Z)
  (sig : FunctionType) (localTypes body : list Z) (localIndexToStackHeightInUint64 : list Z).

Definition emit (c : compiler) (op : unionOperation) : compiler :=
  if unreachable_on c then c
  else if match Kind op with operationKindDrop => i64 (U1 op) =? -1 | _ => false end then c
  else set_ops c (ops c ++ [op])
         (if needSourceOffset then sourceOffsets c ++ [u64 (currentOpPC c + bodyOffsetInCodeSection)]
          else sourceOffsets c).

Definition loadU32 (what : string) (i : Z) : result low_err (Z * Z) :=
  let! b := from body i in map_err (Immediate what) (Leb128.LoadUint32 b).

(** The pc advances past what is read. *)
Definition readU32 (what : string) (c : compiler) : result low_err (Z * compiler) :=
  let! (v, num) := loadU32 what (pc c + 1) in Ok (v, skip c num).
Definition readMemoryArg (c : compiler) : result low_err (memoryArg * compiler) :=
  let c := usesMemory c in
  let! (alignment, c) := readU32 "reading alignment" c in
  let! (offset, c) := readU32 "reading offset" c in
  Ok (mkMemArg alignment offset, c).

(** *** Locals *)
Definition localDepth (c : compiler) (index : Z) : result low_err Z :=
  let! height := at_ localIndexToStackHeightInUint64 index in
  Ok (stackLenInUint64 c - 1 - height).
Definition localType (index : Z) : result low_err Z :=
  let params := u32 (len (ft_Params sig)) in
  if index <? params then at_ (ft_Params sig) index else at_ localTypes (index - params).

(** *** Signatures *)
Definition sigs_get (typeIndex : Z) (indirect : bool) : result low_err signature :=
  let! tp := at_ types typeIndex in
  let! ins := unsignedTypes (ft_Params tp) in
  let! outs := unsignedTypes (ft_Results tp) in
  Ok (mkSig (if indirect then ins ++ [unsignedTypeI32] else ins) outs).

Definition localOfSignature (index : Z) : result low_err Z :=
  let inputLen := u32 (len (ft_Params sig)) in
  reject u32 (u32 (len localTypes) + inputLen) <=? index as InvalidIndex "local" index ;;
  if index <? inputLen then at_ (ft_Params sig) index else at_ localTypes (index - inputLen).
Definition globalOfSignature (index : Z) : result low_err Z :=
  reject len globals <=? index as InvalidIndex "global" index ;;
  let! g := at_ globals index in Ok (gt_ValType g).

(** The opcode after a prefix, at [c.pc + 1], is read as one byte. *)
Definition prefixed (what : string) (table : list (list Z * signature)) (pc : Z)
  : result low_err signature :=
  let! o := at_ body (pc + 1) in
  match cases o table with Some s => Ok s | None => Err (Unsupported what o) end.

Definition wasmOpcodeSignature (op index pc : Z) : result low_err signature :=
  if op =? OpcodeCall then let! ti := at_ funcs index in sigs_get ti false
  else if op =? OpcodeCallIndirect then sigs_get index true
  else if op =? OpcodeLocalGet then
    let! t := localOfSignature index in wasmValueTypeToUnsignedOutSignature t
  else if op =? OpcodeLocalSet then
    let! t := localOfSignature index in wasmValueTypeToUnsignedInSignature t
  else if op =? OpcodeLocalTee then
    let! t := localOfSignature index in wasmValueTypeToUnsignedInOutSignature t
  else if op =? OpcodeGlobalGet then
    let! t := globalOfSignature index in wasmValueTypeToUnsignedOutSignature t
  else if op =? OpcodeGlobalSet then
    let! t := globalOfSignature index in wasmValueTypeToUnsignedInSignature t
  else if op =? OpcodeMiscPrefix then prefixed "misc instruction" misc_signature pc
  else if op =? OpcodeVecPrefix then prefixed "vector instruction" vec_signature pc
  else if op =? OpcodeAtomicPrefix then prefixed "atomic instruction" atomic_signature pc
  else match cases op main_signature with
       | Some s => Ok s
       | None => Err (Unsupported "instruction" op)
       end.

(** The operands, the last one on top; the unknown type of a signature is the
    type found on the stack. *)
Fixpoint popOperands (c : compiler) (typeParam : option Z) (wants : list Z)
  : result low_err (option Z * compiler) :=
  match wants with
  | [] => Ok (typeParam, c)
  | want :: wants =>
      let! (actual, c) := stackPop c in
      let '(want, typeParam) :=
        if want =? unsignedTypeUnknown then
          match typeParam with Some t => (t, typeParam) | None => (actual, Some actual) end
        else (want, typeParam) in
      reject negb (want =? actual) as SignatureMismatch want actual ;;
      popOperands c typeParam wants
  end.
Fixpoint pushResults (c : compiler) (typeParam : option Z) (outs : list Z) : result low_err compiler :=
  match outs with
  | [] => Ok c
  | target :: outs =>
      if target =? unsignedTypeUnknown then
        match typeParam with
        | None => Err UnknownResult
        | Some t => pushResults (stackPush c t) typeParam outs
        end
      else pushResults (stackPush c target) typeParam outs
  end.

Definition hasIndex (op : Z) : bool :=
  existsb (Z.eqb op) [OpcodeCall; OpcodeCallIndirect; OpcodeLocalGet; OpcodeLocalSet; OpcodeLocalTee;
                      OpcodeGlobalGet; OpcodeGlobalSet].

Definition applyToStack (c : compiler) (op : Z) : result low_err (Z * compiler) :=
  let! (index, c) := (if hasIndex op then readU32 "reading immediates" c else Ok (0, c)) in
  if unreachable_on c then Ok (0, c) else
  let! s := wasmOpcodeSignature op index (pc c) in
  let! (typeParam, c) := popOperands c None (rev (sig_in s)) in
  let! c := pushResults c typeParam (sig_out s) in
  Ok (index, c).


(** *** Blocks *)
Definition getFrameDropRange (c : compiler) (frame : controlFrame) (isEnd : bool) : inclusiveRange :=
  let start :=
    match kind frame with
    | controlFrameKindLoop =>
        if isEnd then ResultNumInUint64 (blockType frame) else ParamNumInUint64 (blockType frame)
    | _ => ResultNumInUint64 (blockType frame)
    end in
  let end_ := stackLenInUint64 c - 1 - originalStackLenWithoutParamUint64 frame in
  if start <=? end_ then mkRange (i32 start) (i32 end_) else nopinclusiveRange.

(** The block type of the instruction at [c.pc], and the pc on its last byte. *)
Definition readBlockType (what : string) (c : compiler) : result low_err (FunctionType * compiler) :=
  let! b := from body (pc c + 1) in
  let! (bt, num) := map_err (BlockType what) (FuncValidation.DecodeBlockType types b enabledFeatures) in
  Ok (bt, skip c num).
Definition newFrame (c : compiler) (bt : FunctionType) (k : controlFrameKind) : controlFrame * compiler :=
  let (id, c) := nextFrameID c in
  let frame := mkFrame id (len (stack c) - len (ft_Params bt)) (stackLenInUint64 c - ParamNumInUint64 bt)
                 bt k in
  (frame, push_frame c frame).
(** A block in unreachable code is removed. *)
Definition enterUnreachable (c : compiler) : compiler :=
  set_unreachable c (unreachable_on c) (unreachable_depth c + 1).

Definition lower_block (c : compiler) : result low_err compiler :=
  let! (bt, c) := readBlockType "block" c in
  if unreachable_on c then Ok (enterUnreachable c) else
  let (_, c) := newFrame c bt controlFrameKindBlockWithoutContinuationLabel in Ok c.

Definition lower_loop (c : compiler) : result low_err compiler :=
  let! (bt, c) := readBlockType "loop" c in
  if unreachable_on c then Ok (enterUnreachable c) else
  let (frame, c) := newFrame c bt controlFrameKindLoop in
  let loopLabel := newLabel labelKindHeader (frameID frame) in
  let c := calls_label c loopLabel 1 in
  let c := emit c (newOperationBr loopLabel) in
  let c := emit c (newOperationLabel loopLabel) in
  Ok (if ensureTermination then emit c newOperationBuiltinFunctionCheckExitCode else c).

Definition lower_if (c : compiler) : result low_err compiler :=
  let! (bt, c) := readBlockType "if" c in
  if unreachable_on c then Ok (enterUnreachable c) else
  let (frame, c) := newFrame c bt controlFrameKindIfWithoutElse in
  let thenLabel := newLabel labelKindHeader (frameID frame) in
  let elseLabel := newLabel labelKindElse (frameID frame) in
  let c := calls_label (calls_label c thenLabel 1) elseLabel 1 in
  let c := emit c (newOperationBrIf thenLabel elseLabel nopinclusiveRange) in
  Ok (emit c (newOperationLabel thenLabel)).

Definition lower_else (c : compiler) : result low_err compiler :=
  match controlFrames c with
  | [] => Err (Panic "index out of range")
  | frame :: rest =>
      let elseLabel := newLabel labelKindElse (frameID frame) in
      let with_else := set_frames c (set_kind frame controlFrameKindIfWithElse :: rest) in
      if unreachable_on c && (0 <? unreachable_depth c) then Ok c
      else if unreachable_on c then
        let! c := stackSwitchAt c frame in
        let c := set_frames c (controlFrames with_else) in
        let! c := stackPushAll c (ft_Params (blockType frame)) in
        let c := resetUnreachable c in
        Ok (emit c (newOperationLabel elseLabel))
      else
        let c := with_else in
        let frame := set_kind frame controlFrameKindIfWithElse in
        let dropOp := newOperationDrop (getFrameDropRange c frame false) in
        let! c := stackSwitchAt c frame in
        let! c := stackPushAll c (ft_Params (blockType frame)) in
        let continuationLabel := newLabel labelKindContinuation (frameID frame) in
        let c := calls_label c continuationLabel 1 in
        let c := emit c dropOp in
        let c := emit c (newOperationBr continuationLabel) in
        Ok (emit c (newOperationLabel elseLabel))
  end.

(** [c.pc++] at the end of [handleInstruction]. *)
Definition next (c : compiler) : compiler := skip c 1.

Definition end_unreachable (c : compiler) (frame : controlFrame) (rest : list controlFrame)
  : result low_err compiler :=
  let c := set_frames (resetUnreachable c) rest in
  match rest with
  | [] => Ok c
  | _ =>
      let! c := stackSwitchAt c frame in
      let! c := stackPushAll c (ft_Results (blockType frame)) in
      let continuationLabel := newLabel labelKindContinuation (frameID frame) in
      match kind frame with
      | controlFrameKindIfWithoutElse =>
          let c := calls_label c continuationLabel 1 in
          let c := emit c (newOperationLabel (newLabel labelKindElse (frameID frame))) in
          let c := emit c (newOperationBr continuationLabel) in
          Ok (next (emit c (newOperationLabel continuationLabel)))
      | _ => Ok (next (emit c (newOperationLabel continuationLabel)))
      end
  end.

Definition end_reachable (c : compiler) (frame : controlFrame) (rest : list controlFrame)
  : result low_err compiler :=
  let c := set_frames c rest in
  let dropOp := newOperationDrop (getFrameDropRange c frame true) in
  let! c := stackSwitchAt c frame in
  let! c := stackPushAll c (ft_Results (blockType frame)) in
  let continuationLabel := newLabel labelKindContinuation (frameID frame) in
  match kind frame with
  | controlFrameKindFunction =>
      match rest with
      | _ :: _ => Err (Panic "bug: found more function control frames")
      | [] => Ok (next (emit (emit c dropOp) (newOperationBr (newLabel labelKindReturn 0))))
      end
  | controlFrameKindIfWithoutElse =>
      let c := calls_label c continuationLabel 2 in
      let c := emit c dropOp in
      let c := emit c (newOperationBr continuationLabel) in
      let c := emit c (newOperationLabel (newLabel labelKindElse (frameID frame))) in
      let c := emit c (newOperationBr continuationLabel) in
      Ok (next (emit c (newOperationLabel continuationLabel)))
  | controlFrameKindBlockWithContinuationLabel | controlFrameKindIfWithElse =>
      let c := calls_label c continuationLabel 1 in
      let c := emit c dropOp in
      let c := emit c (newOperationBr continuationLabel) in
      Ok (next (emit c (newOperationLabel continuationLabel)))
  | controlFrameKindLoop | controlFrameKindBlockWithoutContinuationLabel => Ok (next (emit c dropOp))
  end.

(** The whole case: the end of the function in unreachable code leaves the pc. *)
Definition lower_end (c : compiler) : result low_err compiler :=
  if unreachable_on c && (0 <? unreachable_depth c) then
    Ok (next (set_unreachable c true (unreachable_depth c - 1)))
  else
  match controlFrames c with
  | [] => Err (Panic "index out of range")
  | frame :: rest =>
      if unreachable_on c then end_unreachable c frame rest else end_reachable c frame rest
  end.

(** *** Branches *)

(** [c.controlFrames.get(n)], made to have a continuation: the label, the range
    to drop and the call counted. *)
Definition branchTo (c : compiler) (n : Z) : result low_err (Z * inclusiveRange * compiler) :=
  let! targetFrame := at_ (controlFrames c) n in
  let targetFrame := ensureContinuation targetFrame in
  let c := set_frames c (<[Z.to_nat n := targetFrame]> (controlFrames c)) in
  let drop := getFrameDropRange c targetFrame false in
  let target := asLabel targetFrame in
  Ok (target, drop, calls_label c target 1).

Definition lower_br (c : compiler) : result low_err compiler :=
  let! (targetIndex, c) := readU32 "read the target for br_if" c in
  if unreachable_on c then Ok c else
  let! (targetID, drop, c) := branchTo c targetIndex in
  let c := emit c (newOperationDrop drop) in
  let c := emit c (newOperationBr targetID) in
  Ok (markUnreachable c).

Definition lower_br_if (c : compiler) : result low_err compiler :=
  let! (targetIndex, c) := readU32 "read the target for br_if" c in
  if unreachable_on c then Ok c else
  let! (target, drop, c) := branchTo c targetIndex in
  let (id, c) := nextFrameID c in
  let continuationLabel := newLabel labelKindHeader id in
  let c := calls_label c continuationLabel 1 in
  let c := emit c (newOperationBrIf target continuationLabel drop) in
  Ok (emit c (newOperationLabel continuationLabel)).

(** [n] indexes passed over. *)
Fixpoint skipTargets (n : nat) (c : compiler) : result low_err compiler :=
  match n with
  | O => Ok c
  | S n => let! (_, c) := readU32 "error reading target in br_table" c in skipTargets n c
  end.
(** [n] targets read into [targetLabels], which has [size] entries. *)
Fixpoint readTargets (n : nat) (size : Z) (c : compiler) (targetLabels : list Z)
  : result low_err (list Z * compiler) :=
  match n with
  | O => Ok (targetLabels, c)
  | S n =>
      let! (l, c) := readU32 "error reading target in br_table" c in
      let! (target, drop, c) := branchTo c l in
      reject size <=? len targetLabels + 1 as Panic "index out of range" ;;
      readTargets n size c (targetLabels ++ [target; AsU64 drop])
  end.

Definition lower_br_table (c : compiler) : result low_err compiler :=
  let! (numTargets, c) := readU32 "error reading number of targets in br_table" c in
  if unreachable_on c then skipTargets (S (Z.to_nat numTargets)) c else
  let s := u32 (numTargets * 2) in
  let size := u32 (2 + s) in
  let! (targetLabels, c) := readTargets (Z.to_nat (s / 2)) size c [] in
  let! (targetLabels, c) := readTargets 1 size c targetLabels in
  Ok (markUnreachable (emit c (newOperationBrTable targetLabels))).

Definition lower_return (c : compiler) : result low_err compiler :=
  match last (controlFrames c) with
  | None => Err (Panic "index out of range")
  | Some functionFrame =>
      let dropOp := newOperationDrop (getFrameDropRange c functionFrame false) in
      let c := emit c dropOp in
      let c := emit c (newOperationBr (asLabel functionFrame)) in
      Ok (markUnreachable c)
  end.

(** *** Calls, locals and constants *)
Definition lower_call_indirect (c : compiler) (typeIndex : Z) : result low_err compiler :=
  let! (tableIndex, c) := readU32 "read target for br_table" c in
  Ok (emit c (newOperationCallIndirect typeIndex tableIndex)).

Definition lower_drop (c : compiler) (peekValueType : Z) : compiler :=
  emit c (newOperationDrop (mkRange 0 (if peekValueType =? unsignedTypeV128 then 1 else 0))).

Definition lower_select (c : compiler) : result low_err compiler :=
  if unreachable_on c then Ok c else
  let! t := stackPeek c in
  Ok (emit c (newOperationSelect (t =? unsignedTypeV128))).

Definition lower_local (op : Z) (c : compiler) (index : Z) : result low_err compiler :=
  let! depth := localDepth c index in
  let! t := localType index in
  let isVector := t =? ValueTypeV128 in
  if op =? OpcodeLocalGet then
    Ok (emit c (newOperationPick (if isVector then depth - 2 else depth - 1) isVector))
  else if op =? OpcodeLocalSet then
    Ok (emit c (newOperationSet (if isVector then depth + 2 else depth + 1) index isVector))
  else
    let c := emit c (newOperationPick (if isVector then 1 else 0) isVector) in
    Ok (emit c (newOperationSet (if isVector then depth + 2 else depth + 1) index isVector)).

(** [binary.LittleEndian.UintN(c.body[i:])]. *)
Definition littleEndian (n : nat) (i : Z) : result low_err Z :=
  let! b := from body i in
  reject len b <? Z.of_nat n as Panic "index out of range" ;;
  Ok (le_dec (take n b)).

Definition lower_const (op : Z) (c : compiler) : result low_err compiler :=
  if op =? OpcodeI32Const then
    let! b := from body (pc c + 1) in
    let! (val, num) := map_err (Immediate "reading i32.const value") (Leb128.LoadInt32 b) in
    Ok (emit (skip c num) (newOperationConstI32 (u32 val)))
  else if op =? OpcodeI64Const then
    let! b := from body (pc c + 1) in
    let! (val, num) := map_err (Immediate "reading i64.const value") (Leb128.LoadInt64 b) in
    Ok (emit (skip c num) (newOperationConstI64 (u64 val)))
  else if op =? OpcodeF32Const then
    let! v := littleEndian 4 (pc c + 1) in
    Ok (emit (skip c 4) (newOperationConstF32 v))
  else
    let! v := littleEndian 8 (pc c + 1) in
    Ok (emit (skip c 8) (newOperationConstF64 v)).

(** An index after the opcode, and one operation. *)
Definition lower_index (what : string) (c : compiler) (f : Z -> unionOperation) : result low_err compiler :=
  let! (index, c) := readU32 what c in Ok (emit c (f index)).

(** *** After a prefix *)
Definition lower_misc (c : compiler) : result low_err compiler :=
  let c := skip c 1 in
  let! (miscOp, num) := loadU32 "failed to read misc opcode" (pc c) in
  let c := skip c (num - 1) in
  let op := u8 miscOp in
  match case op misc_plain with Some o => Ok (emit c o) | None =>
  if op =? OpcodeMiscMemoryInit then
    let c := usesMemory c in
    let! (dataIndex, c) := readU32 "reading i32.const value" c in
    Ok (emit (skip c 1) (newOperationMemoryInit dataIndex))
  else if op =? OpcodeMiscDataDrop then lower_index "reading i32.const value" c newOperationDataDrop
  else if op =? OpcodeMiscMemoryCopy then Ok (emit (skip (usesMemory c) 2) newOperationMemoryCopy)
  else if op =? OpcodeMiscMemoryFill then Ok (emit (skip (usesMemory c) 1) newOperationMemoryFill)
  else if op =? OpcodeMiscTableInit then
    let! (elemIndex, c) := readU32 "reading i32.const value" c in
    let! (tableIndex, c) := readU32 "reading i32.const value" c in
    Ok (emit c (newOperationTableInit elemIndex tableIndex))
  else if op =? OpcodeMiscElemDrop then lower_index "reading i32.const value" c newOperationElemDrop
  else if op =? OpcodeMiscTableCopy then
    let! (dst, c) := readU32 "reading i32.const value" c in
    let! (src, c) := readU32 "reading i32.const value" c in
    Ok (emit c (newOperationTableCopy src dst))
  else if op =? OpcodeMiscTableGrow then lower_index "reading i32.const value" c newOperationTableGrow
  else if op =? OpcodeMiscTableSize then lower_index "reading i32.const value" c newOperationTableSize
  else if op =? OpcodeMiscTableFill then lower_index "reading i32.const value" c newOperationTableFill
  else Err (Unsupported "misc instruction" op)
  end.

(** [c.pc++; laneIndex := c.body[c.pc]]. *)
Definition readByte (c : compiler) : result low_err (Z * compiler) :=
  let c := skip c 1 in let! b := at_ body (pc c) in Ok (b, c).

Definition lower_vec (c : compiler) : result low_err compiler :=
  let! (vecOp, c) := readByte c in
  match case vecOp vec_plain with Some o => Ok (emit c o) | None =>
  match case vecOp vec_memory with Some f =>
    let! (arg, c) := readMemoryArg c in Ok (emit c (f arg))
  | None =>
  match case vecOp vec_memoryLane with Some f =>
    let! (arg, c) := readMemoryArg c in
    let! (laneIndex, c) := readByte c in Ok (emit c (f laneIndex arg))
  | None =>
  match case vecOp vec_lane with Some f =>
    let! (laneIndex, c) := readByte c in Ok (emit c (f laneIndex))
  | None =>
  if vecOp =? OpcodeVecV128Const then
    let c := skip c 1 in
    let! lo := littleEndian 8 (pc c) in
    let c := skip c 8 in
    let! hi := littleEndian 8 (pc c) in
    let c := emit c (newOperationV128Const lo hi) in
    Ok (skip c 7)
  else if vecOp =? OpcodeVecV128i8x16Shuffle then
    let c := skip c 1 in
    reject len body <? pc c + 16 as Panic "index out of range" ;;
    let c := emit c (newOperationV128Shuffle (sub body (Z.to_nat (pc c)) 16)) in
    Ok (skip c 15)
  else Err (Unsupported "vector instruction" vecOp)
  end end end end.

Definition lower_atomic (c : compiler) : result low_err compiler :=
  let! (atomicOp, c) := readByte c in
  match case atomicOp atomic_memory with Some f =>
    let! (arg, c) := readMemoryArg c in Ok (emit c (f arg))
  | None =>
  if atomicOp =? OpcodeAtomicFence then
    let! (_, c) := readByte c in Ok (emit c newOperationAtomicFence)
  else Err (Unsupported "atomic instruction" atomicOp)
  end.

(** *** One instruction *)
Definition lower (op index peekValueType : Z) (c : compiler) : result low_err compiler :=
  match case op main_plain with Some o => Ok (emit c o) | None =>
  match case op main_memory with Some f =>
    let! (arg, c) := readMemoryArg c in Ok (emit c (f arg))
  | None =>
  if op =? OpcodeUnreachable then Ok (markUnreachable (emit c newOperationUnreachable))
  else if op =? OpcodeNop then Ok c
  else if op =? OpcodeBlock then lower_block c
  else if op =? OpcodeLoop then lower_loop c
  else if op =? OpcodeIf then lower_if c
  else if op =? OpcodeElse then lower_else c
  else if op =? OpcodeBr then lower_br c
  else if op =? OpcodeBrIf then lower_br_if c
  else if op =? OpcodeBrTable then lower_br_table c
  else if op =? OpcodeReturn then lower_return c
  else if op =? OpcodeCall then Ok (emit c (newOperationCall index))
  else if op =? OpcodeCallIndirect then lower_call_indirect c index
  else if op =? OpcodeDrop then Ok (lower_drop c peekValueType)
  else if op =? OpcodeSelect then lower_select c
  else if op =? OpcodeTypedSelect then lower_select (skip c 2)
  else if (op =? OpcodeLocalGet) || (op =? OpcodeLocalSet) || (op =? OpcodeLocalTee)
  then lower_local op c index
  else if op =? OpcodeGlobalGet then Ok (emit c (newOperationGlobalGet index))
  else if op =? OpcodeGlobalSet then Ok (emit c (newOperationGlobalSet index))
  else if op =? OpcodeMemorySize then Ok (emit (skip (usesMemory c) 1) newOperationMemorySize)
  else if op =? OpcodeMemoryGrow then Ok (emit (skip (usesMemory c) 1) newOperationMemoryGrow)
  else if (op =? OpcodeI32Const) || (op =? OpcodeI64Const) || (op =? OpcodeF32Const) ||
          (op =? OpcodeF64Const) then lower_const op c
  else if op =? OpcodeRefFunc then
    lower_index "failed to read function index for ref.func" c newOperationRefFunc
  else if op =? OpcodeRefNull then Ok (emit (skip c 1) (newOperationConstI64 0))
  else if op =? OpcodeTableGet then
    lower_index "failed to read function index for table.get" c newOperationTableGet
  else if op =? OpcodeTableSet then
    lower_index "failed to read function index for table.set" c newOperationTableSet
  else if op =? OpcodeMiscPrefix then lower_misc c
  else if op =? OpcodeVecPrefix then lower_vec c
  else if op =? OpcodeAtomicPrefix then lower_atomic c
  else Err (Unsupported "instruction" op)
  end end.

Definition handleInstruction (c : compiler) : result low_err compiler :=
  let! op := at_ body (pc c) in
  let c := set_currentOpPC c (pc c) in
  let peekValueType := match stack c with t :: _ => t | [] => 0 end in
  let! (index, c) := applyToStack c op in
  if op =? OpcodeEnd then lower_end c
  else let! c := lower op index peekValueType c in Ok (next c).

Fixpoint instructions (fuel : nat) (c : compiler) : result low_err compiler :=
  match controlFrames c with
  | [] => Ok c
  | _ =>
      if pc c <? len body then
        match fuel with
        | O => Err NoFuel
        | S fuel => let! c := handleInstruction c in instructions fuel c
        end
      else Ok c
  end.

Definition emitDefaultValue (c : compiler) (t : Z) : compiler :=
  if t =? ValueTypeI32 then emit (stackPush c unsignedTypeI32) (newOperationConstI32 0)
  else if (t =? ValueTypeI64) || (t =? ValueTypeExternref) || (t =? ValueTypeFuncref) then
    emit (stackPush c unsignedTypeI64) (newOperationConstI64 0)
  else if t =? ValueTypeF32 then emit (stackPush c unsignedTypeF32) (newOperationConstF32 0)
  else if t =? ValueTypeF64 then emit (stackPush c unsignedTypeF64) (newOperationConstF64 0)
  else if t =? ValueTypeV128 then emit (stackPush c unsignedTypeV128) (newOperationV128Const 0 0)
  else c.
End function.

(** ** A function *)

(** The heights of locals: the first word of each, from [current]. *)
Fixpoint localHeights (current : Z) (ts : list Z) : list Z * Z :=
  match ts with
  | [] => ([], current)
  | lt :: ts =>
      let '(hs, last) := localHeights (current + (if lt =? ValueTypeV128 then 2 else 1)) ts in
      (current :: hs, last)
  end.
(** Parameters first; the slots reserved for a call frame come before the other
    locals. *)
Definition localIndexToStackHeight (callFrameStackSize : Z) (sig : FunctionType) (localTypes : list Z)
  : list Z :=
  let '(params, current) := localHeights 0 (ft_Params sig) in
  let diff := ResultNumInUint64 sig - ParamNumInUint64 sig in
  let current := if (0 <? callFrameStackSize) && (0 <? diff) then current + diff else current in
  params ++ (localHeights (current + callFrameStackSize) localTypes).1.

Fixpoint reserve (n : nat) (c : compiler) : compiler :=
  match n with O => c | S n => reserve n (stackPush c unsignedTypeI64) end.
Definition initializeStack (callFrameStackSize : Z) (sig : FunctionType) (c : compiler)
  : result low_err compiler :=
  let! c := stackPushAll c (ft_Params sig) in
  Ok (if 0 <? callFrameStackSize then
        reserve (Z.to_nat callFrameStackSize)
          (reserve (Z.to_nat (ResultNumInUint64 sig - ParamNumInUint64 sig)) c)
      else c).

Section module.
Context (m : Module') (funcs : list Z) (globals : list GlobalType) (enabledFeatures : Z)
  (ensureTermination needSourceOffset : bool) (callFrameStackSizeInUint64 : Z).

Definition compile (c : compiler) (sig : FunctionType) (body localTypes : list Z)
  (bodyOffsetInCodeSection : Z) : result low_err compiler :=
  let c := set_frames (set_stack c [] (stackLenInUint64 c)) [] in
  let! c := initializeStack callFrameStackSizeInUint64 sig c in
  let c := fold_left (emitDefaultValue needSourceOffset bodyOffsetInCodeSection) localTypes c in
  let (id, c) := nextFrameID c in
  let c := push_frame c (mkFrame id 0 0 sig controlFrameKindFunction) in
  instructions (TypeSection m) funcs globals enabledFeatures ensureTermination needSourceOffset
    bodyOffsetInCodeSection sig localTypes body
    (localIndexToStackHeight callFrameStackSizeInUint64 sig localTypes) (S (length body)) c.

(** The labels of the frames up to [currentFrameID] forgotten. *)
Definition clearCallers (lastID : Z) (m : gmap Z Z) : gmap Z Z :=
  foldr (fun id m =>
    foldr (fun k m => delete (newLabel k id) m) m
      [labelKindHeader; labelKindElse; labelKindContinuation; labelKindReturn])
    m (seqZ 0 (lastID + 1)).

(** [next] is the index of the function; the state of the previous one is reset. *)
Definition Next (next : Z) (c : compiler) : result low_err compiler :=
  let! code := at_ (CodeSection m) next in
  let! typeIndex := at_ (FunctionSection m) next in
  let! sig := at_ (TypeSection m) typeIndex in
  let c := mkC (stack c) 0 0 (controlFrames c) false 0 0 0 [] []
             (clearCallers (currentFrameID c) (LabelCallers c)) false in
  compile c sig (co_Body code) (co_LocalTypes code) (co_BodyOffset code).

End module.

(** [newCompiler]: what is declared, and the state before the first function. *)
Definition emptyCompiler : compiler := mkC [] 0 0 [] false 0 0 0 [] [] ∅ false.
Inductive memoryType : Type := memoryTypeNone | memoryTypeStandard | memoryTypeShared.
Definition memoryTypeOf (mem : option Memory) : memoryType :=
  match mem with
  | None => memoryTypeNone
  | Some mem => if me_IsShared mem then memoryTypeShared else memoryTypeStandard
  end.

(** ** Labels to addresses: [lowerIR] of [interpreter.go]

    The address of a label, by kind and frame; a frame without a label of the
    kind has address zero if a later frame has one. *)
Notation resolutions := (gmap Z (list Z)).
Definition expand (l : list Z) (n : Z) : list Z :=
  if len l <? n then l ++ replicate (Z.to_nat (n - len l)) 0 else l.
Definition resolveLabel (rs : resolutions) (i : nat) (op : unionOperation) : resolutions :=
  match Kind op with
  | operationKindLabel =>
      let kind := label_Kind (U1 op) in
      let fid := label_FrameID (U1 op) in
      let frameToAddresses := expand (default [] (rs !! kind)) (fid + 1) in
      <[kind := <[Z.to_nat fid := Z.of_nat i]> frameToAddresses]> rs
  | _ => rs
  end.
Fixpoint resolveLabels (rs : resolutions) (i : nat) (body : list unionOperation) : resolutions :=
  match body with [] => rs | op :: body => resolveLabels (resolveLabel rs i op) (S i) body end.

Definition MaxUint64 : Z := 2 ^ 64 - 1.
Definition setLabelAddress (rs : resolutions) (label : Z) : result low_err Z :=
  if IsReturnTarget label then Ok MaxUint64
  else at_ (default [] (rs !! label_Kind label)) (label_FrameID label).
Fixpoint setTable (rs : resolutions) (us : list Z) : result low_err (list Z) :=
  match us with
  | target :: drop :: us =>
      let! a := setLabelAddress rs target in let! us := setTable rs us in Ok (a :: drop :: us)
  | [target] => let! a := setLabelAddress rs target in Ok [a]
  | [] => Ok []
  end.
Definition setTargets (rs : resolutions) (op : unionOperation) : result low_err unionOperation :=
  match Kind op with
  | operationKindBr =>
      let! a := setLabelAddress rs (U1 op) in
      Ok (mkOp (Kind op) (B1 op) (B2 op) (B3 op) a (U2 op) (U3 op) (Us op))
  | operationKindBrIf =>
      let! a := setLabelAddress rs (U1 op) in
      let! b := setLabelAddress rs (U2 op) in
      Ok (mkOp (Kind op) (B1 op) (B2 op) (B3 op) a b (U3 op) (Us op))
  | operationKindBrTable =>
      let! us := setTable rs (Us op) in
      Ok (mkOp (Kind op) (B1 op) (B2 op) (B3 op) (U1 op) (U2 op) (U3 op) us)
  | _ => Ok op
  end.
Definition lowerIR (ir : list unionOperation) : result low_err (list unionOperation) :=
  mapm (setTargets (resolveLabels ∅ 0 ir)) ir.

(** The interpreter keeps no call frames on the value stack. *)
Definition callFrameStackSize : Z := 0.
(** [CompileModule]: every function of the code section. *)
Definition CompileModule (m : Module') (enabledFeatures : Z) (ensureTermination needSourceOffset : bool)
  : result low_err (list (list unionOperation)) :=
  match WasmModule.AllDeclarations m with
  | Err e => Err (BlockType "declarations" e)
  | Ok d =>
      let! (_, bodies) :=
        foldm (fun '(c, bodies) i =>
          let! c := Next m (WasmModule.d_functions d) (WasmModule.d_globals d) enabledFeatures
                      ensureTermination needSourceOffset callFrameStackSize (Z.of_nat i) c in
          let! body := lowerIR (ops c) in
          Ok (c, bodies ++ [body]))
          (emptyCompiler, []) (seq 0 (length (CodeSection m))) in
      Ok bodies
  end.

End Lower.
