(* ===== verification/LowerFlow.v ===== *)
(** * What lowered code does to the height of the stack

    The interpreter keeps values as 64-bit words on one stack, and pops without
    looking: [callNativeFunc] of [interpreter.go] relies on lowered code never
    taking more than there is.  [succs] says, for each operation, which words it
    needs and where it may continue with how many; [hreach] are the program
    counters and heights a call can get to.  [flow] is the same on code with
    labels, given the height [H] at each label; [flow_safe] shows that code with
    a flow never underflows once [lowerIR] has resolved its labels. *)
From S2P Require Import Prelude Leb128 Opcodes WasmBinary FuncValidation WasmModule Operations Signature LowerTables Lower.

Module LowerFlow.
Import WasmBinary Lower.

(** The height after dropping a range. *)
Definition dropped (raw h : Z) : option Z :=
  let r := inclusiveRangeFromU64 raw in
  if Start r =? -1 then Some h
  else if (0 <=? Start r) && (Start r <=? End r) && (End r <? h) then Some (h - (End r - Start r + 1))
  else None.

Section flow.
Context (types : list FunctionType) (funcs : list Z) (globals : list GlobalType).

Definition type_words (ti : Z) : option (Z * Z) :=
  (fun ft => (ParamNumInUint64 ft, ResultNumInUint64 ft)) <$> types !! Z.to_nat ti.
Definition global_words (i : Z) : option Z :=
  (fun g => if gt_ValType g =? ValueTypeV128 then 2 else 1) <$> globals !! Z.to_nat i.

(** The operand type is one of the cases of the operation's switch. *)
Definition known (op : unionOperation) : bool :=
  match Kind op with
  | operationKindEq | operationKindNe | operationKindAdd | operationKindSub | operationKindMul
  | operationKindFConvertFromI => one_of 4 (B1 op)
  | operationKindLt | operationKindGt | operationKindLe | operationKindGe
  | operationKindV128Add | operationKindV128Sub => one_of 6 (B1 op)
  | operationKindITruncFromF => one_of 4 (B2 op)
  | operationKindV128Load => one_of 13 (B1 op)
  | operationKindAtomicMemoryWait => one_of 2 (B1 op)
  | _ => true
  end.
(** Words popped and pushed by an operation that continues with the next one. *)
Definition words_of (op : unionOperation) : option (Z * Z) :=
  match Kind op with
  | operationKindLabel | operationKindBuiltinFunctionCheckExitCode | operationKindDataDrop
  | operationKindElemDrop | operationKindAtomicFence => Some (0, 0)
  | operationKindConstI32 | operationKindConstI64 | operationKindConstF32 | operationKindConstF64
  | operationKindMemorySize | operationKindRefFunc | operationKindTableSize => Some (0, 1)
  | operationKindV128Const => Some (0, 2)
  | operationKindLoad | operationKindLoad8 | operationKindLoad16 | operationKindLoad32
  | operationKindMemoryGrow | operationKindEqz | operationKindClz | operationKindCtz
  | operationKindPopcnt | operationKindAbs | operationKindNeg | operationKindCeil | operationKindFloor
  | operationKindTrunc | operationKindNearest | operationKindSqrt | operationKindI32WrapFromI64
  | operationKindITruncFromF | operationKindFConvertFromI | operationKindF32DemoteFromF64
  | operationKindF64PromoteFromF32 | operationKindI32ReinterpretFromF32
  | operationKindI64ReinterpretFromF64 | operationKindF32ReinterpretFromI32
  | operationKindF64ReinterpretFromI64 | operationKindExtend | operationKindSignExtend32From8
  | operationKindSignExtend32From16 | operationKindSignExtend64From8 | operationKindSignExtend64From16
  | operationKindSignExtend64From32 | operationKindTableGet
  | operationKindAtomicLoad | operationKindAtomicLoad8 | operationKindAtomicLoad16 => Some (1, 1)
  | operationKindV128Load | operationKindV128Splat => Some (1, 2)
  | operationKindStore | operationKindStore8 | operationKindStore16 | operationKindStore32
  | operationKindTableSet | operationKindAtomicStore | operationKindAtomicStore8
  | operationKindAtomicStore16 => Some (2, 0)
  | operationKindEq | operationKindNe | operationKindLt | operationKindGt | operationKindLe
  | operationKindGe | operationKindAdd | operationKindSub | operationKindMul | operationKindDiv
  | operationKindRem | operationKindAnd | operationKindOr | operationKindXor | operationKindShl
  | operationKindShr | operationKindRotl | operationKindRotr | operationKindMin | operationKindMax
  | operationKindCopysign | operationKindTableGrow | operationKindV128ExtractLane
  | operationKindV128AnyTrue | operationKindV128AllTrue | operationKindV128BitMask
  | operationKindAtomicMemoryNotify | operationKindAtomicRMW | operationKindAtomicRMW8
  | operationKindAtomicRMW16 => Some (2, 1)
  | operationKindV128Not | operationKindV128Neg | operationKindV128Sqrt | operationKindV128Abs
  | operationKindV128Popcnt | operationKindV128Ceil | operationKindV128Floor | operationKindV128Trunc
  | operationKindV128Nearest | operationKindV128Extend | operationKindV128ExtAddPairwise
  | operationKindV128FloatPromote | operationKindV128FloatDemote | operationKindV128FConvertFromI
  | operationKindV128ITruncSatFromF => Some (2, 2)
  | operationKindMemoryInit | operationKindMemoryCopy | operationKindMemoryFill
  | operationKindTableInit | operationKindTableCopy | operationKindTableFill
  | operationKindV128Store | operationKindV128StoreLane => Some (3, 0)
  | operationKindAtomicMemoryWait | operationKindAtomicRMWCmpxchg | operationKindAtomicRMW8Cmpxchg
  | operationKindAtomicRMW16Cmpxchg => Some (3, 1)
  | operationKindV128LoadLane | operationKindV128ReplaceLane | operationKindV128Shl
  | operationKindV128Shr => Some (3, 2)
  | operationKindV128Add | operationKindV128Sub | operationKindV128Shuffle | operationKindV128Swizzle
  | operationKindV128And | operationKindV128Or | operationKindV128Xor | operationKindV128AndNot
  | operationKindV128Cmp | operationKindV128AddSat | operationKindV128SubSat | operationKindV128Mul
  | operationKindV128Div | operationKindV128Min | operationKindV128Max | operationKindV128AvgrU
  | operationKindV128Pmin | operationKindV128Pmax | operationKindV128ExtMul
  | operationKindV128Q15mulrSatS | operationKindV128Dot | operationKindV128Narrow => Some (4, 2)
  | operationKindV128Bitselect => Some (6, 2)
  | operationKindSelect => Some (if B3 op then (5, 2) else (3, 1))
  | operationKindGlobalGet => (fun w => (0, w)) <$> global_words (U1 op)
  | operationKindGlobalSet => (fun w => (w, 0)) <$> global_words (U1 op)
  | operationKindCall => ti ← funcs !! Z.to_nat (U1 op); type_words ti
  | operationKindCallIndirect => (fun '(p, r) => (p + 1, r)) <$> type_words (U1 op)
  | _ => None
  end.
Definition effect (op : unionOperation) : option (Z * Z) := if known op then words_of op else None.

(** The height after an operation that continues with the next one. *)
Definition straight (op : unionOperation) (h : Z) : option Z :=
  match Kind op with
  | operationKindDrop => dropped (U1 op) h
  | operationKindPick =>
      let lo := if B3 op then 1 else 0 in
      if (lo <=? i64 (U1 op)) && (i64 (U1 op) <? h) then Some (h + 1 + lo) else None
  | operationKindSet =>
      let lo := if B3 op then 1 else 0 in
      if (2 * lo <? i64 (U1 op)) && (i64 (U1 op) <? h) && (0 <=? U2 op) && (U2 op <? 2 ^ 32)
      then Some (h - 1 - lo) else None
  | _ => '(i, o) ← effect op; if i <=? h then Some (h - i + o) else None
  end.

(** The targets of a branch table, each with its range to drop. *)
Fixpoint pairs (us : list Z) : option (list (Z * Z)) :=
  match us with
  | [] => Some []
  | t :: d :: us => ps ← pairs us; Some ((t, d) :: ps)
  | [_] => None
  end.

(** Where a branch goes: the targets and the heights there. *)
Definition jumps (op : unionOperation) (h : Z) : option (list (Z * Z)) :=
  match Kind op with
  | operationKindUnreachable => Some []
  | operationKindBr => Some [(U1 op, h)]
  | operationKindBrIf =>
      if h <? 1 then None else
      h' ← dropped (U3 op) (h - 1); Some [(U1 op, h'); (U2 op, h - 1)]
  | operationKindBrTable =>
      if (h <? 1) || (2 ^ 62 <=? len (Us op)) then None else
      ps ← pairs (Us op);
      match ps with
      | [] => None
      | _ => mapM (fun '(t, d) => h' ← dropped d (h - 1); Some (t, h')) ps
      end
  | _ => None
  end.

Definition is_jump (op : unionOperation) : bool :=
  match Kind op with
  | operationKindUnreachable | operationKindBr | operationKindBrIf | operationKindBrTable => true
  | _ => false
  end.

(** ** Resolved code *)
Definition succs (op : unionOperation) (pc h : Z) : option (list (Z * Z)) :=
  if is_jump op then jumps op h else (fun h' => [(pc + 1, h')]) <$> straight op h.

Inductive hreach (code : list unionOperation) (h0 : Z) : Z -> Z -> Prop :=
| hreach_entry : hreach code h0 0 h0
| hreach_step pc h op l pc' h' :
    hreach code h0 pc h -> code !! Z.to_nat pc = Some op -> succs op pc h = Some l ->
    (pc', h') ∈ l -> hreach code h0 pc' h'.

(** A call never takes more than there is, stays inside the code until it
    returns, and returns with the words of its results. *)
Definition safe (code : list unionOperation) (params results : Z) : Prop :=
  forall pc h, hreach code params pc h ->
    (pc = MaxUint64 /\ h = results) \/
    (0 <= pc < len code /\ exists op l, code !! Z.to_nat pc = Some op /\ succs op pc h = Some l).

(** ** Code with labels *)
Section labels.
Context (results : Z).

Definition arrives (H : gmap Z Z) (t : Z * Z) : bool :=
  let '(l, h) := t in
  if IsReturnTarget l then h =? results else bool_decide (H !! l = Some h).

(** From the height before an operation ([None]: it is not reached from the
    one before) to the height after it. *)
Definition flow (H : gmap Z Z) (h : option Z) (op : unionOperation) : option (option Z) :=
  match Kind op, h with
  | operationKindLabel, Some h => if bool_decide (H !! U1 op = Some h) then Some (Some h) else None
  | operationKindLabel, None => Some <$> H !! U1 op
  | _, None => None
  | _, Some h =>
      if is_jump op then
        ts ← jumps op h; if forallb (arrives H) ts then Some None else None
      else Some <$> straight op h
  end.
Fixpoint flows (H : gmap Z Z) (h : option Z) (ops : list unionOperation) : option (option Z) :=
  match ops with [] => Some h | op :: ops => h' ← flow H h op; flows H h' ops end.

(** The labels an operation may branch to, and those it places. *)
Definition targets (op : unionOperation) : list Z :=
  match Kind op with
  | operationKindBr => [U1 op]
  | operationKindBrIf => [U1 op; U2 op]
  | operationKindBrTable => match pairs (Us op) with Some ps => fst <$> ps | None => [] end
  | _ => []
  end.
Definition placed (op : unionOperation) : list Z :=
  match Kind op with operationKindLabel => [U1 op] | _ => [] end.

End labels.
End flow.

(** ** Labels *)
Definition label_fits (l : Z) : Prop := l = newLabel (label_Kind l) (label_FrameID l).
Lemma label_inj l l' : label_fits l -> label_fits l' ->
  label_Kind l = label_Kind l' -> label_FrameID l = label_FrameID l' -> l = l'.
Proof. unfold label_fits. congruence. Qed.

Lemma newLabel_parts k id : 0 <= k < 256 -> in_u 32 id ->
  label_Kind (newLabel k id) = k /\ label_FrameID (newLabel k id) = id.
Proof.
  intros Hk [H0 H1]. unfold newLabel, label_Kind, label_FrameID, u8, u32, wrapu.
  assert (Z.lor k (Z.shiftl id 32) = k + id * 2 ^ 32) as ->.
  { rewrite <-Z.shiftl_mul_pow2 by lia. symmetry. rewrite <-Z.lxor_lor; [apply Z.add_nocarry_lxor|].
    all: apply Z.bits_inj'; intros n Hn; rewrite Z.land_spec, Z.bits_0, Z.shiftl_spec by lia.
    all: destruct (Z.lt_ge_cases n 32); [rewrite (Z.testbit_neg_r id) by lia; apply andb_false_r|].
    all: rewrite (Z.bits_above_log2 k n); [done|lia|].
    all: destruct (Z.eq_dec k 0) as [->|]; [cbn; lia|].
    all: apply Z.le_lt_trans with (Z.log2 255); [apply Z.log2_le_mono; lia|cbn; lia]. }
  rewrite Z.shiftr_div_pow2 by lia. change (2 ^ 32) with 4294967296 in *. change (2 ^ 8) with 256.
  split.
  - rewrite Z.mod_add, (Z.mod_small k) by lia. apply Z.mod_small. lia.
  - rewrite Z.div_add, Z.div_small by lia. apply Z.mod_small. lia.
Qed.
Lemma newLabel_fits k id : 0 <= k < 256 -> in_u 32 id -> label_fits (newLabel k id).
Proof. intros Hk Hi. unfold label_fits. destruct (newLabel_parts k id Hk Hi) as [-> ->]. done. Qed.
Lemma newLabel_inj k id k' id' : 0 <= k < 256 -> 0 <= k' < 256 -> in_u 32 id -> in_u 32 id' ->
  newLabel k id = newLabel k' id' -> k = k' /\ id = id'.
Proof.
  intros Hk Hk' Hi Hi' E. destruct (newLabel_parts k id Hk Hi) as [A B].
  destruct (newLabel_parts k' id' Hk' Hi') as [A' B']. rewrite E in A, B. split; congruence.
Qed.

(** ** Resolving labels *)
Definition placed_at (ops : list unionOperation) (l a : Z) : Prop :=
  0 <= a /\ exists op, ops !! Z.to_nat a = Some op /\ Kind op = operationKindLabel /\ U1 op = l.
Definition resolved (rs : resolutions) (pre : list unionOperation) : Prop :=
  forall l, l ∈ (pre ≫= placed) -> exists a,
    default [] (rs !! label_Kind l) !! Z.to_nat (label_FrameID l) = Some a /\ placed_at pre l a.

Lemma expand_length l n : 0 <= n -> n <= len (expand l n).
Proof.
  intros Hn. unfold expand. destruct (Z.ltb_spec (len l) n); [|lia]. rewrite len_app.
  unfold len at 2. rewrite length_replicate. pose proof (len_nonneg l). lia.
Qed.
Lemma expand_lookup l n i x : l !! i = Some x -> expand l n !! i = Some x.
Proof. intros H. unfold expand. destruct (_ <? _); [|done]. by apply lookup_app_l_Some. Qed.
Lemma placed_at_app ops ops' l a : placed_at ops l a -> placed_at (ops ++ ops') l a.
Proof.
  intros (? & op & Hop & ?). split; [done|]. exists op. split; [|done]. by apply lookup_app_l_Some.
Qed.

Definition is_label (op : unionOperation) : bool :=
  match Kind op with operationKindLabel => true | _ => false end.
Lemma is_label_cases op : Kind op = operationKindLabel \/ Kind op <> operationKindLabel.
Proof. destruct (Kind op); first [left; reflexivity|right; discriminate]. Qed.

Lemma resolveLabel_ok rs pre op :
  resolved rs pre -> Forall label_fits ((pre ++ [op]) ≫= placed) ->
  resolved (resolveLabel rs (length pre) op) (pre ++ [op]).
Proof.
  intros Hr Hf l Hl. rewrite bind_app in Hl. apply elem_of_app in Hl.
  unfold resolveLabel. destruct (is_label_cases op) as [Hk|Hk].
  2:{ replace (match Kind op with operationKindLabel => _ | _ => rs end) with rs by (by destruct (Kind op)).
      destruct Hl as [Hl|Hl].
      - destruct (Hr l Hl) as (a & Ha & Hp). exists a. split; [done|]. by apply placed_at_app.
      - exfalso. cbn in Hl. rewrite app_nil_r in Hl. unfold placed in Hl. destruct (Kind op); try done;
        by apply elem_of_nil in Hl. }
  rewrite Hk. cbv zeta. set (k' := label_Kind (U1 op)). set (f' := label_FrameID (U1 op)).
  assert (0 <= f') as Hf' by (apply (wrapu_range 32); lia).
  assert (Hlen : (Z.to_nat f' < length (expand (default [] (rs !! k')) (f' + 1)))%nat).
  { pose proof (expand_length (default [] (rs !! k')) (f' + 1) ltac:(lia)). unfold len in *. lia. }
  assert (placed_at (pre ++ [op]) (U1 op) (Z.of_nat (length pre))) as Hnew.
  { split; [lia|]. exists op. rewrite Nat2Z.id. by rewrite lookup_app_r, Nat.sub_diag by lia. }
  destruct (decide (l = U1 op)) as [->|Hne].
  - exists (Z.of_nat (length pre)). split; [|done]. fold k' f'. rewrite lookup_insert_eq. cbn [default id].
    by rewrite list_lookup_insert_eq.
  - destruct Hl as [Hl|Hl].
    2:{ exfalso. cbn in Hl. rewrite app_nil_r in Hl. unfold placed in Hl. rewrite Hk in Hl.
        apply list_elem_of_singleton in Hl. done. }
    destruct (Hr l Hl) as (a & Ha & Hp). exists a. split; [|by apply placed_at_app].
    assert (label_fits l /\ label_fits (U1 op)) as [Fl Fo].
    { rewrite Forall_forall in Hf. split; apply Hf; rewrite bind_app; apply elem_of_app; [by left|right].
      cbn. rewrite app_nil_r. unfold placed. rewrite Hk. by apply list_elem_of_singleton. }
    destruct (decide (label_Kind l = k')) as [E|E].
    + rewrite E, lookup_insert_eq. cbn [default id]. rewrite list_lookup_insert_ne.
      * rewrite <-E. by apply expand_lookup.
      * intros E'. apply Hne. apply label_inj; [done..|].
        assert (0 <= label_FrameID l) by (apply (wrapu_range 32); lia). lia.
    + by rewrite lookup_insert_ne.
Qed.
Lemma resolveLabels_ok rs pre ops :
  resolved rs pre -> Forall label_fits ((pre ++ ops) ≫= placed) ->
  resolved (resolveLabels rs (length pre) ops) (pre ++ ops).
Proof.
  revert rs pre. induction ops as [|op ops IH]; intros rs pre Hr Hf; cbn [resolveLabels].
  { by rewrite app_nil_r. }
  replace (pre ++ op :: ops) with ((pre ++ [op]) ++ ops) in * by (by rewrite <-app_assoc).
  replace (S (length pre)) with (length (pre ++ [op])) by (rewrite length_app; cbn; lia).
  apply IH; [|done]. apply resolveLabel_ok; [done|].
  rewrite bind_app in Hf. by apply Forall_app in Hf as [? _].
Qed.

Definition goes_to (ops : list unionOperation) (l a : Z) : Prop :=
  (IsReturnTarget l = true /\ a = MaxUint64) \/ (IsReturnTarget l = false /\ placed_at ops l a).

Lemma setLabelAddress_ok rs ops l :
  resolved rs ops -> (IsReturnTarget l = true \/ l ∈ (ops ≫= placed)) ->
  exists a, setLabelAddress rs l = Ok a.
Proof.
  intros Hr Hl. unfold setLabelAddress. destruct (IsReturnTarget l); [by eexists|].
  destruct Hl as [|Hl]; [done|]. destruct (Hr l Hl) as (a & Ha & _). unfold at_. rewrite Ha. by eexists.
Qed.
Lemma setLabelAddress_goes rs ops l a :
  resolved rs ops -> (IsReturnTarget l = true \/ l ∈ (ops ≫= placed)) ->
  setLabelAddress rs l = Ok a -> goes_to ops l a.
Proof.
  intros Hr Hl H. unfold setLabelAddress in H. destruct (IsReturnTarget l) eqn:E; [left|right].
  { by injection H as <-. }
  destruct Hl as [|Hl]; [done|]. destruct (Hr l Hl) as (a' & Ha & Hp). unfold at_ in H. rewrite Ha in H.
  by injection H as <-.
Qed.

(** Targets that differ only by what labels are resolved to. *)
Definition resolves (rs : resolutions) (t t' : Z * Z) : Prop :=
  t.2 = t'.2 /\ setLabelAddress rs t.1 = Ok t'.1.

Lemma pairs_ind (P : list Z -> Prop) :
  P [] -> (forall t, P [t]) -> (forall t d us, P us -> P (t :: d :: us)) -> forall us, P us.
Proof.
  intros H0 H1 H2. fix IH 1. intros [|t [|d us]]; [exact H0|apply H1|]. apply H2, IH.
Qed.
Lemma pairs_lookup us ps : pairs us = Some ps -> length us = (2 * length ps)%nat /\
  forall i t d, ps !! i = Some (t, d) -> us !! (2 * i)%nat = Some t /\ us !! S (2 * i) = Some d.
Proof.
  revert ps. induction us as [|t|t d us IH] using pairs_ind; intros ps Hp; [by injection Hp as <-|done|].
  cbn [pairs] in Hp. destruct (pairs us) as [ps0|]; [|done]. injection Hp as <-.
  destruct (IH ps0 eq_refl) as [IHl IHi]. split; [cbn; lia|]. intros [|i] t' d' Hi; [by injection Hi as -> ->|].
  replace (2 * S i)%nat with (S (S (2 * i))) by lia. by apply IHi.
Qed.
Lemma setTable_pairs rs us ps :
  pairs us = Some ps -> Forall (fun t => exists a, setLabelAddress rs t.1 = Ok a) ps ->
  exists us' ps', setTable rs us = Ok us' /\ pairs us' = Some ps' /\ Forall2 (resolves rs) ps ps'.
Proof.
  revert ps. induction us as [|t|t d us IH] using pairs_ind; intros ps Hp Hf; [|done|].
  { injection Hp as <-. exists [], []. split_and!; [done..|constructor]. }
  cbn [pairs] in Hp. destruct (pairs us) as [ps0|] eqn:E; [|done]. injection Hp as <-.
  apply Forall_cons in Hf as [[a Ha] Hf]. destruct (IH ps0 eq_refl Hf) as (us' & ps' & Hs & Hp' & H2).
  exists (a :: d :: us'), ((a, d) :: ps'). cbn [setTable pairs fst] in *. rewrite Ha, Hs, Hp'.
  split_and!; [done..|]. by constructor.
Qed.

Lemma setTargets_plain rs op : is_jump op = false -> setTargets rs op = Ok op.
Proof. unfold setTargets, is_jump. by destruct (Kind op). Qed.
Lemma dropped_table h ps ps' ts rs :
  Forall2 (resolves rs) ps ps' ->
  mapM (fun '(t, d) => h' ← dropped d h; Some (t, h')) ps = Some ts ->
  exists ts', mapM (fun '(t, d) => h' ← dropped d h; Some (t, h')) ps' = Some ts' /\
    Forall2 (resolves rs) ts ts'.
Proof.
  intros H2. revert ts. induction H2 as [|[t d] [t' d'] ps ps' [E Ha] _ IH]; intros ts Hts; cbn in *.
  { injection Hts as <-. eexists. split; [done|constructor]. }
  subst d'. destruct (dropped d h) as [h'|]; [|done]. cbn in *.
  destruct (mapM _ ps) as [ts0|] eqn:E; [|done]. injection Hts as <-.
  destruct (IH ts0 eq_refl) as (ts' & E' & H2'). exists ((t', h') :: ts'). cbn. rewrite E'. cbn.
  split; [done|]. by constructor.
Qed.
Lemma mapM_firsts {h} ps ts :
  mapM (fun '(t, d) => h' ← dropped d h; Some (t, h')) ps = Some ts -> fst <$> ts = (fst <$> ps : list Z).
Proof.
  revert ts. induction ps as [|[t d] ps IH]; intros ts H; cbn in *; [by injection H as <-|].
  destruct (dropped d h) as [h'|]; [|done]. cbn in *.
  destruct (mapM _ ps) as [ts0|]; [|done]. injection H as <-. cbn. f_equal. by apply IH.
Qed.

(** An operation whose targets resolve, and where it goes then. *)
Lemma setTargets_jumps rs op h ts :
  jumps op h = Some ts -> (forall l, l ∈ targets op -> exists a, setLabelAddress rs l = Ok a) ->
  exists op' ts', setTargets rs op = Ok op' /\ is_jump op' = is_jump op /\ jumps op' h = Some ts' /\
    Forall2 (resolves rs) ts ts' /\ Forall (fun t => t.1 ∈ targets op) ts.
Proof.
  unfold jumps, targets, setTargets, is_jump. intros Hj Ht. destruct op as [k b1 b2 b3 u1 u2 u3 us].
  cbn [Kind U1 U2 U3 Us B1 B2 B3] in *.
  destruct k; try done.
  - injection Hj as <-. eexists _, []. split_and!; try done; constructor.
  - injection Hj as <-. destruct (Ht u1) as [a Ha]; [by apply list_elem_of_here|]. rewrite Ha.
    eexists _, [(a, h)]. split_and!; try done; repeat constructor; done.
  - destruct (h <? 1) eqn:Eh; [done|]. destruct (dropped u3 (h - 1)) as [h'|] eqn:Ed; [|done]. injection Hj as <-.
    destruct (Ht u1) as [a Ha]; [by apply list_elem_of_here|].
    destruct (Ht u2) as [b Hb]; [apply list_elem_of_further, list_elem_of_here|]. rewrite Ha, Hb.
    eexists _, [(a, h'); (b, h - 1)]. split; [reflexivity|]. cbn [Kind U1 U2 U3 Us]. rewrite Ed.
    split_and!; try done; repeat constructor; done.
  - destruct ((h <? 1) || (2 ^ 62 <=? len us)) eqn:Eh; [done|]. destruct (pairs us) as [ps|] eqn:Ep; [|done]. cbn [mbind option_bind] in Hj.
    destruct (setTable_pairs rs us ps Ep) as (us' & ps' & Es & Ep' & H2).
    { apply Forall_forall. intros t Hin. apply Ht. by apply list_elem_of_fmap_2. }
    assert (ps <> []) as Hps by (by destruct ps).
    assert (mapM (fun '(t, d) => h' ← dropped d (h - 1); Some (t, h')) ps = Some ts) as Hm by (by destruct ps).
    destruct (dropped_table _ _ _ _ _ H2 Hm) as (ts' & Em & H2'). rewrite Es.
    assert (len us' = len us) as El.
    { unfold len. rewrite (proj1 (pairs_lookup _ _ Ep)), (proj1 (pairs_lookup _ _ Ep')), (Forall2_length _ _ _ H2). done. }
    eexists _, ts'. split; [reflexivity|]. split_and!; [done| |done|].
    + cbn [Kind U1 U2 U3 Us]. rewrite El, Eh, Ep'. cbn [mbind option_bind]. inversion H2; subst; [done|]. exact Em.
    + apply Forall_forall. intros t Hin. rewrite <-(mapM_firsts _ _ Hm). by apply list_elem_of_fmap_2.
Qed.

(** ** From flows to safety *)
Section safety.
Context (types : list FunctionType) (funcs : list Z) (globals : list GlobalType) (results : Z)
  (H : gmap Z Z).
Notation flow := (flow types funcs globals results H).
Notation flows := (flows types funcs globals results H).

Lemma flows_app h ops ops' : flows h (ops ++ ops') = h' ← flows h ops; flows h' ops'.
Proof.
  revert h. induction ops as [|op ops IH]; intros h; [done|]. cbn.
  destruct (flow h op) as [h'|]; [|done]. cbn. apply IH.
Qed.
Lemma flows_take h ops i op hf :
  flows h ops = Some hf -> ops !! i = Some op ->
  exists h1 h2, flows h (take i ops) = Some h1 /\ flow h1 op = Some h2 /\
    flows h (take (S i) ops) = Some h2.
Proof.
  intros Hf Hi. rewrite <-(take_drop_middle _ _ _ Hi), flows_app in Hf.
  destruct (flows h (take i ops)) as [h1|] eqn:E1; [|done]. cbn in Hf.
  destruct (flow h1 op) as [h2|] eqn:E2; [|done]. exists h1, h2. split_and!; [done..|].
  rewrite (take_S_r _ _ _ Hi), flows_app, E1. cbn. by rewrite E2.
Qed.

(** A jump needs a height, and its targets arrive. *)
Lemma flow_jump h op h' : flow h op = Some h' -> is_jump op = true ->
  exists n ts, h = Some n /\ h' = None /\ jumps op n = Some ts /\ forallb (arrives results H) ts = true.
Proof.
  unfold LowerFlow.flow, is_jump. intros Hf Hj. destruct h as [n|]; [|by destruct (Kind op)].
  destruct (jumps op n) as [ts|] eqn:E; [|by destruct (Kind op)].
  destruct (forallb (arrives results H) ts) eqn:Ea.
  - exists n, ts. destruct (Kind op); try done; cbn in Hf; rewrite Ea in Hf; by injection Hf as <-.
  - destruct (Kind op); try done; cbn in Hf; by rewrite Ea in Hf.
Qed.
Lemma flow_straight h op h' : flow (Some h) op = Some h' -> is_jump op = false ->
  Kind op <> operationKindLabel -> exists n, h' = Some n /\ straight types funcs globals op h = Some n.
Proof.
  unfold LowerFlow.flow. intros Hf Hj Hk. rewrite Hj in Hf.
  destruct (straight types funcs globals op h) as [n|] eqn:E; [|by destruct (Kind op)].
  exists n. split; [|done]. destruct (Kind op); first [by injection Hf as <-|done].
Qed.
Lemma straight_label op h : Kind op = operationKindLabel -> 0 <= h ->
  straight types funcs globals op h = Some h.
Proof.
  intros Hk Hh. unfold straight, effect, known, words_of. rewrite Hk. cbn. destruct (Z.leb_spec 0 h); [f_equal; lia|lia].
Qed.

Context (ops code : list unionOperation) (h0 : Z).
Hypothesis Hflows : flows (Some h0) ops = Some None.
Hypothesis Hplaced : Forall label_fits (ops ≫= placed).
Hypothesis Htargets : forall l, l ∈ (ops ≫= targets) -> IsReturnTarget l = true \/ l ∈ (ops ≫= placed).
Hypothesis Hpos : forall l n, H !! l = Some n -> 0 <= n.
Notation rs := (resolveLabels ∅ 0 ops).

Lemma rs_resolved : resolved rs ops.
Proof.
  apply (resolveLabels_ok ∅ [] ops); [|done]. intros l Hl. by apply elem_of_nil in Hl.
Qed.
Lemma targets_resolve i op l : ops !! i = Some op -> l ∈ targets op ->
  IsReturnTarget l = true \/ l ∈ (ops ≫= placed).
Proof.
  intros Hi Hl. apply Htargets. apply list_elem_of_bind. exists op. split; [done|]. by eapply list_elem_of_lookup_2.
Qed.
Lemma setTargets_each i op : ops !! i = Some op -> exists op', setTargets rs op = Ok op'.
Proof.
  intros Hi. destruct (is_jump op) eqn:Hj.
  - destruct (flows_take _ _ _ _ _ Hflows Hi) as (h1 & h2 & _ & Hf & _).
    destruct (flow_jump _ _ _ Hf Hj) as (n & ts & _ & _ & Hjs & _).
    destruct (setTargets_jumps rs op n ts Hjs) as (op' & ? & E & _); [|by exists op'].
    intros l Hl. apply (setLabelAddress_ok _ ops); [apply rs_resolved|]. by eapply targets_resolve.
  - exists op. by apply setTargets_plain.
Qed.
Lemma mapm_ok {E A B} (f : A -> result E B) l :
  (forall i x, l !! i = Some x -> exists y, f x = Ok y) -> exists ys, mapm f l = Ok ys.
Proof.
  induction l as [|x l IH]; intros Hf; [by eexists|]. cbn. destruct (Hf 0%nat x eq_refl) as [y ->].
  destruct IH as [ys ->]; [|by eexists]. intros i z Hz. by apply (Hf (S i)).
Qed.
Lemma mapm_lookup {E A B} (f : A -> result E B) l ys i y :
  mapm f l = Ok ys -> ys !! i = Some y -> exists x, l !! i = Some x /\ f x = Ok y.
Proof.
  revert ys i. induction l as [|x l IH]; intros ys i Hm Hi; cbn in Hm; [injection Hm as <-; done|].
  destruct (f x) as [y0|] eqn:E0; [|done]. destruct (mapm f l) as [ys0|]; [|done]. injection Hm as <-.
  destruct i as [|i]; cbn in *; [injection Hi as ->; eauto|]. by eapply IH.
Qed.
Lemma lowerIR_total : exists code, lowerIR ops = Ok code.
Proof. apply mapm_ok. intros i op Hi. by eapply setTargets_each. Qed.

Hypothesis Hcode : lowerIR ops = Ok code.
Hypothesis Hlen64 : Z.of_nat (length code) < 2 ^ 64 - 1.

(** The height with which an address is executed. *)
Definition entered (pc h : Z) : Prop :=
  0 <= pc /\ exists op, ops !! Z.to_nat pc = Some op /\
    (if is_label op then H !! U1 op = Some h else flows (Some h0) (take (Z.to_nat pc) ops) = Some (Some h)).
Lemma entered_next i h :
  0 <= i -> flows (Some h0) (take (Z.to_nat i) ops) = Some (Some h) -> entered i h.
Proof.
  intros Hi Hf. destruct (ops !! Z.to_nat i) as [op|] eqn:E.
  - split; [done|]. exists op. split; [done|]. destruct (is_label op) eqn:El; [|done].
    destruct (flows_take _ _ _ _ _ Hflows E) as (h1 & h2 & E1 & E2 & _). rewrite Hf in E1. injection E1 as <-.
    unfold LowerFlow.flow, is_label in *. destruct (Kind op); try done.
    case_bool_decide; done.
  - apply lookup_ge_None in E. rewrite take_ge in Hf by lia. congruence.
Qed.
Lemma entered_label l a h : placed_at ops l a -> H !! l = Some h -> entered a h.
Proof.
  intros (Ha & op & Hop & Hk & HU) Hh. split; [done|]. exists op. split; [done|].
  unfold is_label. rewrite Hk, HU. done.
Qed.


Lemma succs_ok pc h :
  entered pc h -> exists op l, code !! Z.to_nat pc = Some op /\
    succs types funcs globals op pc h = Some l /\
    Forall (fun t => (t.1 = MaxUint64 /\ t.2 = results) \/ entered t.1 t.2) l.
Proof.
  intros (H0 & op & Hop & Hin).
  destruct (lookup_lt_is_Some_2 code (Z.to_nat pc)) as [op' Hop'].
  { rewrite (mapm_length _ _ _ Hcode). by eapply lookup_lt_Some. }
  destruct (mapm_lookup _ _ _ _ _ Hcode Hop') as (op1 & E1 & Hset).
  rewrite Hop in E1. injection E1 as <-. exists op'.
  destruct (flows_take _ _ _ _ _ Hflows Hop) as (h1 & h2 & F1 & F2 & F3). unfold succs.
  destruct (is_jump op) eqn:Hj.
  - assert (is_label op = false) as Hl by (unfold is_label, is_jump in *; by destruct (Kind op)).
    rewrite Hl, F1 in Hin. injection Hin as ->.
    destruct (flow_jump _ _ _ F2 Hj) as (n & ts & [= <-] & -> & Hjs & Harr).
    destruct (setTargets_jumps rs op h ts Hjs) as (op2 & ts' & E2 & Hj2 & Hjs2 & H2 & Hts).
    { intros l Hl'. apply (setLabelAddress_ok _ ops); [apply rs_resolved|]. by eapply targets_resolve. }
    rewrite Hset in E2. injection E2 as <-. exists ts'. rewrite Hj2, Hj. split_and!; [done..|].
    apply Forall_forall. intros [a ha] Hin'. apply list_elem_of_lookup in Hin' as [k Hk].
    destruct (Forall2_lookup_r _ _ _ _ _ H2 Hk) as ([l hl] & Hkl & [Eh Ea]). cbn [fst snd] in *. subst hl.
    assert (arrives results H (l, ha) = true) as Harr1.
    { rewrite forallb_forall in Harr. apply Harr. apply list_elem_of_In. by eapply list_elem_of_lookup_2. }
    assert (l ∈ targets op) as Htl by (apply (Forall_lookup_1 _ _ _ _ Hts Hkl)).
    destruct (setLabelAddress_goes rs ops l a rs_resolved (targets_resolve _ _ _ Hop Htl) Ea) as [[Er ->]|[Er Hp]];
      unfold arrives in Harr1; rewrite Er in Harr1.
    + left. split; [done|]. by apply Z.eqb_eq in Harr1.
    + right. eapply entered_label; [done|]. by apply bool_decide_eq_true in Harr1.
  - assert (op' = op) as -> by (rewrite (setTargets_plain rs op Hj) in Hset; congruence).
    rewrite Hj. destruct (is_label_cases op) as [Hk|Hk].
    + assert (is_label op = true) as Hl by (unfold is_label; by rewrite Hk). rewrite Hl in Hin.
      rewrite straight_label by (done || by eapply Hpos). eexists. split_and!; [done..|].
      constructor; [|constructor]. right. cbn [fst snd]. apply entered_next; [lia|].
      rewrite Z2Nat.inj_add, Nat.add_1_r by lia. rewrite F3.
      unfold LowerFlow.flow in F2. rewrite Hk in F2. destruct h1 as [n|].
      * case_bool_decide; [|done]. injection F2 as <-. congruence.
      * rewrite Hin in F2. by injection F2 as <-.
    + assert (is_label op = false) as Hl by (unfold is_label; by destruct (Kind op)).
      rewrite Hl, F1 in Hin. injection Hin as ->.
      destruct (flow_straight _ _ _ F2 Hj Hk) as (n & -> & ->). eexists. split_and!; [done..|].
      constructor; [|constructor]. right. cbn [fst snd]. apply entered_next; [lia|].
      rewrite Z2Nat.inj_add, Nat.add_1_r by lia. done.
Qed.

Lemma flow_safe : safe types funcs globals code h0 results.
Proof.
  intros pc h Hr.
  assert ((pc = MaxUint64 /\ h = results) \/ entered pc h) as [Hm|He].
  { induction Hr as [|pc h op l pc' h' Hr IH Hop Hs Hin].
    - right. by apply entered_next.
    - destruct IH as [[-> ->]|He].
      + exfalso. unfold MaxUint64 in Hop. pose proof (lookup_lt_Some _ _ _ Hop) as Hlt.
        pose proof Hlen64. lia.
      + destruct (succs_ok pc h He) as (op' & l' & Hop' & Hs' & Hl). rewrite Hop in Hop'. injection Hop' as <-.
        rewrite Hs in Hs'. injection Hs' as <-. rewrite Forall_forall in Hl. apply (Hl _ Hin). }
  - by left.
  - right. destruct (succs_ok pc h He) as (op & l & Hop & Hs & _). pose proof He as [? _].
    pose proof (lookup_lt_Some _ _ _ Hop). unfold len. split; [lia|]. by exists op, l.
Qed.
End safety.

End LowerFlow.
