(* ===== verification/LowerRun.v ===== *)
(** * Lowering typed instructions without control flow

    One iteration of the loop of [compile] on an instruction that [FuncTyping]
    types: in reachable code it emits operations that take the words of the
    operands and leave those of the results; in unreachable code it only
    advances.  [LowerSound] composes these steps along a typed body. *)
From S2P Require Import Prelude Leb128 GoStd Opcodes WasmBinary WasmBinarySpec FuncValidation WasmModule FuncTyping FuncSoundness Operations Signature LowerTables Lower LowerFlow.

Module LowerRun.
Import WasmBinary WasmBinarySpec FuncTyping Lower LowerFlow.
Import FuncSoundness(starts).

(** ** Types and words *)
Definition ut (t : Z) : Z := match wasmValueTypeTounsignedType t with Ok u => u | Err _ => 0 end.
Definition size (st : list Z) : Z := foldr (fun t n => words t + n) 0 st.
Definition vsize (ts : list Z) : Z := size (map ut ts).

Lemma size_app a b : size (a ++ b) = size a + size b.
Proof.
  induction a as [|x a IH]; [done|]. change (words x + size (a ++ b) = words x + size a + size b). lia.
Qed.
Lemma size_cons t st : size (t :: st) = words t + size st.
Proof. done. Qed.
Lemma size_rev a : size (rev a) = size a.
Proof. induction a as [|x a IH]; [done|]. cbn [rev]. rewrite size_app, IH, !size_cons. cbn [size foldr]. lia. Qed.
Lemma vsize_app a b : vsize (a ++ b) = vsize a + vsize b.
Proof. unfold vsize. by rewrite map_app, size_app. Qed.
Lemma vsize_rev a : vsize (rev a) = vsize a.
Proof. unfold vsize. by rewrite map_rev, size_rev. Qed.

Lemma value_type_cases t : isValueType t = true ->
  t = ValueTypeI32 \/ t = ValueTypeI64 \/ t = ValueTypeF32 \/ t = ValueTypeF64 \/ t = ValueTypeV128 \/
  t = ValueTypeFuncref \/ t = ValueTypeExternref.
Proof.
  unfold isValueType. intros H. repeat (apply orb_true_iff in H as [H|H]); apply Z.eqb_eq in H; auto 10.
Qed.
Lemma ut_ok t : isValueType t = true -> wasmValueTypeTounsignedType t = Ok (ut t).
Proof. intros H. destruct (value_type_cases t H) as [->|[->|[->|[->|[->|[->| ->]]]]]]; done. Qed.
Lemma ut_range t : 0 <= ut t < 5.
Proof.
  unfold ut, wasmValueTypeTounsignedType, unsignedTypeI32, unsignedTypeI64, unsignedTypeF32, unsignedTypeF64,
    unsignedTypeV128. repeat destruct (_ =? _); cbn; lia.
Qed.
Lemma ut_vector t : (ut t =? unsignedTypeV128) = (t =? ValueTypeV128).
Proof.
  unfold ut, wasmValueTypeTounsignedType.
  destruct (Z.eqb_spec t ValueTypeI32) as [->|]; [done|].
  destruct (Z.eqb_spec t ValueTypeI64) as [->|]; [done|].
  destruct (Z.eqb_spec t ValueTypeExternref) as [->|]; [done|].
  destruct (Z.eqb_spec t ValueTypeFuncref) as [->|]; [done|]. cbn [orb].
  destruct (Z.eqb_spec t ValueTypeF32) as [->|]; [done|].
  destruct (Z.eqb_spec t ValueTypeF64) as [->|]; [done|].
  by destruct (Z.eqb_spec t ValueTypeV128).
Qed.
Lemma words_ut t : words (ut t) = if t =? ValueTypeV128 then 2 else 1.
Proof.
  rewrite <-ut_vector. destruct (Z.eqb_spec (ut t) unsignedTypeV128) as [->|Hn]; [done|].
  pose proof (ut_range t) as Hr. unfold words, unsignedTypeV128 in *.
  assert (ut t = 0 \/ ut t = 1 \/ ut t = 2 \/ ut t = 3) as [->|[->|[->| ->]]] by lia; done.
Qed.
Lemma vsize_cons t ts : vsize (t :: ts) = (if t =? ValueTypeV128 then 2 else 1) + vsize ts.
Proof. unfold vsize. cbn [map]. by rewrite size_cons, words_ut. Qed.
Lemma vsize_nonneg ts : 0 <= vsize ts.
Proof. induction ts as [|t ts IH]; [done|]. rewrite vsize_cons. destruct (_ =? _); lia. Qed.
Lemma numInUint64_vsize ts : WasmModule.numInUint64 ts = vsize ts.
Proof.
  unfold WasmModule.numInUint64. enough (forall n, fold_left (fun n tp => if tp =? ValueTypeV128 then n + 1 + 1 else n + 1) ts n = n + vsize ts)
    as E by (rewrite E; lia).
  induction ts as [|t ts IH]; intros n; cbn [fold_left]; [cbn; lia|]. rewrite IH, vsize_cons.
  destruct (_ =? _); lia.
Qed.
Lemma unsignedTypes_ok ts : value_types ts -> unsignedTypes ts = Ok (map ut ts).
Proof.
  unfold unsignedTypes. intros H. enough (forall acc, foldm (fun ts vt => let! t := wasmValueTypeTounsignedType vt in Ok (ts ++ [t])) acc ts = Ok (acc ++ map ut ts))
    as E by apply E.
  induction H as [|t ts Ht _ IH]; intros acc; cbn [foldm map]; [by rewrite app_nil_r|].
  rewrite (ut_ok t Ht). rewrite IH, <-(assoc_L (++)). done.
Qed.

Lemma words_nonneg t : 0 <= t -> 1 <= words t.
Proof. intros H. unfold words. assert (0 <= Z.shiftr (Z.land unsignedTypeV128 t) 2); [|lia].
  apply Z.shiftr_nonneg, Z.land_nonneg. by left. Qed.

(** ** The stack of types *)
Lemma set_stack_set c a n b k : set_stack (set_stack c a n) b k = set_stack c b k.
Proof. done. Qed.
Lemma set_stack_same c st n : st = stack c -> n = stackLenInUint64 c -> set_stack c st n = c.
Proof. intros -> ->. by destruct c. Qed.
Lemma stackPushAll_ok ts c : value_types ts ->
  stackPushAll c ts = Ok (set_stack c (map ut (rev ts) ++ stack c) (stackLenInUint64 c + vsize ts)).
Proof.
  unfold stackPushAll. intros H. revert c. induction H as [|t ts Ht _ IH]; intros c; cbn [foldm].
  { f_equal. symmetry. apply set_stack_same; [done|]. change (vsize []) with 0. lia. }
  rewrite (ut_ok t Ht), IH. unfold stackPush. rewrite set_stack_set.
  cbn [stack stackLenInUint64 set_stack rev]. rewrite map_app, <-(assoc_L (++)). cbn [map app].
  do 2 f_equal. unfold vsize. cbn [map]. rewrite size_cons. lia.
Qed.
(** Operands without unknown types, as they are found on the stack. *)
Definition no_unknown (ts : list Z) : Prop := Forall (fun t => t <> unsignedTypeUnknown) ts.
Lemma ut_no_unknown ts : no_unknown (map ut ts).
Proof. apply Forall_fmap, Forall_true. intros t. cbn. pose proof (ut_range t). unfold unsignedTypeUnknown. lia. Qed.
Lemma popOperands_ok ts c outer tp : no_unknown ts -> stack c = ts ++ outer ->
  popOperands c tp ts = Ok (tp, set_stack c outer (stackLenInUint64 c - size ts)).
Proof.
  intros H. revert c. induction H as [|t ts Ht _ IH]; intros c Hs; cbn [popOperands].
  { do 2 f_equal. symmetry. apply set_stack_same; [done|]. cbn [size foldr]. lia. }
  unfold stackPop. rewrite Hs. cbn [app]. destruct (Z.eqb_spec t unsignedTypeUnknown); [done|].
  rewrite Z.eqb_refl. cbn [negb]. rewrite IH by done. rewrite set_stack_set. do 3 f_equal.
  cbn [stackLenInUint64 set_stack]. rewrite size_cons. lia.
Qed.
Lemma pushResults_ok ts c tp : no_unknown ts ->
  pushResults c tp ts = Ok (set_stack c (rev ts ++ stack c) (stackLenInUint64 c + size ts)).
Proof.
  intros H. revert c. induction H as [|t ts Ht _ IH]; intros c; cbn [pushResults].
  { f_equal. symmetry. apply set_stack_same; [done|]. cbn [size foldr]. lia. }
  destruct (Z.eqb_spec t unsignedTypeUnknown); [done|]. rewrite IH. unfold stackPush. rewrite set_stack_set.
  cbn [stack stackLenInUint64 set_stack rev]. rewrite <-(assoc_L (++)). cbn [app]. do 2 f_equal. rewrite size_cons. lia.
Qed.

(** ** Operations with a fixed effect *)
Lemma effect_any types funcs globals o o' p :
  effect [] [] [] o = Some p -> Kind o' = Kind o -> B3 o' = B3 o -> known o' = known o -> effect types funcs globals o' = Some p.
Proof.
  unfold effect. intros H Hk Hb Hn. rewrite Hn. destruct (known o); [|done]. unfold words_of in *. rewrite Hk, Hb. destruct (Kind o); try exact H; cbn in H;
    unfold global_words, type_words in H; rewrite ?lookup_nil in H; done.
Qed.

Section ops.
Context (types : list FunctionType) (funcs : list Z) (globals : list GlobalType) (results : Z).

(** Operations that pass from one height to another whatever the labels. *)
Definition runs (os : list unionOperation) (h h' : Z) : Prop :=
  (forall H, flows types funcs globals results H (Some h) os = Some (Some h')) /\ (os ≫= targets) = [].

Lemma runs_nil h : runs [] h h.
Proof. done. Qed.
Lemma runs_straight o h h' : is_jump o = false -> is_label o = false ->
  straight types funcs globals o h = Some h' -> runs [o] h h'.
Proof.
  intros Hj Hl Hs. split.
  - intros H. cbn. unfold flow. rewrite Hj, Hs. unfold is_label in Hl. by destruct (Kind o).
  - cbn. rewrite app_nil_r. unfold targets, is_jump in *. by destruct (Kind o).
Qed.
Lemma runs_app os os' h h1 h2 : runs os h h1 -> runs os' h1 h2 -> runs (os ++ os') h h2.
Proof.
  intros [A1 A2] [B1 B2]. split; [|by rewrite bind_app, A2].
  intros H. rewrite flows_app, A1. apply B1.
Qed.
Lemma runs_effect o i r h :
  effect types funcs globals o = Some (i, r) -> is_label o = false -> i <= h -> runs [o] h (h - i + r).
Proof.
  intros He Hl Hi. apply runs_straight; [|done|].
  - unfold effect, words_of, is_jump in *. destruct (known o); [|done]. by destruct (Kind o).
  - unfold straight. rewrite He. cbn. destruct (Z.leb_spec i h); [|lia].
    unfold effect, words_of in He. destruct (known o); [|done]. destruct (Kind o); done.
Qed.
End ops.

(** ** The tables of the lowering against the type system *)
Definition types_eqb (a b : list Z) : bool := bool_decide (a = b).
Definition sig_agrees (s : option signature) (ps rs : list Z) : bool :=
  match s with
  | Some s => types_eqb (sig_in s) (map ut (rev ps)) && types_eqb (sig_out s) (map ut rs)
  | None => false
  end.
Definition op_agrees (o : unionOperation) (ps rs : list Z) : bool :=
  bool_decide (effect [] [] [] o = Some (vsize ps, vsize rs)) && negb (is_label o).
(** Opcodes whose signature is not in the table of one-byte opcodes. *)
Definition special (op : Z) : bool :=
  existsb (Z.eqb op) [OpcodeCall; OpcodeCallIndirect; OpcodeLocalGet; OpcodeLocalSet; OpcodeLocalTee;
                      OpcodeGlobalGet; OpcodeGlobalSet; OpcodeMiscPrefix; OpcodeVecPrefix; OpcodeAtomicPrefix; OpcodeEnd].
Definition arg0 : memoryArg := mkMemArg 0 0.

Definition is_none {A} (o : option A) : bool := match o with None => true | Some _ => false end.
Definition numeric_lowered (op : Z) : bool :=
  match numeric_spec op with
  | None => true
  | Some (ps, rs) =>
      match case op main_plain with
      | Some o => sig_agrees (cases op main_signature) ps rs && op_agrees o ps rs && negb (special op)
      | None => false
      end
  end.
Definition memory_lowered (op : Z) : bool :=
  match memory_spec op with
  | None => true
  | Some (_, ps, rs) =>
      match case op main_plain, case op main_memory with
      | None, Some f => sig_agrees (cases op main_signature) ps rs && op_agrees (f arg0) ps rs && negb (special op)
      | _, _ => false
      end
  end.
Definition trunc_lowered (op : Z) : bool :=
  match trunc_spec op with
  | None => true
  | Some (t, r) =>
      match case op misc_plain with
      | Some o => sig_agrees (cases op misc_signature) [t] [r] && op_agrees o [t] [r]
      | None => false
      end
  end.
(** What the byte after the vector prefix is lowered to. *)
Definition vec_lowered (op : Z) : bool :=
  let plain ps rs :=
    match case op vec_plain with
    | Some o => sig_agrees (cases op vec_signature) ps rs && op_agrees o ps rs
    | None => false
    end in
  let memory ps rs :=
    match case op vec_plain, case op vec_memory with
    | None, Some f => sig_agrees (cases op vec_signature) ps rs && op_agrees (f arg0) ps rs
    | _, _ => false
    end in
  let memoryLane ps rs :=
    match case op vec_plain, case op vec_memory, case op vec_memoryLane with
    | None, None, Some f => sig_agrees (cases op vec_signature) ps rs && op_agrees (f 0 arg0) ps rs
    | _, _, _ => false
    end in
  let lane ps rs :=
    match case op vec_plain, case op vec_memory, case op vec_memoryLane, case op vec_lane with
    | None, None, None, Some f => sig_agrees (cases op vec_signature) ps rs && op_agrees (f 0) ps rs
    | _, _, _, _ => false
    end in
  (match vec_spec op with Some (ps, rs) => plain ps rs | None => true end) &&
  (if vec_load_spec op then memory [i32t] [v128t] else true) &&
  (if op =? 0x0b then memory [v128t; i32t] [] else true) &&
  (match load_lane_spec op with Some _ => memoryLane [v128t; i32t] [v128t] | None => true end) &&
  (match store_lane_spec op with Some _ => memoryLane [v128t; i32t] [] | None => true end) &&
  (match extract_spec op with Some (_, t) => lane [v128t] [t] | None => true end) &&
  (match replace_spec op with Some (_, t) => lane [t; v128t] [v128t] | None => true end) &&
  (match splat_spec op with Some t => plain [t] [v128t] | None => true end).
Definition atomic_lowered (op : Z) : bool :=
  match atomic_spec op with
  | None => true
  | Some (_, ps, rs) =>
      match case op atomic_memory with
      | Some f => sig_agrees (cases op atomic_signature) ps rs && op_agrees (f arg0) ps rs
      | None => false
      end
  end.
Definition lowered_at (op : Z) : bool :=
  numeric_lowered op && memory_lowered op && trunc_lowered op && vec_lowered op && atomic_lowered op.
Lemma lowered_all op : is_byte op -> lowered_at op = true.
Proof.
  intros H. apply (zrange_forallb lowered_at 0 256); [|done].
  vm_cast_no_check (@eq_refl bool true).
Qed.

(** What an entry emits does not depend on its immediates. *)
Definition same_kind (o o' : unionOperation) : Prop := Kind o = Kind o' /\ B3 o = B3 o' /\ known o = known o'.
Lemma case_Forall {A} (P : A -> Prop) op (table : list (Z * A)) a :
  Forall (fun e => P e.2) table -> case op table = Some a -> P a.
Proof.
  intros Hall Hc. induction Hall as [|[o g] l Hg _ IH]; cbn in Hc; [done|].
  destruct (op =? o); [by injection Hc as <-|auto].
Qed.
Lemma main_memory_kind op f : case op main_memory = Some f -> forall a, same_kind (f a) (f arg0).
Proof. apply (case_Forall (fun f => forall a, same_kind (f a) (f arg0))). repeat constructor. Qed.
Lemma vec_memory_kind op f : case op vec_memory = Some f -> forall a, same_kind (f a) (f arg0).
Proof. apply (case_Forall (fun f => forall a, same_kind (f a) (f arg0))). repeat constructor. Qed.
Lemma vec_memoryLane_kind op f : case op vec_memoryLane = Some f -> forall l a, same_kind (f l a) (f 0 arg0).
Proof. apply (case_Forall (fun f => forall l a, same_kind (f l a) (f 0 arg0))). repeat constructor. Qed.
Lemma vec_lane_kind op f : case op vec_lane = Some f -> forall l, same_kind (f l) (f 0).
Proof. apply (case_Forall (fun f => forall l, same_kind (f l) (f 0))). repeat constructor. Qed.
Lemma atomic_memory_kind op f : case op atomic_memory = Some f -> forall a, same_kind (f a) (f arg0).
Proof. apply (case_Forall (fun f => forall a, same_kind (f a) (f arg0))). repeat constructor. Qed.

(** What the checks give. *)
Lemma sig_agrees_ok s ps rs : sig_agrees s ps rs = true -> s = Some (mkSig (map ut (rev ps)) (map ut rs)).
Proof.
  unfold sig_agrees, types_eqb. destruct s as [[si so]|]; [|done].
  intros [H1%bool_decide_eq_true H2%bool_decide_eq_true]%andb_true_iff. cbn in *. by subst.
Qed.
Lemma op_agrees_ok types funcs globals results o o' ps rs h :
  op_agrees o ps rs = true -> same_kind o' o -> vsize ps <= h ->
  runs types funcs globals results [o'] h (h - vsize ps + vsize rs).
Proof.
  unfold op_agrees. intros [H1%bool_decide_eq_true H2%negb_true_iff]%andb_true_iff (Hk & Hb & Hn) Hh.
  apply runs_effect; [by eapply effect_any| |done]. unfold is_label in *. by rewrite Hk.
Qed.
Lemma same_kind_refl o : same_kind o o.
Proof. done. Qed.

(** ** One step of the loop *)
Section run.
Context (m : Module') (functions : list Z) (globals : list GlobalType) (memory : option Memory)
  (tables : list Table) (declared : gset Z) (functionType : FunctionType) (localTypes body : list Z)
  (features : Z) (ensureTermination needSourceOffset : bool) (bodyOffset : Z).

Notation heights := (localIndexToStackHeight callFrameStackSize functionType localTypes).
Notation handleInstruction := (handleInstruction (TypeSection m) functions globals features ensureTermination
  needSourceOffset bodyOffset functionType localTypes body heights).
Notation lower := (lower (TypeSection m) features ensureTermination needSourceOffset bodyOffset functionType
  localTypes body heights).
Notation emit := (emit needSourceOffset bodyOffset).
Notation applyToStack := (applyToStack (TypeSection m) functions globals functionType localTypes body).
Notation wasmOpcodeSignature := (wasmOpcodeSignature (TypeSection m) functions globals functionType localTypes body).
Notation plain := (plain false m functions globals memory tables declared functionType localTypes).
Notation runs := (runs (TypeSection m) functions globals (vsize (ft_Results functionType))).
Notation starts := (starts body).

Hypothesis Hbytes : bytes_ok body.

Definition lstep (c c' : compiler) : Prop :=
  controlFrames c <> [] /\ pc c < len body /\ handleInstruction c = Ok c'.

(** *** Reading *)
Lemma starts_byte i b bs : starts i (b :: bs) ->
  0 <= i /\ body !! Z.to_nat i = Some b /\ is_byte b /\ i < len body /\ starts (i + 1) bs.
Proof.
  intros [H0 [r E]]. assert (body !! Z.to_nat i = Some b) as Hb.
  { rewrite <-(Nat.add_0_r (Z.to_nat i)), <-lookup_drop, E. done. }
  split_and!; [done|done| | |].
  - apply (Forall_lookup_1 _ _ _ _ Hbytes Hb).
  - apply lookup_lt_Some in Hb. unfold len. lia.
  - split; [lia|]. exists r. rewrite Z2Nat.inj_add by lia.
    rewrite <-drop_drop, E. done.
Qed.
Lemma starts_split i a b : starts i (a ++ b) -> starts i a /\ starts (i + len a) b.
Proof.
  intros [H0 [r E]]. split; (split; [pose proof (len_nonneg a); lia|]).
  - exists (b ++ r). by rewrite (assoc_L (++)).
  - exists r. unfold len. rewrite Z2Nat.inj_add, Nat2Z.id by lia.
    by rewrite <-drop_drop, E, <-(assoc_L (++)), drop_app_length.
Qed.
Lemma starts_bound i bs : starts i bs -> bs <> [] -> i + len bs <= len body.
Proof. apply FuncSoundness.starts_len. Qed.
Lemma byte_at i b bs : starts i (b :: bs) -> at_ body i = Ok b.
Proof. intros H. apply starts_byte in H as (_ & H & _). unfold at_. by rewrite H. Qed.
Lemma leb_nonempty bs v : leb_u32 bs v -> bs <> [].
Proof. intros H ->. done. Qed.

Lemma from_starts i bs : starts i bs -> bs <> [] -> exists rest, from body i = Ok (bs ++ rest).
Proof.
  intros Hs Hne. pose proof (starts_bound _ _ Hs Hne). destruct Hs as [H0 [r E]]. exists r.
  unfold from. destruct (Z.ltb_spec (len body) i); [pose proof (len_nonneg bs); lia|]. by rewrite E.
Qed.
Lemma load_starts load i bs v : Leb128.extends load -> load [] <> Ok (v, 0) ->
  load bs = Ok (v, len bs) -> starts i bs -> exists b, from body i = Ok b /\ load b = Ok (v, len bs).
Proof.
  intros He Hn Hl Hs. destruct (from_starts i bs Hs) as [rest Hf]; [by intros ->|].
  eexists. split; [exact Hf|]. by apply He.
Qed.
Lemma loads_u32 w i bs v : leb_u32 bs v -> starts i bs -> loadU32 body w i = Ok (v, len bs).
Proof.
  intros Hl Hs. destruct (load_starts _ _ _ _ Leb128.LoadUint32_extends ltac:(done) Hl Hs) as (b & Hf & Hb).
  unfold loadU32. rewrite Hf. rewrite Hb. done.
Qed.
Lemma readU32_ok w c bs v : leb_u32 bs v -> starts (pc c + 1) bs ->
  readU32 body w c = Ok (v, set_pc c (pc c + len bs)).
Proof. intros Hl Hs. unfold readU32. by rewrite (loads_u32 _ _ _ _ Hl Hs). Qed.

(** The state moved to [p], having read a memory argument or not. *)
Definition moved (mem : bool) (p : Z) (c : compiler) : compiler :=
  set_pc (if mem then usesMemory c else c) p.
Lemma readMemoryArg_ok fits bs : memarg fits bs -> exists arg, forall c, starts (pc c + 1) bs ->
  readMemoryArg body c = Ok (arg, moved true (pc c + len bs) c).
Proof.
  intros (a & o & align & offset & -> & Ha & Ho & _). eexists. intros c Hs. apply starts_split in Hs as [Hs1 Hs2].
  unfold readMemoryArg. rewrite (readU32_ok _ (usesMemory c) a align) by done. rewrite (readU32_ok _ _ o offset).
  - rewrite len_app, Z.add_assoc. reflexivity.
  - done.
  - cbn. by replace (pc c + len a + 1) with (pc c + 1 + len a) by lia.
Qed.
Lemma readByte_ok c b bs : starts (pc c + 1) (b :: bs) -> readByte body c = Ok (b, set_pc c (pc c + 1)).
Proof. intros Hs. unfold readByte. cbn [pc skip set_pc]. by rewrite (byte_at _ _ _ Hs). Qed.
Lemma littleEndian_ok n i bs rest : starts i (bs ++ rest) -> len bs = Z.of_nat n -> bs <> [] ->
  littleEndian body n i = Ok (le_dec bs).
Proof.
  intros Hs Hn Hne. apply starts_split in Hs as [Hs _]. destruct (from_starts i bs Hs Hne) as [r Hf].
  unfold littleEndian. rewrite Hf, len_app. destruct (Z.ltb_spec (len bs + len r) (Z.of_nat n));
    [pose proof (len_nonneg r); lia|]. cbn iota.
  replace n with (length bs) by (unfold len in Hn; lia). by rewrite take_app_length.
Qed.

(** *** Emission *)
Lemma emit_off c o : unreachable_on c = true -> emit c o = c.
Proof. unfold Lower.emit. by intros ->. Qed.
Definition nop_drop (o : unionOperation) : bool :=
  match Kind o with operationKindDrop => i64 (U1 o) =? -1 | _ => false end.
Definition offsets (c : compiler) : list Z :=
  if needSourceOffset then sourceOffsets c ++ [u64 (currentOpPC c + bodyOffset)] else sourceOffsets c.
Lemma emit_on c o : unreachable_on c = false -> nop_drop o = false ->
  emit c o = set_ops c (ops c ++ [o]) (offsets c).
Proof. unfold Lower.emit, nop_drop. by intros -> ->. Qed.

(** *** Instructions that emit one operation *)
Record goes (c c' : compiler) (n : Z) (st : list Z) (code : list unionOperation) : Prop := {
  go_step : lstep c c';
  go_stack : stack c' = st;
  go_len : stackLenInUint64 c' = stackLenInUint64 c - size (stack c) + size st;
  go_id : currentFrameID c' = currentFrameID c;
  go_frames : controlFrames c' = controlFrames c;
  go_on : unreachable_on c' = false;
  go_depth : unreachable_depth c' = unreachable_depth c;
  go_pc : pc c' = pc c + n;
  go_ops : ops c' = ops c ++ code }.
Record skips (c c' : compiler) (n : Z) : Prop := {
  sk_step : lstep c c';
  sk_stack : stack c' = stack c;
  sk_len : stackLenInUint64 c' = stackLenInUint64 c;
  sk_id : currentFrameID c' = currentFrameID c;
  sk_frames : controlFrames c' = controlFrames c;
  sk_on : unreachable_on c' = true;
  sk_depth : unreachable_depth c' = unreachable_depth c;
  sk_pc : pc c' = pc c + n;
  sk_ops : ops c' = ops c }.

Definition reads_index (op : Z) (imm : list Z) (index k : Z) : Prop :=
  if hasIndex op then exists x y, imm = x ++ y /\ leb_u32 x index /\ k = len x else index = 0 /\ k = 0.

Lemma set_pc_same c p : p = pc c -> set_pc c p = c.
Proof. intros ->. by destruct c. Qed.
Lemma reads_index_ok op imm index k c :
  reads_index op imm index k -> starts (pc c) (op :: imm) ->
  (if hasIndex op then readU32 body "reading immediates" c else Ok (0, c)) = Ok (index, set_pc c (pc c + k)).
Proof.
  unfold reads_index. destruct (hasIndex op).
  - intros (x & y & -> & Hx & ->) Hs. apply starts_byte in Hs as (_ & _ & _ & _ & Hs).
    apply starts_split in Hs as [Hs _]. by apply readU32_ok.
  - intros [-> ->] _. by rewrite set_pc_same by lia.
Qed.
Lemma apply_off op imm index k c :
  reads_index op imm index k -> starts (pc c) (op :: imm) -> unreachable_on c = true ->
  applyToStack c op = Ok (0, set_pc c (pc c + k)).
Proof.
  intros Hr Hs Hon. unfold Lower.applyToStack. rewrite (reads_index_ok op imm index k c Hr Hs).
  cbn. by rewrite Hon.
Qed.
Lemma apply_on op imm index k c ps rs outer :
  reads_index op imm index k -> starts (pc c) (op :: imm) -> unreachable_on c = false ->
  wasmOpcodeSignature op index (pc c + k) = Ok (mkSig (map ut (rev ps)) (map ut rs)) ->
  stack c = map ut ps ++ outer ->
  applyToStack c op = Ok (index, set_stack (set_pc c (pc c + k)) (map ut (rev rs) ++ outer)
                                   (stackLenInUint64 c - vsize ps + vsize rs)).
Proof.
  intros Hr Hs Hon Hsig Hst. unfold Lower.applyToStack. rewrite (reads_index_ok op imm index k c Hr Hs).
  cbn [unreachable_on set_pc pc]. rewrite Hon, Hsig. cbn [sig_in sig_out].
  rewrite <-map_rev, rev_involutive, (popOperands_ok (map ut ps) _ outer) by (apply ut_no_unknown || done).
  rewrite pushResults_ok by apply ut_no_unknown. rewrite set_stack_set. do 3 f_equal.
  by rewrite <-map_rev.
Qed.

(** The instruction [bs] at [p], its operation and its signature. *)
Definition lowers (p : Z) (bs ps rs : list Z) : Prop :=
  exists op imm index k mem f, bs = op :: imm /\ op <> OpcodeEnd /\ reads_index op imm index k /\
    wasmOpcodeSignature op index (p + k) = Ok (mkSig (map ut (rev ps)) (map ut rs)) /\
    effect (TypeSection m) functions globals (f index) = Some (vsize ps, vsize rs) /\
    is_label (f index) = false /\
    forall i peek c, pc c = p + k -> lower op i peek c = Ok (emit (moved mem (p + len imm) c) (f i)).

Lemma effect_not_nop o p : effect (TypeSection m) functions globals o = Some p -> nop_drop o = false.
Proof. unfold effect, words_of, nop_drop. destruct (known o); [|done]. by destruct (Kind o). Qed.

Lemma lowers_on c bs ps rs outer :
  starts (pc c) bs -> controlFrames c <> [] -> lowers (pc c) bs ps rs -> unreachable_on c = false ->
  stack c = map ut ps ++ outer ->
  exists c' code, goes c c' (len bs) (map ut (rev rs) ++ outer) code /\
    forall h, vsize ps <= h -> runs code h (h - vsize ps + vsize rs).
Proof.
  intros Hs Hne (op & imm & index & k & mem & f & -> & Hend & Hr & Hsig & He & Hl & Hlow) Hon Hst.
  pose proof (starts_byte _ _ _ Hs) as (_ & _ & _ & Hlen & _).
  eexists _, [f index]. split; [|intros h Hh; by apply runs_effect].
  assert (Hh : handleInstruction c = Ok (next (emit (moved mem (pc c + len imm)
    (set_stack (set_pc (set_currentOpPC c (pc c)) (pc c + k)) (map ut (rev rs) ++ outer)
       (stackLenInUint64 c - vsize ps + vsize rs))) (f index)))).
  { unfold Lower.handleInstruction. rewrite (byte_at _ _ _ Hs).
    rewrite (apply_on op imm index k (set_currentOpPC c (pc c)) ps rs outer) by done.
    destruct (Z.eqb_spec op OpcodeEnd); [done|]. rewrite Hlow by done. done. }
  split; [split_and!; [done..|exact Hh]| | | | | | | |]; rewrite ?emit_on by (destruct mem; done || by eapply effect_not_nop);
    rewrite ?size_app; destruct mem; cbn; rewrite ?Hst, ?size_app, ?len_cons; try done; try lia.
  all: fold (vsize ps); fold (vsize (rev rs)); rewrite vsize_rev; lia.
Qed.
Lemma lowers_off c bs ps rs :
  starts (pc c) bs -> controlFrames c <> [] -> lowers (pc c) bs ps rs -> unreachable_on c = true ->
  exists c', skips c c' (len bs).
Proof.
  intros Hs Hne (op & imm & index & k & mem & f & -> & Hend & Hr & Hsig & He & Hl & Hlow) Hon.
  pose proof (starts_byte _ _ _ Hs) as (_ & _ & _ & Hlen & _).
  assert (Hh : handleInstruction c = Ok (next (emit (moved mem (pc c + len imm)
    (set_pc (set_currentOpPC c (pc c)) (pc c + k))) (f 0)))).
  { unfold Lower.handleInstruction. rewrite (byte_at _ _ _ Hs).
    rewrite (apply_off op imm index k (set_currentOpPC c (pc c))) by done.
    destruct (Z.eqb_spec op OpcodeEnd); [done|]. rewrite Hlow by done. done. }
  eexists. split; [split_and!; [done..|exact Hh]| | | | | | | |]; rewrite emit_off by (by destruct mem);
    destruct mem; cbn; rewrite ?len_cons; try done; lia.
Qed.

(** *** The instructions of [plain] *)
Record context_ok : Prop := {
  co_types : Forall (fun ft => value_types (ft_Params ft) /\ value_types (ft_Results ft)) (TypeSection m);
  co_sig : value_types (ft_Params functionType) /\ value_types (ft_Results functionType);
  co_locals : value_types localTypes;
  co_globals : Forall (fun g => isValueType (gt_ValType g) = true) globals;
  co_tables : Forall (fun t => FuncValidation.isReferenceValueType (tb_Type t) = true) tables }.
Hypothesis Hctx : context_ok.

Lemma signature_main op index p s : special op = false -> cases op main_signature = Some s ->
  wasmOpcodeSignature op index p = Ok s.
Proof.
  unfold special. cbn [existsb]. rewrite !orb_false_iff. intros H Hc. destruct_and! H.
  unfold Lower.wasmOpcodeSignature.
  repeat match goal with Hx : (op =? _) = false |- _ => rewrite Hx; clear Hx end. by rewrite Hc.
Qed.
Lemma special_index op : special op = false -> hasIndex op = false /\ op <> OpcodeEnd.
Proof.
  unfold special, hasIndex. cbn [existsb]. rewrite !orb_false_iff. intros H. destruct_and! H.
  split; [by split_and!|]. by apply Z.eqb_neq.
Qed.
Lemma reads_none op imm : hasIndex op = false -> reads_index op imm 0 0.
Proof. unfold reads_index. by intros ->. Qed.
Lemma reads_some op x y index : hasIndex op = true -> leb_u32 x index -> reads_index op (x ++ y) index (len x).
Proof. unfold reads_index. intros -> ?. by exists x, y. Qed.

(** A check of the tables, and what it says. *)
Lemma checked (f : Z -> bool) op : (forall b, lowered_at b = true -> f b = true) -> is_byte op -> f op = true.
Proof. intros H Hb. by apply H, lowered_all. Qed.

Lemma op_agrees_effect o o' ps rs : op_agrees o ps rs = true -> same_kind o' o ->
  effect (TypeSection m) functions globals o' = Some (vsize ps, vsize rs) /\ is_label o' = false.
Proof.
  unfold op_agrees. intros [H1%bool_decide_eq_true H2%negb_true_iff]%andb_true_iff (Hk & Hb & Hn).
  split; [by eapply effect_any|]. unfold is_label in *. by rewrite Hk.
Qed.

(** Comparisons of opcodes. *)
Ltac opcodes :=
  repeat match goal with
  | |- context [?a =? ?b] =>
      let r := eval vm_compute in (a =? b) in
      match r with true => change (a =? b) with true | false => change (a =? b) with false end
  end; cbn [orb andb]; cbv iota.
Ltac table_none :=
  repeat match goal with
  | |- context [@case ?A ?op ?t] =>
      let r := eval vm_compute in (match @case A op t with None => true | Some _ => false end) in
      match r with true => change (@case A op t) with (@None A) end
  end; cbv iota.
Ltac lower_case := unfold Lower.lower; table_none; opcodes.
Ltac simple_op f := eexists _, _, 0, 0, false, (fun _ => f).

Lemma numeric_lowers p op ps rs : starts p [op] -> numeric_spec op = Some (ps, rs) -> lowers p [op] ps rs.
Proof.
  intros Hs Hn. pose proof (starts_byte _ _ _ Hs) as (_ & _ & Hb & _).
  assert (numeric_lowered op = true) as Hl.
  { apply (checked numeric_lowered); [|done]. unfold lowered_at. intros b Hl. rewrite !andb_true_iff in Hl. by destruct_and! Hl. }
  unfold numeric_lowered in Hl. rewrite Hn in Hl. destruct (case op main_plain) as [o|] eqn:Eo; [|done].
  apply andb_true_iff in Hl as [[Hsig Ho]%andb_true_iff Hsp%negb_true_iff]. apply sig_agrees_ok in Hsig.
  destruct (special_index op Hsp). destruct (op_agrees_effect _ _ _ _ Ho (same_kind_refl o)).
  exists op, [], 0, 0, false, (fun _ => o). split_and!; try done; [by apply reads_none|by apply signature_main|].
  intros i peek c Hc. unfold Lower.lower. rewrite Eo. do 2 f_equal. unfold moved.
  rewrite set_pc_same; [done|]. change (len (@nil Z)) with 0. lia.
Qed.
Lemma memory_lowers p op bs w ps rs fits : starts p (op :: bs) -> memarg fits bs -> memory_spec op = Some (w, ps, rs) ->
  lowers p (op :: bs) ps rs.
Proof.
  intros Hs Hm Hn. pose proof (starts_byte _ _ _ Hs) as (_ & _ & Hb & _ & Hs').
  assert (memory_lowered op = true) as Hl.
  { apply (checked memory_lowered); [|done]. unfold lowered_at. intros b Hl. rewrite !andb_true_iff in Hl. by destruct_and! Hl. }
  unfold memory_lowered in Hl. rewrite Hn in Hl. destruct (case op main_plain) eqn:Ep; [done|].
  destruct (case op main_memory) as [f|] eqn:Ef; [|done].
  apply andb_true_iff in Hl as [[Hsig Ho]%andb_true_iff Hsp%negb_true_iff]. apply sig_agrees_ok in Hsig.
  destruct (special_index op Hsp). destruct (readMemoryArg_ok _ bs Hm) as [arg Harg].
  destruct (op_agrees_effect _ _ _ _ Ho (main_memory_kind op f Ef arg)).
  exists op, bs, 0, 0, true, (fun _ => f arg). split_and!; try done; [by apply reads_none|by apply signature_main|].
  intros i peek c Hc. unfold Lower.lower. rewrite Ep, Ef, Harg; [do 3 f_equal; lia|].
  rewrite Hc. by rewrite Z.add_0_r.
Qed.

Ltac moved_eq := unfold moved, skip; cbn [pc set_pc usesMemory]; f_equal; lia.

(** The opcode is known, and its signature is in the table. *)
Lemma lowers_by op imm mem o ps rs p :
  special op = false -> cases op main_signature = Some (mkSig (map ut (rev ps)) (map ut rs)) ->
  effect [] [] [] o = Some (vsize ps, vsize rs) -> is_label o = false ->
  (forall i peek c, pc c = p -> lower op i peek c = Ok (emit (moved mem (p + len imm) c) o)) ->
  lowers p (op :: imm) ps rs.
Proof.
  intros Hsp Hsig He Hl Hlow. destruct (special_index op Hsp).
  exists op, imm, 0, 0, mem, (fun _ => o).
  split_and!; try done; [by apply reads_none|by apply signature_main|by eapply effect_any|].
  intros i peek c Hc. apply Hlow. lia.
Qed.
Lemma memory_size_lowers p z : zero_byte z -> lowers p (0x3f :: z) [] [i32t].
Proof.
  intros [_ Hz]. apply (lowers_by _ _ true newOperationMemorySize); try done.
  intros i peek c Hc. lower_case. do 2 f_equal. rewrite Hz. moved_eq.
Qed.
Lemma memory_grow_lowers p z : zero_byte z -> lowers p (0x40 :: z) [i32t] [i32t].
Proof.
  intros [_ Hz]. apply (lowers_by _ _ true newOperationMemoryGrow); try done.
  intros i peek c Hc. lower_case. do 2 f_equal. rewrite Hz. moved_eq.
Qed.
Lemma i32_const_lowers p bs v : starts p (0x41 :: bs) -> Leb128.LoadInt32 bs = Ok (v, len bs) ->
  lowers p (0x41 :: bs) [] [i32t].
Proof.
  intros Hs Hl. apply starts_byte in Hs as (_ & _ & _ & _ & Hs).
  destruct (load_starts _ _ _ _ Leb128.LoadInt32_extends ltac:(done) Hl Hs) as (b & Hf & Hb).
  apply (lowers_by _ _ false (newOperationConstI32 (u32 v))); try done.
  intros i peek c Hc. lower_case. unfold lower_const. opcodes. rewrite Hc, Hf, Hb. cbn [map_err].
  do 2 f_equal. moved_eq.
Qed.
Lemma i64_const_lowers p bs v : starts p (0x42 :: bs) -> Leb128.LoadInt64 bs = Ok (v, len bs) ->
  lowers p (0x42 :: bs) [] [i64t].
Proof.
  intros Hs Hl. apply starts_byte in Hs as (_ & _ & _ & _ & Hs).
  destruct (load_starts _ _ _ _ Leb128.LoadInt64_extends ltac:(done) Hl Hs) as (b & Hf & Hb).
  apply (lowers_by _ _ false (newOperationConstI64 (u64 v))); try done.
  intros i peek c Hc. lower_case. unfold lower_const. opcodes. rewrite Hc, Hf, Hb. cbn [map_err].
  do 2 f_equal. moved_eq.
Qed.
Lemma len_nonempty {A} (l : list A) : 0 < len l -> l <> [].
Proof. by intros H ->. Qed.
Lemma f32_const_lowers p bs : starts p (0x43 :: bs) -> len bs = 4 -> lowers p (0x43 :: bs) [] [f32t].
Proof.
  intros Hs Hl. apply starts_byte in Hs as (_ & _ & _ & _ & Hs).
  apply (lowers_by _ _ false (newOperationConstF32 (le_dec bs))); try done.
  intros i peek c Hc. lower_case. unfold lower_const. opcodes. rewrite Hc, (littleEndian_ok 4 _ bs []).
  - do 2 f_equal. rewrite Hl. moved_eq.
  - by rewrite app_nil_r.
  - done.
  - apply len_nonempty. lia.
Qed.
Lemma f64_const_lowers p bs : starts p (0x44 :: bs) -> len bs = 8 -> lowers p (0x44 :: bs) [] [f64t].
Proof.
  intros Hs Hl. apply starts_byte in Hs as (_ & _ & _ & _ & Hs).
  apply (lowers_by _ _ false (newOperationConstF64 (le_dec bs))); try done.
  intros i peek c Hc. lower_case. unfold lower_const. opcodes. rewrite Hc, (littleEndian_ok 8 _ bs []).
  - do 2 f_equal. rewrite Hl. moved_eq.
  - by rewrite app_nil_r.
  - done.
  - apply len_nonempty. lia.
Qed.
Lemma ref_null_lowers p t : FuncValidation.isReferenceValueType t = true -> lowers p [0xd0; t] [] [t].
Proof.
  intros Ht. assert (t = ValueTypeFuncref \/ t = ValueTypeExternref) as Ht'.
  { unfold FuncValidation.isReferenceValueType in Ht. apply orb_true_iff in Ht as [Ht|Ht]; apply Z.eqb_eq in Ht; auto. }
  apply (lowers_by _ _ false (newOperationConstI64 0)); try (by destruct Ht' as [-> | ->]).
  intros i peek c Hc. lower_case. do 2 f_equal. change (len [t]) with 1. moved_eq.
Qed.

(** Opcodes with an index read by [lower_index]. *)
Lemma lower_index_ok w p c bs v f : leb_u32 bs v -> starts (p + 1) bs -> pc c = p ->
  lower_index needSourceOffset bodyOffset body w c f = Ok (emit (moved false (p + len bs) c) (f v)).
Proof.
  intros Hl Hs Hc. unfold lower_index. rewrite (readU32_ok _ _ bs v) by (by rewrite ?Hc). by rewrite Hc.
Qed.
Lemma ref_func_lowers p bs i : starts p (0xd2 :: bs) -> leb_u32 bs i -> lowers p (0xd2 :: bs) [] [ValueTypeFuncref].
Proof.
  intros Hs Hl. apply starts_byte in Hs as (_ & _ & _ & _ & Hs).
  apply (lowers_by _ _ false (newOperationRefFunc i)); try done.
  intros j peek c Hc. lower_case. by apply lower_index_ok.
Qed.
Lemma table_type t tab : tables !! t = Some tab -> ut (tb_Type tab) = 1 /\ vsize [tb_Type tab] = 1.
Proof.
  intros H. pose proof (Forall_lookup_1 _ _ _ _ (co_tables Hctx) H) as Ht. cbv beta in Ht.
  unfold FuncValidation.isReferenceValueType in Ht. apply orb_true_iff in Ht as [Ht|Ht]; apply Z.eqb_eq in Ht;
    rewrite Ht; done.
Qed.
Lemma table_get_lowers p bs t tab : starts p (0x25 :: bs) -> leb_u32 bs t -> tables !! Z.to_nat t = Some tab ->
  lowers p (0x25 :: bs) [i32t] [tb_Type tab].
Proof.
  intros Hs Hl Ht. apply starts_byte in Hs as (_ & _ & _ & _ & Hs). destruct (table_type _ _ Ht) as [E1 E2].
  apply (lowers_by _ _ false (newOperationTableGet t)); try done.
  - cbn [map rev app]. by rewrite E1.
  - by rewrite E2.
  - intros j peek c Hc. lower_case. by apply lower_index_ok.
Qed.
Lemma table_set_lowers p bs t tab : starts p (0x26 :: bs) -> leb_u32 bs t -> tables !! Z.to_nat t = Some tab ->
  lowers p (0x26 :: bs) [tb_Type tab; i32t] [].
Proof.
  intros Hs Hl Ht. apply starts_byte in Hs as (_ & _ & _ & _ & Hs). destruct (table_type _ _ Ht) as [E1 E2].
  apply (lowers_by _ _ false (newOperationTableSet t)); try done.
  - cbn [map rev app]. by rewrite E1.
  - change [tb_Type tab; i32t] with ([tb_Type tab] ++ [i32t]). by rewrite vsize_app, E2.
  - intros j peek c Hc. lower_case. by apply lower_index_ok.
Qed.

(** Globals and calls. *)
Lemma at_ok {A} (l : list A) i x : l !! Z.to_nat i = Some x -> at_ l i = Ok x.
Proof. unfold at_. by intros ->. Qed.
Lemma leb_range bs v : leb_u32 bs v -> 0 <= v < 2 ^ 32.
Proof. intros H. pose proof (Leb128.LoadUint32_range _ _ _ H) as [? ?]. lia. Qed.
Lemma global_ok i g : 0 <= i -> globals !! Z.to_nat i = Some g ->
  globalOfSignature globals i = Ok (gt_ValType g) /\ isValueType (gt_ValType g) = true /\
  global_words globals i = Some (vsize [gt_ValType g]).
Proof.
  intros H0 Hg. split_and!.
  - unfold globalOfSignature. rewrite (at_ok _ _ _ Hg). apply lookup_lt_Some in Hg.
    destruct (Z.leb_spec (len globals) i); [unfold len in *; lia|done].
  - apply (Forall_lookup_1 _ _ _ _ (co_globals Hctx) Hg).
  - unfold global_words. rewrite Hg, vsize_cons. cbn [fmap option_fmap option_map]. change (vsize []) with 0. by rewrite Z.add_0_r.
Qed.
Lemma global_get_lowers p bs i g : starts p (0x23 :: bs) -> leb_u32 bs i -> globals !! Z.to_nat i = Some g ->
  lowers p (0x23 :: bs) [] [gt_ValType g].
Proof.
  intros Hs Hl Hg. destruct (global_ok i g ltac:(pose proof (leb_range _ _ Hl); lia) Hg) as (E1 & Hv & E2).
  exists 0x23, bs, i, (len bs), false, newOperationGlobalGet. split_and!; try done.
  - pose proof (reads_some 0x23 bs [] i eq_refl Hl) as Hr. by rewrite app_nil_r in Hr.
  - unfold Lower.wasmOpcodeSignature. opcodes. rewrite E1. unfold wasmValueTypeToUnsignedOutSignature.
    by rewrite (ut_ok _ Hv).
  - unfold effect, known, words_of. cbn [Kind newOperationGlobalGet U1]. by rewrite E2.
  - intros j peek c Hc. lower_case. do 2 f_equal. unfold moved. by rewrite set_pc_same.
Qed.
Lemma global_set_lowers p bs i g : starts p (0x24 :: bs) -> leb_u32 bs i -> globals !! Z.to_nat i = Some g ->
  lowers p (0x24 :: bs) [gt_ValType g] [].
Proof.
  intros Hs Hl Hg. destruct (global_ok i g ltac:(pose proof (leb_range _ _ Hl); lia) Hg) as (E1 & Hv & E2).
  exists 0x24, bs, i, (len bs), false, newOperationGlobalSet. split_and!; try done.
  - pose proof (reads_some 0x24 bs [] i eq_refl Hl) as Hr. by rewrite app_nil_r in Hr.
  - unfold Lower.wasmOpcodeSignature. opcodes. rewrite E1. unfold wasmValueTypeToUnsignedInSignature.
    by rewrite (ut_ok _ Hv).
  - unfold effect, known, words_of. cbn [Kind newOperationGlobalSet U1]. by rewrite E2.
  - intros j peek c Hc. lower_case. do 2 f_equal. unfold moved. by rewrite set_pc_same.
Qed.
Lemma sigs_get_ok ti ft indirect : TypeSection m !! Z.to_nat ti = Some ft ->
  sigs_get (TypeSection m) ti indirect =
    Ok (mkSig (map ut (ft_Params ft) ++ (if indirect then [unsignedTypeI32] else [])) (map ut (ft_Results ft))) /\
  type_words (TypeSection m) ti = Some (vsize (ft_Params ft), vsize (ft_Results ft)).
Proof.
  intros H. destruct (Forall_lookup_1 _ _ _ _ (co_types Hctx) H) as [Hp Hr]. split.
  - unfold sigs_get. rewrite (at_ok _ _ _ H), (unsignedTypes_ok _ Hp), (unsignedTypes_ok _ Hr).
    destruct indirect; [done|]. by rewrite app_nil_r.
  - unfold type_words, ParamNumInUint64, ResultNumInUint64. rewrite H. cbn. by rewrite !numInUint64_vsize.
Qed.
Lemma call_lowers p bs i ti ft : starts p (0x10 :: bs) -> leb_u32 bs i -> functions !! Z.to_nat i = Some ti ->
  TypeSection m !! Z.to_nat ti = Some ft -> lowers p (0x10 :: bs) (rev (ft_Params ft)) (ft_Results ft).
Proof.
  intros Hs Hl Hf Ht. destruct (sigs_get_ok ti ft false Ht) as [E1 E2].
  exists 0x10, bs, i, (len bs), false, newOperationCall. split_and!; try done.
  - pose proof (reads_some 0x10 bs [] i eq_refl Hl) as Hr. by rewrite app_nil_r in Hr.
  - unfold Lower.wasmOpcodeSignature. opcodes. rewrite (at_ok _ _ _ Hf), E1. by rewrite app_nil_r, rev_involutive.
  - unfold effect, known, words_of. cbn [Kind newOperationCall U1]. rewrite Hf. cbn. by rewrite E2, vsize_rev.
  - intros j peek c Hc. lower_case. do 2 f_equal. unfold moved. by rewrite set_pc_same.
Qed.
Lemma call_indirect_lowers p x ti y t ft : starts p (0x11 :: x ++ y) -> leb_u32 x ti -> leb_u32 y t ->
  TypeSection m !! Z.to_nat ti = Some ft ->
  lowers p (0x11 :: x ++ y) (i32t :: rev (ft_Params ft)) (ft_Results ft).
Proof.
  intros Hs Hx Hy Ht. destruct (sigs_get_ok ti ft true Ht) as [E1 E2].
  apply starts_byte in Hs as (_ & _ & _ & _ & Hs). apply starts_split in Hs as [_ Hs].
  exists 0x11, (x ++ y), ti, (len x), false, (fun i => newOperationCallIndirect i t). split_and!; try done.
  - by apply reads_some.
  - unfold Lower.wasmOpcodeSignature. opcodes. rewrite E1. cbn [rev]. by rewrite rev_involutive, map_app.
  - unfold effect, known, words_of. cbn [Kind newOperationCallIndirect U1]. rewrite E2, vsize_cons, vsize_rev. cbn [fmap option_fmap option_map].
    do 2 f_equal. change (i32t =? v128t) with false. cbv iota. lia.
  - intros j peek c Hc. lower_case. unfold lower_call_indirect. rewrite (readU32_ok _ _ y t) by
      (rewrite ?Hc; first [done|by replace (p + len x + 1) with (p + 1 + len x) by lia]).
    do 2 f_equal. unfold moved. rewrite len_app, Hc. f_equal. lia.
Qed.

(** After a prefix. *)
Lemma leb_byte b o : is_byte b -> b < 128 -> Leb128.LoadUint32 (b :: o) = Ok (b, 1).
Proof.
  intros [H0 _] Hb.
  change (Leb128.LoadUint32 (b :: o)) with
    (if b <? 128 then Ok (Z.lor 0 (u32 (Z.shiftl b 0)), 1)
     else Leb128.decodeUint32_loop (Leb128.buf_next (b :: o)) 4 1 7 (Z.lor 0 (u32 (Z.shiftl (Z.land b 127) 0)))).
  destruct (Z.ltb_spec b 128); [|lia]. do 2 f_equal. apply wrapu_small. unfold in_u. lia.
Qed.
Lemma leb_short b o v : leb_u32 (b :: o) v -> is_byte b -> b < 128 -> o = [] /\ v = b.
Proof.
  unfold leb_u32. intros H Hb Hlt. rewrite (leb_byte b o Hb Hlt) in H.
  assert (v = b /\ len (b :: o) = 1) as [-> Hl] by (split; congruence).
  rewrite len_cons in Hl. split; [|done]. destruct o; [done|]. rewrite len_cons in Hl. pose proof (len_nonneg o). lia.
Qed.
(** The opcode after the misc prefix is written in one byte. *)
Definition short (bs : list Z) : Prop :=
  match bs with op :: b :: _ => op = OpcodeMiscPrefix -> b < 128 | _ => True end.

Lemma lower_misc_start p op c w : starts (p + 1) [op] -> is_byte op -> op < 128 -> pc c = p ->
  loadU32 body w (pc (skip c 1)) = Ok (op, 1).
Proof.
  intros Hs Hb Hop Hc. cbn [pc skip set_pc]. rewrite Hc. apply (loads_u32 w _ [op]); [|done].
  by apply leb_byte.
Qed.
Lemma trunc_lowers p o op t r : starts p (0xfc :: o) -> leb_u32 o op -> short (0xfc :: o) ->
  trunc_spec op = Some (t, r) -> lowers p (0xfc :: o) [t] [r].
Proof.
  intros Hs Hl Hsh Hn. apply starts_byte in Hs as (_ & _ & _ & _ & Hs). destruct o as [|b o]; [done|].
  pose proof (starts_byte _ _ _ Hs) as (_ & _ & Hb & _). specialize (Hsh eq_refl).
  destruct (leb_short b o op Hl Hb Hsh) as [-> ->].
  assert (trunc_lowered b = true) as Hlow.
  { apply (checked trunc_lowered); [|done]. unfold lowered_at. intros x Hx. rewrite !andb_true_iff in Hx. by destruct_and! Hx. }
  unfold trunc_lowered in Hlow. rewrite Hn in Hlow. destruct (case b misc_plain) as [o|] eqn:Eo; [|done].
  apply andb_true_iff in Hlow as [Hsig Ho]. apply sig_agrees_ok in Hsig.
  destruct (op_agrees_effect _ _ _ _ Ho (same_kind_refl o)).
  exists 0xfc, [b], 0, 0, false, (fun _ => o). split_and!; try done.
  - unfold Lower.wasmOpcodeSignature. opcodes. unfold prefixed. rewrite Z.add_0_r, (byte_at _ _ _ Hs).
    by rewrite Hsig.
  - intros i peek c Hc. lower_case. unfold lower_misc. rewrite (lower_misc_start p b) by (done || lia).
    assert (u8 b = b) as -> by (apply wrapu_small; destruct Hb; unfold in_u; lia).
    rewrite Eo. do 2 f_equal. change (len [b]) with 1. moved_eq.
Qed.
Lemma misc_by p op imm mem o ps rs :
  starts p (0xfc :: op :: imm) -> cases op misc_signature = Some (mkSig (map ut (rev ps)) (map ut rs)) ->
  effect [] [] [] o = Some (vsize ps, vsize rs) -> is_label o = false ->
  (forall c, pc c = p -> lower_misc needSourceOffset bodyOffset body c =
    Ok (emit (moved mem (p + len (op :: imm)) c) o)) ->
  lowers p (0xfc :: op :: imm) ps rs.
Proof.
  intros Hs Hsig He Hl Hlow. apply starts_byte in Hs as (_ & _ & _ & _ & Hs).
  exists 0xfc, (op :: imm), 0, 0, mem, (fun _ => o). split_and!; try done.
  - unfold Lower.wasmOpcodeSignature. opcodes. unfold prefixed. rewrite Z.add_0_r, (byte_at _ _ _ Hs).
    by rewrite Hsig.
  - by eapply effect_any.
  - intros i peek c Hc. lower_case. apply Hlow. lia.
Qed.
(** Positions that differ in how they are written. *)
Ltac position :=
  cbn [pc skip set_pc usesMemory moved set_currentOpPC set_stack];
  first [ done
        | match goal with H : FuncSoundness.starts ?b ?i ?bs |- FuncSoundness.starts ?b ?j ?bs =>
            replace j with i by lia; exact H end
        | lia ].
Ltac misc_case p op Hs :=
  let c := fresh "c" in let Hc := fresh "Hc" in
  intros c Hc; unfold lower_misc; rewrite (lower_misc_start p op) by (done || lia);
  change (u8 op) with op; table_none; opcodes.

Lemma bulk_lowers p op bs ps rs : starts p (0xfc :: op :: bs) -> op < 128 -> bulk m memory tables op bs ps rs ->
  lowers p (0xfc :: op :: bs) ps rs.
Proof.
  intros Hs Hop Hbulk. pose proof (starts_byte _ _ _ Hs) as (_ & _ & _ & _ & Hs1).
  pose proof (starts_byte _ _ _ Hs1) as (_ & _ & Hb & _ & Hs2).
  assert (starts (p + 1) [op]) as Hs1' by apply (starts_split _ [op] bs Hs1).
  destruct Hbulk as [x i z ? ? Hx ? [_ Hz]|x i ? Hx ?|z z' ? [_ Hz] [_ Hz']|z ? [_ Hz]|x e y t elem tab Hx Hy ? ? ?
    |x e elem Hx ?|x d y s dst src Hx Hy ? ? ?|x t tab Hx Ht|x t tab Hx Ht|x t tab Hx Ht].
  - apply starts_split in Hs2 as [Hs2 _]. apply (misc_by _ _ _ true (newOperationMemoryInit i)); try done. misc_case p 8 Hs1'.
    rewrite (readU32_ok _ _ x i) by position.
    do 2 f_equal. rewrite len_cons, len_app, Hz. cbn [pc skip set_pc usesMemory]. rewrite Hc. moved_eq.
  - apply (misc_by _ _ _ false (newOperationDataDrop i)); try done. misc_case p 9 Hs1'.
    rewrite (lower_index_ok _ (p + 1) _ x i) by position.
    do 2 f_equal. rewrite len_cons. moved_eq.
  - apply (misc_by _ _ _ true newOperationMemoryCopy); try done. misc_case p 10 Hs1'.
    do 2 f_equal. rewrite len_cons, len_app, Hz, Hz'. moved_eq.
  - apply (misc_by _ _ _ true newOperationMemoryFill); try done. misc_case p 11 Hs1'.
    do 2 f_equal. rewrite len_cons, Hz. moved_eq.
  - apply starts_split in Hs2 as [Hs2 Hs3]. apply (misc_by _ _ _ false (newOperationTableInit e t)); try done. misc_case p 12 Hs1'.
    rewrite (readU32_ok _ _ x e) by position.
    rewrite (readU32_ok _ _ y t) by position.
    do 2 f_equal. rewrite len_cons, len_app. cbn [pc skip set_pc]. rewrite Hc. moved_eq.
  - apply (misc_by _ _ _ false (newOperationElemDrop e)); try done. misc_case p 13 Hs1'.
    rewrite (lower_index_ok _ (p + 1) _ x e) by position.
    do 2 f_equal. rewrite len_cons. moved_eq.
  - apply starts_split in Hs2 as [Hs2 Hs3]. apply (misc_by _ _ _ false (newOperationTableCopy s d)); try done. misc_case p 14 Hs1'.
    rewrite (readU32_ok _ _ x d) by position.
    rewrite (readU32_ok _ _ y s) by position.
    do 2 f_equal. rewrite len_cons, len_app. cbn [pc skip set_pc]. rewrite Hc. moved_eq.
  - destruct (table_type _ _ Ht) as [E1 E2].
    apply (misc_by _ _ _ false (newOperationTableGrow t)); try done.
    + cbn [map rev app]. by rewrite E1.
    + change [i32t; tb_Type tab] with ([i32t] ++ [tb_Type tab]). by rewrite vsize_app, E2.
    + misc_case p 15 Hs1'. rewrite (lower_index_ok _ (p + 1) _ x t) by position.
      do 2 f_equal. rewrite len_cons. moved_eq.
  - apply (misc_by _ _ _ false (newOperationTableSize t)); try done. misc_case p 16 Hs1'.
    rewrite (lower_index_ok _ (p + 1) _ x t) by position.
    do 2 f_equal. rewrite len_cons. moved_eq.
  - destruct (table_type _ _ Ht) as [E1 E2].
    apply (misc_by _ _ _ false (newOperationTableFill t)); try done.
    + cbn [map rev app]. by rewrite E1.
    + change [i32t; tb_Type tab; i32t] with ([i32t] ++ [tb_Type tab] ++ [i32t]). by rewrite !vsize_app, E2.
    + misc_case p 17 Hs1'. rewrite (lower_index_ok _ (p + 1) _ x t) by position.
      do 2 f_equal. rewrite len_cons. moved_eq.
Qed.

Lemma emit_skip c o n : skip (emit c o) n = emit (skip c n) o.
Proof. unfold Lower.emit. destruct c as [? ? ? ? on]. cbn. destruct on, (Kind o); try done. by destruct (_ =? -1). Qed.
Lemma vec_by p op imm mem o ps rs :
  starts p (0xfd :: op :: imm) -> sig_agrees (cases op vec_signature) ps rs = true ->
  effect (TypeSection m) functions globals o = Some (vsize ps, vsize rs) /\ is_label o = false ->
  (forall c, pc c = p -> lower_vec needSourceOffset bodyOffset body c =
    Ok (emit (moved mem (p + len (op :: imm)) c) o)) ->
  lowers p (0xfd :: op :: imm) ps rs.
Proof.
  intros Hs Hsig [He Hl] Hlow. apply starts_byte in Hs as (_ & _ & _ & _ & Hs). apply sig_agrees_ok in Hsig.
  exists 0xfd, (op :: imm), 0, 0, mem, (fun _ => o). split_and!; try done.
  - unfold Lower.wasmOpcodeSignature. opcodes. unfold prefixed. rewrite Z.add_0_r, (byte_at _ _ _ Hs).
    by rewrite Hsig.
  - intros i peek c Hc. lower_case. apply Hlow. lia.
Qed.
Ltac vec_checked op Hb L :=
  assert (vec_lowered op = true) as L
    by (apply (checked vec_lowered); [|exact Hb]; unfold lowered_at; intros ? L;
        rewrite !andb_true_iff in L; by destruct_and! L);
  unfold vec_lowered in L; cbv zeta in L; rewrite !andb_true_iff in L; destruct_and! L.

Section vec.
Context (p op : Z) (imm : list Z).
Hypothesis Hs : starts p (0xfd :: op :: imm).
Notation lower_vec := (lower_vec needSourceOffset bodyOffset body).

Lemma vec_starts : is_byte op /\ starts (p + 1) (op :: imm) /\ starts (p + 1 + 1) imm.
Proof.
  pose proof (starts_byte _ _ _ Hs) as (_ & _ & _ & _ & Hs1).
  pose proof (starts_byte _ _ _ Hs1) as (_ & _ & Hb & _ & Hs2). done.
Qed.
Lemma lower_vec_start c : pc c = p -> readByte body c = Ok (op, set_pc c (p + 1)).
Proof. intros Hc. rewrite (readByte_ok _ op imm), Hc; [done|]. rewrite Hc. apply vec_starts. Qed.

Lemma vec_plain_lowers ps rs : imm = [] ->
  match case op vec_plain with
  | Some o => sig_agrees (cases op vec_signature) ps rs && op_agrees o ps rs
  | None => false
  end = true -> lowers p (0xfd :: op :: imm) ps rs.
Proof.
  intros Hi H. destruct (case op vec_plain) as [o|] eqn:Eo; [|done]. apply andb_true_iff in H as [Hsig Ho].
  apply (vec_by p op imm false o); try done; [by apply (op_agrees_effect o)|].
  intros c Hc. unfold Lower.lower_vec. rewrite (lower_vec_start c Hc), Eo. do 2 f_equal. rewrite Hi. moved_eq.
Qed.
Lemma vec_memory_lowers ps rs fits : memarg fits imm ->
  match case op vec_plain, case op vec_memory with
  | None, Some f => sig_agrees (cases op vec_signature) ps rs && op_agrees (f arg0) ps rs
  | _, _ => false
  end = true -> lowers p (0xfd :: op :: imm) ps rs.
Proof.
  intros Hm H. destruct (case op vec_plain) eqn:Ep; [done|]. destruct (case op vec_memory) as [f|] eqn:Ef; [|done].
  apply andb_true_iff in H as [Hsig Ho]. destruct (readMemoryArg_ok _ _ Hm) as [arg Harg].
  apply (vec_by p op imm true (f arg)); try done; [by apply (op_agrees_effect (f arg0)), (vec_memory_kind op)|].
  intros c Hc. unfold Lower.lower_vec. rewrite (lower_vec_start c Hc), Ep, Ef, Harg by apply vec_starts.
  do 2 f_equal. rewrite len_cons. moved_eq.
Qed.
Lemma vec_memoryLane_lowers bs lane ps rs fits : imm = bs ++ [lane] -> memarg fits bs ->
  match case op vec_plain, case op vec_memory, case op vec_memoryLane with
  | None, None, Some f => sig_agrees (cases op vec_signature) ps rs && op_agrees (f 0 arg0) ps rs
  | _, _, _ => false
  end = true -> lowers p (0xfd :: op :: imm) ps rs.
Proof.
  intros Hi Hm H. destruct (case op vec_plain) eqn:Ep; [done|]. destruct (case op vec_memory) eqn:Em; [done|].
  destruct (case op vec_memoryLane) as [f|] eqn:Ef; [|done].
  apply andb_true_iff in H as [Hsig Ho]. destruct (readMemoryArg_ok _ _ Hm) as [arg Harg].
  destruct vec_starts as (_ & _ & Hs2). rewrite Hi in Hs2. apply starts_split in Hs2 as [Hs2 Hs3].
  apply (vec_by p op imm true (f lane arg)); try done; [by apply (op_agrees_effect (f 0 arg0)), (vec_memoryLane_kind op)|].
  intros c Hc. unfold Lower.lower_vec. rewrite (lower_vec_start c Hc), Ep, Em, Ef, Harg by done.
  rewrite (readByte_ok _ lane []) by position. do 2 f_equal. rewrite Hi, len_cons, len_app. change (len [lane]) with 1.
  cbn [pc moved set_pc]. moved_eq.
Qed.
Lemma vec_lane_lowers lane ps rs : imm = [lane] ->
  match case op vec_plain, case op vec_memory, case op vec_memoryLane, case op vec_lane with
  | None, None, None, Some f => sig_agrees (cases op vec_signature) ps rs && op_agrees (f 0) ps rs
  | _, _, _, _ => false
  end = true -> lowers p (0xfd :: op :: imm) ps rs.
Proof.
  intros Hi H. destruct (case op vec_plain) eqn:Ep; [done|]. destruct (case op vec_memory) eqn:Em; [done|].
  destruct (case op vec_memoryLane) eqn:El; [done|]. destruct (case op vec_lane) as [f|] eqn:Ef; [|done].
  apply andb_true_iff in H as [Hsig Ho]. destruct vec_starts as (_ & _ & Hs2). rewrite Hi in Hs2.
  apply (vec_by p op imm false (f lane)); try done; [by apply (op_agrees_effect (f 0)), (vec_lane_kind op)|].
  intros c Hc. unfold Lower.lower_vec. rewrite (lower_vec_start c Hc), Ep, Em, El, Ef.
  rewrite (readByte_ok _ lane []) by position. do 2 f_equal. rewrite Hi. change (len [op; lane]) with 2.
  cbn [pc set_pc]. moved_eq.
Qed.
Lemma vec_const_lowers : op = 0x0c -> len imm = 16 -> lowers p (0xfd :: op :: imm) [] [v128t].
Proof.
  intros Hop Hl. destruct vec_starts as (_ & _ & Hs2).
  pose proof (take_drop 8 imm) as Ht. rewrite <-Ht in Hs2.
  assert (len (take 8 imm) = 8 /\ len (drop 8 imm) = 8) as [Hl1 Hl2].
  { unfold len in *. rewrite length_take, length_drop. lia. }
  pose proof (starts_split _ _ _ Hs2) as [_ Hs3].
  apply (vec_by p op imm false (newOperationV128Const (le_dec (take 8 imm)) (le_dec (drop 8 imm)))); try done.
  { rewrite Hop. vm_cast_no_check (@eq_refl bool true). }
  intros c Hc. unfold Lower.lower_vec. rewrite (lower_vec_start c Hc), Hop. table_none. opcodes.
  rewrite (littleEndian_ok 8 _ (take 8 imm) (drop 8 imm)) by (first [position|apply len_nonempty; lia]).
  rewrite (littleEndian_ok 8 _ (drop 8 imm) []) by
    (rewrite ?app_nil_r; first [apply len_nonempty; lia|rewrite Hl1 in Hs3; position]).
  rewrite emit_skip. do 2 f_equal. rewrite len_cons, Hl. moved_eq.
Qed.
Lemma vec_shuffle_lowers : op = 0x0d -> len imm = 16 -> lowers p (0xfd :: op :: imm) [v128t; v128t] [v128t].
Proof.
  intros Hop Hl. destruct vec_starts as (_ & _ & Hs2).
  apply (vec_by p op imm false (newOperationV128Shuffle (sub body (Z.to_nat (p + 1 + 1)) 16))); try done.
  { rewrite Hop. vm_cast_no_check (@eq_refl bool true). }
  pose proof (starts_bound _ _ Hs2 ltac:(apply len_nonempty; lia)).
  intros c Hc. unfold Lower.lower_vec. rewrite (lower_vec_start c Hc), Hop. table_none. opcodes.
  cbn [pc skip set_pc]. destruct (Z.ltb_spec (len body) (p + 1 + 1 + 16)); [lia|]. cbv iota.
  rewrite emit_skip. do 2 f_equal. rewrite len_cons, Hl. moved_eq.
Qed.
End vec.
Lemma vec_lowers p op bs ps rs : starts p (0xfd :: op :: bs) -> vec false memory op bs ps rs ->
  lowers p (0xfd :: op :: bs) ps rs.
Proof.
  intros Hs Hv. destruct (vec_starts p op bs Hs) as (Hb & _ & _).
  vec_checked op Hb L. destruct Hv as [bs Hl|op ps rs Hn|op bs _ Hm Hn|bs _ Hm|op bs lane n _ Hm Hn _|op bs lane n _ Hm Hn _
    |op lane n t Hn _|op lane n t Hn _|op t Hn|lanes Hl _].
  - by apply vec_const_lowers.
  - rewrite Hn in *. by apply vec_plain_lowers.
  - rewrite Hn in *. by eapply vec_memory_lowers.
  - by eapply vec_memory_lowers.
  - rewrite Hn in *. by eapply vec_memoryLane_lowers with (bs := bs) (lane := lane).
  - rewrite Hn in *. by eapply vec_memoryLane_lowers with (bs := bs) (lane := lane).
  - rewrite Hn in *. by apply vec_lane_lowers with lane.
  - rewrite Hn in *. by apply vec_lane_lowers with lane.
  - rewrite Hn in *. by apply vec_plain_lowers.
  - by apply vec_shuffle_lowers.
Qed.
Lemma atomic_by p op imm mem o ps rs :
  starts p (0xfe :: op :: imm) -> sig_agrees (cases op atomic_signature) ps rs = true ->
  effect (TypeSection m) functions globals o = Some (vsize ps, vsize rs) /\ is_label o = false ->
  (forall c, pc c = p -> readByte body c = Ok (op, set_pc c (p + 1)) ->
    lower_atomic needSourceOffset bodyOffset body c = Ok (emit (moved mem (p + len (op :: imm)) c) o)) ->
  lowers p (0xfe :: op :: imm) ps rs.
Proof.
  intros Hs Hsig [He Hl] Hlow. apply starts_byte in Hs as (_ & _ & _ & _ & Hs). apply sig_agrees_ok in Hsig.
  exists 0xfe, (op :: imm), 0, 0, mem, (fun _ => o). split_and!; try done.
  - unfold Lower.wasmOpcodeSignature. opcodes. unfold prefixed. rewrite Z.add_0_r, (byte_at _ _ _ Hs).
    by rewrite Hsig.
  - intros i peek c Hc. rewrite Z.add_0_r in Hc. lower_case. apply Hlow; [done|].
    rewrite (readByte_ok _ op imm), Hc by (by rewrite Hc). done.
Qed.
Lemma atomic_lowers p op bs w ps rs fits : starts p (0xfe :: op :: bs) -> memarg fits bs ->
  atomic_spec op = Some (w, ps, rs) -> lowers p (0xfe :: op :: bs) ps rs.
Proof.
  intros Hs Hm Hn. pose proof (starts_byte _ _ _ Hs) as (_ & _ & _ & _ & Hs1).
  pose proof (starts_byte _ _ _ Hs1) as (_ & _ & Hb & _ & Hs2).
  assert (atomic_lowered op = true) as Hl.
  { apply (checked atomic_lowered); [|done]. unfold lowered_at. intros b Hl. rewrite !andb_true_iff in Hl. by destruct_and! Hl. }
  unfold atomic_lowered in Hl. rewrite Hn in Hl. destruct (case op atomic_memory) as [f|] eqn:Ef; [|done].
  apply andb_true_iff in Hl as [Hsig Ho]. destruct (readMemoryArg_ok _ _ Hm) as [arg Harg].
  apply (atomic_by p op bs true (f arg)); try done; [by apply (op_agrees_effect (f arg0)), (atomic_memory_kind op)|].
  intros c Hc Hr. unfold lower_atomic. rewrite Hr, Ef, Harg by done. do 2 f_equal. rewrite len_cons. moved_eq.
Qed.
Lemma fence_lowers p : starts p [0xfe; 0x03; 0x00] -> lowers p [0xfe; 0x03; 0x00] [] [].
Proof.
  intros Hs. pose proof (starts_byte _ _ _ Hs) as (_ & _ & _ & _ & Hs1).
  pose proof (starts_byte _ _ _ Hs1) as (_ & _ & _ & _ & Hs2).
  apply (atomic_by p 3 [0] false newOperationAtomicFence); try done.
  intros c Hc Hr. unfold lower_atomic. rewrite Hr. table_none. opcodes.
  rewrite (readByte_ok _ 0 []) by done. do 2 f_equal. change (len [3; 0]) with 2. cbn [pc set_pc]. moved_eq.
Qed.

(** Instructions on locals, and [nop], are not of this form. *)
Lemma plain_lowers p bs ps rs : plain bs ps rs -> starts p bs -> short bs ->
  (exists rest, bs = 0x01 :: rest \/ bs = 0x20 :: rest \/ bs = 0x21 :: rest \/ bs = 0x22 :: rest) \/ lowers p bs ps rs.
Proof.
  intros Hp Hs Hsh. destruct Hp; try (left; eexists; by eauto); right.
  - by eapply memory_lowers.
  - by apply memory_size_lowers.
  - by apply memory_grow_lowers.
  - by eapply i32_const_lowers.
  - by eapply i64_const_lowers.
  - by apply f32_const_lowers.
  - by apply f64_const_lowers.
  - by eapply global_get_lowers.
  - by eapply global_set_lowers.
  - by eapply call_lowers.
  - by eapply call_indirect_lowers.
  - by apply numeric_lowers.
  - by apply ref_null_lowers.
  - by eapply ref_func_lowers.
  - by eapply table_get_lowers.
  - by eapply table_set_lowers.
  - by eapply trunc_lowers.
  - destruct o as [|b o]; [done|]. specialize (Hsh eq_refl). cbn [app] in *.
    pose proof (starts_byte _ _ _ Hs) as (_ & _ & _ & _ & Hs1). pose proof (starts_byte _ _ _ Hs1) as (_ & _ & Hb & _).
    destruct (leb_short b o op) as [-> ->]; [done..|]. by apply bulk_lowers.
  - by apply vec_lowers.
  - by apply fence_lowers.
  - by eapply atomic_lowers.
Qed.

(** *** Locals *)
Notation locals := (ft_Params functionType ++ localTypes).
Hypothesis Hcount : len locals < 2 ^ 31.

Lemma localHeights_last h ts : (localHeights h ts).2 = h + vsize ts.
Proof.
  revert h. induction ts as [|t ts IH]; intros h; cbn [localHeights]; [cbn; lia|].
  specialize (IH (h + (if t =? v128t then 2 else 1))). destruct (localHeights _ ts). cbn [snd] in *.
  rewrite IH, vsize_cons. lia.
Qed.
Lemma localHeights_lookup h ts i t : ts !! i = Some t ->
  (localHeights h ts).1 !! i = Some (h + vsize (take i ts)).
Proof.
  revert h i. induction ts as [|t' ts IH]; intros h i Hi; [done|]. cbn [localHeights].
  specialize (IH (h + (if t' =? v128t then 2 else 1))). destruct (localHeights _ ts). cbn [fst] in *.
  destruct i as [|i]; [cbn [take]; change (vsize []) with 0; by rewrite Z.add_0_r|].
  change (l !! i = Some (h + vsize (t' :: take i ts))). change (ts !! i = Some t) in Hi.
  rewrite (IH i Hi), vsize_cons. f_equal. lia.
Qed.
Lemma localHeights_length h ts : length (localHeights h ts).1 = length ts.
Proof.
  revert h. induction ts as [|t ts IH]; intros h; [done|]. cbn [localHeights].
  specialize (IH (h + (if t =? v128t then 2 else 1))). destruct (localHeights _ ts). cbn in *. lia.
Qed.
Lemma heights_lookup i t : locals !! i = Some t -> heights !! i = Some (vsize (take i locals)).
Proof.
  intros H. unfold localIndexToStackHeight. pose proof (localHeights_last 0 (ft_Params functionType)) as Hlast.
  pose proof (localHeights_length 0 (ft_Params functionType)) as Hlen.
  pose proof (localHeights_lookup 0 (ft_Params functionType)) as Hp.
  destruct (localHeights 0 (ft_Params functionType)) as [hs current]. cbn [fst snd] in *. subst current.
  unfold callFrameStackSize. cbn [andb Z.ltb Z.compare].
  destruct (decide (i < length (ft_Params functionType))%nat) as [Hi|Hi].
  - rewrite lookup_app_l in H by done. rewrite lookup_app_l by lia. rewrite (Hp i t H), take_app_le by lia. done.
  - rewrite lookup_app_r in H by lia. rewrite lookup_app_r by lia. rewrite Hlen.
    rewrite (localHeights_lookup _ _ _ t H). rewrite take_app_ge, vsize_app by lia. f_equal. lia.
Qed.
Lemma local_fits i t : locals !! i = Some t -> 0 <= vsize (take i locals) /\
  vsize (take i locals) + (if t =? v128t then 2 else 1) <= vsize locals.
Proof.
  intros H. split; [apply vsize_nonneg|]. rewrite <-(take_drop_middle _ _ _ H) at 2.
  rewrite vsize_app, vsize_cons. pose proof (vsize_nonneg (drop (S i) locals)). lia.
Qed.
Lemma local_value_type i t : locals !! i = Some t -> isValueType t = true.
Proof.
  intros H. assert (value_types locals) as Hv by (apply Forall_app; split; [apply (co_sig Hctx)|apply (co_locals Hctx)]).
  apply (Forall_lookup_1 _ _ _ _ Hv H).
Qed.
Lemma local_lookup i t : 0 <= i -> locals !! Z.to_nat i = Some t ->
  localOfSignature functionType localTypes i = Ok t /\ localType functionType localTypes i = Ok t.
Proof.
  intros H0 H. assert (u32 (len (ft_Params functionType)) = len (ft_Params functionType)) as E1.
  { apply wrapu_small. pose proof Hcount as Hc. rewrite len_app in Hc. pose proof (len_nonneg localTypes).
    pose proof (len_nonneg (ft_Params functionType)). unfold in_u. lia. }
  assert (u32 (len localTypes) = len localTypes) as E2.
  { apply wrapu_small. pose proof Hcount as Hc. rewrite len_app in Hc. pose proof (len_nonneg localTypes).
    pose proof (len_nonneg (ft_Params functionType)). unfold in_u. lia. }
  assert (u32 (len localTypes + len (ft_Params functionType)) = len locals) as E3.
  { rewrite len_app, Z.add_comm. apply wrapu_small. pose proof Hcount as Hc. rewrite len_app in Hc.
    pose proof (len_nonneg localTypes). pose proof (len_nonneg (ft_Params functionType)). unfold in_u. lia. }
  assert ((if i <? len (ft_Params functionType) then at_ (ft_Params functionType) i
           else at_ localTypes (i - len (ft_Params functionType))) = Ok t) as E.
  { destruct (Z.ltb_spec i (len (ft_Params functionType))); apply at_ok; unfold len in *.
    - by rewrite lookup_app_l in H by lia.
    - rewrite lookup_app_r in H by lia. by replace (Z.to_nat (i - Z.of_nat (length (ft_Params functionType)))) with
        (Z.to_nat i - length (ft_Params functionType))%nat by lia. }
  unfold localOfSignature, localType. rewrite E1, E2, E3. apply lookup_lt_Some in H.
  destruct (Z.leb_spec (len locals) i); [unfold len in *; lia|]. by rewrite E.
Qed.

(** The step of an instruction on a local, in the two kinds of code. *)
Lemma local_handle op bs i t c ps rs outer : starts (pc c) (op :: bs) -> leb_u32 bs i ->
  locals !! Z.to_nat i = Some t -> unreachable_on c = false -> stack c = map ut ps ++ outer ->
  (op = 0x20 /\ ps = [] /\ rs = [t]) \/ (op = 0x21 /\ ps = [t] /\ rs = []) \/ (op = 0x22 /\ ps = [t] /\ rs = [t]) ->
  handleInstruction c = let! c := lower op i (match stack c with t :: _ => t | [] => 0 end)
    (set_stack (set_pc (set_currentOpPC c (pc c)) (pc c + len bs)) (map ut (rev rs) ++ outer)
       (stackLenInUint64 c - vsize ps + vsize rs)) in Ok (next c).
Proof.
  intros Hs Hl Ht Hon Hst Hop. unfold Lower.handleInstruction. rewrite (byte_at _ _ _ Hs).
  destruct (local_lookup i t ltac:(pose proof (leb_range _ _ Hl); lia) Ht) as [E _].
  pose proof (ut_ok t (local_value_type _ _ Ht)) as Eu.
  assert (hasIndex op = true /\ op <> OpcodeEnd) as [Hi Hend] by (by destruct Hop as [[-> _]|[[-> _]|[-> _]]]).
  rewrite (apply_on op bs i (len bs) (set_currentOpPC c (pc c)) ps rs outer); try done.
  - by destruct (Z.eqb_spec op OpcodeEnd).
  - pose proof (reads_some op bs [] i Hi Hl) as Hr. by rewrite app_nil_r in Hr.
  - unfold Lower.wasmOpcodeSignature. destruct Hop as [(-> & -> & ->)|[(-> & -> & ->)|(-> & -> & ->)]]; opcodes;
      rewrite E; unfold wasmValueTypeToUnsignedOutSignature, wasmValueTypeToUnsignedInSignature,
      wasmValueTypeToUnsignedInOutSignature; by rewrite Eu.
Qed.
Lemma i64_u64 x : - 2 ^ 63 <= x < 2 ^ 63 -> i64 (u64 x) = x.
Proof. intros H. apply wraps_wrapu; [lia|done]. Qed.

Lemma emit_unreachable c o : unreachable_on (emit c o) = unreachable_on c.
Proof. unfold Lower.emit. destruct (unreachable_on c) eqn:E; [done|]. by destruct (match Kind o with operationKindDrop => _ | _ => _ end). Qed.
Lemma pick_runs depth (vec : bool) h : (if vec then 1 else 0) <= depth < h -> h < 2 ^ 63 ->
  runs [newOperationPick depth vec] h (h + (if vec then 2 else 1)).
Proof.
  intros Hd Hh. apply runs_straight; [done..|]. unfold straight. cbn [Kind newOperationPick B3 U1].
  rewrite i64_u64 by (destruct vec; lia).
  replace ((if vec then 1 else 0) <=? depth) with true by lia. replace (depth <? h) with true by lia.
  cbn [andb]. f_equal. destruct vec; lia.
Qed.
Lemma set_runs depth i (vec : bool) h h' : (if vec then 2 else 0) < depth < h -> h < 2 ^ 63 ->
  h' = h - (if vec then 2 else 1) -> 0 <= i < 2 ^ 32 -> runs [newOperationSet depth i vec] h h'.
Proof.
  intros Hd Hh -> Hi. apply runs_straight; [done..|]. unfold straight. cbn [Kind newOperationSet B3 U1 U2].
  rewrite i64_u64 by (destruct vec; lia).
  replace (2 * (if vec then 1 else 0) <? depth) with true by (destruct vec; lia). replace (depth <? h) with true by lia.
  replace (0 <=? i) with true by lia. replace (i <? 2 ^ 32) with true by lia.
  cbn [andb]. f_equal. destruct vec; lia.
Qed.

Section local.
Context (c : compiler) (bs : list Z) (i t : Z) (outer : list Z).
Hypothesis Hne : controlFrames c <> [].
Hypothesis Hleb : leb_u32 bs i.
Hypothesis Ht : locals !! Z.to_nat i = Some t.
Hypothesis Hon : unreachable_on c = false.
Hypothesis Hlen : stackLenInUint64 c = size (stack c).
Hypothesis Hbig : stackLenInUint64 c < 2 ^ 32.
Hypothesis Houter : vsize locals <= size outer.
Notation height := (vsize (take (Z.to_nat i) locals)).
Notation isVector := (t =? v128t).

Lemma local_height : 0 <= height /\ height + (if isVector then 2 else 1) <= size outer.
Proof. destruct (local_fits _ _ Ht). pose proof Houter. split; lia. Qed.
Lemma localDepth_ok c1 : localDepth heights c1 i = Ok (stackLenInUint64 c1 - 1 - height).
Proof. unfold localDepth. by rewrite (at_ok _ _ _ (heights_lookup _ _ Ht)). Qed.
Lemma localType_is : localType functionType localTypes i = Ok t.
Proof. apply local_lookup; [|done]. pose proof (leb_range _ _ Hleb). lia. Qed.
Lemma local_here op : starts (pc c) (op :: bs) -> pc c < len body.
Proof. intros Hs. by apply starts_byte in Hs as (_ & _ & _ & ? & _). Qed.

Ltac local_goes Hh Hst :=
  eexists _, _; split;
  [ split; [split_and!; [done|by eapply local_here|exact Hh]| | | | | | | |];
    rewrite ?emit_on by (by rewrite ?emit_unreachable); cbn [stack stackLenInUint64 currentFrameID controlFrames unreachable_on
      unreachable_depth pc ops next skip set_pc set_ops set_stack set_currentOpPC];
    rewrite ?Hst, ?len_cons, ?size_app, <-?(assoc_L (++)); try done; try lia
  | ].

Lemma local_get_on : starts (pc c) (0x20 :: bs) -> stack c = outer ->
  exists c' code, goes c c' (len (0x20 :: bs)) (map ut [t] ++ outer) code /\
    runs code (stackLenInUint64 c) (stackLenInUint64 c + vsize [t]).
Proof.
  intros Hs Hst. pose proof local_height as [? ?]. pose proof Hlen. pose proof Hbig.
  pose proof (local_handle 0x20 bs i t c [] [t] outer Hs Hleb Ht Hon Hst ltac:(auto)) as Hh.
  revert Hh. lower_case. unfold lower_local. rewrite localDepth_ok, localType_is. opcodes. intros Hh.
  local_goes Hh Hst.
  - change (vsize []) with 0. unfold vsize. lia.
  - assert (vsize [t] = if isVector then 2 else 1) as Ev by (rewrite vsize_cons; change (vsize []) with 0; lia).
    rewrite Ev. cbn [stackLenInUint64 set_stack set_pc]. change (vsize []) with 0.
    rewrite Hst in *. apply pick_runs; [|lia]. destruct isVector; lia.
Qed.
Lemma local_set_on : starts (pc c) (0x21 :: bs) -> stack c = map ut [t] ++ outer ->
  exists c' code, goes c c' (len (0x21 :: bs)) outer code /\
    runs code (stackLenInUint64 c) (stackLenInUint64 c - vsize [t]).
Proof.
  intros Hs Hst. pose proof local_height as [? ?]. pose proof Hlen. pose proof Hbig. pose proof (leb_range _ _ Hleb).
  pose proof (local_handle 0x21 bs i t c [t] [] outer Hs Hleb Ht Hon Hst ltac:(auto)) as Hh.
  revert Hh. lower_case. unfold lower_local. rewrite localDepth_ok, localType_is. opcodes. intros Hh.
  local_goes Hh Hst.
  - change (vsize []) with 0. unfold vsize. lia.
  - assert (vsize [t] = if isVector then 2 else 1) as Ev by (rewrite vsize_cons; change (vsize []) with 0; lia).
    rewrite Ev. cbn [stackLenInUint64 set_stack set_pc]. change (vsize []) with 0.
    rewrite Hst, size_app in *. fold (vsize [t]) in *. apply set_runs; destruct isVector; lia.
Qed.
Lemma local_tee_on : starts (pc c) (0x22 :: bs) -> stack c = map ut [t] ++ outer ->
  exists c' code, goes c c' (len (0x22 :: bs)) (map ut [t] ++ outer) code /\
    runs code (stackLenInUint64 c) (stackLenInUint64 c).
Proof.
  intros Hs Hst. pose proof local_height as [? ?]. pose proof Hlen. pose proof Hbig. pose proof (leb_range _ _ Hleb).
  pose proof (local_handle 0x22 bs i t c [t] [t] outer Hs Hleb Ht Hon Hst ltac:(auto)) as Hh.
  revert Hh. lower_case. unfold lower_local. rewrite localDepth_ok, localType_is. opcodes. intros Hh.
  local_goes Hh Hst.
  - assert (vsize [t] = if isVector then 2 else 1) as Ev by (rewrite vsize_cons; change (vsize []) with 0; lia).
    cbn [stackLenInUint64 set_stack set_pc]. rewrite Hst, size_app in *. fold (vsize [t]) in *.
    eapply runs_app; [apply pick_runs; destruct isVector; lia|].
    apply set_runs; destruct isVector; lia.
Qed.
End local.

(** *** Unreachable code *)
Lemma off_by op imm index k mem c :
  starts (pc c) (op :: imm) -> controlFrames c <> [] -> unreachable_on c = true ->
  reads_index op imm index k -> op <> OpcodeEnd ->
  (forall peek c1, unreachable_on c1 = true -> pc c1 = pc c + k -> controlFrames c1 <> [] ->
     lower op 0 peek c1 = Ok (moved mem (pc c + len imm) c1)) ->
  exists c', skips c c' (len (op :: imm)).
Proof.
  intros Hs Hne Hon Hr Hend Hlow. pose proof (starts_byte _ _ _ Hs) as (_ & _ & _ & Hlen & _).
  assert (Hh : handleInstruction c = Ok (next (moved mem (pc c + len imm)
    (set_pc (set_currentOpPC c (pc c)) (pc c + k))))).
  { unfold Lower.handleInstruction. rewrite (byte_at _ _ _ Hs).
    rewrite (apply_off op imm index k (set_currentOpPC c (pc c))) by done.
    destruct (Z.eqb_spec op OpcodeEnd); [done|]. rewrite Hlow by done. done. }
  eexists. split; [split_and!; [done..|exact Hh]| | | | | | | |]; destruct mem; cbn; rewrite ?len_cons; try done; lia.
Qed.
Lemma local_off op bs i t c : op = 0x20 \/ op = 0x21 \/ op = 0x22 -> starts (pc c) (op :: bs) ->
  controlFrames c <> [] -> leb_u32 bs i -> locals !! Z.to_nat i = Some t -> unreachable_on c = true ->
  exists c', skips c c' (len (op :: bs)).
Proof.
  intros Hop Hs Hne Hl Ht Hon.
  assert (exists t0, locals !! 0%nat = Some t0) as [t0 Ht0].
  { apply lookup_lt_is_Some. apply lookup_lt_Some in Ht. lia. }
  destruct (local_lookup 0 t0 ltac:(lia) Ht0) as [_ E].
  apply (off_by op bs i (len bs) false); try done.
  - assert (hasIndex op = true) as Hi by (by destruct Hop as [->|[-> | ->]]).
    pose proof (reads_some op bs [] i Hi Hl) as Hr. by rewrite app_nil_r in Hr.
  - by destruct Hop as [->|[-> | ->]].
  - intros peek c1 Hon1 Hc1 _. unfold moved. rewrite set_pc_same by (by symmetry).
    destruct Hop as [->|[-> | ->]]; lower_case; unfold lower_local, localDepth;
      rewrite (at_ok _ 0 _ (heights_lookup _ _ Ht0)), E; opcodes; by rewrite !emit_off by (by rewrite ?emit_off).
Qed.

(** *** Every plain instruction *)
Notation fits c outer := (vsize locals <= size outer /\ stackLenInUint64 c = size (stack c) /\
  stackLenInUint64 c < 2 ^ 32).

Lemma nop_on c : starts (pc c) [0x01] -> controlFrames c <> [] -> unreachable_on c = false ->
  exists c', goes c c' 1 (stack c) [].
Proof.
  intros Hs Hne Hon. pose proof (starts_byte _ _ _ Hs) as (_ & _ & _ & Hlen & _).
  assert (Hh : handleInstruction c = Ok (next (set_currentOpPC c (pc c)))).
  { unfold Lower.handleInstruction. rewrite (byte_at _ _ _ Hs).
    rewrite (apply_on 0x01 [] 0 0 (set_currentOpPC c (pc c)) [] [] (stack c)) by done.
    change (1 =? OpcodeEnd) with false. cbv iota. lower_case. do 2 f_equal.
    rewrite set_pc_same by (cbn; lia). apply set_stack_same; [done|]. change (vsize []) with 0. cbn. lia. }
  eexists. split; [split_and!; [done..|exact Hh]| | | | | | | |]; cbn; rewrite ?app_nil_r; try done; lia.
Qed.
Lemma plain_on c bs ps rs outer : plain bs ps rs -> short bs -> starts (pc c) bs -> controlFrames c <> [] ->
  unreachable_on c = false -> stack c = map ut ps ++ outer -> fits c outer ->
  exists c' code, goes c c' (len bs) (map ut (rev rs) ++ outer) code /\
    runs code (stackLenInUint64 c) (stackLenInUint64 c - vsize ps + vsize rs).
Proof.
  intros Hp Hsh Hs Hne Hon Hst (Hout & Hlen & Hbig).
  destruct (plain_lowers (pc c) bs ps rs Hp Hs Hsh) as [(rest & Hc)|Hlow].
  2:{ destruct (lowers_on c bs ps rs outer) as (c' & code & Hg & Hr); [done..|].
      exists c', code. split; [done|]. apply Hr. rewrite Hlen, Hst, size_app. fold (vsize ps).
      pose proof (vsize_nonneg locals). lia. }
  destruct Hp; try (exfalso; destruct Hc as [Hc|[Hc|[Hc|Hc]]]; discriminate Hc).
  - destruct (nop_on c Hs Hne Hon) as (c' & Hg). exists c', []. rewrite Hst in Hg. split; [exact Hg|].
    change (vsize []) with 0. replace (stackLenInUint64 c - 0 + 0) with (stackLenInUint64 c) by lia. apply runs_nil.
  - exfalso. destruct Hc as [Hc|[Hc|[Hc|Hc]]]; injection Hc as -> _; done.
  - destruct (local_get_on c bs i t outer) as (c' & code & Hg & Hr); try done.
    exists c', code. split; [exact Hg|]. change (vsize []) with 0. by rewrite Z.sub_0_r.
  - destruct (local_set_on c bs i t outer) as (c' & code & Hg & Hr); try done.
    exists c', code. split; [exact Hg|]. change (vsize []) with 0. by rewrite Z.add_0_r.
  - destruct (local_tee_on c bs i t outer) as (c' & code & Hg & Hr); try done.
    exists c', code. split; [exact Hg|]. by replace (stackLenInUint64 c - vsize [t] + vsize [t]) with (stackLenInUint64 c) by lia.
  - exfalso. destruct Hc as [Hc|[Hc|[Hc|Hc]]]; injection Hc as -> _; done.
Qed.
Lemma plain_off c bs ps rs : plain bs ps rs -> short bs -> starts (pc c) bs -> controlFrames c <> [] ->
  unreachable_on c = true -> exists c', skips c c' (len bs).
Proof.
  intros Hp Hsh Hs Hne Hon. destruct (plain_lowers (pc c) bs ps rs Hp Hs Hsh) as [(rest & Hc)|Hlow];
    [|by eapply lowers_off].
  destruct Hp; try (exfalso; destruct Hc as [Hc|[Hc|[Hc|Hc]]]; discriminate Hc).
  - apply (off_by 0x01 [] 0 0 false); try done. intros peek c1 _ Hc1 _. lower_case. f_equal. unfold moved.
    by rewrite set_pc_same.
  - exfalso. destruct Hc as [Hc|[Hc|[Hc|Hc]]]; injection Hc as -> _; done.
  - eapply local_off; eauto.
  - eapply local_off; eauto.
  - eapply local_off; eauto.
  - exfalso. destruct Hc as [Hc|[Hc|[Hc|Hc]]]; injection Hc as -> _; done.
Qed.

(** *** Ranges *)
Lemma AsU64_value r : in_u 32 (u32 (Start r)) -> AsU64 r = u32 (Start r) * 2 ^ 32 + u32 (End r).
Proof.
  intros _. unfold AsU64. pose proof (wrapu_range 32 (End r) ltac:(lia)) as [Hr1 Hr2].
  rewrite Z.lor_comm, <-Z.shiftl_mul_pow2 by lia. rewrite Z.add_comm. symmetry.
  rewrite <-Z.lxor_lor; [apply Z.add_nocarry_lxor|].
  all: apply Z.bits_inj'; intros n Hn; rewrite Z.land_spec, Z.bits_0, Z.shiftl_spec by lia.
  all: destruct (Z.lt_ge_cases n 32); [rewrite (Z.testbit_neg_r (u32 (Start r))) by lia; apply andb_false_r|].
  all: rewrite (Z.bits_above_log2 (u32 (End r)) n); [done|unfold u32; lia|].
  all: destruct (Z.eq_dec (u32 (End r)) 0) as [E|]; [rewrite E; cbn; lia|].
  all: assert (Z.log2 (u32 (End r)) < 32); [apply Z.log2_lt_pow2; unfold u32 in *; lia|lia].
Qed.
Lemma range_roundtrip a b : 0 <= a <= b -> b < 2 ^ 31 -> 0 <= AsU64 (mkRange a b) < 2 ^ 63 /\
  inclusiveRangeFromU64 (AsU64 (mkRange a b)) = mkRange a b.
Proof.
  intros Ha Hb. rewrite AsU64_value by (apply wrapu_range; lia). cbn [Start End].
  unfold u32. rewrite !wrapu_small by (unfold in_u; lia). change (2 ^ 32) with 4294967296.
  split; [lia|]. unfold inclusiveRangeFromU64, u32. rewrite Z.shiftr_div_pow2 by lia. change (2 ^ 32) with 4294967296.
  f_equal.
  - rewrite Z.div_add_l, Z.div_small, Z.add_0_r by lia. apply wraps_wrapu; unfold in_s; lia.
  - rewrite <-(wraps_wrapu 32 b) at 2 by (unfold in_s; lia). unfold i32. f_equal. unfold wrapu.
    rewrite Z.add_comm. apply Z_mod_plus_full.
Qed.
Lemma dropped_range a b h : 0 <= a <= b -> b < h -> b < 2 ^ 31 ->
  dropped (AsU64 (mkRange a b)) h = Some (h - (b - a + 1)).
Proof.
  intros Ha Hb Hh. unfold dropped. destruct (range_roundtrip a b Ha ltac:(lia)) as [_ ->]. cbn [Start End].
  replace (a =? -1) with false by lia. replace (0 <=? a) with true by lia. replace (a <=? b) with true by lia.
  by replace (b <? h) with true by lia.
Qed.
Lemma drop_runs a b h h' : 0 <= a <= b -> b < h -> b < 2 ^ 31 -> h' = h - (b - a + 1) ->
  runs [newOperationDrop (mkRange a b)] h h' /\ nop_drop (newOperationDrop (mkRange a b)) = false.
Proof.
  intros Ha Hb Hh ->. split.
  - apply runs_straight; [done..|]. unfold straight. cbn [Kind newOperationDrop U1]. by apply dropped_range.
  - unfold nop_drop. cbn [Kind newOperationDrop U1]. destruct (range_roundtrip a b Ha ltac:(lia)) as [Hr _].
    unfold i64. rewrite wraps_small by (unfold in_s; lia). lia.
Qed.

(** *** Parametric instructions *)
Lemma vsize_one t : vsize [t] = words (ut t).
Proof. unfold vsize. cbn [map]. rewrite size_cons. cbn [size foldr]. lia. Qed.
Lemma stackPop_ok c t st : stack c = t :: st -> stackPop c = Ok (t, set_stack c st (stackLenInUint64 c - words t)).
Proof. unfold stackPop. by intros ->. Qed.
Lemma drop_on c t outer : starts (pc c) [0x1a] -> controlFrames c <> [] -> unreachable_on c = false ->
  stack c = ut t :: outer -> fits c outer ->
  exists c' code, goes c c' 1 outer code /\ runs code (stackLenInUint64 c) (stackLenInUint64 c - vsize [t]).
Proof.
  intros Hs Hne Hon Hst (Hout & Hlen & Hbig). pose proof (starts_byte _ _ _ Hs) as (_ & _ & _ & Hlt & _).
  assert (vsize [t] = if t =? v128t then 2 else 1) as Ev by (rewrite vsize_cons; change (vsize []) with 0; lia).
  assert (Hh : handleInstruction c = Ok (next (emit (set_stack (set_currentOpPC c (pc c)) outer
    (stackLenInUint64 c - vsize [t])) (newOperationDrop (mkRange 0 (if t =? v128t then 1 else 0)))))).
  { unfold Lower.handleInstruction. rewrite (byte_at _ _ _ Hs). unfold Lower.applyToStack.
    change (hasIndex 0x1a) with false. cbn [unreachable_on set_currentOpPC]. rewrite Hon.
    rewrite (signature_main 0x1a _ _ signature_Unknown_None) by done. cbn [sig_in sig_out signature_Unknown_None rev app].
    cbn [popOperands]. rewrite (stackPop_ok _ (ut t) outer) by done. cbn [stack set_currentOpPC]. rewrite Hst.
    change (unsignedTypeUnknown =? unsignedTypeUnknown) with true. cbv iota. rewrite Z.eqb_refl. cbn [negb pushResults]. change (0x1a =? OpcodeEnd) with false. cbv iota.
    lower_case. unfold lower_drop. rewrite ut_vector. do 4 f_equal.
    cbn [set_stack stackLenInUint64 set_currentOpPC]. by rewrite vsize_one. }
  rewrite Hst, size_cons in Hlen. rewrite <-vsize_one in Hlen. pose proof (vsize_nonneg locals).
  destruct (drop_runs 0 (if t =? v128t then 1 else 0) (stackLenInUint64 c) (stackLenInUint64 c - vsize [t])) as [Hr Hn];
    [destruct (_ =? _); lia..|].
  eexists _, _. split; [|exact Hr].
  split; [split_and!; [done..|exact Hh]| | | | | | | |]; rewrite ?emit_on by done; cbn [stack stackLenInUint64 currentFrameID controlFrames unreachable_on
      unreachable_depth pc ops next skip set_pc set_ops set_stack set_currentOpPC]; try done.
  rewrite Hst, size_cons. rewrite <-vsize_one. lia.
Qed.
Lemma select_on c op imm t outer : (op = 0x1b /\ imm = []) \/ (op = 0x1c /\ len imm = 2) ->
  starts (pc c) (op :: imm) -> controlFrames c <> [] -> unreachable_on c = false ->
  stack c = ut i32t :: ut t :: ut t :: outer -> fits c outer ->
  exists c' code, goes c c' (len (op :: imm)) (ut t :: outer) code /\
    runs code (stackLenInUint64 c) (stackLenInUint64 c - vsize [i32t; t; t] + vsize [t]).
Proof.
  intros Hop Hs Hne Hon Hst (Hout & Hlen & Hbig). pose proof (starts_byte _ _ _ Hs) as (_ & _ & _ & Hlt & _).
  assert (Hh : handleInstruction c = Ok (next (emit (moved false (pc c + len imm) (set_stack (set_currentOpPC c (pc c)) (ut t :: outer)
    (stackLenInUint64 c - vsize [i32t; t; t] + vsize [t]))) (newOperationSelect (t =? v128t))))).
  { unfold Lower.handleInstruction. rewrite (byte_at _ _ _ Hs). unfold Lower.applyToStack.
    assert (hasIndex op = false /\ op <> OpcodeEnd /\ special op = false /\
      cases op main_signature = Some signature_UnknownUnknownI32_Unknown) as (-> & Hend & Hsp & Hsig)
      by (destruct Hop as [[-> _]|[-> _]]; done).
    cbn [unreachable_on set_currentOpPC]. rewrite Hon. rewrite (signature_main op _ _ _ Hsp Hsig).
    cbn [sig_in sig_out signature_UnknownUnknownI32_Unknown rev app].
    cbn [popOperands]. rewrite (stackPop_ok _ (ut i32t) (ut t :: ut t :: outer)) by done.
    change (unsignedTypeI32 =? unsignedTypeUnknown) with false. cbv iota.
    change (unsignedTypeI32 =? ut i32t) with true. cbn [negb]. cbv iota.
    rewrite (stackPop_ok _ (ut t) (ut t :: outer)) by done.
    change (unsignedTypeUnknown =? unsignedTypeUnknown) with true. cbv iota. rewrite Z.eqb_refl. cbn [negb].
    rewrite (stackPop_ok _ (ut t) outer) by done. rewrite Z.eqb_refl. cbn [negb]. cbv iota.
    cbn [pushResults]. change (unsignedTypeUnknown =? unsignedTypeUnknown) with true. cbv iota.
    destruct (Z.eqb_spec op OpcodeEnd); [done|].
    assert (forall c1 v, unreachable_on c1 = false -> stack c1 = ut t :: outer ->
      lower op 0 v c1 = Ok (emit (moved false (pc c1 + len imm) c1) (newOperationSelect (t =? v128t)))) as Hlow.
    { intros c1 v Hon1 Hst1. destruct Hop as [[-> ->]|[-> Hi]]; lower_case; unfold lower_select, stackPeek;
        cbn [unreachable_on stack skip set_pc]; rewrite Hon1, Hst1, ut_vector; do 2 f_equal.
      - unfold moved. by rewrite set_pc_same by (change (len (@nil Z)) with 0; lia).
      - rewrite Hi. moved_eq. }
    rewrite Hlow by done. do 4 f_equal. unfold stackPush. rewrite !set_stack_set. unfold moved.
    cbn [pc set_stack stackLenInUint64 set_currentOpPC stack]. f_equal. f_equal; [|by rewrite vsize_one].
    unfold vsize. cbn [map]. rewrite !size_cons. change (size []) with 0. lia. }
  assert (vsize [i32t; t; t] = 1 + vsize [t] + vsize [t]) as Ev.
  { change [i32t; t; t] with ([i32t] ++ [t] ++ [t]). rewrite !vsize_app. change (vsize [i32t]) with 1. lia. }
  rewrite Hst, !size_cons, <-(vsize_one t) in Hlen. change (words (ut i32t)) with 1 in Hlen. pose proof (vsize_nonneg locals).
  eexists _, [_]. split.
  - split; [split_and!; [done..|exact Hh]| | | | | | | |]; rewrite ?emit_on by done; cbn [stack stackLenInUint64 currentFrameID controlFrames unreachable_on
      unreachable_depth pc ops next skip set_pc set_ops set_stack set_currentOpPC moved]; rewrite ?len_cons; try done; try lia.
    rewrite Hst, !size_cons, <-(vsize_one t), Ev. change (words (ut i32t)) with 1. lia.
  - apply runs_effect; [|done|lia]. unfold effect, known, words_of. cbn [Kind newOperationSelect B3]. rewrite Ev, vsize_cons.
    change (vsize []) with 0. by destruct (t =? v128t).
Qed.
Lemma ref_is_null_lowers p t : FuncValidation.isReferenceValueType t = true -> starts p [0xd1] -> lowers p [0xd1] [t] [i32t].
Proof.
  intros Ht _. assert (t = ValueTypeFuncref \/ t = ValueTypeExternref) as Ht'.
  { unfold FuncValidation.isReferenceValueType in Ht. apply orb_true_iff in Ht as [Ht|Ht]; apply Z.eqb_eq in Ht; auto. }
  apply (lowers_by _ _ false (newOperationEqz unsignedInt64)); try (by destruct Ht' as [-> | ->]).
  intros i peek c Hc. unfold Lower.lower. change (case 0xd1 main_plain) with (Some (newOperationEqz unsignedInt64)).
  cbv iota. do 2 f_equal. unfold moved. by rewrite set_pc_same by (change (len (@nil Z)) with 0; lia).
Qed.

(** The same in unreachable code. *)
Lemma drop_off c : starts (pc c) [0x1a] -> controlFrames c <> [] -> unreachable_on c = true -> exists c', skips c c' 1.
Proof.
  intros Hs Hne Hon. apply (off_by 0x1a [] 0 0 false); try done. intros peek c1 Hon1 Hc1 _. lower_case.
  unfold lower_drop. rewrite emit_off by done. f_equal. unfold moved. by rewrite set_pc_same.
Qed.
Lemma select_off c op imm : (op = 0x1b /\ imm = []) \/ (op = 0x1c /\ len imm = 2) ->
  starts (pc c) (op :: imm) -> controlFrames c <> [] -> unreachable_on c = true -> exists c', skips c c' (len (op :: imm)).
Proof.
  intros Hop Hs Hne Hon. apply (off_by op imm 0 0 false); try done.
  - by destruct Hop as [[-> _]|[-> _]].
  - by destruct Hop as [[-> _]|[-> _]].
  - intros peek c1 Hon1 Hc1 _. destruct Hop as [[-> ->]|[-> Hi]]; lower_case; unfold lower_select;
      cbn [unreachable_on skip set_pc]; rewrite Hon1; f_equal.
    + unfold moved. by rewrite set_pc_same.
    + rewrite Hi. moved_eq.
Qed.
Lemma ref_is_null_off c : starts (pc c) [0xd1] -> controlFrames c <> [] -> unreachable_on c = true ->
  exists c', skips c c' 1.
Proof.
  intros Hs Hne Hon. apply (off_by 0xd1 [] 0 0 false); try done. intros peek c1 Hon1 Hc1 _.
  unfold Lower.lower. change (case 0xd1 main_plain) with (Some (newOperationEqz unsignedInt64)).
  cbv iota. rewrite emit_off by done. f_equal. unfold moved. by rewrite set_pc_same.
Qed.
End run.

End LowerRun.
