(* ===== verification/LowerSound.v ===== *)
(** * Lowering typed functions

    [compile] on a body that [FuncTyping] types: it succeeds, and the code it
    leaves has a flow ([LowerFlow]), so that once its labels are resolved a call
    never takes more from the stack than there is.  The proof follows the typing
    derivation; [inv] relates the state of the lowering to the labels in scope,
    with the height of the stack at each label placed or still to be placed. *)
From S2P Require Import Prelude Leb128 GoStd Opcodes WasmBinary WasmBinarySpec FuncValidation WasmModule FuncTyping FuncSoundness Operations Signature LowerTables Lower LowerFlow LowerRun.

Module LowerSound.
Import WasmBinary WasmBinarySpec FuncTyping Lower LowerFlow LowerRun.
Import FuncSoundness(starts).

Section sound.
Context (m : Module') (functions : list Z) (globals : list GlobalType) (memory : option Memory)
  (tables : list Table) (declared : gset Z) (functionType : FunctionType) (localTypes body : list Z)
  (features : Z) (ensureTermination needSourceOffset : bool) (bodyOffset : Z).

Notation heights := (localIndexToStackHeight callFrameStackSize functionType localTypes).
Notation handleInstruction := (handleInstruction (TypeSection m) functions globals features ensureTermination
  needSourceOffset bodyOffset functionType localTypes body heights).
Notation lower := (lower (TypeSection m) features ensureTermination needSourceOffset bodyOffset functionType
  localTypes body heights).
Notation emit := (emit needSourceOffset bodyOffset).
Notation lstep := (lstep m functions globals functionType localTypes body features ensureTermination
  needSourceOffset bodyOffset).
Notation goes := (goes m functions globals functionType localTypes body features ensureTermination
  needSourceOffset bodyOffset).
Notation skips := (skips m functions globals functionType localTypes body features ensureTermination
  needSourceOffset bodyOffset).
Notation plain := (plain false m functions globals memory tables declared functionType localTypes).
Notation instr_ok := (instr_ok false m functions globals memory tables declared functionType localTypes).
Notation seq_ok := (seq_ok false m functions globals memory tables declared functionType localTypes).
Notation results := (vsize (ft_Results functionType)).
Notation flows := (flows (TypeSection m) functions globals results).
Notation runs := (runs (TypeSection m) functions globals results).
Notation starts := (starts body).
Notation locals := (ft_Params functionType ++ localTypes).

Hypothesis Hbytes : bytes_ok body.
Hypothesis Hctx : context_ok m globals tables functionType localTypes.
Hypothesis Hcount : len locals < 2 ^ 31.
Hypothesis Hmulti : IsEnabled features CoreFeatureMultiValue = true.
(** No instruction leaves more than [K] words. *)
Context (K : Z).
Hypothesis HK : 2 <= K.
Hypothesis Hwide : Forall (fun ft => vsize (ft_Params ft) <= K /\ vsize (ft_Results ft) <= K)
  (functionType :: TypeSection m).
Hypothesis Hsize : vsize locals + K * (len body + 1) < 2 ^ 31.

(** ** Steps *)
Definition steps (c c' : compiler) : Prop := exists n, nsteps lstep n c c' /\ Z.of_nat n <= pc c' - pc c.
Lemma steps_refl c : steps c c.
Proof. exists 0%nat. split; [constructor|lia]. Qed.
Lemma steps_trans c1 c2 c3 : steps c1 c2 -> steps c2 c3 -> steps c1 c3.
Proof.
  intros (n & Hn & ?) (k & Hk & ?). exists (n + k)%nat. split; [by eapply nsteps_trans|lia].
Qed.
Lemma steps_one c c' : lstep c c' -> pc c + 1 <= pc c' -> steps c c'.
Proof. intros H Hp. exists 1%nat. split; [by eapply nsteps_once|lia]. Qed.

(** ** Frames *)
Definition base (f : controlFrame) : Z := originalStackLenWithoutParamUint64 f.
Definition pwords (f : controlFrame) : Z := vsize (ft_Params (blockType f)).
Definition rwords (f : controlFrame) : Z := vsize (ft_Results (blockType f)).
Definition header (f : controlFrame) : Z := newLabel labelKindHeader (frameID f).
Definition otherwise (f : controlFrame) : Z := newLabel labelKindElse (frameID f).
Definition continuation (f : controlFrame) : Z := newLabel labelKindContinuation (frameID f).

Definition is_if (f : controlFrame) : Prop :=
  kind f = controlFrameKindIfWithElse \/ kind f = controlFrameKindIfWithoutElse.
Record frame_ok (H : gmap Z Z) (f : controlFrame) (label : list Z) : Prop := {
  fo_kind : kind f <> controlFrameKindFunction;
  fo_id : in_u 32 (frameID f);
  fo_base : 0 <= base f;
  fo_params : value_types (ft_Params (blockType f));
  fo_results : value_types (ft_Results (blockType f));
  fo_wide : pwords f <= K /\ rwords f <= K;
  fo_label : label = match kind f with controlFrameKindLoop => ft_Params (blockType f)
                     | _ => ft_Results (blockType f) end;
  fo_header : H !! header f = Some (base f + pwords f);
  fo_else : H !! otherwise f = Some (base f + pwords f);
  fo_cont : H !! continuation f = Some (base f + rwords f) }.

Definition function_frame (f : controlFrame) : Prop :=
  kind f = controlFrameKindFunction /\ originalStackLenWithoutParam f = 0 /\ base f = 0 /\ blockType f = functionType.
Inductive frames_ok (H : gmap Z Z) : list controlFrame -> list (list Z) -> Prop :=
| frames_function f : function_frame f -> frames_ok H [f] [ft_Results functionType]
| frames_cons f fs label L : frame_ok H f label -> frames_ok H fs L -> frames_ok H (f :: fs) (label :: L).

(** Below [outer] a frame has the words it remembers. *)
Definition based (outer : list Z) (f : controlFrame) : Prop :=
  0 <= originalStackLenWithoutParam f <= len outer /\
  size (drop (length outer - Z.to_nat (originalStackLenWithoutParam f)) outer) = base f /\ base f <= size outer.
Definition under (outer : list Z) (fs : list controlFrame) : Prop :=
  Forall (based outer) fs /\ vsize locals <= size outer.

(** A block gets a continuation when it is branched to. *)
Definition evolves (f f' : controlFrame) : Prop := f' = f \/ f' = ensureContinuation f.

(** A label that the end of a frame, or its [else], will place. *)
Definition awaits (l : Z) (f : controlFrame) : Prop :=
  (l = continuation f /\ (kind f = controlFrameKindBlockWithContinuationLabel \/ is_if f)) \/
  (l = otherwise f /\ kind f = controlFrameKindIfWithoutElse).
Definition pending (fs : list controlFrame) (os : list unionOperation) (l : Z) : Prop :=
  IsReturnTarget l = true \/ l ∈ (os ≫= placed) \/ exists f, f ∈ fs /\ awaits l f.

(** ** The invariant *)
Definition labels_below (H : gmap Z Z) (last : Z) : Prop :=
  forall l h, H !! l = Some h -> label_fits l /\ IsReturnTarget l = false /\ 0 <= label_FrameID l <= last /\ 0 <= h.
Record inv (H : gmap Z Z) (L : list (list Z)) (c : compiler) : Prop := {
  i_flow : flows H (Some (vsize (ft_Params functionType))) (ops c) =
    Some (if unreachable_on c then None else Some (stackLenInUint64 c));
  i_labels : labels_below H (currentFrameID c);
  i_id : 1 <= currentFrameID c <= pc c + 1;
  i_frames : frames_ok H (controlFrames c) L;
  i_loops : Forall (fun f => kind f = controlFrameKindLoop -> header f ∈ (ops c ≫= placed)) (controlFrames c);
  i_pending : Forall (pending (controlFrames c) (ops c)) (ops c ≫= targets);
  i_len : stackLenInUint64 c = size (stack c);
  i_bound : stackLenInUint64 c <= vsize locals + K * pc c;
  i_depth : unreachable_depth c = 0;
  i_pc : 0 <= pc c }.


(** ** Monotonicity *)
Lemma arrives_mono H H' t : H ⊆ H' -> arrives results H t = true -> arrives results H' t = true.
Proof.
  intros Hs. unfold arrives. destruct t as [l h]. destruct (IsReturnTarget l); [done|].
  rewrite !bool_decide_eq_true. intros E. by eapply lookup_weaken.
Qed.
Lemma flow_mono H H' h o r : H ⊆ H' -> flow (TypeSection m) functions globals results H h o = Some r ->
  flow (TypeSection m) functions globals results H' h o = Some r.
Proof.
  intros Hs. destruct (is_label_cases o) as [Hl|Hl].
  - unfold flow. rewrite Hl. destruct h as [h|].
    + case_bool_decide as E; [|done]. intros <-. rewrite bool_decide_eq_true_2; [done|]. by eapply lookup_weaken.
    + destruct (H !! U1 o) as [h|] eqn:E; [|done]. by rewrite (lookup_weaken _ _ _ _ E Hs).
  - intros Hf. destruct (is_jump o) eqn:Hj.
    + destruct (flow_jump _ _ _ _ _ _ _ _ Hf Hj) as (n & ts & -> & -> & Ets & Ha). unfold flow.
      replace (match Kind o with operationKindLabel => _ | _ => _ end) with
        (if is_jump o then ts ← jumps o n; if forallb (arrives results H') ts then Some (@None Z) else None
         else Some <$> straight (TypeSection m) functions globals o n) by (by destruct (Kind o)).
      rewrite Hj, Ets. cbn. replace (forallb (arrives results H') ts) with true; [done|]. symmetry.
      rewrite forallb_forall in Ha |- *. intros t Ht. eapply arrives_mono; eauto.
    + destruct h as [h|]; [|unfold flow in Hf; by destruct (Kind o)].
      unfold flow in *. rewrite Hj in *. by destruct (Kind o).
Qed.
Lemma flows_mono H H' h os r : H ⊆ H' -> flows H h os = Some r -> flows H' h os = Some r.
Proof.
  intros Hs. revert h. induction os as [|o os IH]; intros h; [done|]. cbn.
  destruct (flow _ _ _ _ H h o) as [h'|] eqn:E; [|done]. rewrite (flow_mono _ _ _ _ _ Hs E). cbn. apply IH.
Qed.
Lemma frame_ok_mono H H' f label : H ⊆ H' -> frame_ok H f label -> frame_ok H' f label.
Proof. intros Hs []. split; try done; by eapply lookup_weaken. Qed.
Lemma frames_ok_mono H H' fs L : H ⊆ H' -> frames_ok H fs L -> frames_ok H' fs L.
Proof. intros Hs. induction 1; constructor; eauto using frame_ok_mono. Qed.

Lemma ensure_fields f : frameID (ensureContinuation f) = frameID f /\
  originalStackLenWithoutParam (ensureContinuation f) = originalStackLenWithoutParam f /\
  base (ensureContinuation f) = base f /\ blockType (ensureContinuation f) = blockType f.
Proof. unfold ensureContinuation. by destruct (kind f). Qed.
Lemma evolves_fields f f' : evolves f f' -> frameID f' = frameID f /\
  originalStackLenWithoutParam f' = originalStackLenWithoutParam f /\ base f' = base f /\ blockType f' = blockType f.
Proof. intros [-> | ->]; [done|apply ensure_fields]. Qed.
Lemma evolves_kind f f' : evolves f f' -> kind f' = kind f \/
  (kind f = controlFrameKindBlockWithoutContinuationLabel /\ kind f' = controlFrameKindBlockWithContinuationLabel).
Proof. intros [-> | ->]; [by left|]. unfold ensureContinuation. destruct (kind f) eqn:E; auto. Qed.
Lemma evolves_refl f : evolves f f.
Proof. by left. Qed.
Lemma ensure_idem f : ensureContinuation (ensureContinuation f) = ensureContinuation f.
Proof. unfold ensureContinuation. destruct f as [? ? ? ? []]; done. Qed.
Lemma evolves_trans f g h : evolves f g -> evolves g h -> evolves f h.
Proof. unfold evolves. intros [-> | ->] [-> | ->]; auto. right. apply ensure_idem. Qed.
Lemma evolves_all_refl fs : Forall2 evolves fs fs.
Proof. induction fs; constructor; auto using evolves_refl. Qed.
Lemma evolves_all_trans fs gs hs : Forall2 evolves fs gs -> Forall2 evolves gs hs -> Forall2 evolves fs hs.
Proof. intros H. revert hs. induction H; inversion 1; subst; constructor; eauto using evolves_trans. Qed.

Lemma frame_ok_evolves H f f' label : evolves f f' -> frame_ok H f label -> frame_ok H f' label.
Proof.
  intros He Hf. pose proof (evolves_fields _ _ He) as (E1 & E2 & E3 & E4). destruct (evolves_kind _ _ He) as [Ek|[Ek Ek']].
  - destruct Hf. unfold header, otherwise, continuation, pwords, rwords in *.
    split; unfold header, otherwise, continuation, pwords, rwords; rewrite ?Ek, ?E1, ?E3, ?E4; done.
  - destruct Hf as [? ? ? ? ? ? Hl ? ? ?]. unfold header, otherwise, continuation, pwords, rwords in *.
    split; unfold header, otherwise, continuation, pwords, rwords; rewrite ?Ek', ?E1, ?E3, ?E4; try done.
    by rewrite Ek in Hl.
Qed.
Lemma function_frame_evolves f f' : evolves f f' -> function_frame f -> function_frame f'.
Proof.
  intros He (Hk & H1 & H2 & H3). destruct He as [-> | ->]; [done|]. unfold ensureContinuation. rewrite Hk. done.
Qed.
Lemma frames_ok_evolves H fs fs' L : Forall2 evolves fs fs' -> frames_ok H fs L -> frames_ok H fs' L.
Proof.
  intros He Hf. revert fs' He. induction Hf as [f Hf|f fs label L Hf _ IH]; intros fs' He.
  - inversion He as [|? f' ? ? He' Hn]; subst. inversion Hn; subst. constructor. by eapply function_frame_evolves.
  - inversion He as [|? f' ? fs1 He' Hn]; subst. constructor; [by eapply frame_ok_evolves|auto].
Qed.
Lemma awaits_evolves l f f' : evolves f f' -> awaits l f -> awaits l f'.
Proof.
  intros He Ha. pose proof (evolves_fields _ _ He) as (E1 & _ & _ & _). unfold awaits, is_if, continuation, otherwise in *.
  rewrite E1. destruct (evolves_kind _ _ He) as [->|[Ek ->]]; [done|].
  rewrite Ek in Ha. destruct Ha as [[-> _]|[_ Hk]]; [left; auto|done].
Qed.
Lemma pending_mono fs fs' os os' l : Forall2 evolves fs fs' -> pending fs os l -> pending fs' (os ++ os') l.
Proof.
  intros He [H|[H|(f & Hf & Ha)]]; [by left|right; left; rewrite bind_app; apply elem_of_app; by left|right; right].
  apply list_elem_of_lookup in Hf as [i Hi]. destruct (Forall2_lookup_l _ _ _ _ _ He Hi) as (f' & Hi' & He').
  exists f'. split; [by eapply list_elem_of_lookup_2|by eapply awaits_evolves].
Qed.
Lemma based_app outer ts f : based outer f -> based (map ut ts ++ outer) f.
Proof.
  intros ([H0 H1] & H2 & H3). unfold based. rewrite len_app. pose proof (len_nonneg (map ut ts)). split_and!; [lia|lia| |].
  - rewrite length_app. unfold len in *.
    replace (length (map ut ts) + length outer - Z.to_nat (originalStackLenWithoutParam f))%nat with
      (length (map ut ts) + (length outer - Z.to_nat (originalStackLenWithoutParam f)))%nat by lia.
    rewrite <-drop_drop, drop_app_length. done.
  - rewrite size_app. pose proof (vsize_nonneg ts). unfold vsize in *. lia.
Qed.
Lemma based_evolves outer f f' : evolves f f' -> based outer f -> based outer f'.
Proof. intros He. destruct (evolves_fields _ _ He) as (_ & E2 & E3 & _). unfold based. by rewrite E2, E3. Qed.
Lemma under_app outer ts fs : under outer fs -> under (map ut ts ++ outer) fs.
Proof.
  intros [Hb Hl]. split; [eapply Forall_impl; [done|intros; by apply based_app]|].
  rewrite size_app. pose proof (vsize_nonneg ts). unfold vsize in *. lia.
Qed.
Lemma under_evolves outer fs fs' : Forall2 evolves fs fs' -> under outer fs -> under outer fs'.
Proof.
  intros He [Hb Hl]. split; [|done]. clear Hl. induction He; [done|]. apply Forall_cons in Hb as [? ?].
  constructor; [by eapply based_evolves|auto].
Qed.

(** ** Looking up frames *)
Lemma frames_ok_lookup H fs L n label : frames_ok H fs L -> L !! n = Some label ->
  exists f, fs !! n = Some f /\ ((function_frame f /\ label = ft_Results functionType) \/ frame_ok H f label).
Proof.
  intros Hf. revert n. induction Hf as [f Hf|f fs lt L Hf _ IH]; intros n Hn.
  - destruct n as [|n]; [|done]. injection Hn as <-. exists f. auto.
  - destruct n as [|n]; [injection Hn as <-; exists f; auto|]. by apply IH.
Qed.
Lemma frames_ok_last H fs L : frames_ok H fs L -> exists f, last fs = Some f /\ function_frame f.
Proof.
  induction 1 as [f Hf|f fs lt L Hf Hfs (g & Hg & Hfg)]; [by exists f|]. exists g. split; [|done].
  destruct fs; [done|]. by rewrite last_cons_cons.
Qed.
Lemma frames_ok_nonempty H fs L : frames_ok H fs L -> fs <> [].
Proof. by destruct 1. Qed.
Lemma update_evolves fs n f : fs !! n = Some f -> Forall2 evolves fs (<[n := ensureContinuation f]> fs).
Proof.
  intros H. apply Forall2_same_length_lookup_2; [by rewrite length_insert|]. intros i x y Hx Hy.
  destruct (decide (i = n)) as [->|Hi].
  - rewrite list_lookup_insert_eq in Hy by (by eapply lookup_lt_Some). injection Hy as <-.
    rewrite H in Hx. injection Hx as <-. by right.
  - rewrite list_lookup_insert_ne in Hy by done. left. congruence.
Qed.

(** ** New labels *)
Lemma fresh_label H last k id : labels_below H last -> last < id -> in_u 32 id -> 0 <= k < 256 -> H !! newLabel k id = None.
Proof.
  intros Hb Hl Hi Hk. destruct (H !! newLabel k id) as [h|] eqn:E; [|done].
  destruct (Hb _ _ E) as (_ & _ & Hr & _). destruct (newLabel_parts k id Hk Hi) as [_ Ef]. rewrite Ef in Hr. lia.
Qed.

Lemma label_below_insert H last k id h : labels_below H last -> last <= id -> in_u 32 id -> 0 <= k < 3 -> 0 <= h ->
  labels_below (<[newLabel k id := h]> H) id.
Proof.
  intros Hb Hl Hi Hk Hh l h' E. apply lookup_insert_Some in E as [[<- <-]|[_ E]].
  - destruct (newLabel_parts k id ltac:(lia) Hi) as [E1 E2]. unfold IsReturnTarget, labelKindReturn. rewrite E1, E2.
    split_and!; [apply newLabel_fits; [lia|done]|lia|destruct Hi; lia|lia|done].
  - destruct (Hb _ _ E) as (? & ? & ? & ?). split_and!; try done; lia.
Qed.
Lemma insert_fresh H last k id h : labels_below H last -> last < id -> in_u 32 id -> 0 <= k < 256 ->
  H ⊆ <[newLabel k id := h]> H.
Proof. intros. apply insert_subseteq. by eapply fresh_label. Qed.

Definition block_labels (H : gmap Z Z) (id b pw rw : Z) : gmap Z Z :=
  <[newLabel labelKindHeader id := b + pw]> (<[newLabel labelKindElse id := b + pw]>
    (<[newLabel labelKindContinuation id := b + rw]> H)).
Section block_labels.
Context (H : gmap Z Z) (last id b pw rw : Z).
Hypothesis Hbelow : labels_below H last.
Hypothesis Hid : last < id /\ in_u 32 id.

Lemma label_ne k k' : 0 <= k < 3 -> 0 <= k' < 3 -> k <> k' -> newLabel k id <> newLabel k' id.
Proof. intros ? ? Hk E. apply newLabel_inj in E as [? _]; [done|lia|lia|apply Hid|apply Hid]. Qed.
Lemma block_labels_sub : H ⊆ block_labels H id b pw rw.
Proof.
  unfold block_labels. destruct Hid as [Hl Hi].
  pose proof (fun k => fresh_label H last k id Hbelow Hl Hi) as Hf.
  etrans; [|apply insert_subseteq; rewrite !lookup_insert_ne by (apply label_ne; done); by apply Hf].
  etrans; [|apply insert_subseteq; rewrite !lookup_insert_ne by (apply label_ne; done); by apply Hf].
  apply insert_subseteq. by apply Hf.
Qed.
Lemma block_labels_below : 0 <= b -> 0 <= pw -> 0 <= rw -> labels_below (block_labels H id b pw rw) id.
Proof.
  intros. destruct Hid as [Hl Hi]. unfold block_labels.
  apply (label_below_insert _ id); [|lia|done|done|lia]. apply (label_below_insert _ id); [|lia|done|done|lia].
  apply (label_below_insert _ last); [done|lia|done|done|lia].
Qed.
Lemma block_labels_lookup : block_labels H id b pw rw !! newLabel labelKindHeader id = Some (b + pw) /\
  block_labels H id b pw rw !! newLabel labelKindElse id = Some (b + pw) /\
  block_labels H id b pw rw !! newLabel labelKindContinuation id = Some (b + rw).
Proof.
  unfold block_labels. split_and!.
  - by rewrite lookup_insert_eq.
  - rewrite lookup_insert_ne by (apply label_ne; done). by rewrite lookup_insert_eq.
  - rewrite !lookup_insert_ne by (apply label_ne; done). by rewrite lookup_insert_eq.
Qed.
End block_labels.

(** ** Dropping down to a label *)
Section drops.
Context (c : compiler) (f : controlFrame) (isEnd : bool) (w : Z).
Hypothesis Hw : w = match kind f with
                    | controlFrameKindLoop => if isEnd then rwords f else pwords f
                    | _ => rwords f
                    end.
Hypothesis Hfit : 0 <= base f /\ 0 <= w /\ base f + w <= stackLenInUint64 c /\ stackLenInUint64 c < 2 ^ 31.
Notation range := (getFrameDropRange c f isEnd).

Lemma range_cases : (stackLenInUint64 c = base f + w /\ range = nopinclusiveRange) \/
  (base f + w < stackLenInUint64 c /\ range = mkRange w (stackLenInUint64 c - 1 - base f)).
Proof.
  pose proof Hfit. assert (range = if w <=? stackLenInUint64 c - 1 - base f
    then mkRange (i32 w) (i32 (stackLenInUint64 c - 1 - base f)) else nopinclusiveRange) as ->.
  { rewrite Hw. unfold getFrameDropRange, rwords, pwords, ParamNumInUint64, ResultNumInUint64.
    rewrite !numInUint64_vsize. destruct (kind f); done. }
  destruct (Z.leb_spec w (stackLenInUint64 c - 1 - base f)); [right|left; split; [lia|done]].
  split; [lia|]. unfold i32. by rewrite !wraps_small by (unfold in_s; lia).
Qed.
Lemma dropped_frame : dropped (AsU64 range) (stackLenInUint64 c) = Some (base f + w).
Proof.
  pose proof Hfit. destruct range_cases as [[E ->]|[E ->]]; [by rewrite E|].
  rewrite dropped_range by lia. f_equal. lia.
Qed.
Lemma drop_frame c' : unreachable_on c' = false -> exists code offs,
  emit c' (newOperationDrop range) = set_ops c' (ops c' ++ code) offs /\ runs code (stackLenInUint64 c) (base f + w).
Proof.
  intros Hon. pose proof Hfit. destruct range_cases as [[E ->]|[E ->]].
  - exists [], (sourceOffsets c'). rewrite app_nil_r, E. split; [|apply runs_nil].
    unfold Lower.emit. rewrite Hon. change (Kind (newOperationDrop nopinclusiveRange)) with operationKindDrop.
    cbv iota. change (i64 (U1 (newOperationDrop nopinclusiveRange)) =? -1) with true. by destruct c'.
  - destruct (drop_runs m functions globals functionType w (stackLenInUint64 c - 1 - base f) (stackLenInUint64 c)
      (base f + w)) as [Hr Hn]; [lia..|].
    eexists _, _. split; [by apply emit_on|exact Hr].
Qed.
End drops.

(** ** Skipping unreachable code *)
Definition shortb (bs : list Z) : bool :=
  match bs with op :: b :: _ => negb (op =? OpcodeMiscPrefix) || (b <? 128) | _ => true end.
Lemma shortb_ok bs : shortb bs = true -> short bs.
Proof.
  unfold shortb, short. destruct bs as [|op [|b bs]]; [done..|]. intros H ->. rewrite Z.eqb_refl in H. cbn in H. lia.
Qed.
(** Every opcode after the misc prefix is written in one byte. *)
Fixpoint shorts (i : instr) : bool :=
  match i with
  | Plain bs => shortb bs
  | Block _ _ es | Loop _ _ es | If _ _ es => forallb shorts es
  | IfElse _ _ es es' => forallb shorts es && forallb shorts es'
  | _ => true
  end.

Record quiet (c c' : compiler) (d n : Z) : Prop := {
  q_steps : steps c c';
  q_stack : stack c' = stack c;
  q_len : stackLenInUint64 c' = stackLenInUint64 c;
  q_id : currentFrameID c' = currentFrameID c;
  q_frames : controlFrames c' = controlFrames c;
  q_on : unreachable_on c' = true;
  q_depth : unreachable_depth c' = unreachable_depth c + d;
  q_pc : pc c' = pc c + n;
  q_ops : ops c' = ops c }.
Lemma quiet_trans c1 c2 c3 d n d' n' : quiet c1 c2 d n -> quiet c2 c3 d' n' -> quiet c1 c3 (d + d') (n + n').
Proof. intros [] []. split; try congruence; [by eapply steps_trans|lia|lia]. Qed.
Lemma skips_quiet c c' n : skips c c' n -> 1 <= n -> quiet c c' 0 n.
Proof. intros [] Hn. split; try done; [|lia]. apply steps_one; [done|lia]. Qed.
Lemma quiet_step c c' d n : handleInstruction c = Ok c' -> controlFrames c <> [] -> pc c < len body -> 1 <= n ->
  stack c' = stack c -> stackLenInUint64 c' = stackLenInUint64 c -> currentFrameID c' = currentFrameID c ->
  controlFrames c' = controlFrames c -> unreachable_on c' = true ->
  unreachable_depth c' = unreachable_depth c + d -> pc c' = pc c + n -> ops c' = ops c -> quiet c c' d n.
Proof. intros. split; try done. apply steps_one; [done|lia]. Qed.

Lemma block_type_ok bs bt rest : block_type m bs bt ->
  FuncValidation.DecodeBlockType (TypeSection m) (bs ++ rest) features = Ok (bt, len bs).
Proof.
  intros (raw & Hd & Hbt). unfold FuncValidation.DecodeBlockType. rewrite (Leb128.DecodeInt33_extends bs rest _ Hd).
  cbn [map_err]. destruct Hbt as [[-> ->]|[(t & Hin & ->)|[H0 Hl]]]; [done| |].
  - cbn in Hin. repeat (destruct Hin as [Hin|Hin]; [injection Hin as <- <-; done|]). done.
  - repeat match goal with |- context [raw =? ?k] => replace (raw =? k) with false by lia end.
    unfold FuncValidation.requireEnabled. pose proof Hmulti as Hm. unfold IsEnabled in Hm. apply negb_true_iff in Hm. rewrite Hm. pose proof (lookup_lt_Some _ _ _ Hl).
    replace (raw <? 0) with false by lia. replace (len (TypeSection m) <=? raw) with false by (unfold len; lia).
    cbn [orb]. unfold FuncValidation.at_. by rewrite Hl.
Qed.
Lemma block_type_nonempty bs bt : block_type m bs bt -> bs <> [].
Proof. intros (raw & Hd & _) ->. done. Qed.
Lemma readBlockType_ok w c bs bt : block_type m bs bt -> starts (pc c + 1) bs ->
  readBlockType (TypeSection m) features body w c = Ok (bt, set_pc c (pc c + len bs)).
Proof.
  intros Hb Hs. destruct (from_starts body _ _ Hs (block_type_nonempty _ _ Hb)) as [rest Hf].
  unfold readBlockType. rewrite Hf, (block_type_ok bs bt rest Hb). done.
Qed.

(** Comparisons of opcodes in [lower]. *)
Ltac opcodes :=
  repeat match goal with
  | |- context [?a =? ?b] =>
      let r := eval vm_compute in (a =? b) in
      match r with true => change (a =? b) with true | false => change (a =? b) with false end
  end; cbn [orb andb]; cbv iota.
Ltac table_none :=
  repeat match goal with
  | |- context [@case ?A ?op ?t] =>
      let r := eval vm_compute in (match @case A op t with None => true | Some _ => false end) in
      match r with true => change (@case A op t) with (@None A) end
  end; cbv iota.
Ltac lower_case := unfold Lower.lower; table_none; opcodes.

Lemma enter_off op bs bt c : op = 0x02 \/ op = 0x03 \/ op = 0x04 -> block_type m bs bt -> starts (pc c) (op :: bs) ->
  controlFrames c <> [] -> unreachable_on c = true -> exists c', quiet c c' 1 (len (op :: bs)).
Proof.
  intros Hop Hb Hs Hne Hon. pose proof (starts_byte body Hbytes _ _ _ Hs) as (_ & _ & _ & Hlt & Hs').
  assert (Hh : handleInstruction c = Ok (next (enterUnreachable (set_pc (set_currentOpPC c (pc c)) (pc c + len bs))))).
  { unfold Lower.handleInstruction. rewrite (byte_at body Hbytes _ _ _ Hs).
    rewrite (apply_off m functions globals functionType localTypes body Hbytes op bs 0 0 (set_currentOpPC c (pc c)))
      by (done || by destruct Hop as [->|[-> | ->]]).
    rewrite set_pc_same by (cbn; lia).
    destruct Hop as [->|[-> | ->]]; (destruct (_ =? OpcodeEnd) eqn:E; [done|]); lower_case;
      unfold lower_block, lower_loop, lower_if; rewrite (readBlockType_ok _ _ bs bt) by done;
      cbn [unreachable_on set_pc set_currentOpPC]; by rewrite Hon. }
  eexists. eapply quiet_step; [exact Hh|done|done|..]; cbn; rewrite ?len_cons; pose proof (len_nonneg bs); try done; lia.
Qed.
Lemma else_off c : starts (pc c) [0x05] -> controlFrames c <> [] -> unreachable_on c = true -> 0 < unreachable_depth c ->
  exists c', quiet c c' 0 1.
Proof.
  intros Hs Hne Hon Hd. pose proof (starts_byte body Hbytes _ _ _ Hs) as (_ & _ & _ & Hlt & Hs').
  assert (Hh : handleInstruction c = Ok (next (set_currentOpPC c (pc c)))).
  { unfold Lower.handleInstruction. rewrite (byte_at body Hbytes _ _ _ Hs).
    rewrite (apply_off m functions globals functionType localTypes body Hbytes 0x05 [] 0 0 (set_currentOpPC c (pc c)))
      by done.
    rewrite set_pc_same by (cbn; lia). change (0x05 =? OpcodeEnd) with false. cbv iota. lower_case.
    unfold lower_else. cbn [controlFrames set_currentOpPC unreachable_on unreachable_depth].
    destruct (controlFrames c) as [|f fs]; [done|]. rewrite Hon. replace (0 <? unreachable_depth c) with true by lia. done. }
  eexists. eapply quiet_step; [exact Hh|done|done|..]; cbn; try done; lia.
Qed.
Lemma end_off c : starts (pc c) [0x0b] -> controlFrames c <> [] -> unreachable_on c = true -> 0 < unreachable_depth c ->
  exists c', quiet c c' (-1) 1.
Proof.
  intros Hs Hne Hon Hd. pose proof (starts_byte body Hbytes _ _ _ Hs) as (_ & _ & _ & Hlt & Hs').
  assert (Hh : handleInstruction c = Ok (next (set_unreachable (set_currentOpPC c (pc c)) true (unreachable_depth c - 1)))).
  { unfold Lower.handleInstruction. rewrite (byte_at body Hbytes _ _ _ Hs).
    rewrite (apply_off m functions globals functionType localTypes body Hbytes 0x0b [] 0 0 (set_currentOpPC c (pc c)))
      by done.
    rewrite set_pc_same by (cbn; lia). change (0x0b =? OpcodeEnd) with true. cbv iota.
    unfold lower_end. cbn [set_currentOpPC unreachable_on unreachable_depth].
    rewrite Hon. replace (0 <? unreachable_depth c) with true by lia. done. }
  eexists. eapply quiet_step; [exact Hh|done|done|..]; cbn; try done; lia.
Qed.

Notation off_by := (off_by m functions globals functionType localTypes body features ensureTermination
  needSourceOffset bodyOffset Hbytes).
Notation readU32_ok := (readU32_ok body).
Notation starts_byte := (starts_byte body Hbytes).
Notation starts_split := (starts_split body).

Lemma moved_here c p : pc c = p -> moved false (p + len (@nil Z)) c = c.
Proof. intros <-. unfold moved. apply set_pc_same. change (len (@nil Z)) with 0. lia. Qed.
Lemma markUnreachable_on c : unreachable_on c = true -> markUnreachable c = c.
Proof. intros H. destruct c. cbn in *. by subst. Qed.
Lemma unreachable_off c : starts (pc c) [0x00] -> controlFrames c <> [] -> unreachable_on c = true -> exists c', skips c c' 1.
Proof.
  intros Hs Hne Hon. apply (off_by 0x00 [] 0 0 false); try done.
  intros peek c1 Hon1 Hc1 _. lower_case. rewrite emit_off, markUnreachable_on by done. rewrite moved_here; [done|lia].
Qed.
Lemma return_off c : starts (pc c) [0x0f] -> controlFrames c <> [] -> unreachable_on c = true -> exists c', skips c c' 1.
Proof.
  intros Hs Hne Hon. apply (off_by 0x0f [] 0 0 false); try done.
  intros peek c1 Hon1 Hc1 Hne1. lower_case. unfold lower_return.
  destruct (last (controlFrames c1)) as [f|] eqn:E; [|by apply last_None in E].
  rewrite !emit_off, markUnreachable_on by (by rewrite ?emit_off). rewrite moved_here; [done|lia].
Qed.
Lemma br_off c bs l : leb_u32 bs l -> starts (pc c) (0x0c :: bs) -> controlFrames c <> [] -> unreachable_on c = true ->
  exists c', skips c c' (len (0x0c :: bs)).
Proof.
  intros Hl Hs Hne Hon. pose proof (starts_byte _ _ _ Hs) as (_ & _ & _ & _ & Hs').
  apply (off_by 0x0c bs 0 0 false); try done. intros peek c1 Hon1 Hc1 _. rewrite Z.add_0_r in Hc1. lower_case.
  unfold lower_br. rewrite (readU32_ok _ _ bs l) by (by rewrite ?Hc1). cbn [unreachable_on set_pc]. by rewrite Hon1, Hc1.
Qed.
Lemma br_if_off c bs l : leb_u32 bs l -> starts (pc c) (0x0d :: bs) -> controlFrames c <> [] -> unreachable_on c = true ->
  exists c', skips c c' (len (0x0d :: bs)).
Proof.
  intros Hl Hs Hne Hon. pose proof (starts_byte _ _ _ Hs) as (_ & _ & _ & _ & Hs').
  apply (off_by 0x0d bs 0 0 false); try done. intros peek c1 Hon1 Hc1 _. rewrite Z.add_0_r in Hc1. lower_case.
  unfold lower_br_if. rewrite (readU32_ok _ _ bs l) by (by rewrite ?Hc1). cbn [unreachable_on set_pc]. by rewrite Hon1, Hc1.
Qed.
Lemma leb_list_snoc bs vs b v : leb_list bs vs -> leb_u32 b v -> leb_list (bs ++ b) (vs ++ [v]).
Proof.
  intros H Hv. induction H; cbn [app].
  - rewrite <-(app_nil_r b). constructor; [done|constructor].
  - rewrite <-(assoc_L (++)). by constructor.
Qed.
Lemma skipTargets_ok bs vs c : leb_list bs vs -> starts (pc c + 1) bs ->
  skipTargets body (length vs) c = Ok (set_pc c (pc c + len bs)).
Proof.
  intros H. revert c. induction H as [|b bs v vs Hb _ IH]; intros c Hs; cbn [length skipTargets].
  { rewrite set_pc_same; [done|]. change (len (@nil Z)) with 0. lia. }
  apply starts_split in Hs as [Hs1 Hs2]. rewrite (readU32_ok _ _ b v) by done.
  rewrite IH by (cbn; by replace (pc c + len b + 1) with (pc c + 1 + len b) by lia).
  cbn. do 2 f_equal. rewrite len_app. lia.
Qed.
Lemma br_table_off c bs ls l : br_table_bytes bs ls l -> starts (pc c) (0x0e :: bs) -> controlFrames c <> [] ->
  unreachable_on c = true -> exists c', skips c c' (len (0x0e :: bs)).
Proof.
  intros (n & k & rest & lastb & -> & Hn & Hk & Hr & Hl) Hs Hne Hon. pose proof (starts_byte _ _ _ Hs) as (_ & _ & _ & _ & Hs').
  apply starts_split in Hs' as [Hs1 Hs2].
  apply (off_by 0x0e _ 0 0 false); try done. intros peek c1 Hon1 Hc1 _. rewrite Z.add_0_r in Hc1. lower_case.
  unfold lower_br_table. rewrite (readU32_ok _ _ n k) by (by rewrite ?Hc1). cbn [unreachable_on set_pc]. rewrite Hon1, Hk.
  replace (S (length ls)) with (length (ls ++ [l])) by (rewrite length_app; cbn; lia).
  rewrite (skipTargets_ok (rest ++ lastb)).
  - unfold moved. cbn. do 2 f_equal. rewrite !len_app. lia.
  - by apply leb_list_snoc.
  - cbn. rewrite Hc1. by replace (pc c + len n + 1) with (pc c + 1 + len n) by lia.
Qed.

Scheme instr_ok_min := Minimality for FuncTyping.instr_ok Sort Prop
  with seq_ok_min := Minimality for FuncTyping.seq_ok Sort Prop.
Combined Scheme typing_ind from instr_ok_min, seq_ok_min.

Definition off_instr (i : instr) : Prop := forall c, shorts i = true -> starts (pc c) (bytes i) ->
  controlFrames c <> [] -> unreachable_on c = true -> 0 <= unreachable_depth c -> exists c', quiet c c' 0 (len (bytes i)).
Definition off_seq (es : list instr) : Prop := forall c, forallb shorts es = true -> starts (pc c) (flat_map bytes es) ->
  controlFrames c <> [] -> unreachable_on c = true -> 0 <= unreachable_depth c ->
  exists c', quiet c c' 0 (len (flat_map bytes es)).

(** A block with its end. *)
Lemma block_off op bs bt es : op = 0x02 \/ op = 0x03 \/ op = 0x04 -> block_type m bs bt -> off_seq es ->
  forall c, forallb shorts es = true -> starts (pc c) (op :: bs ++ flat_map bytes es ++ [0x0b]) ->
    controlFrames c <> [] -> unreachable_on c = true -> 0 <= unreachable_depth c ->
    exists c', quiet c c' 0 (len (op :: bs ++ flat_map bytes es ++ [0x0b])).
Proof.
  intros Hop Hb Hes c Hsh Hs Hne Hon Hd. rewrite app_comm_cons in Hs |- *. apply starts_split in Hs as [Hs1 Hs2].
  apply starts_split in Hs2 as [Hs2 Hs3].
  destruct (enter_off op bs bt c) as [c1 Q1]; [done..|]. pose proof Q1 as [? ? ? ? Hf1 Hon1 Hd1 Hp1 ?].
  destruct (Hes c1) as [c2 Q2]; [done|by rewrite Hp1|by rewrite Hf1|done|lia|]. pose proof Q2 as [? ? ? ? Hf2 Hon2 Hd2 Hp2 ?].
  destruct (end_off c2) as [c3 Q3]; [by rewrite Hp2, Hp1|by rewrite Hf2, Hf1|done|lia|].
  exists c3. rewrite !len_app. change (len [0x0b]) with 1.
  apply (quiet_trans _ _ _ _ _ _ _ Q1 (quiet_trans _ _ _ _ _ _ _ Q2 Q3)).
Qed.
Lemma if_else_off bs bt es es' : block_type m bs bt -> off_seq es -> off_seq es' ->
  forall c, forallb shorts es = true -> forallb shorts es' = true ->
    starts (pc c) (0x04 :: bs ++ flat_map bytes es ++ 0x05 :: flat_map bytes es' ++ [0x0b]) ->
    controlFrames c <> [] -> unreachable_on c = true -> 0 <= unreachable_depth c ->
    exists c', quiet c c' 0 (len (0x04 :: bs ++ flat_map bytes es ++ 0x05 :: flat_map bytes es' ++ [0x0b])).
Proof.
  intros Hb Hes Hes' c Hsh Hsh' Hs Hne Hon Hd. rewrite app_comm_cons, (cons_middle 0x05) in Hs |- *.
  apply starts_split in Hs as [Hs1 Hs2]. apply starts_split in Hs2 as [Hs2 Hs3]. apply starts_split in Hs3 as [Hs3 Hs4].
  apply starts_split in Hs4 as [Hs4 Hs5].
  destruct (enter_off 0x04 bs bt c) as [c1 Q1]; [auto|done..|]. pose proof Q1 as [? ? ? ? Hf1 Hon1 Hd1 Hp1 ?].
  destruct (Hes c1) as [c2 Q2]; [done|by rewrite Hp1|by rewrite Hf1|done|lia|]. pose proof Q2 as [? ? ? ? Hf2 Hon2 Hd2 Hp2 ?].
  destruct (else_off c2) as [c3 Q3]; [by rewrite Hp2, Hp1|by rewrite Hf2, Hf1|done|lia|]. pose proof Q3 as [? ? ? ? Hf3 Hon3 Hd3 Hp3 ?].
  destruct (Hes' c3) as [c4 Q4]; [done|by rewrite Hp3, Hp2, Hp1|by rewrite Hf3, Hf2, Hf1|done|lia|].
  pose proof Q4 as [? ? ? ? Hf4 Hon4 Hd4 Hp4 ?].
  destruct (end_off c4) as [c5 Q5]; [by rewrite Hp4, Hp3, Hp2, Hp1|by rewrite Hf4, Hf3, Hf2, Hf1|done|lia|].
  exists c5. rewrite !len_app. change (len [0x0b]) with 1. change (len [0x05]) with 1.
  apply (quiet_trans _ _ _ _ _ _ _ Q1 (quiet_trans _ _ _ _ _ _ _ Q2 (quiet_trans _ _ _ _ _ _ _ Q3
    (quiet_trans _ _ _ _ _ _ _ Q4 Q5)))).
Qed.
Lemma seq_off es i : off_seq es -> off_instr i -> off_seq (es ++ [i]).
Proof.
  intros Hes Hi c Hsh Hs Hne Hon Hd. rewrite forallb_app in Hsh. apply andb_true_iff in Hsh as [Hsh Hshi].
  cbn [forallb] in Hshi. rewrite andb_true_r in Hshi. rewrite flat_map_app in Hs |- *. cbn [flat_map] in *.
  rewrite app_nil_r in *. apply starts_split in Hs as [Hs1 Hs2].
  destruct (Hes c) as [c1 Q1]; [done..|]. pose proof Q1 as [? ? ? ? Hf1 Hon1 Hd1 Hp1 ?].
  destruct (Hi c1) as [c2 Q2]; [done|by rewrite Hp1|by rewrite Hf1|done|lia|].
  exists c2. rewrite len_app. apply (quiet_trans _ _ _ _ _ _ _ Q1 Q2).
Qed.
Lemma quiet_skips c c1 (op : Z) (bs : list Z) : skips c c1 (len (op :: bs)) -> exists c', quiet c c' 0 (len (op :: bs)).
Proof. intros H. exists c1. apply skips_quiet; [done|]. rewrite len_cons. pose proof (len_nonneg bs). lia. Qed.

Lemma off_all : (forall L i ps rs, instr_ok L i ps rs -> off_instr i) /\
  (forall L es ts us, seq_ok L es ts us -> off_seq es).
Proof.
  apply typing_ind; try (intros; intros c Hsh Hs Hne Hon Hd; cbn [shorts bytes] in * ).
  - destruct (plain_off m functions globals memory tables declared functionType localTypes body features ensureTermination
      needSourceOffset bodyOffset Hbytes Hctx Hcount c bs ps rs ltac:(done) (shortb_ok _ Hsh) Hs Hne Hon) as [c' Hc'].
    destruct bs; [by match goal with Hp : plain [] _ _ |- _ => inversion Hp end|]. by eapply quiet_skips.
  - destruct (unreachable_off c) as [c' Hc']; [done..|]. by eapply (quiet_skips _ _ _ []).
  - destruct (return_off c) as [c' Hc']; [done..|]. by eapply (quiet_skips _ _ _ []).
  - edestruct (drop_off m) as [c' Hc']; [done..|]. by eapply (quiet_skips _ _ _ []).
  - edestruct (select_off m functions globals functionType localTypes body features ensureTermination
      needSourceOffset bodyOffset Hbytes c 0x1b []) as [c' Hc']; [by left|done..|]. by eapply quiet_skips.
  - edestruct (select_off m functions globals functionType localTypes body features ensureTermination
      needSourceOffset bodyOffset Hbytes c 0x1c [1; ann]) as [c' Hc']; [by right|done..|]. by eapply quiet_skips.
  - edestruct (ref_is_null_off m) as [c' Hc']; [done..|]. by eapply (quiet_skips _ _ _ []).
  - edestruct br_off as [c' Hc']; [done..|]. by eapply quiet_skips.
  - edestruct br_if_off as [c' Hc']; [done..|]. by eapply quiet_skips.
  - edestruct br_table_off as [c' Hc']; [done..|]. by eapply quiet_skips.
  - eapply (block_off 0x02); eauto.
  - eapply (block_off 0x03); eauto.
  - eapply (block_off 0x04); eauto.
  - apply andb_true_iff in Hsh as [? ?]. eapply if_else_off; eauto.
  - exists c. split; try done; [apply steps_refl|lia|]. change (len (flat_map bytes [])) with 0. lia.
  - eapply seq_off; eauto.
Qed.

(** ** The results of plain instructions *)
Definition one (rs : list Z) : bool := forallb isValueType rs && (len rs <=? 1).
Definition results_at (op : Z) : bool :=
  (match numeric_spec op with Some (_, rs) => one rs | None => true end) &&
  (match memory_spec op with Some (_, _, rs) => one rs | None => true end) &&
  (match vec_spec op with Some (_, rs) => one rs | None => true end) &&
  (match atomic_spec op with Some (_, _, rs) => one rs | None => true end) &&
  (match trunc_spec op with Some (_, r) => one [r] | None => true end) &&
  (match extract_spec op with Some (_, t) => one [t] | None => true end).
Lemma results_all op : is_byte op -> results_at op = true.
Proof.
  intros H. apply (zrange_forallb results_at 0 256); [|done].
  vm_cast_no_check (@eq_refl bool true).
Qed.
Lemma value_types_forallb ts : forallb isValueType ts = true -> value_types ts.
Proof. intros H. apply Forall_forall. intros t Ht. rewrite forallb_forall in H. by apply H, list_elem_of_In. Qed.
Lemma one_ok rs : one rs = true -> value_types rs /\ vsize rs <= K.
Proof.
  unfold one. intros [Hv Hl]%andb_true_iff. split; [by apply value_types_forallb|].
  pose proof HK. destruct rs as [|t [|t' rs]].
  - change (vsize []) with 0. lia.
  - rewrite vsize_cons. change (vsize []) with 0. destruct (_ =? _); lia.
  - rewrite !len_cons in Hl. pose proof (len_nonneg rs). lia.
Qed.
Lemma value_type_one t : isValueType t = true -> value_types [t] /\ vsize [t] <= K.
Proof. intros H. apply one_ok. unfold one. cbn. by rewrite H. Qed.
Lemma wide_type ti ft : TypeSection m !! ti = Some ft ->
  value_types (ft_Params ft) /\ value_types (ft_Results ft) /\ vsize (ft_Params ft) <= K /\ vsize (ft_Results ft) <= K.
Proof.
  intros H. destruct (Forall_lookup_1 _ _ _ _ (co_types _ _ _ _ _ Hctx) H).
  pose proof Hwide as Hw. apply Forall_cons in Hw as [_ Hw]. destruct (Forall_lookup_1 _ _ _ _ Hw H). done.
Qed.
Lemma reference_value_type t : FuncValidation.isReferenceValueType t = true -> isValueType t = true.
Proof.
  unfold FuncValidation.isReferenceValueType. intros [H|H]%orb_true_iff; apply Z.eqb_eq in H; by subst.
Qed.
Lemma vec_results op bs ps rs : is_byte op -> vec false memory op bs ps rs -> value_types rs /\ vsize rs <= K.
Proof.
  intros Hb Hv. pose proof (results_all op Hb) as Hr. unfold results_at in Hr. rewrite !andb_true_iff in Hr. destruct_and! Hr.
  destruct Hv; repeat match goal with E : _ _ = Some _ |- _ => rewrite E in *; clear E end; by apply one_ok.
Qed.
Lemma plain_results p bs ps rs : plain bs ps rs -> starts p bs -> short bs -> value_types rs /\ vsize rs <= K.
Proof.
  intros Hp Hs Hsh. destruct Hp; try (by apply one_ok).
  - apply starts_byte in Hs as (_ & _ & Hb & _). pose proof (results_all op Hb) as Hr.
    unfold results_at in Hr. rewrite !andb_true_iff in Hr. destruct_and! Hr.
    match goal with E : memory_spec _ = _ |- _ => rewrite E in * end. by apply one_ok.
  - apply value_type_one. eapply local_value_type; [exact Hctx|done].
  - apply value_type_one. eapply local_value_type; [exact Hctx|done].
  - apply value_type_one. match goal with E : globals !! _ = _ |- _ => apply (Forall_lookup_1 _ _ _ _ (co_globals _ _ _ _ _ Hctx) E) end.
  - edestruct wide_type as (? & ? & ? & ?); [done|]. done.
  - edestruct wide_type as (? & ? & ? & ?); [done|]. done.
  - apply starts_byte in Hs as (_ & _ & Hb & _). pose proof (results_all op Hb) as Hr.
    unfold results_at in Hr. rewrite !andb_true_iff in Hr. destruct_and! Hr.
    match goal with E : numeric_spec _ = _ |- _ => rewrite E in * end. by apply one_ok.
  - by apply value_type_one, reference_value_type.
  - apply value_type_one, reference_value_type.
    match goal with E : tables !! _ = _ |- _ => apply (Forall_lookup_1 _ _ _ _ (co_tables _ _ _ _ _ Hctx) E) end.
  - destruct o as [|b o]; [done|]. specialize (Hsh eq_refl). apply starts_byte in Hs as (_ & _ & _ & _ & Hs).
    apply starts_byte in Hs as (_ & _ & Hb & _). destruct (leb_short b o op) as [-> ->]; [done..|].
    pose proof (results_all b Hb) as Hr. unfold results_at in Hr. rewrite !andb_true_iff in Hr. destruct_and! Hr.
    match goal with E : trunc_spec _ = _ |- _ => rewrite E in * end. by apply one_ok.
  - match goal with Hbk : bulk _ _ _ _ _ _ _ |- _ => destruct Hbk end; by apply one_ok.
  - apply starts_byte in Hs as (_ & _ & _ & _ & Hs). apply starts_byte in Hs as (_ & _ & Hb & _).
    by eapply vec_results.
  - apply starts_byte in Hs as (_ & _ & _ & _ & Hs). apply starts_byte in Hs as (_ & _ & Hb & _).
    pose proof (results_all op Hb) as Hr. unfold results_at in Hr. rewrite !andb_true_iff in Hr. destruct_and! Hr.
    match goal with E : atomic_spec _ = _ |- _ => rewrite E in * end. by apply one_ok.
Qed.

(** ** Establishing the invariant *)
Lemma inv_any H H' L L' c c' code :
  inv H L c -> H ⊆ H' -> labels_below H' (currentFrameID c') ->
  1 <= currentFrameID c' <= pc c' + 1 -> ops c' = ops c ++ code ->
  flows H' (if unreachable_on c then None else Some (stackLenInUint64 c)) code =
    Some (if unreachable_on c' then None else Some (stackLenInUint64 c')) ->
  frames_ok H' (controlFrames c') L' ->
  Forall (fun f => kind f = controlFrameKindLoop -> header f ∈ (ops c' ≫= placed)) (controlFrames c') ->
  Forall (pending (controlFrames c') (ops c')) (ops c ≫= targets) ->
  Forall (pending (controlFrames c') (ops c')) (code ≫= targets) ->
  stackLenInUint64 c' = size (stack c') -> stackLenInUint64 c' <= vsize locals + K * pc c' ->
  unreachable_depth c' = 0 -> 0 <= pc c' -> inv H' L' c'.
Proof.
  intros [] Hsub Hb Hid Hops Hflow Hfr Hloops Hold Hnew Hlen Hbd Hd Hpc. split; try done.
  - rewrite Hops, flows_app, (flows_mono _ _ _ _ _ Hsub i_flow0). done.
  - rewrite Hops at 2. rewrite bind_app. apply Forall_app. by split.
Qed.
Lemma inv_intro H H' L L' c c' code :
  inv H L c -> unreachable_on c = false -> H ⊆ H' -> labels_below H' (currentFrameID c') ->
  1 <= currentFrameID c' <= pc c' + 1 -> ops c' = ops c ++ code ->
  flows H' (Some (stackLenInUint64 c)) code = Some (if unreachable_on c' then None else Some (stackLenInUint64 c')) ->
  frames_ok H' (controlFrames c') L' ->
  Forall (fun f => kind f = controlFrameKindLoop -> header f ∈ (ops c' ≫= placed)) (controlFrames c') ->
  Forall (pending (controlFrames c') (ops c')) (ops c ≫= targets) ->
  Forall (pending (controlFrames c') (ops c')) (code ≫= targets) ->
  stackLenInUint64 c' = size (stack c') -> stackLenInUint64 c' <= vsize locals + K * pc c' ->
  unreachable_depth c' = 0 -> 0 <= pc c' -> inv H' L' c'.
Proof. intros Hi Hon. intros. eapply inv_any; try done. by rewrite Hon. Qed.
Lemma inv_next H H' L c c' code :
  inv H L c -> unreachable_on c = false -> H ⊆ H' -> labels_below H' (currentFrameID c') ->
  1 <= currentFrameID c' <= pc c' + 1 -> Forall2 evolves (controlFrames c) (controlFrames c') ->
  ops c' = ops c ++ code ->
  flows H' (Some (stackLenInUint64 c)) code = Some (if unreachable_on c' then None else Some (stackLenInUint64 c')) ->
  Forall (pending (controlFrames c') (ops c')) (code ≫= targets) ->
  stackLenInUint64 c' = size (stack c') -> stackLenInUint64 c' <= vsize locals + K * pc c' ->
  unreachable_depth c' = 0 -> 0 <= pc c' -> inv H' L c'.
Proof.
  intros Hi Hon Hsub Hb Hid Hev Hops Hflow Hnew Hlen Hbd Hd Hpc. eapply inv_intro; try done.
  - eapply frames_ok_evolves; [done|]. eapply frames_ok_mono; [done|]. apply Hi.
  - pose proof (i_loops _ _ _ Hi) as Hl. apply Forall_forall. intros f' Hf' Hk.
    apply list_elem_of_lookup in Hf' as [i Hf']. destruct (Forall2_lookup_r _ _ _ _ _ Hev Hf') as (f & Hf & He).
    assert (kind f = controlFrameKindLoop) as Hk0.
    { destruct (evolves_kind _ _ He) as [E|[_ E]]; congruence. }
    unfold header. destruct (evolves_fields _ _ He) as (-> & _). rewrite Hops, bind_app. apply elem_of_app. left.
    by apply (Forall_lookup_1 _ _ _ _ Hl Hf).
  - eapply Forall_impl; [apply (i_pending _ _ _ Hi)|]. intros l Hl. rewrite Hops. by eapply pending_mono.
Qed.
(** A step of [LowerRun]. *)
Lemma inv_goes H L c c' n st code :
  inv H L c -> unreachable_on c = false -> goes c c' n st code -> runs code (stackLenInUint64 c) (stackLenInUint64 c') ->
  1 <= n -> stackLenInUint64 c' <= stackLenInUint64 c + K -> inv H L c'.
Proof.
  intros Hi Hon [Hstep Hst Hlen Hid Hfr Hon' Hd Hpc Hops] [Hr Ht] Hn Hb. pose proof HK.
  pose proof Hi as [_ Hlab Hids _ _ _ Hl Hbd Hdep Hp]. eapply (inv_next H H L c c' code); try done.
  - by rewrite Hid.
  - rewrite Hid. lia.
  - rewrite Hfr. apply evolves_all_refl.
  - by rewrite Hr, Hon'.
  - rewrite Ht. constructor.
  - rewrite Hst, Hlen. lia.
  - rewrite Hpc. nia.
  - lia.
  - lia.
Qed.
Lemma inv_quiet H L c c' n : inv H L c -> unreachable_on c = true -> quiet c c' 0 n -> 0 <= n -> inv H L c'.
Proof.
  intros [] Hon [] Hn. pose proof HK.
  split; rewrite ?q_ops0, ?q_on0, ?q_id0, ?q_frames0, ?q_len0, ?q_stack0, ?q_pc0; rewrite ?Hon in *; try done; try lia; nia.
Qed.
Lemma inv_small H L c : inv H L c -> pc c < len body -> 0 <= stackLenInUint64 c -> stackLenInUint64 c + K < 2 ^ 31.
Proof. intros [] Hp _. pose proof HK. pose proof Hsize. nia. Qed.

(** ** What is shown of an instruction and of a sequence *)
Record reaches (H H' : gmap Z Z) (L : list (list Z)) (c c' : compiler) (n : Z) : Prop := {
  r_steps : steps c c';
  r_labels : H ⊆ H';
  r_inv : inv H' L c';
  r_pc : pc c' = pc c + n;
  r_frames : Forall2 evolves (controlFrames c) (controlFrames c') }.
Definition leaves (c : compiler) (ts outer : list Z) : Prop :=
  (unreachable_on c = false /\ stack c = map ut ts ++ outer /\ value_types ts) \/
  (unreachable_on c = true /\ exists top, stack c = top ++ outer).
Definition lowered (L : list (list Z)) (bs : list Z) (ps rs : list Z) : Prop :=
  forall H c outer, inv H L c -> value_types ps -> starts (pc c) bs -> unreachable_on c = false ->
    stack c = map ut ps ++ outer -> under outer (controlFrames c) ->
    exists H' c', reaches H H' L c c' (len bs) /\ leaves c' rs outer.

Lemma reaches_trans H H1 H2 L c c1 c2 n n' :
  reaches H H1 L c c1 n -> reaches H1 H2 L c1 c2 n' -> reaches H H2 L c c2 (n + n').
Proof.
  intros [] []. split; [by eapply steps_trans|by etrans|done|lia|by eapply evolves_all_trans].
Qed.
Lemma reaches_goes H L c c' n st code ts rs outer :
  inv H L c -> unreachable_on c = false -> goes c c' n st code ->
  stack c = map ut ts ++ outer -> st = map ut rs ++ outer ->
  runs code (stackLenInUint64 c) (stackLenInUint64 c - vsize ts + vsize rs) ->
  1 <= n -> value_types rs -> vsize rs <= K -> reaches H H L c c' n /\ leaves c' rs outer.
Proof.
  intros Hi Hon Hg Hst Hst' Hr Hn Hv Hb. pose proof (vsize_nonneg ts).
  assert (stackLenInUint64 c' = stackLenInUint64 c - vsize ts + vsize rs) as E.
  { rewrite (go_len _ _ _ _ _ _ _ _ _ _ _ _ _ _ _ Hg), Hst, Hst', !size_app. unfold vsize. lia. }
  rewrite <-E in Hr. pose proof (inv_goes _ _ _ _ _ _ _ Hi Hon Hg Hr Hn ltac:(lia)) as Hi'. destruct Hg as [Hstep Hs1 _ _ Hf1 Hon1 _ Hp1 _].
  split; [split; try done|].
  - apply steps_one; [done|lia].
  - rewrite Hf1. apply evolves_all_refl.
  - left. by rewrite Hs1.
Qed.

(** ** Instructions that do not branch *)
Lemma inv_fits H L c ps outer bs : inv H L c -> starts (pc c) bs -> bs <> [] -> stack c = map ut ps ++ outer ->
  under outer (controlFrames c) ->
  controlFrames c <> [] /\ vsize locals <= size outer /\ stackLenInUint64 c = size (stack c) /\ stackLenInUint64 c < 2 ^ 32.
Proof.
  intros Hi Hs Hne Hst [_ Hu]. destruct bs as [|b bs]; [done|]. apply starts_byte in Hs as (_ & _ & _ & Hlt & _).
  pose proof (i_len _ _ _ Hi) as Hl. pose proof (vsize_nonneg locals). pose proof (vsize_nonneg ps).
  assert (0 <= stackLenInUint64 c) by (rewrite Hl, Hst, size_app; unfold vsize in *; lia).
  pose proof (inv_small _ _ _ Hi Hlt ltac:(done)). pose proof HK.
  split_and!; [by eapply frames_ok_nonempty, i_frames|done|done|lia].
Qed.
Lemma plain_lowered L bs ps rs : plain bs ps rs -> short bs -> lowered L bs ps (rev rs).
Proof.
  intros Hp Hsh H c outer Hi Hv Hs Hon Hst Hu. assert (bs <> []) as Hne by (by intros ->; inversion Hp).
  destruct (inv_fits _ _ _ _ _ _ Hi Hs Hne Hst Hu) as (Hfne & Hfit).
  destruct (plain_results _ _ _ _ Hp Hs Hsh) as [Hvr Hb].
  destruct (plain_on m functions globals memory tables declared functionType localTypes body features ensureTermination
    needSourceOffset bodyOffset Hbytes Hctx Hcount c bs ps rs outer) as (c' & code & Hg & Hr); [done..|].
  exists H, c'. eapply reaches_goes; try done.
  - by rewrite vsize_rev.
  - destruct bs; [done|]. rewrite len_cons. pose proof (len_nonneg bs). lia.
  - by apply Forall_rev.
  - by rewrite vsize_rev.
Qed.
Lemma drop_lowered L t : lowered L [0x1a] [t] [].
Proof.
  intros H c outer Hi Hv Hs Hon Hst Hu. destruct (inv_fits _ _ _ _ _ _ Hi Hs ltac:(done) Hst Hu) as (Hfne & Hfit).
  destruct (drop_on m functions globals functionType localTypes body features ensureTermination
    needSourceOffset bodyOffset Hbytes c t outer) as (c' & code & Hg & Hr); [done..|].
  exists H, c'. eapply (reaches_goes _ _ _ _ _ _ _ [t] []); try done.
  - change (vsize []) with 0. by rewrite Z.add_0_r.
  - constructor.
  - change (vsize []) with 0. pose proof HK. lia.
Qed.
Lemma select_lowered L op imm t : (op = 0x1b /\ imm = []) \/ (op = 0x1c /\ len imm = 2) ->
  lowered L (op :: imm) [i32t; t; t] [t].
Proof.
  intros Hop H c outer Hi Hv Hs Hon Hst Hu. destruct (inv_fits _ _ _ _ _ _ Hi Hs ltac:(done) Hst Hu) as (Hfne & Hfit).
  destruct (select_on m functions globals functionType localTypes body features ensureTermination
    needSourceOffset bodyOffset Hbytes c op imm t outer) as (c' & code & Hg & Hr); [done..|].
  assert (isValueType t = true) as Ht by (inversion Hv as [|? ? _ Hv']; by inversion Hv').
  destruct (value_type_one t Ht).
  exists H, c'. eapply (reaches_goes _ _ _ _ _ _ _ [i32t; t; t] [t]); try done.
  rewrite len_cons. pose proof (len_nonneg imm). lia.
Qed.
Lemma ref_is_null_lowered L t : FuncValidation.isReferenceValueType t = true \/ t = FuncValidation.valueTypeUnknown ->
  lowered L [0xd1] [t] [i32t].
Proof.
  intros Ht H c outer Hi Hv Hs Hon Hst Hu. destruct (inv_fits _ _ _ _ _ _ Hi Hs ltac:(done) Hst Hu) as (Hfne & Hout & Hlen & Hbig).
  destruct Ht as [Ht| ->]; [|by inversion Hv].
  destruct (lowers_on m functions globals functionType localTypes body features ensureTermination
    needSourceOffset bodyOffset Hbytes c [0xd1] [t] [i32t] outer) as (c' & code & Hg & Hr); try done.
  { by apply ref_is_null_lowers. }
  destruct (value_type_one i32t eq_refl).
  exists H, c'. eapply (reaches_goes _ _ _ _ _ _ _ [t] [i32t]); try done.
  apply Hr. rewrite Hlen, Hst, size_app. fold (vsize [t]). pose proof (vsize_nonneg locals). lia.
Qed.

(** ** Leaving reachable code *)
Ltac fields := cbn [stack stackLenInUint64 currentFrameID controlFrames unreachable_on unreachable_depth pc ops
  next skip set_pc set_ops set_stack set_currentOpPC set_frames set_unreachable markUnreachable resetUnreachable
  push_frame set_frameID set_callers calls_label app rev map].

(** The step of an instruction that reads no index and pops [ps]. *)
Lemma handle_on op imm c ps rs outer : starts (pc c) (op :: imm) -> unreachable_on c = false ->
  hasIndex op = false -> special op = false -> cases op main_signature = Some (mkSig (map ut (rev ps)) (map ut rs)) ->
  stack c = map ut ps ++ outer ->
  handleInstruction c =
    let! c := lower op 0 (match stack c with t :: _ => t | [] => 0 end)
      (set_stack (set_currentOpPC c (pc c)) (map ut (rev rs) ++ outer) (stackLenInUint64 c - vsize ps + vsize rs)) in
    Ok (next c).
Proof.
  intros Hs Hon Hi Hsp Hsig Hst. unfold Lower.handleInstruction. rewrite (byte_at body Hbytes _ _ _ Hs).
  destruct (special_index op Hsp) as [_ Hend].
  rewrite (apply_on m functions globals functionType localTypes body Hbytes op imm 0 0 (set_currentOpPC c (pc c)) ps rs outer);
    try done; [|by apply reads_none|by apply signature_main].
  destruct (Z.eqb_spec op OpcodeEnd); [done|]. rewrite set_pc_same by (cbn; lia). done.
Qed.
Lemma flows_one H h o : flows H h [o] = flow (TypeSection m) functions globals results H h o.
Proof. cbn. by destruct (flow _ _ _ _ _ _ _). Qed.
Lemma flows_br H h l : arrives results H (l, h) = true -> flows H (Some h) [newOperationBr l] = Some None.
Proof. intros Ha. rewrite flows_one. unfold flow. cbn [Kind newOperationBr is_jump jumps U1]. cbn. unfold arrives in Ha. by rewrite Ha. Qed.
Lemma flows_label H h l : H !! l = Some h -> forall h0, h0 = None \/ h0 = Some h ->
  flows H h0 [newOperationLabel l] = Some (Some h).
Proof.
  intros Hl h0 Hh. rewrite flows_one. unfold flow. cbn [Kind newOperationLabel U1].
  destruct Hh as [-> | ->]; [by rewrite Hl|]. by rewrite bool_decide_eq_true_2.
Qed.
Lemma unreachable_lowered L ts us : lowered L [0x00] ts us.
Proof.
  intros H c outer Hi Hv Hs Hon Hst Hu. pose proof (starts_byte _ _ _ Hs) as (_ & _ & _ & Hlt & _).
  pose proof (handle_on 0x00 [] c [] [] (stack c) Hs Hon eq_refl eq_refl eq_refl eq_refl) as Hh.
  revert Hh. lower_case. rewrite emit_on by done. intros Hh.
  pose proof Hi as [Hfl Hlab Hids Hfr Hlo Hpe Hl Hbd Hdep Hp]. pose proof HK.
  eexists H, _. split; [split|].
  - apply steps_one; [split_and!; [by eapply frames_ok_nonempty|done|exact Hh]|cbn; lia].
  - done.
  - eapply (inv_next H H L c _ [newOperationUnreachable]); try done; fields; change (vsize []) with 0;
      first [lia|apply evolves_all_refl|constructor|nia].
  - fields. change (len [0]) with 1. lia.
  - apply evolves_all_refl.
  - right. split; [done|]. fields. by exists (map ut ts).
Qed.

(** ** Branches *)
Lemma return_target : IsReturnTarget (newLabel labelKindReturn 0) = true.
Proof. done. Qed.
Definition loops_placed (fs : list controlFrame) (os : list unionOperation) : Prop :=
  Forall (fun f => kind f = controlFrameKindLoop -> header f ∈ (os ≫= placed)) fs.
Lemma loops_evolve fs fs' os : Forall2 evolves fs fs' -> loops_placed fs os -> loops_placed fs' os.
Proof.
  intros Hev Hl. apply Forall_forall. intros f' Hf' Hk. apply list_elem_of_lookup in Hf' as [i Hf'].
  destruct (Forall2_lookup_r _ _ _ _ _ Hev Hf') as (f & Hf & He).
  unfold header. destruct (evolves_fields _ _ He) as (-> & _). apply (Forall_lookup_1 _ _ _ _ Hl Hf).
  destruct (evolves_kind _ _ He) as [E|[_ E]]; congruence.
Qed.
Lemma target_ok H last L fs os n label outer :
  frames_ok H fs L -> labels_below H last -> loops_placed fs os -> L !! n = Some label -> under outer fs ->
  exists f, fs !! n = Some f /\
    let f' := ensureContinuation f in let fs' := <[n := f']> fs in
    arrives results H (asLabel f', base f' + vsize label) = true /\ pending fs' os (asLabel f') /\
    vsize label = (match kind f' with controlFrameKindLoop => if false then rwords f' else pwords f' | _ => rwords f' end) /\
    0 <= base f' <= size outer.
Proof.
  intros Hfs Hlabels Hl HL [Hu _]. destruct (frames_ok_lookup _ _ _ _ _ Hfs HL) as (f & Hf & Hcase).
  exists f. split; [done|]. cbv zeta.
  destruct (Forall_lookup_1 _ _ _ _ Hu Hf) as (_ & _ & Hb). pose proof (ensure_fields f) as (E1 & _ & E3 & E4).
  unfold pwords, rwords. rewrite E3, E4. destruct Hcase as [[(Hk & _ & Hb0 & Hbt) ->]|Hok].
  - unfold asLabel. unfold ensureContinuation. rewrite Hk. rewrite Hk, Hb0, Hbt. split_and!; try done; [|by left|lia].
    unfold arrives. rewrite return_target. apply Z.eqb_eq. lia.
  - pose proof (Forall_lookup_1 _ _ _ _ Hl Hf) as Hloop. cbv beta in Hloop.
    assert (forall l h, H !! l = Some h -> arrives results H (l, h) = true) as Harr.
    { intros l h Hlh. unfold arrives. destruct (Hlabels _ _ Hlh) as (_ & -> & _). by apply bool_decide_eq_true_2. }
    assert (ensureContinuation f ∈ <[n := ensureContinuation f]> fs) as Hin.
    { apply (list_elem_of_lookup_2 _ n). apply list_lookup_insert_eq. by eapply lookup_lt_Some. }
    destruct Hok as [Hkf _ Hb0 _ _ _ Hlab Hhd _ Hct]. unfold header, continuation, pwords, rwords in *.
    assert (0 <= base f <= size outer) as Hbb by lia. subst label.
    unfold asLabel. unfold ensureContinuation in *. destruct (kind f) eqn:Ek; try done; cbn [kind set_kind] in *; rewrite ?Ek in *;
      cbn [kind set_kind frameID]; rewrite ?Ek; split_and!; auto; try lia.
    all: try (right; left; by apply Hloop).
    all: right; right; eexists; (split; [exact Hin|]); left; unfold continuation, is_if; cbn [kind set_kind frameID]; rewrite ?Ek; auto.
Qed.

(** The height of a label is within the stack when its types are on it. *)
Lemma label_fits_stack H L c outer label x top : inv H L c -> under outer (controlFrames c) ->
  stack c = map ut x ++ map ut (rev label ++ top) ++ outer -> size outer + vsize label <= stackLenInUint64 c - vsize x.
Proof.
  intros Hi _ Hst. rewrite (i_len _ _ _ Hi), Hst, !size_app, map_app, size_app.
  fold (vsize x) (vsize (rev label)) (vsize top). rewrite vsize_rev. pose proof (vsize_nonneg top). lia.
Qed.

Lemma branchTo_ok c n f : 0 <= n -> controlFrames c !! Z.to_nat n = Some f ->
  branchTo c n = Ok (asLabel (ensureContinuation f), getFrameDropRange c (ensureContinuation f) false,
    calls_label (set_frames c (<[Z.to_nat n := ensureContinuation f]> (controlFrames c))) (asLabel (ensureContinuation f)) 1).
Proof. intros Hn Hf. unfold branchTo. by rewrite (at_ok _ _ _ Hf). Qed.

Lemma targets_br l : [newOperationBr l] ≫= targets = [l].
Proof. done. Qed.
Lemma br_lowered L bs l label ts us : leb_u32 bs l -> L !! Z.to_nat l = Some label ->
  lowered L (0x0c :: bs) (rev label ++ ts) us.
Proof.
  intros Hl HL H c outer Hi Hv Hs Hon Hst Hu. pose proof (starts_byte _ _ _ Hs) as (_ & _ & _ & Hlt & Hs').
  pose proof (leb_range _ _ Hl) as Hrange. pose proof HK.
  destruct (target_ok _ _ _ _ _ _ _ _ (i_frames _ _ _ Hi) (i_labels _ _ _ Hi) (i_loops _ _ _ Hi) HL Hu) as (f & Hf & Harr & Hpend & Hw & Hbase).
  set (f' := ensureContinuation f) in *. set (fs' := <[Z.to_nat l := f']> (controlFrames c)) in *.
  pose proof (label_fits_stack _ _ _ _ label [] ts Hi Hu Hst) as Hfit. change (vsize []) with 0 in Hfit.
  pose proof Hi as [Hfl Hlab Hids Hfr Hlo Hpe Hlen Hbd Hdep Hp].
  pose proof (inv_small _ _ _ Hi Hlt ltac:(pose proof (vsize_nonneg label); lia)) as Hsmall.
  pose proof (handle_on 0x0c bs c [] [] (stack c) Hs Hon eq_refl eq_refl eq_refl eq_refl) as Hh.
  revert Hh. lower_case. change (vsize []) with 0. unfold lower_br. rewrite (readU32_ok _ _ bs l) by done. fields. rewrite Hon.
  erewrite (branchTo_ok _ l f) by (done || lia). fold f'. fields. fold fs'.
  match goal with |- context [emit ?a (newOperationDrop (getFrameDropRange ?b f' false))] =>
    destruct (drop_frame b f' false (vsize label)) with (c' := a) as (code & offs & Hemit & Hruns) end; [exact Hw| |done|].
  { fields. pose proof (vsize_nonneg label). split_and!; lia. }
  rewrite Hemit. rewrite emit_on by done. intros Hh.
  assert (Forall2 evolves (controlFrames c) fs') as Hev by (by apply update_evolves).
  eexists H, _. split; [split|].
  - apply steps_one; [split_and!; [by eapply frames_ok_nonempty|done|exact Hh]|fields; pose proof (len_nonneg bs); lia].
  - done.
  - destruct Hruns as [Hruns Ht]. revert Hruns. fields. rewrite Z.sub_0_r, Z.add_0_r. intros Hruns.
    eapply (inv_next H H L c _ (code ++ [newOperationBr (asLabel f')])); try done; fields; rewrite ?Z.sub_0_r, ?Z.add_0_r.
    + pose proof (len_nonneg bs). lia.
    + by rewrite (assoc_L (++)).
    + rewrite flows_app, Hruns. cbn [mbind option_bind]. by apply flows_br.
    + rewrite bind_app, Ht. cbn [app]. rewrite targets_br. constructor; [|constructor].
      rewrite <-(assoc_L (++)). eapply pending_mono; [apply evolves_all_refl|done].
    + pose proof (len_nonneg bs). nia.
    + pose proof (len_nonneg bs). lia.
  - fields. rewrite len_cons. lia.
  - done.
  - right. split; [done|]. fields. exists (map ut (rev label ++ ts)). done.
Qed.

Lemma flows_cons H h o os : flows H h (o :: os) = h' ← flows H h [o]; flows H h' os.
Proof. rewrite flows_one. done. Qed.
Lemma next_id c : 1 <= currentFrameID c <= pc c + 1 -> pc c < len body -> u32 (currentFrameID c + 1) = currentFrameID c + 1 /\
  in_u 32 (currentFrameID c + 1).
Proof.
  intros Hi Hp. pose proof Hsize. pose proof HK. pose proof (vsize_nonneg locals).
  assert (in_u 32 (currentFrameID c + 1)) as Hu by (unfold in_u; nia). split; [by apply wrapu_small|done].
Qed.
Lemma flows_br_if H h l l' r h' : 1 <= h -> dropped (AsU64 r) (h - 1) = Some h' -> arrives results H (l, h') = true ->
  arrives results H (l', h - 1) = true ->
  flows H (Some h) [newOperationBrIf l l' r] = Some None.
Proof.
  intros Hh Hd Ha Ha'. rewrite flows_one. unfold flow. cbn [Kind newOperationBrIf is_jump jumps U1 U2 U3].
  destruct (Z.ltb_spec h 1); [lia|]. rewrite Hd. cbn [mbind option_bind forallb]. by rewrite Ha, Ha'.
Qed.
Lemma br_if_lowered L bs l label : leb_u32 bs l -> L !! Z.to_nat l = Some label ->
  lowered L (0x0d :: bs) (i32t :: rev label) (rev label).
Proof.
  intros Hl HL H c outer Hi Hv Hs Hon Hst Hu. pose proof (starts_byte _ _ _ Hs) as (_ & _ & _ & Hlt & Hs').
  pose proof (leb_range _ _ Hl) as Hrange. pose proof HK.
  destruct (target_ok _ _ _ _ _ _ _ _ (i_frames _ _ _ Hi) (i_labels _ _ _ Hi) (i_loops _ _ _ Hi) HL Hu) as
    (f & Hf & Harr & Hpend & Hw & Hbase).
  set (f' := ensureContinuation f) in *. set (fs' := <[Z.to_nat l := f']> (controlFrames c)) in *.
  pose proof (label_fits_stack _ _ _ _ label [i32t] [] Hi Hu ltac:(by rewrite app_nil_r)) as Hfit. change (vsize [i32t]) with 1 in Hfit.
  pose proof Hi as [Hfl Hlab Hids Hfr Hlo Hpe Hlen Hbd Hdep Hp]. pose proof (vsize_nonneg label).
  pose proof (inv_small _ _ _ Hi Hlt ltac:(lia)) as Hsmall.
  destruct (next_id c Hids Hlt) as [Eid Hid].
  set (id := currentFrameID c + 1) in *. set (H' := <[newLabel labelKindHeader id := stackLenInUint64 c - 1]> H).
  assert (H ⊆ H') as Hsub by (eapply insert_fresh; [done|lia|done|done]).
  assert (labels_below H' id) as Hlab' by (eapply label_below_insert; [done|lia|done|done|lia]).
  assert (H' !! newLabel labelKindHeader id = Some (stackLenInUint64 c - 1)) as Hnew by apply lookup_insert_eq.
  pose proof (handle_on 0x0d bs c [i32t] [] (map ut (rev label) ++ outer) Hs Hon eq_refl eq_refl eq_refl Hst) as Hh.
  revert Hh. lower_case. change (vsize []) with 0. change (vsize [i32t]) with 1. unfold lower_br_if.
  rewrite (readU32_ok _ _ bs l) by done. fields. rewrite Hon.
  erewrite (branchTo_ok _ l f) by (done || lia). fold f'. unfold nextFrameID. fields. fold fs'. fold id. rewrite Eid.
  match goal with |- context [newOperationBrIf _ _ (getFrameDropRange ?b f' false)] =>
    pose proof (dropped_frame b f' false (vsize label) Hw ltac:(fields; split_and!; lia)) as Hdrop end.
  revert Hdrop. fields. rewrite Z.add_0_r. intros Hdrop.
  rewrite !emit_on by (done || by rewrite emit_on). intros Hh.
  assert (Forall2 evolves (controlFrames c) fs') as Hev by (by apply update_evolves).
  eexists H', _. split; [split|].
  - apply steps_one; [split_and!; [by eapply frames_ok_nonempty|done|exact Hh]|fields; pose proof (len_nonneg bs); lia].
  - done.
  - eapply (inv_next H H' L c _ ([_] ++ [_])); try done; fields; rewrite ?Z.add_0_r.
    + pose proof (len_nonneg bs). lia.
    + rewrite <-(assoc_L (++)). reflexivity.
    + rewrite Hon, flows_cons. rewrite (flows_br_if _ _ _ _ _ (base f' + vsize label)); [|lia|done| |].
      * cbn [mbind option_bind]. apply flows_label; [done|by left].
      * by eapply arrives_mono.
      * unfold arrives. destruct (Hlab' _ _ Hnew) as (_ & -> & _). by apply bool_decide_eq_true_2.
    + cbn [mbind list_bind app targets newOperationBrIf newOperationLabel Kind U1 U2]. constructor; [|constructor; [|constructor]].
      * rewrite <-(assoc_L (++)). eapply pending_mono; [apply evolves_all_refl|done].
      * right; left. rewrite bind_app. apply elem_of_app. right. by apply list_elem_of_singleton.
    + rewrite Hlen, Hst, size_app, size_app. cbn [map]. rewrite size_cons. change (words (ut i32t)) with 1. lia.
    + pose proof (len_nonneg bs). nia.
    + pose proof (len_nonneg bs). lia.
  - fields. rewrite len_cons. lia.
  - done.
  - left. fields. split_and!; try done. by inversion Hv.
Qed.

Lemma return_lowered L ts us : lowered L [0x0f] (rev (ft_Results functionType) ++ ts) us.
Proof.
  intros H c outer Hi Hv Hs Hon Hst Hu. pose proof (starts_byte _ _ _ Hs) as (_ & _ & _ & Hlt & _). pose proof HK.
  destruct (frames_ok_last _ _ _ (i_frames _ _ _ Hi)) as (f & Hf & Hk & _ & Hb & Hbt).
  pose proof (label_fits_stack _ _ _ _ (ft_Results functionType) [] ts Hi Hu Hst) as Hfit. change (vsize []) with 0 in Hfit.
  pose proof Hi as [Hfl Hlab Hids Hfr Hlo Hpe Hlen Hbd Hdep Hp]. pose proof (vsize_nonneg (ft_Results functionType)).
  assert (0 <= size outer) by (destruct Hu as [_ Hu]; pose proof (vsize_nonneg locals); lia).
  pose proof (inv_small _ _ _ Hi Hlt ltac:(lia)) as Hsmall.
  pose proof (handle_on 0x0f [] c [] [] (stack c) Hs Hon eq_refl eq_refl eq_refl eq_refl) as Hh.
  revert Hh. lower_case. change (vsize []) with 0. unfold lower_return. fields. rewrite Hf.
  match goal with |- context [emit ?a (newOperationDrop (getFrameDropRange ?b f false))] =>
    destruct (drop_frame b f false results) with (c' := a) as (code & offs & Hemit & Hruns) end;
    [unfold rwords; by rewrite Hk, Hbt|fields; split_and!; lia|done|].
  rewrite Hemit. rewrite emit_on by done. unfold asLabel. rewrite Hk. intros Hh.
  eexists H, _. split; [split|].
  - apply steps_one; [split_and!; [by eapply frames_ok_nonempty|done|exact Hh]|fields; lia].
  - done.
  - destruct Hruns as [Hruns Ht]. revert Hruns. fields. rewrite Z.sub_0_r, Z.add_0_r. intros Hruns.
    eapply (inv_next H H L c _ (code ++ [newOperationBr (newLabel labelKindReturn 0)])); try done; fields; rewrite ?Z.sub_0_r, ?Z.add_0_r.
    + lia.
    + apply evolves_all_refl.
    + by rewrite (assoc_L (++)).
    + rewrite flows_app, Hruns. cbn [mbind option_bind]. apply flows_br. unfold arrives. rewrite return_target.
      apply Z.eqb_eq. lia.
    + rewrite bind_app, Ht. cbn [app]. rewrite targets_br. constructor; [by left|constructor].
    + nia.
    + lia.
  - fields. change (len [15]) with 1. lia.
  - apply evolves_all_refl.
  - right. split; [done|]. fields. by exists (map ut (rev (ft_Results functionType) ++ ts)).
Qed.

(** *** Branch tables *)
Definition good_target (H : gmap Z Z) (fs : list controlFrame) (os : list unionOperation) (h : Z) (t : Z * Z) : Prop :=
  exists h', dropped t.2 h = Some h' /\ arrives results H (t.1, h') = true /\ pending fs os t.1.
Lemma good_target_evolves H fs fs' os h t : Forall2 evolves fs fs' -> good_target H fs os h t -> good_target H fs' os h t.
Proof.
  intros He (h' & ? & ? & Hp). exists h'. split_and!; [done..|]. pose proof (pending_mono _ _ _ [] _ He Hp) as Hp'.
  by rewrite app_nil_r in Hp'.
Qed.
(** What reading a table leaves alone. *)
Record same_code (c c' : compiler) (n : Z) : Prop := {
  sc_stack : stack c' = stack c;
  sc_len : stackLenInUint64 c' = stackLenInUint64 c;
  sc_id : currentFrameID c' = currentFrameID c;
  sc_on : unreachable_on c' = unreachable_on c;
  sc_depth : unreachable_depth c' = unreachable_depth c;
  sc_pc : pc c' = pc c + n;
  sc_ops : ops c' = ops c;
  sc_frames : Forall2 evolves (controlFrames c) (controlFrames c') }.

Lemma readTargets_ok H last L args outer ls bs size0 : leb_list bs ls ->
  forall c acc, starts (pc c + 1) bs -> frames_ok H (controlFrames c) L -> labels_below H last ->
    loops_placed (controlFrames c) (ops c) -> under outer (controlFrames c) ->
    size outer + vsize args <= stackLenInUint64 c -> stackLenInUint64 c < 2 ^ 31 ->
    Forall (fun l => L !! Z.to_nat l = Some args) ls -> len acc + 2 * len ls <= size0 ->
    exists us ps c', readTargets body (length ls) size0 c acc = Ok (acc ++ us, c') /\ pairs us = Some ps /\
      length ps = length ls /\ same_code c c' (len bs) /\
      Forall (good_target H (controlFrames c') (ops c') (stackLenInUint64 c)) ps.
Proof.
  induction 1 as [|b bs l ls Hb _ IH]; intros c acc Hs Hfr Hlab Hlo Hu Hfit Hsmall Hls Hsz.
  { exists [], [], c. cbn [readTargets length]. rewrite app_nil_r. split_and!; try done.
    split; try done; [change (len (@nil Z)) with 0; lia|apply evolves_all_refl]. }
  apply Forall_cons in Hls as [Hl Hls]. rewrite len_cons in Hsz. apply starts_split in Hs as [Hs1 Hs2].
  destruct (target_ok _ _ _ _ _ _ _ _ Hfr Hlab Hlo Hl Hu) as (f & Hf & Harr & Hpend & Hw & Hbase).
  pose proof (leb_range _ _ Hb). pose proof (vsize_nonneg args). pose proof (len_nonneg ls).
  cbn [readTargets length]. rewrite (readU32_ok _ _ b l) by done.
  rewrite (branchTo_ok _ l f) by (done || lia).
  set (f' := ensureContinuation f) in *. set (fs' := <[Z.to_nat l := f']> (controlFrames c)) in *.
  assert (Forall2 evolves (controlFrames c) fs') as Hev by (by apply update_evolves).
  match goal with |- context [getFrameDropRange ?b f' false] =>
    pose proof (dropped_frame b f' false (vsize args) Hw ltac:(fields; split_and!; lia)) as Hdrop end.
  replace (size0 <=? len acc + 1) with false by lia. cbv iota.
  match goal with |- context [readTargets body (length ls) size0 ?c1 ?a1] => set (c1' := c1); set (acc1 := a1) end.
  destruct (IH c1' acc1) as (us & ps & c' & E & Hp & Hlen & [] & Hgood).
  - unfold c1'. fields. by replace (pc c + len b + 1) with (pc c + 1 + len b) by lia.
  - unfold c1'. fields. by eapply frames_ok_evolves.
  - done.
  - unfold c1'. fields. by eapply loops_evolve.
  - unfold c1'. fields. by eapply under_evolves.
  - done.
  - done.
  - done.
  - unfold acc1. rewrite len_app. change (len [_; _]) with 2. lia.
  - rewrite E. unfold acc1. rewrite <-(assoc_L (++)). eexists _, _, _. split; [reflexivity|]. cbn [app pairs]. rewrite Hp.
    split; [reflexivity|]. split; [cbn; by rewrite Hlen|]. split.
    + split; try done; [rewrite sc_pc0, len_app; unfold c1'; fields; lia|by eapply evolves_all_trans].
    + constructor; [|exact Hgood]. exists (base f' + vsize args). split_and!; try done. cbn [fst].
      rewrite sc_ops0. pose proof (pending_mono _ _ _ [] _ sc_frames0 Hpend) as Hp'. by rewrite app_nil_r in Hp'.
Qed.
Lemma readTargets_app n k size0 c acc : readTargets body (n + k) size0 c acc =
  let! (acc, c) := readTargets body n size0 c acc in readTargets body k size0 c acc.
Proof.
  revert c acc. induction n as [|n IH]; intros c acc; [done|]. cbn [Nat.add readTargets].
  destruct (readU32 _ _ c) as [[l c1]|]; [|done]. destruct (branchTo c1 l) as [[[t d] c2]|]; [|done].
  destruct (_ <=? _); [done|]. apply IH.
Qed.
Lemma leb_list_len bs vs : leb_list bs vs -> len vs <= len bs.
Proof.
  induction 1 as [|b bs v vs Hb _ IH]; [done|]. rewrite len_app, len_cons.
  destruct b as [|x b]; [done|]. rewrite len_cons. pose proof (len_nonneg b). lia.
Qed.
Lemma subs_value_types ts us : value_types ts -> subs ts us -> us = ts.
Proof.
  intros Hv Hs. induction Hs as [|t u ts us [-> | ->] _ IH]; [done| |by inversion Hv].
  inversion Hv; subst. f_equal. by apply IH.
Qed.
Lemma flows_br_table H h us ps fs os : 1 <= h -> pairs us = Some ps -> ps <> [] -> len ps < 2 ^ 31 ->
  Forall (good_target H fs os (h - 1)) ps -> flows H (Some h) [newOperationBrTable us] = Some None.
Proof.
  intros Hh Hp Hne Hl Hg. rewrite flows_one. unfold flow. cbn [Kind newOperationBrTable is_jump jumps Us].
  destruct (Z.ltb_spec h 1); [lia|]. replace (2 ^ 62 <=? len us) with false
    by (symmetry; apply Z.leb_gt; unfold len in *; rewrite (proj1 (pairs_lookup _ _ Hp)); lia). cbn [orb]. rewrite Hp. cbn [mbind option_bind].
  assert (exists ts, mapM (fun '(t, d) => h' ← dropped d (h - 1); Some (t, h')) ps = Some ts /\
    forallb (arrives results H) ts = true) as (ts & Em & Ha).
  { clear Hp Hne Hl. induction Hg as [|[t d] ps (h' & Ed & Ea & _) _ (ts & Em & Ha)]; [by exists []|].
    exists ((t, h') :: ts). cbn in *. rewrite Ed. cbn. rewrite Em. cbn. by rewrite Ea, Ha. }
  destruct ps; [done|]. rewrite Em. cbn [mbind option_bind]. by rewrite Ha.
Qed.
Lemma lower_br_table_ok H last L args outer bs ls l c : br_table_bytes bs ls l -> starts (pc c + 1) bs -> 0 <= pc c ->
  frames_ok H (controlFrames c) L -> labels_below H last -> loops_placed (controlFrames c) (ops c) ->
  under outer (controlFrames c) -> size outer + vsize args <= stackLenInUint64 c -> stackLenInUint64 c < 2 ^ 31 ->
  unreachable_on c = false -> Forall (fun l => L !! Z.to_nat l = Some args) (ls ++ [l]) ->
  exists tab ps c', lower_br_table needSourceOffset bodyOffset body c = Ok (markUnreachable (emit c' (newOperationBrTable tab))) /\
    pairs tab = Some ps /\ ps <> [] /\ len ps < 2 ^ 31 /\ same_code c c' (len bs) /\
    Forall (good_target H (controlFrames c') (ops c') (stackLenInUint64 c)) ps.
Proof.
  intros (n & k & rest & lastb & -> & Hn & Hk & Hr & Hl) Hs Hp Hfr Hlab Hlo Hu Hfit Hsmall Hon HL.
  pose proof HK. pose proof Hsize. pose proof (vsize_nonneg locals).
  pose proof (leb_list_len _ _ (leb_list_snoc _ _ _ _ Hr Hl)) as Hcnt.
  pose proof (starts_bound body _ _ Hs ltac:(destruct n; done)) as Hroom. rewrite !len_app in Hcnt, Hroom.
  change (len [l]) with 1 in Hcnt. apply starts_split in Hs as [Hs1 Hs2]. pose proof (leb_range _ _ Hn).
  assert (k = len ls) as Ek by (unfold len; lia). pose proof (len_nonneg ls).
  assert (len ls < 2 ^ 30) as Hls by (pose proof (len_nonneg n); nia).
  assert (length (ls ++ [l]) = (Z.to_nat (len ls) + 1)%nat) as Elen by (rewrite length_app; unfold len; cbn; lia).
  unfold lower_br_table. rewrite (readU32_ok _ _ n k) by done. fields. rewrite Hon, Ek. unfold u32.
  rewrite !(wrapu_small 32 (len ls * 2)), (wrapu_small 32 (2 + len ls * 2)), Z.div_mul by (unfold in_u; lia).
  match goal with |- context [readTargets body _ _ ?c1 []] => set (c1' := c1) end.
  destruct (readTargets_ok H last L args outer (ls ++ [l]) (rest ++ lastb) (2 + len ls * 2)
    (leb_list_snoc _ _ _ _ Hr Hl) c1' []) as (tab & ps & c2 & E & Hpairs & Hplen & Hsame & Hgood); try done.
  { unfold c1'. fields. by replace (pc c + len n + 1) with (pc c + 1 + len n) by lia. }
  { rewrite len_app. change (len [l]) with 1. change (len (@nil Z)) with 0. lia. }
  rewrite Elen, readTargets_app in E. exists tab, ps, c2. split_and!; try done.
  - destruct (readTargets body (Z.to_nat (len ls)) (2 + len ls * 2) c1' []) as [[us1 c1]|]; [|done]. rewrite E. done.
  - intros ->. rewrite Elen in Hplen. cbn in Hplen. lia.
  - unfold len at 1. rewrite Hplen, Elen. lia.
  - destruct Hsame. split; try done. rewrite sc_pc0, !len_app. unfold c1'. fields. lia.
Qed.
Lemma br_table_lowered L bs ls l args ts us : br_table_bytes bs ls l ->
  Forall (fun l => exists label, L !! Z.to_nat l = Some label /\ subs args label) (l :: ls) ->
  lowered L (0x0e :: bs) (i32t :: rev args ++ ts) us.
Proof.
  intros Hbs HL H c outer Hi Hv Hs Hon Hst Hu. pose proof HK.
  pose proof (starts_byte _ _ _ Hs) as (_ & _ & _ & Hlt & Hs').
  assert (value_types args) as Hargs.
  { inversion Hv as [|? ? _ Hv']; subst. apply Forall_app in Hv' as [Hv' _]. apply Forall_rev in Hv'. by rewrite rev_involutive in Hv'. }
  assert (Forall (fun l => L !! Z.to_nat l = Some args) (ls ++ [l])) as HL'.
  { rewrite (Permutation_app_comm ls [l]). cbn [app]. eapply Forall_impl; [exact HL|].
    intros x (label & E & Hsub). by rewrite (subs_value_types _ _ Hargs Hsub) in E. }
  pose proof (label_fits_stack _ _ _ _ args [i32t] ts Hi Hu Hst) as Hfit. change (vsize [i32t]) with 1 in Hfit.
  pose proof Hi as [Hfl Hlab Hids Hfr Hlo Hpe Hlen Hbd Hdep Hp]. pose proof (vsize_nonneg args).
  assert (0 <= size outer) by (destruct Hu as [_ Hu]; pose proof (vsize_nonneg locals); lia).
  pose proof (inv_small _ _ _ Hi Hlt ltac:(lia)) as Hsmall.
  pose proof (handle_on 0x0e _ c [i32t] [] (map ut (rev args ++ ts) ++ outer) Hs Hon eq_refl eq_refl eq_refl Hst) as Hh.
  revert Hh. lower_case. change (vsize []) with 0. change (vsize [i32t]) with 1. rewrite Z.add_0_r.
  match goal with |- context [lower_br_table _ _ _ ?c1] => set (c1' := c1) end.
  destruct (lower_br_table_ok H (currentFrameID c) L args outer bs ls l c1') as (tab & ps & c2 & E & Hpairs & Hne & Hpl & Hsame & Hgood);
    try done; [unfold c1'; fields; lia..|].
  rewrite E. destruct Hsame as [S1 S2 S3 S4 S5 S6 S7 S8]. unfold c1' in S1, S2, S3, S4, S5, S6, S7, S8, Hgood. revert S1 S2 S3 S4 S5 S6 S7 S8 Hgood. fields.
  intros S1 S2 S3 S4 S5 S6 S7 S8 Hgood. rewrite emit_on by (done || congruence). intros Hh. pose proof (len_nonneg bs).
  eexists H, _. split; [split|].
  - apply steps_one; [split_and!; [by eapply frames_ok_nonempty|done|exact Hh]|fields; lia].
  - done.
  - eapply (inv_next H H L c _ [newOperationBrTable tab]); try done; fields.
    + by rewrite S3.
    + rewrite S3. lia.
    + by rewrite S7.
    + eapply flows_br_table; [lia|done..].
    + cbn [mbind list_bind app targets newOperationBrTable Kind Us]. rewrite Hpairs, app_nil_r. apply Forall_fmap.
      eapply Forall_impl; [exact Hgood|]. intros t (h' & _ & _ & Hpd). cbn. eapply pending_mono; [apply evolves_all_refl|done].
    + rewrite S2, S1, Hlen, Hst. cbn [map app]. rewrite size_cons. change (words (ut i32t)) with 1. lia.
    + rewrite S2, S6. nia.
    + lia.
    + lia.
  - fields. rewrite len_cons, S6. lia.
  - done.
  - right. split; [done|]. fields. rewrite S1. by eexists.
Qed.

(** ** Blocks *)
Lemma block_types_ok bs bt : block_type m bs bt -> value_types (ft_Params bt) /\ value_types (ft_Results bt) /\
  vsize (ft_Params bt) <= K /\ vsize (ft_Results bt) <= K.
Proof.
  intros (raw & _ & [[_ ->]|[(t & Hin & ->)|[_ Hl]]]).
  - cbn. pose proof HK. change (vsize []) with 0. split_and!; try constructor; lia.
  - cbn [ft_Params ft_Results FuncValidation.blockType_v]. pose proof HK. change (vsize []) with 0.
    assert (isValueType t = true) as Ht.
    { cbn in Hin. repeat (destruct Hin as [Hin|Hin]; [injection Hin as _ <-; done|]). done. }
    destruct (value_type_one t Ht). split_and!; try done; [constructor|lia].
  - by eapply wide_type.
Qed.
Lemma pending_cons fs os f l : pending fs os l -> pending (f :: fs) os l.
Proof.
  intros [H|[H|(g & Hg & Ha)]]; [by left|by right; left|right; right]. exists g. split; [|done]. by apply list_elem_of_further.
Qed.

Section opening.
Context (H : gmap Z Z) (L : list (list Z)) (c c1 : compiler) (k : controlFrameKind) (bt : FunctionType) (outer : list Z)
  (code : list unionOperation).
Notation id := (currentFrameID c + 1).
Notation f := (mkFrame id (len outer) (size outer) bt k).
Notation H1 := (block_labels H id (size outer) (vsize (ft_Params bt)) (vsize (ft_Results bt))).
Notation label := (match k with controlFrameKindLoop => ft_Params bt | _ => ft_Results bt end).
Hypothesis Hi : inv H L c.
Hypothesis Hlt : pc c < len body.
Hypothesis Houter : 0 <= size outer.
Hypothesis Hbt : value_types (ft_Params bt) /\ value_types (ft_Results bt) /\ vsize (ft_Params bt) <= K /\ vsize (ft_Results bt) <= K.
Hypothesis Hk : k <> controlFrameKindFunction.

Lemma open_labels : H ⊆ H1 /\ labels_below H1 id /\ H1 !! header f = Some (size outer + pwords f) /\
  H1 !! otherwise f = Some (size outer + pwords f) /\ H1 !! continuation f = Some (size outer + rwords f).
Proof.
  destruct (next_id c (i_id _ _ _ Hi) Hlt) as [_ Hid]. pose proof (i_labels _ _ _ Hi) as Hb.
  pose proof (block_labels_lookup H (currentFrameID c) id (size outer) (vsize (ft_Params bt)) (vsize (ft_Results bt))
    ltac:(split; [lia|done])) as (? & ? & ?).
  split_and!; try done.
  - eapply block_labels_sub; [done|]. split; [lia|done].
  - eapply block_labels_below; [done|split; [lia|done]|done|apply vsize_nonneg|apply vsize_nonneg].
Qed.
Lemma open_frame : frame_ok H1 f label.
Proof.
  destruct open_labels as (_ & _ & ? & ? & ?). destruct (next_id c (i_id _ _ _ Hi) Hlt) as [_ Hid].
  destruct Hbt as (? & ? & ? & ?). split; try done.
Qed.

Hypothesis Hon : unreachable_on c = false.
Hypothesis Hops : ops c1 = ops c ++ code.
Hypothesis Hframes : controlFrames c1 = f :: controlFrames c.
Hypothesis Hid : currentFrameID c1 = id.
Hypothesis Hon1 : unreachable_on c1 = false.
Hypothesis Hd1 : unreachable_depth c1 = 0.
Hypothesis Hp1 : pc c + 1 <= pc c1.
Hypothesis Hst1 : stack c1 = map ut (rev (ft_Params bt)) ++ outer.
Hypothesis Hlen1 : stackLenInUint64 c1 = size outer + vsize (ft_Params bt).
Hypothesis Hbd1 : stackLenInUint64 c1 <= stackLenInUint64 c.
Hypothesis Hflow : flows H1 (Some (stackLenInUint64 c)) code = Some (Some (size outer + vsize (ft_Params bt))).
Hypothesis Hloop : k = controlFrameKindLoop -> header f ∈ (code ≫= placed).
Hypothesis Hpend : Forall (pending (f :: controlFrames c) (ops c ++ code)) (code ≫= targets).

Lemma inv_open : inv H1 (label :: L) c1.
Proof.
  pose proof open_labels as (Hsub & Hbelow & _). pose proof open_frame as Hf. pose proof HK.
  pose proof Hi as [Hfl Hlab Hids Hfr Hlo Hpe Hlen Hbd Hdep Hp].
  eapply (inv_intro H H1 L _ c c1 code); try done.
  - by rewrite Hid.
  - rewrite Hid. lia.
  - by rewrite Hon1, Hlen1.
  - rewrite Hframes. constructor; [done|]. by eapply frames_ok_mono.
  - rewrite Hframes, Hops, bind_app. constructor.
    + intros Hkl. apply elem_of_app. right. by apply Hloop.
    + eapply Forall_impl; [exact Hlo|]. intros g Hg Hkg. apply elem_of_app. left. by apply Hg.
  - rewrite Hframes, Hops. eapply Forall_impl; [exact Hpe|]. intros l Hl. apply pending_cons.
    eapply pending_mono; [apply evolves_all_refl|done].
  - by rewrite Hframes, Hops.
  - rewrite Hlen1, Hst1, size_app. fold (vsize (rev (ft_Params bt))). rewrite vsize_rev. lia.
  - nia.
  - lia.
Qed.
End opening.

Lemma newFrame_ok c bt k outer : stack c = map ut (rev (ft_Params bt)) ++ outer ->
  stackLenInUint64 c = size outer + vsize (ft_Params bt) -> u32 (currentFrameID c + 1) = currentFrameID c + 1 ->
  newFrame c bt k = (mkFrame (currentFrameID c + 1) (len outer) (size outer) bt k,
    push_frame (set_frameID c (currentFrameID c + 1)) (mkFrame (currentFrameID c + 1) (len outer) (size outer) bt k)).
Proof.
  intros Hst Hlen Hid. unfold newFrame, nextFrameID. fields. rewrite Hid, Hst, Hlen.
  unfold ParamNumInUint64. rewrite numInUint64_vsize, len_app.
  replace (len (map ut (rev (ft_Params bt)))) with (len (ft_Params bt)) by (unfold len; by rewrite length_map, length_rev).
  by replace (len (ft_Params bt) + len outer - len (ft_Params bt)) with (len outer) by lia;
    replace (size outer + vsize (ft_Params bt) - vsize (ft_Params bt)) with (size outer) by lia.
Qed.

(** A block has been entered: its frame is on the frames there were. *)
Record opened (H H' : gmap Z Z) (L : list (list Z)) (c c' : compiler) (f : controlFrame) (bt : FunctionType)
  (k : controlFrameKind) (outer : list Z) (n : Z) : Prop := {
  o_steps : steps c c';
  o_labels : H ⊆ H';
  o_inv : inv H' ((match k with controlFrameKindLoop => ft_Params bt | _ => ft_Results bt end) :: L) c';
  o_pc : pc c' = pc c + n;
  o_frames : exists fs, controlFrames c' = f :: fs /\ Forall2 evolves (controlFrames c) fs;
  o_frame : kind f = k /\ blockType f = bt /\ originalStackLenWithoutParam f = len outer /\ base f = size outer;
  o_on : unreachable_on c' = false;
  o_stack : stack c' = map ut (rev (ft_Params bt)) ++ outer }.

Section entering.
Context (H : gmap Z Z) (L : list (list Z)) (c : compiler) (bs : list Z) (bt : FunctionType) (outer : list Z).
Hypothesis Hi : inv H L c.
Hypothesis Hb : block_type m bs bt.
Hypothesis Hon : unreachable_on c = false.
Hypothesis Hu : under outer (controlFrames c).

Lemma entering_outer : 0 <= size outer.
Proof. destruct Hu as [_ H0]. pose proof (vsize_nonneg locals). lia. Qed.
Lemma entering_len ps : stack c = map ut ps ++ map ut (rev (ft_Params bt)) ++ outer ->
  stackLenInUint64 c = vsize ps + (size outer + vsize (ft_Params bt)).
Proof.
  intros Hst. rewrite (i_len _ _ _ Hi), Hst, !size_app. fold (vsize ps) (vsize (rev (ft_Params bt))). rewrite vsize_rev. lia.
Qed.
Ltac opening_done Hh Hp Hst :=
  split;
  [ apply steps_one; [split_and!; [by eapply frames_ok_nonempty, i_frames|done|exact Hh]|fields; pose proof (len_nonneg bs); lia]
  | apply (open_labels H L c controlFrameKindLoop bt outer Hi Hp entering_outer)
  | | fields; rewrite len_cons; lia | eexists; split; [reflexivity|apply evolves_all_refl] | done | done | first [reflexivity|exact Hst] ].

Ltac opened_side Hst :=
  try done; fields; rewrite ?app_nil_r; try done; try lia;
  first [apply entering_outer|by eapply block_types_ok|apply (i_depth _ _ _ Hi)|pose proof (len_nonneg bs); lia
        |rewrite Hst; fold (vsize (rev (ft_Params bt))); lia|idtac].

Lemma block_opens : starts (pc c) (0x02 :: bs) -> stack c = map ut (rev (ft_Params bt)) ++ outer ->
  exists H' c' f, opened H H' L c c' f bt controlFrameKindBlockWithoutContinuationLabel outer (len (0x02 :: bs)).
Proof.
  intros Hs Hst. pose proof (starts_byte _ _ _ Hs) as (_ & _ & _ & Hlt & Hs'). pose proof (entering_len [] Hst) as Hlen.
  change (vsize []) with 0 in Hlen. destruct (next_id c (i_id _ _ _ Hi) Hlt) as [Eid _].
  pose proof (handle_on 0x02 bs c [] [] (stack c) Hs Hon eq_refl eq_refl eq_refl eq_refl) as Hh.
  revert Hh. lower_case. change (vsize []) with 0. unfold lower_block. rewrite (readBlockType_ok _ _ bs bt) by done.
  fields. rewrite Hon. rewrite (newFrame_ok _ bt _ outer) by (fields; done || lia). fields. intros Hh.
  eexists _, _, _. opening_done Hh Hlt Hst.
  eapply (inv_open H L c _ controlFrameKindBlockWithoutContinuationLabel bt outer []); opened_side Hst.
  by rewrite Hlen.
Qed.
Lemma loop_opens : starts (pc c) (0x03 :: bs) -> stack c = map ut (rev (ft_Params bt)) ++ outer ->
  exists H' c' f, opened H H' L c c' f bt controlFrameKindLoop outer (len (0x03 :: bs)).
Proof.
  intros Hs Hst. pose proof (starts_byte _ _ _ Hs) as (_ & _ & _ & Hlt & Hs'). pose proof (entering_len [] Hst) as Hlen.
  change (vsize []) with 0 in Hlen. destruct (next_id c (i_id _ _ _ Hi) Hlt) as [Eid _].
  destruct (open_labels H L c controlFrameKindLoop bt outer Hi Hlt entering_outer) as (_ & Hbelow & Hhead & _).
  pose proof entering_outer. pose proof (vsize_nonneg (ft_Params bt)).
  set (f := mkFrame (currentFrameID c + 1) (len outer) (size outer) bt controlFrameKindLoop) in *.
  set (code := [newOperationBr (header f); newOperationLabel (header f)] ++
    (if ensureTermination then [newOperationBuiltinFunctionCheckExitCode] else [])).
  pose proof (handle_on 0x03 bs c [] [] (stack c) Hs Hon eq_refl eq_refl eq_refl eq_refl) as Hh.
  revert Hh. lower_case. change (vsize []) with 0. unfold lower_loop. rewrite (readBlockType_ok _ _ bs bt) by done.
  fields. rewrite Hon. rewrite (newFrame_ok _ bt _ outer) by (fields; done || lia). fields. fold f. intros Hh.
  assert (exists c1, handleInstruction c = Ok c1 /\ stack c1 = stack c /\ stackLenInUint64 c1 = stackLenInUint64 c /\
    currentFrameID c1 = currentFrameID c + 1 /\ controlFrames c1 = f :: controlFrames c /\ unreachable_on c1 = false /\
    unreachable_depth c1 = unreachable_depth c /\ pc c1 = pc c + len bs + 1 /\ ops c1 = ops c ++ code) as
    (c1 & Hc1 & ? & ? & ? & ? & ? & ? & ? & ?).
  { eexists. split; [exact Hh|]. unfold code. destruct ensureTermination;
      rewrite !emit_on by (by rewrite ?emit_unreachable); fields; rewrite <-?(assoc_L (++)); split_and!; done || lia. }
  exists (block_labels H (currentFrameID c + 1) (size outer) (vsize (ft_Params bt)) (vsize (ft_Results bt))), c1, f.
  split; try done; [| | |rewrite len_cons; lia|by eexists; split; [|apply evolves_all_refl]|congruence].
  - apply steps_one; [split_and!; [by eapply frames_ok_nonempty, i_frames|done..]|pose proof (len_nonneg bs); lia].
  - apply (open_labels H L c controlFrameKindLoop bt outer Hi Hlt entering_outer).
  - eapply (inv_open H L c c1 controlFrameKindLoop bt outer code); try done; try congruence; try lia.
    + by eapply block_types_ok.
    + rewrite (i_depth _ _ _ Hi) in *. done.
    + pose proof (len_nonneg bs). lia.
    + unfold code. rewrite flows_app, flows_cons, flows_br.
      * cbn [mbind option_bind]. rewrite (flows_label _ (size outer + vsize (ft_Params bt))) by (done || by left).
        cbn [mbind option_bind]. destruct ensureTermination; [|done].
        destruct (runs_effect (TypeSection m) functions globals results newOperationBuiltinFunctionCheckExitCode 0 0
          (size outer + vsize (ft_Params bt)) eq_refl eq_refl ltac:(lia)) as [-> _]. do 2 f_equal. lia.
      * unfold arrives. destruct (Hbelow _ _ Hhead) as (_ & -> & _). apply bool_decide_eq_true_2. by rewrite Hlen.
    + intros _. unfold code. cbn [app mbind list_bind placed newOperationBr newOperationLabel Kind U1].
      apply list_elem_of_here.
    + unfold code. rewrite bind_app.
      replace ((if ensureTermination then [newOperationBuiltinFunctionCheckExitCode] else []) ≫= targets) with (@nil Z)
        by (by destruct ensureTermination).
      cbn [app mbind list_bind targets newOperationBr newOperationLabel Kind U1]. constructor; [|constructor].
      right; left. rewrite bind_app. apply elem_of_app. right. cbn [app mbind list_bind placed newOperationBr newOperationLabel Kind U1].
      apply list_elem_of_here.
Qed.
Lemma if_opens : starts (pc c) (0x04 :: bs) -> stack c = map ut [i32t] ++ map ut (rev (ft_Params bt)) ++ outer ->
  exists H' c' f, opened H H' L c c' f bt controlFrameKindIfWithoutElse outer (len (0x04 :: bs)).
Proof.
  intros Hs Hst. pose proof (starts_byte _ _ _ Hs) as (_ & _ & _ & Hlt & Hs'). pose proof (entering_len [i32t] Hst) as Hlen.
  change (vsize [i32t]) with 1 in Hlen. destruct (next_id c (i_id _ _ _ Hi) Hlt) as [Eid _].
  destruct (open_labels H L c controlFrameKindIfWithoutElse bt outer Hi Hlt entering_outer) as (_ & Hbelow & Hhead & Helse & _).
  pose proof entering_outer. pose proof (vsize_nonneg (ft_Params bt)).
  set (f := mkFrame (currentFrameID c + 1) (len outer) (size outer) bt controlFrameKindIfWithoutElse) in *.
  set (code := [newOperationBrIf (header f) (otherwise f) nopinclusiveRange; newOperationLabel (header f)]).
  pose proof (handle_on 0x04 bs c [i32t] [] (map ut (rev (ft_Params bt)) ++ outer) Hs Hon eq_refl eq_refl eq_refl Hst) as Hh.
  revert Hh. lower_case. change (vsize []) with 0. change (vsize [i32t]) with 1. unfold lower_if. rewrite (readBlockType_ok _ _ bs bt) by done.
  fields. rewrite Hon. rewrite (newFrame_ok _ bt _ outer) by (fields; done || lia). fields. fold f.
  rewrite !emit_on by (by rewrite ?emit_unreachable). fields. intros Hh.
  assert (forall l h, block_labels H (currentFrameID c + 1) (size outer) (vsize (ft_Params bt)) (vsize (ft_Results bt)) !! l = Some h ->
    arrives results (block_labels H (currentFrameID c + 1) (size outer) (vsize (ft_Params bt)) (vsize (ft_Results bt))) (l, h) = true) as Harr.
  { intros l h Hl. unfold arrives. destruct (Hbelow _ _ Hl) as (_ & -> & _). by apply bool_decide_eq_true_2. }
  eexists _, _, f. opening_done Hh Hlt Hst.
  eapply (inv_open H L c _ controlFrameKindIfWithoutElse bt outer code); fold f; opened_side Hst.
  - unfold code. by rewrite <-(assoc_L (++)).
  - unfold code. rewrite flows_cons, (flows_br_if _ _ _ _ _ (size outer + vsize (ft_Params bt))).
    + cbn [mbind option_bind]. apply flows_label; [done|by left].
    + lia.
    + unfold dropped. cbn. f_equal. lia.
    + by apply Harr.
    + replace (stackLenInUint64 c - 1) with (size outer + pwords f) by (unfold pwords; cbn; lia). by apply Harr.
  - unfold code. cbn [app mbind list_bind targets newOperationBrIf newOperationLabel Kind U1 U2].
    constructor; [|constructor; [|constructor]].
    + right; left. rewrite bind_app. apply elem_of_app. right. apply list_elem_of_here.
    + right; right. exists f. split; [apply list_elem_of_here|]. by right.
Qed.
End entering.

(** ** Leaving a block *)
Lemma handle_end c : starts (pc c) [0x0b] ->
  handleInstruction c = lower_end needSourceOffset bodyOffset (set_currentOpPC c (pc c)).
Proof.
  intros Hs. unfold Lower.handleInstruction. rewrite (byte_at body Hbytes _ _ _ Hs).
  destruct (unreachable_on c) eqn:Hon.
  - rewrite (apply_off m functions globals functionType localTypes body Hbytes 0x0b [] 0 0 (set_currentOpPC c (pc c))) by done.
    by rewrite set_pc_same by (cbn; lia).
  - unfold Lower.applyToStack. change (hasIndex 0x0b) with false. cbn [unreachable_on set_currentOpPC]. rewrite Hon.
    change (wasmOpcodeSignature (TypeSection m) functions globals functionType localTypes body 0x0b 0
      (pc (set_currentOpPC c (pc c)))) with (@Ok low_err signature (mkSig [] [])).
    done.
Qed.
Lemma stackSwitchAt_ok c f x outer : stack c = x ++ outer -> originalStackLenWithoutParam f = len outer ->
  stackSwitchAt c f = Ok (set_stack c outer (base f)).
Proof.
  intros Hst Hn. unfold stackSwitchAt. rewrite Hn, Hst, len_app. pose proof (len_nonneg x). pose proof (len_nonneg outer).
  replace (len outer <? 0) with false by lia. replace (len x + len outer <? len outer) with false by lia. cbn [orb].
  do 2 f_equal. rewrite length_app. unfold len. rewrite Nat2Z.id.
  replace (length x + length outer - length outer)%nat with (length x) by lia. apply drop_app_length.
Qed.
Lemma pending_pop f fs os code l : pending (f :: fs) os l -> (awaits l f -> l ∈ (code ≫= placed)) ->
  pending fs (os ++ code) l.
Proof.
  intros [H|[H|(g & Hg & Ha)]] Hw; [by left| |].
  - right; left. rewrite bind_app. apply elem_of_app. by left.
  - apply elem_of_cons in Hg as [->|Hg]; [|by right; right; exists g].
    right; left. rewrite bind_app. apply elem_of_app. right. by apply Hw.
Qed.

Section leaving.
Context (H : gmap Z Z) (L : list (list Z)) (label : list Z) (c : compiler) (f : controlFrame) (rest : list controlFrame)
  (outer : list Z).
Notation ts := (ft_Results (blockType f)).
Hypothesis Hi : inv H (label :: L) c.
Hypothesis Hframes : controlFrames c = f :: rest.
Hypothesis Hkind : kind f <> controlFrameKindFunction.
Hypothesis Hn : originalStackLenWithoutParam f = len outer.
Hypothesis Hbase : base f = size outer.
Hypothesis Hs : starts (pc c) [0x0b].
Hypothesis Hif : kind f = controlFrameKindIfWithoutElse -> ft_Results (blockType f) = ft_Params (blockType f).

Lemma leaving_frame : frame_ok H f label /\ frames_ok H rest L.
Proof.
  pose proof (i_frames _ _ _ Hi) as Hf. rewrite Hframes in Hf. inversion Hf as [g (Hg & _)|]; subst; [done|]. done.
Qed.
(** The end of a block, whatever it emits. *)
Lemma inv_close c' code : ops c' = ops c ++ code ->
  flows H (if unreachable_on c then None else Some (stackLenInUint64 c)) code = Some (Some (size outer + vsize ts)) ->
  (forall l, awaits l f -> l ∈ (code ≫= placed)) ->
  (forall l, l ∈ (code ≫= targets) -> l ∈ (code ≫= placed)) ->
  controlFrames c' = rest -> currentFrameID c' = currentFrameID c -> unreachable_on c' = false ->
  unreachable_depth c' = 0 -> pc c' = pc c + 1 -> stack c' = map ut (rev ts) ++ outer ->
  stackLenInUint64 c' = size outer + vsize ts -> size outer <= vsize locals + K * pc c -> inv H L c'.
Proof.
  intros Hops Hflow Haw Htg Hfr Hid Hon Hd Hp Hst Hlen Hle. pose proof leaving_frame as [Hf Hfs].
  pose proof Hi as [Hfl Hlab Hids _ Hlo Hpe Hl Hbd Hdep Hpc]. destruct Hf as [_ _ _ _ _ [_ Hw] _ _ _ _].
  rewrite Hframes in Hlo, Hpe. apply Forall_cons in Hlo as [_ Hlo]. pose proof HK. unfold rwords in Hw.
  eapply (inv_any H H (label :: L) L c c' code); try done; rewrite ?Hfr, ?Hid, ?Hon; try done; try lia.
  - by rewrite Hlen.
  - rewrite Hops, bind_app. eapply Forall_impl; [exact Hlo|]. intros g Hg Hk. apply elem_of_app. left. by apply Hg.
  - rewrite Hops. eapply Forall_impl; [exact Hpe|]. intros l Hl'. eapply pending_pop; [done|]. apply Haw.
  - rewrite Hops. apply Forall_forall. intros l Hl'. right; left. rewrite bind_app. apply elem_of_app. right. by apply Htg.
  - rewrite Hst, size_app. fold (vsize (rev ts)). rewrite vsize_rev. lia.
Qed.

(** What the end of a block emits. *)
Definition close_code (on : bool) : list unionOperation :=
  match kind f with
  | controlFrameKindIfWithoutElse =>
      (if on then [] else [newOperationBr (continuation f)]) ++
      [newOperationLabel (otherwise f); newOperationBr (continuation f); newOperationLabel (continuation f)]
  | controlFrameKindBlockWithContinuationLabel | controlFrameKindIfWithElse =>
      (if on then [] else [newOperationBr (continuation f)]) ++ [newOperationLabel (continuation f)]
  | _ => if on then [newOperationLabel (continuation f)] else []
  end.
Lemma close_flows (on : bool) h : h = size outer + vsize ts ->
  flows H (if on then None else Some h) (close_code on) = Some (Some (size outer + vsize ts)).
Proof.
  intros ->. pose proof leaving_frame as [[_ _ _ _ _ _ _ _ Hel Hct] _]. rewrite Hbase in Hel, Hct. unfold rwords, pwords in Hel, Hct.
  assert (arrives results H (continuation f, size outer + vsize ts) = true) as Harr.
  { unfold arrives. destruct (i_labels _ _ _ Hi _ _ Hct) as (_ & -> & _). by apply bool_decide_eq_true_2. }
  assert (flows H (Some (size outer + vsize ts)) [newOperationBr (continuation f); newOperationLabel (continuation f)] =
    Some (Some (size outer + vsize ts))) as Hto.
  { rewrite flows_cons, (flows_br _ _ _ Harr). apply flows_label; [done|by left]. }
  assert (kind f = controlFrameKindIfWithoutElse -> flows H None [newOperationLabel (otherwise f); newOperationBr (continuation f);
    newOperationLabel (continuation f)] = Some (Some (size outer + vsize ts))) as Helse.
  { intros Ek. rewrite flows_cons, (flows_label _ _ _ Hel) by (by left). cbn [mbind option_bind]. by rewrite <-(Hif Ek). }
  unfold close_code. destruct (kind f) eqn:Ek; destruct on; cbn [app]; try done; try (by apply Helse);
    try (apply flows_label; [done|by left]).
  rewrite flows_cons, (flows_br _ _ _ Harr). by apply Helse.
Qed.
Lemma close_awaits on l : awaits l f -> l ∈ (close_code on ≫= placed).
Proof.
  unfold awaits, is_if, close_code.
  intros [[-> Hk]|[-> Hk]]; destruct (kind f) eqn:Ek; destruct on; cbn; try (by destruct Hk as [?|[?|?]]); try done;
    first [apply list_elem_of_here|apply list_elem_of_further, list_elem_of_here].
Qed.
Lemma close_targets on l : l ∈ (close_code on ≫= targets) -> l ∈ (close_code on ≫= placed).
Proof.
  unfold close_code. destruct (kind f); destruct on; cbn; intros Hl; try (by apply elem_of_nil in Hl);
    repeat (apply elem_of_cons in Hl as [->|Hl]); try (by apply elem_of_nil in Hl);
    first [apply list_elem_of_here|apply list_elem_of_further, list_elem_of_here].
Qed.
End leaving.

Lemma emit_nop c : emit c (newOperationDrop nopinclusiveRange) = c.
Proof. unfold Lower.emit. by destruct (unreachable_on c). Qed.

Record closed (H : gmap Z Z) (L : list (list Z)) (c c' : compiler) (rest : list controlFrame) (ts outer : list Z) : Prop := {
  cl_steps : steps c c';
  cl_inv : inv H L c';
  cl_on : unreachable_on c' = false;
  cl_stack : stack c' = map ut ts ++ outer;
  cl_frames : controlFrames c' = rest;
  cl_pc : pc c' = pc c + 1 }.

Lemma end_unreachable_inner c f rest : rest <> [] ->
  end_unreachable needSourceOffset bodyOffset c f rest =
  let! c := stackSwitchAt (set_frames (resetUnreachable c) rest) f in
  let! c := stackPushAll c (ft_Results (blockType f)) in
  match kind f with
  | controlFrameKindIfWithoutElse =>
      let c := calls_label c (continuation f) 1 in
      let c := emit c (newOperationLabel (otherwise f)) in
      let c := emit c (newOperationBr (continuation f)) in
      Ok (next (emit c (newOperationLabel (continuation f))))
  | _ => Ok (next (emit c (newOperationLabel (continuation f))))
  end.
Proof. intros Hne. unfold end_unreachable. by destruct rest. Qed.

Section closing.
Context (H : gmap Z Z) (L : list (list Z)) (label : list Z) (c : compiler) (f : controlFrame) (rest : list controlFrame)
  (outer : list Z).
Notation ts := (ft_Results (blockType f)).
Hypothesis Hi : inv H (label :: L) c.
Hypothesis Hframes : controlFrames c = f :: rest.
Hypothesis Hkind : kind f <> controlFrameKindFunction.
Hypothesis Hn : originalStackLenWithoutParam f = len outer.
Hypothesis Hbase : base f = size outer.
Hypothesis Hs : starts (pc c) [0x0b].
Hypothesis Hif : kind f = controlFrameKindIfWithoutElse -> ft_Results (blockType f) = ft_Params (blockType f).
Hypothesis Houter : 0 <= size outer.

(** The state after the end, given what it emits. *)
Lemma close_step on c' : handleInstruction c = Ok c' -> unreachable_on c = on ->
  (on = false -> stackLenInUint64 c = size outer + vsize ts) -> size outer <= vsize locals + K * pc c ->
  stack c' = map ut (rev ts) ++ outer -> stackLenInUint64 c' = size outer + vsize ts ->
  currentFrameID c' = currentFrameID c -> controlFrames c' = rest -> unreachable_on c' = false ->
  unreachable_depth c' = unreachable_depth c -> pc c' = pc c + 1 -> ops c' = ops c ++ close_code f on ->
  exists c', closed H L c c' rest (rev ts) outer.
Proof.
  intros Hh Hon Hl Hle Hst Hlen Hid Hfr Hon' Hd Hp Hops. exists c'. pose proof (starts_byte _ _ _ Hs) as (_ & _ & _ & Hlt & _).
  split; try done.
  - apply steps_one; [split_and!; [by rewrite Hframes|done..]|lia].
  - eapply (inv_close H L label c f rest outer Hi Hframes Hkind c' (close_code f on)); try done.
    + rewrite Hon. replace (if on then None else Some (stackLenInUint64 c)) with
        (if on then None else Some (size outer + vsize ts)) by (destruct on; [done|by rewrite Hl]).
      by eapply (close_flows H L label c f rest outer Hi Hframes Hkind Hbase Hif).
    + intros l. by eapply close_awaits.
    + intros l. by eapply close_targets.
    + rewrite Hd. apply (i_depth _ _ _ Hi).
Qed.
Lemma close_off top : unreachable_on c = true -> stack c = top ++ outer -> size outer <= vsize locals + K * pc c ->
  exists c', closed H L c c' rest (rev ts) outer.
Proof.
  intros Hon Hst Hle. destruct (leaving_frame H L label c f rest Hi Hframes Hkind) as [[_ _ _ _ Hv _ _ _ _ _] Hfs].
  pose proof (frames_ok_nonempty _ _ _ Hfs) as Hne. pose proof (i_depth _ _ _ Hi) as Hdep.
  pose proof (handle_end c Hs) as Hh. revert Hh. unfold lower_end. fields. rewrite Hon, Hdep. cbn [andb Z.ltb Z.compare].
  rewrite Hframes, end_unreachable_inner by done.
  rewrite (stackSwitchAt_ok _ f top outer) by done. rewrite (stackPushAll_ok ts) by done. fields.
  destruct (kind f) eqn:Ek in |- *; try (by destruct (Hkind Ek)); rewrite !emit_on by (by rewrite ?emit_unreachable); intros Hh;
    (eapply (close_step true); [exact Hh|done|done|done|..]); fields; rewrite <-?(assoc_L (++)); try done;
    try (by rewrite Hbase); unfold close_code; by rewrite Ek.
Qed.
Lemma close_on : unreachable_on c = false -> stack c = map ut (rev ts) ++ outer ->
  exists c', closed H L c c' rest (rev ts) outer.
Proof.
  intros Hon Hst. destruct (leaving_frame H L label c f rest Hi Hframes Hkind) as [[_ _ _ _ Hv _ _ _ _ _] Hfs].
  pose proof (frames_ok_nonempty _ _ _ Hfs) as Hne. pose proof (starts_byte _ _ _ Hs) as (_ & _ & _ & Hlt & _).
  assert (stackLenInUint64 c = size outer + vsize ts) as Hlen.
  { rewrite (i_len _ _ _ Hi), Hst, size_app. fold (vsize (rev ts)). rewrite vsize_rev. lia. }
  pose proof (vsize_nonneg ts) as Hts. pose proof (inv_small _ _ _ Hi Hlt ltac:(lia)). pose proof HK.
  pose proof (handle_end c Hs) as Hh. revert Hh. unfold lower_end. fields. rewrite Hon. cbn [andb].
  rewrite Hframes. unfold end_reachable.
  match goal with |- context [getFrameDropRange ?c0 f true] =>
    destruct (range_cases c0 f true (vsize ts)) as [[_ ->]|[E _]] end;
    [by destruct (kind f) in |- *|rewrite Hbase; fields; lia| |revert E; rewrite Hbase; fields; lia].
  rewrite (stackSwitchAt_ok _ f (map ut (rev ts)) outer) by done. rewrite (stackPushAll_ok ts) by done. fields.
  destruct (kind f) eqn:Ek in |- *; try (by destruct (Hkind Ek)); rewrite emit_nop; rewrite ?emit_on by (by rewrite ?emit_unreachable); intros Hh;
    (eapply (close_step false); [exact Hh|done|done|pose proof (i_bound _ _ _ Hi); lia|..]); fields; rewrite <-?(assoc_L (++)); try done;
    try (by rewrite Hbase); unfold close_code; rewrite Ek; try done; by rewrite app_nil_r.
Qed.
End closing.

(** ** Between the branches of an [if] *)
Section middle.
Context (H : gmap Z Z) (L : list (list Z)) (label : list Z) (c : compiler) (f : controlFrame) (rest : list controlFrame)
  (outer : list Z).
Notation ts := (ft_Results (blockType f)).
Notation ps := (ft_Params (blockType f)).
Notation f' := (set_kind f controlFrameKindIfWithElse).
Hypothesis Hi : inv H (label :: L) c.
Hypothesis Hframes : controlFrames c = f :: rest.
Hypothesis Hkind : kind f = controlFrameKindIfWithoutElse.
Hypothesis Hn : originalStackLenWithoutParam f = len outer.
Hypothesis Hbase : base f = size outer.
Hypothesis Hs : starts (pc c) [0x05].
Hypothesis Houter : 0 <= size outer.
Hypothesis Hbound : size outer <= vsize locals + K * pc c.

Definition else_code (on : bool) : list unionOperation :=
  (if on then [] else [newOperationBr (continuation f)]) ++ [newOperationLabel (otherwise f)].
Lemma else_flows (on : bool) : flows H (if on then None else Some (size outer + vsize ts)) (else_code on) =
  Some (Some (size outer + vsize ps)).
Proof.
  destruct (leaving_frame H L label c f rest Hi Hframes ltac:(by rewrite Hkind)) as [[_ _ _ _ _ _ _ _ Hel Hct] _].
  rewrite Hbase in Hel, Hct. unfold else_code. destruct on; cbn [app]; [apply flows_label; [done|by left]|].
  rewrite flows_cons, flows_br.
  - apply flows_label; [done|by left].
  - unfold arrives. destruct (i_labels _ _ _ Hi _ _ Hct) as (_ & -> & _). by apply bool_decide_eq_true_2.
Qed.
Lemma else_step on c' : handleInstruction c = Ok c' -> unreachable_on c = on ->
  (on = false -> stackLenInUint64 c = size outer + vsize ts) ->
  stack c' = map ut (rev ps) ++ outer -> stackLenInUint64 c' = size outer + vsize ps ->
  currentFrameID c' = currentFrameID c -> controlFrames c' = f' :: rest -> unreachable_on c' = false ->
  unreachable_depth c' = unreachable_depth c -> pc c' = pc c + 1 -> ops c' = ops c ++ else_code on ->
  exists c', closed H (label :: L) c c' (f' :: rest) (rev ps) outer.
Proof.
  intros Hh Hon Hl Hst Hlen Hid Hfr Hon' Hd Hp Hops. exists c'. pose proof (starts_byte _ _ _ Hs) as (_ & _ & _ & Hlt & _).
  destruct (leaving_frame H L label c f rest Hi Hframes ltac:(by rewrite Hkind)) as [Hf Hfs].
  pose proof Hi as [Hfl Hlab Hids _ Hlo Hpe Hl' Hbd Hdep Hpc]. pose proof HK. rewrite Hframes in Hlo, Hpe.
  apply Forall_cons in Hlo as [_ Hlo]. pose proof (fo_wide _ _ _ Hf) as [Hw _]. unfold pwords in Hw.
  split; try done; [apply steps_one; [split_and!; [by rewrite Hframes|done..]|lia]|].
  eapply (inv_any H H (label :: L) _ c c' (else_code on)); try done; rewrite ?Hfr, ?Hid, ?Hon'; try done; try lia.
  - rewrite Hon, Hlen. rewrite <-(else_flows on). destruct on; [done|]. by rewrite Hl.
  - constructor; [|done]. destruct Hf as [? ? ? ? ? ? Hlabel ? ? ?]. rewrite Hkind in Hlabel. by split.
  - constructor; [done|]. rewrite Hops, bind_app. eapply Forall_impl; [exact Hlo|]. intros g Hg Hk. apply elem_of_app. left. by apply Hg.
  - rewrite Hops. eapply Forall_impl; [exact Hpe|]. intros l [Hp'|[Hp'|(g & Hg & Ha)]]; [by left| |].
    + right; left. rewrite bind_app. apply elem_of_app. by left.
    + apply elem_of_cons in Hg as [->|Hg]; [|right; right; exists g; split; [by apply list_elem_of_further|done]].
      destruct Ha as [[-> _]|[-> _]].
      * right; right. exists f'. split; [apply list_elem_of_here|]. left. split; [done|]. right. by left.
      * right; left. rewrite bind_app. apply elem_of_app. right. unfold else_code. rewrite bind_app. apply elem_of_app. right.
        apply list_elem_of_here.
  - unfold else_code. rewrite bind_app. apply Forall_app. split; [|constructor]. destruct on; [constructor|].
    constructor; [|constructor]. right; right. exists f'. split; [apply list_elem_of_here|]. left. split; [done|]. right. by left.
  - rewrite Hst, size_app. fold (vsize (rev ps)). rewrite vsize_rev. lia.
Qed.
Lemma else_on_ok : unreachable_on c = false -> stack c = map ut (rev ts) ++ outer ->
  exists c', closed H (label :: L) c c' (f' :: rest) (rev ps) outer.
Proof.
  intros Hon Hst. destruct (leaving_frame H L label c f rest Hi Hframes ltac:(by rewrite Hkind)) as [[_ _ _ Hv _ _ _ _ _ _] _].
  pose proof (starts_byte _ _ _ Hs) as (_ & _ & _ & Hlt & _).
  assert (stackLenInUint64 c = size outer + vsize ts) as Hlen.
  { rewrite (i_len _ _ _ Hi), Hst, size_app. fold (vsize (rev ts)). rewrite vsize_rev. lia. }
  pose proof (vsize_nonneg ts) as Hts. pose proof (inv_small _ _ _ Hi Hlt ltac:(lia)). pose proof HK.
  pose proof (handle_on 0x05 [] c [] [] (stack c) Hs Hon eq_refl eq_refl eq_refl eq_refl) as Hh.
  revert Hh. lower_case. change (vsize []) with 0. unfold lower_else. fields. rewrite Hframes, Hon. cbn [andb].
  match goal with |- context [getFrameDropRange ?c0 f' false] =>
    destruct (range_cases c0 f' false (vsize ts)) as [[_ ->]|[E _]] end;
    [done|change (base f') with (base f); rewrite Hbase; fields; lia| |revert E; change (base f') with (base f); rewrite Hbase; fields; lia].
  rewrite (stackSwitchAt_ok _ f' (map ut (rev ts)) outer) by done. change (blockType f') with (blockType f).
  rewrite (stackPushAll_ok ps) by done. fields. rewrite emit_nop. rewrite !emit_on by (by rewrite ?emit_unreachable). intros Hh.
  eapply (else_step false); [exact Hh|done|done|..]; fields; rewrite <-?(assoc_L (++)); try done.
  by change (base f') with (base f); rewrite Hbase.
Qed.
Lemma else_off_ok top : unreachable_on c = true -> stack c = top ++ outer ->
  exists c', closed H (label :: L) c c' (f' :: rest) (rev ps) outer.
Proof.
  intros Hon Hst. destruct (leaving_frame H L label c f rest Hi Hframes ltac:(by rewrite Hkind)) as [[_ _ _ Hv _ _ _ _ _ _] _].
  assert (handleInstruction c = let! c := lower 0x05 0 (match stack c with t :: _ => t | [] => 0 end) (set_currentOpPC c (pc c)) in Ok (next c)) as Hh.
  { unfold Lower.handleInstruction. rewrite (byte_at body Hbytes _ _ _ Hs).
    rewrite (apply_off m functions globals functionType localTypes body Hbytes 0x05 [] 0 0 (set_currentOpPC c (pc c))) by done.
    by rewrite set_pc_same by (cbn; lia). }
  revert Hh. lower_case. unfold lower_else. fields. rewrite Hframes, Hon, (i_depth _ _ _ Hi). cbn [andb Z.ltb Z.compare].
  rewrite (stackSwitchAt_ok _ f top outer) by done. rewrite (stackPushAll_ok ps) by done. fields.
  rewrite !emit_on by (by rewrite ?emit_unreachable). intros Hh.
  eapply (else_step true); [exact Hh|done|done|..]; fields; try done. by rewrite Hbase.
Qed.
End middle.

(** ** Composing *)
Lemma based_here outer f : originalStackLenWithoutParam f = len outer -> base f = size outer -> based outer f.
Proof.
  intros Hn Hb. unfold based. rewrite Hn, Hb. pose proof (len_nonneg outer). split_and!; [lia|lia| |lia].
  unfold len. rewrite Nat2Z.id, Nat.sub_diag. done.
Qed.

(** The sequence of a block, after it has been entered. *)
Lemma inside_block H H1 L label c c1 f bt k outer n bs :
  opened H H1 L c c1 f bt k outer n -> label = (match k with controlFrameKindLoop => ft_Params bt | _ => ft_Results bt end) ->
  under outer (controlFrames c) -> value_types (ft_Params bt) -> starts (pc c + n) bs ->
  lowered (label :: L) bs (rev (ft_Params bt)) (rev (ft_Results bt)) ->
  exists H2 c2 f2 rest, reaches H1 H2 (label :: L) c1 c2 (len bs) /\ leaves c2 (rev (ft_Results bt)) outer /\
    controlFrames c2 = f2 :: rest /\ evolves f f2 /\ Forall2 evolves (controlFrames c) rest.
Proof.
  intros [? ? Hinv Hp (fs & Hfr & Hfs) (Hk & Hbt & Hn & Hb) Hon Hst] -> Hu Hv Hs Hlow.
  destruct (Hlow H1 c1 outer) as (H2 & c2 & Hr & Hl); try done.
  - by apply Forall_rev.
  - by rewrite Hp.
  - rewrite Hfr. destruct (under_evolves _ _ _ Hfs Hu) as [Hu' Hloc]. split; [|done]. constructor; [by apply based_here|done].
  - pose proof (r_frames _ _ _ _ _ _ Hr) as Hev. rewrite Hfr in Hev.
    inversion Hev as [|? f2 ? rest Hf2 Hrest E1 E2]; subst. exists H2, c2, f2, rest.
    split_and!; auto. by eapply evolves_all_trans.
Qed.
Lemma opened_bound H H' L c c' f bt k outer n : opened H H' L c c' f bt k outer n -> size outer <= vsize locals + K * pc c'.
Proof.
  intros [? ? Hinv Hp Hfr _ Hon Hst]. pose proof (i_bound _ _ _ Hinv) as Hb. rewrite (i_len _ _ _ Hinv), Hst, size_app in Hb.
  pose proof (vsize_nonneg (rev (ft_Params bt))). unfold vsize in *. lia.
Qed.

Section composing.
Context (H H1 H2 : gmap Z Z) (L : list (list Z)) (c c1 c2 : compiler) (f f2 : controlFrame) (rest : list controlFrame)
  (bt : FunctionType) (k : controlFrameKind) (outer : list Z) (n n' : Z) (label : list Z).
Hypothesis Hopen : opened H H1 L c c1 f bt k outer n.
Hypothesis Hreach : reaches H1 H2 (label :: L) c1 c2 n'.
Hypothesis Hleave : leaves c2 (rev (ft_Results bt)) outer.
Hypothesis Hfr2 : controlFrames c2 = f2 :: rest.
Hypothesis Hev : evolves f f2.
Hypothesis Hrest : Forall2 evolves (controlFrames c) rest.
Hypothesis Hk : k <> controlFrameKindFunction.
Hypothesis Hn' : 0 <= n'.
Hypothesis Hu : under outer (controlFrames c).
Hypothesis Hvr : value_types (ft_Results bt).

Lemma composing_frame : kind f2 <> controlFrameKindFunction /\ originalStackLenWithoutParam f2 = len outer /\
  base f2 = size outer /\ blockType f2 = bt /\ 0 <= size outer /\ size outer <= vsize locals + K * pc c2.
Proof.
  destruct (o_frame _ _ _ _ _ _ _ _ _ _ Hopen) as (Hkf & Hbt & Hn & Hb). destruct (evolves_fields _ _ Hev) as (_ & E2 & E3 & E4).
  pose proof (opened_bound _ _ _ _ _ _ _ _ _ _ Hopen). pose proof (r_pc _ _ _ _ _ _ Hreach). pose proof HK.
  destruct Hu as [_ Hl]. pose proof (vsize_nonneg locals).
  split_and!; [|congruence|congruence|congruence|lia|nia].
  destruct (evolves_kind _ _ Hev) as [E|[_ E]]; congruence.
Qed.
(** The end of the block. *)
Lemma end_of_block : starts (pc c2) [0x0b] ->
  (kind f2 = controlFrameKindIfWithoutElse -> ft_Results bt = ft_Params bt) ->
  exists c3, reaches H H2 L c c3 (n + n' + 1) /\ leaves c3 (rev (ft_Results bt)) outer.
Proof.
  intros Hs Hif. destruct composing_frame as (Hkf & Hn & Hb & Hbt & Hout & Hbd).
  pose proof (r_inv _ _ _ _ _ _ Hreach) as Hinv2.
  assert (exists c3, closed H2 L c2 c3 rest (rev (ft_Results (blockType f2))) outer) as [c3 [Hst3 Hinv3 Hon3 Hstk Hfr3 Hp3]].
  { destruct Hleave as [(Hon & Hst & _)|(Hon & top & Hst)].
    - eapply close_on; try done; rewrite Hbt; done.
    - eapply close_off; try done; rewrite ?Hbt; done. }
  rewrite Hbt in Hstk. exists c3. split.
  - pose proof (r_pc _ _ _ _ _ _ Hreach). pose proof (o_pc _ _ _ _ _ _ _ _ _ _ Hopen). split.
    + eapply steps_trans; [apply Hopen|]. eapply steps_trans; [apply Hreach|done].
    + etrans; [apply Hopen|apply Hreach].
    + done.
    + lia.
    + by rewrite Hfr3.
  - left. split_and!; [done..|]. by apply Forall_rev.
Qed.
End composing.

Lemma block_lowered L op k bs bt es ps label :
  (forall H c outer, inv H L c -> unreachable_on c = false -> under outer (controlFrames c) -> starts (pc c) (op :: bs) ->
     stack c = map ut ps ++ map ut (rev (ft_Params bt)) ++ outer ->
     exists H' c' f, opened H H' L c c' f bt k outer (len (op :: bs))) ->
  label = (match k with controlFrameKindLoop => ft_Params bt | _ => ft_Results bt end) -> k <> controlFrameKindFunction ->
  (k = controlFrameKindIfWithoutElse -> ft_Results bt = ft_Params bt) -> block_type m bs bt ->
  lowered (label :: L) (flat_map bytes es) (rev (ft_Params bt)) (rev (ft_Results bt)) ->
  lowered L (op :: bs ++ flat_map bytes es ++ [0x0b]) (ps ++ rev (ft_Params bt)) (rev (ft_Results bt)).
Proof.
  intros Hopens Hlabel Hk Hif Hb Hes H c outer Hi Hv Hs Hon Hst Hu. destruct (block_types_ok _ _ Hb) as (Hvp & Hvr & _ & _).
  rewrite map_app, <-(assoc_L (++)) in Hst. rewrite app_comm_cons in Hs. apply starts_split in Hs as [Hs1 Hs2].
  apply starts_split in Hs2 as [Hs2 Hs3].
  destruct (Hopens H c outer) as (H1 & c1 & f & Ho); [done..|].
  destruct (inside_block _ _ _ label _ _ _ _ _ _ _ _ Ho Hlabel Hu Hvp Hs2 Hes) as (H2 & c2 & f2 & rest & Hr & Hl & Hf2 & He & Hrest).
  edestruct (end_of_block H H1 H2 L c c1 c2 f f2 rest bt k outer) as (c3 & Hr3 & Hl3); try done.
  - apply len_nonneg.
  - rewrite (r_pc _ _ _ _ _ _ Hr), (o_pc _ _ _ _ _ _ _ _ _ _ Ho). done.
  - intros Hk2. apply Hif. destruct (o_frame _ _ _ _ _ _ _ _ _ _ Ho) as (Hkf & _). destruct (evolves_kind _ _ He) as [E|[_ E]]; congruence.
  - exists H2, c3. split; [|done]. rewrite app_comm_cons, !len_app. change (len [0x0b]) with 1. by rewrite Z.add_assoc.
Qed.

Lemma starts_eq p p' bs : starts p bs -> p = p' -> starts p' bs.
Proof. by intros ? <-. Qed.
Lemma if_else_lowered L bs bt es es' : block_type m bs bt ->
  lowered (ft_Results bt :: L) (flat_map bytes es) (rev (ft_Params bt)) (rev (ft_Results bt)) ->
  lowered (ft_Results bt :: L) (flat_map bytes es') (rev (ft_Params bt)) (rev (ft_Results bt)) ->
  lowered L (0x04 :: bs ++ flat_map bytes es ++ 0x05 :: flat_map bytes es' ++ [0x0b]) (i32t :: rev (ft_Params bt)) (rev (ft_Results bt)).
Proof.
  intros Hb Hes Hes' H c outer Hi Hv Hs Hon Hst Hu. destruct (block_types_ok _ _ Hb) as (Hvp & Hvr & _ & _).
  rewrite app_comm_cons, (cons_middle 0x05) in Hs |- *.
  apply starts_split in Hs as [Hs1 Hs2]. apply starts_split in Hs2 as [Hs2 Hs3]. apply starts_split in Hs3 as [Hs3 Hs4].
  apply starts_split in Hs4 as [Hs4 Hs5].
  destruct (if_opens H L c bs bt outer) as (H1 & c1 & f & Ho); [done..|].
  destruct (inside_block _ _ _ (ft_Results bt) _ _ _ _ _ _ _ _ Ho eq_refl Hu Hvp Hs2 Hes) as
    (H2 & c2 & f2 & rest & Hr & Hl & Hf2 & He & Hrest).
  destruct (composing_frame H H1 H2 L c c1 c2 f f2 bt controlFrameKindIfWithoutElse outer (len (0x04 :: bs)) (len (flat_map bytes es))
    (ft_Results bt) Ho Hr He ltac:(done) (len_nonneg _) Hu) as (_ & Hn2 & Hb2 & Hbt2 & Hout & Hbd).
  assert (kind f2 = controlFrameKindIfWithoutElse) as Hk2.
  { destruct (o_frame _ _ _ _ _ _ _ _ _ _ Ho) as (Hkf & _). destruct (evolves_kind _ _ He) as [E|[E _]]; congruence. }
  pose proof (r_pc _ _ _ _ _ _ Hr) as Hp2. pose proof (o_pc _ _ _ _ _ _ _ _ _ _ Ho) as Hp1.
  assert (starts (pc c2) [0x05]) as Hs3' by (by rewrite Hp2, Hp1).
  assert (exists c3, closed H2 (ft_Results bt :: L) c2 c3 (set_kind f2 controlFrameKindIfWithElse :: rest) (rev (ft_Params (blockType f2))) outer)
    as [c3 [Hst3 Hinv3 Hon3 Hstk Hfr3 Hp3]].
  { destruct Hl as [(Hon2 & Hst2 & _)|(Hon2 & top & Hst2)].
    - eapply else_on_ok; try done; [apply Hr|by rewrite Hbt2].
    - eapply else_off_ok; try done; apply Hr. }
  assert (opened H H2 L c c3 (set_kind f2 controlFrameKindIfWithElse) bt controlFrameKindIfWithElse outer
    (len (0x04 :: bs) + len (flat_map bytes es) + 1)) as Ho3.
  { split; try done; [| |lia|by exists rest|by rewrite <-Hbt2].
    - eapply steps_trans; [apply Ho|]. eapply steps_trans; [apply Hr|done].
    - etrans; [apply Ho|apply Hr]. }
  destruct (inside_block _ _ _ (ft_Results bt) _ _ _ _ _ _ _ (flat_map bytes es') Ho3 eq_refl Hu Hvp) as
    (H4 & c4 & f4 & rest4 & Hr4 & Hl4 & Hf4 & He4 & Hrest4); [|done|].
  { change (len [0x05]) with 1 in Hs4. eapply starts_eq; [exact Hs4|lia]. }
  edestruct (end_of_block H H2 H4 L c c3 c4 (set_kind f2 controlFrameKindIfWithElse) f4 rest4 bt controlFrameKindIfWithElse outer)
    as (c5 & Hr5 & Hl5); try done.
  - apply len_nonneg.
  - change (len [0x05]) with 1 in Hs5. rewrite (r_pc _ _ _ _ _ _ Hr4), (o_pc _ _ _ _ _ _ _ _ _ _ Ho3).
    eapply starts_eq; [exact Hs5|lia].
  - intros Hk4. destruct (evolves_kind _ _ He4) as [E|[_ E]]; rewrite Hk4 in E; done.
  - exists H4, c5. split; [|done]. rewrite !len_app. change (len [0x0b]) with 1. change (len [0x05]) with 1.
    by rewrite !Z.add_assoc.
Qed.
Lemma seq_nil_lowered L ts us : subs ts us -> lowered L [] ts us.
Proof.
  intros Hsub H c outer Hi Hv Hs Hon Hst Hu. exists H, c. rewrite (subs_value_types _ _ Hv Hsub). split.
  - split; [apply steps_refl|done|done|change (len (@nil Z)) with 0; lia|apply evolves_all_refl].
  - by left.
Qed.
Lemma seq_snoc_lowered L bs ts0 ps rs ts us i : lowered L bs ts0 (ps ++ ts) -> lowered L (bytes i) ps rs -> off_instr i ->
  shorts i = true -> subs (rs ++ ts) us -> lowered L (bs ++ bytes i) ts0 us.
Proof.
  intros Hes Hins Hoff Hsh Hsub H c outer Hi Hv Hs Hon Hst Hu. apply starts_split in Hs as [Hs1 Hs2].
  destruct (Hes H c outer) as (H1 & c1 & Hr1 & Hl1); [done..|]. pose proof Hr1 as [_ _ Hi1 Hp1 Hev1].
  pose proof (under_evolves _ _ _ Hev1 Hu) as Hu1. rewrite len_app.
  destruct Hl1 as [(Hon1 & Hst1 & Hv1)|(Hon1 & top & Hst1)].
  - apply Forall_app in Hv1 as [Hvp Hvt].
    destruct (Hins H1 c1 (map ut ts ++ outer)) as (H2 & c2 & Hr2 & Hl2); try done.
    + by rewrite Hp1.
    + by rewrite Hst1, map_app, <-(assoc_L (++)).
    + by apply under_app.
    + exists H2, c2. split; [by eapply reaches_trans|].
      destruct Hl2 as [(Hon2 & Hst2 & Hv2)|(Hon2 & top & Hst2)]; [left|right].
      * assert (value_types (rs ++ ts)) as Hv' by (by apply Forall_app). rewrite (subs_value_types _ _ Hv' Hsub).
        by rewrite map_app, <-(assoc_L (++)).
      * split; [done|]. exists (top ++ map ut ts). by rewrite <-(assoc_L (++)).
  - destruct (Hoff c1) as [c2 Q]; try done.
    + by rewrite Hp1.
    + by eapply frames_ok_nonempty, i_frames.
    + rewrite (i_depth _ _ _ Hi1). done.
    + exists H1, c2. split.
      * eapply reaches_trans; [done|]. pose proof (inv_quiet _ _ _ _ _ Hi1 Hon1 Q (len_nonneg _)). destruct Q.
        split; try done. rewrite q_frames0. apply evolves_all_refl.
      * right. destruct Q. split; [done|]. exists top. by rewrite q_stack0.
Qed.
Lemma typed_lowered : (forall L i ps rs, instr_ok L i ps rs -> shorts i = true -> lowered L (bytes i) ps rs) /\
  (forall L es ts us, seq_ok L es ts us -> forallb shorts es = true -> lowered L (flat_map bytes es) ts us).
Proof.
  apply typing_ind; try (intros; cbn [shorts bytes] in * ).
  - by apply plain_lowered, shortb_ok.
  - apply unreachable_lowered.
  - apply return_lowered.
  - apply drop_lowered.
  - apply select_lowered. by left.
  - apply select_lowered. by right.
  - by eapply ref_is_null_lowered.
  - by eapply br_lowered.
  - by eapply br_if_lowered.
  - by eapply br_table_lowered.
  - eapply (block_lowered L 0x02 controlFrameKindBlockWithoutContinuationLabel bs bt es []); eauto; try done.
    intros. by apply block_opens.
  - eapply (block_lowered L 0x03 controlFrameKindLoop bs bt es []); eauto; try done.
    intros. by apply loop_opens.
  - eapply (block_lowered L 0x04 controlFrameKindIfWithoutElse bs bt es [i32t]); eauto; try done.
    intros. by apply if_opens.
  - rewrite andb_true_iff in *. destruct_and!. apply if_else_lowered; auto.
  - by apply seq_nil_lowered.
  - rewrite forallb_app, andb_true_iff in *. cbn [forallb] in *. rewrite andb_true_r in *. destruct_and!.
    rewrite flat_map_app. cbn [flat_map]. rewrite app_nil_r. eapply seq_snoc_lowered; eauto.
    eapply (proj1 off_all); eauto.
Qed.

(** ** The end of the function *)
Record finished (H : gmap Z Z) (c c' : compiler) : Prop := {
  f_step : lstep c c';
  f_frames : controlFrames c' = [];
  f_flow : flows H (Some (vsize (ft_Params functionType))) (ops c') = Some None;
  f_pending : Forall (pending [] (ops c')) (ops c' ≫= targets) }.

Lemma function_only H fs label : frames_ok H fs [label] -> exists f, fs = [f] /\ function_frame f.
Proof. inversion 1 as [f Hf|f fs' ? ? Hf Hfs]; subst; [by exists f|]. inversion Hfs. Qed.
Lemma pending_function f os code l : function_frame f -> pending [f] os l -> pending [] (os ++ code) l.
Proof.
  intros (Hk & _) Hp. apply (pending_pop f); [done|]. unfold awaits, is_if. rewrite Hk. naive_solver.
Qed.

Lemma function_ends H c outer : inv H [ft_Results functionType] c -> starts (pc c) [0x0b] ->
  leaves c (rev (ft_Results functionType)) outer -> 0 <= size outer -> exists c', finished H c c'.
Proof.
  intros Hi Hs Hl Hout. pose proof (starts_byte _ _ _ Hs) as (_ & _ & _ & Hlt & _).
  destruct (function_only _ _ _ (i_frames _ _ _ Hi)) as (f & Hf & Hff). pose proof Hff as (Hk & Hn & Hb & Hbt).
  destruct Hctx as [_ [_ Hvr] _ _ _]. pose proof (vsize_nonneg (ft_Results functionType)) as Hr0.
  pose proof (handle_end c Hs) as Hh. revert Hh. unfold lower_end. fields. rewrite Hf.
  destruct Hl as [(Hon & Hst & _)|(Hon & top & Hst)]; rewrite Hon.
  - cbn [andb]. unfold end_reachable. pose proof (i_len _ _ _ Hi) as Hlen.
    rewrite Hst, size_app in Hlen. fold (vsize (rev (ft_Results functionType))) in Hlen. rewrite vsize_rev in Hlen.
    pose proof (inv_small _ _ _ Hi Hlt ltac:(lia)). pose proof HK.
    rewrite (stackSwitchAt_ok _ f (stack c) []) by (by rewrite ?app_nil_r). rewrite (stackPushAll_ok (ft_Results _)) by (by rewrite Hbt).
    rewrite Hk. fields.
    match goal with |- context [emit ?a (newOperationDrop (getFrameDropRange ?b f true))] =>
      destruct (drop_frame b f true results) with (c' := a) as (code & offs & Hemit & Hruns) end;
      [unfold rwords; by rewrite Hk, Hbt|fields; split_and!; lia|done|].
    rewrite Hemit. rewrite emit_on by done. intros Hh. destruct Hruns as [Hruns Ht]. revert Hruns. fields. intros Hruns.
    eexists. split; [split_and!; [by rewrite Hf|done|exact Hh]|done| |]; fields.
    + rewrite <-(assoc_L (++)), flows_app, (i_flow _ _ _ Hi), Hon. cbn [mbind option_bind]. rewrite flows_app, Hruns.
      cbn [mbind option_bind]. apply flows_br. unfold arrives. rewrite return_target. apply Z.eqb_eq. lia.
    + rewrite <-(assoc_L (++)), !bind_app, Ht. cbn [app]. rewrite targets_br. apply Forall_app. split.
      * eapply Forall_impl; [apply (i_pending _ _ _ Hi)|]. intros l. rewrite Hf. by apply pending_function.
      * constructor; [by left|constructor].
  - rewrite (i_depth _ _ _ Hi). cbn [andb Z.ltb Z.compare]. unfold end_unreachable. fields. intros Hh.
    eexists. split; [split_and!; [by rewrite Hf|done|exact Hh]|done| |]; fields.
    + by rewrite (i_flow _ _ _ Hi), Hon.
    + eapply Forall_impl; [apply (i_pending _ _ _ Hi)|]. intros l. rewrite Hf. intros Hp.
      apply (pending_function f _ []) in Hp; [|done]. by rewrite app_nil_r in Hp.
Qed.

(** ** The loop over the body *)
Notation instructions := (instructions (TypeSection m) functions globals features ensureTermination needSourceOffset
  bodyOffset functionType localTypes body heights).
Lemma instructions_steps n c c' fuel : nsteps lstep n c c' -> instructions (n + fuel) c = instructions fuel c'.
Proof.
  revert c. induction n as [|n IH]; intros c Hn; inversion Hn as [|? ? c1 ? (Hf & Hp & Hh) Hn']; subst; [done|].
  cbn [Nat.add Lower.instructions]. destruct (controlFrames c); [done|]. replace (pc c <? len body) with true by lia.
  rewrite Hh. by apply IH.
Qed.

(** ** The values of the locals *)
Lemma default_ok t : isValueType t = true -> exists o, (forall c,
  emitDefaultValue needSourceOffset bodyOffset c t = emit (stackPush c (ut t)) o) /\ nop_drop o = false /\
  forall h, 0 <= h -> runs [o] h (h + words (ut t)).
Proof.
  assert (forall o t, effect (TypeSection m) functions globals o = Some (0, words (ut t)) -> is_label o = false ->
    nop_drop o = false /\ forall h, 0 <= h -> runs [o] h (h + words (ut t))) as Hr.
  { intros o t' He Hl. split; [by eapply effect_not_nop|]. intros h Hh.
    replace (h + words (ut t')) with (h - 0 + words (ut t')) by lia. by apply runs_effect. }
  intros Ht. destruct (value_type_cases t Ht) as [->|[->|[->|[->|[->|[->| ->]]]]]]; eexists; (split; [done|by apply Hr]).
Qed.
Lemma defaults_ok ts c : value_types ts -> unreachable_on c = false -> 0 <= stackLenInUint64 c -> exists code offs,
  fold_left (emitDefaultValue needSourceOffset bodyOffset) ts c =
    set_ops (set_stack c (map ut (rev ts) ++ stack c) (stackLenInUint64 c + vsize ts)) (ops c ++ code) offs /\
  runs code (stackLenInUint64 c) (stackLenInUint64 c + vsize ts).
Proof.
  intros Hv. revert c. induction Hv as [|t ts Ht _ IH]; intros c Hon Hn.
  { exists [], (sourceOffsets c). change (vsize []) with 0. rewrite Z.add_0_r, app_nil_r. split; [by destruct c|apply runs_nil]. }
  cbn [fold_left]. destruct (default_ok t Ht) as (o & Ho & Hnop & Hrun). rewrite Ho.
  rewrite emit_on by done. unfold stackPush.
  match goal with |- context [fold_left _ ts ?c1] => destruct (IH c1) as (code & offs & -> & Hcode) end; fields;
    [done|pose proof (ut_range t); pose proof (words_nonneg (ut t)); lia|].
  revert Hcode. fields. intros Hcode. exists (o :: code), offs. change (o :: code) with ([o] ++ code).
  rewrite vsize_cons, <-words_ut, Z.add_assoc, map_app, <-!(assoc_L (++)).
  split; [done|]. eapply runs_app; [by apply Hrun|done].
Qed.

(** ** A whole function *)
Record fresh (c : compiler) : Prop := {
  fr_len : stackLenInUint64 c = 0;
  fr_id : currentFrameID c = 0;
  fr_on : unreachable_on c = false;
  fr_depth : unreachable_depth c = 0;
  fr_pc : pc c = 0;
  fr_ops : ops c = [] }.
Notation compile := (compile m functions globals features ensureTermination needSourceOffset callFrameStackSize).
Notation outer := (map ut (rev locals)).

(** The state in which the first instruction is lowered. *)
Lemma compile_starts c : fresh c -> exists c1 f, inv ∅ [ft_Results functionType] c1 /\ pc c1 = 0 /\
  unreachable_on c1 = false /\ stack c1 = outer /\ controlFrames c1 = [f] /\ function_frame f /\
  compile c functionType body localTypes bodyOffset = instructions (S (length body)) c1.
Proof.
  intros []. destruct Hctx as [_ [Hvp Hvr] Hvl _ _]. pose proof (vsize_nonneg (ft_Params functionType)). pose proof HK.
  unfold Lower.compile, initializeStack. rewrite stackPushAll_ok by done. change (0 <? callFrameStackSize) with false. cbv iota.
  match goal with |- context [fold_left _ localTypes ?c0] => destruct (defaults_ok localTypes c0) as (code & offs & -> & Hcode & Ht) end;
    fields; [done|done|rewrite fr_len0; lia|].
  revert Hcode. fields. rewrite fr_len0, app_nil_r, <-map_app, <-rev_app_distr. intros Hcode. unfold nextFrameID. fields.
  rewrite fr_id0. match goal with |- context [Lower.instructions _ _ _ _ _ _ _ _ _ _ _ _ (push_frame ?c0 ?f)] => exists (push_frame c0 f), f end.
  split; [split|]; fields; rewrite ?fr_on0, ?fr_ops0; cbn [app]; try done; try lia.
  - rewrite fr_pc0. done.
  - by constructor.
  - repeat constructor. done.
  - by rewrite Ht.
  - fold (vsize (rev locals)). rewrite vsize_rev, vsize_app. lia.
  - rewrite vsize_app, fr_pc0. lia.
Qed.

Lemma compile_ok c es : fresh c -> body = flat_map bytes es ++ [0x0b] ->
  seq_ok [ft_Results functionType] es [] (rev (ft_Results functionType)) -> forallb shorts es = true ->
  exists H last c', compile c functionType body localTypes bodyOffset = Ok c' /\ labels_below H last /\
    flows H (Some (vsize (ft_Params functionType))) (ops c') = Some None /\
    Forall (pending [] (ops c')) (ops c' ≫= targets).
Proof.
  intros Hfresh Hbody Hes Hsh. destruct (compile_starts c Hfresh) as (c1 & f & Hi & Hp & Hon & Hst & Hf & Hff & ->).
  pose proof (vsize_nonneg locals) as Hl0. assert (size outer = vsize locals) as Hout by (apply vsize_rev).
  assert (starts 0 (flat_map bytes es ++ [0x0b])) as Hs.
  { split; [done|]. exists []. by rewrite app_nil_r, <-Hbody. }
  apply starts_split in Hs as [Hs1 Hs2].
  destruct (proj2 typed_lowered _ _ _ _ Hes Hsh ∅ c1 outer) as (H & c2 & Hr & Hl); try done; [constructor|by rewrite Hp| |].
  { split; [|by rewrite Hout]. rewrite Hf. constructor; [|constructor]. destruct Hff as (_ & Hn & Hb & _).
    unfold based. rewrite Hn, Hb, Hout, Nat.sub_0_r, drop_all. pose proof (len_nonneg outer). split_and!; done. }
  pose proof Hr as [(n & Hn & Hnp) _ Hi2 Hp2 _].
  destruct (function_ends H c2 outer) as (c3 & [Hstep Hfr Hfl Hpe]); [done|by rewrite Hp2, Hp|done|by rewrite Hout|].
  exists H, (currentFrameID c2), c3. split_and!; [|apply Hi2|done..].
  pose proof (starts_bound body _ _ Hs2 ltac:(done)) as Hb. change (len [11]) with 1 in Hb.
  assert (nsteps lstep (n + 1) c1 c3) as Hn' by (eapply nsteps_trans; [done|by apply nsteps_once]).
  replace (S (length body)) with ((n + 1) + (length body - n))%nat by (unfold len in *; lia).
  rewrite (instructions_steps _ _ _ _ Hn'). destruct (length body - n)%nat; cbn [Lower.instructions]; by rewrite Hfr.
Qed.
End sound.
End LowerSound.
