(* ===== verification/LowerSize.v ===== *)
(** * How much code an instruction becomes

    One instruction of a body adds at most five operations, so the code of a
    function is bounded by its locals and the bytes of its body.  [LowerFlow]
    needs this much: no address reaches the one that stands for returning. *)
From S2P Require Import Prelude Leb128 Opcodes WasmBinary FuncValidation WasmModule Operations Signature LowerTables Lower.

Module LowerSize.
Import WasmBinary Lower.

Definition grew (n : nat) (c : compiler) (r : result low_err compiler) : Prop :=
  forall c', r = Ok c' -> (length (ops c') <= length (ops c) + n)%nat.

Lemma emit_grows nso off c o : (length (ops (emit nso off c o)) <= S (length (ops c)))%nat.
Proof.
  unfold emit. destruct (unreachable_on c); [lia|]. destruct (match Kind o with operationKindDrop => _ | _ => _ end); [lia|].
  cbn [ops set_ops]. rewrite length_app. cbn. lia.
Qed.

(** Case analysis on every call that a successful result went through. *)
Ltac unlower H :=
  repeat (progress cbv zeta in H || match type of H with
    | match ?x with _ => _ end = _ => let E := fresh "E" in destruct x eqn:E; try discriminate H
    | (let '(_, _) := ?x in _) = _ => let E := fresh "E" in destruct x eqn:E
    end).
Ltac ops_fields := cbn [ops set_stack set_frameID set_frames set_unreachable set_pc set_currentOpPC set_ops set_callers
  usesMemory skip next markUnreachable resetUnreachable push_frame calls_label enterUnreachable stackPush fst snd].
(** Equal operations, put in the goal. *)
Ltac revert_ops :=
  repeat match goal with E : ops ?a = ops ?b |- _ => apply (f_equal length) in E; revert E end.
(** What is emitted, counted. *)
Ltac count :=
  repeat match goal with |- context [ops (if ?b then _ else _)] => destruct b end;
  ops_fields; repeat (match goal with |- context [ops (emit ?a ?b ?c ?o)] =>
    let H := fresh in pose proof (emit_grows a b c o) as H; revert H; generalize (ops (emit a b c o)) end; ops_fields);
  intros; lia.

Section function.
Context (types : list FunctionType) (funcs : list Z) (globals : list GlobalType)
  (enabledFeatures : Z) (ensureTermination needSourceOffset : bool)
  (callFrameStackSizeInUint64 bodyOffset : Z) (sig : FunctionType) (localTypes body : list Z) (heights : list Z).
Notation emit := (emit needSourceOffset bodyOffset).

(** ** What only reads or moves the stack of types *)
Lemma readU32_ops w c v c' : readU32 body w c = Ok (v, c') -> ops c' = ops c.
Proof. intros H. unfold readU32 in H. unlower H. by injection H as _ <-. Qed.
Lemma readByte_ops c v c' : readByte body c = Ok (v, c') -> ops c' = ops c.
Proof. intros H. unfold readByte in H. unlower H. by injection H as _ <-. Qed.
Lemma readMemoryArg_ops c v c' : readMemoryArg body c = Ok (v, c') -> ops c' = ops c.
Proof.
  intros H. unfold readMemoryArg in H. unlower H. injection H as _ <-. subst.
  repeat match goal with E : readU32 _ _ _ = Ok _ |- _ => apply readU32_ops in E end. by simplify_eq/=; congruence.
Qed.
Lemma stackSwitchAt_ops c f c' : stackSwitchAt c f = Ok c' -> ops c' = ops c.
Proof. intros H. unfold stackSwitchAt in H. unlower H. by injection H as <-. Qed.
Lemma stackPushAll_ops ts c c' : stackPushAll c ts = Ok c' -> ops c' = ops c.
Proof.
  unfold stackPushAll. revert c. induction ts as [|t ts IH]; intros c H; cbn [foldm] in H; [by injection H as <-|].
  destruct (wasmValueTypeTounsignedType t); [|done]. by apply IH in H.
Qed.
Lemma stackPop_ops c t c' : stackPop c = Ok (t, c') -> ops c' = ops c.
Proof. intros H. unfold stackPop in H. unlower H. by injection H as _ <-. Qed.
Lemma popOperands_ops ts c tp tp' c' : popOperands c tp ts = Ok (tp', c') -> ops c' = ops c.
Proof.
  revert c tp. induction ts as [|t ts IH]; intros c tp H; cbn [popOperands] in H; [by injection H as _ <-|].
  unlower H; subst; apply IH in H; rewrite H; by eapply stackPop_ops.
Qed.
Lemma pushResults_ops ts c tp c' : pushResults c tp ts = Ok c' -> ops c' = ops c.
Proof.
  revert c. induction ts as [|t ts IH]; intros c H; cbn [pushResults] in H; [by injection H as <-|].
  unlower H; by apply IH in H.
Qed.
Lemma branchTo_ops c n l r c' : branchTo c n = Ok (l, r, c') -> ops c' = ops c.
Proof. intros H. unfold branchTo in H. unlower H. by injection H as _ _ <-. Qed.
Lemma readBlockType_ops w c bt c' : readBlockType types enabledFeatures body w c = Ok (bt, c') -> ops c' = ops c.
Proof. intros H. unfold readBlockType in H. unlower H. by injection H as _ <-. Qed.
Lemma skipTargets_ops n c c' : skipTargets body n c = Ok c' -> ops c' = ops c.
Proof.
  revert c. induction n as [|n IH]; intros c H; cbn [skipTargets] in H; [by injection H as <-|].
  unlower H. apply IH in H. rewrite H. by eapply readU32_ops.
Qed.
Lemma readTargets_ops n size c ls ls' c' : readTargets body n size c ls = Ok (ls', c') -> ops c' = ops c.
Proof.
  revert c ls. induction n as [|n IH]; intros c ls H; cbn [readTargets] in H; [by injection H as _ <-|].
  unlower H. subst. apply IH in H. rewrite H. erewrite branchTo_ops by done. by eapply readU32_ops.
Qed.
Lemma applyToStack_ops c op i c' :
  applyToStack types funcs globals sig localTypes body c op = Ok (i, c') -> ops c' = ops c.
Proof.
  intros H. unfold applyToStack in H. unlower H; injection H as _ <-; subst;
  repeat match goal with
  | E : (if _ then readU32 _ _ _ else Ok _) = Ok _ |- _ => destruct (hasIndex op); [apply readU32_ops in E|injection E as _ <-]
  | E : popOperands _ _ _ = Ok _ |- _ => apply popOperands_ops in E
  | E : pushResults _ _ _ = Ok _ |- _ => apply pushResults_ops in E
  end; congruence.
Qed.

(** ** What emits *)
Ltac same_ops :=
  repeat match goal with
  | E : readU32 _ _ _ = Ok _ |- _ => apply readU32_ops in E
  | E : readByte _ _ = Ok _ |- _ => apply readByte_ops in E
  | E : readMemoryArg _ _ = Ok _ |- _ => apply readMemoryArg_ops in E
  | E : stackSwitchAt _ _ = Ok _ |- _ => apply stackSwitchAt_ops in E
  | E : stackPushAll _ _ = Ok _ |- _ => apply stackPushAll_ops in E
  | E : branchTo _ _ = Ok _ |- _ => apply branchTo_ops in E
  | E : readBlockType _ _ _ _ _ = Ok _ |- _ => apply readBlockType_ops in E
  | E : skipTargets _ _ _ = Ok _ |- _ => apply skipTargets_ops in E
  | E : readTargets _ _ _ _ _ = Ok _ |- _ => apply readTargets_ops in E
  end; revert_ops.
Ltac emits :=
  let c' := fresh "c'" in let H := fresh "H" in intros c' H; unlower H; simplify_eq; same_ops; count.

Lemma lower_block_grows c : grew 5 c (lower_block types enabledFeatures body c).
Proof. unfold lower_block, newFrame, nextFrameID. emits. Qed.
Lemma lower_loop_grows c :
  grew 5 c (lower_loop types enabledFeatures ensureTermination needSourceOffset bodyOffset body c).
Proof. unfold lower_loop, newFrame, nextFrameID. emits. Qed.
Lemma lower_if_grows c : grew 5 c (lower_if types enabledFeatures needSourceOffset bodyOffset body c).
Proof. unfold lower_if, newFrame, nextFrameID. emits. Qed.
Lemma lower_else_grows c : grew 5 c (lower_else needSourceOffset bodyOffset c).
Proof. unfold lower_else. emits. Qed.
Lemma lower_end_grows c : grew 5 c (lower_end needSourceOffset bodyOffset c).
Proof. unfold lower_end, end_unreachable, end_reachable. emits. Qed.
Lemma lower_br_grows c : grew 5 c (lower_br needSourceOffset bodyOffset body c).
Proof. unfold lower_br. emits. Qed.
Lemma lower_br_if_grows c : grew 5 c (lower_br_if needSourceOffset bodyOffset body c).
Proof. unfold lower_br_if, nextFrameID. emits. Qed.
Lemma lower_br_table_grows c : grew 5 c (lower_br_table needSourceOffset bodyOffset body c).
Proof. unfold lower_br_table. emits. Qed.
Lemma lower_return_grows c : grew 5 c (lower_return needSourceOffset bodyOffset c).
Proof. unfold lower_return. emits. Qed.
Lemma lower_call_indirect_grows c i : grew 5 c (lower_call_indirect needSourceOffset bodyOffset body c i).
Proof. unfold lower_call_indirect. emits. Qed.
Lemma lower_select_grows c : grew 5 c (lower_select needSourceOffset bodyOffset c).
Proof. unfold lower_select. emits. Qed.
Lemma lower_local_grows op c i : grew 5 c (lower_local needSourceOffset bodyOffset sig localTypes heights op c i).
Proof. unfold lower_local. emits. Qed.
Lemma lower_const_grows op c : grew 5 c (lower_const needSourceOffset bodyOffset body op c).
Proof. unfold lower_const. emits. Qed.
Lemma lower_index_grows w c f : grew 5 c (lower_index needSourceOffset bodyOffset body w c f).
Proof. unfold lower_index. emits. Qed.
Lemma lower_misc_grows c : grew 5 c (lower_misc needSourceOffset bodyOffset body c).
Proof. unfold lower_misc, lower_index. emits. Qed.
Lemma lower_vec_grows c : grew 5 c (lower_vec needSourceOffset bodyOffset body c).
Proof. unfold lower_vec. emits. Qed.
Lemma lower_atomic_grows c : grew 5 c (lower_atomic needSourceOffset bodyOffset body c).
Proof. unfold lower_atomic. emits. Qed.

Lemma grew_move n c c0 r : ops c0 = ops c -> grew n c0 r -> grew n c r.
Proof. unfold grew. by intros <-. Qed.
Lemma lower_grows op i p c : grew 5 c (lower types enabledFeatures ensureTermination needSourceOffset bodyOffset sig
  localTypes body heights op i p c).
Proof.
  unfold lower. destruct (case op main_plain); [emits|]. destruct (case op main_memory); [emits|].
  repeat match goal with |- grew _ _ (if ?b then _ else _) => destruct b end;
    first [apply lower_block_grows|apply lower_loop_grows|apply lower_if_grows|apply lower_else_grows
      |apply lower_br_grows|apply lower_br_if_grows|apply lower_br_table_grows|apply lower_return_grows
      |apply lower_call_indirect_grows|apply lower_select_grows|apply lower_local_grows|apply lower_const_grows
      |apply lower_index_grows|apply lower_misc_grows|apply lower_vec_grows|apply lower_atomic_grows
      |unfold lower_drop; emits|by eapply grew_move; [|apply lower_select_grows]].
Qed.
Notation handleInstruction := (handleInstruction types funcs globals enabledFeatures ensureTermination needSourceOffset
  bodyOffset sig localTypes body heights).
Notation instructions := (instructions types funcs globals enabledFeatures ensureTermination needSourceOffset
  bodyOffset sig localTypes body heights).
Lemma handleInstruction_grows c : grew 5 c (handleInstruction c).
Proof.
  unfold Lower.handleInstruction. intros c' H. unlower H;
    match goal with E : applyToStack _ _ _ _ _ _ _ _ = Ok _ |- _ => apply applyToStack_ops in E as Eo end;
    cbn [ops set_currentOpPC] in Eo; rewrite <-Eo.
  - by apply lower_end_grows.
  - injection H as <-. match goal with E : lower _ _ _ _ _ _ _ _ _ _ _ _ _ = Ok _ |- _ => exact (lower_grows _ _ _ _ _ E) end.
Qed.
Lemma instructions_grows fuel c : grew (5 * fuel) c (instructions fuel c).
Proof.
  revert c. induction fuel as [|fuel IH]; intros c c' H; cbn [Lower.instructions] in H.
  - destruct (controlFrames c); [by injection H as <-; lia|]. destruct (_ <? _); [done|]. injection H as <-. lia.
  - destruct (controlFrames c); [by injection H as <-; lia|]. destruct (_ <? _); [|injection H as <-; lia].
    destruct (handleInstruction c) as [c1|] eqn:E; [|done]. apply handleInstruction_grows in E. apply IH in H. lia.
Qed.
Lemma defaults_grow ts c : (length (ops (fold_left (emitDefaultValue needSourceOffset bodyOffset) ts c)) <=
  length (ops c) + length ts)%nat.
Proof.
  revert c. induction ts as [|t ts IH]; intros c; cbn [fold_left length]; [lia|]. etrans; [apply IH|].
  enough (length (ops (emitDefaultValue needSourceOffset bodyOffset c t)) <= S (length (ops c)))%nat by lia.
  unfold emitDefaultValue. repeat case_match; count.
Qed.
End function.

Lemma reserve_ops n c : ops (reserve n c) = ops c.
Proof. revert c. induction n as [|n IH]; intros c; [done|]. cbn [reserve]. by rewrite IH. Qed.
(** The operations of a function: one for each local, five for each byte. *)
Lemma compile_grows m funcs globals features et nso cf c sig body localTypes off c' :
  compile m funcs globals features et nso cf c sig body localTypes off = Ok c' ->
  (length (ops c') <= length (ops c) + length localTypes + 5 * S (length body))%nat.
Proof.
  unfold compile, initializeStack, nextFrameID. intros H.
  destruct (stackPushAll _ _) as [c1|] eqn:E; [|done]. apply stackPushAll_ops in E.
  apply instructions_grows in H. cbn [ops push_frame set_frames set_frameID set_stack] in *.
  etrans; [exact H|]. apply Nat.add_le_mono_r. etrans; [apply defaults_grow|]. apply Nat.add_le_mono_r.
  destruct (0 <? cf); rewrite ?reserve_ops, E; done.
Qed.
End LowerSize.
