(* ===== verification/LowerSpec.v ===== *)
(** * Validated modules lower to code that never underflows

    The decoder, validation and the lowering together: [CompileModule] succeeds
    on every function of an accepted binary, and the operations it leaves, with
    their labels resolved, keep the stack of the interpreter above the frame
    of the call until they return with the words of the results.  The last part
    is an accepted binary that the lowering refuses. *)
From S2P Require Import Prelude Leb128 GoStd Opcodes WasmBinary WasmBinarySpec FuncValidation WasmModule FuncTyping FuncSoundness ValidationSpec Operations Signature LowerTables Lower LowerFlow LowerRun LowerSound LowerSize.

Module LowerSpec.
Import WasmBinary WasmBinarySpec FuncTyping Lower LowerFlow LowerRun LowerSound LowerSize.
Import WasmModule(declarations, d_functions, d_globals, d_memory, d_tables, AllDeclarations, Validate).

(** ** Opcodes written in one byte *)

(** A misc prefix is never followed by a byte that continues. *)
Fixpoint no_long (bs : list Z) : bool :=
  match bs with [] => true | _ :: rest => shortb bs && no_long rest end.
Lemma shortb_app a b : a <> [] -> shortb (a ++ b) = true -> shortb a = true.
Proof. destruct a as [|x [|y a]]; done. Qed.
Lemma no_long_app a b : no_long (a ++ b) = true -> no_long a = true /\ no_long b = true.
Proof.
  induction a as [|x a IH]; [done|]. cbn [no_long app]. rewrite andb_true_iff. intros [Hs Hn].
  apply IH in Hn as [Ha Hb]. split; [|done]. rewrite andb_true_iff. split; [|done].
  by apply (shortb_app (x :: a) b).
Qed.
Lemma no_long_cons x bs : no_long (x :: bs) = true -> no_long bs = true.
Proof. cbn [no_long]. rewrite andb_true_iff. by intros [_ H]. Qed.
Lemma no_long_shortb bs : no_long bs = true -> shortb bs = true.
Proof. destruct bs; [done|]. cbn [no_long]. rewrite andb_true_iff. by intros [H _]. Qed.

Section short.
Context (m : Module') (functions : list Z) (globals : list GlobalType) (memory : option Memory)
  (tables : list Table) (declared : gset Z) (functionType : FunctionType) (localTypes : list Z).
Lemma typed_shorts :
  (forall L i ps rs, instr_ok false m functions globals memory tables declared functionType localTypes L i ps rs ->
    no_long (bytes i) = true -> shorts i = true) /\
  (forall L es ts us, seq_ok false m functions globals memory tables declared functionType localTypes L es ts us ->
    no_long (flat_map bytes es) = true -> forallb shorts es = true).
Proof.
  apply typing_ind; try done; cbn [bytes shorts].
  - intros. by apply no_long_shortb.
  - intros L bs bt es _ _ IH H. apply no_long_cons, no_long_app in H as [_ [H _]%no_long_app]. auto.
  - intros L bs bt es _ _ IH H. apply no_long_cons, no_long_app in H as [_ [H _]%no_long_app]. auto.
  - intros L bs bt es _ _ _ IH H. apply no_long_cons, no_long_app in H as [_ [H _]%no_long_app]. auto.
  - intros L bs bt es es' _ _ IH _ IH' H.
    apply no_long_cons, no_long_app in H as [_ [H [H' _]%no_long_cons%no_long_app]%no_long_app].
    rewrite IH, IH' by done. done.
  - intros L es i ts0 ps rs ts us _ IH _ IHi _ H. rewrite flat_map_app in H. apply no_long_app in H as [H Hi].
    cbn [flat_map] in Hi. rewrite app_nil_r in Hi. rewrite forallb_app. cbn [forallb]. rewrite IH, IHi by done. done.
Qed.
End short.

(** ** One function *)

(** The words of the widest type, two at least. *)
Definition widest (types : list FunctionType) : Z :=
  foldr (fun ft w => Z.max w (Z.max (ParamNumInUint64 ft) (ResultNumInUint64 ft))) 2 types.
Lemma widest_ok types : 2 <= widest types /\
  Forall (fun ft => vsize (ft_Params ft) <= widest types /\ vsize (ft_Results ft) <= widest types) types.
Proof.
  induction types as [|ft types [IH1 IH2]]; [by split|].
  change (widest (ft :: types)) with (Z.max (widest types) (Z.max (ParamNumInUint64 ft) (ResultNumInUint64 ft))).
  unfold ParamNumInUint64, ResultNumInUint64. rewrite !numInUint64_vsize. split; [lia|].
  constructor; [lia|]. eapply Forall_impl; [exact IH2|]. cbv beta. intros ft' [? ?]. lia.
Qed.
(** Heights that fit the ranges of [drop], with the most each byte can push. *)
Definition small_function (m : Module') (ft : FunctionType) (code : Code) : bool :=
  WasmModule.numInUint64 (ft_Params ft ++ co_LocalTypes code) +
    widest (TypeSection m) * (len (co_Body code) + 1) <? 2 ^ 31.

Lemma len_vsize ts : len ts <= vsize ts.
Proof.
  induction ts as [|t ts IH]; [done|]. rewrite len_cons, vsize_cons. destruct (t =? ValueTypeV128); lia.
Qed.
Lemma flows_placed types funcs globals results H h os r l :
  flows types funcs globals results H h os = Some r -> l ∈ (os ≫= placed) -> is_Some (H !! l).
Proof.
  revert h. induction os as [|o os IH]; intros h Hf Hl; [by apply elem_of_nil in Hl|]. cbn in Hf.
  destruct (flow types funcs globals results H h o) as [h'|] eqn:E; [|done]. cbn in Hf.
  cbn [mbind list_bind] in Hl. apply elem_of_app in Hl as [Hl|Hl]; [|by eapply IH].
  unfold placed in Hl. unfold flow in E. destruct (Kind o); try (by apply elem_of_nil in Hl).
  apply list_elem_of_singleton in Hl as ->. destruct h as [h|].
  - case_bool_decide as Eh; [by eexists|done].
  - destruct (H !! U1 o); [by eexists|done].
Qed.

Section function.
Context (m : Module') (functions : list Z) (globals : list GlobalType) (features : Z)
  (ensureTermination needSourceOffset : bool) (memory : option Memory) (tables : list Table) (declared : gset Z)
  (ft : FunctionType) (code : Code).
Hypothesis Hbytes : bytes_ok (co_Body code).
Hypothesis Hctx : context_ok m globals tables ft (co_LocalTypes code).
Hypothesis Hft : ft ∈ TypeSection m.
Hypothesis Hmulti : IsEnabled features CoreFeatureMultiValue = true.
Hypothesis Hsmall : small_function m ft code = true.

Lemma compile_safe c es : fresh c -> co_Body code = flat_map bytes es ++ [OpcodeEnd] ->
  seq_ok false m functions globals memory tables declared ft (co_LocalTypes code) [ft_Results ft] es [] (rev (ft_Results ft)) ->
  forallb shorts es = true ->
  exists c' ops', compile m functions globals features ensureTermination needSourceOffset callFrameStackSize c ft
      (co_Body code) (co_LocalTypes code) (co_BodyOffset code) = Ok c' /\
    lowerIR (ops c') = Ok ops' /\ len ops' < 2 ^ 63 /\
    safe (TypeSection m) functions globals ops' (ParamNumInUint64 ft) (ResultNumInUint64 ft).
Proof.
  intros Hc Hbody Hes Hsh. destruct (widest_ok (TypeSection m)) as [Hw2 Hw]. unfold small_function in Hsmall.
  apply Z.ltb_lt in Hsmall. rewrite numInUint64_vsize in Hsmall.
  assert (len (ft_Params ft ++ co_LocalTypes code) <= vsize (ft_Params ft ++ co_LocalTypes code)) as Hn by apply len_vsize.
  pose proof (len_nonneg (co_Body code)) as Hb0.
  destruct (compile_ok m functions globals memory tables declared ft (co_LocalTypes code) (co_Body code) features
    ensureTermination needSourceOffset (co_BodyOffset code)) with (K := widest (TypeSection m)) (c := c) (es := es)
    as (H & last & c' & Hok & Hlab & Hfl & Hpe); try done; [nia| |].
  { constructor; [|done]. rewrite Forall_forall in Hw. by apply Hw. }
  assert (Forall label_fits (ops c' ≫= placed)) as Hplaced.
  { apply Forall_forall. intros l Hl. destruct (flows_placed _ _ _ _ _ _ _ _ _ Hfl Hl) as [h Hh]. by eapply Hlab. }
  assert (forall l, l ∈ (ops c' ≫= targets) -> IsReturnTarget l = true \/ l ∈ (ops c' ≫= placed)) as Htargets.
  { intros l Hl. rewrite Forall_forall in Hpe. destruct (Hpe l Hl) as [|[|(f & Hf & _)]]; auto. by apply elem_of_nil in Hf. }
  destruct (lowerIR_total (TypeSection m) functions globals (vsize (ft_Results ft)) H (ops c') (vsize (ft_Params ft)))
    as [ops' Hir]; try done.
  pose proof (LowerSize.compile_grows _ _ _ _ _ _ _ _ _ _ _ _ _ Hok) as Hlen.
  rewrite (fr_ops _ Hc), <-(mapm_length _ _ _ Hir) in Hlen. rewrite len_app in Hn.
  assert (len ops' < 2 ^ 62) as Hops by (cbn [length] in Hlen; unfold len in *; nia).
  exists c', ops'. split_and!; try done; [lia|]. unfold ParamNumInUint64, ResultNumInUint64. rewrite !numInUint64_vsize.
  apply (flow_safe _ _ _ _ H (ops c')); try done; [intros l n E; by eapply Hlab|].
  cbn [length] in Hlen. unfold len in *. nia.
Qed.
End function.

(** ** The functions of a module *)
Section module.
Context (m : Module') (d : declarations) (features limit : Z) (ensureTermination needSourceOffset : bool).
Hypothesis Hok : module_ok features limit m.
Hypothesis Hbytes : ValidationSpec.module_small m.
Hypothesis Hcount : length (FunctionSection m) = length (CodeSection m).
Hypothesis Hval : Validate m features = Ok tt.
Hypothesis Hdecl : AllDeclarations m = Ok d.
Hypothesis Htables : Forall (fun t => FuncValidation.isReferenceValueType (tb_Type t) = true) (d_tables d).
Hypothesis Hmulti : IsEnabled features CoreFeatureMultiValue = true.
Hypothesis Hsmall : forall idx ti ft code, FunctionSection m !! idx = Some ti -> TypeSection m !! Z.to_nat ti = Some ft ->
  CodeSection m !! idx = Some code -> small_function m ft code = true /\ no_long (co_Body code) = true.
Notation safe_code := (safe (TypeSection m) (d_functions d) (d_globals d)).

Definition lowered_to (idx : nat) (code : list unionOperation) : Prop := len code < 2 ^ 63 /\
  exists ti ft, FunctionSection m !! idx = Some ti /\ TypeSection m !! Z.to_nat ti = Some ft /\
    safe_code code (ParamNumInUint64 ft) (ResultNumInUint64 ft).

Lemma module_context ft code idx ti : FunctionSection m !! idx = Some ti -> TypeSection m !! Z.to_nat ti = Some ft ->
  CodeSection m !! idx = Some code -> context_ok m (d_globals d) (d_tables d) ft (co_LocalTypes code).
Proof.
  intros Hti Hft Hcode.
  assert (Forall (fun ft => value_types (ft_Params ft) /\ value_types (ft_Results ft)) (TypeSection m)) as Hts.
  { eapply Forall_impl; [apply Hok|]. intros t (Hp & Hr & _). done. }
  split; try done.
  - apply (Forall_lookup_1 _ _ _ _ Hts Hft).
  - apply (Forall_lookup_1 _ _ _ _ (mo_code _ _ _ Hok) Hcode).
  - by eapply ValidationSpec.AllDeclarations_globals.
Qed.

Lemma Next_safe idx c : (idx < length (CodeSection m))%nat -> exists c' code,
  Next m (d_functions d) (d_globals d) features ensureTermination needSourceOffset callFrameStackSize (Z.of_nat idx) c = Ok c' /\
  lowerIR (ops c') = Ok code /\ lowered_to idx code.
Proof.
  intros Hidx. rewrite <-Hcount in Hidx.
  destruct (ValidationSpec.Validate_typed features limit m d Hok Hbytes Hcount Hval Hdecl Htables idx Hidx)
    as (declared & _ & ti & ft & code & es & Hti & Hft & Hcode & Hbody & Hall). pose proof (Hall false ltac:(done)) as Hes.
  destruct (Hsmall _ _ _ _ Hti Hft Hcode) as [Hsm Hlong].
  assert (forallb shorts es = true) as Hsh.
  { rewrite Hbody in Hlong. apply no_long_app in Hlong as [Hlong _]. by eapply (proj2 (typed_shorts _ _ _ _ _ _ _ _)). }
  unfold Next. rewrite (at_ok _ _ code), (at_ok _ _ ti), (at_ok _ _ ft) by (by rewrite ?Nat2Z.id).
  match goal with |- context [compile _ _ _ _ _ _ _ ?c0] =>
    destruct (compile_safe m (d_functions d) (d_globals d) features ensureTermination needSourceOffset (d_memory d) (d_tables d)
      declared ft code) with (c := c0) (es := es) as (c' & ops' & Hc' & Hir & Hlen & Hsafe); try done end.
  - apply (Forall_lookup_1 _ _ _ _ (ValidationSpec.ms_bodies _ Hbytes) Hcode).
  - by eapply module_context.
  - by eapply list_elem_of_lookup_2.
  - exists c', ops'. split_and!; try done. split; [done|]. by exists ti, ft.
Qed.

Lemma CompileModule_safe : exists codes, CompileModule m features ensureTermination needSourceOffset = Ok codes /\
  length codes = length (CodeSection m) /\ forall idx code, codes !! idx = Some code -> lowered_to idx code.
Proof.
  unfold CompileModule. rewrite Hdecl.
  match goal with |- context [foldm ?f _ _] => set (step := f) end.
  assert (forall n, (n <= length (CodeSection m))%nat -> exists c codes, foldm step (emptyCompiler, []) (seq 0 n) = Ok (c, codes) /\
    length codes = n /\ forall idx code, codes !! idx = Some code -> lowered_to idx code) as Hn.
  { intros n. induction n as [|n IH]; intros Hle; [by exists emptyCompiler, []|].
    destruct IH as (c & codes & Hf & Hlen & Hall); [lia|]. rewrite seq_S, foldm_app, Hf. cbn [foldm Nat.add].
    destruct (Next_safe n c) as (c' & code & HN & Hir & Hto); [lia|]. unfold step at 1. rewrite HN, Hir.
    exists c', (codes ++ [code]). split_and!; [done|rewrite length_app; cbn; lia|].
    intros idx code' Hl. apply lookup_app_Some in Hl as [Hl|[Hge Hl]]; [by apply Hall|].
    apply list_lookup_singleton_Some in Hl as [E <-]. by replace idx with n by lia. }
  destruct (Hn (length (CodeSection m))) as (c & codes & -> & Hlen & Hall); [lia|]. by exists codes.
Qed.
End module.


(** A function of type [i32 -> i32] with a vector local, a block left by a
    [br_if] that drops, a [return] before the end of the block, and a loop. *)
Definition lowering_sample : list Z :=
  Magic ++ version ++ [0x01; 6; 1; 0x60; 1; 0x7f; 1; 0x7f] ++ [0x03; 2; 1; 0] ++
  [0x0a; 40; 1; 38; 1; 1; 0x7b;
   0x41; 7; 0x02; 0x7f; 0x41; 9; 0x41; 5; 0x20; 0; 0x0d; 0; 0x1a; 0x1a; 0x41; 1; 0x0f; 0x0b; 0x1a;
   0x03; 0x40; 0x20; 0; 0x0d; 0; 0x0b; 0x43; 0; 0; 0; 0; 0xfc; 0; 0x6a; 0x0b].


(** ** An accepted binary that is not lowered

    Validation decodes the opcode after [0xfc] as a LEB128 number, the lowering
    looks its signature up by the next byte: written in two bytes, as the
    format allows, [i32.trunc_sat_f32_s] is accepted and then refused. *)
Definition long_misc : list Z :=
  Magic ++ version ++ [0x01; 4; 1; 0x60; 0; 0] ++ [0x03; 2; 1; 0] ++
  [0x0a; 13; 1; 11; 0; 0x43; 0; 0; 0; 0; 0xfc; 0x80; 0; 0x1a; 0x0b].
Theorem long_misc_not_lowered :
  match DecodeModule CoreFeaturesV2 65536 false false false long_misc with
  | Ok (m, _) => Validate m CoreFeaturesV2 = Ok tt /\
      CompileModule m CoreFeaturesV2 false false = Err (Unsupported "misc instruction" 0x80)
  | Err _ => False
  end.
Proof. vm_compute. split; reflexivity. Qed.
End LowerSpec.
