(* ===== verification/TypeIDs.v ===== *)
(** * Function types of the store: [internal/wasm/store.go]

    A store numbers the function types of its modules: [typeIDs] maps the text
    of a type, [FunctionType.key], to its number.  The check of an indirect call
    compares the numbers, and not the types.  The two looks at the map, before
    and after its lock is taken, are one here. *)
From S2P Require Import Prelude Leb128 GoStd Opcodes WasmBinary WasmBinarySpec.

Module TypeIDs.
Import GoStd.
Import WasmBinary(FunctionType, ft_Params, ft_Results, ft_string, key).
Import WasmBinarySpec(value_types, type_ok).

Inductive type_err : Type := TooManyTypes.
Definition maximumFunctionTypes : Z := 2 ^ 27.
Record Store : Type := mkStore { typeIDs : gmap (list Z) Z; functionMaxTypes : Z }.
Definition NewStore : Store := mkStore ∅ maximumFunctionTypes.

(** [key] of a type is computed once. *)
Definition typeKey (t : FunctionType) : gostring :=
  match ft_string t with [] => key (ft_Params t) (ft_Results t) | s => s end.
Definition GetFunctionTypeID (s : Store) (t : FunctionType) : result type_err (Z * Store) :=
  let key := typeKey t in
  match typeIDs s !! key with
  | Some id => Ok (id, s)
  | None =>
      let l := Z.of_nat (size (typeIDs s)) in
      reject functionMaxTypes s <=? u32 l as TooManyTypes ;;
      let id := u32 l in
      Ok (id, mkStore (<[key := id]> (typeIDs s)) (functionMaxTypes s))
  end.
Fixpoint GetFunctionTypeIDs (s : Store) (ts : list FunctionType) : result type_err (list Z * Store) :=
  match ts with
  | [] => Ok ([], s)
  | t :: ts =>
      let! (id, s) := GetFunctionTypeID s t in
      let! (ids, s) := GetFunctionTypeIDs s ts in
      Ok (id :: ids, s)
  end.

(** ** Numbers are given once *)
Record store_ok (s : Store) : Prop := {
  so_max : functionMaxTypes s < 2 ^ 32;
  so_size : Z.of_nat (size (typeIDs s)) <= functionMaxTypes s;
  so_below : forall k id, typeIDs s !! k = Some id -> 0 <= id < Z.of_nat (size (typeIDs s));
  so_inj : forall k k' id, typeIDs s !! k = Some id -> typeIDs s !! k' = Some id -> k = k' }.

Lemma NewStore_ok : store_ok NewStore.
Proof.
  split; cbn [NewStore typeIDs functionMaxTypes]; [unfold maximumFunctionTypes; lia| |intros *; by rewrite !lookup_empty..].
  rewrite map_size_empty. unfold maximumFunctionTypes. lia.
Qed.
Lemma GetFunctionTypeID_ok s t id s' : store_ok s -> GetFunctionTypeID s t = Ok (id, s') ->
  store_ok s' /\ typeIDs s ⊆ typeIDs s' /\ typeIDs s' !! typeKey t = Some id.
Proof.
  intros [Hm Hs Hb Hi] H. unfold GetFunctionTypeID in H. cbv zeta in H.
  destruct (typeIDs s !! typeKey t) as [i|] eqn:E; [by injection H as <- <-|].
  unfold u32 in H. rewrite wrapu_small in H by (unfold in_u; lia).
  destruct (Z.leb_spec (functionMaxTypes s) (Z.of_nat (size (typeIDs s)))) as [|Hlt]; [done|]. injection H as <- <-.
  assert (size (<[typeKey t := Z.of_nat (size (typeIDs s))]> (typeIDs s)) = S (size (typeIDs s))) as Esize
    by (by rewrite map_size_insert, E).
  split_and!; [split; cbn [typeIDs functionMaxTypes]; rewrite ?Esize; try lia|by apply insert_subseteq|cbn [typeIDs]; by rewrite lookup_insert_eq].
  - intros k i. rewrite lookup_insert. case_decide; [intros [= <-]; lia|]. intros Hk. specialize (Hb _ _ Hk). lia.
  - intros k k' i. rewrite !lookup_insert. do 2 case_decide; subst; try done.
    + intros [= <-] Hk. specialize (Hb _ _ Hk). lia.
    + intros Hk [= <-]. specialize (Hb _ _ Hk). lia.
    + apply Hi.
Qed.
Lemma GetFunctionTypeIDs_ok s ts ids s' : store_ok s -> GetFunctionTypeIDs s ts = Ok (ids, s') ->
  store_ok s' /\ typeIDs s ⊆ typeIDs s' /\ length ids = length ts /\
  forall i t id, ts !! i = Some t -> ids !! i = Some id -> typeIDs s' !! typeKey t = Some id.
Proof.
  revert s ids. induction ts as [|t ts IH]; intros s ids Hs H; cbn [GetFunctionTypeIDs] in H; [by injection H as <- <-|].
  destruct (GetFunctionTypeID s t) as [[id s1]|] eqn:E1; [|done].
  destruct (GetFunctionTypeIDs s1 ts) as [[ids1 s2]|] eqn:E2; [|done]. injection H as <- <-.
  destruct (GetFunctionTypeID_ok _ _ _ _ Hs E1) as (Hs1 & Hsub & Hid).
  destruct (IH _ _ Hs1 E2) as (Hs2 & Hsub2 & Hlen & Hall). split_and!; [done|by etrans|cbn; by rewrite Hlen|].
  intros [|i] t' id'; cbn; [|apply Hall]. intros [= <-] [= <-]. by eapply lookup_weaken.
Qed.

Lemma typeKey_inj t t' : type_ok t -> type_ok t' -> typeKey t = typeKey t' ->
  ft_Params t = ft_Params t' /\ ft_Results t = ft_Results t'.
Proof.
  assert (forall t, type_ok t -> typeKey t = key (ft_Params t) (ft_Results t)) as Hk.
  { intros t0 (_ & _ & E). unfold typeKey. destruct (ft_string t0) eqn:Es; [done|]. by rewrite <-E. }
  intros Ht Ht'. rewrite (Hk t Ht), (Hk t' Ht'). destruct Ht as (? & ? & _), Ht' as (? & ? & _).
  by apply WasmBinarySpec.key_injective.
Qed.

(** C40: the numbers a store gives to function types identify them: of the
    types of any module added to a store that has numbered others before, two
    have the same number exactly when they have the same parameters and
    results, so the check of an indirect call, which compares the numbers,
    compares types. *)
Theorem type_ids_identify before ids0 s ts ids s' a b ta tb ida idb :
  Forall type_ok ts -> GetFunctionTypeIDs NewStore before = Ok (ids0, s) -> GetFunctionTypeIDs s ts = Ok (ids, s') ->
  ts !! a = Some ta -> ts !! b = Some tb -> ids !! a = Some ida -> ids !! b = Some idb ->
  ida = idb <-> ft_Params ta = ft_Params tb /\ ft_Results ta = ft_Results tb.
Proof.
  intros Hts H0 H1 Ha Hb Hia Hib. destruct (GetFunctionTypeIDs_ok _ _ _ _ NewStore_ok H0) as (Hs & _).
  destruct (GetFunctionTypeIDs_ok _ _ _ _ Hs H1) as (Hs' & _ & _ & Hall).
  pose proof (Hall _ _ _ Ha Hia) as Ka. pose proof (Hall _ _ _ Hb Hib) as Kb.
  pose proof (Forall_lookup_1 _ _ _ _ Hts Ha) as Ta. pose proof (Forall_lookup_1 _ _ _ _ Hts Hb) as Tb.
  split.
  - intros <-. apply typeKey_inj; try done. by eapply so_inj.
  - intros [Ep Er]. assert (typeKey ta = typeKey tb) as E.
    { destruct Ta as (_ & _ & Ea), Tb as (_ & _ & Eb). unfold typeKey. rewrite Ea, Eb, Ep, Er. done. }
    rewrite E, Kb in Ka. by injection Ka.
Qed.
Definition some_types : list FunctionType :=
  [WasmBinary.mkFunctionType [0x7f] [] (key [0x7f] []); WasmBinary.mkFunctionType [] [0x7f] (key [] [0x7f]);
   WasmBinary.mkFunctionType [0x7f] [] (key [0x7f] [])].
Lemma type_ids_identify_witness : exists ids s, GetFunctionTypeIDs NewStore some_types = Ok (ids, s) /\
  ids = [0; 1; 0] /\ (0 = 0 <-> [0x7f] = [0x7f] /\ @nil Z = []).
Proof.
  assert (exists s, GetFunctionTypeIDs NewStore some_types = Ok ([0; 1; 0], s)) as [s Hs] by (eexists; vm_compute; reflexivity).
  exists [0; 1; 0], s. split; [exact Hs|]. split; [reflexivity|].
  apply (type_ids_identify [] [] NewStore some_types [0; 1; 0] s 0 2 (WasmBinary.mkFunctionType [0x7f] [] (key [0x7f] []))
    (WasmBinary.mkFunctionType [0x7f] [] (key [0x7f] []))); try reflexivity; try exact Hs.
  repeat constructor.
Defined.
End TypeIDs.
