(* ===== verification/Interp.v ===== *)
(** * The interpreter's loop: [callNativeFunc] of
    [internal/engine/interpreter/interpreter.go]

    A call engine has one stack of 64-bit words and a stack of call frames; the
    loop executes the operation at the program counter of the innermost frame.
    The stack is a list with its top first, so Go's [stack[len(stack)-1-i]] is
    [stack !! i].  A WebAssembly trap, which the source raises with [panic], is
    [Trapped]; a stack or code index out of range, which the source does not
    check, is [StackPanic]; the run-time errors of Go on the fields of the
    instance are [RuntimePanic].

    [locals] is the copy of the function's locals that the recorder keeps beside
    the stack to render variables; what is read from it, with the DWARF records,
    is not modelled beyond the index itself ([variableAddress]), nor are
    listeners and the snapshots of package [experimental].  What floating-point
    arithmetic, conversions and arithmetic on lanes compute, and how a blocked
    wait ends, are the parameter [Math]: functions of the operation and of the
    words it pops.  An operand type that is none of the cases of an operation's
    switch is [UnknownType]; no lowered operation has one
    ([InterpSafe.validated_module_runs]).  Functions of other modules are host functions: Go functions that get a slice
    of the stack and may change the instance. *)
From S2P Require Import Prelude Leb128 Opcodes WasmBinary FuncValidation WasmModule WasmMemory Operations Lower.

Module Interp.
Import WasmBinary(FunctionType, ft_Params, ft_Results, ValueTypeV128).
Import WasmMemory(MemoryInstance, Buffer, mem_panic, with_buffer, spare, Cap).
Import Operations.

Definition callStackCeiling : Z := 2000.
Definition MaxUint32 : Z := 2 ^ 32 - 1.

Inductive trap : Type :=
| ErrRuntimeUnreachable
| ErrRuntimeOutOfBoundsMemoryAccess
| ErrRuntimeIntegerDivideByZero
| ErrRuntimeIntegerOverflow
| ErrRuntimeInvalidTableAccess
| ErrRuntimeIndirectCallTypeMismatch
| ErrRuntimeStackOverflow
| ErrRuntimeUnalignedAtomic
| ErrRuntimeInvalidConversionToInteger
| ErrRuntimeExpectedSharedMemory
| ErrRuntimeTooManyWaiters
| ExitError
| HostPanic (what : string).
Inductive int_err : Type :=
| Trapped (t : trap)
| StackPanic
| RuntimePanic (what : string)
| MemoryPanic (p : mem_panic)
| UnknownType (k : operationKind).

(** ** The instance *)
Record global : Type := mkGlobal { g_Type : Z; g_Val : Z; g_ValHi : Z }.
Record TableInstance : Type := mkTable { References : list Z; t_Max : option Z }.
Record instance : Type := mkInstance {
  i_globals : list global; i_memory : option MemoryInstance; i_tables : list TableInstance;
  i_data : list (list Z); i_elements : list (list Z); i_closed : bool }.
Definition set_globals (i : instance) (g : list global) : instance :=
  mkInstance g (i_memory i) (i_tables i) (i_data i) (i_elements i) (i_closed i).
Definition set_memory (i : instance) (m : MemoryInstance) : instance :=
  mkInstance (i_globals i) (Some m) (i_tables i) (i_data i) (i_elements i) (i_closed i).
Definition set_tables (i : instance) (t : list TableInstance) : instance :=
  mkInstance (i_globals i) (i_memory i) t (i_data i) (i_elements i) (i_closed i).
Definition set_data (i : instance) (d : list (list Z)) : instance :=
  mkInstance (i_globals i) (i_memory i) (i_tables i) d (i_elements i) (i_closed i).
Definition set_elements (i : instance) (e : list (list Z)) : instance :=
  mkInstance (i_globals i) (i_memory i) (i_tables i) (i_data i) e (i_closed i).

(** ** The state of one operation *)
Record state : Type := mkState { stack : list Z; locals : list Z; pc : Z; inst : instance }.
Definition set_stack (s : state) (st : list Z) : state := mkState st (locals s) (pc s) (inst s).
Definition set_locals (s : state) (l : list Z) : state := mkState (stack s) l (pc s) (inst s).
Definition set_pc (s : state) (p : Z) : state := mkState (stack s) (locals s) p (inst s).
Definition set_inst (s : state) (i : instance) : state := mkState (stack s) (locals s) (pc s) i.
(** [frame.pc++]. *)
Definition next (s : state) : state := set_pc s (u64 (pc s + 1)).

Definition pushValue (s : state) (v : Z) : state := set_stack s (v :: stack s).
Definition popValue (s : state) : result int_err (Z * state) :=
  match stack s with [] => Err StackPanic | v :: st => Ok (v, set_stack s st) end.
(** [ce.stack[:n]] and [ce.stack[n:]]. *)
Definition below (st : list Z) (n : Z) : result int_err (list Z) :=
  if (n <? 0) || (len st <? n) then Err StackPanic else Ok (List.skipn (length st - Z.to_nat n) st).
Definition above (st : list Z) (n : Z) : result int_err (list Z) :=
  if (n <? 0) || (len st <? n) then Err StackPanic else Ok (take (length st - Z.to_nat n) st).
Definition drop (raw : Z) (s : state) : result int_err state :=
  let r := inclusiveRangeFromU64 raw in
  if Start r =? -1 then Ok s
  else
    let! newStack := below (stack s) (i32 (i32 (i32 (len (stack s)) - 1) - End r)) in
    if Start r =? 0 then Ok (set_stack s newStack)
    else let! kept := above (stack s) (i32 (i32 (len (stack s)) - Start r)) in Ok (set_stack s (kept ++ newStack)).

Definition stack_at (st : list Z) (index : Z) : result int_err Z :=
  if (index <? 0) || (len st <=? index) then Err StackPanic
  else match st !! Z.to_nat (len st - 1 - index) with Some v => Ok v | None => Err StackPanic end.
Definition stack_put (st : list Z) (index v : Z) : result int_err (list Z) :=
  if (index <? 0) || (len st <=? index) then Err StackPanic
  else Ok (<[Z.to_nat (len st - 1 - index) := v]> st).
Definition at_ {A} (what : string) (l : list A) (i : Z) : result int_err A :=
  match l !! Z.to_nat i with Some x => Ok x | None => Err (RuntimePanic what) end.

(** ** Integers *)
Definition u8 : Z -> Z := wrapu 8.
Definition i8 : Z -> Z := wraps 8.
Definition i16 : Z -> Z := wraps 16.
Definition bool_word (b : bool) : Z := if b then 1 else 0.

(** [math/bits] *)
Definition Len (x : Z) : Z := if x <=? 0 then 0 else Z.log2 x + 1.
Definition LeadingZeros (w x : Z) : Z := w - Len x.
Fixpoint TrailingZeros (w : nat) (x : Z) : Z :=
  match w with O => 0 | S w => if Z.odd x then 0 else 1 + TrailingZeros w (Z.shiftr x 1) end.
Fixpoint OnesCount (w : nat) (x : Z) : Z :=
  match w with O => 0 | S w => Z.b2z (Z.odd x) + OnesCount w (Z.shiftr x 1) end.
Definition RotateLeft (w x k : Z) : Z :=
  let s := Z.land (u64 k) (w - 1) in
  Z.lor (wrapu w (Z.shiftl x s)) (Z.shiftr x (w - s)).

(** Two operands, the second one on top, and one result. *)
Definition binary (s : state) (f : Z -> Z -> result int_err Z) : result int_err state :=
  let! (v2, s) := popValue s in
  let! (v1, s) := popValue s in
  let! v := f v1 v2 in Ok (next (pushValue s v)).
Definition unary (s : state) (f : Z -> Z) : result int_err state :=
  let! (v, s) := popValue s in Ok (next (pushValue s (f v))).

(** [float] is the operation on floats. *)
Definition equal (float : Z -> Z -> Z) (k : operationKind) (t v1 v2 : Z) : result int_err Z :=
  if t =? unsignedTypeI32 then Ok (bool_word (u32 v1 =? u32 v2))
  else if t =? unsignedTypeI64 then Ok (bool_word (v1 =? v2))
  else if (t =? unsignedTypeF32) || (t =? unsignedTypeF64) then Ok (float v1 v2)
  else Err (UnknownType k).
Definition differ (float : Z -> Z -> Z) (k : operationKind) (t v1 v2 : Z) : result int_err Z :=
  if (t =? unsignedTypeI32) || (t =? unsignedTypeI64) then Ok (bool_word (negb (v1 =? v2)))
  else if (t =? unsignedTypeF32) || (t =? unsignedTypeF64) then Ok (float v1 v2)
  else Err (UnknownType k).
(** [<], [>], [<=] and [>=], by what they do on integers. *)
Definition compare (float : Z -> Z -> Z) (k : operationKind) (rel : Z -> Z -> bool) (t v1 v2 : Z) : result int_err Z :=
  if t =? signedTypeInt32 then Ok (bool_word (rel (i32 v1) (i32 v2)))
  else if t =? signedTypeInt64 then Ok (bool_word (rel (i64 v1) (i64 v2)))
  else if (t =? signedTypeUint32) || (t =? signedTypeUint64) then Ok (bool_word (rel v1 v2))
  else if (t =? signedTypeFloat32) || (t =? signedTypeFloat64) then Ok (float v1 v2)
  else Err (UnknownType k).
Definition gtb (a b : Z) : bool := b <? a.
Definition geb (a b : Z) : bool := b <=? a.

Definition arithmetic (float : Z -> Z -> Z) (k : operationKind) (f : Z -> Z -> Z) (t v1 v2 : Z) : result int_err Z :=
  if t =? unsignedTypeI32 then Ok (u32 (f (u32 v1) (u32 v2)))
  else if t =? unsignedTypeI64 then Ok (u64 (f v1 v2))
  else if (t =? unsignedTypeF32) || (t =? unsignedTypeF64) then Ok (float v1 v2)
  else Err (UnknownType k).
Definition bitwise (f : Z -> Z -> Z) (t v1 v2 : Z) : result int_err Z :=
  if t =? 0 then Ok (f (u32 v2) (u32 v1)) else Ok (f v2 v1).

(** Go's [/] and [%] truncate towards zero, and panic on zero. *)
Definition go_quot (n d : Z) : result int_err Z :=
  if d =? 0 then Err (RuntimePanic "integer divide by zero") else Ok (Z.quot n d).
Definition go_rem (n d : Z) : result int_err Z :=
  if d =? 0 then Err (RuntimePanic "integer divide by zero") else Ok (Z.rem n d).
Definition div (float : Z -> Z -> Z) (t v1 v2 : Z) : result int_err Z :=
  if (t =? signedTypeFloat32) || (t =? signedTypeFloat64) then Ok (float v1 v2)
  else
  reject v2 =? 0 as Trapped ErrRuntimeIntegerDivideByZero ;;
  if t =? signedTypeInt32 then
    let d := i32 v2 in let n := i32 v1 in
    reject (n =? - 2 ^ 31) && (d =? -1) as Trapped ErrRuntimeIntegerOverflow ;;
    let! q := go_quot n d in Ok (u32 q)
  else if t =? signedTypeInt64 then
    let d := i64 v2 in let n := i64 v1 in
    reject (n =? - 2 ^ 63) && (d =? -1) as Trapped ErrRuntimeIntegerOverflow ;;
    let! q := go_quot n d in Ok (u64 q)
  else if t =? signedTypeUint32 then go_quot (u32 v1) (u32 v2)
  else go_quot v1 v2.
Definition rem (t v1 v2 : Z) : result int_err Z :=
  reject v2 =? 0 as Trapped ErrRuntimeIntegerDivideByZero ;;
  if t =? signedInt32 then let! r := go_rem (i32 v1) (i32 v2) in Ok (u32 r)
  else if t =? signedInt64 then let! r := go_rem (i64 v1) (i64 v2) in Ok (u64 r)
  else if t =? signedUint32 then go_rem (u32 v1) (u32 v2)
  else go_rem v1 v2.

Definition shl (t v1 v2 : Z) : result int_err Z :=
  if t =? 0 then Ok (u32 (Z.shiftl (u32 v1) (u32 v2 mod 32))) else Ok (u64 (Z.shiftl v1 (v2 mod 64))).
Definition shr (t v1 v2 : Z) : result int_err Z :=
  if t =? signedInt32 then Ok (u32 (Z.shiftr (i32 v1) (u32 v2 mod 32)))
  else if t =? signedInt64 then Ok (u64 (Z.shiftr (i64 v1) (v2 mod 64)))
  else if t =? signedUint32 then Ok (Z.shiftr (u32 v1) (u32 v2 mod 32))
  else Ok (Z.shiftr v1 (v2 mod 64)).
Definition rotl (t v1 v2 : Z) : result int_err Z :=
  Ok (if t =? 0 then RotateLeft 32 (u32 v1) (i64 v2) else RotateLeft 64 v1 (i64 v2)).
Definition rotr (t v1 v2 : Z) : result int_err Z :=
  Ok (if t =? 0 then RotateLeft 32 (u32 v1) (i64 (- i64 v2)) else RotateLeft 64 v1 (i64 (- i64 v2))).

Definition clz (t v : Z) : Z := if t =? 0 then LeadingZeros 32 (u32 v) else LeadingZeros 64 v.
Definition ctz (t v : Z) : Z := if t =? 0 then TrailingZeros 32 (u32 v) else TrailingZeros 64 v.
Definition popcnt (t v : Z) : Z := if t =? 0 then OnesCount 32 (u32 v) else OnesCount 64 v.
Definition extend (signed v : Z) : Z := if signed =? 1 then u64 (i32 v) else u32 v.

(** The sign bit of a float, cleared or taken from the other operand. *)
Definition abs (t v : Z) : Z :=
  if t =? 0 then Z.ldiff (u32 v) (2 ^ 31) else Z.ldiff v (2 ^ 63).
Definition copysign (t v1 v2 : Z) : result int_err Z :=
  Ok (if t =? 0 then Z.lor (Z.ldiff (u32 v1) (2 ^ 31)) (Z.land (u32 v2) (2 ^ 31))
      else Z.lor (Z.ldiff v1 (2 ^ 63)) (Z.land v2 (2 ^ 63))).

(** *** The bits of vectors *)
Definition not64 (x : Z) : Z := Z.lxor x (2 ^ 64 - 1).
Definition pop2 (s : state) : result int_err (Z * Z * state) :=
  let! (hi, s) := popValue s in let! (lo, s) := popValue s in Ok (hi, lo, s).
Definition vector2 (s : state) (f : Z -> Z -> Z) : result int_err state :=
  let! (x2Hi, x2Lo, s) := pop2 s in
  let! (x1Hi, x1Lo, s) := pop2 s in
  Ok (next (pushValue (pushValue s (f x1Lo x2Lo)) (f x1Hi x2Hi))).
Definition bitselect (s : state) : result int_err state :=
  let! (cHi, cLo, s) := pop2 s in
  let! (x2Hi, x2Lo, s) := pop2 s in
  let! (x1Hi, x1Lo, s) := pop2 s in
  let pick x1 x2 c := Z.lor (Z.land x1 c) (Z.land x2 (not64 c)) in
  Ok (next (pushValue (pushValue s (pick x1Lo x2Lo cLo)) (pick x1Hi x2Hi cHi))).

(** ** The stack *)

(** What is computed on floats and lanes, and how a wait ends: [doubled] is
    [int(math.Pow(2, math.Log2(float64(index))+1))]; an operation on one or two
    words of floats; a conversion to an integer, which may trap; an operation on
    the words of vectors, in the order they are popped, to the low and the high
    word of a vector or to one word; what a wait at an offset that was not
    refused returns, and how many waiters a notify wakes. *)
Record Math : Type := mkMath {
  doubled : Z -> Z;
  float1 : unionOperation -> Z -> Z;
  float2 : unionOperation -> Z -> Z -> Z;
  truncated : unionOperation -> Z -> result trap Z;
  lanes : unionOperation -> list Z -> Z * Z;
  lane : unionOperation -> list Z -> Z;
  waited : MemoryInstance -> Z -> Z -> result trap Z;
  notified : MemoryInstance -> Z -> Z -> Z }.

(** One such choice, for examples. *)
Definition sample_math : Math :=
  mkMath (fun i => 2 * i) (fun _ v => v) (fun _ v _ => v) (fun _ v => Ok v) (fun _ _ => (0, 0)) (fun _ _ => 0)
    (fun _ _ _ => Ok 2) (fun _ _ _ => 0).

Section evaluation.
Context (math : Math).
Definition ensureSize (l : list Z) (index : Z) : list Z :=
  if index <? len l then l
  else let n := Z.to_nat (doubled math index) in take n (l ++ replicate (n - length l) 0).

Definition select (op : unionOperation) (s : state) : result int_err state :=
  let! (c, s) := popValue s in
  if B3 op then
    let! (x2Hi, x2Lo, s) := pop2 s in
    if c =? 0 then let! (_, _, s) := pop2 s in Ok (next (pushValue (pushValue s x2Lo) x2Hi)) else Ok (next s)
  else
    let! (v2, s) := popValue s in
    if c =? 0 then let! (_, s) := popValue s in Ok (next (pushValue s v2)) else Ok (next s).

Definition pick (op : unionOperation) (s : state) : result int_err state :=
  let index := len (stack s) - 1 - i64 (U1 op) in
  let! v := stack_at (stack s) index in
  let s := pushValue s v in
  if B3 op then let! v := stack_at (stack s) (index + 1) in Ok (next (pushValue s v)) else Ok (next s).

Definition set_ (op : unionOperation) (s : state) : result int_err state :=
  let index := len (stack s) - 1 - i64 (U1 op) in
  if B3 op then
    let! (hi, lo, s) := pop2 s in
    let! st := stack_put (stack s) index lo in
    let! st := stack_put st (index + 1) hi in
    Ok (next (set_stack s st))
  else
    let! (value, s) := popValue s in
    let! st := stack_put (stack s) index value in
    let localIndex := i64 (U2 op) in
    let locals := ensureSize (locals s) localIndex in
    if (localIndex <? 0) || (len locals <=? localIndex) then Err StackPanic
    else Ok (next (set_locals (set_stack s st) (<[Z.to_nat localIndex := value]> locals))).

Definition globalGet (op : unionOperation) (s : state) : result int_err state :=
  let! g := at_ "globals" (i_globals (inst s)) (U1 op) in
  let s := pushValue s (g_Val g) in
  Ok (next (if g_Type g =? ValueTypeV128 then pushValue s (g_ValHi g) else s)).
Definition globalSet (op : unionOperation) (s : state) : result int_err state :=
  let! g := at_ "globals" (i_globals (inst s)) (U1 op) in
  let! (hi, s) := (if g_Type g =? ValueTypeV128 then popValue s else Ok (g_ValHi g, s)) in
  let! (v, s) := popValue s in
  Ok (next (set_inst s (set_globals (inst s)
    (<[Z.to_nat (U1 op) := mkGlobal (g_Type g) v hi]> (i_globals (inst s)))))).

(** ** Linear memory *)
Definition memoryInst (s : state) : result int_err MemoryInstance :=
  match i_memory (inst s) with Some m => Ok m | None => Err (RuntimePanic "nil memory") end.
Definition popMemoryOffset (op : unionOperation) (s : state) : result int_err (Z * state) :=
  let! (v, s) := popValue s in
  let offset := u64 (U2 op + v) in
  reject MaxUint32 <? offset as Trapped ErrRuntimeOutOfBoundsMemoryAccess ;;
  Ok (u32 offset, s).
(** A read or a write that is refused is a trap. *)
Definition checked {A} (r : result mem_panic (option A)) : result int_err A :=
  match r with
  | Err p => Err (MemoryPanic p)
  | Ok None => Err (Trapped ErrRuntimeOutOfBoundsMemoryAccess)
  | Ok (Some a) => Ok a
  end.
Definition load (op : unionOperation) (s : state) (read : MemoryInstance -> Z -> result mem_panic (option Z))
  (f : Z -> Z) : result int_err state :=
  let! (offset, s) := popMemoryOffset op s in
  let! m := memoryInst s in
  let! v := checked (read m offset) in Ok (next (pushValue s (f v))).
Definition store (op : unionOperation) (s : state) (write : MemoryInstance -> Z -> Z -> option MemoryInstance)
  (f : Z -> Z) : result int_err state :=
  let! (v, s) := popValue s in
  let! (offset, s) := popMemoryOffset op s in
  let! m := memoryInst s in
  let! m := checked (Ok (write m offset (f v))) in Ok (next (set_inst s (set_memory (inst s) m))).
(** 32 or 64 bits, of an integer or of a float. *)
Definition narrow (t : Z) : bool := (t =? unsignedTypeI32) || (t =? unsignedTypeF32).
Definition loads (op : unionOperation) (s : state) : result int_err state :=
  if narrow (B1 op) then load op s WasmMemory.ReadUint32Le id else load op s WasmMemory.ReadUint64Le id.
Definition stores (op : unionOperation) (s : state) : result int_err state :=
  if narrow (B1 op) then store op s WasmMemory.WriteUint32Le u32 else store op s WasmMemory.WriteUint64Le id.
(** A byte or two, as one of the [signedInt] types. *)
Definition widened (signed : Z -> Z) (t v : Z) : Z :=
  if t =? signedInt32 then u32 (signed v) else if t =? signedInt64 then u64 (signed v) else v.

Definition memoryGrow (s : state) : result int_err state :=
  let! (n, s) := popValue s in
  let! m := memoryInst s in
  match WasmMemory.Grow m (u32 n) with
  | Err p => Err (MemoryPanic p)
  | Ok (None, m) => Ok (next (pushValue (set_inst s (set_memory (inst s) m)) 0xffffffff))
  | Ok (Some res, m) => Ok (next (pushValue (set_inst s (set_memory (inst s) m)) res))
  end.

Definition pop3 (s : state) : result int_err (Z * Z * Z * state) :=
  let! (a, s) := popValue s in let! (b, s) := popValue s in let! (c, s) := popValue s in Ok (a, b, c, s).
Definition write_buffer (s : state) (m : MemoryInstance) (offset : Z) (bs : list Z) : state :=
  next (set_inst s (set_memory (inst s) (with_buffer m (put (Buffer m) (Z.to_nat offset) bs) (spare m) (Cap m)))).

(** [b[off:off+n]] after the check of [off + n], whose sum may have wrapped. *)
Definition slices (off n : Z) : result int_err unit :=
  reject 2 ^ 64 <=? off + n as RuntimePanic "slice bounds out of range" ;; Ok tt.

Definition memoryInit (op : unionOperation) (s : state) : result int_err state :=
  let! dataInstance := at_ "data" (i_data (inst s)) (U1 op) in
  let! (copySize, inDataOffset, inMemoryOffset, s) := pop3 s in
  let! m := memoryInst s in
  reject (len dataInstance <? u64 (inDataOffset + copySize)) || (len (Buffer m) <? u64 (inMemoryOffset + copySize))
    as Trapped ErrRuntimeOutOfBoundsMemoryAccess ;;
  if copySize =? 0 then Ok (next s)
  else
    let! _ := slices inMemoryOffset copySize in
    let! _ := slices inDataOffset copySize in
    Ok (write_buffer s m inMemoryOffset (sub dataInstance (Z.to_nat inDataOffset) (Z.to_nat copySize))).
Definition memoryCopy (s : state) : result int_err state :=
  let! (copySize, sourceOffset, destinationOffset, s) := pop3 s in
  let! m := memoryInst s in
  reject (len (Buffer m) <? u64 (sourceOffset + copySize)) || (len (Buffer m) <? u64 (destinationOffset + copySize))
    as Trapped ErrRuntimeOutOfBoundsMemoryAccess ;;
  if copySize =? 0 then Ok (next s)
  else
    let! _ := slices destinationOffset copySize in
    let! _ := slices sourceOffset copySize in
    Ok (write_buffer s m destinationOffset (sub (Buffer m) (Z.to_nat sourceOffset) (Z.to_nat copySize))).

(** [copy(b[i:], src)], with the count copied. *)
Definition copy {A} (b : list A) (i : nat) (src : list A) : list A * nat :=
  let n := Nat.min (length src) (length b - i) in (put b i (take n src), n).
(** The copy trick: what is filled is copied to the rest, 8192 bytes at most. *)
Fixpoint fillChunks (fuel : nat) (buf : list Z) (i : nat) : option (list Z) :=
  if (i <? length buf)%nat then
    match fuel with
    | O => None
    | S fuel => let '(buf, n) := copy buf i (take (Nat.min i 8192) buf) in fillChunks fuel buf (i + n)
    end
  else Some buf.
(** The same, doubling what is filled. *)
Fixpoint fillDoubling (fuel : nat) (buf : list Z) (i : nat) : option (list Z) :=
  if (i <? length buf)%nat then
    match fuel with
    | O => None
    | S fuel => fillDoubling fuel (copy buf i (take i buf)).1 (i * 2)
    end
  else Some buf.
Definition fill (loop : nat -> list Z -> nat -> option (list Z)) (buf : list Z) (v : Z) : result int_err (list Z) :=
  match loop (length buf) (<[0%nat := v]> buf) 1%nat with Some b => Ok b | None => Err (RuntimePanic "fill") end.
Definition memoryFill (s : state) : result int_err state :=
  let! (fillSize, value, offset, s) := pop3 s in
  let value := u8 value in
  let! m := memoryInst s in
  reject len (Buffer m) <? u64 (fillSize + offset) as Trapped ErrRuntimeOutOfBoundsMemoryAccess ;;
  if fillSize =? 0 then Ok (next s)
  else
    let! _ := slices offset fillSize in
    let buf := sub (Buffer m) (Z.to_nat offset) (Z.to_nat fillSize) in
    let! buf := (if value =? 0 then Ok (replicate (length buf) 0) else fill fillChunks buf value) in
    Ok (write_buffer s m offset buf).

(** ** Tables *)
Definition put_table (s : state) (i : Z) (t : TableInstance) (offset : Z) (refs : list Z) : state :=
  next (set_inst s (set_tables (inst s)
    (<[Z.to_nat i := mkTable (put (References t) (Z.to_nat offset) refs) (t_Max t)]> (i_tables (inst s))))).
Definition tableAt (s : state) (i : Z) : result int_err TableInstance := at_ "tables" (i_tables (inst s)) i.

Definition tableInit (op : unionOperation) (s : state) : result int_err state :=
  let! elementInstance := at_ "elements" (i_elements (inst s)) (U1 op) in
  let! (copySize, inElementOffset, inTableOffset, s) := pop3 s in
  let! table := tableAt s (U2 op) in
  reject (len elementInstance <? u64 (inElementOffset + copySize)) ||
         (len (References table) <? u64 (inTableOffset + copySize)) as Trapped ErrRuntimeInvalidTableAccess ;;
  if copySize =? 0 then Ok (next s)
  else
    let! _ := slices inTableOffset copySize in
    let! _ := slices inElementOffset copySize in
    Ok (put_table s (U2 op) table inTableOffset (sub elementInstance (Z.to_nat inElementOffset) (Z.to_nat copySize))).
Definition tableCopy (op : unionOperation) (s : state) : result int_err state :=
  let! src := tableAt s (U1 op) in
  let! dst := tableAt s (U2 op) in
  let! (copySize, sourceOffset, destinationOffset, s) := pop3 s in
  reject (len (References src) <? u64 (sourceOffset + copySize)) ||
         (len (References dst) <? u64 (destinationOffset + copySize)) as Trapped ErrRuntimeInvalidTableAccess ;;
  if copySize =? 0 then Ok (next s)
  else
    let! _ := slices destinationOffset copySize in
    let! _ := slices sourceOffset copySize in
    Ok (put_table s (U2 op) dst destinationOffset (sub (References src) (Z.to_nat sourceOffset) (Z.to_nat copySize))).
Definition reference (t : TableInstance) (offset : Z) : result int_err Z :=
  reject len (References t) <=? offset as Trapped ErrRuntimeInvalidTableAccess ;;
  at_ "references" (References t) offset.
Definition tableGet (op : unionOperation) (s : state) : result int_err state :=
  let! table := tableAt s (U1 op) in
  let! (offset, s) := popValue s in
  let! r := reference table offset in Ok (next (pushValue s r)).
Definition tableSet (op : unionOperation) (s : state) : result int_err state :=
  let! table := tableAt s (U1 op) in
  let! (ref, s) := popValue s in
  let! (offset, s) := popValue s in
  let! _ := reference table offset in
  Ok (put_table s (U1 op) table offset [ref]).
(** [TableInstance.Grow]: the new region is filled by doubling. *)
Definition grow (t : TableInstance) (delta initialRef : Z) : result int_err (Z * TableInstance) :=
  let currentLen := u32 (len (References t)) in
  if delta =? 0 then Ok (currentLen, t) else
  let newLen := currentLen + delta in
  if (MaxUint32 <=? newLen) || match t_Max t with Some x => x <? newLen | None => false end
  then Ok (0xffffffff, t)
  else
    let zeroed := replicate (Z.to_nat delta) 0 in
    let! region := (if initialRef =? 0 then Ok zeroed else fill fillDoubling zeroed initialRef) in
    Ok (currentLen, mkTable (References t ++ region) (t_Max t)).
Definition tableGrow (op : unionOperation) (s : state) : result int_err state :=
  let! table := tableAt s (U1 op) in
  let! (num, s) := popValue s in
  let! (ref, s) := popValue s in
  let! (ret, table) := grow table (u32 num) ref in
  Ok (next (pushValue (set_inst s (set_tables (inst s) (<[Z.to_nat (U1 op) := table]> (i_tables (inst s))))) ret)).
Definition tableFill (op : unionOperation) (s : state) : result int_err state :=
  let! table := tableAt s (U1 op) in
  let! (num, ref, offset, s) := pop3 s in
  reject len (References table) <? u64 (num + offset) as Trapped ErrRuntimeInvalidTableAccess ;;
  if 0 <? num then
    let! _ := slices offset num in
    let! region := fill fillDoubling (sub (References table) (Z.to_nat offset) (Z.to_nat num)) ref in
    Ok (put_table s (U1 op) table offset region)
  else Ok (next s).

(** ** Atomic accesses, under the memory's lock *)
Definition aligned (offset n : Z) : result int_err unit :=
  reject negb (offset mod n =? 0) as Trapped ErrRuntimeUnalignedAtomic ;; Ok tt.
Definition atomicArithmetic (w t old arg : Z) : Z :=
  if t =? atomicArithmeticOpAdd then wrapu w (old + arg)
  else if t =? atomicArithmeticOpSub then wrapu w (old - arg)
  else if t =? atomicArithmeticOpAnd then Z.land old arg
  else if t =? atomicArithmeticOpOr then Z.lor old arg
  else if t =? atomicArithmeticOpXor then Z.lxor old arg
  else if t =? atomicArithmeticOpNop then arg
  else 0.
(** An access of [n] bytes: how it reads and writes. *)
Record access : Type := mkAccess {
  ac_bytes : Z; ac_read : MemoryInstance -> Z -> result mem_panic (option Z);
  ac_write : MemoryInstance -> Z -> Z -> option MemoryInstance }.
Definition access8 : access := mkAccess 1 WasmMemory.ReadByte WasmMemory.WriteByte.
Definition access16 : access := mkAccess 2 WasmMemory.ReadUint16Le WasmMemory.WriteUint16Le.
Definition access32 : access := mkAccess 4 WasmMemory.ReadUint32Le WasmMemory.WriteUint32Le.
Definition access64 : access := mkAccess 8 WasmMemory.ReadUint64Le WasmMemory.WriteUint64Le.
Definition sized (op : unionOperation) : access := if B1 op =? unsignedTypeI32 then access32 else access64.
Definition wrapped (a : access) (v : Z) : Z := wrapu (8 * ac_bytes a) v.

Definition atomicLoad (a : access) (op : unionOperation) (s : state) : result int_err state :=
  let! (offset, s) := popMemoryOffset op s in
  let! _ := aligned offset (ac_bytes a) in
  let! m := memoryInst s in
  let! v := checked (ac_read a m offset) in Ok (next (pushValue s v)).
Definition atomicStore (a : access) (op : unionOperation) (s : state) : result int_err state :=
  let! (v, s) := popValue s in
  let! (offset, s) := popMemoryOffset op s in
  let! _ := aligned offset (ac_bytes a) in
  let! m := memoryInst s in
  let! m := checked (Ok (ac_write a m offset (wrapped a v))) in Ok (next (set_inst s (set_memory (inst s) m))).
(** The write after a read of the same place is not checked. *)
Definition written (s : state) (m' : option MemoryInstance) : state :=
  match m' with Some m' => set_inst s (set_memory (inst s) m') | None => s end.
Definition atomicRMW (a : access) (op : unionOperation) (s : state) : result int_err state :=
  let! (val, s) := popValue s in
  let! (offset, s) := popMemoryOffset op s in
  let! _ := aligned offset (ac_bytes a) in
  let! m := memoryInst s in
  let! old := checked (ac_read a m offset) in
  let newVal := atomicArithmetic (8 * ac_bytes a) (B2 op) old (wrapped a val) in
  Ok (next (pushValue (written s (ac_write a m offset newVal)) old)).
Definition atomicCmpxchg (a : access) (op : unionOperation) (s : state) : result int_err state :=
  let! (rep, s) := popValue s in
  let! (exp, s) := popValue s in
  let! (offset, s) := popMemoryOffset op s in
  let! _ := aligned offset (ac_bytes a) in
  let! m := memoryInst s in
  let! old := checked (ac_read a m offset) in
  let s := if old =? wrapped a exp then written s (ac_write a m offset (wrapped a rep)) else s in
  Ok (next (pushValue s old)).

(** ** Floats, lanes and waiting *)

Definition trapping {A} (r : result trap A) : result int_err A := match r with Ok a => Ok a | Err t => Err (Trapped t) end.
Definition convert (op : unionOperation) (s : state) : result int_err state :=
  if one_of 4 (B1 op) then unary s (float1 math op) else Err (UnknownType (Kind op)).
Definition truncate (op : unionOperation) (s : state) : result int_err state :=
  if one_of 4 (B2 op)
  then let! (v, s) := popValue s in let! r := trapping (truncated math op v) in Ok (next (pushValue s r))
  else Err (UnknownType (Kind op)).

Definition pushVector (s : state) (v : Z * Z) : state := pushValue (pushValue s v.1) v.2.
Definition lanes1 (op : unionOperation) (s : state) : result int_err state :=
  let! (v, s) := popValue s in Ok (next (pushVector s (lanes math op [v]))).
Definition lanes2 (op : unionOperation) (s : state) : result int_err state :=
  let! (hi, lo, s) := pop2 s in Ok (next (pushVector s (lanes math op [hi; lo]))).
Definition lanes3 (op : unionOperation) (s : state) : result int_err state :=
  let! (v, s) := popValue s in
  let! (hi, lo, s) := pop2 s in Ok (next (pushVector s (lanes math op [v; hi; lo]))).
Definition lanes4 (op : unionOperation) (s : state) : result int_err state :=
  let! (x2Hi, x2Lo, s) := pop2 s in
  let! (x1Hi, x1Lo, s) := pop2 s in Ok (next (pushVector s (lanes math op [x2Hi; x2Lo; x1Hi; x1Lo]))).
Definition lanesAdd (op : unionOperation) (s : state) : result int_err state :=
  if one_of 6 (B1 op) then lanes4 op s else Err (UnknownType (Kind op)).
Definition laneWord (op : unionOperation) (s : state) : result int_err state :=
  let! (hi, lo, s) := pop2 s in Ok (next (pushValue s (lane math op [hi; lo]))).
(** [newVal[i]] has sixteen bytes. *)
Definition shuffle (op : unionOperation) (s : state) : result int_err state :=
  if existsb (fun l => l <? 32) (List.skipn 16 (Us op)) then Err (RuntimePanic "index out of range") else lanes4 op s.

(** Words of [w] bits, the lowest first. *)
Definition pack (w : Z) (vs : list Z) : Z := foldr (fun v acc => Z.lor v (Z.shiftl acc w)) 0 vs.
(** The words of a vector that is loaded, the low one first. *)
Definition loadVector (op : unionOperation) (m : MemoryInstance) (offset : Z) : result int_err (Z * Z) :=
  let eight (f : list Z -> Z * Z) := let! data := checked (WasmMemory.Read m offset 8) in Ok (f data) in
  let bytes (f : Z -> Z) data := (pack 16 (f <$> take 4 data), pack 16 (f <$> sub data 4 4)) in
  let words (f : Z -> Z) data :=
    (pack 32 [f (get_u16 data 0); f (get_u16 data 2)], pack 32 [f (get_u16 data 4); f (get_u16 data 6)]) in
  let one read (f : Z -> Z * Z) := let! v := checked (read m offset) in Ok (f v) in
  let splat w n v := (pack w (replicate n v), pack w (replicate n v)) in
  let t := B1 op in
  if t =? v128LoadType128 then
    let! lo := checked (WasmMemory.ReadUint64Le m offset) in
    let! hi := checked (WasmMemory.ReadUint64Le m (u32 (offset + 8))) in Ok (lo, hi)
  else if t =? v128LoadType8x8s then eight (bytes (fun b => u16 (i8 b)))
  else if t =? v128LoadType8x8u then eight (bytes id)
  else if t =? v128LoadType16x4s then eight (words (fun w => u32 (i16 w)))
  else if t =? v128LoadType16x4u then eight (words id)
  else if t =? v128LoadType32x2s then eight (fun data => (u64 (i32 (get_u32 data 0)), u64 (i32 (get_u32 data 4))))
  else if t =? v128LoadType32x2u then eight (fun data => (get_u32 data 0, get_u32 data 4))
  else if t =? v128LoadType8Splat then one WasmMemory.ReadByte (splat 8 8%nat)
  else if t =? v128LoadType16Splat then one WasmMemory.ReadUint16Le (splat 16 4%nat)
  else if t =? v128LoadType32Splat then one WasmMemory.ReadUint32Le (splat 32 2%nat)
  else if t =? v128LoadType64Splat then one WasmMemory.ReadUint64Le (fun v => (v, v))
  else if t =? v128LoadType32zero then one WasmMemory.ReadUint32Le (fun v => (v, 0))
  else if t =? v128LoadType64zero then one WasmMemory.ReadUint64Le (fun v => (v, 0))
  else Err (UnknownType (Kind op)).
Definition v128Load (op : unionOperation) (s : state) : result int_err state :=
  let! (offset, s) := popMemoryOffset op s in
  let! m := memoryInst s in
  let! v := loadVector op m offset in Ok (next (pushVector s v)).

(** The lane [i] of [n] lanes of [w] bits to a word; shifts are bytes. *)
Definition replaced (w i x b : Z) : Z :=
  let s := u8 (i * w) in Z.lor (Z.ldiff x (u64 (Z.shiftl (2 ^ w - 1) s))) (u64 (Z.shiftl b s)).
Definition replaceLane (w n i lo hi b : Z) : Z * Z :=
  if i <? n then (replaced w i lo b, hi) else (lo, replaced w (i - n) hi b).
Definition extractLane (w n i lo hi : Z) : Z :=
  if i <? n then Z.shiftr lo (u8 (i * w)) else Z.shiftr hi (u8 ((i - n) * w)).
Definition v128LoadLane (op : unionOperation) (s : state) : result int_err state :=
  let! (hi, lo, s) := pop2 s in
  let! (offset, s) := popMemoryOffset op s in
  let! m := memoryInst s in
  let! v :=
    if B1 op =? 8 then let! b := checked (WasmMemory.ReadByte m offset) in Ok (replaceLane 8 8 (B2 op) lo hi b)
    else if B1 op =? 16 then let! b := checked (WasmMemory.ReadUint16Le m offset) in Ok (replaceLane 16 4 (B2 op) lo hi b)
    else if B1 op =? 32 then let! b := checked (WasmMemory.ReadUint32Le m offset) in Ok (replaceLane 32 2 (B2 op) lo hi b)
    else if B1 op =? 64 then
      let! b := checked (WasmMemory.ReadUint64Le m offset) in Ok (if B2 op =? 0 then (b, hi) else (lo, b))
    else Ok (lo, hi) in
  Ok (next (pushVector s v)).
(** The high word is written first. *)
Definition v128Store (op : unionOperation) (s : state) : result int_err state :=
  let! (hi, lo, s) := pop2 s in
  let! (offset, s) := popMemoryOffset op s in
  reject MaxUint32 <? offset + 8 as Trapped ErrRuntimeOutOfBoundsMemoryAccess ;;
  let! m := memoryInst s in
  let! m := checked (Ok (WasmMemory.WriteUint64Le m (offset + 8) hi)) in
  let! m := checked (Ok (WasmMemory.WriteUint64Le m offset lo)) in
  Ok (next (set_inst s (set_memory (inst s) m))).
Definition v128StoreLane (op : unionOperation) (s : state) : result int_err state :=
  let! (hi, lo, s) := pop2 s in
  let! (offset, s) := popMemoryOffset op s in
  let! m := memoryInst s in
  let! m := checked (Ok (
    if B1 op =? 8 then WasmMemory.WriteByte m offset (u8 (extractLane 8 8 (B2 op) lo hi))
    else if B1 op =? 16 then WasmMemory.WriteUint16Le m offset (u16 (extractLane 16 4 (B2 op) lo hi))
    else if B1 op =? 32 then WasmMemory.WriteUint32Le m offset (u32 (extractLane 32 2 (B2 op) lo hi))
    else if B1 op =? 64 then WasmMemory.WriteUint64Le m offset (if B2 op =? 0 then lo else hi)
    else None)) in
  Ok (next (set_inst s (set_memory (inst s) m))).

(** A wait on the value [exp] of [n] bytes: 1 when it is another one. *)
Definition waitOn (n : Z) (read : MemoryInstance -> Z -> result mem_panic (option Z)) (m : MemoryInstance)
    (offset exp timeout : Z) : result int_err Z :=
  let! _ := aligned offset n in
  reject len (Buffer m) - n <? offset as Trapped ErrRuntimeOutOfBoundsMemoryAccess ;;
  match read m offset with
  | Err p => Err (MemoryPanic p)
  | Ok cur => if negb (default 0 cur =? exp) then Ok 1 else trapping (waited math m offset timeout)
  end.
Definition atomicMemoryWait (op : unionOperation) (s : state) : result int_err state :=
  let! (timeout, s) := popValue s in
  let! (exp, s) := popValue s in
  let! (offset, s) := popMemoryOffset op s in
  let! m := memoryInst s in
  reject negb (WasmMemory.Shared m) as Trapped ErrRuntimeExpectedSharedMemory ;;
  let! r :=
    if B1 op =? unsignedTypeI32 then waitOn 4 WasmMemory.ReadUint32Le m offset (u32 exp) (i64 timeout)
    else if B1 op =? unsignedTypeI64 then waitOn 8 WasmMemory.ReadUint64Le m offset exp (i64 timeout)
    else Err (UnknownType (Kind op)) in
  Ok (next (pushValue s r)).
Definition atomicMemoryNotify (op : unionOperation) (s : state) : result int_err state :=
  let! (count, s) := popValue s in
  let! (offset, s) := popMemoryOffset op s in
  let! _ := aligned offset 4 in
  let! m := memoryInst s in
  reject WasmMemory.Size m <=? offset as Trapped ErrRuntimeOutOfBoundsMemoryAccess ;;
  Ok (next (pushValue s (notified math m offset (u32 count)))).

(** ** Functions and branches *)

(** A Go function: from the instance and its slice of the stack, lowest word
    first, to what it leaves in both. *)
Inductive compiledFunction : Type :=
| Native (body : list unionOperation)
| HostFn (call : instance -> list Z -> result trap (list Z * instance)).
Record function : Type := mkFunction { funcType : FunctionType; typeID : Z; parent : compiledFunction }.
(** [functionFromUintptr] and [&functions[i]]: references as words. *)
Context (functions : list function) (typeIDs : list Z) (functionFromUintptr : Z -> option nat) (address : Z -> Z).

(** Where an operation goes: to the next one, or into a function. *)
Inductive outcome : Type := Goes (s : state) | Calls (f : nat) (s : state).
Definition goes (r : result int_err state) : result int_err outcome := let! s := r in Ok (Goes s).

Definition brIf (op : unionOperation) (s : state) : result int_err state :=
  let! (v, s) := popValue s in
  if 0 <? v then let! s := drop (U3 op) s in Ok (set_pc s (U1 op)) else Ok (set_pc s (U2 op)).
(** The word read is a [uint64]. *)
Definition brTable (op : unionOperation) (s : state) : result int_err state :=
  let! (v, s) := popValue s in
  let v := u64 v in
  let defaultAt := u64 (len (Us op) / 2 - 1) in
  let v := u64 ((if defaultAt <? v then defaultAt else v) * 2) in
  match Us op !! Z.to_nat (v + 1), Us op !! Z.to_nat v with
  | Some range, Some target => let! s := drop range s in Ok (set_pc s target)
  | _, _ => Err StackPanic
  end.
Definition callIndirect (op : unionOperation) (s : state) : result int_err outcome :=
  let! (offset, s) := popValue s in
  let! table := tableAt s (U2 op) in
  let! rawPtr := reference table offset in
  reject rawPtr =? 0 as Trapped ErrRuntimeInvalidTableAccess ;;
  match functionFromUintptr rawPtr with
  | None => Err (RuntimePanic "reference")
  | Some i =>
      let! tf := at_ "functions" functions (Z.of_nat i) in
      let! id := at_ "types" typeIDs (U1 op) in
      reject negb (typeID tf =? id) as Trapped ErrRuntimeIndirectCallTypeMismatch ;;
      Ok (Calls i s)
  end.

(** ** One operation *)
Definition exec (op : unionOperation) (s : state) : result int_err outcome :=
  match Kind op with
  | operationKindBuiltinFunctionCheckExitCode =>
      if i_closed (inst s) then Err (Trapped ExitError) else Ok (Goes (next s))
  | operationKindUnreachable => Err (Trapped ErrRuntimeUnreachable)
  | operationKindBr => Ok (Goes (set_pc s (U1 op)))
  | operationKindBrIf => goes (brIf op s)
  | operationKindBrTable => goes (brTable op s)
  | operationKindCall => Ok (Calls (Z.to_nat (U1 op)) s)
  | operationKindCallIndirect => callIndirect op s
  | operationKindDrop => goes (let! s := drop (U1 op) s in Ok (next s))
  | operationKindSelect => goes (select op s)
  | operationKindPick => goes (pick op s)
  | operationKindSet => goes (set_ op s)
  | operationKindGlobalGet => goes (globalGet op s)
  | operationKindGlobalSet => goes (globalSet op s)
  | operationKindLoad => goes (loads op s)
  | operationKindLoad8 => goes (load op s WasmMemory.ReadByte (widened i8 (B1 op)))
  | operationKindLoad16 => goes (load op s WasmMemory.ReadUint16Le (widened i16 (B1 op)))
  | operationKindLoad32 =>
      goes (load op s WasmMemory.ReadUint32Le (fun v => if B1 op =? 1 then u64 (i32 v) else v))
  | operationKindStore => goes (stores op s)
  | operationKindStore8 => goes (store op s WasmMemory.WriteByte u8)
  | operationKindStore16 => goes (store op s WasmMemory.WriteUint16Le u16)
  | operationKindStore32 => goes (store op s WasmMemory.WriteUint32Le u32)
  | operationKindMemorySize => goes (let! m := memoryInst s in Ok (next (pushValue s (WasmMemory.Pages m))))
  | operationKindMemoryGrow => goes (memoryGrow s)
  | operationKindConstI32 | operationKindConstI64 | operationKindConstF32 | operationKindConstF64 =>
      Ok (Goes (next (pushValue s (U1 op))))
  | operationKindEq => goes (binary s (equal (float2 math op) (Kind op) (B1 op)))
  | operationKindNe => goes (binary s (differ (float2 math op) (Kind op) (B1 op)))
  | operationKindEqz => goes (unary s (fun v => bool_word (v =? 0)))
  | operationKindLt => goes (binary s (compare (float2 math op) (Kind op) Z.ltb (B1 op)))
  | operationKindGt => goes (binary s (compare (float2 math op) (Kind op) gtb (B1 op)))
  | operationKindLe => goes (binary s (compare (float2 math op) (Kind op) Z.leb (B1 op)))
  | operationKindGe => goes (binary s (compare (float2 math op) (Kind op) geb (B1 op)))
  | operationKindAdd => goes (binary s (arithmetic (float2 math op) (Kind op) Z.add (B1 op)))
  | operationKindSub => goes (binary s (arithmetic (float2 math op) (Kind op) Z.sub (B1 op)))
  | operationKindMul => goes (binary s (arithmetic (float2 math op) (Kind op) Z.mul (B1 op)))
  | operationKindClz => goes (unary s (clz (B1 op)))
  | operationKindCtz => goes (unary s (ctz (B1 op)))
  | operationKindPopcnt => goes (unary s (popcnt (B1 op)))
  | operationKindDiv => goes (binary s (div (float2 math op) (B1 op)))
  | operationKindRem => goes (binary s (rem (B1 op)))
  | operationKindAnd => goes (binary s (bitwise Z.land (B1 op)))
  | operationKindOr => goes (binary s (bitwise Z.lor (B1 op)))
  | operationKindXor => goes (binary s (bitwise Z.lxor (B1 op)))
  | operationKindShl => goes (binary s (shl (B1 op)))
  | operationKindShr => goes (binary s (shr (B1 op)))
  | operationKindRotl => goes (binary s (rotl (B1 op)))
  | operationKindRotr => goes (binary s (rotr (B1 op)))
  | operationKindAbs => goes (unary s (abs (B1 op)))
  | operationKindCopysign => goes (binary s (copysign (B1 op)))
  | operationKindI32WrapFromI64 => goes (unary s u32)
  | operationKindExtend => goes (unary s (extend (B1 op)))
  | operationKindSignExtend32From8 => goes (unary s (fun v => u32 (i8 v)))
  | operationKindSignExtend32From16 => goes (unary s (fun v => u32 (i16 v)))
  | operationKindSignExtend64From8 => goes (unary s (fun v => u64 (i8 v)))
  | operationKindSignExtend64From16 => goes (unary s (fun v => u64 (i16 v)))
  | operationKindSignExtend64From32 => goes (unary s (fun v => u64 (i32 v)))
  | operationKindMemoryInit => goes (memoryInit op s)
  | operationKindDataDrop => goes (let! _ := at_ "data" (i_data (inst s)) (U1 op) in
      Ok (next (set_inst s (set_data (inst s) (<[Z.to_nat (U1 op) := []]> (i_data (inst s)))))))
  | operationKindMemoryCopy => goes (memoryCopy s)
  | operationKindMemoryFill => goes (memoryFill s)
  | operationKindTableInit => goes (tableInit op s)
  | operationKindElemDrop => goes (let! _ := at_ "elements" (i_elements (inst s)) (U1 op) in
      Ok (next (set_inst s (set_elements (inst s) (<[Z.to_nat (U1 op) := []]> (i_elements (inst s)))))))
  | operationKindTableCopy => goes (tableCopy op s)
  | operationKindRefFunc => goes (let! _ := at_ "functions" functions (U1 op) in Ok (next (pushValue s (address (U1 op)))))
  | operationKindTableGet => goes (tableGet op s)
  | operationKindTableSet => goes (tableSet op s)
  | operationKindTableSize => goes (let! t := tableAt s (U1 op) in Ok (next (pushValue s (len (References t)))))
  | operationKindTableGrow => goes (tableGrow op s)
  | operationKindTableFill => goes (tableFill op s)
  | operationKindV128Const => Ok (Goes (next (pushValue (pushValue s (U1 op)) (U2 op))))
  | operationKindV128AnyTrue => goes (let! (hi, lo, s) := pop2 s in
      Ok (next (pushValue s (bool_word (negb (hi =? 0) || negb (lo =? 0))))))
  | operationKindV128And => goes (vector2 s Z.land)
  | operationKindV128Not => goes (let! (hi, lo, s) := pop2 s in Ok (next (pushValue (pushValue s (not64 lo)) (not64 hi))))
  | operationKindV128Or => goes (vector2 s Z.lor)
  | operationKindV128Xor => goes (vector2 s Z.lxor)
  | operationKindV128Bitselect => goes (bitselect s)
  | operationKindV128AndNot => goes (vector2 s (fun a b => Z.land a (not64 b)))
  | operationKindAtomicFence => Ok (Goes (next s))
  | operationKindAtomicLoad => goes (atomicLoad (sized op) op s)
  | operationKindAtomicLoad8 => goes (atomicLoad access8 op s)
  | operationKindAtomicLoad16 => goes (atomicLoad access16 op s)
  | operationKindAtomicStore => goes (atomicStore (sized op) op s)
  | operationKindAtomicStore8 => goes (atomicStore access8 op s)
  | operationKindAtomicStore16 => goes (atomicStore access16 op s)
  | operationKindAtomicRMW => goes (atomicRMW (sized op) op s)
  | operationKindAtomicRMW8 => goes (atomicRMW access8 op s)
  | operationKindAtomicRMW16 => goes (atomicRMW access16 op s)
  | operationKindAtomicRMWCmpxchg => goes (atomicCmpxchg (sized op) op s)
  | operationKindAtomicRMW8Cmpxchg => goes (atomicCmpxchg access8 op s)
  | operationKindAtomicRMW16Cmpxchg => goes (atomicCmpxchg access16 op s)
  | operationKindNeg | operationKindCeil | operationKindFloor | operationKindTrunc | operationKindNearest
  | operationKindSqrt | operationKindF32DemoteFromF64 | operationKindF64PromoteFromF32 => goes (unary s (float1 math op))
  | operationKindMin | operationKindMax => goes (binary s (fun v1 v2 => Ok (float2 math op v1 v2)))
  | operationKindFConvertFromI => goes (convert op s)
  | operationKindITruncFromF => goes (truncate op s)
  | operationKindV128Add | operationKindV128Sub => goes (lanesAdd op s)
  | operationKindV128Swizzle | operationKindV128Cmp | operationKindV128AddSat | operationKindV128SubSat
  | operationKindV128Mul | operationKindV128Div | operationKindV128Min | operationKindV128Max
  | operationKindV128AvgrU | operationKindV128Pmin | operationKindV128Pmax | operationKindV128ExtMul
  | operationKindV128Q15mulrSatS | operationKindV128Dot | operationKindV128Narrow => goes (lanes4 op s)
  | operationKindV128Shuffle => goes (shuffle op s)
  | operationKindV128Neg | operationKindV128Sqrt | operationKindV128Abs | operationKindV128Popcnt
  | operationKindV128Ceil | operationKindV128Floor | operationKindV128Trunc | operationKindV128Nearest
  | operationKindV128Extend | operationKindV128ExtAddPairwise | operationKindV128FloatPromote
  | operationKindV128FloatDemote | operationKindV128FConvertFromI | operationKindV128ITruncSatFromF => goes (lanes2 op s)
  | operationKindV128ReplaceLane | operationKindV128Shl | operationKindV128Shr => goes (lanes3 op s)
  | operationKindV128Splat => goes (lanes1 op s)
  | operationKindV128ExtractLane | operationKindV128AllTrue | operationKindV128BitMask => goes (laneWord op s)
  | operationKindV128Load => goes (v128Load op s)
  | operationKindV128LoadLane => goes (v128LoadLane op s)
  | operationKindV128Store => goes (v128Store op s)
  | operationKindV128StoreLane => goes (v128StoreLane op s)
  | operationKindAtomicMemoryWait => goes (atomicMemoryWait op s)
  | operationKindAtomicMemoryNotify => goes (atomicMemoryNotify op s)
  | operationKindLabel | operationKindI32ReinterpretFromF32 | operationKindI64ReinterpretFromF64
  | operationKindF32ReinterpretFromI32 | operationKindF64ReinterpretFromI64 | operationKindEnd => Ok (Goes (next s))
  end.

(** ** What the recorder reads of the locals

    [readVariable] takes the address of a variable from the copy of the locals,
    when the variable or the frame base is in a local; [None] is any other
    location. *)
Inductive LocationType : Type := LocationTypeLocal | LocationTypeGlobal | OperandStack | LocationTypeDirectLocal.
Record MemoryLocation : Type := mkLocation { Typ : LocationType; Index : Z }.
Definition local_word (locals : list Z) (i : Z) : result int_err Z :=
  match locals !! Z.to_nat i with Some w => Ok w | None => Err StackPanic end.
Definition variableAddress (v fb : MemoryLocation) (locals : list Z) : result int_err (option Z) :=
  match Typ v, Typ fb with
  | LocationTypeDirectLocal, _ => let! w := local_word locals (Index v) in Ok (Some (u32 w))
  | _, LocationTypeLocal => let! w := local_word locals (Index fb) in Ok (Some (u32 (u64 (w + Index v))))
  | _, _ => Ok None
  end.

(** ** The call engine *)
Record callFrame : Type := mkCallFrame { fr_pc : Z; fr_f : nat; fr_base : Z; fr_locals : list Z }.
Record callEngine : Type := mkEngine { ce_stack : list Z; ce_frames : list callFrame; ce_inst : instance }.

Definition pushFrame (ce : callEngine) (f : callFrame) : result int_err callEngine :=
  reject callStackCeiling <=? len (ce_frames ce) as Trapped ErrRuntimeStackOverflow ;;
  Ok (mkEngine (ce_stack ce) (f :: ce_frames ce) (ce_inst ce)).

(** The recorder's copy of the locals when a function is entered: its parameters
    first. *)
Definition initialLocals (ft : FunctionType) (st : list Z) : result int_err (list Z) :=
  let locals := replicate 1024 0 in
  let paramCount := len (ft_Params ft) in
  if 0 <? paramCount then
    let! functionParams := above st (len st - paramCount) in
    Ok (put locals 0 (take 1024 (rev functionParams)))
  else Ok locals.
Definition callNativeFunc (ce : callEngine) (i : nat) (f : function) : result int_err callEngine :=
  let frame := mkCallFrame 0 i (len (ce_stack ce)) [] in
  let! ce := pushFrame ce frame in
  let! locals := initialLocals (funcType f) (ce_stack ce) in
  Ok (mkEngine (ce_stack ce) (mkCallFrame 0 i (fr_base frame) locals :: tail (ce_frames ce)) (ce_inst ce)).

(** [frame.pc++] once a called function has returned. *)
Definition resume (frames : list callFrame) : list callFrame :=
  match frames with
  | g :: rest => mkCallFrame (u64 (fr_pc g + 1)) (fr_f g) (fr_base g) (fr_locals g) :: rest
  | [] => []
  end.

(** The slice passed to a Go function has room for its results. *)
Definition callGoFuncWithStack (ce : callEngine) (i : nat) (f : function)
    (fn : instance -> list Z -> result trap (list Z * instance)) : result int_err callEngine :=
  let paramLen := Lower.ParamNumInUint64 (funcType f) in
  let resultLen := Lower.ResultNumInUint64 (funcType f) in
  let st := replicate (Z.to_nat (resultLen - paramLen)) 0 ++ ce_stack ce in
  let stackLen := Z.max paramLen resultLen in
  let! region := above st (len st - stackLen) in
  let! rest := below st (len st - stackLen) in
  let! _ := pushFrame ce (mkCallFrame 0 i (len st) []) in
  match fn (ce_inst ce) (rev region) with
  | Err t => Err (Trapped t)
  | Ok (region, inst) =>
      let st := rev region ++ rest in
      let! st := below st (len st - Z.max 0 (paramLen - resultLen)) in
      Ok (mkEngine st (resume (ce_frames ce)) inst)
  end.
Definition callFunction (ce : callEngine) (i : nat) : result int_err callEngine :=
  let! f := at_ "functions" functions (Z.of_nat i) in
  match parent f with
  | HostFn fn => callGoFuncWithStack ce i f fn
  | Native _ => callNativeFunc ce i f
  end.

(** One turn of the loop of the innermost frame, or its return. *)
Definition step (ce : callEngine) : result int_err callEngine :=
  match ce_frames ce with
  | [] => Ok ce
  | frame :: rest =>
      let! f := at_ "functions" functions (Z.of_nat (fr_f frame)) in
      match parent f with
      | HostFn _ => Err (RuntimePanic "host function")
      | Native body =>
          if fr_pc frame <? len body then
            match body !! Z.to_nat (fr_pc frame) with
            | None => Err StackPanic
            | Some op =>
                let! o := exec op (mkState (ce_stack ce) (fr_locals frame) (fr_pc frame) (ce_inst ce)) in
                let enter s := mkEngine (stack s) (mkCallFrame (pc s) (fr_f frame) (fr_base frame) (locals s) :: rest) (inst s) in
                match o with
                | Goes s => Ok (enter s)
                | Calls i s => callFunction (enter s) i
                end
            end
          else Ok (mkEngine (ce_stack ce) (resume rest) (ce_inst ce))
      end
  end.

Fixpoint run (fuel : nat) (ce : callEngine) : result int_err callEngine :=
  match ce_frames ce, fuel with
  | [], _ => Ok ce
  | _, O => Ok ce
  | _, S fuel => let! ce := step ce in run fuel ce
  end.

(** [Call]: the parameters pushed, the function entered; when it has returned
    the results are on the stack. *)
Definition call (inst : instance) (i : nat) (params : list Z) : result int_err callEngine :=
  callFunction (mkEngine (rev params) [] inst) i.
Definition popValues (ce : callEngine) (n : Z) : result int_err (list Z) :=
  let! top := above (ce_stack ce) (len (ce_stack ce) - n) in Ok (rev top).
End evaluation.

(** ** The functions of an instance: [NewModuleEngine]

    Imported functions come first, then the module's own. *)
Fixpoint moduleFunctions (m : WasmBinary.Module') (typeIDs : list Z) (i : Z) (codes : list (list unionOperation))
  : result int_err (list function) :=
  match codes with
  | [] => Ok []
  | c :: codes =>
      let! typeIndex := at_ "functions" (WasmBinary.FunctionSection m) i in
      let! id := at_ "type IDs" typeIDs typeIndex in
      let! ft := at_ "types" (WasmBinary.TypeSection m) typeIndex in
      let! fs := moduleFunctions m typeIDs (i + 1) codes in
      Ok (mkFunction ft id (Native c) :: fs)
  end.
Definition NewModuleEngine (m : WasmBinary.Module') (typeIDs : list Z) (codes : list (list unionOperation))
  (imported : list function) : result int_err (list function) :=
  let! fs := moduleFunctions m typeIDs 0 codes in Ok (imported ++ fs).
End Interp.
