(* ===== verification/InterpHeights.v ===== *)
(** * The loop follows the heights

    [LowerFlow] says which words an operation takes and leaves and where it goes
    next; here [exec] is shown to do that: an operation that [straight] or [jumps]
    allows at a height touches only the words above the bottom of its frame,
    leaves the height they say and never indexes the stack out of range. *)
From S2P Require Import Prelude Leb128 Opcodes WasmBinary FuncValidation WasmModule WasmMemory Operations Signature LowerTables Lower LowerFlow Interp.

Module InterpHeights.
Import WasmBinary(FunctionType, GlobalType, gt_ValType, ft_Params, ft_Results, ValueTypeV128).
Import Operations LowerFlow Interp.

Section heights.
Context (globals : list GlobalType).

(** The globals of an instance have the declared types. *)
Definition globals_agree (i : instance) : Prop := g_Type <$> i_globals i = gt_ValType <$> globals.

(** [r] is reached from a state with [h] words above [rest], [i] of which are
    replaced by [o]. *)
Definition acts (i o : Z) (f : state -> result int_err state) : Prop :=
  forall s top rest, stack s = top ++ rest -> i <= len top -> globals_agree (inst s) ->
    match f s with
    | Ok s' => exists top', stack s' = top' ++ rest /\ len top' = len top - i + o /\ pc s' = u64 (pc s + 1) /\
        globals_agree (inst s') /\ locals s' = locals s
    | Err StackPanic | Err (UnknownType _) => False
    | Err _ => True
    end.

Lemma take_word n (t : list Z) : Z.pos n <= len t -> exists v t', t = v :: t' /\ Z.pos n - 1 <= len t'.
Proof.
  destruct t as [|v t]; intros H; [change (len (@nil Z)) with 0 in H; lia|]. exists v, t. rewrite len_cons in H. split; [done|lia].
Qed.
Ltac take_words :=
  repeat match goal with H : Z.pos _ <= len _ |- _ =>
    let v := fresh "v" in apply take_word in H as (v & ? & -> & H); match type of H with ?e <= _ =>
      let k := eval vm_compute in e in change e with k in H end end.
Ltac run_words := cbn [popValue pop2 pop3 pushValue set_stack set_inst set_pc set_locals next stack locals pc inst
  app fst snd i_globals i_memory i_tables i_data i_elements set_memory set_tables set_data set_elements written write_buffer put_table].
(** Everything that only pops, reads the instance and pushes. *)
Ltac act := intros [st lo p i] top rest Hst Hi Hg; cbn [stack] in Hst; subst st; cbv beta.
Ltac acted := repeat (run_words; case_match; simplify_eq; try done); run_words;
  match goal with |- exists top', ?a :: ?b :: ?t ++ _ = _ /\ _ => exists (a :: b :: t)
  | |- exists top', ?a :: ?t ++ _ = _ /\ _ => exists (a :: t)
  | |- exists top', ?t ++ _ = _ /\ _ => exists t end;
  rewrite ?len_cons; split_and!; try done; try lia.

Lemma unary_acts f : acts 1 1 (fun s => unary s f).
Proof. act. take_words. unfold unary. acted. Qed.
Definition total (f : Z -> Z -> result int_err Z) : Prop :=
  forall a b, match f a b with Err StackPanic | Err (UnknownType _) => False | _ => True end.
Lemma binary_acts f : total f -> acts 2 1 (fun s => binary s f).
Proof.
  intros Hf. act. take_words. unfold binary. run_words.
  match goal with |- context [f ?a ?b] => pose proof (Hf a b); destruct (f a b) as [r|[]] end; try done. acted.
Qed.
Lemma load_acts op read f : acts 1 1 (fun s => load op s read f).
Proof. act. take_words. unfold load, popMemoryOffset, memoryInst, checked. acted. Qed.
Lemma store_acts op write f : acts 2 0 (fun s => store op s write f).
Proof. act. take_words. unfold store, popMemoryOffset, memoryInst, checked. acted. Qed.
Lemma loads_acts op : acts 1 1 (loads op).
Proof. intros s top rest. unfold loads. destruct (narrow _); apply load_acts. Qed.
Lemma stores_acts op : acts 2 0 (stores op).
Proof. intros s top rest. unfold stores. destruct (narrow _); apply store_acts. Qed.
Lemma memoryGrow_acts : acts 1 1 memoryGrow.
Proof. act. take_words. unfold memoryGrow, memoryInst. acted. Qed.
Lemma memoryInit_acts op : acts 3 0 (memoryInit op).
Proof. act. take_words. unfold memoryInit, memoryInst, slices, at_. acted. Qed.
Lemma memoryCopy_acts : acts 3 0 memoryCopy.
Proof. act. take_words. unfold memoryCopy, memoryInst, slices. acted. Qed.
Lemma fill_panics loop buf v : fill loop buf v <> Err StackPanic.
Proof. unfold fill. by destruct (loop _ _ _). Qed.
Lemma memoryFill_acts : acts 3 0 memoryFill.
Proof. act. take_words. unfold memoryFill, memoryInst, slices, fill. acted. Qed.
Lemma tableInit_acts op : acts 3 0 (tableInit op).
Proof. act. take_words. unfold tableInit, tableAt, slices, at_. acted. Qed.
Lemma tableCopy_acts op : acts 3 0 (tableCopy op).
Proof. act. take_words. unfold tableCopy, tableAt, slices, at_. acted. Qed.
Lemma tableGet_acts op : acts 1 1 (tableGet op).
Proof. act. take_words. unfold tableGet, tableAt, reference, at_. acted. Qed.
Lemma tableSet_acts op : acts 2 0 (tableSet op).
Proof. act. take_words. unfold tableSet, tableAt, reference, at_. acted. Qed.
Lemma tableGrow_acts op : acts 2 1 (tableGrow op).
Proof. act. take_words. unfold tableGrow, tableAt, grow, fill, at_. acted. Qed.
Lemma tableFill_acts op : acts 3 0 (tableFill op).
Proof. act. take_words. unfold tableFill, tableAt, slices, fill, at_. acted. Qed.
Lemma vector2_acts f : acts 4 2 (fun s => vector2 s f).
Proof. act. take_words. unfold vector2. acted. Qed.
Lemma bitselect_acts : acts 6 2 bitselect.
Proof. act. take_words. unfold bitselect. acted. Qed.
Lemma atomicLoad_acts a op : acts 1 1 (atomicLoad a op).
Proof. act. take_words. unfold atomicLoad, popMemoryOffset, aligned, memoryInst, checked. acted. Qed.
Lemma atomicStore_acts a op : acts 2 0 (atomicStore a op).
Proof. act. take_words. unfold atomicStore, popMemoryOffset, aligned, memoryInst, checked. acted. Qed.
Lemma atomicRMW_acts a op : acts 2 1 (atomicRMW a op).
Proof. act. take_words. unfold atomicRMW, popMemoryOffset, aligned, memoryInst, checked, written. acted. Qed.
Lemma atomicCmpxchg_acts a op : acts 3 1 (atomicCmpxchg a op).
Proof. act. take_words. unfold atomicCmpxchg, popMemoryOffset, aligned, memoryInst, checked, written. acted. Qed.
Lemma select_acts op : acts (if B3 op then 5 else 3) (if B3 op then 2 else 1) (select op).
Proof. unfold select. destruct (B3 op); act; take_words; acted. Qed.

(** *** Floats, lanes and waiting *)
Section parameter.
Context (math : Math).
Lemma convert_acts op : one_of 4 (B1 op) = true -> acts 1 1 (convert math op).
Proof. intros Ht. unfold convert. rewrite Ht. apply unary_acts. Qed.
Lemma truncate_acts op : one_of 4 (B2 op) = true -> acts 1 1 (truncate math op).
Proof. intros Ht. unfold truncate, trapping. rewrite Ht. act. take_words. acted. Qed.
Lemma lanes1_acts op : acts 1 2 (lanes1 math op).
Proof. act. take_words. unfold lanes1, pushVector. acted. Qed.
Lemma lanes2_acts op : acts 2 2 (lanes2 math op).
Proof. act. take_words. unfold lanes2, pushVector. acted. Qed.
Lemma lanes3_acts op : acts 3 2 (lanes3 math op).
Proof. act. take_words. unfold lanes3, pushVector. acted. Qed.
Lemma lanes4_acts op : acts 4 2 (lanes4 math op).
Proof. act. take_words. unfold lanes4, pushVector. acted. Qed.
Lemma lanesAdd_acts op : one_of 6 (B1 op) = true -> acts 4 2 (lanesAdd math op).
Proof. intros Ht. unfold lanesAdd. rewrite Ht. apply lanes4_acts. Qed.
Lemma laneWord_acts op : acts 2 1 (laneWord math op).
Proof. act. take_words. unfold laneWord. acted. Qed.
Lemma shuffle_acts op : acts 4 2 (shuffle math op).
Proof. unfold shuffle. destruct (existsb _ _); [by intros s top rest _ _ _|apply lanes4_acts]. Qed.
Lemma checked_total {A} (r : result WasmMemory.mem_panic (option A)) : match checked r with Err StackPanic | Err (UnknownType _) => False | _ => True end.
Proof. by destruct r as [[]|]. Qed.
Lemma loadVector_total op m offset : one_of 13 (B1 op) = true ->
  match loadVector op m offset with Err StackPanic | Err (UnknownType _) => False | _ => True end.
Proof.
  intros Ht. unfold loadVector. cbv zeta.
  repeat match goal with
  | |- context [if B1 op =? ?t then _ else _] => destruct (B1 op =? t) eqn:?
  | |- context [checked ?r] => pose proof (checked_total r); destruct (checked r) as [|[]]; try done
  end.
  exfalso. unfold one_of, v128LoadType128, v128LoadType8x8s, v128LoadType8x8u, v128LoadType16x4s, v128LoadType16x4u, v128LoadType32x2s,
    v128LoadType32x2u, v128LoadType8Splat, v128LoadType16Splat, v128LoadType32Splat, v128LoadType64Splat, v128LoadType32zero, v128LoadType64zero in *.
  lia.
Qed.
Lemma v128Load_acts op : one_of 13 (B1 op) = true -> acts 1 2 (v128Load op).
Proof.
  intros Ht. act. take_words. unfold v128Load, popMemoryOffset, memoryInst, pushVector. run_words.
  destruct (MaxUint32 <? _); [done|]. run_words. destruct (i_memory _) as [mem|]; [|done]. run_words.
  match goal with |- context [loadVector op mem ?o] => pose proof (loadVector_total op mem o Ht); destruct (loadVector op mem o) as [[lo' hi']|[]] end;
    try done. acted.
Qed.
Lemma v128LoadLane_acts op : acts 3 2 (v128LoadLane op).
Proof. act. take_words. unfold v128LoadLane, popMemoryOffset, memoryInst, checked, pushVector. acted. Qed.
Lemma v128Store_acts op : acts 3 0 (v128Store op).
Proof. act. take_words. unfold v128Store, popMemoryOffset, memoryInst, checked. acted. Qed.
Lemma v128StoreLane_acts op : acts 3 0 (v128StoreLane op).
Proof. act. take_words. unfold v128StoreLane, popMemoryOffset, memoryInst, checked. acted. Qed.
Lemma atomicMemoryWait_acts op : one_of 2 (B1 op) = true -> acts 3 1 (atomicMemoryWait math op).
Proof.
  intros Ht. act. take_words. unfold atomicMemoryWait, popMemoryOffset, memoryInst, waitOn, aligned, trapping.
  unfold one_of, unsignedTypeI32, unsignedTypeI64 in *.
  destruct (B1 op =? 0) eqn:?; [acted|]. destruct (B1 op =? 1) eqn:?; [acted|]. lia.
Qed.
Lemma atomicMemoryNotify_acts op : acts 2 1 (atomicMemoryNotify math op).
Proof. act. take_words. unfold atomicMemoryNotify, popMemoryOffset, memoryInst, aligned. acted. Qed.
End parameter.

(** ** Ranges and locals *)
Section words.
Context (s : state) (top rest : list Z).
Hypothesis Hst : stack s = top ++ rest.
Hypothesis Hlen : len (stack s) < 2 ^ 31.

Lemma range_bounds raw : in_s 32 (Start (inclusiveRangeFromU64 raw)) /\ in_s 32 (End (inclusiveRangeFromU64 raw)).
Proof. unfold inclusiveRangeFromU64. cbn [Start End]. split; apply wraps_range; lia. Qed.
Lemma drop_words raw h : dropped raw (len top) = Some h ->
  exists top', drop raw s = Ok (set_stack s (top' ++ rest)) /\ len top' = h.
Proof.
  unfold dropped, drop. destruct (range_bounds raw) as [Hs He]. revert Hs He. generalize (inclusiveRangeFromU64 raw).
  change (in_s 32) with (fun x => - 2 ^ 31 <= x < 2 ^ 31). cbv beta. intros r Hs He.
  destruct (Z.eqb_spec (Start r) (-1)); [intros [= <-]; exists top; rewrite <-Hst; split; [by destruct s|done]|].
  destruct (Z.leb_spec 0 (Start r)); [|done]. destruct (Z.leb_spec (Start r) (End r)); [|done].
  destruct (Z.ltb_spec (End r) (len top)); [|done]. cbn [andb]. intros [= <-].
  rewrite Hst, len_app in Hlen |- *. pose proof (len_nonneg rest).
  assert (forall x, - 2 ^ 31 <= x < 2 ^ 31 -> i32 x = x) as Hw by (intros; by apply wraps_small).
  rewrite (Hw (len top + len rest)), (Hw (len top + len rest - 1)), !Hw by lia.
  unfold below, above. rewrite len_app.
  replace (len top + len rest - 1 - End r <? 0) with false by lia.
  replace (len top + len rest <? len top + len rest - 1 - End r) with false by lia. cbn [orb].
  replace (length (top ++ rest) - Z.to_nat (len top + len rest - 1 - End r))%nat with (Z.to_nat (End r + 1))
    by (rewrite length_app; unfold len in *; lia).
  change (List.skipn (Z.to_nat (End r + 1)) (top ++ rest)) with (list.drop (Z.to_nat (End r + 1)) (top ++ rest)).
  rewrite drop_app_le by (unfold len in *; lia).
  destruct (Z.eqb_spec (Start r) 0).
  - eexists. split; [done|]. unfold len in *. rewrite length_drop. lia.
  - replace (len top + len rest - Start r <? 0) with false by lia.
    replace (len top + len rest <? len top + len rest - Start r) with false by lia. cbn [orb].
    replace (length (top ++ rest) - Z.to_nat (len top + len rest - Start r))%nat with (Z.to_nat (Start r))
      by (rewrite length_app; unfold len in *; lia).
    rewrite take_app_le by (unfold len in *; lia). rewrite (assoc_L (++)). eexists. split; [done|].
    unfold len in *. rewrite length_app, length_take, length_drop. lia.
Qed.

Lemma stack_at_top st d : 0 <= d < len st -> exists v, stack_at st (len st - 1 - d) = Ok v.
Proof.
  intros Hd. unfold stack_at. replace (len st - 1 - d <? 0) with false by lia.
  replace (len st <=? len st - 1 - d) with false by lia. cbn [orb].
  replace (len st - 1 - (len st - 1 - d)) with d by lia.
  destruct (lookup_lt_is_Some_2 st (Z.to_nat d)) as [v ->]; [unfold len in *; lia|]. by exists v.
Qed.
Lemma stack_put_top t d v : 0 <= d < len t -> exists t', stack_put (t ++ rest) (len (t ++ rest) - 1 - d) v = Ok (t' ++ rest) /\
  len t' = len t.
Proof.
  intros Hd. unfold stack_put. rewrite len_app. pose proof (len_nonneg rest).
  replace (len t + len rest - 1 - d <? 0) with false by lia.
  replace (len t + len rest <=? len t + len rest - 1 - d) with false by lia. cbn [orb].
  replace (len t + len rest - 1 - (len t + len rest - 1 - d)) with d by lia.
  rewrite insert_app_l by (unfold len in *; lia). eexists. split; [done|]. unfold len. by rewrite length_insert.
Qed.
Lemma pick_words op : globals_agree (inst s) ->
  (if B3 op then 1 else 0) <= i64 (U1 op) < len top ->
  exists top', pick op s = Ok (next (set_stack s (top' ++ rest))) /\ len top' = len top + 1 + (if B3 op then 1 else 0).
Proof.
  intros Hg Hd. unfold pick. destruct (stack_at_top (stack s) (i64 (U1 op))) as [v ->].
  { rewrite Hst, len_app. pose proof (len_nonneg rest). destruct (B3 op); lia. }
  destruct (B3 op).
  - destruct (stack_at_top (v :: stack s) (i64 (U1 op))) as [v' Hv'].
    { rewrite len_cons, Hst, len_app. pose proof (len_nonneg rest). lia. }
    rewrite len_cons in Hv'. cbn [pushValue set_stack stack].
    replace (len (stack s) - 1 - i64 (U1 op) + 1) with (1 + len (stack s) - 1 - i64 (U1 op)) by lia. rewrite Hv'.
    exists (v' :: v :: top). rewrite !len_cons. cbn [app]. rewrite <-Hst. split; [done|lia].
  - exists (v :: top). rewrite len_cons. cbn [app]. rewrite <-Hst. split; [done|lia].
Qed.
Context (math : Math).
Hypothesis Hdoubled : forall i, 1024 <= i -> i < doubled math i.
Lemma ensureSize_fits l i : 1024 <= len l -> 0 <= i -> i < len (ensureSize math l i) /\ 1024 <= len (ensureSize math l i).
Proof.
  intros Hl Hi. unfold ensureSize. destruct (Z.ltb_spec i (len l)); [lia|]. pose proof (Hdoubled i ltac:(lia)).
  unfold len in *. rewrite length_take, length_app, length_replicate. lia.
Qed.
Lemma set_words op : (if B3 op then 2 else 0) < i64 (U1 op) < len top -> 0 <= U2 op < 2 ^ 32 -> 1024 <= len (locals s) ->
  exists top' l', set_ math op s = Ok (next (set_locals (set_stack s (top' ++ rest)) l')) /\
    len top' = len top - 1 - (if B3 op then 1 else 0) /\ 1024 <= len l'.
Proof.
  intros Hd HU Hl. unfold set_. rewrite Hst, len_app. destruct (B3 op).
  - destruct top as [|hi [|lo t]]; [change (len (@nil Z)) with 0 in Hd; lia|change (len [hi]) with 1 in Hd; lia|].
    rewrite !len_cons in *. cbn [popValue pop2]. unfold pop2, popValue. rewrite Hst. cbn [app stack set_stack].
    destruct (stack_put_top t (i64 (U1 op) - 2) lo) as (t1 & Ht1 & El1); [lia|].
    destruct (stack_put_top t1 (i64 (U1 op) - 3) hi) as (t2 & Ht2 & El2); [lia|]. rewrite len_app in Ht1, Ht2.
    replace (1 + (1 + len t) + len rest - 1 - i64 (U1 op)) with (len t + len rest - 1 - (i64 (U1 op) - 2)) by lia.
    rewrite Ht1. replace (len t + len rest - 1 - (i64 (U1 op) - 2) + 1) with (len t1 + len rest - 1 - (i64 (U1 op) - 3)) by lia.
    rewrite Ht2. exists t2, (locals s). split_and!; [by destruct s|lia|done].
  - destruct top as [|v t]; [change (len (@nil Z)) with 0 in Hd; lia|]. rewrite len_cons in *.
    unfold popValue. rewrite Hst. cbn [app stack set_stack locals].
    destruct (stack_put_top t (i64 (U1 op) - 1) v) as (t1 & Ht1 & El1); [lia|]. rewrite len_app in Ht1.
    replace (1 + len t + len rest - 1 - i64 (U1 op)) with (len t + len rest - 1 - (i64 (U1 op) - 1)) by lia. rewrite Ht1.
    replace (i64 (U2 op)) with (U2 op) by (symmetry; apply wraps_small; unfold in_s; cbn; lia).
    destruct (ensureSize_fits (locals s) (U2 op)) as [H1 H2]; [done|lia|].
    replace (U2 op <? 0) with false by lia. replace (len (ensureSize math (locals s) (U2 op)) <=? U2 op) with false by lia.
    cbn [orb]. eexists t1, _. split_and!; [done|lia|]. unfold len in *. by rewrite length_insert.
Qed.
End words.

(** ** Globals and what is written out in [exec] *)
Lemma global_agrees i n g : globals_agree i -> globals !! n = Some g ->
  exists g', i_globals i !! n = Some g' /\ g_Type g' = gt_ValType g.
Proof.
  intros Ha Hg. assert ((gt_ValType <$> globals) !! n = Some (gt_ValType g)) as E by (by rewrite list_lookup_fmap, Hg).
  rewrite <-Ha, list_lookup_fmap in E. destruct (i_globals i !! n) as [g'|]; [|done]. injection E as E. by exists g'.
Qed.
Lemma globalGet_acts op w : global_words globals (U1 op) = Some w -> acts 0 w (globalGet op).
Proof.
  unfold global_words. intros Hw. destruct (globals !! Z.to_nat (U1 op)) as [g|] eqn:Eg; [|done]. cbn in Hw.
  act. destruct (global_agrees _ _ _ Hg Eg) as (g' & Hg' & Et). cbn [inst] in Hg'. unfold globalGet, at_. cbn [inst]. rewrite Hg', Et.
  destruct (gt_ValType g =? ValueTypeV128); injection Hw as <-; acted.
Qed.
Lemma set_global_agrees i n g g' : globals_agree i -> i_globals i !! n = Some g -> g_Type g' = g_Type g ->
  globals_agree (set_globals i (<[n := g']> (i_globals i))).
Proof.
  unfold globals_agree. cbn [i_globals set_globals]. intros Ha Hg Ht. rewrite list_fmap_insert, <-Ha.
  apply list_insert_id. by rewrite Ht, list_lookup_fmap, Hg.
Qed.
Lemma globalSet_acts op w : global_words globals (U1 op) = Some w -> acts w 0 (globalSet op).
Proof.
  unfold global_words. intros Hw. destruct (globals !! Z.to_nat (U1 op)) as [g|] eqn:Eg; [|done]. cbn in Hw.
  act. destruct (global_agrees _ _ _ Hg Eg) as (g' & Hg' & Et). cbn [inst] in Hg'. unfold globalSet, at_. cbn [inst]. rewrite Hg', Et.
  destruct (gt_ValType g =? ValueTypeV128); injection Hw as <-; take_words; run_words;
    (eexists; split; [reflexivity|]; rewrite ?len_cons; split_and!; [lia|done| |done];
    by eapply set_global_agrees; [done|exact Hg'|]; rewrite ?Et).
Qed.
Lemma next_acts : acts 0 0 (fun s => Ok (next s)).
Proof. act. acted. Qed.
Lemma const_acts v : acts 0 1 (fun s => Ok (next (pushValue s v))).
Proof. act. acted. Qed.
Lemma vconst_acts u v : acts 0 2 (fun s => Ok (next (pushValue (pushValue s u) v))).
Proof. act. acted. Qed.
Lemma exit_acts : acts 0 0 (fun s => if i_closed (inst s) then Err (Trapped ExitError) else Ok (next s)).
Proof. act. acted. Qed.
Lemma memorySize_acts : acts 0 1 (fun s => let! m := memoryInst s in Ok (next (pushValue s (WasmMemory.Pages m)))).
Proof. act. unfold memoryInst. acted. Qed.
Lemma dataDrop_acts op : acts 0 0 (fun s => let! _ := at_ "data" (i_data (inst s)) (U1 op) in
  Ok (next (set_inst s (set_data (inst s) (<[Z.to_nat (U1 op) := []]> (i_data (inst s))))))).
Proof. act. unfold at_. acted. Qed.
Lemma elemDrop_acts op : acts 0 0 (fun s => let! _ := at_ "elements" (i_elements (inst s)) (U1 op) in
  Ok (next (set_inst s (set_elements (inst s) (<[Z.to_nat (U1 op) := []]> (i_elements (inst s))))))).
Proof. act. unfold at_. acted. Qed.
Lemma refFunc_acts functions address op : acts 0 1 (fun s => let! _ := at_ (A := function) "functions" functions (U1 op) in
  Ok (next (pushValue s (address (U1 op))))).
Proof. act. unfold at_. acted. Qed.
Lemma tableSize_acts op : acts 0 1 (fun s => let! t := tableAt s (U1 op) in Ok (next (pushValue s (len (References t))))).
Proof. act. unfold tableAt, at_. acted. Qed.
Lemma anyTrue_acts : acts 2 1 (fun s => let! (hi, lo, s) := pop2 s in
  Ok (next (pushValue s (bool_word (negb (hi =? 0) || negb (lo =? 0)))))).
Proof. act. take_words. acted. Qed.
Lemma vnot_acts : acts 2 2 (fun s => let! (hi, lo, s) := pop2 s in
  Ok (next (pushValue (pushValue s (not64 lo)) (not64 hi)))).
Proof. act. take_words. acted. Qed.

(** *** Binary functions that can only trap *)
Ltac total := intros a b; repeat case_match; simplify_eq; done.
Lemma equal_total f k t : one_of 4 t = true -> total (equal f k t).
Proof. intros Ht a b. unfold equal, one_of, unsignedTypeI32, unsignedTypeI64, unsignedTypeF32, unsignedTypeF64 in *. repeat case_match; try done. lia. Qed.
Lemma differ_total f k t : one_of 4 t = true -> total (differ f k t).
Proof. intros Ht a b. unfold differ, one_of, unsignedTypeI32, unsignedTypeI64, unsignedTypeF32, unsignedTypeF64 in *. repeat case_match; try done. lia. Qed.
Lemma compare_total f k r t : one_of 6 t = true -> total (compare f k r t).
Proof.
  intros Ht a b. unfold compare, one_of, signedTypeInt32, signedTypeInt64, signedTypeUint32, signedTypeUint64, signedTypeFloat32, signedTypeFloat64 in *.
  repeat case_match; try done. lia.
Qed.
Lemma arithmetic_total f k g t : one_of 4 t = true -> total (arithmetic f k g t).
Proof. intros Ht a b. unfold arithmetic, one_of, unsignedTypeI32, unsignedTypeI64, unsignedTypeF32, unsignedTypeF64 in *. repeat case_match; try done. lia. Qed.
Lemma bitwise_total f t : total (bitwise f t).
Proof. unfold bitwise. total. Qed.
Lemma div_total f t : total (div f t).
Proof. unfold div, go_quot. total. Qed.
Lemma rem_total t : total (rem t).
Proof. unfold rem, go_rem. total. Qed.
Lemma shl_total t : total (shl t).
Proof. unfold shl. total. Qed.
Lemma shr_total t : total (shr t).
Proof. unfold shr. total. Qed.

Lemma keep_acts : acts 1 1 (fun s => Ok (next s)).
Proof. act. exists top. cbn. split_and!; try done. lia. Qed.

(** ** One operation *)
Section exec.
Context (types : list FunctionType) (funcs : list Z).
Context (math : Math) (functions : list function) (typeIDs : list Z) (functionFromUintptr : Z -> option nat)
  (address : Z -> Z).
Hypothesis Hdoubled : forall i, 1024 <= i -> i < doubled math i.
Notation exec := (exec math functions typeIDs functionFromUintptr address).
Notation straight := (straight types funcs globals).
Notation succs := (succs types funcs globals).

(** Where an operation may leave the loop of its function. *)
Definition stays (rest : list Z) (l : list (Z * Z)) (r : result int_err outcome) : Prop :=
  match r with
  | Ok (Goes s') => exists top', stack s' = top' ++ rest /\ (pc s', len top') ∈ l /\ globals_agree (inst s') /\
      1024 <= len (locals s')
  | Ok (Calls _ _) | Err StackPanic | Err (UnknownType _) => False
  | Err _ => True
  end.
Definition is_call (op : unionOperation) : bool :=
  match Kind op with operationKindCall | operationKindCallIndirect => true | _ => false end.

Context (op : unionOperation) (s : state) (top rest : list Z).
Hypothesis Hst : stack s = top ++ rest.
Hypothesis Hlen : len (stack s) < 2 ^ 31.
Hypothesis Hglobals : globals_agree (inst s).
Hypothesis Hlocals : 1024 <= len (locals s).

Lemma acts_stays i o f h : acts i o f -> i <= len top -> len top - i + o = h ->
  stays rest [(u64 (pc s + 1), h)] (goes (f s)).
Proof.
  intros Hf Hi <-. specialize (Hf s top rest Hst Hi Hglobals). unfold goes.
  destruct (f s) as [s'|[]]; try done. destruct Hf as (top' & E & El & Ep & Hg & Hl).
  exists top'. rewrite Hl, Ep, El. split_and!; try done. apply list_elem_of_singleton. done.
Qed.
Lemma acts_goes i o f h : acts i o (fun s => Ok (f s)) -> i <= len top -> len top - i + o = h ->
  stays rest [(u64 (pc s + 1), h)] (Ok (Goes (f s))).
Proof. apply (acts_stays i o (fun s => Ok (f s))). Qed.

Lemma effect_bound i o h : (Some (i, o) ≫= (fun '(i, o) => if i <=? len top then Some (len top - i + o) else None)) = Some h ->
  i <= len top /\ len top - i + o = h.
Proof. cbn. destruct (Z.leb_spec i (len top)); [|done]. by intros [= <-]. Qed.
Ltac binary_total := first [by apply equal_total|by apply differ_total|by apply compare_total|by apply arithmetic_total|apply bitwise_total
  |apply div_total|apply rem_total|apply shl_total|apply shr_total|by intros ? ?].
Ltac acts_by :=
  first [apply unary_acts|apply binary_acts; binary_total|apply load_acts|apply store_acts|apply loads_acts|apply stores_acts
    |apply memoryGrow_acts|apply memoryInit_acts|apply memoryCopy_acts|apply memoryFill_acts|apply tableInit_acts
    |apply tableCopy_acts|apply tableGet_acts|apply tableSet_acts|apply tableGrow_acts|apply tableFill_acts|apply vector2_acts
    |apply bitselect_acts|apply atomicLoad_acts|apply atomicStore_acts|apply atomicRMW_acts|apply atomicCmpxchg_acts
    |apply next_acts|apply const_acts|apply vconst_acts|apply memorySize_acts|apply dataDrop_acts|apply elemDrop_acts
    |apply refFunc_acts|apply tableSize_acts|apply anyTrue_acts|apply vnot_acts|apply keep_acts
    |by apply convert_acts|by apply truncate_acts|apply lanes1_acts|apply lanes2_acts|apply lanes3_acts|apply lanes4_acts
    |by apply lanesAdd_acts|apply laneWord_acts|apply shuffle_acts|by apply v128Load_acts|apply v128LoadLane_acts|apply v128Store_acts
    |apply v128StoreLane_acts|by apply atomicMemoryWait_acts|apply atomicMemoryNotify_acts].
(** The goal as a function of the state. *)
Ltac by_acts :=
  match goal with
  | |- stays _ _ (goes ?t) => match eval pattern s in t with ?f _ => eapply (acts_stays _ _ f) end
  | |- stays _ _ (Ok (Goes ?t)) => match eval pattern s in t with ?f _ => eapply (acts_goes _ _ f) end
  end.

Lemma exec_straight h : is_jump op = false -> is_call op = false -> straight op (len top) = Some h ->
  stays rest [(u64 (pc s + 1), h)] (exec op s).
Proof.
  intros Hj Hc Hs. unfold Interp.exec, LowerFlow.straight, effect, known, words_of, is_jump, is_call in *.
  destruct (Kind op); try discriminate Hj; try discriminate Hc; clear Hj Hc; cbv iota in Hs |- *; try discriminate Hs;
    match type of Hs with context [one_of ?n ?t] => destruct (one_of n t) eqn:Hone; [|discriminate Hs] | _ => idtac end.
  all: try (apply effect_bound in Hs as [Hi Ho]; by_acts; [|exact Hi|exact Ho]; acts_by).
  - destruct (drop_words s top rest Hst Hlen _ _ Hs) as (top' & -> & El). exists top'. cbn. rewrite El.
    split_and!; try done. by apply list_elem_of_singleton.
  - eapply acts_stays; [apply select_acts|..]; destruct (B3 op); by apply effect_bound in Hs as [Hi Ho].
  - cbv zeta in Hs. destruct (Z.leb_spec (if B3 op then 1 else 0) (i64 (U1 op))); [|done].
    destruct (Z.ltb_spec (i64 (U1 op)) (len top)); [|done]. cbn [andb] in Hs. injection Hs as <-.
    destruct (pick_words s top rest Hst op Hglobals) as (top' & -> & El); [lia|]. exists top'. cbn. rewrite El.
    split_and!; try done. by apply list_elem_of_singleton.
  - cbv zeta in Hs. repeat match type of Hs with context [(?a <? ?b)] => destruct (Z.ltb_spec a b); try done
      | context [(?a <=? ?b)] => destruct (Z.leb_spec a b); try done end. cbn [andb] in Hs. injection Hs as <-.
    destruct (set_words s top rest Hst Hlen math Hdoubled op) as (top' & l' & -> & El & Hl); [destruct (B3 op); lia|done|done|].
    exists top'. cbn. rewrite El. split_and!; try done. by apply list_elem_of_singleton.
  - destruct (global_words globals (U1 op)) as [w|] eqn:Ew; [|done]. apply effect_bound in Hs as [Hi Ho].
    eapply acts_stays; [by apply globalGet_acts|done..].
  - destruct (global_words globals (U1 op)) as [w|] eqn:Ew; [|done]. apply effect_bound in Hs as [Hi Ho].
    eapply acts_stays; [by apply globalSet_acts|done..].
  - apply effect_bound in Hs as [Hi Ho]. destruct (i_closed (inst s)); [exact I|].
    eapply (acts_goes _ _ next); [apply next_acts|done..].
Qed.

(** ** Branches *)
Lemma mapM_at {h} (ps ts : list (Z * Z)) i (t d : Z) : mapM (fun '(t, d) => h' ← dropped d h; Some (t, h')) ps = Some ts ->
  ps !! i = Some (t, d) -> exists h', dropped d h = Some h' /\ (t, h') ∈ ts.
Proof.
  revert ts i. induction ps as [|[t0 d0] ps IH]; intros ts i Hm Hi; [done|]. cbn in Hm.
  destruct (dropped d0 h) as [h0|] eqn:E; [|done]. cbn in Hm. destruct (mapM _ ps) as [ts0|] eqn:Em; [|done].
  injection Hm as <-. destruct i as [|i].
  - injection Hi as -> ->. exists h0. split; [done|apply list_elem_of_here].
  - destruct (IH ts0 i eq_refl Hi) as (h' & ? & ?). exists h'. split; [done|]. by apply list_elem_of_further.
Qed.
(** The entry a branch table uses. *)
Lemma table_index n v : 0 < n < 2 ^ 62 -> exists i, (i < Z.to_nat n)%nat /\
  u64 ((if u64 (2 * n / 2 - 1) <? u64 v then u64 (2 * n / 2 - 1) else u64 v) * 2) = 2 * Z.of_nat i.
Proof.
  intros Hn. rewrite (Z.mul_comm 2 n), Z.div_mul by lia. assert (0 <= u64 v < 2 ^ 64) as Hv by (apply wrapu_range; lia).
  assert (u64 (n - 1) = n - 1) as -> by (apply wrapu_small; unfold in_u; lia).
  exists (Z.to_nat (if n - 1 <? u64 v then n - 1 else u64 v)). destruct (Z.ltb_spec (n - 1) (u64 v)).
  - split; [lia|]. unfold u64. rewrite wrapu_small by (unfold in_u; lia). lia.
  - split; [lia|]. unfold u64 at 1. rewrite wrapu_small by (unfold in_u; lia). lia.
Qed.

Lemma exec_jumps l : jumps op (len top) = Some l -> stays rest l (exec op s).
Proof.
  intros Hj. unfold jumps in Hj. unfold Interp.exec. destruct (Kind op); try discriminate Hj; cbv iota.
  - exact I.
  - injection Hj as <-. exists top. split_and!; try done. by apply list_elem_of_singleton.
  - destruct (Z.ltb_spec (len top) 1); [done|]. destruct top as [|v t]; [done|]. rewrite len_cons in *.
    replace (1 + len t - 1) with (len t) in Hj by lia. destruct (dropped (U3 op) (len t)) as [h'|] eqn:Ed; [|done].
    injection Hj as <-. unfold goes, brIf, popValue. rewrite Hst. cbn [app].
    destruct (0 <? v).
    + destruct (drop_words (set_stack s (t ++ rest)) t rest eq_refl) with (raw := U3 op) (h := h') as (top' & -> & El); [|done|].
      { rewrite Hst in Hlen. cbn [stack set_stack]. cbn [app] in Hlen. rewrite len_cons in Hlen. lia. }
      exists top'. cbn. rewrite El. split_and!; try done. apply list_elem_of_here.
    + exists t. cbn. split_and!; try done. by apply list_elem_of_further, list_elem_of_singleton.
  - destruct (Z.ltb_spec (len top) 1); [done|]. destruct (Z.leb_spec (2 ^ 62) (len (Us op))) as [|HUs]; [done|].
    cbn [orb] in Hj. destruct (pairs (Us op)) as [ps|] eqn:Ep; [|done]. cbn [mbind option_bind] in Hj.
    destruct (pairs_lookup _ _ Ep) as [Hl Hp]. destruct top as [|v t]; [done|]. rewrite len_cons in *.
    replace (1 + len t - 1) with (len t) in Hj by lia.
    assert (0 < len ps) as Hps by (destruct ps; [done|]; rewrite len_cons; pose proof (len_nonneg ps); lia).
    assert (mapM (fun '(t0, d) => h' ← dropped d (len t); Some (t0, h')) ps = Some l) as Hm. { by destruct ps. }
    unfold goes, brTable, popValue. rewrite Hst. cbn [app].
    assert (len (Us op) = 2 * len ps) as -> by (unfold len; lia).
    destruct (table_index (len ps) v) as (i & Hi & ->); [unfold len in *; lia|].
    destruct (lookup_lt_is_Some_2 ps i) as [[t' d'] Hi']; [unfold len in *; lia|]. destruct (Hp _ _ _ Hi') as [H1 H2].
    replace (Z.to_nat (2 * Z.of_nat i + 1)) with (S (2 * i)) by lia. replace (Z.to_nat (2 * Z.of_nat i)) with (2 * i)%nat by lia.
    rewrite H1, H2. destruct (mapM_at _ _ _ _ _ Hm Hi') as (h' & Hd & Hin).
    destruct (drop_words (set_stack s (t ++ rest)) t rest eq_refl) with (raw := d') (h := h') as (top' & -> & El); [|done|].
    { rewrite Hst in Hlen. cbn [stack set_stack]. cbn [app] in Hlen. rewrite len_cons in Hlen. lia. }
    exists top'. cbn. rewrite El. split_and!; done.
Qed.
End exec.
End heights.
End InterpHeights.
