(* ===== verification/InterpSafe.v ===== *)
(** * Calls never underflow the stack

    The call engine on functions whose code is [safe]: every frame is at a
    program counter and a height its code can reach, and the words of the frames
    below it are not touched.  With [LowerSpec] this covers every function of a
    validated module. *)
From S2P Require Import Prelude Leb128 GoStd Opcodes WasmBinary WasmBinarySpec FuncValidation WasmModule WasmMemory FuncTyping FuncSoundness ValidationSpec Operations Signature LowerTables Lower LowerFlow LowerRun LowerSound LowerSize LowerSpec TypeIDs Interp InterpHeights.

Module InterpSafe.
Import WasmBinary(FunctionType, GlobalType, gt_ValType, ft_Params, ft_Results, ValueTypeV128).
Import Operations LowerFlow Interp InterpHeights.
Import Lower(ParamNumInUint64, ResultNumInUint64, MaxUint64).

Section engine.
Context (types : list FunctionType) (funcs : list Z) (globals : list GlobalType).
Context (math : Math) (functions : list function) (typeIDs : list Z) (functionFromUintptr : Z -> option nat)
  (address : Z -> Z).
Notation globals_agree := (globals_agree globals).
Notation exec := (exec math functions typeIDs functionFromUintptr address).
Notation step := (step math functions typeIDs functionFromUintptr address).
Notation callFunction := (callFunction functions).
Notation hreach := (hreach types funcs globals).
Notation straight := (straight types funcs globals).
Notation succs := (succs types funcs globals).
Notation P f := (ParamNumInUint64 (funcType f)).
Notation R f := (ResultNumInUint64 (funcType f)).

(** A Go function keeps the length of the slice it is given, and the types of
    the globals. *)
Definition host_ok (fn : instance -> list Z -> result trap (list Z * instance)) : Prop :=
  forall i region region' i', fn i region = Ok (region', i') ->
    length region' = length region /\ (globals_agree i -> globals_agree i').
Definition function_ok (i : nat) (f : function) : Prop := exists ti,
  funcs !! i = Some ti /\ types !! Z.to_nat ti = Some (funcType f) /\ typeIDs !! Z.to_nat ti = Some (typeID f) /\
  match parent f with
  | Native body => safe types funcs globals body (P f) (R f) /\ len body < 2 ^ 63
  | HostFn fn => host_ok fn
  end.
Record functions_ok : Prop := {
  fo_each : forall i f, functions !! i = Some f -> function_ok i f;
  fo_ids : forall a b x ta tb, typeIDs !! a = Some x -> typeIDs !! b = Some x -> types !! a = Some ta -> types !! b = Some tb ->
    ft_Params ta = ft_Params tb /\ ft_Results ta = ft_Results tb;
  fo_doubled : forall i, 1024 <= i -> i < doubled math i }.
Hypothesis Hok : functions_ok.

(** A frame where its code can be, with [h] words. *)
Definition at_frame (g : callFrame) (h : Z) (f : function) (body : list unionOperation) : Prop :=
  functions !! fr_f g = Some f /\ parent f = Native body /\ hreach body (P f) (fr_pc g) h /\ 1024 <= len (fr_locals g).
(** Frames that wait for a call to leave [r] words above the first [n]. *)
Inductive waiting (total : Z) : list callFrame -> Z -> Z -> Prop :=
| waiting_none : waiting total [] 0 total
| waiting_call g fs f body op h i n r :
    at_frame g h f body -> body !! Z.to_nat (fr_pc g) = Some op -> 0 <= fr_pc g < len body -> 0 <= i <= h ->
    succs op (fr_pc g) h = Some [(fr_pc g + 1, h - i + r)] ->
    waiting total fs n (R f) -> waiting total (g :: fs) (n + (h - i)) r.
Definition engine_ok (total : Z) (ce : callEngine) : Prop :=
  globals_agree (ce_inst ce) /\
  match ce_frames ce with
  | [] => len (ce_stack ce) = total
  | g :: fs => exists f body h n, at_frame g h f body /\ waiting total fs n (R f) /\ 0 <= n /\ 0 <= h /\
      len (ce_stack ce) = n + h
  end.
Definition steps_ok (total : Z) (r : result int_err callEngine) : Prop :=
  match r with Ok ce => engine_ok total ce | Err StackPanic | Err (UnknownType _) => False | Err _ => True end.

Lemma waiting_nonneg total fs n r : waiting total fs n r -> 0 <= n.
Proof. induction 1; lia. Qed.
(** A call that has returned. *)
Lemma resume_ok total fs n r st i : waiting total fs n r -> 0 <= r -> len st = n + r -> globals_agree i ->
  engine_ok total (mkEngine st (resume fs) i).
Proof.
  intros Hw Hr Hl Hg. split; [done|]. inversion Hw as [|g fs' f body op h k n' r' Hat Hop Hpc Hk Hs Hw']; subst; cbn [resume ce_frames ce_stack].
  - lia.
  - destruct Hat as (Hf & Hb & Hh & Hlo). exists f, body, (h - k + r), n'. pose proof (waiting_nonneg _ _ _ _ Hw').
    destruct (fo_each Hok _ _ Hf) as (ti & _ & _ & _ & Hbody). rewrite Hb in Hbody. destruct Hbody as [_ Hbl].
    split_and!; try done; [|lia|lia]. split_and!; try done. cbn [fr_pc].
    unfold u64. rewrite wrapu_small by (unfold in_u; lia). eapply hreach_step; [exact Hh|exact Hop|exact Hs|apply list_elem_of_here].
Qed.

(** ** Entering a function *)
Lemma above_ok st n : 0 <= n <= len st -> above st (len st - n) = Ok (take (Z.to_nat n) st).
Proof.
  intros Hn. unfold above. replace (len st - n <? 0) with false by lia. replace (len st <? len st - n) with false by lia.
  cbn [orb]. do 2 f_equal. unfold len in *. lia.
Qed.
Lemma below_ok st n : 0 <= n <= len st -> below st (len st - n) = Ok (list.drop (Z.to_nat n) st).
Proof.
  intros Hn. unfold below. replace (len st - n <? 0) with false by lia. replace (len st <? len st - n) with false by lia.
  cbn [orb]. do 2 f_equal. unfold len in *. lia.
Qed.
Lemma words_nonneg_params (f : function) : 0 <= len (ft_Params (funcType f)) <= P f /\ 0 <= R f.
Proof.
  unfold ParamNumInUint64, ResultNumInUint64. rewrite !LowerRun.numInUint64_vsize.
  pose proof (len_nonneg (ft_Params (funcType f))). pose proof (LowerSpec.len_vsize (ft_Params (funcType f))).
  pose proof (LowerRun.vsize_nonneg (ft_Results (funcType f))). lia.
Qed.
Lemma initialLocals_ok f st : P f <= len st -> exists l, initialLocals (funcType f) st = Ok l /\ len l = 1024.
Proof.
  intros Hp. pose proof (words_nonneg_params f) as [Hw _]. unfold initialLocals.
  destruct (0 <? len (ft_Params (funcType f))); [|by eexists]. rewrite above_ok by lia.
  eexists. split; [done|]. unfold len. rewrite length_put; [by rewrite length_replicate|].
  rewrite length_take, length_replicate. lia.
Qed.

Section entering.
Context (total : Z) (fs : list callFrame) (st : list Z) (i : instance) (j : nat) (f : function) (n h : Z).
Hypothesis Hf : functions !! j = Some f.
Hypothesis Hst : len st = n + h.
Hypothesis Hh : P f <= h /\ 0 <= n.
Hypothesis Hwait : waiting total fs (n + (h - P f)) (R f).
Hypothesis Hglobals : globals_agree i.

Lemma native_enters body : parent f = Native body -> steps_ok total (callNativeFunc (mkEngine st fs i) j f).
Proof.
  intros Hb. unfold callNativeFunc, pushFrame. destruct (_ <=? _); [exact I|]. cbn [ce_stack ce_frames ce_inst tail].
  pose proof Hh as [Hp Hn]. pose proof (words_nonneg_params f) as [Hw _].
  destruct (initialLocals_ok f st) as (l & -> & Hl); [lia|]. split; [done|].
  exists f, body, (P f), (n + (h - P f)). split_and!; try done; try lia.
  - split_and!; try done; [constructor|]. cbn [fr_locals]. lia.
  - cbn [ce_stack]. lia.
Qed.
Lemma host_enters fn : parent f = HostFn fn -> host_ok fn -> steps_ok total (callGoFuncWithStack (mkEngine st fs i) j f fn).
Proof.
  intros Hb Hfn. unfold callGoFuncWithStack. cbn [ce_stack ce_frames ce_inst]. cbv zeta.
  pose proof (words_nonneg_params f) as [Hw Hr]. pose proof Hh as [Hp Hn].
  set (st' := replicate (Z.to_nat (R f - P f)) 0 ++ st).
  assert (len st' = Z.max 0 (R f - P f) + (n + h)) as Hl'.
  { unfold st'. rewrite len_app, Hst. unfold len at 1. rewrite length_replicate. lia. }
  rewrite above_ok, below_ok by lia. unfold pushFrame. cbn [ce_stack ce_frames ce_inst].
  destruct (_ <=? _); [exact I|]. destruct (fn i _) as [[region i']|t] eqn:Efn; [|exact I].
  destruct (Hfn _ _ _ _ Efn) as [Hlen Hg]. rewrite length_rev, length_take in Hlen.
  set (rest := list.drop (Z.to_nat (Z.max (P f) (R f))) st').
  assert (len (rev region ++ rest) = len st') as El.
  { unfold rest. rewrite len_app. unfold len in *. rewrite length_rev, length_drop. lia. }
  rewrite below_ok by lia. apply resume_ok with (n := n + (h - P f)) (r := R f); try done.
  - unfold len in *. rewrite length_drop. lia.
  - by apply Hg.
Qed.
Lemma call_enters : steps_ok total (callFunction (mkEngine st fs i) j).
Proof.
  unfold Interp.callFunction, at_. rewrite Nat2Z.id, Hf.
  destruct (fo_each Hok _ _ Hf) as (ti & _ & _ & _ & Hbody). destruct (parent f) as [body|fn] eqn:Eb.
  - by apply native_enters with body.
  - by apply host_enters.
Qed.
End entering.

(** ** One turn of the loop *)
Lemma call_straight op h h' : Kind op = operationKindCall -> straight op h = Some h' -> exists ti ft,
  funcs !! Z.to_nat (U1 op) = Some ti /\ types !! Z.to_nat ti = Some ft /\
  ParamNumInUint64 ft <= h /\ h' = h - ParamNumInUint64 ft + ResultNumInUint64 ft.
Proof.
  unfold LowerFlow.straight, effect, known, words_of, type_words. intros ->. destruct (funcs !! Z.to_nat (U1 op)) as [ti|]; [|done]. cbn.
  destruct (types !! Z.to_nat ti) as [ft|] eqn:E; [|done]. cbn. destruct (Z.leb_spec (ParamNumInUint64 ft) h); [|done].
  intros [= <-]. by exists ti, ft.
Qed.
Lemma call_indirect_straight op h h' : Kind op = operationKindCallIndirect -> straight op h = Some h' -> exists ft,
  types !! Z.to_nat (U1 op) = Some ft /\ ParamNumInUint64 ft + 1 <= h /\ h' = h - (ParamNumInUint64 ft + 1) + ResultNumInUint64 ft.
Proof.
  unfold LowerFlow.straight, effect, known, words_of, type_words. intros ->. destruct (types !! Z.to_nat (U1 op)) as [ft|]; [|done]. cbn.
  destruct (Z.leb_spec (ParamNumInUint64 ft + 1) h); [|done]. intros [= <-]. by exists ft.
Qed.
Section turn.
Context (total : Z) (g : callFrame) (fs : list callFrame) (st : list Z) (i : instance) (f : function)
  (body : list unionOperation) (h n : Z) (op : unionOperation) (l : list (Z * Z)).
Hypothesis Hat : at_frame g h f body.
Hypothesis Hwait : waiting total fs n (R f).
Hypothesis Hpos : 0 <= n /\ 0 <= h.
Hypothesis Hst : len st = n + h.
Hypothesis Hfit : len st < 2 ^ 31.
Hypothesis Hglobals : globals_agree i.
Hypothesis Hpc : 0 <= fr_pc g < len body.
Hypothesis Hop : body !! Z.to_nat (fr_pc g) = Some op.
Hypothesis Hsuccs : succs op (fr_pc g) h = Some l.
Notation s := (mkState st (fr_locals g) (fr_pc g) i).
Notation enter s' := (mkEngine (stack s') (mkCallFrame (pc s') (fr_f g) (fr_base g) (locals s') :: fs) (inst s')).

Lemma body_small : len body < 2 ^ 63.
Proof.
  destruct Hat as (Hf & Hb & _ & _). destruct (fo_each Hok _ _ Hf) as (ti & _ & _ & _ & Hbody).
  rewrite Hb in Hbody. apply Hbody.
Qed.
Lemma next_pc : u64 (fr_pc g + 1) = fr_pc g + 1.
Proof. pose proof body_small. apply wrapu_small. unfold in_u. lia. Qed.
Lemma split_stack : exists top rest, st = top ++ rest /\ len top = h /\ len rest = n.
Proof.
  exists (take (Z.to_nat h) st), (list.drop (Z.to_nat h) st). rewrite take_drop. split; [done|].
  unfold len in *. rewrite length_take, length_drop. lia.
Qed.
(** What stays in the function is at a place its code can reach. *)
Lemma stays_ok s' rest : stays globals rest l (Ok (Goes s')) -> len rest = n -> engine_ok total (enter s').
Proof.
  intros (top' & Hs & Hin & Hg & Hl) Hr. split; [done|]. destruct Hat as (Hf & Hb & Hreach & _).
  exists f, body, (len top'), n. pose proof (len_nonneg top'). pose proof Hpos. cbn [ce_frames ce_stack].
  split_and!; try done; [|lia|rewrite Hs, len_app; lia]. split_and!; try done. cbn [fr_pc].
  by eapply hreach_step.
Qed.
Lemma straight_of : is_jump op = false -> exists h', straight op h = Some h' /\ l = [(fr_pc g + 1, h')].
Proof.
  unfold LowerFlow.succs in Hsuccs. intros Hj. rewrite Hj in Hsuccs. destruct (straight op h) as [h'|]; [|done].
  injection Hsuccs as <-. by exists h'.
Qed.
(** The frame waits while a function with [p] parameters above the [k] words
    its operation takes besides runs. *)
Lemma frame_waits k f' : is_jump op = false -> 0 <= k -> P f' + k <= h ->
  straight op h = Some (h - (P f' + k) + R f') ->
  waiting total (mkCallFrame (fr_pc g) (fr_f g) (fr_base g) (fr_locals g) :: fs) (n + (h - k - P f')) (R f').
Proof.
  intros Hj Hk Hle Hs. pose proof (words_nonneg_params f') as [? ?]. pose proof Hpos.
  replace (n + (h - k - P f')) with (n + (h - (P f' + k))) by lia.
  eapply (waiting_call _ _ _ f body op h); try done; try lia. cbn [fr_pc]. unfold LowerFlow.succs. rewrite Hj, Hs. done.
Qed.

(** *** Calls *)
Lemma call_ok : Kind op = operationKindCall -> steps_ok total (callFunction (enter s) (Z.to_nat (U1 op))).
Proof.
  intros Hk. assert (is_jump op = false) as Hj by (unfold is_jump; by rewrite Hk).
  destruct (straight_of Hj) as (h' & Hs & _). destruct (call_straight _ _ _ Hk Hs) as (ti & ft & Hti & Hft & Hp & ->).
  destruct (functions !! Z.to_nat (U1 op)) as [f'|] eqn:Ef; cycle 1.
  { unfold Interp.callFunction, at_. rewrite Nat2Z.id, Ef. exact I. }
  destruct (fo_each Hok _ _ Ef) as (ti' & Hti' & Hft' & _). rewrite Hti in Hti'. injection Hti' as <-.
  rewrite Hft in Hft'. injection Hft' as ->. pose proof Hpos.
  eapply (call_enters total _ _ _ _ f' n h); try done; [lia|].
  replace (n + (h - P f')) with (n + (h - 0 - P f')) by lia. apply frame_waits; try done; [lia|]. by rewrite Z.add_0_r.
Qed.
Lemma call_indirect_ok : Kind op = operationKindCallIndirect ->
  match callIndirect functions typeIDs functionFromUintptr op s with
  | Ok (Calls j s') => steps_ok total (callFunction (enter s') j)
  | Ok (Goes _) | Err StackPanic | Err (UnknownType _) => False
  | Err _ => True
  end.
Proof.
  intros Hk. assert (is_jump op = false) as Hj by (unfold is_jump; by rewrite Hk).
  destruct (straight_of Hj) as (h' & Hs & _). destruct (call_indirect_straight _ _ _ Hk Hs) as (ft & Hft & Hp & ->).
  pose proof Hpos. destruct split_stack as (top & rest & -> & Hl & Hr). unfold callIndirect, popValue. cbn [stack].
  destruct top as [|v top]; [change (len (@nil Z)) with 0 in Hl; pose proof (LowerRun.vsize_nonneg (ft_Params ft));
    unfold ParamNumInUint64 in Hp; rewrite LowerRun.numInUint64_vsize in Hp; lia|]. rewrite len_cons in Hl.
  cbn [app]. unfold tableAt, reference, at_. destruct (i_tables _ !! _) as [t|]; [|exact I].
  destruct (_ <=? v); [exact I|]. destruct (References t !! _) as [ptr|]; [|exact I]. destruct (ptr =? 0); [exact I|].
  destruct (functionFromUintptr ptr) as [j|]; [|exact I]. rewrite Nat2Z.id. destruct (functions !! j) as [f'|] eqn:Ef; [|exact I].
  destruct (typeIDs !! Z.to_nat (U1 op)) as [x|] eqn:Ex; [|exact I]. destruct (Z.eqb_spec (typeID f') x) as [<-|]; [|exact I].
  cbn [negb]. destruct (fo_each Hok _ _ Ef) as (ti' & _ & Hft' & Hid & _).
  destruct (fo_ids Hok _ _ _ _ _ Ex Hid Hft Hft') as [E1 E2].
  assert (ParamNumInUint64 ft = P f' /\ ResultNumInUint64 ft = R f') as [Ep Er].
  { unfold ParamNumInUint64, ResultNumInUint64. by rewrite E1, E2. }
  rewrite Ep, Er in *. cbn [stack set_stack pc locals inst].
  eapply (call_enters total _ _ _ _ f' n (h - 1)); try done.
  - rewrite len_app. lia.
  - lia.
  - apply frame_waits; try done; lia.
Qed.

Lemma turn_ok : steps_ok total (let! o := exec op s in
  match o with Goes s' => Ok (enter s') | Calls j s' => callFunction (enter s') j end).
Proof.
  destruct Hat as (_ & _ & _ & Hlo). destruct split_stack as (top & rest & Est & Hl & Hr).
  assert (forall r, stays globals rest l r -> steps_ok total (let! o := r in
    match o with Goes s' => Ok (enter s') | Calls j s' => callFunction (enter s') j end)) as Hstays.
  { intros [[s'|]|e] Hsr; [|done|by destruct e]. by eapply stays_ok. }
  destruct (is_call op) eqn:Hc.
  - unfold is_call in Hc. destruct (Kind op) eqn:Ek; try discriminate Hc; unfold Interp.exec; rewrite Ek.
    + by apply call_ok.
    + pose proof (call_indirect_ok Ek) as H. destruct (callIndirect _ _ _ op s) as [[]|[]]; done.
  - apply Hstays. destruct (is_jump op) eqn:Hj.
    + eapply exec_jumps; try done. unfold LowerFlow.succs in Hsuccs. rewrite Hj in Hsuccs. by rewrite Hl.
    + destruct (straight_of Hj) as (h' & Hs & ->). rewrite <-next_pc.
      eapply exec_straight; try done; [by apply Hok|by rewrite Hl].
Qed.
End turn.

Lemma step_ok total ce : engine_ok total ce -> len (ce_stack ce) < 2 ^ 31 -> steps_ok total (step ce).
Proof.
  intros Hce Hfit. unfold Interp.step. destruct ce as [st fs i]. destruct fs as [|g fs]; [exact Hce|].
  destruct Hce as [Hg (f & body & h & n & Hat & Hw & Hn & Hh & Hl)]. cbn [ce_frames ce_stack ce_inst] in *.
  pose proof Hat as (Hf & Hb & Hr & Hlo). unfold at_. rewrite Nat2Z.id, Hf, Hb.
  destruct (fo_each Hok _ _ Hf) as (ti & _ & _ & _ & Hbody). rewrite Hb in Hbody. destruct Hbody as [Hsafe Hbl].
  destruct (Hsafe _ _ Hr) as [[Hpc ->]|(Hpc & op & l & Hop & Hs)].
  - replace (fr_pc g <? len body) with false by (rewrite Hpc; unfold MaxUint64; lia).
    by eapply resume_ok.
  - replace (fr_pc g <? len body) with true by lia. rewrite Hop. by eapply (turn_ok total g fs st i f body h n op l).
Qed.

(** What a call comes to while the stack stays below 2^31 words. *)
Inductive reached (ce0 : callEngine) : callEngine -> Prop :=
| reached_here : reached ce0 ce0
| reached_step ce ce' : reached ce0 ce -> len (ce_stack ce) < 2 ^ 31 -> step ce = Ok ce' -> reached ce0 ce'.
Lemma reached_ok total ce0 ce : reached ce0 ce -> engine_ok total ce0 -> engine_ok total ce.
Proof.
  induction 1 as [|ce ce' _ IH Hfit Hs]; [done|]. intros H0. pose proof (step_ok total ce (IH H0) Hfit) as H.
  by rewrite Hs in H.
Qed.
Lemma call_reaches i j f params : functions !! j = Some f -> len params = P f -> globals_agree i ->
  steps_ok (R f) (call functions i j params).
Proof.
  intros Hf Hp Hg. unfold call. apply (call_enters (R f) _ _ _ _ f 0 (P f)); try done.
  - rewrite <-Hp. unfold len. rewrite length_rev. lia.
  - rewrite Z.sub_diag. constructor.
Qed.
(** A turn that does not index the stack, the code or the copy of the locals out
    of range, and finds the operand type among the cases of its operation. *)
Definition in_range (r : result int_err callEngine) : Prop :=
  match r with Err StackPanic | Err (UnknownType _) => False | _ => True end.
(** A variable whose local, or whose frame base's local, is below 1024 can be read. *)
Definition readable (ce : callEngine) : Prop :=
  forall g fs v fb, ce_frames ce = g :: fs ->
    (Typ v = LocationTypeDirectLocal -> Index v < 1024) ->
    (Typ v <> LocationTypeDirectLocal -> Typ fb = LocationTypeLocal -> Index fb < 1024) ->
    exists a, variableAddress v fb (fr_locals g) = Ok a.
Lemma local_word_ok ws i : 1024 <= len ws -> i < 1024 -> exists w, local_word ws i = Ok w.
Proof.
  intros Hl Hi. unfold local_word. destruct (lookup_lt_is_Some_2 ws (Z.to_nat i)) as [w ->]; [unfold len in Hl; lia|]. by exists w.
Qed.
Lemma engine_readable total ce : engine_ok total ce -> readable ce.
Proof.
  intros [_ Hce] g fs v fb Hfs Hv Hfb. rewrite Hfs in Hce. destruct Hce as (f & body & h & n & (_ & _ & _ & Hl) & _).
  unfold variableAddress. destruct (Typ v) eqn:Ev; [| | |].
  4:{ destruct (local_word_ok (fr_locals g) (Index v)) as [w ->]; [done|by apply Hv|by eexists]. }
  all: destruct (Typ fb) eqn:Eb; [|by eexists..];
    destruct (local_word_ok (fr_locals g) (Index fb)) as [w ->]; [done|by apply Hfb|by eexists].
Qed.
(** A call whose functions are well formed stays in range, and leaves the words
    of its results. *)
Lemma call_safe i j f params ce0 ce : functions !! j = Some f -> len params = P f -> globals_agree i ->
  call functions i j params = Ok ce0 -> reached ce0 ce ->
  (len (ce_stack ce) < 2 ^ 31 -> in_range (step ce)) /\ (ce_frames ce = [] -> len (ce_stack ce) = R f) /\ readable ce.
Proof.
  intros Hf Hp Hg Hc Hr. pose proof (call_reaches i j f params Hf Hp Hg) as H0. rewrite Hc in H0.
  pose proof (reached_ok _ _ _ Hr H0) as Hce. split_and!.
  - intros Hfit. pose proof (step_ok _ _ Hce Hfit) as H. unfold in_range. by destruct (step ce) as [|[]].
  - intros Ef. destruct Hce as [_ Hce]. by rewrite Ef in Hce.
  - by eapply engine_readable.
Qed.
End engine.

(** ** The functions of a validated module *)
Lemma moduleFunctions_ok m typeIDs i codes fs : moduleFunctions m typeIDs i codes = Ok fs -> 0 <= i ->
  forall k f, fs !! k = Some f -> exists code ti, codes !! k = Some code /\ parent f = Native code /\
    WasmBinary.FunctionSection m !! (Z.to_nat i + k)%nat = Some ti /\
    WasmBinary.TypeSection m !! Z.to_nat ti = Some (funcType f) /\ typeIDs !! Z.to_nat ti = Some (typeID f).
Proof.
  revert i fs. induction codes as [|c codes IH]; intros i fs Hm Hi k f Hk; cbn [moduleFunctions] in Hm.
  { injection Hm as <-. done. }
  unfold at_ in Hm. destruct (WasmBinary.FunctionSection m !! _) as [ti|] eqn:E1; [|done].
  destruct (typeIDs !! _) as [id|] eqn:E2; [|done]. destruct (WasmBinary.TypeSection m !! _) as [ft|] eqn:E3; [|done].
  destruct (moduleFunctions m typeIDs (i + 1) codes) as [fs0|] eqn:E4; [|done]. injection Hm as <-. destruct k as [|k].
  - injection Hk as <-. exists c, ti. rewrite Nat.add_0_r. done.
  - destruct (IH _ _ E4 ltac:(lia) k f Hk) as (code & ti' & H1 & H2 & H3 & H4 & H5). exists code, ti'. split_and!; try done.
    rewrite <-H3. f_equal. lia.
Qed.
(** The type indices of imported functions come before those of the module. *)
Lemma declared_functions m d : WasmModule.AllDeclarations m = Ok d ->
  exists imps, WasmModule.d_functions d = imps ++ WasmBinary.FunctionSection m.
Proof.
  unfold WasmModule.AllDeclarations. intros H. cbv zeta in H.
  match type of H with match ?x with _ => _ end = _ => destruct x; [|done] end. injection H as <-. by eexists.
Qed.

(** Imported functions have the declared types, and keep the slice they are given. *)
Definition imports_ok (m : WasmBinary.Module') (d : WasmModule.declarations) (typeIDs : list Z) (imported : list function) : Prop :=
  length (WasmModule.d_functions d) = (length imported + length (WasmBinary.FunctionSection m))%nat /\
  forall i f, imported !! i = Some f -> exists ti fn, WasmModule.d_functions d !! i = Some ti /\
    WasmBinary.TypeSection m !! Z.to_nat ti = Some (funcType f) /\ typeIDs !! Z.to_nat ti = Some (typeID f) /\
    parent f = HostFn fn /\ host_ok (WasmModule.d_globals d) fn.
(** A type ID stands for the parameters and results of a type. *)
Definition ids_ok (types : list FunctionType) (typeIDs : list Z) : Prop :=
  forall a b x ta tb, typeIDs !! a = Some x -> typeIDs !! b = Some x -> types !! a = Some ta -> types !! b = Some tb ->
    ft_Params ta = ft_Params tb /\ ft_Results ta = ft_Results tb.

Section module.
Context (m : WasmBinary.Module') (d : WasmModule.declarations) (math : Math) (typeIDs : list Z)
  (codes : list (list unionOperation)) (imported functions : list function).
Hypothesis Hdecl : WasmModule.AllDeclarations m = Ok d.
Hypothesis Hcodes : forall idx code, codes !! idx = Some code -> LowerSpec.lowered_to m d idx code.
Hypothesis Himports : imports_ok m d typeIDs imported.
Hypothesis Hids : ids_ok (WasmBinary.TypeSection m) typeIDs.
Hypothesis Hdoubled : forall i, 1024 <= i -> i < doubled math i.
Hypothesis Hnew : NewModuleEngine m typeIDs codes imported = Ok functions.

Lemma module_functions_ok : functions_ok (WasmBinary.TypeSection m) (WasmModule.d_functions d) (WasmModule.d_globals d)
  math functions typeIDs.
Proof.
  split; [|exact Hids|exact Hdoubled]. intros i f Hf. unfold NewModuleEngine in Hnew.
  destruct (moduleFunctions m typeIDs 0 codes) as [fs|] eqn:Ef; [|done]. injection Hnew as <-.
  destruct Himports as [Hlen Himp]. destruct (declared_functions m d Hdecl) as [imps Eimps].
  apply lookup_app_Some in Hf as [Hf|[Hge Hf]].
  - destruct (Himp _ _ Hf) as (ti & fn & H1 & H2 & H3 & H4 & H5). exists ti. rewrite H4. done.
  - destruct (moduleFunctions_ok _ _ _ _ _ Ef ltac:(lia) _ _ Hf) as (code & ti & H1 & H2 & H3 & H4 & H5).
    exists ti. rewrite H2. destruct (Hcodes _ _ H1) as [Hl (ti' & ft & E1 & E2 & Hs)]. change (WasmBinary.FunctionSection m !! (i - length imported)%nat = Some ti) in H3.
    rewrite H3 in E1. injection E1 as <-. rewrite H4 in E2. injection E2 as <-. split_and!; try done.
    rewrite Eimps in Hlen |- *. rewrite length_app in Hlen. rewrite lookup_app_r by lia. rewrite <-H3. f_equal. lia.
Qed.
End module.

(** Every function of the module has one. *)
Lemma moduleFunctions_total m typeIDs i codes : 0 <= i -> length typeIDs = length (WasmBinary.TypeSection m) ->
  (forall k code, codes !! k = Some code -> exists ti ft, WasmBinary.FunctionSection m !! (Z.to_nat i + k)%nat = Some ti /\
    WasmBinary.TypeSection m !! Z.to_nat ti = Some ft) ->
  exists fs, moduleFunctions m typeIDs i codes = Ok fs.
Proof.
  intros Hi Hl. revert i Hi. induction codes as [|c codes IH]; intros i Hi Hall; [by eexists|]. cbn [moduleFunctions].
  destruct (Hall 0%nat c eq_refl) as (ti & ft & Hti & Hft). rewrite Nat.add_0_r in Hti. unfold at_. rewrite Hti, Hft.
  assert (is_Some (typeIDs !! Z.to_nat ti)) as [id ->].
  { apply lookup_lt_is_Some. rewrite Hl. by eapply lookup_lt_Some. }
  destruct (IH (i + 1)) as [fs ->]; [lia| |by eexists].
  intros k code Hk. destruct (Hall (S k) code Hk) as (ti' & ft' & H1 & H2). exists ti', ft'.
  replace (Z.to_nat (i + 1) + k)%nat with (Z.to_nat i + S k)%nat by lia. done.
Qed.
Lemma store_ids_ok before ids0 s ts ids s' : Forall WasmBinarySpec.type_ok ts ->
  TypeIDs.GetFunctionTypeIDs TypeIDs.NewStore before = Ok (ids0, s) -> TypeIDs.GetFunctionTypeIDs s ts = Ok (ids, s') ->
  length ids = length ts /\ ids_ok ts ids.
Proof.
  intros Hts H0 H1. destruct (TypeIDs.GetFunctionTypeIDs_ok _ _ _ _ TypeIDs.NewStore_ok H0) as (Hs & _).
  destruct (TypeIDs.GetFunctionTypeIDs_ok _ _ _ _ Hs H1) as (Hs' & _ & Hl & Hall). split; [done|].
  intros a b x ta tb Ha Hb Hta Htb. rewrite Forall_lookup in Hts. apply TypeIDs.typeKey_inj; [by eapply Hts..|].
  eapply TypeIDs.so_inj; [exact Hs'|by eapply Hall..].
Qed.


(** ** A call that runs *)
Fixpoint run_fits math functions typeIDs fromPtr address (fuel : nat) (ce : callEngine) : bool :=
  match ce_frames ce, fuel with
  | [], _ | _, O => true
  | _, S fuel => (len (ce_stack ce) <? 2 ^ 31) &&
      match step math functions typeIDs fromPtr address ce with
      | Ok ce' => run_fits math functions typeIDs fromPtr address fuel ce' | Err _ => false end
  end.
Lemma run_reached math functions typeIDs fromPtr address fuel ce0 ce ce' :
  reached math functions typeIDs fromPtr address ce0 ce -> run_fits math functions typeIDs fromPtr address fuel ce = true ->
  run math functions typeIDs fromPtr address fuel ce = Ok ce' -> reached math functions typeIDs fromPtr address ce0 ce'.
Proof.
  revert ce. induction fuel as [|fuel IH]; intros ce Hr Hfits Hrun; cbn [run run_fits] in *.
  { destruct (ce_frames ce); by injection Hrun as <-. }
  destruct (ce_frames ce); [by injection Hrun as <-|]. apply andb_true_iff in Hfits as [Hl Hfits].
  destruct (step _ _ _ _ _ ce) as [ce1|] eqn:Es; [|done]. apply (IH ce1); try done.
  eapply reached_step; [exact Hr|lia|exact Es].
Qed.
Definition no_instance : instance := mkInstance [] None [] [] [] false.


(** ** The recorder's copy of the locals

    The copy starts with the parameters of a function when all of them are one
    word wide, which is what the renderer of variables indexes. *)
Lemma initialLocals_scalars ft params rest : Forall (fun t => t <> ValueTypeV128) (ft_Params ft) ->
  len params = ParamNumInUint64 ft -> exists locals, initialLocals ft (rev params ++ rest) = Ok locals /\
    forall i v, params !! i = Some v -> (i < 1024)%nat -> locals !! i = Some v.
Proof.
  intros Hs Hp. unfold ParamNumInUint64 in Hp. rewrite LowerRun.numInUint64_vsize in Hp.
  assert (LowerRun.vsize (ft_Params ft) = len (ft_Params ft)) as E.
  { clear Hp. induction Hs as [|t ts Ht Hs IH]; [done|]. rewrite LowerRun.vsize_cons, len_cons, IH by done.
    by rewrite (proj2 (Z.eqb_neq _ _) Ht). }
  rewrite E in Hp. unfold initialLocals. destruct (Z.ltb_spec 0 (len (ft_Params ft))) as [Hpos|Hz]; cycle 1.
  { eexists. split; [done|]. intros i v Hi. apply lookup_lt_Some in Hi. unfold len in *. lia. }
  rewrite above_ok by (rewrite len_app, <-Hp; unfold len; rewrite length_rev; lia).
  rewrite take_app_length' by (rewrite length_rev, <-Hp; unfold len; lia). rewrite rev_involutive.
  eexists. split; [done|]. intros i v Hi Hlt. apply lookup_lt_Some in Hi as Hb. unfold put. rewrite take_0, app_nil_l.
  rewrite lookup_app_l by (rewrite length_take; by apply Nat.min_glb_lt). by rewrite lookup_take_lt.
Qed.
(** It takes as many words as the function has parameters: with a vector among
    them, the words of the stack are at other indices. *)
Theorem vector_parameter_shifts_locals x lo hi :
  exists locals, initialLocals (WasmBinary.mkFunctionType [0x7f; 0x7b] [] []) [hi; lo; x] = Ok locals /\
    take 2 locals = [lo; hi].
Proof. eexists. split; reflexivity. Qed.
(** A variable in a local that was never set and has an index from 1024 on: the
    copy of the locals is indexed without a check. *)
Theorem local_index_panics ft st ws i fb : initialLocals ft st = Ok ws -> 1024 <= i ->
  variableAddress (mkLocation LocationTypeDirectLocal i) fb ws = Err StackPanic.
Proof.
  intros Hl Hi. assert (length ws = 1024%nat) as Hlen.
  { unfold initialLocals in Hl. destruct (0 <? _); [|by injection Hl as <-]. destruct (above _ _) as [ps|]; [|done].
    assert (put (replicate 1024 0) 0 (take 1024 (rev ps)) = ws) as <- by congruence.
    rewrite length_put; [apply length_replicate|]. rewrite length_take, length_replicate. lia. }
  unfold variableAddress, local_word. cbn [Typ Index]. by rewrite lookup_ge_None_2 by lia.
Qed.
End InterpSafe.
