(* ===== verification/InterpInt.v ===== *)
(** * Integer instructions mean what WebAssembly says

    [Numerics] has the integer operators of the core specification (section
    "Numerics", on values from 0 to [2^N - 1]), and [integer_semantics] the
    operator of each integer instruction.  The theorem is about the operation
    each instruction is lowered to, as the interpreter executes it on 64-bit
    words. *)
From S2P Require Import Prelude Opcodes WasmBinary Operations LowerTables Lower Interp.

(** ** The operators of the specification *)
Module Numerics.
Import Opcodes.
Section width.
Context (N : Z).
Definition signed (i : Z) : Z := if i <? 2 ^ (N - 1) then i else i - 2 ^ N.
(** The inverse of [signed]. *)
Definition unsigned (j : Z) : Z := j mod 2 ^ N.
Definition truth (b : bool) : Z := if b then 1 else 0.

Definition iadd (a b : Z) : Z := (a + b) mod 2 ^ N.
Definition isub (a b : Z) : Z := (a - b + 2 ^ N) mod 2 ^ N.
Definition imul (a b : Z) : Z := (a * b) mod 2 ^ N.
Definition idiv_u (a b : Z) : result Interp.trap Z :=
  if b =? 0 then Err Interp.ErrRuntimeIntegerDivideByZero else Ok (a / b).
Definition idiv_s (a b : Z) : result Interp.trap Z :=
  if b =? 0 then Err Interp.ErrRuntimeIntegerDivideByZero
  else if Z.quot (signed a) (signed b) =? 2 ^ (N - 1) then Err Interp.ErrRuntimeIntegerOverflow
  else Ok (unsigned (Z.quot (signed a) (signed b))).
Definition irem_u (a b : Z) : result Interp.trap Z :=
  if b =? 0 then Err Interp.ErrRuntimeIntegerDivideByZero else Ok (a - b * (a / b)).
Definition irem_s (a b : Z) : result Interp.trap Z :=
  if b =? 0 then Err Interp.ErrRuntimeIntegerDivideByZero
  else Ok (unsigned (signed a - signed b * Z.quot (signed a) (signed b))).
Definition ishl (a b : Z) : Z := (a * 2 ^ (b mod N)) mod 2 ^ N.
Definition ishr_u (a b : Z) : Z := a / 2 ^ (b mod N).
Definition ishr_s (a b : Z) : Z := unsigned (signed a / 2 ^ (b mod N)).
(** The [b mod N] bits at one end move to the other. *)
Definition irotl (a b : Z) : Z := (a * 2 ^ (b mod N)) mod 2 ^ N + a / 2 ^ (N - b mod N).
Definition irotr (a b : Z) : Z := a / 2 ^ (b mod N) + (a * 2 ^ (N - b mod N)) mod 2 ^ N.

(** The bits of a value, the least significant one first. *)
Definition ibits (n : nat) (a : Z) : list bool := (fun k => Z.testbit a (Z.of_nat k)) <$> seq 0 n.
Fixpoint zeros (l : list bool) : Z := match l with false :: l => 1 + zeros l | _ => 0 end.
Fixpoint ones (l : list bool) : Z := match l with [] => 0 | b :: l => (if b then 1 else 0) + ones l end.
Definition iclz (a : Z) : Z := zeros (rev (ibits (Z.to_nat N) a)).
Definition ictz (a : Z) : Z := zeros (ibits (Z.to_nat N) a).
Definition ipopcnt (a : Z) : Z := ones (ibits (Z.to_nat N) a).

(** The low [M] bits, as a signed number. *)
Definition iextend_s (M a : Z) : Z := unsigned (let i := a mod 2 ^ M in if i <? 2 ^ (M - 1) then i else i - 2 ^ M).
End width.

Inductive sem : Type :=
| Un (takes gives : Z) (f : Z -> Z)
| Bin (takes gives : Z) (f : Z -> Z -> result Interp.trap Z).
Definition Op (N : Z) (f : Z -> Z -> Z) : sem := Bin N N (fun a b => Ok (f a b)).
Definition Rel (N : Z) (f : Z -> Z -> bool) : sem := Bin N 32 (fun a b => Ok (truth (f a b))).

(** The instructions of both widths. *)
Definition sized_semantics : list (Z * Z * (Z -> sem)) :=
  [(OpcodeI32Eqz, OpcodeI64Eqz, fun N => Un N 32 (fun a => truth (a =? 0)));
   (OpcodeI32Eq, OpcodeI64Eq, fun N => Rel N Z.eqb);
   (OpcodeI32Ne, OpcodeI64Ne, fun N => Rel N (fun a b => negb (a =? b)));
   (OpcodeI32LtS, OpcodeI64LtS, fun N => Rel N (fun a b => signed N a <? signed N b));
   (OpcodeI32LtU, OpcodeI64LtU, fun N => Rel N Z.ltb);
   (OpcodeI32GtS, OpcodeI64GtS, fun N => Rel N (fun a b => signed N b <? signed N a));
   (OpcodeI32GtU, OpcodeI64GtU, fun N => Rel N (fun a b => b <? a));
   (OpcodeI32LeS, OpcodeI64LeS, fun N => Rel N (fun a b => signed N a <=? signed N b));
   (OpcodeI32LeU, OpcodeI64LeU, fun N => Rel N Z.leb);
   (OpcodeI32GeS, OpcodeI64GeS, fun N => Rel N (fun a b => signed N b <=? signed N a));
   (OpcodeI32GeU, OpcodeI64GeU, fun N => Rel N (fun a b => b <=? a));
   (OpcodeI32Clz, OpcodeI64Clz, fun N => Un N N (iclz N));
   (OpcodeI32Ctz, OpcodeI64Ctz, fun N => Un N N (ictz N));
   (OpcodeI32Popcnt, OpcodeI64Popcnt, fun N => Un N N (ipopcnt N));
   (OpcodeI32Add, OpcodeI64Add, fun N => Op N (iadd N));
   (OpcodeI32Sub, OpcodeI64Sub, fun N => Op N (isub N));
   (OpcodeI32Mul, OpcodeI64Mul, fun N => Op N (imul N));
   (OpcodeI32DivS, OpcodeI64DivS, fun N => Bin N N (idiv_s N));
   (OpcodeI32DivU, OpcodeI64DivU, fun N => Bin N N idiv_u);
   (OpcodeI32RemS, OpcodeI64RemS, fun N => Bin N N (irem_s N));
   (OpcodeI32RemU, OpcodeI64RemU, fun N => Bin N N irem_u);
   (OpcodeI32And, OpcodeI64And, fun N => Op N Z.land);
   (OpcodeI32Or, OpcodeI64Or, fun N => Op N Z.lor);
   (OpcodeI32Xor, OpcodeI64Xor, fun N => Op N Z.lxor);
   (OpcodeI32Shl, OpcodeI64Shl, fun N => Op N (ishl N));
   (OpcodeI32ShrS, OpcodeI64ShrS, fun N => Op N (ishr_s N));
   (OpcodeI32ShrU, OpcodeI64ShrU, fun N => Op N (ishr_u N));
   (OpcodeI32Rotl, OpcodeI64Rotl, fun N => Op N (irotl N));
   (OpcodeI32Rotr, OpcodeI64Rotr, fun N => Op N (irotr N));
   (OpcodeI32Extend8S, OpcodeI64Extend8S, fun N => Un N N (iextend_s N 8));
   (OpcodeI32Extend16S, OpcodeI64Extend16S, fun N => Un N N (iextend_s N 16))].
Definition integer_semantics : list (Z * sem) :=
  ((fun '(o, _, f) => (o, f 32)) <$> sized_semantics) ++ ((fun '(_, o, f) => (o, f 64)) <$> sized_semantics) ++
  [(OpcodeI64Extend32S, Un 64 64 (iextend_s 64 32));
   (OpcodeI32WrapI64, Un 64 32 (fun a => a mod 2 ^ 32));
   (OpcodeI64ExtendI32S, Un 32 64 (fun a => unsigned 64 (signed 32 a)));
   (OpcodeI64ExtendI32U, Un 32 64 (fun a => a))].
End Numerics.

Module InterpInt.
Import Operations Interp Numerics.

(** ** What an operation is to compute *)
Definition takes_one (N M : Z) (f g : Z -> Z) : Prop := forall a, in_u N a -> f a = g a /\ in_u M (g a).
Definition takes_two (N M : Z) (f : Z -> Z -> result int_err Z) (g : Z -> Z -> result trap Z) : Prop :=
  forall a b, in_u N a -> in_u N b ->
    match g a b with Ok v => f a b = Ok v /\ in_u M v | Err t => f a b = Err (Trapped t) end.

Lemma in_u_wrap N a : 0 <= N -> in_u N (a mod 2 ^ N).
Proof. intros HN. apply (wrapu_range N a HN). Qed.
Lemma in_u_bool N b : 0 < N -> in_u N (truth b).
Proof. intros HN. pose proof (Z.pow_gt_1 2 N ltac:(lia)). unfold in_u, truth. destruct b; lia. Qed.
Lemma signed_wraps N a : 0 < N -> in_u N a -> wraps N a = signed N a.
Proof.
  intros HN [H1 H2]. unfold signed, wraps. assert (2 ^ N = 2 * 2 ^ (N - 1)) as E.
  { rewrite <-Z.pow_succ_r by lia. f_equal. lia. }
  rewrite E in *. destruct (Z.ltb_spec a (2 ^ (N - 1))).
  - rewrite Z.mod_small by lia. lia.
  - replace (a + 2 ^ (N - 1)) with (a - 2 ^ (N - 1) + 1 * (2 * 2 ^ (N - 1))) by lia.
    rewrite Z_mod_plus_full, Z.mod_small by lia. lia.
Qed.
Lemma signed_range N a : 0 < N -> in_u N a -> - 2 ^ (N - 1) <= signed N a < 2 ^ (N - 1).
Proof. intros HN Ha. rewrite <-signed_wraps by done. apply (wraps_range N a HN). Qed.
Lemma u32_id a : in_u 32 a -> u32 a = a.
Proof. apply wrapu_small. Qed.
Lemma i32_signed a : in_u 32 a -> i32 a = signed 32 a.
Proof. by apply signed_wraps. Qed.
Lemma i64_signed a : in_u 64 a -> i64 a = signed 64 a.
Proof. by apply signed_wraps. Qed.
Lemma signed_zero N a : 0 < N -> in_u N a -> signed N a = 0 -> a = 0.
Proof. unfold signed, in_u. intros HN [H1 H2]. case_match; lia. Qed.

(** ** Bits *)
Lemma ibits_S n a : ibits (S n) a = Z.odd a :: ibits n (Z.shiftr a 1).
Proof.
  unfold ibits. cbn [seq fmap list_fmap]. f_equal.
  rewrite <-seq_shift, <-list_fmap_compose. apply list_fmap_ext. intros i k _. cbn.
  rewrite Z.shiftr_spec by lia. f_equal. lia.
Qed.
Lemma ibits_snoc n a : ibits (S n) a = ibits n a ++ [Z.testbit a (Z.of_nat n)].
Proof. unfold ibits. by rewrite seq_S, fmap_app. Qed.
Lemma TrailingZeros_zeros n a : TrailingZeros n a = zeros (ibits n a).
Proof.
  revert a. induction n as [|n IH]; intros a; [done|]. rewrite ibits_S. cbn [TrailingZeros zeros].
  destruct (Z.odd a); [done|]. by rewrite IH.
Qed.
Lemma OnesCount_ones n a : OnesCount n a = ones (ibits n a).
Proof.
  revert a. induction n as [|n IH]; intros a; [done|]. rewrite ibits_S. cbn [OnesCount ones]. by rewrite IH.
Qed.
Lemma LeadingZeros_zeros n a : in_u (Z.of_nat n) a -> LeadingZeros (Z.of_nat n) a = zeros (rev (ibits n a)).
Proof.
  unfold LeadingZeros. induction n as [|n IH]; intros [H1 H2].
  { unfold Len. replace (a <=? 0) with true by lia. done. }
  rewrite ibits_snoc, rev_app_distr. cbn [rev app zeros].
  destruct (Z.lt_ge_cases a (2 ^ Z.of_nat n)) as [Hlt|Hge].
  - rewrite (in_u_high (Z.of_nat n) a) by (unfold in_u; lia). rewrite <-IH by (unfold in_u; lia). lia.
  - assert (Z.log2 a = Z.of_nat n) as Hl by (apply Z.log2_unique; [lia|]; rewrite <-Nat2Z.inj_succ; lia).
    assert (0 < a) as Hpos by (pose proof (Z.pow_pos_nonneg 2 (Z.of_nat n)); lia).
    rewrite <-Hl, Z.bit_log2 by done. unfold Len. replace (a <=? 0) with false by lia. lia.
Qed.
Lemma zeros_range l : 0 <= zeros l <= len l.
Proof. induction l as [|b l IH]; [done|]. rewrite len_cons. cbn [zeros]. destruct b; lia. Qed.
Lemma ones_range l : 0 <= ones l <= len l.
Proof. induction l as [|b l IH]; [done|]. rewrite len_cons. cbn [ones]. destruct b; lia. Qed.
Lemma len_ibits n a : len (ibits n a) = Z.of_nat n.
Proof. unfold len, ibits. by rewrite length_fmap, length_seq. Qed.

(** ** Division *)
Lemma quot_overflow B n d : 0 < B -> - B <= n < B -> d <> 0 -> (Z.quot n d =? B) = ((n =? - B) && (d =? -1)).
Proof.
  intros HB Hn Hd. destruct (Z.eqb_spec d (-1)) as [->|H1].
  { change (-1) with (- (1)) at 1. rewrite Z.quot_opp_r, Z.quot_1_r by lia. lia. }
  rewrite andb_false_r. apply Z.eqb_neq. destruct (Z.eq_dec d 1) as [->|H2]; [rewrite Z.quot_1_r; lia|].
  intros E. assert (Z.abs (Z.quot n d) = B) as Ea by lia. rewrite <-Z.quot_abs, Z.quot_div_nonneg in Ea by lia.
  pose proof (Z.div_le_compat_l (Z.abs n) 2 (Z.abs d) ltac:(lia) ltac:(lia)).
  pose proof (Z.div_le_mono (Z.abs n) B 2 ltac:(lia) ltac:(lia)). pose proof (Z.div_lt B 2 HB ltac:(lia)). lia.
Qed.
Lemma quot_ok n d : d <> 0 -> go_quot n d = Ok (Z.quot n d).
Proof. intros Hd. unfold go_quot. by destruct (Z.eqb_spec d 0). Qed.
Lemma rem_ok n d : d <> 0 -> go_rem n d = Ok (Z.rem n d).
Proof. intros Hd. unfold go_rem. by destruct (Z.eqb_spec d 0). Qed.
(** Signed division of the width of [wrap]. *)
Lemma div_s_ok N a b : 0 < N -> in_u N a -> in_u N b -> b <> 0 ->
  (reject (signed N a =? - 2 ^ (N - 1)) && (signed N b =? -1) as Trapped ErrRuntimeIntegerOverflow ;;
   let! q := go_quot (signed N a) (signed N b) in Ok (wrapu N q)) =
  match idiv_s N a b with Ok v => Ok v | Err t => Err (Trapped t) end.
Proof.
  intros HN Ha Hb Hb0. assert (signed N b <> 0) as Hs by (intros E; by apply signed_zero in E).
  unfold idiv_s. replace (b =? 0) with false by lia.
  rewrite (quot_overflow (2 ^ (N - 1))), quot_ok by (try apply signed_range; lia || done). by destruct (_ && _).
Qed.
Lemma rem_s_ok N a b : 0 < N -> in_u N a -> in_u N b -> b <> 0 ->
  (let! r := go_rem (signed N a) (signed N b) in Ok (wrapu N r)) =
  match irem_s N a b with Ok v => Ok v | Err t => Err (Trapped t) end.
Proof.
  intros HN Ha Hb Hb0. assert (signed N b <> 0) as Hs by (intros E; by apply signed_zero in E).
  unfold irem_s. replace (b =? 0) with false by lia. rewrite rem_ok by done. unfold unsigned, wrapu. do 2 f_equal.
  pose proof (Z.quot_rem' (signed N a) (signed N b)). lia.
Qed.
Lemma takes_divide N f g : 0 < N -> g = idiv_s N \/ g = irem_s N ->
  (forall a b, in_u N a -> in_u N b -> f a b = if b =? 0 then Err (Trapped ErrRuntimeIntegerDivideByZero)
    else match g a b with Ok v => Ok v | Err t => Err (Trapped t) end) -> takes_two N N f g.
Proof.
  intros HN Hg Hf a b Ha Hb. rewrite Hf by done. destruct Hg as [->| ->]; unfold idiv_s, irem_s;
    destruct (b =? 0); try done; try destruct (_ =? _); try done; (split; [done|]; apply in_u_wrap; lia).
Qed.
Lemma takes_divide_u N f g : 0 < N -> g = idiv_u \/ g = irem_u ->
  (forall a b, in_u N a -> in_u N b -> f a b = if b =? 0 then Err (Trapped ErrRuntimeIntegerDivideByZero)
    else match g a b with Ok v => Ok v | Err t => Err (Trapped t) end) -> takes_two N N f g.
Proof.
  intros HN Hg Hf a b Ha Hb. rewrite Hf by done. unfold in_u in *. destruct Hg as [->| ->]; unfold idiv_u, irem_u;
    destruct (Z.eqb_spec b 0); try done; split; try done.
  - split; [apply Z.div_pos; lia|]. apply Z.le_lt_trans with a; [|lia]. apply Z.div_le_upper_bound; nia.
  - pose proof (Z.mod_eq a b ltac:(lia)). pose proof (Z.mod_pos_bound a b ltac:(lia)). lia.
Qed.

(** ** Rotations *)
Lemma rotate_sum N a k : 0 <= k < N -> in_u N a ->
  Z.lor (wrapu N (Z.shiftl a k)) (Z.shiftr a (N - k)) = (a * 2 ^ k) mod 2 ^ N + a / 2 ^ (N - k).
Proof.
  intros Hk Ha. rewrite Z.shiftr_div_pow2, Z.shiftl_mul_pow2 by lia. unfold wrapu.
  assert (2 ^ N = 2 ^ (N - k) * 2 ^ k) as E by (rewrite <-Z.pow_add_r by lia; f_equal; lia).
  assert (0 < 2 ^ k /\ 0 < 2 ^ (N - k)) as [Hp1 Hp2] by (split; apply Z.pow_pos_nonneg; lia).
  replace ((a * 2 ^ k) mod 2 ^ N) with ((a mod 2 ^ (N - k)) * 2 ^ k)
    by (rewrite E, Z.mul_mod_distr_r by lia; done).
  rewrite Z.lor_comm, <-Z.shiftl_mul_pow2, lor_shiftl_add, Z.shiftl_mul_pow2; try lia.
  split; [apply Z.div_pos; lia || apply Ha|]. apply Z.div_lt_upper_bound; [lia|]. rewrite <-E. apply Ha.
Qed.
Lemma rotate_range N a k : 0 <= k < N -> in_u N a -> in_u N ((a * 2 ^ k) mod 2 ^ N + a / 2 ^ (N - k)).
Proof.
  intros Hk Ha. rewrite <-rotate_sum by done. apply lor_in_u; [lia|apply in_u_wrap; lia|]. apply shiftr_in_u; [lia|lia|done].
Qed.
Lemma rotate_count N m v : N = 2 ^ m -> 0 <= m <= 64 -> Z.land (u64 v) (N - 1) = v mod N.
Proof.
  intros -> Hm. rewrite <-(Z.ones_equiv m : _ = 2 ^ m - 1), Z.land_ones by lia. unfold u64, wrapu.
  assert (2 ^ 64 = 2 ^ m * 2 ^ (64 - m)) as -> by (rewrite <-Z.pow_add_r by lia; f_equal; lia).
  pose proof (Z.pow_pos_nonneg 2 m). pose proof (Z.pow_pos_nonneg 2 (64 - m)).
  rewrite Z.rem_mul_r by lia. rewrite Z.mul_comm, Z_mod_plus_full, Zmod_mod. done.
Qed.
Lemma i64_mod m v : 0 <= m <= 64 -> i64 v mod 2 ^ m = v mod 2 ^ m.
Proof.
  intros Hm. assert (2 ^ 64 = 2 ^ m * 2 ^ (64 - m)) as E by (rewrite <-Z.pow_add_r by lia; f_equal; lia).
  unfold i64, wraps. rewrite (Z.mod_eq (v + _)) by lia. change (64 - 1) with 63.
  set (q := (v + 2 ^ 63) / 2 ^ 64). rewrite E.
  replace (v + 2 ^ 63 - 2 ^ m * 2 ^ (64 - m) * q - 2 ^ 63) with (v + (- (2 ^ (64 - m) * q)) * 2 ^ m) by ring.
  apply Z_mod_plus_full.
Qed.
Lemma rotl_ok N m a b : N = 2 ^ m -> 0 <= m <= 64 -> in_u N a -> RotateLeft N a (i64 b) = irotl N a b.
Proof.
  intros E Hm Ha. unfold RotateLeft. cbv zeta. rewrite (rotate_count N m) by done. unfold irotl.
  assert (i64 b mod N = b mod N) as -> by (rewrite E; by apply i64_mod). apply rotate_sum; [|done]. apply Z.mod_pos_bound. rewrite E. apply Z.pow_pos_nonneg; lia.
Qed.
Lemma rotr_ok N m a b : N = 2 ^ m -> 0 <= m <= 64 -> in_u N a -> RotateLeft N a (i64 (- i64 b)) = irotr N a b.
Proof.
  intros E Hm Ha. unfold RotateLeft. cbv zeta. rewrite (rotate_count N m) by done.
  assert (i64 (- i64 b) mod N = (- b) mod N) as ->.
  { rewrite E, i64_mod by done. rewrite <-!(Z.sub_0_l), <-Zminus_mod_idemp_r, i64_mod, Zminus_mod_idemp_r by done. done. }
  assert (0 < N) as HN by (rewrite E; apply Z.pow_pos_nonneg; lia). unfold irotr.
  rewrite rotate_sum by (done || apply Z.mod_pos_bound; lia).
  destruct (Z.eq_dec (b mod N) 0) as [E0|E0].
  - rewrite Z_mod_zero_opp_full, E0, !Z.sub_0_r, Z.pow_0_r, Z.mul_1_r, Z.div_1_r, Z_mod_mult by done.
    unfold in_u in Ha. rewrite Z.mod_small, Z.div_small by done. lia.
  - rewrite Z_mod_nz_opp_full by done. replace (N - (N - b mod N)) with (b mod N) by lia. lia.
Qed.

(** ** One operation at a time *)
Lemma takes_rel N f g : 0 < N -> (forall a b, in_u N a -> in_u N b -> f a b = Ok (bool_word (g a b))) ->
  takes_two N 32 f (fun a b => Ok (truth (g a b))).
Proof. intros HN H a b Ha Hb. split; [by apply H|by apply in_u_bool]. Qed.
Lemma takes_op N f g : (forall a b, in_u N a -> in_u N b -> f a b = Ok (g a b)) ->
  (forall a b, in_u N a -> in_u N b -> in_u N (g a b)) -> takes_two N N f (fun a b => Ok (g a b)).
Proof. intros H Hr a b Ha Hb. split; [by apply H|by apply Hr]. Qed.

Lemma equal_32 float k : takes_two 32 32 (equal float k unsignedTypeI32) (fun a b => Ok (truth (a =? b))).
Proof. apply takes_rel; [lia|]. intros a b Ha Hb. unfold equal. cbn. by rewrite !u32_id. Qed.
Lemma equal_64 float k : takes_two 64 32 (equal float k unsignedTypeI64) (fun a b => Ok (truth (a =? b))).
Proof. by apply takes_rel. Qed.
Lemma differ_ok float N k t : 0 < N -> t = unsignedTypeI32 \/ t = unsignedTypeI64 ->
  takes_two N 32 (differ float k t) (fun a b => Ok (truth (negb (a =? b)))).
Proof. intros HN [->| ->]; by apply takes_rel. Qed.
Lemma compare_s32 float k rel : takes_two 32 32 (compare float k rel signedTypeInt32) (fun a b => Ok (truth (rel (signed 32 a) (signed 32 b)))).
Proof. apply (takes_rel 32 _ (fun a b => rel _ _)); [lia|]. intros a b Ha Hb. unfold compare. cbn. by rewrite !i32_signed. Qed.
Lemma compare_s64 float k rel : takes_two 64 32 (compare float k rel signedTypeInt64) (fun a b => Ok (truth (rel (signed 64 a) (signed 64 b)))).
Proof. apply (takes_rel 64 _ (fun a b => rel _ _)); [lia|]. intros a b Ha Hb. unfold compare. cbn. by rewrite !i64_signed. Qed.
Lemma compare_u float N k rel t : 0 < N -> t = signedTypeUint32 \/ t = signedTypeUint64 ->
  takes_two N 32 (compare float k rel t) (fun a b => Ok (truth (rel a b))).
Proof. intros HN [->| ->]; by apply takes_rel. Qed.

Lemma arithmetic_32 float k f g : (forall a b, u32 (f a b) = g a b) -> takes_two 32 32 (arithmetic float k f unsignedTypeI32) (fun a b => Ok (g a b)).
Proof.
  intros Hg. apply takes_op; intros a b Ha Hb; [|rewrite <-Hg; by apply in_u_wrap].
  unfold arithmetic. cbn. by rewrite (u32_id a Ha), (u32_id b Hb), Hg.
Qed.
Lemma arithmetic_64 float k f g : (forall a b, u64 (f a b) = g a b) -> takes_two 64 64 (arithmetic float k f unsignedTypeI64) (fun a b => Ok (g a b)).
Proof.
  intros Hg. apply takes_op; intros a b Ha Hb; [|rewrite <-Hg; by apply in_u_wrap].
  unfold arithmetic. cbn. by rewrite Hg.
Qed.
Lemma isub_wrap N a b : wrapu N (a - b) = isub N a b.
Proof. unfold wrapu, isub. rewrite <-(Z.mul_1_l (2 ^ N)) at 2. by rewrite Z_mod_plus_full. Qed.
Lemma bitwise_ok N f t : 0 <= N -> (t = 0 -> N = 32) -> (forall a b, f a b = f b a) ->
  (forall a b, in_u N a -> in_u N b -> in_u N (f a b)) -> takes_two N N (bitwise f t) (fun a b => Ok (f a b)).
Proof.
  intros HN Ht Hc Hr. apply (takes_op N _ (fun a b => f a b)); [|done]. intros a b Ha Hb. unfold bitwise. rewrite (Hc a b).
  destruct (Z.eqb_spec t 0) as [E|]; [|done]. rewrite (Ht E) in *. by rewrite !u32_id.
Qed.
Lemma land_in_u N a b : 0 <= N -> in_u N a -> in_u N b -> in_u N (Z.land a b).
Proof. intros HN Ha Hb. apply in_u_bits; [done|]. intros i Hi. by rewrite Z.land_spec, (in_u_high N a) by (done || lia). Qed.

Lemma div_s32 float : takes_two 32 32 (div float signedTypeInt32) (idiv_s 32).
Proof.
  apply takes_divide; [lia|by left|]. intros a b Ha Hb. unfold div. cbn [orb Z.eqb signedTypeInt32 signedTypeFloat32 signedTypeFloat64].
  destruct (Z.eqb_spec b 0); [done|]. rewrite !i32_signed by done. by apply (div_s_ok 32).
Qed.
Lemma div_s64 float : takes_two 64 64 (div float signedTypeInt64) (idiv_s 64).
Proof.
  apply takes_divide; [lia|by left|]. intros a b Ha Hb. unfold div.
  destruct (Z.eqb_spec b 0); [done|]. rewrite !i64_signed by done. by apply (div_s_ok 64).
Qed.
Lemma div_u32 float : takes_two 32 32 (div float signedTypeUint32) idiv_u.
Proof.
  apply takes_divide_u; [lia|by left|]. intros a b Ha Hb. unfold div, idiv_u. destruct (Z.eqb_spec b 0) as [->|]; [done|].
  cbn. rewrite !u32_id, quot_ok by done. unfold in_u in *. by rewrite Z.quot_div_nonneg by lia.
Qed.
Lemma div_u64 float : takes_two 64 64 (div float signedTypeUint64) idiv_u.
Proof.
  apply takes_divide_u; [lia|by left|]. intros a b Ha Hb. unfold div, idiv_u. destruct (Z.eqb_spec b 0) as [->|]; [done|].
  cbn. rewrite quot_ok by done. unfold in_u in *. by rewrite Z.quot_div_nonneg by lia.
Qed.
Lemma rem_s32 : takes_two 32 32 (rem signedInt32) (irem_s 32).
Proof.
  apply takes_divide; [lia|by right|]. intros a b Ha Hb. unfold rem.
  destruct (Z.eqb_spec b 0); [done|]. rewrite !i32_signed by done. by apply (rem_s_ok 32).
Qed.
Lemma rem_s64 : takes_two 64 64 (rem signedInt64) (irem_s 64).
Proof.
  apply takes_divide; [lia|by right|]. intros a b Ha Hb. unfold rem.
  destruct (Z.eqb_spec b 0); [done|]. rewrite !i64_signed by done. by apply (rem_s_ok 64).
Qed.
Lemma rem_u a b : in_u 64 a -> in_u 64 b -> b <> 0 -> go_rem a b = Ok (a - b * (a / b)).
Proof.
  unfold in_u. intros Ha Hb H. rewrite rem_ok by done. f_equal. rewrite Z.rem_mod_nonneg by lia.
  by rewrite Z.mod_eq by lia.
Qed.
Lemma rem_u32 : takes_two 32 32 (rem signedUint32) irem_u.
Proof.
  apply takes_divide_u; [lia|by right|]. intros a b Ha Hb. unfold rem, irem_u. destruct (Z.eqb_spec b 0) as [->|]; [done|].
  cbn. rewrite !u32_id by done. apply rem_u; unfold in_u in *; lia.
Qed.
Lemma rem_u64 : takes_two 64 64 (rem signedUint64) irem_u.
Proof.
  apply takes_divide_u; [lia|by right|]. intros a b Ha Hb. unfold rem, irem_u. destruct (Z.eqb_spec b 0) as [->|]; [done|].
  by apply rem_u.
Qed.

Lemma mod_pow N b : 0 < N -> 0 <= b mod N < N.
Proof. intros HN. by apply Z.mod_pos_bound. Qed.
Lemma shl_32 : takes_two 32 32 (shl 0) (fun a b => Ok (ishl 32 a b)).
Proof.
  apply takes_op; intros a b Ha Hb; [|by apply in_u_wrap]. unfold shl. cbn [Z.eqb]. rewrite (u32_id a Ha), (u32_id b Hb).
  pose proof (mod_pow 32 b ltac:(lia)). by rewrite Z.shiftl_mul_pow2 by lia.
Qed.
Lemma shl_64 : takes_two 64 64 (shl 1) (fun a b => Ok (ishl 64 a b)).
Proof.
  apply takes_op; intros a b Ha Hb; [|by apply in_u_wrap]. unfold shl. cbn [Z.eqb].
  pose proof (mod_pow 64 b ltac:(lia)). by rewrite Z.shiftl_mul_pow2 by lia.
Qed.
Lemma shr_s32 : takes_two 32 32 (shr signedInt32) (fun a b => Ok (ishr_s 32 a b)).
Proof.
  apply takes_op; intros a b Ha Hb; [|by apply in_u_wrap]. unfold shr. cbn [Z.eqb signedInt32]. rewrite (i32_signed a Ha), (u32_id b Hb).
  pose proof (mod_pow 32 b ltac:(lia)). by rewrite Z.shiftr_div_pow2 by lia.
Qed.
Lemma shr_s64 : takes_two 64 64 (shr signedInt64) (fun a b => Ok (ishr_s 64 a b)).
Proof.
  apply takes_op; intros a b Ha Hb; [|by apply in_u_wrap]. unfold shr. cbn. rewrite (i64_signed a Ha).
  pose proof (mod_pow 64 b ltac:(lia)). by rewrite Z.shiftr_div_pow2 by lia.
Qed.
Lemma ishr_u_range N a b : 0 < N -> in_u N a -> in_u N (ishr_u N a b).
Proof.
  intros HN Ha. pose proof (mod_pow N b HN). unfold ishr_u. rewrite <-Z.shiftr_div_pow2 by lia. apply shiftr_in_u; [lia|lia|done].
Qed.
Lemma shr_u32 : takes_two 32 32 (shr signedUint32) (fun a b => Ok (ishr_u 32 a b)).
Proof.
  apply takes_op; intros a b Ha Hb; [|by apply ishr_u_range]. unfold shr. cbn. rewrite (u32_id a Ha), (u32_id b Hb).
  pose proof (mod_pow 32 b ltac:(lia)). by rewrite Z.shiftr_div_pow2 by lia.
Qed.
Lemma shr_u64 : takes_two 64 64 (shr signedUint64) (fun a b => Ok (ishr_u 64 a b)).
Proof.
  apply takes_op; intros a b Ha Hb; [|by apply ishr_u_range]. unfold shr. cbn.
  pose proof (mod_pow 64 b ltac:(lia)). by rewrite Z.shiftr_div_pow2 by lia.
Qed.
Lemma irotl_range N a b : 0 < N -> in_u N a -> in_u N (irotl N a b).
Proof. intros HN Ha. apply rotate_range; [by apply mod_pow|done]. Qed.
Lemma rotl_32 : takes_two 32 32 (rotl 0) (fun a b => Ok (irotl 32 a b)).
Proof.
  apply takes_op; intros a b Ha Hb; [|by apply irotl_range]. unfold rotl. cbn [Z.eqb]. rewrite (u32_id a Ha). f_equal. by apply (rotl_ok 32 5).
Qed.
Lemma rotl_64 : takes_two 64 64 (rotl 1) (fun a b => Ok (irotl 64 a b)).
Proof. apply takes_op; intros a b Ha Hb; [|by apply irotl_range]. unfold rotl. cbn [Z.eqb]. f_equal. by apply (rotl_ok 64 6). Qed.
Lemma irotr_range N m a b : N = 2 ^ m -> 0 <= m <= 64 -> in_u N a -> in_u N (irotr N a b).
Proof.
  intros E Hm Ha. rewrite <-(rotr_ok N m) by done. assert (0 < N) by (rewrite E; apply Z.pow_pos_nonneg; lia).
  unfold RotateLeft. cbv zeta. rewrite (rotate_count N m) by done. pose proof (mod_pow N (i64 (- i64 b)) ltac:(lia)).
  apply lor_in_u; [lia|apply in_u_wrap; lia|]. apply shiftr_in_u; [lia|lia|done].
Qed.
Lemma rotr_32 : takes_two 32 32 (rotr 0) (fun a b => Ok (irotr 32 a b)).
Proof.
  apply takes_op; intros a b Ha Hb; [|by apply (irotr_range 32 5)]. unfold rotr. cbn [Z.eqb]. rewrite (u32_id a Ha). f_equal.
  by apply (rotr_ok 32 5).
Qed.
Lemma rotr_64 : takes_two 64 64 (rotr 1) (fun a b => Ok (irotr 64 a b)).
Proof. apply takes_op; intros a b Ha Hb; [|by apply (irotr_range 64 6)]. unfold rotr. cbn [Z.eqb]. f_equal. by apply (rotr_ok 64 6). Qed.

(** *** One operand *)
Lemma eqz_ok N : takes_one N 32 (fun v => bool_word (v =? 0)) (fun a => truth (a =? 0)).
Proof. intros a Ha. split; [done|by apply in_u_bool]. Qed.
Lemma clz_range N a : N = 32 \/ N = 64 -> in_u N (iclz N a) /\ in_u N (ictz N a) /\ in_u N (ipopcnt N a).
Proof.
  intros HN. unfold iclz, ictz, ipopcnt. pose proof (zeros_range (rev (ibits (Z.to_nat N) a))) as H1.
  pose proof (zeros_range (ibits (Z.to_nat N) a)) as H2. pose proof (ones_range (ibits (Z.to_nat N) a)) as H3.
  unfold len in H1. rewrite length_rev in H1. change (Z.of_nat (length ?l)) with (len l) in H1. rewrite len_ibits in *.
  destruct HN as [-> | ->]; unfold in_u; lia.
Qed.
Lemma clz_32 : takes_one 32 32 (clz 0) (iclz 32).
Proof. intros a Ha. split; [|apply clz_range; auto]. unfold clz. cbn [Z.eqb]. rewrite (u32_id a Ha). by apply (LeadingZeros_zeros 32). Qed.
Lemma clz_64 : takes_one 64 64 (clz 1) (iclz 64).
Proof. intros a Ha. split; [|apply clz_range; auto]. by apply (LeadingZeros_zeros 64). Qed.
Lemma ctz_32 : takes_one 32 32 (ctz 0) (ictz 32).
Proof. intros a Ha. split; [|apply clz_range; auto]. unfold ctz. cbn [Z.eqb]. rewrite (u32_id a Ha). apply (TrailingZeros_zeros 32). Qed.
Lemma ctz_64 : takes_one 64 64 (ctz 1) (ictz 64).
Proof. intros a Ha. split; [|apply clz_range; auto]. apply (TrailingZeros_zeros 64). Qed.
Lemma popcnt_32 : takes_one 32 32 (popcnt 0) (ipopcnt 32).
Proof. intros a Ha. split; [|apply clz_range; auto]. unfold popcnt. cbn [Z.eqb]. rewrite (u32_id a Ha). apply (OnesCount_ones 32). Qed.
Lemma popcnt_64 : takes_one 64 64 (popcnt 1) (ipopcnt 64).
Proof. intros a Ha. split; [|apply clz_range; auto]. apply (OnesCount_ones 64). Qed.
(** Sign extension from [M] bits. *)
Lemma extend_ok N M : 0 < M -> 0 < N -> takes_one N N (fun v => wrapu N (wraps M v)) (iextend_s N M).
Proof.
  intros HM HN a Ha. split; [|apply in_u_wrap; lia]. unfold iextend_s, unsigned. cbv zeta.
  pose proof (signed_wraps M (a mod 2 ^ M) HM ltac:(apply in_u_wrap; lia)) as E. unfold signed in E. rewrite <-E.
  unfold wrapu, wraps. by rewrite Zplus_mod_idemp_l.
Qed.
Lemma wrap_i64_ok : takes_one 64 32 u32 (fun a => a mod 2 ^ 32).
Proof. intros a Ha. split; [done|by apply in_u_wrap]. Qed.
Lemma extend_s_ok : takes_one 32 64 (extend 1) (fun a => unsigned 64 (signed 32 a)).
Proof. intros a Ha. split; [|by apply in_u_wrap]. unfold extend. cbn [Z.eqb]. by rewrite (i32_signed a Ha). Qed.
Lemma extend_u_ok : takes_one 32 64 (extend 0) (fun a => a).
Proof. intros a Ha. split; [by apply u32_id|]. unfold in_u in *. lia. Qed.

(** ** Instructions *)
Section instructions.
Context (math : Math) (functions : list function) (typeIDs : list Z) (functionFromUintptr : Z -> option nat)
  (address : Z -> Z).
Notation exec := (exec math functions typeIDs functionFromUintptr address).

(** An operation replaces its operands by the result of [m], or traps. *)
Definition means (op : unionOperation) (m : sem) : Prop := forall s rest,
  match m with
  | Un N M f => forall a, in_u N a -> stack s = a :: rest ->
      exec op s = Ok (Goes (next (set_stack s (f a :: rest)))) /\ in_u M (f a)
  | Bin N M f => forall a b, in_u N a -> in_u N b -> stack s = b :: a :: rest ->
      match f a b with
      | Ok v => exec op s = Ok (Goes (next (set_stack s (v :: rest)))) /\ in_u M v
      | Err t => exec op s = Err (Trapped t)
      end
  end.
Lemma means_one op N M f g : (forall s, exec op s = goes (unary s f)) -> takes_one N M f g -> means op (Un N M g).
Proof.
  intros He Hf s rest a Ha Hs. rewrite He. unfold unary, popValue. rewrite Hs. destruct (Hf a Ha) as [E Hr].
  split; [|done]. cbn. by rewrite E.
Qed.
Lemma means_two op N M f g : (forall s, exec op s = goes (binary s f)) -> takes_two N M f g -> means op (Bin N M g).
Proof.
  intros He Hf s rest a b Ha Hb Hs. rewrite He. unfold binary, popValue. rewrite Hs. cbn. specialize (Hf a b Ha Hb).
  destruct (g a b) as [v|t]; [destruct Hf as [-> Hr]; done|by rewrite Hf].
Qed.
End instructions.
(** The lemma of an operation. *)
Ltac operands :=
  lazymatch goal with
  | |- takes_one _ _ (fun v => bool_word _) _ => apply eqz_ok
  | |- takes_one 32 _ (clz _) _ => apply clz_32
  | |- takes_one 64 _ (clz _) _ => apply clz_64
  | |- takes_one 32 _ (ctz _) _ => apply ctz_32
  | |- takes_one 64 _ (ctz _) _ => apply ctz_64
  | |- takes_one 32 _ (popcnt _) _ => apply popcnt_32
  | |- takes_one 64 _ (popcnt _) _ => apply popcnt_64
  | |- takes_one _ _ _ (iextend_s ?N ?M) => apply (extend_ok N M); lia
  | |- takes_one 64 32 _ _ => apply wrap_i64_ok
  | |- takes_one 32 64 _ (fun a => a) => apply extend_u_ok
  | |- takes_one 32 64 _ _ => apply extend_s_ok
  | |- takes_two 32 _ (equal _ _ _) _ => apply equal_32
  | |- takes_two 64 _ (equal _ _ _) _ => apply equal_64
  | |- takes_two _ _ (differ _ _ _) _ => apply differ_ok; [lia|first [left; reflexivity|right; reflexivity]]
  | |- takes_two _ _ (compare _ _ _ _) (fun a b => Ok (truth (_ (signed 32 _) _))) => apply compare_s32
  | |- takes_two _ _ (compare _ _ _ _) (fun a b => Ok (truth (_ (signed 64 _) _))) => apply compare_s64
  | |- takes_two _ _ (compare _ _ _ _) _ => apply compare_u; [lia|first [left; reflexivity|right; reflexivity]]
  | |- takes_two 32 _ (arithmetic _ _ Z.sub _) _ => apply arithmetic_32; intros; apply isub_wrap
  | |- takes_two 64 _ (arithmetic _ _ Z.sub _) _ => apply arithmetic_64; intros; apply isub_wrap
  | |- takes_two 32 _ (arithmetic _ _ _ _) _ => apply arithmetic_32; reflexivity
  | |- takes_two 64 _ (arithmetic _ _ _ _) _ => apply arithmetic_64; reflexivity
  | |- takes_two 32 _ _ (idiv_s 32) => apply div_s32
  | |- takes_two 64 _ _ (idiv_s 64) => apply div_s64
  | |- takes_two 32 _ _ idiv_u => apply div_u32
  | |- takes_two 64 _ _ idiv_u => apply div_u64
  | |- takes_two 32 _ _ (irem_s 32) => apply rem_s32
  | |- takes_two 64 _ _ (irem_s 64) => apply rem_s64
  | |- takes_two 32 _ _ irem_u => apply rem_u32
  | |- takes_two 64 _ _ irem_u => apply rem_u64
  | |- takes_two _ _ (bitwise _ _) _ => apply bitwise_ok;
      [lia|first [reflexivity|intros H; discriminate H]|first [apply Z.land_comm|apply Z.lor_comm|apply Z.lxor_comm]
      |intros; first [apply land_in_u|apply lor_in_u|apply lxor_in_u]; (lia || assumption)]
  | |- takes_two 32 _ (shl _) _ => apply shl_32
  | |- takes_two 64 _ (shl _) _ => apply shl_64
  | |- takes_two _ _ (shr _) (fun a b => Ok (ishr_s 32 _ _)) => apply shr_s32
  | |- takes_two _ _ (shr _) (fun a b => Ok (ishr_s 64 _ _)) => apply shr_s64
  | |- takes_two _ _ (shr _) (fun a b => Ok (ishr_u 32 _ _)) => apply shr_u32
  | |- takes_two _ _ (shr _) (fun a b => Ok (ishr_u 64 _ _)) => apply shr_u64
  | |- takes_two 32 _ (rotl _) _ => apply rotl_32
  | |- takes_two 64 _ (rotl _) _ => apply rotl_64
  | |- takes_two 32 _ (rotr _) _ => apply rotr_32
  | |- takes_two 64 _ (rotr _) _ => apply rotr_64
  end.
Lemma integer_means math functions typeIDs functionFromUintptr address :
  Forall (fun '(opcode, m) => exists op, LowerTables.case opcode LowerTables.main_plain = Some op /\
    means math functions typeIDs functionFromUintptr address op m) integer_semantics.
Proof.
  unfold integer_semantics, sized_semantics, Op, Rel. cbn [fmap list_fmap app].
  repeat (apply Forall_cons; split); [..|apply Forall_nil; exact I];
    (eexists; split; [vm_compute; reflexivity|]);
    first [eapply means_one; [intros s; reflexivity|]|eapply means_two; [intros s; reflexivity|]];
    operands.
Qed.

(** C13: Every integer instruction computes what the WebAssembly specification
    says: the operation that an [i32] or [i64] numeric instruction (comparisons,
    counts of bits, arithmetic, divisions and remainders, bitwise operators,
    shifts, rotations, sign extensions and conversions between integers) is
    lowered to, executed on operands of its width, replaces them by the
    specification's result, which is again a number of its width, and raises
    the trap of the specification where the result is undefined. *)
Theorem integer_instructions math functions typeIDs functionFromUintptr address opcode m :
  (opcode, m) ∈ integer_semantics ->
  exists op, LowerTables.case opcode LowerTables.main_plain = Some op /\
    means math functions typeIDs functionFromUintptr address op m.
Proof.
  intros Hin. pose proof (integer_means math functions typeIDs functionFromUintptr address) as H.
  rewrite Forall_forall in H. apply (H _ Hin).
Qed.
(** [-7 / 2] and [-2^31 / -1]. *)
Lemma integer_instructions_witness : exists op,
  LowerTables.case Opcodes.OpcodeI32DivS LowerTables.main_plain = Some op /\
  let exec a b := exec sample_math [] [] (fun _ => None) (fun i => i) op (mkState [b; a] [] 0 (mkInstance [] None [] [] [] false)) in
  (exists s, exec (2 ^ 32 - 7) 2 = Ok (Goes s) /\ stack s = [2 ^ 32 - 3]) /\
  exec (2 ^ 31) (2 ^ 32 - 1) = Err (Trapped ErrRuntimeIntegerOverflow).
Proof.
  destruct (integer_instructions sample_math [] [] (fun _ => None) (fun i => i) Opcodes.OpcodeI32DivS (Bin 32 32 (idiv_s 32)))
    as (op & Hop & Hm).
  - unfold integer_semantics, sized_semantics. cbn [fmap list_fmap app]. set_solver.
  - exists op. split; [exact Hop|]. cbv zeta. split.
    + destruct (Hm (mkState [2; 2 ^ 32 - 7] [] 0 (mkInstance [] None [] [] [] false)) [] (2 ^ 32 - 7) 2) as [E _];
        [unfold in_u; lia|unfold in_u; lia|reflexivity|]. eexists. split; [exact E|]. reflexivity.
    + apply (Hm (mkState [2 ^ 32 - 1; 2 ^ 31] [] 0 (mkInstance [] None [] [] [] false)) [] (2 ^ 31) (2 ^ 32 - 1));
        [unfold in_u; lia|unfold in_u; lia|reflexivity].
Defined.
End InterpInt.
