(* ===== verification/InterpBulk.v ===== *)
(** * Bulk operations of the interpreter against plain lists

    [memory.fill], [table.fill] and [table.grow] fill by copying what is already
    filled; the bulk instructions check their ranges with sums of [uint64].
    They are compared with [filled] and [copied]. *)
From S2P Require Import Prelude Opcodes WasmBinary WasmMemory Operations Lower Interp.

Module InterpBulk.
Import Operations Interp.
Import WasmMemory(MemoryInstance, Buffer, with_buffer, spare, Cap).

(** ** What the instructions are to do *)
Definition filled (l : list Z) (d v n : Z) : option (list Z) :=
  if len l <? d + n then None
  else Some (take (Z.to_nat d) l ++ replicate (Z.to_nat n) v ++ list.drop (Z.to_nat (d + n)) l).
Definition copied (l : list Z) (d : Z) (src : list Z) (i n : Z) : option (list Z) :=
  if (len src <? i + n) || (len l <? d + n) then None
  else Some (take (Z.to_nat d) l ++ take (Z.to_nat n) (list.drop (Z.to_nat i) src) ++ list.drop (Z.to_nat (d + n)) l).

(** ** The copy tricks *)
Lemma put_filled (v : Z) i rest k : put (replicate i v ++ rest) i (replicate k v) = replicate (i + k) v ++ list.drop k rest.
Proof.
  unfold put. rewrite take_app_length' by (by rewrite length_replicate).
  rewrite drop_app_ge by (rewrite !length_replicate; lia). rewrite !length_replicate, replicate_add, <-app_assoc.
  do 3 f_equal. lia.
Qed.
Lemma copy_filled (v : Z) i rest k : (k <= i)%nat -> copy (replicate i v ++ rest) i (take k (replicate i v ++ rest)) =
  let n := Nat.min k (length rest) in (replicate (i + n) v ++ list.drop n rest, n).
Proof.
  intros Hk. unfold copy. cbv zeta. rewrite take_app_le, take_replicate, (Nat.min_l k i) by (rewrite ?length_replicate; lia).
  rewrite length_app, !length_replicate. replace (i + length rest - i)%nat with (length rest) by lia.
  rewrite take_replicate, put_filled. by rewrite (Nat.min_l (Nat.min k (length rest)) k) by lia.
Qed.
Lemma fillChunks_ok (v : Z) fuel i rest : (1 <= i)%nat -> (length rest <= fuel)%nat ->
  fillChunks fuel (replicate i v ++ rest) i = Some (replicate (i + length rest) v).
Proof.
  revert i rest. induction fuel as [|fuel IH]; intros i rest Hi Hf.
  { destruct rest; [|cbn in Hf; lia]. cbn [fillChunks]. rewrite app_nil_r, length_replicate, Nat.ltb_irrefl, Nat.add_0_r. done. }
  cbn [fillChunks]. rewrite length_app, length_replicate. destruct (Nat.ltb_spec i (i + length rest)) as [Hlt|Hge].
  - assert (1 <= Nat.min i 8192 <= i)%nat as Hk by (split; [apply Nat.min_glb; [done|apply Nat.leb_le; reflexivity]|lia]).
    set (k := Nat.min i 8192) in *. rewrite copy_filled by lia. cbv beta iota zeta.
    rewrite IH; rewrite ?length_drop; [|lia|lia]. do 2 f_equal. lia.
  - destruct rest; [|cbn in Hge; lia]. by rewrite app_nil_r, Nat.add_0_r.
Qed.
Lemma fillDoubling_ok (v : Z) fuel i rest : (1 <= i)%nat -> (length rest <= fuel)%nat ->
  fillDoubling fuel (replicate i v ++ rest) i = Some (replicate (i + length rest) v).
Proof.
  revert i rest. induction fuel as [|fuel IH]; intros i rest Hi Hf.
  { destruct rest; [|cbn in Hf; lia]. cbn [fillDoubling]. rewrite app_nil_r, length_replicate, Nat.ltb_irrefl, Nat.add_0_r. done. }
  cbn [fillDoubling]. rewrite length_app, length_replicate. destruct (Nat.ltb_spec i (i + length rest)) as [Hlt|Hge].
  - rewrite copy_filled by lia. cbv zeta. cbn [fst]. destruct (Nat.le_gt_cases i (length rest)) as [Hle|Hgt].
    + rewrite Nat.min_l by done. replace (i * 2)%nat with (i + i)%nat by lia.
      rewrite IH; rewrite ?length_drop; [|lia|lia]. do 2 f_equal. lia.
    + rewrite Nat.min_r, drop_all, app_nil_r by lia.
      destruct fuel; cbn [fillDoubling]; rewrite length_replicate; destruct (Nat.ltb_spec (i * 2) (i + length rest)); (lia || done).
  - destruct rest; [|cbn in Hge; lia]. by rewrite app_nil_r, Nat.add_0_r.
Qed.
Lemma fill_ok loop buf v : loop = fillChunks \/ loop = fillDoubling -> buf <> [] ->
  fill loop buf v = Ok (replicate (length buf) v).
Proof.
  intros Hl Hb. destruct buf as [|x buf]; [done|]. unfold fill.
  change (<[0%nat := v]> (x :: buf)) with (replicate 1 v ++ buf).
  destruct Hl as [-> | ->]; [rewrite fillChunks_ok|rewrite fillDoubling_ok]; cbn; (lia || done).
Qed.

(** ** The instructions *)
Section bulk.
Context (math : Math) (functions : list function) (typeIDs : list Z) (functionFromUintptr : Z -> option nat)
  (address : Z -> Z).
Notation exec := (exec math functions typeIDs functionFromUintptr address).

Definition memory_becomes (s : state) (rest : list Z) (m : MemoryInstance) (b : option (list Z)) : result int_err outcome :=
  match b with
  | Some b => Ok (Goes (next (set_inst (set_stack s rest) (set_memory (inst s) (with_buffer m b (spare m) (Cap m))))))
  | None => Err (Trapped ErrRuntimeOutOfBoundsMemoryAccess)
  end.
Definition table_becomes (s : state) (rest : list Z) (x : Z) (t : TableInstance) (b : option (list Z)) : result int_err outcome :=
  match b with
  | Some b => Ok (Goes (next (set_inst (set_stack s rest) (set_tables (inst s)
      (<[Z.to_nat x := mkTable b (t_Max t)]> (i_tables (inst s)))))))
  | None => Err (Trapped ErrRuntimeInvalidTableAccess)
  end.

Context (s : state) (rest : list Z) (n i d : Z).
Hypothesis Hs : stack s = n :: i :: d :: rest.
Hypothesis Hn : in_u 32 n.
Hypothesis Hd : in_u 32 d.

Lemma pops : pop3 s = Ok (n, i, d, set_stack s rest).
Proof. unfold pop3, popValue. by rewrite Hs. Qed.
Lemma no_wrap x : in_u 32 x -> u64 (x + n) = x + n /\ u64 (n + x) = x + n /\ slices x n = Ok tt.
Proof.
  unfold in_u in *. intros Hx. rewrite (Z.add_comm n x). unfold u64. rewrite wrapu_small by (unfold in_u; lia).
  unfold slices. by replace (2 ^ 64 <=? x + n) with false by lia.
Qed.
Lemma copied_put l src : len src <? i + n = false -> len l <? d + n = false -> in_u 32 i ->
  copied l d src i n = Some (put l (Z.to_nat d) (sub src (Z.to_nat i) (Z.to_nat n))).
Proof.
  intros E1 E2 Hi. unfold copied. rewrite E1, E2. cbn [orb]. unfold put, sub, in_u, len in *.
  rewrite length_take, length_drop. do 4 f_equal. lia.
Qed.
Lemma filled_put l v : len l <? d + n = false -> filled l d v n = Some (put l (Z.to_nat d) (replicate (Z.to_nat n) v)).
Proof.
  intros E. unfold filled. rewrite E. unfold put, in_u in *. rewrite length_replicate. do 4 f_equal. lia.
Qed.
(** Nothing moves when nothing is to be copied. *)
Lemma put_none (l bs : list Z) : bs = [] -> put l (Z.to_nat d) bs = l.
Proof. intros ->. unfold put. cbn [length app]. rewrite Nat.add_0_r. apply take_drop. Qed.
Lemma same_memory m : i_memory (inst s) = Some m ->
  set_inst (set_stack s rest) (set_memory (inst s) (with_buffer m (Buffer m) (spare m) (Cap m))) = set_stack s rest.
Proof.
  intros Hm. unfold set_inst, set_stack. f_equal. destruct m, (inst s). cbn in *. by subst.
Qed.
Lemma same_table x t : i_tables (inst s) !! Z.to_nat x = Some t ->
  set_inst (set_stack s rest) (set_tables (inst s) (<[Z.to_nat x := mkTable (References t) (t_Max t)]> (i_tables (inst s)))) =
  set_stack s rest.
Proof.
  intros Ht. unfold set_inst, set_stack, set_tables. destruct t. rewrite list_insert_id by done. by destruct (inst s).
Qed.
Lemma region_len (l : list Z) : len l <? d + n = false -> length (sub l (Z.to_nat d) (Z.to_nat n)) = Z.to_nat n.
Proof. intros E. unfold sub, in_u, len in *. rewrite length_take, length_drop. lia. Qed.

Lemma fill_memory m : i_memory (inst s) = Some m ->
  exec newOperationMemoryFill s = memory_becomes s rest m (filled (Buffer m) d (i mod 256) n).
Proof.
  intros Hm. unfold Interp.exec. cbn [Kind newOperationMemoryFill]. unfold memoryFill. rewrite pops. cbn [inst set_stack].
  unfold memoryInst. cbn [inst set_stack]. rewrite Hm. destruct (no_wrap d Hd) as (_ & E & Hsl). rewrite E, Hsl.
  destruct (len (Buffer m) <? d + n) eqn:El; [unfold filled; by rewrite El|]. rewrite filled_put by done.
  destruct (Z.eqb_spec n 0) as [->|Hn0].
  - cbn [goes memory_becomes Z.to_nat replicate]. rewrite put_none, same_memory by done. done.
  - pose proof (region_len _ El) as Hlen.
    change (u8 i) with (i mod 256). destruct (Z.eqb_spec (i mod 256) 0) as [->|Hv].
    + rewrite Hlen. reflexivity.
    + rewrite fill_ok by (auto; intros E0; rewrite E0 in Hlen; unfold in_u in *; cbn in Hlen; lia). rewrite Hlen. reflexivity.
Qed.
Lemma copy_memory m : i_memory (inst s) = Some m -> in_u 32 i ->
  exec newOperationMemoryCopy s = memory_becomes s rest m (copied (Buffer m) d (Buffer m) i n).
Proof.
  intros Hm Hi. unfold Interp.exec. cbn [Kind newOperationMemoryCopy]. unfold memoryCopy. rewrite pops.
  unfold memoryInst. cbn [inst set_stack]. rewrite Hm. destruct (no_wrap d Hd) as (E1 & _ & H1), (no_wrap i Hi) as (E2 & _ & H2).
  rewrite E1, E2, H1, H2. destruct (len (Buffer m) <? i + n) eqn:Ei, (len (Buffer m) <? d + n) eqn:Ed;
    [unfold copied; rewrite Ei, ?Ed; done..|]. cbn [orb]. rewrite copied_put by done.
  destruct (Z.eqb_spec n 0) as [->|Hn0]; [|reflexivity].
  cbn [goes memory_becomes]. rewrite put_none, same_memory by done. done.
Qed.
Lemma init_memory m k data : i_memory (inst s) = Some m -> in_u 32 i -> i_data (inst s) !! Z.to_nat k = Some data ->
  exec (newOperationMemoryInit k) s = memory_becomes s rest m (copied (Buffer m) d data i n).
Proof.
  intros Hm Hi Hk. unfold Interp.exec. cbn [Kind newOperationMemoryInit]. unfold memoryInit, at_. cbn [U1 newOperationMemoryInit].
  rewrite Hk, pops. unfold memoryInst. cbn [inst set_stack]. rewrite Hm.
  destruct (no_wrap d Hd) as (E1 & _ & H1), (no_wrap i Hi) as (E2 & _ & H2).
  rewrite E1, E2, H1, H2. destruct (len data <? i + n) eqn:Ei, (len (Buffer m) <? d + n) eqn:Ed;
    [unfold copied; rewrite Ei, ?Ed; done..|]. cbn [orb]. rewrite copied_put by done.
  destruct (Z.eqb_spec n 0) as [->|Hn0]; [|reflexivity].
  cbn [goes memory_becomes]. rewrite put_none, same_memory by done. done.
Qed.

Section table.
Context (x : Z) (t : TableInstance).
Hypothesis Ht : i_tables (inst s) !! Z.to_nat x = Some t.
Lemma fill_table : exec (newOperationTableFill x) s = table_becomes s rest x t (filled (References t) d i n).
Proof.
  unfold Interp.exec. cbn [Kind newOperationTableFill]. unfold tableFill, tableAt, at_. cbn [U1 newOperationTableFill].
  rewrite Ht, pops. destruct (no_wrap d Hd) as (_ & E & Hsl). rewrite E, Hsl.
  destruct (len (References t) <? d + n) eqn:El; [unfold filled; by rewrite El|]. rewrite filled_put by done.
  destruct (Z.ltb_spec 0 n) as [Hpos|Hle].
  - pose proof (region_len _ El) as Hlen.
    rewrite fill_ok by (auto; intros E0; rewrite E0 in Hlen; cbn in Hlen; lia). rewrite Hlen. reflexivity.
  - assert (n = 0) as -> by (unfold in_u in Hn; lia). cbn [goes table_becomes Z.to_nat replicate].
    rewrite put_none, same_table by done. done.
Qed.
Lemma copy_table y src : i_tables (inst s) !! Z.to_nat y = Some src -> in_u 32 i ->
  exec (newOperationTableCopy y x) s = table_becomes s rest x t (copied (References t) d (References src) i n).
Proof.
  intros Hy Hi. unfold Interp.exec. cbn [Kind newOperationTableCopy]. unfold tableCopy, tableAt, at_. cbn [U1 U2 newOperationTableCopy].
  rewrite Ht, Hy, pops. destruct (no_wrap d Hd) as (E1 & _ & H1), (no_wrap i Hi) as (E2 & _ & H2).
  rewrite E1, E2, H1, H2. destruct (len (References src) <? i + n) eqn:Ei, (len (References t) <? d + n) eqn:Ed;
    [unfold copied; rewrite Ei, ?Ed; done..|]. cbn [orb]. rewrite copied_put by done.
  destruct (Z.eqb_spec n 0) as [->|Hn0]; [|reflexivity].
  cbn [goes table_becomes]. rewrite put_none, same_table by done. done.
Qed.
Lemma init_table k elems : i_elements (inst s) !! Z.to_nat k = Some elems -> in_u 32 i ->
  exec (newOperationTableInit k x) s = table_becomes s rest x t (copied (References t) d elems i n).
Proof.
  intros Hk Hi. unfold Interp.exec. cbn [Kind newOperationTableInit]. unfold tableInit, tableAt, at_. cbn [U1 U2 newOperationTableInit].
  rewrite Hk, pops. cbn [inst set_stack]. rewrite Ht. destruct (no_wrap d Hd) as (E1 & _ & H1), (no_wrap i Hi) as (E2 & _ & H2).
  rewrite E1, E2, H1, H2. destruct (len elems <? i + n) eqn:Ei, (len (References t) <? d + n) eqn:Ed;
    [unfold copied; rewrite Ei, ?Ed; done..|]. cbn [orb]. rewrite copied_put by done.
  destruct (Z.eqb_spec n 0) as [->|Hn0]; [|reflexivity].
  cbn [goes table_becomes]. rewrite put_none, same_table by done. done.
Qed.
(** [table.grow] takes the number and the reference only. *)
Lemma grow_table : len (References t) < 2 ^ 32 ->
  exec (newOperationTableGrow x) s =
  let size := len (References t) in
  let fits := (size + n <? 2 ^ 32 - 1) && match t_Max t with Some max => size + n <=? max | None => true end in
  let '(ret, refs) := if (n =? 0) || fits then (size, References t ++ replicate (Z.to_nat n) i) else (2 ^ 32 - 1, References t) in
  Ok (Goes (next (set_inst (set_stack s (ret :: d :: rest)) (set_tables (inst s)
    (<[Z.to_nat x := mkTable refs (t_Max t)]> (i_tables (inst s))))))).
Proof.
  intros Hl. unfold Interp.exec. cbn [Kind newOperationTableGrow]. unfold tableGrow, tableAt, at_, popValue. cbn [U1 newOperationTableGrow].
  rewrite Ht, Hs. cbn [stack set_stack]. pose proof (len_nonneg (References t)). unfold grow, u32. rewrite !wrapu_small by (done || unfold in_u; lia).
  destruct t as [refs max]. cbn [References t_Max] in *. destruct (Z.eqb_spec n 0) as [->|Hn0].
  { cbn [orb Z.to_nat replicate]. rewrite app_nil_r. reflexivity. }
  cbn [orb]. unfold MaxUint32. rewrite (Z.leb_antisym (len refs + n)).
  assert (match max with Some x => x <? len refs + n | None => false end =
    negb match max with Some m => len refs + n <=? m | None => true end) as -> by (destruct max; [by rewrite Z.ltb_antisym|done]).
  rewrite <-negb_andb. destruct (_ && _); cbn [negb]; [|reflexivity].
  destruct (Z.eqb_spec i 0) as [->|Hi0]; [reflexivity|].
  rewrite fill_ok; [by rewrite length_replicate|by right|].
  intros E. apply (f_equal length) in E. rewrite length_replicate in E. unfold in_u in Hn. cbn in E. lia.
Qed.
End table.
End bulk.

(** C14: The bulk instructions do what their reference definitions say: on
    operands of 32 bits, [memory.fill], [memory.copy], [memory.init],
    [table.fill], [table.copy] and [table.init] trap exactly when the source or
    the destination is out of range, and otherwise change exactly the range,
    read before it is written; filling by copying what is filled ends and
    gives the same bytes.  [table.grow] appends the reference, or leaves the
    table and gives -1 above its limit. *)
Theorem bulk_instructions math functions typeIDs functionFromUintptr address s rest n i d :
  stack s = n :: i :: d :: rest -> in_u 32 n -> in_u 32 d ->
  let exec op := exec math functions typeIDs functionFromUintptr address op s in
  (forall m, i_memory (inst s) = Some m ->
    exec newOperationMemoryFill = memory_becomes s rest m (filled (Buffer m) d (i mod 256) n) /\
    (in_u 32 i -> exec newOperationMemoryCopy = memory_becomes s rest m (copied (Buffer m) d (Buffer m) i n)) /\
    (in_u 32 i -> forall k data, i_data (inst s) !! Z.to_nat k = Some data ->
      exec (newOperationMemoryInit k) = memory_becomes s rest m (copied (Buffer m) d data i n))) /\
  (forall x t, i_tables (inst s) !! Z.to_nat x = Some t ->
    exec (newOperationTableFill x) = table_becomes s rest x t (filled (References t) d i n) /\
    (in_u 32 i -> forall y src, i_tables (inst s) !! Z.to_nat y = Some src ->
      exec (newOperationTableCopy y x) = table_becomes s rest x t (copied (References t) d (References src) i n)) /\
    (in_u 32 i -> forall k elems, i_elements (inst s) !! Z.to_nat k = Some elems ->
      exec (newOperationTableInit k x) = table_becomes s rest x t (copied (References t) d elems i n)) /\
    (len (References t) < 2 ^ 32 ->
      let size := len (References t) in
      let fits := (size + n <? 2 ^ 32 - 1) && match t_Max t with Some max => size + n <=? max | None => true end in
      let '(ret, refs) := if (n =? 0) || fits then (size, References t ++ replicate (Z.to_nat n) i)
                          else (2 ^ 32 - 1, References t) in
      exec (newOperationTableGrow x) = Ok (Goes (next (set_inst (set_stack s (ret :: d :: rest))
        (set_tables (inst s) (<[Z.to_nat x := mkTable refs (t_Max t)]> (i_tables (inst s))))))))).
Proof.
  intros Hs Hn Hd exec. split; [intros m Hm|intros x t Ht]; split_and!.
  - by apply fill_memory.
  - intros Hi. by apply copy_memory.
  - intros Hi k data Hk. by apply init_memory.
  - by apply fill_table.
  - intros Hi y src Hy. by apply copy_table.
  - intros Hi k elems Hk. by apply init_table.
  - intros Hl size fits. unfold exec. rewrite grow_table with (n := n) (i := i) (d := d) (rest := rest) (t := t) by done.
    fold size fits. cbv zeta. by destruct (_ || _).
Qed.

Definition small_memory : instance :=
  mkInstance [] (Some (WasmMemory.mkMemory [1; 2; 3; 4; 5; 6] [] 1 1 1 false None)) [mkTable [0; 7] (Some 5)] [[8; 9]] [[3]] false.
Lemma bulk_instructions_witness :
  exists s, exec sample_math [] [] (fun _ => None) (fun i => i) newOperationMemoryFill
      (mkState [4; 511; 1] [] 0 small_memory) = Ok (Goes s) /\
    Buffer <$> i_memory (inst s) = Some [1; 255; 255; 255; 255; 6].
Proof.
  destruct (bulk_instructions sample_math [] [] (fun _ => None) (fun i => i) (mkState [4; 511; 1] [] 0 small_memory) [] 4 511 1)
    as [Hm _]; [reflexivity|unfold in_u; lia|unfold in_u; lia|].
  destruct (Hm _ eq_refl) as [E _]. cbv zeta in E. rewrite E. eexists. split; vm_compute; reflexivity.
Defined.
End InterpBulk.
