(* ===== verification/Instantiate.v ===== *)
(** * Linking and instantiation: [internal/wasm/store.go] and the builders of
    [module.go], [table.go] and [store_module_list.go]

    Globals, tables and memories are shared between a module and those that
    import them: they live in a [heap], and a module instance holds pointers.
    A pointer that may be nil is an [option]; using a nil one, or an index out
    of range, is the error [Panics].  What a step has done to the heap stays
    when a later one fails.

    The engine is the interpreter of [Interp]: [FunctionInstanceReference] is
    the address of an entry of [functions].  A function of another module is
    called through [foreign]; the start function is run by [callStart].  The
    order in which Go walks the map [ImportPerModule] is the argument
    [order]. *)
From S2P Require Import Prelude Leb128 GoStd Opcodes WasmBinary FuncValidation WasmModule WasmMemory Operations Lower Interp.

Module Instantiate.
Import GoStd WasmBinary.
Import WasmModule(typeOfFunction, EqualsSignature).
Import WasmMemory(MemoryInstance, Buffer, with_buffer, spare, Cap, LinearMemory, memoryBytesNumToPages).

Inductive mismatch : Type :=
| SignatureMismatch
| TableTypeMismatch (expected actual : Z)
| MinSizeMismatch (expected actual : Z)
| NoMax (expected : Z)
| MaxSizeMismatch (expected actual : Z)
| MutabilityMismatch (expected actual : bool)
| ValueTypeMismatch (expected actual : Z).
Inductive inst_err : Type :=
| NotInstantiated (name : gostring)
| AlreadyInstantiated (name : gostring)
| AlreadyClosed
| NotExported (name : gostring)
| WrongExportType (name : gostring) (have want : Z)
| InvalidImport (module name : gostring) (why : mismatch)
| ExceedsMinTable (elem : nat)
| DataOutOfBounds (data : nat)
| StartFailed
| Panics (what : string).

(** ** The heap

    [h_Closed] has the field [Closed] of every module instance made so far. *)
Record GlobalInstance : Type := mkGlobalInstance { gi_Type : GlobalType; gi_Val : Z; gi_ValHi : Z }.
Record TableInstance : Type := mkTableInstance {
  ti_References : list Z; ti_Min : Z; ti_Max : option Z; ti_Type : Z; ti_involving : list gostring }.
Record heap : Type := mkHeap {
  h_globals : list GlobalInstance; h_tables : list TableInstance; h_memories : list MemoryInstance; h_Closed : list Z }.

(** Steps that may change the heap and fail. *)
Definition M (A : Type) : Type := heap -> heap * result inst_err A.
Definition ret {A} (a : A) : M A := fun h => (h, Ok a).
Definition fail {A} (e : inst_err) : M A := fun h => (h, Err e).
Definition bind {A B} (c : M A) (k : A -> M B) : M B := fun h =>
  match c h with (h, Ok a) => k a h | (h, Err e) => (h, Err e) end.
Notation "'do' x <- c ; k" := (bind c (fun x => k)) (at level 60, x pattern, c at level 59, right associativity).
Definition lift {A} (r : result inst_err A) : M A := fun h => (h, r).
Definition gets {A} (f : heap -> A) : M A := fun h => (h, Ok (f h)).
Fixpoint foldM {S A} (f : S -> A -> M S) (s : S) (l : list A) : M S :=
  match l with [] => ret s | x :: l => do s' <- f s x; foldM f s' l end.

Definition at_ {A} (what : string) (l : list A) (i : Z) : M A :=
  lift (match l !! Z.to_nat i with Some x => Ok x | None => Err (Panics what) end).
(** [*p]. *)
Definition deref {A} (what : string) (l : heap -> list A) (p : option nat) : M (nat * A) := fun h =>
  match p with
  | None => (h, Err (Panics "nil pointer"))
  | Some a => match l h !! a with Some x => (h, Ok (a, x)) | None => (h, Err (Panics what)) end
  end.
Definition new_global (g : GlobalInstance) : M nat := fun h =>
  (mkHeap (h_globals h ++ [g]) (h_tables h) (h_memories h) (h_Closed h), Ok (length (h_globals h))).
Definition new_table (t : TableInstance) : M nat := fun h =>
  (mkHeap (h_globals h) (h_tables h ++ [t]) (h_memories h) (h_Closed h), Ok (length (h_tables h))).
Definition new_memory (m : MemoryInstance) : M nat := fun h =>
  (mkHeap (h_globals h) (h_tables h) (h_memories h ++ [m]) (h_Closed h), Ok (length (h_memories h))).
Definition set_table (a : nat) (t : TableInstance) : M unit := fun h =>
  (mkHeap (h_globals h) (<[a := t]> (h_tables h)) (h_memories h) (h_Closed h), Ok tt).
Definition set_memory (a : nat) (m : MemoryInstance) : M unit := fun h =>
  (mkHeap (h_globals h) (h_tables h) (<[a := m]> (h_memories h)) (h_Closed h), Ok tt).
Definition new_module : M nat := fun h =>
  (mkHeap (h_globals h) (h_tables h) (h_memories h) (h_Closed h ++ [0]), Ok (length (h_Closed h))).
Definition set_Closed (a : nat) (v : Z) : M unit := fun h =>
  (mkHeap (h_globals h) (h_tables h) (h_memories h) (<[a := v]> (h_Closed h)), Ok tt).
Definition involve (t : TableInstance) (name : gostring) : TableInstance :=
  mkTableInstance (ti_References t) (ti_Min t) (ti_Max t) (ti_Type t) (ti_involving t ++ [name]).
Definition with_references (t : TableInstance) (refs : list Z) : TableInstance :=
  mkTableInstance refs (ti_Min t) (ti_Max t) (ti_Type t) (ti_involving t).

(** ** Module instances and the store *)
(** [Self] is the address of the instance. *)
Record ModuleInstance : Type := mkModuleInstance {
  Self : nat; ModuleName : gostring; Source : Module'; TypeIDs : list Z; functions : list (option Interp.function);
  Tables : list (option nat); Globals : list (option nat); MemoryPtr : option nat;
  DataInstances : list (list Z); ElementInstances : list (list Z) }.
Definition set_functions (m : ModuleInstance) (f : list (option Interp.function)) : ModuleInstance :=
  mkModuleInstance (Self m) (ModuleName m) (Source m) (TypeIDs m) f (Tables m) (Globals m) (MemoryPtr m)
    (DataInstances m) (ElementInstances m).
Definition set_Tables (m : ModuleInstance) (t : list (option nat)) : ModuleInstance :=
  mkModuleInstance (Self m) (ModuleName m) (Source m) (TypeIDs m) (functions m) t (Globals m) (MemoryPtr m)
    (DataInstances m) (ElementInstances m).
Definition set_Globals (m : ModuleInstance) (g : list (option nat)) : ModuleInstance :=
  mkModuleInstance (Self m) (ModuleName m) (Source m) (TypeIDs m) (functions m) (Tables m) g (MemoryPtr m)
    (DataInstances m) (ElementInstances m).
Definition set_MemoryPtr (m : ModuleInstance) (p : option nat) : ModuleInstance :=
  mkModuleInstance (Self m) (ModuleName m) (Source m) (TypeIDs m) (functions m) (Tables m) (Globals m) p
    (DataInstances m) (ElementInstances m).
Definition set_DataInstances (m : ModuleInstance) (d : list (list Z)) : ModuleInstance :=
  mkModuleInstance (Self m) (ModuleName m) (Source m) (TypeIDs m) (functions m) (Tables m) (Globals m) (MemoryPtr m)
    d (ElementInstances m).
Definition set_ElementInstances (m : ModuleInstance) (e : list (list Z)) : ModuleInstance :=
  mkModuleInstance (Self m) (ModuleName m) (Source m) (TypeIDs m) (functions m) (Tables m) (Globals m) (MemoryPtr m)
    (DataInstances m) e.

(** [nameToModule] is nil once the store is closed; [moduleList] has the newest
    module first. *)
Record Store : Type := mkStore {
  nameToModule : option (gmap (list Z) ModuleInstance); nameToModuleCap : Z; moduleList : list ModuleInstance;
  EnabledFeatures : Z }.
Definition nameToModuleShrinkThreshold : Z := 100.
Definition NewStore (enabledFeatures : Z) : Store := mkStore (Some ∅) nameToModuleShrinkThreshold [] enabledFeatures.
Definition module (s : Store) (name : gostring) : result inst_err ModuleInstance :=
  match nameToModule s with
  | Some names => match names !! name with Some m => Ok m | None => Err (NotInstantiated name) end
  | None => Err (NotInstantiated name)
  end.
Definition registerModule (s : Store) (m : ModuleInstance) : result inst_err Store :=
  match nameToModule s with
  | None => Err AlreadyClosed
  | Some names =>
      if bool_decide (ModuleName m = [])
      then Ok (mkStore (Some names) (nameToModuleCap s) (m :: moduleList s) (EnabledFeatures s))
      else match names !! ModuleName m with
           | Some _ => Err (AlreadyInstantiated (ModuleName m))
           | None =>
               let names := <[ModuleName m := m]> names in
               Ok (mkStore (Some names) (Z.max (nameToModuleCap s) (Z.of_nat (size names))) (m :: moduleList s) (EnabledFeatures s))
           end
  end.
(** [deleteModule] unlinks the instance from the list, which does nothing when
    it is not in it, and frees its name.  The map is copied when it is small
    for its capacity. *)
Definition deleteModule (s : Store) (m : ModuleInstance) : Store :=
  let rest := filter (fun m' => Self m' <> Self m) (moduleList s) in
  if bool_decide (ModuleName m = []) then mkStore (nameToModule s) (nameToModuleCap s) rest (EnabledFeatures s)
  else
    let names := delete (ModuleName m) <$> nameToModule s in
    let newCap := Z.max (match names with Some names => Z.of_nat (size names) | None => 0 end) nameToModuleShrinkThreshold in
    mkStore names (if newCap * 2 <=? nameToModuleCap s then newCap else nameToModuleCap s) rest (EnabledFeatures s).

(** [getExport]: the entry of the export section that [Exports] points to. *)
Definition getExport (m : ModuleInstance) (name : gostring) (et : Z) : result inst_err Export :=
  match Exports (Source m) !! name with
  | None => Err (NotExported name)
  | Some k =>
      match ExportSection (Source m) !! k with
      | None => Err (Panics "nil export")
      | Some exp => if ex_Type exp =? et then Ok exp else Err (WrongExportType name (ex_Type exp) et)
      end
  end.

Section link.
Context (address : Z -> Z) (foreign : ModuleInstance -> Interp.function -> Interp.function)
  (resolveImport : gostring -> option ModuleInstance) (allocate : option (Z -> Z -> LinearMemory))
  (callStart : ModuleInstance -> Z -> M unit).

(** [&e.functions[funcIndex]]. *)
Definition FunctionInstanceReference (m : ModuleInstance) (funcIndex : Z) : M Z :=
  do _ <- at_ "functions" (functions m) funcIndex; ret (address funcIndex).

(** ** Imports *)
Definition ResolveImportedFunction (m : ModuleInstance) (index indexInImportedModule : Z) (imported : ModuleInstance)
  : M ModuleInstance :=
  do f <- at_ "imported functions" (functions imported) indexInImportedModule;
  do _ <- at_ "functions" (functions m) index;
  ret (set_functions m (<[Z.to_nat index := foreign imported <$> f]> (functions m))).
Definition resolveFunction (m : ModuleInstance) (i : Import) (imported : ModuleInstance) (exp : Export) : M ModuleInstance :=
  do expectedType <- at_ "type section" (TypeSection (Source m)) (im_DescFunc i);
  match typeOfFunction (Source imported) (ex_Index exp) with
  | None => fail (Panics "nil function type")
  | Some actual =>
      if EqualsSignature actual (ft_Params expectedType) (ft_Results expectedType)
      then ResolveImportedFunction m (im_IndexPerType i) (ex_Index exp) imported
      else fail (InvalidImport (im_Module i) (im_Name i) SignatureMismatch)
  end.
(** Whether the limits of a table suit an import of it. *)
Definition tableMismatch (expected : Table) (t : TableInstance) : option mismatch :=
  if negb (tb_Type expected =? ti_Type t) then Some (TableTypeMismatch (tb_Type expected) (ti_Type t))
  else if ti_Min t <? tb_Min expected then Some (MinSizeMismatch (tb_Min expected) (ti_Min t))
  else match tb_Max expected, ti_Max t with
       | Some expectedMax, None => Some (NoMax expectedMax)
       | Some expectedMax, Some max => if expectedMax <? max then Some (MaxSizeMismatch expectedMax max) else None
       | None, _ => None
       end.
Definition resolveTable (m : ModuleInstance) (i : Import) (imported : ModuleInstance) (exp : Export) : M ModuleInstance :=
  do p <- at_ "imported tables" (Tables imported) (ex_Index exp);
  do (a, t) <- deref "table" h_tables p;
  match tableMismatch (im_DescTable i) t with
  | Some why => fail (InvalidImport (im_Module i) (im_Name i) why)
  | None =>
      do _ <- at_ "tables" (Tables m) (im_IndexPerType i);
      if bool_decide (ti_involving t = []) then fail (Panics "BUG: involvingModuleInstances must not be nil when it's imported")
      else
        do _ <- set_table a (involve t (ModuleName m));
        ret (set_Tables m (<[Z.to_nat (im_IndexPerType i) := Some a]> (Tables m)))
  end.
Definition resolveMemory (m : ModuleInstance) (i : Import) (imported : ModuleInstance) : M ModuleInstance :=
  do (a, mem) <- deref "memory" h_memories (MemoryPtr imported);
  match im_DescMem i with
  | None => fail (Panics "nil memory")
  | Some expected =>
      if memoryBytesNumToPages (len (Buffer mem)) <? me_Min expected
      then fail (InvalidImport (im_Module i) (im_Name i) (MinSizeMismatch (me_Min expected) (WasmMemory.Min mem)))
      else if me_Max expected <? WasmMemory.Max mem
      then fail (InvalidImport (im_Module i) (im_Name i) (MaxSizeMismatch (me_Max expected) (WasmMemory.Max mem)))
      else ret (set_MemoryPtr m (Some a))
  end.
Definition resolveGlobal (m : ModuleInstance) (i : Import) (imported : ModuleInstance) (exp : Export) : M ModuleInstance :=
  let expected := im_DescGlobal i in
  do p <- at_ "imported globals" (Globals imported) (ex_Index exp);
  do (a, g) <- deref "global" h_globals p;
  if negb (Bool.eqb (gt_Mutable expected) (gt_Mutable (gi_Type g)))
  then fail (InvalidImport (im_Module i) (im_Name i) (MutabilityMismatch (gt_Mutable expected) (gt_Mutable (gi_Type g))))
  else if negb (gt_ValType expected =? gt_ValType (gi_Type g))
  then fail (InvalidImport (im_Module i) (im_Name i) (ValueTypeMismatch (gt_ValType expected) (gt_ValType (gi_Type g))))
  else
    do _ <- at_ "globals" (Globals m) (im_IndexPerType i);
    ret (set_Globals m (<[Z.to_nat (im_IndexPerType i) := Some a]> (Globals m))).
Definition resolveOne (imported m : ModuleInstance) (i : Import) : M ModuleInstance :=
  do exp <- lift (getExport imported (im_Name i) (im_Type i));
  if im_Type i =? ExternTypeFunc then resolveFunction m i imported exp
  else if im_Type i =? ExternTypeTable then resolveTable m i imported exp
  else if im_Type i =? ExternTypeMemory then resolveMemory m i imported
  else if im_Type i =? ExternTypeGlobal then resolveGlobal m i imported exp
  else ret m.
Definition importedModule (s : Store) (name : gostring) : M ModuleInstance :=
  match resolveImport name with Some v => ret v | None => lift (module s name) end.
Definition resolveImports (s : Store) (order : list (gostring * list nat)) (m : ModuleInstance) : M ModuleInstance :=
  foldM (fun m '(name, imports) =>
    do imported <- importedModule s name;
    foldM (fun m k => do i <- at_ "imports" (ImportSection (Source m)) (Z.of_nat k); resolveOne imported m i) m imports)
    m order.

(** ** Constant expressions *)
Definition globalAt (gs : list (option nat)) (i : Z) : M GlobalInstance :=
  do p <- at_ "globals" gs i;
  do (_, g) <- deref "global" h_globals p;
  ret g.
Definition executeConstExpressionI32 (gs : list (option nat)) (expr : ConstantExpression) : M Z :=
  if ce_Opcode expr =? OpcodeI32Const then ret (loaded (Leb128.LoadInt32 (ce_Data expr)))
  else if ce_Opcode expr =? OpcodeGlobalGet then
    do g <- globalAt gs (loaded (Leb128.LoadUint32 (ce_Data expr)));
    ret (i32 (gi_Val g))
  else ret 0.
(** The offset of an element segment, as a [uint32]. *)
Definition elementOffset (m : ModuleInstance) (expr : ConstantExpression) : M Z :=
  if ce_Opcode expr =? OpcodeGlobalGet then
    do g <- globalAt (Globals m) (loaded (Leb128.LoadUint32 (ce_Data expr)));
    ret (u32 (gi_Val g))
  else ret (u32 (loaded (Leb128.LoadInt32 (ce_Data expr)))).
(** [binary.LittleEndian] panics on fewer bytes. *)
Definition littleEndian (n : nat) (off : nat) (data : list Z) : M Z :=
  if (length data <? off + n)%nat then fail (Panics "index out of range") else ret (le_dec (sub data off n)).
(** The values of a new global of type [t]. *)
Definition initialize (m : ModuleInstance) (gs : list (option nat)) (expr : ConstantExpression) : M (Z * Z) :=
  let op := ce_Opcode expr in let data := ce_Data expr in
  if op =? OpcodeI32Const then ret (u32 (loaded (Leb128.LoadInt32 data)), 0)
  else if op =? OpcodeI64Const then ret (u64 (loaded (Leb128.LoadInt64 data)), 0)
  else if op =? OpcodeF32Const then do v <- littleEndian 4 0 data; ret (v, 0)
  else if op =? OpcodeF64Const then do v <- littleEndian 8 0 data; ret (v, 0)
  else if op =? OpcodeGlobalGet then
    do g <- globalAt gs (loaded (Leb128.LoadUint32 data));
    let t := gt_ValType (gi_Type g) in
    if t =? ValueTypeI32 then ret (u32 (gi_Val g), 0)
    else if (t =? ValueTypeI64) || (t =? ValueTypeF32) || (t =? ValueTypeF64) then ret (gi_Val g, 0)
    else if t =? ValueTypeV128 then ret (gi_Val g, gi_ValHi g)
    else if (t =? ValueTypeFuncref) || (t =? ValueTypeExternref) then ret (gi_Val g, 0)
    else ret (0, 0)
  else if op =? OpcodeRefNull then do _ <- at_ "ref.null" data 0; ret (0, 0)
  else if op =? OpcodeRefFunc then do r <- FunctionInstanceReference m (loaded (Leb128.LoadUint32 data)); ret (r, 0)
  else if op =? OpcodeVecV128Const then
    do lo <- littleEndian 8 0 data; do hi <- littleEndian 8 8 data; ret (lo, hi)
  else ret (0, 0).

(** ** Tables, globals and memory *)
Definition buildTable (idx : Z) (m : ModuleInstance) (k : nat) (tsec : Table) : M ModuleInstance :=
  do a <- new_table (mkTableInstance (replicate (Z.to_nat (tb_Min tsec)) 0) (tb_Min tsec) (tb_Max tsec) (tb_Type tsec) []);
  do _ <- at_ "tables" (Tables m) (u32 (idx + Z.of_nat k));
  ret (set_Tables m (<[Z.to_nat (u32 (idx + Z.of_nat k)) := Some a]> (Tables m))).
Definition tableAt (m : ModuleInstance) (i : Z) : M (nat * TableInstance) :=
  do p <- at_ "tables" (Tables m) i; deref "table" h_tables p.
Definition checkElementBounds (m : ModuleInstance) (k : nat) (elem : ElementSegment) : M unit :=
  do (_, t) <- tableAt m (el_TableIndex elem);
  do offset <- elementOffset m (el_OffsetExpr elem);
  if ti_Min t <? offset + len (el_Init elem) then fail (ExceedsMinTable k) else ret tt.
Definition buildTables (skipBoundCheck : bool) (m : ModuleInstance) : M ModuleInstance :=
  do m <- foldM (fun m '(k, t) => buildTable (ImportTableCount (Source m)) m k t) m (imap pair (TableSection (Source m)));
  if skipBoundCheck then ret m
  else do _ <- foldM (fun _ '(k, e) => checkElementBounds m k e) tt (imap pair (ElementSection (Source m))); ret m.

Definition buildGlobal (m : ModuleInstance) (k : nat) (gs : Global) : M ModuleInstance :=
  let at_index := u32 (Z.of_nat k + ImportGlobalCount (Source m)) in
  do _ <- at_ "globals" (Globals m) at_index;
  do (v, hi) <- initialize m (take (Z.to_nat (ImportGlobalCount (Source m))) (Globals m)) (gl_Init gs);
  do a <- new_global (mkGlobalInstance (gl_Type gs) v hi);
  ret (set_Globals m (<[Z.to_nat at_index := Some a]> (Globals m))).
Definition buildGlobals (m : ModuleInstance) : M ModuleInstance :=
  foldM (fun m '(k, g) => buildGlobal m k g) m (imap pair (GlobalSection (Source m))).

Definition buildMemory (m : ModuleInstance) : M ModuleInstance :=
  match MemorySection (Source m) with
  | None => ret m
  | Some sec =>
      match WasmMemory.NewMemoryInstance (WasmMemory.mkMemorySec (me_Min sec) (me_Cap sec) (me_Max sec) (me_IsShared sec)) allocate with
      | Err _ => fail (Panics "memory")
      | Ok mem => do a <- new_memory mem; ret (set_MemoryPtr m (Some a))
      end
  end.
(** An exported table keeps the modules that can reach it. *)
Definition involveExports (m : ModuleInstance) : M unit :=
  foldM (fun _ '(_, k) =>
    do exp <- at_ "exports" (ExportSection (Source m)) (Z.of_nat k);
    if ex_Type exp =? ExternTypeTable then
      do (a, t) <- tableAt m (ex_Index exp); set_table a (involve t (ModuleName m))
    else ret tt) tt (map_to_list (Exports (Source m))).

(** ** Segments *)
Definition memoryAt (m : ModuleInstance) : M (nat * MemoryInstance) := deref "memory" h_memories (MemoryPtr m).
(** The offset of an active data segment, when it is in the memory. *)
Definition validateOneData (m : ModuleInstance) (k : nat) (d : DataSegment) : M unit :=
  if da_Passive d then ret tt else
  do offset <- executeConstExpressionI32 (Globals m) (da_OffsetExpression d);
  do (_, mem) <- memoryAt m;
  if (offset <? 0) || (len (Buffer mem) <? offset + len (da_Init d)) then fail (DataOutOfBounds k) else ret tt.
Definition validateData (m : ModuleInstance) : M unit :=
  foldM (fun _ '(k, d) => validateOneData m k d) tt (imap pair (DataSection (Source m))).
Definition applyOneData (m : ModuleInstance) (k : nat) (d : DataSegment) : M ModuleInstance :=
  let m := set_DataInstances m (<[k := da_Init d]> (DataInstances m)) in
  if da_Passive d then ret m else
  do offset <- executeConstExpressionI32 (Globals m) (da_OffsetExpression d);
  do (a, mem) <- memoryAt m;
  if (offset <? 0) || (len (Buffer mem) <? offset + len (da_Init d)) then fail (DataOutOfBounds k)
  else
    do _ <- set_memory a (with_buffer mem (put (Buffer mem) (Z.to_nat offset) (da_Init d)) (spare mem) (Cap mem));
    ret m.
Definition applyData (m : ModuleInstance) : M ModuleInstance :=
  foldM (fun m '(k, d) => applyOneData m k d)
    (set_DataInstances m (replicate (length (DataSection (Source m))) [])) (imap pair (DataSection (Source m))).

Definition elementReference (m : ModuleInstance) (init : Z) : M Z :=
  match unwrapElementInitGlobalReference init with
  | (index, true) => do g <- globalAt (Globals m) index; ret (gi_Val g)
  | (index, false) => FunctionInstanceReference m index
  end.
(** Only a passive segment of functions is kept. *)
Definition passiveElement (m : ModuleInstance) (elm : ElementSegment) : M (list Z) :=
  match el_Mode elm with
  | ElementModePassive =>
      if el_Type elm =? RefTypeFuncref then
        foldM (fun inst idx =>
          if negb (unwrapElementInitGlobalReference idx).2 && (idx =? ElementInitNullReference) then ret (inst ++ [0])
          else do r <- elementReference m idx; ret (inst ++ [r])) [] (el_Init elm)
      else ret []
  | _ => ret []
  end.
Definition buildElementInstances (m : ModuleInstance) : M ModuleInstance :=
  do es <- foldM (fun es elm => do e <- passiveElement m elm; ret (es ++ [e])) [] (ElementSection (Source m));
  ret (set_ElementInstances m es).

Definition applyInit (m : ModuleInstance) (offset : Z) (refs : list Z) (k : nat) (init : Z) : M (list Z) :=
  if init =? ElementInitNullReference then ret refs
  else
    do r <- elementReference m init;
    do _ <- at_ "references" refs (u32 (offset + Z.of_nat k));
    ret (<[Z.to_nat (u32 (offset + Z.of_nat k)) := r]> refs).
(** [false] when the segment is out of range, which ends the loop. *)
Definition applyElement (m : ModuleInstance) (elem : ElementSegment) : M bool :=
  match el_Mode elem, el_Init elem with
  | ElementModeActive, _ :: _ =>
      do offset <- elementOffset m (el_OffsetExpr elem);
      do (a, t) <- tableAt m (el_TableIndex elem);
      if len (ti_References t) <? offset + len (el_Init elem) then ret false
      else if ti_Type t =? RefTypeExternref then
        do _ <- set_table a (with_references t (put (ti_References t) (Z.to_nat offset) (zeros (length (el_Init elem)))));
        ret true
      else
        do refs <- foldM (fun refs '(k, init) => applyInit m offset refs k init) (ti_References t) (imap pair (el_Init elem));
        do _ <- set_table a (with_references t refs);
        ret true
  | _, _ => ret true
  end.
Fixpoint applyElements (m : ModuleInstance) (elems : list ElementSegment) : M unit :=
  match elems with
  | [] => ret tt
  | e :: elems => do more <- applyElement m e; if more then applyElements m elems else ret tt
  end.

(** ** Closing

    The high word of [Closed] is the exit code, the low byte says whether the
    resources are closed too. *)
Definition exitCodeFlagMask : Z := 0xff.
Definition exitCodeFlagResourceClosed : Z := 1.
Definition exitCodeFlagResourceNotClosed : Z := 2.
Definition Closed (m : ModuleInstance) (h : heap) : Z := default 0 (h_Closed h !! Self m).
Definition IsClosed (m : ModuleInstance) : M bool := gets (fun h => negb (Closed m h =? 0)).
Definition setExitCode (m : ModuleInstance) (exitCode flag : Z) : M bool :=
  do closed <- gets (Closed m);
  if closed =? 0 then do _ <- set_Closed (Self m) (Z.lor flag (u64 (Z.shiftl exitCode 32))); ret true else ret false.
(** The buffer of an allocator is given back, also when the memory is imported. *)
Definition ensureResourcesClosed (m : ModuleInstance) : M unit :=
  match MemoryPtr m with
  | None => ret tt
  | Some _ =>
      do (a, mem) <- deref "memory" h_memories (MemoryPtr m);
      match WasmMemory.expBuffer mem with
      | None => ret tt
      | Some _ => set_memory a (WasmMemory.mkMemory (Buffer mem) (spare mem) (WasmMemory.Min mem) (Cap mem) (WasmMemory.Max mem)
                                  (WasmMemory.Shared mem) None)
      end
  end.
Definition CloseWithExitCode (s : Store) (m : ModuleInstance) (exitCode : Z) : M Store :=
  do first <- setExitCode m exitCode exitCodeFlagResourceClosed;
  if first then do _ <- ensureResourcesClosed m; ret (deleteModule s m) else ret s.
Definition closeWithExitCodeWithoutClosingResource (s : Store) (m : ModuleInstance) (exitCode : Z) : M Store :=
  do first <- setExitCode m exitCode exitCodeFlagResourceNotClosed;
  ret (if first then deleteModule s m else s).
(** The exit code, when the module was closed. *)
Definition FailIfClosed (m : ModuleInstance) : M (option Z) :=
  do closed <- gets (Closed m);
  if closed =? 0 then ret None
  else
    do _ <- (if Z.land closed exitCodeFlagMask =? exitCodeFlagResourceNotClosed then ensureResourcesClosed m else ret tt);
    ret (Some (u32 (Z.shiftr closed 32))).
Definition closeWithExitCode (m : ModuleInstance) (exitCode : Z) : M unit :=
  do first <- setExitCode m exitCode exitCodeFlagResourceClosed;
  if first then ensureResourcesClosed m else ret tt.
(** The newest module first. *)
Definition StoreCloseWithExitCode (s : Store) (exitCode : Z) : M Store :=
  do _ <- foldM (fun _ m => closeWithExitCode m exitCode) tt (moduleList s);
  ret (mkStore None 0 [] (EnabledFeatures s)).

(** ** [Instantiate] *)
Definition newModuleEngine (m : Module') (typeIDs : list Z) (codes : list (list Operations.unionOperation))
  : result inst_err (list (option Interp.function)) :=
  match Interp.moduleFunctions m typeIDs 0 codes with
  | Ok fs => Ok (replicate (Z.to_nat (ImportFunctionCount m)) None ++ (Some <$> fs))
  | Err _ => Err (Panics "functions")
  end.
Definition startSection (m : ModuleInstance) : M unit :=
  match StartSection (Source m) with None => ret tt | Some funcIdx => callStart m funcIdx end.
Definition instantiate (s : Store) (order : list (gostring * list nat)) (m : Module') (codes : list (list Operations.unionOperation))
  (name : gostring) (typeIDs : list Z) : M ModuleInstance :=
  do self <- new_module;
  do fs <- lift (newModuleEngine m typeIDs codes);
  let mi := mkModuleInstance self name m typeIDs fs
    (replicate (Z.to_nat (ImportTableCount m + len (TableSection m))) None)
    (replicate (Z.to_nat (ImportGlobalCount m + len (GlobalSection m))) None) None [] [] in
  do mi <- resolveImports s order mi;
  do mi <- buildTables (IsEnabled (EnabledFeatures s) CoreFeatureReferenceTypes) mi;
  do mi <- buildGlobals mi;
  do mi <- buildMemory mi;
  do _ <- involveExports mi;
  do _ <- (if IsEnabled (EnabledFeatures s) CoreFeatureReferenceTypes then ret tt else validateData mi);
  do mi <- buildElementInstances mi;
  do mi <- applyData mi;
  do _ <- applyElements mi (ElementSection m);
  do _ <- startSection mi;
  ret mi.
(** When the name is taken the new instance is closed. *)
Definition Instantiate (s : Store) (order : list (gostring * list nat)) (m : Module') (codes : list (list Operations.unionOperation))
  (name : gostring) (typeIDs : list Z) (h : heap) : heap * Store * result inst_err ModuleInstance :=
  match instantiate s order m codes name typeIDs h with
  | (h, Err e) => (h, s, Err e)
  | (h, Ok mi) =>
      match registerModule s mi with
      | Ok s => (h, s, Ok mi)
      | Err e =>
          match CloseWithExitCode s mi 0 h with
          | (h, Ok s) => (h, s, Err e)
          | (h, Err panic) => (h, s, Err panic)
          end
      end
  end.
End link.
End Instantiate.
