(* ===== verification/InstHeap.v ===== *)
(** * Steps on the heap of a store

    What every step of linking keeps: nothing is removed, a global keeps its
    type, a table its type, its limits, its size and the modules that can reach
    it, a memory its limits and its size.  [wp] is what a step does when it
    succeeds, together with this and that it does not panic. *)
From S2P Require Import Prelude Leb128 GoStd Opcodes WasmBinary FuncValidation WasmModule WasmMemory Operations Lower Interp Instantiate.

Module InstHeap.
Import WasmMemory(MemoryInstance, Buffer).
Import Instantiate.

Definition same_global (g g' : GlobalInstance) : Prop := gi_Type g' = gi_Type g.
Definition same_table (t t' : TableInstance) : Prop :=
  ti_Type t' = ti_Type t /\ ti_Min t' = ti_Min t /\ ti_Max t' = ti_Max t /\
  (length (ti_References t) <= length (ti_References t'))%nat /\ (ti_involving t <> [] -> ti_involving t' <> []).
Definition same_memory (m m' : MemoryInstance) : Prop :=
  WasmMemory.Min m' = WasmMemory.Min m /\ WasmMemory.Max m' = WasmMemory.Max m /\
  (length (Buffer m) <= length (Buffer m'))%nat.
(** Every entry of [l] is still there. *)
Definition grows {A} (R : A -> A -> Prop) (l l' : list A) : Prop :=
  forall a x, l !! a = Some x -> exists x', l' !! a = Some x' /\ R x x'.
Record heap_le (h h' : heap) : Prop := {
  le_globals : grows same_global (h_globals h) (h_globals h');
  le_tables : grows same_table (h_tables h) (h_tables h');
  le_memories : grows same_memory (h_memories h) (h_memories h') }.

#[global] Instance same_global_preorder : PreOrder same_global.
Proof. split; [by intros g|]. unfold same_global. intros a b c H1 H2. congruence. Qed.
#[global] Instance same_table_preorder : PreOrder same_table.
Proof. split; [by intros t|]. intros a b c (?&?&?&?&?) (?&?&?&?&?). split_and!; try congruence; [lia|auto]. Qed.
#[global] Instance same_memory_preorder : PreOrder same_memory.
Proof. split; [by intros m|]. intros a b c (?&?&?) (?&?&?). split_and!; [congruence..|lia]. Qed.
#[global] Instance grows_preorder {A} (R : A -> A -> Prop) : PreOrder R -> PreOrder (grows R).
Proof.
  intros HR. split; [intros l a x Hx; by exists x|]. intros l1 l2 l3 H1 H2 a x Hx.
  destruct (H1 a x Hx) as (y & Hy & Rxy). destruct (H2 a y Hy) as (z & Hz & Ryz). exists z. split; [done|by etrans].
Qed.
#[global] Instance heap_le_preorder : PreOrder heap_le.
Proof.
  split; [by split|]. intros h1 h2 h3 [] []. split; by etrans.
Qed.

Lemma grows_app {A} (R : A -> A -> Prop) `{!PreOrder R} l x : grows R l (l ++ [x]).
Proof. intros a y Hy. exists y. split; [by apply lookup_app_l_Some|done]. Qed.
Lemma grows_insert {A} (R : A -> A -> Prop) `{!PreOrder R} l a x x' : l !! a = Some x -> R x x' -> grows R l (<[a := x']> l).
Proof.
  intros Ha HR b y Hb. destruct (decide (a = b)) as [->|Hne].
  - rewrite Ha in Hb. injection Hb as <-. exists x'. split; [|done]. apply list_lookup_insert_eq. by eapply lookup_lt_Some.
  - exists y. split; [|done]. by rewrite list_lookup_insert_ne.
Qed.
Lemma new_global_le h g : heap_le h (mkHeap (h_globals h ++ [g]) (h_tables h) (h_memories h) (h_Closed h)).
Proof. split; cbn; [apply grows_app; apply _|done..]. Qed.
Lemma new_table_le h t : heap_le h (mkHeap (h_globals h) (h_tables h ++ [t]) (h_memories h) (h_Closed h)).
Proof. split; cbn; [done|apply grows_app; apply _|done]. Qed.
Lemma new_memory_le h m : heap_le h (mkHeap (h_globals h) (h_tables h) (h_memories h ++ [m]) (h_Closed h)).
Proof. split; cbn; [done..|apply grows_app; apply _]. Qed.
Lemma set_table_le h a t t' : h_tables h !! a = Some t -> same_table t t' ->
  heap_le h (mkHeap (h_globals h) (<[a := t']> (h_tables h)) (h_memories h) (h_Closed h)).
Proof. intros Ha Ht. split; cbn; [done|by eapply grows_insert; [apply _|..]|done]. Qed.
Lemma set_memory_le h a m m' : h_memories h !! a = Some m -> same_memory m m' ->
  heap_le h (mkHeap (h_globals h) (h_tables h) (<[a := m']> (h_memories h)) (h_Closed h)).
Proof. intros Ha Hm. split; cbn; [done..|by eapply grows_insert; [apply _|..]]. Qed.

(** ** Steps *)
Definition wp {A} (c : M A) (h : heap) (Q : A -> heap -> Prop) : Prop :=
  heap_le h (c h).1 /\ match (c h).2 with Ok a => Q a (c h).1 | Err (Panics _) => False | Err _ => True end.

Lemma wp_ret {A} (a : A) h (Q : A -> heap -> Prop) : Q a h -> wp (ret a) h Q.
Proof. by split. Qed.
Lemma wp_mono {A} (c : M A) h (Q Q' : A -> heap -> Prop) : wp c h Q ->
  (forall a h', heap_le h h' -> Q a h' -> Q' a h') -> wp c h Q'.
Proof. intros [Hle H] HQ. split; [done|]. destruct (c h) as [h' [a|[]]]; try done. by apply HQ. Qed.
Lemma wp_bind {A B} (c : M A) (k : A -> M B) h (Q : B -> heap -> Prop) :
  wp c h (fun a h' => heap_le h h' -> wp (k a) h' Q) -> wp (bind c k) h Q.
Proof.
  intros [Hle H]. unfold wp, bind in *. destruct (c h) as [h' [a|e]]; cbn in *; [|by destruct e].
  destruct (H Hle) as [Hle' Hk]. split; [by etrans|done].
Qed.
Lemma wp_fail {A} e h (Q : A -> heap -> Prop) : (forall w, e <> Panics w) -> wp (fail e) h Q.
Proof. intros He. split; [done|]. cbn. destruct e; try done. by destruct (He what). Qed.
Lemma wp_lift {A} (r : result inst_err A) h (Q : A -> heap -> Prop) :
  match r with Ok a => Q a h | Err (Panics _) => False | Err _ => True end -> wp (lift r) h Q.
Proof. by split. Qed.
Lemma wp_at {A} w (l : list A) i x h (Q : A -> heap -> Prop) : l !! Z.to_nat i = Some x -> Q x h -> wp (at_ w l i) h Q.
Proof. intros Hx HQ. apply wp_lift. by rewrite Hx. Qed.
Lemma wp_deref {A} w (l : heap -> list A) a x h (Q : nat * A -> heap -> Prop) :
  l h !! a = Some x -> Q (a, x) h -> wp (deref w l (Some a)) h Q.
Proof. intros Hx HQ. unfold wp, deref. by rewrite Hx. Qed.
Lemma wp_if {A} (b : bool) (c c' : M A) h (Q : A -> heap -> Prop) :
  (b = true -> wp c h Q) -> (b = false -> wp c' h Q) -> wp (if b then c else c') h Q.
Proof. destruct b; auto. Qed.
Lemma wp_new_global g h (Q : nat -> heap -> Prop) :
  Q (length (h_globals h)) (mkHeap (h_globals h ++ [g]) (h_tables h) (h_memories h) (h_Closed h)) -> wp (new_global g) h Q.
Proof. intros HQ. split; [apply new_global_le|done]. Qed.
Lemma wp_new_table t h (Q : nat -> heap -> Prop) :
  Q (length (h_tables h)) (mkHeap (h_globals h) (h_tables h ++ [t]) (h_memories h) (h_Closed h)) -> wp (new_table t) h Q.
Proof. intros HQ. split; [apply new_table_le|done]. Qed.
Lemma wp_new_memory m h (Q : nat -> heap -> Prop) :
  Q (length (h_memories h)) (mkHeap (h_globals h) (h_tables h) (h_memories h ++ [m]) (h_Closed h)) -> wp (new_memory m) h Q.
Proof. intros HQ. split; [apply new_memory_le|done]. Qed.
Lemma wp_new_module h (Q : nat -> heap -> Prop) :
  (forall self h', heap_le h h' -> Q self h') -> wp new_module h Q.
Proof. intros HQ. assert (heap_le h (new_module h).1) as Hle by (by split). split; [done|]. by apply HQ. Qed.
Lemma wp_gets {A} (f : heap -> A) h (Q : A -> heap -> Prop) : Q (f h) h -> wp (gets f) h Q.
Proof. by split. Qed.
Lemma wp_set_Closed a v h (Q : unit -> heap -> Prop) : (forall h', heap_le h h' -> Q tt h') -> wp (set_Closed a v) h Q.
Proof. intros HQ. assert (heap_le h (set_Closed a v h).1) as Hle by (by split). split; [done|]. by apply HQ. Qed.
Lemma wp_set_table a t t' h (Q : unit -> heap -> Prop) : h_tables h !! a = Some t -> same_table t t' ->
  (forall h', heap_le h h' -> h_tables h' !! a = Some t' -> Q tt h') -> wp (set_table a t') h Q.
Proof.
  intros Ha Ht HQ. pose proof (set_table_le h a t t' Ha Ht) as Hle. split; [done|]. apply HQ; [done|].
  cbn. apply list_lookup_insert_eq. by eapply lookup_lt_Some.
Qed.
Lemma wp_set_memory a m m' h (Q : unit -> heap -> Prop) : h_memories h !! a = Some m -> same_memory m m' ->
  (forall h', heap_le h h' -> Q tt h') -> wp (set_memory a m') h Q.
Proof. intros Ha Hm HQ. pose proof (set_memory_le h a m m' Ha Hm) as Hle. split; [done|]. by apply HQ. Qed.
(** A loop that keeps [I], with the entries done so far. *)
Lemma wp_foldM {S A} (f : S -> A -> M S) (I : list A -> S -> heap -> Prop) l s h :
  I [] s h ->
  (forall done s h x rest, l = done ++ x :: rest -> I done s h -> wp (f s x) h (fun s' h' => I (done ++ [x]) s' h')) ->
  wp (foldM f s l) h (fun s' h' => I l s' h').
Proof.
  intros H0 Hf.
  enough (forall rest done s h, l = done ++ rest -> I done s h -> wp (foldM f s rest) h (fun s' h' => I l s' h')) as H
    by (apply (H l []); [done|exact H0]).
  clear s h H0. induction rest as [|x rest IH]; intros done s h El HI; cbn [foldM].
  - apply wp_ret. by rewrite El, app_nil_r.
  - apply wp_bind. eapply wp_mono; [by eapply Hf|]. intros s' h' _ HI' _. apply (IH (done ++ [x])); [|done].
    by rewrite <-app_assoc.
Qed.
End InstHeap.
