(* ===== verification/InstModule.v ===== *)
(** * What validation gives to instantiation

    The index spaces of an accepted module are its imports of a kind followed by
    its own entries, [IndexPerType] is the position of an import among those of
    its kind, and the indices in exports, constant expressions, segments and
    the start section are in range. *)
From S2P Require Import Prelude Leb128 GoStd Opcodes WasmBinary WasmBinarySpec FuncValidation WasmModule FuncTyping FuncSoundness FuncTotal ValidationSpec WasmMemory Operations Lower Interp Instantiate.

Module InstModule.
Import WasmBinary WasmBinarySpec WasmModule.

Record accepted (features limit : Z) (m : Module') (d : declarations) : Prop := {
  ac_ok : module_ok features limit m;
  ac_counts : length (FunctionSection m) = length (CodeSection m);
  ac_val : Validate m features = Ok tt;
  ac_decl : AllDeclarations m = Ok d;
  ac_fits : len (ImportSection m) + len (FunctionSection m) + len (GlobalSection m) + len (TableSection m) +
            len (TypeSection m) < 2 ^ 32 }.
Definition imports_of (k : Z) (m : Module') : list Import := filter (fun i => im_Type i = k) (ImportSection m).

(** ** Lists *)
Lemma filter_position {A} (P : A -> Prop) `{!forall x, Decision (P x)} l i x : l !! i = Some x -> P x ->
  filter P l !! length (filter P (take i l)) = Some x.
Proof.
  intros Hi HP. assert (filter P l = filter P (take i l) ++ filter P (x :: drop (S i) l)) as ->
    by (by rewrite <-filter_app, take_drop_middle). rewrite lookup_app_r by done.
  rewrite Nat.sub_diag, filter_cons_True by done. done.
Qed.
Lemma position_filter {A} (P : A -> Prop) `{!forall x, Decision (P x)} l n x : filter P l !! n = Some x ->
  exists i, l !! i = Some x /\ P x /\ length (filter P (take i l)) = n.
Proof.
  revert n. induction l as [|y l IH]; intros n Hn; [by rewrite filter_nil in Hn|].
  destruct (decide (P y)) as [HP|HP].
  - rewrite filter_cons_True in Hn by done. destruct n as [|n].
    + injection Hn as ->. exists 0%nat. done.
    + destruct (IH n Hn) as (i & Hi & Hx & Hl). exists (S i). split_and!; [done..|].
      cbn [take]. rewrite filter_cons_True by done. cbn. by rewrite Hl.
  - rewrite filter_cons_False in Hn by done. destruct (IH n Hn) as (i & Hi & Hx & Hl). exists (S i). split_and!; [done..|].
    cbn [take]. by rewrite filter_cons_False.
Qed.

(** ** Index spaces *)
Lemma declare_imports l d : let d' := fold_left declare_import l d in
  d_functions d' = d_functions d ++ (im_DescFunc <$> filter (fun i => im_Type i = ExternTypeFunc) l) /\
  d_globals d' = d_globals d ++ (im_DescGlobal <$> filter (fun i => im_Type i = ExternTypeGlobal) l) /\
  d_tables d' = d_tables d ++ (im_DescTable <$> filter (fun i => im_Type i = ExternTypeTable) l).
Proof.
  revert d. induction l as [|i l IH]; intros d; cbv zeta in *.
  { rewrite !filter_nil. cbn. by rewrite !app_nil_r. }
  cbn [fold_left]. destruct (IH (declare_import d i)) as (-> & -> & ->). unfold declare_import.
  rewrite !filter_cons.
  destruct (Z.eqb_spec (im_Type i) ExternTypeFunc) as [E|]; [rewrite E; cbn; by rewrite <-app_assoc|].
  destruct (Z.eqb_spec (im_Type i) ExternTypeGlobal) as [E|]; [rewrite E; cbn; by rewrite <-app_assoc|].
  destruct (Z.eqb_spec (im_Type i) ExternTypeMemory) as [E|]; [by rewrite E|].
  destruct (Z.eqb_spec (im_Type i) ExternTypeTable) as [E|]; [rewrite E; cbn; by rewrite <-app_assoc|].
  by rewrite !decide_False.
Qed.
Lemma declared m d : AllDeclarations m = Ok d ->
  d_functions d = (im_DescFunc <$> imports_of ExternTypeFunc m) ++ FunctionSection m /\
  d_globals d = (im_DescGlobal <$> imports_of ExternTypeGlobal m) ++ (gl_Type <$> GlobalSection m) /\
  d_tables d = (im_DescTable <$> imports_of ExternTypeTable m) ++ TableSection m.
Proof.
  unfold AllDeclarations. intros H. cbv zeta in H.
  match type of H with match ?x with _ => _ end = _ => destruct x; [|done] end. injection H as <-. cbn.
  destruct (declare_imports (ImportSection m) (mkDecls [] [] None [])) as (-> & -> & ->). done.
Qed.

Section module.
Context (features limit : Z) (m : Module') (d : declarations).
Hypothesis Hac : accepted features limit m d.
Notation Hok := (ac_ok _ _ _ _ Hac).
Notation Himports := (mo_imports _ _ _ (ac_ok _ _ _ _ Hac)).

Lemma imports_of_len k : len (imports_of k m) <= len (ImportSection m).
Proof. unfold imports_of, len. pose proof (length_filter (fun i => im_Type i = k) (ImportSection m)). lia. Qed.
Lemma fits_u32 x : 0 <= x <= len (ImportSection m) -> u32 x = x.
Proof.
  intros Hx. pose proof (ac_fits _ _ _ _ Hac). pose proof (len_nonneg (FunctionSection m)). pose proof (len_nonneg (GlobalSection m)).
  pose proof (len_nonneg (TableSection m)). pose proof (len_nonneg (TypeSection m)). apply wrapu_small. unfold in_u. lia.
Qed.
Lemma import_counts : ImportFunctionCount m = len (imports_of ExternTypeFunc m) /\
  ImportGlobalCount m = len (imports_of ExternTypeGlobal m) /\ ImportTableCount m = len (imports_of ExternTypeTable m).
Proof.
  rewrite (io_func _ _ _ _ _ _ _ _ Himports), (io_global _ _ _ _ _ _ _ _ Himports), (io_table _ _ _ _ _ _ _ _ Himports).
  unfold count. rewrite !fits_u32; [done|..]; (split; [apply len_nonneg|apply (imports_of_len _)]).
Qed.
Lemma import_slot i x : ImportSection m !! i = Some x ->
  exists n, im_IndexPerType x = Z.of_nat n /\ imports_of (im_Type x) m !! n = Some x.
Proof.
  intros Hi. rewrite (io_index _ _ _ _ _ _ _ _ Himports i x Hi). unfold count.
  exists (length (filter (fun y => im_Type y = im_Type x) (take i (ImportSection m)))).
  split; [|by apply filter_position]. rewrite fits_u32; [done|]. split; [apply len_nonneg|]. unfold len.
  pose proof (length_filter (fun y => im_Type y = im_Type x) (take i (ImportSection m))). rewrite length_take in H. lia.
Qed.
Lemma slot_import k n x : imports_of k m !! n = Some x ->
  exists i, ImportSection m !! i = Some x /\ im_Type x = k /\ im_IndexPerType x = Z.of_nat n.
Proof.
  intros Hn. destruct (position_filter _ _ _ _ Hn) as (i & Hi & <- & Hl). exists i. split_and!; [done..|].
  rewrite (io_index _ _ _ _ _ _ _ _ Himports i x Hi). unfold count.
  rewrite fits_u32; [unfold len; by rewrite Hl|]. split; [apply len_nonneg|]. unfold len.
  pose proof (length_filter (fun y => im_Type y = im_Type x) (take i (ImportSection m))). rewrite length_take in H. lia.
Qed.
(** Every import is in the group of its module. *)
Lemma import_grouped i x : ImportSection m !! i = Some x -> exists l, ImportPerModule m !! im_Module x = Some l /\ i ∈ l.
Proof.
  intros Hi. pose proof (io_module _ _ _ _ _ _ _ _ Himports (im_Module x)) as Hp.
  assert (i ∈ positions 0 (im_Module x) (ImportSection m)) as Hin.
  { rewrite <-(take_drop_middle _ _ _ Hi), positions_app. apply elem_of_app. right. cbn [positions].
    rewrite bool_decide_true by done. apply elem_of_app. left. rewrite length_take.
    rewrite Nat.min_l by (apply lookup_lt_Some in Hi; lia). apply list_elem_of_here. }
  destruct (ImportPerModule m !! im_Module x) as [l|]; cbn in Hp.
  - exists l. by rewrite Hp.
  - rewrite <-Hp in Hin. by apply elem_of_nil in Hin.
Qed.

(** ** Parts of [Validate] *)
Lemma Validate_parts : validateStartSection m = Ok tt /\ validateImports m features = Ok tt /\
  validateGlobals m (d_globals d) (u32 (len (d_functions d))) MaximumGlobals = Ok tt /\
  validateMemory m (d_memory d) (d_globals d) = Ok tt /\ validateExports m features d = Ok tt /\
  (CodeSection m = [] \/ validateFunctions m features d MaximumFunctionIndex = Ok tt) /\
  validateTable m features (d_tables d) MaximumTableIndex = Ok tt.
Proof.
  pose proof (ac_val _ _ _ _ Hac) as H. unfold Validate in H. rewrite (ac_decl _ _ _ _ Hac) in H.
  destruct (validateStartSection m) as [[]|]; [|done]. destruct (validateImports m features) as [[]|]; [|done].
  destruct (validateGlobals m _ _ _) as [[]|]; [|done]. destruct (validateMemory m _ _) as [[]|]; [|done].
  destruct (validateExports m features d) as [[]|]; [|done].
  assert (CodeSection m = [] \/ validateFunctions m features d MaximumFunctionIndex = Ok tt) as Hf.
  { destruct (CodeSection m); [by left|right]. by destruct (validateFunctions m features d _) as [[]|]. }
  destruct (match CodeSection m with [] => Ok tt | _ :: _ => validateFunctions m features d MaximumFunctionIndex end); [|done].
  destruct (validateTable m features _ _) as [[]|]; [|done]. split_and!; done.
Qed.
Lemma lens : len (d_functions d) = ImportFunctionCount m + len (FunctionSection m) /\
  len (d_globals d) = ImportGlobalCount m + len (GlobalSection m) /\
  len (d_tables d) = ImportTableCount m + len (TableSection m).
Proof.
  destruct (declared m d (ac_decl _ _ _ _ Hac)) as (-> & -> & ->). destruct import_counts as (-> & -> & ->).
  rewrite !len_app. unfold len. by rewrite !length_fmap.
Qed.
Lemma counts_nonneg : 0 <= ImportFunctionCount m /\ 0 <= ImportGlobalCount m /\ 0 <= ImportTableCount m.
Proof. destruct import_counts as (-> & -> & ->). split_and!; apply len_nonneg. Qed.
Lemma lens_u32 : u32 (len (d_functions d)) = len (d_functions d) /\ u32 (len (d_globals d)) = len (d_globals d) /\
  u32 (len (d_tables d)) = len (d_tables d).
Proof.
  destruct lens as (E1 & E2 & E3). pose proof (ac_fits _ _ _ _ Hac) as Hfits. destruct import_counts as (F1 & F2 & F3).
  pose proof (imports_of_len ExternTypeFunc). pose proof (imports_of_len ExternTypeGlobal). pose proof (imports_of_len ExternTypeTable).
  pose proof (len_nonneg (FunctionSection m)). pose proof (len_nonneg (GlobalSection m)).
  pose proof (len_nonneg (TableSection m)). pose proof (len_nonneg (TypeSection m)).
  pose proof (len_nonneg (d_functions d)). pose proof (len_nonneg (d_globals d)). pose proof (len_nonneg (d_tables d)).
  split_and!; apply wrapu_small; unfold in_u; lia.
Qed.
Lemma function_types : Forall (fun ti => 0 <= ti < len (TypeSection m)) (d_functions d).
Proof.
  destruct Validate_parts as (_ & Hi & _ & _ & _ & Hf & _). destruct (declared m d (ac_decl _ _ _ _ Hac)) as (-> & _).
  apply Forall_app. split.
  - pose proof (ValidationSpec.validateImports_functions features limit m Hok (eq_sym (ac_counts _ _ _ _ Hac)) Hi) as H.
    apply Forall_fmap, Forall_forall. intros i Hin. apply list_elem_of_filter in Hin as [E Hin].
    rewrite Forall_forall in H. by apply (H i Hin).
  - apply Forall_forall. intros ti Hin. apply list_elem_of_lookup in Hin as [idx Hti].
    pose proof (Forall_lookup_1 _ _ _ _ (mo_functions _ _ _ Hok) Hti) as [Hpos _]. split; [done|].
    destruct Hf as [Hnone|Hf].
    { pose proof (ac_counts _ _ _ _ Hac) as Hc. rewrite Hnone in Hc. apply lookup_lt_Some in Hti. cbn in Hc. lia. }
    unfold validateFunctions in Hf. cbn [SectionElementCount] in Hf. destruct (_ <? _); [done|].
    pose proof (ac_fits _ _ _ _ Hac). pose proof (len_nonneg (ImportSection m)). pose proof (len_nonneg (GlobalSection m)).
    pose proof (len_nonneg (TableSection m)). pose proof (len_nonneg (TypeSection m)). pose proof (len_nonneg (FunctionSection m)).
    assert (u32 (len (FunctionSection m)) = len (FunctionSection m) /\ u32 (len (TypeSection m)) = len (TypeSection m)) as [E1 E2]
      by (split; apply wrapu_small; unfold in_u; lia).
    assert (0 < len (FunctionSection m)) by (apply lookup_lt_Some in Hti; unfold len; lia).
    rewrite E1, E2 in Hf. replace (len (FunctionSection m) =? 0) with false in Hf by lia. cbn [andb] in Hf.
    destruct (negb _); [done|]. destruct (declaredFunctionIndexes m) as [declared|]; [|done].
    eapply (ValidationSpec.each_lookup _ _ idx (idx, ti)) in Hf; [|by rewrite list_lookup_imap, Hti].
    unfold validateOne in Hf. destruct (Z.leb_spec (len (TypeSection m)) ti); [done|]. lia.
Qed.

(** ** Functions *)
Lemma importedType_ok types l c n x : filter (fun i => im_Type i = ExternTypeFunc) l !! n = Some x ->
  0 <= c -> c + len l < 2 ^ 32 -> 0 <= im_DescFunc x < len types -> u32 (len types) = len types ->
  importedType types (c + Z.of_nat n) c l = Some (types !! Z.to_nat (im_DescFunc x)).
Proof.
  intros Hn Hc Hl Hx Ht. revert c n Hn Hc Hl. induction l as [|y l IH]; intros c n Hn Hc Hl; [by rewrite filter_nil in Hn|].
  rewrite len_cons in Hl. cbn [importedType]. pose proof (len_nonneg l). rewrite filter_cons in Hn.
  destruct (Z.eqb_spec (im_Type y) ExternTypeFunc) as [E|E]; cbn [negb].
  - rewrite decide_True in Hn by done. destruct n as [|n].
    + injection Hn as ->. rewrite Z.add_0_r, Z.eqb_refl, Ht. by replace (len types <=? im_DescFunc x) with false by lia.
    + destruct (Z.eqb_spec (c + Z.of_nat (S n)) c) as [|_]; [lia|]. unfold u32. rewrite wrapu_small by (unfold in_u; lia).
      replace (c + Z.of_nat (S n)) with (c + 1 + Z.of_nat n) by lia. apply IH; [done|lia|lia].
  - rewrite decide_False in Hn by done. apply IH; [done|lia|lia].
Qed.
Lemma types_u32 : u32 (len (TypeSection m)) = len (TypeSection m) /\ u32 (len (FunctionSection m)) = len (FunctionSection m) /\
  u32 (len (GlobalSection m)) = len (GlobalSection m).
Proof.
  pose proof (ac_fits _ _ _ _ Hac). pose proof (len_nonneg (ImportSection m)). pose proof (len_nonneg (GlobalSection m)).
  pose proof (len_nonneg (TableSection m)). pose proof (len_nonneg (TypeSection m)). pose proof (len_nonneg (FunctionSection m)).
  split_and!; apply wrapu_small; unfold in_u; lia.
Qed.
(** [typeOfFunction] is the declared type of every function. *)
Lemma typeOfFunction_ok i ti : d_functions d !! i = Some ti -> exists ft,
  TypeSection m !! Z.to_nat ti = Some ft /\ typeOfFunction m (Z.of_nat i) = Some ft.
Proof.
  intros Hi. pose proof (Forall_lookup_1 _ _ _ _ function_types Hi) as Hti. cbv beta in Hti.
  assert (is_Some (TypeSection m !! Z.to_nat ti)) as [ft Hft] by (apply lookup_lt_is_Some; unfold len in Hti; lia).
  exists ft. split; [done|]. destruct types_u32 as (Et & Ef & _). destruct import_counts as (Ec & _ & _).
  destruct (declared m d (ac_decl _ _ _ _ Hac)) as (Ed & _). rewrite Ed in Hi. unfold typeOfFunction. cbv zeta.
  apply lookup_app_Some in Hi as [Hi|[Hge Hi]].
  - rewrite list_lookup_fmap in Hi. apply fmap_Some in Hi as (x & Hx & ->).
    apply lookup_lt_Some in Hx as Hlt. rewrite Ec. replace (Z.of_nat i <? len (imports_of ExternTypeFunc m)) with true by (unfold len; lia).
    pose proof (imports_of_len ExternTypeFunc). pose proof (ac_fits _ _ _ _ Hac). pose proof (len_nonneg (FunctionSection m)).
    pose proof (len_nonneg (GlobalSection m)). pose proof (len_nonneg (TableSection m)). pose proof (len_nonneg (TypeSection m)).
    rewrite <-(Z.add_0_l (Z.of_nat i)), (importedType_ok _ _ _ _ x); try done; lia.
  - rewrite length_fmap in Hge, Hi. apply lookup_lt_Some in Hi as Hlt.
    rewrite Ec. replace (Z.of_nat i <? len (imports_of ExternTypeFunc m)) with false by (unfold len; lia).
    assert (u32 (Z.of_nat i - len (imports_of ExternTypeFunc m)) = Z.of_nat (i - length (imports_of ExternTypeFunc m))) as ->.
    { unfold u32, len. rewrite wrapu_small; [lia|]. unfold in_u. pose proof (ac_fits _ _ _ _ Hac).
      pose proof (len_nonneg (ImportSection m)). pose proof (len_nonneg (GlobalSection m)). pose proof (len_nonneg (TableSection m)).
      pose proof (len_nonneg (TypeSection m)). unfold len in *. lia. }
    rewrite Ef, Nat2Z.id, Hi, Et.
    destruct (Z.leb_spec (len (FunctionSection m)) (Z.of_nat (i - length (imports_of ExternTypeFunc m)))); [unfold len in *; lia|].
    by replace (len (TypeSection m) <=? ti) with false by lia.
Qed.

(** ** Exports *)
Lemma export_index name k e : Exports m !! name = Some k -> ExportSection m !! k = Some e ->
  (ex_Type e = ExternTypeFunc -> 0 <= ex_Index e < len (d_functions d)) /\
  (ex_Type e = ExternTypeGlobal -> 0 <= ex_Index e < len (d_globals d)) /\
  (ex_Type e = ExternTypeTable -> 0 <= ex_Index e < len (d_tables d)) /\
  (ex_Type e = ExternTypeMemory -> is_Some (d_memory d)).
Proof.
  intros _ He. destruct Validate_parts as (_ & _ & _ & _ & Hx & _). destruct lens_u32 as (E1 & E2 & E3).
  pose proof (ValidationSpec.each_lookup _ _ _ _ Hx He) as H. cbv zeta beta in H. rewrite E1, E2, E3 in H.
  pose proof (Forall_lookup_1 _ _ _ _ (eo_each _ _ (mo_exports _ _ _ Hok)) He) as (_ & _ & [Hpos _]).
  split_and!; intros E; rewrite E in H; cbn in H.
  - destruct (Z.leb_spec (len (d_functions d)) (ex_Index e)); [done|lia].
  - destruct (Z.leb_spec (len (d_globals d)) (ex_Index e)); [done|lia].
  - destruct (Z.leb_spec (len (d_tables d)) (ex_Index e)); [done|lia].
  - destruct (0 <? ex_Index e); [done|]. case_bool_decide; [done|]. discriminate H.
Qed.
Lemma export_entry name k : Exports m !! name = Some k -> exists e, ExportSection m !! k = Some e.
Proof. intros H. apply (eo_map _ _ (mo_exports _ _ _ Hok)) in H as (e & He & _). by exists e. Qed.

(** ** Elements *)
Lemma verify_index idx l c : 0 <= c -> c + len l < 2 ^ 32 -> verifyImportGlobalI32 (u32 (c - 1)) idx l = Ok tt ->
  c <= idx < c + count ExternTypeGlobal l.
Proof.
  revert c. induction l as [|x l IH]; intros c Hc Hl H; [done|]. rewrite len_cons in Hl. pose proof (len_nonneg l).
  cbn [verifyImportGlobalI32] in H. unfold count in *. rewrite filter_cons.
  pose proof (len_nonneg (filter (fun i => im_Type i = ExternTypeGlobal) l)).
  destruct (Z.eqb_spec (im_Type x) ExternTypeGlobal) as [E|E].
  - rewrite decide_True by done. rewrite len_cons. rewrite u32_succ in H. unfold u32 in H.
    replace (c - 1 + 1) with (c + 1 - 1) in H by lia. fold (u32 (c + 1 - 1)) in H.
    destruct (Z.eqb_spec (u32 (c + 1 - 1)) idx) as [Ei|Ei].
    + rewrite <-Ei. unfold u32. rewrite wrapu_small by (unfold in_u; lia). lia.
    + specialize (IH (c + 1) ltac:(lia) ltac:(lia) H). lia.
  - rewrite decide_False by done. apply IH; [lia|lia|done].
Qed.
Definition init_in_range (elemType init : Z) : Prop :=
  init = ElementInitNullReference \/
  match unwrapElementInitGlobalReference init with
  | (index, true) => 0 <= index < len (d_globals d)
  | (index, false) => elemType <> RefTypeExternref /\ 0 <= index < len (d_functions d)
  end.
Lemma element_facts k e : ElementSection m !! k = Some e ->
  Forall (init_in_range (el_Type e)) (el_Init e) /\ 0 <= el_TableIndex e /\
  (el_Mode e = ElementModeActive -> el_TableIndex e < len (d_tables d) /\
    (ce_Opcode (el_OffsetExpr e) = OpcodeGlobalGet ->
      loaded (Leb128.LoadUint32 (ce_Data (el_OffsetExpr e))) < ImportGlobalCount m)).
Proof.
  intros He. destruct Validate_parts as (_ & _ & _ & _ & _ & _ & Ht). unfold validateTable in Ht. cbn [SectionElementCount] in Ht.
  destruct (_ <? _); [done|]. cbv zeta in Ht. pose proof (ValidationSpec.each_lookup _ _ _ _ Ht He) as H. clear Ht.
  destruct types_u32 as (_ & E1 & E2). rewrite E1, E2 in H. destruct lens as (F1 & F2 & F3). destruct lens_u32 as (G1 & G2 & _).
  rewrite <-F1, <-F2, G1, G2 in H. unfold validateElement in H. cbv zeta in H.
  destruct (each _ _) as [[]|] eqn:Ei; [|done].
  pose proof (Forall_lookup_1 _ _ _ _ (mo_elements _ _ _ Hok) He) as [[Hpos _] Hinit]. split_and!; [|done|].
  - apply each_Forall in Ei. rewrite Forall_forall in Ei, Hinit |- *. intros i Hin. specialize (Ei i Hin) as Hi.
    specialize (Hinit i Hin) as [Hi0 _]. unfold validateInit in Hi. unfold init_in_range.
    destruct (Z.eqb_spec i ElementInitNullReference); [by left|right].
    assert (0 <= (unwrapElementInitGlobalReference i).1) as Hj.
    { unfold unwrapElementInitGlobalReference. destruct (Z.land i _ =? _); cbn [fst]; [apply Z.ldiff_nonneg; by left|done]. }
    destruct (unwrapElementInitGlobalReference i) as [j []]; cbn [fst] in Hj.
    + destruct (Z.leb_spec (len (d_globals d)) j); [done|lia].
    + destruct (Z.eqb_spec (el_Type e) RefTypeExternref); [done|]. destruct (Z.leb_spec (len (d_functions d)) j); [done|]. split; [done|lia].
  - intros Em. rewrite Em in H. destruct (Z.leb_spec (len (d_tables d)) (el_TableIndex e)); [done|]. split; [lia|].
    intros Eo. destruct (FuncValidation.at_ (d_tables d) (el_TableIndex e)); [|done]. destruct (negb _); [done|].
    rewrite Eo in H. rewrite Z.eqb_refl in H. destruct (Leb128.LoadUint32 _) as [[g r]|]; [|done]. cbn [map_err loaded] in *.
    destruct import_counts as (_ & -> & _). apply (verify_index g _ 0) in H; [apply H|lia|].
    pose proof (ac_fits _ _ _ _ Hac). pose proof (len_nonneg (FunctionSection m)). pose proof (len_nonneg (GlobalSection m)).
    pose proof (len_nonneg (TableSection m)). pose proof (len_nonneg (TypeSection m)). lia.
Qed.
End module.
End InstModule.
