(* ===== verification/InstSpec.v ===== *)
(** * Instantiation links accepted modules

    A store whose modules are linked stays so: instantiating an accepted module
    ends in an instance whose functions, tables, globals and memory have the
    types it declares, or in an error, but never uses a nil pointer or an index
    out of range, whatever the order in which its imports are resolved. *)
From S2P Require Import Prelude Leb128 GoStd Opcodes WasmBinary WasmBinarySpec FuncValidation WasmModule FuncTyping FuncSoundness FuncTotal ValidationSpec WasmMemory Operations Lower LowerSpec TypeIDs Interp InterpHeights InterpSafe Instantiate InstHeap InstModule.

Module InstSpec.
Import GoStd WasmBinary WasmBinarySpec.
Import WasmModule(declarations, d_functions, d_globals, d_tables, d_memory, AllDeclarations, typeOfFunction, EqualsSignature).
Import WasmMemory(MemoryInstance, Buffer, memoryBytesNumToPages).
Import Instantiate InstHeap InstModule.

(** ** Linked instances *)
Definition global_has (h : heap) (gt : GlobalType) (p : option nat) : Prop :=
  exists a g, p = Some a /\ h_globals h !! a = Some g /\ gi_Type g = gt.
Definition table_has (h : heap) (tb : Table) (p : option nat) : Prop :=
  exists a t, p = Some a /\ h_tables h !! a = Some t /\ tableMismatch tb t = None.
(** A memory within declared limits: at least the minimal pages, and a maximum
    that is not above the declared one. *)
Definition memory_has (h : heap) (decl : Memory) (p : option nat) : Prop :=
  exists a mem, p = Some a /\ h_memories h !! a = Some mem /\
    me_Min decl * WasmMemory.MemoryPageSize <= len (Buffer mem) /\ WasmMemory.Max mem <= me_Max decl.
(** The memories a module declares.  A module may import several: one of them is
    used ([InstExamples.imported_memory_depends_on_order]). *)
Definition declares_memory (m : Module') (decl : Memory) : Prop :=
  (exists k x, ImportSection m !! k = Some x /\ im_Type x = ExternTypeMemory /\ im_DescMem x = Some decl) \/
  MemorySection m = Some decl.
Definition one_memory (m : Module') : Prop := (length (imports_of ExternTypeMemory m) <= 1)%nat.
Definition memory_linked (m : Module') (h : heap) (p : option nat) : Prop :=
  exists decl, declares_memory m decl /\ memory_has h decl p.
(** A function of the type a module declares, with the number the store gave to
    the type. *)
Definition function_has (T : gmap (list Z) Z) (m : Module') (ti : Z) (f : option Interp.function) : Prop :=
  exists g ft, f = Some g /\ TypeSection m !! Z.to_nat ti = Some ft /\ Interp.funcType g = ft /\
    T !! TypeIDs.typeKey ft = Some (Interp.typeID g).
Definition numbered (T : gmap (list Z) Z) (m : Module') (ids : list Z) : Prop :=
  length ids = length (TypeSection m) /\
  forall i ft id, TypeSection m !! i = Some ft -> ids !! i = Some id -> T !! TypeIDs.typeKey ft = Some id.
Record linked (T : gmap (list Z) Z) (h : heap) (mi : ModuleInstance) (d : declarations) : Prop := {
  li_ids : numbered T (Source mi) (TypeIDs mi);
  li_functions : Forall2 (fun f ti => function_has T (Source mi) ti f) (functions mi) (d_functions d);
  li_globals : Forall2 (fun p gt => global_has h gt p) (Globals mi) (d_globals d);
  li_tables : Forall2 (fun p tb => table_has h tb p) (Tables mi) (d_tables d);
  li_memory : forall decl, d_memory d = Some decl -> exists decl', declares_memory (Source mi) decl' /\
    memory_has h decl' (MemoryPtr mi) /\ (one_memory (Source mi) -> decl' = decl) }.
(** An exported table knows a module that can reach it. *)
Definition involved (h : heap) (mi : ModuleInstance) (e : Export) : Prop :=
  ex_Type e = ExternTypeTable -> forall a t, Tables mi !! Z.to_nat (ex_Index e) = Some (Some a) -> h_tables h !! a = Some t ->
    ti_involving t <> [].
Definition inst_ok (T : gmap (list Z) Z) (h : heap) (mi : ModuleInstance) : Prop :=
  exists features limit d, accepted features limit (Source mi) d /\ linked T h mi d /\
    Forall (involved h mi) (ExportSection (Source mi)).
Definition store_inv (T : gmap (list Z) Z) (h : heap) (s : Store) : Prop :=
  forall names name mi, nameToModule s = Some names -> names !! name = Some mi -> inst_ok T h mi.

(** ** Steps keep what is linked *)
Lemma global_has_le h h' gt p : heap_le h h' -> global_has h gt p -> global_has h' gt p.
Proof.
  intros Hle (a & g & -> & Hg & Ht). destruct (le_globals _ _ Hle a g Hg) as (g' & Hg' & E).
  exists a, g'. unfold same_global in E. split_and!; congruence.
Qed.
Lemma tableMismatch_same tb t t' : same_table t t' -> tableMismatch tb t' = tableMismatch tb t.
Proof. intros (E1 & E2 & E3 & _). unfold tableMismatch. by rewrite E1, E2, E3. Qed.
Lemma table_has_le h h' tb p : heap_le h h' -> table_has h tb p -> table_has h' tb p.
Proof.
  intros Hle (a & t & -> & Ht & E). destruct (le_tables _ _ Hle a t Ht) as (t' & Ht' & Hs).
  exists a, t'. split_and!; [done..|]. by rewrite (tableMismatch_same _ _ _ Hs).
Qed.
Lemma memory_has_le h h' decl p : heap_le h h' -> memory_has h decl p -> memory_has h' decl p.
Proof.
  intros Hle (a & mem & -> & Hm & Hmin & Hmax). destruct (le_memories _ _ Hle a mem Hm) as (m' & Hm' & _ & E & Hl).
  exists a, m'. split_and!; [done..| |by rewrite E]. unfold len in *. lia.
Qed.
Lemma memory_linked_le m h h' p : heap_le h h' -> memory_linked m h p -> memory_linked m h' p.
Proof. intros Hle (decl & Hd & Hm). exists decl. split; [done|]. by eapply memory_has_le. Qed.
Lemma linked_memory T h mi d : linked T h mi d -> is_Some (d_memory d) ->
  exists a mem, MemoryPtr mi = Some a /\ h_memories h !! a = Some mem.
Proof. intros Hl [decl Hd]. destruct (li_memory _ _ _ _ Hl decl Hd) as (decl' & _ & (a & mem & ? & ? & _) & _). by exists a, mem. Qed.
Lemma linked_le T h h' mi d : heap_le h h' -> linked T h mi d -> linked T h' mi d.
Proof.
  intros Hle [Hi Hf Hg Ht Hm]. split; [done|done| | |].
  - eapply Forall2_impl; [exact Hg|]. intros p gt. by apply global_has_le.
  - eapply Forall2_impl; [exact Ht|]. intros p tb. by apply table_has_le.
  - intros decl Hs. destruct (Hm decl Hs) as (decl' & H1 & H2 & H3). exists decl'. split_and!; [done| |done]. by eapply memory_has_le.
Qed.
Lemma involved_le T h h' mi d e : heap_le h h' -> linked T h mi d -> involved h mi e -> involved h' mi e.
Proof.
  intros Hle Hl He Et a t' Ha Ht'. destruct (Forall2_lookup_l _ _ _ _ _ (li_tables _ _ _ _ Hl) Ha) as (tb & _ & a' & t & E & Ht & _).
  injection E as <-. destruct (le_tables _ _ Hle a t Ht) as (t1 & Ht1 & Hs). rewrite Ht' in Ht1. injection Ht1 as <-.
  apply Hs. by eapply He.
Qed.
Lemma inst_ok_le T h h' mi : heap_le h h' -> inst_ok T h mi -> inst_ok T h' mi.
Proof.
  intros Hle (features & limit & d & Hac & Hl & He). exists features, limit, d. split_and!; [done|by eapply linked_le|].
  eapply Forall_impl; [exact He|]. intros e. by eapply involved_le.
Qed.
Lemma store_inv_le T h h' s : heap_le h h' -> store_inv T h s -> store_inv T h' s.
Proof. intros Hle Hs names name mi Hn Hm. by eapply inst_ok_le, Hs. Qed.

Lemma wp_globalAt h gs i gt p (Q : GlobalInstance -> heap -> Prop) : gs !! Z.to_nat i = Some p -> global_has h gt p ->
  (forall g, gi_Type g = gt -> Q g h) -> wp (globalAt gs i) h Q.
Proof.
  intros Hp (a & g & -> & Hg & Ht) HQ. unfold globalAt. apply wp_bind. eapply wp_at; [exact Hp|]. intros _.
  apply wp_bind. eapply wp_deref; [exact Hg|]. intros _. apply wp_ret. by apply HQ.
Qed.
Lemma wp_tableAt h mi i tb p (Q : nat * TableInstance -> heap -> Prop) : Tables mi !! Z.to_nat i = Some p -> table_has h tb p ->
  (forall a t, p = Some a -> h_tables h !! a = Some t -> tableMismatch tb t = None -> Q (a, t) h) -> wp (tableAt mi i) h Q.
Proof.
  intros Hp (a & t & -> & Ht & Hm) HQ. unfold tableAt. apply wp_bind. eapply wp_at; [exact Hp|]. intros _.
  eapply wp_deref; [exact Ht|]. by apply HQ.
Qed.

(** ** Resolving imports *)
Section module.
Context (features limit : Z) (m : Module') (d : declarations) (T : gmap (list Z) Z) (ids : list Z) (name : gostring)
  (own : list (option Interp.function)).
Hypothesis Hac : accepted features limit m d.
Context (address : Z -> Z) (foreign : ModuleInstance -> Interp.function -> Interp.function)
  (resolveImport : gostring -> option ModuleInstance) (callStart : ModuleInstance -> Z -> M unit).
Hypothesis Hforeign : forall mi f, Interp.funcType (foreign mi f) = Interp.funcType f /\ Interp.typeID (foreign mi f) = Interp.typeID f.

Notation nfuncs := (length (imports_of ExternTypeFunc m)).
(** The slot of an import is filled with something of its type. *)
Definition slot (h : heap) (mi : ModuleInstance) (x : Import) : Prop :=
  let n := Z.to_nat (im_IndexPerType x) in
  (im_Type x = ExternTypeFunc -> exists mi' g, functions mi !! n = Some (Some (foreign mi' g)) /\
    function_has T m (im_DescFunc x) (Some (foreign mi' g))) /\
  (im_Type x = ExternTypeGlobal -> exists p, Globals mi !! n = Some p /\ global_has h (im_DescGlobal x) p) /\
  (im_Type x = ExternTypeTable -> exists p, Tables mi !! n = Some p /\ table_has h (im_DescTable x) p) /\
  (im_Type x = ExternTypeMemory -> memory_linked m h (MemoryPtr mi)).
(** The instance while its imports are resolved, those at [done] so far. *)
Record linking (h : heap) (mi : ModuleInstance) (done : list nat) : Prop := {
  lk_source : Source mi = m;
  lk_ids : TypeIDs mi = ids;
  lk_name : ModuleName mi = name;
  lk_functions : length (functions mi) = length (d_functions d);
  lk_globals : length (Globals mi) = length (d_globals d);
  lk_tables : length (Tables mi) = length (d_tables d);
  lk_own : forall n, (nfuncs <= n)%nat -> functions mi !! n = own !! n;
  lk_memory : forall a, MemoryPtr mi = Some a -> is_Some (h_memories h !! a);
  lk_slots : forall k x, k ∈ done -> ImportSection m !! k = Some x -> slot h mi x }.

Lemma slot_le h h' mi x : heap_le h h' -> slot h mi x -> slot h' mi x.
Proof.
  intros Hle (H1 & H2 & H3 & H4). split_and!; intros E.
  - by apply H1.
  - destruct (H2 E) as (p & Hp & Hg). exists p. split; [done|]. by eapply global_has_le.
  - destruct (H3 E) as (p & Hp & Ht). exists p. split; [done|]. by eapply table_has_le.
  - by eapply memory_linked_le, H4.
Qed.
Lemma linking_le h h' mi done : heap_le h h' -> linking h mi done -> linking h' mi done.
Proof. intros Hle [H1 H2 H3 H4 H5 H6 H7 Hmp H8]. split; try done; [intros a Ha; destruct (Hmp a Ha) as [mem Hm], (le_memories _ _ Hle a mem Hm) as (m' & Hm' & _); by exists m'|].
  intros k x Hk Hx. by eapply slot_le, H8.
Qed.
(** Two imports of one kind with one index are the same. *)
Lemma slot_unique k k' x x' : ImportSection m !! k = Some x -> ImportSection m !! k' = Some x' -> im_Type x = im_Type x' ->
  Z.to_nat (im_IndexPerType x) = Z.to_nat (im_IndexPerType x') -> x = x'.
Proof.
  intros Hx Hx' Et En. destruct (import_slot _ _ _ _ Hac _ _ Hx) as (n & E1 & H1), (import_slot _ _ _ _ Hac _ _ Hx') as (n' & E2 & H2).
  rewrite E1, E2, !Nat2Z.id in En. subst n'. rewrite <-Et in H2. congruence.
Qed.
Lemma index_lt k x : ImportSection m !! k = Some x -> exists n, im_IndexPerType x = Z.of_nat n /\
  imports_of (im_Type x) m !! n = Some x /\
  (im_Type x = ExternTypeFunc -> (n < nfuncs)%nat /\ (n < length (d_functions d))%nat) /\
  (im_Type x = ExternTypeGlobal -> (n < length (d_globals d))%nat) /\
  (im_Type x = ExternTypeTable -> (n < length (d_tables d))%nat).
Proof.
  intros Hx. destruct (import_slot _ _ _ _ Hac _ _ Hx) as (n & E & Hn). exists n. pose proof (lookup_lt_Some _ _ _ Hn) as Hlt.
  destruct (declared _ _ (ac_decl _ _ _ _ Hac)) as (-> & -> & ->). rewrite !length_app, !length_fmap.
  split_and!; try done; intros Et; rewrite Et in Hlt; (split; [done|lia]) || lia.
Qed.

Section one.
Context (h : heap) (mi : ModuleInstance) (done : list nat) (k : nat) (x : Import).
Hypothesis Hlk : linking h mi done.
Hypothesis Hx : ImportSection m !! k = Some x.
(** A slot of another kind or index is not touched; the slot of [x] is filled. *)
Ltac fill_slot Et n En :=
  let k' := fresh "k'" in let x' := fresh "x'" in let Hk' := fresh "Hk'" in let Hx' := fresh "Hx'" in
  intros k' x' Hk' Hx'; apply elem_of_app in Hk';
  destruct (decide (im_Type x' = im_Type x /\ Z.to_nat (im_IndexPerType x') = n)) as [[Et' En']|Hne];
  [ assert (x = x') as <- by (eapply slot_unique; [exact Hx|exact Hx'|congruence|rewrite En', En; apply Nat2Z.id]);
    unfold slot; rewrite Et; split_and!; try done; intros _; cbn; rewrite En, Nat2Z.id
  | destruct Hk' as [Hk'|Hk'%list_elem_of_singleton];
    [ match goal with H8 : forall k x, k ∈ done -> _ |- _ => destruct (H8 k' x' Hk' Hx') as (S1 & S2 & S3 & S4) end;
      split_and!; try done; intros E'; cbn;
      (rewrite list_lookup_insert_ne by (intros Eq; apply Hne; split; [congruence|done])); auto
    | subst k'; rewrite Hx in Hx'; injection Hx' as <-; destruct Hne; by rewrite En, Nat2Z.id ] ].
Lemma linking_function mi' g : im_Type x = ExternTypeFunc -> function_has T m (im_DescFunc x) (Some (foreign mi' g)) ->
  linking h (set_functions mi (<[Z.to_nat (im_IndexPerType x) := Some (foreign mi' g)]> (functions mi))) (done ++ [k]).
Proof.
  intros Et Hf. destruct (index_lt _ _ Hx) as (n & En & _ & Hn & _). destruct (Hn Et) as [Hn1 Hn2]. rewrite En, Nat2Z.id.
  destruct Hlk as [H1 H2 H3 H4 H5 H6 H7 Hmp H8]. split; try done; cbn.
  - by rewrite length_insert.
  - intros j Hj. rewrite list_lookup_insert_ne by lia. by apply H7.
  - fill_slot Et n En. exists mi', g. split; [|done]. apply list_lookup_insert_eq. lia.
Qed.
Lemma linking_global p : im_Type x = ExternTypeGlobal -> global_has h (im_DescGlobal x) p ->
  linking h (set_Globals mi (<[Z.to_nat (im_IndexPerType x) := p]> (Globals mi))) (done ++ [k]).
Proof.
  intros Et Hf. destruct (index_lt _ _ Hx) as (n & En & _ & _ & Hn & _). specialize (Hn Et). rewrite En, Nat2Z.id.
  destruct Hlk as [H1 H2 H3 H4 H5 H6 H7 Hmp H8]. split; try done; cbn; [by rewrite length_insert|].
  fill_slot Et n En. exists p. split; [|done]. apply list_lookup_insert_eq. lia.
Qed.
Lemma linking_table p : im_Type x = ExternTypeTable -> table_has h (im_DescTable x) p ->
  linking h (set_Tables mi (<[Z.to_nat (im_IndexPerType x) := p]> (Tables mi))) (done ++ [k]).
Proof.
  intros Et Hf. destruct (index_lt _ _ Hx) as (n & En & _ & _ & _ & Hn). specialize (Hn Et). rewrite En, Nat2Z.id.
  destruct Hlk as [H1 H2 H3 H4 H5 H6 H7 Hmp H8]. split; try done; cbn; [by rewrite length_insert|].
  fill_slot Et n En. exists p. split; [|done]. apply list_lookup_insert_eq. lia.
Qed.
Lemma linking_memory p : im_Type x = ExternTypeMemory -> memory_linked m h p -> linking h (set_MemoryPtr mi p) (done ++ [k]).
Proof.
  intros Et Hm. destruct Hlk as [H1 H2 H3 H4 H5 H6 H7 Hmp H8].
  split; cbn [Source TypeIDs ModuleName functions Globals Tables set_MemoryPtr]; try done.
  { cbn. intros a Ha. destruct Hm as (decl & _ & a' & mem & E & Hmem & _). exists mem. congruence. }
  intros k' x' Hk' Hx'. apply elem_of_app in Hk' as [Hk'|Hk'%list_elem_of_singleton].
  - destruct (H8 k' x' Hk' Hx') as (S1 & S2 & S3 & S4). split_and!; try done.
  - subst k'. rewrite Hx in Hx'. injection Hx' as <-. unfold slot. rewrite Et. split_and!; done.
Qed.
End one.

Lemma function_type_eq ft ft' : type_ok ft -> type_ok ft' -> ft_Params ft = ft_Params ft' -> ft_Results ft = ft_Results ft' -> ft = ft'.
Proof. destruct ft, ft'. unfold type_ok. cbn. intros (_ & _ & ->) (_ & _ & ->) -> ->. done. Qed.

Lemma pages_bytes n bytes : 0 <= bytes -> n <= memoryBytesNumToPages bytes -> n * WasmMemory.MemoryPageSize <= bytes.
Proof.
  unfold memoryBytesNumToPages, WasmMemory.MemoryPageSize, WasmMemory.MemoryPageSizeInBits.
  rewrite Z.shiftr_div_pow2 by lia. change (2 ^ 16) with 65536. intros Hb Hn.
  pose proof (Z.div_mod bytes 65536). pose proof (Z.mod_pos_bound bytes 65536). pose proof (FuncTotal.u32_le (bytes / 65536) ltac:(apply Z.div_pos; lia)). lia.
Qed.

Section resolve.
Context (h : heap) (mi : ModuleInstance) (done : list nat) (k : nat) (x : Import) (imported : ModuleInstance) (exp : Export).
Hypothesis Hlk : linking h mi done.
Hypothesis Hx : ImportSection m !! k = Some x.
Hypothesis Himp : inst_ok T h imported.
Notation Q := (fun mi' h' => linking h' mi' (done ++ [k])).
Hypothesis Hexp : getExport imported (im_Name x) (im_Type x) = Ok exp.

Lemma export_found : ex_Type exp = im_Type x /\ exists j, Exports (Source imported) !! im_Name x = Some j /\
  ExportSection (Source imported) !! j = Some exp.
Proof.
  pose proof Hexp as H. unfold getExport in H. destruct (Exports (Source imported) !! im_Name x) as [j|]; [|done].
  destruct (ExportSection (Source imported) !! j) as [e|] eqn:Ee; [|done].
  destruct (Z.eqb_spec (ex_Type e) (im_Type x)) as [E|]; [|done]. injection H as <-. split; [done|]. by exists j.
Qed.
Lemma resolveFunction_ok : im_Type x = ExternTypeFunc -> wp (resolveFunction foreign mi x imported exp) h Q.
Proof.
  intros Et. destruct export_found as (Ee & j & Hj & He). destruct Himp as (fe & li & d' & Hac' & Hl' & _).
  destruct (export_index _ _ _ _ Hac' _ _ _ Hj He) as (Hidx & _). specialize (Hidx (eq_trans Ee Et)).
  destruct (lookup_lt_is_Some_2 (d_functions d') (Z.to_nat (ex_Index exp))) as [ti' Hti']; [unfold len in Hidx; lia|].
  destruct (typeOfFunction_ok _ _ _ _ Hac' _ _ Hti') as (ft' & Hft' & Hty). rewrite Z2Nat.id in Hty by lia.
  destruct (index_lt _ _ Hx) as (n & En & Hn & Hlt & _). destruct (Hlt Et) as [Hn1 Hn2].
  assert (d_functions d !! n = Some (im_DescFunc x)) as Hdx.
  { destruct (declared _ _ (ac_decl _ _ _ _ Hac)) as (-> & _). apply lookup_app_l_Some. rewrite list_lookup_fmap, <-Et, Hn. done. }
  destruct (typeOfFunction_ok _ _ _ _ Hac _ _ Hdx) as (ft & Hft & _).
  unfold resolveFunction. apply wp_bind. rewrite (lk_source _ _ _ Hlk). eapply wp_at; [exact Hft|]. intros _. rewrite Hty.
  destruct (EqualsSignature _ _ _) eqn:Es; [|by apply wp_fail].
  unfold EqualsSignature in Es. apply andb_true_iff in Es as [Ep%bool_decide_eq_true Er%bool_decide_eq_true].
  assert (ft' = ft) as ->.
  { apply function_type_eq; [..|done|done].
    - apply (Forall_lookup_1 _ _ _ _ (mo_types _ _ _ (ac_ok _ _ _ _ Hac')) Hft').
    - apply (Forall_lookup_1 _ _ _ _ (mo_types _ _ _ (ac_ok _ _ _ _ Hac)) Hft). }
  destruct (Forall2_lookup_r _ _ _ _ _ (li_functions _ _ _ _ Hl') Hti') as (f & Hf & g & ft1 & -> & Hft1 & Eg & HT).
  rewrite Hft' in Hft1. injection Hft1 as <-. unfold ResolveImportedFunction. apply wp_bind. eapply wp_at; [exact Hf|]. intros _.
  destruct (lookup_lt_is_Some_2 (functions mi) n) as [old Hold]; [by rewrite (lk_functions _ _ _ Hlk)|].
  apply wp_bind. eapply wp_at; [rewrite En, Nat2Z.id; exact Hold|]. intros _. apply wp_ret. cbn.
  apply linking_function; try done. exists (foreign imported g), ft. destruct (Hforeign imported g) as [E1 E2].
  split_and!; try done; [congruence|]. by rewrite E2.
Qed.
Lemma resolveTable_ok : im_Type x = ExternTypeTable -> wp (resolveTable mi x imported exp) h Q.
Proof.
  intros Et. destruct export_found as (Ee & j & Hj & He). destruct Himp as (fe & li & d' & Hac' & Hl' & Hinv).
  destruct (export_index _ _ _ _ Hac' _ _ _ Hj He) as (_ & _ & Hidx & _). specialize (Hidx (eq_trans Ee Et)).
  destruct (lookup_lt_is_Some_2 (d_tables d') (Z.to_nat (ex_Index exp))) as [tb Htb]; [unfold len in Hidx; lia|].
  destruct (Forall2_lookup_r _ _ _ _ _ (li_tables _ _ _ _ Hl') Htb) as (p & Hp & a & t & -> & Ht & _).
  destruct (index_lt _ _ Hx) as (n & En & Hn & _ & _ & Hlt). specialize (Hlt Et).
  unfold resolveTable. apply wp_bind. eapply wp_at; [exact Hp|]. intros _. apply wp_bind. eapply wp_deref; [exact Ht|]. intros _.
  destruct (tableMismatch (im_DescTable x) t) eqn:Em; [by apply wp_fail|].
  destruct (lookup_lt_is_Some_2 (Tables mi) n) as [old Hold]; [by rewrite (lk_tables _ _ _ Hlk)|].
  apply wp_bind. eapply wp_at; [rewrite En, Nat2Z.id; exact Hold|]. intros _.
  rewrite bool_decide_false by (eapply (Forall_lookup_1 _ _ _ _ Hinv He); [congruence|exact Hp|exact Ht]).
  apply wp_bind. eapply wp_set_table; [exact Ht| |].
  { split_and!; try done. intros _. cbn. by destruct (ti_involving t). }
  intros h' Hle Ht' _. apply wp_ret. apply linking_table; [by eapply linking_le|done|done|].
  exists a, (involve t (ModuleName mi)). done.
Qed.
Lemma resolveMemory_ok : im_Type x = ExternTypeMemory -> wp (resolveMemory mi x imported) h Q.
Proof.
  intros Et. destruct export_found as (Ee & j & Hj & He). destruct Himp as (fe & li & d' & Hac' & Hl' & _).
  destruct (export_index _ _ _ _ Hac' _ _ _ Hj He) as (_ & _ & _ & Hm). specialize (Hm (eq_trans Ee Et)).
  destruct (linked_memory _ _ _ _ Hl' Hm) as (a & mem & Ep & Hmem).
  pose proof (io_each _ _ _ _ _ _ _ _ (mo_imports _ _ _ (ac_ok _ _ _ _ Hac))) as Hio.
  destruct (Forall_lookup_1 _ _ _ _ Hio Hx) as (_ & _ & Hk). unfold resolveMemory. rewrite Ep.
  apply wp_bind. eapply wp_deref; [exact Hmem|]. intros _.
  destruct Hk as [[E _]|[[E _]|[(_ & me & Eme & _)|[E _]]]]; try (rewrite Et in E; discriminate E). rewrite Eme.
  apply wp_if; intros Emin; [by apply wp_fail|]. apply wp_if; intros Emax; [by apply wp_fail|]. apply wp_ret.
  apply linking_memory with x; [done..|]. exists me. split; [left; by exists k, x|]. exists a, mem.
  apply Z.ltb_ge in Emin, Emax. split_and!; [done..| |done]. apply pages_bytes; [apply len_nonneg|done].
Qed.
Lemma resolveGlobal_ok : im_Type x = ExternTypeGlobal -> wp (resolveGlobal mi x imported exp) h Q.
Proof.
  intros Et. destruct export_found as (Ee & j & Hj & He). destruct Himp as (fe & li & d' & Hac' & Hl' & _).
  destruct (export_index _ _ _ _ Hac' _ _ _ Hj He) as (_ & Hidx & _). specialize (Hidx (eq_trans Ee Et)).
  destruct (lookup_lt_is_Some_2 (d_globals d') (Z.to_nat (ex_Index exp))) as [gt Hgt]; [unfold len in Hidx; lia|].
  destruct (Forall2_lookup_r _ _ _ _ _ (li_globals _ _ _ _ Hl') Hgt) as (p & Hp & a & g & -> & Hg & Eg).
  destruct (index_lt _ _ Hx) as (n & En & Hn & _ & Hlt & _). specialize (Hlt Et).
  unfold resolveGlobal. cbv zeta. apply wp_bind. eapply wp_at; [exact Hp|]. intros _. apply wp_bind. eapply wp_deref; [exact Hg|]. intros _.
  apply wp_if; intros Em; [by apply wp_fail|]. apply wp_if; intros Ev; [by apply wp_fail|].
  destruct (lookup_lt_is_Some_2 (Globals mi) n) as [old Hold]; [by rewrite (lk_globals _ _ _ Hlk)|].
  apply wp_bind. eapply wp_at; [rewrite En, Nat2Z.id; exact Hold|]. intros _. apply wp_ret. apply linking_global; try done.
  exists a, g. split_and!; try done. apply negb_false_iff, Bool.eqb_prop in Em. apply negb_false_iff, Z.eqb_eq in Ev.
  destruct (gi_Type g), (im_DescGlobal x). cbn in *. by subst.
Qed.
End resolve.
Lemma resolveOne_ok h mi done k x imported : linking h mi done -> ImportSection m !! k = Some x -> inst_ok T h imported ->
  wp (resolveOne foreign imported mi x) h (fun mi' h' => linking h' mi' (done ++ [k])).
Proof.
  intros Hlk Hx Himp. unfold resolveOne. apply wp_bind, wp_lift.
  destruct (getExport imported (im_Name x) (im_Type x)) as [exp|e] eqn:Hexp.
  - intros _. apply wp_if; intros E1; [apply Z.eqb_eq in E1; by apply resolveFunction_ok|].
    apply wp_if; intros E2; [apply Z.eqb_eq in E2; by apply resolveTable_ok|].
    apply wp_if; intros E3; [apply Z.eqb_eq in E3; by eapply resolveMemory_ok|].
    apply wp_if; intros E4; [apply Z.eqb_eq in E4; by apply resolveGlobal_ok|].
    pose proof (io_each _ _ _ _ _ _ _ _ (mo_imports _ _ _ (ac_ok _ _ _ _ Hac))) as Hio.
    destruct (Forall_lookup_1 _ _ _ _ Hio Hx) as (_ & _ & [[E _]|[[E _]|[[E _]|[E _]]]]); rewrite E in *; done.
  - unfold getExport in Hexp. destruct Himp as (fe & li & d' & Hac' & _).
    destruct (Exports (Source imported) !! im_Name x) as [j|] eqn:Ej; [|by injection Hexp as <-].
    destruct (export_entry _ _ _ _ Hac' _ _ Ej) as [e' He']. rewrite He' in Hexp.
    destruct (_ =? _); [done|]. by injection Hexp as <-.
Qed.

(** *** All imports, in any order *)
Lemma positions_valid k0 name' l k : k ∈ positions k0 name' l -> (k0 <= k)%nat /\ is_Some (l !! (k - k0)%nat).
Proof.
  revert k0. induction l as [|i l IH]; intros k0 Hk; cbn [positions] in Hk; [by apply elem_of_nil in Hk|].
  apply elem_of_app in Hk as [Hk|Hk].
  - case_bool_decide; [|by apply elem_of_nil in Hk]. apply list_elem_of_singleton in Hk as ->. rewrite Nat.sub_diag. by split; [|eexists].
  - destruct (IH _ Hk) as [Hle [y Hy]]. split; [lia|]. exists y. replace (k - k0)%nat with (S (k - S k0)) by lia. done.
Qed.
Definition sources_ok (s : Store) (h : heap) : Prop :=
  store_inv T h s /\ forall name' v, resolveImport name' = Some v -> inst_ok T h v.
Lemma sources_ok_le s h h' : heap_le h h' -> sources_ok s h -> sources_ok s h'.
Proof.
  intros Hle [Hs Hr]. split; [by eapply store_inv_le|]. intros n v Hv. by eapply inst_ok_le, Hr.
Qed.
Lemma importedModule_ok s name' h : sources_ok s h -> wp (importedModule resolveImport s name') h (fun v h' => h' = h /\ inst_ok T h v).
Proof.
  intros [Hs Hr]. unfold importedModule. destruct (resolveImport name') as [v|] eqn:Ev; [apply wp_ret; split; [done|by apply (Hr name')]|].
  apply wp_lift. unfold module. destruct (nameToModule s) as [names|] eqn:En; [|done].
  destruct (names !! name') as [v|] eqn:Ev'; [|done]. split; [done|]. by eapply Hs.
Qed.
Definition groups_ok (order : list (gostring * list nat)) : Prop := order ≡ₚ map_to_list (ImportPerModule m).
Lemma resolveImports_ok s order mi h : groups_ok order -> sources_ok s h -> linking h mi [] ->
  wp (resolveImports foreign resolveImport s order mi) h (fun mi' h' => linking h' mi' (concat (snd <$> order))).
Proof.
  intros Hord Hs Hlk. unfold resolveImports.
  eapply wp_mono; [eapply (wp_foldM _ (fun gs mi h => linking h mi (concat (snd <$> gs)) /\ sources_ok s h)); [done|]|by intros ? ? _ []].
  clear mi h Hlk Hs. intros gs mi h [name' l] rest Eo [Hlk Hs]. apply wp_bind.
  eapply wp_mono; [by apply importedModule_ok|]. intros v h' _ [-> Hv] _.
  assert (forall k, k ∈ l -> exists x, ImportSection m !! k = Some x) as Hl.
  { intros k Hk. assert ((name', l) ∈ order) as Hin by (rewrite Eo; apply elem_of_app; right; apply list_elem_of_here).
    unfold groups_ok in Hord. rewrite Hord in Hin. apply elem_of_map_to_list in Hin.
    pose proof (io_module _ _ _ _ _ _ _ _ (mo_imports _ _ _ (ac_ok _ _ _ _ Hac)) name') as Hp. rewrite Hin in Hp. cbn in Hp.
    rewrite Hp in Hk. destruct (positions_valid _ _ _ _ Hk) as [_ [x Hx]]. rewrite Nat.sub_0_r in Hx. by exists x. }
  rewrite fmap_app, concat_app. cbn [fmap list_fmap snd concat]. rewrite app_nil_r.
  eapply wp_mono; [eapply (wp_foldM _ (fun ks mi h => linking h mi (concat (snd <$> gs) ++ ks) /\ sources_ok s h /\ inst_ok T h v))|].
  - by rewrite app_nil_r.
  - clear mi h Hlk Hs Hv. intros ks mi h k ks' El (Hlk & Hs & Hv).
    destruct (Hl k) as [x Hx]; [rewrite El; apply elem_of_app; right; apply list_elem_of_here|].
    apply wp_bind. rewrite (lk_source _ _ _ Hlk). eapply wp_at; [rewrite Nat2Z.id; exact Hx|]. intros _.
    eapply wp_mono; [by eapply resolveOne_ok|]. intros mi' h' Hle Hlk'. rewrite app_assoc. split_and!; [done|by eapply sources_ok_le|].
    by eapply inst_ok_le.
  - intros mi' h' _ (Hlk' & Hs' & _). done.
Qed.
(** Every slot is filled when all groups are resolved. *)
Definition resolved (h : heap) (mi : ModuleInstance) : Prop := linking h mi (seq 0 (length (ImportSection m))).
Lemma all_resolved h mi order : groups_ok order -> linking h mi (concat (snd <$> order)) -> resolved h mi.
Proof.
  intros Hord [H1 H2 H3 H4 H5 H6 H7 Hmp H8]. split; try done. intros k x _ Hx. apply (H8 k x); [|done].
  destruct (import_grouped _ _ _ _ Hac _ _ Hx) as (l & Hl & Hk). apply elem_of_map_to_list in Hl.
  unfold groups_ok in Hord. rewrite <-Hord in Hl.
  apply list_elem_of_In, in_concat. exists l. split; [|by apply list_elem_of_In].
  apply list_elem_of_In, list_elem_of_fmap. by exists (im_Module x, l).
Qed.
Lemma resolved_le h h' mi : heap_le h h' -> resolved h mi -> resolved h' mi.
Proof. apply linking_le. Qed.
Lemma resolved_slot h mi t n x : resolved h mi -> imports_of t m !! n = Some x -> im_Type x = t /\ im_IndexPerType x = Z.of_nat n /\ slot h mi x.
Proof.
  intros Hr Hn. destruct (slot_import _ _ _ _ Hac _ _ _ Hn) as (i & Hi & Et & En). split_and!; [done..|].
  apply (lk_slots _ _ _ Hr i x); [|done]. apply elem_of_seq. apply lookup_lt_Some in Hi. lia.
Qed.

(** ** Tables, globals and memory of the module *)
Notation ntables := (length (imports_of ExternTypeTable m)).
Notation nglobals := (length (imports_of ExternTypeGlobal m)).
Lemma linking_own_table h mi done n p : linking h mi done -> (ntables <= n)%nat ->
  linking h (set_Tables mi (<[n := p]> (Tables mi))) done.
Proof.
  intros [H1 H2 H3 H4 H5 H6 H7 Hmp H8] Hn. split; try done; cbn; [by rewrite length_insert|].
  intros k x Hk Hx. destruct (H8 k x Hk Hx) as (S1 & S2 & S3 & S4). split_and!; try done. intros Et. cbn.
  destruct (import_slot _ _ _ _ Hac _ _ Hx) as (i & Ei & Hi). rewrite Et in Hi. apply lookup_lt_Some in Hi.
  rewrite list_lookup_insert_ne by (rewrite Ei, Nat2Z.id; lia). by apply S3.
Qed.
Lemma linking_own_global h mi done n p : linking h mi done -> (nglobals <= n)%nat ->
  linking h (set_Globals mi (<[n := p]> (Globals mi))) done.
Proof.
  intros [H1 H2 H3 H4 H5 H6 H7 Hmp H8] Hn. split; try done; cbn; [by rewrite length_insert|].
  intros k x Hk Hx. destruct (H8 k x Hk Hx) as (S1 & S2 & S3 & S4). split_and!; try done. intros Et. cbn.
  destruct (import_slot _ _ _ _ Hac _ _ Hx) as (i & Ei & Hi). rewrite Et in Hi. apply lookup_lt_Some in Hi.
  rewrite list_lookup_insert_ne by (rewrite Ei, Nat2Z.id; lia). by apply S2.
Qed.

(** The first [nt] tables and [ng] globals of the module are built. *)
Record built (h : heap) (mi : ModuleInstance) (nt ng : nat) : Prop := {
  bt_resolved : resolved h mi;
  bt_tables : forall i tb, (i < nt)%nat -> TableSection m !! i = Some tb ->
    exists p, Tables mi !! (ntables + i)%nat = Some p /\ table_has h tb p;
  bt_globals : forall i g, (i < ng)%nat -> GlobalSection m !! i = Some g ->
    exists p, Globals mi !! (nglobals + i)%nat = Some p /\ global_has h (gl_Type g) p }.
Lemma built_le h h' mi nt ng : heap_le h h' -> built h mi nt ng -> built h' mi nt ng.
Proof.
  intros Hle [Hr Ht Hg]. split; [by eapply resolved_le| |].
  - intros i tb Hi Htb. destruct (Ht i tb Hi Htb) as (p & Hp & Hh). exists p. split; [done|]. by eapply table_has_le.
  - intros i g Hi Hgi. destruct (Hg i g Hi Hgi) as (p & Hp & Hh). exists p. split; [done|]. by eapply global_has_le.
Qed.
Lemma built_none h mi : resolved h mi -> built h mi 0 0.
Proof. intros Hr. split; [done|lia..]. Qed.
Lemma section_lens : length (d_tables d) = (ntables + length (TableSection m))%nat /\
  length (d_globals d) = (nglobals + length (GlobalSection m))%nat /\
  ImportTableCount m = Z.of_nat ntables /\ ImportGlobalCount m = Z.of_nat nglobals /\ ImportFunctionCount m = Z.of_nat nfuncs.
Proof.
  destruct (declared _ _ (ac_decl _ _ _ _ Hac)) as (_ & -> & ->). destruct (import_counts _ _ _ _ Hac) as (-> & -> & ->).
  rewrite !length_app, !length_fmap. done.
Qed.
(** The index of an own entry does not wrap. *)
Lemma own_index t (n i : nat) : (i < n)%nat -> Z.of_nat n + len (imports_of t m) < 2 ^ 32 ->
  Z.to_nat (u32 (len (imports_of t m) + Z.of_nat i)) = (length (imports_of t m) + i)%nat.
Proof. intros Hi Hn. unfold u32. rewrite wrapu_small; unfold in_u, len in *; lia. Qed.
Lemma small_sections : len (TableSection m) + len (imports_of ExternTypeTable m) < 2 ^ 32 /\
  len (GlobalSection m) + len (imports_of ExternTypeGlobal m) < 2 ^ 32.
Proof.
  pose proof (ac_fits _ _ _ _ Hac). pose proof (imports_of_len m ExternTypeTable). pose proof (imports_of_len m ExternTypeGlobal).
  pose proof (len_nonneg (FunctionSection m)). pose proof (len_nonneg (GlobalSection m)).
  pose proof (len_nonneg (TableSection m)). pose proof (len_nonneg (TypeSection m)). lia.
Qed.

Lemma buildTable_ok h mi i tb : built h mi i 0 -> TableSection m !! i = Some tb ->
  wp (buildTable (ImportTableCount (Source mi)) mi i tb) h (fun mi' h' => built h' mi' (S i) 0).
Proof.
  intros Hb Htb. pose proof (bt_resolved _ _ _ _ Hb) as Hr. rewrite (lk_source _ _ _ Hr).
  destruct section_lens as (Lt & _ & Ec & _). destruct small_sections as [Hs _]. pose proof (lookup_lt_Some _ _ _ Htb) as Hi.
  assert (Z.to_nat (u32 (ImportTableCount m + Z.of_nat i)) = (ntables + i)%nat) as Ei.
  { rewrite Ec. by apply (own_index _ (length (TableSection m))). }
  unfold buildTable. rewrite Ei. set (t := mkTableInstance _ _ _ _ _).
  apply wp_bind, wp_new_table. intros Hle. set (h' := mkHeap _ _ _ _) in *.
  destruct (lookup_lt_is_Some_2 (Tables mi) (ntables + i)) as [old Hold]; [rewrite (lk_tables _ _ _ Hr); lia|].
  apply wp_bind. eapply wp_at; [rewrite Ei; exact Hold|]. intros _. apply wp_ret.
  apply (built_le _ _ _ _ _ Hle) in Hb as [Hr' Ht Hg]. split; [apply linking_own_table; [done|lia]| |lia].
  intros j tb' Hj Htb'. cbn [Tables set_Tables]. destruct (decide (j = i)) as [->|Hne].
  - rewrite Htb in Htb'. injection Htb' as <-. exists (Some (length (h_tables h))). split; [apply list_lookup_insert_eq; rewrite (lk_tables _ _ _ Hr); lia|].
    exists (length (h_tables h)), t. split_and!; [done|unfold h'; cbn; by rewrite lookup_app_r, Nat.sub_diag|].
    unfold tableMismatch, t. cbn. rewrite Z.eqb_refl, Z.ltb_irrefl. destruct (tb_Max tb); [by rewrite Z.ltb_irrefl|done].
  - rewrite list_lookup_insert_ne by lia. apply Ht; [lia|done].
Qed.
Lemma imap_pair_split {A} (l : list A) ks i x rest : imap pair l = ks ++ (i, x) :: rest -> i = length ks /\ l !! i = Some x.
Proof.
  intros E. assert (imap pair l !! length ks = Some (i, x)) as H by (rewrite E; by apply list_lookup_middle).
  rewrite list_lookup_imap in H. apply fmap_Some in H as (y & Hy & [= -> ->]). done.
Qed.
Lemma buildTables_ok h mi : resolved h mi -> wp (buildTables true mi) h (fun mi' h' => built h' mi' (length (TableSection m)) 0).
Proof.
  intros Hr. unfold buildTables. apply wp_bind. rewrite (lk_source _ _ _ Hr).
  eapply wp_mono; [eapply (wp_foldM _ (fun ks mi h => built h mi (length ks) 0))|].
  - by apply built_none.
  - clear h mi Hr. intros ks mi h [i tb] rest El Hb. rewrite length_app, Nat.add_1_r.
    apply imap_pair_split in El as [-> Htb]. by apply buildTable_ok.
  - intros mi' h' _ Hb _. rewrite length_imap in Hb. by apply wp_ret.
Qed.

(** *** Constant expressions *)
Lemma imported_global h mi n : resolved h mi -> (n < nglobals)%nat ->
  exists gt p, (im_DescGlobal <$> imports_of ExternTypeGlobal m) !! n = Some gt /\ Globals mi !! n = Some p /\ global_has h gt p.
Proof.
  intros Hr Hn. destruct (lookup_lt_is_Some_2 _ _ Hn) as [x Hx]. destruct (resolved_slot _ _ _ _ _ Hr Hx) as (Et & En & _ & S2 & _).
  destruct (S2 Et) as (p & Hp & Hg). rewrite En, Nat2Z.id in Hp. exists (im_DescGlobal x), p. split_and!; try done.
  by rewrite list_lookup_fmap, Hx.
Qed.
(** An index that was validated against the imported globals. *)
Lemma wp_importedGlobal h mi data (Q : GlobalInstance -> heap -> Prop) : resolved h mi ->
  loaded (Leb128.LoadUint32 data) < ImportGlobalCount m -> (forall g, Q g h) ->
  wp (globalAt (take (Z.to_nat (ImportGlobalCount m)) (Globals mi)) (loaded (Leb128.LoadUint32 data))) h Q /\
  wp (globalAt (Globals mi) (loaded (Leb128.LoadUint32 data))) h Q.
Proof.
  intros Hr Hlt HQ. destruct section_lens as (_ & _ & _ & Ec & _). rewrite Ec in *.
  assert (0 <= loaded (Leb128.LoadUint32 data)) as Hpos.
  { unfold loaded. destruct (Leb128.LoadUint32 data) as [[v k]|] eqn:E; [|done]. by apply Leb128.LoadUint32_range in E as [? _]. }
  set (v := loaded _) in *. destruct (imported_global h mi (Z.to_nat v) Hr ltac:(lia)) as (gt & p & _ & Hp & Hg).
  split; eapply wp_globalAt; try exact Hg; try (intros; apply HQ); [|exact Hp].
  rewrite lookup_take_lt by lia. exact Hp.
Qed.
Notation nfunctions := (u32 (len (d_functions d))).
Lemma wp_reference h mi i (Q : Z -> heap -> Prop) : resolved h mi -> i < len (d_functions d) -> 0 < len (d_functions d) ->
  (forall r, Q r h) -> wp (FunctionInstanceReference address mi i) h Q.
Proof.
  intros Hr Hi H0 HQ. unfold FunctionInstanceReference. apply wp_bind.
  destruct (lookup_lt_is_Some_2 (functions mi) (Z.to_nat i)) as [f Hf].
  { rewrite (lk_functions _ _ _ Hr). unfold len in *. lia. }
  eapply wp_at; [exact Hf|]. intros _. apply wp_ret. apply HQ.
Qed.
Lemma wp_littleEndian n off data h (Q : Z -> heap -> Prop) : (off + n <= length data)%nat -> (forall v, Q v h) ->
  wp (littleEndian n off data) h Q.
Proof.
  intros Hl HQ. unfold littleEndian. destruct (Nat.ltb_spec (length data) (off + n)); [lia|]. by apply wp_ret.
Qed.
Section const.
Context (h : heap) (mi : ModuleInstance) (e : ConstantExpression) (t : Z).
Hypothesis Hr : resolved h mi.
Lemma const_index gs n : WasmModule.validateConstExpression gs n e t = Ok tt -> len gs <= ImportGlobalCount m ->
  ce_Opcode e = OpcodeGlobalGet -> loaded (Leb128.LoadUint32 (ce_Data e)) < ImportGlobalCount m.
Proof.
  intros Hv Hl Eo. unfold WasmModule.validateConstExpression in Hv. cbv zeta in Hv. rewrite Eo in Hv. cbn [Z.eqb OpcodeGlobalGet OpcodeI32Const OpcodeI64Const OpcodeF32Const OpcodeF64Const] in Hv.
  destruct (Leb128.LoadUint32 (ce_Data e)) as [[v k]|]; [|done]. cbn [map_err loaded] in *.
  pose proof (FuncTotal.u32_le (len gs) (len_nonneg gs)). destruct (Z.leb_spec (u32 (len gs)) v); [done|lia].
Qed.
Lemma executeConst_ok gs n : WasmModule.validateConstExpression gs n e t = Ok tt -> len gs <= ImportGlobalCount m ->
  wp (executeConstExpressionI32 (Globals mi) e) h (fun _ h' => h' = h).
Proof.
  intros Hv Hl. unfold executeConstExpressionI32. apply wp_if; intros E1; [by apply wp_ret|].
  apply wp_if; intros E2; [|by apply wp_ret]. apply Z.eqb_eq in E2. apply wp_bind.
  eapply wp_importedGlobal; [done|by eapply const_index|]. intros g _. by apply wp_ret.
Qed.
Lemma initialize_ok gs : WasmModule.validateConstExpression gs nfunctions e t = Ok tt -> len gs <= ImportGlobalCount m ->
  wp (initialize address mi (take (Z.to_nat (ImportGlobalCount m)) (Globals mi)) e) h (fun _ h' => h' = h).
Proof.
  intros Hv Hl. pose proof (const_index _ _ Hv Hl) as Hidx. unfold WasmModule.validateConstExpression in Hv. cbv zeta in Hv.
  unfold initialize. cbv zeta. destruct (ce_Opcode e =? OpcodeI32Const); [by apply wp_ret|].
  destruct (ce_Opcode e =? OpcodeI64Const); [by apply wp_ret|].
  destruct (ce_Opcode e =? OpcodeF32Const).
  { apply wp_bind, wp_littleEndian; [|intros; by apply wp_ret].
    destruct (Z.ltb_spec (len (ce_Data e)) 4); [done|]. unfold len in *. lia. }
  destruct (ce_Opcode e =? OpcodeF64Const).
  { apply wp_bind, wp_littleEndian; [|intros; by apply wp_ret].
    destruct (Z.ltb_spec (len (ce_Data e)) 8); [done|]. unfold len in *. lia. }
  destruct (Z.eqb_spec (ce_Opcode e) OpcodeGlobalGet) as [Eo|_].
  { apply wp_bind. eapply wp_importedGlobal; [done|by apply Hidx|]. intros g _. repeat (apply wp_if; intros _); by apply wp_ret. }
  destruct (ce_Opcode e =? OpcodeRefNull).
  { destruct (ce_Data e) as [|b data]; [done|]. apply wp_bind. eapply wp_at; [reflexivity|]. intros _. by apply wp_ret. }
  destruct (ce_Opcode e =? OpcodeRefFunc).
  { destruct (Leb128.LoadUint32 (ce_Data e)) as [[v k]|] eqn:El; [|done]. cbn [map_err loaded] in *.
    apply Leb128.LoadUint32_range in El as [Hpos _]. destruct (lens_u32 _ _ _ _ Hac) as (E & _). rewrite E in Hv.
    destruct (Z.leb_spec (len (d_functions d)) v); [done|]. apply wp_bind, wp_reference; [done|lia|lia|].
    intros r _. by apply wp_ret. }
  apply wp_if; intros Eo; [|by apply wp_ret]. rewrite Eo in Hv.
  destruct (Z.eqb_spec (len (ce_Data e)) 16) as [El|]; [|done].
  apply wp_bind, wp_littleEndian; [unfold len in El; lia|]. intros lo _.
  apply wp_bind, wp_littleEndian; [unfold len in El; lia|]. intros hi _. by apply wp_ret.
Qed.
End const.

(** *** The globals of the module *)
Lemma globals_validated i g : GlobalSection m !! i = Some g -> exists gs,
  WasmModule.validateConstExpression gs nfunctions (gl_Init g) (gt_ValType (gl_Type g)) = Ok tt /\ len gs <= ImportGlobalCount m.
Proof.
  intros Hg. destruct (Validate_parts _ _ _ _ Hac) as (_ & _ & Hv & _). unfold WasmModule.validateGlobals in Hv.
  destruct (_ <? _); [done|]. destruct (WasmModule.importedGlobals m (d_globals d)) as [gs|] eqn:Ei; [|done].
  exists gs. split; [exact (ValidationSpec.each_lookup _ _ _ _ Hv Hg)|].
  unfold WasmModule.importedGlobals in Ei. destruct (_ <? _); [done|]. injection Ei as <-.
  destruct (counts_nonneg _ _ _ _ Hac) as (_ & ? & _). unfold len. rewrite length_take. lia.
Qed.
Lemma buildGlobal_ok h mi nt i g : built h mi nt i -> GlobalSection m !! i = Some g ->
  wp (buildGlobal address mi i g) h (fun mi' h' => built h' mi' nt (S i)).
Proof.
  intros Hb Hg. pose proof (bt_resolved _ _ _ _ Hb) as Hr. unfold buildGlobal. cbv zeta. rewrite (lk_source _ _ _ Hr).
  destruct section_lens as (_ & Lg & _ & Ec & _). destruct small_sections as [_ Hs]. pose proof (lookup_lt_Some _ _ _ Hg) as Hi.
  assert (Z.to_nat (u32 (Z.of_nat i + ImportGlobalCount m)) = (nglobals + i)%nat) as Ei.
  { rewrite Ec, Z.add_comm. by apply (own_index _ (length (GlobalSection m))). }
  destruct (lookup_lt_is_Some_2 (Globals mi) (nglobals + i)) as [old Hold]; [rewrite (lk_globals _ _ _ Hr); lia|].
  apply wp_bind. eapply wp_at; [rewrite Ei; exact Hold|]. intros _. destruct (globals_validated _ _ Hg) as (gs & Hv & Hl).
  apply wp_bind. eapply wp_mono; [by eapply initialize_ok|]. intros [v hi] h1 _ -> _. set (gi := mkGlobalInstance _ _ _).
  apply wp_bind, wp_new_global. intros Hle. set (h' := mkHeap _ _ _ _) in *. apply wp_ret. rewrite Ei.
  apply (built_le _ _ _ _ _ Hle) in Hb as [Hr' Ht Hgl]. split; [apply linking_own_global; [done|lia]|done|].
  intros j g' Hj Hg'. cbn [Globals set_Globals]. destruct (decide (j = i)) as [->|Hne].
  - rewrite Hg in Hg'. injection Hg' as <-. exists (Some (length (h_globals h))).
    split; [apply list_lookup_insert_eq; rewrite (lk_globals _ _ _ Hr); lia|].
    exists (length (h_globals h)), gi. split_and!; [done|unfold h'; cbn; by rewrite lookup_app_r, Nat.sub_diag|done].
  - rewrite list_lookup_insert_ne by lia. apply Hgl; [lia|done].
Qed.
Lemma buildGlobals_ok h mi nt : built h mi nt 0 ->
  wp (buildGlobals address mi) h (fun mi' h' => built h' mi' nt (length (GlobalSection m))).
Proof.
  intros Hb. unfold buildGlobals. rewrite (lk_source _ _ _ (bt_resolved _ _ _ _ Hb)).
  eapply wp_mono; [eapply (wp_foldM _ (fun ks mi h => built h mi nt (length ks)))|].
  - done.
  - clear h mi Hb. intros ks mi h [i g] rest El Hb. rewrite length_app, Nat.add_1_r.
    apply imap_pair_split in El as [-> Hg]. by apply buildGlobal_ok.
  - intros mi' h' _ Hb'. by rewrite length_imap in Hb'.
Qed.

(** *** The memory *)
Hypothesis Hlimit : limit <= 65536.
Definition complete (h : heap) (mi : ModuleInstance) : Prop :=
  built h mi (length (TableSection m)) (length (GlobalSection m)) /\ (is_Some (MemorySection m) -> memory_linked m h (MemoryPtr mi)).
Lemma buildMemory_ok h mi : built h mi (length (TableSection m)) (length (GlobalSection m)) ->
  wp (buildMemory None mi) h (fun mi' h' => complete h' mi').
Proof.
  intros Hb. pose proof (bt_resolved _ _ _ _ Hb) as Hr. unfold buildMemory. rewrite (lk_source _ _ _ Hr).
  destruct (MemorySection m) as [sec|] eqn:Em; cycle 1.
  { apply wp_ret. split; [done|]. rewrite Em. by intros [? ?]. }
  destruct (mo_memory _ _ _ (ac_ok _ _ _ _ Hac) _ Em) as (H1 & H2 & _).
  destruct (WasmMemory.NewMemoryInstance_ok (WasmMemory.mkMemorySec (me_Min sec) (me_Cap sec) (me_Max sec) (me_IsShared sec)))
    as (mem & -> & _ & Hbuf & Hmax); [unfold WasmMemory.Memory_ok, WasmMemory.MemoryLimitPages; cbn; lia|].
  apply wp_bind, wp_new_memory. intros Hle. set (h' := mkHeap _ _ _ _) in *. apply wp_ret.
  apply (built_le _ _ _ _ _ Hle) in Hb as [Hr' Ht Hg].
  assert (memory_linked m h' (Some (length (h_memories h)))) as Hmem.
  { exists sec. split; [by right|]. exists (length (h_memories h)), mem. split_and!; [done|..].
    - unfold h'. cbn. by rewrite lookup_app_r, Nat.sub_diag.
    - rewrite Hbuf. cbn [WasmMemory.sec_Min]. unfold len. rewrite length_zeros. lia.
    - rewrite Hmax. done. }
  split; [|by intros _]. split; [|done|done]. destruct Hr' as [L1 L2 L3 L4 L5 L6 L7 Lmp L8]. split; try done.
  { intros a [= <-]. destruct Hmem as (decl & _ & a' & mem' & [= <-] & Hm' & _). by exists mem'. }
  intros k x Hk Hx. destruct (L8 k x Hk Hx) as (S1 & S2 & S3 & S4). by split_and!.
Qed.
Lemma complete_le h h' mi : heap_le h h' -> complete h mi -> complete h' mi.
Proof. intros Hle [Hb Hm]. split; [by eapply built_le|]. intros Hs. by eapply memory_linked_le, Hm. Qed.

(** ** A complete instance is linked *)
Hypothesis Hnumbered : numbered T m ids.
Hypothesis Hown : forall j ti, FunctionSection m !! j = Some ti -> exists f, own !! (nfuncs + j)%nat = Some f /\ function_has T m ti f.
Lemma declared_memory : is_Some (d_memory d) -> is_Some (MemorySection m) \/ exists k x, ImportSection m !! k = Some x /\ im_Type x = ExternTypeMemory.
Proof.
  pose proof (ac_decl _ _ _ _ Hac) as Hd. unfold AllDeclarations in Hd. cbv zeta in Hd.
  destruct (MemorySection m); [by left|]. injection Hd as <-. cbn [d_memory]. intros Hs. right.
  enough (forall l d0, is_Some (d_memory (fold_left WasmModule.declare_import l d0)) -> is_Some (d_memory d0) \/
    exists k x, l !! k = Some x /\ im_Type x = ExternTypeMemory) as H by (destruct (H _ _ Hs) as [[? ?]|?]; [done|done]).
  clear Hs. induction l as [|y l IH]; intros d0 Hs; [by left|]. cbn [fold_left] in Hs.
  destruct (IH _ Hs) as [H|(k & x & Hx & Ex)]; [|right; by exists (S k), x].
  unfold WasmModule.declare_import in H. destruct (im_Type y =? ExternTypeFunc); [by left|].
  destruct (im_Type y =? ExternTypeGlobal); [by left|].
  destruct (Z.eqb_spec (im_Type y) ExternTypeMemory) as [E|]; [right; by exists 0%nat, y|].
  by destruct (im_Type y =? ExternTypeTable); left.
Qed.
Lemma d_memory_fold l : forall d0, d_memory (fold_left WasmModule.declare_import l d0) =
  match last (filter (fun i => im_Type i = ExternTypeMemory) l) with Some x => im_DescMem x | None => d_memory d0 end.
Proof.
  induction l as [|y l IH]; intros d0; [done|]. cbn [fold_left]. rewrite IH, filter_cons.
  unfold WasmModule.declare_import. case_decide as E.
  - rewrite E. cbn. rewrite last_cons. by destruct (last (filter _ _)).
  - destruct (last (filter _ _)); [done|]. destruct (im_Type y =? ExternTypeFunc); [done|].
    destruct (im_Type y =? ExternTypeGlobal); [done|]. destruct (Z.eqb_spec (im_Type y) ExternTypeMemory); [done|].
    by destruct (im_Type y =? ExternTypeTable).
Qed.
(** With at most one imported memory the declaration is the one validated against. *)
Lemma declared_one decl decl' : d_memory d = Some decl -> declares_memory m decl' -> one_memory m -> decl' = decl.
Proof.
  intros Hdecl Hd' Hone. pose proof (ac_decl _ _ _ _ Hac) as Hd. unfold AllDeclarations in Hd. cbv zeta in Hd.
  rewrite d_memory_fold in Hd. fold (imports_of ExternTypeMemory m) in Hd.
  assert (forall k x, ImportSection m !! k = Some x -> im_Type x = ExternTypeMemory -> imports_of ExternTypeMemory m = [x]) as Himp.
  { intros k x Hx Et. assert (x ∈ imports_of ExternTypeMemory m) as Hin
      by (apply list_elem_of_filter; split; [done|by eapply list_elem_of_lookup_2]).
    unfold one_memory in Hone. destruct (imports_of ExternTypeMemory m) as [|y [|]]; [by apply elem_of_nil in Hin| |cbn in Hone; lia].
    by apply list_elem_of_singleton in Hin as ->. }
  destruct Hd' as [(k & x & Hx & Et & Ed)|Es].
  - rewrite (Himp k x Hx Et) in Hd. cbn [last] in Hd. rewrite Ed in Hd. destruct (MemorySection m); [done|].
    injection Hd as <-. cbn in Hdecl. congruence.
  - rewrite Es in Hd. destruct (match last _ with Some _ => _ | None => _ end); [done|]. injection Hd as <-. cbn in Hdecl. congruence.
Qed.
Lemma complete_linked h mi : complete h mi -> linked T h mi d.
Proof.
  intros [[Hr Ht Hg] Hm]. destruct (declared _ _ (ac_decl _ _ _ _ Hac)) as (Df & Dg & Dt).
  split; rewrite ?(lk_source _ _ _ Hr), ?(lk_ids _ _ _ Hr).
  - done.
  - apply Forall2_same_length_lookup_2; [apply Hr|]. intros i f ti Hf Hti. rewrite Df in Hti.
    apply lookup_app_Some in Hti as [Hti|[Hge Hti]].
    + rewrite list_lookup_fmap in Hti. apply fmap_Some in Hti as (x & Hx & ->).
      destruct (resolved_slot _ _ _ _ _ Hr Hx) as (Et & En & S1 & _). destruct (S1 Et) as (mi' & g & Hl & Hfn).
      rewrite En, Nat2Z.id, Hf in Hl. by injection Hl as ->.
    + rewrite length_fmap in Hge, Hti. rewrite (lk_own _ _ _ Hr) in Hf by done.
      destruct (Hown _ _ Hti) as (f' & Hf' & Hfn). replace (nfuncs + (i - nfuncs))%nat with i in Hf' by lia. congruence.
  - apply Forall2_same_length_lookup_2; [apply Hr|]. intros i p gt Hp Hgt. rewrite Dg in Hgt.
    apply lookup_app_Some in Hgt as [Hgt|[Hge Hgt]].
    + pose proof (lookup_lt_Some _ _ _ Hgt) as Hi. rewrite length_fmap in Hi.
      destruct (imported_global h mi i Hr Hi) as (gt' & p' & E1 & E2 & Hh). congruence.
    + rewrite length_fmap in Hge, Hgt. rewrite list_lookup_fmap in Hgt. apply fmap_Some in Hgt as (g & Hgi & ->).
      destruct (Hg _ _ (lookup_lt_Some _ _ _ Hgi) Hgi) as (p' & Hp' & Hh). replace (nglobals + (i - nglobals))%nat with i in Hp' by lia. congruence.
  - apply Forall2_same_length_lookup_2; [apply Hr|]. intros i p tb Hp Htb. rewrite Dt in Htb.
    apply lookup_app_Some in Htb as [Htb|[Hge Htb]].
    + rewrite list_lookup_fmap in Htb. apply fmap_Some in Htb as (x & Hx & ->).
      destruct (resolved_slot _ _ _ _ _ Hr Hx) as (Et & En & _ & _ & S3 & _). destruct (S3 Et) as (p' & Hl & Hh).
      rewrite En, Nat2Z.id in Hl. congruence.
    + rewrite length_fmap in Hge, Htb. destruct (Ht _ _ (lookup_lt_Some _ _ _ Htb) Htb) as (p' & Hp' & Hh).
      replace (ntables + (i - ntables))%nat with i in Hp' by lia. congruence.
  - intros decl Hs. assert (memory_linked m h (MemoryPtr mi)) as (decl' & Hd' & Hh).
    { destruct (declared_memory (mk_is_Some _ _ Hs)) as [Hsec|(k & x & Hx & Ex)]; [by apply Hm|].
      apply (lk_slots _ _ _ Hr k x); [|done..]. apply elem_of_seq. apply lookup_lt_Some in Hx. lia. }
    exists decl'. split_and!; [done..|]. by apply declared_one.
Qed.

(** ** Exports and segments *)
Lemma wp_own_table h mi i (Q : nat * TableInstance -> heap -> Prop) : complete h mi -> 0 <= i < len (d_tables d) ->
  (forall a t, Tables mi !! Z.to_nat i = Some (Some a) -> h_tables h !! a = Some t -> Q (a, t) h) -> wp (tableAt mi i) h Q.
Proof.
  intros Hc Hi HQ. pose proof (complete_linked _ _ Hc) as Hl.
  destruct (lookup_lt_is_Some_2 (d_tables d) (Z.to_nat i)) as [tb Htb]; [unfold len in Hi; lia|].
  destruct (Forall2_lookup_r _ _ _ _ _ (li_tables _ _ _ _ Hl) Htb) as (p & Hp & Hh).
  eapply wp_tableAt; [exact Hp|exact Hh|]. intros a t -> Ht _. by apply HQ.
Qed.
Lemma wp_anyGlobal h mi i (Q : GlobalInstance -> heap -> Prop) : complete h mi -> 0 <= i < len (d_globals d) ->
  (forall g, Q g h) -> wp (globalAt (Globals mi) i) h Q.
Proof.
  intros Hc Hi HQ. pose proof (complete_linked _ _ Hc) as Hl.
  destruct (lookup_lt_is_Some_2 (d_globals d) (Z.to_nat i)) as [gt Hgt]; [unfold len in Hi; lia|].
  destruct (Forall2_lookup_r _ _ _ _ _ (li_globals _ _ _ _ Hl) Hgt) as (p & Hp & Hh).
  eapply wp_globalAt; [exact Hp|exact Hh|]. intros g _. apply HQ.
Qed.
Lemma involveExports_ok h mi : complete h mi ->
  wp (involveExports mi) h (fun _ h' => complete h' mi /\ Forall (involved h' mi) (ExportSection m)).
Proof.
  intros Hc. unfold involveExports. pose proof (bt_resolved _ _ _ _ (proj1 Hc)) as Hr. rewrite (lk_source _ _ _ Hr).
  eapply wp_mono; [eapply (wp_foldM _ (fun ks _ h => complete h mi /\
    forall n k e, (n, k) ∈ ks -> ExportSection m !! k = Some e -> involved h mi e))|].
  - split; [done|]. intros n k e Hin. by apply elem_of_nil in Hin.
  - clear h Hc Hr. intros ks [] h [n k] rest El [Hc Hks].
    assert (Exports m !! n = Some k) as Hn.
    { apply elem_of_map_to_list. rewrite El. apply elem_of_app. right. apply list_elem_of_here. }
    destruct (export_entry _ _ _ _ Hac _ _ Hn) as [e He]. apply wp_bind. eapply wp_at; [rewrite Nat2Z.id; exact He|]. intros _.
    destruct (export_index _ _ _ _ Hac _ _ _ Hn He) as (_ & _ & Hidx & _).
    assert (forall h', heap_le h h' -> complete h' mi /\ forall n' k' e', (n', k') ∈ ks -> ExportSection m !! k' = Some e' -> involved h' mi e') as Hkeep.
    { intros h' Hle. split; [by eapply complete_le|]. intros n' k' e' Hin He'. eapply involved_le; [exact Hle|by apply complete_linked|]. by eapply Hks. }
    apply wp_if; intros Et; [apply Z.eqb_eq in Et|apply Z.eqb_neq in Et].
    + apply wp_bind. apply wp_own_table; [done|by apply Hidx|]. intros a t Ha Ht _.
      eapply wp_set_table; [exact Ht|by split_and!; try done; intros _; cbn; destruct (ti_involving t)|].
      intros h' Hle Ht'. destruct (Hkeep h' Hle) as [Hc' Hks']. split; [done|]. intros n' k' e' Hin He'.
      apply elem_of_app in Hin as [Hin|Hin%list_elem_of_singleton]; [by eapply Hks'|]. injection Hin as -> ->.
      rewrite He in He'. injection He' as <-. intros _ a' t' Ha' Ht''. rewrite Ha in Ha'. injection Ha' as <-.
      rewrite Ht' in Ht''. injection Ht'' as <-. cbn. by destruct (ti_involving t).
    + apply wp_ret. split; [done|]. intros n' k' e' Hin He'.
      apply elem_of_app in Hin as [Hin|Hin%list_elem_of_singleton]; [by eapply Hks|]. injection Hin as -> ->.
      rewrite He in He'. injection He' as <-. by intros ?.
  - intros [] h' _ [Hc' Hks]. split; [done|]. apply Forall_lookup. intros k e He.
    apply (Hks (ex_Name e) k e); [|done]. apply elem_of_map_to_list.
    apply (eo_map _ _ (mo_exports _ _ _ (ac_ok _ _ _ _ Hac))). by exists e.
Qed.

Record same_links (mi mi' : ModuleInstance) : Prop := {
  sl_source : Source mi' = Source mi; sl_ids : TypeIDs mi' = TypeIDs mi; sl_name : ModuleName mi' = ModuleName mi;
  sl_functions : functions mi' = functions mi; sl_globals : Globals mi' = Globals mi; sl_tables : Tables mi' = Tables mi;
  sl_memory : MemoryPtr mi' = MemoryPtr mi }.
Lemma complete_same h mi mi' : same_links mi mi' -> complete h mi -> complete h mi'.
Proof.
  intros [E1 E2 E3 E4 E5 E6 E7] [[Hr Ht Hg] Hm]. split; [|by rewrite E7]. split; rewrite ?E5, ?E6; try done.
  destruct Hr as [L1 L2 L3 L4 L5 L6 L7 Lmp L8]. split; rewrite ?E1, ?E2, ?E3, ?E4, ?E5, ?E6, ?E7; try done.
  intros k x Hk Hx. unfold slot. rewrite E4, E5, E6, E7. by apply (L8 k).
Qed.
Lemma involved_same h mi mi' e : Tables mi' = Tables mi -> involved h mi e -> involved h mi' e.
Proof. intros E. unfold involved. by rewrite E. Qed.

Lemma elementReference_ok h mi t i : complete h mi -> init_in_range d t i -> i <> ElementInitNullReference ->
  wp (elementReference address mi i) h (fun _ h' => h' = h).
Proof.
  intros Hc [Hi|Hi] Hn; [done|]. unfold elementReference. destruct (unwrapElementInitGlobalReference i) as [j []].
  - apply wp_bind, wp_anyGlobal; [done..|]. intros g _. by apply wp_ret.
  - destruct Hi as [_ Hi]. apply wp_reference; [apply Hc|lia|lia|done].
Qed.
Lemma passiveElement_ok h mi k e : complete h mi -> ElementSection m !! k = Some e ->
  wp (passiveElement address mi e) h (fun _ h' => h' = h).
Proof.
  intros Hc He. destruct (element_facts _ _ _ _ Hac _ _ He) as (Hin & _). unfold passiveElement.
  destruct (el_Mode e); [by apply wp_ret| |by apply wp_ret]. apply wp_if; intros _; [|by apply wp_ret].
  eapply wp_mono; [eapply (wp_foldM _ (fun _ _ h' => h' = h)); [done|]|by intros].
  intros ks l h' i rest El ->. rewrite El in Hin. apply Forall_app in Hin as [_ [Hi _]%Forall_cons].
  apply wp_if; intros E; [by apply wp_ret|]. apply wp_bind. eapply wp_mono; [eapply elementReference_ok; [done|exact Hi|]|].
  - intros ->. done.
  - intros r h' _ -> _. by apply wp_ret.
Qed.
Lemma buildElementInstances_ok h mi : complete h mi ->
  wp (buildElementInstances address mi) h (fun mi' h' => h' = h /\ same_links mi mi').
Proof.
  intros Hc. unfold buildElementInstances. apply wp_bind. rewrite (lk_source _ _ _ (bt_resolved _ _ _ _ (proj1 Hc))).
  eapply wp_mono; [eapply (wp_foldM _ (fun _ _ h' => h' = h)); [done|]|].
  - intros ks l h' e rest El ->. assert (ElementSection m !! length ks = Some e) as He by (rewrite El; by apply list_lookup_middle).
    apply wp_bind. eapply wp_mono; [by eapply passiveElement_ok|]. intros r h' _ -> _. by apply wp_ret.
  - intros es h' _ -> _. apply wp_ret. split; [done|]. by split.
Qed.

(** *** Data *)
Lemma data_validated k s : DataSection m !! k = Some s -> da_Passive s = false -> is_Some (d_memory d) /\ exists gs,
  WasmModule.validateConstExpression gs 0 (da_OffsetExpression s) ValueTypeI32 = Ok tt /\ len gs <= ImportGlobalCount m.
Proof.
  intros Hs Hp. destruct (Validate_parts _ _ _ _ Hac) as (_ & _ & _ & Hv & _). unfold WasmModule.validateMemory in Hv. cbv zeta in Hv.
  set (active := filter _ _) in Hv. assert (s ∈ active) as Hin.
  { apply list_elem_of_filter. split; [done|]. by eapply list_elem_of_lookup_2. }
  assert (0 < len active) as Hpos by (destruct active; [by apply elem_of_nil in Hin|rewrite len_cons; pose proof (len_nonneg active); lia]).
  destruct (Z.ltb_spec 0 (len active)); [|lia]. case_bool_decide as Hm; [|done]. split; [done|]. cbn [andb negb] in Hv.
  destruct (WasmModule.importedGlobals m (d_globals d)) as [gs|] eqn:Ei; [|done]. exists gs.
  apply each_Forall in Hv. rewrite Forall_forall in Hv. split; [by apply Hv|].
  unfold WasmModule.importedGlobals in Ei. destruct (_ <? _); [done|]. injection Ei as <-.
  destruct (counts_nonneg _ _ _ _ Hac) as (_ & ? & _). unfold len. rewrite length_take. lia.
Qed.
Lemma applyOneData_ok h mi k s : complete h mi -> DataSection m !! k = Some s ->
  wp (applyOneData mi k s) h (fun mi' h' => same_links mi mi' /\ complete h' mi').
Proof.
  intros Hc Hs. unfold applyOneData. cbv zeta. set (mi' := set_DataInstances _ _).
  assert (same_links mi mi') as Hsl by (by split). pose proof (complete_same _ _ _ Hsl Hc) as Hc'.
  apply wp_if; intros Hp; [by apply wp_ret|]. destruct (data_validated _ _ Hs Hp) as (Hm & gs & Hv & Hl).
  apply wp_bind. eapply wp_mono; [eapply executeConst_ok; [apply Hc'|exact Hv|done]|]. intros offset h' _ -> _.
  destruct (linked_memory _ _ _ _ (complete_linked _ _ Hc') Hm) as (a & mem & Ea & Hmem).
  apply wp_bind. unfold memoryAt. rewrite Ea. eapply wp_deref; [exact Hmem|]. intros _.
  apply wp_if; intros Eb; [by apply wp_fail|]. apply orb_false_iff in Eb as [E1%Z.ltb_ge E2%Z.ltb_ge].
  apply wp_bind. eapply wp_set_memory; [exact Hmem| |].
  { split_and!; try done. cbn. rewrite length_put; [done|]. unfold len in *. lia. }
  intros h' Hle _. apply wp_ret. split; [done|]. by eapply complete_le.
Qed.
Lemma applyData_ok h mi : complete h mi -> wp (applyData mi) h (fun mi' h' => same_links mi mi' /\ complete h' mi').
Proof.
  intros Hc. unfold applyData. rewrite (lk_source _ _ _ (bt_resolved _ _ _ _ (proj1 Hc))).
  eapply wp_mono; [eapply (wp_foldM _ (fun _ mi' h' => same_links mi mi' /\ complete h' mi'))|by intros ? ? _ ?].
  - assert (same_links mi (set_DataInstances mi (replicate (length (DataSection m)) []))) as Hsl by (by split).
    split; [done|]. by eapply complete_same.
  - intros ks mi' h' [k s] rest El [Hsl Hc']. apply imap_pair_split in El as [_ Hs].
    eapply wp_mono; [by eapply applyOneData_ok|]. intros mi2 h2 _ [Hsl2 Hc2]. split; [|done].
    destruct Hsl, Hsl2. split; congruence.
Qed.

(** *** Elements *)
Lemma elementOffset_ok h mi e : complete h mi ->
  (ce_Opcode e = OpcodeGlobalGet -> loaded (Leb128.LoadUint32 (ce_Data e)) < ImportGlobalCount m) ->
  wp (elementOffset mi e) h (fun o h' => h' = h /\ in_u 32 o).
Proof.
  intros Hc Hi. unfold elementOffset. apply wp_if; intros E.
  - apply Z.eqb_eq in E. apply wp_bind. eapply wp_importedGlobal; [apply Hc|by apply Hi|]. intros g _. apply wp_ret.
    split; [done|]. by apply wrapu_range.
  - apply wp_ret. split; [done|]. by apply wrapu_range.
Qed.
Lemma applyInit_ok h mi t offset refs k i : complete h mi -> init_in_range d t i -> in_u 32 offset ->
  offset + Z.of_nat k < len refs ->
  wp (applyInit address mi offset refs k i) h (fun refs' h' => h' = h /\ length refs' = length refs).
Proof.
  intros Hc Hi Ho Hlt. unfold applyInit. apply wp_if; intros E; [by apply wp_ret|]. apply Z.eqb_neq in E.
  apply wp_bind. eapply wp_mono; [by eapply elementReference_ok|]. intros r h' _ -> _.
  destruct (lookup_lt_is_Some_2 refs (Z.to_nat (u32 (offset + Z.of_nat k)))) as [x Hx].
  { destruct Ho. pose proof (FuncTotal.u32_le (offset + Z.of_nat k) ltac:(lia)). unfold len in Hlt. lia. }
  apply wp_bind. eapply wp_at; [exact Hx|]. intros _. apply wp_ret. split; [done|]. by rewrite length_insert.
Qed.
Lemma applyElement_ok h mi k e : complete h mi -> ElementSection m !! k = Some e ->
  wp (applyElement address mi e) h (fun _ h' => complete h' mi).
Proof.
  intros Hc He. destruct (element_facts _ _ _ _ Hac _ _ He) as (Hin & Hpos & Hact). unfold applyElement.
  destruct (el_Mode e) eqn:Em; [|by apply wp_ret..]. destruct (Hact eq_refl) as [Htab Hoff].
  destruct (el_Init e) as [|i0 il] eqn:Einit; [by apply wp_ret|]. rewrite <-Einit in *. clear i0 il Einit.
  apply wp_bind. eapply wp_mono; [by apply elementOffset_ok|]. intros offset h' _ [-> Ho] _.
  apply wp_bind. apply wp_own_table; [done|lia|]. intros a t Ha Ht _.
  apply wp_if; intros Eb; [by apply wp_ret|]. apply Z.ltb_ge in Eb.
  apply wp_if; intros _.
  - apply wp_bind. eapply wp_set_table; [exact Ht| |intros h' Hle _ _; apply wp_ret; by eapply complete_le].
    split_and!; try done. cbn. rewrite length_put; [done|]. rewrite length_zeros. unfold in_u, len in *. lia.
  - apply wp_bind. eapply wp_mono; [eapply (wp_foldM _ (fun _ refs h' => h' = h /\ length refs = length (ti_References t)))|].
    + done.
    + intros ks refs h' [j i] rest El [-> Hl]. apply imap_pair_split in El as [-> Hi].
      pose proof (lookup_lt_Some _ _ _ Hi) as Hj. eapply wp_mono; [eapply applyInit_ok; [done| |done|]|].
      * exact (Forall_lookup_1 _ _ _ _ Hin Hi).
      * unfold len in *. lia.
      * intros refs' h' _ [-> Hl']. split; [done|congruence].
    + intros refs h' _ [-> Hl] _. apply wp_bind. eapply wp_set_table; [exact Ht|by split_and!; try done; cbn; rewrite Hl|].
      intros h' Hle _ _. apply wp_ret. by eapply complete_le.
Qed.
Lemma applyElements_ok h mi es : complete h mi -> (forall e, e ∈ es -> e ∈ ElementSection m) ->
  wp (applyElements address mi es) h (fun _ h' => complete h' mi).
Proof.
  revert h. induction es as [|e es IH]; intros h Hc Hes; cbn [applyElements]; [by apply wp_ret|].
  assert (e ∈ ElementSection m) as [k Hk]%list_elem_of_lookup by (apply Hes, list_elem_of_here).
  apply wp_bind. eapply wp_mono; [by eapply applyElement_ok|]. intros more h' _ Hc' _.
  apply wp_if; intros _; [|by apply wp_ret]. apply IH; [done|]. intros e' He'. apply Hes. by apply list_elem_of_further.
Qed.

(** ** The whole of [instantiate] *)
Definition fresh_instance (self : nat) : ModuleInstance := mkModuleInstance self name m ids own
  (replicate (Z.to_nat (ImportTableCount m + len (TableSection m))) None)
  (replicate (Z.to_nat (ImportGlobalCount m + len (GlobalSection m))) None) None [] [].
Lemma fresh_linking h self : length own = length (d_functions d) -> linking h (fresh_instance self) [].
Proof.
  intros Hl. destruct section_lens as (Lt & Lg & Et & Eg & _). split; cbn; try done.
  - rewrite length_replicate, Lg, Eg. unfold len. lia.
  - rewrite length_replicate, Lt, Et. unfold len. lia.
  - intros k x Hk. by apply elem_of_nil in Hk.
Qed.
Definition finished (h : heap) (mi : ModuleInstance) : Prop :=
  complete h mi /\ Forall (involved h mi) (ExportSection m).
Lemma finished_le h h' mi : heap_le h h' -> finished h mi -> finished h' mi.
Proof.
  intros Hle [Hc He]. split; [by eapply complete_le|]. eapply Forall_impl; [exact He|]. intros e.
  eapply involved_le; [done|by apply complete_linked].
Qed.
Lemma finished_same h mi mi' : same_links mi mi' -> finished h mi -> finished h mi'.
Proof.
  intros Hsl [Hc He]. split; [by eapply complete_same|]. eapply Forall_impl; [exact He|]. intros e. apply involved_same, Hsl.
Qed.
Lemma finished_involved h0 h mi mi' : heap_le h0 h -> finished h0 mi -> same_links mi mi' -> complete h mi' -> finished h mi'.
Proof. intros Hle Hf Hsl Hc. split; [done|]. by eapply finished_same, finished_le. Qed.

Hypothesis Hstart : forall mi i h, linked T h mi d -> wp (callStart mi i) h (fun _ _ => True).
Lemma startSection_ok h mi : finished h mi -> wp (startSection callStart mi) h (fun _ h' => finished h' mi).
Proof.
  intros Hf. unfold startSection. destruct (StartSection (Source mi)) as [i|]; [|by apply wp_ret].
  eapply wp_mono; [apply Hstart, complete_linked, Hf|]. intros [] h' Hle _. by eapply finished_le.
Qed.
Lemma segments_ok h mi : finished h mi ->
  wp (do mi <- buildElementInstances address mi; do mi <- applyData mi; do _ <- applyElements address mi (ElementSection m);
      do _ <- startSection callStart mi; ret mi) h (fun mi' h' => finished h' mi').
Proof.
  intros Hf. apply wp_bind. eapply wp_mono; [apply buildElementInstances_ok, Hf|]. intros mi1 h1 _ [-> Hsl1] _.
  pose proof (finished_same _ _ _ Hsl1 Hf) as Hf1. apply wp_bind.
  eapply wp_mono; [apply applyData_ok, Hf1|]. intros mi2 h2 Hle2 [Hsl2 Hc2] _.
  pose proof (finished_involved _ _ _ _ Hle2 Hf1 Hsl2 Hc2) as Hf2.
  apply wp_bind. eapply wp_mono; [by apply applyElements_ok|]. intros [] h3 Hle3 _ _.
  apply wp_bind. eapply wp_mono; [by eapply startSection_ok, finished_le|]. intros [] h4 _ Hf4 _. by apply wp_ret.
Qed.
Lemma instantiate_ok s order codes h : newModuleEngine m ids codes = Ok own -> length own = length (d_functions d) ->
  IsEnabled (EnabledFeatures s) CoreFeatureReferenceTypes = true -> groups_ok order -> sources_ok s h ->
  wp (instantiate address foreign resolveImport None callStart s order m codes name ids) h (fun mi h' => finished h' mi).
Proof.
  intros Hnew Hl Href Hord Hs. unfold instantiate. rewrite Hnew, Href. apply wp_bind, wp_new_module.
  intros self h0 Hle0 _. pose proof (sources_ok_le _ _ _ Hle0 Hs) as Hs0. apply wp_bind, wp_lift. intros _. cbv zeta.
  apply wp_bind. eapply wp_mono; [exact (resolveImports_ok s order _ h0 Hord Hs0 (fresh_linking h0 self Hl))|]. intros mi1 h1 _ Hlk _.
  apply wp_bind. eapply wp_mono; [exact (buildTables_ok _ _ (all_resolved _ _ _ Hord Hlk))|]. intros mi2 h2 _ Hb2 _.
  apply wp_bind. eapply wp_mono; [exact (buildGlobals_ok _ _ _ Hb2)|]. intros mi3 h3 _ Hb3 _.
  apply wp_bind. eapply wp_mono; [exact (buildMemory_ok _ _ Hb3)|]. intros mi4 h4 _ Hc4 _.
  apply wp_bind. eapply wp_mono; [exact (involveExports_ok _ _ Hc4)|]. intros [] h5 _ Hf5 _.
  apply wp_bind, wp_ret. intros _. by apply segments_ok.
Qed.
End module.

(** ** More types in the store *)
Lemma function_has_more T T' m ti f : T ⊆ T' -> function_has T m ti f -> function_has T' m ti f.
Proof.
  intros HT (g & ft & -> & Hft & Ef & Hid). exists g, ft. split_and!; try done. by eapply lookup_weaken.
Qed.
Lemma inst_ok_more T T' h mi : T ⊆ T' -> inst_ok T h mi -> inst_ok T' h mi.
Proof.
  intros HT (features & limit & d & Hac & [[Hl Hi] Hf Hg Ht Hm] & He). exists features, limit, d. split_and!; try done.
  split; try done.
  - split; [done|]. intros i ft id H1 H2. eapply lookup_weaken; [by eapply Hi|done].
  - eapply Forall2_impl; [exact Hf|]. intros f ti. by apply function_has_more.
Qed.
Lemma store_inv_more T T' h s : T ⊆ T' -> store_inv T h s -> store_inv T' h s.
Proof. intros HT Hs names name mi Hn Hm. eapply inst_ok_more; [done|by eapply Hs]. Qed.

(** ** The functions of the module *)
Lemma CompileModule_length m features et nso codes : Lower.CompileModule m features et nso = Ok codes ->
  length codes = length (CodeSection m).
Proof.
  unfold Lower.CompileModule. destruct (AllDeclarations m) as [d|]; [|done]. intros H.
  match type of H with context [foldm ?f _ _] => set (step := f) in H end.
  destruct (foldm step (Lower.emptyCompiler, []) (seq 0 (length (CodeSection m)))) as [[c bodies]|] eqn:E; [|done].
  injection H as <-. enough (forall l st st', foldm step st l = Ok st' -> length st'.2 = (length st.2 + length l)%nat) as Hall.
  { specialize (Hall _ _ _ E). cbn [snd] in Hall. rewrite Hall, length_seq. done. }
  clear. induction l as [|i l IH]; intros st st' H; cbn [foldm] in H; [injection H as <-; cbn; lia|].
  destruct (step st i) as [st1|] eqn:E; [|done]. rewrite (IH _ _ H). destruct st as [c bodies]. unfold step in E.
  destruct (Lower.Next _ _ _ _ _ _ _ _ _) as [c'|]; [|done]. destruct (Lower.lowerIR _) as [body|]; [|done].
  injection E as <-. cbn [snd length]. rewrite length_app. cbn. lia.
Qed.
Lemma moduleFunctions_count m typeIDs i codes fs : Interp.moduleFunctions m typeIDs i codes = Ok fs -> length fs = length codes.
Proof.
  revert i fs. induction codes as [|c codes IH]; intros i fs H; cbn [Interp.moduleFunctions] in H; [by injection H as <-|].
  destruct (Interp.at_ _ _ _) as [ti|]; [|done].
  repeat match type of H with match ?x with _ => _ end = _ => destruct x eqn:?; [|done] end.
  injection H as <-. cbn. f_equal. by eapply IH.
Qed.
Lemma engine_ok features limit m d T ids codes : accepted features limit m d -> numbered T m ids ->
  length codes = length (CodeSection m) -> exists own, newModuleEngine m ids codes = Ok own /\
    length own = length (d_functions d) /\
    forall j ti, FunctionSection m !! j = Some ti -> exists f,
      own !! (length (imports_of ExternTypeFunc m) + j)%nat = Some f /\ function_has T m ti f.
Proof.
  intros Hac [Hlen Hids] Hcodes. pose proof (ac_counts _ _ _ _ Hac) as Hcount.
  destruct (declared _ _ (ac_decl _ _ _ _ Hac)) as (Df & _). destruct (section_lens _ _ _ _ Hac) as (_ & _ & _ & _ & En).
  destruct (InterpSafe.moduleFunctions_total m ids 0 codes) as [fs Hfs]; [done|done| |].
  { intros k code Hk. destruct (lookup_lt_is_Some_2 (FunctionSection m) k) as [ti Hti]; [apply lookup_lt_Some in Hk; lia|].
    assert (d_functions d !! (length (imports_of ExternTypeFunc m) + k)%nat = Some ti) as Hd.
    { rewrite Df, lookup_app_r by (rewrite length_fmap; lia). rewrite length_fmap, Nat.add_comm, Nat.add_sub. done. }
    destruct (typeOfFunction_ok _ _ _ _ Hac _ _ Hd) as (ft & Hft & _). by exists ti, ft. }
  pose proof (InterpSafe.moduleFunctions_ok _ _ _ _ _ Hfs ltac:(lia)) as Hok.
  assert (length fs = length codes) as Elen by (by eapply moduleFunctions_count).
  unfold newModuleEngine. rewrite Hfs. eexists. split; [done|]. rewrite En, Nat2Z.id. split.
  - rewrite length_app, length_replicate, length_fmap, Df, length_app, length_fmap. lia.
  - intros j ti Hti. destruct (lookup_lt_is_Some_2 fs j) as [f Hf]; [apply lookup_lt_Some in Hti; lia|].
    destruct (Hok j f Hf) as (code & ti' & _ & _ & Hti' & Hft & Hid). change (FunctionSection m !! j = Some ti') in Hti'.
    rewrite Hti in Hti'. injection Hti' as <-. exists (Some f). split.
    + rewrite lookup_app_r by (rewrite length_replicate; lia).
      rewrite length_replicate, Nat.add_comm, Nat.add_sub, list_lookup_fmap, Hf. done.
    + exists f, (Interp.funcType f). split_and!; try done. by eapply Hids.
Qed.

(** ** Closing and instantiation *)
Lemma module_none s name names : nameToModule s = Some names -> names !! name = None -> module s name = Err (NotInstantiated name).
Proof. intros E1 E2. unfold module. by rewrite E1, E2. Qed.
Lemma registered T h s mi s' : registerModule s mi = Ok s' -> store_inv T h s -> inst_ok T h mi -> store_inv T h s' /\
  (ModuleName mi <> [] -> module s (ModuleName mi) = Err (NotInstantiated (ModuleName mi)) /\ module s' (ModuleName mi) = Ok mi).
Proof.
  unfold registerModule. destruct (nameToModule s) as [names|] eqn:En; [|done]. intros H Hs Hmi.
  case_bool_decide as Hname.
  { injection H as <-. split; [|done]. intros ns n v [= <-] Hv. by eapply Hs. }
  destruct (names !! ModuleName mi) eqn:Em; [done|]. injection H as <-. split.
  - intros ns n v [= <-]. destruct (decide (n = ModuleName mi)) as [->|Hne].
    + rewrite lookup_insert_eq. by intros [= <-].
    + rewrite lookup_insert_ne by done. intros Hv. by eapply Hs.
  - intros _. split; [by eapply module_none|]. unfold module. cbn. by rewrite lookup_insert_eq.
Qed.
Lemma not_registered s mi e : registerModule s mi = Err e ->
  e = AlreadyClosed /\ nameToModule s = None \/ e = AlreadyInstantiated (ModuleName mi) /\ ModuleName mi <> [].
Proof.
  unfold registerModule. destruct (nameToModule s) as [names|]; [|intros [= <-]; by left]. case_bool_decide; [done|].
  destruct (_ !! _); [|done]. intros [= <-]. by right.
Qed.
Lemma deleteModule_names s mi : nameToModule (deleteModule s mi) =
  if bool_decide (ModuleName mi = []) then nameToModule s else delete (ModuleName mi) <$> nameToModule s.
Proof. unfold deleteModule. cbv zeta. by case_bool_decide. Qed.
Lemma deleteModule_other s mi n : n <> ModuleName mi -> module (deleteModule s mi) n = module s n.
Proof.
  intros Hn. unfold module. rewrite deleteModule_names. case_bool_decide; [done|]. destruct (nameToModule s) as [names|]; [|done].
  cbn. by rewrite lookup_delete_ne.
Qed.
Lemma deleteModule_self s mi : ModuleName mi <> [] -> module (deleteModule s mi) (ModuleName mi) = Err (NotInstantiated (ModuleName mi)).
Proof.
  intros Hn. unfold module. rewrite deleteModule_names. case_bool_decide; [done|]. destruct (nameToModule s) as [names|]; [|done].
  cbn. by rewrite lookup_delete_eq.
Qed.
Lemma deleteModule_closed s mi : nameToModule s = None -> forall n, module (deleteModule s mi) n = module s n.
Proof. intros E n. unfold module. rewrite deleteModule_names, E. by case_bool_decide. Qed.
Lemma deleteModule_inv T h s mi : store_inv T h s -> store_inv T h (deleteModule s mi).
Proof.
  intros Hs names n v Hn Hv. rewrite deleteModule_names in Hn. case_bool_decide; [by eapply Hs|].
  destruct (nameToModule s) as [ns|] eqn:E; [|done]. injection Hn as <-. apply lookup_delete_Some in Hv as [_ Hv]. by eapply Hs.
Qed.
Lemma ensureResourcesClosed_ok h mi : (forall a, MemoryPtr mi = Some a -> is_Some (h_memories h !! a)) ->
  wp (ensureResourcesClosed mi) h (fun _ _ => True).
Proof.
  intros Hm. unfold ensureResourcesClosed. destruct (MemoryPtr mi) as [a|]; [|by apply wp_ret].
  destruct (Hm a eq_refl) as [mem Hmem]. apply wp_bind. eapply wp_deref; [exact Hmem|]. intros _.
  destruct (WasmMemory.expBuffer mem); [|by apply wp_ret]. by eapply wp_set_memory; [exact Hmem|done|].
Qed.
Lemma CloseWithExitCode_ok h s mi c : (forall a, MemoryPtr mi = Some a -> is_Some (h_memories h !! a)) ->
  wp (CloseWithExitCode s mi c) h (fun s' _ => s' = if Closed mi h =? 0 then deleteModule s mi else s).
Proof.
  intros Hm. unfold CloseWithExitCode, setExitCode. apply wp_bind, wp_bind, wp_gets. intros _.
  apply wp_if; intros E; [|apply wp_ret; intros _; apply wp_ret; by rewrite E].
  apply wp_bind, wp_set_Closed. intros h' Hle _. apply wp_ret. intros _. apply wp_bind. eapply wp_mono; [apply ensureResourcesClosed_ok|].
  - intros a Ha. destruct (Hm a Ha) as [mem Hmem]. destruct (le_memories _ _ Hle a mem Hmem) as (m' & Hm' & _). by eexists.
  - intros [] h2 _ _ _. apply wp_ret. by rewrite E.
Qed.

(** The end of [Instantiate], for an instance that is linked. *)
Lemma registration_ok T h0 h mi s h' s' d r : heap_le h0 h -> store_inv T h s -> inst_ok T h mi -> linked T h mi d ->
  (forall a, MemoryPtr mi = Some a -> is_Some (h_memories h !! a)) ->
  match registerModule s mi with
  | Ok s => (h, s, Ok mi)
  | Err e => match CloseWithExitCode s mi 0 h with (h, Ok s) => (h, s, Err e) | (h, Err panic) => (h, s, Err panic) end
  end = (h', s', r) ->
  heap_le h0 h' /\ store_inv T h' s' /\
  match r with
  | Ok mi' => mi' = mi /\ linked T h' mi d /\
      (ModuleName mi <> [] -> module s (ModuleName mi) = Err (NotInstantiated (ModuleName mi)) /\ module s' (ModuleName mi) = Ok mi)
  | Err (Panics _) => False
  | Err e => forall n, n <> ModuleName mi \/ e <> AlreadyInstantiated (ModuleName mi) -> module s' n = module s n
  end.
Proof.
  intros Hle Hs Hmi Hl Hmem Hrun. destruct (registerModule s mi) as [s1|e] eqn:Ereg.
  { injection Hrun as <- <- <-. destruct (registered _ _ _ _ _ Ereg Hs Hmi). done. }
  destruct (CloseWithExitCode_ok h s mi 0 Hmem) as [Hle1 Hpost]. destruct (CloseWithExitCode s mi 0 h) as [h1 [s1|e1]]; cbn in Hle1, Hpost.
  - injection Hrun as <- <- <-. split; [by etrans|]. split.
    { apply (store_inv_le _ h); [done|]. rewrite Hpost. destruct (_ =? _); [by apply deleteModule_inv|done]. }
    destruct (not_registered _ _ _ Ereg) as [[-> En]|[-> Hn]]; intros n Hne; rewrite Hpost; (destruct (_ =? _); [|done]).
    + by apply deleteModule_closed.
    + apply deleteModule_other. by destruct Hne.
  - injection Hrun as <- <- <-. split_and!; [by etrans|by eapply store_inv_le|by destruct e1].
Qed.

(** C15: Instantiating a validated module links it.  The module was decoded with
    a memory limit of at most 65536 pages, validated and lowered, its index
    spaces together have less than 2^32 entries, the store has reference types
    enabled and no memory allocator is given (without reference types a passive
    segment can make instantiation panic, [InstExamples.passive_segment_panics]);
    every module it can import from was accepted and linked in the same way (so
    none is a host module); an imported function keeps its type and number when
    it is wrapped; the start function is a parameter that keeps the
    types of what is in the heap and does not panic.  Then, whatever the order
    in which Go walks the imported modules: the instance that is registered has
    a function, global and table of the declared type in every slot of its index
    spaces; when it declares a memory, its memory has at least the declared
    minimal pages and at most the declared maximum (the limits of the memory the
    body was validated with when at most one is imported, otherwise of one of
    the imported ones); its function types have the numbers of the store; it is
    found under its name; and every module of the store stays linked.  Otherwise
    an error is returned and the modules still in the store are linked, though
    the heap may have been written, and none is lost unless the name was taken.
    No index is out of range and no nil pointer is followed on the way. *)
Theorem instantiation_links features limit fromMax dwarf store binary m dw d et nso codes st typeIDs st' s order name
    address foreign resolveImport callStart h h' s' r :
  bytes_ok binary -> DecodeModule features limit fromMax dwarf store binary = Ok (m, dw) ->
  WasmModule.Validate m features = Ok tt -> AllDeclarations m = Ok d -> limit <= 65536 ->
  len (ImportSection m) + len (FunctionSection m) + len (GlobalSection m) + len (TableSection m) + len (TypeSection m) < 2 ^ 32 ->
  Lower.CompileModule m features et nso = Ok codes ->
  TypeIDs.store_ok st -> TypeIDs.GetFunctionTypeIDs st (TypeSection m) = Ok (typeIDs, st') ->
  IsEnabled (EnabledFeatures s) CoreFeatureReferenceTypes = true ->
  order ≡ₚ map_to_list (ImportPerModule m) ->
  store_inv (TypeIDs.typeIDs st) h s ->
  (forall n v, resolveImport n = Some v -> inst_ok (TypeIDs.typeIDs st) h v) ->
  (forall mi f, Interp.funcType (foreign mi f) = Interp.funcType f /\ Interp.typeID (foreign mi f) = Interp.typeID f) ->
  (forall mi i h, linked (TypeIDs.typeIDs st') h mi d -> wp (callStart mi i) h (fun _ _ => True)) ->
  Instantiate address foreign resolveImport None callStart s order m codes name typeIDs h = (h', s', r) ->
  heap_le h h' /\ store_inv (TypeIDs.typeIDs st') h' s' /\
  match r with
  | Ok mi => linked (TypeIDs.typeIDs st') h' mi d /\ Source mi = m /\
      (name <> [] -> module s name = Err (NotInstantiated name) /\ module s' name = Ok mi)
  | Err (Panics _) => False
  | Err e => forall n, n <> name \/ e <> AlreadyInstantiated name -> module s' n = module s n
  end.
Proof.
  intros Hb Hdec Hval Hd Hlimit Hfits Hc Hst Hids Href Hord Hs Hres Hforeign Hstart Hrun.
  destruct (TypeIDs.GetFunctionTypeIDs_ok _ _ _ _ Hst Hids) as (_ & Hsub & Hlen & Hall).
  assert (accepted features limit m d) as Hac.
  { split; try done; [by eapply DecodeModule_ok|]. apply ValidationSpec.decoded_counts; [by eapply ValidationSpec.DecodeModule_small|].
    by eapply DecodeModule_code. }
  set (T := TypeIDs.typeIDs st') in *. assert (numbered T m typeIDs) as Hnum by done.
  destruct (engine_ok _ _ _ _ _ _ _ Hac Hnum (CompileModule_length _ _ _ _ _ Hc)) as (own & Hnew & Hown & Hfun).
  assert (sources_ok T resolveImport s h) as Hsrc.
  { split; [by eapply store_inv_more|]. intros n v Hv. by eapply inst_ok_more, Hres. }
  destruct (instantiate_ok features limit m d T typeIDs name own Hac address foreign resolveImport callStart Hforeign Hlimit
    Hnum Hfun Hstart s order codes h Hnew Hown Href Hord Hsrc) as [Hle Hpost].
  unfold Instantiate in Hrun. destruct (instantiate _ _ _ _ _ _ _ _ _ _ _ h) as [h1 [mi|e]]; cbn in Hle, Hpost;
    pose proof (store_inv_le _ _ _ _ Hle (proj1 Hsrc)) as Hs1.
  - destruct Hpost as [Hcomp Hinv]. pose proof (complete_linked _ _ _ _ _ _ _ _ Hac _ Hnum Hfun _ _ Hcomp) as Hl.
    pose proof (bt_resolved _ _ _ _ _ _ _ _ _ _ _ (proj1 Hcomp)) as Hr.
    assert (inst_ok T h1 mi) as Hmi by (exists features, limit, d; by rewrite (lk_source _ _ _ _ _ _ _ _ _ _ Hr)).
    destruct (registration_ok _ _ _ _ _ _ _ _ _ Hle Hs1 Hmi Hl (lk_memory _ _ _ _ _ _ _ _ _ _ Hr) Hrun) as (Hle' & Hs' & H).
    rewrite (lk_name _ _ _ _ _ _ _ _ _ _ Hr) in H. split_and!; [done..|]. destruct r as [mi'|e]; [|done].
    destruct H as (-> & Hl' & Hn). split_and!; [done|apply Hr|done].
  - injection Hrun as <- <- <-. split_and!; [done..|]. by destruct e.
Qed.

(** *** Two modules

    [(module (func $f (param i32) (result i32) local.get 0) (table 2 funcref) (memory 1)
       (global (mut i32) i32.const 7) (export "f" ...) (export "g" ...) (export "t" ...) (export "m" ...))]
    and one that imports the four, puts the function in the table and "Hi" in the memory. *)
Definition exporter : list Z :=
  Magic ++ version ++ [0x01; 6; 1; 0x60; 1; 0x7f; 1; 0x7f] ++ [0x03; 2; 1; 0] ++ [0x04; 4; 1; 0x70; 0; 2] ++ [0x05; 3; 1; 0; 1] ++
  [0x06; 6; 1; 0x7f; 1; 0x41; 7; 0x0b] ++ [0x07; 17; 4; 1; 102; 0; 0; 1; 103; 3; 0; 1; 116; 1; 0; 1; 109; 2; 0] ++
  [0x0a; 6; 1; 4; 0; 0x20; 0; 0x0b].
Definition importer : list Z :=
  Magic ++ version ++ [0x01; 6; 1; 0x60; 1; 0x7f; 1; 0x7f] ++
  [0x02; 29; 4; 1; 97; 1; 102; 0; 0; 1; 97; 1; 103; 3; 0x7f; 1; 1; 97; 1; 116; 1; 0x70; 0; 2; 1; 97; 1; 109; 2; 0; 1] ++
  [0x09; 7; 1; 0; 0x41; 1; 0x0b; 1; 0] ++ [0x0b; 8; 1; 0; 0x41; 0; 0x0b; 2; 72; 105].
Definition empty_heap : heap := mkHeap [] [] [] [].
Definition empty_store : Store := NewStore CoreFeaturesV2.
Definition keepOn (mi : ModuleInstance) (i : Z) : M unit := ret tt.
(** A binary, and its types numbered after those of a store. *)
Definition load (binary : list Z) (st : TypeIDs.Store)
  : option (Module' * declarations * list (list Operations.unionOperation) * list Z * TypeIDs.Store) :=
  match DecodeModule CoreFeaturesV2 65536 false false false binary with
  | Err _ => None
  | Ok (m, _) =>
      match WasmModule.Validate m CoreFeaturesV2, AllDeclarations m, Lower.CompileModule m CoreFeaturesV2 true true,
        TypeIDs.GetFunctionTypeIDs st (TypeSection m) with
      | Ok _, Ok d, Ok codes, Ok (ids, st) =>
          if len (ImportSection m) + len (FunctionSection m) + len (GlobalSection m) + len (TableSection m) + len (TypeSection m) <? 2 ^ 32
          then Some (m, d, codes, ids, st) else None
      | _, _, _, _ => None
      end
  end.
Definition link (s : Store) (name : gostring) (x : Module' * declarations * list (list Operations.unionOperation) * list Z * TypeIDs.Store)
  : heap -> heap * Store * result inst_err ModuleInstance :=
  let '(m, _, codes, ids, _) := x in
  Instantiate (fun i => 1000 + i) (fun _ f => f) (fun _ => None) None keepOn s (map_to_list (ImportPerModule m)) m codes name ids.
Definition shown (h : heap) : list Z * list (list Z) * list Z :=
  (gi_Val <$> h_globals h, ti_References <$> h_tables h, concat (take 3 <$> (Buffer <$> h_memories h))).
Lemma load_parts binary st0 m d codes ids st : load binary st0 = Some (m, d, codes, ids, st) -> exists dw,
  DecodeModule CoreFeaturesV2 65536 false false false binary = Ok (m, dw) /\ WasmModule.Validate m CoreFeaturesV2 = Ok tt /\
  AllDeclarations m = Ok d /\
  len (ImportSection m) + len (FunctionSection m) + len (GlobalSection m) + len (TableSection m) + len (TypeSection m) < 2 ^ 32 /\
  Lower.CompileModule m CoreFeaturesV2 true true = Ok codes /\ TypeIDs.GetFunctionTypeIDs st0 (TypeSection m) = Ok (ids, st).
Proof.
  unfold load. destruct (DecodeModule _ _ _ _ _ _) as [[m' dw]|]; [|done].
  destruct (WasmModule.Validate m' CoreFeaturesV2) as [[]|] eqn:E0; [|done]. destruct (AllDeclarations m') as [d'|] eqn:E1; [|done].
  destruct (Lower.CompileModule _ _ _ _) as [codes'|] eqn:E2; [|done].
  destruct (TypeIDs.GetFunctionTypeIDs _ _) as [[ids' st']|] eqn:E3; [|done].
  destruct (Z.ltb_spec (len (ImportSection m') + len (FunctionSection m') + len (GlobalSection m') + len (TableSection m') +
    len (TypeSection m')) (2 ^ 32)); [|done]. intros [= -> -> -> -> ->]. by exists dw.
Qed.
Lemma empty_store_inv T : store_inv T empty_heap empty_store.
Proof. intros names n mi [= <-] H. by rewrite lookup_empty in H. Qed.
Lemma loaded_types binary st0 m d codes ids st : load binary st0 = Some (m, d, codes, ids, st) -> TypeIDs.store_ok st0 -> TypeIDs.store_ok st.
Proof. intros H Hs. destruct (load_parts _ _ _ _ _ _ _ H) as (dw & _ & _ & _ & _ & _ & Ht). by eapply TypeIDs.GetFunctionTypeIDs_ok. Qed.
Lemma keepOn_ok T d : forall mi i h, linked T h mi d -> wp (keepOn mi i) h (fun _ _ => True).
Proof. intros mi i h _. by apply wp_ret. Qed.

Definition both (a b : list Z) :=
  match load a TypeIDs.NewStore with
  | None => None
  | Some x1 =>
      match load b x1.2, link empty_store [97] x1 empty_heap with
      | Some x2, (h1, s1, Ok mi1) =>
          match link s1 [98] x2 h1 with (h2, s2, Ok mi2) => Some (x1, x2, h1, mi1, s1, h2, mi2, s2) | _ => None end
      | _, _ => None
      end
  end.
Definition both_end (P : Store -> heap -> Prop) (a b : list Z) : Prop :=
  match both a b with Some (_, _, _, _, s1, h2, _, _) => P s1 h2 | None => False end.
Definition linked_end (s : Store) (h : heap) : Prop :=
  EnabledFeatures s = CoreFeaturesV2 /\ shown h = ([7], [[0; 1000]], [72; 105; 0]).
Lemma both_shown : both_end linked_end exporter importer.
Proof. vm_compute. split; reflexivity. Qed.
Lemma both_parts a b (P : Store -> heap -> Prop) : both_end P a b ->
  exists x1 x2 h1 mi1 s1 h2 mi2 s2, load a TypeIDs.NewStore = Some x1 /\ load b x1.2 = Some x2 /\
    link empty_store [97] x1 empty_heap = (h1, s1, Ok mi1) /\ link s1 [98] x2 h1 = (h2, s2, Ok mi2) /\ P s1 h2.
Proof.
  unfold both_end, both. destruct (load a TypeIDs.NewStore) as [x1|] eqn:E1; [|done]. destruct (load b x1.2) as [x2|] eqn:E2; [|done].
  destruct (link empty_store [97] x1 empty_heap) as [[h1 s1] [mi1|]] eqn:E3; [|done].
  destruct (link s1 [98] x2 h1) as [[h2 s2] [mi2|]] eqn:E; [|done]. intros H. by exists x1, x2, h1, mi1, s1, h2, mi2, s2.
Qed.

Lemma instantiation_links_witness : exists x1 x2 h1 mi1 s1 h2 mi2 s2,
  load exporter TypeIDs.NewStore = Some x1 /\ load importer x1.2 = Some x2 /\
  link empty_store [97] x1 empty_heap = (h1, s1, Ok mi1) /\ link s1 [98] x2 h1 = (h2, s2, Ok mi2) /\
  linked (TypeIDs.typeIDs x2.2) h2 mi2 x2.1.1.1.2 /\ module s2 [98] = Ok mi2 /\ shown h2 = ([7], [[0; 1000]], [72; 105; 0]).
Proof.
  destruct (both_parts _ _ _ both_shown)
    as (x1 & x2 & h1 & mi1 & s1 & h2 & mi2 & s2 & L1 & L2 & I1 & I2 & Hfeatures & Hshown).
  destruct x1 as [[[[m1 d1] codes1] ids1] st1], x2 as [[[[m2 d2] codes2] ids2] st2].
  destruct (load_parts _ _ _ _ _ _ _ L1) as (dw1 & A1 & A2 & A3 & A4 & A5 & A6).
  destruct (load_parts _ _ _ _ _ _ _ L2) as (dw2 & B1 & B2 & B3 & B4 & B5 & B6).
  destruct (instantiation_links CoreFeaturesV2 65536 false false false exporter m1 dw1 d1 true true codes1 TypeIDs.NewStore ids1 st1
    empty_store (map_to_list (ImportPerModule m1)) [97] (fun i => 1000 + i) (fun _ f => f) (fun _ => None) keepOn
    empty_heap h1 s1 (Ok mi1)) as (_ & Hs1 & _);
    [repeat constructor; unfold is_byte; lia|exact A1|exact A2|exact A3|lia|exact A4|exact A5|exact TypeIDs.NewStore_ok|exact A6
    |reflexivity|reflexivity|apply empty_store_inv|discriminate|by split|apply keepOn_ok|exact I1|].
  destruct (instantiation_links CoreFeaturesV2 65536 false false false importer m2 dw2 d2 true true codes2 st1 ids2 st2
    s1 (map_to_list (ImportPerModule m2)) [98] (fun i => 1000 + i) (fun _ f => f) (fun _ => None) keepOn
    h1 h2 s2 (Ok mi2)) as (_ & _ & Hl & _ & Hn);
    [repeat constructor; unfold is_byte; lia|exact B1|exact B2|exact B3|lia|exact B4|exact B5
    |exact (loaded_types _ _ _ _ _ _ _ L1 TypeIDs.NewStore_ok)|exact B6| |reflexivity|exact Hs1|discriminate|by split
    |apply keepOn_ok|exact I2|].
  - rewrite Hfeatures. reflexivity.
  - exists (m1, d1, codes1, ids1, st1), (m2, d2, codes2, ids2, st2), h1, mi1, s1, h2, mi2, s2. split_and!; try assumption. by apply Hn.
Defined.
End InstSpec.
