(* ===== verification/InstExamples.v ===== *)
(** * Instantiation and closing: exit codes, and behaviours that surprise

    The exit code of the first close is the one a later call reports.  Then, on
    concrete modules: a name that is taken is forgotten, null entries of an
    active segment are skipped, passive segments of external references are
    empty, offsets from 2^31 on are refused, two imported memories are
    accepted, a grown table is matched by its first size, closing gives an
    imported memory back, and without reference types a passive segment of a
    module without tables makes instantiation panic. *)
From S2P Require Import Prelude Leb128 GoStd Opcodes WasmBinary WasmBinarySpec FuncValidation WasmModule WasmMemory Operations Lower TypeIDs Interp Instantiate InstHeap InstModule InstSpec.

Module InstExamples.
Import GoStd WasmBinary WasmBinarySpec Instantiate InstHeap InstSpec.

(** ** Exit codes *)
Definition live (m : ModuleInstance) (h : heap) : Prop := (Self m < length (h_Closed h))%nat.
Lemma exit_code_word c flag : in_u 32 c -> 0 < flag < 2 ^ 32 ->
  Z.lor flag (u64 (Z.shiftl c 32)) <> 0 /\ u32 (Z.shiftr (Z.lor flag (u64 (Z.shiftl c 32))) 32) = c.
Proof.
  intros Hc Hf. rewrite Z.shiftl_mul_pow2 by lia. unfold u64. rewrite wrapu_small by (unfold in_u in *; lia). split.
  - intros [-> _]%Z.lor_eq_0_iff. lia.
  - rewrite Z.shiftr_lor, (Z.shiftr_div_pow2 flag), (Z.div_small flag) by lia. rewrite Z.lor_0_l, Z.shiftr_div_pow2, Z.div_mul by lia.
    by apply wrapu_small.
Qed.
(** A module is closed once, and then reports the exit code it was closed with. *)
Lemma setExitCode_first m c flag h : live m h -> Closed m h = 0 -> exists h',
  setExitCode m c flag h = (h', Ok true) /\ Closed m h' = Z.lor flag (u64 (Z.shiftl c 32)) /\ live m h' /\
  h_memories h' = h_memories h.
Proof.
  intros Hl H0. unfold setExitCode, bind, gets, set_Closed, ret. rewrite H0. cbn [Z.eqb]. eexists. split; [done|].
  unfold Closed, live. cbn. rewrite list_lookup_insert_eq, length_insert by done. done.
Qed.
Lemma setExitCode_again m c flag h : Closed m h <> 0 -> setExitCode m c flag h = (h, Ok false).
Proof. intros H. unfold setExitCode, bind, gets. by rewrite (proj2 (Z.eqb_neq _ _) H). Qed.
Lemma first_exit_code s m c c' h : live m h -> Closed m h = 0 -> in_u 32 c -> MemoryPtr m = None -> exists h1,
  CloseWithExitCode s m c h = (h1, Ok (deleteModule s m)) /\ FailIfClosed m h1 = (h1, Ok (Some c)) /\
  (forall s', CloseWithExitCode s' m c' h1 = (h1, Ok s')).
Proof.
  intros Hl H0 Hc Hm. destruct (setExitCode_first m c exitCodeFlagResourceClosed h Hl H0) as (h1 & E & Ec & _). exists h1.
  destruct (exit_code_word c exitCodeFlagResourceClosed) as [Hn Hw]; [done|unfold exitCodeFlagResourceClosed; lia|]. rewrite <-Ec in Hn, Hw.
  unfold CloseWithExitCode, FailIfClosed, bind, gets. split_and!.
  - rewrite E. unfold ensureResourcesClosed. by rewrite Hm.
  - rewrite (proj2 (Z.eqb_neq _ _) Hn). unfold ensureResourcesClosed. rewrite Hm. rewrite Hw. by destruct (_ =? _).
  - intros s'. by rewrite setExitCode_again.
Qed.

(** ** A taken name is forgotten

    The second instance is refused, and closing it frees the name, so that the
    first one, which is still open, is no longer found. *)
Definition twice : option (bool * bool * bool) :=
  match load exporter TypeIDs.NewStore with
  | None => None
  | Some x =>
      let '(h1, s1, r1) := link empty_store [97] x empty_heap in
      let '(h2, s2, r2) := link s1 [97] x h1 in
      Some (match r1, module s1 [97] with Ok _, Ok _ => true | _, _ => false end,
            match r2 with Err (AlreadyInstantiated _) => true | _ => false end,
            match module s2 [97], r1 with Err (NotInstantiated _), Ok m => Closed m h2 =? 0 | _, _ => false end)
  end.
Theorem taken_name_is_forgotten : twice = Some (true, true, true).
Proof. vm_compute. reflexivity. Qed.

(** ** Null entries of an active segment are skipped

    [(table 1 funcref) (elem (i32.const 0) func 0) (elem (i32.const 0) funcref (ref.null func))]. *)
Definition null_elements : list Z :=
  Magic ++ version ++ [0x01; 4; 1; 0x60; 0; 0] ++ [0x03; 2; 1; 0] ++ [0x04; 4; 1; 0x70; 0; 1] ++
  [0x09; 15; 2; 0; 0x41; 0; 0x0b; 1; 0; 4; 0x41; 0; 0x0b; 1; 0xd0; 0x70; 0x0b] ++ [0x0a; 4; 1; 2; 0; 0x0b].
(** The tables of the heap and the passive segments, for a module linked in an empty store. *)
Definition linked_alone (binary : list Z) : option (list (list Z) * list (list Z)) :=
  match load binary TypeIDs.NewStore with
  | None => None
  | Some x => match link empty_store [97] x empty_heap with
              | (h, _, Ok mi) => Some (ti_References <$> h_tables h, ElementInstances mi)
              | _ => None
              end
  end.
Theorem null_elements_are_skipped : linked_alone null_elements = Some ([[1000]], [[]; []]).
Proof. vm_compute. reflexivity. Qed.

(** ** A passive segment of external references is empty

    [(table 1 externref) (elem externref (ref.null extern))]. *)
Definition extern_elements : list Z :=
  Magic ++ version ++ [0x04; 4; 1; 0x6f; 0; 1] ++ [0x09; 7; 1; 5; 0x6f; 1; 0xd0; 0x6f; 0x0b].
Theorem extern_elements_are_dropped : linked_alone extern_elements = Some ([[0]], [[]]).
Proof. vm_compute. reflexivity. Qed.

(** ** An offset from 2^31 on is out of bounds, whatever the memory *)
Theorem high_offsets_are_refused mi k d h a mem : MemoryPtr mi = Some a -> h_memories h !! a = Some mem ->
  da_Passive d = false -> ce_Opcode (da_OffsetExpression d) = OpcodeI32Const ->
  loaded (Leb128.LoadInt32 (ce_Data (da_OffsetExpression d))) < 0 -> applyOneData mi k d h = (h, Err (DataOutOfBounds k)).
Proof.
  intros Hm Ha Hp Ho Hneg. unfold applyOneData, executeConstExpressionI32, memoryAt, bind, deref, ret. rewrite Hp, Ho.
  cbn [Z.eqb Pos.eqb OpcodeI32Const set_DataInstances MemoryPtr]. rewrite Hm, Ha. by rewrite (proj2 (Z.ltb_lt _ _) Hneg).
Qed.
(** [i32.const 0x80000000], the offset 2^31 of a memory of 32769 pages. *)
Lemma high_offset_bytes : Leb128.LoadInt32 [0x80; 0x80; 0x80; 0x80; 0x78] = Ok (- 2 ^ 31, 5) /\ u32 (- 2 ^ 31) = 2 ^ 31.
Proof. split; vm_compute; reflexivity. Qed.

(** ** Two imported memories are accepted

    The module uses the one that Go's walk over the map comes to last. *)
Definition two_memories : list Z :=
  Magic ++ version ++ [0x02; 15; 2; 1; 97; 1; 109; 2; 0; 0; 1; 98; 1; 109; 2; 0; 0].
Definition memory_exporter : list Z := Magic ++ version ++ [0x05; 3; 1; 0; 0] ++ [0x07; 5; 1; 1; 109; 2; 0].
Definition with_order (rev_ : bool) : option (option nat) :=
  match load memory_exporter TypeIDs.NewStore, load two_memories TypeIDs.NewStore with
  | Some x, Some (m, _, codes, ids, _) =>
      let '(h1, s1, _) := link empty_store [97] x empty_heap in
      let '(h2, s2, _) := link s1 [98] x h1 in
      let order := map_to_list (ImportPerModule m) in
      match Instantiate (fun i => 1000 + i) (fun _ f => f) (fun _ => None) None keepOn s2 (if rev_ then rev order else order) m codes [99] ids h2 with
      | (_, _, Ok mi) => Some (MemoryPtr mi)
      | _ => None
      end
  | _, _ => None
  end.
Theorem imported_memory_depends_on_order : with_order false = Some (Some 0%nat) /\ with_order true = Some (Some 1%nat).
Proof. split; vm_compute; reflexivity. Qed.

(** ** A table that has grown is matched by its first size

    Its ten entries are enough for an import of at least five, but [Min] is the
    minimum it was declared with, which [Grow] leaves as it is. *)
Theorem grown_table_is_refused :
  tableMismatch (mkTable 5 None RefTypeFuncref) (mkTableInstance (replicate 10 0) 1 None RefTypeFuncref []) = Some (MinSizeMismatch 5 1).
Proof. reflexivity. Qed.

(** ** Closing a module gives the memory it imports back to the allocator

    The memory belongs to the module that defines it, which is still open. *)
Theorem closing_frees_imported_memory s m m' c h a mem lm : live m h -> Closed m h = 0 -> MemoryPtr m = Some a ->
  MemoryPtr m' = Some a -> Self m <> Self m' -> Closed m' h = 0 ->
  h_memories h !! a = Some mem -> WasmMemory.expBuffer mem = Some lm -> exists h' mem',
  CloseWithExitCode s m c h = (h', Ok (deleteModule s m)) /\ Closed m' h' = 0 /\ h_memories h' !! a = Some mem' /\
  WasmMemory.expBuffer mem' = None.
Proof.
  intros Hl H0 Hm Hm' Hne H0' Ha He. unfold CloseWithExitCode, setExitCode, bind, gets, set_Closed, ret. rewrite H0. cbn [Z.eqb].
  unfold ensureResourcesClosed. rewrite Hm. unfold bind, deref. cbn [h_memories]. rewrite Ha, He. unfold set_memory. cbn [h_memories h_globals h_tables h_Closed].
  eexists _, _. split; [reflexivity|]. unfold Closed. cbn. rewrite list_lookup_insert_ne by done.
  rewrite list_lookup_insert_eq by (by eapply lookup_lt_Some). done.
Qed.

(** ** Without reference types passive segments are checked against a table

    [(func) (elem func 0)]: bulk memory operations are enabled, reference types
    are not, and the bounds of the segment are checked against the table it
    does not have. *)
Definition without_references : Z := Z.lxor CoreFeaturesV2 CoreFeatureReferenceTypes.
Definition passive_segment : list Z :=
  Magic ++ version ++ [0x01; 4; 1; 0x60; 0; 0] ++ [0x03; 2; 1; 0] ++ [0x09; 5; 1; 1; 0; 1; 0] ++ [0x0a; 4; 1; 2; 0; 0x0b].
Definition linked_without : option (result inst_err nat) :=
  match DecodeModule without_references 65536 false false false passive_segment with
  | Ok (m, _) =>
      match WasmModule.Validate m without_references, Lower.CompileModule m without_references true true with
      | Ok _, Ok codes =>
          match link (NewStore without_references) [97] (m, WasmModule.mkDecls [] [] None [], codes, [0], TypeIDs.NewStore) empty_heap with
          | (_, _, Ok mi) => Some (Ok (Self mi))
          | (_, _, Err e) => Some (Err e)
          end
      | _, _ => None
      end
  | Err _ => None
  end.
Theorem passive_segment_panics : linked_without = Some (Err (Panics "tables")).
Proof. vm_compute. reflexivity. Qed.
End InstExamples.
